(* ===== verification/_CoqProject ===== *)
-Q . S2P
Prelude.v
RingBuffer.v
RingThreads.v
OrdTree.v
RbTree.v
RbShape.v
RbHeap.v
RbDelete.v
RbIter.v
RbRefine.v
TimerQueue.v
TimerWork.v
TimerOwners.v
OlsrContext.v
OlsrSpf.v
OlsrMantissa.v
NetUtil.v
CJson.v
CFormat.v
CJsonParse.v
CJsonSafe.v
CJsonGrammar.v
CJsonPrint.v
CJsonText.v
CJsonRound.v
CJsonMinify.v
HeapLogic.v
CJsonHeap.v
CJsonItems.v
CJsonCopy.v
CJsonCompare.v
CJsonClient.v
CJsonRefine.v
MsgQueue.v
Phy.v
Mac.v
Cll.v
OlsrNeighbor.v
OlsrMpr.v
OlsrHello.v
OlsrTc.v
OlsrForwarding.v
OlsrRoute.v
RouteIface.v
OlsrRouteIface.v
OlsrDelivery.v
OlsrInv.v
OlsrStart.v
OlsrHelloRun.v
OlsrExpire.v
OlsrTraffic.v
OlsrWork.v
OlsrNode.v
OlsrNetwork.v
OlsrHandshake.v
Net.v
NetStreams.v
Simulator.v
SimConf.v
SimProc.v
SimCommands.v
SimConfig.v
SimLocal.v
SimReport.v
SimServer.v
SimStream.v
NetPackets.v
SimFront.v
Medium.v
