(* ===== verification/Prelude.v ===== *)
(** A verification of sy-netsim, a simulator of mobile ad-hoc networks

    * The program

    The simulator process (src/simulator) takes JSON messages from a front end, starts
    one radio simulator (src/simphy) and for every node a MAC process (src/simmac) and a
    node process (src/simnet), and configures them.  The processes talk through message
    queues (src/util/mq.c).  A node process gives the packets of its MAC queue to a
    routing module behind a table of functions (src/simnet/route_iface.h); the module is
    OLSR (src/simnet/olsr).  Under them lie a timer queue and a red-black tree
    (src/ext/timerqueue), a ring buffer, circular lists and packet headers (src/util), and
    the cJSON library (src/ext/cjson).

    * How it is modelled

    Each file translates C functions under their own names into functions on explicit
    state.  A function returns [res]: a value, [UB] for an access the C standard gives no
    meaning (outside a block, through a null or dangling pointer, a shift out of range),
    [Exit] for a call of [exit], or [NoFuel].  A byte buffer is a [list Z] with its exact
    size, and every load, store and copy is checked against it; multi-byte fields are read
    and written at the offsets of the packed structs in the byte order of the host.
    Unsigned arithmetic wraps where the C type does ([u8], [u16], [u32], [u64]).

    Structures with pointers have two models where it matters.  [Cll] and [RbTree] are the
    code on a heap of nodes, and [cll_refines_sequence] and the theorems of [RbRefine] show
    that it does what the sequences (lists, and the sorted sequences of [OrdTree]) do that
    the rest of the development uses.  The items of cJSON are trees in [CJson], which the
    parser and the printer use, and linked nodes on a heap in [CJsonHeap];
    [tree_programs_refine] relates the two.  The ring buffer is a sequence of whole operations in
    [RingBuffer] and of single loads and stores in [RingThreads].  Timers ([TimerQueue]) are objects on a heap, freed
    late; a pointer into a table is the key of the element, and following it when the
    element is gone is [UB].

    Fuel bounds loops that are not structural.  Each theorem about such a loop names the
    fuel that is enough: the number of waiting messages for a polling loop, the length of
    the text for the JSON parser, twice the logarithm of the number of nodes for a path in a
    red-black tree ([rb_fuel]), the number of cells of the heap for a walk over a tree of
    items, the nanoseconds the timers are overdue for the timer loop.
    No theorem holds for lack of fuel: each says that the run returns.

    * The parts

    - [Prelude]: outcomes, buffers, fields, loops, and lemmas all files use.
    - Data structures.  [RingBuffer] (util/ringbuffer.c, bufferpool.c), [RingThreads] (the same
      functions as programs of single memory accesses, run by two threads), [Cll] (util/cll.c),
      [OrdTree] (what the red-black tree promises its clients), [RbTree] (ext/timerqueue/rbtree.c
      on a heap with parent pointers), [RbShape] (the shapes the pointers form and the
      red-black argument), [RbHeap], [RbDelete], [RbIter] (the pointer code in separation
      logic) and [RbRefine] (refinement, without the logic), [TimerQueue] and [TimerWork]
      (ext/timerqueue/timerqueue.c).
    - JSON.  [CJson] (items), [CFormat] (numbers as text), [CJsonParse] (the parser),
      [CJsonSafe] and [CJsonGrammar] (its theorems), [CJsonPrint] (the printer), [CJsonText]
      and [CJsonRound] (its theorems), [CJsonMinify].  The tree functions: [HeapLogic] (a
      separation logic in which nothing is dropped, so that leaks show), [CJsonHeap] (the functions on
      nodes and strings), [CJsonItems] (which nodes make up an item; adding, detaching, inserting,
      replacing, deleting), [CJsonCopy] (creating, naming, finding, duplicating), [CJsonCompare],
      [CJsonClient] (an abstract account of every call) and [CJsonRefine] (programs made of the calls).
    - OLSR.  [OlsrContext] (state and statistics), [OlsrMantissa] (intervals), [OlsrNeighbor]
      (neighbours and links), [OlsrMpr] (relays), [OlsrHello] and [OlsrTc] (messages),
      [OlsrForwarding], [OlsrSpf] (routes), [OlsrRoute] (packets and timers) and
      [OlsrRouteIface] (entry points), over [NetUtil] (util/netutil.c).
    - A whole OLSR node.  [TimerOwners] (timers and the elements that point to them), [OlsrInv]
      (the invariant of a node between two events), [OlsrStart], [OlsrHelloRun], [OlsrExpire],
      [OlsrTraffic] (what nodes send), [OlsrWork] and [OlsrNode] (start, HELLO, expiry, sending,
      periodic work and reception keep it), [OlsrNetwork] (any number of nodes, any medium) and
      [OlsrHandshake] (two nodes become neighbours).
    - Processes.  [MsgQueue] (util/mq.c over any message service with the documented laws),
      [Mac] (simmac/simmac.c), [Phy] (simphy/simphy.c), [RouteIface] and [Net] (simnet/simnet.c,
      mac_connection.c, net_command.c, net_report.c, dummy.c, main.c), [Simulator], [SimConf],
      [SimConfig], [SimReport], [SimServer] (src/simulator).
    - Properties that cross parts.  [NetStreams] and [NetPackets] (the node process), [SimProc],
      [SimCommands], [SimLocal], [SimStream], [SimFront] (the simulator and its front end),
      [OlsrDelivery] (several OLSR nodes), [Medium] (all MAC processes, the radio simulator and
      the queues between them as one transition system).

    Interfaces are classes: [TreeKey] and [CmpOrder] (what a tree needs of its keys),
    [MsgService] and [MsgServiceOk] (the kernel's queues, with [ListQueues] as an instance),
    [RouteConfig] and [RouteModuleOk] (what a routing module promises the node process, with
    [olsr_module_ok] as an instance), [TimerClient] (what a client promises the timer loop, with
    [olsr_client] as the instance of the OLSR node).

    * What is proved

    Nodes and networks: from the start on, whatever the nodes do and whatever frames are lost,
    repeated or delayed, every call of the OLSR module returns, every node keeps its invariant
    and delivers only packets that were handed in and are addressed to it ([network_safe]); the
    three kinds of event of one node: the timers ([olsr_work_correct]), packets
    ([olsr_packets_handled]) and what it learns from a HELLO ([process_olsr_hello_correct]).  Three HELLOs between two
    nodes make them symmetric neighbours with routes to each other ([handshake_completes]).

    Routing: the table holds exactly the shortest walks ([calc_routing_table_shortest]); data
    packets reach their destination unchanged ([data_delivery]), topology messages their
    neighbours ([tc_propagation]); relays cover the two-hop neighbourhood
    ([populate_mpr_set_correct]); each message is forwarded once at most
    ([olsr_msg_forwarding_at_most_once]); messages and packets read back as they were written
    ([hello_roundtrip], [olsr_packet_roundtrip], [mip_roundtrip]).

    Network: one turn of the radio simulator sends each frame to exactly the nodes that hear
    its sender ([simphy_work_distributes]); whatever turns have run, the next one of any process
    is defined ([medium_safe]); in every fair order of turns with room in the queues each
    frame arrives ([frames_arrive]); the node process loses and repeats nothing
    ([recvfrom_mac_delivers], [send_net_report_complete]).

    Simulator: the byte streams to and from the front end carry exactly the messages
    ([client_stream], [reports_reach_front]); the messages have their effect in the other processes
    ([traffic_reaches_streams], [link_matrix_applied], [net_commands_refine]); processes are
    neither lost nor left over ([children_tracked], [start_simulation]); the local mode does what
    its file says ([local_mode]).

    JSON: the parser is safe on every text ([cJSON_Parse_safe]) and complete for the grammar
    ([cJSON_Parse_complete]); the printer writes the text of the item ([cJSON_Print_text]), which is
    parsed back to the item ([cJSON_Print_Parse]), and minifying the formatted text gives the
    unformatted one ([minify_print]).  Programs that build, change, copy, compare and delete items, with an
    allocator that may fail at each call, have the trees on the heap that the abstract account
    predicts, and lose no memory ([tree_programs_refine]); a copy equals its original
    ([duplicate_compares]).

    Data structures: the pointer code of the red-black tree refines sorted sequences and keeps
    the red-black invariant ([rbtree_insert_refines], [rbtree_delete_refines],
    [rbtree_search_refines], [rbtree_iteration], [rbtree_calls_safe]); the ring buffer is a bounded queue
    ([RingBuffer_refines_queue]); with one thread that pushes and one that pops, without a lock, the
    bytes arrive once and in order in every interleaving in which the reader does not run
    between the two stores of the tail ([ring_threads_safe]; the examples after it are runs that go
    wrong); the circular list is a sequence ([cll_refines_sequence]); the timer loop
    ends ([timerqueue_work_terminates]).

    * Assumptions

    Allocation succeeds, except in [CJsonHeap].  The host is little-endian with 32-bit [int] and 64-bit [size_t].  The
    message service, the clock, [rand] and the results of [fork] are parameters; the laws of the
    message service are those of the manual pages, messages are lost only when a queue is full.
    Uninitialised memory is a parameter (the names [junk]), so the theorems hold for any
    contents.  In [SimServer] the two threads of the simulator are taken to alternate between whole
    operations on the two ring buffers they share without a lock; what can go wrong when they do
    not is in [RingThreads].  [PhyTurn], [MacTurn] and [NetTurn] of
    [Medium] are whole turns: a process only shares the queues, whose operations are atomic.

    * Not modelled

    Printing and logging (util/util.c, include/log.h, the dump functions of the OLSR files, the text
    output of olsr_mantissa.c and olsr_context.c), the AODV stub, which is empty, argument
    parsing, signal handling, sleeping, sockets, and the releases at the end of a run.  The
    parser and the printer of cJSON are modelled on values and growing blocks, with allocation that
    succeeds; the memory hooks are a definition only ([cJSON_InitHooks]).  In the programs of
    [CJsonClient] names come from memory that the program keeps, calls are made on the roots of
    trees, and references ([cJSON_AddItemReferenceToArray] and the like), which make two items share
    children, are defined but take no part in the theorems.

    What could follow: the parser on the heap of [CJsonHeap], so that its own release of a partial
    tree is covered, and calls on items inside a tree. *)
From stdpp Require Import base list numbers gmap.
From Stdlib Require Import ZArith Lia Permutation.

Open Scope Z_scope.

(** [lia] decides goals with division and remainder by constants. *)
Ltac Zify.zify_post_hook ::= Z.to_euclidean_division_equations.

(** ** Outcomes of C code

    [Ok a] is a normal return; [UB] is an access the C standard gives no
    meaning to (out of bounds, null or dangling pointer); [Exit c] is a call of
    [exit(c)]; [NoFuel] says that the bound given to a loop was too small, and
    termination theorems exclude it. *)
Inductive res (A : Type) : Type :=
  | Ok (a : A)
  | UB
  | Exit (code : Z)
  | NoFuel.
Arguments Ok {A} a.
Arguments UB {A}.
Arguments Exit {A} code.
Arguments NoFuel {A}.

Definition rbind {A B} (m : res A) (k : A -> res B) : res B :=
  match m with
  | Ok a => k a
  | UB => UB
  | Exit c => Exit c
  | NoFuel => NoFuel
  end.

Declare Scope c_scope.
Delimit Scope c_scope with c.
Notation "'let*' x ':=' m 'in' k" := (rbind m (fun x => k))
  (at level 10, x pattern, m at level 100, k at level 200) : c_scope.
Open Scope c_scope.

(** Dereferencing the result of a search: a null pointer is [UB]. *)
Definition deref {A} (o : option A) : res A :=
  match o with Some a => Ok a | None => UB end.

Definition is_ok {A} (m : res A) : bool :=
  match m with Ok _ => true | _ => false end.

(** A loop over a list whose body may fail. *)
Fixpoint rfold {A S} (f : S -> A -> res S) (l : list A) (s : S) : res S :=
  match l with
  | [] => Ok s
  | a :: l' => let* s' := f s a in rfold f l' s'
  end.

(** ** Machine integers *)
Definition u8 (z : Z) : Z := z mod 2 ^ 8.
Definition u16 (z : Z) : Z := z mod 2 ^ 16.
Definition u32 (z : Z) : Z := z mod 2 ^ 32.
Definition u64 (z : Z) : Z := z mod 2 ^ 64.
Definition i32 (z : Z) : Z := (z + 2 ^ 31) mod 2 ^ 32 - 2 ^ 31.

Definition is_u8 (z : Z) : Prop := 0 <= z < 256.
Definition is_u16 (z : Z) : Prop := 0 <= z < 65536.
Definition is_u32 (z : Z) : Prop := 0 <= z < 4294967296.

(** [htons]/[ntohs] on a little-endian host. *)
Definition htons (z : Z) : Z := u16 z mod 256 * 256 + u16 z / 256.
Definition ntohs (z : Z) : Z := htons z.

(** ** Memory blocks: lists of bytes *)
Definition zlen {A} (l : list A) : Z := Z.of_nat (length l).

Definition zslice (b : list Z) (off n : Z) : res (list Z) :=
  if (0 <=? off) && (0 <=? n) && (off + n <=? zlen b)
  then Ok (take (Z.to_nat n) (drop (Z.to_nat off) b))
  else UB.

Definition zblit (b : list Z) (off : Z) (s : list Z) : res (list Z) :=
  if (0 <=? off) && (off + zlen s <=? zlen b)
  then Ok (take (Z.to_nat off) b ++ s ++ drop (Z.to_nat (off + zlen s)) b)
  else UB.

(** [memcpy(&dst[doff], &src[soff], n)] *)
Definition memcpy (dst : list Z) (doff : Z) (src : list Z) (soff n : Z) : res (list Z) :=
  let* s := zslice src soff n in zblit dst doff s.

Definition rd8 (b : list Z) (off : Z) : res Z :=
  if 0 <=? off then deref (b !! Z.to_nat off) else UB.
Definition rd16 (b : list Z) (off : Z) : res Z :=
  let* x0 := rd8 b off in
  let* x1 := rd8 b (off + 1) in
  Ok (x0 + 256 * x1).
Definition rd32 (b : list Z) (off : Z) : res Z :=
  let* x0 := rd16 b off in
  let* x1 := rd16 b (off + 2) in
  Ok (x0 + 65536 * x1).

Definition le16 (z : Z) : list Z := [u8 z; u8 (z / 256)].
Definition le32 (z : Z) : list Z := le16 z ++ le16 (z / 65536).

Definition wr8 (b : list Z) (off v : Z) : res (list Z) := zblit b off [u8 v].
Definition wr16 (b : list Z) (off v : Z) : res (list Z) := zblit b off (le16 v).
Definition wr32 (b : list Z) (off v : Z) : res (list Z) := zblit b off (le32 v).

(** ** Tactics *)
Ltac bool_lia :=
  repeat match goal with
  | |- context [ ?a <=? ?b ] => destruct (Z.leb_spec a b)
  | |- context [ ?a <? ?b ] => destruct (Z.ltb_spec a b)
  | |- context [ ?a =? ?b ] => destruct (Z.eqb_spec a b)
  end; cbn [andb orb negb]; try lia.

Ltac inv_ok :=
  repeat match goal with
  | H : Ok _ = Ok _ |- _ => injection H as H; subst
  | H : UB = Ok _ |- _ => discriminate H
  | H : Exit _ = Ok _ |- _ => discriminate H
  | H : NoFuel = Ok _ |- _ => discriminate H
  | H : rbind ?m _ = Ok _ |- _ =>
      let E := fresh "E" in destruct m eqn:E; cbn [rbind] in H; try discriminate H
  end.

(** Lists that are the same up to the order of the lists they are put together of. *)
Ltac app_perm := rewrite <- ?app_assoc; repeat match goal with
  | |- Permutation ?l ?l => reflexivity
  | |- Permutation (?x ++ ?l) (?x ++ ?r) => apply Permutation_app_head
  | |- Permutation (?x ++ ?l) ?r =>
      match r with
      | context [ ?y ++ x ++ ?z ] => rewrite (Permutation_app_swap_app y x z)
      | context [ ?y ++ x ] => rewrite (Permutation_app_comm y x)
      end
  end.

Create HintDb netsim.
Create Rewrite HintDb crw.

(** ** Lemmas on outcomes *)
Lemma rbind_ok {A B} (m : res A) (k : A -> res B) b :
  rbind m k = Ok b <-> exists a, m = Ok a /\ k a = Ok b.
Proof.
  destruct m; cbn; split; intros; eauto; try discriminate;
    destruct H as (? & ? & ?); congruence.
Qed.

Lemma rfold_app {A S} (f : S -> A -> res S) l1 l2 s :
  rfold f (l1 ++ l2) s = let* s' := rfold f l1 s in rfold f l2 s'.
Proof.
  revert s; induction l1 as [|a l1 IH]; intros s; cbn; [done|].
  destruct (f s a); cbn; auto.
Qed.

(** [returns m P]: the code returns normally, with a result that satisfies [P]. *)
Definition returns {A} (m : res A) (P : A -> Prop) : Prop := exists a, m = Ok a /\ P a.
Lemma returns_ok {A} (a : A) (P : A -> Prop) : P a -> returns (Ok a) P.
Proof. intros. by exists a. Qed.
Lemma returns_bind {A B} (m : res A) (k : A -> res B) (P : A -> Prop) (Q : B -> Prop) :
  returns m P -> (forall a, P a -> returns (k a) Q) -> returns (let* a := m in k a) Q.
Proof. intros (a & -> & Ha) Hk. cbn. by apply Hk. Qed.
Lemma returns_mono {A} (m : res A) (P Q : A -> Prop) : returns m P -> (forall a, P a -> Q a) -> returns m Q.
Proof. intros (a & -> & Ha) H. exists a. auto. Qed.
Lemma returns_elim {A} (m : res A) (P : A -> Prop) a : returns m P -> m = Ok a -> P a.
Proof. intros (b & -> & Hb) [= <-]. done. Qed.

(** Invariant rule for loops: a body that succeeds and keeps [P] keeps it
    throughout, and the loop succeeds. *)
Lemma rfold_inv {A S} (P : S -> Prop) (f : S -> A -> res S) l s :
  P s ->
  (forall s a, In a l -> P s -> exists s', f s a = Ok s' /\ P s') ->
  exists s', rfold f l s = Ok s' /\ P s'.
Proof.
  revert s; induction l as [|a l IH]; intros s Hs Hstep; cbn; [eauto|].
  destruct (Hstep s a) as (s' & -> & Hs'); [now left|done|cbn].
  apply IH; [done|]. intros; apply Hstep; [now right|done].
Qed.

(** ** Lemmas on machine integers *)
Lemma u8_range z : is_u8 (u8 z).
Proof. unfold is_u8, u8. lia. Qed.

(** Lists of bytes. *)
Ltac u8s :=
  cbn [take drop app];
  repeat match goal with |- Forall _ _ => constructor end;
  first [apply u8_range | assumption | unfold is_u8 in *; lia].

Lemma u16_range z : is_u16 (u16 z).
Proof. unfold is_u16, u16. lia. Qed.
Lemma u32_range z : is_u32 (u32 z).
Proof. unfold is_u32, u32. lia. Qed.
Lemma u8_id z : is_u8 z -> u8 z = z.
Proof. unfold is_u8, u8. intros. lia. Qed.
Lemma u16_id z : is_u16 z -> u16 z = z.
Proof. unfold is_u16, u16. intros. lia. Qed.
Lemma u32_id z : is_u32 z -> u32 z = z.
Proof. unfold is_u32, u32. intros. lia. Qed.
Lemma i32_id z : - 2 ^ 31 <= z < 2 ^ 31 -> i32 z = z.
Proof. unfold i32. intros. lia. Qed.
Lemma i32_range z : - 2 ^ 31 <= i32 z < 2 ^ 31.
Proof. unfold i32. lia. Qed.
Lemma htons_range z : is_u16 (htons z).
Proof. pose proof (u16_range z). unfold is_u16, htons in *. lia. Qed.
Lemma ntohs_htons z : ntohs (htons z) = u16 z.
Proof.
  unfold ntohs. pose proof (htons_range z). unfold htons at 1.
  rewrite u16_id by done. pose proof (u16_range z).
  unfold htons, is_u16 in *. generalize dependent (u16 z). intros. lia.
Qed.
Lemma htons_0 z : is_u16 z -> htons z = 0 -> z = 0.
Proof. intros Hz. unfold htons. rewrite u16_id by done. unfold is_u16 in Hz. lia. Qed.
#[export] Hint Resolve u8_range u16_range u32_range htons_range : netsim.
#[export] Hint Rewrite u8_id u16_id u32_id using assumption : crw.

(** ** Lemmas on memory blocks *)
Lemma zlen_nonneg {A} (l : list A) : 0 <= zlen l.
Proof. unfold zlen. lia. Qed.
Lemma zlen_app {A} (l k : list A) : zlen (l ++ k) = zlen l + zlen k.
Proof. unfold zlen. rewrite length_app. lia. Qed.
Lemma zlen_snoc {A} (pre : list A) x : zlen (pre ++ [x]) = zlen pre + 1.
Proof. by rewrite zlen_app. Qed.
Lemma zlen_nil {A} : zlen (@nil A) = 0.
Proof. reflexivity. Qed.
Lemma zlen_cons {A} (a : A) l : zlen (a :: l) = zlen l + 1.
Proof. unfold zlen. cbn [length]. lia. Qed.
Lemma zlen_le16 z : zlen (le16 z) = 2.
Proof. reflexivity. Qed.
Lemma zlen_le32 z : zlen (le32 z) = 4.
Proof. reflexivity. Qed.
#[export] Hint Rewrite @zlen_app @zlen_nil @zlen_cons zlen_le16 zlen_le32 : crw.
Lemma zlen_0 {A} (l : list A) : zlen l = 0 -> l = [].
Proof. destruct l; [done|]. unfold zlen. cbn. lia. Qed.

(** Arithmetic on lengths. *)
Ltac zlens :=
  autorewrite with crw in *;
  repeat match goal with
  | |- context [ zlen ?l ] => lazymatch goal with
      | _ : 0 <= zlen l |- _ => fail | _ => pose proof (zlen_nonneg l) end
  end; lia.

Lemma zslice_ok b off n :
  0 <= off -> 0 <= n -> off + n <= zlen b ->
  zslice b off n = Ok (take (Z.to_nat n) (drop (Z.to_nat off) b)).
Proof. intros. unfold zslice. bool_lia. done. Qed.

Lemma zblit_ok b off s :
  0 <= off -> off + zlen s <= zlen b ->
  zblit b off s = Ok (take (Z.to_nat off) b ++ s ++ drop (Z.to_nat (off + zlen s)) b).
Proof. intros. unfold zblit. bool_lia. done. Qed.

Lemma zlen_zslice b off n s : zslice b off n = Ok s -> zlen s = n.
Proof.
  unfold zslice. bool_lia; intros; inv_ok.
  unfold zlen in *. rewrite length_take, length_drop. lia.
Qed.

Lemma zlen_zblit b off s b' : zblit b off s = Ok b' -> zlen b' = zlen b.
Proof.
  unfold zblit. bool_lia; intros; inv_ok.
  unfold zlen in *. rewrite !length_app, length_take, length_drop. lia.
Qed.

Lemma lookup_zslice b off n s (i : nat) :
  zslice b off n = Ok s ->
  s !! i = if Z.of_nat i <? n then b !! (Z.to_nat off + i)%nat else None.
Proof.
  unfold zslice. bool_lia; intros; inv_ok.
  - rewrite lookup_take_lt, lookup_drop by lia. done.
  - apply lookup_take_ge. lia.
Qed.

Lemma lookup_zblit b off s b' (i : nat) :
  zblit b off s = Ok b' ->
  b' !! i = if (off <=? Z.of_nat i) && (Z.of_nat i <? off + zlen s)
            then s !! (i - Z.to_nat off)%nat else b !! i.
Proof.
  unfold zblit. intros Hb.
  destruct ((0 <=? off) && (off + zlen s <=? zlen b)) eqn:E; [|discriminate].
  inv_ok. apply andb_prop in E as [E1 E2].
  apply Z.leb_le in E1, E2. unfold zlen in *.
  destruct (Z.leb_spec off (Z.of_nat i)); cbn.
  - rewrite lookup_app_r by (rewrite length_take; lia).
    rewrite length_take. replace (Z.to_nat off `min` length b)%nat with (Z.to_nat off) by lia.
    destruct (Z.ltb_spec (Z.of_nat i) (off + Z.of_nat (length s))).
    + rewrite lookup_app_l by lia. done.
    + rewrite lookup_app_r by lia. rewrite lookup_drop. f_equal. lia.
  - rewrite lookup_app_l by (rewrite length_take; lia).
    rewrite lookup_take_lt by lia. done.
Qed.

(** Accesses to a block that is a concatenation. *)
Lemma zslice_app a x c off n :
  off = zlen a -> n = zlen x -> zslice (a ++ x ++ c) off n = Ok x.
Proof.
  intros -> ->. pose proof (zlen_nonneg a). pose proof (zlen_nonneg x). pose proof (zlen_nonneg c).
  rewrite zslice_ok by (autorewrite with crw; lia).
  unfold zlen. rewrite !Nat2Z.id. by rewrite drop_app_length, take_app_length.
Qed.

Lemma zslice_prefix b x c n : b = x ++ c -> n = zlen x -> zslice b 0 n = Ok x.
Proof. intros -> ->. by apply (zslice_app []). Qed.

Lemma zblit_app a x c y off :
  off = zlen a -> zlen y = zlen x -> zblit (a ++ x ++ c) off y = Ok (a ++ y ++ c).
Proof.
  intros -> Hy. pose proof (zlen_nonneg a). pose proof (zlen_nonneg x). pose proof (zlen_nonneg c).
  rewrite zblit_ok by (autorewrite with crw; lia). rewrite Hy.
  unfold zlen. rewrite Nat2Z.id, take_app_length, <- Nat2Z.inj_add, Nat2Z.id.
  rewrite <- length_app, (app_assoc a x c), drop_app_length. done.
Qed.

Lemma zblit_prefix x c y : zlen y = zlen x -> zblit (x ++ c) 0 y = Ok (y ++ c).
Proof. intros Hy. by apply (zblit_app []). Qed.

Lemma zblit_shift a b k s :
  0 <= k -> zblit (a ++ b) (zlen a + k) s = let* b' := zblit b k s in Ok (a ++ b').
Proof.
  intros Hk. pose proof (zlen_nonneg a). pose proof (zlen_nonneg s). unfold zblit at 1.
  autorewrite with crw. destruct (Z.leb_spec (zlen a + k + zlen s) (zlen a + zlen b)).
  - rewrite (zblit_ok b) by lia. bool_lia. cbn. f_equal. unfold zlen in *.
    rewrite take_app_ge, drop_app_ge, <- app_assoc by lia.
    repeat (f_equal; try lia).
  - unfold zblit. bool_lia; done.
Qed.

Lemma zslice_shift a b k n : 0 <= k -> zslice (a ++ b) (zlen a + k) n = zslice b k n.
Proof.
  intros Hk. pose proof (zlen_nonneg a). unfold zslice. autorewrite with crw.
  bool_lia; try done. f_equal. f_equal. unfold zlen. rewrite drop_app_ge by lia.
  f_equal. lia.
Qed.

Lemma rd8_shift a b k : 0 <= k -> rd8 (a ++ b) (zlen a + k) = rd8 b k.
Proof.
  intros Hk. pose proof (zlen_nonneg a). unfold rd8. bool_lia. unfold zlen.
  rewrite lookup_app_r by lia. f_equal. f_equal. lia.
Qed.

Lemma rd16_shift a b k : 0 <= k -> rd16 (a ++ b) (zlen a + k) = rd16 b k.
Proof. intros. unfold rd16. by rewrite <- Z.add_assoc, !rd8_shift by lia. Qed.
Lemma rd32_shift a b k : 0 <= k -> rd32 (a ++ b) (zlen a + k) = rd32 b k.
Proof. intros. unfold rd32. by rewrite <- Z.add_assoc, !rd16_shift by lia. Qed.
Lemma wr8_shift a b k v :
  0 <= k -> wr8 (a ++ b) (zlen a + k) v = let* b' := wr8 b k v in Ok (a ++ b').
Proof. apply zblit_shift. Qed.
Lemma wr8_shift0 a b v : wr8 (a ++ b) (zlen a) v = let* b' := wr8 b 0 v in Ok (a ++ b').
Proof. rewrite <- wr8_shift by lia. by rewrite Z.add_0_r. Qed.
Lemma wr16_shift0 a b v :
  zblit (a ++ b) (zlen a) (le16 v) = let* b' := wr16 b 0 v in Ok (a ++ b').
Proof. unfold wr16. rewrite <- zblit_shift by lia. by rewrite Z.add_0_r. Qed.
Lemma rd8_shift0 a b : rd8 (a ++ b) (zlen a) = rd8 b 0.
Proof. rewrite <- (rd8_shift a b) by lia. by rewrite Z.add_0_r. Qed.
Lemma wr16_shift a b k v :
  0 <= k -> wr16 (a ++ b) (zlen a + k) v = let* b' := wr16 b k v in Ok (a ++ b').
Proof. apply zblit_shift. Qed.
Lemma wr32_shift a b k v :
  0 <= k -> wr32 (a ++ b) (zlen a + k) v = let* b' := wr32 b k v in Ok (a ++ b').
Proof. apply zblit_shift. Qed.

(** Little-endian words and their bytes. *)
Lemma le16_htons v : is_u16 v -> le16 (htons v) = [v / 256; v mod 256].
Proof. unfold is_u16, le16, htons, u16, u8. intros. f_equal; [|f_equal]; lia. Qed.
Lemma le16_u8 v : Forall is_u8 (le16 v).
Proof. repeat constructor; apply u8_range. Qed.
Lemma le32_u8 v : Forall is_u8 (le32 v).
Proof. apply Forall_app. split; apply le16_u8. Qed.
Lemma rd32_le32 x : is_u32 x ->
  u8 x + 256 * u8 (x / 256) + 65536 * (u8 (x / 65536) + 256 * u8 (x / 65536 / 256)) = x.
Proof. unfold is_u32, u8. lia. Qed.
Lemma rd16_le16 x : is_u16 x -> u8 x + 256 * u8 (x / 256) = x.
Proof. unfold is_u16, u8. lia. Qed.
Lemma le16_rd16 x y : is_u8 x -> is_u8 y -> le16 (x + 256 * y) = [x; y].
Proof. unfold is_u8, le16, u8. intros. f_equal; [|f_equal]; lia. Qed.
Lemma le32_rd32 a b c d : is_u8 a -> is_u8 b -> is_u8 c -> is_u8 d ->
  le32 (a + 256 * b + 65536 * (c + 256 * d)) = [a; b; c; d].
Proof. unfold is_u8, le32, le16, u8. intros. cbn [app]. repeat f_equal; lia. Qed.
Lemma rd8_app a b k : 0 <= k < zlen a -> rd8 (a ++ b) k = rd8 a k.
Proof.
  intros Hk. unfold rd8, zlen in *. bool_lia. by rewrite lookup_app_l by lia.
Qed.
Lemma rd8_ok_app a b k x : rd8 a k = Ok x -> rd8 (a ++ b) k = Ok x.
Proof.
  unfold rd8. destruct (0 <=? k); [|done]. destruct (a !! Z.to_nat k) eqn:E; [|done].
  by rewrite (lookup_app_l_Some _ _ _ _ E).
Qed.
Lemma rd16_ok_app a b k x : rd16 a k = Ok x -> rd16 (a ++ b) k = Ok x.
Proof.
  unfold rd16. intros H. inv_ok. erewrite !rd8_ok_app by eassumption. done.
Qed.
Lemma rd32_app a b k : 0 <= k -> k + 4 <= zlen a -> rd32 (a ++ b) k = rd32 a k.
Proof. intros. unfold rd32, rd16. by rewrite !rd8_app by lia. Qed.
Lemma rd8_u8 b k x : Forall is_u8 b -> rd8 b k = Ok x -> is_u8 x.
Proof.
  unfold rd8. intros Hb. bool_lia; [|done]. destruct (b !! Z.to_nat k) eqn:E; [|done].
  cbn. intros [= <-]. by eapply (Forall_lookup_1 is_u8).
Qed.
Lemma rd8_total b k : 0 <= k < zlen b -> exists x, rd8 b k = Ok x.
Proof.
  intros Hk. unfold rd8, zlen in *. bool_lia.
  destruct (lookup_lt_is_Some_2 b (Z.to_nat k)) as [x ->]; [lia|]. cbn. eauto.
Qed.
Lemma rd32_total b k : Forall is_u8 b -> 0 <= k -> k + 4 <= zlen b ->
  exists x, rd32 b k = Ok x /\ is_u32 x.
Proof.
  intros Hb Hk Hl.
  destruct (rd8_total b k) as [x0 E0]; [lia|]. destruct (rd8_total b (k + 1)) as [x1 E1]; [lia|].
  destruct (rd8_total b (k + 2)) as [x2 E2]; [lia|].
  destruct (rd8_total b (k + 2 + 1)) as [x3 E3]; [lia|].
  pose proof (rd8_u8 _ _ _ Hb E0). pose proof (rd8_u8 _ _ _ Hb E1).
  pose proof (rd8_u8 _ _ _ Hb E2). pose proof (rd8_u8 _ _ _ Hb E3).
  unfold rd32, rd16. rewrite E0, E1. cbn. rewrite E2. cbn. rewrite E3. cbn.
  eexists. split; [done|]. unfold is_u8, is_u32 in *. lia.
Qed.
(** Cutting a block at a place. *)
Lemma zcut (b : list Z) n : 0 <= n <= zlen b -> exists x y, b = x ++ y /\ zlen x = n.
Proof.
  intros Hn. exists (take (Z.to_nat n) b), (drop (Z.to_nat n) b).
  split; [by rewrite take_drop|]. unfold zlen in *. rewrite length_take. lia.
Qed.

Create Rewrite HintDb shift.
#[export] Hint Rewrite wr8_shift wr16_shift wr32_shift rd8_shift rd16_shift rd32_shift zslice_shift
  using lia : shift.

(** Moves a straight-line function from a block [b], where it returns by the
    equation [E], to the block [a ++ b]. *)
Ltac shift_run E :=
  repeat first
    [ progress autorewrite with shift
    | match type of E with rbind ?m _ = _ =>
        let E1 := fresh in destruct m eqn:E1; cbn [rbind] in *; [|discriminate E..] end ];
  cbn [rbind] in *.

(** Names the bytes of a block [h] of known length [n]. *)
Ltac explode h n :=
  lazymatch goal with
  | H : zlen h = _ |- _ =>
      let Hl := fresh in
      assert (Hl : length h = n) by (unfold zlen in H; lia); clear H;
      repeat (destruct h as [|? h]; [first [discriminate Hl | clear Hl]|]; try discriminate Hl);
      try clear Hl
  end.

(** Accesses at constant places of a block whose first bytes are explicit. *)
Lemma zblit_at (n : nat) b off s :
  off = Z.of_nat n -> (n + length s <= length b)%nat ->
  zblit b off s = Ok (take n b ++ s ++ drop (n + length s) b).
Proof.
  intros -> Hl. rewrite zblit_ok by (unfold zlen; lia). unfold zlen.
  by rewrite <- Nat2Z.inj_add, !Nat2Z.id.
Qed.

Lemma rd8_at (n : nat) b off : off = Z.of_nat n -> rd8 b off = deref (b !! n).
Proof. intros ->. unfold rd8. bool_lia. by rewrite Nat2Z.id. Qed.

Lemma zslice_at (n m : nat) b off k :
  off = Z.of_nat n -> k = Z.of_nat m -> (n + m <= length b)%nat ->
  zslice b off k = Ok (take m (drop n b)).
Proof. intros -> -> Hl. rewrite zslice_ok by (unfold zlen; lia). by rewrite !Nat2Z.id. Qed.

Ltac blit_step :=
  match goal with
  | |- context [ zslice ?b ?k ?l ] =>
      let n := eval vm_compute in (Z.to_nat k) in
      let m := eval vm_compute in (Z.to_nat l) in
      rewrite (zslice_at n m b k l) by first [reflexivity | cbn; lia];
      cbn [take drop rbind]; rewrite ?take_0
  | |- context [ zblit ?b ?k ?s ] =>
      let n := eval vm_compute in (Z.to_nat k) in
      rewrite (zblit_at n b k s) by first [reflexivity | cbn; lia];
      cbn [take drop length app Nat.add rbind]; rewrite ?drop_0
  | |- context [ rd8 ?b ?k ] =>
      let n := eval vm_compute in (Z.to_nat k) in
      rewrite (rd8_at n b k) by reflexivity; cbn [lookup list_lookup deref rbind]
  end.

(** Runs the accesses of a straight-line function. *)
Ltac run_blits := unfold wr8, wr16, wr32, le32, le16, rd32, rd16; cbn [app]; repeat blit_step.

(** A list of addresses as bytes. *)
Definition enc_addrs (l : list Z) : list Z := concat (map le32 l).
Lemma zlen_enc_addrs l : zlen (enc_addrs l) = 4 * zlen l.
Proof.
  unfold enc_addrs. induction l as [|a l IH]; cbn [map concat]; [done|].
  rewrite zlen_app, zlen_cons, IH. change (zlen (le32 a)) with 4. lia.
Qed.
Lemma enc_addrs_app l k : enc_addrs (l ++ k) = enc_addrs l ++ enc_addrs k.
Proof. unfold enc_addrs. by rewrite map_app, concat_app. Qed.
Lemma enc_addrs_cons a l : enc_addrs (a :: l) = le32 a ++ enc_addrs l.
Proof. done. Qed.
Lemma rd16_enc P a Q : is_u16 a -> rd16 (P ++ le16 a ++ Q) (zlen P) = Ok a.
Proof.
  intros Ha. rewrite <- (Z.add_0_r (zlen P)), rd16_shift by lia.
  change (Ok (u8 a + 256 * u8 (a / 256)) = Ok a). by rewrite rd16_le16.
Qed.
Lemma rd32_enc P a Q : is_u32 a -> rd32 (P ++ le32 a ++ Q) (zlen P) = Ok a.
Proof.
  intros Ha. rewrite <- (Z.add_0_r (zlen P)), rd32_shift by lia.
  run_blits. by rewrite rd32_le32.
Qed.

(** ** Lemmas on lists *)
Lemma nodup_snoc {A} (l : list A) x : List.NoDup l -> ~ In x l -> List.NoDup (l ++ [x]).
Proof.
  intros Hl Hx. apply (Permutation_NoDup (l := x :: l)); [apply Permutation_cons_append|].
  by constructor.
Qed.

Lemma in_insert {A} (l : list A) (i : nat) (x y : A) : In y (<[i:=x]> l) -> y = x \/ In y l.
Proof.
  revert i. induction l as [|a l IH]; intros [|i]; cbn.
  1, 2: tauto.
  - intros [<-|H]; auto.
  - intros [<-|H]; [tauto|]. apply IH in H. tauto.
Qed.

Lemma map_insert_same {A B} (f : A -> B) (l : list A) (i : nat) (x y : A) :
  l !! i = Some x -> f y = f x -> map f (<[i:=y]> l) = map f l.
Proof.
  revert i. induction l as [|a l IH]; intros [|i]; cbn; try done.
  - intros [= ->] ->. done.
  - intros H E. f_equal. by apply (IH i).
Qed.

Lemma lookup_in {A} (l : list A) (i : nat) x : l !! i = Some x -> In x l.
Proof. intros H. apply list_elem_of_In. by apply list_elem_of_lookup_2 in H. Qed.

Lemma in_take {A} (l : list A) (n : nat) x : In x (take n l) -> In x l.
Proof. intros H. rewrite <- (take_drop n l). apply in_app_iff. by left. Qed.
