(* ===== verification/RingBuffer.v ===== *)
(** Byte ring buffer (util/ringbuffer.h, util/ringbuffer.c) and the buffer pool
    built on it (util/bufferpool.h, util/bufferpool.c).

    The record has the C fields; [buf] is the block of [size + 1] bytes that
    [RingBuffer_new] allocates, so one slot always stays unused and [head ==
    tail] means empty.  Each [memcpy] of the C code is a [zslice] and a [zblit]
    on the block and is [UB] when it leaves it.  [RingBuffer_spec] is the
    abstract bounded byte queue, and the refinement theorem relates every
    sequence of operations on the two. *)
From S2P Require Import Prelude.
From stdpp Require Import base list numbers.
From Stdlib Require Import ZArith Lia.
Open Scope Z_scope.
Open Scope c_scope.

Definition RB_BUFFER_FULL : Z := -1.
Definition RB_BUFFER_DATA_NOT_ENOUGH : Z := -2.

Record RingBuffer : Type := mkRingBuffer {
  size : Z;
  max_offset : Z;
  head : Z;
  tail : Z;
  buf : list Z
}.

(** [blk] is the block returned by [malloc(size + 1)], of unspecified content. *)
Definition RingBuffer_new (size : Z) (blk : list Z) : RingBuffer :=
  {| size := size; max_offset := size; head := 0; tail := 0; buf := blk |}.

Definition RingBuffer_drop_buffer (rb : RingBuffer) : RingBuffer :=
  {| size := size rb; max_offset := max_offset rb; head := 0; tail := 0; buf := buf rb |}.

Definition RingBuffer_get_remain_bufsize (rb : RingBuffer) : Z :=
  if head rb =? tail rb then size rb
  else if head rb <? tail rb then
    let in_use := i32 (tail rb - head rb) in
    u64 (size rb - in_use)
  else
    let diff := i32 (head rb - tail rb) in
    u64 (diff - 1).

Definition RingBuffer_get_readable_bufsize (rb : RingBuffer) : Z :=
  let remain := RingBuffer_get_remain_bufsize rb in
  u64 (size rb - remain).

(** Returns the buffer and the [ssize_t] result. *)
Definition RingBuffer_push (rb : RingBuffer) (data : list Z) (len : Z)
  : res (RingBuffer * Z) :=
  let remain := i32 (RingBuffer_get_remain_bufsize rb) in
  if remain <? len then Ok (rb, RB_BUFFER_FULL)
  else
    let cont_remain := i32 (max_offset rb - tail rb + 1) in
    if cont_remain <? len then
      let* b1 := memcpy (buf rb) (tail rb) data 0 cont_remain in
      let* b2 := memcpy b1 0 data cont_remain (len - cont_remain) in
      Ok ({| size := size rb; max_offset := max_offset rb; head := head rb;
             tail := len - cont_remain; buf := b2 |}, len)
    else
      let* b1 := memcpy (buf rb) (tail rb) data 0 len in
      Ok ({| size := size rb; max_offset := max_offset rb; head := head rb;
             tail := u64 (tail rb + len) mod (max_offset rb + 1); buf := b1 |}, len).

(** Returns the buffer, the bytes written to the caller's buffer and the result. *)
Definition RingBuffer_read_internal (rb : RingBuffer) (readlen : Z) (do_pop : bool)
  : res (RingBuffer * list Z * Z) :=
  let readable := i32 (RingBuffer_get_readable_bufsize rb) in
  if readable <? readlen then Ok (rb, [], RB_BUFFER_DATA_NOT_ENOUGH)
  else
    let cont_readable := i32 (max_offset rb - head rb + 1) in
    if cont_readable <? readlen then
      let* s1 := zslice (buf rb) (head rb) cont_readable in
      let* s2 := zslice (buf rb) 0 (readlen - cont_readable) in
      let head' := if do_pop then readlen - cont_readable else head rb in
      Ok ({| size := size rb; max_offset := max_offset rb; head := head';
             tail := tail rb; buf := buf rb |}, s1 ++ s2, readlen)
    else
      let* s1 := zslice (buf rb) (head rb) readlen in
      let head' := if do_pop then u64 (head rb + readlen) mod (max_offset rb + 1)
                   else head rb in
      Ok ({| size := size rb; max_offset := max_offset rb; head := head';
             tail := tail rb; buf := buf rb |}, s1, readlen).

Definition RingBuffer_read (rb : RingBuffer) (readlen : Z) : res (RingBuffer * list Z * Z) :=
  RingBuffer_read_internal rb readlen false.

Definition RingBuffer_pop (rb : RingBuffer) (readlen : Z) : res (RingBuffer * list Z * Z) :=
  RingBuffer_read_internal rb readlen true.

(** ** The abstract bounded queue *)
Record bqueue : Type := mkBqueue { cap : Z; items : list Z }.

Definition spec_push (q : bqueue) (data : list Z) (len : Z) : bqueue * Z :=
  if cap q - zlen (items q) <? len then (q, RB_BUFFER_FULL)
  else ({| cap := cap q; items := items q ++ take (Z.to_nat len) data |}, len).

Definition spec_read (q : bqueue) (n : Z) (do_pop : bool) : bqueue * list Z * Z :=
  if zlen (items q) <? n then (q, [], RB_BUFFER_DATA_NOT_ENOUGH)
  else ((if do_pop then {| cap := cap q; items := drop (Z.to_nat n) (items q) |} else q),
        take (Z.to_nat n) (items q), n).

(** Well-formedness and the queue a buffer stands for. *)
Definition wf (rb : RingBuffer) : Prop :=
  max_offset rb = size rb /\ 0 <= size rb < 2 ^ 31 - 1 /\
  0 <= head rb <= size rb /\ 0 <= tail rb <= size rb /\
  zlen (buf rb) = size rb + 1.

Definition used (rb : RingBuffer) : Z :=
  if head rb <=? tail rb then tail rb - head rb else tail rb - head rb + size rb + 1.

Definition slot (rb : RingBuffer) (i : nat) : nat :=
  let j := head rb + Z.of_nat i in
  Z.to_nat (if j <=? size rb then j else j - size rb - 1).

Definition contents (rb : RingBuffer) : list Z :=
  (fun i => nth (slot rb i) (buf rb) 0) <$> seq 0 (Z.to_nat (used rb)).

Definition abs (rb : RingBuffer) : bqueue := {| cap := size rb; items := contents rb |}.

(** ** Buffer pool: pointers to recycled buffers, kept as 8 raw bytes each *)
Record bufferpool : Type := mkBufferpool {
  buffersize : Z;
  buffernum : Z;
  buffer_ptrs : RingBuffer
}.

Definition sizeof_ptr : Z := 8.
Definition le64 (z : Z) : list Z := le32 z ++ le32 (z / 4294967296).
Definition rd64 (b : list Z) : res Z :=
  let* lo := rd32 b 0 in let* hi := rd32 b 4 in Ok (lo + 4294967296 * hi).

Definition new_bufferpool (bsize bnum : Z) (blk : list Z) : bufferpool :=
  {| buffersize := bsize; buffernum := bnum;
     buffer_ptrs := RingBuffer_new (sizeof_ptr * bnum) blk |}.

(** [fresh] is the address [malloc(buffersize)] returns when the pool is empty. *)
Definition get_buffer (bp : bufferpool) (fresh : Z) : res (bufferpool * Z) :=
  let* r := RingBuffer_pop (buffer_ptrs bp) sizeof_ptr in
  let '(rb, bytes, readlen) := r in
  let bp' := {| buffersize := buffersize bp; buffernum := buffernum bp; buffer_ptrs := rb |} in
  if readlen =? sizeof_ptr then let* p := rd64 bytes in Ok (bp', p)
  else Ok (bp', fresh).

Definition return_buffer (bp : bufferpool) (bufp : Z) : res bufferpool :=
  let* r := RingBuffer_push (buffer_ptrs bp) (le64 bufp) sizeof_ptr in
  Ok {| buffersize := buffersize bp; buffernum := buffernum bp; buffer_ptrs := fst r |}.

(** ** Lemmas *)
Lemma used_range rb : wf rb -> 0 <= used rb <= size rb.
Proof. unfold wf, used. intros. bool_lia. Qed.

Lemma slot_range rb i : wf rb -> Z.of_nat i < used rb -> (slot rb i < length (buf rb))%nat.
Proof. unfold wf, used, slot, zlen. intros ?. bool_lia; intros; bool_lia. Qed.

Lemma remain_used rb : wf rb -> RingBuffer_get_remain_bufsize rb = size rb - used rb.
Proof.
  unfold wf, used, RingBuffer_get_remain_bufsize. intros.
  bool_lia; rewrite i32_id by lia; unfold u64; lia.
Qed.

Lemma readable_used rb : wf rb -> RingBuffer_get_readable_bufsize rb = used rb.
Proof.
  intros H. unfold RingBuffer_get_readable_bufsize. rewrite remain_used by done.
  pose proof (used_range rb H). unfold wf in H. unfold u64. lia.
Qed.

Lemma zlen_contents rb : wf rb -> zlen (contents rb) = used rb.
Proof.
  intros H. pose proof (used_range rb H).
  unfold zlen, contents. rewrite length_fmap, length_seq. lia.
Qed.

Lemma lookup_contents rb (i : nat) : wf rb ->
  contents rb !! i = if Z.of_nat i <? used rb then buf rb !! slot rb i else None.
Proof.
  intros H. unfold contents. rewrite list_lookup_fmap.
  destruct (Z.ltb_spec (Z.of_nat i) (used rb)).
  - rewrite lookup_seq_lt by lia. cbn.
    pose proof (slot_range rb i H H0) as Hs.
    destruct (buf rb !! slot rb i) as [x|] eqn:E.
    + rewrite nth_lookup, E. done.
    + apply lookup_ge_None in E. lia.
  - rewrite lookup_seq_ge by lia. done.
Qed.

(** What a successful write of [s] at logical position [used rb] leaves: the old
    contents followed by [s]. *)
Lemma contents_extend rb rb' s :
  wf rb -> wf rb' -> size rb' = size rb -> head rb' = head rb ->
  used rb' = used rb + zlen s ->
  (forall i : nat, Z.of_nat i < used rb -> buf rb' !! slot rb i = buf rb !! slot rb i) ->
  (forall j : nat, (j < length s)%nat ->
     buf rb' !! slot rb (Z.to_nat (used rb) + j) = s !! j) ->
  contents rb' = contents rb ++ s.
Proof.
  intros H H' Hsz Hhd Hused Hold Hnew. pose proof (used_range rb H).
  assert (Hslot : forall i, slot rb' i = slot rb i)
    by (intros; unfold slot; rewrite Hsz, Hhd; done).
  assert (Hlen : length (contents rb) = Z.to_nat (used rb))
    by (pose proof (zlen_contents rb H); unfold zlen in *; lia).
  apply list_eq. intros i. rewrite lookup_contents, Hslot by done.
  destruct (decide (i < length (contents rb))%nat) as [Hi|Hi].
  - rewrite lookup_app_l, lookup_contents by done. unfold zlen in *.
    destruct (Z.ltb_spec (Z.of_nat i) (used rb')); [|lia].
    destruct (Z.ltb_spec (Z.of_nat i) (used rb)); [|lia]. apply Hold; lia.
  - rewrite lookup_app_r by lia. rewrite Hlen in *. unfold zlen in *.
    destruct (Z.ltb_spec (Z.of_nat i) (used rb')).
    + rewrite <- (Hnew (i - Z.to_nat (used rb))%nat) by lia. f_equal. f_equal. lia.
    + symmetry. apply lookup_ge_None. lia.
Qed.

Lemma slot_split rb i : wf rb ->
  Z.of_nat (slot rb i) = head rb + Z.of_nat i \/
  Z.of_nat (slot rb i) = head rb + Z.of_nat i - size rb - 1 \/ size rb < Z.of_nat i.
Proof. unfold wf, slot. intros. bool_lia. Qed.

Lemma memcpy_ok dst doff src soff n :
  0 <= n -> 0 <= soff -> soff + n <= zlen src -> 0 <= doff -> doff + n <= zlen dst ->
  exists dst', memcpy dst doff src soff n = Ok dst' /\ zlen dst' = zlen dst /\
    forall i : nat, dst' !! i =
      if (doff <=? Z.of_nat i) && (Z.of_nat i <? doff + n)
      then src !! (Z.to_nat soff + (i - Z.to_nat doff))%nat else dst !! i.
Proof.
  intros. unfold memcpy. rewrite zslice_ok by lia. cbn [rbind].
  set (s := take _ _). assert (Hs : zlen s = n).
  { unfold s, zlen in *. rewrite length_take, length_drop. lia. }
  rewrite zblit_ok by lia. eexists; split; [done|].
  pose proof (zblit_ok dst doff s ltac:(lia) ltac:(lia)) as Hb.
  split; [by apply (zlen_zblit _ _ _ _ Hb)|]. intros i.
  rewrite (lookup_zblit _ _ _ _ i Hb), Hs.
  destruct ((doff <=? Z.of_nat i) && (Z.of_nat i <? doff + n)) eqn:E; [|done].
  apply andb_prop in E as [E1 E2]. apply Z.leb_le in E1. apply Z.ltb_lt in E2.
  unfold s. rewrite lookup_take_lt, lookup_drop by lia. done.
Qed.

Lemma push_ok rb data len :
  wf rb -> 0 <= len <= size rb - used rb -> len <= zlen data ->
  exists rb', RingBuffer_push rb data len = Ok (rb', len) /\ wf rb' /\
    size rb' = size rb /\ contents rb' = contents rb ++ take (Z.to_nat len) data.
Proof.
  intros Hwf Hlen Hdata. pose proof (used_range rb Hwf) as Hu.
  unfold RingBuffer_push. rewrite remain_used by done.
  assert (Hwf' := Hwf). destruct Hwf' as (Hmo & Hsz & Hh & Ht & Hb).
  rewrite !i32_id by lia.
  destruct (Z.ltb_spec (size rb - used rb) len); [lia|].
  assert (Hdl : zlen (take (Z.to_nat len) data) = len).
  { unfold zlen in *. rewrite length_take. lia. }
  assert (Hpos : head rb <= tail rb /\ used rb = tail rb - head rb \/
                 tail rb < head rb /\ used rb = tail rb - head rb + size rb + 1)
    by (unfold used; bool_lia).
  destruct (Z.ltb_spec (max_offset rb - tail rb + 1) len).
  - edestruct (memcpy_ok (buf rb) (tail rb) data 0 (max_offset rb - tail rb + 1))
      as (b1 & -> & Hb1 & L1); [lia..|]. cbn [rbind].
    edestruct (memcpy_ok b1 0 data (max_offset rb - tail rb + 1)
      (len - (max_offset rb - tail rb + 1))) as (b2 & -> & Hb2 & L2); [lia..|]. cbn [rbind].
    eexists; split; [done|]. split; [unfold wf; cbn; lia|]. split; [done|].
    apply contents_extend; cbn; try done; [unfold wf; cbn; lia | | |].
    + rewrite Hdl. unfold used; cbn. bool_lia.
    + intros i Hi. rewrite L2, L1. unfold slot. bool_lia; intros; bool_lia; done.
    + intros j Hj. rewrite L2, L1. unfold zlen in *.
      rewrite lookup_take_lt by lia. unfold slot. bool_lia; intros; bool_lia; f_equal; lia.
  - edestruct (memcpy_ok (buf rb) (tail rb) data 0 len) as (b1 & -> & Hb1 & L1); [lia..|].
    cbn [rbind]. unfold u64. rewrite (Z.mod_small (tail rb + len)) by lia.
    assert (Htail : (tail rb + len) mod (max_offset rb + 1) =
      if tail rb + len =? size rb + 1 then 0 else tail rb + len).
    { bool_lia.
      - rewrite Hmo. replace (tail rb + len) with (size rb + 1) by lia.
        apply Z.mod_same. lia.
      - apply Z.mod_small. lia. }
    rewrite Htail. clear Htail. eexists; split; [done|].
    split; [unfold wf; cbn; bool_lia|]. split; [done|].
    apply contents_extend; cbn; try done; [unfold wf; cbn; bool_lia | | |].
    + rewrite Hdl. unfold used; cbn. bool_lia.
    + intros i Hi. rewrite L1. unfold slot. bool_lia; intros; bool_lia; done.
    + intros j Hj. rewrite L1. unfold zlen in *.
      rewrite lookup_take_lt by lia. unfold slot. bool_lia; intros; bool_lia; f_equal; lia.
Qed.

Lemma push_size rb data len r : RingBuffer_push rb data len = Ok r -> size (fst r) = size rb.
Proof.
  unfold RingBuffer_push. destruct (_ <? len); [by intros [= <-]|]. destruct (_ <? len); intros E.
  - apply rbind_ok in E as (b1 & _ & E). apply rbind_ok in E as (b2 & _ & E). by inv_ok.
  - apply rbind_ok in E as (b1 & _ & E). by inv_ok.
Qed.

Lemma push_spec rb data len :
  wf rb -> 0 <= len <= zlen data ->
  exists rb', RingBuffer_push rb data len = Ok (rb', snd (spec_push (abs rb) data len)) /\
    wf rb' /\ abs rb' = fst (spec_push (abs rb) data len).
Proof.
  intros Hwf Hlen. unfold spec_push, abs; cbn [cap items]. rewrite zlen_contents by done.
  destruct (Z.ltb_spec (size rb - used rb) len) as [Hfull|Hfit].
  - exists rb. unfold RingBuffer_push. pose proof (used_range rb Hwf).
    rewrite remain_used, i32_id by (done || (unfold wf in Hwf; lia)).
    destruct (Z.ltb_spec (size rb - used rb) len); [done|lia].
  - destruct (push_ok rb data len) as (rb' & E & Hw & Hs & Hc); [done|lia..|].
    exists rb'. rewrite E. cbn. rewrite Hs, Hc. done.
Qed.

(** The bytes stored from logical position 0 on, as the one or two runs that
    [RingBuffer_read_internal] copies. *)
Lemma take_contents rb n :
  wf rb -> 0 <= n <= used rb ->
  take (Z.to_nat n) (contents rb) =
    if size rb - head rb + 1 <? n then
      take (Z.to_nat (size rb - head rb + 1)) (drop (Z.to_nat (head rb)) (buf rb)) ++
      take (Z.to_nat (n - (size rb - head rb + 1))) (drop 0 (buf rb))
    else take (Z.to_nat n) (drop (Z.to_nat (head rb)) (buf rb)).
Proof.
  intros H Hn. pose proof (used_range rb H). assert (H' := H).
  destruct H' as (Hmo & Hsz & Hh & Ht & Hb). unfold zlen in Hb.
  apply list_eq. intros i.
  destruct (decide (i < Z.to_nat n)%nat) as [Hi|Hi].
  - rewrite lookup_take_lt, lookup_contents by done.
    destruct (Z.ltb_spec (Z.of_nat i) (used rb)); [|lia].
    destruct (Z.ltb_spec (size rb - head rb + 1) n).
    + destruct (decide (i < Z.to_nat (size rb - head rb + 1))%nat).
      * rewrite lookup_app_l by (rewrite length_take, length_drop; lia).
        rewrite lookup_take_lt, lookup_drop by lia. unfold slot. bool_lia. f_equal; lia.
      * rewrite lookup_app_r by (rewrite length_take, length_drop; lia).
        rewrite length_take, length_drop, lookup_take_lt, lookup_drop by lia.
        unfold slot. bool_lia. f_equal; lia.
    + rewrite lookup_take_lt, lookup_drop by lia. unfold slot. bool_lia. f_equal; lia.
  - rewrite lookup_take_ge by lia. symmetry.
    destruct (Z.ltb_spec (size rb - head rb + 1) n).
    + apply lookup_ge_None. rewrite length_app, !length_take, !length_drop. lia.
    + apply lookup_take_ge. lia.
Qed.

Lemma drop_contents rb rb' n :
  wf rb -> wf rb' -> 0 <= n <= used rb -> size rb' = size rb -> buf rb' = buf rb ->
  used rb' = used rb - n -> (forall i, (i < Z.to_nat (used rb'))%nat ->
    slot rb' i = slot rb (Z.to_nat n + i)) ->
  contents rb' = drop (Z.to_nat n) (contents rb).
Proof.
  intros H H' Hn Hs Hbuf Hu Hslot. apply list_eq. intros i.
  rewrite lookup_drop, !lookup_contents, Hbuf by done.
  destruct (Z.ltb_spec (Z.of_nat i) (used rb'));
    destruct (Z.ltb_spec (Z.of_nat (Z.to_nat n + i)) (used rb)); try lia; [|done].
  rewrite Hslot by lia. done.
Qed.

Lemma read_spec rb n do_pop :
  wf rb -> 0 <= n ->
  exists rb', RingBuffer_read_internal rb n do_pop =
      Ok (rb', snd (fst (spec_read (abs rb) n do_pop)), snd (spec_read (abs rb) n do_pop)) /\
    wf rb' /\ abs rb' = fst (fst (spec_read (abs rb) n do_pop)).
Proof.
  intros Hwf Hn. unfold spec_read, abs; cbn [cap items]. rewrite zlen_contents by done.
  unfold RingBuffer_read_internal. pose proof (used_range rb Hwf).
  rewrite readable_used by done. assert (Hwf' := Hwf).
  destruct Hwf' as (Hmo & Hsz & Hh & Ht & Hb). rewrite !i32_id by lia.
  destruct (Z.ltb_spec (used rb) n) as [Hless|Hfit]; [by exists rb|].
  rewrite take_contents, Hmo by (done || lia).
  assert (Hpos : head rb <= tail rb /\ used rb = tail rb - head rb \/
                 tail rb < head rb /\ used rb = tail rb - head rb + size rb + 1)
    by (unfold used; bool_lia).
  destruct (Z.ltb_spec (size rb - head rb + 1) n).
  - rewrite !zslice_ok by lia. cbn [rbind]. eexists; split; [done|].
    destruct do_pop; cbn [fst]; [|done].
    assert (Hw : wf {| size := size rb; max_offset := size rb;
      head := n - (size rb - head rb + 1); tail := tail rb; buf := buf rb |})
      by (unfold wf; cbn; lia).
    split; [done|]. f_equal. apply drop_contents; try done; [unfold used at 1; cbn; bool_lia|].
    cbn. intros i Hi. revert Hi. unfold used at 1, slot; cbn. bool_lia; intros; bool_lia.
  - rewrite !zslice_ok by lia. cbn [rbind]. eexists; split; [done|].
    destruct do_pop; cbn [fst]; [|done].
    unfold u64. rewrite (Z.mod_small (head rb + n)) by lia.
    assert (Hhead : (head rb + n) mod (size rb + 1) =
      if head rb + n =? size rb + 1 then 0 else head rb + n).
    { bool_lia.
      - replace (head rb + n) with (size rb + 1) by lia. apply Z.mod_same. lia.
      - apply Z.mod_small. lia. }
    rewrite Hhead. clear Hhead.
    match goal with |- wf ?r /\ _ => assert (Hw : wf r) by (unfold wf; cbn; bool_lia) end.
    split; [done|]. f_equal.
    apply drop_contents; try done; [unfold used at 1; cbn; bool_lia|].
    cbn. intros i Hi. revert Hi. unfold used at 1, slot; cbn. bool_lia; intros; bool_lia.
Qed.

Lemma contents_empty rb : head rb = tail rb -> contents rb = [].
Proof.
  intros E. unfold contents, used. destruct (Z.leb_spec (head rb) (tail rb)); [|lia].
  replace (Z.to_nat (tail rb - head rb)) with 0%nat by lia. done.
Qed.

(** ** Sequences of operations *)
Inductive rb_op : Type :=
  | OpPush (data : list Z) (len : Z)
  | OpRead (n : Z)
  | OpPop (n : Z)
  | OpDrop.

(** What a call reports to its caller. *)
Definition rb_out : Type := list Z * Z.

Definition rb_step (rb : RingBuffer) (o : rb_op) : res (RingBuffer * rb_out) :=
  match o with
  | OpPush data len => let* r := RingBuffer_push rb data len in Ok (fst r, ([], snd r))
  | OpRead n => let* r := RingBuffer_read rb n in Ok (fst (fst r), (snd (fst r), snd r))
  | OpPop n => let* r := RingBuffer_pop rb n in Ok (fst (fst r), (snd (fst r), snd r))
  | OpDrop => Ok (RingBuffer_drop_buffer rb, ([], 0))
  end.

Definition spec_step (q : bqueue) (o : rb_op) : bqueue * rb_out :=
  match o with
  | OpPush data len => let r := spec_push q data len in (fst r, ([], snd r))
  | OpRead n => let r := spec_read q n false in (fst (fst r), (snd (fst r), snd r))
  | OpPop n => let r := spec_read q n true in (fst (fst r), (snd (fst r), snd r))
  | OpDrop => ({| cap := cap q; items := [] |}, ([], 0))
  end.

Fixpoint rb_run (rb : RingBuffer) (ops : list rb_op) : res (RingBuffer * list rb_out) :=
  match ops with
  | [] => Ok (rb, [])
  | o :: ops' =>
    let* s := rb_step rb o in
    let* r := rb_run (fst s) ops' in
    Ok (fst r, snd s :: snd r)
  end.

Fixpoint spec_run (q : bqueue) (ops : list rb_op) : bqueue * list rb_out :=
  match ops with
  | [] => (q, [])
  | o :: ops' =>
    let s := spec_step q o in
    let r := spec_run (fst s) ops' in (fst r, snd s :: snd r)
  end.

(** The callers' side of the contract: lengths are not negative and do not
    exceed the caller's buffer. *)
Definition op_ok (o : rb_op) : Prop :=
  match o with
  | OpPush data len => 0 <= len <= zlen data
  | OpRead n | OpPop n => 0 <= n
  | OpDrop => True
  end.

Lemma step_refines rb o :
  wf rb -> op_ok o ->
  exists rb', rb_step rb o = Ok (rb', snd (spec_step (abs rb) o)) /\
    wf rb' /\ abs rb' = fst (spec_step (abs rb) o).
Proof.
  intros Hwf Hok. destruct o as [data len|n|n|]; cbn [rb_step spec_step op_ok] in *.
  - destruct (push_spec rb data len Hwf Hok) as (rb' & -> & Hw & Ha).
    exists rb'. cbn. done.
  - destruct (read_spec rb n false Hwf Hok) as (rb' & E & Hw & Ha).
    unfold RingBuffer_read. rewrite E. exists rb'. cbn. done.
  - destruct (read_spec rb n true Hwf Hok) as (rb' & E & Hw & Ha).
    unfold RingBuffer_pop. rewrite E. exists rb'. cbn. done.
  - eexists; split; [done|]. unfold wf in *. cbn.
    split; [lia|]. unfold abs; cbn. by rewrite contents_empty.
Qed.

(** C37: The ring buffer refines a bounded FIFO byte queue: started fresh, on any
    sequence of pushes, reads, pops and drops whose lengths fit the callers'
    buffers, every call is free of out-of-bounds accesses, the calls report
    exactly the results of the abstract queue of capacity [size] (including the
    two error codes), and the final contents are those of the abstract queue. *)
Theorem RingBuffer_refines_queue (sz : Z) (blk : list Z) (ops : list rb_op)
  (Hsz : 0 <= sz < 2 ^ 31 - 1) (Hblk : zlen blk = sz + 1) (Hops : Forall op_ok ops) :
  exists rb', rb_run (RingBuffer_new sz blk) ops =
      Ok (rb', snd (spec_run {| cap := sz; items := [] |} ops)) /\
    abs rb' = fst (spec_run {| cap := sz; items := [] |} ops).
Proof.
  assert (Hwf : wf (RingBuffer_new sz blk)) by (unfold wf; cbn; lia).
  assert (Habs : abs (RingBuffer_new sz blk) = {| cap := sz; items := [] |})
    by (unfold abs; rewrite contents_empty; done).
  rewrite <- Habs. clear Habs. revert Hwf. generalize (RingBuffer_new sz blk).
  induction Hops as [|o ops Ho _ IH]; intros rb Hwf; cbn; [eauto|].
  destruct (step_refines rb o Hwf Ho) as (rb1 & -> & Hw1 & Ha1). cbn.
  rewrite <- Ha1. destruct (IH rb1 Hw1) as (rb2 & -> & Ha2). cbn. eauto.
Qed.

(** A run on a buffer of 4 bytes that wraps around both on a push and on a pop,
    and meets both error results. *)
Lemma RingBuffer_refines_queue_witness :
  exists rb', rb_run (RingBuffer_new 4 [9; 9; 9; 9; 9])
      [OpPush [1; 2; 3] 3; OpPop 2; OpPush [4; 5; 6] 3; OpPush [7] 1; OpPop 4; OpPop 1] =
    Ok (rb', [([], 3); ([1; 2], 2); ([], 3); ([], RB_BUFFER_FULL); ([3; 4; 5; 6], 4);
              ([], RB_BUFFER_DATA_NOT_ENOUGH)]) /\
    abs rb' = {| cap := 4; items := [] |}.
Proof.
  apply (RingBuffer_refines_queue 4 [9; 9; 9; 9; 9]
    [OpPush [1; 2; 3] 3; OpPop 2; OpPush [4; 5; 6] 3; OpPush [7] 1; OpPop 4; OpPop 1]).
  - lia.
  - reflexivity.
  - repeat constructor; cbn; discriminate.
Defined.
