(* ===== verification/RingThreads.v ===== *)
(** The ring buffer (util/ringbuffer.c) between two threads that use it without a lock,
    as the network thread and the main thread of the simulator do
    (simulator/sim_server.c): one pushes, the other reads and pops.

    A function is a [prog]: the loads and stores it makes on the shared structure, one by
    one and in the order of the source, every byte of a [memcpy] included (the two loads of
    [head == tail] from left to right).  [run] executes it alone, [turn] one access of
    one of two threads.  Memory is sequentially consistent. *)
From stdpp Require Import base list numbers.
From Stdlib Require Import ZArith Lia.
From S2P Require Import Prelude RingBuffer.
Open Scope Z_scope.
Open Scope c_scope.

(** ** Programs of memory accesses *)
Inductive field : Type := Size | MaxOffset | Head | Tail.

Inductive prog (A : Type) : Type :=
| Ret (a : A)
| Load (f : field) (k : Z -> prog A)
| Store (f : field) (v : Z) (k : prog A)
| LoadByte (off : Z) (k : Z -> prog A)
| StoreByte (off v : Z) (k : prog A)
| Undef.
Arguments Ret {A} a.
Arguments Load {A} f k.
Arguments Store {A} f v k.
Arguments LoadByte {A} off k.
Arguments StoreByte {A} off v k.
Arguments Undef {A}.

Fixpoint pbind {A B} (p : prog A) (q : A -> prog B) : prog B :=
  match p with
  | Ret a => q a
  | Load f k => Load f (fun v => pbind (k v) q)
  | Store f v k => Store f v (pbind k q)
  | LoadByte off k => LoadByte off (fun v => pbind (k v) q)
  | StoreByte off v k => StoreByte off v (pbind k q)
  | Undef => Undef
  end.
Notation "'do*' x ':=' m 'in' k" := (pbind m (fun x => k))
  (at level 10, x pattern, m at level 100, k at level 200) : c_scope.

Definition get (f : field) : prog Z := Load f Ret.
Definition set (f : field) (v : Z) : prog unit := Store f v (Ret tt).

(** [memcpy] out of the block and into it. *)
Fixpoint load_bytes (off : Z) (n : nat) : prog (list Z) :=
  match n with
  | O => Ret []
  | S n' => LoadByte off (fun v => do* l := load_bytes (off + 1) n' in Ret (v :: l))
  end.
Definition copy_out (off n : Z) : prog (list Z) :=
  if n <? 0 then Undef else load_bytes off (Z.to_nat n).
Fixpoint store_bytes (off : Z) (s : list Z) : prog unit :=
  match s with
  | [] => Ret tt
  | v :: s' => StoreByte off v (store_bytes (off + 1) s')
  end.
Definition copy_in (off : Z) (src : list Z) (soff n : Z) : prog unit :=
  match zslice src soff n with Ok s => store_bytes off s | _ => Undef end.

(** ** The functions *)
Definition RingBuffer_get_remain_bufsize : prog Z :=
  do* h := get Head in
  do* t := get Tail in
  if h =? t then get Size
  else
    do* h := get Head in
    do* t := get Tail in
    if h <? t then
      do* t := get Tail in
      do* h := get Head in
      let in_use := i32 (u64 (t - h)) in
      do* s := get Size in
      Ret (u64 (s - in_use))
    else
      do* h := get Head in
      do* t := get Tail in
      let diff := i32 (u64 (h - t)) in
      Ret (u64 (diff - 1)).

Definition RingBuffer_get_readable_bufsize : prog Z :=
  do* remain := RingBuffer_get_remain_bufsize in
  do* s := get Size in
  Ret (u64 (s - remain)).

Definition RingBuffer_drop_buffer : prog unit :=
  do* _ := set Head 0 in set Tail 0.

Definition RingBuffer_push (data : list Z) (len : Z) : prog Z :=
  do* r := RingBuffer_get_remain_bufsize in
  let remain := i32 r in
  if remain <? len then Ret RB_BUFFER_FULL
  else
    do* m := get MaxOffset in
    do* t := get Tail in
    let cont_remain := i32 (u64 (m - t + 1)) in
    if cont_remain <? len then
      do* t := get Tail in
      do* _ := copy_in t data 0 cont_remain in
      do* _ := copy_in 0 data cont_remain (len - cont_remain) in
      do* _ := set Tail (len - cont_remain) in
      Ret len
    else
      do* t := get Tail in
      do* _ := copy_in t data 0 len in
      do* t := get Tail in
      do* _ := set Tail (u64 (t + len)) in
      do* t := get Tail in
      do* m := get MaxOffset in
      do* _ := set Tail (t mod (m + 1)) in
      Ret len.

Definition RingBuffer_read_internal (readlen : Z) (do_pop : bool) : prog (list Z * Z) :=
  do* r := RingBuffer_get_readable_bufsize in
  let readable := i32 r in
  if readable <? readlen then Ret ([], RB_BUFFER_DATA_NOT_ENOUGH)
  else
    do* m := get MaxOffset in
    do* h := get Head in
    let cont_readable := i32 (u64 (m - h + 1)) in
    if cont_readable <? readlen then
      do* h := get Head in
      do* s1 := copy_out h cont_readable in
      do* s2 := copy_out 0 (readlen - cont_readable) in
      do* _ := (if do_pop then set Head (readlen - cont_readable) else Ret tt) in
      Ret (s1 ++ s2, readlen)
    else
      do* h := get Head in
      do* s1 := copy_out h readlen in
      do* _ :=
        (if do_pop then
           do* h := get Head in
           do* _ := set Head (u64 (h + readlen)) in
           do* h := get Head in
           do* m := get MaxOffset in
           set Head (h mod (m + 1))
         else Ret tt) in
      Ret (s1, readlen).

(** ** Execution *)
Definition load (f : field) (rb : RingBuffer) : Z :=
  match f with
  | Size => size rb
  | MaxOffset => max_offset rb
  | Head => head rb
  | Tail => tail rb
  end.
Definition store (f : field) (v : Z) (rb : RingBuffer) : RingBuffer :=
  match f with
  | Size => mkRingBuffer v (max_offset rb) (head rb) (tail rb) (buf rb)
  | MaxOffset => mkRingBuffer (size rb) v (head rb) (tail rb) (buf rb)
  | Head => mkRingBuffer (size rb) (max_offset rb) v (tail rb) (buf rb)
  | Tail => mkRingBuffer (size rb) (max_offset rb) (head rb) v (buf rb)
  end.
Definition with_buf (b : list Z) (rb : RingBuffer) : RingBuffer :=
  mkRingBuffer (size rb) (max_offset rb) (head rb) (tail rb) b.

(** One access. *)
Definition access {A} (rb : RingBuffer) (p : prog A) : res (RingBuffer * prog A) :=
  match p with
  | Ret a => Ok (rb, Ret a)
  | Load f k => Ok (rb, k (load f rb))
  | Store f v k => Ok (store f v rb, k)
  | LoadByte off k => let* v := rd8 (buf rb) off in Ok (rb, k v)
  | StoreByte off v k => let* b := zblit (buf rb) off [v] in Ok (with_buf b rb, k)
  | Undef => UB
  end.

(** All of them, without interference. *)
Fixpoint run {A} (rb : RingBuffer) (p : prog A) : res (RingBuffer * A) :=
  match p with
  | Ret a => Ok (rb, a)
  | Load f k => run rb (k (load f rb))
  | Store f v k => run (store f v rb) k
  | LoadByte off k => let* v := rd8 (buf rb) off in run rb (k v)
  | StoreByte off v k => let* b := zblit (buf rb) off [v] in run (with_buf b rb) k
  | Undef => UB
  end.

(** ** Two threads

    [pushing] is the call the pushing thread is in, with its data; [popping] that of the
    popping thread, with whether it removes what it reads.  The logs hold what the
    calls that have returned had for a result: the bytes pushed, the bytes popped, and for
    each reading call the number of bytes popped before it, what it copied and its result. *)
Record threads : Type := mkThreads {
  ring : RingBuffer;
  pushing : option (list Z * prog Z);
  popping : option (bool * prog (list Z * Z));
  pushed : list Z;
  popped : list Z;
  results : list (Z * list Z * Z);
  codes : list Z
}.
Definition two_threads (rb : RingBuffer) : threads := mkThreads rb None None [] [] [] [].

Inductive label : Type :=
| CallPush (data : list Z)
| CallDrop
| CallReadable
| CallRead (readlen : Z)
| CallPop (readlen : Z)
| Pusher
| Popper.

(** A thread in a call starts no other, and one outside a call has no access to make. *)
Definition call_push (data : list Z) (p : prog Z) (s : threads) : threads :=
  match pushing s with
  | None => mkThreads (ring s) (Some (data, p)) (popping s) (pushed s) (popped s) (results s) (codes s)
  | Some _ => s
  end.
Definition call_pop (pop : bool) (p : prog (list Z * Z)) (s : threads) : threads :=
  match popping s with
  | None => mkThreads (ring s) (pushing s) (Some (pop, p)) (pushed s) (popped s) (results s) (codes s)
  | Some _ => s
  end.

Definition push_turn (s : threads) : res threads :=
  match pushing s with
  | None => Ok s
  | Some (data, Ret r) =>
    Ok (mkThreads (ring s) None (popping s)
          (if 0 <=? r then pushed s ++ take (Z.to_nat r) data else pushed s)
          (popped s) (results s) (codes s ++ [r]))
  | Some (data, p) =>
    let* r := access (ring s) p in
    Ok (mkThreads (fst r) (Some (data, snd r)) (popping s) (pushed s) (popped s) (results s) (codes s))
  end.
Definition pop_turn (s : threads) : res threads :=
  match popping s with
  | None => Ok s
  | Some (pop, Ret (b, r)) =>
    Ok (mkThreads (ring s) (pushing s) None (pushed s)
          (if pop then popped s ++ b else popped s) (results s ++ [(zlen (popped s), b, r)]) (codes s))
  | Some (pop, p) =>
    let* r := access (ring s) p in
    Ok (mkThreads (fst r) (pushing s) (Some (pop, snd r)) (pushed s) (popped s) (results s) (codes s))
  end.

Definition turn (s : threads) (l : label) : res threads :=
  match l with
  | CallPush data => Ok (call_push data (RingBuffer_push data (zlen data)) s)
  | CallDrop => Ok (call_push [] (do* _ := RingBuffer_drop_buffer in Ret 0) s)
  | CallReadable => Ok (call_pop false (do* n := RingBuffer_get_readable_bufsize in Ret ([], n)) s)
  | CallRead n => Ok (call_pop false (RingBuffer_read_internal n false) s)
  | CallPop n => Ok (call_pop true (RingBuffer_read_internal n true) s)
  | Pusher => push_turn s
  | Popper => pop_turn s
  end.
Definition turns (s : threads) (ls : list label) : res threads := rfold turn ls s.

(** The schedules of the theorem: the pushing thread only pushes, the sizes to read are
    not negative, and the popping thread does not run between the two stores of
    [tail += len; tail %= max_offset + 1], while [tail] is past the end. *)
Definition allowed (s : threads) (l : label) : bool :=
  match l with
  | CallPush _ | Pusher => true
  | CallDrop => false
  | CallReadable => true
  | CallRead n | CallPop n => 0 <=? n
  | Popper => tail (ring s) <=? max_offset (ring s)
  end.
Fixpoint calm (s : threads) (ls : list label) : bool :=
  match ls with
  | [] => true
  | l :: ls' => allowed s l && match turn s l with Ok s' => calm s' ls' | _ => true end
  end.

(** ** One thread alone: the functions of [RingBuffer] *)
Lemma run_bind {A B} (p : prog A) (q : A -> prog B) : forall rb,
  run rb (pbind p q) = let* r := run rb p in run (fst r) (q (snd r)).
Proof.
  induction p as [a|f k IH|f v k IH|off k IH|off v k IH|]; intros rb; cbn; try done.
  - by destruct (rd8 _ off); cbn.
  - by destruct (zblit _ off _); cbn.
Qed.
Lemma i32_u64_all z : i32 (u64 z) = i32 z.
Proof. unfold i32, u64. lia. Qed.

Lemma run_remain rb : run rb RingBuffer_get_remain_bufsize = Ok (rb, RingBuffer.RingBuffer_get_remain_bufsize rb).
Proof.
  unfold RingBuffer_get_remain_bufsize, RingBuffer.RingBuffer_get_remain_bufsize. cbn -[u64 i32].
  destruct (head rb =? tail rb); [done|]. cbn -[u64 i32]. destruct (head rb <? tail rb); cbn -[u64 i32]; by rewrite i32_u64_all.
Qed.
Lemma run_readable rb : run rb RingBuffer_get_readable_bufsize = Ok (rb, RingBuffer.RingBuffer_get_readable_bufsize rb).
Proof. unfold RingBuffer_get_readable_bufsize. by rewrite run_bind, run_remain. Qed.

Lemma run_store_bytes s : forall rb off, 0 <= off -> off + zlen s <= zlen (buf rb) ->
  run rb (store_bytes off s) = let* b := zblit (buf rb) off s in Ok (with_buf b rb, tt).
Proof.
  induction s as [|v s IH]; intros rb off Ho Hl; cbn.
  - rewrite zblit_ok by (unfold zlen in *; cbn in *; lia). cbn. rewrite Z.add_0_r, firstn_skipn. by destruct rb.
  - rewrite zlen_cons in Hl. pose proof (zlen_nonneg s).
    destruct (zcut (buf rb) off) as (x & y & E & Ex); [lia|]. destruct y as [|y0 y]; [rewrite E, zlen_app, zlen_nil in Hl; lia|].
    destruct (zcut y (zlen s)) as (ys & z & -> & Ey); [rewrite E, zlen_app, zlen_cons in Hl; lia|].
    rewrite E. change (y0 :: ys ++ z) with ([y0] ++ ys ++ z) at 1. rewrite (zblit_app x [y0] _ [v]) by done. cbn [rbind]. rewrite IH by (cbn [buf with_buf]; rewrite ?zlen_app, ?zlen_cons, ?zlen_nil, ?zlen_app; pose proof (zlen_nonneg z); lia).
    cbn [buf with_buf]. rewrite app_assoc, (zblit_app _ ys z s) by (rewrite ?zlen_app, ?zlen_cons, ?zlen_nil; lia). cbn [rbind].
    rewrite app_comm_cons, (zblit_app x (y0 :: ys) z (v :: s)) by (rewrite ?zlen_cons; lia). cbn [rbind]. rewrite <- (app_assoc x [v]). done.
Qed.
Lemma run_load_bytes rb m : forall off, 0 <= off -> off + Z.of_nat m <= zlen (buf rb) ->
  run rb (load_bytes off m) = let* s := zslice (buf rb) off (Z.of_nat m) in Ok (rb, s).
Proof.
  induction m as [|m IH]; intros off Ho Hl; cbn [load_bytes run].
  - by rewrite zslice_ok by lia.
  - unfold rd8. rewrite (proj2 (Z.leb_le _ _)) by lia.
    destruct (buf rb !! Z.to_nat off) as [v|] eqn:E; [|apply lookup_ge_None in E; unfold zlen in *; lia]. cbn [deref rbind].
    rewrite run_bind, IH, !zslice_ok by lia. cbn [rbind fst snd run]. do 2 f_equal.
    rewrite (drop_S _ _ _ E). replace (Z.to_nat (Z.of_nat (S m))) with (S m) by lia. cbn. do 2 f_equal; [lia|]. f_equal. lia.
Qed.

Lemma run_copy_in rb off src soff m : 0 <= off -> 0 <= m -> off + m <= zlen (buf rb) ->
  run rb (copy_in off src soff m) = let* b := memcpy (buf rb) off src soff m in Ok (with_buf b rb, tt).
Proof.
  intros Ho Hm Hl. unfold copy_in, memcpy. destruct (zslice src soff m) as [s| | |] eqn:E; cbn; try done.
  - apply run_store_bytes; [done|]. by rewrite (zlen_zslice _ _ _ _ E).
  - unfold zslice in E. by destruct (_ && _).
  - unfold zslice in E. by destruct (_ && _).
Qed.
Lemma run_copy_out rb off m : 0 <= off -> 0 <= m -> off + m <= zlen (buf rb) ->
  run rb (copy_out off m) = let* s := zslice (buf rb) off m in Ok (rb, s).
Proof.
  intros Ho Hm Hl. unfold copy_out. rewrite (proj2 (Z.ltb_ge _ _)) by lia. rewrite run_load_bytes by lia. by rewrite Z2Nat.id.
Qed.

Lemma run_push rb data len : wf rb -> 0 <= len <= zlen data ->
  run rb (RingBuffer_push data len) = RingBuffer.RingBuffer_push rb data len.
Proof.
  intros Hwf Hlen. pose proof (used_range rb Hwf) as Hu. unfold RingBuffer_push, RingBuffer.RingBuffer_push.
  rewrite run_bind, run_remain, remain_used by done. pose proof Hwf as (Hm & Hn & Hh & Ht & Hb). cbn [rbind fst snd].
  rewrite i32_id by lia. destruct (Z.ltb_spec (size rb - used rb) len); [done|].
  cbn [pbind get run load]. rewrite i32_u64_all, i32_id by lia. destruct (Z.ltb_spec (max_offset rb - tail rb + 1) len).
  - cbn [pbind get run load]. rewrite run_bind, run_copy_in by lia.
    destruct (memcpy (buf rb) _ _ _ _) as [b| | |] eqn:E; try done. apply rbind_ok in E as (s & _ & E). cbn [rbind fst snd].
    rewrite run_bind, run_copy_in by (cbn [buf with_buf]; rewrite ?(zlen_zblit _ _ _ _ E); lia). cbn [buf with_buf].
    by destruct (memcpy b _ _ _ _).
  - cbn [pbind get run load]. rewrite run_bind, run_copy_in by lia.
    by destruct (memcpy _ _ _ _ _).
Qed.
Lemma run_read_internal rb readlen pop : wf rb -> 0 <= readlen ->
  run rb (RingBuffer_read_internal readlen pop) = let* r := RingBuffer.RingBuffer_read_internal rb readlen pop in
    let '(rb, b, n) := r in Ok (rb, (b, n)).
Proof.
  intros Hwf Hlen. pose proof (used_range rb Hwf) as Hu. unfold RingBuffer_read_internal, RingBuffer.RingBuffer_read_internal.
  rewrite run_bind, run_readable, readable_used by done. pose proof Hwf as (Hm & Hn & Hh & Ht & Hb). cbn [rbind fst snd].
  rewrite i32_id by lia. destruct (Z.ltb_spec (used rb) readlen); [done|].
  cbn [pbind get run load]. rewrite i32_u64_all, i32_id by lia. destruct (Z.ltb_spec (max_offset rb - head rb + 1) readlen).
  - cbn [pbind get run load]. rewrite run_bind, run_copy_out, zslice_ok by lia. cbn [rbind fst snd].
    rewrite run_bind, run_copy_out, zslice_ok by lia. cbn [rbind fst snd]. by destruct pop; destruct rb.
  - cbn [pbind get run load]. rewrite run_bind, run_copy_out, zslice_ok by lia. cbn [rbind fst snd]. by destruct pop; destruct rb.
Qed.

(** ** Reasoning about one thread

    [shared] is the ring with two ghosts: all the bytes pushed so far, those in the ring at
    the start included, and how many of them have been popped.  The position of the
    byte [i] is [pos i].  [wp rely guar ok post p s] says that [p], run from [s] while the other
    thread makes changes in [rely], is defined, makes changes in [guar] and ends with [post]. *)
Record shared : Type := mkShared { rg : RingBuffer; out : list Z; taken : Z }.

Section Threads.
Context (n base : Z).

Definition pos (i : Z) : Z := (base + i) mod (n + 1).
Definition at_pos (p i : Z) : Prop := p = pos i \/ (p = n + 1 /\ pos i = 0).

Record inv (s : shared) : Prop := mkInv {
  inv_size : size (rg s) = n;
  inv_max : max_offset (rg s) = n;
  inv_n : 0 <= n < 2 ^ 31 - 1;
  inv_buf : zlen (buf (rg s)) = n + 1;
  inv_taken : 0 <= taken s <= zlen (out s);
  inv_room : zlen (out s) <= taken s + n;
  inv_head : at_pos (head (rg s)) (taken s);
  inv_tail : at_pos (tail (rg s)) (zlen (out s));
  inv_bytes : forall i, taken s <= i < zlen (out s) -> buf (rg s) !! Z.to_nat (pos i) = out s !! Z.to_nat i
}.

(** What each thread may do. *)
Record by_popper (s s' : shared) : Prop := mkByPopper {
  bp_tail : tail (rg s') = tail (rg s);
  bp_out : out s' = out s;
  bp_buf : buf (rg s') = buf (rg s);
  bp_taken : taken s <= taken s';
  bp_head : taken s = taken s' -> head (rg s') = head (rg s) \/ head (rg s) = n + 1
}.
Record by_pusher (s s' : shared) : Prop := mkByPusher {
  bq_head : head (rg s') = head (rg s);
  bq_taken : taken s' = taken s;
  bq_out : out s `prefix_of` out s'
}.
(** Steps of one thread, one after the other. *)
Ltac chain :=
  match goal with
  | |- ?R ?a ?a => reflexivity
  | H : ?R ?a ?c |- ?R ?a ?c => exact H
  | H : ?R ?a ?b |- ?R ?a _ => etrans; [exact H|chain]
  end.
#[export] Instance by_popper_preorder : PreOrder by_popper.
Proof.
  split; [intros s; constructor; auto; lia|]. intros s1 s2 s3 [] []. constructor; try congruence; [lia|].
  intros. assert (taken s1 = taken s2) by lia. assert (taken s2 = taken s3) by lia. intuition congruence.
Qed.
#[export] Instance by_pusher_preorder : PreOrder by_pusher.
Proof. split; [intros s; constructor; auto|]. intros s1 s2 s3 [] []. constructor; try congruence. by etrans. Qed.

Section Wp.
Context (rely guar : shared -> shared -> Prop) (ok : shared -> Prop) {Hr : PreOrder rely}.

Fixpoint wp {A} (post : A -> shared -> Prop) (p : prog A) (s : shared) : Prop :=
  forall s1, rely s s1 -> inv s1 -> ok s1 ->
  match p with
  | Ret a => post a s1
  | Load f k => wp post (k (load f (rg s1))) s1
  | Store f v k => exists s2, rg s2 = store f v (rg s1) /\ inv s2 /\ guar s1 s2 /\ wp post k s2
  | LoadByte off k => exists v, rd8 (buf (rg s1)) off = Ok v /\ wp post (k v) s1
  | StoreByte off v k => exists b, zblit (buf (rg s1)) off [v] = Ok b /\
      (let s2 := mkShared (with_buf b (rg s1)) (out s1) (taken s1) in inv s2 /\ guar s1 s2 /\ wp post k s2)
  | Undef => False
  end.

Lemma wp_rely {A} (post : A -> shared -> Prop) p s s1 : rely s s1 -> wp post p s -> wp post p s1.
Proof.
  intros R H. destruct p; cbn in *; intros s2 R2; apply H; by etrans.
Qed.
Lemma prog_bind {A B} (post : B -> shared -> Prop) (p : prog A) (q : A -> prog B) s :
  wp (fun a => wp post (q a)) p s -> wp post (pbind p q) s.
Proof.
  revert s. induction p as [a|f k IH|f v k IH|off k IH|off v k IH|]; intros s H; cbn in *.
  - destruct (q a); cbn in *; intros s1 R1 I1 O1; (eapply H; [exact R1|exact I1|exact O1|reflexivity|exact I1|exact O1]).
  - intros s1 R1 I1 O1. apply IH. by apply H.
  - intros s1 R1 I1 O1. destruct (H s1 R1 I1 O1) as (s2 & ? & ? & ? & ?). exists s2. eauto.
  - intros s1 R1 I1 O1. destruct (H s1 R1 I1 O1) as (v & ? & ?). exists v. eauto.
  - intros s1 R1 I1 O1. destruct (H s1 R1 I1 O1) as (b & ? & ? & ? & ?). exists b. eauto.
  - exact H.
Qed.
Lemma prog_mono {A} (post post' : A -> shared -> Prop) p s :
  (forall a s', post a s' -> post' a s') -> wp post p s -> wp post' p s.
Proof.
  intros Hm. revert s. induction p as [a|f k IH|f v k IH|off k IH|off v k IH|]; intros s H; cbn in *; intros s1 R1 I1 O1.
  - auto.
  - auto.
  - destruct (H s1 R1 I1 O1) as (s2 & ? & ? & ? & ?). exists s2. eauto.
  - destruct (H s1 R1 I1 O1) as (v & ? & ?). exists v. eauto.
  - destruct (H s1 R1 I1 O1) as (b & ? & ? & ? & ?). exists b. eauto.
  - by apply (H s1).
Qed.
Lemma prog_ret {A} (post : A -> shared -> Prop) a s :
  (forall s1, rely s s1 -> inv s1 -> ok s1 -> post a s1) -> wp post (Ret a) s.
Proof. auto. Qed.
End Wp.

(** ** Positions *)
Lemma pos_range i : 0 <= n -> 0 <= pos i <= n.
Proof. intros. unfold pos. pose proof (Z.mod_pos_bound (base + i) (n + 1)). lia. Qed.
Lemma pos_dist i j : 0 <= n -> i <= j <= i + n ->
  pos j = pos i + (j - i) /\ pos i + (j - i) <= n \/ pos j = pos i + (j - i) - (n + 1) /\ n < pos i + (j - i).
Proof.
  intros Hn Hij. unfold pos. pose proof (Z.mod_pos_bound (base + i) (n + 1)) as Hb.
  assert (E : (base + j) mod (n + 1) = ((base + i) mod (n + 1) + (j - i)) mod (n + 1)).
  { rewrite Zplus_mod_idemp_l. f_equal. lia. }
  rewrite E. clear E. revert Hb. generalize ((base + i) mod (n + 1)). intros p Hb.
  destruct (Z.le_gt_cases (p + (j - i)) n).
  - left. rewrite Z.mod_small; lia.
  - right. split; [|lia]. symmetry. apply (Z.mod_unique _ _ 1); lia.
Qed.
Lemma pos_inj i j : 0 <= n -> i < j <= i + n -> pos i <> pos j.
Proof. intros ? ?. pose proof (pos_dist i j). lia. Qed.

(** ** The pushing thread *)
Abbreviation wpp := (wp by_popper by_pusher (fun _ => True)).
Abbreviation wpc := (wp by_pusher by_popper (fun s => tail (rg s) <= n)).

Definition free (s : shared) : Z := n - (zlen (out s) - taken s).
(** The tail as the pushing thread leaves it between two calls. *)
Definition settled (s : shared) : Prop := tail (rg s) = pos (zlen (out s)).

Lemma settled_later s s1 : by_popper s s1 -> settled s -> settled s1.
Proof. intros [] H. unfold settled in *. congruence. Qed.



(** The head [h] seen by the pushing thread with [d] bytes in the ring and the tail at [t]. *)
Definition seen (t h d : Z) : Prop :=
  0 <= d <= n /\ 0 <= t <= n /\ (h = n + 1 /\ t = d \/ 0 <= h <= n /\ (t = h + d \/ t = h + d - (n + 1))).
Lemma head_seen s : inv s -> seen (pos (zlen (out s))) (head (rg s)) (zlen (out s) - taken s).
Proof.
  intros I. pose proof (inv_n s I). pose proof (inv_taken s I). pose proof (inv_room s I).
  pose proof (pos_range (zlen (out s))). pose proof (pos_range (taken s)).
  pose proof (pos_dist (taken s) (zlen (out s))). unfold seen. destruct (inv_head s I) as [->|[-> ?]]; lia.
Qed.
Lemma i32_u64 z : - 2 ^ 31 <= z < 2 ^ 31 -> i32 (u64 z) = z.
Proof. unfold i32, u64. lia. Qed.

(** The size computed from heads seen one after the other is at most the room there is. *)
Lemma remain_bound t h2 d2 h3 d3 : 0 <= n < 2 ^ 31 - 1 -> seen t h2 d2 -> seen t h3 d3 -> d3 <= d2 ->
  (d2 = d3 -> h3 = h2 \/ h2 = n + 1) ->
  if h2 <? t then i32 (u64 (n - i32 (u64 (t - h3)))) <= n - d3 else i32 (u64 (i32 (u64 (h3 - t)) - 1)) <= n - d3.
Proof.
  unfold seen. intros. destruct (Z.ltb_spec h2 t).
  - rewrite (i32_u64 (t - h3)) by lia. rewrite i32_u64; lia.
  - rewrite (i32_u64 (h3 - t)) by lia. rewrite i32_u64; lia.
Qed.


Lemma free_later s s1 : by_popper s s1 -> free s <= free s1.
Proof. intros []. unfold free. rewrite bp_out0. lia. Qed.

(** The room seen is there, or it is negative. *)
Lemma remain_pusher {A} (post : A -> shared -> Prop) k s :
  settled s ->
  (forall r s1, by_popper s s1 -> inv s1 -> i32 r <= free s1 -> wpp post (k r) s1) ->
  wpp post (pbind RingBuffer_get_remain_bufsize k) s.
Proof.
  intros Hs Hk. unfold RingBuffer_get_remain_bufsize, get. cbn.
  intros s1 R1 I1 _ s2 R2 I2 _. pose proof (head_seen s1 I1) as V1. pose proof (inv_n s1 I1) as Hn.
  assert (Et : forall s', by_popper s s' -> tail (rg s') = pos (zlen (out s1)) /\ out s' = out s1).
  { intros s' R. pose proof (settled_later _ _ R Hs) as Hs'. unfold settled in Hs'. rewrite Hs', (bp_out _ _ R), (bp_out _ _ R1). done. }
  destruct (Et s2) as [-> O2]; [chain|].
  destruct (Z.eqb_spec (head (rg s1)) (pos (zlen (out s1)))) as [E|E]; cbn.
  - intros s3 R3 I3 _. apply Hk; [chain|done|]. pose proof (free_later s1 s3 ltac:(chain)).
    rewrite (inv_size s3 I3), i32_id by lia. unfold seen in V1. unfold free in *. lia.
  - intros s3 R3 I3 _ s4 R4 I4 _. destruct (Et s4) as [-> O4]; [chain|].
    assert (Hfin : forall s5, by_popper s3 s5 -> inv s5 ->
      if head (rg s3) <? pos (zlen (out s1)) then i32 (u64 (n - i32 (u64 (pos (zlen (out s1)) - head (rg s5))))) <= free s5
      else i32 (u64 (i32 (u64 (head (rg s5) - pos (zlen (out s1)))) - 1)) <= free s5).
    { intros s5 R5 I5. pose proof (head_seen s3 I3) as V3. pose proof (head_seen s5 I5) as V5.
      destruct (Et s3) as [_ O3]; [chain|]. destruct (Et s5) as [_ O5]; [chain|].
      unfold free. rewrite O3, O5 in *. pose proof (bp_taken _ _ R5). pose proof (bp_head _ _ R5).
      apply (remain_bound _ _ (zlen (out s1) - taken s3)); try done; [lia|]. intros. apply (bp_head _ _ R5). lia. }
    destruct (head (rg s3) <? _); cbn; intros s5 R5 I5 _ s6 R6 I6 _.
    + intros s7 R7 I7 _. apply Hk; [chain|done|]. destruct (Et s5) as [-> _]; [chain|]. rewrite (inv_size s7 I7).
      etrans; [|exact (free_later _ _ R7)]. apply Hfin; [chain|done].
    + apply Hk; [chain|done|]. destruct (Et s6) as [-> _]; [chain|].
      etrans; [|exact (free_later _ _ R6)]. apply Hfin; [chain|done].
Qed.

(** ** The popping thread *)
Definition aligned (s : shared) : Prop := head (rg s) = pos (taken s).
Definition stored (s : shared) : Z := zlen (out s) - taken s.

Lemma aligned_later s s1 : by_pusher s s1 -> aligned s -> aligned s1.
Proof. intros [] H. unfold aligned in *. congruence. Qed.
Lemma stored_later s s1 : by_pusher s s1 -> stored s <= stored s1.
Proof.
  intros [? ? [l E]]. unfold stored. rewrite E, zlen_app. pose proof (zlen_nonneg l). lia.
Qed.
Lemma tail_seen s : inv s -> tail (rg s) <= n -> aligned s -> seen (tail (rg s)) (head (rg s)) (stored s).
Proof.
  intros I Ht Ha. pose proof (head_seen s I) as V. destruct (inv_tail s I) as [->|[? ?]]; [done|lia].
Qed.

(** The size computed from tails seen one after the other is at most what there is. *)
Lemma readable_bound h t2 d2 t3 d3 : 0 <= n < 2 ^ 31 - 1 -> h <= n -> seen t2 h d2 -> seen t3 h d3 -> 0 < d2 <= d3 ->
  i32 (u64 (n - (if h <? t2 then u64 (n - i32 (u64 (t3 - h))) else u64 (i32 (u64 (h - t3)) - 1)))) <= d3.
Proof.
  unfold seen. intros. destruct (Z.ltb_spec h t2).
  - rewrite (i32_u64 (t3 - h)) by lia. unfold i32, u64. lia.
  - rewrite (i32_u64 (h - t3)) by lia. unfold i32, u64. lia.
Qed.
Lemma readable_popper {A} (post : A -> shared -> Prop) k s :
  aligned s ->
  (forall r s1, by_pusher s s1 -> inv s1 -> i32 r <= stored s1 -> wpc post (k r) s1) ->
  wpc post (pbind RingBuffer_get_readable_bufsize k) s.
Proof.
  intros Hs Hk. unfold RingBuffer_get_readable_bufsize, RingBuffer_get_remain_bufsize, get. cbn.
  assert (V : forall s', by_pusher s s' -> inv s' -> tail (rg s') <= n ->
    seen (tail (rg s')) (head (rg s)) (stored s') /\ head (rg s') = head (rg s)).
  { intros s' R I O. rewrite <- (bq_head _ _ R). split; [|done]. apply tail_seen; [done..|by apply (aligned_later s)]. }
  intros s1 R1 I1 O1 s2 R2 I2 O2. destruct (V s2) as [V2 _]; [chain|done..|]. destruct (V s1) as [V1 ->]; [done..|].
  pose proof (inv_n s1 I1) as Hn.
  assert (Hh : head (rg s) <= n) by (rewrite Hs; pose proof (pos_range (taken s)); lia).
  destruct (Z.eqb_spec (head (rg s)) (tail (rg s2))) as [E|E]; cbn.
  - intros s3 R3 I3 O3 s4 R4 I4 O4. apply Hk; [chain|done|]. rewrite (inv_size s3 I3), (inv_size s4 I4), Z.sub_diag.
    pose proof (inv_taken s4 I4). unfold stored, i32, u64. lia.
  - intros s3 R3 I3 O3 s4 R4 I4 O4. destruct (V s3) as [_ ->]; [chain|done..|]. destruct (V s4) as [V4 _]; [chain|done..|].
    assert (Hfin : forall s5, by_pusher s4 s5 -> inv s5 -> tail (rg s5) <= n ->
      i32 (u64 (n - (if head (rg s) <? tail (rg s4) then u64 (n - i32 (u64 (tail (rg s5) - head (rg s))))
                     else u64 (i32 (u64 (head (rg s) - tail (rg s5))) - 1)))) <= stored s5).
    { intros s5 R5 I5 O5. destruct (V s5) as [V5 _]; [chain|done..|]. pose proof (stored_later _ _ R5).
      apply (readable_bound _ _ (stored s4)); try done. pose proof (stored_later s2 s4 ltac:(chain)). unfold seen in V2, V4. lia. }
    destruct (head (rg s) <? tail (rg s4)); cbn; intros s5 R5 I5 O5 s6 R6 I6 O6.
    + destruct (V s6) as [_ ->]; [chain|done..|]. intros s7 R7 I7 O7 s8 R8 I8 O8. apply Hk; [chain|done|].
      rewrite (inv_size s7 I7), (inv_size s8 I8). etrans; [apply (Hfin s5); [chain|done..]|]. apply stored_later. chain.
    + destruct (V s5) as [_ ->]; [chain|done..|]. intros s7 R7 I7 O7. apply Hk; [chain|done|].
      rewrite (inv_size s7 I7). etrans; [apply (Hfin s6); [chain|done..]|]. by apply stored_later.
Qed.

(** ** Pushing *)

(** The bytes [w] are in the room behind the tail. *)
Definition written (w : list Z) (s : shared) : Prop :=
  forall i : nat, (i < length w)%nat -> buf (rg s) !! Z.to_nat (pos (zlen (out s) + Z.of_nat i)) = w !! i.
Lemma written_later w s s1 : by_popper s s1 -> written w s -> written w s1.
Proof. intros [] H i Hi. rewrite bp_out0, bp_buf0. by apply H. Qed.

Lemma zblit_one b off v b' (i : nat) : zblit b off [v] = Ok b' ->
  0 <= off -> b' !! i = if Z.of_nat i =? off then Some v else b !! i.
Proof.
  intros E Hoff. rewrite (lookup_zblit _ _ _ _ i E). rewrite zlen_cons, zlen_nil.
  destruct (Z.eqb_spec (Z.of_nat i) off) as [<-|].
  - rewrite (proj2 (Z.leb_le _ _)), (proj2 (Z.ltb_lt _ _)) by lia. cbn. by rewrite Nat2Z.id, Nat.sub_diag.
  - bool_lia; done.
Qed.

Lemma store_one s v w : inv s -> zlen w + 1 <= free s -> written w s ->
  exists b, zblit (buf (rg s)) (pos (zlen (out s) + zlen w)) [v] = Ok b /\
    (let s2 := mkShared (with_buf b (rg s)) (out s) (taken s) in inv s2 /\ by_pusher s s2 /\ written (w ++ [v]) s2).
Proof.
  intros I Hw Hwr. pose proof (inv_n s I) as Hn. pose proof (inv_taken s I). pose proof (inv_room s I).
  pose proof (inv_buf s I) as Hb. pose proof (pos_range (zlen (out s) + zlen w) ltac:(lia)) as Hp. pose proof (zlen_nonneg w). unfold free in Hw.
  set (off := pos (zlen (out s) + zlen w)) in *.
  destruct (zblit (buf (rg s)) off [v]) as [b| | |] eqn:E;
    [|rewrite zblit_ok in E by (rewrite ?zlen_cons, ?zlen_nil; lia); done..].
  exists b. split; [done|]. cbn. split; [|split].
  - destruct I. constructor; cbn; try done; [by rewrite (zlen_zblit _ _ _ _ E)|].
    intros i Hi. rewrite (zblit_one _ _ _ _ _ E) by lia. rewrite Z2Nat.id by (pose proof (pos_range i); lia).
    rewrite (proj2 (Z.eqb_neq _ _)); [by apply inv_bytes0|]. apply pos_inj; lia.
  - by constructor.
  - intros i Hi. cbn. rewrite length_app in Hi. cbn in Hi. rewrite (zblit_one _ _ _ _ _ E) by lia.
    rewrite Z2Nat.id by (pose proof (pos_range (zlen (out s) + Z.of_nat i)); lia).
    destruct (decide (i < length w)%nat) as [Hl|Hl].
    + rewrite (proj2 (Z.eqb_neq _ _)) by (apply pos_inj; unfold zlen in *; lia). rewrite lookup_app_l by done. by apply Hwr.
    + assert (Hi' : i = length w) by lia. subst i. fold (zlen w). fold off.
      rewrite Z.eqb_refl. by rewrite lookup_app_r, Nat.sub_diag.
Qed.

Lemma store_bytes_pusher {A} (post : A -> shared -> Prop) k src : forall off w s,
  zlen w + zlen src <= free s -> (src <> [] -> off = pos (zlen (out s) + zlen w)) -> off + zlen src <= n + 1 ->
  0 <= n -> written w s ->
  (forall s1, out s1 = out s -> tail (rg s1) = tail (rg s) -> free s <= free s1 -> written (w ++ src) s1 -> wpp post k s1) ->
  wpp post (pbind (store_bytes off src) (fun _ => k)) s.
Proof.
  induction src as [|v src IH]; intros off w s Hw Hoff Hend Hn Hwr Hk; cbn.
  - apply Hk; [done..|lia|]. by rewrite app_nil_r.
  - intros s1 R1 I1 _. rewrite zlen_cons in *. pose proof (zlen_nonneg src). pose proof (free_later _ _ R1) as Hf.
    pose proof (bp_out _ _ R1) as Eo. rewrite Hoff by done. rewrite <- Eo.
    destruct (store_one s1 v w I1) as (b & E & I2 & G & Hwr2); [lia|by apply (written_later w s)|].
    exists b. split; [done|]. split; [done|]. split; [done|].
    assert (E1 : off = pos (zlen (out s1) + zlen w)) by (rewrite Eo; auto).
    rewrite <- E1. apply (IH _ (w ++ [v])).
    + rewrite zlen_snoc. unfold free in *. cbn. lia.
    + intros Hne. cbn [out]. rewrite zlen_snoc. destruct src as [|x src]; [done|]. rewrite zlen_cons in *.
      pose proof (zlen_nonneg src). rewrite Z.add_assoc. pose proof (inv_taken s1 I1). pose proof (zlen_nonneg w). unfold free in Hf, Hw.
      destruct (pos_dist (zlen (out s1) + zlen w) (zlen (out s1) + zlen w + 1)); lia.
    + lia.
    + done.
    + done.
    + intros s3 E3 T3 F3 W3. apply Hk; [cbn in *; congruence|cbn in *; rewrite T3; by apply bp_tail| |].
      * unfold free in *. cbn in *. lia.
      * by rewrite <- app_assoc in W3.
Qed.

(** A store to [tail] makes the bytes written behind it visible. *)
Lemma commit s w v : inv s -> written w s -> zlen w <= free s -> at_pos v (zlen (out s) + zlen w) ->
  exists s2, rg s2 = store Tail v (rg s) /\ inv s2 /\ by_pusher s s2 /\ out s2 = out s ++ w.
Proof.
  intros I Hwr Hw Hv. exists (mkShared (store Tail v (rg s)) (out s ++ w) (taken s)). split; [done|].
  split; [|split; [constructor; cbn; [done..|by eexists]|done]].
  destruct I. unfold free in Hw. pose proof (zlen_nonneg w). constructor; cbn; rewrite ?zlen_app; try done; [lia..|].
  intros i Hi. destruct (Z.lt_ge_cases i (zlen (out s))).
  - rewrite lookup_app_l by (unfold zlen in *; lia). apply inv_bytes0. lia.
  - rewrite lookup_app_r by (unfold zlen in *; lia). rewrite <- Hwr by (unfold zlen in *; lia). do 3 f_equal. unfold zlen in *. lia.
Qed.
Lemma written_nil s : written [] s.
Proof. intros i Hi. cbn in Hi. lia. Qed.

Definition push_post (data prev : list Z) (r : Z) (s : shared) : Prop :=
  settled s /\ (r = zlen data \/ r = RB_BUFFER_FULL) /\
  out s = prev ++ (if 0 <=? r then take (Z.to_nat r) data else []).
Lemma push_post_ok data prev s : settled s -> out s = prev ++ data -> push_post data prev (zlen data) s.
Proof.
  intros Hs Ho. split; [done|]. split; [by left|]. rewrite (proj2 (Z.leb_le _ _)) by apply zlen_nonneg.
  unfold zlen. by rewrite Nat2Z.id, firstn_all.
Qed.

(** The end of both branches: from the bytes in place to the return. *)
Lemma push_end prev data s k v :
  inv s -> out s = prev -> settled s -> written data s -> zlen data <= free s -> at_pos v (zlen prev + zlen data) ->
  (forall s2, by_pusher s s2 -> inv s2 -> out s2 = prev ++ data -> tail (rg s2) = v -> wpp (push_post data prev) k s2) ->
  exists s2, rg s2 = store Tail v (rg s) /\ inv s2 /\ by_pusher s s2 /\ wpp (push_post data prev) k s2.
Proof.
  intros I <- Hs Hwr Hw Hv Hk. destruct (commit s data v) as (s2 & E & I2 & G & O); [done..|].
  exists s2. do 3 (split; [done|]). apply Hk; try done. by rewrite E.
Qed.

Lemma zslice_full data : zslice data 0 (zlen data) = Ok data.
Proof. apply (zslice_prefix _ data []); [by rewrite app_nil_r|done]. Qed.
Lemma zslice_cut data m : 0 <= m <= zlen data -> exists w1 w2, data = w1 ++ w2 /\ zlen w1 = m /\
  zslice data 0 m = Ok w1 /\ zslice data m (zlen data - m) = Ok w2.
Proof.
  intros Hm. destruct (zcut data m Hm) as (w1 & w2 & -> & <-). exists w1, w2. repeat split.
  - by apply (zslice_prefix _ w1 w2).
  - rewrite zlen_app. replace (zlen w1 + zlen w2 - zlen w1) with (zlen w2) by lia.
    pose proof (zslice_app w1 w2 [] (zlen w1) (zlen w2)) as E. rewrite !app_nil_r in E. by apply E.
Qed.

Lemma push_wp data s : settled s -> wpp (push_post data (out s)) (RingBuffer_push data (zlen data)) s.
Proof.
  intros Hs. unfold RingBuffer_push, get, set. apply remain_pusher; [done|]. intros r s1 R1 I1 Hr.
  pose proof (inv_n s1 I1) as Hn. pose proof (zlen_nonneg data) as Hd.
  destruct (Z.ltb_spec (i32 r) (zlen data)) as [Hfull|Hfit]; cbn [pbind].
  { intros s2 R2 I2 _. split; [apply (settled_later s); [chain|done]|]. split; [by right|]. cbn. rewrite app_nil_r.
    apply (bp_out s s2). chain. }
  assert (V : forall s', by_popper s1 s' -> tail (rg s') = pos (zlen (out s)) /\ out s' = out s /\ free s1 <= free s').
  { intros s' R. assert (R' : by_popper s s') by chain. split; [|split; [apply R'|by apply free_later]].
    rewrite (settled_later _ _ R' Hs). by rewrite (bp_out _ _ R'). }
  intros s2 R2 I2 _ s3 R3 I3 _. cbn [load]. destruct (V s3) as (E3 & O3 & F3); [chain|].
  pose proof (pos_range (zlen (out s)) ltac:(lia)) as Hp.
  assert (Hle : zlen data <= n) by (pose proof (inv_taken s1 I1); unfold free in Hr; lia).
  rewrite (inv_max s2 I2), E3, i32_u64 by lia.
  destruct (Z.ltb_spec (n - pos (zlen (out s)) + 1) (zlen data)) as [Hwrap|Hstraight]; cbn [pbind]; intros s4 R4 I4 _; cbn [load];
    (destruct (V s4) as (E4 & O4 & F4); [chain|]); rewrite E4.
  - destruct (zslice_cut data (n - pos (zlen (out s)) + 1)) as (w1 & w2 & Ed & El & Z1 & Z2); [lia|].
    unfold copy_in. rewrite Z1, Z2. assert (El2 : zlen w2 = zlen data - zlen w1) by (rewrite Ed, zlen_app; lia).
    apply (store_bytes_pusher _ _ w1 _ []); [rewrite zlen_nil; lia|rewrite zlen_nil, Z.add_0_r, O4; done|lia|lia|apply written_nil|].
    intros s5 O5 T5 F5 W5. rewrite app_nil_l in W5.
    apply (store_bytes_pusher _ _ w2 _ w1); [lia| |lia|lia|done|].
    { intros _. rewrite O5, O4. destruct (pos_dist (zlen (out s)) (zlen (out s) + zlen w1)); lia. }
    intros s6 O6 T6 F6 W6. rewrite <- Ed in W6. intros s7 R7 I7 _.
    assert (O7 : out s7 = out s) by (rewrite (bp_out _ _ R7); congruence). pose proof (free_later _ _ R7).
    apply (push_end (out s)); [done|done|unfold settled; rewrite (bp_tail _ _ R7); congruence|by apply (written_later data s6)|lia| |].
    + left. rewrite <- El. destruct (pos_dist (zlen (out s)) (zlen (out s) + zlen data)); lia.
    + intros s8 G8 I8 O8 T8 s9 R9 I9 _. apply push_post_ok; [|rewrite (bp_out _ _ R9); done].
      unfold settled. rewrite (bp_tail _ _ R9), (bp_out _ _ R9), T8, O8, zlen_app, <- El.
      destruct (pos_dist (zlen (out s)) (zlen (out s) + zlen data)); lia.
  - unfold copy_in. rewrite zslice_full.
    apply (store_bytes_pusher _ _ data _ []); [rewrite zlen_nil; lia|rewrite zlen_nil, Z.add_0_r, O4; done|lia|lia|apply written_nil|].
    intros s5 O5 T5 F5 W5. rewrite app_nil_l in W5. intros s6 R6 I6 _ s7 R7 I7 _. cbn [load].
    assert (T6 : tail (rg s6) = pos (zlen (out s))) by (rewrite (bp_tail _ _ R6); congruence).
    assert (O7 : out s7 = out s) by (rewrite (bp_out _ _ R7), (bp_out _ _ R6); congruence). pose proof (free_later s5 s7 ltac:(chain)).
    assert (Ev : u64 (tail (rg s6) + zlen data) = pos (zlen (out s)) + zlen data) by (rewrite T6; unfold u64; lia). rewrite Ev.
    assert (Hat : at_pos (pos (zlen (out s)) + zlen data) (zlen (out s) + zlen data))
      by (unfold at_pos; destruct (pos_dist (zlen (out s)) (zlen (out s) + zlen data)); lia).
    apply (push_end (out s)); [done|done|unfold settled; rewrite (bp_tail _ _ R7); congruence|apply (written_later data s5); [chain|done]|lia|done|].
    intros s8 G8 I8 O8 T8 s9 R9 I9 _ s10 R10 I10 _ s11 R11 I11 _. cbn [load]. rewrite (bp_tail _ _ R9), T8, (inv_max s10 I10).
    assert (O11 : out s11 = out s ++ data) by (rewrite (bp_out s8 s11 ltac:(chain)); done).
    assert (Em : (pos (zlen (out s)) + zlen data) mod (n + 1) = pos (zlen (out s) + zlen data)).
    { unfold pos. rewrite Zplus_mod_idemp_l. f_equal. lia. }
    rewrite Em. destruct (commit s11 [] (pos (zlen (out s) + zlen data)) I11 (written_nil _)) as (s12 & E12 & I12 & G12 & O12).
    { rewrite zlen_nil. pose proof (inv_room _ I11). unfold free. lia. }
    { left. rewrite zlen_nil, Z.add_0_r, O11, zlen_app. done. }
    exists s12. do 3 (split; [done|]). rewrite app_nil_r in O12. intros s13 R13 I13 _. apply push_post_ok; [|rewrite (bp_out _ _ R13); congruence].
    unfold settled. rewrite (bp_tail _ _ R13), (bp_out _ _ R13), O12, O11, E12, zlen_app. done.
Qed.

(** ** Popping *)

(** The [m] bytes from the [i]-th on. *)
Definition bytes (s : shared) (i : Z) (m : nat) : list Z := take m (drop (Z.to_nat i) (out s)).
Lemma bytes_later s s1 i m : by_pusher s s1 -> 0 <= i -> i + Z.of_nat m <= zlen (out s) -> bytes s1 i m = bytes s i m.
Proof.
  intros [_ _ [l E]] Hi Hm. unfold bytes, zlen in *. rewrite E, drop_app_le by lia. rewrite take_app_le; [done|].
  rewrite length_drop. lia.
Qed.
Lemma bytes_S s i m v : 0 <= i -> out s !! Z.to_nat i = Some v -> bytes s i (S m) = v :: bytes s (i + 1) m.
Proof.
  intros Hi E. unfold bytes. rewrite (drop_S _ _ _ E). cbn. do 3 f_equal. lia.
Qed.

Lemma bytes_app s i m1 m2 : 0 <= i -> bytes s i m1 ++ bytes s (i + Z.of_nat m1) m2 = bytes s i (m1 + m2).
Proof.
  intros Hi. unfold bytes. replace (Z.to_nat (i + Z.of_nat m1)) with (Z.to_nat i + m1)%nat by lia.
  by rewrite <- drop_drop, take_take_drop.
Qed.

Lemma load_bytes_popper m : forall off i s,
  taken s <= i -> 0 <= i -> i + Z.of_nat m <= zlen (out s) -> (m <> O -> off = pos i) -> off + Z.of_nat m <= n + 1 ->
  wpc (fun l s1 => by_pusher s s1 /\ l = bytes s i m) (load_bytes off m) s.
Proof.
  induction m as [|m IH]; intros off i s Ht Hi Hm Hoff Hend; cbn.
  - intros s1 R1 I1 _. done.
  - intros s1 R1 I1 O1. pose proof (inv_n s1 I1) as Hn. pose proof (inv_taken s1 I1). rewrite Hoff by done.
    pose proof (stored_later _ _ R1) as Hst. pose proof (bq_taken _ _ R1) as E1. unfold stored in Hst.
    assert (Hin : taken s1 <= i < zlen (out s1)) by lia.
    pose proof (inv_bytes s1 I1 i Hin) as Eb. pose proof (pos_range i ltac:(lia)).
    destruct (out s1 !! Z.to_nat i) as [v|] eqn:Ev; [|apply lookup_ge_None in Ev; unfold zlen in *; lia].
    exists v. split; [unfold rd8; rewrite (proj2 (Z.leb_le _ _)) by lia; by rewrite Eb|].
    apply prog_bind; [apply _|]. pose proof (inv_room s1 I1).
    eapply prog_mono; [|apply (IH (pos i + 1) (i + 1) s1); [lia|lia|lia| |rewrite Hoff in Hend by done; lia]].
    + cbn. intros l s2 [R2 ->] s3 R3 I3 O3. split; [chain|]. rewrite <- (bytes_later s s1 i (S m)) by (done || lia).
      by rewrite (bytes_S s1 i m v).
    + intros Hm0. rewrite Hoff in Hend by done. destruct (pos_dist i (i + 1)); lia.
Qed.

(** A store to [head] frees the bytes before it. *)
Lemma release s m v : inv s -> 0 <= m <= stored s -> at_pos v (taken s + m) -> (m = 0 -> v = head (rg s) \/ head (rg s) = n + 1) ->
  exists s2, rg s2 = store Head v (rg s) /\ inv s2 /\ by_popper s s2 /\ taken s2 = taken s + m /\ out s2 = out s.
Proof.
  intros I Hm Hv H0. exists (mkShared (store Head v (rg s)) (out s) (taken s + m)). split; [done|]. unfold stored in Hm. destruct I.
  split; [constructor; cbn; try done; [lia..|]; intros i Hi; apply inv_bytes0; lia|].
  split; [|done]. constructor; cbn; try done; [lia|]. intros. assert (m = 0) by lia. auto.
Qed.


Definition pop_post (pop : bool) (s0 : shared) (readlen : Z) (b_r : list Z * Z) (s : shared) : Prop :=
  let '(b, r) := b_r in
  aligned s /\ out s0 `prefix_of` out s /\
  (r = readlen /\ readlen <= zlen (out s) - taken s0 /\ b = bytes s (taken s0) (Z.to_nat readlen) /\ taken s = taken s0 + (if pop then readlen else 0)
   \/ r = RB_BUFFER_DATA_NOT_ENOUGH /\ b = [] /\ taken s = taken s0).

(** The end of a call, from the bytes copied to the return: [p] is the stores to [head]. *)
Lemma pop_end (pop : bool) s0 s readlen b (p : prog unit) :
  by_pusher s0 s -> aligned s -> 0 <= readlen <= stored s -> 0 <= taken s0 -> b = bytes s (taken s0) (Z.to_nat readlen) ->
  wpc (fun _ s1 => head (rg s1) = pos (taken s1) /\ out s `prefix_of` out s1 /\ taken s1 = taken s0 + (if pop then readlen else 0)) p s ->
  wpc (pop_post pop s0 readlen) (pbind p (fun _ => Ret (b, readlen))) s.
Proof.
  intros R Ha Hr Ht -> Hp. apply prog_bind; [apply _|]. eapply prog_mono; [|exact Hp].
  intros _ s1 (A1 & O1 & T1) s2 R2 I2 _. pose proof (bq_taken _ _ R) as Et. unfold stored in Hr.
  assert (O2 : out s `prefix_of` out s2) by (etrans; [exact O1|apply R2]).
  assert (Hl : zlen (out s) <= zlen (out s2)) by (destruct O2 as [l ->]; rewrite zlen_app; pose proof (zlen_nonneg l); lia).
  split; [by apply (aligned_later s1)|]. split; [by etrans; [apply R|]|]. left. split; [done|]. split; [lia|].
  split; [|rewrite (bq_taken _ _ R2); done]. destruct O2 as [l E]. unfold bytes. rewrite E, drop_app_le by (unfold zlen in *; lia).
  rewrite take_app_le; [done|]. rewrite length_drop. unfold zlen in *. lia.
Qed.

Lemma pop_wp pop readlen s : aligned s -> 0 <= readlen -> inv s -> wpc (pop_post pop s readlen) (RingBuffer_read_internal readlen pop) s.
Proof.
  intros Hs Hlen I0. unfold RingBuffer_read_internal, get. apply readable_popper; [done|]. intros r s1 R1 I1 Hr.
  pose proof (inv_n s1 I1) as Hn. pose proof (inv_taken s I0) as Ht.
  destruct (Z.ltb_spec (i32 r) readlen) as [Hless|Henough]; cbn [pbind].
  { intros s2 R2 I2 _. assert (R : by_pusher s s2) by chain. split; [by apply (aligned_later s)|]. split; [apply R|]. right. by rewrite (bq_taken _ _ R). }
  intros s2 R2 I2 _ s3 R3 I3 _. cbn [load].
  assert (V : forall s', by_pusher s1 s' -> head (rg s') = pos (taken s) /\ taken s' = taken s /\ readlen <= stored s').
  { intros s' R. assert (R' : by_pusher s s') by chain. rewrite (bq_head _ _ R'). split; [done|]. split; [apply R'|]. pose proof (stored_later _ _ R). lia. }
  pose proof (pos_range (taken s) ltac:(lia)) as Hp. destruct (V s3) as (E3 & T3 & F3); [chain|].
  pose proof (inv_room s3 I3) as M3. unfold stored in F3.
  rewrite (inv_max s2 I2), E3, i32_u64 by lia.
  destruct (Z.ltb_spec (n - pos (taken s) + 1) readlen) as [Hwrap|Hstraight]; cbn [pbind]; intros s4 R4 I4 _; cbn [load];
    (destruct (V s4) as (E4 & T4 & F4); [chain|]); rewrite E4; unfold stored in F4.
  - unfold copy_out. rewrite (proj2 (Z.ltb_ge _ _)) by lia. apply prog_bind; [apply _|].
    eapply prog_mono; [|apply (load_bytes_popper _ _ (taken s)); [lia..|done|lia]]. intros s1b s5 [R5 ->].
    rewrite (proj2 (Z.ltb_ge _ _)) by lia. destruct (V s5) as (E5 & T5 & F5); [chain|]. unfold stored in F5. apply prog_bind; [apply _|].
    eapply prog_mono; [|apply (load_bytes_popper _ _ (taken s + (n - pos (taken s) + 1))); [lia..| |lia]].
    2:{ intros _. destruct (pos_dist (taken s) (taken s + (n - pos (taken s) + 1))); lia. }
    intros s2b s6 [R6 ->]. apply pop_end; [chain|apply (aligned_later s); [chain|done]| |lia| |].
    + unfold stored. destruct (V s6) as (_ & _ & F6); [chain|]. unfold stored in F6. lia.
    + rewrite <- (bytes_later s4 s6), <- (bytes_later s5 s6) by (chain || lia).
      rewrite <- (Z2Nat.id (n - pos (taken s) + 1)) at 2 by lia. rewrite bytes_app by lia. f_equal. lia.
    + destruct pop; cbn; intros s7 R7 I7 O7; [|rewrite (bq_head _ _ R7), (bq_taken _ _ R7), Z.add_0_r; destruct (V s6) as (E6 & T6 & _); [chain|]; rewrite E6, T6; split; [done|]; split; [apply R7|done]].
      destruct (V s7) as (E7 & T7 & F7); [chain|].
      destruct (release s7 readlen (readlen - (n - pos (taken s) + 1)) I7) as (s8 & E8 & I8 & G8 & T8 & O8'); [lia| |lia|].
      { left. rewrite T7. unfold stored in F7. destruct (pos_dist (taken s) (taken s + readlen)); lia. }
      exists s8. do 3 (split; [done|]). intros s9 R9 I9 _. rewrite (bq_head _ _ R9), (bq_taken _ _ R9), E8, T8, T7. cbn.
      split; [destruct (pos_dist (taken s) (taken s + readlen)); lia|]. split; [|done]. etrans; [apply R7|]. rewrite <- O8'. apply R9.
  - unfold copy_out. rewrite (proj2 (Z.ltb_ge _ _)) by lia. apply prog_bind; [apply _|].
    eapply prog_mono; [|apply (load_bytes_popper _ _ (taken s)); [lia..|done|lia]]. intros b s5 [R5 ->].
    destruct (V s5) as (E5 & T5 & F5); [chain|].
    apply pop_end; [chain|apply (aligned_later s); [chain|done]|done|lia|symmetry; apply bytes_later; [done|lia..]|].
    destruct pop; cbn; intros s6 R6 I6 O6; [|rewrite (bq_head _ _ R6), (bq_taken _ _ R6), Z.add_0_r, E5, T5; split; [done|]; split; [apply R6|done]].
    destruct (V s6) as (E6 & T6 & F6); [chain|]. intros s7 R7 I7 O7. destruct (V s7) as (E7 & T7 & F7); [chain|]. rewrite E6.
    assert (Eu : u64 (pos (taken s) + readlen) = pos (taken s) + readlen) by (unfold u64; lia). rewrite Eu.
    assert (Hat : at_pos (pos (taken s) + readlen) (taken s + readlen))
      by (unfold at_pos; unfold stored in F6; destruct (pos_dist (taken s) (taken s + readlen)); lia).
    destruct (release s7 readlen (pos (taken s) + readlen) I7) as (s8 & E8 & I8 & G8 & T8 & O8'); [lia|by rewrite T7|lia|].
    exists s8. do 3 (split; [done|]). intros s9 R9 I9 _ s10 R10 I10 _ s11 R11 I11 _. cbn [load].
    assert (H9 : head (rg s9) = pos (taken s) + readlen) by (rewrite (bq_head _ _ R9), E8; done). rewrite H9, (inv_max s10 I10).
    assert (Em : (pos (taken s) + readlen) mod (n + 1) = pos (taken s + readlen)).
    { unfold pos. rewrite Zplus_mod_idemp_l. f_equal. lia. }
    assert (R911 : by_pusher s9 s11) by chain. assert (R811 : by_pusher s8 s11) by chain.
    assert (T11 : taken s11 = taken s + readlen) by (rewrite (bq_taken _ _ R811); lia).
    rewrite Em. destruct (release s11 0 (pos (taken s + readlen)) I11) as (s12 & E12 & I12 & G12 & T12 & O12).
    { pose proof (inv_taken s11 I11). unfold stored. lia. }
    { left. rewrite T11. f_equal. lia. }
    { intros _. rewrite (bq_head _ _ R911), H9. destruct Hat as [?|[? ?]]; [left; congruence|right; lia]. }
    exists s12. do 3 (split; [done|]). intros s13 R13 I13 _. rewrite (bq_head _ _ R13), (bq_taken _ _ R13), E12, T12, T11. cbn.
    split; [f_equal; lia|]. split; [|lia]. etrans; [|apply R13]. rewrite O12. etrans; [|apply R811]. rewrite O8'. etrans; [apply R6|apply R7].
Qed.

(** ** Both threads *)
Lemma access_wp (rely guar : shared -> shared -> Prop) (ok : shared -> Prop) {Hr : PreOrder rely} {Hg : PreOrder guar}
    {A} (post : A -> shared -> Prop) p s :
  wp rely guar ok post p s -> inv s -> ok s ->
  match p with
  | Ret a => post a s
  | _ => exists s1 p1, access (rg s) p = Ok (rg s1, p1) /\ inv s1 /\ guar s s1 /\ wp rely guar ok post p1 s1
  end.
Proof.
  intros H I O. destruct p as [a|f k|f v k|off k|off v k|]; cbn in H; specialize (H s (reflexivity s) I O); cbn.
  - done.
  - by exists s, (k (load f (rg s))).
  - destruct H as (s2 & E & I2 & G & H). exists s2, k. by rewrite E.
  - destruct H as (v & E & H). exists s, (k v). by rewrite E.
  - destruct H as (b & E & I2 & G & H). rewrite E. by exists (mkShared (with_buf b (rg s)) (out s) (taken s)), k.
  - done.
Qed.

Definition pop_ret (pop : bool) (popped0 : list Z) (b_r : list Z * Z) (s : shared) : Prop :=
  let '(b, r) := b_r in
  aligned s /\ b `prefix_of` drop (length popped0) (out s) /\
  (if pop then popped0 ++ b else popped0) = take (Z.to_nat (taken s)) (out s).

Record threads_inv (c0 : list Z) (t : threads) (s : shared) : Prop := mkThreadsInv {
  ti_ring : ring t = rg s;
  ti_inv : inv s;
  ti_push : match pushing t with
            | None => settled s /\ out s = c0 ++ pushed t
            | Some (data, p) => wpp (push_post data (c0 ++ pushed t)) p s
            end;
  ti_pop : match popping t with
           | None => aligned s /\ popped t = take (Z.to_nat (taken s)) (out s)
           | Some (pop, p) => wpc (pop_ret pop (popped t)) p s
           end;
  ti_popped : popped t `prefix_of` out s;
  ti_results : Forall (fun '(k, b, r) => b `prefix_of` drop (Z.to_nat k) (out s)) (results t)
}.

Lemma take_prefix {A} (m : nat) (l k : list A) : (m <= length l)%nat -> l `prefix_of` k -> take m l = take m k.
Proof. intros Hm [x ->]. by rewrite take_app_le. Qed.
Lemma drop_prefix {A} (m : nat) (b l k : list A) : b `prefix_of` drop m l -> l `prefix_of` k -> b `prefix_of` drop m k.
Proof. intros Hb [x ->]. rewrite drop_app. etrans; [exact Hb|]. by eexists. Qed.

(** The other thread's part of the invariant. *)
Lemma ti_pop_later c0 t s s1 : threads_inv c0 t s -> by_pusher s s1 ->
  match popping t with
  | None => aligned s1 /\ popped t = take (Z.to_nat (taken s1)) (out s1)
  | Some (pop, p) => wpc (pop_ret pop (popped t)) p s1
  end /\ popped t `prefix_of` out s1 /\ Forall (fun '(k, b, r) => b `prefix_of` drop (Z.to_nat k) (out s1)) (results t).
Proof.
  intros [] R. assert (Ho : out s `prefix_of` out s1) by apply R. split; [|split].
  - destruct (popping t) as [[pop p]|]; [by apply (wp_rely by_pusher _ _ _ _ s)|]. destruct ti_pop0 as [Ha Hp].
    split; [by apply (aligned_later s)|]. rewrite (bq_taken _ _ R), Hp. apply take_prefix; [|done].
    pose proof (inv_taken s ti_inv0). unfold zlen in *. lia.
  - by etrans.
  - revert ti_results0. apply Forall_impl. intros [[k b] r] Hb. by apply (drop_prefix _ _ (out s)).
Qed.

Lemma push_turn_ok c0 t s : threads_inv c0 t s -> exists t1 s1, push_turn t = Ok t1 /\ threads_inv c0 t1 s1.
Proof.
  intros HI. pose proof HI as [Er I Hpush Hpop Hp Hres]. unfold push_turn. rewrite Er.
  destruct (pushing t) as [[data p]|] eqn:Et; [|exists t, s; done].
  pose proof (access_wp _ _ _ _ _ _ Hpush I Logic.I) as H.
  destruct p as [r|f k|f v k|off k|off v k|].
  1: { destruct H as (Hs & _ & Ho). eexists _, s. split; [done|]. constructor; cbn; try done. split; [done|].
    rewrite Ho, <- app_assoc. f_equal. destruct (0 <=? r); [done|]. by rewrite app_nil_r. }
  all: destruct H as (s1 & p1 & E & I1 & G & H); rewrite E; cbn [rbind]; eexists _, s1; (split; [done|]);
    destruct (ti_pop_later _ _ _ _ HI G) as (H1 & H2 & H3); by constructor.
Qed.

Lemma pop_turn_ok c0 t s : threads_inv c0 t s -> tail (ring t) <= max_offset (ring t) ->
  exists t1 s1, pop_turn t = Ok t1 /\ threads_inv c0 t1 s1.
Proof.
  intros HI Hc. pose proof HI as [Er I Hpush Hpop Hp Hres]. unfold pop_turn. rewrite Er in *. rewrite (inv_max s I) in Hc.
  destruct (popping t) as [[pop p]|] eqn:Et; [|exists t, s; done].
  pose proof (access_wp _ _ _ _ _ _ Hpop I Hc) as H.
  assert (Hpush' : forall s1, by_popper s s1 -> match pushing t with
            | None => settled s1 /\ out s1 = c0 ++ pushed t
            | Some (data, p) => wpp (push_post data (c0 ++ pushed t)) p s1
            end).
  { intros s1 R. destruct (pushing t) as [[data q]|]; [by apply (wp_rely by_popper _ _ _ _ s)|].
    destruct Hpush as [Hs Ho]. split; [by apply (settled_later s)|]. by rewrite (bp_out _ _ R). }
  destruct p as [[b r]|f k|f v k|off k|off v k|].
  1: { destruct H as (Ha & Hb & Ht). eexists _, s. split; [done|]. constructor; cbn; try done.
    - rewrite Ht. apply prefix_take.
    - apply Forall_app. split; [done|]. constructor; [|done]. unfold zlen. by rewrite Nat2Z.id. }
  all: destruct H as (s1 & p1 & E & I1 & G & H); rewrite E; cbn [rbind]; eexists _, s1; (split; [done|]);
    constructor; cbn; [done|done|by apply Hpush'|done|by rewrite (bp_out _ _ G)|by rewrite (bp_out _ _ G)].
Qed.

Lemma call_push_ok c0 t s data : threads_inv c0 t s ->
  threads_inv c0 (call_push data (RingBuffer_push data (zlen data)) t) s.
Proof.
  intros HI. pose proof HI as [Er I Hpush Hpop Hp Hres]. unfold call_push. destruct (pushing t) as [p|] eqn:Et; [done|].
  constructor; cbn; try done. destruct Hpush as [Hs <-]. by apply push_wp.
Qed.
Lemma call_pop_ok c0 t s pop p : threads_inv c0 t s ->
  (aligned s -> popped t = take (Z.to_nat (taken s)) (out s) -> inv s -> wpc (pop_ret pop (popped t)) p s) ->
  threads_inv c0 (call_pop pop p t) s.
Proof.
  intros HI Hw. pose proof HI as [Er I Hpush Hpop Hp Hres]. unfold call_pop. destruct (popping t) as [q|] eqn:Et; [done|].
  constructor; cbn; try done. destruct Hpop. by apply Hw.
Qed.

(** What a reading call returns, in terms of what was popped before. *)
Lemma read_ret pop readlen l s : aligned s -> l = take (Z.to_nat (taken s)) (out s) -> inv s -> 0 <= readlen ->
  wpc (pop_ret pop l) (RingBuffer_read_internal readlen pop) s.
Proof.
  intros Ha El I Hr. eapply prog_mono; [|by apply (pop_wp pop readlen)]. intros [b r] s1 (Ha1 & Ho & Hb).
  pose proof (inv_taken s I) as Ht. assert (Hl : length l = Z.to_nat (taken s)) by (rewrite El, length_take; unfold zlen in Ht; lia).
  assert (El1 : l = take (Z.to_nat (taken s)) (out s1)) by (rewrite El; apply take_prefix; [unfold zlen in Ht; lia|done]).
  split; [done|]. rewrite Hl. destruct Hb as [(-> & Hle & -> & ->)|(-> & -> & ->)].
  - split; [apply prefix_take|]. destruct pop; [|by rewrite Z.add_0_r]. unfold bytes. rewrite El1, take_take_drop. f_equal. lia.
  - split; [apply prefix_nil|]. destruct pop; [by rewrite app_nil_r|done].
Qed.
Lemma readable_ret l s : aligned s -> l = take (Z.to_nat (taken s)) (out s) -> inv s ->
  wpc (pop_ret false l) (do* m := RingBuffer_get_readable_bufsize in Ret ([], m)) s.
Proof.
  intros Ha El I. apply readable_popper; [done|]. intros r s1 R1 I1 _ s2 R2 I2 _. assert (R : by_pusher s s2) by chain.
  split; [by apply (aligned_later s)|]. split; [apply prefix_nil|]. rewrite El, (bq_taken _ _ R). apply take_prefix; [|apply R].
  pose proof (inv_taken s I). unfold zlen in *. lia.
Qed.

Lemma turn_ok c0 t s l : threads_inv c0 t s -> allowed t l = true -> exists t1 s1, turn t l = Ok t1 /\ threads_inv c0 t1 s1.
Proof.
  intros HI Hl. destruct l as [data| | |m|m| |]; cbn in *; try done.
  - exists (call_push data (RingBuffer_push data (zlen data)) t), s. split; [done|]. by apply call_push_ok.
  - eexists _, s. split; [done|]. apply call_pop_ok; [done|]. apply readable_ret.
  - eexists _, s. split; [done|]. apply call_pop_ok; [done|]. intros. apply read_ret; try done. lia.
  - eexists _, s. split; [done|]. apply call_pop_ok; [done|]. intros. apply read_ret; try done. lia.
  - by apply (push_turn_ok c0 t s).
  - apply (pop_turn_ok c0 t s); [done|]. lia.
Qed.

Lemma turns_ok c0 ls : forall t s, threads_inv c0 t s -> calm t ls = true -> exists t1 s1, turns t ls = Ok t1 /\ threads_inv c0 t1 s1.
Proof.
  induction ls as [|l ls IH]; intros t s HI Hc; cbn in *; [by exists t, s|]. apply andb_prop in Hc as [Hl Hc].
  destruct (turn_ok c0 t s l HI Hl) as (t1 & s1 & E & HI1). rewrite E in *. cbn [rbind]. by apply (IH t1 s1).
Qed.

(** The ring as the two threads leave it between calls. *)
Lemma idle_ring s : inv s -> settled s -> aligned s -> wf (rg s) /\ contents (rg s) = drop (Z.to_nat (taken s)) (out s).
Proof.
  intros I Hs Ha. pose proof I as []. unfold settled, aligned in *.
  pose proof (pos_range (taken s) ltac:(lia)). pose proof (pos_range (zlen (out s)) ltac:(lia)).
  assert (Hwf : wf (rg s)) by (unfold wf; lia). split; [done|].
  assert (Hu : used (rg s) = zlen (out s) - taken s).
  { unfold used. rewrite Hs, Ha. destruct (pos_dist (taken s) (zlen (out s))) as [[-> ?]|[-> ?]]; bool_lia. }
  apply list_eq. intros i. rewrite lookup_contents, Hu, lookup_drop by done.
  destruct (Z.ltb_spec (Z.of_nat i) (zlen (out s) - taken s)).
  - assert (Ei : slot (rg s) i = Z.to_nat (pos (taken s + Z.of_nat i))).
    { unfold slot. rewrite Ha. destruct (pos_dist (taken s) (taken s + Z.of_nat i)) as [[-> ?]|[-> ?]]; bool_lia; f_equal; lia. }
    rewrite Ei, inv_bytes0 by lia. f_equal. lia.
  - symmetry. apply lookup_ge_None. unfold zlen in *. lia.
Qed.
End Threads.

Lemma threads_start rb : wf rb ->
  threads_inv (size rb) (head rb) (contents rb) (two_threads rb) (mkShared rb (contents rb) 0).
Proof.
  intros Hwf. pose proof (used_range rb Hwf) as Hu. pose proof (zlen_contents rb Hwf) as Hz. pose proof Hwf as (Hm & Hn & Hh & Ht & Hb).
  assert (E0 : pos (size rb) (head rb) 0 = head rb) by (unfold pos; rewrite Z.add_0_r; apply Z.mod_small; lia).
  assert (Es : forall i, 0 <= i < used rb -> slot rb (Z.to_nat i) = Z.to_nat (pos (size rb) (head rb) i)).
  { intros i Hi. unfold slot. destruct (pos_dist (size rb) (head rb) 0 i) as [[-> ?]|[-> ?]]; [lia..| |]; rewrite E0 in *; bool_lia; f_equal; lia. }
  assert (Et : pos (size rb) (head rb) (zlen (contents rb)) = tail rb).
  { rewrite Hz. unfold used in *. destruct (pos_dist (size rb) (head rb) 0 (used rb)) as [[E ?]|[E ?]]; unfold used in *; [lia..| |]; rewrite E, E0 in *; bool_lia. }
  constructor; cbn.
  - done.
  - constructor; cbn; try done; [lia..|by left|by left|]. intros i Hi. rewrite <- Es, lookup_contents by (done || lia).
    destruct (Z.ltb_spec (Z.of_nat (Z.to_nat i)) (used rb)); [done|lia].
  - split; [done|]. by rewrite app_nil_r.
  - split; [done|]. done.
  - apply prefix_nil.
  - constructor.
Qed.

(** C9: The lock-free ring buffer between one pushing and one popping thread.  From any
    well-formed ring, under every interleaving of the single loads, stores and byte copies of
    the two threads in which the popping thread does not run between the two stores of
    [tail += len; tail %= max_offset + 1]: no access leaves the block; when no push is under
    way, the bytes popped so far are a prefix of those that were in the ring and those pushed
    since, and every reading call copied bytes that follow those popped before it; when
    no call at all is under way, the bytes not popped are exactly the contents of the ring. *)
Theorem ring_threads_safe rb ls : wf rb -> calm (two_threads rb) ls = true ->
  exists s, turns (two_threads rb) ls = Ok s /\
  (pushing s = None ->
     popped s `prefix_of` contents rb ++ pushed s /\
     Forall (fun '(k, b, r) => b `prefix_of` drop (Z.to_nat k) (contents rb ++ pushed s)) (results s)) /\
  (pushing s = None -> popping s = None ->
     wf (ring s) /\ contents rb ++ pushed s = popped s ++ contents (ring s)).
Proof.
  intros Hwf Hc. destruct (turns_ok _ _ _ ls _ _ (threads_start rb Hwf) Hc) as (s & g & E & [Er I Hpush Hpop Hp Hres]).
  exists s. split; [done|]. split.
  - intros En. rewrite En in Hpush. destruct Hpush as [_ <-]. done.
  - intros En1 En2. rewrite En1 in Hpush. rewrite En2 in Hpop. destruct Hpush as [Hs <-], Hpop as [Ha ->].
    rewrite Er. destruct (idle_ring _ _ g I Hs Ha) as [Hw ->]. split; [done|]. by rewrite take_drop.
Qed.

(** ** Schedules *)
Definition ex_ring (head tail : Z) (block : list Z) : RingBuffer := mkRingBuffer (zlen block - 1) (zlen block - 1) head tail block.

Lemma ex_ring_wf h t b : 0 <= h < zlen b -> 0 <= t < zlen b -> zlen b <= 2 ^ 31 - 1 -> wf (ex_ring h t b).
Proof. intros. unfold wf, ex_ring. cbn. lia. Qed.

(** A push that wraps and a pop that sees it half done. *)
Definition ex_overlap : list label :=
  CallPush [7; 8] :: repeat Pusher 12 ++ CallPop 2 :: repeat Popper 9 ++ repeat Pusher 30 ++ repeat Popper 30.

Lemma ring_threads_safe_witness :
  let rb := ex_ring 3 4 [10; 11; 12; 13; 14] in
  wf rb /\ calm (two_threads rb) ex_overlap = true /\
  exists s, turns (two_threads rb) ex_overlap = Ok s /\
  (pushing s = None ->
     popped s `prefix_of` contents rb ++ pushed s /\
     Forall (fun '(k, b, r) => b `prefix_of` drop (Z.to_nat k) (contents rb ++ pushed s)) (results s)) /\
  (pushing s = None -> popping s = None ->
     wf (ring s) /\ contents rb ++ pushed s = popped s ++ contents (ring s)).
Proof.
  intros rb. assert (Hwf : wf rb) by (apply ex_ring_wf; unfold zlen; cbn [length]; lia). assert (Hc : calm (two_threads rb) ex_overlap = true) by (vm_compute; reflexivity).
  split; [exact Hwf|]. split; [exact Hc|]. exact (ring_threads_safe rb ex_overlap Hwf Hc).
Defined.

(** What goes wrong although the order of the bytes is kept.  A push is refused with the ring
    empty: [head] wraps between two of the loads of [RingBuffer_get_remain_bufsize]. *)
Definition ex_refused : list label :=
  CallPush [7] :: repeat Pusher 4 ++ CallPop 2 :: repeat Popper 40 ++ repeat Pusher 30.
Example push_refused_with_room :
  let rb := ex_ring 4 1 [10; 11; 12; 13; 14] in
  used rb = 2 /\ calm (two_threads rb) ex_refused = true /\
  exists s, turns (two_threads rb) ex_refused = Ok s /\ codes s = [RB_BUFFER_FULL] /\ contents (ring s) = [].
Proof. cbv zeta. split; [done|]. split; [vm_compute; reflexivity|]. eexists. split; [vm_compute; reflexivity|]. done. Qed.

(** The calls of [parse_client_json] on a message of five bytes of which three have arrived:
    [tail] wraps between two loads of the first, [canread] is enormous, the header is taken off
    and the body is refused; what is parsed is the block from [malloc]. *)
Definition ex_parse : list label :=
  CallReadable :: repeat Popper 4 ++ CallPush [65; 66] :: repeat Pusher 40 ++ repeat Popper 10 ++
  CallRead 2 :: repeat Popper 40 ++ CallPop 2 :: repeat Popper 40 ++ CallPop 5 :: repeat Popper 40.
Example message_cut_short :
  let rb := ex_ring 5 8 [0; 0; 0; 0; 0; 0; 5; 64; 0] in
  wf rb /\ contents rb = [0; 5; 64] /\ calm (two_threads rb) ex_parse = true /\
  exists s, turns (two_threads rb) ex_parse = Ok s /\
    results s = [(0, [], 2 ^ 64 - 4); (0, [0; 5], 2); (0, [0; 5], 2); (2, [], RB_BUFFER_DATA_NOT_ENOUGH)].
Proof.
  cbv zeta. split; [apply ex_ring_wf; unfold zlen; cbn [length]; lia|]. split; [done|]. split; [vm_compute; reflexivity|]. eexists. split; [vm_compute; reflexivity|]. done.
Qed.

(** The schedules the theorem leaves out.  The pushing thread stops between its two stores to
    [tail], at the end of the block, and the popping thread empties the ring: it then sees
    as many bytes as the block has, and reads old ones. *)
Definition ex_between : list label :=
  CallPush [7] :: repeat Pusher 13 ++ CallPop 2 :: repeat Popper 30 ++ CallPop 3 :: repeat Popper 30.
Example stale_bytes :
  let rb := ex_ring 3 4 [10; 11; 12; 13; 14] in
  wf rb /\ contents rb = [13] /\
  exists s, turns (two_threads rb) ex_between = Ok s /\ popped s = [13; 7; 10; 11; 12].
Proof. cbv zeta. split; [apply ex_ring_wf; unfold zlen; cbn [length]; lia|]. split; [done|]. eexists. split; [vm_compute; reflexivity|]. done. Qed.

(** The network thread drops the buffer, as it does when the connection ends, while the main
    thread is in a pop: three old bytes are in the ring afterwards. *)
Definition ex_drop : list label :=
  CallPop 2 :: repeat Popper 10 ++ CallDrop :: repeat Pusher 5 ++ repeat Popper 30 ++ CallReadable :: repeat Popper 30.
Example drop_during_pop :
  let rb := ex_ring 0 2 [10; 11; 12; 13; 14] in
  wf rb /\ exists s, turns (two_threads rb) ex_drop = Ok s /\ pushed s = [] /\ results s = [(0, [10; 11], 2); (2, [], 3)].
Proof. cbv zeta. split; [apply ex_ring_wf; unfold zlen; cbn [length]; lia|]. eexists. split; [vm_compute; reflexivity|]. done. Qed.
