(* ===== verification/OrdTree.v ===== *)
(** The ordered trees of the program, as sequences.

    Every table of the program is a red-black tree of ext/timerqueue/rbtree.c
    whose elements carry their own key; the clients use it through
    [rbtree_search], [rbtree_insert], [rbtree_delete], [rbtree_first] and the
    in-order loop [RBTREE_FOR].  A tree is represented here by its in-order
    sequence, which is all a client can observe, and each operation compares
    keys the way the C one does while it descends.  [TreeKey] gives the key of
    an element and the comparison function handed to [rbtree_create]; [CmpOrder]
    says on which keys that function is a strict total order, and is the promise
    the laws of the tree need. *)
From S2P Require Import Prelude.
From stdpp Require Import base list numbers.
From Stdlib Require Import ZArith Lia Sorted.
Open Scope Z_scope.

Class TreeKey (E K : Type) : Type := {
  tkey : E -> K;
  tcmp : K -> K -> Z
}.

Section Ops.
Context {E K : Type} `{TK : TreeKey E K}.

(** [rbtree_search]: the element, or [None] for a null pointer. *)
Fixpoint rbtree_search (t : list E) (k : K) : option E :=
  match t with
  | [] => None
  | e :: t' => if tcmp k (tkey e) =? 0 then Some e else rbtree_search t' k
  end.

(** [rbtree_insert]: the new tree, or [None] when the key is already there
    and the C function returns a null pointer. *)
Fixpoint rbtree_insert (t : list E) (e : E) : option (list E) :=
  match t with
  | [] => Some [e]
  | x :: t' =>
    let r := tcmp (tkey e) (tkey x) in
    if r =? 0 then None
    else if r <? 0 then Some (e :: t)
    else option_map (cons x) (rbtree_insert t' e)
  end.

(** [rbtree_delete]: the new tree and the unlinked element if there was one. *)
Fixpoint rbtree_delete (t : list E) (k : K) : list E * option E :=
  match t with
  | [] => ([], None)
  | x :: t' =>
    if tcmp k (tkey x) =? 0 then (t', Some x)
    else let r := rbtree_delete t' k in (x :: fst r, snd r)
  end.

Definition rbtree_first (t : list E) : option E := List.hd_error t.

(** Assignment through the pointer a search returned (keys never change). *)
Fixpoint tree_update (t : list E) (k : K) (f : E -> E) : list E :=
  match t with
  | [] => []
  | x :: t' => if tcmp k (tkey x) =? 0 then f x :: t' else x :: tree_update t' k f
  end.

(** [rbtree_insert] as a statement, its result ignored. *)
Definition tree_put (t : list E) (e : E) : list E :=
  match rbtree_insert t e with Some t' => t' | None => t end.

Definition keys (t : list E) : list K := map tkey t.
End Ops.

Arguments keys {E K TK} t : simpl never.
Arguments tree_put {E K TK} t e : simpl never.

(** On keys satisfying [D], [cmp] is a strict total order. *)
Class CmpOrder {K : Type} (cmp : K -> K -> Z) (D : K -> Prop) : Prop := {
  cmp_eq : forall a b, D a -> D b -> cmp a b = 0 <-> a = b;
  cmp_anti : forall a b, D a -> D b -> cmp a b < 0 <-> 0 < cmp b a;
  cmp_trans : forall a b c, D a -> D b -> D c -> cmp a b < 0 -> cmp b c < 0 -> cmp a c < 0
}.

Section Laws.
Context {E K : Type} `{TK : TreeKey E K} (D : K -> Prop) {CO : CmpOrder tcmp D}.

(** The order of the sequence: what [rbtree_insert] maintains. *)
Definition tlt (x y : E) : Prop := tcmp (tkey x) (tkey y) < 0.
Definition tree_ok (t : list E) : Prop :=
  Forall (fun e => D (tkey e)) t /\ StronglySorted tlt t.

Lemma in_keys t e k : In e t -> tkey e = k -> In k (keys t).
Proof. intros Hin <-. unfold keys. apply in_map_iff. eauto. Qed.

Lemma in_keys_inv t k : In k (keys t) -> exists e, In e t /\ tkey e = k.
Proof. unfold keys. rewrite in_map_iff. intros (e & ? & ?). eauto. Qed.

Lemma keys_nil : keys (@nil E) = [].
Proof. done. Qed.
Lemma keys_cons x t : keys (x :: t) = tkey x :: keys t.
Proof. done. Qed.

Lemma tree_ok_nil : tree_ok [].
Proof. split; constructor. Qed.

Lemma tree_ok_cons x t :
  tree_ok (x :: t) <->
  D (tkey x) /\ tree_ok t /\ Forall (tlt x) t.
Proof.
  unfold tree_ok. split.
  - intros [HD HS]. inversion HD; inversion HS; subst. done.
  - intros (? & [? ?] & ?). split; constructor; done.
Qed.

Lemma tree_ok_dom t e : tree_ok t -> In e t -> D (tkey e).
Proof. intros [HD _] Hin. by apply (proj1 (List.Forall_forall _ _) HD). Qed.

Lemma cmp_tri a b : D a -> D b -> tcmp a b = 0 /\ a = b \/
  tcmp a b < 0 /\ 0 < tcmp b a /\ a <> b \/ 0 < tcmp a b /\ tcmp b a < 0 /\ a <> b.
Proof.
  intros Ha Hb. pose proof (cmp_eq a b Ha Hb). pose proof (cmp_anti a b Ha Hb).
  pose proof (cmp_anti b a Hb Ha).
  destruct (Z.lt_trichotomy (tcmp a b) 0) as [|[|]].
  - right; left. split; [done|]. split; [tauto|]. intros E0. apply H in E0. lia.
  - left. tauto.
  - right; right. split; [done|]. split; [tauto|]. intros E0. apply H in E0. lia.
Qed.

Lemma cmp_refl a : D a -> tcmp a a = 0.
Proof. intros Ha. by apply (cmp_eq a a Ha Ha). Qed.

(** A search finds exactly the element with the key. *)
Lemma search_iff t k e :
  tree_ok t -> D k -> rbtree_search t k = Some e <-> In e t /\ tkey e = k.
Proof.
  induction t as [|x t IH]; intros Hok Hk; cbn.
  - split; [discriminate|tauto].
  - apply tree_ok_cons in Hok as (Hx & Hok & Hlt). specialize (IH Hok Hk).
    destruct (cmp_tri k (tkey x) Hk Hx) as [(-> & ->)|[(? & ? & ?)|(? & ? & ?)]]; cbn.
    + split; [intros [= ->]; auto|]. intros [[->|Hin] He]; [done|].
      pose proof (proj1 (List.Forall_forall _ _) Hlt _ Hin) as Hl. unfold tlt in Hl.
      rewrite He in Hl. pose proof (cmp_refl (tkey x) Hx). lia.
    + destruct (Z.eqb_spec (tcmp k (tkey x)) 0); [lia|]. rewrite IH.
      split; [tauto|]. intros [[->|?] ?]; [congruence|done].
    + destruct (Z.eqb_spec (tcmp k (tkey x)) 0); [lia|]. rewrite IH.
      split; [tauto|]. intros [[->|?] ?]; [congruence|done].
Qed.

Lemma search_none_iff t k :
  tree_ok t -> D k -> rbtree_search t k = None <-> ~ In k (keys t).
Proof.
  intros Hok Hk. unfold keys. rewrite in_map_iff.
  pose proof (fun e => search_iff t k e Hok Hk) as Hs.
  destruct (rbtree_search t k) as [e|].
  - split; [discriminate|]. intros Hn. exfalso. apply Hn.
    exists e. destruct (proj1 (Hs e) eq_refl). done.
  - split; [|done]. intros _ (e & He & Hin).
    assert (None = Some e) by (apply Hs; done). done.
Qed.

Lemma search_some t k : tree_ok t -> D k -> In k (keys t) ->
  exists e, rbtree_search t k = Some e /\ In e t /\ tkey e = k.
Proof.
  intros Hok Hk Hin. destruct (rbtree_search t k) as [e|] eqn:Es.
  - apply search_iff in Es as [? ?]; eauto.
  - apply search_none_iff in Es; [contradiction|done|done].
Qed.

Lemma insert_filter (f : E -> bool) t e t' :
  rbtree_insert t e = Some t' -> f e = false -> List.filter f t' = List.filter f t.
Proof.
  revert t'. induction t as [|x t IH]; intros t' Hi Hf; cbn in Hi.
  - injection Hi as <-. cbn. by rewrite Hf.
  - destruct (_ =? 0); [done|]. destruct (_ <? 0).
    + injection Hi as <-. cbn. by rewrite Hf.
    + destruct (rbtree_insert t e) as [t1|]; [|done]. cbn in Hi. injection Hi as <-.
      cbn. by rewrite (IH t1).
Qed.

Lemma insert_perm t e t' : rbtree_insert t e = Some t' -> Permutation t' (e :: t).
Proof.
  revert t'. induction t as [|x t IH]; intros t' Hi; cbn in Hi; [by injection Hi as <-|].
  destruct (_ =? 0); [done|]. destruct (_ <? 0); [by injection Hi as <-|].
  destruct (rbtree_insert t e) as [t1|]; [|done]. cbn in Hi. injection Hi as <-.
  rewrite (IH t1) by done. constructor.
Qed.

Lemma in_put t e x : In x (tree_put t e) -> x = e \/ In x t.
Proof.
  unfold tree_put. destruct (rbtree_insert t e) as [t'|] eqn:Hi; [|tauto].
  apply insert_perm in Hi. rewrite Hi. cbn. intuition congruence.
Qed.

Lemma insert_none_iff t e :
  tree_ok t -> D (tkey e) -> rbtree_insert t e = None <-> In (tkey e) (keys t).
Proof.
  induction t as [|x t IH]; intros Hok He; rewrite ?keys_nil, ?keys_cons; cbn.
  { split; [discriminate|tauto]. }
  apply tree_ok_cons in Hok as (Hx & Hok & Hlt). specialize (IH Hok He).
  destruct (cmp_tri (tkey e) (tkey x) He Hx) as [(-> & ->)|[(? & ? & ?)|(? & ? & ?)]]; cbn.
  - split; auto.
  - destruct (Z.eqb_spec (tcmp (tkey e) (tkey x)) 0); [lia|].
    destruct (Z.ltb_spec (tcmp (tkey e) (tkey x)) 0); [|lia].
    split; [discriminate|]. intros [?|Hin]; [congruence|]. exfalso.
    apply in_map_iff in Hin as (y & Hy & Hin).
    pose proof (proj1 (List.Forall_forall _ _) Hlt _ Hin) as Hl. unfold tlt in Hl.
    rewrite Hy in Hl. lia.
  - destruct (Z.eqb_spec (tcmp (tkey e) (tkey x)) 0); [lia|].
    destruct (Z.ltb_spec (tcmp (tkey e) (tkey x)) 0); [lia|].
    destruct (rbtree_insert t e); cbn; split.
    + discriminate.
    + intros [?|Hin]; [congruence|]. apply IH in Hin. discriminate.
    + intros _. right. by apply IH.
    + done.
Qed.

(** A successful insertion adds exactly the element and keeps the order. *)
Lemma insert_some t e t' :
  tree_ok t -> D (tkey e) -> rbtree_insert t e = Some t' ->
  tree_ok t' /\ Permutation t' (e :: t).
Proof.
  revert t'. induction t as [|x t IH]; intros t' Hok He Hins; cbn in Hins.
  - injection Hins as <-. split; [|done]. apply tree_ok_cons. eauto using tree_ok_nil.
  - apply tree_ok_cons in Hok as (Hx & Hok & Hlt).
    revert Hins.
    destruct (cmp_tri (tkey e) (tkey x) He Hx) as [(-> & ?)|[(? & ? & ?)|(? & ? & ?)]];
      cbn; [done|..];
      (destruct (Z.eqb_spec (tcmp (tkey e) (tkey x)) 0); [lia|]);
      destruct (Z.ltb_spec (tcmp (tkey e) (tkey x)) 0); try lia; intros Hins.
    + injection Hins as <-. split; [|done]. apply tree_ok_cons.
      split; [done|]. split; [by apply tree_ok_cons|]. constructor; [done|].
      apply List.Forall_forall. intros y Hy.
      pose proof (proj1 (List.Forall_forall _ _) Hlt _ Hy) as Hl. unfold tlt in *.
      eapply cmp_trans with (b := tkey x); eauto using tree_ok_dom.
    + destruct (rbtree_insert t e) as [t1|]; cbn in Hins; [|discriminate].
      injection Hins as <-. destruct (IH t1 Hok He eq_refl) as [Hok1 Hperm].
      split; [|rewrite Hperm; constructor].
      apply tree_ok_cons. split; [done|]. split; [done|].
      apply List.Forall_forall. intros y Hy.
      apply (Permutation_in _ Hperm) in Hy as [<-|Hy]; [done|].
      by apply (proj1 (List.Forall_forall _ _) Hlt).
Qed.

Lemma tree_put_ok t e : tree_ok t -> D (tkey e) -> tree_ok (tree_put t e).
Proof.
  intros Hok He. unfold tree_put. destruct (rbtree_insert t e) eqn:Ei; [|done].
  by apply (insert_some t e).
Qed.

Lemma keys_put t e k :
  tree_ok t -> D (tkey e) -> In k (keys (tree_put t e)) <-> k = tkey e \/ In k (keys t).
Proof.
  intros Hok He. unfold tree_put. destruct (rbtree_insert t e) as [t'|] eqn:Ei.
  - apply insert_some in Ei as [_ Hp]; [|done|done]. unfold keys.
    rewrite Hp. cbn. split; intros [|]; auto.
  - apply insert_none_iff in Ei; [|done|done]. split; [auto|]. by intros [->|].
Qed.

Lemma delete_spec t k :
  tree_ok t -> D k ->
  tree_ok (fst (rbtree_delete t k)) /\
  snd (rbtree_delete t k) = rbtree_search t k /\
  forall e, In e (fst (rbtree_delete t k)) <-> In e t /\ tkey e <> k.
Proof.
  induction t as [|x t IH]; intros Hok Hk; cbn.
  { split; [apply tree_ok_nil|]. split; [done|]. intros; tauto. }
  assert (Hok' := Hok). apply tree_ok_cons in Hok as (Hx & Hok & Hlt).
  destruct (IH Hok Hk) as (IH1 & IH2 & IH3).
  destruct (cmp_tri k (tkey x) Hk Hx) as [(-> & ->)|Hne]; cbn.
  - split; [done|]. split; [done|]. intros e. split.
    + intros Hin. split; [by right|]. intros He.
      pose proof (proj1 (List.Forall_forall _ _) Hlt _ Hin) as Hl. unfold tlt in Hl.
      rewrite He in Hl. pose proof (cmp_refl (tkey x) Hx). lia.
    + intros [[->|?] ?]; [congruence|done].
  - destruct (Z.eqb_spec (tcmp k (tkey x)) 0); [lia|]. cbn. split.
    + apply tree_ok_cons. split; [done|]. split; [done|].
      apply List.Forall_forall. intros y Hy. apply IH3 in Hy as [Hy _].
      by apply (proj1 (List.Forall_forall _ _) Hlt).
    + split; [done|]. intros e. rewrite IH3. split; [|tauto].
      intros [<-|?]; [|tauto]. split; [auto|]. intros He. rewrite He in *. lia.
Qed.

(** What a deletion takes out. *)
Lemma delete_perm t k : match rbtree_delete t k with (t', Some e) => Permutation t (e :: t') | (t', None) => t' = t end.
Proof.
  induction t as [|x t IH]; [done|]. cbn. destruct (_ =? 0); [done|]. destruct (rbtree_delete t k) as [t' [e|]]; cbn [fst snd].
  - rewrite IH. constructor.
  - by subst.
Qed.

(** Two elements of a tree with the same key are the same element. *)
Lemma tree_ok_inj t e1 e2 :
  tree_ok t -> In e1 t -> In e2 t -> tkey e1 = tkey e2 -> e1 = e2.
Proof.
  intros Hok H1 H2 Hkey. assert (D (tkey e1)) by eauto using tree_ok_dom.
  assert (rbtree_search t (tkey e1) = Some e1) by (apply search_iff; auto).
  assert (rbtree_search t (tkey e1) = Some e2) by (apply search_iff; auto).
  congruence.
Qed.

Lemma tree_ok_nodup t : tree_ok t -> List.NoDup (keys t).
Proof.
  induction t as [|x t IH]; intros Hok; rewrite ?keys_nil, ?keys_cons; [constructor|].
  apply tree_ok_cons in Hok as (Hx & Hok & Hlt). constructor; [|auto].
  intros Hin. apply in_map_iff in Hin as (y & Hy & Hin).
  pose proof (proj1 (List.Forall_forall _ _) Hlt _ Hin) as Hl. unfold tlt in Hl.
  rewrite Hy, cmp_refl in Hl by done. lia.
Qed.

(** Inserting under a key that is not there. *)
Lemma put_fresh t e :
  tree_ok t -> D (tkey e) -> rbtree_search t (tkey e) = None ->
  tree_ok (tree_put t e) /\ Permutation (tree_put t e) (e :: t).
Proof.
  intros Hok He Hs. unfold tree_put. destruct (rbtree_insert t e) as [t'|] eqn:Ei.
  - by apply insert_some.
  - apply insert_none_iff in Ei; [|done|done].
    apply search_none_iff in Hs; [contradiction|done|done].
Qed.

(** Order and domain depend on the keys only. *)
Lemma tree_ok_keys t t' : keys t = keys t' -> tree_ok t -> tree_ok t'.
Proof.
  revert t'. induction t as [|x t IH]; intros [|y t'] Hk Hok; try discriminate Hk; [done|].
  rewrite !keys_cons in Hk. injection Hk as Hx Hk.
  apply tree_ok_cons in Hok as (HD & Hok & Hlt). apply tree_ok_cons.
  rewrite <- Hx. split; [done|]. split; [by apply IH|].
  apply List.Forall_forall. intros e He. pose proof (in_keys _ _ _ He eq_refl) as Hin.
  rewrite <- Hk in Hin. apply in_keys_inv in Hin as (e0 & He0 & E0).
  pose proof (proj1 (List.Forall_forall _ _) Hlt _ He0) as Hl. unfold tlt in *. congruence.
Qed.

(** Deletion as a filter, and update as a map. *)
Lemma delete_filter (f : E -> bool) t k :
  tree_ok t -> D k -> (forall e, In e t -> f e = false <-> tkey e = k) ->
  fst (rbtree_delete t k) = List.filter f t.
Proof.
  induction t as [|x t IH]; intros Hok Hk Hf; cbn; [done|].
  apply tree_ok_cons in Hok as (Hx & Hok & Hlt).
  assert (Hfx := Hf x (or_introl eq_refl)).
  assert (Hft : forall e, In e t -> f e = false <-> tkey e = k)
    by (intros; apply Hf; now right).
  destruct (cmp_tri k (tkey x) Hk Hx) as [(-> & ->)|Hne]; cbn.
  - rewrite (proj2 Hfx eq_refl). clear IH Hfx Hf. induction t as [|y t IHt]; cbn; [done|].
    inversion Hlt as [|? ? Hy Hlt']; subst. apply tree_ok_cons in Hok as (? & ? & ?).
    assert (Hfy := Hft y (or_introl eq_refl)). destruct (f y).
    + f_equal. apply IHt; auto. intros; apply Hft; now right.
    + exfalso. unfold tlt in Hy. rewrite (proj1 Hfy eq_refl), cmp_refl in Hy by done. lia.
  - destruct (Z.eqb_spec (tcmp k (tkey x)) 0); [lia|]. cbn.
    rewrite (IH Hok Hk Hft). destruct (f x); [done|].
    pose proof (proj1 Hfx eq_refl) as E0. rewrite E0 in *. lia.
Qed.

Lemma update_map (f : E -> E) t k :
  tree_ok t -> D k ->
  tree_update t k f = map (fun x => if tcmp k (tkey x) =? 0 then f x else x) t.
Proof.
  induction t as [|x t IH]; intros Hok Hk; cbn; [done|].
  apply tree_ok_cons in Hok as (Hx & Hok & Hlt).
  destruct (Z.eqb_spec (tcmp k (tkey x)) 0) as [E0|E0]; f_equal; [|by apply IH].
  apply cmp_eq in E0 as ->; [|done|done]. clear IH. rewrite <- (map_id t) at 1.
  apply map_ext_in. intros y Hy.
  pose proof (proj1 (List.Forall_forall _ _) Hlt _ Hy) as Hl. unfold tlt in Hl.
  destruct (Z.eqb_spec (tcmp (tkey x) (tkey y)) 0); [lia|done].
Qed.

Section Update.
Context (f : E -> E) (Hf : forall e, tkey (f e) = tkey e).

Lemma keys_update t k : keys (tree_update t k f) = keys t.
Proof using Hf.
  unfold keys. induction t as [|x t IH]; cbn; [done|].
  destruct (tcmp k (tkey x) =? 0); cbn; rewrite ?Hf; congruence.
Qed.

Lemma in_update t k e :
  tree_ok t -> D k ->
  In e (tree_update t k f) <->
  (exists e0, In e0 t /\ tkey e0 = k /\ e = f e0) \/ (In e t /\ tkey e <> k).
Proof using Hf CO.
  induction t as [|x t IH]; intros Hok Hk; cbn.
  - split; [tauto|]. intros [(? & ? & ?)|[? ?]]; tauto.
  - assert (Hok' := Hok). apply tree_ok_cons in Hok as (Hx & Hok & Hlt).
    specialize (IH Hok Hk).
    destruct (cmp_tri k (tkey x) Hk Hx) as [(-> & ->)|Hne]; cbn.
    + split.
      * intros [<-|Hin]; [left; exists x; auto|]. right. split; [auto|]. intros He.
        assert (e = x) as -> by (eapply tree_ok_inj; eauto; cbn; auto).
        pose proof (proj1 (List.Forall_forall _ _) Hlt _ Hin) as Hl. unfold tlt in Hl.
        pose proof (cmp_refl (tkey x) Hx). lia.
      * intros [(e0 & Hin & He0 & ->)|[[->|Hin] He]]; [|congruence|auto].
        left. f_equal. symmetry. eapply tree_ok_inj; eauto. cbn; auto.
    + destruct (Z.eqb_spec (tcmp k (tkey x)) 0); [lia|]. cbn. rewrite IH.
      assert (tkey x <> k) by (intros He; rewrite He in *; lia).
      split.
      * intros [->|[(e0 & ? & ? & ?)|[? ?]]]; eauto 6.
      * intros [(e0 & [->|?] & ? & ?)|[[->|?] ?]]; eauto 6; congruence.
Qed.

Lemma update_ok t k : tree_ok t -> tree_ok (tree_update t k f).
Proof using Hf CO. apply tree_ok_keys. by rewrite keys_update. Qed.

Lemma search_update t k k' :
  tree_ok t -> D k -> D k' ->
  rbtree_search (tree_update t k f) k' =
    if tcmp k k' =? 0 then f <$> rbtree_search t k else rbtree_search t k'.
Proof using Hf CO.
  induction t as [|x t IH]; intros Hok Hk Hk'; cbn; [by destruct (_ =? 0)|].
  apply tree_ok_cons in Hok as (Hx & Hok & Hlt). specialize (IH Hok Hk Hk').
  destruct (cmp_tri k (tkey x) Hk Hx) as [(-> & ->)|Hne]; cbn.
  - rewrite Hf.
    destruct (cmp_tri k' (tkey x) Hk' Hx) as [(-> & ->)|Hne']; cbn.
    + by rewrite cmp_refl.
    + destruct (Z.eqb_spec (tcmp k' (tkey x)) 0); [lia|].
      destruct (Z.eqb_spec (tcmp (tkey x) k') 0); [lia|done].
  - destruct (Z.eqb_spec (tcmp k (tkey x)) 0); [lia|]. cbn. rewrite IH.
    destruct (Z.eqb_spec (tcmp k k') 0) as [E0|E0]; [|done].
    apply cmp_eq in E0 as <-; [|done|done].
    destruct (Z.eqb_spec (tcmp k (tkey x)) 0); [lia|done].
Qed.
End Update.

(** An element in the middle of a tree: how the operations act on its place. *)
Section Zip.
Context (l1 l2 : list E) (x : E).
Hypothesis Hok : tree_ok (l1 ++ x :: l2).

Lemma zip_dom : D (tkey x).
Proof using Hok. apply (tree_ok_dom (l1 ++ x :: l2)); [done|]. apply in_elt. Qed.

Lemma zip_swap y : tkey y = tkey x -> tree_ok (l1 ++ y :: l2).
Proof using Hok. intros Hk. apply (tree_ok_keys (l1 ++ x :: l2)); [|done]. unfold keys. by rewrite !map_app, !map_cons, Hk. Qed.

Lemma zip_search : rbtree_search (l1 ++ x :: l2) (tkey x) = Some x.
Proof using Hok CO. apply search_iff; [done|apply zip_dom|]. split; [apply in_elt|done]. Qed.

Lemma zip_left y : In y l1 -> (tcmp (tkey x) (tkey y) =? 0) = false.
Proof using Hok CO.
  intros Hy. apply Z.eqb_neq. intros E0. assert (Hd : D (tkey y)).
  { apply (tree_ok_dom (l1 ++ x :: l2)); [done|]. rewrite in_app_iff. auto. }
  apply cmp_eq in E0; [|apply zip_dom|done].
  pose proof (tree_ok_nodup _ Hok) as Hn. unfold keys in Hn. rewrite map_app, map_cons in Hn.
  apply NoDup_remove_2 in Hn. apply Hn, in_app_iff. left. rewrite E0. by apply in_map.
Qed.

Lemma zip_update f : tree_update (l1 ++ x :: l2) (tkey x) f = l1 ++ f x :: l2.
Proof using Hok CO.
  pose proof zip_left as Hl. pose proof zip_dom as Hd. clear Hok. induction l1 as [|y l IH]; cbn.
  - by rewrite (proj2 (Z.eqb_eq _ _) (cmp_refl _ Hd)).
  - rewrite Hl by (by left). f_equal. apply IH. intros; apply Hl. by right.
Qed.

Lemma zip_delete : fst (rbtree_delete (l1 ++ x :: l2) (tkey x)) = l1 ++ l2.
Proof using Hok CO.
  pose proof zip_left as Hl. pose proof zip_dom as Hd. clear Hok. induction l1 as [|y l IH]; cbn.
  - by rewrite (proj2 (Z.eqb_eq _ _) (cmp_refl _ Hd)).
  - rewrite Hl by (by left). cbn. f_equal. apply IH. intros; apply Hl. by right.
Qed.
End Zip.

Lemma zip_put t e : rbtree_search t (tkey e) = None -> tree_ok t -> D (tkey e) ->
  exists l1 l2, t = l1 ++ l2 /\ tree_put t e = l1 ++ e :: l2.
Proof.
  intros Hs Hok He.
  assert (H : forall t', rbtree_insert t e = Some t' -> exists l1 l2, t = l1 ++ l2 /\ t' = l1 ++ e :: l2).
  { clear Hs Hok. induction t as [|y t IH]; intros t'; cbn.
    - intros [= <-]. by exists [], [].
    - destruct (_ =? 0); [done|]. destruct (_ <? 0); [intros [= <-]; by exists [], (y :: t)|].
      destruct (rbtree_insert t e) as [u|]; [|done]. intros [= <-].
      destruct (IH u eq_refl) as (l1 & l2 & -> & ->). by exists (y :: l1), l2. }
  unfold tree_put. destruct (rbtree_insert t e) as [t'|] eqn:Ei; [by apply H|].
  apply insert_none_iff in Ei; [|done|done]. by apply search_none_iff in Hs.
Qed.

(** Inserting again an element that is there does nothing. *)
Lemma put_there t e : tree_ok t -> D (tkey e) -> In (tkey e) (keys t) -> tree_put t e = t.
Proof. intros Hok He Hin. unfold tree_put. by rewrite (proj2 (insert_none_iff t e Hok He)). Qed.

(** A decision procedure for concrete trees. *)
Fixpoint tree_okb (Db : K -> bool) (t : list E) : bool :=
  match t with
  | [] => true
  | x :: t' => Db (tkey x) && forallb (fun y => tcmp (tkey x) (tkey y) <? 0) t' &&
               tree_okb Db t'
  end.

Lemma tree_okb_ok (Db : K -> bool) t :
  (forall k, Db k = true -> D k) -> tree_okb Db t = true -> tree_ok t.
Proof using.
  intros HD. induction t as [|x t IH]; cbn; intros H; [apply tree_ok_nil|].
  apply andb_prop in H as [H Ht]. apply andb_prop in H as [Hx H].
  apply tree_ok_cons. split; [auto|]. split; [auto|].
  apply List.Forall_forall. intros y Hy.
  apply (proj1 (forallb_forall _ _) H) in Hy. by apply Z.ltb_lt in Hy.
Qed.
End Laws.

(** Closes [D (key of x)] for an element [x] of an ordered tree. *)
Ltac tree_dom :=
  first [ assumption
        | match goal with
          | Hl : tree_ok ?D ?l, Hx : In ?x ?l |- _ => exact (tree_ok_dom D l x Hl Hx)
          | Ha : (forall t, In t ?l -> tree_ok ?D (?f t)), Ht : In ?t ?l, Hx : In ?x (?f ?t) |- _ =>
              exact (tree_ok_dom D (f t) x (Ha t Ht) Hx)
          end ].

(** Two elements of a tree with the same key. *)
Ltac tree_same :=
  match goal with
  | Hl : tree_ok ?D ?l, Hx : In ?x ?l, Hy : In ?y ?l |- ?x = ?y =>
      apply (tree_ok_inj D l x y Hl Hx Hy); cbn in *; congruence
  end.
