(* ===== verification/RbTree.v ===== *)
(** The red-black tree of ext/timerqueue/rbtree.c on a heap of nodes with parent
    pointers and one shared sentinel.

    A pointer to a node is a natural number and [RBTREE_NULL] is the address of the
    sentinel, which is a node like the others; a null pointer is [None].  Reading or
    writing where the heap has no node is [UB].  The two mirror images the code writes
    out are one definition over a side.  Loops take fuel. *)
From S2P Require Import Prelude.
From stdpp Require Import base list numbers gmap.
From Stdlib Require Import ZArith Lia.
Open Scope Z_scope.
Open Scope c_scope.

Inductive rbcolor : Type := BLACK | RED.
Inductive side : Type := L | R.
Definition opp (d : side) : side := match d with L => R | R => L end.
#[export] Instance rbcolor_eq_dec : EqDecision rbcolor.
Proof. solve_decision. Defined.

#[export] Instance side_eq_dec : EqDecision side.
Proof. solve_decision. Defined.

Abbreviation ptr := nat.
Definition RBTREE_NULL : ptr := 0%nat.

Section RbTree.
Context {K : Type} (cmp : K -> K -> Z).

Record rbnode : Type := mkNode {
  rb_parent : ptr;
  rb_left : ptr;
  rb_right : ptr;
  rb_key : K;
  rb_color : rbcolor
}.
Record rbtree : Type := mkTree { rb_root : ptr; rb_count : Z }.
Definition rbheap : Type := gmap ptr rbnode.

Definition child (d : side) (n : rbnode) : ptr := match d with L => rb_left n | R => rb_right n end.
Definition set_parent (p : ptr) (n : rbnode) : rbnode := mkNode p (rb_left n) (rb_right n) (rb_key n) (rb_color n).
Definition set_child (d : side) (p : ptr) (n : rbnode) : rbnode :=
  match d with
  | L => mkNode (rb_parent n) p (rb_right n) (rb_key n) (rb_color n)
  | R => mkNode (rb_parent n) (rb_left n) p (rb_key n) (rb_color n)
  end.
Definition set_color (c : rbcolor) (n : rbnode) : rbnode := mkNode (rb_parent n) (rb_left n) (rb_right n) (rb_key n) c.
Definition set_root (p : ptr) (t : rbtree) : rbtree := mkTree p (rb_count t).

(** ** Computations on the heap *)
Definition M (A : Type) : Type := rbheap -> res (A * rbheap).
Definition ret {A} (a : A) : M A := fun h => Ok (a, h).
Definition bind {A B} (m : M A) (k : A -> M B) : M B := fun h => let* r := m h in k (fst r) (snd r).
Definition out_of_fuel {A} : M A := fun _ => NoFuel.
Definition read (p : ptr) : M rbnode := fun h => let* n := deref (h !! p) in Ok (n, h).
Definition modify (p : ptr) (f : rbnode -> rbnode) : M unit := fun h => let* n := deref (h !! p) in Ok (tt, <[p := f n]> h).
End RbTree.
Arguments rbnode K : clear implicits.
Arguments rbheap K : clear implicits.

Declare Scope rb_scope.
Delimit Scope rb_scope with rb.
Notation "'let!' x ':=' m 'in' k" := (bind m (fun x => k))
  (at level 10, x pattern, m at level 100, k at level 200) : rb_scope.
Notation "m ';;;' k" := (bind m (fun _ : unit => k)) (at level 100, k at level 200, right associativity) : rb_scope.
Open Scope rb_scope.

Section Code.
Context {K : Type} (cmp : K -> K -> Z).
Implicit Types (t : rbtree) (node : ptr).

Definition rbtree_init : rbtree := mkTree RBTREE_NULL 0.
Definition rbtree_create : rbtree := rbtree_init.

Definition color_of (p : ptr) : M (K := K) rbcolor := let! n := read p in ret (rb_color n).
Definition paint (p : ptr) (c : rbcolor) : M (K := K) unit := modify p (set_color c).

(** Rotating towards the side [d]; the new tree has the other root if the node was the
    root. *)
Definition rotate (d : side) t node : M (K := K) rbtree :=
  let! n := read node in
  let up := child (opp d) n in
  let! u := read up in
  modify node (set_child (opp d) (child d u)) ;;;
  (if (child d u =? RBTREE_NULL)%nat then ret tt else modify (child d u) (set_parent node)) ;;;
  let! n := read node in
  modify up (set_parent (rb_parent n)) ;;;
  let! t :=
    (if (rb_parent n =? RBTREE_NULL)%nat then ret (set_root up t)
     else
       let! p := read (rb_parent n) in
       modify (rb_parent n) (set_child (if (node =? child d p)%nat then d else opp d) up) ;;;
       ret t) in
  modify up (set_child d node) ;;;
  modify node (set_parent up) ;;;
  ret t.
Definition rbtree_rotate_left : rbtree -> ptr -> M (K := K) rbtree := rotate L.
Definition rbtree_rotate_right : rbtree -> ptr -> M (K := K) rbtree := rotate R.
Definition rotate_to (d : side) : rbtree -> ptr -> M (K := K) rbtree :=
  match d with L => rbtree_rotate_left | R => rbtree_rotate_right end.

(** ** Insertion *)

(** One round of the loop, the parent being the child on side [d] of the grandparent:
    the node the loop goes on with. *)
Definition insert_round (d : side) t node : M (K := K) (rbtree * ptr) :=
  let! n := read node in
  let! p := read (rb_parent n) in
  let! g := read (rb_parent p) in
  let uncle := child (opp d) g in
  let! uc := color_of uncle in
  match uc with
  | RED =>
    paint (rb_parent n) BLACK ;;;
    paint uncle BLACK ;;;
    paint (rb_parent p) RED ;;;
    ret (t, rb_parent p)
  | BLACK =>
    let! r :=
      (if (node =? child (opp d) p)%nat
       then let! t := rotate_to d t (rb_parent n) in ret (t, rb_parent n)
       else ret (t, node)) in
    let '(t, node) := r in
    let! n := read node in
    paint (rb_parent n) BLACK ;;;
    let! p := read (rb_parent n) in
    paint (rb_parent p) RED ;;;
    let! t := rotate_to (opp d) t (rb_parent p) in
    ret (t, node)
  end.
Fixpoint insert_loop (fuel : nat) t node : M (K := K) rbtree :=
  if (node =? rb_root t)%nat then ret t
  else
    let! n := read node in
    let! pc := color_of (rb_parent n) in
    match pc, fuel with
    | BLACK, _ => ret t
    | RED, O => out_of_fuel
    | RED, S fuel =>
      let! p := read (rb_parent n) in
      let! g := read (rb_parent p) in
      let! r := insert_round (if (rb_parent n =? rb_left g)%nat then L else R) t node in
      insert_loop fuel (fst r) (snd r)
    end.
Definition rbtree_insert_fixup (fuel : nat) t node : M (K := K) rbtree :=
  let! t := insert_loop fuel t node in
  paint (rb_root t) BLACK ;;; ret t.

(** The search for the new parent: nothing when the key is there, otherwise the parent
    and the side. *)
Fixpoint find_parent (fuel : nat) (key : K) (node parent : ptr) (d : side) : M (option (ptr * side)) :=
  if (node =? RBTREE_NULL)%nat then ret (Some (parent, d))
  else
    match fuel with
    | O => out_of_fuel
    | S fuel =>
      let! n := read node in
      let r := cmp key (rb_key n) in
      if r =? 0 then ret None
      else let d := if r <? 0 then L else R in find_parent fuel key (child d n) node d
    end.
Definition rbtree_insert (fuel : nat) t (data : ptr) : M (K := K) (option ptr * rbtree) :=
  let! n := read data in
  let! r := find_parent fuel (rb_key n) (rb_root t) RBTREE_NULL R in
  match r with
  | None => ret (None, t)
  | Some (parent, d) =>
    modify data (fun n => mkNode parent RBTREE_NULL RBTREE_NULL (rb_key n) RED) ;;;
    let t := mkTree (rb_root t) (u64 (rb_count t + 1)) in
    let! t :=
      (if (parent =? RBTREE_NULL)%nat then ret (set_root data t)
       else modify parent (set_child d data) ;;; ret t) in
    let! t := rbtree_insert_fixup fuel t data in
    ret (Some data, t)
  end.

(** ** Search *)
Fixpoint find_loop (fuel : nat) (key : K) (node : ptr) (result : option ptr) : M (K := K) (bool * option ptr) :=
  if (node =? RBTREE_NULL)%nat then ret (false, result)
  else
    match fuel with
    | O => out_of_fuel
    | S fuel =>
      let! n := read node in
      let r := cmp key (rb_key n) in
      if r =? 0 then ret (true, Some node)
      else if r <? 0 then find_loop fuel key (rb_left n) result
      else find_loop fuel key (rb_right n) (Some node)
    end.
Definition rbtree_find_less_equal (fuel : nat) t (key : K) : M (K := K) (bool * option ptr) :=
  find_loop fuel key (rb_root t) None.
Definition rbtree_search (fuel : nat) t (key : K) : M (K := K) (option ptr) :=
  let! r := rbtree_find_less_equal fuel t key in
  ret (if fst r then snd r else None).

(** ** Deletion *)
Definition change_parent_ptr t (parent old new : ptr) : M (K := K) rbtree :=
  if (parent =? RBTREE_NULL)%nat then ret (if (rb_root t =? old)%nat then set_root new t else t)
  else
    let! p := read parent in
    (if (rb_left p =? old)%nat then modify parent (set_child L new) else ret tt) ;;;
    let! p := read parent in
    (if (rb_right p =? old)%nat then modify parent (set_child R new) else ret tt) ;;;
    ret t.
Definition change_child_ptr (c old new : ptr) : M (K := K) unit :=
  if (c =? RBTREE_NULL)%nat then ret tt
  else
    let! n := read c in
    if (rb_parent n =? old)%nat then modify c (set_parent new) else ret tt.

(** The end of the chain of children on one side. *)
Fixpoint descend (fuel : nat) (d : side) (node : ptr) : M (K := K) ptr :=
  let! n := read node in
  if (child d n =? RBTREE_NULL)%nat then ret node
  else match fuel with O => out_of_fuel | S fuel => descend fuel d (child d n) end.

(** The three calls of [swap_np]. *)
Definition swap_np_all (a b : ptr) : M (K := K) unit :=
  let! x := read a in
  let! y := read b in
  modify a (fun n => mkNode (rb_parent y) (rb_left y) (rb_right y) (rb_key n) (rb_color n)) ;;;
  modify b (fun n => mkNode (rb_parent x) (rb_left x) (rb_right x) (rb_key n) (rb_color n)).
Definition swap_int8 (a b : ptr) : M (K := K) unit :=
  let! x := read a in
  let! y := read b in
  paint a (rb_color y) ;;; paint b (rb_color x).

(** The children of a node get another parent; the code makes each of the calls twice. *)
Definition reparent_children (old new : ptr) : M (K := K) unit :=
  let! s := read old in change_child_ptr (rb_left s) old new ;;;
  let! s := read old in change_child_ptr (rb_left s) old new ;;;
  let! s := read old in change_child_ptr (rb_right s) old new ;;;
  let! s := read old in change_child_ptr (rb_right s) old new.
(** [to_delete] and the smallest node behind it change places. *)
Definition swap_nodes (fuel : nat) t (to_delete : ptr) : M (K := K) rbtree :=
  let! d := read to_delete in
  let! smright := descend fuel L (rb_right d) in
  swap_int8 to_delete smright ;;;
  let! d := read to_delete in
  let! t := change_parent_ptr t (rb_parent d) to_delete smright in
  let! d := read to_delete in
  let! t :=
    (if (rb_right d =? smright)%nat then ret t
     else let! s := read smright in change_parent_ptr t (rb_parent s) smright to_delete) in
  reparent_children smright to_delete ;;;
  let! d := read to_delete in
  change_child_ptr (rb_left d) to_delete smright ;;;
  let! d := read to_delete in
  (if (rb_right d =? smright)%nat then ret tt else change_child_ptr (rb_right d) to_delete smright) ;;;
  let! d := read to_delete in
  (if (rb_right d =? smright)%nat
   then modify to_delete (set_child R to_delete) ;;; modify smright (set_parent smright)
   else ret tt) ;;;
  swap_np_all to_delete smright ;;;
  ret t.

Definition sibling_of (parent c : ptr) : M (K := K) ptr :=
  let! p := read parent in
  ret (if (rb_right p =? c)%nat then rb_left p else rb_right p).
Definition side_of (parent c : ptr) : M (K := K) side :=
  let! p := read parent in ret (if (rb_right p =? c)%nat then R else L).
Definition both_black (node : ptr) : M (K := K) bool :=
  let! n := read node in
  let! lc := color_of (rb_left n) in
  let! rc := color_of (rb_right n) in
  ret (bool_decide (rb_color n = BLACK /\ lc = BLACK /\ rc = BLACK)).

(** A rotation that leaves the child with a black sibling. *)
Definition black_sibling t (c parent sibling : ptr) : M (K := K) (rbtree * ptr) :=
  let! sc := color_of sibling in
  match sc with
  | RED =>
    paint parent RED ;;;
    paint sibling BLACK ;;;
    let! d := side_of parent c in
    let! t := rotate_to d t parent in
    let! sibling := sibling_of parent c in
    ret (t, sibling)
  | BLACK => ret (t, sibling)
  end.
(** The loop that goes up: the last child, parent and sibling, or nothing when it ends
    above the root. *)
Fixpoint delete_loop (fuel : nat) t (c parent sibling : ptr) : M (K := K) (rbtree * option (ptr * ptr * ptr)) :=
  if (parent =? RBTREE_NULL)%nat then ret (t, None)
  else
    let! r := black_sibling t c parent sibling in
    let '(t, sibling) := r in
    let! pc := color_of parent in
    let! quiet := both_black sibling in
    if bool_decide (pc = BLACK) && quiet then
      (if (sibling =? RBTREE_NULL)%nat then ret tt else paint sibling RED) ;;;
      let! p := read parent in
      let! next := sibling_of (rb_parent p) parent in
      match fuel with O => out_of_fuel | S fuel => delete_loop fuel t parent (rb_parent p) next end
    else ret (t, Some (c, parent, sibling)).

(** The rotation at the sibling when its red child is on the inner side [d]. *)
Definition inner_red (d : side) (sibling : ptr) : M (K := K) bool :=
  let! s := read sibling in
  let! ic := color_of (child d s) in
  let! oc := color_of (child (opp d) s) in
  ret (bool_decide (rb_color s = BLACK /\ ic = RED /\ oc = BLACK)).
Definition rotate_sibling (d : side) t (parent c sibling : ptr) : M (K := K) (rbtree * ptr) :=
  paint sibling RED ;;;
  let! s := read sibling in
  paint (child d s) BLACK ;;;
  let! t := rotate_to (opp d) t sibling in
  let! sibling := sibling_of parent c in
  ret (t, sibling).

(** A red child on the inner side is moved to the outer side. *)
Definition straighten t (c parent sibling : ptr) : M (K := K) (rbtree * ptr) :=
  let! p := read parent in
  let! right_case := (if (rb_right p =? c)%nat then inner_red R sibling else ret false) in
  if (right_case : bool) then rotate_sibling R t parent c sibling
  else
    let! left_case := (if (rb_left p =? c)%nat then inner_red L sibling else ret false) in
    if (left_case : bool) then rotate_sibling L t parent c sibling else ret (t, sibling).
(** The function behind the loop. *)
Definition delete_last t (c parent sibling : ptr) : M (K := K) rbtree :=
  let! pc := color_of parent in
  let! quiet := both_black sibling in
  if bool_decide (pc = RED) && quiet then
    (if (sibling =? RBTREE_NULL)%nat then ret tt else paint sibling RED) ;;;
    paint parent BLACK ;;;
    ret t
  else
    let! r := straighten t c parent sibling in
    let '(t, sibling) := r in
    let! pc := color_of parent in
    paint sibling pc ;;;
    paint parent BLACK ;;;
    let! d := side_of parent c in
    let! s := read sibling in
    paint (child (opp d) s) BLACK ;;;
    rotate_to d t parent.
Definition rbtree_delete_fixup (fuel : nat) t (c parent : ptr) : M (K := K) rbtree :=
  let! sibling := sibling_of parent c in
  let! r := delete_loop fuel t c parent sibling in
  match r with
  | (t, None) => ret t
  | (t, Some (c, parent, sibling)) => delete_last t c parent sibling
  end.

(** A node with one child at most leaves the tree. *)
Definition unlink_node (fuel : nat) t (to_delete : ptr) : M (K := K) rbtree :=
  let! d := read to_delete in
  let c := if (rb_left d =? RBTREE_NULL)%nat then rb_right d else rb_left d in
  let! t := change_parent_ptr t (rb_parent d) to_delete c in
  change_child_ptr c to_delete (rb_parent d) ;;;
  let! cc := color_of c in
  match rb_color d, cc with
  | RED, _ => ret t
  | BLACK, RED => (if (c =? RBTREE_NULL)%nat then ret tt else paint c BLACK) ;;; ret t
  | BLACK, BLACK => rbtree_delete_fixup fuel t c (rb_parent d)
  end.
Definition rbtree_delete (fuel : nat) t (key : K) : M (K := K) (option ptr * rbtree) :=
  let! r := rbtree_search fuel t key in
  match r with
  | None => ret (None, t)
  | Some to_delete =>
    let t := mkTree (rb_root t) (u64 (rb_count t - 1)) in
    let! d := read to_delete in
    let! t :=
      (if (rb_left d =? RBTREE_NULL)%nat || (rb_right d =? RBTREE_NULL)%nat then ret t
       else swap_nodes fuel t to_delete) in
    let! t := unlink_node fuel t to_delete in
    modify to_delete (fun n => mkNode RBTREE_NULL RBTREE_NULL RBTREE_NULL (rb_key n) BLACK) ;;;
    ret (Some to_delete, t)
  end.

(** ** Iteration *)
Definition rbtree_first (fuel : nat) t : M (K := K) ptr := descend fuel L (rb_root t).
Definition rbtree_last (fuel : nat) t : M (K := K) ptr := descend fuel R (rb_root t).

(** Up while the node is the child on side [d]. *)
Fixpoint ascend (fuel : nat) (d : side) (node parent : ptr) : M (K := K) ptr :=
  if (parent =? RBTREE_NULL)%nat then ret parent
  else
    let! p := read parent in
    if (node =? child d p)%nat then
      match fuel with O => out_of_fuel | S fuel => ascend fuel d parent (rb_parent p) end
    else ret parent.
(** The neighbour of a node towards the side [d]. *)
Definition rbtree_step (fuel : nat) (d : side) (node : ptr) : M (K := K) ptr :=
  let! n := read node in
  if (child d n =? RBTREE_NULL)%nat then ascend fuel d node (rb_parent n)
  else descend fuel (opp d) (child d n).
Definition rbtree_next (fuel : nat) : ptr -> M (K := K) ptr := rbtree_step fuel R.
Definition rbtree_previous (fuel : nat) : ptr -> M (K := K) ptr := rbtree_step fuel L.

(** The nodes [traverse_post] hands to its callback, which may free them but does not
    change the tree otherwise. *)
Fixpoint traverse_post (fuel : nat) (node : ptr) : M (K := K) (list ptr) :=
  if (node =? RBTREE_NULL)%nat then ret []
  else
    match fuel with
    | O => out_of_fuel
    | S fuel =>
      let! n := read node in
      let! a := traverse_post fuel (rb_left n) in
      let! b := traverse_post fuel (rb_right n) in
      ret (a ++ b ++ [node])
    end.
Definition traverse_postorder (fuel : nat) t : M (K := K) (list ptr) := traverse_post fuel (rb_root t).

(** The nodes visited by [RBTREE_FOR]. *)
Fixpoint for_loop (fuel steps : nat) (node : ptr) : M (K := K) (list ptr) :=
  if (node =? RBTREE_NULL)%nat then ret []
  else
    match steps with
    | O => out_of_fuel
    | S steps =>
      let! next := rbtree_next fuel node in
      let! l := for_loop fuel steps next in
      ret (node :: l)
    end.
Definition RBTREE_FOR (fuel : nat) t : M (K := K) (list ptr) :=
  let! node := rbtree_first fuel t in
  for_loop fuel fuel node.
End Code.

(** ** Examples: integers as keys *)
Definition ex_cmp (a b : Z) : Z := a - b.
Definition null_node {K} (k : K) : rbnode K := mkNode RBTREE_NULL RBTREE_NULL RBTREE_NULL k BLACK.
(** A heap with the sentinel and a node, not linked yet, for each key. *)
Definition ex_heap (keys : list Z) : rbheap Z :=
  <[RBTREE_NULL := null_node 0]> (list_to_map (imap (fun i k => (S i, null_node k)) keys)).
Definition ex_keys : list Z := [50; 20; 70; 10; 30; 60; 80; 25; 35; 5; 1; 90].
Definition ex_build : M rbtree :=
  fold_left (fun m i => let! t := m in let! r := rbtree_insert ex_cmp 50 t (S i) in ret (snd r)) (seq 0 (length ex_keys)) (ret rbtree_create).
Definition ex_keys_of (l : list ptr) : M (list Z) := fun h => Ok (map (fun p => default 0 (rb_key <$> h !! p)) l, h).
Definition ex_listing (m : M rbtree) : res (list Z) :=
  let* r := (let! t := m in let! l := RBTREE_FOR 50 t in ex_keys_of l) (ex_heap ex_keys) in Ok (fst r).
Example ex_sorted : ex_listing ex_build = Ok [1; 5; 10; 20; 25; 30; 35; 50; 60; 70; 80; 90].
Proof. by vm_compute. Qed.
Definition ex_deleted (keys : list Z) : M rbtree :=
  fold_left (fun m k => let! t := m in let! r := rbtree_delete ex_cmp 50 t k in ret (snd r)) keys ex_build.
Example ex_after_delete :
  ex_listing (ex_deleted [20; 50; 2; 90; 1]) = Ok [5; 10; 25; 30; 35; 60; 70; 80] /\
  ex_listing (ex_deleted [50; 60; 70; 80; 90; 35; 30; 25; 20]) = Ok [1; 5; 10] /\ ex_listing (ex_deleted ex_keys) = Ok [].
Proof. by vm_compute. Qed.
