(* ===== verification/RbShape.v ===== *)
(** Red-black trees without a heap: the shapes the pointers form, a position in a shape
    as a zipper, and insertion and deletion as functions on them, with the proofs that
    they keep the red-black invariant and act on the in-order sequence as the list
    operations of OrdTree do. *)
From S2P Require Import Prelude OrdTree RbTree.
From stdpp Require Import base list numbers gmap.
From Stdlib Require Import List ZArith Lia Sorted.
Open Scope Z_scope.

(** Concatenations to the right. *)
Ltac flat_lists := repeat first [progress cbn [app] | rewrite <- app_assoc | rewrite app_nil_r]; try done.

Section Shape.
Context {K : Type}.

(** ** Shapes and positions *)
Inductive tree : Type :=
  | E
  | T (c : rbcolor) (l : tree) (p : ptr) (k : K) (r : tree).
Definition root (t : tree) : ptr := match t with E => RBTREE_NULL | T _ _ p _ _ => p end.
Definition color (t : tree) : rbcolor := match t with E => BLACK | T c _ _ _ _ => c end.
Definition dye (c : rbcolor) (t : tree) : tree := match t with E => E | T _ l p k r => T c l p k r end.
(** The subtree [a] on side [d]. *)
Definition mk (d : side) (c : rbcolor) (a : tree) (p : ptr) (k : K) (b : tree) : tree :=
  match d with L => T c a p k b | R => T c b p k a end.
(** Above a position: on which side it is, the node, and the other subtree. *)
Inductive frame : Type := F (d : side) (c : rbcolor) (p : ptr) (k : K) (s : tree).
Definition ctx_parent (ctx : list frame) : ptr := match ctx with [] => RBTREE_NULL | F _ _ p _ _ :: _ => p end.
Fixpoint zip (ctx : list frame) (t : tree) : tree :=
  match ctx with [] => t | F d c p k s :: ctx' => zip ctx' (mk d c t p k s) end.

Fixpoint inorder (t : tree) : list (ptr * K) :=
  match t with E => [] | T _ l p k r => inorder l ++ (p, k) :: inorder r end.
Fixpoint before (ctx : list frame) : list (ptr * K) :=
  match ctx with
  | [] => []
  | F L _ _ _ _ :: ctx' => before ctx'
  | F R _ p k s :: ctx' => before ctx' ++ inorder s ++ [(p, k)]
  end.
Fixpoint behind (ctx : list frame) : list (ptr * K) :=
  match ctx with
  | [] => []
  | F L _ p k s :: ctx' => (p, k) :: inorder s ++ behind ctx'
  | F R _ _ _ _ :: ctx' => behind ctx'
  end.
Definition ptrs (t : tree) : list ptr := map fst (inorder t).

Lemma zip_app a b t : zip (a ++ b) t = zip b (zip a t).
Proof. revert t. induction a as [|[d c p k s] a IH]; intros t; [done|]. apply IH. Qed.
Lemma before_app a b : before (a ++ b) = before b ++ before a.
Proof. induction a as [|[[] c p k s] a IH]; cbn [app before]; [by rewrite app_nil_r|done|]. by rewrite IH, <- app_assoc. Qed.
Lemma behind_app a b : behind (a ++ b) = behind a ++ behind b.
Proof. induction a as [|[[] c p k s] a IH]; cbn [app behind]; [done| |done]. rewrite IH. by flat_lists. Qed.
Lemma inorder_zip ctx : forall t, inorder (zip ctx t) = before ctx ++ inorder t ++ behind ctx.
Proof.
  induction ctx as [|[d c p k s] ctx IH]; intros t; [by rewrite app_nil_r|]. cbn [zip]. rewrite IH.
  destruct d; cbn [mk inorder before behind]; by rewrite <- !app_assoc.
Qed.
Lemma inorder_mk d c a p k b : inorder (mk d c a p k b) = before [F d c p k b] ++ inorder a ++ behind [F d c p k b].
Proof. apply (inorder_zip [F d c p k b] a). Qed.
Lemma inorder_dye c t : inorder (dye c t) = inorder t.
Proof. by destruct t. Qed.
Lemma root_dye c t : root (dye c t) = root t.
Proof. by destruct t. Qed.
Lemma color_dye c t : t <> E -> color (dye c t) = c.
Proof. by destruct t. Qed.
Lemma root_mk d c a p k b : root (mk d c a p k b) = p.
Proof. by destruct d. Qed.
Lemma mk_opp d c a p k b : mk (opp d) c a p k b = mk d c b p k a.
Proof. by destruct d. Qed.

(** ** The functions *)

(** The loop of [rbtree_insert_fixup] at a red node. *)
Fixpoint fix_loop (ctx : list frame) (t : tree) : tree :=
  match ctx with
  | F d RED p pk s :: F d2 gc g gk u :: ctx' =>
    match color u with
    | RED => fix_loop ctx' (mk d2 RED (mk d BLACK t p pk s) g gk (dye BLACK u))
    | BLACK =>
      if bool_decide (d = d2) then zip ctx' (mk d2 BLACK t p pk (mk d2 RED s g gk u))
      else
        match t with
        | E => E
        | T c l x xk r =>
          let '(near, far) := match d2 with L => (l, r) | R => (r, l) end in
          zip ctx' (mk d2 BLACK (mk d2 RED s p pk near) x xk (mk d2 RED far g gk u))
        end
    end
  | _ => zip ctx t
  end.

(** One round: the position the loop goes on with. *)
Definition round (d : side) (p : ptr) (pk : K) (s : tree) (d2 : side) (g : ptr) (gk : K) (u : tree) (ctx : list frame) (t : tree)
  : list frame * tree :=
  match color u with
  | RED => (ctx, mk d2 RED (mk d BLACK t p pk s) g gk (dye BLACK u))
  | BLACK =>
    if bool_decide (d = d2) then (F d2 BLACK p pk (mk d2 RED s g gk u) :: ctx, t)
    else
      match t with
      | E => ([], E)
      | T c l x xk r =>
        let '(near, far) := match d2 with L => (l, r) | R => (r, l) end in
        (F d2 BLACK x xk (mk d2 RED far g gk u) :: ctx, mk d2 RED s p pk near)
      end
  end.
Lemma fix_loop_round d p pk s d2 gc g gk u ctx t :
  fix_loop (F d RED p pk s :: F d2 gc g gk u :: ctx) t =
  let '(ctx', t') := round d p pk s d2 g gk u ctx t in fix_loop ctx' t'.
Proof.
  unfold round. cbn [fix_loop]. destruct (color u); [|done]. destruct (bool_decide (d = d2)); [done|].
  destruct t as [|c l x xk r]; [done|]. by destruct d2.
Qed.

(** The number of nodes on the longest way down. *)
Fixpoint height (t : tree) : nat := match t with E => 0 | T _ l _ _ r => S (Nat.max (height l) (height r)) end.
Lemma height_mk d c a p k b : height (mk d c a p k b) = S (Nat.max (height a) (height b)).
Proof. destruct d; cbn; lia. Qed.
Lemma height_zip ctx : forall t, (length ctx + height t <= height (zip ctx t))%nat.
Proof.
  induction ctx as [|[d c p k s] ctx IH]; intros t; [done|]. cbn [zip length]. specialize (IH (mk d c t p k s)).
  rewrite height_mk in IH. lia.
Qed.

(** The part of [rbtree_delete_fixup] behind the loop. *)
Definition fix_last (ctx : list frame) (d : side) (pc : rbcolor) (p : ptr) (pk : K) (t s : tree) : tree :=
  match s with
  | E => E
  | T sc l q qk r =>
    let '(near, far) := match d with L => (l, r) | R => (r, l) end in
    match pc, color near, color far with
    | RED, BLACK, BLACK => zip ctx (mk d BLACK t p pk (dye RED s))
    | _, RED, BLACK =>
      match near with
      | E => E
      | T _ nl x xk nr =>
        let '(a, b) := match d with L => (nl, nr) | R => (nr, nl) end in
        zip ctx (mk d pc (mk d BLACK t p pk a) x xk (mk d BLACK b q qk far))
      end
    | _, _, _ => zip ctx (mk d pc (mk d BLACK t p pk near) q qk (dye BLACK far))
    end
  end.
(** The whole of it, for a subtree that is one black node short. *)
Fixpoint fix_del (ctx : list frame) (t : tree) : tree :=
  match ctx with
  | [] => t
  | F d pc p pk s :: ctx' =>
    match s with
    | E => E
    | T RED l q qk r =>
      let '(near, far) := match d with L => (l, r) | R => (r, l) end in
      fix_last (F d BLACK q qk far :: ctx') d RED p pk t near
    | T BLACK l q qk r =>
      if bool_decide (pc = BLACK /\ color l = BLACK /\ color r = BLACK)
      then fix_del ctx' (mk d BLACK t p pk (dye RED s))
      else fix_last ctx' d pc p pk t s
    end
  end.

(** Unlinking a node with one child at most. *)
Definition unlink (ctx : list frame) (c : rbcolor) (t : tree) : tree :=
  match c, color t with
  | RED, _ => zip ctx t
  | BLACK, RED => zip ctx (dye BLACK t)
  | BLACK, BLACK => fix_del ctx t
  end.
(** The smallest node of a tree: the way to it from the top (innermost first), its color,
    address, key and right subtree. *)
Fixpoint split_min (l : tree) (c : rbcolor) (p : ptr) (k : K) (r : tree) (ctx : list frame)
  : list frame * rbcolor * ptr * K * tree :=
  match l with
  | E => (ctx, c, p, k, r)
  | T c' l' p' k' r' => split_min l' c' p' k' r' (F L c p k r :: ctx)
  end.
Definition delete_at (ctx : list frame) (c : rbcolor) (l r : tree) : tree :=
  match l, r with
  | E, _ => unlink ctx c r
  | _, E => unlink ctx c l
  | _, T rc rl rp rk rr =>
    let '(low, sc, sp, sk, sr) := split_min rl rc rp rk rr [] in
    unlink (low ++ F R c sp sk l :: ctx) sc sr
  end.

(** ** The red-black invariant *)

(** [is_rb t c n]: [t] has a root of color [c], no red node with a red child, and [n]
    black nodes on every way down. *)
Inductive is_rb : tree -> rbcolor -> nat -> Prop :=
  | rb_nil : is_rb E BLACK 0
  | rb_red l p k r n : is_rb l BLACK n -> is_rb r BLACK n -> is_rb (T RED l p k r) RED n
  | rb_black l p k r cl cr n : is_rb l cl n -> is_rb r cr n -> is_rb (T BLACK l p k r) BLACK (S n).
(** [rb_ctx ctx c n]: a subtree with [n] black nodes fits, one with a red root only when
    [c] is black. *)
Inductive rb_ctx : list frame -> rbcolor -> nat -> Prop :=
  | ctx_top n : rb_ctx [] RED n
  | ctx_red d p k s ctx n : is_rb s BLACK n -> rb_ctx ctx BLACK n -> rb_ctx (F d RED p k s :: ctx) RED n
  | ctx_black d p k s ctx c cs n : is_rb s cs n -> rb_ctx ctx c (S n) -> rb_ctx (F d BLACK p k s :: ctx) BLACK n.

Lemma rb_color_of t c n : is_rb t c n -> color t = c.
Proof. by destruct 1. Qed.
Lemma rb_mk_red d a p k b n : is_rb a BLACK n -> is_rb b BLACK n -> is_rb (mk d RED a p k b) RED n.
Proof. destruct d; by constructor. Qed.
Lemma rb_mk_black d a p k b ca cb n : is_rb a ca n -> is_rb b cb n -> is_rb (mk d BLACK a p k b) BLACK (S n).
Proof. destruct d; by econstructor. Qed.
Lemma rb_dye_black t n : is_rb t RED n -> is_rb (dye BLACK t) BLACK (S n).
Proof. inversion 1; subst. by econstructor. Qed.
Lemma rb_dye_red l p k r n : is_rb (T BLACK l p k r) BLACK (S n) -> color l = BLACK -> color r = BLACK -> is_rb (T RED l p k r) RED n.
Proof.
  inversion 1 as [| |? ? ? ? cl cr ? H1 H2]; subst. intros E1 E2. rewrite (rb_color_of _ _ _ H1) in E1. rewrite (rb_color_of _ _ _ H2) in E2.
  subst. by constructor.
Qed.
Lemma rb_inv d c a p k b c' n : is_rb (mk d c a p k b) c' n -> c' = c /\
  match c with RED => is_rb a BLACK n /\ is_rb b BLACK n
  | BLACK => exists m ca cb, n = S m /\ is_rb a ca m /\ is_rb b cb m end.
Proof. destruct d; cbn [mk]; inversion 1; subst; (split; [done|]); eauto 10. Qed.

Lemma zip_rb ctx : forall t pc c n, rb_ctx ctx pc n -> is_rb t c n -> (pc = RED -> c = BLACK) -> exists m, is_rb (zip ctx t) BLACK m.
Proof.
  induction ctx as [|[d fc p k s] ctx IH]; intros t pc c n Hc Ht Hpc.
  - inversion Hc; subst. rewrite Hpc in Ht by done. by exists n.
  - cbn [zip]. inversion Hc; subst.
    + rewrite Hpc in Ht by done. eapply IH; [done|by apply rb_mk_red|done].
    + eapply IH; [done|by eapply rb_mk_black|done].
Qed.
Lemma unzip_rb ctx : forall t m, is_rb (zip ctx t) BLACK m -> exists pc c n, rb_ctx ctx pc n /\ is_rb t c n /\ (pc = RED -> c = BLACK).
Proof.
  induction ctx as [|[d fc p k s] ctx IH]; intros t m Hz.
  - exists RED, BLACK, m. split; [constructor|done].
  - cbn [zip] in Hz. destruct (IH _ _ Hz) as (pc & c & n & Hc & Ht & Hpc). apply rb_inv in Ht as [-> Ht]. destruct fc.
    + destruct Ht as (k' & ca & cb & -> & Ha & Hb). exists BLACK, ca, k'. split; [by econstructor|done].
    + destruct Ht as [Ha Hb]. destruct pc; [|by specialize (Hpc eq_refl)]. exists RED, BLACK, n. split; [by constructor|done].
Qed.

(** ** Insertion keeps it *)
Lemma fix_loop_rb : forall m ctx t pc n, (length ctx < m)%nat -> is_rb t RED n -> rb_ctx ctx pc n ->
  exists m, is_rb (dye BLACK (fix_loop ctx t)) BLACK m.
Proof.
  induction m as [|m IH]; intros ctx t pc n Hl Ht Hc; [lia|]. destruct ctx as [|[d fc p pk s] ctx].
  { cbn. exists (S n). by apply rb_dye_black. }
  inversion Hc as [|? ? ? ? ? ? Hs Hc'|? ? ? ? ? ? ? ? Hs Hc']; subst.
  2: { destruct (zip_rb (F d BLACK p pk s :: ctx) t BLACK RED n Hc Ht ltac:(done)) as (k & Hk). cbn [fix_loop].
    exists k. revert Hk. generalize (zip (F d BLACK p pk s :: ctx) t). intros z Hz. destruct z as [|zc]; [done|]. by inversion Hz; subst. }
  inversion Hc' as [| |d2 g gk u ctx2 gc cu ? Hu Hc2]; subst. cbn [fix_loop].
  assert (Hdone : forall a ca, is_rb a ca (S n) -> ca = BLACK -> exists m, is_rb (dye BLACK (zip ctx2 a)) BLACK m).
  { intros a ca Ha ->. destruct (zip_rb ctx2 a gc BLACK (S n) Hc2 Ha ltac:(done)) as (k & Hk). exists k. revert Hk.
    generalize (zip ctx2 a). intros z Hz. inversion Hz; subst; cbn; [constructor|by econstructor]. }
  rewrite (rb_color_of _ _ _ Hu). destruct cu.
  - destruct (bool_decide_reflect (d = d2)) as [->|Hd].
    + eapply Hdone; [|done]. eapply rb_mk_black; [exact Ht|by apply rb_mk_red].
    + destruct t as [|c l x xk r]; [inversion Ht|]. inversion Ht; subst.
      destruct d2; (eapply Hdone; [|done]); eapply rb_mk_black; by apply rb_mk_red.
  - eapply (IH ctx2); [cbn in Hl; lia| |exact Hc2]. apply rb_mk_red; [by eapply rb_mk_black|by apply rb_dye_black].
Qed.
Lemma inorder_fix_loop : forall m ctx t, (length ctx < m)%nat -> t <> E -> inorder (fix_loop ctx t) = before ctx ++ inorder t ++ behind ctx.
Proof.
  induction m as [|m IH]; intros ctx t Hl Hne; [lia|].
  destruct ctx as [|[d [] p pk s] [|[d2 gc g gk u] ctx]]; try (by apply inorder_zip). cbn [fix_loop].
  destruct (color u).
  - destruct (bool_decide_reflect (d = d2)) as [->|Hd].
    + rewrite inorder_zip. destruct d2; cbn [mk inorder before behind]; flat_lists.
    + destruct t as [|c l x xk r]; [done|]. destruct d, d2; try done; rewrite inorder_zip; cbn [mk before behind inorder];
        flat_lists.
  - rewrite IH; [|cbn in Hl; lia|by destruct d2]. 
    destruct d, d2; cbn [mk inorder before behind]; rewrite ?inorder_dye; flat_lists.
Qed.

(** ** Deletion keeps it *)
Definition keeps (t : tree) (l : list (ptr * K)) : Prop := (exists m, is_rb t BLACK m) /\ inorder t = l.
Lemma zip_keeps ctx t pc c n l : rb_ctx ctx pc n -> is_rb t c n -> (pc = RED -> c = BLACK) ->
  before ctx ++ inorder t ++ behind ctx = l -> keeps (zip ctx t) l.
Proof. intros Hc Ht Hpc <-. split; [by eapply zip_rb|apply inorder_zip]. Qed.

Definition above (c : rbcolor) (n : nat) : nat := match c with BLACK => S n | RED => n end.
Lemma rb_mk d c a p k b n : is_rb a BLACK n -> is_rb b BLACK n -> is_rb (mk d c a p k b) c (above c n).
Proof. intros Ha Hb. destruct c; [by eapply rb_mk_black|by apply rb_mk_red]. Qed.

(** The three results of [fix_last], by the colors of the sibling's children. *)
Lemma fix_last_none ctx d p pk t near q qk far : color near = BLACK -> color far = BLACK ->
  fix_last ctx d RED p pk t (mk d BLACK near q qk far) = zip ctx (mk d BLACK t p pk (mk d RED near q qk far)).
Proof. intros E1 E2. destruct d; cbn; by rewrite E1, E2. Qed.
Lemma fix_last_near ctx d pc p pk t a x xk b q qk far : color far = BLACK ->
  fix_last ctx d pc p pk t (mk d BLACK (mk d RED a x xk b) q qk far) =
  zip ctx (mk d pc (mk d BLACK t p pk a) x xk (mk d BLACK b q qk far)).
Proof. intros E1. destruct d, pc; cbn; by rewrite E1. Qed.
Lemma fix_last_far ctx d pc p pk t near q qk far : color far = RED ->
  fix_last ctx d pc p pk t (mk d BLACK near q qk far) = zip ctx (mk d pc (mk d BLACK t p pk near) q qk (dye BLACK far)).
Proof. intros E1. destruct d, pc; cbn; rewrite E1; by destruct (color near). Qed.
Lemma rb_red_mk d t n : is_rb t RED n -> exists a x xk b, t = mk d RED a x xk b /\ is_rb a BLACK n /\ is_rb b BLACK n.
Proof. inversion 1 as [|l x xk r ? Hl Hr|]; subst. destruct d; [by exists l, x, xk, r|by exists r, x, xk, l]. Qed.

Lemma fix_last_ok d ctx up pc p pk t near q qk far cn cf n : is_rb t BLACK n -> rb_ctx ctx up (above pc (S n)) -> (up = RED -> pc = BLACK) ->
  is_rb near cn n -> is_rb far cf n -> (pc = BLACK -> cn = RED \/ cf = RED) ->
  keeps (fix_last ctx d pc p pk t (mk d BLACK near q qk far))
    (before (F d pc p pk (mk d BLACK near q qk far) :: ctx) ++ inorder t ++ behind (F d pc p pk (mk d BLACK near q qk far) :: ctx)).
Proof.
  intros Ht Hup Hrb Hn Hf Hq. destruct cf.
  - destruct cn.
    + destruct pc; [by destruct (Hq eq_refl)|]. rewrite fix_last_none by (by eapply rb_color_of).
      eapply zip_keeps; [exact Hup|eapply rb_mk_black; [done|by apply rb_mk_red]|done|].
      destruct d; cbn [mk before behind inorder]; by flat_lists.
    + destruct (rb_red_mk d near n Hn) as (a & x & xk & b & -> & Ha & Hb). rewrite fix_last_near by (by eapply rb_color_of).
      eapply zip_keeps; [exact Hup|apply rb_mk; by eapply rb_mk_black|done|].
      destruct d; cbn [mk before behind inorder]; by flat_lists.
  - rewrite fix_last_far by (by eapply rb_color_of).
    eapply zip_keeps; [exact Hup|apply rb_mk; [by eapply rb_mk_black|by apply rb_dye_black]|done|].
    destruct d; cbn [mk before behind inorder]; rewrite ?inorder_dye; by flat_lists.
Qed.
Lemma mk_of d c l q qk r : exists near far, T c l q qk r = mk d c near q qk far /\
  (near = l /\ far = r \/ near = r /\ far = l) /\ (match d with L => (l, r) | R => (r, l) end = (near, far)).
Proof. destruct d; [exists l, r|exists r, l]; auto. Qed.

Lemma fix_del_ok ctx : forall t pc n, is_rb t BLACK n -> rb_ctx ctx pc (S n) ->
  keeps (fix_del ctx t) (before ctx ++ inorder t ++ behind ctx).
Proof.
  induction ctx as [|[d fc p pk s] ctx IH]; intros t pc n Ht Hc.
  { split; [by exists n|]. cbn. by rewrite app_nil_r. }
  cbn [fix_del]. inversion Hc as [|? ? ? ? ? ? Hs Hc'|? ? ? ? ? up cs ? Hs Hc']; subst.
  - inversion Hs as [| |l q qk r cl cr ? Hl Hr]; subst. rewrite bool_decide_eq_false_2 by (intros []; done).
    destruct (mk_of d BLACK l q qk r) as (near & far & -> & Hside & _).
    destruct Hside as [[-> ->]|[-> ->]]; eapply (fix_last_ok d ctx BLACK RED); done.
  - inversion Hs as [|l q qk r ? Hl Hr|l q qk r cl cr ? Hl Hr]; subst.
    + assert (Hgo : forall near far, is_rb near BLACK (S n) -> is_rb far BLACK (S n) ->
        keeps (fix_last (F d BLACK q qk far :: ctx) d RED p pk t near)
          (before (F d RED p pk near :: F d BLACK q qk far :: ctx) ++ inorder t ++ behind (F d RED p pk near :: F d BLACK q qk far :: ctx))).
      { intros near far Hn Hf. inversion Hn as [| |nl x xk nr c1 c2 ? H1 H2]; subst.
        destruct (mk_of d BLACK nl x xk nr) as (near & far' & -> & Hside & _).
        assert (Hc2 : rb_ctx (F d BLACK q qk far :: ctx) BLACK (S n)) by (by econstructor).
        destruct Hside as [[-> ->]|[-> ->]]; eapply (fix_last_ok d _ BLACK RED); done. }
      destruct d; [specialize (Hgo l r Hl Hr)|specialize (Hgo r l Hr Hl)]; revert Hgo; cbn [before behind inorder]; by flat_lists.
    + destruct (bool_decide_reflect (BLACK = BLACK /\ color l = BLACK /\ color r = BLACK)) as [(_ & E1 & E2)|Hq].
      * assert (Hnew : is_rb (mk d BLACK t p pk (dye RED (T BLACK l q qk r))) BLACK (S n))
          by (eapply rb_mk_black; [done|]; by apply rb_dye_red).
        specialize (IH _ up (S n) Hnew Hc'). revert IH. destruct d; cbn [mk dye before behind inorder]; by flat_lists.
      * rewrite (rb_color_of _ _ _ Hl), (rb_color_of _ _ _ Hr) in Hq.
        destruct (mk_of d BLACK l q qk r) as (near & far & -> & Hside & _).
        destruct Hside as [[-> ->]|[-> ->]]; (eapply (fix_last_ok d ctx up BLACK); [done|done|done|done|done|]); intros _;
          destruct cl, cr; auto; by destruct Hq.
Qed.

Lemma unlink_ok ctx c p k t m : is_rb (zip ctx (T c E p k t)) BLACK m ->
  keeps (unlink ctx c t) (before ctx ++ inorder t ++ behind ctx).
Proof.
  intros Hz. destruct (unzip_rb ctx _ _ Hz) as (pc & c' & n & Hc & Ht & Hpc). unfold unlink.
  inversion Ht as [|? ? ? ? ? Hl Hr|? ? ? ? cl cr k' Hl Hr]; subst.
  - eapply zip_keeps; [done|exact Hr|done|done].
  - rewrite (rb_color_of _ _ _ Hr). destruct cr; [by eapply fix_del_ok|].
    eapply zip_keeps; [done|by apply rb_dye_black|done|by rewrite inorder_dye].
Qed.

Lemma split_min_zip l : forall c p k r ctx, let '(low, sc, sp, sk, sr) := split_min l c p k r ctx in
  zip low (T sc E sp sk sr) = zip ctx (T c l p k r) /\ before low = before ctx.
Proof.
  induction l as [|c' l' IH p' k' r' _]; intros c p k r ctx; [done|]. cbn [split_min].
  specialize (IH c' p' k' r' (F L c p k r :: ctx)). destruct (split_min l' c' p' k' r' _) as [[[[low sc] sp] sk] sr]. by destruct IH as [-> ->].
Qed.

(** The node at the end of the chain of children on side [d], of [q]'s children. *)
Fixpoint endmost (d : side) (t : tree) (q : ptr) : ptr :=
  match t with E => q | T _ l p _ r => endmost d (match d with L => l | R => r end) p end.
Lemma split_min_end l : forall c p k r ctx, let '(_, _, sp, _, _) := split_min l c p k r ctx in sp = endmost L l p.
Proof.
  induction l as [|c' l' IH p' k' r' _]; intros c p k r ctx; [done|]. apply (IH c' p' k' r' (F L c p k r :: ctx)).
Qed.

(** The red-black facts about the position the smallest node behind a node leaves. *)
Lemma split_min_rb ctx c l p k rc rl rp rk rr m : is_rb (zip ctx (T c l p k (T rc rl rp rk rr))) BLACK m ->
  let '(low, sc, sp, sk, sr) := split_min rl rc rp rk rr [] in
  let ctx' := low ++ F R c sp sk l :: ctx in
  (length ctx' < height (zip ctx (T c l p k (T rc rl rp rk rr))))%nat /\
  exists m', is_rb (zip ctx' (T sc E sp sk sr)) BLACK m' /\ zip ctx' (T sc E sp sk sr) = zip ctx (T c l sp sk (T rc rl rp rk rr)).
Proof.
  intros Hz. destruct (unzip_rb ctx _ _ Hz) as (pc & c' & n & Hc & Ht & Hpc). pose proof (split_min_zip rl rc rp rk rr []) as Es.
  destruct (split_min rl rc rp rk rr []) as [[[[low sc] sp] sk] sr]. destruct Es as [Es _]. cbn [zip] in Es. cbn zeta. split.
  - pose proof (height_zip ctx (T c l p k (T rc rl rp rk rr))) as H1. pose proof (height_zip low (T sc E sp sk sr)) as H2. rewrite Es in H2.
    cbn [height] in H1, H2. rewrite length_app. cbn [length]. lia.
  - assert (Hnew : is_rb (T c l sp sk (T rc rl rp rk rr)) c' n) by (inversion Ht; subst; by econstructor).
    destruct (zip_rb ctx _ pc c' n Hc Hnew Hpc) as [m' Hm']. exists m'. rewrite zip_app. cbn [zip mk]. by rewrite Es.
Qed.
Lemma delete_at_ok ctx c l p k r m : is_rb (zip ctx (T c l p k r)) BLACK m ->
  keeps (delete_at ctx c l r) (before ctx ++ inorder l ++ inorder r ++ behind ctx).
Proof.
  intros Hz. destruct l as [|lc ll lp lk lr]; [by eapply unlink_ok|]. set (l := T lc ll lp lk lr) in *.
  change (delete_at ctx c l r) with (match r with E => unlink ctx c l | T rc rl rp rk rr =>
    let '(low, sc, sp, sk, sr) := split_min rl rc rp rk rr [] in unlink (low ++ F R c sp sk l :: ctx) sc sr end).
  destruct (unzip_rb ctx _ _ Hz) as (pc & c' & n & Hc & Ht & Hpc). destruct r as [|rc rl rp rk rr].
  - assert (Hsw : is_rb (T c E p k l) c' n) by (inversion Ht; subst; by econstructor).
    destruct (zip_rb ctx _ pc c' n Hc Hsw Hpc) as [m' Hm']. by apply (unlink_ok ctx c p k l m').
  - pose proof (split_min_rb ctx c l p k rc rl rp rk rr m Hz) as Hs. pose proof (split_min_zip rl rc rp rk rr []) as Es.
    destruct (split_min rl rc rp rk rr []) as [[[[low sc] sp] sk] sr]. destruct Hs as (_ & m' & Hm' & _).
    cbn [zip] in Es. destruct Es as [Es Eb]. destruct (unlink_ok _ _ _ _ _ _ Hm') as [Hk Hi]. split; [done|]. rewrite Hi.
    pose proof (f_equal inorder Es) as Hlow. rewrite inorder_zip in Hlow. cbn [inorder] in Hlow.
    rewrite Eb in Hlow. cbn [before app] in Hlow. rewrite before_app, behind_app, Eb.
    change (inorder (T rc rl rp rk rr)) with (inorder rl ++ (rp, rk) :: inorder rr). rewrite <- Hlow. cbn [before behind]. by flat_lists.
Qed.
(** ** Iteration *)

(** The nodes of a subtree, or those outside a position, from the position towards a
    side. *)
Definition inner (d : side) (t : tree) : list ptr := match d with L => rev (ptrs t) | R => ptrs t end.
Definition outer (d : side) (ctx : list frame) : list ptr :=
  match d with L => rev (map fst (before ctx)) | R => map fst (behind ctx) end.
Lemma ptrs_T c l p k r : ptrs (T c l p k r) = ptrs l ++ p :: ptrs r.
Proof. unfold ptrs. cbn [inorder]. by rewrite map_app. Qed.
Lemma endmost_hd d t q : endmost d t q = List.hd q (inner (opp d) t).
Proof.
  revert q. induction t as [|c l IHl p k r IHr]; intros q; [by destruct d|]. destruct d; cbn [endmost inner opp] in *; rewrite ptrs_T.
  - rewrite IHl. by destruct (ptrs l).
  - rewrite IHr, rev_app_distr. cbn [rev]. rewrite <- app_assoc. by destruct (rev (ptrs r)).
Qed.
(** Every entry of the sequence has its position. *)
Lemma position_of t : forall ctx a p k b, inorder t = a ++ (p, k) :: b -> exists ctx' c l r,
  zip ctx t = zip ctx' (T c l p k r) /\ before ctx ++ a = before ctx' ++ inorder l /\ b ++ behind ctx = inorder r ++ behind ctx'.
Proof.
  induction t as [|c l IHl q kq r IHr]; intros ctx a p k b Ht; [by destruct a|]. cbn [inorder] in Ht.
  apply app_eq_inv in Ht as [(x & Hl & Hr)|(x & -> & Hr)].
  - destruct x as [|e x].
    + rewrite app_nil_r in Hl. subst a. injection Hr as -> -> ->. exists ctx, c, l, r. done.
    + injection Hr as <- ->. destruct (IHl (F L c q kq r :: ctx) _ _ _ _ Hl) as (ctx' & c' & l' & r' & H1 & H2 & H3).
      exists ctx', c', l', r'. split; [done|]. split; [done|]. rewrite <- H3. cbn [behind]. by flat_lists.
  - destruct x as [|e x].
    + injection Hr as -> -> <-. exists ctx, c, l, r. by rewrite app_nil_r.
    + injection Hr as <- Hr. destruct (IHr (F R c q kq l :: ctx) _ _ _ _ Hr) as (ctx' & c' & l' & r' & H1 & H2 & H3).
      exists ctx', c', l', r'. split; [done|]. split; [|done]. rewrite <- H2. cbn [before]. by flat_lists.
Qed.
Fixpoint postorder (t : tree) : list ptr := match t with E => [] | T _ l p _ r => postorder l ++ postorder r ++ [p] end.
Lemma postorder_perm t : Permutation (postorder t) (ptrs t).
Proof.
  induction t as [|c l IHl p k r IHr]; [done|]. cbn [postorder]. rewrite ptrs_T, IHl, IHr. apply Permutation_app_head.
  symmetry. apply Permutation_cons_append.
Qed.

(** ** The height *)
Lemma rb_size t c n : is_rb t c n -> (2 ^ n <= S (length (inorder t)))%nat.
Proof.
  induction 1 as [|l p k r n _ IH1 _ IH2|l p k r cl cr n _ IH1 _ IH2]; cbn [inorder length Nat.pow] in *; rewrite ?length_app; cbn [length]; lia.
Qed.
Lemma rb_height t c n : is_rb t c n -> (height t <= 2 * n + match c with RED => 1 | BLACK => 0 end)%nat.
Proof. induction 1 as [|l p k r n _ IH1 _ IH2|l p k r cl cr n _ IH1 _ IH2]; cbn [height] in *; [done|lia|destruct cl, cr; lia]. Qed.
(** The steps that are enough for a tree of [n] nodes. *)
Definition rb_fuel (n : nat) : nat := 2 * Nat.log2 (S n).
Lemma rb_height_log t m : is_rb t BLACK m -> (height t <= rb_fuel (length (inorder t)))%nat.
Proof.
  intros Hrb. pose proof (rb_height t BLACK m Hrb) as H. pose proof (rb_size t BLACK m Hrb) as H2. unfold rb_fuel. cbn beta iota in H.
  pose proof (Nat.log2_le_mono _ _ H2) as H3. rewrite Nat.log2_pow2 in H3 by lia. lia.
Qed.
End Shape.

(** ** Search, insertion and deletion by key *)
Section Keys.
Context {K : Type} (cmp : K -> K -> Z).

(** The entries of a tree, in the sense of OrdTree. *)
Definition entry_key : TreeKey (ptr * K) K := {| tkey := snd; tcmp := cmp |}.
#[local] Existing Instance entry_key.

(** The position of a key: a node with the key, or the empty tree it belongs in. *)
Fixpoint locate (key : K) (t : tree) (ctx : list frame) : list frame * tree :=
  match t with
  | E => (ctx, E)
  | T c l p k r =>
    if cmp key k =? 0 then (ctx, t)
    else if cmp key k <? 0 then locate key l (F L c p k r :: ctx)
    else locate key r (F R c p k l :: ctx)
  end.
Lemma locate_zip key t : forall ctx, let '(ctx', t') := locate key t ctx in zip ctx' t' = zip ctx t.
Proof.
  induction t as [|c l IHl p k r IHr]; intros ctx; [done|]. cbn [locate]. destruct (_ =? 0); [done|].
  destruct (_ <? 0); [apply (IHl (F L c p k r :: ctx))|apply (IHr (F R c p k l :: ctx))].
Qed.
Definition rb_insert (t : tree) (p : ptr) (key : K) : option tree :=
  match locate key t [] with
  | (ctx, E) => Some (dye BLACK (fix_loop ctx (T RED E p key E)))
  | (_, T _ _ _ _ _) => None
  end.
(** The greatest entry that is not greater than the key, and whether it has the key. *)
Fixpoint find_le (key : K) (t : tree) (best : option ptr) : bool * option ptr :=
  match t with
  | E => (false, best)
  | T _ l p k r =>
    if cmp key k =? 0 then (true, Some p) else if cmp key k <? 0 then find_le key l best else find_le key r (Some p)
  end.
Lemma find_le_locate key t : forall ctx best, match locate key t ctx with
  | (_, E) => fst (find_le key t best) = false | (_, T _ _ p _ _) => find_le key t best = (true, Some p) end.
Proof.
  induction t as [|c l IHl p k r IHr]; intros ctx best; [done|]. cbn [locate find_le]. destruct (_ =? 0); [done|].
  destruct (_ <? 0); [apply IHl|apply IHr].
Qed.
Definition rb_delete (t : tree) (key : K) : tree * option (ptr * K) :=
  match locate key t [] with
  | (_, E) => (t, None)
  | (ctx, T c l p k r) => (delete_at ctx c l r, Some (p, k))
  end.

Context (D : K -> Prop) {CO : CmpOrder cmp D}.
Lemma sorted_app (a b : list (ptr * K)) x : tree_ok D (a ++ x :: b) -> D (snd x) /\
  Forall (fun e => D (snd e) /\ cmp (snd e) (snd x) < 0) a /\ Forall (fun e => D (snd e) /\ cmp (snd x) (snd e) < 0) b.
Proof.
  intros [HD HS]. rewrite Forall_app in HD. destruct HD as [Ha [Hx Hb]%Forall_cons_1]. split; [done|]. split.
  - clear Hb. induction a as [|y a IH]; [constructor|]. apply Forall_cons_1 in Ha as [Hy Ha]. cbn [app] in HS.
    apply StronglySorted_inv in HS as [HS Hall]. apply Forall_cons_2; [|by apply IH]. split; [done|].
    rewrite Forall_app in Hall. destruct Hall as [_ [Hyx _]%Forall_cons_1]. exact Hyx.
  - clear Ha. induction a as [|y a IH]; cbn [app] in HS; apply StronglySorted_inv in HS as [HS Hall]; [|by apply IH].
    apply List.Forall_forall. intros e He. rewrite List.Forall_forall in Hb, Hall. split; [by apply Hb|by apply Hall].
Qed.
Definition key_above (key : K) (l : list (ptr * K)) : Prop := Forall (fun e => 0 < cmp key (snd e)) l.
Definition key_below (key : K) (l : list (ptr * K)) : Prop := Forall (fun e => cmp key (snd e) < 0) l.

Lemma locate_ok key : D key -> forall t ctx, tree_ok D (inorder (zip ctx t)) -> key_above key (before ctx) -> key_below key (behind ctx) ->
  let '(ctx', t') := locate key t ctx in
  zip ctx' t' = zip ctx t /\ key_above key (before ctx') /\ key_below key (behind ctx') /\
  match t' with E => True | T _ _ _ k _ => cmp key k = 0 end.
Proof.
  intros Hkey t. induction t as [|c l IHl p k r IHr]; intros ctx Hok Hab Hbe; [done|]. cbn [locate].
  assert (Hs : tree_ok D ((before ctx ++ inorder l) ++ (p, k) :: inorder r ++ behind ctx))
    by (rewrite inorder_zip in Hok; revert Hok; cbn [inorder]; by flat_lists).
  apply sorted_app in Hs as (Hk & Hl & Hr). cbn [snd] in Hk, Hl, Hr. rewrite !Forall_app in Hl, Hr.
  destruct Hl as [_ Hl], Hr as [Hr _]. destruct (Z.eqb_spec (cmp key k) 0) as [E0|E0]; [done|].
  destruct (Z.ltb_spec (cmp key k) 0).
  - apply (IHl (F L c p k r :: ctx)); [done|done|]. apply Forall_cons_2; [done|]. apply Forall_app. split; [|done].
    eapply List.Forall_impl; [|exact Hr]. cbn. intros e [He Hke]. by apply (cmp_trans (D := D) key k (snd e)).
  - apply (IHr (F R c p k l :: ctx)); [done| |done]. cbn [before]. apply Forall_app. split; [done|]. apply Forall_app.
    split; [|apply Forall_cons_2; [cbn; lia|constructor]]. eapply List.Forall_impl; [|exact Hl]. cbn. intros e [He Hke].
    apply (cmp_anti (D := D) (snd e) key); [done..|]. apply (cmp_trans (D := D) (snd e) k key); [done..|].
    apply (cmp_anti (D := D) k key); [done..|]. lia.
Qed.

Lemma insert_between (e : ptr * K) a b : key_above (snd e) a -> key_below (snd e) b ->
  OrdTree.rbtree_insert (a ++ b) e = Some (a ++ e :: b).
Proof.
  intros Ha Hb. induction Ha as [|x a Hx Ha IH]; cbn [app OrdTree.rbtree_insert].
  - destruct Hb as [|y b Hy Hb]; [done|]. cbn [OrdTree.rbtree_insert]. cbn in *.
    destruct (Z.eqb_spec (cmp (snd e) (snd y)) 0); [lia|]. by destruct (Z.ltb_spec (cmp (snd e) (snd y)) 0); [|lia].
  - cbn in *. destruct (Z.eqb_spec (cmp (snd e) (snd x)) 0); [lia|]. destruct (Z.ltb_spec (cmp (snd e) (snd x)) 0); [lia|]. by rewrite IH.
Qed.
Lemma insert_found (e : ptr * K) a y b : key_above (snd e) a -> cmp (snd e) (snd y) = 0 -> OrdTree.rbtree_insert (a ++ y :: b) e = None.
Proof.
  intros Ha Hy. induction Ha as [|x a Hx Ha IH]; cbn [app OrdTree.rbtree_insert]; cbn in *.
  - by rewrite Hy.
  - destruct (Z.eqb_spec (cmp (snd e) (snd x)) 0); [lia|]. destruct (Z.ltb_spec (cmp (snd e) (snd x)) 0); [lia|]. by rewrite IH.
Qed.
Lemma delete_found key a y b : key_above key a -> cmp key (snd y) = 0 -> OrdTree.rbtree_delete (a ++ y :: b) key = (a ++ b, Some y).
Proof.
  intros Ha Hy. induction Ha as [|x a Hx Ha IH]; cbn [app OrdTree.rbtree_delete]; cbn in *.
  - by rewrite Hy.
  - destruct (Z.eqb_spec (cmp key (snd x)) 0); [lia|]. by rewrite IH.
Qed.
Lemma not_found key l : Forall (fun e => cmp key (snd e) <> 0) l ->
  OrdTree.rbtree_delete l key = (l, None) /\ OrdTree.rbtree_search l key = None.
Proof.
  induction 1 as [|x l Hx Hl [IH1 IH2]]; [done|]. cbn. destruct (Z.eqb_spec (cmp key (snd x)) 0); [done|]. by rewrite IH1, IH2.
Qed.
Lemma search_found key a y b : key_above key a -> cmp key (snd y) = 0 -> OrdTree.rbtree_search (a ++ y :: b) key = Some y.
Proof.
  intros Ha Hy. induction Ha as [|x a Hx Ha IH]; cbn in *; [by rewrite Hy|]. destruct (Z.eqb_spec (cmp key (snd x)) 0); [lia|]. done.
Qed.

(** What a search position says of the sequence. *)
Lemma locate_top key t : D key -> tree_ok D (inorder t) -> let '(ctx, t') := locate key t [] in
  zip ctx t' = t /\ key_above key (before ctx) /\ key_below key (behind ctx) /\
  match t' with E => True | T _ _ _ k _ => cmp key k = 0 end.
Proof. intros Hkey Hok. apply (locate_ok key Hkey t []); [done|constructor|constructor]. Qed.
Lemma key_neq key a b : key_above key a -> key_below key b -> Forall (fun e => cmp key (snd e) <> 0) (a ++ b).
Proof. intros Ha Hb. apply Forall_app. split; (eapply List.Forall_impl; [|eassumption]); cbn; lia. Qed.
Lemma above_inner key a l y b : D key -> tree_ok D (a ++ l ++ y :: b) -> cmp key (snd y) = 0 -> key_above key a -> key_above key (a ++ l).
Proof.
  intros Hkey Hok Hy Ha. apply Forall_app. split; [done|]. rewrite app_assoc in Hok. apply sorted_app in Hok as (Hd & Hl & _).
  apply (cmp_eq (D := D)) in Hy as ->; [|done..]. rewrite Forall_app in Hl. eapply List.Forall_impl; [|apply Hl]. cbn. intros e [He Hlt].
  by apply (cmp_anti (D := D)).
Qed.

(** The functions on shapes act on the sequence as the list operations do. *)
Lemma rb_insert_ok t p key m : is_rb t BLACK m -> tree_ok D (inorder t) -> D key ->
  OrdTree.rbtree_insert (inorder t) (p, key) = inorder <$> rb_insert t p key /\
  (forall t', rb_insert t p key = Some t' -> exists m, is_rb t' BLACK m).
Proof.
  intros Hrb Hok Hkey. pose proof (locate_top key t Hkey Hok) as Hloc. unfold rb_insert. destruct (locate key t []) as [ctx t'].
  destruct Hloc as (Ez & Ha & Hb & Hk). subst t. rewrite inorder_zip in *. destruct t' as [|c l q k r].
  - assert (Hnew : is_rb (T RED E p key E) RED 0) by (constructor; constructor).
    destruct (unzip_rb ctx E m Hrb) as (pc & c & n & Hc & Ht & _). inversion Ht; subst. split.
    + cbn [app fmap option_fmap option_map]. rewrite inorder_dye, (inorder_fix_loop (S (length ctx))) by (done || lia). by apply insert_between.
    + intros t' [= <-]. eapply (fix_loop_rb (S (length ctx))); [lia|done|done].
  - split; [|done]. cbn [inorder fmap option_fmap option_map] in *.
    replace (before ctx ++ _ ++ behind ctx) with ((before ctx ++ inorder l) ++ (q, k) :: inorder r ++ behind ctx) in * by (by flat_lists).
    apply insert_found; [|done]. eapply above_inner; [done|by rewrite <- app_assoc in Hok|done|done].
Qed.
Lemma rb_delete_ok t key m : is_rb t BLACK m -> tree_ok D (inorder t) -> D key ->
  OrdTree.rbtree_delete (inorder t) key = (inorder (fst (rb_delete t key)), snd (rb_delete t key)) /\
  exists m, is_rb (fst (rb_delete t key)) BLACK m.
Proof.
  intros Hrb Hok Hkey. pose proof (locate_top key t Hkey Hok) as Hloc. unfold rb_delete. destruct (locate key t []) as [ctx t'].
  destruct Hloc as (Ez & Ha & Hb & Hk). subst t. destruct t' as [|c l q k r]; cbn [fst snd].
  - split; [|by exists m]. apply not_found. rewrite inorder_zip. by apply key_neq.
  - destruct (delete_at_ok ctx c l q k r m Hrb) as [Hk' ->]. split; [|done]. rewrite inorder_zip in *. cbn [inorder] in *.
    replace (before ctx ++ _ ++ behind ctx) with ((before ctx ++ inorder l) ++ (q, k) :: inorder r ++ behind ctx) in * by (by flat_lists).
    rewrite delete_found; [by flat_lists| |done]. eapply above_inner; [done|by rewrite <- app_assoc in Hok|done|done].
Qed.
Lemma rb_search_ok t key : tree_ok D (inorder t) -> D key ->
  OrdTree.rbtree_search (inorder t) key = match locate key t [] with (_, E) => None | (_, T _ _ p k _) => Some (p, k) end.
Proof.
  intros Hok Hkey. pose proof (locate_top key t Hkey Hok) as Hloc. destruct (locate key t []) as [ctx t'].
  destruct Hloc as (Ez & Ha & Hb & Hk). subst t. rewrite inorder_zip in *. destruct t' as [|c l q k r].
  - apply not_found. by apply key_neq.
  - cbn [inorder] in *.
    replace (before ctx ++ _ ++ behind ctx) with ((before ctx ++ inorder l) ++ (q, k) :: inorder r ++ behind ctx) in * by (by flat_lists).
    apply search_found; [|done]. eapply above_inner; [done|by rewrite <- app_assoc in Hok|done|done].
Qed.

(** The greatest entry that is not above the key. *)
Definition not_above (key : K) (l : list (ptr * K)) : list (ptr * K) := List.filter (fun e => 0 <=? cmp key (snd e)) l.
Lemma not_above_all key l : Forall (fun e => 0 < cmp key (snd e)) l -> not_above key l = l.
Proof. induction 1 as [|e l He Hl IH]; [done|]. cbn. destruct (Z.leb_spec 0 (cmp key (snd e))); [by f_equal|lia]. Qed.
Lemma not_above_none key l : key_below key l -> not_above key l = [].
Proof. induction 1 as [|e l He Hl IH]; [done|]. cbn. destruct (Z.leb_spec 0 (cmp key (snd e))); [lia|done]. Qed.
Definition floor_of (key : K) (l : list (ptr * K)) (best : option ptr) : option ptr :=
  match hd_error (rev (not_above key l)) with Some e => Some (fst e) | None => best end.
Lemma floor_of_app key a e b best : Forall (fun e => 0 < cmp key (snd e)) a -> 0 <= cmp key (snd e) ->
  floor_of key (a ++ e :: b) best = floor_of key b (Some (fst e)).
Proof.
  intros Ha He. unfold floor_of, not_above. rewrite filter_app. fold (not_above key a). rewrite not_above_all by done. cbn [List.filter].
  destruct (Z.leb_spec 0 (cmp key (snd e))); [|lia]. fold (not_above key b). rewrite rev_app_distr. cbn [rev]. by destruct (rev (not_above key b)).
Qed.
Lemma floor_of_skip key a b best : key_below key b -> floor_of key (a ++ b) best = floor_of key a best.
Proof. intros Hb. unfold floor_of, not_above. rewrite filter_app. fold (not_above key b). rewrite not_above_none by done. by rewrite app_nil_r. Qed.
Lemma tree_ok_app (a b : list (ptr * K)) : tree_ok D (a ++ b) -> tree_ok D a /\ tree_ok D b.
Proof.
  induction a as [|x a IH]; cbn [app]; intros Hok; [split; [apply tree_ok_nil|done]|]. apply tree_ok_cons in Hok as (Hx & Hok & Hlt).
  destruct (IH Hok) as [Ha Hb]. split; [|done]. apply tree_ok_cons. rewrite Forall_app in Hlt. tauto.
Qed.
Lemma find_le_ok key : D key -> forall t best, tree_ok D (inorder t) -> snd (find_le key t best) = floor_of key (inorder t) best.
Proof.
  intros Hkey t. induction t as [|c l IHl p k r IHr]; intros best Hok; [done|].
  pose proof (sorted_app (inorder l) (inorder r) (p, k) Hok) as (Hk & Hl & Hr). cbn [snd] in Hk, Hl, Hr.
  destruct (tree_ok_app (inorder l) ((p, k) :: inorder r) Hok) as [Hokl Hokr]. apply tree_ok_cons in Hokr as (_ & Hokr & _).
  assert (Hbelow : cmp key k <= 0 -> key_below key (inorder r)).
  { intros Hle. eapply List.Forall_impl; [|exact Hr]. cbn. intros e [He Hlt]. destruct (Z.eq_dec (cmp key k) 0) as [E0|].
    - apply (cmp_eq (D := D)) in E0 as ->; done.
    - eapply (cmp_trans (D := D) key k); [done..|lia|done]. }
  assert (Habove : 0 <= cmp key k -> Forall (fun e => 0 < cmp key (snd e)) (inorder l)).
  { intros Hge. eapply List.Forall_impl; [|exact Hl]. cbn. intros e [He Hlt]. apply (cmp_anti (D := D)); [done..|].
    destruct (Z.eq_dec (cmp key k) 0) as [E0|]; [by apply (cmp_eq (D := D)) in E0 as ->|].
    eapply (cmp_trans (D := D) _ k key); [done..|]. apply (cmp_anti (D := D)); [done..|lia]. }
  cbn [find_le inorder]. destruct (Z.eqb_spec (cmp key k) 0) as [E0|E0]; [|destruct (Z.ltb_spec (cmp key k) 0)].
  - rewrite floor_of_app by (try apply Habove; cbn; lia). unfold floor_of. by rewrite not_above_none by (apply Hbelow; lia).
  - rewrite IHl by done. symmetry. apply floor_of_skip. constructor; [done|apply Hbelow; lia].
  - rewrite IHr by done. rewrite floor_of_app; [done|apply Habove; lia|cbn; lia].
Qed.
End Keys.
