(* ===== verification/RbHeap.v ===== *)
(** The pointer code of the red-black tree, in separation logic: each function run on a
    heap that holds a shape does to the shape what the function of RbShape does.

    The logic is Iris's; [wp m Q] says that the computation [m] is defined on every heap
    and keeps its domain and ends with [Q] for what it owns.  Ownership of the nodes of a shape gives the
    frame conditions: disjoint subtrees are untouched and pointers to them differ. *)
From iris.proofmode Require Import proofmode.
From iris.base_logic.lib Require Import gen_heap.
From stdpp Require Import base list numbers gmap.
From Stdlib Require Import ZArith Lia.
From S2P Require Import Prelude OrdTree RbTree RbShape.
Open Scope Z_scope.
Set Warnings "-rewrite-rw".
Notation "l ↦ dq v" := (pointsto l dq v) (at level 20, dq custom dfrac at level 1, format "l  ↦ dq  v") : bi_scope.

(** ** Weakest preconditions *)
Section Wp.
Context {K : Type} {Σ : gFunctors} `{!gen_heapGS ptr (rbnode K) Σ}.
#[local] Abbreviation M := (M (K := K)).

Definition wp {A} (m : M A) (Φ : A -> iProp Σ) : iProp Σ :=
  ∀ h : gmap ptr (rbnode K), gen_heap_interp h ==∗ ∃ a (h' : gmap ptr (rbnode K)), ⌜m h = Ok (a, h') /\ dom h' = dom h⌝ ∗ gen_heap_interp h' ∗ Φ a.

Lemma wp_ret {A} (a : A) (Φ : A -> iProp Σ) : Φ a -∗ wp (ret a) Φ.
Proof. iIntros "H" (h) "Hh". iModIntro. iExists a, h. by iFrame. Qed.
Lemma wp_bind {A B} (m : M A) (k : A -> M B) (Φ : B -> iProp Σ) : wp m (λ a, wp (k a) Φ) -∗ wp (bind m k) Φ.
Proof.
  iIntros "H" (h) "Hh". iMod ("H" with "Hh") as (a h') "([%E %Ed] & Hh & H)". iMod ("H" with "Hh") as (b h2) "([%E2 %Ed2] & Hh & H)".
  iModIntro. iExists b, h2. iFrame. iPureIntro. split; [unfold bind; by rewrite E|by rewrite Ed2].
Qed.
Lemma wp_mono {A} (m : M A) (Φ Ψ : A -> iProp Σ) : wp m Φ -∗ (∀ a, Φ a -∗ Ψ a) -∗ wp m Ψ.
Proof.
  iIntros "H HΨ" (h) "Hh". iMod ("H" with "Hh") as (a h') "(%E & Hh & H)". iModIntro. iExists a, h'. iFrame.
  iSplit; [done|]. by iApply "HΨ".
Qed.
Lemma wp_read p (n : rbnode K) dq (Φ : rbnode K -> iProp Σ) : p ↦{dq} n -∗ (p ↦{dq} n -∗ Φ n) -∗ wp (read p) Φ.
Proof.
  iIntros "Hp HΦ" (h) "Hh". iDestruct (gen_heap_valid with "Hh Hp") as %E. iModIntro. iExists n, h. iFrame.
  iSplit; [iPureIntro; unfold read; by rewrite E|]. by iApply "HΦ".
Qed.
Lemma wp_modify p (n : rbnode K) f (Φ : unit -> iProp Σ) : p ↦ n -∗ (p ↦ f n -∗ Φ tt) -∗ wp (modify p f) Φ.
Proof.
  iIntros "Hp HΦ" (h) "Hh". iDestruct (gen_heap_valid with "Hh Hp") as %E. iMod (gen_heap_update _ _ _ (f n) with "Hh Hp") as "[Hh Hp]".
  iModIntro. iExists tt, _. iFrame. iSplit; [iPureIntro; unfold modify; rewrite E; split; [done|]; apply (dom_insert_lookup_L (M := gmap ptr)); by exists n|]. by iApply "HΦ".
Qed.
Lemma wp_paint p (n : rbnode K) c (Φ : unit -> iProp Σ) : p ↦ n -∗ (p ↦ set_color c n -∗ Φ tt) -∗ wp (paint p c) Φ.
Proof. apply wp_modify. Qed.
Lemma wp_color p (n : rbnode K) dq (Φ : rbcolor -> iProp Σ) : p ↦{dq} n -∗ (p ↦{dq} n -∗ Φ (rb_color n)) -∗ wp (color_of p) Φ.
Proof. iIntros "Hp HΦ". iApply wp_bind. iApply (wp_read with "Hp"). iIntros "Hp". iApply wp_ret. by iApply "HΦ". Qed.
End Wp.

(** One step of a computation. *)
Ltac rd H := iApply wp_bind; iApply (wp_read with H); iIntros H.
Ltac wr H := iApply wp_bind; iApply (wp_modify with H); iIntros H.

(** ** Owning shapes *)
Section Own.
Context {K : Type} {Σ : gFunctors} `{!gen_heapGS ptr (rbnode K) Σ}.
#[local] Abbreviation M := (M (K := K)).
Implicit Types (t s : tree (K := K)) (ctx : list (frame (K := K))).

(** A node whose child on side [d] is [a]. *)
Definition nd (d : side) (par a b : ptr) (k : K) (c : rbcolor) : rbnode K :=
  match d with L => mkNode par a b k c | R => mkNode par b a k c end.

Fixpoint tree_own (par : ptr) t : iProp Σ :=
  match t with
  | E => emp
  | T c l p k r => p ↦ mkNode par (root l) (root r) k c ∗ tree_own p l ∗ tree_own p r
  end.
(** Everything above a position; [q] is the node there, [rt] the root of the tree. *)
Fixpoint ctx_own (rt : ptr) ctx (q : ptr) : iProp Σ :=
  match ctx with
  | [] => ⌜rt = q⌝
  | F d c p k s :: ctx' => p ↦ nd d (ctx_parent ctx') q (root s) k c ∗ tree_own p s ∗ ctx_own rt ctx' p
  end.
(** The sentinel. *)
Definition sent : iProp Σ := ∃ k : K, RBTREE_NULL ↦□ null_node k.
#[global] Instance sent_persistent : Persistent sent.
Proof. apply _. Qed.

Lemma nd_child d par a b k c : child d (nd d par a b k c) = a.
Proof. by destruct d. Qed.
Lemma nd_opp d par a b k c : child (opp d) (nd d par a b k c) = b.
Proof. by destruct d. Qed.
Lemma nd_set_child d par a b k c q : set_child d q (nd d par a b k c) = nd d par q b k c.
Proof. by destruct d. Qed.
Lemma nd_set_opp d par a b k c q : set_child (opp d) q (nd d par a b k c) = nd d par a q k c.
Proof. by destruct d. Qed.
Lemma nd_set_parent d par a b k c q : set_parent q (nd d par a b k c) = nd d q a b k c.
Proof. by destruct d. Qed.
Lemma nd_set_color d par a b k c c' : set_color c' (nd d par a b k c) = nd d par a b k c'.
Proof. by destruct d. Qed.
Lemma nd_parent d par a b k c : rb_parent (nd d par a b k c) = par.
Proof. by destruct d. Qed.
Lemma nd_color d par a b k c : rb_color (nd d par a b k c) = c.
Proof. by destruct d. Qed.
Lemma nd_key d par a b k c : rb_key (nd d par a b k c) = k.
Proof. by destruct d. Qed.

Lemma tree_own_mk d par c a p k b : tree_own par (mk d c a p k b) ⊣⊢ p ↦ nd d par (root a) (root b) k c ∗ tree_own p a ∗ tree_own p b.
Proof. destruct d; cbn [mk tree_own nd]; [done|]. iSplit; iIntros "(H1 & H2 & H3)"; iFrame. Qed.
Lemma zip_own ctx : forall t, tree_own RBTREE_NULL (zip ctx t) ⊣⊢ ctx_own (root (zip ctx t)) ctx (root t) ∗ tree_own (ctx_parent ctx) t.
Proof.
  induction ctx as [|[d c p k s] ctx IH]; intros t; cbn [zip ctx_own ctx_parent].
  - iSplit; [iIntros "H"; by iFrame|iIntros "[_ H]"; iFrame].
  - rewrite IH tree_own_mk root_mk. iSplit; [iIntros "(H1 & H2 & H3 & H4)"|iIntros "((H1 & H2 & H3) & H4)"]; iFrame.
Qed.

Lemma not_null p n : sent -∗ p ↦ n -∗ ⌜p <> RBTREE_NULL⌝.
Proof. iIntros "[%k Hs] Hp" (->). iDestruct (pointsto_ne with "Hp Hs") as %Hne. done. Qed.
Lemma root_ne par t p n : sent -∗ tree_own par t -∗ p ↦ n -∗ ⌜root t <> p⌝.
Proof.
  iIntros "#Hs Ht Hp". destruct t as [|c l q k r]; cbn [root].
  - iDestruct (not_null with "Hs Hp") as %Hne. iPureIntro. congruence.
  - iDestruct "Ht" as "(Hq & _)". iIntros (->). iDestruct (pointsto_ne with "Hq Hp") as %Hne. done.
Qed.
Lemma root_null par t : sent -∗ tree_own par t -∗ ⌜root t = RBTREE_NULL <-> t = E⌝.
Proof.
  iIntros "#Hs Ht". destruct t as [|c l q k r]; [done|]. iDestruct "Ht" as "(Hq & _)".
  iDestruct (not_null with "Hs Hq") as %Hne. iPureIntro. by split.
Qed.
Lemma ctx_null rt ctx q : sent -∗ ctx_own rt ctx q -∗ ⌜ctx_parent ctx = RBTREE_NULL <-> ctx = []⌝.
Proof.
  iIntros "#Hs Hc". destruct ctx as [|[d c p k s] ctx]; [done|]. iDestruct "Hc" as "(Hq & _)".
  iDestruct (not_null with "Hs Hq") as %Hne. iPureIntro. by split.
Qed.

(** Reading the color of a subtree, the sentinel included. *)
Lemma wp_root_color par t (Φ : rbcolor -> iProp Σ) : sent -∗ tree_own par t -∗ (tree_own par t -∗ Φ (color t)) -∗ wp (color_of (root t)) Φ.
Proof.
  iIntros "#Hs Ht HΦ". destruct t as [|c l p k r]; cbn [root color tree_own].
  - iDestruct "Hs" as (k) "Hs". iApply (wp_color with "Hs"). iIntros "_". by iApply "HΦ".
  - iDestruct "Ht" as "(Hp & H)". iApply (wp_color with "Hp"). iIntros "Hp". iApply "HΦ". iFrame.
Qed.
(** Painting a subtree. *)
Lemma wp_root_paint par t c (Φ : unit -> iProp Σ) : t <> E -> tree_own par t -∗ (tree_own par (dye c t) -∗ Φ tt) -∗ wp (paint (root t) c) Φ.
Proof.
  iIntros (Ht) "Ht HΦ". destruct t as [|c0 l p k r]; [done|]. cbn [root tree_own dye]. iDestruct "Ht" as "(Hp & H)".
  iApply (wp_paint with "Hp"). iIntros "Hp". iApply "HΦ". iFrame.
Qed.
Lemma wp_reparent x y t (Φ : unit -> iProp Σ) : sent -∗ tree_own x t -∗ (tree_own y t -∗ Φ tt) -∗
  wp (if (root t =? RBTREE_NULL)%nat then ret tt else modify (root t) (set_parent y)) Φ.
Proof.
  iIntros "#Hs Ht HΦ". destruct t as [|c0 l p k r]; cbn [root tree_own].
  - iApply wp_ret. by iApply "HΦ".
  - iDestruct "Ht" as "(Hp & H)". iDestruct (not_null with "Hs Hp") as %Hne. rewrite (proj2 (Nat.eqb_neq _ _) Hne).
    iApply (wp_modify with "Hp"). iIntros "Hp". iApply "HΦ". iFrame.
Qed.

(** ** Rotation *)
Definition relink (d : side) (t : rbtree) (node up parent : ptr) : M rbtree :=
  if (parent =? RBTREE_NULL)%nat then ret (set_root up t)
  else
    bind (read parent) (fun p =>
    bind (modify parent (set_child (if (node =? child d p)%nat then d else opp d) up)) (fun _ => ret t)).
Lemma wp_relink d rt n ctx x y nx (Φ : rbtree -> iProp Σ) : sent -∗ ctx_own rt ctx x -∗ x ↦ nx -∗
  (∀ rt', ctx_own rt' ctx y -∗ x ↦ nx -∗ Φ (mkTree rt' n)) -∗ wp (relink d (mkTree rt n) x y (ctx_parent ctx)) Φ.
Proof.
  iIntros "#Hs Hc Hx HΦ". unfold relink. iDestruct (ctx_null with "Hs Hc") as %Hnull. destruct ctx as [|[d' c p k s] ctx].
  - cbn. iApply wp_ret. iApply ("HΦ" with "[] Hx"). done.
  - cbn [ctx_parent] in *. assert (Hp : (p =? RBTREE_NULL)%nat = false) by (apply Nat.eqb_neq; intros E0; by apply Hnull in E0).
    rewrite Hp.
    iDestruct "Hc" as "(Hp & Ht & Hc)". iDestruct (root_ne with "Hs Ht Hx") as %Hne. rd "Hp". wr "Hp". iApply wp_ret.
    iApply ("HΦ" with "[Hp Ht Hc] Hx"). cbn [ctx_own]. iFrame "Ht Hc".
    assert (Hx : (x =? root s)%nat = false) by (apply Nat.eqb_neq; by apply not_eq_sym).
    destruct d, d'; cbn [nd child rb_left rb_right set_child opp]; rewrite ?Nat.eqb_refl ?Hx; iFrame "Hp".
Qed.

Lemma wp_rotate d rt n ctx cx cy a b e x kx y ky (Φ : rbtree -> iProp Σ) :
  sent -∗ ctx_own rt ctx x -∗ tree_own (ctx_parent ctx) (mk d cx a x kx (mk d cy b y ky e)) -∗
  (∀ rt', ctx_own rt' ctx y -∗ tree_own (ctx_parent ctx) (mk d cy (mk d cx a x kx b) y ky e) -∗ Φ (mkTree rt' n)) -∗
  wp (rotate d (mkTree rt n) x) Φ.
Proof.
  iIntros "#Hs Hc Ht HΦ". rewrite !tree_own_mk !root_mk. iDestruct "Ht" as "(Hx & Ha & Hy & Hb & He)".
  unfold rotate. rd "Hx". rewrite nd_opp. rd "Hy". rewrite nd_child. wr "Hx". rewrite nd_set_opp.
  iApply wp_bind. iApply (wp_reparent with "Hs Hb"). iIntros "Hb". rd "Hx". rewrite nd_parent. wr "Hy". rewrite nd_set_parent.
  iApply wp_bind. change (if (ctx_parent ctx =? RBTREE_NULL)%nat then _ else _) with (relink d (mkTree rt n) x y (ctx_parent ctx)).
  iApply (wp_relink with "Hs Hc Hx"). iIntros (rt') "Hc Hx". wr "Hy". rewrite nd_set_child. wr "Hx". rewrite nd_set_parent.
  iApply wp_ret. iApply ("HΦ" with "Hc"). rewrite !tree_own_mk !root_mk. iFrame.
Qed.

(** ** Insertion *)
Lemma rotate_to_eq d : rotate_to (K := K) d = rotate d.
Proof. by destruct d. Qed.
Lemma ctx_root_ne rt f ctx q y n : ctx_own rt (f :: ctx) q -∗ y ↦ n -∗ ⌜rt <> y⌝.
Proof.
  iIntros "Hc Hy". iInduction ctx as [|f2 ctx] "IH" forall (f q); destruct f as [d c p k s]; iDestruct "Hc" as "(Hp & _ & Hc)".
  - iDestruct "Hc" as %->. iDestruct (pointsto_ne with "Hp Hy") as %Hne. done.
  - iApply ("IH" with "Hc Hy").
Qed.
Lemma ctx_root rt ctx : forall t, ctx_own rt ctx (root t) -∗ ⌜rt = root (zip ctx t)⌝.
Proof.
  induction ctx as [|[d c p k s] ctx IH]; iIntros (t) "Hc"; [by iDestruct "Hc" as %->|]. iDestruct "Hc" as "(Hp & Hs & Hc)".
  cbn [zip]. iApply IH. by rewrite root_mk.
Qed.
Lemma tree_own_T par t : t <> E -> tree_own par t ⊣⊢ ∃ c l k r, ⌜t = T c l (root t) k r⌝ ∗
  root t ↦ mkNode par (root l) (root r) k c ∗ tree_own (root t) l ∗ tree_own (root t) r.
Proof.
  intros Ht. destruct t as [|c l p k r]; [done|]. cbn [root tree_own]. iSplit.
  - iIntros "H". iExists c, l, k, r. by iFrame.
  - iIntros "(%c' & %l' & %k' & %r' & %Heq & H)". injection Heq as -> -> -> ->. iFrame.
Qed.

Lemma wp_insert_round d p pk s d2 gc g gk u ctx t rt n (Φ : rbtree * ptr -> iProp Σ) : t <> E -> color t = RED ->
  sent -∗ ctx_own rt (F d RED p pk s :: F d2 gc g gk u :: ctx) (root t) -∗ tree_own p t -∗
  (∀ rt', let '(ctx', t') := round d p pk s d2 g gk u ctx t in
     ctx_own rt' ctx' (root t') -∗ tree_own (ctx_parent ctx') t' -∗ Φ (mkTree rt' n, root t')) -∗
  wp (insert_round d2 (mkTree rt n) (root t)) Φ.
Proof.
  iIntros (Ht Hcol) "#Hs Hc Ht HΦ". cbn [ctx_own ctx_parent]. iDestruct "Hc" as "(Hp & Hsib & Hg & Hu & Hc)".
  destruct t as [|tc l x xk r]; [done|]. cbn [color] in Hcol. subst tc. cbn [root tree_own]. iDestruct "Ht" as "(Hx & Hl & Hr)".
  unfold insert_round. rd "Hx". cbn [rb_parent]. rd "Hp". rewrite nd_parent. rd "Hg". rewrite nd_opp.
  iApply wp_bind. iApply (wp_root_color with "Hs Hu"). iIntros "Hu". unfold round. destruct (color u) eqn:Hcu.
  - (* black uncle *)
    iDestruct (root_ne with "Hs Hsib Hx") as %Hne. assert (Hnx : (x =? root s)%nat = false) by (apply Nat.eqb_neq; by apply not_eq_sym).
    destruct (bool_decide_reflect (d = d2)) as [->|Hd].
    + rewrite nd_opp Hnx. iApply wp_bind. iApply wp_ret. rd "Hx". cbn [rb_parent]. iApply wp_bind. iApply (wp_paint with "Hp"). iIntros "Hp".
      rewrite nd_set_color. rd "Hp". rewrite nd_parent. iApply wp_bind. iApply (wp_paint with "Hg"). iIntros "Hg". rewrite nd_set_color.
      iApply wp_bind. rewrite rotate_to_eq.
      iApply (wp_rotate (opp d2) rt n ctx RED BLACK u s (T RED l x xk r) g gk p pk with "Hs Hc [Hg Hu Hp Hsib Hx Hl Hr]").
      { rewrite !mk_opp !tree_own_mk !root_mk. iFrame. }
      iIntros (rt') "Hc Ht". rewrite !mk_opp. iApply wp_ret. rewrite !tree_own_mk !root_mk.
      iDestruct "Ht" as "(Hp & Ht & Hg & Hs1 & Hu)". iApply ("HΦ" with "[Hp Hg Hs1 Hu Hc] Ht").
      cbn [ctx_own]. rewrite !tree_own_mk !root_mk. iFrame.
    + assert (Hdo : d = opp d2) by (by destruct d, d2). subst d.
      assert (Hin : child (opp d2) (nd (opp d2) g x (root s) pk RED) = x) by (by destruct d2). rewrite Hin Nat.eqb_refl.
      iApply wp_bind. iApply wp_bind. rewrite rotate_to_eq.
      destruct (match d2 with L => (l, r) | R => (r, l) end) as [near far] eqn:Hnf.
      assert (Etr : T RED l x xk r = mk d2 RED near x xk far) by (destruct d2; injection Hnf as <- <-; done).
      iApply (wp_rotate d2 rt n (F d2 gc g gk u :: ctx) RED RED s near far p pk x xk with "Hs [Hg Hu Hc] [Hp Hsib Hx Hl Hr]").
      { cbn [ctx_own]. iFrame. }
      { cbn [ctx_parent]. rewrite -Etr -mk_opp tree_own_mk. cbn [root tree_own]. iFrame. }
      iIntros (rt') "Hc Ht". iApply wp_ret. cbn beta iota. cbn [ctx_own ctx_parent]. iDestruct "Hc" as "(Hg & Hu & Hc)".
      iEval (rewrite !tree_own_mk !root_mk) in "Ht". iDestruct "Ht" as "(Hx & (Hp & Hsib & Hn) & Hf)".
      rd "Hp". rewrite nd_parent. iApply wp_bind. iApply (wp_paint with "Hx"). iIntros "Hx". rewrite nd_set_color.
      rd "Hx". rewrite nd_parent. iApply wp_bind. iApply (wp_paint with "Hg"). iIntros "Hg". rewrite nd_set_color.
      iApply wp_bind. rewrite rotate_to_eq.
      iApply (wp_rotate (opp d2) rt' n ctx RED BLACK u far (mk d2 RED s p pk near) g gk x xk with "Hs Hc [Hg Hu Hp Hsib Hx Hn Hf]").
      { rewrite !mk_opp !tree_own_mk !root_mk. iFrame. }
      iIntros (rt2) "Hc Ht". rewrite !mk_opp. iApply wp_ret. rewrite !(tree_own_mk d2 (ctx_parent ctx)) !root_mk.
      iDestruct "Ht" as "(Hx & Ht & Hg)". iSpecialize ("HΦ" $! rt2). rewrite ?root_mk. iApply ("HΦ" with "[Hx Hg Hc] Ht").
      cbn [ctx_own]. rewrite ?root_mk. iFrame.
  - (* red uncle *)
    assert (Hu : u <> E) by (by intros ->).
    iApply wp_bind. iApply (wp_paint with "Hp"). iIntros "Hp". rewrite nd_set_color. iApply wp_bind.
    iApply (wp_root_paint with "Hu"); [done|]. iIntros "Hu". iApply wp_bind. iApply (wp_paint with "Hg"). iIntros "Hg". rewrite nd_set_color.
    iApply wp_ret. iSpecialize ("HΦ" $! rt). rewrite ?root_mk. iApply ("HΦ" with "Hc").
    rewrite !tree_own_mk !root_mk root_dye. cbn [root tree_own]. iFrame.
Qed.

(** The loop ends at the root and below a black node. *)
Definition settled ctx : Prop := match ctx with F _ RED _ _ _ :: _ => False | _ => True end.
Lemma zip_settled ctx t : settled ctx -> fix_loop ctx t = zip ctx t.
Proof. by destruct ctx as [|[d [] p pk s] ctx]. Qed.
Lemma round_settled d p pk s d2 g gk u ctx t : t <> E -> color u = BLACK -> settled (fst (round d p pk s d2 g gk u ctx t)).
Proof.
  intros Ht Hu. unfold round. rewrite Hu. destruct (bool_decide (d = d2)); [done|]. destruct t as [|c l x xk r]; [done|]. by destruct d2.
Qed.

Lemma wp_insert_settled fuel ctx t rt n (Φ : rbtree -> iProp Σ) : settled ctx -> t <> E ->
  ctx_own rt ctx (root t) -∗ tree_own (ctx_parent ctx) t -∗
  (ctx_own rt ctx (root t) -∗ tree_own (ctx_parent ctx) t -∗ Φ (mkTree rt n)) -∗
  wp (insert_loop fuel (mkTree rt n) (root t)) Φ.
Proof.
  iIntros (Hset Ht) "Hc Ht HΦ". destruct ctx as [|[d [] p pk s] ctx]; [| |done].
  - iDestruct "Hc" as %->. destruct fuel; cbn [insert_loop rb_root]; rewrite Nat.eqb_refl; iApply wp_ret; by iApply ("HΦ" with "[] Ht").
  - rewrite (tree_own_T _ t Ht). iDestruct "Ht" as (c l k r) "(%Et & Ht & Hl & Hr)".
    iDestruct (ctx_root_ne with "Hc Ht") as %Hne. assert (Hnr : (root t =? rt)%nat = false) by (apply Nat.eqb_neq; by apply not_eq_sym).
    cbn [ctx_own ctx_parent]. iDestruct "Hc" as "(Hp & Hc)".
    destruct fuel; cbn [insert_loop rb_root]; rewrite Hnr; rd "Ht"; cbn [rb_parent]; iApply wp_bind; iApply (wp_color with "Hp"); iIntros "Hp";
      rewrite nd_color; iApply wp_ret; iApply ("HΦ" with "[Hp Hc]"); iFrame; by iPureIntro.
Qed.

Lemma wp_insert_loop fuel : forall ctx t pc m rt n (Φ : rbtree -> iProp Σ), is_rb t RED m -> rb_ctx ctx pc m -> (length ctx <= fuel)%nat ->
  sent -∗ ctx_own rt ctx (root t) -∗ tree_own (ctx_parent ctx) t -∗
  (tree_own RBTREE_NULL (fix_loop ctx t) -∗ Φ (mkTree (root (fix_loop ctx t)) n)) -∗
  wp (insert_loop fuel (mkTree rt n) (root t)) Φ.
Proof.
  assert (Hdone : forall ctx t rt n (Φ : rbtree -> iProp Σ), settled ctx -> ctx_own rt ctx (root t) -∗ tree_own (ctx_parent ctx) t -∗
    (tree_own RBTREE_NULL (fix_loop ctx t) -∗ Φ (mkTree (root (fix_loop ctx t)) n)) -∗ Φ (mkTree rt n)).
  { iIntros (ctx t rt n Φ Hset) "Hc Ht HΦ". rewrite zip_settled; [|done]. iDestruct (ctx_root with "Hc") as %->.
    iApply "HΦ". rewrite zip_own. iFrame. }
  induction fuel as [|fuel IH]; iIntros (ctx t pc m rt n Φ Ht Hc Hl) "#Hs Hc Ht HΦ".
  - assert (Hne : t <> E) by (intros ->; inversion Ht). destruct ctx; [|cbn in Hl; lia].
    iApply (wp_insert_settled with "Hc Ht"); [done|done|]. iIntros "Hc Ht". iApply (Hdone with "Hc Ht HΦ"). done.
  - assert (Hne : t <> E) by (intros ->; inversion Ht). assert (Hset : settled ctx \/ exists d p pk s d2 g gk u ctx2,
      ctx = F d RED p pk s :: F d2 BLACK g gk u :: ctx2).
    { inversion Hc as [|d p pk s ctx1 n1 Hs1 Hc1|]; subst; [by left| |by left]. inversion Hc1; subst. right. by do 9 eexists. }
    destruct Hset as [Hset|(d & p & pk & s & d2 & g & gk & u & ctx2 & ->)].
    { iApply (wp_insert_settled with "Hc Ht"); [done|done|]. iIntros "Hc Ht". iApply (Hdone with "Hc Ht HΦ"). done. }
    inversion Hc as [|? ? ? ? ? ? Hs1 Hc1|]; subst. inversion Hc1 as [| |? ? ? ? ? c2 cu ? Hu Hc2]; subst.
    iEval (rewrite (tree_own_T _ t Hne)) in "Ht". iDestruct "Ht" as (c l k r) "(%Et & Hx & Hl & Hr)".
    iDestruct (ctx_root_ne with "Hc Hx") as %Hroot. assert (Hnr : (root t =? rt)%nat = false) by (apply Nat.eqb_neq; by apply not_eq_sym).
    cbn [insert_loop rb_root]. rewrite Hnr. rd "Hx". cbn [rb_parent ctx_parent].
    iDestruct "Hc" as "(Hp & Hsib & Hg & Hu & Hc)". iDestruct (root_ne with "Hs Hu Hp") as %Hup.
    iApply wp_bind. iApply (wp_color with "Hp"). iIntros "Hp". rewrite nd_color. rd "Hp". rewrite nd_parent. rd "Hg".
    assert (Hside : (if (p =? rb_left (nd d2 (ctx_parent ctx2) p (root u) gk BLACK))%nat then L else R) = d2).
    { destruct d2; cbn; [by rewrite Nat.eqb_refl|]. by rewrite (proj2 (Nat.eqb_neq _ _) (not_eq_sym Hup)). }
    rewrite Hside. iApply wp_bind.
    iApply (wp_insert_round d p pk s d2 BLACK g gk u ctx2 t rt n with "Hs [Hp Hsib Hg Hu Hc] [Hx Hl Hr]"); [done|by eapply rb_color_of|..].
    { cbn [ctx_own ctx_parent]. iFrame. }
    { rewrite (tree_own_T _ t Hne). iExists c, l, k, r. iSplit; [by iPureIntro|]. iFrame "Hx Hl Hr". }
    iIntros (rt'). rewrite fix_loop_round. destruct (round d p pk s d2 g gk u ctx2 t) as [ctx' t'] eqn:Er. iIntros "Hc Ht". cbn [fst snd].
    destruct (color u) eqn:Hcu.
    + pose proof (round_settled d p pk s d2 g gk u ctx2 t Hne Hcu) as Hset. rewrite Er in Hset.
      iApply (wp_insert_settled with "Hc Ht"); [done| |].
      { unfold round in Er. rewrite Hcu in Er. destruct (bool_decide (d = d2)); [by injection Er as <- <-|].
        destruct t as [|? ? x xk ?]; [done|]. destruct d2; by injection Er as <- <-. }
      iIntros "Hc Ht". iApply (Hdone with "Hc Ht HΦ"). done.
    + unfold round in Er. rewrite Hcu in Er. injection Er as <- <-. rewrite (rb_color_of _ _ _ Hu) in Hcu. subst cu.
      iApply (IH with "Hs Hc Ht HΦ"); [|exact Hc2|cbn [length] in Hl; lia].
      apply rb_mk_red; [by eapply rb_mk_black|by apply rb_dye_black].
Qed.

Definition hole_side ctx : side := match ctx with [] => R | F d _ _ _ _ :: _ => d end.
Lemma wp_find_parent cmp fuel key : forall t ctx rt (Φ : option (ptr * side) -> iProp Σ), (height t <= fuel)%nat ->
  sent -∗ ctx_own rt ctx (root t) -∗ tree_own (ctx_parent ctx) t -∗
  (let '(ctx', t') := locate cmp key t ctx in ctx_own rt ctx' (root t') -∗ tree_own (ctx_parent ctx') t' -∗
     Φ (match t' with E => Some (ctx_parent ctx', hole_side ctx') | T _ _ _ _ _ => None end)) -∗
  wp (find_parent cmp fuel key (root t) (ctx_parent ctx) (hole_side ctx)) Φ.
Proof.
  induction fuel as [|fuel IH]; iIntros (t ctx rt Φ Hh) "#Hs Hc Ht HΦ"; (destruct t as [|c l p k r]; [|try (cbn in Hh; lia)]).
  1,2: cbn [find_parent root locate]; iApply wp_ret; iApply ("HΦ" with "Hc Ht").
  cbn [height] in Hh. cbn [root tree_own locate find_parent]. iDestruct "Ht" as "(Hp & Hl & Hr)".
  iDestruct (not_null with "Hs Hp") as %Hnull. rewrite (proj2 (Nat.eqb_neq _ _) Hnull). rd "Hp". cbn [rb_key].
  destruct (cmp key k =? 0); [iApply wp_ret; iApply ("HΦ" with "Hc"); iFrame|]. destruct (cmp key k <? 0).
  - iApply (IH l (F L c p k r :: ctx) with "Hs [Hp Hr Hc] Hl HΦ"); [lia|]. cbn [ctx_own nd]. iFrame.
  - iApply (IH r (F R c p k l :: ctx) with "Hs [Hp Hl Hc] Hr HΦ"); [lia|]. cbn [ctx_own nd]. iFrame.
Qed.

Lemma wp_insert cmp fuel t x nx m n (Φ : option ptr * rbtree -> iProp Σ) : is_rb t BLACK m -> (height t <= fuel)%nat ->
  sent -∗ tree_own RBTREE_NULL t -∗ x ↦ nx -∗
  match rb_insert cmp t x (rb_key nx) with
  | Some t' => tree_own RBTREE_NULL t' -∗ Φ (Some x, mkTree (root t') (u64 (n + 1)))
  | None => tree_own RBTREE_NULL t -∗ x ↦ nx -∗ Φ (None, mkTree (root t) n)
  end -∗
  wp (rbtree_insert cmp fuel (mkTree (root t) n) x) Φ.
Proof.
  iIntros (Hrb Hh) "#Hs Ht Hx HΦ". unfold rbtree_insert, rb_insert. rd "Hx". iApply wp_bind. cbn [rb_root rb_count].
  pose proof (locate_zip cmp (rb_key nx) t []) as Ez.
  iApply (wp_find_parent cmp fuel (rb_key nx) t [] (root t) with "Hs [] Ht"); [done|by iPureIntro|].
  destruct (locate cmp (rb_key nx) t []) as [ctx t']. cbn [zip] in Ez. iIntros "Hc Ht". destruct t' as [|c l p k r].
  2: { iApply wp_ret. iApply ("HΦ" with "[Hc Ht] Hx"). rewrite -Ez zip_own. iFrame. }
  wr "Hx". set (new := T RED E x (rb_key nx) E). iApply wp_bind.
  assert (Hctx : exists pc, rb_ctx ctx pc 0) by (rewrite -Ez in Hrb; destruct (unzip_rb ctx E m Hrb) as (pc & c & k & Hc & HE & _); inversion HE; subst; eauto).
  destruct Hctx as [pc Hctx]. assert (Hnew : is_rb new RED 0) by (constructor; constructor).
  assert (Hlen : (length ctx <= fuel)%nat) by (pose proof (height_zip ctx E); rewrite Ez in H; lia).
  iAssert (∀ rt', ctx_own rt' ctx x -∗ x ↦ mkNode (ctx_parent ctx) RBTREE_NULL RBTREE_NULL (rb_key nx) RED -∗
    wp (bind (rbtree_insert_fixup fuel (mkTree rt' (u64 (n + 1))) x) (fun tr => ret (Some x, tr))) Φ)%I with "[HΦ]" as "Hfix".
  { iIntros (rt') "Hc Hx". iApply wp_bind. unfold rbtree_insert_fixup. iApply wp_bind.
    iApply (wp_insert_loop fuel ctx new pc 0 rt' with "Hs Hc [Hx]"); [done|done|done|cbn [new tree_own root]; by iFrame|].
    iIntros "Ht". cbn [rb_root]. iApply wp_bind. iApply (wp_root_paint with "Ht").
    { intros E0. pose proof (inorder_fix_loop (S (length ctx)) ctx new ltac:(lia) ltac:(done)) as Hin. rewrite E0 in Hin.
      destruct (before ctx); done. }
    iIntros "Ht". iApply wp_ret. iApply wp_ret. iSpecialize ("HΦ" with "Ht"). by rewrite root_dye. }
  iDestruct (ctx_null with "Hs Hc") as %Hnull. destruct ctx as [|[d c p k s] ctx]; cbn [ctx_parent hole_side].
  - iApply wp_ret. iApply ("Hfix" with "[] Hx"). done.
  - cbn [ctx_parent] in Hnull. rewrite (proj2 (Nat.eqb_neq _ _) ltac:(intros E0; by apply Hnull in E0)).
    iDestruct "Hc" as "(Hp & Hsib & Hc)". wr "Hp". rewrite nd_set_child. iApply wp_ret. iApply ("Hfix" with "[Hp Hsib Hc] Hx").
    cbn [ctx_own]. iFrame.
Qed.

(** The end of a chain of children. *)
Lemma wp_descend d fuel : forall t q par (Φ : ptr -> iProp Σ), t <> E -> (height t <= fuel)%nat -> sent -∗ tree_own par t -∗
  (tree_own par t -∗ Φ (endmost d t q)) -∗ wp (descend fuel d (root t)) Φ.
Proof.
  induction fuel as [|fuel IH]; iIntros (t q par Φ Hne Hh) "#Hs Ht HΦ"; (destruct t as [|c l p k r]; [done|]); cbn in Hh; [lia|].
  destruct d; cbn [root tree_own descend endmost]; iDestruct "Ht" as "(Hp & Hl & Hr)"; rd "Hp"; cbn [child rb_left rb_right].
  - iDestruct (root_null with "Hs Hl") as %Hl. destruct l as [|lc ll lp lk lr]; [iApply wp_ret; iApply "HΦ"; iFrame|].
    rewrite (proj2 (Nat.eqb_neq _ _) (fun E0 => ltac:(by apply Hl in E0))).
    iApply (IH _ p p with "Hs Hl"); [done|lia|]. iIntros "Hl". iApply "HΦ". iFrame.
  - iDestruct (root_null with "Hs Hr") as %Hr. destruct r as [|lc ll lp lk lr]; [iApply wp_ret; iApply "HΦ"; iFrame|].
    rewrite (proj2 (Nat.eqb_neq _ _) (fun E0 => ltac:(by apply Hr in E0))).
    iApply (IH _ p p with "Hs Hr"); [done|lia|]. iIntros "Hr". iApply "HΦ". iFrame.
Qed.
End Own.

(** ** Search *)
Section Search.
Context {K : Type} {Σ : gFunctors} `{!gen_heapGS ptr (rbnode K) Σ} (cmp : K -> K -> Z).
Implicit Types (t s : tree (K := K)) (ctx : list (frame (K := K))).

Lemma wp_find_loop fuel key : forall t par best (Φ : bool * option ptr -> iProp Σ), (height t <= fuel)%nat ->
  sent -∗ tree_own par t -∗ (tree_own par t -∗ Φ (find_le cmp key t best)) -∗ wp (find_loop cmp fuel key (root t) best) Φ.
Proof.
  induction fuel as [|fuel IH]; iIntros (t par best Φ Hh) "#Hs Ht HΦ"; (destruct t as [|c l p k r]; [|try (cbn in Hh; lia)]).
  1,2: cbn [find_loop root find_le]; iApply wp_ret; by iApply "HΦ".
  cbn [height] in Hh. cbn [root tree_own find_le find_loop]. iDestruct "Ht" as "(Hp & Hl & Hr)".
  iDestruct (not_null with "Hs Hp") as %Hnull. rewrite (proj2 (Nat.eqb_neq _ _) Hnull). rd "Hp". cbn [rb_key rb_left rb_right].
  destruct (cmp key k =? 0); [iApply wp_ret; iApply "HΦ"; iFrame|]. destruct (cmp key k <? 0).
  - iApply (IH l with "Hs Hl"); [lia|]. iIntros "Hl". iApply "HΦ". iFrame.
  - iApply (IH r with "Hs Hr"); [lia|]. iIntros "Hr". iApply "HΦ". iFrame.
Qed.
Lemma wp_find_less_equal fuel key t n (Φ : bool * option ptr -> iProp Σ) : (height t <= fuel)%nat ->
  sent -∗ tree_own RBTREE_NULL t -∗ (tree_own RBTREE_NULL t -∗ Φ (find_le cmp key t None)) -∗
  wp (rbtree_find_less_equal cmp fuel (mkTree (root t) n) key) Φ.
Proof. apply wp_find_loop. Qed.
Lemma wp_search fuel key t n (Φ : option ptr -> iProp Σ) : (height t <= fuel)%nat ->
  sent -∗ tree_own RBTREE_NULL t -∗
  (tree_own RBTREE_NULL t -∗ Φ (match locate cmp key t [] with (_, E) => None | (_, T _ _ p _ _) => Some p end)) -∗
  wp (rbtree_search cmp fuel (mkTree (root t) n) key) Φ.
Proof.
  iIntros (Hh) "#Hs Ht HΦ". unfold rbtree_search. iApply wp_bind. iApply (wp_find_less_equal with "Hs Ht"); [done|]. iIntros "Ht".
  iApply wp_ret. pose proof (find_le_locate cmp key t [] None) as Hf. destruct (locate cmp key t []) as [ctx [|c l p k r]].
  - rewrite Hf. by iApply "HΦ".
  - rewrite Hf. by iApply "HΦ".
Qed.
End Search.
