(* ===== verification/RbDelete.v ===== *)
(** Deletion in the red-black tree, in separation logic: the fixup loop and the part
    behind it, the node to delete changing places with the next one, and the whole
    function, each doing to the shape what its function of RbShape does. *)
From iris.proofmode Require Import proofmode.
From iris.base_logic.lib Require Import gen_heap.
From stdpp Require Import base list numbers gmap.
From Stdlib Require Import ZArith Lia.
From S2P Require Import Prelude OrdTree RbTree RbShape RbHeap.
Open Scope Z_scope.
Set Warnings "-rewrite-rw".

Section Delete.
Context {K : Type} {Σ : gFunctors} `{!gen_heapGS ptr (rbnode K) Σ}.
Implicit Types (t s : tree (K := K)) (ctx : list (frame (K := K))).

(** A node gets another child in the place of [x]. *)
Lemma wp_change_parent_node tr d par x y s p k c nx (Φ : rbtree -> iProp Σ) :
  sent -∗ p ↦ nd d par x (root s) k c -∗ tree_own p s -∗ x ↦ nx -∗
  (p ↦ nd d par y (root s) k c -∗ tree_own p s -∗ x ↦ nx -∗ Φ tr) -∗ wp (change_parent_ptr tr p x y) Φ.
Proof.
  iIntros "#Hs Hp Ht Hx HΦ". unfold change_parent_ptr. iDestruct (not_null with "Hs Hp") as %Hnull. rewrite (proj2 (Nat.eqb_neq _ _) Hnull).
  iDestruct (root_ne with "Hs Ht Hx") as %Hne. rd "Hp". iApply wp_bind.
  destruct d; cbn [nd rb_left rb_right]; rewrite ?Nat.eqb_refl ?(proj2 (Nat.eqb_neq _ _) Hne).
  - iApply (wp_modify with "Hp"). iIntros "Hp". rd "Hp". cbn [rb_right set_child]. rewrite (proj2 (Nat.eqb_neq _ _) Hne).
    iApply wp_bind. iApply wp_ret. iApply wp_ret. iApply ("HΦ" with "Hp Ht Hx").
  - iApply wp_ret. rd "Hp". cbn [rb_right]. rewrite Nat.eqb_refl. wr "Hp". iApply wp_ret. iApply ("HΦ" with "Hp Ht Hx").
Qed.
Lemma wp_change_parent rt n ctx x y nx (Φ : rbtree -> iProp Σ) : sent -∗ ctx_own rt ctx x -∗ x ↦ nx -∗
  (∀ rt', ctx_own rt' ctx y -∗ x ↦ nx -∗ Φ (mkTree rt' n)) -∗ wp (change_parent_ptr (mkTree rt n) (ctx_parent ctx) x y) Φ.
Proof.
  iIntros "#Hs Hc Hx HΦ". destruct ctx as [|[d c p k s] ctx].
  - unfold change_parent_ptr. cbn [ctx_parent ctx_own]. iDestruct "Hc" as %->. cbn [rb_root]. rewrite !Nat.eqb_refl. iApply wp_ret.
    by iApply ("HΦ" with "[] Hx").
  - cbn [ctx_parent ctx_own]. iDestruct "Hc" as "(Hp & Ht & Hc)". iApply (wp_change_parent_node with "Hs Hp Ht Hx").
    iIntros "Hp Ht Hx". iApply ("HΦ" with "[Hp Ht Hc] Hx"). iFrame.
Qed.
Lemma wp_change_child x y t (Φ : unit -> iProp Σ) : sent -∗ tree_own x t -∗ (tree_own y t -∗ Φ tt) -∗ wp (change_child_ptr (root t) x y) Φ.
Proof.
  iIntros "#Hs Ht HΦ". unfold change_child_ptr. destruct t as [|c0 l p k r]; cbn [root tree_own].
  - iApply wp_ret. by iApply "HΦ".
  - iDestruct "Ht" as "(Hp & H)". iDestruct (not_null with "Hs Hp") as %Hne. rewrite (proj2 (Nat.eqb_neq _ _) Hne). rd "Hp".
    cbn [rb_parent]. rewrite Nat.eqb_refl. iApply (wp_modify with "Hp"). iIntros "Hp". iApply "HΦ". iFrame.
Qed.
Lemma wp_change_child_skip x y z t (Φ : unit -> iProp Σ) : z <> x -> sent -∗ tree_own z t -∗ (tree_own z t -∗ Φ tt) -∗
  wp (change_child_ptr (root t) x y) Φ.
Proof.
  iIntros (Hz) "#Hs Ht HΦ". unfold change_child_ptr. destruct t as [|c0 l p k r]; cbn [root tree_own].
  - iApply wp_ret. by iApply "HΦ".
  - iDestruct "Ht" as "(Hp & H)". iDestruct (not_null with "Hs Hp") as %Hne. rewrite (proj2 (Nat.eqb_neq _ _) Hne). rd "Hp".
    cbn [rb_parent]. rewrite (proj2 (Nat.eqb_neq _ _) Hz). iApply wp_ret. iApply "HΦ". iFrame.
Qed.

(** *** The fixup *)

(** Both subtrees of a node are there, and the addresses of their roots differ. *)
Lemma roots_ne x y t s : s <> E -> sent -∗ tree_own x t -∗ tree_own y s -∗ ⌜root s <> root t⌝.
Proof.
  iIntros (Hs) "#Hsent Ht Hso". rewrite (tree_own_T _ s Hs). iDestruct "Hso" as (c l k r) "(_ & Hp & _)".
  iDestruct (root_ne with "Hsent Ht Hp") as %Hne. iPureIntro. by apply not_eq_sym.
Qed.
Lemma wp_side_of d par a b p k c (Φ : side -> iProp Σ) : b <> a -> p ↦ nd d par a b k c -∗ (p ↦ nd d par a b k c -∗ Φ d) -∗ wp (side_of p a) Φ.
Proof.
  iIntros (Hne) "Hp HΦ". unfold side_of. rd "Hp". iApply wp_ret.
  destruct d; cbn [nd rb_right]; rewrite ?Nat.eqb_refl ?(proj2 (Nat.eqb_neq _ _) Hne); by iApply "HΦ".
Qed.
Lemma wp_sibling_of d par a b p k c (Φ : ptr -> iProp Σ) : b <> a -> p ↦ nd d par a b k c -∗ (p ↦ nd d par a b k c -∗ Φ b) -∗ wp (sibling_of p a) Φ.
Proof.
  iIntros (Hne) "Hp HΦ". unfold sibling_of. rd "Hp". iApply wp_ret.
  destruct d; cbn [nd rb_right rb_left]; rewrite ?Nat.eqb_refl ?(proj2 (Nat.eqb_neq _ _) Hne); by iApply "HΦ".
Qed.
Lemma wp_both_black par c l p k r (Φ : bool -> iProp Σ) : sent -∗ tree_own par (T c l p k r) -∗
  (tree_own par (T c l p k r) -∗ Φ (bool_decide (c = BLACK /\ color l = BLACK /\ color r = BLACK))) -∗ wp (both_black p) Φ.
Proof.
  iIntros "#Hs Ht HΦ". cbn [tree_own]. iDestruct "Ht" as "(Hp & Hl & Hr)". unfold both_black. rd "Hp". cbn [rb_left rb_right rb_color].
  iApply wp_bind. iApply (wp_root_color with "Hs Hl"). iIntros "Hl". iApply wp_bind. iApply (wp_root_color with "Hs Hr"). iIntros "Hr".
  iApply wp_ret. iApply "HΦ". iFrame.
Qed.
Lemma wp_inner_red d par c a p k b (Φ : bool -> iProp Σ) : sent -∗ tree_own par (mk d c a p k b) -∗
  (tree_own par (mk d c a p k b) -∗ Φ (bool_decide (c = BLACK /\ color a = RED /\ color b = BLACK))) -∗ wp (inner_red d p) Φ.
Proof.
  iIntros "#Hs Ht HΦ". rewrite tree_own_mk. iDestruct "Ht" as "(Hp & Hl & Hr)". unfold inner_red. rd "Hp". rewrite nd_child nd_opp nd_color.
  iApply wp_bind. iApply (wp_root_color with "Hs Hl"). iIntros "Hl". iApply wp_bind. iApply (wp_root_color with "Hs Hr"). iIntros "Hr".
  iApply wp_ret. iApply "HΦ". iFrame.
Qed.

(** A position and its sibling change places. *)
Lemma nd_flip d par a b (k : K) c : nd (opp d) par a b k c = nd d par b a k c.
Proof. by destruct d. Qed.
Lemma ctx_own_flip rt d c p k s ctx t : ctx_own rt (F d c p k s :: ctx) (root t) -∗ tree_own p t -∗
  ctx_own rt (F (opp d) c p k t :: ctx) (root s) ∗ tree_own p s.
Proof. cbn [ctx_own]. rewrite nd_flip. iIntros "(H1 & H2 & H3) H4". iFrame. Qed.

(** The sibling with its red child on the outer side. *)
Lemma wp_rotate_sibling d pc p pk t a x xk b q qk far ctx rt n (Φ : rbtree * ptr -> iProp Σ) :
  let s := mk d BLACK (mk d RED a x xk b) q qk far in let s' := mk d BLACK a x xk (mk d RED b q qk far) in
  sent -∗ ctx_own rt (F d pc p pk s :: ctx) (root t) -∗ tree_own p t -∗
  (∀ rt', ctx_own rt' (F d pc p pk s' :: ctx) (root t) -∗ tree_own p t -∗ Φ (mkTree rt' n, x)) -∗
  wp (rotate_sibling d (mkTree rt n) p (root t) q) Φ.
Proof.
  iIntros (s s') "#Hs Hc Ht HΦ". iDestruct (ctx_own_flip with "Hc Ht") as "[Hc Hsib]". subst s. rewrite root_mk tree_own_mk.
  iDestruct "Hsib" as "(Hq & Hn & Hf)". unfold rotate_sibling. iApply wp_bind. iApply (wp_paint with "Hq"). iIntros "Hq". rewrite nd_set_color.
  rd "Hq". rewrite nd_child. iApply wp_bind. iApply (wp_root_paint with "Hn"); [by destruct d|]. iIntros "Hn".
  iApply wp_bind. rewrite rotate_to_eq.
  iApply (wp_rotate (opp d) rt n (F (opp d) pc p pk t :: ctx) RED BLACK far b a q qk x xk with "Hs Hc [Hq Hn Hf]").
  { rewrite !mk_opp tree_own_mk !root_mk. cbn [ctx_parent]. assert (E1 : dye BLACK (mk d RED a x xk b) = mk d BLACK a x xk b) by (by destruct d).
    rewrite E1. iFrame. }
  iIntros (rt') "Hc Hsib". rewrite !mk_opp. cbn [ctx_parent]. change (mk d BLACK a x xk _) with s'. 
  assert (Er : root s' = x) by (apply root_mk). rewrite -Er. iDestruct (ctx_own_flip with "Hc Hsib") as "[Hc Ht]".
  rewrite (_ : opp (opp d) = d); [|by destruct d]. cbn [ctx_own]. iDestruct "Hc" as "(Hp & Hsib & Hc)".
  iDestruct (roots_ne p p t s' with "Hs Ht Hsib") as %Hne; [by destruct d|]. iApply wp_bind.
  iApply (wp_sibling_of with "Hp"); [done|]. iIntros "Hp". iApply wp_ret. rewrite Er. iApply ("HΦ" with "[Hp Hsib Hc] Ht").
  cbn [ctx_own]. unfold s'. rewrite ?root_mk. iFrame.
Qed.

(** The red child is brought to the outer side. *)
Lemma wp_straighten d pc p pk t near q qk far ctx rt n (Φ : rbtree * ptr -> iProp Σ) : color near = RED \/ color far = RED ->
  sent -∗ ctx_own rt (F d pc p pk (mk d BLACK near q qk far) :: ctx) (root t) -∗ tree_own p t -∗
  (∀ rt' near' q' qk' far', ⌜color far' = RED /\ fix_last ctx d pc p pk t (mk d BLACK near q qk far) =
       zip ctx (mk d pc (mk d BLACK t p pk near') q' qk' (dye BLACK far'))⌝ -∗
     ctx_own rt' (F d pc p pk (mk d BLACK near' q' qk' far') :: ctx) (root t) -∗ tree_own p t -∗ Φ (mkTree rt' n, q')) -∗
  wp (straighten (mkTree rt n) (root t) p q) Φ.
Proof.
  iIntros (Hred) "#Hs Hc Ht HΦ". unfold straighten. cbn [ctx_own]. iDestruct "Hc" as "(Hp & Hsib & Hc)". rewrite root_mk.
  iDestruct (roots_ne p p t with "Hs Ht Hsib") as %Hne; [by destruct d|]. rewrite root_mk in Hne.
  pose proof (proj2 (Nat.eqb_neq _ _) Hne) as Hnb. rd "Hp".
  (* both tests come down to one *)
  iAssert (∀ Ψ : bool -> iProp Σ, tree_own p (mk d BLACK near q qk far) -∗
    (tree_own p (mk d BLACK near q qk far) -∗ Ψ (bool_decide (BLACK = BLACK /\ color near = RED /\ color far = BLACK))) -∗ wp (inner_red d q) Ψ)%I
    as "Hinner"; [iIntros (Ψ) "Hsib HΨ"; iApply (wp_inner_red with "Hs Hsib HΨ")|].
  destruct (color far) eqn:Hfar.
  - destruct Hred as [Hn|Hn]; [|done]. 
    assert (Hmk : exists a x xk b, near = mk d RED a x xk b).
    { destruct near as [|nc l x xk r]; [done|]. cbn in Hn. subst nc. destruct d; by repeat eexists. }
    destruct Hmk as (a & x & xk & b & ->). rewrite Hn. rewrite (bool_decide_eq_true_2 (BLACK = BLACK /\ _)); [|done].
    iAssert (tree_own p (mk d BLACK (mk d RED a x xk b) q qk far) -∗ p ↦ nd d (ctx_parent ctx) (root t) q pk pc -∗ 
      wp (rotate_sibling d (mkTree rt n) p (root t) q) Φ)%I with "[Hc Ht HΦ]" as "Hgo".
    { iIntros "Hsib Hp". iApply (wp_rotate_sibling with "Hs [Hp Hsib Hc] Ht").
      - cbn [ctx_own]. rewrite root_mk. iFrame.
      - iIntros (rt') "Hc Ht". iApply ("HΦ" with "[] Hc Ht"). iPureIntro. split; [by destruct d|]. rewrite fix_last_near; [|done].
        destruct d; done. }
    destruct d; cbn [nd rb_left rb_right]; rewrite ?Nat.eqb_refl ?Hnb; iApply wp_bind.
    + iApply wp_ret. iApply wp_bind. iApply ("Hinner" with "Hsib"). iIntros "Hsib". iApply ("Hgo" with "Hsib Hp").
    + iApply ("Hinner" with "Hsib"). iIntros "Hsib". iApply ("Hgo" with "Hsib Hp").
  - rewrite (bool_decide_eq_false_2 (BLACK = BLACK /\ _)); [|by intros (_ & _ & ?)].
    iAssert (tree_own p (mk d BLACK near q qk far) -∗ p ↦ nd d (ctx_parent ctx) (root t) q pk pc -∗ Φ (mkTree rt n, q))%I
      with "[Hc Ht HΦ]" as "Hgo".
    { iIntros "Hsib Hp". iApply ("HΦ" $! rt near q qk far with "[] [Hp Hsib Hc] Ht").
      - iPureIntro. split; [done|]. by apply fix_last_far.
      - cbn [ctx_own]. rewrite root_mk. iFrame. }
    destruct d; cbn [nd rb_left rb_right]; rewrite ?Nat.eqb_refl ?Hnb; iApply wp_bind.
    + iApply wp_ret. iApply wp_bind. iApply ("Hinner" with "Hsib"). iIntros "Hsib". iApply wp_ret. iApply ("Hgo" with "Hsib Hp").
    + iApply ("Hinner" with "Hsib"). iIntros "Hsib". iApply wp_bind. iApply wp_ret. iApply wp_ret. iApply ("Hgo" with "Hsib Hp").
Qed.

(** The colors of the two children of the sibling, side by side. *)
Lemma wp_quiet d par c a p k b (Φ : bool -> iProp Σ) : sent -∗ tree_own par (mk d c a p k b) -∗
  (tree_own par (mk d c a p k b) -∗ Φ (bool_decide (c = BLACK /\ color a = BLACK /\ color b = BLACK))) -∗ wp (both_black p) Φ.
Proof.
  iIntros "#Hs Ht HΦ". destruct d; cbn [mk]; iApply (wp_both_black with "Hs Ht"); iIntros "Ht"; [by iApply "HΦ"|].
  rewrite (bool_decide_ext (c = BLACK /\ color b = BLACK /\ color a = BLACK) (c = BLACK /\ color a = BLACK /\ color b = BLACK)); [by iApply "HΦ"|tauto].
Qed.
Lemma wp_delete_last d pc p pk t near q qk far ctx rt n (Φ : rbtree -> iProp Σ) :
  (pc = BLACK -> color near = RED \/ color far = RED) ->
  let r := fix_last ctx d pc p pk t (mk d BLACK near q qk far) in
  sent -∗ ctx_own rt (F d pc p pk (mk d BLACK near q qk far) :: ctx) (root t) -∗ tree_own p t -∗
  (tree_own RBTREE_NULL r -∗ Φ (mkTree (root r) n)) -∗
  wp (delete_last (mkTree rt n) (root t) p q) Φ.
Proof.
  iIntros (Hred r) "#Hs Hc Ht HΦ". unfold delete_last. cbn [ctx_own]. iDestruct "Hc" as "(Hp & Hsib & Hc)". rewrite root_mk.
  iApply wp_bind. iApply (wp_color with "Hp"). iIntros "Hp". rewrite nd_color. iApply wp_bind. iApply (wp_quiet with "Hs Hsib"). iIntros "Hsib".
  rewrite -bool_decide_and. case_bool_decide as Hcase.
  - (* nothing red below the sibling *)
    destruct Hcase as (-> & _ & Hn & Hf). iEval (rewrite tree_own_mk) in "Hsib". iDestruct "Hsib" as "(Hq & Hsib)".
    iDestruct (not_null with "Hs Hq") as %Hnull. rewrite (proj2 (Nat.eqb_neq _ _) Hnull). iApply wp_bind. iApply (wp_paint with "Hq"). iIntros "Hq".
    iApply wp_bind. iApply (wp_paint with "Hp"). iIntros "Hp". iApply wp_ret. subst r. rewrite fix_last_none; [|done..].
    set (t' := mk d BLACK t p pk (mk d RED near q qk far)). iDestruct (ctx_root rt ctx t' with "[Hc]") as %->; [by rewrite root_mk|].
    iApply "HΦ". rewrite zip_own. unfold t'. rewrite !root_mk tree_own_mk. rewrite !nd_set_color root_mk tree_own_mk. iFrame.
  - assert (Hone : color near = RED \/ color far = RED)
      by (destruct (color near) eqn:E1, (color far) eqn:E2, pc; auto; by destruct Hcase).
    iApply wp_bind. iApply (wp_straighten d pc p pk t near q qk far ctx with "Hs [Hp Hsib Hc] Ht"); [done|cbn [ctx_own]; rewrite root_mk; iFrame|].
    iIntros (rt' near' q' qk' far') "[%Hf %Efix] Hc Ht". cbn beta iota. cbn [ctx_own]. iDestruct "Hc" as "(Hp & Hsib & Hc)".
    iDestruct (roots_ne p p t with "Hs Ht Hsib") as %Hne; [by destruct d|]. rewrite root_mk in Hne.
    iApply wp_bind. iApply (wp_color with "Hp"). iIntros "Hp". rewrite nd_color root_mk. iEval (rewrite tree_own_mk) in "Hsib". iDestruct "Hsib" as "(Hq & Hn & Hfar)".
    iApply wp_bind. iApply (wp_paint with "Hq"). iIntros "Hq". rewrite nd_set_color. iApply wp_bind. iApply (wp_paint with "Hp"). iIntros "Hp". rewrite nd_set_color.
    iApply wp_bind. iApply (wp_side_of with "Hp"); [done|]. iIntros "Hp". rd "Hq". rewrite nd_opp. iApply wp_bind.
    iApply (wp_root_paint with "Hfar"); [by intros ->|]. iIntros "Hfar". rewrite rotate_to_eq.
    iApply (wp_rotate d rt' n ctx BLACK pc t near' (dye BLACK far') p pk q' qk' with "Hs Hc [Hp Hq Ht Hn Hfar]").
    { rewrite !tree_own_mk !root_mk root_dye. iFrame. }
    iIntros (rt2) "Hc Ht". unfold r. rewrite Efix. set (t' := mk d pc _ _ _ _). iDestruct (ctx_root rt2 ctx t' with "[Hc]") as %->; [by rewrite root_mk|].
    iApply "HΦ". rewrite zip_own. iFrame. by rewrite root_mk.
Qed.

Lemma rb_mk_of d t c n : is_rb t c (S n) -> exists c' near q qk far, t = mk d c' near q qk far /\ c' = c.
Proof. inversion 1; subst; destruct d; by repeat eexists. Qed.
Lemma fix_del_red d p pk near q qk far ctx t :
  fix_del (F d RED p pk (mk d BLACK near q qk far) :: ctx) t = fix_last ctx d RED p pk t (mk d BLACK near q qk far).
Proof. cbn [fix_del]. destruct d; cbn [mk]; (rewrite bool_decide_eq_false_2; [done|by intros []]). Qed.
Lemma wp_black_sibling d pc p pk s ctx up m t rt n (Φ : rbtree * ptr -> iProp Σ) : rb_ctx (F d pc p pk s :: ctx) up (S m) ->
  sent -∗ ctx_own rt (F d pc p pk s :: ctx) (root t) -∗ tree_own p t -∗
  (∀ rt' ctx' pc' near q qk far,
     ⌜fix_del (F d pc p pk s :: ctx) t = fix_del (F d pc' p pk (mk d BLACK near q qk far) :: ctx') t /\
       (pc' = BLACK -> pc = BLACK /\ s = mk d BLACK near q qk far /\ ctx' = ctx)⌝ -∗
     ctx_own rt' (F d pc' p pk (mk d BLACK near q qk far) :: ctx') (root t) -∗ tree_own p t -∗ Φ (mkTree rt' n, q)) -∗
  wp (black_sibling (mkTree rt n) (root t) p (root s)) Φ.
Proof.
  iIntros (Hctx) "#Hs Hc Ht HΦ". assert (Hrb : exists cs, is_rb s cs (S m) /\ (pc = RED -> cs = BLACK))
    by (inversion Hctx; subst; by eexists).
  destruct Hrb as (cs & Hrb & Hpc). destruct (rb_mk_of d s cs m Hrb) as (c' & near & q & qk & far & -> & ->). clear Hctx.
  cbn [ctx_own]. iDestruct "Hc" as "(Hp & Hsib & Hc)". unfold black_sibling. iApply wp_bind. iApply (wp_root_color with "Hs Hsib"). iIntros "Hsib".
  rewrite root_mk (_ : color (mk d cs near q qk far) = cs); [|by destruct d]. destruct cs.
  - iApply wp_ret. iApply ("HΦ" $! rt ctx pc near q qk far with "[] [Hp Hsib Hc] Ht"); [by iPureIntro|]. cbn [ctx_own]. rewrite root_mk. iFrame.
  - assert (pc = BLACK) as -> by (destruct pc; [done|by specialize (Hpc eq_refl)]).
    iDestruct (roots_ne p p t with "Hs Ht Hsib") as %Hne; [by destruct d|]. rewrite root_mk in Hne.
    iEval (rewrite tree_own_mk) in "Hsib". iDestruct "Hsib" as "(Hq & Hn & Hf)". iApply wp_bind. iApply (wp_paint with "Hp"). iIntros "Hp".
    iApply wp_bind. iApply (wp_paint with "Hq"). iIntros "Hq". rewrite !nd_set_color. iApply wp_bind. iApply (wp_side_of with "Hp"); [done|]. iIntros "Hp".
    iApply wp_bind. rewrite rotate_to_eq.
    iApply (wp_rotate d rt n ctx RED BLACK t near far p pk q qk with "Hs Hc [Hp Hq Ht Hn Hf]").
    { rewrite !tree_own_mk !root_mk. iFrame. }
    iIntros (rt') "Hc Ht". iEval (rewrite !tree_own_mk !root_mk) in "Ht". iDestruct "Ht" as "(Hq & (Hp & Ht & Hn) & Hf)".
    assert (Hblack : is_rb near BLACK (S m)) by (by destruct (rb_inv _ _ _ _ _ _ _ _ Hrb) as (_ & ? & _)).
    destruct (rb_mk_of d near BLACK m Hblack) as (c'' & a & x & xk & b & -> & ->).
    iDestruct (roots_ne p p t with "Hs Ht Hn") as %Hne2; [by destruct d|]. iApply wp_bind.
    iApply (wp_sibling_of with "Hp"); [done|]. iIntros "Hp". iApply wp_ret. rewrite root_mk.
    iApply ("HΦ" $! rt' (F d BLACK q qk far :: ctx) RED a x xk b with "[] [Hp Hn Hq Hf Hc] Ht").
    + iPureIntro. split; [|done]. rewrite fix_del_red. by destruct d.
    + cbn [ctx_own ctx_parent]. rewrite root_mk. iFrame.
Qed.

(** The sibling the loop starts with, above the root any pointer. *)
Definition is_sibling ctx (sib : ptr) : Prop := match ctx with [] => True | F _ _ _ _ s :: _ => sib = root s end.
Lemma fix_del_quiet d p pk near q qk far ctx t : color near = BLACK -> color far = BLACK ->
  fix_del (F d BLACK p pk (mk d BLACK near q qk far) :: ctx) t = fix_del ctx (mk d BLACK t p pk (mk d RED near q qk far)).
Proof. intros E1 E2. destruct d; cbn [fix_del mk]; by rewrite E1 E2 bool_decide_eq_true_2. Qed.
Lemma fix_del_last d pc p pk near q qk far ctx t : (pc = BLACK -> color near = RED \/ color far = RED) ->
  fix_del (F d pc p pk (mk d BLACK near q qk far) :: ctx) t = fix_last ctx d pc p pk t (mk d BLACK near q qk far).
Proof.
  intros Hred. destruct d; cbn [fix_del mk]; (rewrite bool_decide_eq_false_2; [done|]); intros (Hpc & E1 & E2);
    destruct (Hred Hpc); congruence.
Qed.
(** The sibling of the next round. *)
Lemma wp_next_sibling ctx rt p n (Φ : ptr -> iProp Σ) : sent -∗ ctx_own rt ctx p -∗ p ↦ n -∗
  (∀ sib, ⌜is_sibling ctx sib⌝ -∗ ctx_own rt ctx p -∗ p ↦ n -∗ Φ sib) -∗ wp (sibling_of (ctx_parent ctx) p) Φ.
Proof.
  iIntros "#Hs Hc Hp HΦ". destruct ctx as [|[d c g gk u] ctx].
  - unfold sibling_of. cbn [ctx_parent]. iDestruct "Hs" as (k) "Hs0". iApply wp_bind. iApply (wp_read with "Hs0"). iIntros "_". iApply wp_ret. by iApply ("HΦ" with "[] Hc Hp").
  - cbn [ctx_own ctx_parent]. iDestruct "Hc" as "(Hg & Hu & Hc)". iDestruct (root_ne with "Hs Hu Hp") as %Hne.
    iApply (wp_sibling_of with "Hg"); [done|]. iIntros "Hg". iApply ("HΦ" with "[] [Hg Hu Hc] Hp"); [done|]. iFrame.
Qed.

Lemma wp_delete_loop fuel : forall ctx t pc m rt n sib (Φ : rbtree * option (ptr * ptr * ptr) -> iProp Σ),
  is_rb t BLACK m -> rb_ctx ctx pc (S m) -> (length ctx <= fuel)%nat -> is_sibling ctx sib ->
  sent -∗ ctx_own rt ctx (root t) -∗ tree_own (ctx_parent ctx) t -∗
  (tree_own RBTREE_NULL (fix_del ctx t) -∗ Φ (mkTree (root (fix_del ctx t)) n, None)) ∧
  (∀ rt' ctx' d pc' p pk t' near q qk far,
     ⌜fix_del ctx t = fix_last ctx' d pc' p pk t' (mk d BLACK near q qk far) /\ (pc' = BLACK -> color near = RED \/ color far = RED)⌝ -∗
     ctx_own rt' (F d pc' p pk (mk d BLACK near q qk far) :: ctx') (root t') -∗ tree_own p t' -∗ Φ (mkTree rt' n, Some (root t', p, q))) -∗
  wp (delete_loop fuel (mkTree rt n) (root t) (ctx_parent ctx) sib) Φ.
Proof.
  induction fuel as [|fuel IH]; iIntros (ctx t pc m rt n sib Φ Ht Hctx Hl Hsib) "#Hs Hc Ht HΦ";
    (destruct ctx as [|[d fc p pk s] ctx]; [|try (cbn in Hl; lia)]).
  1,2: cbn [ctx_own ctx_parent fix_del delete_loop]; iDestruct "Hc" as %->; iApply wp_ret; iDestruct "HΦ" as "[HΦ _]"; by iApply "HΦ".
  cbn [is_sibling] in Hsib. subst sib. cbn [ctx_parent delete_loop]. iDestruct (ctx_null with "Hs Hc") as %Hnull. cbn [ctx_parent] in Hnull.
  rewrite (proj2 (Nat.eqb_neq _ _) ltac:(intros E0; by apply Hnull in E0)). iApply wp_bind.
  iApply (wp_black_sibling with "Hs Hc Ht"); [exact Hctx|]. iIntros (rt' ctx' pc' near q qk far) "[%Efix %Hsame] Hc Ht". cbn beta iota.
  iEval (cbn [ctx_own]) in "Hc". iDestruct "Hc" as "(Hp & Hsib & Hc)". iApply wp_bind. iApply (wp_color with "Hp"). iIntros "Hp". rewrite nd_color.
  iApply wp_bind. iApply (wp_quiet with "Hs Hsib"). iIntros "Hsib". rewrite -bool_decide_and. case_bool_decide as Hq.
  - destruct Hq as (-> & _ & E1 & E2). destruct (Hsame eq_refl) as (-> & -> & ->).
    inversion Hctx as [| |? ? ? ? ? up cs ? Hrb Hup]; subst.
    assert (Hnew : is_rb (mk d BLACK t p pk (mk d RED near q qk far)) BLACK (S m)).
    { eapply rb_mk_black; [exact Ht|]. destruct (rb_inv _ _ _ _ _ _ _ _ Hrb) as (_ & m' & ca & cb & [= ->] & Ha & Hb).
      apply rb_mk_red; [rewrite -E1 (rb_color_of _ _ _ Ha)|rewrite -E2 (rb_color_of _ _ _ Hb)]; done. }
    iEval (rewrite tree_own_mk) in "Hsib". iDestruct "Hsib" as "(Hq & Hsib)". rewrite root_mk.
    iDestruct (not_null with "Hs Hq") as %Hqn. rewrite (proj2 (Nat.eqb_neq _ _) Hqn). iApply wp_bind. iApply (wp_paint with "Hq"). iIntros "Hq".
    rewrite nd_set_color. rd "Hp". rewrite nd_parent. iApply wp_bind. iApply (wp_next_sibling with "Hs Hc Hp"). iIntros (sib Hsib) "Hc Hp".
    set (t' := mk d BLACK t p pk (mk d RED near q qk far)) in *. rewrite fix_del_quiet; [|done..].
    iAssert (wp (delete_loop fuel (mkTree rt' n) (root t') (ctx_parent ctx) sib) Φ) with "[-]" as "Hgo"; [|by rewrite root_mk].
    iApply (IH ctx t' up (S m) with "Hs [Hc] [Hp Hq Ht Hsib] HΦ"); [done|done|cbn in Hl; lia|done|by rewrite root_mk|].
    unfold t'. rewrite !tree_own_mk !root_mk. iFrame.
  - assert (Hred : pc' = BLACK -> color near = RED \/ color far = RED).
    { intros ->. destruct (color near) eqn:E1, (color far) eqn:E2; auto. by destruct Hq. }
    iApply wp_ret. iDestruct "HΦ" as "[_ HΦ]". iApply ("HΦ" $! rt' ctx' d pc' p pk t near q qk far with "[] [Hp Hsib Hc] Ht").
    + iPureIntro. split; [|done]. by rewrite Efix fix_del_last.
    + cbn [ctx_own]. iFrame.
Qed.
Lemma wp_delete_fixup fuel ctx t pc m rt n (Φ : rbtree -> iProp Σ) : is_rb t BLACK m -> rb_ctx ctx pc (S m) -> (length ctx <= fuel)%nat ->
  sent -∗ ctx_own rt ctx (root t) -∗ tree_own (ctx_parent ctx) t -∗
  (tree_own RBTREE_NULL (fix_del ctx t) -∗ Φ (mkTree (root (fix_del ctx t)) n)) -∗
  wp (rbtree_delete_fixup fuel (mkTree rt n) (root t) (ctx_parent ctx)) Φ.
Proof.
  iIntros (Ht Hctx Hl) "#Hs Hc Ht HΦ". unfold rbtree_delete_fixup. iApply wp_bind.
  iAssert (∀ sib, ⌜is_sibling ctx sib⌝ -∗ ctx_own rt ctx (root t) -∗ tree_own (ctx_parent ctx) t -∗
    wp (bind (delete_loop fuel (mkTree rt n) (root t) (ctx_parent ctx) sib) (fun r => match r with
      | (tr, None) => ret tr | (tr, Some (c, parent, sibling)) => delete_last tr c parent sibling end)) Φ)%I with "[HΦ]" as "Hgo".
  { iIntros (sib Hsib) "Hc Ht". iApply wp_bind. iApply (wp_delete_loop with "Hs Hc Ht"); [done..|]. iSplit.
    - iIntros "Ht". iApply wp_ret. by iApply "HΦ".
    - iIntros (rt' ctx' d pc' p pk t' near q qk far) "[-> %Hred] Hc Ht". by iApply (wp_delete_last with "Hs Hc Ht HΦ"). }
  destruct ctx as [|[d fc p pk s] ctx].
  - unfold sibling_of. cbn [ctx_parent]. iDestruct "Hs" as (k) "Hs0". iApply wp_bind. iApply (wp_read with "Hs0"). iIntros "_". iApply wp_ret. by iApply ("Hgo" with "[] Hc Ht").
  - cbn [ctx_own ctx_parent]. iDestruct "Hc" as "(Hp & Hsib & Hc)".
    assert (Hne : s <> E) by (intros ->; inversion Hctx as [|? ? ? ? ? ? HE|? ? ? ? ? ? ? ? HE]; inversion HE).
    iDestruct (roots_ne p p t s with "Hs Ht Hsib") as %Hroots; [done|]. iApply (wp_sibling_of with "Hp"); [done|]. iIntros "Hp".
    iApply ("Hgo" with "[] [Hp Hsib Hc] Ht"); [done|]. iFrame.
Qed.

(** *** The node to delete and the next one change places *)

(** The part of a position that lies below a node [par], with [q] at its end. *)
Definition low_parent (low : list (frame (K := K))) (par : ptr) : ptr := match low with [] => par | F _ _ p _ _ :: _ => p end.
Fixpoint low_top (low : list (frame (K := K))) (q : ptr) : ptr := match low with [] => q | F _ _ p _ _ :: low' => low_top low' p end.
Fixpoint low_own (low : list (frame (K := K))) (par q : ptr) : iProp Σ :=
  match low with
  | [] => emp
  | F d c p k s :: low' => p ↦ nd d (low_parent low' par) q (root s) k c ∗ tree_own p s ∗ low_own low' par p
  end.
Lemma low_parent_app low ctx : ctx_parent (low ++ ctx) = low_parent low (ctx_parent ctx).
Proof. by destruct low as [|[]]. Qed.
Lemma low_root low : forall t, root (zip low t) = low_top low (root t).
Proof. induction low as [|[d c p k s] low IH]; intros t; [done|]. cbn [zip low_top]. by rewrite IH root_mk. Qed.
Lemma low_top_any low q q' : low <> [] -> low_top low q = low_top low q'.
Proof. by destruct low as [|[]]. Qed.
Lemma low_parent_any low x y : low <> [] -> low_parent low x = low_parent low y.
Proof. by destruct low as [|[]]. Qed.
Lemma low_zip low : forall par t, tree_own par (zip low t) ⊣⊢ low_own low par (root t) ∗ tree_own (low_parent low par) t.
Proof.
  induction low as [|[d c p k s] low IH]; intros par t; cbn [zip low_own low_parent].
  - iSplit; [iIntros "$"|iIntros "[_ $]"].
  - rewrite IH tree_own_mk root_mk. iSplit; [iIntros "(H1 & H2 & H3 & H4)"|iIntros "((H1 & H2 & H3) & H4)"]; iFrame.
Qed.
Lemma low_ctx rt low ctx : forall q, ctx_own rt (low ++ ctx) q ⊣⊢ low_own low (ctx_parent ctx) q ∗ ctx_own rt ctx (low_top low q).
Proof.
  induction low as [|[d c p k s] low IH]; intros q; cbn [app low_own low_top ctx_own].
  - iSplit; [iIntros "$"|iIntros "[_ $]"].
  - rewrite IH low_parent_app. iSplit; [iIntros "($ & $ & $ & $)"|iIntros "(($ & $ & $) & $)"].
Qed.
Lemma low_own_top low : forall q x, low <> [] -> low_own low x q -∗ ∃ n, ⌜rb_parent n = x⌝ ∗ low_top low q ↦ n ∗
  (∀ y, low_top low q ↦ set_parent y n -∗ low_own low y q).
Proof.
  induction low as [|[d c p k s] [|f low] IH]; iIntros (q x Hne) "H"; [done| |].
  - cbn [low_own low_top low_parent]. iDestruct "H" as "(Hp & Ht & _)". iExists _. iFrame "Hp". rewrite nd_parent. iSplit; [done|].
    iIntros (y) "Hp". rewrite nd_set_parent. iFrame.
  - iDestruct "H" as "(Hp & Ht & H)". iDestruct (IH p x with "H") as (n) "(%Hn & Htop & Hback)"; [done|]. iExists n. iSplit; [done|].
    iSplitL "Htop"; [iApply "Htop"|]. iIntros (y) "Htop". iDestruct ("Hback" with "Htop") as "H". destruct f. iFrame.
Qed.
Lemma low_top_ne low par q y n : low <> [] -> low_own low par q -∗ y ↦ n -∗ ⌜low_top low q <> y⌝.
Proof.
  iIntros (Hne) "H Hy". iDestruct (low_own_top with "H") as (n') "(_ & Htop & _)"; [done|].
  iIntros (->). iDestruct (pointsto_ne with "Htop Hy") as %Hy. done.
Qed.
Lemma wp_change_child_low low q x y (Φ : unit -> iProp Σ) : low <> [] -> sent -∗ low_own low x q -∗ (low_own low y q -∗ Φ tt) -∗
  wp (change_child_ptr (low_top low q) x y) Φ.
Proof.
  iIntros (Hne) "#Hs H HΦ". iDestruct (low_own_top with "H") as (n) "(%Hn & Htop & Hback)"; [done|]. unfold change_child_ptr.
  iDestruct (not_null with "Hs Htop") as %Hnull. rewrite (proj2 (Nat.eqb_neq _ _) Hnull). rd "Htop". rewrite Hn Nat.eqb_refl.
  iApply (wp_modify with "Htop"). iIntros "Htop". iApply "HΦ". by iApply "Hback".
Qed.
Lemma wp_change_parent_low tr low par x y nx (Φ : rbtree -> iProp Σ) : low <> [] -> sent -∗ low_own low par x -∗ x ↦ nx -∗
  (low_own low par y -∗ x ↦ nx -∗ Φ tr) -∗ wp (change_parent_ptr tr (low_parent low par) x y) Φ.
Proof.
  iIntros (Hne) "#Hs H Hx HΦ". destruct low as [|[d c p k s] low]; [done|]. cbn [low_own low_parent]. iDestruct "H" as "(Hp & Ht & H)".
  iApply (wp_change_parent_node with "Hs Hp Ht Hx"). iIntros "Hp Ht Hx". iApply ("HΦ" with "[Hp Ht H] Hx"). iFrame.
Qed.

Lemma wp_reparent_children sp p par sr sk c (Φ : unit -> iProp Σ) : p <> sp -> sent -∗ sp ↦ mkNode par RBTREE_NULL (root sr) sk c -∗ tree_own sp sr -∗
  (sp ↦ mkNode par RBTREE_NULL (root sr) sk c -∗ tree_own p sr -∗ Φ tt) -∗ wp (reparent_children sp p) Φ.
Proof.
  iIntros (Hne) "#Hs Hsp Ht HΦ". unfold reparent_children. rd "Hsp". iApply wp_bind. iApply wp_ret. rd "Hsp". iApply wp_bind. iApply wp_ret.
  rd "Hsp". iApply wp_bind. cbn [rb_right]. iApply (wp_change_child with "Hs Ht"). iIntros "Ht". rd "Hsp". cbn [rb_right].
  iApply (wp_change_child_skip with "Hs Ht"); [done|]. iIntros "Ht". iApply ("HΦ" with "Hsp Ht").
Qed.
Lemma wp_swap_np p sp x y (Φ : unit -> iProp Σ) : p ↦ x -∗ sp ↦ y -∗
  (p ↦ mkNode (rb_parent y) (rb_left y) (rb_right y) (rb_key x) (rb_color x) -∗
   sp ↦ mkNode (rb_parent x) (rb_left x) (rb_right x) (rb_key y) (rb_color y) -∗ Φ tt) -∗ wp (swap_np_all p sp) Φ.
Proof. iIntros "Hp Hsp HΦ". unfold swap_np_all. rd "Hp". rd "Hsp". wr "Hp". iApply (wp_modify with "Hsp"). iIntros "Hsp". iApply ("HΦ" with "Hp Hsp"). Qed.
Lemma wp_swap_int8 p sp x y (Φ : unit -> iProp Σ) : p ↦ x -∗ sp ↦ y -∗
  (p ↦ set_color (rb_color y) x -∗ sp ↦ set_color (rb_color x) y -∗ Φ tt) -∗ wp (swap_int8 p sp) Φ.
Proof.
  iIntros "Hp Hsp HΦ". unfold swap_int8. rd "Hp". rd "Hsp". iApply wp_bind. iApply (wp_paint with "Hp"). iIntros "Hp".
  iApply (wp_paint with "Hsp"). iIntros "Hsp". iApply ("HΦ" with "Hp Hsp").
Qed.

Lemma wp_swap_nodes fuel ctx c l p k rc rl rp rk rr rt n (Φ : rbtree -> iProp Σ) : (height (T rc rl rp rk rr) <= fuel)%nat ->
  sent -∗ ctx_own rt ctx p -∗ tree_own (ctx_parent ctx) (T c l p k (T rc rl rp rk rr)) -∗
  (∀ rt', let '(low, sc, sp, sk, sr) := split_min rl rc rp rk rr [] in
     ctx_own rt' (low ++ F R c sp sk l :: ctx) p -∗ tree_own (low_parent low sp) (T sc E p k sr) -∗ Φ (mkTree rt' n)) -∗
  wp (swap_nodes fuel (mkTree rt n) p) Φ.
Proof.
  iIntros (Hh) "#Hs Hc Ht HΦ". pose proof (split_min_zip rl rc rp rk rr []) as Es. pose proof (split_min_end rl rc rp rk rr []) as Eend.
  destruct (split_min rl rc rp rk rr []) as [[[[low sc] sp] sk] sr]. destruct Es as [Es _]. cbn [zip] in Es.
  remember (T rc rl rp rk rr) as r eqn:Er. cbn [tree_own]. iDestruct "Ht" as "(Hp & Hl & Hr)". unfold swap_nodes. rd "Hp". iApply wp_bind.
  iApply (wp_descend L fuel r RBTREE_NULL p with "Hs Hr"); [by subst r|done|]. iIntros "Hr".
  rewrite (_ : endmost L r RBTREE_NULL = sp); [|by subst]. rewrite -Es low_zip low_root. cbn [root tree_own].
  iDestruct "Hr" as "(Hlow & Hsp & _ & Hsr)". iDestruct (pointsto_ne with "Hp Hsp") as %Hne. iApply wp_bind.
  iApply (wp_swap_int8 with "Hp Hsp"). iIntros "Hp Hsp". unfold set_color. cbn [rb_parent rb_left rb_right rb_key rb_color]. rd "Hp". cbn [rb_parent].
  iApply wp_bind. iApply (wp_change_parent rt n ctx p sp with "Hs Hc Hp"). iIntros (rt') "Hc Hp". rd "Hp". cbn [rb_right].
  iSpecialize ("HΦ" $! rt'). rewrite low_ctx. cbn [ctx_own ctx_parent].
  destruct (list_eq_nil_dec low) as [->|Hlow]; [|iDestruct (low_top_ne with "Hlow Hsp") as %Htop; [done|];
    pose proof (proj2 (Nat.eqb_neq _ _) Htop) as Hnb]; cbn [low_top low_parent].
  - rewrite Nat.eqb_refl. iApply wp_bind. iApply wp_ret. iApply wp_bind. iApply (wp_reparent_children with "Hs Hsp Hsr"); [done|]. iIntros "Hsp Hsr".
    rd "Hp". cbn [rb_left]. iApply wp_bind. iApply (wp_change_child with "Hs Hl"). iIntros "Hl". rd "Hp". cbn [rb_right]. rewrite Nat.eqb_refl.
    iApply wp_bind. iApply wp_ret. rd "Hp". cbn [rb_right]. rewrite Nat.eqb_refl. iApply wp_bind. wr "Hp". iApply (wp_modify with "Hsp"). iIntros "Hsp".
    iApply wp_bind. iApply (wp_swap_np with "Hp Hsp"). iIntros "Hp Hsp". iApply wp_ret. cbn. iApply ("HΦ" with "[Hc Hl Hsp] [Hp Hsr]"); iFrame.
  - rewrite Hnb. iApply wp_bind. rd "Hsp". cbn [rb_parent]. iApply (wp_change_parent_low _ low p sp p with "Hs Hlow Hsp"); [done|]. iIntros "Hlow Hsp".
    iApply wp_bind. iApply (wp_reparent_children with "Hs Hsp Hsr"); [done|]. iIntros "Hsp Hsr".
    rd "Hp". cbn [rb_left]. iApply wp_bind. iApply (wp_change_child with "Hs Hl"). iIntros "Hl". rd "Hp". cbn [rb_right]. rewrite Hnb.
    iApply wp_bind. rewrite (low_top_any low sp p Hlow). iApply (wp_change_child_low low p p sp with "Hs Hlow"); [done|]. iIntros "Hlow".
    rd "Hp". cbn [rb_right]. rewrite -(low_top_any low sp p Hlow) Hnb. iApply wp_bind. iApply wp_ret.
    iApply wp_bind. iApply (wp_swap_np with "Hp Hsp"). iIntros "Hp Hsp". iApply wp_ret. rewrite (low_parent_any low p sp Hlow).
    iApply ("HΦ" with "[Hc Hl Hsp Hlow] [Hp Hsr]"); iFrame.
Qed.

(** *** Deletion *)
Lemma wp_unlink fuel ctx c l p k r x q kq pc cc m rt n (Φ : rbtree -> iProp Σ) :
  is_rb (T c l q kq r) cc m -> rb_ctx ctx pc m -> (length ctx <= fuel)%nat -> (l = E /\ x = r \/ l <> E /\ r = E /\ x = l) ->
  sent -∗ ctx_own rt ctx p -∗ tree_own (ctx_parent ctx) (T c l p k r) -∗
  (tree_own RBTREE_NULL (unlink ctx c x) -∗ p ↦ mkNode (ctx_parent ctx) (root l) (root r) k c -∗ Φ (mkTree (root (unlink ctx c x)) n)) -∗
  wp (unlink_node fuel (mkTree rt n) p) Φ.
Proof.
  iIntros (Hrb Hctx Hl Hx) "#Hs Hc Ht HΦ". cbn [tree_own]. iDestruct "Ht" as "(Hp & Hl & Hr)". iDestruct (root_null with "Hs Hl") as %Hnull.
  iAssert (tree_own p x) with "[Hl Hr]" as "Hx"; [destruct Hx as [[-> ->]|(_ & -> & ->)]; iFrame|].
  assert (Hc0 : (if (root l =? RBTREE_NULL)%nat then root r else root l) = root x).
  { destruct Hx as [[-> ->]|(Hne & -> & ->)]; [done|]. by rewrite (proj2 (Nat.eqb_neq _ _) (fun E0 => Hne (proj1 Hnull E0))). }
  assert (Hrx : exists cx j, is_rb x cx j /\ rb_ctx ctx pc (above c j)).
  { destruct Hx as [[-> ->]|(_ & -> & ->)]; inversion Hrb; subst; by do 2 eexists. }
  destruct Hrx as (cx & j & Hrx & Hup).
  unfold unlink_node. rd "Hp". cbn [rb_left rb_right rb_parent rb_color]. rewrite Hc0. iApply wp_bind.
  iApply (wp_change_parent rt n ctx p (root x) with "Hs Hc Hp"). iIntros (rt') "Hc Hp". iApply wp_bind.
  iApply (wp_change_child with "Hs Hx"). iIntros "Hx". iApply wp_bind. iApply (wp_root_color with "Hs Hx"). iIntros "Hx".
  unfold unlink. iDestruct (root_null with "Hs Hx") as %Hxn. destruct c; [destruct (color x) eqn:Hcx|].
  - iApply (wp_delete_fixup with "Hs Hc Hx"); [|exact Hup|done|].
    { rewrite -Hcx (rb_color_of _ _ _ Hrx). exact Hrx. }
    iIntros "Ht". iApply ("HΦ" with "Ht Hp").
  - assert (Hxe : x <> E) by (by intros ->). rewrite (proj2 (Nat.eqb_neq _ _) (fun E0 => Hxe (proj1 Hxn E0))). iApply wp_bind.
    iApply (wp_root_paint with "Hx"); [done|]. iIntros "Hx". iApply wp_ret. rewrite -(root_dye BLACK x). iDestruct (ctx_root with "Hc") as %->.
    iApply ("HΦ" with "[Hc Hx] Hp"). rewrite zip_own. iFrame.
  - iApply wp_ret. iDestruct (ctx_root with "Hc") as %->. iApply ("HΦ" with "[Hc Hx] Hp"). rewrite zip_own. iFrame.
Qed.

Lemma wp_delete cmp fuel t key m n (Φ : option ptr * rbtree -> iProp Σ) : is_rb t BLACK m -> (height t <= fuel)%nat ->
  sent -∗ tree_own RBTREE_NULL t -∗
  match rb_delete cmp t key with
  | (t', Some (p, k)) => tree_own RBTREE_NULL t' -∗ p ↦ null_node k -∗ Φ (Some p, mkTree (root t') (u64 (n - 1)))
  | (_, None) => tree_own RBTREE_NULL t -∗ Φ (None, mkTree (root t) n)
  end -∗
  wp (rbtree_delete cmp fuel (mkTree (root t) n) key) Φ.
Proof.
  iIntros (Hrb Hh) "#Hs Ht HΦ". unfold rbtree_delete, rb_delete. iApply wp_bind. iApply (wp_search with "Hs Ht"); [done|]. iIntros "Ht".
  pose proof (locate_zip cmp key t []) as Ez. destruct (locate cmp key t []) as [ctx [|c l p k r]]; [iApply wp_ret; by iApply "HΦ"|].
  cbn [zip] in Ez. subst t. rewrite zip_own. iDestruct "Ht" as "[Hc Ht]". cbn [root] in *. cbn [rb_root rb_count].
  set (t := zip ctx (T c l p k r)) in *. destruct (unzip_rb ctx _ _ Hrb) as (pc & c' & j & Hctx & Hnode & _).
  iAssert (∀ ctx' c1 l1 k1 r1 x q kq pc1 cc1 m1 rt', ⌜is_rb (T c1 l1 q kq r1) cc1 m1 /\ rb_ctx ctx' pc1 m1 /\ (length ctx' <= fuel)%nat /\
      (l1 = E /\ x = r1 \/ l1 <> E /\ r1 = E /\ x = l1) /\ delete_at ctx c l r = unlink ctx' c1 x /\ k1 = k⌝ -∗
    ctx_own rt' ctx' p -∗ tree_own (ctx_parent ctx') (T c1 l1 p k1 r1) -∗
    wp (bind (unlink_node fuel (mkTree rt' (u64 (n - 1))) p) (fun tr =>
        bind (modify p (fun n => mkNode RBTREE_NULL RBTREE_NULL RBTREE_NULL (rb_key n) BLACK)) (fun _ => ret (Some p, tr)))) Φ)%I with "[HΦ]" as "Hgo".
  { iIntros (ctx' c1 l1 k1 r1 x q kq pc1 cc1 m1 rt' (H1 & H2 & H3 & H4 & H5 & ->)) "Hc Ht". iApply wp_bind.
    iApply (wp_unlink with "Hs Hc Ht"); [done..|]. iIntros "Ht Hp". wr "Hp". iApply wp_ret. rewrite -H5. iApply ("HΦ" with "Ht Hp"). }
  assert (Hlen : (length ctx <= fuel)%nat) by (pose proof (height_zip ctx (T c l p k r)); subst t; lia).
  iEval (cbn [tree_own]) in "Ht". iDestruct "Ht" as "(Hp & Hl & Hr)". rd "Hp". cbn [rb_left rb_right].
  iDestruct (root_null with "Hs Hl") as %Hln. iDestruct (root_null with "Hs Hr") as %Hrn. iApply wp_bind.
  destruct l as [|lc ll lp lk lr] eqn:El; [|destruct r as [|rc rl rp rk rr]].
  - rewrite Nat.eqb_refl. iApply wp_ret. iApply ("Hgo" $! ctx c E k r r p k with "[] Hc [Hp Hr]"); [|cbn [tree_own root]; by iFrame].
    iPureIntro. split_and!; eauto.
  - rewrite orb_true_r. iApply wp_ret. rewrite -El. iApply ("Hgo" $! ctx c l k E l p k with "[] Hc [Hp Hl]"); [|subst l; cbn [tree_own root]; iFrame].
    iPureIntro. subst l. split_and!; eauto.
  - rewrite (proj2 (Nat.eqb_neq _ _) (fun E0 => ltac:(by apply Hln in E0))) (proj2 (Nat.eqb_neq _ _) (fun E0 => ltac:(by apply Hrn in E0))).
    cbn [orb]. rewrite -El. pose proof (split_min_rb ctx c l p k rc rl rp rk rr m ltac:(by subst l)) as Hs.
    iApply (wp_swap_nodes fuel ctx c l p k rc rl rp rk rr with "Hs Hc [Hp Hl Hr]").
    { pose proof (height_zip ctx (T c l p k (T rc rl rp rk rr))) as Hz. subst t l. cbn [height] in Hz. cbn [height]. lia. }
    { subst l. cbn [tree_own]. iFrame. }
    iIntros (rt'). destruct (split_min rl rc rp rk rr []) as [[[[low sc] sp] sk] sr] eqn:Esm. iIntros "Hc Ht".
    destruct Hs as (Hlt & m' & Hm' & _). destruct (unzip_rb _ _ _ Hm') as (pc' & cc' & j' & Hctx' & Hnode' & _).
    iApply ("Hgo" $! (low ++ F R c sp sk l :: ctx) sc E k sr sr sp sk with "[] Hc [Ht]").
    + iPureIntro. split_and!; eauto; [subst t l; lia|]. subst l. cbn [delete_at]. by rewrite Esm.
    + by rewrite low_parent_app.
Qed.
End Delete.
