(* ===== verification/RbIter.v ===== *)
(** Iteration over the red-black tree, in separation logic: the first and the last node,
    the neighbours of a node, the loop [RBTREE_FOR] and the postorder traversal visit the
    nodes of the shape in their order. *)
From iris.proofmode Require Import proofmode.
From iris.base_logic.lib Require Import gen_heap.
From stdpp Require Import base list numbers gmap.
From Stdlib Require Import ZArith Lia.
From S2P Require Import Prelude OrdTree RbTree RbShape RbHeap.
Open Scope Z_scope.
Set Warnings "-rewrite-rw".

Section Iter.
Context {K : Type} {Σ : gFunctors} `{!gen_heapGS ptr (rbnode K) Σ}.
Implicit Types (t s : tree (K := K)) (ctx : list (frame (K := K))).

Lemma wp_end d fuel t (Φ : ptr -> iProp Σ) : (height t <= fuel)%nat -> sent -∗ tree_own RBTREE_NULL t -∗
  (tree_own RBTREE_NULL t -∗ Φ (List.hd RBTREE_NULL (inner (opp d) t))) -∗ wp (descend fuel d (root t)) Φ.
Proof.
  iIntros (Hh) "#Hs Ht HΦ". destruct t as [|c l p k r] eqn:Et.
  - iDestruct "Hs" as (k) "Hs". cbn [root]. destruct fuel; cbn [descend]; iApply wp_bind; iApply (wp_read with "Hs"); iIntros "_";
      destruct d; iApply wp_ret; by iApply "HΦ".
  - rewrite -Et in Hh |- *. iApply (wp_descend d fuel t RBTREE_NULL with "Hs Ht"); [by subst|done|]. by rewrite endmost_hd.
Qed.
Lemma wp_first fuel t n (Φ : ptr -> iProp Σ) : (height t <= fuel)%nat -> sent -∗ tree_own RBTREE_NULL t -∗
  (tree_own RBTREE_NULL t -∗ Φ (List.hd RBTREE_NULL (ptrs t))) -∗ wp (rbtree_first fuel (mkTree (root t) n)) Φ.
Proof. apply (wp_end L). Qed.
Lemma wp_last fuel t n (Φ : ptr -> iProp Σ) : (height t <= fuel)%nat -> sent -∗ tree_own RBTREE_NULL t -∗
  (tree_own RBTREE_NULL t -∗ Φ (List.hd RBTREE_NULL (rev (ptrs t)))) -∗ wp (rbtree_last fuel (mkTree (root t) n)) Φ.
Proof. apply (wp_end R). Qed.

Lemma wp_ascend d fuel : forall ctx q nq rt (Φ : ptr -> iProp Σ), (length ctx <= fuel)%nat -> sent -∗ ctx_own rt ctx q -∗ q ↦ nq -∗
  (ctx_own rt ctx q -∗ q ↦ nq -∗ Φ (List.hd RBTREE_NULL (outer d ctx))) -∗ wp (ascend fuel d q (ctx_parent ctx)) Φ.
Proof.
  induction fuel as [|fuel IH]; iIntros (ctx q nq rt Φ Hl) "#Hs Hc Hq HΦ"; (destruct ctx as [|[d' c p k s] ctx]; [|try (cbn in Hl; lia)]).
  1,2: cbn [ascend ctx_parent]; iApply wp_ret; destruct d; iApply ("HΦ" with "Hc Hq").
  cbn [ctx_own ctx_parent ascend]. iDestruct "Hc" as "(Hp & Ht & Hc)". iDestruct (not_null with "Hs Hp") as %Hnull.
  rewrite (proj2 (Nat.eqb_neq _ _) Hnull). iDestruct (root_ne with "Hs Ht Hq") as %Hne. rd "Hp".
  assert (Htest : (q =? child d (nd d' (ctx_parent ctx) q (root s) k c))%nat = bool_decide (d' = d)).
  { destruct d, d'; cbn; rewrite ?Nat.eqb_refl ?(proj2 (Nat.eqb_neq _ _) (not_eq_sym Hne)); done. }
  rewrite Htest nd_parent. case_bool_decide as Hd.
  - subst d'. iApply (IH ctx p with "Hs Hc Hp"); [cbn in Hl; lia|]. iIntros "Hc Hp".
    rewrite (_ : outer d (F d c p k s :: ctx) = outer d ctx); [|by destruct d]. iApply ("HΦ" with "[Hp Ht Hc] Hq"). iFrame.
  - iApply wp_ret. rewrite (_ : List.hd RBTREE_NULL (outer d (F d' c p k s :: ctx)) = p).
    + iApply ("HΦ" with "[Hp Ht Hc] Hq"). iFrame.
    + destruct d, d'; try done. cbn. rewrite !map_app !rev_app_distr. done.
Qed.

(** The neighbour of the node at a position. *)
Lemma wp_step d fuel ctx c l p k r rt (Φ : ptr -> iProp Σ) : (length ctx <= fuel)%nat -> (height (T c l p k r) <= fuel)%nat ->
  sent -∗ ctx_own rt ctx p -∗ tree_own (ctx_parent ctx) (T c l p k r) -∗
  (ctx_own rt ctx p -∗ tree_own (ctx_parent ctx) (T c l p k r) -∗
   Φ (List.hd RBTREE_NULL (inner d (match d with L => l | R => r end) ++ outer d ctx))) -∗
  wp (rbtree_step fuel d p) Φ.
Proof.
  iIntros (Hl Hh) "#Hs Hc Ht HΦ". cbn [tree_own]. iDestruct "Ht" as "(Hp & Hl & Hr)". unfold rbtree_step. rd "Hp".
  set (n := mkNode (ctx_parent ctx) (root l) (root r) k c).
  assert (Hch : child d n = root (match d with L => l | R => r end)) by (by destruct d). rewrite Hch.
  set (x := match d with L => l | R => r end) in *.
  iAssert (tree_own p x ∗ (tree_own p x -∗ tree_own p l ∗ tree_own p r))%I with "[Hl Hr]" as "[Hx Hback]".
  { unfold x. destruct d; [iFrame "Hl"; iIntros "$"; iFrame|iFrame "Hr"; iIntros "$"; iFrame]. }
  iDestruct (root_null with "Hs Hx") as %Hxn. destruct (Nat.eqb_spec (root x) RBTREE_NULL) as [E0|E0].
  - apply Hxn in E0. change (rb_parent n) with (ctx_parent ctx). iApply (wp_ascend with "Hs Hc Hp"); [done|]. iIntros "Hc Hp".
    iDestruct ("Hback" with "Hx") as "[Hl Hr]". rewrite E0. rewrite (_ : inner d E = []); [|by destruct d].
    iApply ("HΦ" with "Hc"). iFrame.
  - assert (Hxe : x <> E) by (intros E1; by apply E0, Hxn). iApply (wp_descend (opp d) fuel x RBTREE_NULL with "Hs Hx"); [done|destruct d; cbn [height] in Hh; subst x; lia|].
    iIntros "Hx". iDestruct ("Hback" with "Hx") as "[Hl Hr]". rewrite endmost_hd (_ : opp (opp d) = d); [|by destruct d].
    assert (Hne : inner d x <> []).
    { destruct x as [|? ? ? ? ?]; [done|]. destruct d; cbn [inner]; rewrite ptrs_T ?rev_app_distr; [cbn; by destruct (rev (ptrs x2))|by destruct (ptrs x1)]. }
    destruct (inner d x) as [|y ys]; [done|]. cbn [List.hd app]. iApply ("HΦ" with "Hc"). iFrame.
Qed.

(** The neighbours of an entry of the sequence. *)
Definition towards (d : side) (a b : list (ptr * K)) : list ptr := match d with L => rev (map fst a) | R => map fst b end.
Lemma wp_neighbour d fuel t a p k b (Φ : ptr -> iProp Σ) : inorder t = a ++ (p, k) :: b -> (height t <= fuel)%nat ->
  sent -∗ tree_own RBTREE_NULL t -∗ (tree_own RBTREE_NULL t -∗ Φ (List.hd RBTREE_NULL (towards d a b))) -∗ wp (rbtree_step fuel d p) Φ.
Proof.
  iIntros (Ht Hh) "#Hs Ht HΦ". destruct (position_of t [] a p k b Ht) as (ctx & c & l & r & Hz & Ha & Hb).
  cbn [zip before behind app] in Hz, Ha, Hb. rewrite app_nil_r in Hb. subst t a b. pose proof (height_zip ctx (T c l p k r)) as Hlen.
  rewrite zip_own. iDestruct "Ht" as "[Hc Ht]".
  iApply (wp_step d fuel ctx c l p k r with "Hs Hc Ht"); [lia|cbn [height] in *; lia|].
  iIntros "Hc Ht". rewrite (_ : towards d _ _ = inner d (match d with L => l | R => r end) ++ outer d ctx).
  - iApply "HΦ". iFrame.
  - unfold towards, inner, outer, ptrs. destruct d; rewrite map_app; [apply rev_app_distr|done].
Qed.
Lemma entry_not_null t a p k b : inorder t = a ++ (p, k) :: b -> sent -∗ tree_own RBTREE_NULL t -∗ ⌜p <> RBTREE_NULL⌝.
Proof.
  iIntros (Ht) "#Hs Ht". destruct (position_of t [] a p k b Ht) as (ctx & c & l & r & Hz & _). cbn [zip] in Hz. subst t.
  rewrite zip_own. iDestruct "Ht" as "[_ (Hp & _)]". iApply (not_null with "Hs Hp").
Qed.

Lemma wp_for_loop fuel t b : forall a steps (Φ : list ptr -> iProp Σ), inorder t = a ++ b -> (height t <= fuel)%nat -> (length b <= steps)%nat ->
  sent -∗ tree_own RBTREE_NULL t -∗ (tree_own RBTREE_NULL t -∗ Φ (map fst b)) -∗
  wp (for_loop fuel steps (List.hd RBTREE_NULL (map fst b))) Φ.
Proof.
  induction b as [|[p k] b IH]; iIntros (a steps Φ Ht Hh Hl) "#Hs Ht HΦ".
  - destruct steps; iApply wp_ret; by iApply "HΦ".
  - destruct steps as [|steps]; [cbn in Hl; lia|]. iDestruct (entry_not_null with "Hs Ht") as %Hnull; [done|].
    cbn [map fst List.hd for_loop]. rewrite (proj2 (Nat.eqb_neq _ _) Hnull). iApply wp_bind.
    iApply (wp_neighbour R fuel t a p k b with "Hs Ht"); [done..|]. iIntros "Ht". iApply wp_bind.
    iApply (IH (a ++ [(p, k)]) steps with "Hs Ht"); [by rewrite -app_assoc|done|cbn in Hl; lia|]. iIntros "Ht". iApply wp_ret. by iApply "HΦ".
Qed.
Lemma wp_RBTREE_FOR fuel t n (Φ : list ptr -> iProp Σ) : (height t <= fuel)%nat -> (length (inorder t) <= fuel)%nat ->
  sent -∗ tree_own RBTREE_NULL t -∗ (tree_own RBTREE_NULL t -∗ Φ (ptrs t)) -∗ wp (RBTREE_FOR fuel (mkTree (root t) n)) Φ.
Proof.
  iIntros (Hh Hl) "#Hs Ht HΦ". unfold RBTREE_FOR. iApply wp_bind. iApply (wp_first with "Hs Ht"); [done|]. iIntros "Ht".
  by iApply (wp_for_loop fuel t (inorder t) [] with "Hs Ht HΦ").
Qed.
Lemma wp_postorder fuel : forall t par (Φ : list ptr -> iProp Σ), (height t <= fuel)%nat -> sent -∗ tree_own par t -∗
  (tree_own par t -∗ Φ (postorder t)) -∗ wp (traverse_post fuel (root t)) Φ.
Proof.
  induction fuel as [|fuel IH]; iIntros (t par Φ Hh) "#Hs Ht HΦ"; (destruct t as [|c l p k r]; [|try (cbn in Hh; lia)]).
  1,2: cbn [traverse_post root postorder]; iApply wp_ret; by iApply "HΦ".
  cbn [height] in Hh. cbn [root tree_own postorder traverse_post]. iDestruct "Ht" as "(Hp & Hl & Hr)".
  iDestruct (not_null with "Hs Hp") as %Hnull. rewrite (proj2 (Nat.eqb_neq _ _) Hnull). rd "Hp". cbn [rb_left rb_right].
  iApply wp_bind. iApply (IH with "Hs Hl"); [lia|]. iIntros "Hl". iApply wp_bind. iApply (IH with "Hs Hr"); [lia|]. iIntros "Hr".
  iApply wp_ret. iApply "HΦ". iFrame.
Qed.
End Iter.
