(* ===== verification/RbRefine.v ===== *)
(** The red-black tree as its clients see it: the pointer code of RbTree refines the
    operations on sequences of OrdTree.

    [rb_state h tr l] says that the heap holds a well-formed red-black tree with the
    in-order sequence [l].  The separation logic of RbHeap, RbDelete and RbIter is used
    through one adequacy lemma, [run_tree]; the theorems do not mention it. *)
From iris.proofmode Require Import proofmode.
From iris.base_logic.lib Require Import gen_heap.
From stdpp Require Import base list numbers gmap.
From Stdlib Require Import ZArith Lia Sorted.
From S2P Require Import Prelude OrdTree RbTree RbShape RbHeap RbDelete RbIter.
Open Scope Z_scope.
Set Warnings "-rewrite-rw".

(** ** Shapes in a heap *)
Section Layout.
Context {K : Type}.
Implicit Types (t : tree (K := K)) (h : gmap ptr (rbnode K)).

(** Every node of the shape is where its pointers say, with the right contents. *)
Fixpoint laid_out h (par : ptr) t : Prop :=
  match t with
  | E => True
  | T c l p k r => h !! p = Some (mkNode par (root l) (root r) k c) /\ laid_out h p l /\ laid_out h p r
  end.
Lemma laid_out_in h t : forall par q, laid_out h par t -> In q (ptrs t) -> exists n, h !! q = Some n.
Proof.
  induction t as [|c l IHl p k r IHr]; intros par q Ht Hq; [done|]. destruct Ht as (Hp & Hl & Hr). rewrite ptrs_T in Hq.
  apply in_app_iff in Hq as [Hq|[<-|Hq]]; [by eapply IHl|by eexists|by eapply IHr].
Qed.
Lemma laid_out_agree h h' t : forall par q, laid_out h par t -> laid_out h' par t -> In q (ptrs t) -> h' !! q = h !! q.
Proof.
  induction t as [|c l IHl p k r IHr]; intros par q Ht Ht' Hq; [done|]. destruct Ht as (Hp & Hl & Hr), Ht' as (Hp' & Hl' & Hr').
  rewrite ptrs_T in Hq. apply in_app_iff in Hq as [Hq|[<-|Hq]]; [by eapply IHl|by rewrite Hp Hp'|by eapply IHr].
Qed.

Context {Σ : gFunctors} `{!gen_heapGS ptr (rbnode K) Σ}.
Lemma own_laid_out h t : forall par, gen_heap_interp h -∗ tree_own par t -∗ ⌜laid_out h par t⌝.
Proof.
  induction t as [|c l IHl p k r IHr]; iIntros (par) "Hh Ht"; [done|]. iDestruct "Ht" as "(Hp & Hl & Hr)".
  iDestruct (gen_heap_valid with "Hh Hp") as %Hp. iDestruct (IHl with "Hh Hl") as %Hl. iDestruct (IHr with "Hh Hr") as %Hr. done.
Qed.
(** A cell with its contents in a given heap. *)
Definition held h (q : ptr) : iProp Σ := ∃ n, ⌜h !! q = Some n⌝ ∗ q ↦ n.
Lemma tree_own_held h t : forall par, laid_out h par t -> ([∗ list] q ∈ ptrs t, held h q) -∗ tree_own par t.
Proof.
  induction t as [|c l IHl p k r IHr]; iIntros (par Ht) "H"; [done|]. destruct Ht as (Hp & Hl & Hr). rewrite ptrs_T big_sepL_app big_sepL_cons.
  iDestruct "H" as "(Hl & (%n & %Hn & Hp) & Hr)". rewrite Hp in Hn. injection Hn as <-. cbn [tree_own]. iFrame "Hp".
  iSplitL "Hl"; [by iApply IHl|by iApply IHr].
Qed.
(** Owned cells are distinct. *)
Definition cells (l : list ptr) : iProp Σ := [∗ list] q ∈ l, ∃ n, q ↦ n.
Lemma cells_nodup l : cells l -∗ ⌜List.NoDup l⌝.
Proof.
  unfold cells. induction l as [|q l IH]; iIntros "H"; [iPureIntro; constructor|]. rewrite big_sepL_cons. iDestruct "H" as "[[%n Hq] H]".
  iAssert ⌜~ In q l⌝%I as %Hni.
  { iIntros (Hq). apply in_split in Hq as (a & b & ->). rewrite big_sepL_app big_sepL_cons. iDestruct "H" as "(_ & [%n' Hq'] & _)".
    iDestruct (pointsto_ne with "Hq Hq'") as %Hne. done. }
  iDestruct (IH with "H") as %Hnd. iPureIntro. by constructor.
Qed.
Lemma tree_own_cells t : forall par, tree_own par t -∗ cells (ptrs t).
Proof.
  induction t as [|c l IHl p k r IHr]; iIntros (par) "H"; [done|]. iDestruct "H" as "(Hp & Hl & Hr)". unfold cells. rewrite ptrs_T big_sepL_app big_sepL_cons.
  iSplitL "Hl"; [by iApply IHl|]. iSplitL "Hp"; [by iExists _|by iApply IHr].
Qed.
Lemma held_split h l : List.NoDup l -> (forall q, In q l -> exists n, h !! q = Some n) ->
  ([∗ map] q ↦ n ∈ h, (q ↦ n)) -∗
  ([∗ list] q ∈ l, held h q) ∗ ([∗ set] q ∈ dom h ∖ list_to_set l, held h q).
Proof.
  iIntros (Hnd Hin) "H". iAssert ([∗ set] q ∈ dom h, held h q)%I with "[H]" as "H".
  { rewrite -big_sepM_dom. iApply (big_sepM_mono with "H"). iIntros (q n Hq) "Hq". by iExists n; iFrame. }
  rewrite {1}(union_difference_L (list_to_set l : gset ptr) (dom h)).
  - rewrite big_sepS_union; [|set_solver]. rewrite big_sepS_list_to_set; [done|by apply NoDup_ListNoDup].
  - intros q Hq. apply elem_of_list_to_set, list_elem_of_In, Hin in Hq as [n Hq]. by apply elem_of_dom_2 in Hq.
Qed.
Lemma held_kept h h' (s : gset ptr) : gen_heap_interp h' -∗ ([∗ set] q ∈ s, held h q) -∗ ⌜forall q, q ∈ s -> h' !! q = h !! q⌝.
Proof.
  iIntros "Hh H" (q Hq). iDestruct (big_sepS_elem_of with "H") as (n) "[%Hn Hp]"; [done|].
  iDestruct (gen_heap_valid with "Hh Hp") as %Hv. iPureIntro. by rewrite Hv Hn.
Qed.
End Layout.

(** ** From the logic to runs *)
Section Adequacy.
Context {K : Type}.
Implicit Types (t : tree (K := K)) (h : gmap ptr (rbnode K)).

Lemma cells_not_null {Σ : gFunctors} `{!gen_heapGS ptr (rbnode K) Σ} l : sent (K := K) -∗ cells l -∗ ⌜~ In RBTREE_NULL l⌝.
Proof.
  iIntros "#Hs H" (Hq). unfold cells. apply in_split in Hq as (a & b & ->). rewrite big_sepL_app big_sepL_cons.
  iDestruct "H" as "(_ & [%n Hp] & _)". by iDestruct (not_null with "Hs Hp") as %Hne.
Qed.

Lemma own_cells {Σ : gFunctors} `{!gen_heapGS ptr (rbnode K) Σ} (ys : list (ptr * rbnode K)) :
  ([∗ list] y ∈ ys, fst y ↦ snd y) -∗ cells (map fst ys).
Proof.
  unfold cells. induction ys as [|y ys IH]; [by iIntros|]. simpl. rewrite ?big_sepL_cons. iIntros "[Hy H]".
  iSplitL "Hy"; [by iExists _|by iApply IH].
Qed.
Lemma own_cells_valid {Σ : gFunctors} `{!gen_heapGS ptr (rbnode K) Σ} h (ys : list (ptr * rbnode K)) : gen_heap_interp h -∗
  ([∗ list] y ∈ ys, fst y ↦ snd y) -∗ ⌜Forall (fun y => h !! fst y = Some (snd y)) ys⌝.
Proof.
  iIntros "Hh". iInduction ys as [|y ys] "IH"; [by iIntros|]. rewrite big_sepL_cons. iIntros "[Hy H]".
  iDestruct (gen_heap_valid with "Hh Hy") as %Hy. iDestruct ("IH" with "Hh H") as %Hys. iPureIntro. by constructor.
Qed.

(** What a run leaves: the result, the new shape, cells outside it, and the rest of the
    heap unchanged. *)
Record outcome {A} (m : M (K := K) A) h (used : list ptr) (Q : A -> tree -> list (ptr * rbnode K) -> Prop)
    (a : A) h' t' ys : Prop := {
  out_run : m h = Ok (a, h');
  out_result : Q a t' ys;
  out_layout : laid_out h' RBTREE_NULL t';
  out_cells : Forall (fun y => h' !! fst y = Some (snd y)) ys;
  out_distinct : List.NoDup (RBTREE_NULL :: map fst ys ++ ptrs t');
  out_frame : forall q, ~ In q used -> h' !! q = h !! q
}.
Lemma run_tree {A} (m : M (K := K) A) h k0 t xs (Q : A -> tree -> list (ptr * rbnode K) -> Prop) :
  h !! RBTREE_NULL = Some (null_node k0) -> laid_out h RBTREE_NULL t -> List.NoDup (RBTREE_NULL :: xs ++ ptrs t) ->
  (forall x, In x xs -> exists n, h !! x = Some n) ->
  (forall (Σ : gFunctors) (HG : gen_heapGS ptr (rbnode K) Σ), ⊢ sent (K := K) -∗ tree_own RBTREE_NULL t -∗ ([∗ list] x ∈ xs, held h x) -∗
    wp m (λ a, ∃ t' ys, ⌜Q a t' ys⌝ ∗ tree_own RBTREE_NULL t' ∗ ([∗ list] y ∈ ys, fst y ↦ snd y))) ->
  exists a h' t' ys, outcome m h (xs ++ ptrs t) Q a h' t' ys.
Proof.
  intros Hnull Hlay Hnd Hxs Hwp. set (Σ := gen_heapΣ ptr (rbnode K)). apply (pure_soundness (PROP := iPropI Σ)). iApply bupd_elim.
  iMod (gen_heap_init h) as (HG) "(Hh & Hcells & _)".
  iDestruct (held_split h (RBTREE_NULL :: xs ++ ptrs t) Hnd with "Hcells") as "[Hl Hrest]".
  { intros q [<-|Hq]; [by eexists|]. apply in_app_iff in Hq as [Hq|Hq]; [by apply Hxs|by eapply laid_out_in]. }
  rewrite big_sepL_cons big_sepL_app. iDestruct "Hl" as "((%n0 & %E0 & Hs) & Hx & Ht)". rewrite Hnull in E0. injection E0 as <-.
  iMod (pointsto_persist with "Hs") as "#Hs". iAssert (sent (K := K)) as "#Hsent"; [by iExists k0|].
  iMod (Hwp Σ HG with "Hsent [Ht] Hx Hh") as (a h') "([%Hrun %Hdom] & Hh & %t' & %ys & %HQ & Ht & Hy)"; [by iApply tree_own_held|].
  iDestruct (own_laid_out with "Hh Ht") as %Hlay'. iDestruct (own_cells_valid with "Hh Hy") as %Hys.
  iDestruct (held_kept with "Hh Hrest") as %Hkept. iDestruct (gen_heap_valid with "Hh Hs") as %Hnull'.
  iAssert (cells (map fst ys ++ ptrs t')) with "[Ht Hy]" as "Hc".
  { unfold cells. rewrite big_sepL_app. iSplitL "Hy"; [by iApply own_cells|by iApply tree_own_cells]. }
  iDestruct (cells_not_null with "Hsent Hc") as %Hnn. iDestruct (cells_nodup with "Hc") as %Hnd'. iPureIntro.
  exists a, h', t', ys. split; [done..|by constructor|]. intros q Hq. destruct (decide (q = RBTREE_NULL)) as [->|Hne]; [by rewrite Hnull'|].
  destruct (h !! q) as [n|] eqn:Eq; [rewrite -Eq; apply Hkept|apply not_elem_of_dom; rewrite Hdom; by apply not_elem_of_dom].
  apply elem_of_difference. split; [by eapply elem_of_dom_2|]. rewrite elem_of_list_to_set list_elem_of_In. intros [?|?]; [by apply Hne|done].
Qed.
End Adequacy.

(** ** The states of the tree *)
Section Refine.
Context {K : Type} (cmp : K -> K -> Z) (D : K -> Prop) {CO : CmpOrder cmp D}.
#[local] Hint Extern 0 (TreeKey (ptr * K) _) => exact (entry_key cmp) : typeclass_instances.
Implicit Types (t : tree (K := K)) (h : gmap ptr (rbnode K)) (l : list (ptr * K)).

(** The heap holds the shape [t] as the tree [tr]. *)
Record rb_tree h (tr : rbtree) t : Prop := {
  st_null : exists k, h !! RBTREE_NULL = Some (null_node k);
  st_layout : laid_out h RBTREE_NULL t;
  st_distinct : List.NoDup (RBTREE_NULL :: ptrs t);
  st_tree : tr = mkTree (root t) (u64 (Z.of_nat (length (inorder t))));
  st_balanced : exists m, is_rb t BLACK m
}.
(** The heap holds a red-black tree with the sequence [l]. *)
Definition rb_state h (tr : rbtree) l : Prop := exists t, rb_tree h tr t /\ inorder t = l /\ tree_ok D l.

Lemma rb_state_fuel h tr t fuel : rb_tree h tr t -> (rb_fuel (length (inorder t)) <= fuel)%nat -> (height t <= fuel)%nat.
Proof. intros [_ _ _ _ [m Hm]] Hf. pose proof (rb_height_log t m Hm). lia. Qed.
Lemma u64_step n d : u64 (u64 n + d) = u64 (n + d).
Proof. unfold u64. by rewrite Zplus_mod_idemp_l. Qed.

(** A run that keeps the shape, and the other cells, leaves the heap as it was. *)
Lemma outcome_same {A} (m : M (K := K) A) h t xs Q (a : A) h' ys : outcome m h (xs ++ ptrs t) Q a h' t ys -> laid_out h RBTREE_NULL t ->
  (forall x, In x xs -> exists n, In (x, n) ys /\ h !! x = Some n) -> h' = h.
Proof.
  intros [_ _ Hlay' Hys _ Hframe] Hlay Hxs. apply map_eq. intros q. destruct (in_dec Nat.eq_dec q (ptrs t)); [by eapply laid_out_agree|].
  destruct (in_dec Nat.eq_dec q xs) as [Hq|Hq]; [|apply Hframe; rewrite in_app_iff; tauto].
  destruct (Hxs q Hq) as (n' & Hn & ->). rewrite List.Forall_forall in Hys. by apply (Hys _ Hn).
Qed.
Lemma run_same {A} (m : M (K := K) A) h tr t (v : A) : rb_tree h tr t ->
  (forall (Σ : gFunctors) (HG : gen_heapGS ptr (rbnode K) Σ) (Φ : A -> iProp Σ), sent (K := K) -∗ tree_own RBTREE_NULL t -∗
    (tree_own RBTREE_NULL t -∗ Φ v) -∗ wp m Φ) -> m h = Ok (v, h).
Proof.
  intros [[k0 Hnull] Hlay Hnd _ _] Hwp.
  destruct (run_tree m h k0 t [] (fun a t' ys => a = v /\ t' = t) Hnull Hlay Hnd ltac:(done)) as (a & h' & t' & ys & Hout).
  - iIntros (Σ HG) "#Hs Ht _". iApply (Hwp with "Hs Ht"). iIntros "Ht". iExists t, []. iFrame "Ht". by iSplit.
  - destruct (out_result _ _ _ _ _ _ _ _ Hout) as [-> ->]. rewrite (out_run _ _ _ _ _ _ _ _ Hout).
    by rewrite (outcome_same _ _ _ _ _ _ _ _ Hout Hlay ltac:(done)).
Qed.
(** The state after a run that inserts or deletes. *)
Lemma outcome_state {A} (m : M (K := K) A) h k0 xs Q (a : A) h' t' ys : h !! RBTREE_NULL = Some (null_node k0) -> ~ In RBTREE_NULL xs ->
  outcome m h xs Q a h' t' ys -> (exists m, is_rb t' BLACK m) -> rb_tree h' (mkTree (root t') (u64 (Z.of_nat (length (inorder t'))))) t'.
Proof.
  intros Hnull Hxs [_ _ Hlay _ Hnd Hframe] Hrb. split; [|done| |done|done].
  - exists k0. rewrite Hframe; done.
  - apply NoDup_cons_iff in Hnd as [Hn Hnd]. rewrite in_app_iff in Hn. constructor; [tauto|]. by eapply NoDup_app_remove_l.
Qed.

(** *** Insertion *)
Definition insert_result t x (n : rbnode K) (a : option ptr * rbtree) (t' : tree) (ys : list (ptr * rbnode K)) : Prop :=
  match rb_insert cmp t x (rb_key n) with
  | Some t1 => a = (Some x, mkTree (root t1) (u64 (Z.of_nat (length (inorder t)) + 1))) /\ t' = t1 /\ ys = []
  | None => a = (None, mkTree (root t) (u64 (Z.of_nat (length (inorder t))))) /\ t' = t /\ ys = [(x, n)]
  end.
Lemma run_insert fuel h tr t x n : rb_tree h tr t -> h !! x = Some n -> ~ In x (RBTREE_NULL :: ptrs t) -> (height t <= fuel)%nat ->
  exists a h' t' ys, outcome (RbTree.rbtree_insert cmp fuel tr x) h ([x] ++ ptrs t) (insert_result t x n) a h' t' ys.
Proof.
  intros [[k0 Hnull] Hlay Hnd -> [m Hrb]] Hx Hnew Hh. eapply run_tree; [exact Hnull|exact Hlay| | |].
  - apply NoDup_cons_iff in Hnd as [Hn Hnd]. constructor; [intros [->|?]; [by apply Hnew; left|done]|].
    constructor; [|done]. intros ?. apply Hnew. by right.
  - intros q [<-|[]]. by eexists.
  - iIntros (Σ HG) "#Hs Ht [(%n0 & %E0 & Hx) _]". rewrite Hx in E0. injection E0 as <-.
    iApply (wp_insert with "Hs Ht Hx"); [done..|]. unfold insert_result. rewrite u64_step.
    destruct (rb_insert cmp t x (rb_key n)) as [t1|].
    + iIntros "Ht". iExists t1, []. iFrame "Ht". by iSplit.
    + iIntros "Ht Hx". iExists t, [(x, n)]. iFrame "Ht". simpl. iFrame "Hx". by iSplit.
Qed.

Lemma rbtree_insert_run fuel h tr l x n : rb_state h tr l -> h !! x = Some n -> D (rb_key n) -> ~ In x (RBTREE_NULL :: map fst l) ->
  (rb_fuel (length l) <= fuel)%nat ->
  match OrdTree.rbtree_insert l (x, rb_key n) with
  | None => RbTree.rbtree_insert cmp fuel tr x h = Ok (None, tr, h)
  | Some l' => exists tr' h', RbTree.rbtree_insert cmp fuel tr x h = Ok (Some x, tr', h') /\ rb_state h' tr' l' /\
      forall q, q <> x -> ~ In q (map fst l) -> h' !! q = h !! q
  end.
Proof.
  intros (t & Ht & <- & Hok) Hx HD Hnew Hfuel. pose proof (rb_state_fuel _ _ _ _ Ht Hfuel) as Hh.
  destruct (run_insert fuel h tr t x n Ht Hx Hnew Hh) as (a & h' & t' & ys & Hout).
  destruct Ht as [[k0 Hnull] Hlay Hnd -> [m Hrb]]. destruct (rb_insert_ok cmp D t x (rb_key n) m Hrb Hok HD) as [Hins Hbal].
  pose proof (out_result _ _ _ _ _ _ _ _ Hout) as HQ. pose proof (out_run _ _ _ _ _ _ _ _ Hout) as Hrun. unfold insert_result in HQ.
  rewrite Hins. destruct (rb_insert cmp t x (rb_key n)) as [t1|] eqn:Ei; cbn [fmap option_fmap option_map] in *; destruct HQ as (-> & -> & ->).
  - destruct (insert_some (TK := entry_key cmp) D (inorder t) (x, rb_key n) _ Hok HD Hins) as [Hok' Hperm]. apply Permutation_length in Hperm. cbn [length] in Hperm.
    do 2 eexists. split; [exact Hrun|]. split.
    + exists t1. split; [|done]. rewrite (_ : Z.of_nat (length (inorder t)) + 1 = Z.of_nat (length (inorder t1))); [|rewrite Hperm; lia].
      eapply outcome_state; [exact Hnull| |exact Hout|by apply Hbal]. apply NoDup_cons_iff in Hnd as [Hn _].
      intros [->|?]; [by apply Hnew; left|done].
    + intros q Hq1 Hq2. eapply out_frame; [exact Hout|]. intros [?|?]; [by apply Hq1|done].
  - rewrite Hrun. rewrite (outcome_same _ _ _ _ _ _ _ _ Hout Hlay); [done|]. intros q [<-|[]]. exists n. split; [by left|done].
Qed.

(** *** Deletion *)
Definition delete_result t key (a : option ptr * rbtree) (t' : tree) (ys : list (ptr * rbnode K)) : Prop :=
  match rb_delete cmp t key with
  | (t1, Some (p, k)) => a = (Some p, mkTree (root t1) (u64 (Z.of_nat (length (inorder t)) - 1))) /\ t' = t1 /\ ys = [(p, null_node k)]
  | (_, None) => a = (None, mkTree (root t) (u64 (Z.of_nat (length (inorder t))))) /\ t' = t /\ ys = []
  end.
Lemma run_delete fuel h tr t key : rb_tree h tr t -> (height t <= fuel)%nat ->
  exists a h' t' ys, outcome (RbTree.rbtree_delete cmp fuel tr key) h (ptrs t) (delete_result t key) a h' t' ys.
Proof.
  intros [[k0 Hnull] Hlay Hnd -> [m Hrb]] Hh. apply (run_tree _ h k0 t [] _ Hnull Hlay Hnd); [done|].
  iIntros (Σ HG) "#Hs Ht _". iApply (wp_delete with "Hs Ht"); [done..|]. unfold delete_result. unfold Z.sub. rewrite u64_step.
  destruct (rb_delete cmp t key) as [t1 [[p k]|]].
  - iIntros "Ht Hp". iExists t1, [(p, null_node k)]. iFrame "Ht". simpl. iFrame "Hp". by iSplit.
  - iIntros "Ht". iExists t, []. iFrame "Ht". by iSplit.
Qed.

Lemma rbtree_delete_run fuel h tr l key : rb_state h tr l -> D key -> (rb_fuel (length l) <= fuel)%nat ->
  match OrdTree.rbtree_delete l key with
  | (_, None) => RbTree.rbtree_delete cmp fuel tr key h = Ok (None, tr, h)
  | (l', Some (p, k)) => exists tr' h', RbTree.rbtree_delete cmp fuel tr key h = Ok (Some p, tr', h') /\ rb_state h' tr' l' /\
      h' !! p = Some (null_node k) /\ ~ In p (map fst l') /\ forall q, ~ In q (map fst l) -> h' !! q = h !! q
  end.
Proof.
  intros (t & Ht & <- & Hok) HD Hfuel. pose proof (rb_state_fuel _ _ _ _ Ht Hfuel) as Hh.
  destruct (run_delete fuel h tr t key Ht Hh) as (a & h' & t' & ys & Hout).
  destruct Ht as [[k0 Hnull] Hlay Hnd -> [m Hrb]]. destruct (rb_delete_ok cmp D t key m Hrb Hok HD) as [Hdel Hbal].
  pose proof (out_result _ _ _ _ _ _ _ _ Hout) as HQ. pose proof (out_run _ _ _ _ _ _ _ _ Hout) as Hrun. unfold delete_result in HQ.
  pose proof (delete_perm (TK := entry_key cmp) (inorder t) key) as Hperm. pose proof (delete_spec (TK := entry_key cmp) D _ key Hok HD) as [Hok' _].
  rewrite Hdel in Hperm Hok' |- *. destruct (rb_delete cmp t key) as [t1 [[p k]|]]; cbn [fst snd] in *; destruct HQ as (-> & -> & ->).
  - apply Permutation_length in Hperm. cbn [length] in Hperm. do 2 eexists. split; [exact Hrun|].
    pose proof (out_distinct _ _ _ _ _ _ _ _ Hout) as Hd. apply NoDup_cons_iff in Hd as [_ Hd]. apply NoDup_cons_iff in Hd as [Hp _].
    split; [|split; [|split; [done|]]].
    + exists t1. split; [|done]. rewrite (_ : Z.of_nat (length (inorder t)) - 1 = Z.of_nat (length (inorder t1))); [|rewrite Hperm; lia].
      eapply outcome_state; [exact Hnull| |exact Hout|exact Hbal]. by apply NoDup_cons_iff in Hnd as [Hn _].
    + pose proof (out_cells _ _ _ _ _ _ _ _ Hout) as Hy. by inversion Hy.
    + intros q Hq. by eapply out_frame.
  - rewrite Hrun. by rewrite (outcome_same _ _ _ [] _ _ _ _ Hout Hlay).
Qed.

(** *** Search and iteration *)

Lemma rbtree_search_run fuel h tr l key : rb_state h tr l -> D key -> (rb_fuel (length l) <= fuel)%nat ->
  let found := OrdTree.rbtree_search l key in
  RbTree.rbtree_search cmp fuel tr key h = Ok (option_map fst found, h) /\
  RbTree.rbtree_find_less_equal cmp fuel tr key h =
    Ok (match found with Some _ => true | None => false end, option_map fst (List.hd_error (rev (not_above cmp key l))), h).
Proof.
  intros (t & Ht & <- & Hok) HD Hfuel found. pose proof (rb_state_fuel _ _ _ _ Ht Hfuel) as Hh.
  pose proof (rb_search_ok cmp D t key Hok HD) as Hs. pose proof (st_tree _ _ _ Ht) as ->. unfold found. rewrite Hs. split.
  - eapply run_same; [exact Ht|]. iIntros (Σ HG Φ) "#Hs Ht HΦ". iApply (wp_search with "Hs Ht"); [done|]. iIntros "Ht".
    destruct (locate cmp key t []) as [ctx [|c l p k r]]; by iApply "HΦ".
  - match goal with |- _ = Ok (?v, h) => assert (Hfl : find_le cmp key t None = v) end.
    + pose proof (find_le_locate cmp key t [] None) as Hf. pose proof (find_le_ok cmp D key HD t None Hok) as Hle. unfold floor_of in Hle.
      destruct (find_le cmp key t None) as [b o]. cbn [fst snd] in *.
      destruct (locate cmp key t []) as [ctx [|c l p k r]]; [rewrite Hf|injection Hf as -> ->]; f_equal; rewrite Hle; by destruct (hd_error _).
    + rewrite -Hfl. eapply run_same; [exact Ht|]. iIntros (Σ HG Φ) "#Hs Ht HΦ". by iApply (wp_find_less_equal with "Hs Ht HΦ").
Qed.

(** C14: inserting a node into a heap that holds a red-black tree runs without touching memory outside the tree and the node,
    and refines the insertion into the sequence: a key that is there leaves everything as it was and returns the null pointer,
    a new key gives a red-black tree with the node at its place. *)
Theorem rbtree_insert_refines fuel h tr l x n : rb_state h tr l -> h !! x = Some n -> D (rb_key n) -> ~ In x (RBTREE_NULL :: map fst l) ->
  (rb_fuel (length l) <= fuel)%nat ->
  match OrdTree.rbtree_insert l (x, rb_key n) with
  | None => RbTree.rbtree_insert cmp fuel tr x h = Ok (None, tr, h)
  | Some l' => exists tr' h', RbTree.rbtree_insert cmp fuel tr x h = Ok (Some x, tr', h') /\ rb_state h' tr' l' /\
      forall q, q <> x -> ~ In q (map fst l) -> h' !! q = h !! q
  end.
Proof. apply rbtree_insert_run. Qed.

(** C13: deleting a key from a heap that holds a red-black tree runs without touching memory outside the tree, and refines the
    deletion from the sequence: the node with the key is returned unlinked and the others form a red-black tree again; a key that
    is not there leaves everything as it was. *)
Theorem rbtree_delete_refines fuel h tr l key : rb_state h tr l -> D key -> (rb_fuel (length l) <= fuel)%nat ->
  match OrdTree.rbtree_delete l key with
  | (_, None) => RbTree.rbtree_delete cmp fuel tr key h = Ok (None, tr, h)
  | (l', Some (p, k)) => exists tr' h', RbTree.rbtree_delete cmp fuel tr key h = Ok (Some p, tr', h') /\ rb_state h' tr' l' /\
      h' !! p = Some (null_node k) /\ ~ In p (map fst l') /\ forall q, ~ In q (map fst l) -> h' !! q = h !! q
  end.
Proof. apply rbtree_delete_run. Qed.

(** A search in a heap that holds a red-black tree returns the node the sequence has under the key, or null; the search for
    the next lower key also returns, when there is no such node, the last node of the sequence whose key is lower. *)
Theorem rbtree_search_refines fuel h tr l key : rb_state h tr l -> D key -> (rb_fuel (length l) <= fuel)%nat ->
  let found := OrdTree.rbtree_search l key in
  RbTree.rbtree_search cmp fuel tr key h = Ok (option_map fst found, h) /\
  RbTree.rbtree_find_less_equal cmp fuel tr key h =
    Ok (match found with Some _ => true | None => false end, option_map fst (List.hd_error (rev (not_above cmp key l))), h).
Proof. apply rbtree_search_run. Qed.

(** iteration over a heap that holds a red-black tree follows the sequence: the loop [RBTREE_FOR] visits the nodes in the
    order of their keys and ends, from each node the next and the previous one are its neighbours in the sequence, null at the
    ends, and the postorder traversal visits each node once. *)
Theorem rbtree_iteration fuel h tr l : rb_state h tr l -> (rb_fuel (length l) <= fuel)%nat -> (length l <= fuel)%nat ->
  RbTree.RBTREE_FOR fuel tr h = Ok (map fst l, h) /\
  RbTree.rbtree_first fuel tr h = Ok (List.hd RBTREE_NULL (map fst l), h) /\
  RbTree.rbtree_last fuel tr h = Ok (List.hd RBTREE_NULL (rev (map fst l)), h) /\
  (forall a p k b, l = a ++ (p, k) :: b ->
    RbTree.rbtree_next fuel p h = Ok (List.hd RBTREE_NULL (map fst b), h) /\
    RbTree.rbtree_previous fuel p h = Ok (List.hd RBTREE_NULL (rev (map fst a)), h)) /\
  exists post, RbTree.traverse_postorder fuel tr h = Ok (post, h) /\ Permutation post (map fst l).
Proof.
  intros (t & Ht & <- & Hok) Hfuel Hl. pose proof (rb_state_fuel _ _ _ _ Ht Hfuel) as Hh. pose proof (st_tree _ _ _ Ht) as ->.
  split_and!.
  - eapply run_same; [exact Ht|]. iIntros (Σ HG Φ) "#Hs Ht HΦ". by iApply (wp_RBTREE_FOR with "Hs Ht HΦ").
  - eapply run_same; [exact Ht|]. iIntros (Σ HG Φ) "#Hs Ht HΦ". by iApply (wp_first with "Hs Ht HΦ").
  - eapply run_same; [exact Ht|]. iIntros (Σ HG Φ) "#Hs Ht HΦ". by iApply (wp_last with "Hs Ht HΦ").
  - intros a p k b Hi. split; (eapply run_same; [exact Ht|]); iIntros (Σ HG Φ) "#Hs Ht HΦ".
    + by iApply (wp_neighbour R with "Hs Ht HΦ").
    + by iApply (wp_neighbour L with "Hs Ht HΦ").
  - exists (postorder t). split; [|apply postorder_perm]. eapply run_same; [exact Ht|]. iIntros (Σ HG Φ) "#Hs Ht HΦ".
    by iApply (wp_postorder with "Hs Ht HΦ").
Qed.
End Refine.

(** ** Sequences of calls *)
Section Runs.
Context {K : Type} (cmp : K -> K -> Z) (D : K -> Prop) {CO : CmpOrder cmp D}.
#[local] Hint Extern 0 (TreeKey (ptr * K) _) => exact (entry_key cmp) : typeclass_instances.
Implicit Types (h : gmap ptr (rbnode K)) (l : list (ptr * K)) (tr : rbtree).

Inductive rb_call : Type := Insert (x : ptr) | Delete (k : K) | Search (k : K).
Definition run_call (fuel : nat) (tr : rbtree) (c : rb_call) : M (K := K) (option ptr * rbtree) :=
  match c with
  | Insert x => RbTree.rbtree_insert cmp fuel tr x
  | Delete k => RbTree.rbtree_delete cmp fuel tr k
  | Search k => bind (RbTree.rbtree_search cmp fuel tr k) (fun r => ret (r, tr))
  end.
Fixpoint run_calls (fuel : nat) (tr : rbtree) (cs : list rb_call) : M (K := K) (list (option ptr) * rbtree) :=
  match cs with
  | [] => ret ([], tr)
  | c :: cs => bind (run_call fuel tr c) (fun r => bind (run_calls fuel (snd r) cs) (fun rs => ret (fst r :: fst rs, snd rs)))
  end.
(** The same calls on the sequence, for nodes with the keys [key]. *)
Definition call_spec (key : ptr -> K) l (c : rb_call) : option ptr * list (ptr * K) :=
  match c with
  | Insert x => match OrdTree.rbtree_insert l (x, key x) with Some l' => (Some x, l') | None => (None, l) end
  | Delete k => (option_map fst (snd (OrdTree.rbtree_delete l k)), fst (OrdTree.rbtree_delete l k))
  | Search k => (option_map fst (OrdTree.rbtree_search l k), l)
  end.
Fixpoint calls_spec (key : ptr -> K) l (cs : list rb_call) : list (option ptr) * list (ptr * K) :=
  match cs with
  | [] => ([], l)
  | c :: cs => let r := calls_spec key (snd (call_spec key l c)) cs in (fst (call_spec key l c) :: fst r, snd r)
  end.
(** What a caller has to see to: a node is not linked in twice. *)
Definition call_ok (nodes : list ptr) (key : ptr -> K) l (c : rb_call) : Prop :=
  match c with
  | Insert x => In x nodes /\ ~ In x (RBTREE_NULL :: map fst l) /\ D (key x)
  | Delete k | Search k => D k
  end.
Fixpoint calls_ok (nodes : list ptr) (key : ptr -> K) l (cs : list rb_call) : Prop :=
  match cs with [] => True | c :: cs => call_ok nodes key l c /\ calls_ok nodes key (snd (call_spec key l c)) cs end.

Record client_state (nodes : list ptr) (key : ptr -> K) h tr l : Prop := {
  cs_tree : rb_state cmp D h tr l;
  cs_entries : forall p k, In (p, k) l -> k = key p;
  cs_nodes : forall x, In x nodes -> exists n, h !! x = Some n /\ rb_key n = key x
}.
Lemma state_entry h tr l p k : rb_state cmp D h tr l -> In (p, k) l -> exists n, h !! p = Some n /\ rb_key n = k.
Proof.
  intros (t & [_ Hlay _ _ _] & <- & _) Hin. apply in_split in Hin as (a & b & Hin).
  destruct (position_of t [] a p k b Hin) as (ctx & c & l & r & Hz & _). cbn [zip] in Hz. subst t. clear Hin. revert Hlay.
  assert (Hgo : forall u par, laid_out h par (zip ctx u) -> laid_out h (match ctx with [] => par | _ => ctx_parent ctx end) u).
  { induction ctx as [|[d c' q kq s] ctx IH]; intros u par Hu; [done|]. specialize (IH _ _ Hu).
    destruct d; cbn [mk laid_out] in IH; destruct ctx; tauto. }
  intros Hlay. apply Hgo in Hlay as [Hp _]. by eexists.
Qed.
Lemma client_next nodes key h tr l h' tr' l' : client_state nodes key h tr l -> rb_state cmp D h' tr' l' ->
  (forall p k, In (p, k) l' -> k = key p) ->
  (forall q, ~ In q (map fst l') -> h' !! q = h !! q \/ exists n, h' !! q = Some n /\ rb_key n = key q) ->
  client_state nodes key h' tr' l'.
Proof.
  intros [Hst He Hn] Hst' He' Hframe. split; [done..|]. intros x Hx. destruct (in_dec Nat.eq_dec x (map fst l')) as [Hin|Hin].
  - apply in_map_iff in Hin as ([p k] & <- & Hin). destruct (state_entry _ _ _ _ _ Hst' Hin) as (n & Hp & <-). exists n. split; [done|]. by apply He'.
  - destruct (Hframe x Hin) as [->|]; [by apply Hn|done].
Qed.
Lemma rb_fuel_mono n m : (n <= m)%nat -> (rb_fuel n <= rb_fuel m)%nat.
Proof. intros Hnm. unfold rb_fuel. pose proof (Nat.log2_le_mono (S n) (S m) ltac:(lia)). lia. Qed.

Lemma run_call_ok nodes key fuel h tr l c : client_state nodes key h tr l -> call_ok nodes key l c -> (rb_fuel (length l) <= fuel)%nat ->
  exists tr' h', run_call fuel tr c h = Ok (fst (call_spec key l c), tr', h') /\ client_state nodes key h' tr' (snd (call_spec key l c)) /\
    (length (snd (call_spec key l c)) <= S (length l))%nat.
Proof.
  intros Hcs Hc Hf. pose proof Hcs as [Hst He Hn]. destruct c as [x|k|k]; cbn [run_call call_spec call_ok] in *.
  - destruct Hc as (Hx & Hnew & HD). destruct (Hn x Hx) as (n & Hxn & Hk). rewrite -Hk in HD |- *.
    pose proof (rbtree_insert_run cmp D fuel h tr l x n Hst Hxn HD Hnew Hf) as Hrun. pose proof (insert_perm (TK := entry_key cmp) l (x, rb_key n)) as Hp.
    destruct (OrdTree.rbtree_insert l (x, rb_key n)) as [l'|]; [|exists tr, h; cbn [fst snd]; split_and!; [done|done|lia]].
    destruct Hrun as (tr' & h' & Hrun & Hst' & Hframe). specialize (Hp l' eq_refl). exists tr', h'. cbn [fst snd]. split_and!; [done| |by rewrite Hp].
    eapply client_next; [exact Hcs|exact Hst'| |].
    + intros p k Hin. apply (Permutation_in _ Hp) in Hin as [[= <- <-]|Hin]; [done|by apply He].
    + intros q Hq. left. rewrite Hp in Hq. cbn in Hq. apply Hframe; [intros ->|]; tauto.
  - pose proof (rbtree_delete_run cmp D fuel h tr l k Hst Hc Hf) as Hrun. pose proof (delete_perm (TK := entry_key cmp) l k) as Hp.
    destruct (OrdTree.rbtree_delete l k) as [l' [[p kp]|]]; cbn [fst snd option_map] in *.
    + destruct Hrun as (tr' & h' & Hrun & Hst' & Hcell & _ & Hframe). exists tr', h'. split_and!; [done| |rewrite Hp; cbn; lia].
      assert (Hkp : kp = key p) by (apply He; rewrite Hp; by left). eapply client_next; [exact Hcs|exact Hst'| |].
      * intros q kq Hin. apply He. rewrite Hp. by right.
      * intros q Hq. destruct (Nat.eq_dec q p) as [->|Hne]; [right; by exists (null_node kp)|left]. apply Hframe. rewrite Hp. cbn. by intros [E0|?]; [apply Hne|].
    + subst l'. exists tr, h. split_and!; [done|done|lia].
  - destruct (rbtree_search_run cmp D fuel h tr l k Hst Hc Hf) as [Hrun _]. exists tr, h. split_and!; [unfold bind; by rewrite Hrun|done|cbn; lia].
Qed.

(** C36: any sequence of insertions, deletions and searches of a client that does not link a node in twice runs to its end on a
    heap with a red-black tree without an undefined memory access, returns what the sequence returns, and leaves a red-black
    tree with the final sequence. *)
Theorem rbtree_calls_safe nodes key fuel cs : forall h tr l, client_state nodes key h tr l -> calls_ok nodes key l cs ->
  (rb_fuel (length l + length cs) <= fuel)%nat ->
  exists tr' h', run_calls fuel tr cs h = Ok (fst (calls_spec key l cs), tr', h') /\ client_state nodes key h' tr' (snd (calls_spec key l cs)).
Proof.
  induction cs as [|c cs IH]; intros h tr l Hst Hok Hf; [by exists tr, h|]. destruct Hok as [Hc Hok]. cbn [length] in Hf.
  destruct (run_call_ok nodes key fuel h tr l c Hst Hc) as (tr1 & h1 & Hrun & Hst1 & Hlen).
  { pose proof (rb_fuel_mono (length l) (length l + S (length cs)) ltac:(lia)). lia. }
  destruct (IH h1 tr1 _ Hst1 Hok) as (tr2 & h2 & Hrun2 & Hst2).
  { pose proof (rb_fuel_mono (length (snd (call_spec key l c)) + length cs) (length l + S (length cs)) ltac:(lia)). lia. }
  exists tr2, h2. cbn [run_calls calls_spec fst snd]. split; [|done]. unfold bind. rewrite Hrun. cbn [rbind fst snd]. by rewrite Hrun2.
Qed.
End Runs.

(** ** Examples: integers as keys *)
#[export] Instance ex_cmp_order : CmpOrder ex_cmp (fun _ => True).
Proof. unfold ex_cmp. constructor; intros; lia. Qed.
(** Nodes 1 to 6 have the keys 10 to 60; 2, 4, 5 and 6 are in the tree. *)
Definition ex_shape : tree (K := Z) := T BLACK (T BLACK E 2 20 E) 4 40 (T BLACK E 5 50 (T RED E 6 60 E)).
Definition ex_node (p l r : ptr) (k : Z) (c : rbcolor) : rbnode Z := mkNode p l r k c.
Definition ex_tree_heap : gmap ptr (rbnode Z) := list_to_map [
  (0%nat, null_node 0); (1%nat, null_node 10); (2%nat, ex_node 4 0 0 20 BLACK); (3%nat, null_node 30); (4%nat, ex_node 0 2 5 40 BLACK);
  (5%nat, ex_node 4 0 6 50 BLACK); (6%nat, ex_node 5 0 0 60 RED)].
Definition ex_list : list (ptr * Z) := [(2%nat, 20); (4%nat, 40); (5%nat, 50); (6%nat, 60)].
Lemma ex_rb_state : rb_state ex_cmp (fun _ => True) ex_tree_heap (mkTree 4 4) ex_list.
Proof.
  exists ex_shape. split; [|split; [done|]].
  - split; [by exists 0|by vm_compute|vm_compute; repeat (constructor; [cbn; lia|]); constructor|done|].
    exists 2%nat. repeat econstructor.
  - split; repeat constructor.
Qed.
Lemma rbtree_insert_refines_witness : exists tr' h', RbTree.rbtree_insert ex_cmp 4 (mkTree 4 4) 3 ex_tree_heap = Ok (Some 3%nat, tr', h') /\
  rb_state ex_cmp (fun _ => True) h' tr' [(2%nat, 20); (3%nat, 30); (4%nat, 40); (5%nat, 50); (6%nat, 60)].
Proof.
  destruct (rbtree_insert_refines ex_cmp (fun _ => True) 4 ex_tree_heap (mkTree 4 4) ex_list 3 (null_node 30) ex_rb_state eq_refl I
    ltac:(vm_compute; lia) ltac:(vm_compute; lia)) as (tr' & h' & Hrun & Hst & _). exists tr', h'. by split.
Defined.
Lemma rbtree_delete_refines_witness : exists tr' h', RbTree.rbtree_delete ex_cmp 4 (mkTree 4 4) 20 ex_tree_heap = Ok (Some 2%nat, tr', h') /\
  rb_state ex_cmp (fun _ => True) h' tr' [(4%nat, 40); (5%nat, 50); (6%nat, 60)].
Proof.
  destruct (rbtree_delete_refines ex_cmp (fun _ => True) 4 ex_tree_heap (mkTree 4 4) ex_list 20 ex_rb_state I ltac:(vm_compute; lia))
    as (tr' & h' & Hrun & Hst & _). exists tr', h'. by split.
Defined.
Lemma rbtree_search_refines_witness : RbTree.rbtree_search ex_cmp 4 (mkTree 4 4) 50 ex_tree_heap = Ok (Some 5%nat, ex_tree_heap) /\
  RbTree.rbtree_find_less_equal ex_cmp 4 (mkTree 4 4) 45 ex_tree_heap = Ok (false, Some 4%nat, ex_tree_heap).
Proof.
  split.
  - exact (proj1 (rbtree_search_refines ex_cmp (fun _ => True) 4 ex_tree_heap (mkTree 4 4) ex_list 50 ex_rb_state I ltac:(vm_compute; lia))).
  - exact (proj2 (rbtree_search_refines ex_cmp (fun _ => True) 4 ex_tree_heap (mkTree 4 4) ex_list 45 ex_rb_state I ltac:(vm_compute; lia))).
Defined.
Lemma rbtree_iteration_witness : RbTree.RBTREE_FOR 4 (mkTree 4 4) ex_tree_heap = Ok ([2; 4; 5; 6]%nat, ex_tree_heap) /\
  RbTree.rbtree_next 4 2 ex_tree_heap = Ok (4%nat, ex_tree_heap).
Proof.
  destruct (rbtree_iteration ex_cmp (fun _ => True) 4 ex_tree_heap (mkTree 4 4) ex_list ex_rb_state ltac:(vm_compute; lia) ltac:(vm_compute; lia))
    as (Hfor & _ & _ & Hstep & _). split; [exact Hfor|]. exact (proj1 (Hstep [] 2%nat 20 [(4%nat, 40); (5%nat, 50); (6%nat, 60)] eq_refl)).
Defined.
Definition ex_key (p : ptr) : Z := 10 * Z.of_nat p.
Lemma ex_client : client_state ex_cmp (fun _ => True) [1; 2; 3; 4; 5; 6]%nat ex_key ex_tree_heap (mkTree 4 4) ex_list.
Proof.
  split; [exact ex_rb_state| |].
  - intros p k Hin. cbn in Hin. destruct Hin as [[= <- <-]|[[= <- <-]|[[= <- <-]|[[= <- <-]|[]]]]]; reflexivity.
  - intros x Hx. cbn in Hx. destruct Hx as [<-|[<-|[<-|[<-|[<-|[<-|[]]]]]]]; (eexists; split; [vm_compute; reflexivity|reflexivity]).
Qed.
Definition ex_calls : list rb_call := [Insert 3; Delete 40; Search 60; Delete 45; Insert 1; Delete 20].
Lemma rbtree_calls_safe_witness : exists tr' h',
  run_calls ex_cmp 10 (mkTree 4 4) ex_calls ex_tree_heap = Ok ([Some 3; Some 4; Some 6; None; Some 1; Some 2]%nat, tr', h') /\
  client_state ex_cmp (fun _ => True) [1; 2; 3; 4; 5; 6]%nat ex_key h' tr' [(1%nat, 10); (3%nat, 30); (5%nat, 50); (6%nat, 60)].
Proof.
  apply (rbtree_calls_safe ex_cmp (fun _ => True) [1; 2; 3; 4; 5; 6]%nat ex_key 10 ex_calls ex_tree_heap (mkTree 4 4) ex_list ex_client).
  - vm_compute. repeat split; try lia; auto 10.
  - vm_compute. lia.
Defined.
