(* ===== verification/TimerQueue.v ===== *)
(** The timer queue (ext/timerqueue/timerqueue.h, ext/timerqueue/timerqueue.c).

    Timers are heap objects: [heap] maps an address to the element, an address
    that is not in it is freed or was never allocated, and reading it is [UB].
    [rbt] is the queue's tree, the sequence of the addresses of its elements;
    the keys live in the elements, as in C, so the order is read through the
    heap.  [callback] is the closure (function and [arg]) stored in an element.
    [clk] and [rnd] are the successive results of [clock_gettime] and [rand],
    [ticks] and [rands] count the calls made so far. *)
From S2P Require Import Prelude OrdTree.
From stdpp Require Import base list numbers gmap.
From Stdlib Require Import ZArith Lia Sorted.
Open Scope Z_scope.
Open Scope c_scope.

Record timespec : Type := mkTimespec { tv_sec : Z; tv_nsec : Z }.

(** The macro [timespec_sub] (also in util/util.h). *)
Definition timespec_sub (after before : timespec) : timespec :=
  let s := tv_sec after - tv_sec before in
  let n := tv_nsec after - tv_nsec before in
  if n <? 0 then {| tv_sec := s - 1; tv_nsec := n + 1000000000 |}
  else {| tv_sec := s; tv_nsec := n |}.

(** [usec] is an [unsigned long]: a negative [int] argument wraps. *)
Definition timespec_add_usec (t : timespec) (usec : Z) : timespec :=
  let add := u64 (tv_nsec t + u64 (u64 usec * 1000)) in
  {| tv_sec := tv_sec t + add / 1000000000; tv_nsec := add mod 1000000000 |}.

Definition check_expire (expiretime currtime : timespec) : bool :=
  if tv_sec expiretime =? tv_sec currtime
  then tv_nsec expiretime <=? tv_nsec currtime
  else tv_sec expiretime <? tv_sec currtime.

Record TqKey : Type := mkTqKey { expire : timespec; ptr : Z }.

Definition compare_elem (n1 n2 : TqKey) : Z :=
  if (tv_nsec (expire n1) =? tv_nsec (expire n2)) && (tv_sec (expire n1) =? tv_sec (expire n2))
  then if ptr n2 <? ptr n1 then 1 else if ptr n1 <? ptr n2 then -1 else 0
  else if check_expire (expire n1) (expire n2) then -1 else 1.

Record TimerqueueElem (C : Type) : Type := mkTimer {
  priv_rbk : timespec;         (** [priv_rbk.expire]; [priv_rbk.ptr] is the address *)
  max_jitter : Z;
  active : Z;
  attached : Z;
  free_on_detach : Z;
  interval_us : Z;
  use_once : Z;
  callback : option C;
  detached_callback : option C
}.
Arguments mkTimer {C}.
Arguments priv_rbk {C}.
Arguments max_jitter {C}.
Arguments active {C}.
Arguments attached {C}.
Arguments free_on_detach {C}.
Arguments interval_us {C}.
Arguments use_once {C}.
Arguments callback {C}.
Arguments detached_callback {C}.

Record TimerqueueContext (C : Type) : Type := mkTq {
  heap : gmap Z (TimerqueueElem C);
  rbt : list Z;
  next_ptr : Z;                (** the address the next [malloc] returns *)
  clk : nat -> timespec;
  ticks : nat;
  rnd : nat -> Z;
  rands : nat
}.
Arguments mkTq {C}.
Arguments heap {C}.
Arguments rbt {C}.
Arguments next_ptr {C}.
Arguments clk {C}.
Arguments ticks {C}.
Arguments rnd {C}.
Arguments rands {C}.

Section TimerQueue.
Context {C : Type}.
Implicit Types (tq : TimerqueueContext C) (h : gmap Z (TimerqueueElem C)).

Definition set_heap tq h :=
  {| heap := h; rbt := rbt tq; next_ptr := next_ptr tq; clk := clk tq;
     ticks := ticks tq; rnd := rnd tq; rands := rands tq |}.
Definition set_rbt tq t :=
  {| heap := heap tq; rbt := t; next_ptr := next_ptr tq; clk := clk tq;
     ticks := ticks tq; rnd := rnd tq; rands := rands tq |}.

Definition set_expire (t : timespec) (e : TimerqueueElem C) :=
  mkTimer t (max_jitter e) (active e) (attached e) (free_on_detach e)
    (interval_us e) (use_once e) (callback e) (detached_callback e).
Definition set_active (v : Z) (e : TimerqueueElem C) :=
  mkTimer (priv_rbk e) (max_jitter e) v (attached e) (free_on_detach e)
    (interval_us e) (use_once e) (callback e) (detached_callback e).
Definition set_attached (v : Z) (e : TimerqueueElem C) :=
  mkTimer (priv_rbk e) (max_jitter e) (active e) v (free_on_detach e)
    (interval_us e) (use_once e) (callback e) (detached_callback e).
Definition set_free_on_detach (v : Z) (e : TimerqueueElem C) :=
  mkTimer (priv_rbk e) (max_jitter e) (active e) (attached e) v
    (interval_us e) (use_once e) (callback e) (detached_callback e).
Definition set_interval (v : Z) (e : TimerqueueElem C) :=
  mkTimer (priv_rbk e) (max_jitter e) (active e) (attached e) (free_on_detach e)
    v (use_once e) (callback e) (detached_callback e).

(** Store through a pointer to a timer. *)
Definition poke tq (p : Z) (f : TimerqueueElem C -> TimerqueueElem C)
  : res (TimerqueueContext C) :=
  match heap tq !! p with
  | Some e => Ok (set_heap tq (<[p := f e]> (heap tq)))
  | None => UB
  end.
Definition peek tq (p : Z) : res (TimerqueueElem C) := deref (heap tq !! p).

Definition clock_gettime tq : TimerqueueContext C * timespec :=
  ({| heap := heap tq; rbt := rbt tq; next_ptr := next_ptr tq; clk := clk tq;
      ticks := S (ticks tq); rnd := rnd tq; rands := rands tq |}, clk tq (ticks tq)).
Definition rand tq : TimerqueueContext C * Z :=
  ({| heap := heap tq; rbt := rbt tq; next_ptr := next_ptr tq; clk := clk tq;
      ticks := ticks tq; rnd := rnd tq; rands := S (rands tq) |}, rnd tq (rands tq)).

(** The tree of timer addresses, keyed through the heap.  A dangling address
    in the tree would make the comparison [UB]; the queue invariant [tq_ok]
    excludes it, and the key read there is immaterial. *)
Definition key_at h (p : Z) : TqKey :=
  {| expire := match h !! p with Some e => priv_rbk e | None => mkTimespec 0 0 end;
     ptr := p |}.
Definition tq_tree h : TreeKey Z TqKey :=
  {| tkey := key_at h; tcmp := compare_elem |}.

Definition tq_insert tq (p : Z) : TimerqueueContext C :=
  set_rbt tq (@tree_put _ _ (tq_tree (heap tq)) (rbt tq) p).
Definition tq_delete tq (p : Z) : TimerqueueContext C :=
  set_rbt tq (fst (@rbtree_delete _ _ (tq_tree (heap tq)) (rbt tq) (key_at (heap tq) p))).

Definition new_elem : TimerqueueElem C :=
  mkTimer (mkTimespec 0 0) 0 0 0 0 0 0 None None.

Definition timerqueue_new_timer tq : TimerqueueContext C * Z :=
  ({| heap := <[next_ptr tq := new_elem]> (heap tq); rbt := rbt tq;
      next_ptr := next_ptr tq + 1; clk := clk tq; ticks := ticks tq;
      rnd := rnd tq; rands := rands tq |}, next_ptr tq).

Definition timerqueue_free_timer tq (p : Z) : res (TimerqueueContext C) :=
  let* e := peek tq p in
  let* tq := poke tq p (set_active 0) in
  if negb (attached e =? 0) then poke tq p (set_free_on_detach 1)
  else Ok (set_heap tq (delete p (heap tq))).

Definition timerqueue_register_timer tq (p : Z) : res (TimerqueueContext C) :=
  let* e := peek tq p in
  let '(tq, now) := clock_gettime tq in
  let* tq := poke tq p (set_expire (timespec_add_usec now (interval_us e))) in
  let tq := tq_insert tq p in
  let* tq := poke tq p (set_attached 1) in
  poke tq p (set_active 1).

Definition timerqueue_reactivate_timer tq (p : Z) : res (TimerqueueContext C) :=
  let* e := peek tq p in
  let* tq :=
    if attached e =? 1 then poke (tq_delete tq p) p (set_attached 0) else Ok tq in
  timerqueue_register_timer tq p.

Definition create_timerqueue (clk : nat -> timespec) (rnd : nat -> Z) : TimerqueueContext C :=
  {| heap := ∅; rbt := []; next_ptr := 1; clk := clk; ticks := 0; rnd := rnd; rands := 0 |}.

(** Set up a fresh timer; the idiom of every client of the queue.  [cb] is the
    callback, which may keep the address of its timer. *)
Definition start_timer tq (jitter interval once : Z) (cb : Z -> C)
  : res (TimerqueueContext C * Z) :=
  let '(tq, p) := timerqueue_new_timer tq in
  let* tq := poke tq p (fun e => mkTimer (priv_rbk e) jitter (active e) (attached e)
               (free_on_detach e) interval once (Some (cb p)) (detached_callback e)) in
  let* tq := timerqueue_register_timer tq p in
  Ok (tq, p).

(** ** The operations succeed on live timers, and touch no other timer. *)
Lemma poke_ok tq p f e : heap tq !! p = Some e ->
  poke tq p f = Ok (set_heap tq (<[p := f e]> (heap tq))).
Proof. intros H. unfold poke. by rewrite H. Qed.

(** What an operation on the timer [p] does to the others. *)
Definition only_timer tq tq' (p : Z) : Prop :=
  (exists e, heap tq' !! p = Some e) /\
  (forall q, q <> p -> heap tq' !! q = heap tq !! q) /\
  (forall q, q <> p -> In q (rbt tq') <-> In q (rbt tq)).

Lemma tq_insert_in tq p q : q <> p -> In q (rbt (tq_insert tq p)) <-> In q (rbt tq).
Proof.
  intros Hq. unfold tq_insert. cbn. split.
  - intros H. by apply in_put in H as [?|?].
  - unfold tree_put. destruct (rbtree_insert _ _) as [t|] eqn:E; [|done].
    apply insert_perm in E. intros H. rewrite E. by right.
Qed.

Lemma timerqueue_register_timer_ok tq p e :
  heap tq !! p = Some e ->
  exists tq', timerqueue_register_timer tq p = Ok tq' /\ only_timer tq tq' p /\
    next_ptr tq' = next_ptr tq /\
    heap tq' !! p = Some (set_active 1 (set_attached 1
      (set_expire (timespec_add_usec (clk tq (ticks tq)) (interval_us e)) e))).
Proof.
  intros H. unfold timerqueue_register_timer, peek. rewrite H. cbn [deref rbind clock_gettime].
  set (tq1 := {| heap := heap tq |}).
  rewrite (poke_ok tq1 p _ e H). cbn [rbind].
  erewrite poke_ok by (cbn; apply lookup_insert_eq). cbn [rbind].
  erewrite poke_ok by (cbn; apply lookup_insert_eq). eexists. split; [done|].
  split; [|split; [done|cbn; apply lookup_insert_eq]]. split; [|split].
  - cbn. rewrite lookup_insert_eq. eauto.
  - intros q Hq. cbn. by rewrite !lookup_insert_ne.
  - intros q Hq. cbn [rbt set_heap].
    pose proof (tq_insert_in (set_heap tq1 (<[p:=set_expire (timespec_add_usec (clk tq (ticks tq))
      (interval_us e)) e]> (heap tq1))) p q Hq) as Hi. exact Hi.
Qed.

Lemma only_timer_refl tq p e : heap tq !! p = Some e -> only_timer tq tq p.
Proof. intros H. split; [eauto|]. split; [done|tauto]. Qed.
Lemma only_timer_trans tq1 tq2 tq3 p :
  only_timer tq1 tq2 p -> only_timer tq2 tq3 p -> only_timer tq1 tq3 p.
Proof.
  intros (_ & H1 & R1) (E & H2 & R2). split; [done|]. split.
  - intros q Hq. by rewrite H2, H1.
  - intros q Hq. by rewrite R2, R1.
Qed.

(** A timer that can be used: allocated and not freed. *)
Definition live tq (p : Z) : Prop := exists e, heap tq !! p = Some e.

Lemma only_timer_live tq tq' p q : only_timer tq tq' p -> live tq q -> live tq' q.
Proof.
  intros (Hp & Ho & _) [e Hq]. destruct (decide (q = p)) as [->|Hne]; [done|].
  exists e. by rewrite Ho.
Qed.

Lemma tq_delete_in tq p q : q <> p ->
  (exists k, key_at (heap tq) p = k /\ forall r, compare_elem k (key_at (heap tq) r) = 0 -> r = p) ->
  In q (rbt (tq_delete tq p)) <-> In q (rbt tq).
Proof.
  intros Hq (k & Hk & Hinj). unfold tq_delete. cbn [rbt set_rbt]. rewrite Hk.
  induction (rbt tq) as [|x t IH]; [done|]. cbn [rbtree_delete tcmp tkey tq_tree].
  destruct (Z.eqb_spec (compare_elem k (key_at (heap tq) x)) 0) as [E|E]; cbn [fst].
  - apply Hinj in E as ->. cbn. split; [by right|]. by intros [->|].
  - cbn. by rewrite IH.
Qed.

Lemma compare_elem_ptr k1 k2 : compare_elem k1 k2 = 0 -> ptr k1 = ptr k2.
Proof.
  unfold compare_elem. destruct (_ && _).
  - bool_lia.
  - by destruct (check_expire _ _).
Qed.

Lemma timerqueue_reactivate_timer_ok tq p e :
  heap tq !! p = Some e ->
  exists tq', timerqueue_reactivate_timer tq p = Ok tq' /\ only_timer tq tq' p /\
    next_ptr tq' = next_ptr tq /\
    heap tq' !! p = Some (set_active 1 (set_attached 1
      (set_expire (timespec_add_usec (clk tq (ticks tq)) (interval_us e)) e))).
Proof.
  intros H. unfold timerqueue_reactivate_timer, peek. rewrite H. cbn [deref rbind].
  destruct (attached e =? 1); cbn [rbind]; [|by apply timerqueue_register_timer_ok].
  assert (Hd : heap (tq_delete tq p) !! p = Some e) by done.
  rewrite (poke_ok _ _ _ _ Hd). cbn [rbind].
  destruct (timerqueue_register_timer_ok (set_heap (tq_delete tq p)
    (<[p:=set_attached 0 e]> (heap (tq_delete tq p)))) p (set_attached 0 e)) as
    (tq' & -> & Ho & Hn & He); [cbn; apply lookup_insert_eq|].
  exists tq'. split; [done|]. split; [|split; [done|by rewrite He]].
  eapply only_timer_trans; [|exact Ho]. split; [|split].
  - cbn. rewrite lookup_insert_eq. eauto.
  - intros q Hq. cbn. by rewrite lookup_insert_ne.
  - intros q Hq. cbn [rbt set_heap]. apply tq_delete_in; [done|].
    eexists. split; [done|]. intros r Hr. apply compare_elem_ptr in Hr. by cbn in Hr.
Qed.

Lemma start_timer_ok tq jitter interval once cb :
  exists tq', start_timer tq jitter interval once cb = Ok (tq', next_ptr tq) /\
    only_timer tq tq' (next_ptr tq) /\ next_ptr tq' = next_ptr tq + 1 /\
    heap tq' !! next_ptr tq = Some (mkTimer (timespec_add_usec (clk tq (ticks tq)) interval)
      jitter 1 1 0 interval once (Some (cb (next_ptr tq))) None).
Proof.
  unfold start_timer, timerqueue_new_timer. set (p := next_ptr tq).
  erewrite poke_ok by (cbn; apply lookup_insert_eq). cbn [rbind heap set_heap].
  set (tq1 := set_heap _ _).
  set (e1 := mkTimer (mkTimespec 0 0) jitter 0 0 0 interval once (Some (cb p)) None : TimerqueueElem C).
  destruct (timerqueue_register_timer_ok tq1 p e1) as (tq' & -> & Ho & Hn & He);
    [cbn; apply lookup_insert_eq|]. cbn [rbind].
  exists tq'. split; [done|]. split; [|split; [done|by rewrite He]].
  eapply only_timer_trans; [|exact Ho]. split; [|split; [|done]].
  - exists e1. cbn. apply lookup_insert_eq.
  - intros q Hq. cbn. by rewrite !lookup_insert_ne.
Qed.

End TimerQueue.

(** [timerqueue_work], for a program state [S] that holds the queue and a
    function [run] that executes a callback on it. *)
Section Work.
Context {C S : Type} (get : S -> TimerqueueContext C)
  (set : S -> TimerqueueContext C -> S) (run : C -> S -> res S).

Definition on_tq (f : TimerqueueContext C -> res (TimerqueueContext C)) (s : S) : res S :=
  let* tq := f (get s) in Ok (set s tq).

(** The periodic branch: the next expiry, with jitter, and back in the tree. *)
Definition rearm (tq : TimerqueueContext C) (p : Z) : res (TimerqueueContext C) :=
  let* e := peek tq p in
  let '(tq, new_interval) :=
    if negb (max_jitter e =? 0) then
      let '(tq, r) := rand tq in
      (tq, i32 (interval_us e + Z.quot (i32 ((Z.rem r 100 + 1) * (max_jitter e * 2))) 100
                - max_jitter e))
    else (tq, interval_us e) in
  let* tq := poke tq p (fun e => set_expire (timespec_add_usec (priv_rbk e) new_interval) e) in
  Ok (tq_insert tq p).

(** One turn of the loop on the element [first]. *)
Definition fire (s : S) (first : Z) : res S :=
  let s := set s (tq_delete (get s) first) in
  let* e := peek (get s) first in
  let* s :=
    if negb (active e =? 0) then
      let* cb := deref (callback e) in
      let* s := run cb s in
      let* e := peek (get s) first in
      if negb (use_once e =? 0)
      then let* s := on_tq (fun tq => poke tq first (set_active 0)) s in
           on_tq (fun tq => poke tq first (set_attached 0)) s
      else on_tq (fun tq => rearm tq first) s
    else on_tq (fun tq => poke tq first (set_attached 0)) s in
  let* e := peek (get s) first in
  if attached e =? 0 then
    let* s := match detached_callback e with Some cb => run cb s | None => Ok s end in
    let* e := peek (get s) first in
    if negb (free_on_detach e =? 0)
    then Ok (set s (set_heap (get s) (delete first (heap (get s)))))
    else Ok s
  else Ok s.

(** The loop reads [first->priv_rbk] before it tests [first] again: on an
    emptied tree that reads past the sentinel node. *)
Fixpoint work_loop (fuel : nat) (currtime : timespec) (s : S) : res S :=
  match fuel with
  | O => NoFuel
  | Datatypes.S n =>
    let* first := deref (rbtree_first (rbt (get s))) in
    let* e := peek (get s) first in
    if check_expire (priv_rbk e) currtime
    then let* s := fire s first in work_loop n currtime s
    else Ok s
  end.

Definition timerqueue_work (fuel : nat) (s : S) : res S :=
  let '(tq, currtime) := clock_gettime (get s) in
  let s := set s tq in
  match rbtree_first (rbt (get s)) with
  | None => Ok s
  | Some _ => work_loop fuel currtime s
  end.
End Work.
