(* ===== verification/TimerWork.v ===== *)
(** The loop of the timer queue ([timerqueue_work] of ext/timerqueue/timerqueue.c).

    File TimerQueue models the loop for any program state and any callbacks.
    Here it is proved to end: [TimerClient] is what a client promises about its
    callbacks, and the theorem is proved against it.  Time is counted in
    nanoseconds; [lag] is how far a timer is overdue, every turn of the loop
    reduces the sum of the lags, and the loop ends when it is zero. *)
From S2P Require Import Prelude OrdTree TimerQueue.
From stdpp Require Import base list numbers gmap.
From Stdlib Require Import ZArith Lia Sorted.
Open Scope Z_scope.
Open Scope c_scope.

(** ** The order of the timers *)
(** By time, then by address. *)
Lemma compare_elem_lex s1 n1 p1 s2 n2 p2 :
  let c := compare_elem (mkTqKey (mkTimespec s1 n1) p1) (mkTqKey (mkTimespec s2 n2) p2) in
  (c < 0 <-> s1 < s2 \/ s1 = s2 /\ (n1 < n2 \/ n1 = n2 /\ p1 < p2)) /\
  (0 < c <-> s2 < s1 \/ s1 = s2 /\ (n2 < n1 \/ n1 = n2 /\ p2 < p1)).
Proof. unfold compare_elem, check_expire. cbn. bool_lia. Qed.

#[export] Instance compare_elem_order : CmpOrder compare_elem (fun _ => True).
Proof.
  split.
  - intros [[s1 n1] p1] [[s2 n2] p2] _ _. pose proof (compare_elem_lex s1 n1 p1 s2 n2 p2) as H.
    cbv zeta in H. split; intros E.
    + assert (s1 = s2 /\ n1 = n2 /\ p1 = p2) as (-> & -> & ->) by lia. done.
    + injection E as -> -> ->. lia.
  - intros [[s1 n1] p1] [[s2 n2] p2] _ _. pose proof (compare_elem_lex s1 n1 p1 s2 n2 p2).
    pose proof (compare_elem_lex s2 n2 p2 s1 n1 p1). cbv zeta in *. lia.
  - intros [[s1 n1] p1] [[s2 n2] p2] [[s3 n3] p3] _ _ _.
    pose proof (compare_elem_lex s1 n1 p1 s2 n2 p2). pose proof (compare_elem_lex s2 n2 p2 s3 n3 p3).
    pose proof (compare_elem_lex s1 n1 p1 s3 n3 p3). cbv zeta in *. lia.
Qed.

Lemma compare_elem_refl k : compare_elem k k = 0.
Proof. by apply (cmp_eq k k I I). Qed.

(** ** Time in nanoseconds *)
Definition ns (t : timespec) : Z := tv_sec t * 1000000000 + tv_nsec t.
Definition normal (t : timespec) : Prop := 0 <= tv_nsec t < 1000000000.

Lemma check_expire_ns t now : normal t -> normal now ->
  check_expire t now = (ns t <=? ns now).
Proof. unfold normal, check_expire, ns. intros. bool_lia. Qed.

Lemma add_usec_ns t usec : normal t -> 0 <= usec < 2 ^ 31 ->
  normal (timespec_add_usec t usec) /\ ns (timespec_add_usec t usec) = ns t + usec * 1000.
Proof.
  intros Ht Hu. unfold timespec_add_usec, normal, ns in *. cbn.
  replace (u64 (tv_nsec t + u64 (u64 usec * 1000))) with (tv_nsec t + usec * 1000)
    by (unfold u64; lia). lia.
Qed.

(** How far past its time a timer is. *)
Definition lag (now t : timespec) : Z := Z.max 0 (ns now - ns t + 1).

(** ** Well-formed queues *)
Section Queue.
Context {C : Type}.
Implicit Types (tq : TimerqueueContext C) (h : gmap Z (TimerqueueElem C)).

(** The new interval of a periodic timer stays positive and fits an [int]. *)
Record periodic_ok (e : TimerqueueElem C) : Prop := {
  per_jitter : 0 <= max_jitter e <= 10000000;
  per_interval : max_jitter e < interval_us e;
  per_int : interval_us e + max_jitter e < 2 ^ 31
}.

Record timer_ok (e : TimerqueueElem C) : Prop := {
  tm_normal : normal (priv_rbk e);
  tm_callback : active e <> 0 -> exists cb, callback e = Some cb;
  tm_periodic : use_once e = 0 -> periodic_ok e
}.

Record tq_ok tq : Prop := {
  tq_sorted : @tree_ok _ _ (tq_tree (heap tq)) (fun _ => True) (rbt tq);
  tq_live : forall p, In p (rbt tq) -> exists e, heap tq !! p = Some e /\ timer_ok e /\ attached e <> 0;
  tq_clk : forall n, normal (clk tq n);
  tq_rnd : forall n, 0 <= rnd tq n
}.

Definition lag_at (now : timespec) h (p : Z) : Z :=
  match h !! p with Some e => lag now (priv_rbk e) | None => 0 end.
Definition lags (now : timespec) h (l : list Z) : Z := foldr Z.add 0 (map (lag_at now h) l).

Lemma lag_nonneg now t : 0 <= lag now t.
Proof using. unfold lag. lia. Qed.
Lemma lag_at_nonneg now h p : 0 <= lag_at now h p.
Proof using. unfold lag_at. destruct (h !! p); [apply lag_nonneg|lia]. Qed.
Lemma lags_nonneg now h l : 0 <= lags now h l.
Proof using.
  unfold lags. induction l as [|p l IH]; cbn; [lia|]. pose proof (lag_at_nonneg now h p). lia.
Qed.
Lemma lags_perm now h l l' : Permutation l l' -> lags now h l = lags now h l'.
Proof using. unfold lags. induction 1; cbn; lia. Qed.
Lemma lags_same now h h' l : (forall p, In p l -> h' !! p = h !! p) -> lags now h' l = lags now h l.
Proof using.
  unfold lags. intros H. induction l as [|p l IH]; cbn; [done|].
  unfold lag_at at 1 3. rewrite H by (by left). rewrite IH; [done|]. intros q Hq. apply H. by right.
Qed.

(** The order of a tree is read through the heap, but only at its members. *)
Lemma sorted_same h h' l :
  (forall p, In p l -> h' !! p = h !! p) ->
  @tree_ok _ _ (tq_tree h) (fun _ => True) l -> @tree_ok _ _ (tq_tree h') (fun _ => True) l.
Proof using.
  intros H. induction l as [|p l IH]; intros Hok; [apply tree_ok_nil|].
  apply tree_ok_cons in Hok as (_ & Hok & Hlt). apply tree_ok_cons. split; [done|].
  split; [apply IH; [|done]; intros q Hq; apply H; by right|].
  apply List.Forall_forall. intros q Hq. pose proof (proj1 (List.Forall_forall _ _) Hlt q Hq) as Hl.
  unfold tlt in *. cbn in *. unfold key_at in *. rewrite (H p), (H q) by auto. exact Hl.
Qed.

(** Deleting the first timer. *)
Lemma delete_first tq p : rbtree_first (rbt tq) = Some p ->
  exists l, rbt tq = p :: l /\ tq_delete tq p = set_rbt tq l.
Proof using.
  unfold rbtree_first, tq_delete. destruct (rbt tq) as [|x l] eqn:E; [done|]. cbn [hd_error].
  intros [= ->]. exists l. split; [done|]. cbn. by rewrite compare_elem_refl.
Qed.

Lemma sorted_notin h p l :
  @tree_ok _ _ (tq_tree h) (fun _ => True) (p :: l) -> ~ In p l.
Proof using.
  intros Hok Hin. apply tree_ok_cons in Hok as (_ & _ & Hlt).
  pose proof (proj1 (List.Forall_forall _ _) Hlt p Hin) as Hl. unfold tlt in Hl.
  cbn in Hl. rewrite compare_elem_refl in Hl. lia.
Qed.

(** Inserting a timer that is not there. *)
Lemma insert_timer h l p :
  @tree_ok _ _ (tq_tree h) (fun _ => True) l -> ~ In p l ->
  @tree_ok _ _ (tq_tree h) (fun _ => True) (@tree_put _ _ (tq_tree h) l p) /\
  Permutation (@tree_put _ _ (tq_tree h) l p) (p :: l).
Proof using.
  intros Hok Hp. apply (put_fresh (fun _ => True)); [done|done|].
  apply (search_none_iff (fun _ => True)); [done|done|].
  intros Hk. apply in_keys_inv in Hk as (q & Hq & E). apply Hp.
  apply (f_equal ptr) in E. cbn in E. by subst.
Qed.

(** The next expiry of a periodic timer: later, and within the jitter. *)
Lemma rearm_ok now tq p e :
  @tree_ok _ _ (tq_tree (heap tq)) (fun _ => True) (rbt tq) -> ~ In p (rbt tq) ->
  heap tq !! p = Some e -> normal (priv_rbk e) -> periodic_ok e -> (forall n, 0 <= rnd tq n) ->
  ns (priv_rbk e) <= ns now ->
  exists tq' t, rearm tq p = Ok tq' /\ heap tq' = <[p := set_expire t e]> (heap tq) /\
    @tree_ok _ _ (tq_tree (heap tq')) (fun _ => True) (rbt tq') /\
    Permutation (rbt tq') (p :: rbt tq) /\ normal t /\
    interval_us e - max_jitter e <= (ns t - ns (priv_rbk e)) / 1000 <= interval_us e + max_jitter e /\
    lag now t < lag now (priv_rbk e) /\
    next_ptr tq' = next_ptr tq /\ clk tq' = clk tq /\ rnd tq' = rnd tq.
Proof using.
  intros Hok Hp He Hn [Hj Hi Hm] Hr Hnow.
  assert (Hrun : exists tq1 iv, interval_us e - max_jitter e <= iv <= interval_us e + max_jitter e /\
    0 < iv < 2 ^ 31 /\ heap tq1 = heap tq /\ rbt tq1 = rbt tq /\ next_ptr tq1 = next_ptr tq /\ clk tq1 = clk tq /\ rnd tq1 = rnd tq /\
    (if negb (max_jitter e =? 0) then
      let '(tq, r) := rand tq in
      (tq, i32 (interval_us e + Z.quot (i32 ((Z.rem r 100 + 1) * (max_jitter e * 2))) 100
                - max_jitter e))
     else (tq, interval_us e)) = (tq1, iv)).
  { destruct (Z.eqb_spec (max_jitter e) 0) as [E|E]; cbn [negb].
    { exists tq, (interval_us e). split; [lia|]. split; [lia|]. done. }
    pose proof (Hr (rands tq)) as Hr0. set (r := rnd tq (rands tq)) in *.
    assert (0 <= Z.rem r 100 < 100) by (apply Z.rem_bound_pos; lia).
    set (k := Z.rem r 100 + 1).
    assert (0 <= k * (max_jitter e * 2) <= 100 * (max_jitter e * 2)) by (unfold k; nia).
    assert (Ei : i32 (interval_us e + Z.quot (i32 (k * (max_jitter e * 2))) 100 - max_jitter e) =
                 interval_us e + k * (max_jitter e * 2) / 100 - max_jitter e).
    { rewrite (i32_id (k * _)) by lia. rewrite Z.quot_div_nonneg by lia. by rewrite i32_id by lia. }
    eexists (fst (rand tq)), _. cbn [rand fst]. fold r k. rewrite Ei.
    split; [|split; [|done]]; lia. }
  destruct Hrun as (tq1 & iv & Hiv & Hpos & Eh & Er & En & Ec & Ernd & Erun).
  unfold rearm, peek. rewrite He. cbn [deref rbind]. rewrite Erun. cbn [rbind].
  rewrite (poke_ok tq1 p _ e) by (by rewrite Eh). cbn [rbind].
  destruct (add_usec_ns (priv_rbk e) iv Hn) as [Hn' Hns]; [lia|].
  set (t := timespec_add_usec (priv_rbk e) iv) in *.
  assert (Hsame : forall q, In q (rbt tq) -> <[p:=set_expire t e]> (heap tq) !! q = heap tq !! q)
    by (intros q Hq; apply lookup_insert_ne; by intros ->).
  destruct (insert_timer (<[p:=set_expire t e]> (heap tq)) (rbt tq) p) as [Hok' Hperm];
    [by eapply sorted_same|done|].
  eexists _, t. split; [done|]. unfold tq_insert. cbn. rewrite Eh, Er, En, Ec, Ernd.
  split; [done|]. split; [done|]. split; [done|]. split; [done|].
  split; [rewrite Hns; lia|]. split; [unfold lag; lia|done].
Qed.

Lemma timer_ok_attached v e : timer_ok e -> timer_ok (set_attached v e).
Proof using. intros [? ? Hp]. constructor; try done. intros Hu. by destruct (Hp Hu). Qed.
Lemma timer_ok_inactive e : timer_ok e -> timer_ok (set_active 0 e).
Proof using. intros [? ? Hp]. constructor; try done. intros Hu. by destruct (Hp Hu). Qed.

(** The attached timers are in the tree, but for some. *)
Definition in_tree tq (but : Z -> Prop) : Prop :=
  forall q e, heap tq !! q = Some e -> attached e <> 0 -> In q (rbt tq) \/ but q.

(** A timer [p] is out of the tree while its callback runs. *)
Record queue_mid tq (p : Z) : Prop := {
  mid_ok : tq_ok tq;
  mid_out : ~ In p (rbt tq);
  mid_live : exists e, heap tq !! p = Some e /\ timer_ok e;
  mid_tree : in_tree tq (eq p)
}.

Lemma tq_ok_poke tq p e : tq_ok tq -> ~ In p (rbt tq) -> tq_ok (set_heap tq (<[p:=e]> (heap tq))).
Proof using.
  intros [Hs Hl Hc Hr] Hp.
  assert (Hsame : forall q, In q (rbt tq) -> <[p:=e]> (heap tq) !! q = heap tq !! q)
    by (intros q Hq; apply lookup_insert_ne; by intros ->).
  constructor; cbn; [by eapply sorted_same| |done|done].
  intros q Hq. rewrite Hsame by done. by apply Hl.
Qed.

Lemma tq_ok_free tq p : tq_ok tq -> ~ In p (rbt tq) -> tq_ok (set_heap tq (delete p (heap tq))).
Proof using.
  intros [Hs Hl Hc Hr] Hp.
  assert (Hsame : forall q, In q (rbt tq) -> delete p (heap tq) !! q = heap tq !! q)
    by (intros q Hq; apply lookup_delete_ne; by intros ->).
  constructor; cbn; [by eapply sorted_same| |done|done].
  intros q Hq. rewrite Hsame by done. by apply Hl.
Qed.

(** What the loop itself does to a timer: it may stop it, never start it. *)
Definition same_timer (e e' : TimerqueueElem C) : Prop :=
  max_jitter e' = max_jitter e /\ free_on_detach e' = free_on_detach e /\
  interval_us e' = interval_us e /\ use_once e' = use_once e /\
  callback e' = callback e /\ detached_callback e' = detached_callback e /\
  (active e' = active e \/ active e' = 0) /\ (attached e' = attached e \/ attached e' = 0).

Lemma same_timer_refl e : same_timer e e.
Proof using. repeat split; by left. Qed.
Lemma same_timer_expire t e : same_timer e (set_expire t e).
Proof using. repeat split; by left. Qed.
Lemma same_timer_detach e : same_timer e (set_attached 0 e).
Proof using. repeat split; [by left|by right]. Qed.
Lemma same_timer_stop e : same_timer e (set_active 0 e).
Proof using. repeat split; [by right|by left]. Qed.

(** The queues differ in the tree and in the state of the timer [p] only. *)
Record touched tq tq' (p : Z) : Prop := {
  tch_others : forall q, q <> p -> heap tq' !! q = heap tq !! q;
  tch_timer : forall e, heap tq !! p = Some e -> exists e', heap tq' !! p = Some e' /\ same_timer e e';
  tch_none : heap tq !! p = None -> heap tq' !! p = None;
  tch_next : next_ptr tq' = next_ptr tq;
  tch_clk : clk tq' = clk tq /\ rnd tq' = rnd tq
}.

(** A periodic timer that keeps the tree from getting empty. *)
Definition anchored tq (a p : Z) : Prop :=
  (a = p \/ In a (rbt tq)) /\ exists e, heap tq !! a = Some e /\ active e <> 0 /\ use_once e = 0.
End Queue.

#[export] Hint Resolve same_timer_refl same_timer_expire same_timer_detach same_timer_stop : core.

(** ** The client of a queue

    [set] stores a queue in a program state, [run] runs a callback.  [Client] is
    what the program knows about its state between two callbacks, and [Ran p] what
    it also knows once the callback of the timer [p] has run or [p] is found
    stopped: from then on the loop may change the state of [p]. *)
Class TimerClient {C S : Type} (get : S -> TimerqueueContext C)
  (set : S -> TimerqueueContext C -> S) (run : C -> S -> res S) (Client : S -> Prop)
  (Ran : Z -> S -> Prop) (a : Z) (now : timespec) : Prop := {
  get_set : forall s tq, get (set s tq) = tq;
  client_queue : forall s tq p, Client s -> touched (get s) tq p -> heap tq = heap (get s) ->
    Client (set s tq);
  client_stopped : forall s p e, Client s -> heap (get s) !! p = Some e -> active e = 0 -> Ran p s;
  ran_client : forall s p, Ran p s -> Client s;
  ran_touch : forall s tq p, Ran p s -> touched (get s) tq p -> Ran p (set s tq);
  client_free : forall s p e, Client s -> heap (get s) !! p = Some e -> free_on_detach e <> 0 ->
    Client (set s (set_heap (get s) (delete p (heap (get s)))));
  client_run : forall s p e cb, Client s -> queue_mid (get s) p -> anchored (get s) a p ->
    heap (get s) !! p = Some e -> active e <> 0 -> attached e <> 0 -> callback e = Some cb ->
    exists s' e', run cb s = Ok s' /\ Ran p s' /\ queue_mid (get s') p /\ anchored (get s') a p /\
      heap (get s') !! p = Some e' /\ priv_rbk e' = priv_rbk e /\ attached e' <> 0 /\
      lags now (heap (get s')) (rbt (get s')) <= lags now (heap (get s)) (rbt (get s));
  client_detach : forall s p e cb, Ran p s -> queue_mid (get s) p -> In a (rbt (get s)) ->
    anchored (get s) a p -> heap (get s) !! p = Some e -> attached e = 0 ->
    detached_callback e = Some cb ->
    exists s' e', run cb s = Ok s' /\ Ran p s' /\ queue_mid (get s') p /\ In a (rbt (get s')) /\
      anchored (get s') a p /\ heap (get s') !! p = Some e' /\ attached e' = 0 /\
      lags now (heap (get s')) (rbt (get s')) <= lags now (heap (get s)) (rbt (get s))
}.

Section Loop.
Context {C S : Type} (get : S -> TimerqueueContext C) (set : S -> TimerqueueContext C -> S)
  (run : C -> S -> res S) (Client : S -> Prop) (Ran : Z -> S -> Prop) (a : Z) (now : timespec).
Context {TC : TimerClient get set run Client Ran a now}.
Hypothesis Hnow : normal now.

Abbreviation lags_of s := (lags now (heap (get s)) (rbt (get s))).

(** Between two turns of the loop; while [p] is out of the tree, and when it has
    run. *)
Record idle (s : S) : Prop := {
  idle_client : Client s;
  idle_queue : tq_ok (get s);
  idle_tree : in_tree (get s) (fun _ => False);
  idle_anchor : In a (rbt (get s)) /\ anchored (get s) a a
}.
Record taken (s : S) (p : Z) : Prop := {
  taken_client : Client s;
  taken_mid : queue_mid (get s) p;
  taken_anchor : anchored (get s) a p
}.
Record busy (s : S) (p : Z) : Prop := {
  busy_ran : Ran p s;
  busy_mid : queue_mid (get s) p;
  busy_anchor : anchored (get s) a p
}.

Lemma touched_poke (tq : TimerqueueContext C) p e e' : heap tq !! p = Some e -> same_timer e e' ->
  touched tq (set_heap tq (<[p := e']> (heap tq))) p.
Proof using.
  intros He Hs. constructor; cbn; [| |congruence|done|done].
  - intros q Hne. by apply lookup_insert_ne.
  - intros e0 He0. rewrite He in He0. injection He0 as <-. exists e'.
    split; [apply lookup_insert_eq|done].
Qed.

Lemma anchored_in (tq : TimerqueueContext C) p : anchored tq a p -> ~ In p (rbt tq) ->
  (forall e, heap tq !! p = Some e -> active e = 0 \/ use_once e <> 0) ->
  a <> p /\ In a (rbt tq).
Proof using.
  intros [[E|Hin] (e & He & Hact & Huse)] Hout Hno.
  - rewrite E in He. by destruct (Hno e He).
  - split; [intros E; by rewrite E in Hin|done].
Qed.

(** A store to the timer that is out of the tree. *)
Lemma busy_poke s p f e :
  busy s p -> a <> p -> heap (get s) !! p = Some e -> same_timer e (f e) -> timer_ok (f e) ->
  exists s', on_tq get set (fun tq => poke tq p f) s = Ok s' /\ busy s' p /\
    heap (get s') !! p = Some (f e) /\ rbt (get s') = rbt (get s) /\ lags_of s' = lags_of s.
Proof using TC.
  intros [Hc [Hq Ho _ Ht] [Ha Hae]] Hap He Hsame Hok. unfold on_tq. rewrite (poke_ok _ _ _ e) by done.
  cbn [rbind]. eexists. split; [done|]. rewrite get_set.
  split; [|cbn; split; [apply lookup_insert_eq|split; [done|]]].
  - constructor; rewrite ?get_set.
    + apply ran_touch; [done|]. by apply (touched_poke _ _ e).
    + constructor; [by apply tq_ok_poke|done| |].
      * exists (f e). cbn. split; [apply lookup_insert_eq|done].
      * intros q x Hx Hax. cbn in Hx. destruct (Z.eq_dec p q) as [->|Hne]; [by right|].
        rewrite lookup_insert_ne in Hx by done. by apply (Ht q x).
    + split; [done|]. cbn. by rewrite lookup_insert_ne by done.
  - apply lags_same. intros q Hin. apply lookup_insert_ne. by intros ->.
Qed.

Lemma busy_idle s p e : busy s p -> heap (get s) !! p = Some e -> attached e = 0 ->
  In a (rbt (get s)) -> idle s.
Proof using TC.
  intros [Hc [Hq _ _ Ht] [_ Ha]] He Hatt Hin. constructor; [by eapply ran_client|done| |].
  - intros q x Hx Hax. destruct (Ht q x Hx Hax) as [?|<-]; [by left|]. rewrite He in Hx. by injection Hx as <-.
  - split; [done|]. split; [by left|done].
Qed.

(** The last part of a turn, for a timer that is detached. *)
Lemma finish_detached s p e :
  busy s p -> In a (rbt (get s)) -> a <> p -> heap (get s) !! p = Some e -> attached e = 0 ->
  exists s', (let* e := peek (get s) p in
    if attached e =? 0 then
      let* s := match detached_callback e with Some cb => run cb s | None => Ok s end in
      let* e := peek (get s) p in
      if negb (free_on_detach e =? 0)
      then Ok (set s (set_heap (get s) (delete p (heap (get s)))))
      else Ok s
    else Ok s) = Ok s' /\ idle s' /\ lags_of s' <= lags_of s.
Proof using TC.
  intros Hb Ha Hap He Hatt. unfold peek at 1. rewrite He. cbn [deref rbind]. rewrite Hatt. cbn [Z.eqb].
  assert (Hd : exists s1, match detached_callback e with Some cb => run cb s | None => Ok s end = Ok s1 /\
    busy s1 p /\ In a (rbt (get s1)) /\ (exists e1, heap (get s1) !! p = Some e1 /\ attached e1 = 0) /\
    lags_of s1 <= lags_of s).
  { destruct (detached_callback e) as [cb|] eqn:Ecb.
    - destruct Hb as [Hc Hm Han].
      destruct (client_detach s p e cb Hc Hm Ha Han He Hatt Ecb) as (s' & e' & E & ? & ? & ? & ? & ? & ? & ?).
      exists s'. do 3 (split; [done|]). split; [by exists e'|done].
    - exists s. do 3 (split; [done|]). split; [by exists e|done]. }
  destruct Hd as (s1 & -> & Hb1 & Ha1 & (e1 & He1 & Hatt1) & Hl1). cbn [rbind].
  pose proof (busy_idle s1 p e1 Hb1 He1 Hatt1 Ha1) as [Hc1 Hq1 Ht1 _].
  destruct Hb1 as [_ [_ Ho1 _ _] Han1]. unfold peek. rewrite He1. cbn [deref rbind].
  destruct (Z.eqb_spec (free_on_detach e1) 0) as [E|E]; cbn [negb].
  { exists s1. split; [done|]. split; [|done]. constructor; try done. split; [done|]. split; [by left|apply Han1]. }
  eexists. split; [done|]. split.
  - constructor; rewrite ?get_set.
    + by eapply client_free.
    + by apply tq_ok_free.
    + intros q x Hx. cbn in Hx. apply lookup_delete_Some in Hx as [_ Hx]. by apply (Ht1 q x).
    + split; [done|]. split; [by left|]. destruct Han1 as [_ (ea & Hea & ?)]. exists ea.
      split; [|done]. cbn. rewrite lookup_delete_ne; [done|by intros ->].
  - rewrite get_set. cbn [heap rbt set_heap].
    rewrite (lags_same now (heap (get s1)) (delete p (heap (get s1)))); [done|].
    intros q Hin. apply lookup_delete_ne. by intros ->.
Qed.

(** Taking the first timer out of the tree. *)
Lemma take_first s p :
  idle s -> rbtree_first (rbt (get s)) = Some p ->
  exists e, heap (get s) !! p = Some e /\ timer_ok e /\ attached e <> 0 /\
    let s1 := set s (tq_delete (get s) p) in
    taken s1 p /\ heap (get s1) = heap (get s) /\ lags_of s = lag now (priv_rbk e) + lags_of s1.
Proof using TC.
  intros [Hc [Hs Hl Hk Hr] Ht [Ha Han]] Hf. destruct (delete_first _ _ Hf) as (l & El & ->).
  rewrite El in *. destruct (Hl p) as (e & He & Hok & Hatt); [by left|].
  exists e. do 3 (split; [done|]). cbv zeta. rewrite get_set. cbn [heap rbt set_rbt].
  split; [|split; [done|]].
  - constructor; rewrite ?get_set.
    + apply client_queue with (p := p); [done| |done]. constructor; cbn; [done| |done|done|done].
      intros e0 He0. exists e0. auto.
    + constructor; cbn; [|by apply (sorted_notin (heap (get s)))|by exists e|].
      * constructor; cbn; [|intros q Hq; apply Hl; by right|done|done].
        by apply tree_ok_cons in Hs as (_ & ? & _).
      * intros q x Hx Hax. destruct (Ht q x Hx Hax) as [Hin|[]]. rewrite El in Hin.
        destruct Hin as [->|Hin]; [by right|by left].
    + split; [|by apply Han]. cbn. destruct Ha as [Ha|Ha]; [left; by symmetry|by right].
  - unfold lags. cbn [map foldr]. unfold lag_at at 1. by rewrite He.
Qed.

(** After the periodic branch. *)
Lemma rearmed_idle s p e tq' t :
  busy s p -> heap (get s) !! p = Some e -> attached e <> 0 ->
  heap tq' = <[p := set_expire t e]> (heap (get s)) ->
  @tree_ok _ _ (tq_tree (heap tq')) (fun _ => True) (rbt tq') ->
  Permutation (rbt tq') (p :: rbt (get s)) -> normal t -> next_ptr tq' = next_ptr (get s) ->
  clk tq' = clk (get s) -> rnd tq' = rnd (get s) ->
  idle (set s tq') /\ lags_of (set s tq') = lag now t + lags_of s.
Proof using TC.
  intros [Hc [[Hs Hl Hk Hr] Ho (e0 & He0 & Hok) Ht] [Ha (ea & Hea & Hact & Hper)]] He Hatt Eh Hs' Hp Hn En Ek Er.
  rewrite He in He0. injection He0 as <-.
  assert (Hsame : forall q, q <> p -> heap tq' !! q = heap (get s) !! q)
    by (intros q Hq; rewrite Eh; by apply lookup_insert_ne).
  assert (Hpe : heap tq' !! p = Some (set_expire t e)) by (rewrite Eh; apply lookup_insert_eq).
  split.
  - constructor; rewrite ?get_set.
    + apply ran_client with (p := p), ran_touch; [done|]. constructor; [done| |congruence|done|done].
      intros e1 He1. rewrite He in He1. injection He1 as <-. exists (set_expire t e). auto.
    + constructor; [done| |by rewrite Ek|by rewrite Er].
      intros q Hq. rewrite Hp in Hq. destruct Hq as [<-|Hq].
      * exists (set_expire t e). split; [done|]. split; [|done]. destruct Hok as [? ? Hper'].
        constructor; try done. intros Hu. by destruct (Hper' Hu).
      * rewrite Hsame by (intros ->; done). by apply Hl.
    + intros q x Hx Hax. left. rewrite Hp. destruct (Z.eq_dec q p) as [->|Hne]; [by left|].
      rewrite Hsame in Hx by done. destruct (Ht q x Hx Hax) as [?|?]; [by right|by symmetry in H].
    + split; [rewrite Hp; destruct Ha as [Ha|Ha]; [left; by symmetry|by right]|].
      split; [by left|]. destruct (Z.eq_dec a p) as [E|E].
      * rewrite E in *. rewrite He in Hea. injection Hea as <-. by exists (set_expire t e).
      * exists ea. by rewrite Hsame.
  - rewrite get_set, (lags_perm now _ _ _ Hp). unfold lags. cbn [map foldr].
    unfold lag_at at 1. rewrite Hpe. cbn [priv_rbk set_expire]. f_equal.
    apply lags_same. intros q Hq. apply Hsame. by intros ->.
Qed.

(** One turn of the loop: it succeeds, and the timers are less overdue. *)
Lemma fire_ok s p e :
  idle s -> rbtree_first (rbt (get s)) = Some p -> heap (get s) !! p = Some e ->
  check_expire (priv_rbk e) now = true ->
  exists s', fire get set run s p = Ok s' /\ idle s' /\ lags_of s' < lags_of s.
Proof using TC Hnow.
  intros Hi Hf He Hexp. destruct (take_first s p Hi Hf) as (e0 & He0 & Hok & Hatt & Hb & Eh & Hlag).
  rewrite He in He0. injection He0 as <-. cbv zeta in *.
  rewrite check_expire_ns in Hexp by (apply Hok || done). apply Z.leb_le in Hexp.
  assert (Hpos : 0 < lag now (priv_rbk e)) by (unfold lag; lia).
  unfold fire. set (s1 := set s (tq_delete (get s) p)) in *.
  assert (He1 : heap (get s1) !! p = Some e) by (by rewrite Eh).
  unfold peek at 1. rewrite He1. cbn [deref rbind].
  destruct (Z.eqb_spec (active e) 0) as [Eact|Eact]; cbn [negb].
  { destruct (anchored_in _ _ (taken_anchor _ _ Hb) (mid_out _ _ (taken_mid _ _ Hb))) as [Hap Hin].
    { intros e' He'. rewrite He1 in He'. injection He' as <-. by left. }
    destruct Hb as [Hc1 Hm1 Han1]. pose proof (client_stopped s1 p e Hc1 He1 Eact) as Hran.
    pose proof (Build_busy s1 p Hran Hm1 Han1) as Hb.
    destruct (busy_poke s1 p (set_attached 0) e Hb Hap He1) as (s2 & -> & Hb2 & He2 & Er2 & Hl2);
      [auto|by apply timer_ok_attached|]. cbn [rbind].
    destruct (finish_detached s2 p (set_attached 0 e) Hb2) as (s3 & -> & Hi3 & Hl3);
      [by rewrite Er2|done|done|done|].
    exists s3. split; [done|]. split; [done|lia]. }
  destruct (tm_callback _ Hok Eact) as [cb Ecb]. rewrite Ecb. cbn [deref rbind].
  destruct (client_run s1 p e cb (taken_client _ _ Hb) (taken_mid _ _ Hb) (taken_anchor _ _ Hb) He1 Eact Hatt Ecb)
    as (s2 & e2 & -> & Hc2 & Hm2 & Han2 & He2 & Ek2 & Hatt2 & Hl2). cbn [rbind].
  pose proof (Build_busy s2 p Hc2 Hm2 Han2) as Hb2.
  destruct (mid_live _ _ Hm2) as (e2' & He2' & Hok2). rewrite He2 in He2'. injection He2' as <-.
  unfold peek at 1. rewrite He2. cbn [deref rbind].
  destruct (Z.eqb_spec (use_once e2) 0) as [Euse|Euse]; cbn [negb].
  - destruct (rearm_ok now (get s2) p e2) as
      (tq' & t & Erun & Eh' & Hs' & Hp' & Hn' & _ & Hlt & En & Eclk & Ernd);
      [apply Hm2|apply Hm2|done|apply Hok2|by apply Hok2|apply Hm2|by rewrite Ek2|].
    unfold on_tq. rewrite Erun. cbn [rbind]. unfold peek. rewrite get_set, Eh', lookup_insert_eq.
    cbn [deref rbind]. destruct (Z.eqb_spec (attached (set_expire t e2)) 0) as [|_]; [done|].
    exists (set s2 tq'). split; [done|].
    destruct (rearmed_idle s2 p e2 tq' t Hb2 He2 Hatt2 Eh' Hs' Hp' Hn' En Eclk Ernd) as [Hi3 Hl3].
    split; [done|]. rewrite Ek2 in Hlt. lia.
  - destruct (anchored_in _ _ Han2 (mid_out _ _ Hm2)) as [Hap Hin].
    { intros e' He'. rewrite He2 in He'. injection He' as <-. by right. }
    destruct (busy_poke s2 p (set_active 0) e2 Hb2 Hap He2) as (s3 & -> & Hb3 & He3 & Er3 & Hl3);
      [auto|by apply timer_ok_inactive|]. cbn [rbind].
    destruct (busy_poke s3 p (set_attached 0) _ Hb3 Hap He3) as (s4 & -> & Hb4 & He4 & Er4 & Hl4);
      [auto|by apply timer_ok_attached, timer_ok_inactive|]. cbn [rbind].
    destruct (finish_detached s4 p (set_attached 0 (set_active 0 e2)) Hb4) as (s5 & -> & Hi5 & Hl5);
      [by rewrite Er4, Er3|done|done|done|].
    exists s5. split; [done|]. split; [done|lia].
Qed.

(** No timer is due. *)
Definition none_due (tq : TimerqueueContext C) : Prop :=
  forall p e, In p (rbt tq) -> heap tq !! p = Some e -> check_expire (priv_rbk e) now = false.

Lemma first_not_due tq p e :
  tq_ok tq -> rbtree_first (rbt tq) = Some p -> heap tq !! p = Some e ->
  check_expire (priv_rbk e) now = false -> none_due tq.
Proof using Hnow.
  intros Hq Hf He Hd q e' Hin He'. unfold rbtree_first in Hf.
  destruct (tq_live _ Hq q Hin) as (e'' & He'' & Hok & _). rewrite He' in He''. injection He'' as <-.
  destruct (tq_live _ Hq p) as (e0 & He0 & Hok0 & _); [destruct (rbt tq); [done|]; injection Hf as ->; by left|].
  rewrite He in He0. injection He0 as <-.
  rewrite check_expire_ns in * by (apply Hok || apply Hok0 || done). apply Z.leb_gt in Hd.
  apply Z.leb_gt. destruct (rbt tq) as [|x l] eqn:El; [done|]. injection Hf as ->.
  destruct Hin as [->|Hin]; [congruence|]. pose proof (tq_sorted _ Hq) as Hs. rewrite El in Hs.
  apply tree_ok_cons in Hs as (_ & _ & Hlt).
  pose proof (proj1 (List.Forall_forall _ _) Hlt q Hin) as Hl. unfold tlt in Hl. cbn in Hl.
  unfold key_at in Hl. rewrite He, He' in Hl. destruct (priv_rbk e) as [s1 n1] eqn:E1, (priv_rbk e') as [s2 n2] eqn:E2.
  apply compare_elem_lex in Hl. destruct (tm_normal _ Hok) as [? ?], (tm_normal _ Hok0) as [? ?].
  rewrite E1, E2 in *. unfold ns in *. cbn in *. lia.
Qed.

Lemma work_loop_ok n : forall s, idle s -> lags_of s <= Z.of_nat n ->
  exists s', work_loop get set run (Datatypes.S n) now s = Ok s' /\ idle s' /\ none_due (get s').
Proof using TC Hnow.
  induction n as [|n IH]; intros s Hi Hn; cbn [work_loop];
    destruct (rbtree_first (rbt (get s))) as [p|] eqn:Ef;
    try (destruct (idle_anchor _ Hi) as [Hin _]; destruct (rbt (get s)); [done|discriminate Ef]);
    cbn [deref rbind];
    (destruct (take_first s p Hi Ef) as (e & He & _); unfold peek; rewrite He; cbn [deref rbind];
     destruct (check_expire (priv_rbk e) now) eqn:Ed;
     [|exists s; split; [done|]; split; [done|]; by apply (first_not_due _ p e (idle_queue _ Hi))]);
    destruct (fire_ok s p e Hi Ef He Ed) as (s1 & -> & Hi1 & Hl1); cbn [rbind].
  - exfalso. pose proof (lags_nonneg now (heap (get s1)) (rbt (get s1))). lia.
  - apply (IH s1 Hi1). lia.
Qed.
End Loop.

(** The clock tick of the call itself. *)
Section Work.
Context {C S : Type} (get : S -> TimerqueueContext C) (set : S -> TimerqueueContext C -> S)
  (run : C -> S -> res S) (Client : S -> Prop) (Ran : Z -> S -> Prop) (a : Z).

(** Loop turns enough for a queue at the time [now]: one per nanosecond a timer
    is overdue. *)
Definition work_fuel (tq : TimerqueueContext C) : nat :=
  Datatypes.S (Z.to_nat (lags (clk tq (ticks tq)) (heap tq) (rbt tq))).

Lemma timerqueue_work_spec s :
  TimerClient get set run Client Ran a (clk (get s) (ticks (get s))) ->
  idle get Client a s ->
  exists s', timerqueue_work get set run (work_fuel (get s)) s = Ok s' /\
    idle get Client a s' /\ none_due (clk (get s) (ticks (get s))) (get s').
Proof using.
  intros TC [Hc Hq Ht [Hin Han]]. set (now := clk (get s) (ticks (get s))) in *.
  assert (Hnow : normal now) by apply Hq.
  unfold timerqueue_work. cbn [clock_gettime]. fold now. rewrite get_set. cbn [rbt].
  set (tq1 := {| heap := heap (get s) |}).
  assert (Hi : idle get Client a (set s tq1)).
  { constructor; rewrite ?get_set; [|by destruct Hq; constructor|exact Ht|done].
    apply client_queue with (p := a); [done| |done]. constructor; cbn; [done| |done|done|done].
    intros e He. by exists e. }
  destruct (rbtree_first (rbt (get s))) as [p|] eqn:Ef.
  - apply (work_loop_ok get set run Client Ran a now Hnow); [done|]. rewrite get_set. cbn.
    pose proof (lags_nonneg now (heap (get s)) (rbt (get s))). fold now. unfold lags in *. lia.
  - destruct (rbt (get s)); [done|discriminate Ef].
Qed.
End Work.


(** A program that logs the numbers its callbacks carry. *)
Definition log_state : Type := TimerqueueContext nat * list nat.
Definition log_run (cb : nat) (s : log_state) : res log_state := Ok (fst s, snd s ++ [cb]).
Definition log_set (s : log_state) (tq : TimerqueueContext nat) : log_state := (tq, snd s).

#[export] Instance log_client a now : TimerClient fst log_set log_run (fun _ => True) (fun _ _ => True) a now.
Proof.
  constructor.
  - done.
  - done.
  - done.
  - done.
  - done.
  - done.
  - intros s p e cb _ Hm Ha He Hact Hatt _. eexists _, e. split; [done|]. cbn.
    do 6 (split; [done|]). lia.
  - intros s p e cb _ Hm Hin Ha He Hatt _. eexists _, e. split; [done|]. cbn.
    do 6 (split; [done|]). lia.
Qed.

(** At ten seconds: a periodic timer of half a second and a one-shot timer, due. *)
Definition ex_queue : TimerqueueContext nat :=
  let periodic := mkTimer (mkTimespec 9 600000000) 0 1 1 0 500000 0 (Some 1%nat) None in
  let once := mkTimer (mkTimespec 9 700000000) 0 1 1 0 20000 1 (Some 2%nat) None in
  mkTq (<[1 := periodic]> (<[2 := once]> ∅)) [1; 2] 3 (fun _ => mkTimespec 10 0) 0 (fun _ => 0) 0.

Example ex_queue_fires :
  match timerqueue_work fst log_set log_run 10 (ex_queue, []) with
  | Ok (tq, log) => log = [1; 2]%nat /\ rbt tq = [1] | _ => False end.
Proof. vm_compute. done. Qed.


(** Without a periodic timer the loop empties the tree and reads on: the test of
    the loop dereferences the sentinel. *)
Example work_empties_tree :
  let once := mkTimer (mkTimespec 9 700000000) 0 1 1 0 20000 1 (Some 2%nat) None in
  timerqueue_work fst log_set log_run 10
    (mkTq (<[2 := once]> ∅) [2] 3 (fun _ => mkTimespec 10 0) 0 (fun _ => 0) 0, []) = UB.
Proof. vm_compute. reflexivity. Qed.
