(* ===== verification/TimerOwners.v ===== *)
(** The timers a program owns.

    The elements of the routing module point to timers, and the callback of a
    timer points back to its element.  [owners_ok] relates the queue to the list
    of these pairs: every pair is an allocated timer with this callback that is
    running and not about to be freed, no timer occurs twice, and no other timer
    is active but the [periodic] ones, which belong to the program itself.  The lemmas say
    how starting, rewinding and freeing a timer change the list. *)
From S2P Require Import Prelude OrdTree TimerQueue TimerWork.
From stdpp Require Import base list numbers gmap.
From Stdlib Require Import ZArith Lia Sorted.
Open Scope Z_scope.
Open Scope c_scope.

(** The tree and the lags depend on the expiry times only. *)
Section Keys.
Context {C : Type}.
Implicit Types (h : gmap Z (TimerqueueElem C)).

Lemma tree_ok_same_keys h h' l :
  (forall p, In p l -> key_at h' p = key_at h p) ->
  @tree_ok _ _ (tq_tree h) (fun _ => True) l -> @tree_ok _ _ (tq_tree h') (fun _ => True) l.
Proof using.
  intros H. induction l as [|p l IH]; intros Hok; [apply tree_ok_nil|].
  apply tree_ok_cons in Hok as (_ & Hok & Hlt). apply tree_ok_cons. split; [done|].
  split; [apply IH; [|done]; intros q Hq; apply H; by right|].
  apply List.Forall_forall. intros q Hq. pose proof (proj1 (List.Forall_forall _ _) Hlt q Hq) as Hl.
  unfold tlt in *. cbn in *. rewrite (H p), (H q) by auto. exact Hl.
Qed.

Lemma lag_at_key now h p : lag_at now h p = match h !! p with
  Some _ => lag now (expire (key_at h p)) | None => 0 end.
Proof using. unfold lag_at, key_at. by destruct (h !! p). Qed.

Lemma lags_same_keys now h h' l :
  (forall p, In p l -> key_at h' p = key_at h p /\ (h' !! p = None <-> h !! p = None)) ->
  lags now h' l = lags now h l.
Proof using.
  unfold lags. intros H. induction l as [|p l IH]; cbn; [done|].
  destruct (H p) as [Hk Hn]; [by left|]. rewrite !lag_at_key, Hk, IH by (intros; apply H; by right).
  destruct (h !! p), (h' !! p); try done; exfalso; [by discriminate (proj1 Hn eq_refl)|by discriminate (proj2 Hn eq_refl)].
Qed.
End Keys.

Section Owners.
Context {C : Type} (periodic : C -> bool) (a : Z).
Implicit Types (tq : TimerqueueContext C) (own : list (Z * C)).

Record owned_by (e : TimerqueueElem C) (cb : C) : Prop := {
  ob_callback : callback e = Some cb;
  ob_kept : free_on_detach e = 0;
  ob_steady : max_jitter e = 0;
  ob_running : attached e = 1 /\ active e = 1;
  ob_interval : use_once e = 0 -> 0 < interval_us e < 2 ^ 31
}.

(** The timer [a] is one of the program's own. *)
Record owners_ok tq own : Prop := {
  ow_nodup : List.NoDup (map fst own);
  ow_client : forall p cb, In (p, cb) own -> periodic cb = false;
  ow_live : forall p cb, In (p, cb) own -> exists e, heap tq !! p = Some e /\ owned_by e cb;
  ow_fresh : forall p e, heap tq !! p = Some e -> p < next_ptr tq;
  ow_plain : forall p e, heap tq !! p = Some e -> detached_callback e = None;
  ow_active : forall p e, heap tq !! p = Some e -> active e <> 0 ->
    exists cb, callback e = Some cb /\ (periodic cb = true \/ In (p, cb) own);
  ow_anchor : exists e cb, heap tq !! a = Some e /\ callback e = Some cb /\ periodic cb = true /\
    free_on_detach e = 0
}.

Lemma owners_perm tq own own' : Permutation own own' -> owners_ok tq own -> owners_ok tq own'.
Proof using.
  intros Hp H. constructor; try apply H.
  - rewrite <- Hp. apply H.
  - intros p cb. rewrite <- Hp. apply H.
  - intros p cb. rewrite <- Hp. apply H.
  - intros p e He Ha. destruct (ow_active _ _ H p e He Ha) as (cb & ? & ?). exists cb. by rewrite <- Hp.
Qed.

#[export] Instance owners_proper tq : Proper (Permutation ==> iff) (owners_ok tq).
Proof using. intros l l' Hp. split; by apply owners_perm. Qed.

Lemma owner_not_anchor tq own p cb : owners_ok tq own -> In (p, cb) own -> p <> a.
Proof using.
  intros H Hin ->. destruct (ow_anchor _ _ H) as (e & c & He & Hc & Hp & _).
  destruct (ow_live _ _ H _ _ Hin) as (e' & He' & [Ho _ _ _ _]).
  pose proof (ow_client _ _ H _ _ Hin). congruence.
Qed.

(** One pair per timer. *)
Lemma owner_unique tq own p cb cb' :
  owners_ok tq own -> In (p, cb) own -> In (p, cb') own -> cb' = cb.
Proof using.
  intros H H1 H2. destruct (ow_live _ _ H _ _ H1) as (e & He & [Ec _ _ _ _]).
  destruct (ow_live _ _ H _ _ H2) as (e' & He' & [Ec' _ _ _ _]). congruence.
Qed.

(** *** What the loop of the queue does between the callbacks *)
Lemma owners_queue tq tq' own : heap tq' = heap tq -> next_ptr tq' = next_ptr tq ->
  owners_ok tq own -> owners_ok tq' own.
Proof using. intros E1 E2 []. constructor; rewrite ?E1, ?E2; done. Qed.

(** It may stop a timer that nobody owns. *)
Lemma owners_touch tq tq' own p : touched tq tq' p -> ~ In p (map fst own) ->
  owners_ok tq own -> owners_ok tq' own.
Proof using.
  intros [Ho Hp Hnone Hn _] Hnot H.
  assert (Hback : forall q e', heap tq' !! q = Some e' -> exists e, heap tq !! q = Some e /\ same_timer e e').
  { intros q e' He'. destruct (Z.eq_dec q p) as [->|Hne].
    - destruct (heap tq !! p) as [e|] eqn:E; [|by rewrite Hnone in He'].
      destruct (Hp e eq_refl) as (e2 & E2 & Hs). rewrite He' in E2. injection E2 as <-. eauto.
    - rewrite Ho in He' by done. exists e'. auto. }
  constructor; try apply H.
  - intros q cb Hin. rewrite Ho; [by apply (ow_live _ _ H)|]. intros ->. apply Hnot.
    by apply (in_map fst _ (p, cb)).
  - intros q e' He'. destruct (Hback q e' He') as (e & He & _). rewrite Hn. by apply (ow_fresh _ _ H q e).
  - intros q e' He'. destruct (Hback q e' He') as (e & He & (_ & _ & _ & _ & _ & E & _)). rewrite E.
    by apply (ow_plain _ _ H q e).
  - intros q e' He' Hact. destruct (Hback q e' He') as (e & He & (_ & _ & _ & _ & E & _ & E7 & _)). rewrite E.
    apply (ow_active _ _ H q e He). destruct E7 as [<-|]; done.
  - destruct (ow_anchor _ _ H) as (e & cb & He & Hc & Hper & Hf). destruct (Z.eq_dec a p) as [->|Hne].
    + destruct (Hp e He) as (e' & He' & (_ & E2 & _ & _ & E5 & _)). exists e', cb. by rewrite E2, E5.
    + exists e, cb. by rewrite Ho.
Qed.

(** A timer to be freed belongs to nobody any more. *)
Lemma owners_delete tq own p e :
  heap tq !! p = Some e -> free_on_detach e <> 0 -> owners_ok tq own ->
  owners_ok (set_heap tq (delete p (heap tq))) own.
Proof using.
  intros He Hf H.
  assert (Hback : forall q e', delete p (heap tq) !! q = Some e' -> heap tq !! q = Some e').
  { intros q e'. rewrite lookup_delete_Some. by intros [_ ?]. }
  constructor; cbn; try apply H.
  - intros q cb Hin. destruct (ow_live _ _ H q cb Hin) as (e' & He' & Hob). exists e'.
    rewrite lookup_delete_ne; [done|]. intros <-. rewrite He in He'. injection He' as <-.
    by destruct Hf, Hob.
  - intros q e' He'. apply (ow_fresh _ _ H q e'); auto.
  - intros q e' He'. apply (ow_plain _ _ H q e'); auto.
  - intros q e' He'. apply (ow_active _ _ H q e'); auto.
  - destruct (ow_anchor _ _ H) as (e' & cb & He' & Hc & Hp & Hk). exists e', cb.
    rewrite lookup_delete_ne; [done|]. intros <-. rewrite He in He'. by injection He' as <-.
Qed.

(** *** Freeing an owned timer *)
Record freed tq tq' (q : Z) : Prop := {
  fd_others : forall r, r <> q -> heap tq' !! r = heap tq !! r;
  fd_timer : forall e, heap tq !! q = Some e -> heap tq' !! q =
    if attached e =? 0 then None else Some (set_free_on_detach 1 (set_active 0 e));
  fd_none : heap tq !! q = None -> heap tq' !! q = None;
  fd_tree : rbt tq' = rbt tq;
  fd_next : next_ptr tq' = next_ptr tq;
  fd_clk : clk tq' = clk tq /\ rnd tq' = rnd tq
}.

Lemma free_owned tq own q cb : owners_ok tq ((q, cb) :: own) ->
  exists tq', timerqueue_free_timer tq q = Ok tq' /\ freed tq tq' q /\ owners_ok tq' own.
Proof using.
  intros H. destruct (ow_live _ _ H q cb) as (e & He & [Ec Ek Ej [Ea _] Ei]); [by left|].
  unfold timerqueue_free_timer, peek. rewrite He. cbn [deref rbind]. rewrite (poke_ok _ _ _ e) by done.
  cbn [rbind].
  assert (Hne : q <> a) by (apply (owner_not_anchor _ _ _ cb H); by left).
  pose proof (ow_nodup _ _ H) as Hnd. cbn in Hnd. inversion Hnd as [|? ? Hq Hnd']; subst.
  assert (Hown : forall r c, In (r, c) own -> r <> q).
  { intros r c Hin ->. apply Hq. by apply (in_map fst _ (q, c)). }
  set (e2 := set_active 0 e).
  assert (Hgen : forall tq', freed tq tq' q -> owners_ok tq' own).
  { intros tq' [Ho Ht _ _ Hn _]. specialize (Ht e He).
    assert (Hback : forall r e', heap tq' !! r = Some e' ->
      heap tq !! r = Some e' /\ r <> q \/ r = q /\ active e' = 0 /\ detached_callback e' = detached_callback e).
    { intros r e' He'. destruct (Z.eq_dec r q) as [->|Hr]; [right|left; by rewrite <- Ho].
      rewrite Ht in He'. destruct (attached e =? 0); [done|]. by injection He' as <-. }
    constructor.
    - done.
    - intros p c Hin. apply (ow_client _ _ H p). by right.
    - intros p c Hin. destruct (ow_live _ _ H p c) as (e' & He' & Hob); [by right|].
      exists e'. rewrite Ho by (by eapply Hown). done.
    - intros p e' He'. rewrite Hn. destruct (Hback p e' He') as [[? _]|(-> & _)];
        [by apply (ow_fresh _ _ H p e')|by apply (ow_fresh _ _ H q e)].
    - intros p e' He'. destruct (Hback p e' He') as [[? _]|(-> & _ & ->)];
        [by apply (ow_plain _ _ H p e')|by apply (ow_plain _ _ H q e)].
    - intros p e' He' Hact. destruct (Hback p e' He') as [[Hp Hpq]|(_ & ? & _)]; [|done].
      destruct (ow_active _ _ H p e' Hp Hact) as (c & ? & [?|[Eq|?]]); eauto.
      injection Eq as <- <-. done.
    - destruct (ow_anchor _ _ H) as (ea & ca & Hea & ?). exists ea, ca. by rewrite Ho. }
  destruct (Z.eqb_spec (attached e) 0) as [E|E]; cbn [negb].
  - eexists. split; [done|]. match goal with |- ?G /\ _ => assert (Hf : G) end; [|split; [done|by apply Hgen]].
    constructor; cbn; try done.
    + intros r Hr. by rewrite lookup_delete_ne, lookup_insert_ne.
    + intros e' He'. rewrite He in He'. injection He' as <-.
      by rewrite (proj2 (Z.eqb_eq _ _) E), lookup_delete_eq.
    + congruence.
  - rewrite (poke_ok _ _ _ e2) by apply lookup_insert_eq. eexists. split; [done|].
    match goal with |- ?G /\ _ => assert (Hf : G) end; [|split; [done|by apply Hgen]].
    constructor; cbn; try done.
    + intros r Hr. by rewrite !lookup_insert_ne.
    + intros e' He'. rewrite He in He'. injection He' as <-.
      by rewrite (proj2 (Z.eqb_neq _ _) E), lookup_insert_eq.
    + congruence.
Qed.

(** While the callback of [p] runs: [p] is out of the tree but attached. *)
Record running tq (p : Z) : Prop := {
  run_mid : queue_mid tq p;
  run_anchor : anchored tq a p;
  run_attached : exists e, heap tq !! p = Some e /\ attached e <> 0
}.

Lemma freed_running now tq tq' q p e : freed tq tq' q -> q <> a -> running tq p -> heap tq !! p = Some e ->
  running tq' p /\ (exists e', heap tq' !! p = Some e' /\ priv_rbk e' = priv_rbk e /\ attached e' <> 0) /\
  lags now (heap tq') (rbt tq') = lags now (heap tq) (rbt tq).
Proof using.
  intros [Ho Ht Hno Hr Hn [Hclk Hrnd]] Hqa [[[Hs Hl Hk Hrn] Hout (ep & Hep & Hokp) Hmt] [Han (ea & Hea & Hact)] (e1 & He1 & Hatt)] He.
  rewrite He in Hep, He1. injection Hep as <-. injection He1 as <-.
  assert (Hin : forall r x, heap tq !! r = Some x -> attached x <> 0 ->
    exists x', heap tq' !! r = Some x' /\ priv_rbk x' = priv_rbk x /\ attached x' = attached x /\
      (timer_ok x -> timer_ok x')).
  { intros r x Hx Hax. destruct (Z.eq_dec r q) as [->|Hrq].
    - rewrite (Ht x Hx), (proj2 (Z.eqb_neq _ _) Hax). eexists. split; [done|]. do 2 (split; [done|]).
      intros [? ? Hp]. constructor; try done. intros Hu. by destruct (Hp Hu).
    - rewrite Ho by done. eauto. }
  destruct (Hin p e He Hatt) as (e' & He' & Ek' & Ea' & Hok').
  assert (Hkeys : forall r, In r (rbt tq) -> key_at (heap tq') r = key_at (heap tq) r).
  { intros r Hir. destruct (Hl r Hir) as (x & Hx & _ & Hax). destruct (Hin r x Hx Hax) as (x' & Hx' & E & _).
    unfold key_at. by rewrite Hx, Hx', E. }
  split; [constructor|split].
  - constructor; rewrite ?Hr; [|done|exists e'; auto|].
    2:{ intros r x Hx Hax. rewrite Hr. destruct (Z.eq_dec r q) as [->|Hrq]; [|rewrite Ho in Hx by done; by apply (Hmt r x)].
        destruct (heap tq !! q) as [x0|] eqn:Ex0; [|].
        - rewrite (Ht x0 eq_refl) in Hx. destruct (Z.eqb_spec (attached x0) 0) as [|Hax0]; [done|].
          by apply (Hmt q x0).
        - by rewrite Hno in Hx. }
    constructor; rewrite ?Hr, ?Hclk, ?Hrnd; [|..|done|done].
    + eapply tree_ok_same_keys; [|exact Hs]. exact Hkeys.
    + intros r Hir. destruct (Hl r Hir) as (x & Hx & Hok & Hax). destruct (Hin r x Hx Hax) as (x' & Hx' & _ & E & Hok2).
      exists x'. rewrite E. auto.
  - split; [by rewrite Hr|]. exists ea. by rewrite Ho.
  - exists e'. by rewrite Ea'.
  - exists e'. by rewrite Ea'.
  - rewrite Hr. apply lags_same_keys. intros r Hir. split; [by apply Hkeys|].
    destruct (Hl r Hir) as (x & Hx & _ & Hax). destruct (Hin r x Hx Hax) as (x' & Hx' & _).
    by rewrite Hx, Hx'.
Qed.

(** Any number of timers freed. *)
Inductive frees : TimerqueueContext C -> TimerqueueContext C -> Prop :=
  | frees_none tq : frees tq tq
  | frees_some tq tq1 tq2 q : q <> a -> freed tq tq1 q -> frees tq1 tq2 -> frees tq tq2.

Lemma frees_running now tq tq' p e : frees tq tq' -> running tq p -> heap tq !! p = Some e ->
  running tq' p /\ (exists e', heap tq' !! p = Some e' /\ priv_rbk e' = priv_rbk e /\ attached e' <> 0) /\
  lags now (heap tq') (rbt tq') = lags now (heap tq) (rbt tq).
Proof using.
  intros Hf. revert e. induction Hf as [tq|tq tq1 tq2 q Hq Hf _ IH]; intros e Hr He.
  - split; [done|]. split; [|done]. destruct (run_attached _ _ Hr) as (e' & He' & Ha).
    rewrite He in He'. injection He' as <-. by exists e.
  - destruct (freed_running now tq tq1 q p e Hf Hq Hr He) as (Hr1 & (e1 & He1 & Ek1 & _) & El1).
    destruct (IH e1 Hr1 He1) as (Hr2 & (e2 & He2 & Ek2 & Ha2) & El2).
    split; [done|]. split; [exists e2; by rewrite Ek2|congruence].
Qed.

(** Freeing several timers of one owner. *)
Lemma free_one tq own q cb : owners_ok tq ((q, cb) :: own) ->
  exists tq', timerqueue_free_timer tq q = Ok tq' /\ frees tq tq' /\ owners_ok tq' own.
Proof using.
  intros H. destruct (free_owned tq own q cb H) as (tq' & E & Hf & Ho). exists tq'. split; [done|].
  split; [|done]. eapply frees_some; [|exact Hf|apply frees_none].
  apply (owner_not_anchor tq _ q cb H). by left.
Qed.

Lemma frees_trans tq1 tq2 tq3 : frees tq1 tq2 -> frees tq2 tq3 -> frees tq1 tq3.
Proof using. induction 1; [done|]. intros. eapply frees_some; eauto. Qed.

(** *** Starting and rewinding timers between two runs of the loop *)

(** The queue apart from what its timers contain. *)
Record shape tq : Prop := {
  sh_sorted : @tree_ok _ _ (tq_tree (heap tq)) (fun _ => True) (rbt tq);
  sh_live : forall p, In p (rbt tq) -> exists e, heap tq !! p = Some e /\ attached e <> 0;
  sh_clk : forall n, normal (clk tq n);
  sh_rnd : forall n, 0 <= rnd tq n
}.

Lemma tq_ok_shape tq : tq_ok tq <->
  shape tq /\ forall p e, In p (rbt tq) -> heap tq !! p = Some e -> timer_ok e.
Proof using.
  split.
  - intros [Hs Hl Hc Hr]. split.
    + constructor; try done. intros p Hp. destruct (Hl p Hp) as (e & ? & _ & ?). eauto.
    + intros p e Hp He. destruct (Hl p Hp) as (e' & He' & ? & _). rewrite He in He'. by injection He' as <-.
  - intros [[Hs Hl Hc Hr] Ht]. constructor; try done. intros p Hp.
    destruct (Hl p Hp) as (e & He & Ha). eauto.
Qed.

(** [p] enters the tree, the others stay as they are. *)
Record entered tq tq' (p : Z) (e' : TimerqueueElem C) : Prop := {
  en_heap : heap tq' = <[p := e']> (heap tq);
  en_tree : forall q, In q (rbt tq') <-> q = p \/ In q (rbt tq);
  en_next : next_ptr tq' = next_ptr tq;
  en_shape : shape tq'
}.

Definition registered tq (e : TimerqueueElem C) : TimerqueueElem C :=
  set_active 1 (set_attached 1 (set_expire (timespec_add_usec (clk tq (ticks tq)) (interval_us e)) e)).

Lemma register_entered tq p e :
  shape tq -> heap tq !! p = Some e -> ~ In p (rbt tq) ->
  exists tq', timerqueue_register_timer tq p = Ok tq' /\ entered tq tq' p (registered tq e).
Proof using.
  intros [Hs Hl Hc Hr] He Hp. unfold timerqueue_register_timer, peek. rewrite He.
  cbn [deref rbind clock_gettime]. set (t := timespec_add_usec _ _). set (tq1 := {| heap := heap tq |}).
  rewrite (poke_ok tq1 p _ e) by done. cbn [rbind].
  set (h1 := <[p := set_expire t e]> (heap tq1)).
  erewrite poke_ok by (cbn; apply lookup_insert_eq). cbn [rbind].
  erewrite poke_ok by (cbn; apply lookup_insert_eq).
  destruct (insert_timer h1 (rbt tq) p) as [Hok Hperm]; [|done|].
  { apply (tree_ok_same_keys (heap tq)); [|done]. intros q Hq. unfold key_at, h1. cbn.
    by rewrite lookup_insert_ne by (intros ->; done). }
  eexists. split; [done|]. constructor; cbn.
  - unfold h1. cbn. by rewrite !insert_insert_eq.
  - intros q. rewrite Hperm. cbn. split; intros [?|?]; auto.
  - done.
  - constructor; cbn; [|..|done|done].
    + apply (tree_ok_same_keys h1); [|done]. intros q Hq. unfold key_at, h1. cbn.
      destruct (Z.eq_dec q p) as [->|Hne].
      * by rewrite !lookup_insert_eq.
      * by rewrite !lookup_insert_ne.
    + intros q Hq. rewrite Hperm in Hq. destruct (Z.eq_dec q p) as [->|Hne].
      * rewrite lookup_insert_eq. by eexists.
      * unfold h1. rewrite !lookup_insert_ne by done. apply Hl. by destruct Hq.
Qed.

Lemma reactivate_entered tq p e :
  shape tq -> heap tq !! p = Some e -> attached e = 0 \/ attached e = 1 ->
  exists tq', timerqueue_reactivate_timer tq p = Ok tq' /\ entered tq tq' p (registered tq e).
Proof using.
  intros Hsh He Ha. unfold timerqueue_reactivate_timer, peek. rewrite He. cbn [deref rbind].
  destruct (Z.eqb_spec (attached e) 1) as [E|E]; cbn [rbind].
  2:{ apply register_entered; [done|done|]. intros Hin. destruct (sh_live _ Hsh p Hin) as (e' & He' & Ha').
      rewrite He in He'. injection He' as <-. by destruct Ha. }
  destruct Hsh as [Hs Hl Hc Hr].
  rewrite (poke_ok _ _ _ e) by done. cbn [rbind].
  destruct (@delete_spec _ _ (tq_tree (heap tq)) (fun _ => True) compare_elem_order (rbt tq)
    (key_at (heap tq) p) Hs I) as (Hd & _ & Hin).
  set (l := fst (@rbtree_delete _ _ (tq_tree (heap tq)) (rbt tq) (key_at (heap tq) p))) in *.
  set (tq1 := set_heap (tq_delete tq p) (<[p := set_attached 0 e]> (heap (tq_delete tq p)))).
  assert (Hp : ~ In p l) by (intros Hp; apply Hin in Hp; by destruct Hp).
  assert (Hsub : forall q, q <> p -> In q l <-> In q (rbt tq)).
  { intros q Hq. rewrite Hin. split; [by intros [? _]|]. intros Hi. split; [done|].
    intros Ek. apply (f_equal ptr) in Ek. cbn in Ek. done. }
  destruct (register_entered tq1 p (set_attached 0 e)) as (tq' & -> & [Eh Et En Hsh']).
  - constructor; cbn; [|..|done|done].
    + apply (tree_ok_same_keys (heap tq)); [|done]. intros q Hq. unfold key_at. cbn.
      destruct (Z.eq_dec q p) as [->|Hne]; [by rewrite lookup_insert_eq, He|by rewrite lookup_insert_ne].
    + intros q Hq. rewrite lookup_insert_ne by (intros ->; done). apply Hl.
      apply Hsub; [by intros ->|done].
  - cbn. apply lookup_insert_eq.
  - done.
  - exists tq'. split; [done|]. constructor; [|..|done|done].
    + rewrite Eh. cbn. by rewrite insert_insert_eq.
    + intros q. rewrite Et. change (rbt tq1) with l. destruct (Z.eq_dec q p) as [->|Hne]; [tauto|].
      by rewrite Hsub.
Qed.

(** The queue with its owners, when no callback runs. *)
Record queue_ok tq own : Prop := {
  qo_owners : owners_ok tq own;
  qo_tq : tq_ok tq;
  qo_tree : in_tree tq (fun _ => False);
  qo_anchor : In a (rbt tq) /\ anchored tq a a
}.

#[export] Instance queue_proper tq : Proper (Permutation ==> iff) (queue_ok tq).
Proof using. intros l l' Hp. split; intros [H ? ? ?]; constructor; try done; [by rewrite <- Hp|by rewrite Hp]. Qed.

Lemma registered_ok tq e :
  (exists cb, callback e = Some cb) -> (use_once e = 0 -> periodic_ok e) -> timer_ok (registered tq e).
Proof using.
  intros Hcb Hp. constructor; cbn.
  - unfold normal, timespec_add_usec. cbn. lia.
  - done.
  - intros Hu. by destruct (Hp Hu).
Qed.

Lemma in_tree_weak tq (P : Z -> Prop) : in_tree tq (fun _ => False) -> in_tree tq P.
Proof using. intros H q e He Ha. destruct (H q e He Ha) as [?|[]]. by left. Qed.

(** A timer that may get an owner when it enters the tree. *)
Definition ownable (e : TimerqueueElem C) (cb : C) : Prop :=
  callback e = Some cb /\ free_on_detach e = 0 /\ max_jitter e = 0 /\
  (use_once e = 0 -> 0 < interval_us e < 2 ^ 31) /\ detached_callback e = None.

Lemma owned_ownable e cb : owned_by e cb -> detached_callback e = None -> ownable e cb.
Proof using. by intros [? ? ? ? ?] ?. Qed.

(** An owned timer that enters the tree, perhaps a new one. *)
Lemma entered_queue tq0 tq tq' own p e cb :
  owners_ok tq own -> tq_ok tq -> in_tree tq (eq p) -> In a (rbt tq) /\ anchored tq a a ->
  entered tq tq' p (registered tq0 e) -> p < next_ptr tq -> periodic cb = false ->
  ownable e cb -> p <> a ->
  (In (p, cb) own -> queue_ok tq' own) /\
  (~ In p (map fst own) -> queue_ok tq' ((p, cb) :: own)).
Proof using.
  intros H Hq Hit Han [Eh Et En Hsh] Hlt Hper (Ec & Ek & Ej & Ei & Hpl) Hpa.
  assert (Hp : heap tq' !! p = Some (registered tq0 e)) by (rewrite Eh; apply lookup_insert_eq).
  assert (Ho : forall q, q <> p -> heap tq' !! q = heap tq !! q)
    by (intros q Hne; rewrite Eh; by apply lookup_insert_ne).
  assert (Hob : owned_by (registered tq0 e) cb) by (constructor; cbn; auto).
  apply tq_ok_shape in Hq as Hq'. destruct Hq' as [Hsh0 Hok].
  assert (Hq2 : tq_ok tq').
  { apply tq_ok_shape. split; [done|]. intros q e' Hin He'. apply Et in Hin.
    destruct (Z.eq_dec q p) as [->|Hne].
    - rewrite Hp in He'. injection He' as <-. apply registered_ok; [eauto|].
      intros Hu. constructor; specialize (Ei Hu); lia.
    - rewrite Ho in He' by done. apply (Hok q); [by destruct Hin|done]. }
  assert (Han2 : In a (rbt tq') /\ anchored tq' a a).
  { destruct Han as [Hin [_ (ea & Hea & ?)]]. split; [apply Et; by right|]. split; [by left|].
    exists ea. rewrite Ho; [done|congruence]. }
  assert (Hit2 : in_tree tq' (fun _ => False)).
  { intros q x Hx Hax. left. apply Et. destruct (Z.eq_dec q p) as [->|Hne]; [by left|]. right.
    rewrite Ho in Hx by done. destruct (Hit q x Hx Hax) as [?|?]; [done|by subst]. }
  assert (Hgen : forall own', incl own own' -> List.NoDup (map fst own') ->
    (forall q c, In (q, c) own' -> q = p /\ c = cb \/ q <> p /\ In (q, c) own) -> In (p, cb) own' ->
    queue_ok tq' own').
  { intros own' Hinc Hnd Hold Hnew. constructor; [|done|done|done]. constructor.
    - done.
    - intros q c Hin. destruct (Hold q c Hin) as [[_ ->]|[_ ?]]; [done|by apply (ow_client _ _ H q)].
    - intros q c Hin. destruct (Hold q c Hin) as [[-> ->]|[Hne ?]]; [by exists (registered tq0 e)|].
      rewrite Ho by done. by apply (ow_live _ _ H).
    - intros q x. rewrite En. destruct (Z.eq_dec q p) as [->|Hne]; [done|]. rewrite Ho by done. apply H.
    - intros q x. destruct (Z.eq_dec q p) as [->|Hne].
      + rewrite Hp. by intros [= <-].
      + rewrite Ho by done. apply H.
    - intros q x. destruct (Z.eq_dec q p) as [->|Hne].
      + rewrite Hp. intros [= <-] _. exists cb. auto.
      + rewrite Ho by done. intros Hx Hact. destruct (ow_active _ _ H q x Hx Hact) as (c & ? & [?|?]); eauto.
    - destruct (ow_anchor _ _ H) as (ea & ca & Hea & ?). exists ea, ca. by rewrite Ho. }
  split.
  - intros Hin. apply Hgen; [apply incl_refl|apply H| |done]. intros q c Hi.
    destruct (Z.eq_dec q p) as [->|]; [left|by right]. split; [done|]. by apply (owner_unique tq own p).
  - intros Hnin. apply Hgen; [by apply incl_tl, incl_refl|constructor; [done|apply H]| |by left].
    intros q c [[= <- <-]|Hi]; [by left|]. right. split; [|done]. intros ->. apply Hnin.
    by apply (in_map fst _ (p, c)).
Qed.

(** A timer that is counting down [i] microseconds. *)
Definition armed tq (p i : Z) : Prop :=
  In p (rbt tq) /\
  exists e, heap tq !! p = Some e /\ active e = 1 /\ attached e = 1 /\ interval_us e = i.

(** The timers other than [p] are as before. *)
Definition keeps tq tq' (p : Z) : Prop :=
  forall q, q <> p -> heap tq' !! q = heap tq !! q /\ (In q (rbt tq) -> In q (rbt tq')).

Lemma keeps_armed tq tq' p q i : keeps tq tq' p -> q <> p -> armed tq q i -> armed tq' q i.
Proof using. intros H Hq [Hin He]. destruct (H q Hq) as [Eh Hi]. split; [auto|]. by rewrite Eh. Qed.

Lemma entered_keeps tq tq' p e : entered tq tq' p e -> keeps tq tq' p.
Proof using.
  intros [Eh Et _ _] q Hq. split; [|rewrite Et; auto]. rewrite Eh. by apply lookup_insert_ne.
Qed.
Lemma entered_armed tq0 tq tq' p e : entered tq tq' p (registered tq0 e) -> armed tq' p (interval_us e).
Proof using.
  intros [Eh Et _ _]. split; [rewrite Et; by left|]. exists (registered tq0 e).
  rewrite Eh. split; [apply lookup_insert_eq|done].
Qed.

Lemma owned_set_interval e cb i :
  owned_by e cb -> 0 < i < 2 ^ 31 \/ use_once e <> 0 -> owned_by (set_interval i e) cb.
Proof using. intros [? ? ? ? ?] Hi. constructor; try done. cbn. intros Hu. by destruct Hi. Qed.

Lemma poke_shape tq p e f : shape tq -> heap tq !! p = Some e -> attached (f e) = attached e ->
  priv_rbk (f e) = priv_rbk e -> shape (set_heap tq (<[p := f e]> (heap tq))).
Proof using.
  intros [Hs Hl Hc Hr] He Ha Hk. constructor; cbn; [|..|done|done].
  - apply (tree_ok_same_keys (heap tq)); [|done]. intros q Hq. unfold key_at.
    destruct (Z.eq_dec q p) as [->|Hne]; [by rewrite lookup_insert_eq, He, Hk|by rewrite lookup_insert_ne].
  - intros q Hq. destruct (Hl q Hq) as (e' & He' & Ha'). destruct (Z.eq_dec q p) as [->|Hne].
    + rewrite lookup_insert_eq. rewrite He in He'. injection He' as <-. eexists. by rewrite Ha.
    + rewrite lookup_insert_ne by done. eauto.
Qed.

(** Rewinding, with a new interval or the old one. *)
Lemma reactivate_owned tq own p cb :
  queue_ok tq own -> In (p, cb) own ->
  exists tq', timerqueue_reactivate_timer tq p = Ok tq' /\ queue_ok tq' own /\ keeps tq tq' p /\
    next_ptr tq' = next_ptr tq /\
    forall e, heap tq !! p = Some e -> armed tq' p (interval_us e).
Proof using.
  intros [H Hq Hit Han] Hin. destruct (ow_live _ _ H p cb Hin) as (e & He & Hob).
  pose proof (proj1 (proj1 (tq_ok_shape tq) Hq)) as Hsh.
  destruct (reactivate_entered tq p e Hsh He (or_intror (proj1 (ob_running _ _ Hob)))) as (tq' & E & Hen).
  exists tq'. split; [done|]. split; [|split; [by eapply entered_keeps|split; [apply Hen|]]].
  - destruct (entered_queue tq tq tq' own p e cb H Hq (in_tree_weak _ _ Hit) Han Hen) as [Hq' _]; [|..|by apply Hq'].
    + by apply (ow_fresh _ _ H p e).
    + by apply (ow_client _ _ H p).
    + apply owned_ownable; [done|by apply (ow_plain _ _ H p e)].
    + by apply (owner_not_anchor tq own p cb).
  - intros e' He'. rewrite He in He'. injection He' as <-. by apply (entered_armed tq tq tq' p e).
Qed.

Definition rewind tq p i : res (TimerqueueContext C) :=
  let* tq := poke tq p (set_interval i) in timerqueue_reactivate_timer tq p.

(** A store to an owned timer that keeps it owned, as seen from the tree. *)
Lemma set_interval_queue tq own p cb e i :
  queue_ok tq own -> In (p, cb) own -> heap tq !! p = Some e -> 0 < i < 2 ^ 31 \/ use_once e <> 0 ->
  queue_ok (set_heap tq (<[p := set_interval i e]> (heap tq))) own.
Proof using.
  intros [H Hq Hit Han] Hin He Hi. destruct (ow_live _ _ H p cb Hin) as (e0 & He0 & Hob).
  rewrite He in He0. injection He0 as <-.
  pose proof (owner_not_anchor tq own p cb H Hin) as Hpa.
  pose proof (owned_set_interval e cb i Hob Hi) as Hob'.
  destruct (proj1 (tq_ok_shape tq) Hq) as [Hsh Hok].
  assert (Hlk : forall q x, <[p := set_interval i e]> (heap tq) !! q = Some x ->
     q = p /\ x = set_interval i e \/ q <> p /\ heap tq !! q = Some x).
  { intros q x. rewrite lookup_insert_Some. intros [[-> <-]|[? ?]]; auto. }
  constructor.
  - constructor; cbn; try apply H.
    + intros q c Hc. destruct (Z.eq_dec q p) as [->|Hne].
      * rewrite (owner_unique tq own p cb c H Hin Hc), lookup_insert_eq. eauto.
      * rewrite lookup_insert_ne by done. by apply (ow_live _ _ H).
    + intros q x Hx. apply Hlk in Hx as [[-> _]|[_ Hx]]; [by apply (ow_fresh _ _ H p e)|by apply (ow_fresh _ _ H q x)].
    + intros q x Hx. apply Hlk in Hx as [[-> ->]|[_ Hx]]; [by apply (ow_plain _ _ H p e)|by apply (ow_plain _ _ H q x)].
    + intros q x Hx Hact. apply Hlk in Hx as [[-> ->]|[_ Hx]]; [|by apply (ow_active _ _ H q x)].
      exists cb. split; [apply Hob|by right].
    + destruct (ow_anchor _ _ H) as (ea & ca & Hea & ?). exists ea, ca. by rewrite lookup_insert_ne.
  - apply tq_ok_shape. split; [by apply (poke_shape tq p e (set_interval i))|].
    intros q x Hq' Hx. apply Hlk in Hx as [[-> ->]|[_ Hx]]; [|by apply (Hok q)].
    specialize (Hok p e Hq' He). constructor; try apply Hok. intros Hu.
    destruct (tm_periodic _ Hok Hu). pose proof (ob_steady _ _ Hob).
    destruct Hi as [Hi|Hi]; [constructor; cbn; lia|by destruct Hi].
  - intros q x Hx Hax. apply Hlk in Hx as [[-> ->]|[_ Hx]]; [by apply (Hit p e)|by apply (Hit q x)].
  - destruct Han as [Ha [_ (ea & Hea & ?)]]. split; [done|]. split; [by left|]. exists ea. cbn.
    by rewrite lookup_insert_ne.
Qed.

Lemma rewind_owned tq own p cb e i :
  queue_ok tq own -> In (p, cb) own -> heap tq !! p = Some e -> 0 < i < 2 ^ 31 \/ use_once e <> 0 ->
  exists tq', rewind tq p i = Ok tq' /\ queue_ok tq' own /\ keeps tq tq' p /\
    next_ptr tq' = next_ptr tq /\ armed tq' p i.
Proof using.
  intros H Hin He Hi. pose proof (set_interval_queue tq own p cb e i H Hin He Hi) as H1.
  unfold rewind. rewrite (poke_ok _ _ _ e) by done. cbn [rbind].
  set (tq1 := set_heap tq _) in *.
  destruct (reactivate_owned tq1 own p cb H1 Hin) as (tq' & -> & H2 & Hk & Hn & Ha).
  exists tq'. split; [done|]. split; [done|]. split; [|split; [done|]].
  - intros q Hq. destruct (Hk q Hq) as [Eq Hi']. split; [|done]. rewrite Eq. cbn. by apply lookup_insert_ne.
  - apply (Ha (set_interval i e)). cbn. apply lookup_insert_eq.
Qed.

(** A new timer. *)
Definition made (interval once : Z) (cb : C) : TimerqueueElem C :=
  mkTimer (mkTimespec 0 0) 0 0 0 0 interval once (Some cb) None.
Definition with_made tq (interval once : Z) (cb : C) : TimerqueueContext C :=
  {| heap := <[next_ptr tq := made interval once cb]> (heap tq); rbt := rbt tq;
     next_ptr := next_ptr tq + 1; clk := clk tq; ticks := ticks tq; rnd := rnd tq; rands := rands tq |}.

Lemma start_timer_made tq interval once (cb : Z -> C) :
  start_timer tq 0 interval once cb =
    let* tq' := timerqueue_register_timer (with_made tq interval once (cb (next_ptr tq))) (next_ptr tq) in
    Ok (tq', next_ptr tq).
Proof using.
  unfold start_timer, timerqueue_new_timer. erewrite poke_ok by (cbn; apply lookup_insert_eq).
  cbn [rbind]. unfold set_heap, with_made. cbn. by rewrite insert_insert_eq.
Qed.

Lemma fresh_next tq own : owners_ok tq own -> heap tq !! next_ptr tq = None /\ ~ In (next_ptr tq) (map fst own) /\
  next_ptr tq <> a.
Proof using.
  intros H. assert (Hn : heap tq !! next_ptr tq = None).
  { destruct (heap tq !! next_ptr tq) eqn:E; [|done]. pose proof (ow_fresh _ _ H _ _ E). lia. }
  split; [done|]. split.
  - intros Hin. apply in_map_iff in Hin as ([p cb] & Ep & Hin). cbn in Ep. subst p.
    destruct (ow_live _ _ H _ _ Hin) as (e & He & _). congruence.
  - intros E. destruct (ow_anchor _ _ H) as (e & cb & He & _). congruence.
Qed.

Lemma made_base tq own interval once cb :
  queue_ok tq own -> let tq1 := with_made tq interval once cb in
  owners_ok tq1 own /\ tq_ok tq1 /\ in_tree tq1 (eq (next_ptr tq)) /\ In a (rbt tq1) /\ anchored tq1 a a /\
  ~ In (next_ptr tq) (rbt tq1).
Proof using.
  intros [H Hq Hit [Ha [_ (ea & Hea & Hact)]]]. destruct (fresh_next tq own H) as (Hn & Hno & Hna). cbv zeta.
  destruct Hq as [Hs Hl Hc Hr].
  assert (Hout : ~ In (next_ptr tq) (rbt tq)).
  { intros Hin. destruct (Hl _ Hin) as (e & He & _). congruence. }
  assert (Hlk : forall q, q <> next_ptr tq -> <[next_ptr tq := made interval once cb]> (heap tq) !! q = heap tq !! q)
    by (intros q Hq; by apply lookup_insert_ne).
  split; [|split; [|split; [|split; [done|split; [|done]]]]].
  - constructor; cbn; try apply H.
    + intros q c Hin. rewrite Hlk; [by apply (ow_live _ _ H)|]. intros ->. apply Hno.
      by apply (in_map fst _ (next_ptr tq, c)).
    + intros q e. rewrite lookup_insert_Some. intros [[<- _]|[_ He]]; [lia|].
      pose proof (ow_fresh _ _ H q e He). lia.
    + intros q e. rewrite lookup_insert_Some. intros [[_ <-]|[_ He]]; [done|]. by apply (ow_plain _ _ H q e).
    + intros q e. rewrite lookup_insert_Some. intros [[_ <-]|[_ He]]; [done|]. by apply (ow_active _ _ H q e).
    + destruct (ow_anchor _ _ H) as (e & c & He & ?). exists e, c. by rewrite Hlk.
  - constructor; cbn; [|..|done|done].
    + apply (tree_ok_same_keys (heap tq)); [|done]. intros q Hq. unfold key_at. rewrite Hlk; [done|]. by intros ->.
    + intros q Hq. rewrite Hlk by (by intros ->). auto.
  - intros q x Hx Hax. destruct (Z.eq_dec q (next_ptr tq)) as [->|Hne]; [by right|].
    cbn in Hx. rewrite Hlk in Hx by done. by destruct (Hit q x Hx Hax); [left|].
  - split; [by left|]. exists ea. cbn. rewrite Hlk by done. done.
Qed.

Lemma made_keeps tq tq' interval once cb x :
  entered (with_made tq interval once cb) tq' (next_ptr tq) x -> keeps tq tq' (next_ptr tq).
Proof using.
  intros [Eh Et _ _] q Hq. split; [|rewrite Et; by right]. rewrite Eh. cbn. by rewrite !lookup_insert_ne.
Qed.

Lemma start_owned tq own interval once (cb : Z -> C) :
  queue_ok tq own -> periodic (cb (next_ptr tq)) = false -> (once = 0 -> 0 < interval < 2 ^ 31) ->
  exists tq', start_timer tq 0 interval once cb = Ok (tq', next_ptr tq) /\
    queue_ok tq' ((next_ptr tq, cb (next_ptr tq)) :: own) /\ keeps tq tq' (next_ptr tq) /\
    next_ptr tq' = next_ptr tq + 1 /\ armed tq' (next_ptr tq) interval.
Proof using.
  intros H Hper Hi. rewrite start_timer_made. set (p := next_ptr tq) in *.
  destruct (made_base tq own interval once (cb p) H) as (Ho1 & Hq1 & Hit1 & Ha1 & Han1 & Hout).
  destruct (fresh_next tq own (qo_owners _ _ H)) as (_ & Hno & Hna). change (next_ptr tq) with p in Hno, Hna.
  set (tq1 := with_made tq interval once (cb p)) in *. set (e := made interval once (cb p)).
  assert (He : heap tq1 !! p = Some e) by apply lookup_insert_eq.
  destruct (register_entered tq1 p e) as (tq' & -> & Hen); [by apply tq_ok_shape|done|done|].
  cbn [rbind]. exists tq'. split; [done|]. split; [|split; [by eapply made_keeps|split; [apply Hen|]]].
  - destruct (entered_queue tq1 tq1 tq' own p e (cb p) Ho1 Hq1 Hit1 (conj Ha1 Han1) Hen) as [_ Hq']; try done.
    + cbn. unfold p. lia.
    + by apply Hq'.
  - by apply (entered_armed tq1 tq1 tq' p e).
Qed.

(** A timer that is started, then given its interval and rewound. *)
Lemma start_rewound tq own i (cb : Z -> C) :
  queue_ok tq own -> periodic (cb (next_ptr tq)) = false -> 0 < i < 2 ^ 31 ->
  exists tq1 tq', start_timer tq 0 0 0 cb = Ok (tq1, next_ptr tq) /\ rewind tq1 (next_ptr tq) i = Ok tq' /\
    queue_ok tq' ((next_ptr tq, cb (next_ptr tq)) :: own) /\ keeps tq tq' (next_ptr tq) /\
    next_ptr tq' = next_ptr tq + 1 /\ armed tq' (next_ptr tq) i.
Proof using.
  intros H Hper Hi. rewrite start_timer_made. set (p := next_ptr tq) in *.
  destruct (made_base tq own 0 0 (cb p) H) as (Ho1 & Hq1 & Hit1 & Ha1 & Han1 & Hout).
  destruct (fresh_next tq own (qo_owners _ _ H)) as (_ & Hno & Hna). change (next_ptr tq) with p in Hno, Hna.
  set (tq0 := with_made tq 0 0 (cb p)) in *. set (e := made 0 0 (cb p)).
  destruct (register_entered tq0 p e) as (tq1 & -> & Hen1);
    [by apply tq_ok_shape|apply lookup_insert_eq|done|].
  cbn [rbind]. destruct Hen1 as [Eh1 Et1 En1 Hs1]. set (e1 := registered tq0 e) in *.
  assert (He1 : heap tq1 !! p = Some e1) by (rewrite Eh1; apply lookup_insert_eq).
  pose proof (poke_shape tq1 p e1 (set_interval i) Hs1 He1 eq_refl eq_refl) as Hs2.
  set (tq2 := set_heap tq1 (<[p := set_interval i e1]> (heap tq1))) in *.
  destruct (reactivate_entered tq2 p (set_interval i e1)) as (tq' & E2 & [Eh2 Et2 En2 Hs']);
    [done|apply lookup_insert_eq|by right|].
  assert (Hen : entered tq0 tq' p (registered tq2 (set_interval i e1))).
  { constructor; [| | |done].
    - rewrite Eh2. change (heap tq2) with (<[p := set_interval i e1]> (heap tq1)).
      by rewrite Eh1, !insert_insert_eq.
    - intros q. rewrite Et2. change (rbt tq2) with (rbt tq1). rewrite Et1. tauto.
    - rewrite En2. exact En1. }
  exists tq1, tq'. split; [done|]. split.
  { unfold rewind. rewrite (poke_ok _ _ _ e1) by done. exact E2. }
  split; [|split; [by eapply made_keeps|split; [apply Hen|]]].
  - destruct (entered_queue tq2 tq0 tq' own p (set_interval i e1) (cb p) Ho1 Hq1 Hit1 (conj Ha1 Han1) Hen) as [_ Hq']; try done.
    + cbn. unfold p. lia.
    + by apply Hq'.
  - by apply (entered_armed tq2 tq0 tq' p (set_interval i e1)).
Qed.
End Owners.
