(* ===== verification/OlsrContext.v ===== *)
(** State of the OLSR routing module (simnet/olsr/olsr_context.h,
    simnet/olsr/olsr_context.c, simnet/olsr/olsr_proto.h,
    simnet/include/net_statistics.h).

    One record per C struct, with the C field names (a suffix where two structs
    share one).  A tree is the sequence of its elements (file OrdTree); a
    pointer to an element is its key.  Timers are addresses in the timer queue's
    heap; [olsr_cb] lists the callbacks with the key of their [arg]. *)
From S2P Require Import Prelude OrdTree RingBuffer TimerQueue.
From stdpp Require Import base list numbers gmap.
From Stdlib Require Import ZArith Lia Sorted.
Open Scope Z_scope.
Open Scope c_scope.

(** ** olsr_proto.h *)
Definition OLSR_PROTO_PORT : Z := 698.
Definition MSG_TYPE_HELLO : Z := 1.
Definition MSG_TYPE_TC : Z := 2.
Definition WILL_DEFAULT : Z := 3.
Definition NOT_NEIGH : Z := 0.
Definition SYM_NEIGH : Z := 1.
Definition MPR_NEIGH : Z := 2.
Definition NEIGHBOR_STATUS_END : Z := 3.
Definition UNSPEC_LINK : Z := 0.
Definition ASYM_LINK : Z := 1.
Definition SYM_LINK : Z := 2.
Definition LOST_LINK : Z := 3.
Definition LINK_STATUS_END : Z := 4.
Definition STATUS_UNAVAILABLE : Z := 255.
Definition DEF_HELLO_INTERVAL_MS : Z := 500.
Definition DEF_REFRESH_INTERVAL_MS : Z := 500.
Definition DEF_TC_INTERVAL_MS : Z := 1250.
Definition DEF_NEIGHB_HOLD_TIME_MS : Z := 3 * DEF_REFRESH_INTERVAL_MS.
Definition DEF_TOP_HOLD_TIME_MS : Z := 3 * DEF_TC_INTERVAL_MS.
Definition DEF_DUP_HOLD_TIME_MS : Z := 10 * 1000.
Definition DEF_HELLO_VTIME : Z := DEF_NEIGHB_HOLD_TIME_MS.
Definition DEF_TC_VTIME : Z := DEF_TOP_HOLD_TIME_MS.
Definition CREATE_LINK_CODE (status link : Z) : Z := Z.lor link (Z.shiftl status 2).
Definition EXTRACT_STATUS (link_code : Z) : Z := Z.shiftr (Z.land link_code 0xC) 2.
Definition EXTRACT_LINK (link_code : Z) : Z := Z.land link_code 0x3.

Definition OLSR_TX_MSGBUF_SIZE : Z := 2000.
Definition MAX_NODE_COUNT : nat := 50.
Definition MAX_HOP_COUNT : nat := 50.

(** ** Comparison functions of the trees *)
Definition rbtree_compare_by_inetaddr (n1 n2 : Z) : Z := i32 (n1 - n2).

Record DuplicateSetKey : Type := mkDupKey { orig : Z; dup_seq : Z }.

Definition rbtree_compare_by_dupkey (dk1 dk2 : DuplicateSetKey) : Z :=
  let addrdiff := u32 (orig dk1 - orig dk2) in
  if negb (addrdiff =? 0) then i32 addrdiff
  else dup_seq dk1 - dup_seq dk2.

(** ** Tree elements *)
Record LinkElem : Type := mkLink {
  neighbor_iface_addr : Z;
  link_local_addr : Z;
  link_status : Z;
  sym_timer : option Z;
  asym_timer : option Z;
  link_expire_timer : option Z
}.
Record LocalNetIfaceElem : Type := mkIface {
  local_iface_addr : Z;
  iface_link_tree : list LinkElem
}.
Record Neighbor2Elem : Type := mkNeigh2 {
  neighbor2_main_addr : Z;
  bridge_addr : Z;
  neigh2_expire_timer : Z
}.
Record NeighborElem : Type := mkNeigh {
  neighbor_main_addr : Z;
  neigh_status : Z;
  willingness : Z;
  neighbor2_tree : list Neighbor2Elem
}.
Record MprElem : Type := mkMpr { mpr_addr : Z }.
Record MprSelectorElem : Type := mkSelector {
  selector_addr : Z;
  selector_expire_timer : Z
}.
Record AdvertisedNeighElem : Type := mkAn {
  last_addr : Z;
  obsolete : Z;
  duplicated : Z
}.
Record TopologyInfoElem : Type := mkTopo {
  dest_addr : Z;
  topo_seq : Z;
  an_tree : list AdvertisedNeighElem;
  topo_expire_timer : Z
}.
Record DuplicateSetElem : Type := mkDup {
  dup_key : DuplicateSetKey;
  retransmitted : Z;
  iface_addr_list : list Z;
  dup_expire_timer : Z
}.
Record RoutingEntry : Type := mkRoute {
  route_dest : Z;
  hop_count : Z;
  route : list Z
}.
Record OlsrParam : Type := mkParam {
  hello_interval_ms : Z;
  tc_interval_ms : Z;
  param_willingness : Z
}.

#[export] Instance routing_entry_eq_dec : EqDecision RoutingEntry.
Proof. solve_decision. Defined.
#[export] Instance an_elem_eq_dec : EqDecision AdvertisedNeighElem.
Proof. solve_decision. Defined.

#[export] Instance link_key : TreeKey LinkElem Z :=
  {| tkey := neighbor_iface_addr; tcmp := rbtree_compare_by_inetaddr |}.
#[export] Instance iface_key : TreeKey LocalNetIfaceElem Z :=
  {| tkey := local_iface_addr; tcmp := rbtree_compare_by_inetaddr |}.
#[export] Instance neigh2_key : TreeKey Neighbor2Elem Z :=
  {| tkey := neighbor2_main_addr; tcmp := rbtree_compare_by_inetaddr |}.
#[export] Instance neigh_key : TreeKey NeighborElem Z :=
  {| tkey := neighbor_main_addr; tcmp := rbtree_compare_by_inetaddr |}.
#[export] Instance mpr_key : TreeKey MprElem Z :=
  {| tkey := mpr_addr; tcmp := rbtree_compare_by_inetaddr |}.
#[export] Instance selector_key : TreeKey MprSelectorElem Z :=
  {| tkey := selector_addr; tcmp := rbtree_compare_by_inetaddr |}.
#[export] Instance an_key : TreeKey AdvertisedNeighElem Z :=
  {| tkey := last_addr; tcmp := rbtree_compare_by_inetaddr |}.
#[export] Instance topo_key : TreeKey TopologyInfoElem Z :=
  {| tkey := dest_addr; tcmp := rbtree_compare_by_inetaddr |}.
#[export] Instance dup_tree_key : TreeKey DuplicateSetElem DuplicateSetKey :=
  {| tkey := dup_key; tcmp := rbtree_compare_by_dupkey |}.
#[export] Instance route_key : TreeKey RoutingEntry Z :=
  {| tkey := route_dest; tcmp := rbtree_compare_by_inetaddr |}.

(** ** Statistics shared with the report job *)
Record TrafficCountInfo : Type := mkTraffic {
  tx_bytes : Z; rx_bytes : Z; tx_pkts : Z; rx_pkts : Z; traffic_dirty : Z
}.
Record RoutingInfo : Type := mkRinfo {
  rinfo_hop_count : Z;
  rinfo_path : list Z;         (** [MAX_HOP_COUNT] slots *)
  routing_dirty : Z
}.
Record NeighborInfo : Type := mkNinfo {
  ninfo_addr : Z;
  traffic : TrafficCountInfo;
  routing : RoutingInfo
}.
Record NetStats : Type := mkStats {
  node_stats_num : Z;
  node_info : list NeighborInfo  (** [MAX_NODE_COUNT] slots *)
}.
(** [info] is a pointer into [node_info]: its index. *)
Record NeighborStatInfo : Type := mkNstat {
  nstat_addr : Z;
  info : nat
}.
#[export] Instance nstat_key : TreeKey NeighborStatInfo Z :=
  {| tkey := nstat_addr; tcmp := rbtree_compare_by_inetaddr |}.

Definition zero_ninfo : NeighborInfo :=
  {| ninfo_addr := 0;
     traffic := mkTraffic 0 0 0 0 0;
     routing := mkRinfo 0 (repeat 0 MAX_HOP_COUNT) 0 |}.
Definition zero_stats : NetStats :=
  {| node_stats_num := 0; node_info := repeat zero_ninfo MAX_NODE_COUNT |}.

(** ** Timer callbacks of the module

    The [arg] of a callback is a pointer to a tree element.  A link is found by
    its keys; of the other elements the callbacks only read fields that never
    change after the allocation, its key and its own timer, and these are the
    arguments here, so that an element that has left its tree is read
    correctly. *)
Inductive olsr_cb : Type :=
  | Cb_link_timer_expire (iface link : Z)
  | Cb_neigh2_elem_expire (bridge n2 timer : Z)
  | Cb_mpr_selector_expire (selector timer : Z)
  | Cb_topology_info_timer_expire (dest timer : Z)
  | Cb_expire_dup_entry (key : DuplicateSetKey) (timer : Z)
  | Cb_olsr_hello_timer
  | Cb_olsr_tc_timer
  | Cb_olsr_send_from_queue
  | Cb_dump_debuginfo.

(** A frame handed to [conf.send_remote] or [conf.send_local]. *)
Inductive output : Type :=
  | SendRemote (data : list Z)
  | SendLocal (data : list Z).

(** [conf] is flattened: [own_ip], [stat], and [outs] for the calls made through
    the two send pointers, oldest first. *)
Record OlsrContext : Type := mkCtx {
  own_ip : Z;
  stat : NetStats;
  outs : list output;
  param : OlsrParam;
  timerqueue : TimerqueueContext olsr_cb;
  olsr_tx_msgbuf : RingBuffer;
  msg_seq : Z;
  ansn : Z;
  node_stat_tree : list NeighborStatInfo;
  local_iface_tree : list LocalNetIfaceElem;
  neighbor_tree : list NeighborElem;
  mpr_tree : list MprElem;
  selector_tree : list MprSelectorElem;
  topology_tree : list TopologyInfoElem;
  dup_tree : list DuplicateSetElem;
  routing_table : list RoutingEntry
}.

(** Assignments to the fields of the context. *)
Definition set_stat (c : OlsrContext) (v : NetStats) : OlsrContext :=
  mkCtx (own_ip c) v (outs c) (param c) (timerqueue c) (olsr_tx_msgbuf c)
    (msg_seq c) (ansn c) (node_stat_tree c) (local_iface_tree c) (neighbor_tree
    c) (mpr_tree c) (selector_tree c) (topology_tree c) (dup_tree c)
    (routing_table c).
Definition set_outs (c : OlsrContext) (v : list output) : OlsrContext :=
  mkCtx (own_ip c) (stat c) v (param c) (timerqueue c) (olsr_tx_msgbuf c)
    (msg_seq c) (ansn c) (node_stat_tree c) (local_iface_tree c) (neighbor_tree
    c) (mpr_tree c) (selector_tree c) (topology_tree c) (dup_tree c)
    (routing_table c).
Definition set_timerqueue (c : OlsrContext) (v : TimerqueueContext olsr_cb) : OlsrContext :=
  mkCtx (own_ip c) (stat c) (outs c) (param c) v (olsr_tx_msgbuf c) (msg_seq c)
    (ansn c) (node_stat_tree c) (local_iface_tree c) (neighbor_tree c) (mpr_tree
    c) (selector_tree c) (topology_tree c) (dup_tree c) (routing_table c).
Definition set_olsr_tx_msgbuf (c : OlsrContext) (v : RingBuffer) : OlsrContext :=
  mkCtx (own_ip c) (stat c) (outs c) (param c) (timerqueue c) v (msg_seq c)
    (ansn c) (node_stat_tree c) (local_iface_tree c) (neighbor_tree c) (mpr_tree
    c) (selector_tree c) (topology_tree c) (dup_tree c) (routing_table c).
Definition set_msg_seq (c : OlsrContext) (v : Z) : OlsrContext :=
  mkCtx (own_ip c) (stat c) (outs c) (param c) (timerqueue c) (olsr_tx_msgbuf c)
    v (ansn c) (node_stat_tree c) (local_iface_tree c) (neighbor_tree c)
    (mpr_tree c) (selector_tree c) (topology_tree c) (dup_tree c) (routing_table
    c).
Definition set_ansn (c : OlsrContext) (v : Z) : OlsrContext :=
  mkCtx (own_ip c) (stat c) (outs c) (param c) (timerqueue c) (olsr_tx_msgbuf c)
    (msg_seq c) v (node_stat_tree c) (local_iface_tree c) (neighbor_tree c)
    (mpr_tree c) (selector_tree c) (topology_tree c) (dup_tree c) (routing_table
    c).
Definition set_node_stat_tree (c : OlsrContext) (v : list NeighborStatInfo) : OlsrContext :=
  mkCtx (own_ip c) (stat c) (outs c) (param c) (timerqueue c) (olsr_tx_msgbuf c)
    (msg_seq c) (ansn c) v (local_iface_tree c) (neighbor_tree c) (mpr_tree c)
    (selector_tree c) (topology_tree c) (dup_tree c) (routing_table c).
Definition set_local_iface_tree (c : OlsrContext) (v : list LocalNetIfaceElem) : OlsrContext :=
  mkCtx (own_ip c) (stat c) (outs c) (param c) (timerqueue c) (olsr_tx_msgbuf c)
    (msg_seq c) (ansn c) (node_stat_tree c) v (neighbor_tree c) (mpr_tree c)
    (selector_tree c) (topology_tree c) (dup_tree c) (routing_table c).
Definition set_neighbor_tree (c : OlsrContext) (v : list NeighborElem) : OlsrContext :=
  mkCtx (own_ip c) (stat c) (outs c) (param c) (timerqueue c) (olsr_tx_msgbuf c)
    (msg_seq c) (ansn c) (node_stat_tree c) (local_iface_tree c) v (mpr_tree c)
    (selector_tree c) (topology_tree c) (dup_tree c) (routing_table c).
Definition set_mpr_tree (c : OlsrContext) (v : list MprElem) : OlsrContext :=
  mkCtx (own_ip c) (stat c) (outs c) (param c) (timerqueue c) (olsr_tx_msgbuf c)
    (msg_seq c) (ansn c) (node_stat_tree c) (local_iface_tree c) (neighbor_tree
    c) v (selector_tree c) (topology_tree c) (dup_tree c) (routing_table c).
Definition set_selector_tree (c : OlsrContext) (v : list MprSelectorElem) : OlsrContext :=
  mkCtx (own_ip c) (stat c) (outs c) (param c) (timerqueue c) (olsr_tx_msgbuf c)
    (msg_seq c) (ansn c) (node_stat_tree c) (local_iface_tree c) (neighbor_tree
    c) (mpr_tree c) v (topology_tree c) (dup_tree c) (routing_table c).
Definition set_topology_tree (c : OlsrContext) (v : list TopologyInfoElem) : OlsrContext :=
  mkCtx (own_ip c) (stat c) (outs c) (param c) (timerqueue c) (olsr_tx_msgbuf c)
    (msg_seq c) (ansn c) (node_stat_tree c) (local_iface_tree c) (neighbor_tree
    c) (mpr_tree c) (selector_tree c) v (dup_tree c) (routing_table c).
Definition set_dup_tree (c : OlsrContext) (v : list DuplicateSetElem) : OlsrContext :=
  mkCtx (own_ip c) (stat c) (outs c) (param c) (timerqueue c) (olsr_tx_msgbuf c)
    (msg_seq c) (ansn c) (node_stat_tree c) (local_iface_tree c) (neighbor_tree
    c) (mpr_tree c) (selector_tree c) (topology_tree c) v (routing_table c).
Definition set_routing_table (c : OlsrContext) (v : list RoutingEntry) : OlsrContext :=
  mkCtx (own_ip c) (stat c) (outs c) (param c) (timerqueue c) (olsr_tx_msgbuf c)
    (msg_seq c) (ansn c) (node_stat_tree c) (local_iface_tree c) (neighbor_tree
    c) (mpr_tree c) (selector_tree c) (topology_tree c) (dup_tree c) v.

(** Setters of the elements. *)
Definition set_link_status_field (s : Z) (l : LinkElem) : LinkElem :=
  mkLink (neighbor_iface_addr l) (link_local_addr l) s (sym_timer l) (asym_timer l)
    (link_expire_timer l).
Definition set_sym_timer (t : option Z) (l : LinkElem) : LinkElem :=
  mkLink (neighbor_iface_addr l) (link_local_addr l) (link_status l) t (asym_timer l)
    (link_expire_timer l).
Definition set_asym_timer (t : option Z) (l : LinkElem) : LinkElem :=
  mkLink (neighbor_iface_addr l) (link_local_addr l) (link_status l) (sym_timer l) t
    (link_expire_timer l).
Definition set_link_expire_timer (t : option Z) (l : LinkElem) : LinkElem :=
  mkLink (neighbor_iface_addr l) (link_local_addr l) (link_status l) (sym_timer l)
    (asym_timer l) t.
Definition set_links (t : list LinkElem) (i : LocalNetIfaceElem) : LocalNetIfaceElem :=
  mkIface (local_iface_addr i) t.
Definition set_status (s : Z) (n : NeighborElem) : NeighborElem :=
  mkNeigh (neighbor_main_addr n) s (willingness n) (neighbor2_tree n).
Definition set_neighbor2_tree (t : list Neighbor2Elem) (n : NeighborElem) : NeighborElem :=
  mkNeigh (neighbor_main_addr n) (neigh_status n) (willingness n) t.
Definition set_obsolete (v : Z) (a : AdvertisedNeighElem) : AdvertisedNeighElem :=
  mkAn (last_addr a) v (duplicated a).
Definition set_an_tree (t : list AdvertisedNeighElem) (e : TopologyInfoElem) : TopologyInfoElem :=
  mkTopo (dest_addr e) (topo_seq e) t (topo_expire_timer e).
Definition set_topo_seq (v : Z) (e : TopologyInfoElem) : TopologyInfoElem :=
  mkTopo (dest_addr e) v (an_tree e) (topo_expire_timer e).
Definition set_retransmitted (v : Z) (d : DuplicateSetElem) : DuplicateSetElem :=
  mkDup (dup_key d) v (iface_addr_list d) (dup_expire_timer d).
Definition set_routing (r : RoutingInfo) (i : NeighborInfo) : NeighborInfo :=
  mkNinfo (ninfo_addr i) (traffic i) r.
Definition set_traffic (t : TrafficCountInfo) (i : NeighborInfo) : NeighborInfo :=
  mkNinfo (ninfo_addr i) t (routing i).

(** ** olsr_context.c *)
Definition init_olsr_param : OlsrParam :=
  {| hello_interval_ms := DEF_HELLO_INTERVAL_MS;
     tc_interval_ms := DEF_TC_INTERVAL_MS;
     param_willingness := WILL_DEFAULT |}.

Definition init_olsr_context (own_ip : Z) (stat : NetStats) (clk : nat -> timespec)
  (rnd : nat -> Z) (blk : list Z) : OlsrContext :=
  {| own_ip := own_ip; stat := stat; outs := [];
     param := init_olsr_param;
     timerqueue := create_timerqueue clk rnd;
     olsr_tx_msgbuf := RingBuffer_new OLSR_TX_MSGBUF_SIZE blk;
     msg_seq := 0; ansn := 0;
     node_stat_tree := []; local_iface_tree := []; neighbor_tree := []; mpr_tree := [];
     selector_tree := []; topology_tree := []; dup_tree := []; routing_table := [] |}.

(** Run a timer queue operation on the context's queue. *)
Definition with_tq {A} (ctx : OlsrContext)
  (f : TimerqueueContext olsr_cb -> res (TimerqueueContext olsr_cb * A))
  : res (OlsrContext * A) :=
  let* r := f (timerqueue ctx) in Ok (set_timerqueue ctx (fst r), snd r).
Definition upd_tq (ctx : OlsrContext)
  (f : TimerqueueContext olsr_cb -> res (TimerqueueContext olsr_cb)) : res OlsrContext :=
  let* tq := f (timerqueue ctx) in Ok (set_timerqueue ctx tq).

(** The linear search of [node_info] for an address. *)
Fixpoint find_info (l : list NeighborInfo) (addr : Z) (i : nat) : option nat :=
  match l with
  | [] => None
  | x :: l' => if ninfo_addr x =? addr then Some i else find_info l' addr (S i)
  end.

(** [node_info] is not checked for room: a 51st node is written past its end. *)
Definition get_neighborstat_buf (ctx : OlsrContext) (dest : Z)
  : res (OlsrContext * NeighborStatInfo) :=
  match rbtree_search (node_stat_tree ctx) dest with
  | Some e => Ok (ctx, e)
  | None =>
    let entrynum := Z.to_nat (node_stats_num (stat ctx)) in
    let infos := node_info (stat ctx) in
    if (length infos <? entrynum)%nat then UB else
    match find_info (take entrynum infos) dest 0 with
    | Some i =>
      let e := {| nstat_addr := dest; info := i |} in
      Ok (set_node_stat_tree ctx (tree_put (node_stat_tree ctx) e), e)
    | None =>
      let* x := deref (infos !! entrynum) in
      let x' := mkNinfo dest (traffic x) (routing x) in
      let ctx := set_stat ctx {| node_stats_num := node_stats_num (stat ctx) + 1;
                                 node_info := <[entrynum := x']> infos |} in
      let e := {| nstat_addr := dest; info := entrynum |} in
      Ok (set_node_stat_tree ctx (tree_put (node_stat_tree ctx) e), e)
    end
  end.

(** Store through [nstat->info]. *)
Definition poke_info (ctx : OlsrContext) (i : nat) (f : NeighborInfo -> NeighborInfo)
  : res OlsrContext :=
  let* x := deref (node_info (stat ctx) !! i) in
  Ok (set_stat ctx {| node_stats_num := node_stats_num (stat ctx);
                      node_info := <[i := f x]> (node_info (stat ctx)) |}).

(** ** The order of the addresses

    The comparison is a wrapped difference, so it is not transitive on all
    addresses; it is a strict total order on every window of half the address
    space, in particular on the node addresses and the broadcast address. *)
Definition in_window (w a : Z) : Prop := is_u32 a /\ u32 (a - w) < 2 ^ 31.

Lemma compare_in_window w a b :
  in_window w a -> in_window w b ->
  rbtree_compare_by_inetaddr a b = u32 (a - w) - u32 (b - w).
Proof.
  unfold in_window, rbtree_compare_by_inetaddr, is_u32, i32, u32. lia.
Qed.

#[export] Instance inetaddr_order w : CmpOrder rbtree_compare_by_inetaddr (in_window w).
Proof.
  split.
  - intros a b Ha Hb. rewrite (compare_in_window w) by done.
    unfold in_window, is_u32, u32 in *. lia.
  - intros a b Ha Hb. rewrite !(compare_in_window w) by done. lia.
  - intros a b c Ha Hb Hc. rewrite !(compare_in_window w) by done. lia.
Qed.

Lemma compare_eq_u32 a b :
  is_u32 a -> is_u32 b -> rbtree_compare_by_inetaddr a b = 0 <-> a = b.
Proof. unfold is_u32, rbtree_compare_by_inetaddr, i32. lia. Qed.

Lemma compare_refl a : rbtree_compare_by_inetaddr a a = 0.
Proof. unfold rbtree_compare_by_inetaddr. by rewrite Z.sub_diag. Qed.

Lemma compare_eqb w a b : in_window w a -> in_window w b ->
  (rbtree_compare_by_inetaddr a b =? 0) = (a =? b).
Proof.
  intros [Ha _] [Hb _]. pose proof (compare_eq_u32 a b Ha Hb). bool_lia.
Qed.

Definition in_windowb (w a : Z) : bool :=
  (0 <=? a) && (a <? 2 ^ 32) && (u32 (a - w) <? 2 ^ 31).

Lemma in_windowb_ok w a : in_windowb w a = true -> in_window w a.
Proof.
  unfold in_windowb, in_window, is_u32. rewrite !andb_true_iff. intros [[H1 H2] H3].
  apply Z.leb_le in H1. apply Z.ltb_lt in H2, H3. lia.
Qed.

(** Closes [tree_ok] of a concrete tree keyed by addresses. *)
Ltac tree_concrete :=
  lazymatch goal with
  | |- tree_ok (in_window ?w) _ =>
      apply (tree_okb_ok _ (in_windowb w)); [exact (in_windowb_ok w)|vm_compute; reflexivity]
  end.

(** Closes statements about all members of a concrete list. *)
Ltac each := unfold keys, incl in *; cbn; intros; cbn in *; repeat match goal with
  | H : _ \/ _ |- _ => destruct H
  | H : False |- _ => destruct H
  | H : _ /\ _ |- _ => destruct H
  | H : _ = _ |- _ => progress (subst; cbn in *)
  end; cbn in *; try done.

(** Duplicate-set keys: the address order, then the sequence number. *)
Definition dupkey_in_window (w : Z) (k : DuplicateSetKey) : Prop :=
  in_window w (orig k) /\ is_u16 (dup_seq k).

Lemma compare_dupkey w k1 k2 :
  dupkey_in_window w k1 -> dupkey_in_window w k2 ->
  rbtree_compare_by_dupkey k1 k2 =
    if orig k1 =? orig k2 then dup_seq k1 - dup_seq k2
    else u32 (orig k1 - w) - u32 (orig k2 - w).
Proof.
  intros [H1 _] [H2 _]. rewrite <- compare_in_window by done.
  unfold rbtree_compare_by_dupkey, rbtree_compare_by_inetaddr.
  unfold in_window, is_u32 in *.
  destruct (Z.eqb_spec (orig k1) (orig k2)) as [->|Hne].
  - rewrite Z.sub_diag. done.
  - destruct (Z.eqb_spec (u32 (orig k1 - orig k2)) 0); cbn; unfold u32, i32 in *; lia.
Qed.

#[export] Instance dupkey_order w : CmpOrder rbtree_compare_by_dupkey (dupkey_in_window w).
Proof.
  assert (Hinj : forall a b, in_window w a -> in_window w b -> u32 (a - w) = u32 (b - w) -> a = b)
    by (unfold in_window, is_u32, u32; lia).
  split.
  - intros [a m] [b n] Ha Hb. rewrite (compare_dupkey w) by done. cbn.
    pose proof (Hinj a b (proj1 Ha) (proj1 Hb)).
    destruct (Z.eqb_spec a b) as [->|]; split; intros E; try congruence.
    + f_equal. lia.
    + inversion E; subst. lia.
    + exfalso. lia.
  - intros [a m] [b n] Ha Hb. rewrite !(compare_dupkey w) by done. cbn. bool_lia.
  - intros [a m] [b n] [c p] Ha Hb Hc. rewrite !(compare_dupkey w) by done. cbn.
    pose proof (Hinj a b (proj1 Ha) (proj1 Hb)). pose proof (Hinj b c (proj1 Hb) (proj1 Hc)).
    pose proof (Hinj a c (proj1 Ha) (proj1 Hc)). bool_lia; subst; lia.
Qed.
