(* ===== verification/OlsrSpf.v ===== *)
(** Routing table computation (simnet/olsr/olsr_spf.c).

    [calc_routing_table] follows the C function: the advertised neighbours are
    made symmetric for the time of the computation ([duplicate_neigh_info]), a
    breadth-first search from the symmetric one-hop neighbours builds the table,
    the topology is restored ([unduplicate_neigh_info]) and the differences with
    the old table are noted in the statistics.  The entries of the table are
    never changed once made, so the visit queue holds the entries themselves.

    [walk] is the specification: paths in the symmetric closure of the
    advertised links.  The theorems say that the search ends, that the table has
    an entry for exactly the addresses a walk reaches, with the length of a
    shortest walk, and that its routes are such walks. *)
From S2P Require Import Prelude OrdTree RingBuffer TimerQueue OlsrContext.
From stdpp Require Import base list numbers gmap.
From Stdlib Require Import ZArith Lia Sorted.
Open Scope Z_scope.
Open Scope c_scope.

(** ** Symmetric closure of the topology *)

(** Inner loop body of [duplicate_neigh_info], for the node [dest]. *)
Definition duplicate_to_peer (own dest : Z) (topo : list TopologyInfoElem)
  (aelem : AdvertisedNeighElem) : list TopologyInfoElem :=
  if last_addr aelem =? own then topo
  else match rbtree_search topo (last_addr aelem) with
       | None => topo
       | Some peer =>
         let aelem2 := {| last_addr := dest; obsolete := 0; duplicated := 1 |} in
         match rbtree_insert (an_tree peer) aelem2 with
         | Some t => tree_update topo (last_addr aelem) (set_an_tree t)
         | None => topo
         end
       end.

(** Outer loop body.  The tree that is walked changes only when a node
    advertises itself, and then the insertion finds the key taken. *)
Definition duplicate_node (own : Z) (topo : list TopologyInfoElem) (dest : Z)
  : list TopologyInfoElem :=
  match rbtree_search topo dest with
  | None => topo
  | Some telem => fold_left (duplicate_to_peer own dest) (an_tree telem) topo
  end.

Definition duplicate_neigh_info (own : Z) (topo : list TopologyInfoElem)
  : list TopologyInfoElem :=
  fold_left (duplicate_node own) (map dest_addr topo) topo.

Definition MAX_DUPLICATES : nat := 50.

(** The duplicates of one node are collected in an array of 50 slots. *)
Definition unduplicate_node (telem : TopologyInfoElem) : res TopologyInfoElem :=
  let duplicates := List.filter (fun a => duplicated a =? 1) (an_tree telem) in
  if (MAX_DUPLICATES <? length duplicates)%nat then UB
  else Ok (set_an_tree
             (fold_left (fun t a => fst (rbtree_delete t (last_addr a))) duplicates
                        (an_tree telem)) telem).

Fixpoint unduplicate_neigh_info (topo : list TopologyInfoElem) : res (list TopologyInfoElem) :=
  match topo with
  | [] => Ok []
  | t :: topo' =>
    let* t := unduplicate_node t in
    let* topo' := unduplicate_neigh_info topo' in
    Ok (t :: topo')
  end.

(** ** Search *)
Definition is_sym (n : NeighborElem) : bool :=
  (neigh_status n =? SYM_NEIGH) || (neigh_status n =? MPR_NEIGH).

(** The table and the visit queue. *)
Definition spf_state : Type := list RoutingEntry * list RoutingEntry.

Definition add_one_hop (st : spf_state) (nelem : NeighborElem) : spf_state :=
  if is_sym nelem then
    let entry := {| route_dest := neighbor_main_addr nelem; hop_count := 1;
                    route := [neighbor_main_addr nelem] |} in
    (tree_put (fst st) entry, snd st ++ [entry])
  else st.

Definition routing_table_add_one_hop_neigh (neighbors : list NeighborElem) (st : spf_state)
  : spf_state := fold_left add_one_hop neighbors st.

Definition visit (own : Z) (curr : RoutingEntry) (st : spf_state) (aelem : AdvertisedNeighElem)
  : spf_state :=
  if last_addr aelem =? own then st
  else match rbtree_search (fst st) (last_addr aelem) with
       | Some _ => st
       | None =>
         let new_entry := {| route_dest := last_addr aelem;
                             hop_count := hop_count curr + 1;
                             route := route curr ++ [last_addr aelem] |} in
         (tree_put (fst st) new_entry, snd st ++ [new_entry])
       end.

Definition visit_entry (own : Z) (topo : list TopologyInfoElem) (curr : RoutingEntry)
  (st : spf_state) : spf_state :=
  if route_dest curr =? own then st
  else match rbtree_search topo (route_dest curr) with
       | None => st
       | Some telem => fold_left (visit own curr) (an_tree telem) st
       end.

Fixpoint spf_loop (fuel : nat) (own : Z) (topo : list TopologyInfoElem) (st : spf_state)
  : res (list RoutingEntry) :=
  match snd st with
  | [] => Ok (fst st)
  | curr :: queue =>
    match fuel with
    | O => NoFuel
    | S n => spf_loop n own topo (visit_entry own topo curr (fst st, queue))
    end
  end.

(** Enough turns: every address enters the queue at most once. *)
Definition spf_fuel (neighbors : list NeighborElem) (topo : list TopologyInfoElem) : nat :=
  length neighbors + list_sum (map (fun t => length (an_tree t)) topo).

(** ** Statistics *)
Definition update_route_info_disconncted (ctx : OlsrContext)
  (old_table new_table : list RoutingEntry) : res OlsrContext :=
  rfold (fun ctx old_entry =>
    match rbtree_search new_table (route_dest old_entry) with
    | Some _ => Ok ctx
    | None =>
      let* r := get_neighborstat_buf ctx (route_dest old_entry) in
      let '(ctx, nstat) := r in
      poke_info ctx (info nstat) (fun i =>
        set_routing (mkRinfo 0 (rinfo_path (routing i)) 1) i)
    end) old_table ctx.

(** Comparison of two routes over [n] hops.  Running past the end of the old
    route would read the list head as an element. *)
Fixpoint route_changed (n : nat) (new_route old_route : list Z) : res bool :=
  match n with
  | O => Ok false
  | S n' =>
    match new_route, old_route with
    | x :: new', y :: old' => if negb (x =? y) then Ok true else route_changed n' new' old'
    | _, _ => UB
    end
  end.

(** [rinfo->path[...]] has [MAX_HOP_COUNT] slots. *)
Definition write_path (path route : list Z) : res (list Z) :=
  if (length path <? length route)%nat then UB
  else Ok (route ++ drop (length route) path).

Definition note_route (ctx : OlsrContext) (new_entry : RoutingEntry) : res OlsrContext :=
  let* r := get_neighborstat_buf ctx (route_dest new_entry) in
  let '(ctx, nstat) := r in
  let* i := deref (node_info (stat ctx) !! info nstat) in
  let* path := write_path (rinfo_path (routing i)) (route new_entry) in
  poke_info ctx (info nstat) (set_routing (mkRinfo (hop_count new_entry) path 1)).

Definition update_route_info_changed (ctx : OlsrContext)
  (old_table new_table : list RoutingEntry) : res OlsrContext :=
  rfold (fun ctx new_entry =>
    match rbtree_search old_table (route_dest new_entry) with
    | None => note_route ctx new_entry
    | Some old_entry =>
      let* changed := route_changed (Z.to_nat (hop_count new_entry))
                        (route new_entry) (route old_entry) in
      if changed then note_route ctx new_entry else Ok ctx
    end) new_table ctx.

Definition update_route_info (ctx : OlsrContext) (old_table new_table : list RoutingEntry)
  : res OlsrContext :=
  let* ctx := update_route_info_disconncted ctx old_table new_table in
  update_route_info_changed ctx old_table new_table.

Definition calc_routing_table (ctx : OlsrContext) : res OlsrContext :=
  let old_table := routing_table ctx in
  let topo := duplicate_neigh_info (own_ip ctx) (topology_tree ctx) in
  let st := routing_table_add_one_hop_neigh (neighbor_tree ctx) ([], []) in
  let* table := spf_loop (spf_fuel (neighbor_tree ctx) topo) (own_ip ctx) topo st in
  let* topo := unduplicate_neigh_info topo in
  let ctx := set_routing_table (set_topology_tree ctx topo) table in
  update_route_info ctx old_table table.

(** ** Specification: links and walks *)

(** [v] is advertised by the node [u] of the topology. *)
Definition edge (topo : list TopologyInfoElem) (u v : Z) : Prop :=
  exists t, In t topo /\ dest_addr t = u /\ In v (keys (an_tree t)).

(** The links the routing uses: advertised ones, in either direction between
    nodes of the topology. *)
Definition link (own : Z) (topo : list TopologyInfoElem) (u v : Z) : Prop :=
  edge topo u v \/ (edge topo v u /\ u <> own /\ In u (keys topo)).

(** [walk own neighbors R p v]: [p] is a path that starts at a symmetric
    neighbour, follows [R], does not go through the node itself and ends in [v]. *)
Inductive walk (own : Z) (neighbors : list NeighborElem) (R : Z -> Z -> Prop)
  : list Z -> Z -> Prop :=
  | walk_one n : In n neighbors -> is_sym n = true ->
      walk own neighbors R [neighbor_main_addr n] (neighbor_main_addr n)
  | walk_step p u v : walk own neighbors R p u -> u <> own -> R u v -> v <> own ->
      walk own neighbors R (p ++ [v]) v.

Lemma walk_mono own neighbors (R1 R2 : Z -> Z -> Prop) p v :
  (forall a b, R1 a b -> R2 a b) -> walk own neighbors R1 p v -> walk own neighbors R2 p v.
Proof. intros HR. induction 1; econstructor; eauto. Qed.

Lemma walk_end own neighbors R p v : walk own neighbors R p v -> exists q, p = q ++ [v].
Proof. intros []; [by exists []|eauto]. Qed.

(** ** The search, on a given topology *)
Section Search.
Context (w own : Z) (neighbors : list NeighborElem) (topo : list TopologyInfoElem).
Abbreviation W := (in_window w).

Abbreviation edge := (edge topo).
Abbreviation walk := (walk own neighbors edge).

Definition entry_ok (e : RoutingEntry) : Prop :=
  walk (route e) (route_dest e) /\ hop_count e = zlen (route e) /\ List.NoDup (route e).

Hypothesis Hnbrs : tree_ok W neighbors.
Hypothesis Htopo : tree_ok W topo.
Hypothesis Han : forall t, In t topo -> tree_ok W (an_tree t).

(** What holds of table and queue while [curr] is being expanded: [cur] is
    its hop count, and [seen] are the entries whose links are all visited. *)
Record spf_inv (cur : Z) (seen : RoutingEntry -> Prop) (st : spf_state) : Prop := {
  inv_tree : tree_ok W (fst st);
  inv_entry : forall e, In e (fst st) -> entry_ok e;
  inv_closed : forall e a, In e (fst st) -> In a (route e) -> In a (keys (fst st));
  inv_level : forall e, In e (fst st) -> hop_count e <= cur + 1;
  inv_queue : incl (snd st) (fst st);
  inv_queue_level : forall e, In e (snd st) -> cur <= hop_count e;
  inv_sorted : StronglySorted (fun a b => hop_count a <= hop_count b) (snd st);
  inv_seen : forall e, In e (fst st) -> ~ In e (snd st) -> seen e;
  inv_univ : incl (keys (fst st))
    (map neighbor_main_addr neighbors ++ concat (map (fun t => keys (an_tree t)) topo))
}.

(** [e]'s links all lead to entries at most one hop further. *)
Definition expanded (table : list RoutingEntry) (e : RoutingEntry) : Prop :=
  route_dest e <> own -> forall v, edge (route_dest e) v -> v <> own ->
  exists e', In e' table /\ route_dest e' = v /\ hop_count e' <= hop_count e + 1.

Lemma expanded_mono t1 t2 e : incl t1 t2 -> expanded t1 e -> expanded t2 e.
Proof.
  intros Hi He Hd v Hv Ho. destruct (He Hd v Hv Ho) as (e' & ? & ? & ?). eauto.
Qed.

Lemma concat_in a t : In t topo -> In a (keys (an_tree t)) ->
  In a (concat (map (fun t => keys (an_tree t)) topo)).
Proof. intros. apply in_concat. exists (keys (an_tree t)). split; [|done].
  apply in_map_iff. eauto. Qed.

Lemma sorted_app_last l (x : RoutingEntry) :
  StronglySorted (fun a b => hop_count a <= hop_count b) l ->
  (forall e, In e l -> hop_count e <= hop_count x) ->
  StronglySorted (fun a b => hop_count a <= hop_count b) (l ++ [x]).
Proof.
  induction 1 as [|a l Hs IH Hf]; intros Hx; cbn; [repeat constructor|].
  constructor; [apply IH; intros; apply Hx; now right|].
  apply Forall_app. split; [done|]. constructor; [|constructor]. apply Hx. now left.
Qed.

(** One link of the entry being expanded. *)
Lemma visit_inv curr seen st a t :
  In t topo -> dest_addr t = route_dest curr -> In a (an_tree t) ->
  route_dest curr <> own ->
  In curr (fst st) -> spf_inv (hop_count curr) seen st ->
  let st' := visit own curr st a in
  spf_inv (hop_count curr) seen st' /\ incl (fst st) (fst st') /\
  (last_addr a <> own -> In (last_addr a) (keys (fst st'))) /\
  (length (snd st') + length (fst st) = length (fst st') + length (snd st))%nat.
Proof using Han Htopo.
  intros Ht Hd Ha Hown Hcurr Hinv. destruct st as [T Q]. cbn in *.
  assert (HWa : W (last_addr a)) by tree_dom.
  unfold visit. destruct (Z.eqb_spec (last_addr a) own) as [->|Ho]; cbn.
  { split; [done|]. split; [apply incl_refl|]. split; [congruence|]. lia. }
  destruct (rbtree_search T (last_addr a)) as [e0|] eqn:Es; cbn.
  { split; [done|]. split; [apply incl_refl|]. split; [|lia]. intros _.
    apply (search_iff W) in Es as [Hin He0]; [|apply Hinv|done].
    by apply (in_keys T e0). }
  set (e1 := mkRoute _ _ _).
  destruct (put_fresh W T e1) as [Hok1 Hperm]; [apply Hinv|done|done|].
  assert (Hin1 : forall e, In e (tree_put T e1) <-> e1 = e \/ In e T)
    by (intros e; rewrite Hperm; done).
  assert (Hnew : ~ In (last_addr a) (keys T))
    by (apply (search_none_iff W) in Es; [done|apply Hinv|done]).
  destruct (inv_entry _ _ _ Hinv curr Hcurr) as (Hwalk & Hhop & Hnd).
  split; [|split; [intros e He; apply Hin1; auto|split]].
  - constructor; cbn.
    + done.
    + intros e He. apply Hin1 in He as [<-|He]; [|by apply (inv_entry _ _ _ Hinv)].
      split; [|split]; cbn.
      * eapply walk_step; eauto. exists t. split; [done|]. split; [done|].
        by apply (in_keys (an_tree t) a).
      * rewrite zlen_app, Hhop. done.
      * apply nodup_snoc; [done|]. intros Hx. apply Hnew.
        by apply (inv_closed _ _ _ Hinv curr).
    + intros e x He Hx. apply (keys_put W); [apply Hinv|done|].
      apply Hin1 in He as [<-|He]; cbn in Hx.
      * apply in_app_iff in Hx as [Hx|[<-|[]]]; [|by left]. right.
        by apply (inv_closed _ _ _ Hinv curr).
      * right. by apply (inv_closed _ _ _ Hinv e).
    + intros e He. apply Hin1 in He as [<-|He]; cbn; [lia|]. by apply (inv_level _ _ _ Hinv).
    + intros e He. apply in_app_iff in He as [He|[<-|[]]]; apply Hin1; [right|by left].
      by apply (inv_queue _ _ _ Hinv).
    + intros e He. apply in_app_iff in He as [He|[<-|[]]]; cbn; [|lia].
      by apply (inv_queue_level _ _ _ Hinv).
    + apply sorted_app_last; [apply Hinv|]. intros e He. cbn.
      apply (inv_level _ _ _ Hinv). by apply (inv_queue _ _ _ Hinv).
    + intros e He Hn. apply Hin1 in He as [<-|He].
      * exfalso. apply Hn. apply in_app_iff. right. by left.
      * apply (inv_seen _ _ _ Hinv); [done|]. intros Hq. apply Hn, in_app_iff. by left.
    + intros x Hx. apply (keys_put W) in Hx as [->|Hx]; [|by apply (inv_univ _ _ _ Hinv)
        |apply Hinv|done].
      cbn. apply in_app_iff. right. apply (concat_in _ t); [done|]. by apply (in_keys (an_tree t) a).
  - intros _. apply (keys_put W); [apply Hinv|done|]. by left.
  - pose proof (Permutation_length Hperm) as Hl. cbn in Hl. rewrite length_app. cbn. lia.
Qed.

Lemma spf_inv_weaken cur (seen seen' : RoutingEntry -> Prop) st :
  (forall e, In e (fst st) -> seen e -> seen' e) -> spf_inv cur seen st -> spf_inv cur seen' st.
Proof.
  intros Hi []. constructor; try done. intros e He Hn. apply Hi; auto.
Qed.

(** All the links of the entry being expanded. *)
Lemma visit_all_inv curr seen t l st :
  In t topo -> dest_addr t = route_dest curr -> incl l (an_tree t) ->
  route_dest curr <> own ->
  In curr (fst st) -> spf_inv (hop_count curr) seen st ->
  let st' := fold_left (visit own curr) l st in
  spf_inv (hop_count curr) seen st' /\ incl (fst st) (fst st') /\
  (forall a, In a l -> last_addr a <> own -> In (last_addr a) (keys (fst st'))) /\
  (length (snd st') + length (fst st) = length (fst st') + length (snd st))%nat.
Proof using Han Htopo.
  intros Ht Hd Hl Hown. revert st. induction l as [|a l IH]; intros st Hcurr Hinv; cbn.
  { split; [done|]. split; [apply incl_refl|]. split; [tauto|]. lia. }
  destruct (visit_inv curr seen st a t) as (Hinv1 & Hi1 & Hk1 & Hl1); auto.
  { apply Hl. now left. }
  destruct (IH ltac:(intros x Hx; apply Hl; now right) (visit own curr st a))
    as (Hinv2 & Hi2 & Hk2 & Hl2); auto.
  split; [done|]. split; [by eapply incl_tran|]. split; [|lia].
  intros x [->|Hx] Ho; [|by apply Hk2].
  destruct (in_keys_inv _ _ (Hk1 Ho)) as (e & He & Hke). apply (in_keys _ e); auto.
Qed.

Lemma visit_entry_inv curr st :
  In curr (fst st) ->
  spf_inv (hop_count curr) (fun e => e = curr \/ expanded (fst st) e) st ->
  let st' := visit_entry own topo curr st in
  spf_inv (hop_count curr) (expanded (fst st')) st' /\ incl (fst st) (fst st') /\
  (length (snd st') + length (fst st) = length (fst st') + length (snd st))%nat.
Proof using Han Htopo.
  intros Hcurr Hinv. unfold visit_entry.
  destruct (Z.eqb_spec (route_dest curr) own) as [Ho|Ho]; cbn zeta.
  { split; [|split; [apply incl_refl|lia]]. eapply spf_inv_weaken; [|done].
    intros e _ [->|?]; [|done]. intros Hd. contradiction. }
  assert (HW : W (route_dest curr))
    by (exact (tree_ok_dom W (fst st) curr (inv_tree _ _ _ Hinv) Hcurr)).
  destruct (rbtree_search topo (route_dest curr)) as [t|] eqn:Es.
  - apply (search_iff W) in Es as [Ht Hd]; [|done|done].
    destruct (visit_all_inv curr (fun e => e = curr \/ expanded (fst st) e) t (an_tree t) st)
      as (Hinv' & Hi & Hk & Hlen); auto; [apply incl_refl|].
    split; [|by split]. eapply spf_inv_weaken; [|done].
    intros e _ [->|He]; [|by eapply expanded_mono].
    intros _ v (t' & Ht' & Hd' & Hv) Hvo.
    assert (t' = t) as -> by (apply (tree_ok_inj W topo); auto; exact (eq_trans Hd' (eq_sym Hd))).
    destruct (in_keys_inv _ _ Hv) as (a & Ha & <-).
    destruct (in_keys_inv _ _ (Hk a Ha Hvo)) as (e' & He' & Hke').
    exists e'. split; [done|]. split; [done|]. by apply (inv_level _ _ _ Hinv').
  - split; [|split; [apply incl_refl|lia]]. eapply spf_inv_weaken; [|done].
    intros e _ [->|?]; [|done]. intros _ v (t' & Ht' & Hd' & _). exfalso.
    apply (search_none_iff W) in Es; [|done|done]. apply Es.
    apply (in_keys _ t'); done.
Qed.

(** The queue's first entry gives the current level. *)
Lemma spf_inv_pop cur seen table curr queue :
  spf_inv cur seen (table, curr :: queue) ->
  In curr table /\
  spf_inv (hop_count curr) (fun e => e = curr \/ seen e) (table, queue).
Proof using.
  intros Hinv. pose proof (inv_queue _ _ _ Hinv) as Hq. cbn in Hq.
  assert (Hc : cur <= hop_count curr) by (apply (inv_queue_level _ _ _ Hinv); now left).
  pose proof (inv_sorted _ _ _ Hinv) as Hs. cbn in Hs. inversion Hs as [|? ? Hs' Hf]; subst.
  split; [apply Hq; now left|]. constructor; cbn.
  - apply Hinv.
  - apply Hinv.
  - apply Hinv.
  - intros e He. pose proof (inv_level _ _ _ Hinv e He). lia.
  - intros e He. apply Hq. now right.
  - intros e He. by apply (proj1 (List.Forall_forall _ _) Hf).
  - done.
  - intros e He Hn. destruct (Z.eq_dec (route_dest e) (route_dest curr)) as [E|E].
    + left. apply (tree_ok_inj W table); auto; [apply Hinv|apply Hq; now left].
    + right. apply (inv_seen _ _ _ Hinv); [done|]. intros [->|?]; [congruence|contradiction].
  - apply Hinv.
Qed.

Definition univ : list Z :=
  map neighbor_main_addr neighbors ++ concat (map (fun t => keys (an_tree t)) topo).

Lemma table_bound cur seen st : spf_inv cur seen st -> (length (fst st) <= length univ)%nat.
Proof using.
  intros Hinv. replace (length (fst st)) with (length (keys (fst st))) by apply length_map.
  apply NoDup_incl_length; [|apply Hinv]. apply (tree_ok_nodup W). apply Hinv.
Qed.

(** The loop ends, and in the final table every entry is expanded. *)
Lemma spf_loop_ok fuel st cur :
  spf_inv cur (expanded (fst st)) st ->
  (length (snd st) + length univ <= fuel + length (fst st))%nat ->
  exists table, spf_loop fuel own topo st = Ok table /\ incl (fst st) table /\
    tree_ok W table /\ (forall e, In e table -> entry_ok e) /\
    (forall e, In e table -> expanded table e).
Proof using Han Htopo.
  revert st cur. induction fuel as [|fuel IH]; intros [table [|curr queue]] cur Hinv Hf.
  1, 3: exists table; cbn; split; [done|]; split; [apply incl_refl|];
    split; [apply Hinv|]; split; [apply Hinv|];
    intros e He; apply (inv_seen _ _ _ Hinv); [done|cbn; tauto].
  - exfalso. pose proof (table_bound _ _ _ Hinv). cbn in *. lia.
  - cbn [spf_loop snd fst].
    apply spf_inv_pop in Hinv as [Hcurr Hinv]. cbn [fst] in Hinv.
    pose proof (visit_entry_inv curr (table, queue) Hcurr Hinv) as (Hinv' & Hi1 & Hlen).
    destruct (IH _ _ Hinv') as (table' & -> & Hi & Hrest).
    { cbn in *. lia. }
    exists table'. split; [done|]. split; [|done]. by eapply incl_tran.
Qed.

(** The initial table and queue. *)
Lemma add_one_hop_inv n st :
  In n neighbors -> ~ In (neighbor_main_addr n) (keys (fst st)) ->
  spf_inv 0 (fun _ => False) st ->
  let st' := add_one_hop st n in
  spf_inv 0 (fun _ => False) st' /\ incl (fst st) (fst st') /\
  (length (snd st') + length (fst st) = length (fst st') + length (snd st))%nat /\
  (forall k, In k (keys (fst st')) -> k = neighbor_main_addr n \/ In k (keys (fst st))) /\
  (is_sym n = true -> exists e, In e (fst st') /\ route_dest e = neighbor_main_addr n /\
     hop_count e = 1).
Proof using Hnbrs.
  intros Hn Hfresh Hinv. unfold add_one_hop. destruct (is_sym n) eqn:Hs; cbn zeta.
  2: { split; [done|]. split; [apply incl_refl|]. split; [lia|]. split; [auto|discriminate]. }
  assert (HW : W (neighbor_main_addr n)) by (exact (tree_ok_dom W neighbors n Hnbrs Hn)).
  set (e1 := mkRoute _ _ _).
  destruct (put_fresh W (fst st) e1) as [Hok1 Hperm];
    [apply Hinv|done|by apply (search_none_iff W); [apply Hinv|done|]|].
  assert (Hin1 : forall e, In e (tree_put (fst st) e1) <-> e1 = e \/ In e (fst st))
    by (intros e; rewrite Hperm; done).
  assert (Hkeys : forall k, In k (keys (tree_put (fst st) e1)) <->
            k = neighbor_main_addr n \/ In k (keys (fst st)))
    by (intros k; exact (keys_put W (fst st) e1 k (inv_tree _ _ _ Hinv) HW)).
  cbn [fst snd]. split; [|split; [|split; [|split]]].
  - constructor; cbn [fst snd].
    + done.
    + intros e He. apply Hin1 in He as [<-|He]; [|by apply (inv_entry _ _ _ Hinv)].
      split; [by apply walk_one|]. split; [done|]. cbn. constructor; [tauto|constructor].
    + intros e x He Hx. apply Hkeys. apply Hin1 in He as [<-|He].
      * destruct Hx as [<-|[]]. by left.
      * right. by apply (inv_closed _ _ _ Hinv e).
    + intros e He. apply Hin1 in He as [<-|He]; cbn; [lia|]. by apply (inv_level _ _ _ Hinv).
    + intros e He. apply in_app_iff in He as [He|[<-|[]]]; apply Hin1; [right|by left].
      by apply (inv_queue _ _ _ Hinv).
    + intros e He. apply in_app_iff in He as [He|[<-|[]]]; cbn; [|lia].
      by apply (inv_queue_level _ _ _ Hinv).
    + apply sorted_app_last; [apply Hinv|]. intros e He. cbn.
      apply (inv_level _ _ _ Hinv). by apply (inv_queue _ _ _ Hinv).
    + intros e He Hq. apply Hq, in_app_iff. apply Hin1 in He as [<-|He]; [right; by left|].
      left. destruct (in_dec (fun a b : RoutingEntry => decide (a = b)) e (snd st))
        as [?|Hno]; [done|]. by destruct (inv_seen _ _ _ Hinv e He Hno).
    + intros x Hx. apply Hkeys in Hx as [->|Hx]; [|by apply (inv_univ _ _ _ Hinv)].
      apply in_app_iff. left. by apply in_map.
  - intros e He. apply Hin1. by right.
  - pose proof (Permutation_length Hperm) as Hl. cbn in Hl. rewrite length_app. cbn. lia.
  - intros k Hk. by apply Hkeys.
  - intros _. exists e1. split; [apply Hin1; by left|done].
Qed.

Lemma one_hop_inv l st :
  incl l neighbors -> List.NoDup (keys l) ->
  (forall k, In k (keys (fst st)) -> ~ In k (keys l)) ->
  spf_inv 0 (fun _ => False) st ->
  let st' := routing_table_add_one_hop_neigh l st in
  spf_inv 0 (fun _ => False) st' /\ incl (fst st) (fst st') /\
  (length (snd st') + length (fst st) = length (fst st') + length (snd st))%nat /\
  (forall n, In n l -> is_sym n = true ->
     exists e, In e (fst st') /\ route_dest e = neighbor_main_addr n /\ hop_count e = 1).
Proof using Hnbrs.
  revert st. induction l as [|n l IH]; intros st Hl Hnd Hdis Hinv; cbn.
  { split; [done|]. split; [apply incl_refl|]. split; [lia|]. tauto. }
  inversion Hnd as [|? ? Hn Hnd']; subst.
  destruct (add_one_hop_inv n st) as (Hinv1 & Hi1 & Hlen1 & Hk1 & Hs1).
  { apply Hl. now left. }
  { intros Hk. apply (Hdis _ Hk). now left. }
  { done. }
  destruct (IH (add_one_hop st n)) as (Hinv2 & Hi2 & Hlen2 & Hs2); auto.
  { intros x Hx. apply Hl. now right. }
  { intros k Hk Hkl. destruct (Hk1 k Hk) as [->|Hk0]; [contradiction|].
    apply (Hdis k Hk0). now right. }
  fold (routing_table_add_one_hop_neigh l (add_one_hop st n)).
  split; [done|]. split; [by eapply incl_tran|]. split; [lia|].
  intros x [->|Hx] Hsx; [|by apply Hs2].
  destruct (Hs1 Hsx) as (e & He & ?). eauto.
Qed.

Lemma length_univ : length univ = spf_fuel neighbors topo.
Proof using.
  unfold univ, spf_fuel. rewrite length_app, length_map, List.length_concat, map_map.
  do 2 f_equal. apply map_ext. intros t. unfold keys. apply length_map.
Qed.

(** The search ends within its fuel; its entries are walks of the recorded
    length, and no walk is shorter than the entry for its end. *)
Lemma search_correct :
  exists table,
    spf_loop (spf_fuel neighbors topo) own topo
      (routing_table_add_one_hop_neigh neighbors ([], [])) = Ok table /\
    tree_ok W table /\ (forall e, In e table -> entry_ok e) /\
    (forall p v, walk p v -> exists e, In e table /\ route_dest e = v /\ hop_count e <= zlen p).
Proof using Hnbrs Htopo Han.
  destruct (one_hop_inv neighbors ([], [])) as (Hinv & _ & Hlen & Hone).
  { apply incl_refl. }
  { by apply (tree_ok_nodup W). }
  { done. }
  { constructor; cbn; try apply tree_ok_nil; try apply SSorted_nil; by intros ?. }
  set (st0 := routing_table_add_one_hop_neigh _ _) in *. cbn in Hlen.
  destruct (spf_loop_ok (spf_fuel neighbors topo) st0 0) as (table & E & Hi & Hok & Hent & Hexp).
  { eapply spf_inv_weaken; [|done]. intros e He []. }
  { rewrite length_univ. lia. }
  exists table. rewrite E. split; [done|]. split; [done|]. split; [done|].
  induction 1 as [n Hn Hs|p u v Hw (eu & Heu & Hdu & Hhu) Hu Huv Hv].
  - destruct (Hone n Hn Hs) as (e & He & Hd & Hh). exists e. split; [by apply Hi|].
    split; [done|]. rewrite Hh. done.
  - destruct (Hexp eu Heu) with (v := v) as (e & He & Hd & Hh); [congruence|by rewrite Hdu|done|].
    exists e. split; [done|]. split; [done|]. rewrite zlen_app. unfold zlen at 2. cbn. lia.
Qed.
End Search.

(** ** The symmetric closure is what it says, and it is undone exactly *)
Section Duplicate.
Context (w own : Z) (topo : list TopologyInfoElem).
Abbreviation W := (in_window w).

Definition topo_ok (l : list TopologyInfoElem) : Prop :=
  tree_ok W l /\ forall t, In t l -> tree_ok W (an_tree t).

Definition original (a : AdvertisedNeighElem) : bool := negb (duplicated a =? 1).

Definition no_duplicates : Prop :=
  forall t a, In t topo -> In a (an_tree t) -> duplicated a <> 1.

(** A node of the closure: the node with more, marked, neighbours. *)
Record extends (t0 t : TopologyInfoElem) : Prop := {
  ext_dest : dest_addr t = dest_addr t0;
  ext_seq : topo_seq t = topo_seq t0;
  ext_timer : topo_expire_timer t = topo_expire_timer t0;
  ext_an : List.filter original (an_tree t) = an_tree t0
}.

Abbreviation link := (link own topo).

Record closure_inv (l : list TopologyInfoElem) : Prop := {
  clo_ext : Forall2 extends topo l;
  clo_ok : topo_ok l;
  clo_sound : forall u v, edge l u v -> link u v
}.

Hypothesis Hok : topo_ok topo.
Hypothesis Hnodup : no_duplicates.

Lemma extends_keys l0 l : Forall2 extends l0 l -> keys l = keys l0.
Proof using.
  induction 1 as [|t0 t l0 l H _ IH]; [done|].
  rewrite !keys_cons, IH. f_equal. apply H.
Qed.

Lemma closure_keys l : closure_inv l -> keys l = keys topo.
Proof using. intros [Hext _ _]. by apply extends_keys. Qed.

Lemma extends_refl l : (forall t, In t l -> extends t t) -> Forall2 extends l l.
Proof using.
  induction l as [|t l IH]; intros Hx; constructor; [apply Hx; now left|].
  apply IH. intros; apply Hx; now right.
Qed.

Lemma filter_id {A} (f : A -> bool) l :
  (forall x, In x l -> f x = true) -> List.filter f l = l.
Proof using.
  induction l as [|x l IH]; cbn; intros Hf; [done|].
  rewrite (Hf x) by now left. f_equal. apply IH. intros; apply Hf; now right.
Qed.

Lemma closure_refl : closure_inv topo.
Proof using Hok Hnodup.
  constructor; [|done|intros; now left].
  apply extends_refl. intros t Ht. constructor; try done. apply filter_id.
  intros a Ha. unfold original. destruct (Z.eqb_spec (duplicated a) 1); [|done].
  exfalso. by apply (Hnodup t a).
Qed.

(** The an_tree of a peer replaced by one with more neighbours. *)
Lemma closure_update l peer k e t :
  closure_inv l -> In peer l -> dest_addr peer = k -> W (last_addr e) -> W k ->
  rbtree_insert (an_tree peer) e = Some t -> original e = false ->
  link k (last_addr e) ->
  let l' := tree_update l k (set_an_tree t) in
  closure_inv l' /\ (forall u v, edge l u v -> edge l' u v) /\ edge l' k (last_addr e).
Proof using.
  intros [Hext [Hl Hlan] Hsound] Hp Hpk He Hk Hins Horig Hlink l'.
  assert (Hm := update_map W (set_an_tree t) l k Hl Hk). cbn in Hm.
  destruct (insert_some W (an_tree peer) e t (Hlan _ Hp) He Hins) as [Ht Hperm].
  assert (Hkey : forall x, In x l -> (rbtree_compare_by_inetaddr k (dest_addr x) =? 0) = true <-> x = peer).
  { intros x Hx. rewrite (compare_eqb w) by tree_dom.
    rewrite Z.eqb_eq. split; [|by intros ->].
    intros E. tree_same. }
  assert (Hin : forall x, In x l' <-> (In x l /\ x <> peer) \/ x = set_an_tree t peer).
  { intros x. unfold l'. rewrite Hm, in_map_iff. split.
    - intros (y & Hy & Hiny). destruct (Hkey y Hiny) as [H1 H2].
      destruct (_ =? 0) eqn:E in Hy.
      + right. rewrite <- Hy. by rewrite (H1 E).
      + left. subst. split; [done|]. intros ->. by rewrite H2 in E.
    - intros [[Hx Hne]| ->].
      + exists x. split; [|done]. destruct (Hkey x Hx) as [H1 _].
        destruct (_ =? 0) eqn:E; [|done]. by destruct Hne, H1.
      + exists peer. split; [|done]. by rewrite (proj2 (Hkey peer Hp) eq_refl). }
  assert (Hmono : forall u v, edge l u v -> edge l' u v).
  { intros u v (x & Hx & Hd & Hv).
    destruct (rbtree_compare_by_inetaddr k (dest_addr x) =? 0) eqn:E.
    - apply Hkey in E as ->; [|done]. exists (set_an_tree t peer).
      split; [apply Hin; by right|]. split; [done|]. cbn.
      unfold keys in *. rewrite Hperm. by right.
    - exists x. split; [|done]. apply Hin. left. split; [done|]. intros ->.
      by rewrite (proj2 (Hkey peer Hp) eq_refl) in E. }
  split; [constructor|split; [done|]].
  - unfold l'. rewrite Hm. clear - Hext Hkey Hins Horig Hp.
    assert (Hkey' : forall x, In x l -> (rbtree_compare_by_inetaddr k (dest_addr x) =? 0) = true -> x = peer)
      by (intros; by apply Hkey).
    clear Hkey Hp. revert Hkey'. induction Hext as [|t0 x l0 l H _ IH]; intros Hkey; cbn; constructor.
    + destruct (_ =? 0) eqn:E; [|done]. rewrite (Hkey x) in H by (done || now left).
      destruct H. constructor; cbn; rewrite ?(Hkey x) by (done || now left); try done.
      by rewrite (insert_filter original (an_tree peer) e t).
    + apply IH. intros y Hy. apply Hkey. now right.
  - split; [exact (update_ok W (set_an_tree t) (fun _ => eq_refl) l k Hl)|]. intros x Hx. apply Hin in Hx as [[Hx _]| ->]; [by apply Hlan|done].
  - intros u v (x & Hx & Hd & Hv). apply Hin in Hx as [[Hx _]| ->].
    + apply Hsound. by exists x.
    + cbn in Hd, Hv. unfold keys in Hv. rewrite Hperm in Hv. destruct Hv as [<-|Hv].
      * rewrite <- Hd, Hpk. done.
      * apply Hsound. by exists peer.
  - exists (set_an_tree t peer). split; [apply Hin; by right|]. split; [done|].
    cbn. unfold keys. rewrite Hperm. by left.
Qed.

Lemma to_peer_inv l dest a :
  closure_inv l -> edge l dest (last_addr a) -> W (last_addr a) -> W dest ->
  let l' := duplicate_to_peer own dest l a in
  closure_inv l' /\ (forall u v, edge l u v -> edge l' u v) /\
  (last_addr a <> own -> In (last_addr a) (keys topo) -> edge l' (last_addr a) dest).
Proof using.
  intros Hinv Hedge Ha Hd. unfold duplicate_to_peer.
  destruct (Z.eqb_spec (last_addr a) own) as [Ho|Ho]; cbn zeta; [by split; [|split]|].
  destruct (clo_ok _ Hinv) as [Hl Hlan].
  destruct (rbtree_search l (last_addr a)) as [peer|] eqn:Es.
  2: { split; [done|]. split; [done|]. intros _ Hk. exfalso.
    apply (search_none_iff W) in Es; [|done|done]. apply Es. by rewrite closure_keys. }
  apply (search_iff W) in Es as [Hp Hpk]; [|done|done].
  destruct (rbtree_insert (an_tree peer) _) as [t|] eqn:Ei.
  - destruct (closure_update l peer (last_addr a) (mkAn dest 0 1) t) as (H1 & H2 & H3); auto.
    destruct (clo_sound _ Hinv _ _ Hedge) as [He|(He & _ & _)]; [|by left].
    right. split; [done|]. split; [done|]. rewrite <- (closure_keys l) by done.
    by apply (in_keys _ peer).
  - split; [done|]. split; [done|]. intros _ _.
    apply (insert_none_iff W) in Ei; [|by apply Hlan|done]. by exists peer.
Qed.

Lemma duplicate_node_inv l dest :
  closure_inv l -> W dest ->
  let l' := duplicate_node own l dest in
  closure_inv l' /\ (forall u v, edge l u v -> edge l' u v) /\
  (forall v, edge l dest v -> v <> own -> In v (keys topo) -> edge l' v dest).
Proof using.
  intros Hinv Hd. unfold duplicate_node. destruct (clo_ok _ Hinv) as [Hl Hlan].
  destruct (rbtree_search l dest) as [telem|] eqn:Es; cbn zeta.
  2: { split; [done|]. split; [done|]. intros v (t & Ht & Htd & _). exfalso.
    apply (search_none_iff W) in Es; [|done|done]. apply Es. by apply (in_keys _ t). }
  apply (search_iff W) in Es as [Ht Htd]; [|done|done].
  assert (Hfold : forall as_ l, closure_inv l ->
    (forall a, In a as_ -> edge l dest (last_addr a) /\ W (last_addr a)) ->
    let l' := fold_left (duplicate_to_peer own dest) as_ l in
    closure_inv l' /\ (forall u v, edge l u v -> edge l' u v) /\
    (forall a, In a as_ -> last_addr a <> own -> In (last_addr a) (keys topo) ->
       edge l' (last_addr a) dest)).
  { clear l Hinv Hl Hlan Ht. induction as_ as [|a as_ IH]; intros l Hinv Has; cbn.
    { split; [done|]. split; [done|]. tauto. }
    destruct (Has a (or_introl eq_refl)) as [Ha1 Ha2].
    destruct (to_peer_inv l dest a) as (H1 & H2 & H3); auto.
    destruct (IH (duplicate_to_peer own dest l a) H1) as (H4 & H5 & H6).
    { intros x Hx. destruct (Has x (or_intror Hx)). auto. }
    split; [done|]. split; [auto|]. intros x [->|Hx]; auto. }
  destruct (Hfold (an_tree telem) l Hinv) as (H1 & H2 & H3).
  { intros a Ha. split; [|tree_dom]. exists telem. split; [done|]. split; [done|].
    by apply (in_keys _ a). }
  split; [done|]. split; [done|]. intros v (t & Ht' & Htd' & Hv) Ho Hk.
  assert (t = telem) as -> by tree_same.
  apply in_keys_inv in Hv as (a & Ha & <-). by apply H3.
Qed.

(** The closure makes the links symmetric between nodes of the topology, and
    adds only marked neighbours. *)
Lemma duplicate_correct :
  let l := duplicate_neigh_info own topo in
  closure_inv l /\ forall u v, edge l u v <-> link u v.
Proof using Hok Hnodup.
  unfold duplicate_neigh_info.
  assert (Hfold : forall ds l, closure_inv l -> (forall d, In d ds -> W d) ->
    let l' := fold_left (duplicate_node own) ds l in
    closure_inv l' /\ (forall u v, edge l u v -> edge l' u v) /\
    (forall d v, In d ds -> edge l d v -> v <> own -> In v (keys topo) -> edge l' v d)).
  { induction ds as [|d ds IH]; intros l Hinv Hds; cbn.
    { split; [done|]. split; [done|]. tauto. }
    destruct (duplicate_node_inv l d) as (H1 & H2 & H3); [done|by apply Hds; left|].
    destruct (IH (duplicate_node own l d) H1) as (H4 & H5 & H6).
    { intros x Hx. apply Hds. now right. }
    split; [done|]. split; [auto|]. intros x v [->|Hx] He Ho Hk; auto. }
  destruct (Hfold (map dest_addr topo) topo closure_refl) as (H1 & H2 & H3).
  { intros d Hd. apply in_map_iff in Hd as (t & <- & Ht). destruct Hok as [Htopo _]. tree_dom. }
  split; [done|]. intros u v. split; [apply H1|]. intros [He|(He & Hu & Hk)]; [by apply H2|].
  apply H3; auto. destruct He as (t & Ht & <- & _). apply in_map_iff. eauto.
Qed.

Definition dup_count (t : TopologyInfoElem) : nat :=
  length (List.filter (fun a => duplicated a =? 1) (an_tree t)).

Lemma delete_all_filter (l : list AdvertisedNeighElem) t :
  tree_ok W t -> (forall a, In a l -> W (last_addr a)) ->
  fold_left (fun t a => fst (rbtree_delete t (last_addr a))) l t =
    List.filter (fun x => negb (existsb (fun a => last_addr a =? last_addr x) l)) t.
Proof using.
  revert t. induction l as [|a l IH]; intros t Ht Hl; cbn.
  { symmetry. by apply filter_id. }
  assert (Ha : W (last_addr a)) by (apply Hl; now left).
  rewrite IH; [|by apply (delete_spec W)|intros; apply Hl; now right].
  rewrite (delete_filter W (fun x => negb (last_addr a =? last_addr x))); [|done|done|].
  2: { intros e He. cbn. rewrite negb_false_iff, Z.eqb_eq. split; congruence. }
  clear. induction t as [|x t IH]; cbn; [done|].
  destruct (last_addr a =? last_addr x); cbn; [done|].
  destruct (existsb _ l); cbn; by rewrite ?IH.
Qed.

Lemma unduplicate_node_ok t0 t :
  extends t0 t -> tree_ok W (an_tree t) -> (dup_count t <= MAX_DUPLICATES)%nat ->
  unduplicate_node t = Ok t0.
Proof using.
  intros Hext Hok' Hc. unfold unduplicate_node. unfold dup_count in Hc.
  destruct (Nat.ltb_spec MAX_DUPLICATES (length (List.filter (fun a => duplicated a =? 1) (an_tree t))));
    [lia|]. f_equal.
  rewrite delete_all_filter; [|done|].
  2: { intros a Ha. apply filter_In in Ha as [Ha _]. tree_dom. }
  destruct Hext as [Hd Hs Ht Ha]. destruct t0, t; cbn in *. unfold set_an_tree; cbn. subst.
  f_equal. apply List.filter_ext_in. intros x Hx. unfold original.
  f_equal. apply eq_true_iff_eq. rewrite existsb_exists. split.
  - intros (y & Hy & E). apply filter_In in Hy as [Hy Hdup]. apply Z.eqb_eq in E.
    assert (x = y) as -> by tree_same. done.
  - intros Hdup. exists x. split; [by apply filter_In|]. apply Z.eqb_refl.
Qed.

Lemma unduplicate_all l0 l :
  Forall2 extends l0 l -> (forall t, In t l -> tree_ok W (an_tree t)) ->
  (forall t, In t l -> (dup_count t <= MAX_DUPLICATES)%nat) ->
  unduplicate_neigh_info l = Ok l0.
Proof using.
  induction 1 as [|t0 t l0 l H _ IH]; cbn; intros Hlan Hc; [done|].
  rewrite (unduplicate_node_ok t0 t) by auto.
  cbn. rewrite IH by auto. done.
Qed.

(** Undoing the closure gives the topology back, whenever no node has more
    than 50 duplicates. *)
Lemma unduplicate_correct l :
  closure_inv l -> (forall t, In t l -> (dup_count t <= MAX_DUPLICATES)%nat) ->
  unduplicate_neigh_info l = Ok topo.
Proof using. intros [Hext [_ Hlan] _] Hc. by apply unduplicate_all. Qed.
End Duplicate.

(** ** Statistics and the whole computation

    [net] lists the addresses of the network; the arrays of the program have
    room for 50 nodes, and the theorems hold for networks of that size. *)
Record stats_ok (net : list Z) (st : NetStats) (tree : list NeighborStatInfo) : Prop := {
  st_num : 0 <= node_stats_num st <= zlen (node_info st);
  st_len : length (node_info st) = MAX_NODE_COUNT;
  st_nodup : List.NoDup (map ninfo_addr (take (Z.to_nat (node_stats_num st)) (node_info st)));
  st_incl : incl (map ninfo_addr (take (Z.to_nat (node_stats_num st)) (node_info st))) net;
  st_path : forall i, In i (node_info st) -> length (rinfo_path (routing i)) = MAX_HOP_COUNT;
  st_tree : forall e, In e tree -> Z.of_nat (info e) < node_stats_num st
}.

(** A route of the table: it ends in the destination, without repetition, and
    the hop count is its length. *)
Definition route_wf (net : list Z) (e : RoutingEntry) : Prop :=
  (exists p, route e = p ++ [route_dest e]) /\ List.NoDup (route e) /\
  hop_count e = zlen (route e) /\ incl (route e) net.

Record routing_ok (w : Z) (net : list Z) (ctx : OlsrContext) : Prop := {
  net_size : (length net <= MAX_NODE_COUNT)%nat;
  net_win : forall a, In a net -> in_window w a;
  nbr_ok : tree_ok (in_window w) (neighbor_tree ctx);
  nbr_net : incl (keys (neighbor_tree ctx)) net;
  top_ok : topo_ok w (topology_tree ctx);
  top_net : incl (keys (topology_tree ctx)) net;
  top_an_net : forall t, In t (topology_tree ctx) -> incl (keys (an_tree t)) net;
  top_nodup : no_duplicates (topology_tree ctx);
  tab_ok : tree_ok (in_window w) (routing_table ctx);
  tab_wf : forall e, In e (routing_table ctx) -> route_wf net e;
  sta_ok : stats_ok net (stat ctx) (node_stat_tree ctx)
}.

(** The two routes to one destination can be compared hop by hop without
    running past the end of either, and the comparison is inequality. *)
Lemma route_changed_ok p q d :
  ~ In d p -> ~ In d q ->
  route_changed (length (p ++ [d])) (p ++ [d]) (q ++ [d]) =
    Ok (negb (bool_decide (p = q))).
Proof.
  revert q. induction p as [|x p IH]; intros [|y q] Hp Hq; cbn.
  - by rewrite Z.eqb_refl.
  - destruct (Z.eqb_spec d y) as [->|]; cbn; [|done]. exfalso. apply Hq. now left.
  - destruct (Z.eqb_spec x d) as [->|]; cbn; [|done]. exfalso. apply Hp. now left.
  - cbn in *. destruct (Z.eqb_spec x y) as [->|Hne]; cbn.
    + rewrite IH by tauto. f_equal. f_equal. apply bool_decide_ext. split; congruence.
    + rewrite bool_decide_false by congruence. done.
Qed.

Lemma route_changed_wf net e1 e2 :
  route_wf net e1 -> route_wf net e2 -> route_dest e1 = route_dest e2 ->
  route_changed (Z.to_nat (hop_count e1)) (route e1) (route e2) =
    Ok (negb (bool_decide (route e1 = route e2))).
Proof.
  intros ([p Hp] & Hn1 & Hh1 & _) ([q Hq] & Hn2 & _ & _) E. rewrite Hh1, <- E in *.
  unfold zlen. rewrite Nat2Z.id, Hp, Hq in *.
  assert (Hd : forall l, List.NoDup (l ++ [route_dest e1]) -> ~ In (route_dest e1) l).
  { intros l Hl Hin. apply (Permutation_NoDup (l' := route_dest e1 :: l)) in Hl;
      [by inversion Hl|]. symmetry. apply Permutation_cons_append. }
  rewrite route_changed_ok by auto. f_equal. f_equal. apply bool_decide_ext.
  split; [congruence|]. intros E'. by apply app_inj_tail in E' as [? _].
Qed.

Lemma find_info_some l a i j : find_info l a i = Some j -> (i <= j < i + length l)%nat.
Proof.
  revert i. induction l as [|x l IH]; intros i; cbn; [done|].
  destruct (_ =? a); [intros [= ->]; lia|]. intros H. apply IH in H. lia.
Qed.

Lemma find_info_none l a i : find_info l a i = None -> ~ In a (map ninfo_addr l).
Proof.
  revert i. induction l as [|x l IH]; intros i; cbn; [auto|].
  destruct (Z.eqb_spec (ninfo_addr x) a); [done|]. intros H [?|?]; [done|]. by apply (IH (S i)).
Qed.

(** The fields [get_neighborstat_buf] and the statistics leave alone. *)
Definition same_but_stats (c1 c2 : OlsrContext) : Prop :=
  set_node_stat_tree (set_stat c1 zero_stats) [] = set_node_stat_tree (set_stat c2 zero_stats) [].

Lemma same_but_stats_trans c1 c2 c3 :
  same_but_stats c1 c2 -> same_but_stats c2 c3 -> same_but_stats c1 c3.
Proof. unfold same_but_stats. congruence. Qed.

Lemma get_neighborstat_buf_ok net ctx dest :
  stats_ok net (stat ctx) (node_stat_tree ctx) -> In dest net ->
  (length net <= MAX_NODE_COUNT)%nat ->
  exists ctx' e, get_neighborstat_buf ctx dest = Ok (ctx', e) /\
    stats_ok net (stat ctx') (node_stat_tree ctx') /\
    (info e < MAX_NODE_COUNT)%nat /\ same_but_stats ctx ctx'.
Proof.
  intros Hst Hd Hnet. assert (Hst' := Hst). destruct Hst' as [Hn Hlen Hnd Hi Hp Ht].
  unfold get_neighborstat_buf.
  destruct (rbtree_search (node_stat_tree ctx) dest) as [e|] eqn:Es.
  { exists ctx, e. split; [done|]. split; [done|]. split; [|done].
    assert (Hin : In e (node_stat_tree ctx)).
    { clear - Es. induction (node_stat_tree ctx) as [|x l IH]; cbn in Es; [done|].
      destruct (_ =? 0); [injection Es as ->; now left|right; auto]. }
    apply Ht in Hin. unfold zlen in Hn. lia. }
  set (num := Z.to_nat (node_stats_num (stat ctx))) in *. unfold zlen in Hn.
  destruct (Nat.ltb_spec (length (node_info (stat ctx))) num); [lia|].
  destruct (find_info (take num (node_info (stat ctx))) dest 0) as [i|] eqn:Ef.
  - apply find_info_some in Ef. rewrite length_take in Ef.
    do 2 eexists. split; [done|]. split; [|split; [cbn; lia|done]].
    constructor; try done. intros e He. apply in_put in He as [->|He]; [cbn; lia|by apply Ht].
  - apply find_info_none in Ef.
    assert (Hroom : (num < MAX_NODE_COUNT)%nat).
    { assert (Hc : (length (dest :: map ninfo_addr (take num (node_info (stat ctx)))) <= length net)%nat).
      { apply NoDup_incl_length; [by constructor|]. intros a [<-|Ha]; [done|by apply Hi]. }
      cbn in Hc. rewrite length_map, length_take in Hc. lia. }
    destruct (lookup_lt_is_Some_2 (node_info (stat ctx)) num) as [x Hx]; [lia|].
    rewrite Hx. cbn. do 2 eexists. split; [done|]. split; [|split; [cbn; lia|done]].
    assert (Htake : take (Z.to_nat (node_stats_num (stat ctx) + 1))
        (<[num := mkNinfo dest (traffic x) (routing x)]> (node_info (stat ctx))) =
      take num (node_info (stat ctx)) ++ [mkNinfo dest (traffic x) (routing x)]).
    { replace (Z.to_nat (node_stats_num (stat ctx) + 1)) with (S num) by lia.
      erewrite take_S_r by (apply list_lookup_insert_eq; lia).
      by rewrite take_insert_ge by lia. }
    constructor; cbn; rewrite ?Htake, ?map_app; unfold zlen; rewrite ?length_insert; try lia.
    + by apply nodup_snoc.
    + intros a Ha. apply in_app_iff in Ha as [Ha|[<-|[]]]; [by apply Hi|done].
    + intros y Hy. apply in_insert in Hy as [->|Hy]; [cbn; apply Hp; by eapply lookup_in|by apply Hp].
    + intros e He. apply in_put in He as [->|He]; [cbn; lia|]. apply Ht in He. lia.
Qed.

Lemma poke_info_ok net ctx i f :
  stats_ok net (stat ctx) (node_stat_tree ctx) -> (i < MAX_NODE_COUNT)%nat ->
  (forall x, ninfo_addr (f x) = ninfo_addr x) ->
  (forall x, length (rinfo_path (routing x)) = MAX_HOP_COUNT ->
     length (rinfo_path (routing (f x))) = MAX_HOP_COUNT) ->
  exists ctx', poke_info ctx i f = Ok ctx' /\
    stats_ok net (stat ctx') (node_stat_tree ctx') /\ same_but_stats ctx ctx'.
Proof.
  intros [Hn Hlen Hnd Hi Hp Ht] Hlt Hf Hfp. unfold poke_info.
  destruct (lookup_lt_is_Some_2 (node_info (stat ctx)) i) as [x Hx]; [lia|].
  rewrite Hx. cbn. eexists. split; [done|]. split; [|done].
  assert (Hmap : forall n, map ninfo_addr (take n (<[i := f x]> (node_info (stat ctx)))) =
                 map ninfo_addr (take n (node_info (stat ctx)))).
  { intros n. rewrite <- !firstn_map. f_equal. by apply map_insert_same with (x := x). }
  constructor; cbn; rewrite ?Hmap; unfold zlen; rewrite ?length_insert; try done.
  intros y Hy. apply in_insert in Hy as [->|Hy]; [|by apply Hp].
  apply Hfp, Hp. by eapply lookup_in.
Qed.

Section Stats.
Context (net : list Z) (Hnet : (length net <= MAX_NODE_COUNT)%nat).

Lemma note_route_ok ctx e :
  stats_ok net (stat ctx) (node_stat_tree ctx) -> route_wf net e ->
  exists ctx', note_route ctx e = Ok ctx' /\
    stats_ok net (stat ctx') (node_stat_tree ctx') /\ same_but_stats ctx ctx'.
Proof using Hnet.
  intros Hst ([q Hq] & Hnd & Hh & Hi). unfold note_route.
  assert (Hd : In (route_dest e) net) by (apply Hi; rewrite Hq; apply in_app_iff; right; by left).
  destruct (get_neighborstat_buf_ok net ctx (route_dest e)) as (c1 & x & -> & Hst1 & Hx & Hs1);
    [done..|cbn].
  destruct (lookup_lt_is_Some_2 (node_info (stat c1)) (info x)) as [i Hix];
    [by rewrite (st_len _ _ _ Hst1)|].
  rewrite Hix. cbn.
  assert (Hp : length (rinfo_path (routing i)) = MAX_HOP_COUNT)
    by (apply (st_path _ _ _ Hst1); by eapply lookup_in).
  assert (Hl : (length (route e) <= MAX_HOP_COUNT)%nat).
  { pose proof (NoDup_incl_length Hnd Hi). unfold MAX_HOP_COUNT, MAX_NODE_COUNT in *. lia. }
  unfold write_path. destruct (Nat.ltb_spec (length (rinfo_path (routing i))) (length (route e)));
    [lia|cbn].
  destruct (poke_info_ok net c1 (info x)
    (set_routing (mkRinfo (hop_count e) (route e ++ drop (length (route e)) (rinfo_path (routing i))) 1)))
    as (c2 & -> & Hst2 & Hs2); [done|done|done| |].
  { intros y _. cbn. rewrite length_app, length_drop. lia. }
  exists c2. split; [done|]. split; [done|]. by eapply same_but_stats_trans.
Qed.

Lemma update_route_info_ok w ctx t1 t2 :
  stats_ok net (stat ctx) (node_stat_tree ctx) ->
  tree_ok (in_window w) t1 -> tree_ok (in_window w) t2 ->
  (forall e, In e t1 -> route_wf net e) -> (forall e, In e t2 -> route_wf net e) ->
  exists ctx', update_route_info ctx t1 t2 = Ok ctx' /\
    stats_ok net (stat ctx') (node_stat_tree ctx') /\ same_but_stats ctx ctx'.
Proof using Hnet.
  intros Hst Ho1 Ho2 H1 H2. unfold update_route_info.
  set (P := fun c => stats_ok net (stat c) (node_stat_tree c) /\ same_but_stats ctx c).
  destruct (rfold_inv P (fun ctx old_entry =>
    match rbtree_search t2 (route_dest old_entry) with
    | Some _ => Ok ctx
    | None => let* r := get_neighborstat_buf ctx (route_dest old_entry) in
              let '(ctx, nstat) := r in
              poke_info ctx (info nstat) (fun i =>
                set_routing (mkRinfo 0 (rinfo_path (routing i)) 1) i)
    end) t1 ctx) as (c1 & E1 & Hc1); [by split| |].
  { intros c e He [Hc Hsc]. destruct (rbtree_search t2 _); [exists c; by split|].
    destruct (H1 e He) as ([q Hq] & _ & _ & Hi).
    destruct (get_neighborstat_buf_ok net c (route_dest e)) as (c1 & x & -> & Hst1 & Hx & Hs1);
      [done|apply Hi; rewrite Hq; apply in_app_iff; right; by left|done|cbn].
    destruct (poke_info_ok net c1 (info x) (fun i =>
      set_routing (mkRinfo 0 (rinfo_path (routing i)) 1) i)) as (c2 & -> & ? & ?); [done..|].
    exists c2. split; [done|]. split; [done|].
    eapply same_but_stats_trans; [done|]. by eapply same_but_stats_trans. }
  unfold update_route_info_disconncted. rewrite E1. cbn.
  destruct (rfold_inv P (fun ctx new_entry =>
    match rbtree_search t1 (route_dest new_entry) with
    | None => note_route ctx new_entry
    | Some old_entry =>
      let* changed := route_changed (Z.to_nat (hop_count new_entry))
                        (route new_entry) (route old_entry) in
      if changed then note_route ctx new_entry else Ok ctx
    end) t2 c1 Hc1) as (c2 & E2 & Hc2).
  { intros c e He [Hc Hsc].
    assert (Hnote : exists s', note_route c e = Ok s' /\ P s').
    { destruct (note_route_ok c e Hc (H2 e He)) as (c3 & -> & ? & ?).
      exists c3. split; [done|]. split; [done|]. by eapply same_but_stats_trans. }
    destruct (rbtree_search t1 (route_dest e)) as [o|] eqn:Es; [|done].
    apply (search_iff (in_window w)) in Es as [Ho Hd]; [|done|tree_dom].
    rewrite (route_changed_wf net e o); auto. cbn.
    destruct (bool_decide (route e = route o)); cbn; [|done]. exists c. split; [done|by split]. }
  unfold update_route_info_changed. exists c2. split; [done|apply Hc2].
Qed.
End Stats.

(** What the computation does to the context: [table] is the new table. *)
Record spf_result (ctx ctx' : OlsrContext) : Prop := {
  res_frame : same_but_stats (set_routing_table ctx (routing_table ctx')) ctx';
  res_sound : forall e, In e (routing_table ctx') ->
    walk (own_ip ctx) (neighbor_tree ctx) (link (own_ip ctx) (topology_tree ctx))
         (route e) (route_dest e) /\
    hop_count e = zlen (route e);
  res_shortest : forall p v,
    walk (own_ip ctx) (neighbor_tree ctx) (link (own_ip ctx) (topology_tree ctx)) p v ->
    exists e, In e (routing_table ctx') /\ route_dest e = v /\ hop_count e <= zlen p
}.

(** The table is the one a computation on the present state would give. *)
Definition routes_current (ctx : OlsrContext) : Prop :=
  (forall e, In e (routing_table ctx) ->
    walk (own_ip ctx) (neighbor_tree ctx) (link (own_ip ctx) (topology_tree ctx))
         (route e) (route_dest e) /\
    hop_count e = zlen (route e)) /\
  (forall p v,
    walk (own_ip ctx) (neighbor_tree ctx) (link (own_ip ctx) (topology_tree ctx)) p v ->
    exists e, In e (routing_table ctx) /\ route_dest e = v /\ hop_count e <= zlen p).

Lemma spf_result_current ctx ctx' : spf_result ctx ctx' -> routes_current ctx'.
Proof.
  intros [Hf Hs Hm]. unfold same_but_stats in Hf.
  assert (E1 : own_ip ctx' = own_ip ctx) by (by apply (f_equal own_ip) in Hf).
  assert (E2 : neighbor_tree ctx' = neighbor_tree ctx) by (by apply (f_equal neighbor_tree) in Hf).
  assert (E3 : topology_tree ctx' = topology_tree ctx) by (by apply (f_equal topology_tree) in Hf).
  unfold routes_current. by rewrite E1, E2, E3.
Qed.

Lemma routes_current_same ctx ctx' :
  own_ip ctx' = own_ip ctx -> neighbor_tree ctx' = neighbor_tree ctx ->
  routing_table ctx' = routing_table ctx ->
  (forall u v, link (own_ip ctx) (topology_tree ctx') u v <->
               link (own_ip ctx) (topology_tree ctx) u v) ->
  routes_current ctx -> routes_current ctx'.
Proof.
  unfold routes_current. intros -> -> -> Hl [Hs Hm]. split.
  - intros e He. destruct (Hs e He) as [Hw Hh]. split; [|done].
    eapply walk_mono; [|exact Hw]. apply Hl.
  - intros p v Hw. apply Hm. eapply walk_mono; [|exact Hw]. apply Hl.
Qed.

Lemma edge_net w net ctx u v :
  routing_ok w net ctx -> link (own_ip ctx) (topology_tree ctx) u v -> In v net.
Proof.
  intros H [(t & Ht & Hd & Hv)|((t & Ht & Hd & _) & _)].
  - by apply (top_an_net _ _ _ H t).
  - apply (top_net _ _ _ H). by apply (in_keys _ t).
Qed.

Lemma walk_net w net ctx p v :
  routing_ok w net ctx ->
  walk (own_ip ctx) (neighbor_tree ctx) (link (own_ip ctx) (topology_tree ctx)) p v -> incl p net.
Proof.
  intros H. induction 1 as [n Hn _|p u v _ IH _ Huv _].
  - intros a [<-|[]]. apply (nbr_net _ _ _ H). by apply (in_keys _ n).
  - intros a Ha. apply in_app_iff in Ha as [Ha|[<-|[]]]; [auto|]. by eapply edge_net.
Qed.

Lemma calc_routing_table_spec w net ctx :
  routing_ok w net ctx ->
  exists ctx', calc_routing_table ctx = Ok ctx' /\ routing_ok w net ctx' /\ spf_result ctx ctx'.
Proof.
  intros H. set (own := own_ip ctx). set (topo := topology_tree ctx).
  destruct (duplicate_correct w own topo) as [Hclo Hlink]; [apply H|apply H|].
  set (dup := duplicate_neigh_info own topo) in *.
  destruct (clo_ok _ _ _ _ Hclo) as [Hdup Hdan].
  destruct (search_correct w own (neighbor_tree ctx) dup) as (table & Ht & Hok & Hent & Hmin);
    [apply H|done|done|].
  assert (Hwalk : forall p v, walk own (neighbor_tree ctx) (edge dup) p v <->
                              walk own (neighbor_tree ctx) (link own topo) p v)
    by (intros; split; apply walk_mono; intros; by apply Hlink).
  assert (Hwf : forall e, In e table -> route_wf net e).
  { intros e He. destruct (Hent e He) as (Hw & Hh & Hnd). split; [by eapply walk_end|].
    split; [done|]. split; [done|]. eapply walk_net; [done|]. by apply Hwalk. }
  assert (Hund : unduplicate_neigh_info dup = Ok topo).
  { apply (unduplicate_correct w own topo); [done|]. intros t Hint. unfold dup_count.
    etransitivity; [|exact (net_size _ _ _ H)]. rewrite <- (length_map tkey).
    apply NoDup_incl_length.
    - assert (Hn : List.NoDup (keys (an_tree t))) by (apply (tree_ok_nodup (in_window w)); auto).
      clear - Hn. induction (an_tree t) as [|a l IH]; cbn; [constructor|].
      rewrite keys_cons in Hn. inversion Hn as [|? ? Hn1 Hn2]; subst.
      destruct (duplicated a =? 1); cbn; [|auto]. constructor; [|auto].
      intros Hin. apply in_map_iff in Hin as (b & Hb & Hin). apply filter_In in Hin as [Hin _].
      apply Hn1. by apply (in_keys _ b).
    - intros a Ha. apply in_map_iff in Ha as (b & <- & Hb). apply filter_In in Hb as [Hb _].
      eapply edge_net; [done|]. apply Hlink. exists t. split; [done|]. split; [done|].
      by apply (in_keys _ b). }
  unfold calc_routing_table. fold own topo dup. rewrite Ht. cbn [rbind]. rewrite Hund. cbn [rbind].
  set (ctx1 := set_routing_table (set_topology_tree ctx topo) table).
  destruct (update_route_info_ok net (net_size _ _ _ H) w ctx1 (routing_table ctx) table)
    as (ctx' & -> & Hst & Hsame); [apply H|apply H|done|apply H|done|].
  assert (Heq : same_but_stats (set_routing_table ctx table) ctx') by (destruct ctx; exact Hsame).
  clear Hsame. unfold same_but_stats in Heq.
  assert (E1 : neighbor_tree ctx' = neighbor_tree ctx) by (by apply (f_equal neighbor_tree) in Heq).
  assert (E2 : topology_tree ctx' = topology_tree ctx) by (by apply (f_equal topology_tree) in Heq).
  assert (E3 : routing_table ctx' = table) by (by apply (f_equal routing_table) in Heq).
  exists ctx'. split; [done|]. split.
  - constructor; rewrite ?E1, ?E2, ?E3; first [apply H | done].
  - constructor; rewrite ?E3; [done| |].
    + intros e He. destruct (Hent e He) as (Hw & Hh & _). split; [by apply Hwalk|done].
    + intros p v Hw. apply Hmin. by apply Hwalk.
Qed.

(** C1: The routing table computation is total and correct: on a well-formed
    context of a network of at most 50 addresses, [calc_routing_table] returns
    without undefined behaviour and within its loop bound; every entry of the new
    table is a walk from a symmetric neighbour over advertised links to its
    destination, with [hop_count] its length; every address some walk reaches has
    an entry that is no longer than that walk, so routes are shortest; and the
    topology and every field but the table and the statistics are unchanged. *)
Theorem calc_routing_table_shortest (w : Z) (net : list Z) (ctx : OlsrContext)
  (H : routing_ok w net ctx) :
  exists ctx', calc_routing_table ctx = Ok ctx' /\ routing_ok w net ctx' /\
    spf_result ctx ctx'.
Proof. by apply calc_routing_table_spec. Qed.

(** A network of four nodes: the node 1 has the neighbour 2, which advertises 3,
    which advertises 4; and 4 advertises 2, the link used backwards. *)
Definition ex_ctx : OlsrContext :=
  let an a := mkAn a 0 0 in
  set_topology_tree
    (set_neighbor_tree
       (init_olsr_context 1 zero_stats (fun _ => mkTimespec 0 0) (fun _ => 0) [])
       [mkNeigh 2 SYM_NEIGH 3 []; mkNeigh 9 NOT_NEIGH 3 []])
    [mkTopo 2 0 [an 3] 0; mkTopo 3 0 [an 5] 0; mkTopo 4 0 [an 2] 0].

Lemma calc_routing_table_shortest_witness :
  routing_ok 0 [1; 2; 3; 4; 5; 9] ex_ctx /\
  exists ctx', calc_routing_table ex_ctx = Ok ctx' /\
    routing_ok 0 [1; 2; 3; 4; 5; 9] ctx' /\ spf_result ex_ctx ctx'.
Proof.
  assert (H : routing_ok 0 [1; 2; 3; 4; 5; 9] ex_ctx).
  { constructor; [vm_compute; lia| |tree_concrete| |split; [tree_concrete|]| | | |tree_concrete| |].
    - each; apply in_windowb_ok; reflexivity.
    - intros a. each; tauto.
    - each; tree_concrete.
    - intros a. each; tauto.
    - each; tauto.
    - intros t a. each; discriminate.
    - each.
    - constructor; each. constructor. }
  split; [exact H|]. apply (calc_routing_table_shortest 0 [1; 2; 3; 4; 5; 9] ex_ctx H).
Defined.
