(* ===== verification/OlsrMantissa.v ===== *)
(** Time intervals as mantissa/exponent bytes (simnet/olsr/olsr_mantissa.c).

    An [olsr_reltime] is a 32-bit unsigned number of milliseconds; the byte has
    the mantissa [a] in its high and the exponent [b] in its low four bits.
    Unsigned arithmetic wraps ([u32], [u8]); a shift by 32 or more, or by a
    negative count, is [UB].  The theorems bound the error of encoding an
    interval, say which bytes survive decoding and encoding again, and show that
    the search for the exponent ends for every interval. *)
From S2P Require Import Prelude.
From stdpp Require Import base list numbers.
From Stdlib Require Import ZArith Lia.
Open Scope Z_scope.
Open Scope c_scope.

(** [x << k] on [unsigned int]. *)
Definition shl32 (x k : Z) : res Z :=
  if (0 <=? k) && (k <? 32) then Ok (u32 (Z.shiftl x k)) else UB.

(** The loop [while (unscaled_interval >= (1U << b)) b++]. *)
Fixpoint find_exponent (fuel : nat) (unscaled_interval b : Z) : res Z :=
  match fuel with
  | O => NoFuel
  | S n =>
    let* p := shl32 1 b in
    if p <=? unscaled_interval then find_exponent n unscaled_interval (u8 (b + 1)) else Ok b
  end.

Definition reltime_to_me (interval : Z) : res Z :=
  let unscaled_interval := u32 (u32 interval / 125 * 2) in
  let* b := find_exponent 32 unscaled_interval 0 in
  let* ab :=
    if b =? 0 then Ok (1, 0)
    else
      let b := u8 (b - 1) in
      if 15 <? b then Ok (15, 15)
      else
        let* base := shl32 125 (b - 1) in
        let* a :=
          if 5 <=? b then
            let* d := shl32 125 (b - 5) in Ok (u8 (u32 (interval - base) / d))
          else
            let* f := shl32 1 (5 - b) in Ok (u8 (u32 (u32 (interval - base) * f) / 125)) in
        Ok (Z.land a 0x0f, u8 (b + Z.shiftr a 4)) in
  let '(a, b) := ab in
  Ok (u8 (Z.lor (Z.shiftl a 4) (Z.land b 0x0F))).

Definition me_to_reltime (me : Z) : Z :=
  let a := Z.shiftr me 4 in
  let b := Z.land me 0x0F in
  if 8 <=? b then u32 (i32 (Z.shiftl (16 + a) (b - 8)) * 1000)
  else u32 (Z.shiftr ((16 + a) * 1000) (8 - b)).

(** The static variable [minimum_interval] and the function that fills it. *)
Definition UINT32_MAX : Z := 2 ^ 32 - 1.
Definition reltime_minimum_interval (minimum_interval : Z) : res (Z * Z) :=
  if minimum_interval =? UINT32_MAX
  then let* me := reltime_to_me 0 in
       let v := me_to_reltime me in Ok (v, v)
  else Ok (minimum_interval, minimum_interval).

(** ** The exponent *)
Lemma shl32_ok x k : 0 <= x -> 0 <= k < 32 -> x * 2 ^ k < 2 ^ 32 -> shl32 x k = Ok (x * 2 ^ k).
Proof.
  intros Hx Hk Hb. unfold shl32. bool_lia. rewrite Z.shiftl_mul_pow2 by lia.
  f_equal. apply u32_id. unfold is_u32. nia.
Qed.

Lemma pow2_mono a b : 0 <= a <= b -> 0 < 2 ^ a <= 2 ^ b.
Proof. intros. split; [lia|]. apply Z.pow_le_mono_r; lia. Qed.

(** From [b] on, the loop stops at the first power of two above [u]. *)
Lemma find_exponent_spec fuel u b :
  0 <= u < 2 ^ 27 -> 0 <= b <= 27 -> 27 - b < Z.of_nat fuel -> (b = 0 \/ 2 ^ (b - 1) <= u) ->
  exists b', find_exponent fuel u b = Ok b' /\ 0 <= b' <= 27 /\ u < 2 ^ b' /\
    (b' = 0 \/ 2 ^ (b' - 1) <= u).
Proof.
  revert b. induction fuel as [|n IH]; intros b Hu Hb Hf Hlo; [lia|]. cbn.
  pose proof (pow2_mono b 27 ltac:(lia)) as Hm.
  rewrite shl32_ok by (change (2 ^ 27) with 134217728 in Hm; lia). cbn.
  destruct (Z.leb_spec (1 * 2 ^ b) u) as [Hle|Hlt].
  - assert (b <> 27) by (intros ->; change (2 ^ 27) with 134217728 in *; lia).
    rewrite u8_id by (unfold is_u8; lia). apply IH; [done|lia|lia|].
    right. replace (b + 1 - 1) with b by lia. lia.
  - exists b. split; [done|]. split; [lia|]. split; [lia|done].
Qed.

(** ** Bytes *)

(** Every byte [16 * a + b] decodes to [(1 + a/16) * 2^b / 16] seconds, rounded
    down to milliseconds, and the packing of [a] and [b] is [16 * a + b]. *)
Lemma byte_spec a b :
  0 <= a < 16 -> 0 <= b < 16 ->
  u8 (Z.lor (Z.shiftl a 4) (Z.land b 0x0F)) = 16 * a + b /\
  me_to_reltime (16 * a + b) = (16 + a) * 1000 * 2 ^ b / 256.
Proof.
  intros Ha Hb.
  assert (Hall : forallb (fun a => forallb (fun b =>
      (u8 (Z.lor (Z.shiftl a 4) (Z.land b 0x0F)) =? 16 * a + b) &&
      (me_to_reltime (16 * a + b) =? (16 + a) * 1000 * 2 ^ b / 256))
      (seqZ 0 16)) (seqZ 0 16) = true) by (vm_compute; reflexivity).
  assert (Hin : forall x, 0 <= x < 16 -> In x (seqZ 0 16))
    by (intros x Hx; apply list_elem_of_In, elem_of_seqZ; lia).
  rewrite forallb_forall in Hall. specialize (Hall a (Hin a Ha)).
  rewrite forallb_forall in Hall. specialize (Hall b (Hin b Hb)).
  apply andb_prop in Hall as [H1 H2]. apply Z.eqb_eq in H1, H2. done.
Qed.

(** The mantissa is the interval's position between two powers of two. *)
Definition mantissa (i b : Z) : Z := (i - 125 * 2 ^ (b - 1)) * 32 / (125 * 2 ^ b).

Inductive encoding (i : Z) : Z -> Prop :=
  | enc_small : i < 125 -> encoding i 16
  | enc_large : 4096000 <= i -> encoding i 255
  | enc_mid b : 1 <= b <= 15 -> 125 * 2 ^ (b - 1) <= i < 125 * 2 ^ b ->
      encoding i (16 * mantissa i b + b).

Lemma mantissa_range i b :
  1 <= b <= 15 -> 125 * 2 ^ (b - 1) <= i < 125 * 2 ^ b -> 0 <= mantissa i b < 16.
Proof.
  intros Hb Hi. unfold mantissa.
  assert (Hp : 2 ^ b = 2 * 2 ^ (b - 1)) by (rewrite <- Z.pow_succ_r by lia; f_equal; lia).
  pose proof (pow2_mono 0 (b - 1) ltac:(lia)). split.
  - apply Z.div_pos; lia.
  - apply Z.div_lt_upper_bound; lia.
Qed.

Ltac small_cases x :=
  let H := fresh in
  assert (H : In x (seqZ 0 32)) by (apply list_elem_of_In, elem_of_seqZ; lia);
  cbv in H; repeat (destruct H as [<-|H]; [try lia|]); [..|destruct H].

(** Evaluates the powers and shifts of constants. *)
Ltac eval_in c := let v := eval vm_compute in c in change c with v in *.
Ltac eval_const :=
  repeat match goal with
  | |- context [ shl32 ?x ?k ] => progress eval_in (shl32 x k)
  | |- context [ 2 ^ ?k ] => progress eval_in (2 ^ k)
  | H : context [ 2 ^ ?k ] |- _ => progress eval_in (2 ^ k)
  | |- context [ 5 <=? ?k ] => progress eval_in (5 <=? k)
  end.

(** The computation of the mantissa in C, for each exponent. *)
Lemma mantissa_c i b :
  is_u32 i -> 1 <= b <= 15 -> 125 * 2 ^ (b - 1) <= i < 125 * 2 ^ b ->
  (let* base := shl32 125 (b - 1) in
   if 5 <=? b then
     let* d := shl32 125 (b - 5) in Ok (u8 (u32 (i - base) / d))
   else
     let* f := shl32 1 (5 - b) in Ok (u8 (u32 (u32 (i - base) * f) / 125))) = Ok (mantissa i b).
Proof.
  intros Hi Hb Hr. pose proof (mantissa_range i b Hb Hr) as Hm. unfold is_u32 in Hi.
  unfold mantissa in *. rewrite shl32_ok; [cbn [rbind]|lia|lia|].
  2:{ pose proof (pow2_mono (b - 1) 14 ltac:(lia)) as H. change (2 ^ 14) with 16384 in H. lia. }
  small_cases b; cbn [Z.leb Z.compare] in *; eval_const; cbn [rbind]; f_equal;
    unfold u8, u32; eval_const; lia.
Qed.

Lemma reltime_to_me_spec i :
  is_u32 i -> exists me, reltime_to_me i = Ok me /\ encoding i me.
Proof.
  intros Hi. unfold reltime_to_me. rewrite (u32_id i) by done. unfold is_u32 in Hi.
  rewrite u32_id by (unfold is_u32; lia).
  destruct (find_exponent_spec 32 (i / 125 * 2) 0) as (b & -> & Hb & Hup & Hlo);
    [change (2 ^ 27) with 134217728; lia|lia|cbn; lia|by left|cbn [rbind]].
  destruct (Z.eqb_spec b 0) as [->|Hb0]; cbn [rbind].
  { exists 16. split; [done|]. apply enc_small. change (2 ^ 0) with 1 in Hup. lia. }
  destruct Hlo as [?|Hlo]; [done|]. rewrite u8_id by (unfold is_u8; lia).
  assert (Hp : 2 ^ b = 2 * 2 ^ (b - 1)) by (rewrite <- Z.pow_succ_r by lia; f_equal; lia).
  destruct (Z.ltb_spec 15 (b - 1)).
  { exists 255. cbn. split; [done|]. apply enc_large.
    pose proof (pow2_mono 16 (b - 1) ltac:(lia)) as Hm. change (2 ^ 16) with 65536 in Hm. lia. }
  assert (Hb1 : b - 1 <> 0) by (intros E; rewrite E in *; change (2 ^ 0) with 1 in *; lia).
  assert (Hp1 : 2 ^ (b - 1) = 2 * 2 ^ (b - 1 - 1))
    by (rewrite <- Z.pow_succ_r by lia; f_equal; lia).
  set (e := b - 1) in *. assert (He : 1 <= e <= 15) by lia.
  assert (Hr : 125 * 2 ^ (e - 1) <= i < 125 * 2 ^ e) by lia.
  pose proof (mantissa_c i e Hi He Hr) as Hc. pose proof (mantissa_range i e He Hr) as Hm.
  exists (16 * mantissa i e + e). split; [|by apply enc_mid].
  destruct (shl32 125 (e - 1)) as [base| | |]; try discriminate Hc. cbn [rbind] in *. rewrite Hc.
  cbn [rbind]. rewrite Z.shiftr_div_pow2 by lia.
  change 0x0f with (Z.ones 4). rewrite Z.land_ones by lia.
  change (2 ^ 4) with 16. rewrite Z.div_small, Z.mod_small by lia.
  rewrite Z.add_0_r, (u8_id e) by (unfold is_u8; lia).
  f_equal. change (Z.ones 4) with 0x0F. apply byte_spec; lia.
Qed.

(** What the byte of an interval decodes to. *)
Lemma encoding_decode i b :
  1 <= b <= 15 -> 125 * 2 ^ (b - 1) <= i < 125 * 2 ^ b ->
  me_to_reltime (16 * mantissa i b + b) = (16 + mantissa i b) * 1000 * 2 ^ b / 256.
Proof. intros Hb Hi. apply byte_spec; [by apply mantissa_range|lia]. Qed.

Lemma encoding_u8 i me : encoding i me -> is_u8 me.
Proof.
  intros [|?|b Hb Hr]; unfold is_u8; try lia. pose proof (mantissa_range i b Hb Hr). lia.
Qed.

Lemma decode_error i b :
  1 <= b <= 15 -> 125 * 2 ^ (b - 1) <= i < 125 * 2 ^ b ->
  125 * 2 ^ (b - 1) <= me_to_reltime (16 * mantissa i b + b) <= i /\
  17 * (i - me_to_reltime (16 * mantissa i b + b)) < i + 17.
Proof.
  intros Hb Hr. pose proof (mantissa_range i b Hb Hr) as Hm.
  rewrite encoding_decode by done. unfold mantissa in *.
  small_cases b; eval_const; lia.
Qed.



(** Decoding loses nothing for exponents of 5 and more: every such byte
    is the encoding of the interval it decodes to, so a validity time that was
    once encoded survives being relayed and encoded again. *)
Theorem me_to_reltime_roundtrip (me : Z) (Hme : is_u8 me) (Hexp : 5 <= Z.land me 0x0F) :
  reltime_to_me (me_to_reltime me) = Ok me.
Proof.
  assert (Hall : forallb (fun m => (Z.land m 0x0F <? 5) ||
      match reltime_to_me (me_to_reltime m) with Ok m' => m' =? m | _ => false end)
      (seqZ 0 256) = true) by (vm_compute; reflexivity).
  rewrite forallb_forall in Hall.
  specialize (Hall me (proj1 (list_elem_of_In _ _) (proj2 (elem_of_seqZ _ _ _) Hme))).
  apply orb_prop in Hall as [H|H]; [apply Z.ltb_lt in H; lia|].
  destruct (reltime_to_me _); try discriminate H. apply Z.eqb_eq in H. by subst.
Qed.

Lemma me_to_reltime_roundtrip_witness :
  reltime_to_me 3750 = Ok 229 /\ is_u8 229 /\ reltime_to_me (me_to_reltime 229) = Ok 229.
Proof.
  split; [reflexivity|]. split; [unfold is_u8; lia|].
  apply (me_to_reltime_roundtrip 229); [unfold is_u8; lia|cbv; discriminate].
Defined.

(** Encoding is monotone: of two intervals of at least 125 ms, the longer one
    is never announced to the neighbours as the shorter validity time. *)
Theorem reltime_to_me_monotone (i j m n : Z) (Hi : 125 <= i) (Hij : i <= j) (Hj : is_u32 j)
  (Em : reltime_to_me i = Ok m) (En : reltime_to_me j = Ok n) :
  me_to_reltime m <= me_to_reltime n.
Proof.
  destruct (reltime_to_me_spec i) as (m' & E & He); [unfold is_u32 in *; lia|].
  rewrite Em in E. injection E as <-.
  destruct (reltime_to_me_spec j Hj) as (n' & E & Hf). rewrite En in E. injection E as <-.
  destruct He as [?|?|b Hb Hr]; [lia| |]; destruct Hf as [?|?|c Hc Hs]; try lia.
  - pose proof (pow2_mono c 15 ltac:(lia)). eval_const. lia.
  - pose proof (decode_error i b Hb Hr). pose proof (mantissa_range i b Hb Hr).
    rewrite encoding_decode in * by done. change (me_to_reltime 255) with 3968000.
    pose proof (pow2_mono b 15 ltac:(lia)). eval_const. nia.
  - destruct (Z.lt_trichotomy b c) as [Hbc|[<-|Hbc]].
    + pose proof (decode_error i b Hb Hr). pose proof (decode_error j c Hc Hs).
      pose proof (pow2_mono b (c - 1) ltac:(lia)). lia.
    + rewrite !encoding_decode by done. apply Z.div_le_mono; [lia|].
      apply Z.mul_le_mono_nonneg_r; [lia|].
      assert (mantissa i b <= mantissa j b); [|lia].
      pose proof (pow2_mono 0 b ltac:(lia)).
      apply Z.div_le_mono; lia.
    + pose proof (pow2_mono c (b - 1) ltac:(lia)). lia.
Qed.

Lemma reltime_to_me_monotone_witness :
  reltime_to_me 1500 = Ok 132 /\ reltime_to_me 3749 = Ok 213 /\
  me_to_reltime 132 <= me_to_reltime 213.
Proof.
  split; [reflexivity|]. split; [reflexivity|].
  apply (reltime_to_me_monotone 1500 3749 132 213);
    [lia|lia|unfold is_u32; lia|reflexivity|reflexivity].
Defined.
