(* ===== verification/NetUtil.v ===== *)
(** Packet headers (util/netutil.h, util/netutil.c).

    A packet buffer is the C struct: a length and a block of 2050 bytes.  Header
    structs are overlays on the block, so a field is read and written at its
    offset with the little-endian loads and stores of the host; a bit field is a
    masked store.  The theorems show that the checksum of the headers the program
    builds verifies, that a built IP header reads back, and that decapsulation
    undoes the minimal encapsulation of RFC 2004. *)
From S2P Require Import Prelude.
From stdpp Require Import base list numbers.
From Stdlib Require Import ZArith Lia.
Open Scope Z_scope.
Open Scope c_scope.

Definition MAX_IPPKT_SIZE : Z := 2000.
Definition MAX_ETHER_HEADER_MARGIN : Z := 50.
Definition sizeof_iphdr : Z := 20.
Definition sizeof_udphdr : Z := 8.
Definition sizeof_MinimalMobileIpHdr : Z := 12.
Definition IPUDP_HDRLEN : Z := sizeof_iphdr + sizeof_udphdr.
Definition IPPROTO_UDP : Z := 17.
Definition IPPROTO_MOBILE : Z := 55.

(** On a little-endian host the mask keeps the last three octets. *)
Definition IP_C_CLASS_MATCH (ip1 ip2 : Z) : bool :=
  Z.land ip1 0xffffff00 =? Z.land ip2 0xffffff00.

(** [MAKE_BE32_IP] and the little-endian load of its bytes. *)
Definition MAKE_BE32_IP (o1 o2 o3 o4 : Z) : Z :=
  u8 o1 + 256 * (u8 o2 + 256 * (u8 o3 + 256 * u8 o4)).

Record PacketBuf : Type := mkPkt {
  pkt_length : Z;
  data : list Z                (** [MAX_IPPKT_SIZE + MAX_ETHER_HEADER_MARGIN] bytes *)
}.
Definition PKT_DATA_SIZE : Z := MAX_IPPKT_SIZE + MAX_ETHER_HEADER_MARGIN.

(** ** Checksum *)

(** Ones' complement addition of a word to the accumulator. *)
Definition acc_add (acc word : Z) : Z :=
  let acc := u32 (acc + ntohs word) in
  if 0xffff <? acc then acc - 0xffff else acc.

Fixpoint checksum_acc (bytes : list Z) (acc : Z) : Z :=
  match bytes with
  | x :: y :: bytes' => checksum_acc bytes' (acc_add acc (x + 256 * y))
  | [x] => acc_add acc x
  | [] => acc
  end.

Definition calc_ip_checksum (bytes : list Z) : Z :=
  htons (u32 (Z.lnot (checksum_acc bytes 0xffff))).

(** ** Header fields; [off] is the address of the header in the block *)
Definition iph_ihl (b : list Z) (off : Z) : res Z :=
  let* x := rd8 b off in Ok (Z.land x 0xF).
Definition iph_protocol (b : list Z) (off : Z) : res Z := rd8 b (off + 9).
Definition iph_saddr (b : list Z) (off : Z) : res Z := rd32 b (off + 12).
Definition iph_daddr (b : list Z) (off : Z) : res Z := rd32 b (off + 16).

Definition set_ihl (b : list Z) (off v : Z) : res (list Z) :=
  let* x := rd8 b off in wr8 b off (Z.lor (Z.land x 0xF0) (Z.land v 0xF)).
Definition set_version (b : list Z) (off v : Z) : res (list Z) :=
  let* x := rd8 b off in wr8 b off (Z.lor (Z.land x 0x0F) (Z.shiftl (Z.land v 0xF) 4)).

Definition build_udp_hdr_no_checksum (b : list Z) (off src_port dst_port payload_len : Z)
  : res (list Z) :=
  let* b := wr16 b off (htons src_port) in
  let* b := wr16 b (off + 2) (htons dst_port) in
  let* b := wr16 b (off + 4) (htons (sizeof_udphdr + u16 payload_len)) in
  wr16 b (off + 6) 0.

Definition build_ip_hdr (b : list Z) (off len ttl srcaddr dstaddr ipproto : Z)
  : res (list Z) :=
  let* b := set_ihl b off 5 in
  let* b := set_version b off 4 in
  let* b := wr8 b (off + 1) 0 in
  let* b := wr16 b (off + 2) (htons len) in
  let* b := wr16 b (off + 4) 0 in
  let* b := wr16 b (off + 6) 0 in
  let* b := wr8 b (off + 8) ttl in
  let* b := wr8 b (off + 9) ipproto in
  let* b := wr16 b (off + 10) 0 in
  let* b := wr32 b (off + 12) srcaddr in
  let* b := wr32 b (off + 16) dstaddr in
  let* hdr := zslice b off sizeof_iphdr in
  wr16 b (off + 10) (calc_ip_checksum hdr).

(** The fields of the minimal forwarding header (RFC 2004), in the order in
    which [minimal_mip_encap] writes them. *)
Definition write_mip_hdr (b : list Z) (off ipproto orig_dst orig_src : Z) : res (list Z) :=
  let* b := wr8 b off ipproto in
  let* x := rd8 b (off + 1) in
  let* b := wr8 b (off + 1) (Z.land x 0x80) in
  let* x := rd8 b (off + 1) in
  let* b := wr8 b (off + 1) (Z.lor (Z.land x 0x7f) 0x80) in
  let* b := wr16 b (off + 2) 0 in
  let* b := wr32 b (off + 4) orig_dst in
  let* b := wr32 b (off + 8) orig_src in
  let* hdr := zslice b off sizeof_MinimalMobileIpHdr in
  wr16 b (off + 2) (calc_ip_checksum hdr).

(** The rewriting of the IP header at the start of a packet, the same sequence
    of assignments in [minimal_mip_encap] and [minimal_mip_decap]. *)
Definition rewrite_ip_hdr (b : list Z) (proto hdr_len tot_len src dst : Z) : res (list Z) :=
  let* b := wr8 b 9 proto in
  let* b := set_ihl b 0 (hdr_len / 4) in
  let* b := wr16 b 2 (htons tot_len) in
  let* b := wr32 b 12 src in
  let* b := wr32 b 16 dst in
  let* b := wr16 b 10 0 in
  let* hdr := zslice b 0 hdr_len in
  wr16 b 10 (calc_ip_checksum hdr).

(** [encap] is the uninitialised buffer the caller hands in. *)
Definition minimal_mip_encap (ip_pkt encap : PacketBuf) (new_src new_dst : Z)
  : res PacketBuf :=
  let old := data ip_pkt in
  let* ihl := iph_ihl old 0 in
  let old_ip_hdr_len := ihl * 4 in
  let* b := memcpy (data encap) 0 old 0 old_ip_hdr_len in
  let* proto := iph_protocol old 0 in
  let* daddr := iph_daddr old 0 in
  let* saddr := iph_saddr old 0 in
  let* b := write_mip_hdr b old_ip_hdr_len proto daddr saddr in
  let new_ip_hdr_len := old_ip_hdr_len + sizeof_MinimalMobileIpHdr in
  let* b := memcpy b new_ip_hdr_len old old_ip_hdr_len (pkt_length ip_pkt - old_ip_hdr_len) in
  let* b := rewrite_ip_hdr b IPPROTO_MOBILE new_ip_hdr_len
              (pkt_length ip_pkt + sizeof_MinimalMobileIpHdr) new_src new_dst in
  Ok {| pkt_length := sizeof_MinimalMobileIpHdr + pkt_length ip_pkt; data := b |}.

Definition minimal_mip_decap (encap_ip_pkt decap : PacketBuf) : res PacketBuf :=
  let old := data encap_ip_pkt in
  let* ihl := iph_ihl old 0 in
  let old_ip_hdr_len := ihl * 4 in
  let decap_ip_hdr_len := old_ip_hdr_len - sizeof_MinimalMobileIpHdr in
  let mip_hdr := decap_ip_hdr_len in
  let* b := memcpy (data decap) 0 old 0 decap_ip_hdr_len in
  let* proto := rd8 old mip_hdr in
  let* src := rd32 old (mip_hdr + 8) in
  let* dst := rd32 old (mip_hdr + 4) in
  let* b := rewrite_ip_hdr b proto decap_ip_hdr_len
              (pkt_length encap_ip_pkt - sizeof_MinimalMobileIpHdr) src dst in
  let* b := memcpy b decap_ip_hdr_len old old_ip_hdr_len
              (pkt_length encap_ip_pkt - old_ip_hdr_len) in
  Ok {| pkt_length := pkt_length encap_ip_pkt - sizeof_MinimalMobileIpHdr; data := b |}.

(** [ip2str] rotates over 100 static buffers; [bufidx] is the static index. *)
Definition ip2str_next (bufidx : Z) : Z :=
  let bufidx := i32 (bufidx + 1) in if 99 <? bufidx then 0 else bufidx.

(** ** The checksum verifies *)

(** The sum of the 16-bit words in network order. *)
Fixpoint be_sum (bytes : list Z) : Z :=
  match bytes with
  | x :: y :: bytes' => 256 * x + y + be_sum bytes'
  | [x] => 256 * x
  | [] => 0
  end.

Lemma acc_add_spec acc x y :
  is_u8 x -> is_u8 y -> 1 <= acc <= 65535 ->
  1 <= acc_add acc (x + 256 * y) <= 65535 /\
  acc_add acc (x + 256 * y) mod 65535 = (acc + (256 * x + y)) mod 65535.
Proof.
  intros Hx Hy Ha. unfold acc_add, ntohs, htons, u32, u16, is_u8 in *.
  replace ((acc + ((x + 256 * y) mod 2 ^ 16 mod 256 * 256 + (x + 256 * y) mod 2 ^ 16 / 256)) mod 2 ^ 32)
    with (acc + (256 * x + y)) by lia.
  bool_lia.
Qed.

Lemma checksum_acc_spec n : forall bytes acc,
  (length bytes <= n)%nat -> Forall is_u8 bytes -> 1 <= acc <= 65535 ->
  1 <= checksum_acc bytes acc <= 65535 /\
  checksum_acc bytes acc mod 65535 = (acc + be_sum bytes) mod 65535.
Proof.
  induction n as [|n IH]; intros bytes acc Hn Hb Ha.
  - destruct bytes; [|cbn in Hn; lia]. cbn. rewrite Z.add_0_r. done.
  - destruct bytes as [|x [|y bytes]]; cbn [checksum_acc be_sum].
    + rewrite Z.add_0_r. done.
    + inversion Hb; subst. pose proof (acc_add_spec acc x 0 ltac:(done) ltac:(done) Ha) as H.
      rewrite !Z.add_0_r in H. done.
    + inversion Hb as [|? ? Hx Hb']; subst. inversion Hb' as [|? ? Hy Hb'']; subst.
      destruct (acc_add_spec acc x y Hx Hy Ha) as [Hr Hm].
      destruct (IH bytes (acc_add acc (x + 256 * y))) as [Hr' Hm']; [cbn in Hn; lia|done|done|].
      split; [done|]. rewrite Hm'. rewrite Z.add_assoc.
      rewrite (Z.add_mod (acc_add _ _)), Hm, <- Z.add_mod by lia. done.
Qed.

Lemma calc_ip_checksum_val bytes :
  Forall is_u8 bytes ->
  exists r, 1 <= r <= 65535 /\ r mod 65535 = be_sum bytes mod 65535 /\
    calc_ip_checksum bytes = htons (65535 - r).
Proof.
  intros Hb. destruct (checksum_acc_spec (length bytes) bytes 0xffff) as [Hr Hm]; [lia|done|lia|].
  exists (checksum_acc bytes 0xffff). split; [done|]. split.
  - rewrite Hm. clear. lia.
  - unfold calc_ip_checksum. generalize dependent (checksum_acc bytes 0xffff).
    intros r Hr _. replace (Z.lnot r) with (- r - 1) by (unfold Z.lnot; lia).
    unfold htons, u16, u32. lia.
Qed.

Lemma be_sum_app l : forall k, Z.even (zlen l) = true -> be_sum (l ++ k) = be_sum l + be_sum k.
Proof.
  assert (H : forall n l, (length l <= n)%nat -> forall k, Z.even (zlen l) = true ->
              be_sum (l ++ k) = be_sum l + be_sum k); [|by apply (H (length l))].
  clear l. induction n as [|n IH]; intros l Hn k He.
  - destruct l; [done|cbn in Hn; lia].
  - destruct l as [|x [|y l]]; [done|discriminate He|]. cbn [app be_sum].
    rewrite IH; [lia|cbn in Hn; lia|].
    rewrite !zlen_cons, <- Z.add_assoc, Z.even_add in He. by destruct (Z.even (zlen l)).
Qed.



(** A header that carries its own checksum at an even place sums up to zero. *)
Lemma checksum_verifies pre post :
  Forall is_u8 pre -> Forall is_u8 post -> Z.even (zlen pre) = true ->
  calc_ip_checksum (pre ++ le16 (calc_ip_checksum (pre ++ [0; 0] ++ post)) ++ post) = 0.
Proof.
  intros Hpre Hpost He.
  destruct (calc_ip_checksum_val (pre ++ [0; 0] ++ post)) as (r & Hr & Hm & E).
  { repeat (apply Forall_app; split); try done. repeat constructor; lia. }
  rewrite E, le16_htons by (unfold is_u16; lia).
  destruct (calc_ip_checksum_val (pre ++ [(65535 - r) / 256; (65535 - r) mod 256] ++ post))
    as (r' & Hr' & Hm' & ->).
  { repeat (apply Forall_app; split); try done. repeat constructor; lia. }
  rewrite !be_sum_app in Hm, Hm' by done. cbn [app be_sum] in Hm, Hm'.
  assert (r' = 65535) as ->; [|done].
  assert (H0 : r' mod 65535 = (r + (65535 - r)) mod 65535).
  { rewrite Hm'. rewrite (Z.add_mod r), Hm, <- Z.add_mod by lia. f_equal. lia. }
  replace (r + (65535 - r)) with 65535 in H0 by lia. cbn in H0.
  change (65535 mod 65535) with 0 in H0. lia.
Qed.

(** ** Headers that were built *)

Lemma nibble_lo x v : Z.land (Z.lor (Z.land x 0xF0) (Z.land v 0xF)) 0xF = Z.land v 0xF.
Proof. rewrite Z.land_lor_distr_l, <- !Z.land_assoc. cbn [Z.land Pos.land]. by rewrite Z.land_0_r. Qed.
Lemma nibble_hi x v : Z.land (Z.lor (Z.land x 0xF0) (Z.land v 0xF)) 0xF0 = Z.land x 0xF0.
Proof.
  rewrite Z.land_lor_distr_l, <- !Z.land_assoc. cbn [Z.land Pos.land].
  by rewrite Z.land_0_r, Z.lor_0_r.
Qed.
Lemma u8_land z : u8 z = Z.land z 0xFF.
Proof. change 0xFF with (Z.ones 8). by rewrite Z.land_ones by lia. Qed.
Lemma u8_nibbles x v :
  u8 (Z.lor (Z.land x 0xF0) (Z.land v 0xF)) = Z.lor (Z.land x 0xF0) (Z.land v 0xF).
Proof. rewrite u8_land, Z.land_lor_distr_l, <- !Z.land_assoc. done. Qed.
Lemma nibbles_id x : is_u8 x -> Z.lor (Z.land x 0xF0) (Z.land x 0xF) = x.
Proof.
  intros Hx. rewrite <- Z.land_lor_distr_r. cbn [Z.lor Pos.lor].
  rewrite <- u8_land. by apply u8_id.
Qed.

(** What a well-formed IP header reads as. *)
Record ip_hdr_reads (h : list Z) (ihl len proto src dst : Z) : Prop := {
  rd_ihl : iph_ihl h 0 = Ok ihl;
  rd_len : rd16 h 2 = Ok (htons len);
  rd_proto : iph_protocol h 0 = Ok proto;
  rd_src : iph_saddr h 0 = Ok src;
  rd_dst : iph_daddr h 0 = Ok dst
}.


Lemma set_ihl_shift a b k v :
  0 <= k -> set_ihl (a ++ b) (zlen a + k) v = let* b' := set_ihl b k v in Ok (a ++ b').
Proof.
  intros Hk. unfold set_ihl. rewrite rd8_shift by done. destruct (rd8 b k); try done.
  by apply wr8_shift.
Qed.
Lemma set_version_shift a b k v :
  0 <= k -> set_version (a ++ b) (zlen a + k) v = let* b' := set_version b k v in Ok (a ++ b').
Proof.
  intros Hk. unfold set_version. rewrite rd8_shift by done. destruct (rd8 b k); try done.
  by apply wr8_shift.
Qed.

#[export] Hint Rewrite set_ihl_shift set_version_shift using lia : shift.

(** The byte of [ihl] and [version], whatever was there before. *)
Lemma first_byte z :
  u8 (Z.lor (Z.land (u8 (Z.lor (Z.land z 0xF0) (Z.land 5 0xF))) 0x0F)
     (Z.shiftl (Z.land 4 0xF) 4)) = 0x45.
Proof. by rewrite u8_nibbles, nibble_lo. Qed.

Lemma build_ip_hdr_sealed hdr rest len ttl src dst proto :
  zlen hdr = 20 -> is_u32 src -> is_u32 dst -> is_u8 proto ->
  exists h, build_ip_hdr (hdr ++ rest) 0 len ttl src dst proto = Ok (h ++ rest) /\
    zlen h = 20 /\ Forall is_u8 h /\ calc_ip_checksum h = 0 /\ ip_hdr_reads h 5 len proto src dst /\
    rd16 h 10 = Ok (calc_ip_checksum (take 10 h ++ [0; 0] ++ drop 12 h)).
Proof.
  intros Hh Hs Hd Hp. explode hdr 20%nat.
  unfold build_ip_hdr, set_ihl, set_version. run_blits. rewrite first_byte.
  eexists (_ :: _ :: _ :: _ :: _ :: _ :: _ :: _ :: _ :: _ :: _ :: _ :: _ :: _ :: _ :: _ :: _ :: _
    :: _ :: [_]). split; [reflexivity|]. split; [reflexivity|].
  split; [u8s|]. split.
  - match goal with |- calc_ip_checksum ?h = 0 =>
      apply (checksum_verifies (take 10 h) (drop 12 h)) end; [..|reflexivity]; u8s.
  - split; [|run_blits; cbn [take drop app]; rewrite rd16_le16; [reflexivity|apply htons_range]].
    pose proof (htons_range len). constructor; unfold iph_ihl, iph_protocol, iph_saddr, iph_daddr;
      run_blits; rewrite ?rd32_le32, ?rd16_le16 by done; by rewrite ?u8_id by done.
Qed.

Lemma build_ip_hdr_at0 hdr rest len ttl src dst proto :
  zlen hdr = 20 -> is_u32 src -> is_u32 dst -> is_u8 proto ->
  exists h, build_ip_hdr (hdr ++ rest) 0 len ttl src dst proto = Ok (h ++ rest) /\
    zlen h = 20 /\ Forall is_u8 h /\ calc_ip_checksum h = 0 /\ ip_hdr_reads h 5 len proto src dst.
Proof.
  intros. destruct (build_ip_hdr_sealed hdr rest len ttl src dst proto) as (h & E & Hl & Hu & Hc & Hr & _);
    [done..|]. by exists h.
Qed.

(** The header [build_ip_hdr] writes at any place of a block is a valid IPv4
    header: nothing outside its 20 bytes changes, no access leaves the block, the
    checksum of the header verifies (it sums up to zero), and header length, total
    length, protocol and both addresses read back as they were given. *)
Theorem build_ip_hdr_valid (pre hdr rest : list Z) (len ttl src dst proto : Z)
  (Hh : zlen hdr = 20) (Hs : is_u32 src) (Hd : is_u32 dst) (Hp : is_u8 proto) :
  exists h, build_ip_hdr (pre ++ hdr ++ rest) (zlen pre) len ttl src dst proto =
      Ok (pre ++ h ++ rest) /\
    zlen h = 20 /\ calc_ip_checksum h = 0 /\ ip_hdr_reads h 5 len proto src dst.
Proof.
  destruct (build_ip_hdr_at0 hdr rest len ttl src dst proto) as (h & E & Hl & _ & Hc & Hr); try done.
  exists h. split; [|done]. revert E. generalize (hdr ++ rest) as b, (h ++ rest) as b'.
  intros b b' E. unfold build_ip_hdr in *.
  rewrite <- (Z.add_0_r (zlen pre)), <- !(Z.add_assoc (zlen pre)).
  shift_run E. by rewrite E.
Qed.

Lemma build_ip_hdr_valid_witness :
  exists h, build_ip_hdr ([7; 7] ++ repeat 255 20 ++ [9]) 2 32 64 0x0100a8c0 0xffffffff 17 =
      Ok ([7; 7] ++ h ++ [9]) /\
    zlen h = 20 /\ calc_ip_checksum h = 0 /\ ip_hdr_reads h 5 32 17 0x0100a8c0 0xffffffff.
Proof.
  apply (build_ip_hdr_valid [7; 7] (repeat 255 20) [9] 32 64 0x0100a8c0 0xffffffff 17);
    [reflexivity|unfold is_u32; lia|unfold is_u32; lia|unfold is_u8; lia].
Defined.

(** ** Encapsulation and decapsulation *)
Lemma s_bit x : u8 (Z.lor (Z.land (u8 (Z.land x 0x80)) 0x7f) 0x80) = 0x80.
Proof.
  rewrite !u8_land, Z.land_lor_distr_l, <- !Z.land_assoc. cbn [Z.land Pos.land].
  by rewrite Z.land_0_r.
Qed.

Lemma write_mip_hdr_ok A m T proto dst src :
  zlen m = 12 -> is_u8 proto -> is_u32 dst -> is_u32 src ->
  exists mip, write_mip_hdr (A ++ m ++ T) (zlen A) proto dst src = Ok (A ++ mip ++ T) /\
    zlen mip = 12 /\ Forall is_u8 mip /\ rd8 mip 0 = Ok proto /\ rd32 mip 4 = Ok dst /\
    rd32 mip 8 = Ok src /\ calc_ip_checksum mip = 0.
Proof.
  intros Hm Hp Hd Hs. explode m 12%nat.
  assert (H0 : exists mip, write_mip_hdr ([z; z0; z1; z2; z3; z4; z5; z6; z7; z8; z9; z10] ++ T)
      0 proto dst src = Ok (mip ++ T) /\
    zlen mip = 12 /\ Forall is_u8 mip /\ rd8 mip 0 = Ok proto /\ rd32 mip 4 = Ok dst /\
    rd32 mip 8 = Ok src /\ calc_ip_checksum mip = 0).
  { unfold write_mip_hdr. run_blits. rewrite s_bit.
    eexists (_ :: _ :: _ :: _ :: _ :: _ :: _ :: _ :: _ :: _ :: _ :: [_]).
    split; [reflexivity|]. split; [reflexivity|].
    split; [u8s|]. run_blits.
    rewrite !rd32_le32 by done. rewrite u8_id by done. repeat split.
    match goal with |- calc_ip_checksum ?h = 0 =>
      apply (checksum_verifies (take 2 h) (drop 4 h)) end; [..|reflexivity]; u8s. }
  destruct H0 as (mip & E & H). exists mip. split; [|done]. clear H. revert E.
  generalize ([z; z0; z1; z2; z3; z4; z5; z6; z7; z8; z9; z10] ++ T) as b, (mip ++ T) as b'.
  intros b b' E. unfold write_mip_hdr in *.
  rewrite <- (Z.add_0_r (zlen A)), <- !(Z.add_assoc (zlen A)). shift_run E. by rewrite E.
Qed.

(** The header [rewrite_ip_hdr] makes of the header [h], with checksum [ck]. *)
Definition new_hdr (h : list Z) (hdr_len tot_len proto ck src dst : Z) : list Z :=
  [Z.lor (Z.land (nth 0 h 0) 0xF0) (Z.land (hdr_len / 4) 0xF); nth 1 h 0] ++
  le16 (htons tot_len) ++ take 5 (drop 4 h) ++ [proto] ++ le16 ck ++ le32 src ++ le32 dst.

Lemma rewrite_ip_hdr_ok h X Y proto n tot src dst :
  zlen h = 20 -> zlen X = n - 20 -> is_u8 proto ->
  rewrite_ip_hdr (h ++ X ++ Y) proto n tot src dst =
    Ok (new_hdr h n tot proto (calc_ip_checksum (new_hdr h n tot proto 0 src dst ++ X)) src dst
        ++ X ++ Y).
Proof.
  intros Hh HX Hp. pose proof (zlen_nonneg X). explode h 20%nat.
  unfold rewrite_ip_hdr, set_ihl. run_blits. rewrite u8_nibbles, (u8_id proto) by done.
  match goal with |- context [ zslice ?b 0 n ] =>
    let h := eval cbn [take] in (take 20 b) in
    rewrite (zslice_prefix b (h ++ X) Y n) by
      first [reflexivity | rewrite zlen_app, HX; change (zlen h) with 20; lia] end.
  cbn [app rbind]. run_blits. done.
Qed.

Lemma zlen_new_hdr h n tot proto ck src dst :
  zlen h = 20 -> zlen (new_hdr h n tot proto ck src dst) = 20.
Proof. intros Hh. explode h 20%nat. done. Qed.

Lemma new_hdr_u8 h n tot proto ck src dst :
  zlen h = 20 -> Forall is_u8 h -> is_u8 proto -> Forall is_u8 (new_hdr h n tot proto ck src dst).
Proof.
  intros Hh Hu Hp. unfold new_hdr. repeat (apply Forall_app; split; try exact (le32_u8 _)).
  - constructor; [rewrite <- u8_nibbles; apply u8_range|]. constructor; [|constructor].
    explode h 20%nat. cbn. by inversion Hu as [|? ? ? Hu']; inversion Hu'.
  - apply le16_u8.
  - by apply Forall_take, Forall_drop.
  - constructor; [done|constructor].
  - apply le16_u8.
Qed.

(** The rewritten header reads back and its checksum verifies. *)
Lemma new_hdr_reads h n tot proto ck src dst :
  zlen h = 20 -> Z.land (n / 4) 0xF = n / 4 -> is_u32 src -> is_u32 dst ->
  ip_hdr_reads (new_hdr h n tot proto ck src dst) (n / 4) tot proto src dst.
Proof.
  intros Hh Hn Hs Hd. explode h 20%nat.
  pose proof (htons_range tot). unfold new_hdr. cbn [nth take drop app].
  constructor; unfold iph_ihl, iph_protocol, iph_saddr, iph_daddr; run_blits.
  - by rewrite nibble_lo, Hn.
  - by rewrite rd16_le16.
  - done.
  - by rewrite rd32_le32.
  - by rewrite rd32_le32.
Qed.

Lemma new_hdr_checksum h X n tot proto src dst :
  zlen h = 20 -> Forall is_u8 h -> Forall is_u8 X -> is_u8 proto ->
  calc_ip_checksum (new_hdr h n tot proto
    (calc_ip_checksum (new_hdr h n tot proto 0 src dst ++ X)) src dst ++ X) = 0.
Proof.
  intros Hh Hu HX Hp.
  pose proof (new_hdr_u8 h n tot proto 0 src dst Hh Hu Hp) as H8.
  unfold new_hdr in *. rewrite <- !app_assoc in *.
  set (b0 := [_; _]) in *. set (b1 := le16 (htons tot)) in *.
  set (b2 := take 5 (drop 4 h)) in *. change (le16 0) with [0; 0].
  pose proof (checksum_verifies (b0 ++ b1 ++ b2 ++ [proto]) ((le32 src ++ le32 dst) ++ X)) as H.
  rewrite <- !app_assoc in H. apply H; clear H.
  - rewrite !Forall_app in *. intuition.
  - rewrite !Forall_app in *. intuition.
  - subst b2. explode h 20%nat. reflexivity.
Qed.

(** A packet as its parts: the 20 bytes of the fixed header, the options, the
    payload, and the unused rest of the buffer. *)
Record ip_packet (pkt : PacketBuf) (h opts pay rest : list Z) : Prop := {
  ip_data : data pkt = h ++ opts ++ pay ++ rest;
  ip_length : pkt_length pkt = zlen (h ++ opts ++ pay);
  ip_size : zlen (data pkt) = PKT_DATA_SIZE;
  ip_h : zlen h = 20;
  ip_bytes : Forall is_u8 (h ++ opts);
  ip_ihl : iph_ihl h 0 = Ok (5 + zlen opts / 4);
  ip_opts : zlen opts mod 4 = 0
}.

(** The header names the packet's length and carries its checksum. *)
Record ip_sealed (pkt : PacketBuf) (h opts : list Z) : Prop := {
  seal_len : rd16 h 2 = Ok (htons (pkt_length pkt));
  seal_check : rd16 h 10 = Ok (calc_ip_checksum (take 10 h ++ [0; 0] ++ drop 12 h ++ opts))
}.




(** What [minimal_mip_encap] makes of a packet. *)
Lemma encap_ok pkt h opts pay rest buf src dst :
  ip_packet pkt h opts pay rest -> zlen opts <= 28 ->
  pkt_length pkt + 12 <= PKT_DATA_SIZE -> zlen (data buf) = PKT_DATA_SIZE ->
  is_u32 src -> is_u32 dst ->
  exists proto osrc odst mip rest',
    iph_protocol h 0 = Ok proto /\ iph_saddr h 0 = Ok osrc /\ iph_daddr h 0 = Ok odst /\
    is_u8 proto /\ is_u32 osrc /\ is_u32 odst /\
    zlen mip = 12 /\ Forall is_u8 mip /\ rd8 mip 0 = Ok proto /\ rd32 mip 4 = Ok odst /\
    rd32 mip 8 = Ok osrc /\ calc_ip_checksum mip = 0 /\
    let n := 32 + zlen opts in let tot := pkt_length pkt + 12 in
    let ck := calc_ip_checksum (new_hdr h n tot IPPROTO_MOBILE 0 src dst ++ opts ++ mip) in
    minimal_mip_encap pkt buf src dst = Ok {| pkt_length := 12 + pkt_length pkt;
      data := new_hdr h n tot IPPROTO_MOBILE ck src dst ++ opts ++ mip ++ pay ++ rest' |}.
Proof.
  intros [Hd Hl Hsz Hh Hu Hihl Ho] Ho28 Hlen Hbuf Hsrc Hdst.
  rewrite !zlen_app in Hl. pose proof (zlen_nonneg opts). pose proof (zlen_nonneg pay).
  assert (Huh : Forall is_u8 h) by (by apply Forall_app in Hu as [? _]).
  destruct (rd8_total h 9) as [proto Ep]; [lia|].
  destruct (rd32_total h 12 Huh) as (osrc & Es & Hos); [lia..|].
  destruct (rd32_total h 16 Huh) as (odst & Ed & Hod); [lia..|].
  pose proof (rd8_u8 _ _ _ Huh Ep) as Hp.
  destruct (zcut (data buf) (20 + zlen opts)) as (B0 & B' & EB & HB0); [lia|].
  assert (HB : zlen (data buf) = zlen B0 + zlen B') by (rewrite EB; apply zlen_app).
  destruct (zcut B' 12) as (M & B'' & EB' & HM); [lia|].
  destruct (zcut B'' (zlen pay)) as (B2 & B3 & EB'' & HB2); [subst B'; rewrite zlen_app in HB; lia|].
  destruct (write_mip_hdr_ok (h ++ opts) M (B2 ++ B3) proto odst osrc HM Hp Hod Hos)
    as (mip & Em & Hm12 & Hmu & Hmp & Hmd & Hms & Hmc).
  exists proto, osrc, odst, mip, B3. do 12 (split; [done|]).
  cbv zeta. unfold minimal_mip_encap. rewrite Hd.
  unfold iph_ihl in *. rewrite (rd8_app h) by lia. rewrite Hihl. cbn [rbind].
  unfold memcpy. replace ((5 + zlen opts / 4) * 4) with (zlen (h ++ opts)) by (rewrite zlen_app; lia).
  rewrite (zslice_prefix _ (h ++ opts) (pay ++ rest)) by (rewrite <- ?app_assoc; done). cbn [rbind].
  rewrite EB, EB', EB''. rewrite (zblit_prefix B0) by (rewrite zlen_app; lia).
  cbn [rbind]. unfold iph_protocol, iph_daddr, iph_saddr.
  rewrite !Z.add_0_l, (rd8_app h), !(rd32_app h) by lia. rewrite Ep, Ed, Es. cbn [rbind].
  rewrite Em. cbn [rbind].
  rewrite (app_assoc h opts (pay ++ rest)), (zslice_app (h ++ opts) pay rest) by
    (rewrite ?zlen_app; lia). cbn [rbind].
  rewrite (app_assoc _ mip), (zblit_app ((h ++ opts) ++ mip) B2 B3 pay) by
    (rewrite ?zlen_app, ?Hm12; unfold sizeof_MinimalMobileIpHdr; lia). cbn [rbind].
  rewrite <- !app_assoc, (app_assoc opts mip).
  replace (zlen (h ++ opts) + sizeof_MinimalMobileIpHdr) with (32 + zlen opts)
    by (rewrite zlen_app; unfold sizeof_MinimalMobileIpHdr; lia).
  rewrite rewrite_ip_hdr_ok by first [done | rewrite zlen_app; lia | unfold IPPROTO_MOBILE, is_u8; lia].
  cbn [rbind]. rewrite <- app_assoc. done.
Qed.


(** Rewriting back the fields of a header that was rewritten. *)
Lemma new_hdr_back h n tot p c src dst n0 len proto c0 osrc odst :
  zlen h = 20 -> Forall is_u8 h -> iph_ihl h 0 = Ok (n0 / 4) ->
  rd16 h 2 = Ok (htons len) -> rd8 h 9 = Ok proto ->
  rd32 h 12 = Ok osrc -> rd32 h 16 = Ok odst ->
  new_hdr (new_hdr h n tot p c src dst) n0 len proto c0 osrc odst =
    take 10 h ++ le16 c0 ++ drop 12 h.
Proof.
  intros Hh Hu Hi Hl Hp Hs Hd. explode h 20%nat.
  unfold iph_ihl in Hi. unfold rd32, rd16, rd8 in Hi, Hl, Hp, Hs, Hd.
  cbn in Hi, Hl, Hp, Hs, Hd. injection Hi as Hi. injection Hl as Hl. injection Hp as <-.
  injection Hs as <-. injection Hd as <-. rewrite !Forall_cons_iff in Hu.
  destruct Hu as (H0 & H1 & H2 & H3 & H4 & H5 & H6 & H7 & H8 & H9 & H10 & H11 & H12 & H13 & H14
    & H15 & H16 & H17 & H18 & H19 & _).
  unfold new_hdr. rewrite <- Hl, <- Hi, le16_rd16, !le32_rd32 by done.
  cbn [nth app take drop]. rewrite nibble_hi, <- Z.land_assoc.
  change (Z.land 15 15) with 0xF. by rewrite nibbles_id.
Qed.

Lemma land_small v : 0 <= v < 16 -> Z.land v 0xF = v.
Proof. intros. change 0xF with (Z.ones 4). rewrite Z.land_ones by lia. lia. Qed.

(** What [minimal_mip_decap] makes of an encapsulated packet. *)
Lemma decap_ok H opts mip pay rest' buf L proto osrc odst :
  zlen H = 20 -> zlen mip = 12 -> iph_ihl H 0 = Ok (8 + zlen opts / 4) -> zlen opts mod 4 = 0 ->
  L = 20 + zlen opts + zlen pay -> L <= zlen (data buf) ->
  is_u8 proto -> rd8 mip 0 = Ok proto -> rd32 mip 4 = Ok odst -> rd32 mip 8 = Ok osrc ->
  let n0 := 20 + zlen opts in
  let ck := calc_ip_checksum (new_hdr H n0 L proto 0 osrc odst ++ opts) in
  exists rest2,
  minimal_mip_decap {| pkt_length := 12 + L; data := H ++ opts ++ mip ++ pay ++ rest' |} buf =
    Ok {| pkt_length := L; data := new_hdr H n0 L proto ck osrc odst ++ opts ++ pay ++ rest2 |}.
Proof.
  intros HH Hm Hi Ho HL Hbuf Hp Ep Ed Es n0 ck.
  pose proof (zlen_nonneg opts). pose proof (zlen_nonneg pay).
  destruct (zcut (data buf) n0) as (D0 & D' & ED & HD0); [lia|].
  destruct (zcut D' (zlen pay)) as (D1 & D2 & ED' & HD1); [rewrite ED, zlen_app in Hbuf; lia|].
  exists D2. unfold minimal_mip_decap, iph_ihl in *. cbn [data NetUtil.pkt_length].
  rewrite (rd8_app H) by lia. rewrite Hi. cbn [rbind].
  replace ((8 + zlen opts / 4) * 4 - sizeof_MinimalMobileIpHdr) with (zlen (H ++ opts))
    by (rewrite zlen_app; unfold sizeof_MinimalMobileIpHdr; lia).
  unfold memcpy. rewrite (app_assoc H opts). rewrite (zslice_prefix _ (H ++ opts) (mip ++ pay ++ rest'))
    by done. cbn [rbind]. rewrite ED, ED', zblit_prefix by (rewrite zlen_app; lia). cbn [rbind].
  pose proof (rd8_shift (H ++ opts) (mip ++ pay ++ rest') 0 ltac:(lia)) as R. rewrite Z.add_0_r in R.
  rewrite R, !rd32_shift, (rd8_app mip), !(rd32_app mip) by lia. clear R.
  rewrite Ep, Es, Ed. cbn [rbind].
  replace (12 + L - sizeof_MinimalMobileIpHdr) with L by (unfold sizeof_MinimalMobileIpHdr; lia).
  rewrite <- (app_assoc H opts). rewrite rewrite_ip_hdr_ok by (done || rewrite ?zlen_app; lia).
  replace (zlen (H ++ opts)) with n0 by (rewrite zlen_app; lia). cbn [rbind].
  fold ck. set (H' := new_hdr _ _ _ _ _ _ _). assert (HH' : zlen H' = 20) by (by apply zlen_new_hdr).
  rewrite (app_assoc (H ++ opts)), (zslice_app ((H ++ opts) ++ mip) pay rest') by
    (rewrite ?zlen_app; lia). cbn [rbind].
  rewrite (app_assoc H'), (zblit_app (H' ++ opts)) by (rewrite ?zlen_app; lia).
  cbn [rbind]. by rewrite <- app_assoc.
Qed.

(** The header functions keep the size of the block. *)
Ltac same_size :=
  repeat match goal with
  | H : rbind _ _ = Ok _ |- _ => apply rbind_ok in H as (? & ? & ?)
  | H : wr8 _ _ _ = Ok _ |- _ => apply zlen_zblit in H
  | H : wr16 _ _ _ = Ok _ |- _ => apply zlen_zblit in H
  | H : wr32 _ _ _ = Ok _ |- _ => apply zlen_zblit in H
  | H : zblit _ _ _ = Ok _ |- _ => apply zlen_zblit in H
  end.

Lemma zlen_rewrite_ip_hdr b proto n tot src dst b' :
  rewrite_ip_hdr b proto n tot src dst = Ok b' -> zlen b' = zlen b.
Proof. unfold rewrite_ip_hdr, set_ihl. intros H. same_size. congruence. Qed.

Lemma zlen_decap e buf d : minimal_mip_decap e buf = Ok d -> zlen (data d) = zlen (data buf).
Proof.
  unfold minimal_mip_decap, memcpy. intros H. same_size. inv_ok. cbn [data].
  repeat match goal with H : rewrite_ip_hdr _ _ _ _ _ _ = Ok _ |- _ => apply zlen_rewrite_ip_hdr in H end.
  congruence.
Qed.

(** The checksum of a sealed header is the one a rewriting computes. *)
Lemma sealed_fix h opts :
  zlen h = 20 -> Forall is_u8 h ->
  rd16 h 10 = Ok (calc_ip_checksum (take 10 h ++ [0; 0] ++ drop 12 h ++ opts)) ->
  take 10 h ++ le16 (calc_ip_checksum (take 10 h ++ [0; 0] ++ drop 12 h ++ opts)) ++ drop 12 h = h.
Proof.
  generalize (calc_ip_checksum (take 10 h ++ [0; 0] ++ drop 12 h ++ opts)).
  intros c Hh Huh Hsc. explode h 20%nat. unfold rd16, rd8 in Hsc. cbn in Hsc.
  injection Hsc as <-. rewrite !Forall_cons_iff in Huh. cbn [take drop].
  by rewrite le16_rd16 by apply Huh.
Qed.

Lemma mip_transit pkt buf h opts pay rest src dst :
  ip_packet pkt h opts pay rest -> ip_sealed pkt h opts -> zlen opts <= 28 ->
  pkt_length pkt + 12 <= PKT_DATA_SIZE -> zlen (data buf) = PKT_DATA_SIZE ->
  is_u32 src -> is_u32 dst ->
  exists e oh mip rest1,
    minimal_mip_encap pkt buf src dst = Ok e /\
    pkt_length e = pkt_length pkt + 12 /\ data e = oh ++ opts ++ mip ++ pay ++ rest1 /\
    ip_hdr_reads oh (8 + zlen opts / 4) (pkt_length pkt + 12) IPPROTO_MOBILE src dst /\
    zlen oh = 20 /\ zlen mip = 12 /\ calc_ip_checksum (oh ++ opts ++ mip) = 0 /\
    calc_ip_checksum mip = 0 /\
    forall rest' buf2, zlen (data buf2) = PKT_DATA_SIZE -> exists rest2,
      minimal_mip_decap {| pkt_length := pkt_length e; data := oh ++ opts ++ mip ++ pay ++ rest' |}
        buf2 = Ok {| pkt_length := pkt_length pkt; data := h ++ opts ++ pay ++ rest2 |}.
Proof.
  intros Hpkt [Hsl Hsc] Hopts Hroom Hbuf Hsrc Hdst.
  destruct (encap_ok pkt h opts pay rest buf src dst) as (proto & osrc & odst & mip & rest1 &
    Ep & Es & Ed & Hp & Hos & Hod & Hm & Hmu & Emp & Emd & Ems & Hmc & E); [done..|].
  cbv zeta in E. destruct Hpkt as [Hd Hl Hsz Hh Hu Hihl Ho].
  apply Forall_app in Hu as [Huh Huo]. rewrite !zlen_app in Hl. pose proof (zlen_nonneg opts).
  pose proof (zlen_nonneg pay).
  set (n := 32 + zlen opts) in *. set (ck := calc_ip_checksum _) in E.
  set (oh := new_hdr h n (pkt_length pkt + 12) IPPROTO_MOBILE ck src dst) in *.
  assert (Hn : Z.land (n / 4) 0xF = n / 4) by (apply land_small; lia).
  assert (Hmob : is_u8 IPPROTO_MOBILE) by (unfold is_u8, IPPROTO_MOBILE; lia).
  assert (Hr : ip_hdr_reads oh (8 + zlen opts / 4) (pkt_length pkt + 12) IPPROTO_MOBILE src dst).
  { replace (8 + zlen opts / 4) with (n / 4) by lia. by apply new_hdr_reads. }
  eexists _, oh, mip, rest1. split; [exact E|]. cbn [data NetUtil.pkt_length]. split; [lia|].
  do 2 (split; [done|]). split; [by apply zlen_new_hdr|]. split; [done|]. split; [|split; [done|]].
  { apply new_hdr_checksum; try done. by apply Forall_app. }
  intros rest' buf2 Hbuf2.
  destruct (decap_ok oh opts mip pay rest' buf2 (pkt_length pkt) proto osrc odst)
    as (rest2 & Edec); try done; [by apply zlen_new_hdr|apply Hr|lia|lia|].
  assert (Hback : forall c, new_hdr oh (20 + zlen opts) (pkt_length pkt) proto c osrc odst =
                            take 10 h ++ le16 c ++ drop 12 h).
  { intros c. apply new_hdr_back; try done. rewrite Hihl. f_equal. lia. }
  rewrite !Hback in Edec. change (le16 0) with [0; 0] in Edec. rewrite <- !app_assoc in Edec.
  pose proof (f_equal (fun l => l ++ opts ++ pay ++ rest2) (sealed_fix h opts Hh Huh Hsc)) as Hfix.
  cbv beta in Hfix. rewrite <- !app_assoc in Hfix. rewrite Hfix in Edec. by exists rest2.
Qed.

(** C38: Minimal encapsulation (RFC 2004) is transparent: for every sealed packet
    with at most 28 bytes of options that leaves room for the 12 bytes of the
    forwarding header, [minimal_mip_encap] succeeds whatever is in its
    uninitialised buffer; the result is 12 bytes longer, its IP header is
    addressed from the encapsulating node to the next hop with protocol 55, and
    both its checksums verify.  [minimal_mip_decap] gives the packet back byte for
    byte, wherever the encapsulated one was received. *)
Theorem mip_roundtrip (pkt buf : PacketBuf) (h opts pay rest : list Z) (src dst : Z)
  (Hpkt : ip_packet pkt h opts pay rest) (Hseal : ip_sealed pkt h opts)
  (Hopts : zlen opts <= 28) (Hroom : pkt_length pkt + 12 <= PKT_DATA_SIZE)
  (Hbuf : zlen (data buf) = PKT_DATA_SIZE) (Hsrc : is_u32 src) (Hdst : is_u32 dst) :
  exists e oh mip rest1,
    minimal_mip_encap pkt buf src dst = Ok e /\
    pkt_length e = pkt_length pkt + 12 /\ data e = oh ++ opts ++ mip ++ pay ++ rest1 /\
    ip_hdr_reads oh (8 + zlen opts / 4) (pkt_length pkt + 12) IPPROTO_MOBILE src dst /\
    zlen oh = 20 /\ zlen mip = 12 /\ calc_ip_checksum (oh ++ opts ++ mip) = 0 /\
    calc_ip_checksum mip = 0 /\
    forall rest' buf2, zlen (data buf2) = PKT_DATA_SIZE -> exists rest2,
      minimal_mip_decap {| pkt_length := pkt_length e; data := oh ++ opts ++ mip ++ pay ++ rest' |}
        buf2 = Ok {| pkt_length := pkt_length pkt; data := h ++ opts ++ pay ++ rest2 |}.
Proof. by eapply mip_transit. Qed.

(** A packet of 24 bytes from 192.168.1.2 to 192.168.2.2, relayed to 192.168.3.2. *)
Definition ex_hdr : list Z :=
  [0x45; 0; 0; 24; 0; 0; 0; 0; 64; 17; 0xf6; 0x80; 192; 168; 1; 2; 192; 168; 2; 2].
Definition ex_buf : PacketBuf := {| pkt_length := 0; data := repeat 0xcc 2050 |}.
Definition ex_pkt : PacketBuf :=
  {| pkt_length := 24; data := ex_hdr ++ [1; 2; 3; 4] ++ repeat 0xcc 2026 |}.

Lemma mip_roundtrip_witness :
  exists e oh mip rest1,
    minimal_mip_encap ex_pkt ex_buf 0x0201a8c0 0x0203a8c0 = Ok e /\
    pkt_length e = 24 + 12 /\ data e = oh ++ [] ++ mip ++ [1; 2; 3; 4] ++ rest1 /\
    ip_hdr_reads oh (8 + 0 / 4) (24 + 12) IPPROTO_MOBILE 0x0201a8c0 0x0203a8c0 /\
    zlen oh = 20 /\ zlen mip = 12 /\ calc_ip_checksum (oh ++ [] ++ mip) = 0 /\
    calc_ip_checksum mip = 0 /\
    forall rest' buf2, zlen (data buf2) = PKT_DATA_SIZE -> exists rest2,
      minimal_mip_decap {| pkt_length := pkt_length e; data := oh ++ [] ++ mip ++ [1; 2; 3; 4] ++ rest' |}
        buf2 = Ok {| pkt_length := 24; data := ex_hdr ++ [] ++ [1; 2; 3; 4] ++ rest2 |}.
Proof.
  apply (mip_roundtrip ex_pkt ex_buf ex_hdr [] [1; 2; 3; 4] (repeat 0xcc 2026));
    [constructor; try reflexivity | constructor; vm_compute; reflexivity
    | unfold zlen; cbn; lia | vm_compute; discriminate | vm_compute; reflexivity
    | unfold is_u32; lia | unfold is_u32; lia].
  unfold ex_hdr. cbn [app]. repeat constructor; discriminate.
Defined.

(** ** Address classes *)
Lemma mask_c_class x : is_u32 x -> Z.land x 0xffffff00 = 256 * (x / 256).
Proof.
  intros Hx. change 0xffffff00 with (Z.ldiff (Z.ones 32) (Z.ones 8)).
  rewrite Z.ldiff_land, Z.land_assoc, Z.land_ones, <- Z.ldiff_land, Z.ldiff_ones_r by lia.
  rewrite Z.mod_small by (unfold is_u32 in Hx; lia).
  rewrite Z.shiftl_mul_pow2, Z.shiftr_div_pow2 by lia. change (2 ^ 8) with 256. lia.
Qed.

(** On the little-endian host the program is written for, the class C test
    of two addresses in network order compares their last three octets and
    ignores the first: it accepts only a node's own address (up to its first
    octet), not its /24 network. *)
Theorem IP_C_CLASS_MATCH_octets (a1 a2 a3 a4 b1 b2 b3 b4 : Z) :
  IP_C_CLASS_MATCH (MAKE_BE32_IP a1 a2 a3 a4) (MAKE_BE32_IP b1 b2 b3 b4) =
  (u8 a2 =? u8 b2) && (u8 a3 =? u8 b3) && (u8 a4 =? u8 b4).
Proof.
  unfold IP_C_CLASS_MATCH, MAKE_BE32_IP.
  pose proof (u8_range a1). pose proof (u8_range a2). pose proof (u8_range a3).
  pose proof (u8_range a4). pose proof (u8_range b1). pose proof (u8_range b2).
  pose proof (u8_range b3). pose proof (u8_range b4).
  generalize dependent (u8 a1). generalize dependent (u8 a2). generalize dependent (u8 a3).
  generalize dependent (u8 a4). generalize dependent (u8 b1). generalize dependent (u8 b2).
  generalize dependent (u8 b3). generalize dependent (u8 b4). unfold is_u8. intros.
  rewrite !mask_c_class by (unfold is_u32; lia). bool_lia.
Qed.
