(* ===== verification/CJson.v ===== *)
(** JSON values as the cJSON library keeps them (ext/cjson/cJSON.h), and the
    functions that look into them (ext/cjson/cJSON.c).

    The [next] chain of the children of an array or object is the list [child];
    a missing item (a null pointer) is [None].  A string is the block of bytes that
    holds it, without the final zero; [c_str] is the part a C function reads. *)
From S2P Require Import Prelude.
From stdpp Require Import base list numbers.
From Stdlib Require Import ZArith Lia SpecFloat Ascii String.
Open Scope Z_scope.
Open Scope c_scope.

(** ** C strings *)
Fixpoint cstr (s : String.string) : list Z :=
  match s with
  | EmptyString => []
  | String c s' => Z.of_N (N_of_ascii c) :: cstr s'
  end.
Definition quote : Z := 34.
Definition quoted (s : String.string) : list Z := quote :: cstr s ++ [quote].

Fixpoint c_str (b : list Z) : list Z :=
  match b with
  | [] => []
  | c :: b' => if c =? 0 then [] else c :: c_str b'
  end.
Definition strlen (b : list Z) : Z := zlen (c_str b).
Definition streq (a b : list Z) : bool := bool_decide (c_str a = c_str b).

(** [tolower] in the C locale. *)
Definition tolower (c : Z) : Z := if (65 <=? c) && (c <=? 90) then c + 32 else c.

(** ** Doubles *)
Abbreviation double := spec_float.
Definition double_of_int (z : Z) : double := binary_normalize 53 1024 z 0 false.

(** Conversion to an integer type: the truncated value, nothing for what has none. *)
Definition double_trunc (d : double) : option Z :=
  match d with
  | S754_zero _ => Some 0
  | S754_finite s m e =>
    let a := if 0 <=? e then Z.pos m * 2 ^ e else Z.pos m / 2 ^ (- e) in
    Some (if s then - a else a)
  | _ => None
  end.
Definition double_to_u32 (d : double) : res Z :=
  let* z := deref (double_trunc d) in
  if (0 <=? z) && (z <? 2 ^ 32) then Ok z else UB.

(** ** The node *)
Definition cJSON_Invalid : Z := 0.
Definition cJSON_False : Z := 1.
Definition cJSON_True : Z := 2.
Definition cJSON_NULL : Z := 4.
Definition cJSON_Number : Z := 8.
Definition cJSON_String : Z := 16.
Definition cJSON_Array : Z := 32.
Definition cJSON_Object : Z := 64.
Definition cJSON_Raw : Z := 128.

Inductive cJSON : Type := mkItem {
  child : list cJSON;
  ctype : Z;
  valuestring : option (list Z);
  valueint : Z;
  valuedouble : double;
  item_string : option (list Z)
}.

(** Induction over an item and its children. *)
Lemma cJSON_children_ind (P : cJSON -> Prop) : (forall i, Forall P (child i) -> P i) -> forall i, P i.
Proof. intros HP. fix IH 1. intros [l t vs n v s]. apply HP. cbn. exact (list_ind (Forall P) (Forall_nil_2 P) (fun c l' IHl => Forall_cons_2 P c l' (IH c) IHl) l). Qed.

Definition cJSON_New_Item : cJSON := mkItem [] cJSON_Invalid None 0 (S754_zero false) None.

(** ** Type tests *)
Definition is_type (t : Z) (item : option cJSON) : bool :=
  match item with None => false | Some i => Z.land (ctype i) 255 =? t end.
Definition cJSON_IsNumber : option cJSON -> bool := is_type cJSON_Number.
Definition cJSON_IsString : option cJSON -> bool := is_type cJSON_String.
Definition cJSON_IsArray : option cJSON -> bool := is_type cJSON_Array.
Definition cJSON_IsObject : option cJSON -> bool := is_type cJSON_Object.
Definition cJSON_IsInvalid : option cJSON -> bool := is_type cJSON_Invalid.
Definition cJSON_IsFalse : option cJSON -> bool := is_type cJSON_False.
Definition cJSON_IsTrue : option cJSON -> bool := is_type cJSON_True.
Definition cJSON_IsNull : option cJSON -> bool := is_type cJSON_NULL.
Definition cJSON_IsRaw : option cJSON -> bool := is_type cJSON_Raw.
Definition cJSON_IsBool (item : option cJSON) : bool :=
  match item with None => false | Some i => negb (Z.land (ctype i) (Z.lor cJSON_True cJSON_False) =? 0) end.
Definition cJSON_GetStringValue (item : option cJSON) : option (list Z) :=
  if cJSON_IsString item then i ← item; valuestring i else None.
Definition cJSON_GetNumberValue (item : option cJSON) : double :=
  match item with
  | Some i => if cJSON_IsNumber item then valuedouble i else S754_nan
  | None => S754_nan
  end.

(** ** Access *)

(** [case_insensitive_strcmp] of two strings that are there. *)
Fixpoint case_insensitive_strcmp (s1 s2 : list Z) : Z :=
  match s1, s2 with
  | [], [] => 0
  | [], c2 :: _ => 0 - tolower c2
  | c1 :: _, [] => tolower c1 - 0
  | c1 :: r1, c2 :: r2 =>
    if tolower c1 =? tolower c2 then case_insensitive_strcmp r1 r2 else tolower c1 - tolower c2
  end.

(** The two searches: the first stops at a child without a name, the second passes
    over it. *)
Fixpoint find_case_sensitive (l : list cJSON) (name : list Z) : option cJSON :=
  match l with
  | [] => None
  | e :: l' =>
    match item_string e with
    | None => None
    | Some s => if streq name s then Some e else find_case_sensitive l' name
    end
  end.
Fixpoint find_case_insensitive (l : list cJSON) (name : list Z) : option cJSON :=
  match l with
  | [] => None
  | e :: l' =>
    match item_string e with
    | Some s =>
      if case_insensitive_strcmp (c_str name) (c_str s) =? 0 then Some e
      else find_case_insensitive l' name
    | None => find_case_insensitive l' name
    end
  end.
Definition get_object_item (object : option cJSON) (name : list Z) (case_sensitive : bool)
  : option cJSON :=
  match object with
  | None => None
  | Some o =>
    if case_sensitive then find_case_sensitive (child o) name
    else find_case_insensitive (child o) name
  end.
Definition cJSON_GetObjectItem (object : option cJSON) (name : list Z) : option cJSON :=
  get_object_item object name false.
Definition cJSON_GetObjectItemCaseSensitive (object : option cJSON) (name : list Z) : option cJSON :=
  get_object_item object name true.

(** The items [cJSON_ArrayForEach] visits. *)
Definition cJSON_items (array : option cJSON) : list cJSON :=
  match array with None => [] | Some a => child a end.
Definition cJSON_GetArraySize (array : option cJSON) : Z := i32 (zlen (cJSON_items array)).
Definition cJSON_GetArrayItem (array : option cJSON) (index : Z) : option cJSON :=
  if index <? 0 then None else cJSON_items array !! Z.to_nat index.

(** Items of examples. *)
Definition ex_number (name : String.string) (n : Z) : cJSON :=
  mkItem [] cJSON_Number None n (double_of_int n) (Some (cstr name)).
Definition ex_array (items : list cJSON) : cJSON := mkItem items cJSON_Array None 0 (S754_zero false) None.
Definition ex_named (name : String.string) (i : cJSON) : cJSON :=
  mkItem (child i) (ctype i) (valuestring i) (valueint i) (valuedouble i) (Some (cstr name)).
Definition ex_object (items : list cJSON) : cJSON := mkItem items cJSON_Object None 0 (S754_zero false) None.
