(* ===== verification/CFormat.v ===== *)
(** Numbers as text: what the code uses of the C library.  [%d] and [%u] of 32-bit
    numbers, [%.Pg] of a [double] and [strtod], in the C locale.

    Doubles are the values of the IEEE formats of the Standard Library; [strtod]
    rounds the exact decimal value to the nearest double.  Of its input it knows the
    decimal form (sign, digits, point, exponent), which is all its caller gives it. *)
From S2P Require Import Prelude CJson.
From Stdlib Require Import Ascii String.
From stdpp Require Import base list numbers.
From Stdlib Require Import List ZArith Lia SpecFloat.
Open Scope Z_scope.
Open Scope c_scope.

(** ** Decimal numbers: [%u], and [%d] of an [int] *)
Fixpoint digits (fuel : nat) (z : Z) (acc : list Z) : list Z :=
  match fuel with
  | O => acc
  | S n => let acc := 48 + z mod 10 :: acc in if z / 10 =? 0 then acc else digits n (z / 10) acc
  end.
(** A 32-bit number has at most ten digits. *)
Definition print_u (z : Z) : list Z := digits 10 (u32 z) [].
Definition print_d (z : Z) : list Z :=
  if i32 z <? 0 then 45 :: print_u (- i32 z) else print_u (i32 z).

(** [sprintf] into a buffer of [size] bytes of which [len] are used. *)
Definition fits_buf (size : Z) (b : list Z) : res (list Z) := if zlen b <? size then Ok b else UB.

(** ** [strtod]: the value and the number of characters used, 0 for none *)
Definition is_digit (c : Z) : bool := (48 <=? c) && (c <=? 57).

Fixpoint take_digits (l : list Z) (m n : Z) : Z * Z * list Z :=
  match l with
  | c :: l' => if is_digit c then take_digits l' (m * 10 + (c - 48)) (n + 1) else (m, n, l)
  | [] => (m, n, [])
  end.
Definition take_sign (l : list Z) : bool * Z * list Z :=
  match l with
  | c :: l' => if c =? 45 then (true, 1, l') else if c =? 43 then (false, 1, l') else (false, 0, l)
  | [] => (false, 0, [])
  end.
(** The exponent is read only when it has a digit. *)
Definition take_exponent (l : list Z) : Z * Z :=
  match l with
  | c :: l' =>
    if (c =? 101) || (c =? 69) then
      let '(neg, k, r) := take_sign l' in
      let '(e, n, _) := take_digits r 0 0 in
      if n =? 0 then (0, 0) else (if neg then - e else e, 1 + k + n)
    else (0, 0)
  | [] => (0, 0)
  end.
Definition take_fraction (l : list Z) (m : Z) : Z * Z * Z * list Z :=
  match l with
  | c :: l' =>
    if c =? 46 then let '(m, f, r) := take_digits l' m 0 in (m, f, 1 + f, r) else (m, 0, 0, l)
  | [] => (m, 0, 0, [])
  end.

(** The double nearest to [m * 10 ^ e10], with the sign; exponents for which every
    value overflows or underflows are cut off. *)
Definition decimal_double (neg : bool) (m e10 : Z) : double :=
  if m =? 0 then S754_zero neg
  else if 1000 <? e10 then S754_infinity neg
  else if 0 <=? e10 then binary_normalize 53 1024 ((if neg then -1 else 1) * (m * 10 ^ e10)) 0 neg
  else if e10 <? -1000 then S754_zero neg
  else
    let '(mz, ez, lz) := SFdiv_core_binary 53 1024 m 0 (10 ^ (- e10)) 0 in
    binary_round_aux 53 1024 neg mz ez lz.

Definition strtod (l : list Z) : double * Z :=
  let '(neg, k, r) := take_sign l in
  let '(m, n, r) := take_digits r 0 0 in
  let '(m, f, x, r) := take_fraction r m in
  if n + f =? 0 then (S754_zero false, 0)
  else let '(e, y) := take_exponent r in (decimal_double neg m (e - f), k + n + x + y).

(** ** [%.Pg] of a double that is not infinite and a number *)

(** The greatest [x] from [x0] down with [10 ^ x <= n / d]; [print_g] starts at an
    estimate by the binary logarithm that is at most two too great. *)
Fixpoint decimal_exponent (fuel : nat) (n d x : Z) : Z :=
  match fuel with
  | O => x
  | S k => if (if 0 <=? x then d * 10 ^ x <=? n else d <=? n * 10 ^ (- x)) then x
           else decimal_exponent k n d (x - 1)
  end.
(** [n / d] to the nearest integer, ties to even. *)
Definition round_div (n d : Z) : Z :=
  let q := n / d in let r := n mod d in
  match 2 * r ?= d with Lt => q | Gt => q + 1 | Eq => if Z.even q then q else q + 1 end.

Fixpoint strip_zeros (rev_digits : list Z) : list Z :=
  match rev_digits with
  | c :: l => if c =? 48 then strip_zeros l else rev_digits
  | [] => []
  end.
Definition fraction (ds : list Z) : list Z :=
  match rev (strip_zeros (rev ds)) with [] => [] | l => 46 :: l end.
Definition print_exp (x : Z) : list Z :=
  101 :: (if x <? 0 then 45 else 43) :: (if Z.abs x <? 10 then [48] else []) ++ print_u (Z.abs x).

(** The [prec] digits [q] of a value with decimal exponent [x]. *)
Definition layout_g (prec x : Z) (ds : list Z) : list Z :=
  if (-4 <=? x) && (x <? prec) then
    if 0 <=? x then take (Z.to_nat (x + 1)) ds ++ fraction (drop (Z.to_nat (x + 1)) ds)
    else 48 :: fraction (replicate (Z.to_nat (- x - 1)) 48 ++ ds)
  else take 1 ds ++ fraction (drop 1 ds) ++ print_exp x.

Definition print_g (prec : Z) (v : double) : list Z :=
  match v with
  | S754_zero s => if s then [45; 48] else [48]
  | S754_finite s m e =>
    let n := if 0 <=? e then Z.pos m * 2 ^ e else Z.pos m in
    let d := if 0 <=? e then 1 else 2 ^ (- e) in
    let x := decimal_exponent 4 n d ((Z.log2 n - Z.log2 d + 1) * 30103 / 100000 + 1) in
    let p := prec - 1 - x in
    let q := if 0 <=? p then round_div (n * 10 ^ p) d else round_div n (d * 10 ^ (- p)) in
    let '(q, x) := if q =? 10 ^ prec then (10 ^ (prec - 1), x + 1) else (q, x) in
    (if s then [45] else []) ++ layout_g prec x (digits (Z.to_nat prec) q [])
  | S754_infinity s => (if s then [45] else []) ++ cstr "inf"
  | S754_nan => cstr "nan"
  end.

Example ex_strtod :
  strtod (cstr "-12.5e1") = (double_of_int (-125), 7) /\ strtod (cstr "3.e") = (double_of_int 3, 2) /\
  snd (strtod (cstr "-")) = 0 /\ fst (strtod (cstr "1e999")) = S754_infinity false.
Proof. by vm_compute. Qed.
Example ex_print_g :
  map (fun s => print_g 15 (fst (strtod (cstr s)))) ["0.1"; "1e300"; "-2.5e-7"; "123456.75"; "99999999999999999"]%string =
  map cstr ["0.1"; "1e+300"; "-2.5e-07"; "123456.75"; "1e+17"]%string /\
  print_g 17 (fst (strtod (cstr "0.1"))) = cstr "0.10000000000000001" /\
  print_g 17 (fst (strtod (cstr "5e-324"))) = cstr "4.9406564584124654e-324".
Proof. by vm_compute. Qed.

(** ** Rounded doubles: never a NaN, the mantissa has at most 53 bits, and the
    exponent is that of the format *)
Definition double_ok (d : double) : Prop :=
  match d with S754_nan => False | S754_finite _ m e => Z.pos m < 2 ^ 53 /\ -1074 <= e <= 971 | _ => True end.

Lemma shr_1_m r : 0 <= shr_m r -> shr_m (shr_1 r) = shr_m r / 2 /\ 0 <= shr_m (shr_1 r).
Proof. destruct r as [[|[p|p|]|p] r s]; cbn; lia. Qed.
Lemma div_pow m a b : 0 <= a -> 0 <= b -> m / 2 ^ a / 2 ^ b = m / 2 ^ (a + b).
Proof. intros Ha Hb. rewrite Z.div_div by lia. by rewrite Z.pow_add_r. Qed.
Lemma iter_shr p : forall r, 0 <= shr_m r ->
  shr_m (iter_pos shr_1 p r) = shr_m r / 2 ^ Z.pos p /\ 0 <= shr_m (iter_pos shr_1 p r).
Proof.
  induction p as [p IH|p IH|]; intros r Hr; cbn [iter_pos]; [| |by apply shr_1_m].
  - destruct (shr_1_m r Hr) as [E0 H0]. destruct (IH _ H0) as [E1 H1]. destruct (IH _ H1) as [E2 H2].
    split; [|done]. rewrite E2, E1, E0. change (shr_m r / 2) with (shr_m r / 2 ^ 1). rewrite !div_pow by lia. do 2 f_equal. lia.
  - destruct (IH _ Hr) as [E1 H1]. destruct (IH _ H1) as [E2 H2].
    split; [|done]. rewrite E2, E1, div_pow by lia. do 2 f_equal. lia.
Qed.

Lemma shr_m_of_loc m l : shr_m (shr_record_of_loc m l) = m.
Proof. by destruct l as [|[]]. Qed.

Lemma Zdigits2_bound m : 0 <= m -> m < 2 ^ Zdigits2 m /\ 0 <= Zdigits2 m.
Proof.
  destruct m as [|p|p]; cbn [Zdigits2]; [lia| |lia]. intros _. split; [|lia].
  induction p as [p IH|p IH|]; cbn [digits2_pos]; rewrite ?Pos2Z.inj_succ, ?Z.pow_succ_r by lia; lia.
Qed.

Lemma shr_fexp_ok m e l : 0 <= m -> 0 <= shr_m (fst (shr_fexp 53 1024 m e l)) < 2 ^ 53.
Proof.
  intros Hm. unfold shr_fexp, shr, fexp, SpecFloat.emin. pose proof (Zdigits2_bound m Hm) as [Hd Hd0].
  set (k := Z.max _ _ - e). destruct k as [|p|p] eqn:Ek; cbn [fst].
  - rewrite shr_m_of_loc. split; [done|]. apply Z.lt_le_trans with (1 := Hd). apply Z.pow_le_mono_r; lia.
  - destruct (iter_shr p (shr_record_of_loc m l)) as [E H]; rewrite shr_m_of_loc in *; [done|]. rewrite E in *. split; [done|].
    apply Z.div_lt_upper_bound; [lia|]. rewrite <- Z.pow_add_r by lia. apply Z.lt_le_trans with (1 := Hd).
    apply Z.pow_le_mono_r; lia.
  - rewrite shr_m_of_loc. split; [done|]. apply Z.lt_le_trans with (1 := Hd). apply Z.pow_le_mono_r; lia.
Qed.

Lemma shr_fexp_exponent m e l : -1074 <= snd (shr_fexp 53 1024 m e l).
Proof.
  unfold shr_fexp, shr, fexp, SpecFloat.emin. set (k := Z.max _ _ - e). destruct k as [|p|p] eqn:Ek; cbn [snd]; lia.
Qed.

Lemma binary_round_aux_ok s m e l : 0 <= m -> double_ok (binary_round_aux 53 1024 s m e l).
Proof.
  intros Hm. unfold binary_round_aux. pose proof (shr_fexp_ok m e l Hm) as H1. destruct (shr_fexp 53 1024 m e l) as [r e1].
  cbn [fst] in H1. set (q := round_nearest_even _ _).
  assert (Hq : 0 <= q) by (unfold q, round_nearest_even; destruct (loc_of_shr_record r) as [|[]]; try destruct (Z.even _); lia).
  pose proof (shr_fexp_ok q e1 loc_Exact Hq) as H2. destruct (shr_fexp 53 1024 q e1 loc_Exact) as [r2 e2] eqn:E2. cbn [fst] in H2.
  pose proof (shr_fexp_exponent q e1 loc_Exact) as H3. rewrite E2 in H3. cbn [snd] in H3.
  destruct (shr_m r2); [done| |lia]. destruct (Z.leb_spec e2 (1024 - 53)); [|done]. split; [by apply H2|lia].
Qed.
Lemma binary_normalize_ok m e s : double_ok (binary_normalize 53 1024 m e s).
Proof.
  destruct m; cbn [binary_normalize]; [done| |]; unfold binary_round; destruct (shl_align _ _ _); by apply binary_round_aux_ok.
Qed.
Lemma decimal_double_ok neg m e10 : 0 <= m -> double_ok (decimal_double neg m e10).
Proof.
  intros Hm. unfold decimal_double. destruct (m =? 0); [done|]. destruct (1000 <? e10); [done|].
  destruct (Z.leb_spec 0 e10); [apply binary_normalize_ok|]. destruct (e10 <? -1000); [done|]. unfold SFdiv_core_binary.
  set (k := Z.sub _ _). set (m' := match k with Z0 => m | Zpos _ => _ | Zneg _ => 0 end).
  assert (Hm' : 0 <= m') by (unfold m'; destruct k; rewrite ?Z.shiftl_nonneg; lia).
  pose proof (Z.div_pos m' (10 ^ (- e10)) Hm') as Hq. unfold Z.div in Hq. destruct (Z.div_eucl m' (10 ^ (- e10))) as [q r].
  apply binary_round_aux_ok. apply Hq. apply Z.pow_pos_nonneg; lia.
Qed.

(** ** What [strtod] uses *)
Lemma take_digits_ok l : forall m n, let '(m', n', r) := take_digits l m n in
  n <= n' /\ n' + zlen r = n + zlen l /\ (0 <= m -> 0 <= m').
Proof.
  induction l as [|c l IH]; intros m n; cbn [take_digits]; [lia|].
  destruct (is_digit c) eqn:E; [|lia]. specialize (IH (m * 10 + (c - 48)) (n + 1)). destruct (take_digits l _ _) as [[m' n'] r].
  rewrite zlen_cons. destruct IH as (H1 & H2 & H3). unfold is_digit in E. split; [lia|split; [lia|]]. intros. apply H3. lia.
Qed.
Lemma take_sign_ok l : let '(_, k, r) := take_sign l in 0 <= k /\ k + zlen r = zlen l.
Proof.
  destruct l as [|c l]; [done|]. cbn [take_sign]. destruct (c =? 45); [rewrite zlen_cons; lia|].
  destruct (c =? 43); rewrite ?zlen_cons; lia.
Qed.
Lemma take_exponent_ok l : let '(_, y) := take_exponent l in 0 <= y <= zlen l.
Proof.
  pose proof (zlen_nonneg l). destruct l as [|c l]; [done|]. cbn [take_exponent]. destruct (_ || _); [|lia].
  pose proof (take_sign_ok l) as Hs. destruct (take_sign l) as [[neg k] r].
  pose proof (take_digits_ok r 0 0) as Hd. destruct (take_digits r 0 0) as [[e n] r'].
  pose proof (zlen_nonneg r'). rewrite zlen_cons in *. destruct (n =? 0); lia.
Qed.
Lemma take_fraction_ok l m : 0 <= m -> let '(m', f, x, r) := take_fraction l m in
  0 <= m' /\ 0 <= f <= x /\ x + zlen r = zlen l.
Proof.
  intros Hm. destruct l as [|c l]; [cbn; lia|]. cbn [take_fraction]. destruct (c =? 46); [|lia].
  pose proof (take_digits_ok l m 0) as Hd. destruct (take_digits l m 0) as [[m' f] r]. rewrite zlen_cons. lia.
Qed.

Lemma strtod_ok l : double_ok (fst (strtod l)) /\ 0 <= snd (strtod l) <= zlen l.
Proof.
  unfold strtod. pose proof (take_sign_ok l) as Hs. destruct (take_sign l) as [[neg k] r].
  pose proof (take_digits_ok r 0 0) as Hd. destruct (take_digits r 0 0) as [[m n] r1]. destruct Hd as (H1 & H2 & H3).
  pose proof (take_fraction_ok r1 m (H3 ltac:(lia))) as Hf. destruct (take_fraction r1 m) as [[[m' f] x] r2].
  pose proof (take_exponent_ok r2) as He. destruct (take_exponent r2) as [e y]. pose proof (zlen_nonneg r2).
  destruct (n + f =? 0); cbn [fst snd]; [split; [done|lia]|]. split; [apply decimal_double_ok|]; lia.
Qed.

(** ** Texts without a zero byte *)
Definition text_ok (b : list Z) : Prop := Forall (fun x => x <> 0) b.

Lemma c_str_text b : text_ok b -> c_str b = b.
Proof.
  induction b as [|x b IH]; [done|]. intros [Hx Hb]%Forall_cons_1. cbn. rewrite IH by done.
  by destruct (Z.eqb_spec x 0).
Qed.
Lemma strlen_text b : text_ok b -> strlen b = zlen b.
Proof. intros Hb. unfold strlen. by rewrite c_str_text. Qed.

Lemma text_app a b : text_ok a -> text_ok b -> text_ok (a ++ b).
Proof. intros. by apply Forall_app. Qed.
Lemma text_cons x b : x <> 0 -> text_ok b -> text_ok (x :: b).
Proof. intros. by constructor. Qed.
Lemma text_nil : text_ok [].
Proof. by constructor. Qed.
Lemma text_digits n : forall z acc, 0 <= z -> text_ok acc -> text_ok (digits n z acc).
Proof.
  induction n as [|n IH]; intros z acc Hz Ha; [done|]. cbn.
  assert (text_ok (48 + z mod 10 :: acc)) by (apply text_cons; [lia|done]).
  destruct (Z.eqb_spec (z / 10) 0); [done|]. apply IH; [lia|done].
Qed.
Lemma text_print_u z : text_ok (print_u z).
Proof. apply text_digits; [|apply text_nil]. pose proof (u32_range z) as R. unfold is_u32 in R. lia. Qed.
Lemma text_print_d z : text_ok (print_d z).
Proof. unfold print_d. destruct (_ <? 0); [apply text_cons; [done|]|]; apply text_print_u. Qed.
Ltac is_text := repeat first
  [ done | apply text_print_u | apply text_print_d | apply text_nil
  | apply text_cons; [discriminate|] | apply text_app ].

(** ** The lengths of printed numbers *)
Lemma digits_length n : forall z acc, (length (digits n z acc) <= n + length acc)%nat.
Proof.
  induction n as [|n IH]; intros z acc; cbn [digits]; [lia|].
  destruct (_ =? 0); [cbn [length]; lia|]. specialize (IH (z / 10) (48 + z mod 10 :: acc)). cbn [length] in IH. lia.
Qed.
Lemma zlen_digits n z : zlen (digits n z []) <= Z.of_nat n.
Proof. pose proof (digits_length n z []) as D. unfold zlen. cbn [length] in D. lia. Qed.
Lemma zlen_print_u z : zlen (print_u z) <= 10.
Proof. apply (zlen_digits 10). Qed.
Lemma zlen_print_d z : zlen (print_d z) <= 11.
Proof. unfold print_d. destruct (_ <? 0); rewrite ?zlen_cons; pose proof (zlen_print_u (- i32 z)); pose proof (zlen_print_u (i32 z)); lia. Qed.
Lemma fits_buf_ok n b : zlen b < n -> fits_buf n b = Ok b.
Proof. intros. unfold fits_buf. by bool_lia. Qed.

(** A double is printed within the 26 bytes its caller has for it. *)
Lemma zlen_strip l : zlen (strip_zeros l) <= zlen l.
Proof. induction l as [|c l IH]; [done|]. cbn [strip_zeros]. destruct (c =? 48); rewrite ?zlen_cons; lia. Qed.
Lemma text_strip l : text_ok l -> text_ok (strip_zeros l).
Proof. induction 1 as [|c l Hc Hl IH]; [apply text_nil|]. cbn [strip_zeros]. destruct (c =? 48); [done|]. by constructor. Qed.
Lemma zlen_fraction ds : zlen (fraction ds) <= 1 + zlen ds.
Proof.
  unfold fraction. pose proof (zlen_strip (rev ds)) as Hs. unfold zlen in *. rewrite <- length_rev in Hs.
  rewrite length_rev in Hs. rewrite length_rev in Hs. destruct (rev (strip_zeros (rev ds))) eqn:E; cbn [length]; [lia|].
  apply (f_equal length) in E. rewrite length_rev in E. cbn [length] in E. lia.
Qed.
Lemma text_fraction ds : text_ok ds -> text_ok (fraction ds).
Proof.
  intros Hd. unfold fraction.
  assert (Hr : text_ok (rev (strip_zeros (rev ds)))) by (apply List.Forall_rev, text_strip, List.Forall_rev, Hd).
  destruct (rev _); [done|]. by apply text_cons.
Qed.

Lemma print_u_small z : 0 <= z < 10000 -> zlen (print_u z) <= 4.
Proof.
  intros Hz. unfold print_u. rewrite u32_id by (unfold is_u32; lia). change 10%nat with (4 + 6)%nat.
  cbn [Nat.add digits]. destruct (Z.eqb_spec (z / 10) 0); [rewrite !zlen_cons, zlen_nil; lia|].
  destruct (Z.eqb_spec (z / 10 / 10) 0); [rewrite !zlen_cons, zlen_nil; lia|].
  destruct (Z.eqb_spec (z / 10 / 10 / 10) 0); [rewrite !zlen_cons, zlen_nil; lia|].
  destruct (Z.eqb_spec (z / 10 / 10 / 10 / 10) 0); [rewrite !zlen_cons, zlen_nil; lia|].
  rewrite !Z.div_div in * by lia. cbn in *. lia.
Qed.
Lemma print_exp_ok x : -9999 <= x <= 9999 -> zlen (print_exp x) <= 6 /\ text_ok (print_exp x).
Proof.
  intros Hx. unfold print_exp. split.
  - rewrite !zlen_cons, zlen_app. destruct (Z.ltb_spec (Z.abs x) 10).
    + change (zlen [48]) with 1. assert (zlen (print_u (Z.abs x)) <= 1); [|lia].
      unfold print_u. rewrite u32_id by (unfold is_u32; lia). cbn [digits]. replace (Z.abs x / 10) with 0 by lia. done.
    + rewrite zlen_nil. pose proof (print_u_small (Z.abs x)). lia.
  - apply text_cons; [done|]. apply text_cons; [by destruct (x <? 0)|]. apply text_app; [|apply text_print_u].
    destruct (_ <? 10); [by apply text_cons, text_nil|apply text_nil].
Qed.

Lemma layout_g_ok prec x ds : 0 < prec -> zlen ds <= prec -> text_ok ds -> -9999 <= x <= 9999 ->
  zlen (layout_g prec x ds) <= prec + 7 /\ text_ok (layout_g prec x ds).
Proof.
  intros Hp Hl Ht Hx. pose proof (text_take := fun k => Forall_take _ k ds Ht : text_ok (take k ds)).
  pose proof (text_drop := fun k => Forall_drop _ k ds Ht : text_ok (drop k ds)).
  assert (Hcut : forall k, zlen (take k ds) + zlen (drop k ds) = zlen ds)
    by (intros k; by rewrite <- zlen_app, take_drop).
  unfold layout_g. destruct (Z.leb_spec (-4) x), (Z.ltb_spec x prec); cbn [andb].
  1: destruct (Z.leb_spec 0 x).
  - split; [|by apply text_app, text_fraction]. rewrite zlen_app. pose proof (zlen_fraction (drop (Z.to_nat (x + 1)) ds)).
    specialize (Hcut (Z.to_nat (x + 1))). lia.
  - assert (Hr : zlen (replicate (Z.to_nat (- x - 1)) 48) <= 3) by (unfold zlen; rewrite length_replicate; lia). split.
    + rewrite zlen_cons. pose proof (zlen_fraction (replicate (Z.to_nat (- x - 1)) 48 ++ ds)) as Hf. rewrite zlen_app in Hf. lia.
    + apply text_cons; [done|]. apply text_fraction, text_app; [|done]. by apply Forall_replicate.
  - destruct (print_exp_ok x Hx). split; [|by apply text_app; [|apply text_app; [apply text_fraction|]]].
    rewrite !zlen_app. pose proof (zlen_fraction (drop 1 ds)). specialize (Hcut 1%nat). lia.
  - destruct (print_exp_ok x Hx). split; [|by apply text_app; [|apply text_app; [apply text_fraction|]]].
    rewrite !zlen_app. pose proof (zlen_fraction (drop 1 ds)). specialize (Hcut 1%nat). lia.
  - destruct (print_exp_ok x Hx). split; [|by apply text_app; [|apply text_app; [apply text_fraction|]]].
    rewrite !zlen_app. pose proof (zlen_fraction (drop 1 ds)). specialize (Hcut 1%nat). lia.
Qed.

Lemma decimal_exponent_range k n d : forall x, x - Z.of_nat k <= decimal_exponent k n d x <= x.
Proof.
  induction k as [|k IH]; intros x; cbn [decimal_exponent]; [lia|]. specialize (IH (x - 1)).
  match goal with |- context [if ?b then x else _] => destruct b end; lia.
Qed.
Lemma round_div_nonneg n d : 0 <= n -> 0 < d -> 0 <= round_div n d.
Proof.
  intros Hn Hd. unfold round_div. pose proof (Z.div_pos n d Hn Hd) as Hq. cbv zeta. revert Hq. generalize (n / d). intros q Hq.
  destruct (_ ?= _); [destruct (Z.even _)|..]; lia.
Qed.

(** The scale of a double: numerator and denominator. *)
Lemma scale_ok m e : Z.pos m < 2 ^ 53 -> -1074 <= e <= 971 ->
  let n := if 0 <=? e then Z.pos m * 2 ^ e else Z.pos m in let d := if 0 <=? e then 1 else 2 ^ (- e) in
  0 < n /\ 0 <= Z.log2 n <= 1024 /\ 0 < d /\ 0 <= Z.log2 d <= 1074.
Proof.
  intros Hm He n d. apply Z.log2_lt_pow2 in Hm; [|done]. pose proof (Z.log2_nonneg n). pose proof (Z.log2_nonneg d).
  pose proof (Z.log2_nonneg (Z.pos m)). unfold n, d in *. destruct (Z.leb_spec 0 e).
  - split; [apply Z.mul_pos_pos; [done|]; apply Z.pow_pos_nonneg; lia|]. rewrite Z.log2_mul_pow2 by lia.
    split; [lia|]. by split.
  - split; [done|]. rewrite Z.log2_pow2 by lia. split; [lia|]. split; [apply Z.pow_pos_nonneg; lia|lia].
Qed.

Lemma print_g_ok prec v : prec = 15 \/ prec = 17 -> double_ok v -> zlen (print_g prec v) < 26 /\ text_ok (print_g prec v).
Proof.
  intros Hprec Hv. destruct v as [s|s| |s m e]; [| |done|].
  1,2: destruct s; (split; [done|repeat first [apply text_nil | apply text_cons; [discriminate|]]]).
  destruct Hv as [Hm He]. cbn [print_g]. pose proof (scale_ok m e Hm He) as Hs. cbv zeta in Hs.
  set (n := if 0 <=? e then _ else _) in *. set (d := if 0 <=? e then 1 else _) in *. destruct Hs as (Hn & Ln & Hd & Ld).
  set (x0 := (_ * 30103 / 100000) + 1). assert (Hx0 : -9000 <= x0 <= 9000) by (unfold x0; lia).
  pose proof (decimal_exponent_range 4 n d x0) as Hx. set (x := decimal_exponent 4 n d x0) in *. clearbody x x0.
  set (q := if 0 <=? prec - 1 - x then _ else _).
  assert (Hq : 0 <= q).
  { unfold q. destruct (Z.leb_spec 0 (prec - 1 - x)); (apply round_div_nonneg; [|]);
      repeat first [done | apply Z.mul_nonneg_nonneg | apply Z.mul_pos_pos | apply Z.pow_nonneg | apply Z.pow_pos_nonneg | lia]. }
  clearbody q. set (qx := if q =? 10 ^ prec then _ else _).
  assert (Hqx : 0 <= fst qx /\ -9999 <= snd qx <= 9999).
  { unfold qx. destruct (q =? 10 ^ prec); cbn [fst snd]; [|lia]. split; [apply Z.pow_nonneg|]; lia. }
  destruct qx as [q' x']. cbn [fst snd] in Hqx.
  destruct (layout_g_ok prec x' (digits (Z.to_nat prec) q' [])) as [H1 H2]; [lia|..|lia|].
  - pose proof (zlen_digits (Z.to_nat prec) q'). lia.
  - apply text_digits; [lia|apply text_nil].
  - split; [rewrite zlen_app; destruct s; change (zlen [45]) with 1; rewrite ?zlen_nil; lia|].
    apply text_app; [|done]. destruct s; [by apply text_cons, text_nil|apply text_nil].
Qed.

(** ** Integers are exact doubles *)
Lemma iter_xO p k : Z.pos (Pos.iter xO p k) = Z.pos p * 2 ^ Z.pos k /\ digits2_pos (Pos.iter xO p k) = (digits2_pos p + k)%positive.
Proof.
  induction k as [|k [IH1 IH2]] using Pos.peano_ind; [cbn; lia|]. rewrite Pos.iter_succ.
  rewrite Pos2Z.inj_xO, IH1, Pos2Z.inj_succ, Z.pow_succ_r by lia. split; [lia|]. cbn [digits2_pos]. rewrite IH2. lia.
Qed.
Lemma digits2_lower p : 2 ^ (Z.pos (digits2_pos p) - 1) <= Z.pos p.
Proof.
  induction p as [p IH|p IH|]; cbn [digits2_pos]; [| |done]; rewrite Pos2Z.inj_succ;
    (replace (Z.succ _ - 1) with (Z.succ (Z.pos (digits2_pos p) - 1)) by lia); rewrite Z.pow_succ_r by lia; lia.
Qed.

Lemma shr_fexp_canonical m e : Zdigits2 m = 53 -> -1074 <= e -> shr_fexp 53 1024 m e loc_Exact = (shr_record_of_loc m loc_Exact, e).
Proof.
  intros Hm He. unfold shr_fexp, fexp, SpecFloat.emin. rewrite Hm. replace (Z.max _ _ - e) with 0 by lia. done.
Qed.
Lemma int_round s p : Z.pos p < 2 ^ 52 -> exists m k, 1 <= k <= 52 /\ Z.pos m = Z.pos p * 2 ^ k /\ 2 ^ 52 <= Z.pos m /\
  binary_round 53 1024 s p 0 = S754_finite s m (- k).
Proof.
  intros Hp. pose proof (digits2_lower p) as Hd. assert (Hd' : Z.pos (digits2_pos p) <= 52).
  { destruct (Z.le_gt_cases (Z.pos (digits2_pos p)) 52); [done|]. pose proof (Z.pow_le_mono_r 2 52 (Z.pos (digits2_pos p) - 1)). lia. }
  destruct (Z.pos (digits2_pos p) - 53) as [|k|k] eqn:Ek; [lia..|]. destruct (iter_xO p k) as [E1 E2].
  exists (Pos.iter xO p k), (Z.pos k). split; [lia|]. split; [done|]. split.
  { pose proof (digits2_lower (Pos.iter xO p k)) as Hl. rewrite E2 in Hl. by replace (Z.pos (digits2_pos p + k) - 1) with 52 in Hl by lia. }
  unfold binary_round, shl_align. replace (fexp 53 1024 _) with (Z.neg k) by (unfold fexp, SpecFloat.emin; lia).
  rewrite Z.sub_0_r. set (q := Pos.iter xO p k) in *. clearbody q. cbv match. unfold binary_round_aux.
  assert (Hq : Zdigits2 (Z.pos q) = 53) by (cbn [Zdigits2]; lia). rewrite (shr_fexp_canonical (Z.pos q)) by (done || lia).
  cbn [shr_m shr_record_of_loc loc_of_shr_record round_nearest_even shr_r shr_s].
  rewrite shr_fexp_canonical by (done || lia). cbn [shr_m shr_record_of_loc]. by destruct (Z.leb_spec (Z.neg k) (1024 - 53)); [|lia].
Qed.
Lemma double_of_int_exact z : z <> 0 -> Z.abs z < 2 ^ 52 -> exists m k, 1 <= k <= 52 /\ Z.pos m = Z.abs z * 2 ^ k /\ 2 ^ 52 <= Z.pos m /\
  double_of_int z = S754_finite (z <? 0) m (- k).
Proof. intros Hz Ha. destruct z as [|p|p]; [done| |]; apply (int_round _ p); done. Qed.
Lemma double_trunc_int z : Z.abs z < 2 ^ 52 -> double_trunc (double_of_int z) = Some z.
Proof.
  intros Ha. destruct (Z.eq_dec z 0) as [->|Hz]; [done|]. destruct (double_of_int_exact z Hz Ha) as (m & k & Hk & Em & _ & ->).
  unfold double_trunc. destruct (Z.leb_spec 0 (- k)); [lia|]. rewrite Z.opp_involutive, Em, Z.div_mul by (apply Z.pow_nonzero; lia).
  f_equal. destruct (Z.ltb_spec z 0); lia.
Qed.
Lemma double_of_int_ok z : double_ok (double_of_int z).
Proof. apply binary_normalize_ok. Qed.
