(* ===== verification/CJsonParse.v ===== *)
(** The parser of the cJSON library (the parsing part of ext/cjson/cJSON.c).

    The text is a block of bytes and positions in it; every read is checked against
    the block, so a function that reads outside is [UB].  Strings are decoded into a
    block of the size the code allocates, and every write is checked against it.
    Allocation always succeeds.  A function that fails returns [None] and the buffer
    as it leaves it. *)
From S2P Require Import Prelude CJson CFormat.
From Stdlib Require Import Ascii String.
From stdpp Require Import base list numbers.
From Stdlib Require Import List ZArith Lia SpecFloat.
Open Scope Z_scope.
Open Scope c_scope.

Definition CJSON_NESTING_LIMIT : Z := 1000.
Definition INT_MAX : Z := 2147483647.
Definition INT_MIN : Z := -2147483648.

(** ** The buffer *)
Record parse_buffer : Type := mkBuf {
  content : list Z;
  buf_length : Z;
  offset : Z;
  depth : Z
}.
Definition set_offset (o : Z) (b : parse_buffer) : parse_buffer :=
  mkBuf (content b) (buf_length b) o (depth b).
Definition advance (n : Z) (b : parse_buffer) : parse_buffer := set_offset (offset b + n) b.
Definition set_depth (d : Z) (b : parse_buffer) : parse_buffer :=
  mkBuf (content b) (buf_length b) (offset b) d.

Definition can_read (b : parse_buffer) (size : Z) : bool := offset b + size <=? buf_length b.
Definition can_access_at_index (b : parse_buffer) (index : Z) : bool := offset b + index <? buf_length b.
Definition at_offset (b : parse_buffer) (i : Z) : res Z := rd8 (content b) (offset b + i).

(** [strncmp(buffer_at_offset(b), s, strlen(s)) == 0], from the byte [i] on *)
Fixpoint starts_with (b : parse_buffer) (i : Z) (s : list Z) : res bool :=
  match s with
  | [] => Ok true
  | c :: s' => let* x := at_offset b i in if x =? c then starts_with b (i + 1) s' else Ok false
  end.
Definition reads (b : parse_buffer) (s : list Z) : res bool :=
  if can_read b (zlen s) then starts_with b 0 s else Ok false.
(** [can_access_at_index(b, 0) && buffer_at_offset(b)[0] == c] *)
Definition byte_is (b : parse_buffer) (c : Z) : res bool :=
  if can_access_at_index b 0 then let* x := at_offset b 0 in Ok (x =? c) else Ok false.

Fixpoint skip_loop (fuel : nat) (b : parse_buffer) : res parse_buffer :=
  if can_access_at_index b 0 then
    let* c := at_offset b 0 in
    if c <=? 32 then match fuel with O => NoFuel | S n => skip_loop n (advance 1 b) end else Ok b
  else Ok b.
Definition buffer_skip_whitespace (b : parse_buffer) : res parse_buffer :=
  if negb (can_access_at_index b 0) then Ok b
  else
    let* b := skip_loop (length (content b)) b in
    Ok (if offset b =? buf_length b then advance (-1) b else b).

Definition skip_utf8_bom (b : parse_buffer) : res parse_buffer :=
  if can_access_at_index b 4 then
    let* r := starts_with b 0 [239; 187; 191] in Ok (if r then advance 3 b else b)
  else Ok b.

(** ** Numbers *)
Definition number_char (c : Z) : bool :=
  is_digit c || (c =? 43) || (c =? 45) || (c =? 101) || (c =? 69) || (c =? 46).

(** At most [n] characters, the first at index [i]. *)
Fixpoint copy_number (n : nat) (b : parse_buffer) (i : Z) : res (list Z) :=
  match n with
  | O => Ok []
  | S n' =>
    if can_access_at_index b i then
      let* c := at_offset b i in
      if number_char c then let* l := copy_number n' b (i + 1) in Ok (c :: l) else Ok []
    else Ok []
  end.

(** [(int)number] *)
Definition double_to_int (d : double) : res Z :=
  let* z := deref (double_trunc d) in
  if (INT_MIN <=? z) && (z <=? INT_MAX) then Ok z else UB.
Definition saturate (number : double) : res Z :=
  if SFleb (double_of_int INT_MAX) number then Ok INT_MAX
  else if SFleb number (double_of_int INT_MIN) then Ok INT_MIN
  else double_to_int number.

Definition parse_number (item : cJSON) (b : parse_buffer) : res (option cJSON * parse_buffer) :=
  let* number_c_string := copy_number 63 b 0 in
  let '(number, used) := strtod number_c_string in
  if used =? 0 then Ok (None, b)
  else
    let* n := saturate number in
    Ok (Some (mkItem (child item) cJSON_Number (valuestring item) n number (item_string item)), advance used b).

(** ** Strings *)
Definition hex_digit (c : Z) : option Z :=
  if (48 <=? c) && (c <=? 57) then Some (c - 48)
  else if (65 <=? c) && (c <=? 70) then Some (10 + c - 65)
  else if (97 <=? c) && (c <=? 102) then Some (10 + c - 97)
  else None.
(** [n] digits from [pos] on, behind the value [h] of those before. *)
Fixpoint parse_hex (n : nat) (text : list Z) (pos h : Z) : res Z :=
  match n with
  | O => Ok h
  | S n' =>
    let* c := rd8 text pos in
    match hex_digit c with
    | None => Ok 0
    | Some d => let h := h + d in parse_hex n' text (pos + 1) (if (n' =? 0)%nat then h else Z.shiftl h 4)
    end
  end.
Definition parse_hex4 (text : list Z) (pos : Z) : res Z := parse_hex 4 text pos 0.

(** The UTF-8 form of a code point. *)
Definition utf8_encode (codepoint : Z) : option (list Z) :=
  let tail c := Z.land (Z.lor c 128) 191 in
  if codepoint <? 128 then Some [Z.land codepoint 127]
  else if codepoint <? 2048 then
    Some [Z.land (Z.lor (Z.shiftr codepoint 6) 192) 255; tail codepoint]
  else if codepoint <? 65536 then
    Some [Z.land (Z.lor (Z.shiftr codepoint 12) 224) 255; tail (Z.shiftr codepoint 6); tail codepoint]
  else if codepoint <=? 1114111 then
    Some [Z.land (Z.lor (Z.shiftr codepoint 18) 240) 255; tail (Z.shiftr codepoint 12);
          tail (Z.shiftr codepoint 6); tail codepoint]
  else None.

(** The length of the literal, 0 for failure, and the bytes for the output. *)
Definition utf16_literal_to_utf8 (text : list Z) (input_pointer input_end : Z) : res (Z * list Z) :=
  let finish sequence_length codepoint :=
    match utf8_encode codepoint with Some l => Ok (sequence_length, l) | None => Ok (0, []) end in
  if input_end - input_pointer <? 6 then Ok (0, [])
  else
    let* first_code := parse_hex4 text (input_pointer + 2) in
    if (56320 <=? first_code) && (first_code <=? 57343) then Ok (0, [])
    else if (55296 <=? first_code) && (first_code <=? 56319) then
      let second := input_pointer + 6 in
      if input_end - second <? 6 then Ok (0, [])
      else
        let* c0 := rd8 text second in
        if negb (c0 =? 92) then Ok (0, [])
        else
          let* c1 := rd8 text (second + 1) in
          if negb (c1 =? 117) then Ok (0, [])
          else
            let* second_code := parse_hex4 text (second + 2) in
            if (second_code <? 56320) || (57343 <? second_code) then Ok (0, [])
            else finish 12 (65536 + Z.lor (Z.shiftl (Z.land first_code 1023) 10) (Z.land second_code 1023))
    else finish 6 first_code.

(** The closing quote, and the number of escape sequences before it. *)
Fixpoint string_end (fuel : nat) (b : parse_buffer) (input_end skipped_bytes : Z) : res (option (Z * Z)) :=
  if input_end <? buf_length b then
    let* c := rd8 (content b) input_end in
    if c =? quote then Ok (Some (input_end, skipped_bytes))
    else if c =? 92 then
      if buf_length b <=? input_end + 1 then Ok None
      else match fuel with O => NoFuel | S n => string_end n b (input_end + 2) (skipped_bytes + 1) end
    else match fuel with O => NoFuel | S n => string_end n b (input_end + 1) skipped_bytes end
  else Ok None.

(** Writing behind [out] in a block of [size] bytes. *)
Definition emit (size : Z) (out l : list Z) : res (list Z) :=
  if zlen out + zlen l <=? size then Ok (out ++ l) else UB.

Definition unescape (c : Z) : option Z :=
  if c =? 98 then Some 8 else if c =? 102 then Some 12 else if c =? 110 then Some 10
  else if c =? 114 then Some 13 else if c =? 116 then Some 9
  else if (c =? 34) || (c =? 92) || (c =? 47) then Some c else None.

(** The output, or nothing, and the input position. *)
Fixpoint copy_string (fuel : nat) (text : list Z) (size input_end input_pointer : Z) (out : list Z)
  : res (option (list Z) * Z) :=
  if input_pointer <? input_end then
    match fuel with
    | O => NoFuel
    | S n =>
      let* c := rd8 text input_pointer in
      if negb (c =? 92) then
        let* out := emit size out [c] in copy_string n text size input_end (input_pointer + 1) out
      else if input_end - input_pointer <? 1 then Ok (None, input_pointer)
      else
        let* e := rd8 text (input_pointer + 1) in
        match unescape e with
        | Some x => let* out := emit size out [x] in copy_string n text size input_end (input_pointer + 2) out
        | None =>
          if e =? 117 then
            let* r := utf16_literal_to_utf8 text input_pointer input_end in
            if fst r =? 0 then Ok (None, input_pointer)
            else let* out := emit size out (snd r) in copy_string n text size input_end (input_pointer + fst r) out
          else Ok (None, input_pointer)
        end
    end
  else Ok (Some out, input_pointer).

Definition parse_string (item : cJSON) (b : parse_buffer) : res (option cJSON * parse_buffer) :=
  let start := offset b + 1 in
  let* c := at_offset b 0 in
  if negb (c =? quote) then Ok (None, set_offset start b)
  else
    let* r := string_end (length (content b)) b start 0 in
    match r with
    | None => Ok (None, set_offset start b)
    | Some (input_end, skipped_bytes) =>
      let allocation_length := input_end - offset b - skipped_bytes in
      let size := allocation_length + 1 in
      let* r := copy_string (length (content b)) (content b) size input_end start [] in
      match r with
      | (None, input_pointer) => Ok (None, set_offset input_pointer b)
      | (Some output, _) =>
        let* _ := emit size output [0] in
        Ok (Some (mkItem (child item) cJSON_String (Some output) (valueint item) (valuedouble item) (item_string item)),
            set_offset (input_end + 1) b)
      end
    end.

(** ** Arrays and objects *)
Definition set_type (t : Z) (item : cJSON) : cJSON :=
  mkItem (child item) t (valuestring item) (valueint item) (valuedouble item) (item_string item).
Definition set_true (item : cJSON) : cJSON :=
  mkItem (child item) cJSON_True (valuestring item) 1 (valuedouble item) (item_string item).
Definition set_children (t : Z) (l : list cJSON) (item : cJSON) : cJSON :=
  mkItem l t (valuestring item) (valueint item) (valuedouble item) (item_string item).
(** The parsed string becomes the name. *)
Definition take_name (item : cJSON) : cJSON :=
  mkItem (child item) (ctype item) None (valueint item) (valuedouble item) (valuestring item).

Section Containers.
Context (parse_value : cJSON -> parse_buffer -> res (option cJSON * parse_buffer)).

(** From the end of an element on: another one, the closing bracket, or an error. *)
Definition after_element (close : Z) (b : parse_buffer) : res (option bool * parse_buffer) :=
  let* b := buffer_skip_whitespace b in
  let* comma := byte_is b 44 in
  if comma then Ok (Some true, b)
  else let* closed := byte_is b close in Ok (if closed then Some false else None, b).

Definition array_element (b : parse_buffer) : res (option cJSON * parse_buffer) :=
  let* b := buffer_skip_whitespace (advance 1 b) in
  parse_value cJSON_New_Item b.

Definition object_member (b : parse_buffer) : res (option cJSON * parse_buffer) :=
  let* b := buffer_skip_whitespace (advance 1 b) in
  let* r := parse_string cJSON_New_Item b in
  match r with
  | (None, b) => Ok (None, b)
  | (Some item, b) =>
    let* b := buffer_skip_whitespace b in
    let* colon := byte_is b 58 in
    if negb colon then Ok (None, b)
    else
      let* b := buffer_skip_whitespace (advance 1 b) in
      parse_value (take_name item) b
  end.

(** The loop over the elements; it starts in front of one, behind [items]. *)
Fixpoint element_loop (element : parse_buffer -> res (option cJSON * parse_buffer)) (close : Z)
  (fuel : nat) (b : parse_buffer) (items : list cJSON) : res (option (list cJSON) * parse_buffer) :=
  let* r := element b in
  match r with
  | (None, b) => Ok (None, b)
  | (Some item, b) =>
    let* r := after_element close b in
    match r with
    | (None, b) => Ok (None, b)
    | (Some true, b) =>
      match fuel with O => NoFuel | S n => element_loop element close n b (items ++ [item]) end
    | (Some false, b) => Ok (Some (items ++ [item]), b)
    end
  end.

(** Both containers, from the opening bracket on. *)
Definition parse_elements (element : parse_buffer -> res (option cJSON * parse_buffer)) (close t : Z)
  (item : cJSON) (b : parse_buffer) : res (option cJSON * parse_buffer) :=
  let* b := buffer_skip_whitespace (advance 1 b) in
  let* empty := byte_is b close in
  if empty then Ok (Some (set_children t [] item), advance 1 (set_depth (depth b - 1) b))
  else if negb (can_access_at_index b 0) then Ok (None, advance (-1) b)
  else
    let* r := element_loop element close (length (content b)) (advance (-1) b) [] in
    match r with
    | (None, b) => Ok (None, b)
    | (Some items, b) => Ok (Some (set_children t items item), advance 1 (set_depth (depth b - 1) b))
    end.

Definition parse_array (item : cJSON) (b : parse_buffer) : res (option cJSON * parse_buffer) :=
  if CJSON_NESTING_LIMIT <=? depth b then Ok (None, b)
  else
    let b := set_depth (depth b + 1) b in
    let* c := at_offset b 0 in
    if negb (c =? 91) then Ok (None, b) else parse_elements array_element 93 cJSON_Array item b.

Definition parse_object (item : cJSON) (b : parse_buffer) : res (option cJSON * parse_buffer) :=
  if CJSON_NESTING_LIMIT <=? depth b then Ok (None, b)
  else
    let b := set_depth (depth b + 1) b in
    let* open := byte_is b 123 in
    if negb open then Ok (None, b) else parse_elements object_member 125 cJSON_Object item b.
End Containers.

(** ** Values *)
Definition number_start (b : parse_buffer) : res bool :=
  if can_access_at_index b 0 then let* c := at_offset b 0 in Ok ((c =? 45) || is_digit c) else Ok false.

(** [fuel] bounds the depth of the recursion. *)
Fixpoint parse_value (fuel : nat) (item : cJSON) (b : parse_buffer) : res (option cJSON * parse_buffer) :=
  let* is_null := reads b (cstr "null") in
  if is_null then Ok (Some (set_type cJSON_NULL item), advance 4 b)
  else
  let* is_false := reads b (cstr "false") in
  if is_false then Ok (Some (set_type cJSON_False item), advance 5 b)
  else
  let* is_true := reads b (cstr "true") in
  if is_true then Ok (Some (set_true item), advance 4 b)
  else
  let* is_string := byte_is b quote in
  if is_string then parse_string item b
  else
  let* is_number := number_start b in
  if is_number then parse_number item b
  else
  let* is_array := byte_is b 91 in
  if is_array then match fuel with O => NoFuel | S n => parse_array (parse_value n) item b end
  else
  let* is_object := byte_is b 123 in
  if is_object then match fuel with O => NoFuel | S n => parse_object (parse_value n) item b end
  else Ok (None, b).

(** ** Entry points: the item, and the position the caller is told; in case of failure
    this is the position of the error *)
Definition error_position (b : parse_buffer) : Z :=
  if offset b <? buf_length b then offset b else if 0 <? buf_length b then buf_length b - 1 else 0.

(** The depth of the recursion is bounded by the nesting limit. *)
Definition cJSON_ParseWithLengthOpts (value : option (list Z)) (buffer_length : Z) (require_null_terminated : bool)
  : res (option cJSON * Z) :=
  match value with
  | None => Ok (None, 0)
  | Some text =>
    if buffer_length =? 0 then Ok (None, 0)
    else
      let* b := skip_utf8_bom (mkBuf text buffer_length 0 0) in
      let* b := buffer_skip_whitespace b in
      let* r := parse_value (Z.to_nat CJSON_NESTING_LIMIT + 1) cJSON_New_Item b in
      match r with
      | (None, b) => Ok (None, error_position b)
      | (Some item, b) =>
        if require_null_terminated then
          let* b := buffer_skip_whitespace b in
          let* terminated := byte_is b 0 in
          if terminated then Ok (Some item, offset b) else Ok (None, error_position b)
        else Ok (Some item, offset b)
      end
  end.

(** A string is given without its final zero. *)
Definition cJSON_ParseWithOpts (value : option (list Z)) (require_null_terminated : bool) : res (option cJSON * Z) :=
  match value with
  | None => Ok (None, 0)
  | Some text => cJSON_ParseWithLengthOpts (Some (text ++ [0])) (strlen text + 1) require_null_terminated
  end.
Definition cJSON_Parse (text : list Z) : res (option cJSON) :=
  let* r := cJSON_ParseWithOpts (Some text) false in Ok (fst r).
Definition cJSON_ParseWithLength (text : list Z) (buffer_length : Z) : res (option cJSON) :=
  let* r := cJSON_ParseWithLengthOpts (Some text) buffer_length false in Ok (fst r).

(** A text that ends behind a comma is read past its end when its length is given. *)
Definition ex_comma : list Z := [123] ++ quoted "a" ++ cstr ":1,".
Example ex_over_read :
  cJSON_ParseWithLength ex_comma (zlen ex_comma) = UB /\ cJSON_Parse ex_comma = Ok None.
Proof. by vm_compute. Qed.
Definition ex_text : list Z :=
  cstr " {" ++ quoted "type" ++ cstr " : " ++ quoted "Start" ++ cstr "," ++ quoted "n" ++ cstr ":[1, -2.5,null]}".
Example ex_parse :
  exists d, cJSON_Parse ex_text = Ok (Some (ex_object [
    mkItem [] cJSON_String (Some (cstr "Start")) 0 (S754_zero false) (Some (cstr "type"));
    ex_named "n" (ex_array [mkItem [] cJSON_Number None 1 (double_of_int 1) None;
      mkItem [] cJSON_Number None (-2) d None; mkItem [] cJSON_NULL None 0 (S754_zero false) None])])).
Proof. eexists. by vm_compute. Qed.
