(* ===== verification/CJsonSafe.v ===== *)
(** The JSON parser is memory safe and total: whatever the text, it reads inside the
    text, writes inside the blocks it allocates, and returns. *)
From S2P Require Import Prelude CJson CFormat CJsonParse.
From Stdlib Require Import Ascii String.
From stdpp Require Import base list numbers.
From Stdlib Require Import List ZArith Lia SpecFloat.
Open Scope Z_scope.
Open Scope c_scope.

(** ** Positions inside a text that ends with a zero *)
Record inside (b : parse_buffer) : Prop := {
  in_offset : 0 <= offset b < buf_length b;
  in_block : buf_length b <= zlen (content b);
  in_nul : rd8 (content b) (buf_length b - 1) = Ok 0;
  in_bytes : Forall is_u8 (content b)
}.
Definition same (b b' : parse_buffer) : Prop :=
  content b' = content b /\ buf_length b' = buf_length b /\ depth b' = depth b.

Lemma same_refl b : same b b.
Proof. done. Qed.
Lemma same_trans a b c : same a b -> same b c -> same a c.
Proof. intros (E1 & E2 & E3) (F1 & F2 & F3). unfold same. by rewrite F1, F2, F3. Qed.
Lemma same_offset o b : same b (set_offset o b).
Proof. done. Qed.
Lemma inside_offset b o : inside b -> 0 <= o < buf_length b -> inside (set_offset o b).
Proof. intros [H1 H2 H3 H4] Ho. by split. Qed.
Lemma inside_depth b d : inside b -> inside (set_depth d b).
Proof. intros [H1 H2 H3 H4]. by split. Qed.
#[export] Hint Resolve same_refl same_offset inside_depth : netsim.

(** After a failure only the position of the error matters. *)
Definition failed (b b' : parse_buffer) : Prop := buf_length b' = buf_length b /\ 0 <= offset b'.
Lemma failed_inside b b' : inside b' -> same b b' -> failed b b'.
Proof. intros Hb (_ & E & _). split; [done|]. pose proof (in_offset b' Hb). lia. Qed.
Lemma failed_same b b1 b' : same b b1 -> failed b1 b' -> failed b b'.
Proof. intros (_ & E & _) [E' H]. split; [by rewrite E'|done]. Qed.
Lemma failed_at b o : 0 <= o -> failed b (set_offset o b).
Proof. done. Qed.
Lemma failed_depth b d : inside b -> failed b (set_depth d b).
Proof. intros Hb. split; [done|]. pose proof (in_offset b Hb). cbn. lia. Qed.
#[export] Hint Resolve failed_inside failed_same failed_at failed_depth : netsim.

Lemma rd8_returns t p : Forall is_u8 t -> 0 <= p < zlen t -> returns (rd8 t p) (fun c => is_u8 c /\ rd8 t p = Ok c).
Proof. intros Ht Hp. destruct (rd8_total t p Hp) as [c E]. rewrite E. apply returns_ok. split; [by apply (rd8_u8 t p)|done]. Qed.

(** A byte that is not zero is not the last one. *)
Lemma not_last b p c : inside b -> rd8 (content b) p = Ok c -> c <> 0 -> p < buf_length b -> p + 1 < buf_length b.
Proof.
  intros Hb E Hc Hp. destruct (Z.eq_dec p (buf_length b - 1)) as [->|]; [|lia]. rewrite (in_nul b Hb) in E. congruence.
Qed.

Lemma at_offset_ok b : inside b -> returns (at_offset b 0) (fun c => is_u8 c /\ (c <> 0 -> inside (advance 1 b))).
Proof.
  intros Hb. pose proof (in_offset b Hb). pose proof (in_block b Hb). unfold at_offset. rewrite Z.add_0_r.
  eapply returns_mono; [apply rd8_returns; [by apply in_bytes|lia]|]. intros c [Hc E]. split; [done|]. intros Hn.
  pose proof (not_last b _ c Hb E Hn). apply inside_offset; [done|lia].
Qed.
Lemma can_access_inside b : inside b -> can_access_at_index b 0 = true.
Proof. intros Hb. pose proof (in_offset b Hb). unfold can_access_at_index. lia. Qed.
Lemma byte_is_ok b c : inside b -> returns (byte_is b c) (fun r => r = true -> c <> 0 -> inside (advance 1 b)).
Proof.
  intros Hb. unfold byte_is. rewrite can_access_inside by done. eapply returns_bind; [by apply at_offset_ok|].
  intros x [_ Hx]. apply returns_ok. intros E%Z.eqb_eq Hc. apply Hx. congruence.
Qed.

Lemma starts_ok b s : inside b -> Forall (fun c => c <> 0) s -> forall i, 0 <= offset b + i < buf_length b ->
  returns (starts_with b i s) (fun r => r = true -> offset b + i + zlen s < buf_length b).
Proof.
  intros Hb Hs. induction Hs as [|c s Hc Hs IH]; intros i Hi; cbn [starts_with].
  - apply returns_ok. rewrite zlen_nil. lia.
  - pose proof (in_block b Hb). eapply returns_bind; [apply rd8_returns; [by apply in_bytes|lia]|]. intros x [_ E].
    destruct (Z.eqb_spec x c) as [->|]; [|by apply returns_ok].
    pose proof (not_last b _ c Hb E Hc ltac:(lia)). eapply returns_mono; [apply IH; lia|]. cbn. rewrite zlen_cons. lia.
Qed.
Lemma reads_ok b s : inside b -> Forall (fun c => c <> 0) s ->
  returns (reads b s) (fun r => r = true -> inside (advance (zlen s) b)).
Proof.
  intros Hb Hs. unfold reads. pose proof (in_offset b Hb). destruct (can_read b (zlen s)); [|by apply returns_ok].
  eapply returns_mono; [apply starts_ok; done || lia|]. cbn. intros r Hr E. specialize (Hr E).
  apply inside_offset; [done|]. pose proof (zlen_nonneg s). lia.
Qed.

Lemma skip_loop_ok fuel : forall b, inside b -> buf_length b - offset b <= Z.of_nat fuel ->
  returns (skip_loop fuel b) (fun b' => same b b' /\ offset b <= offset b' <= buf_length b).
Proof.
  assert (Hout : forall k b, offset b = buf_length b -> returns (skip_loop k b) (fun b' => same b b' /\ offset b <= offset b' <= buf_length b)).
  { intros k b E. destruct k; cbn [skip_loop]; unfold can_access_at_index; replace (offset b + 0 <? buf_length b) with false by lia;
      apply returns_ok; split; auto with netsim; lia. }
  induction fuel as [|fuel IH]; intros b Hb Hf; pose proof (in_offset b Hb) as Ho; [lia|]. cbn [skip_loop].
  rewrite can_access_inside by done. eapply returns_bind; [by apply at_offset_ok|]. intros c [_ _].
  destruct (c <=? 32); [|apply returns_ok; split; auto with netsim; lia].
  destruct (Z.eq_dec (offset b + 1) (buf_length b)) as [E|Hne].
  - eapply returns_mono; [by apply Hout|]. cbn. intros b' [Hs Hr]. split; [done|]. lia.
  - eapply returns_mono; [apply IH; [apply inside_offset; [done|lia]|cbn; lia]|]. cbn. intros b' [Hs Hr]. split; [done|]. lia.
Qed.
Lemma skip_ok b : inside b ->
  returns (buffer_skip_whitespace b) (fun b' => inside b' /\ same b b' /\ offset b <= offset b').
Proof.
  intros Hb. pose proof (in_offset b Hb). pose proof (in_block b Hb). unfold buffer_skip_whitespace.
  rewrite can_access_inside by done. cbn [negb].
  eapply returns_bind; [apply skip_loop_ok; [done|unfold zlen in *; lia]|]. intros b' [(E1 & E2 & E3) Hr]. apply returns_ok.
  assert (Hin : forall o, 0 <= o < buf_length b -> inside (set_offset o b')).
  { intros o Ho'. destruct Hb. split; cbn; rewrite ?E1, ?E2; done. }
  destruct (Z.eqb_spec (offset b') (buf_length b')) as [E|Hne]; rewrite E2 in *.
  - split; [apply Hin; lia|]. split; [done|]. cbn. lia.
  - split; [|split; [done|lia]]. replace b' with (set_offset (offset b') b') by (by destruct b'). apply Hin. lia.
Qed.

(** ** Numbers *)
Lemma double_trunc_finite s m e : double_trunc (S754_finite s m e) =
  Some (if s then - (if 0 <=? e then Z.pos m * 2 ^ e else Z.pos m / 2 ^ (- e)) else if 0 <=? e then Z.pos m * 2 ^ e else Z.pos m / 2 ^ (- e)).
Proof. done. Qed.

(** A mantissa cut at 2^-e. *)
Lemma cut_bound m e k B : m < B * 2 ^ k -> 0 <= m -> 0 <= k <= - e -> 0 <= m / 2 ^ (- e) < B.
Proof.
  intros Hm H0 Hk. split; [apply Z.div_pos; lia|]. apply Z.div_lt_upper_bound; [lia|].
  apply Z.lt_le_trans with (1 := Hm). pose proof (Z.pow_le_mono_r 2 k (- e)). nia.
Qed.

Lemma double_to_int_ok (s : bool) m e k B : Z.pos m < B * 2 ^ k -> 0 <= k <= - e -> 0 < k -> B <= 2 ^ 31 - (if s then 0 else 1) + 1 ->
  returns (double_to_int (S754_finite s m e)) (fun z => INT_MIN <= z <= INT_MAX).
Proof.
  intros Hm Hk H0 HB. unfold double_to_int. rewrite double_trunc_finite. destruct (Z.leb_spec 0 e); [lia|]. cbn [deref rbind].
  pose proof (cut_bound (Z.pos m) e k B Hm ltac:(lia) Hk) as Hc. revert Hc. generalize (Z.pos m / 2 ^ (- e)). intros q Hq.
  unfold INT_MIN, INT_MAX. set (z := if s then - q else q).
  assert (Hz : -2147483648 <= z <= 2147483647) by (unfold z; destruct s; lia).
  destruct (Z.leb_spec (-2147483648) z); [|lia]. destruct (Z.leb_spec z 2147483647); [|lia]. by apply returns_ok.
Qed.

(** The conversion is only reached for numbers in the range of [int]. *)
Lemma saturate_ok d : double_ok d -> returns (saturate d) (fun z => INT_MIN <= z <= INT_MAX).
Proof.
  unfold saturate, INT_MIN, INT_MAX. change (double_of_int 2147483647) with (S754_finite false 9007199250546688 (-22)).
  change (double_of_int (-2147483648)) with (S754_finite true 4503599627370496 (-21)).
  destruct d as [s|[]| |[] m e]; cbn [double_ok SFleb SFcompare]; intros Hm; try done; try (by apply returns_ok).
  - destruct (Z.compare_spec e (-21)) as [->|Hlt|Hgt]; [| |by apply returns_ok].
    + destruct (Pos.compare_cont Eq m 4503599627370496) eqn:Hc; cbn [CompOpp]; [by apply returns_ok| |by apply returns_ok].
      apply Pos.compare_lt_iff in Hc.
      apply (double_to_int_ok true m (-21) 21 (2 ^ 31)); try done; lia.
    + apply (double_to_int_ok true m e 22 (2 ^ 31)); try done; lia.
  - destruct (Z.compare_spec (-22) e) as [<-|Hlt|Hgt]; [|by apply returns_ok|].
    + destruct (Pos.compare_cont Eq 9007199250546688 m) eqn:Hc; [by apply returns_ok..|]. apply Pos.compare_gt_iff in Hc.
      apply (double_to_int_ok false m (-22) 22 (2 ^ 31 - 1)); try done; lia.
    + apply (double_to_int_ok false m e 23 (2 ^ 30)); try done; lia.
Qed.

Lemma copy_number_ok n b : inside b -> forall i, 0 <= offset b + i < buf_length b ->
  returns (copy_number n b i) (fun l => offset b + i + zlen l < buf_length b).
Proof.
  intros Hb. pose proof (in_block b Hb). induction n as [|n IH]; intros i Hi; cbn [copy_number].
  { apply returns_ok. rewrite zlen_nil. lia. }
  destruct (can_access_at_index b i); [|apply returns_ok; rewrite zlen_nil; lia].
  eapply returns_bind; [apply rd8_returns; [by apply in_bytes|lia]|]. intros c [_ E].
  destruct (number_char c) eqn:Ec; [|apply returns_ok; rewrite zlen_nil; lia].
  assert (Hc : c <> 0) by (intros ->; done). pose proof (not_last b _ c Hb E Hc ltac:(lia)).
  eapply returns_bind; [apply IH; lia|]. cbn beta. intros l Hl. apply returns_ok. rewrite zlen_cons. lia.
Qed.

(** ** Parsed items: the type says which fields are set *)
Inductive parsed : cJSON -> Prop :=
  | parsed_intro item : Forall parsed (child item) ->
      In (ctype item) [cJSON_NULL; cJSON_False; cJSON_True; cJSON_Number; cJSON_String; cJSON_Array; cJSON_Object] ->
      (ctype item = cJSON_String <-> valuestring item <> None) ->
      (child item <> [] -> ctype item = cJSON_Array \/ ctype item = cJSON_Object) ->
      (ctype item = cJSON_Object -> Forall (fun i => item_string i <> None) (child item)) ->
      (ctype item = cJSON_Number -> saturate (valuedouble item) = Ok (valueint item)) ->
      parsed item.
Definition fresh (item : cJSON) : Prop := child item = [] /\ valuestring item = None.

(** What the parsing functions promise: they return; if they succeed the item is a
    parsed one with the same name, and the position is behind it and still inside. *)
Definition progress (item : cJSON) (b : parse_buffer) (r : option cJSON * parse_buffer) : Prop :=
  match r with
  | (None, b') => failed b b'
  | (Some i, b') => parsed i /\ item_string i = item_string item /\ inside b' /\ same b b' /\ offset b < offset b'
  end.

Lemma parse_number_ok item b : inside b -> fresh item -> returns (parse_number item b) (progress item b).
Proof.
  intros Hb [Hch Hv]. pose proof (in_offset b Hb). unfold parse_number.
  eapply returns_bind; [apply copy_number_ok; [done|lia]|]. cbn beta. intros l Hl. pose proof (strtod_ok l) as [Hd Hu].
  destruct (strtod l) as [d used]. cbn [fst snd] in *. destruct (Z.eqb_spec used 0); [apply returns_ok; cbn; auto with netsim|].
  destruct (saturate_ok d Hd) as (z & Ez & _). rewrite Ez. cbn [rbind]. apply returns_ok.
  split; [|split; [done|split; [apply inside_offset; [done|lia]|split; [auto with netsim|cbn; lia]]]].
  constructor; cbn; rewrite ?Hch, ?Hv; auto 10; try done. by intuition.
Qed.

(** ** Strings *)
Definition seg (t : list Z) (p e : Z) : list Z := take (Z.to_nat (e - p)) (drop (Z.to_nat p) t).
Lemma seg_nil t p e : e <= p -> seg t p e = [].
Proof. intros. unfold seg. by replace (Z.to_nat (e - p)) with 0%nat by lia. Qed.
Lemma seg_cons t p e c : rd8 t p = Ok c -> 0 <= p < e -> seg t p e = c :: seg t (p + 1) e.
Proof.
  unfold rd8. intros E Hp. destruct (Z.leb_spec 0 p); [|lia]. destruct (t !! Z.to_nat p) as [x|] eqn:Ex; [|done].
  injection E as ->. unfold seg. apply drop_S in Ex. rewrite Ex. replace (Z.to_nat (e - p)) with (S (Z.to_nat (e - (p + 1)))) by lia.
  cbn [take]. by replace (S (Z.to_nat p)) with (Z.to_nat (p + 1)) by lia.
Qed.

(** The size the first pass computes: escape sequences count once. *)
Fixpoint units (l : list Z) : Z :=
  match l with
  | [] => 0
  | c :: l' => if c =? 92 then match l' with [] => 1 | _ :: l'' => 1 + units l'' end else 1 + units l'
  end.
Lemma units_plain c l : c <> 92 -> units (c :: l) = 1 + units l.
Proof. intros. cbn [units]. destruct (Z.eqb_spec c 92); [lia|done]. Qed.
Lemma units_escape x l : units (92 :: x :: l) = 1 + units l.
Proof. done. Qed.
Lemma units_step l : forall c, units l <= units (c :: l) <= 1 + units l.
Proof.
  assert (H : forall n l c, (length l <= n)%nat -> units l <= units (c :: l) <= 1 + units l); [|intros; by eapply H].
  induction n as [|n IH]; clear l; intros l c Hl; (destruct (Z.eq_dec c 92) as [->|]; [|rewrite units_plain by done; lia]).
  - destruct l; [|cbn in Hl; lia]. cbn. lia.
  - destruct l as [|y l]; [cbn; lia|]. rewrite units_escape. cbn in Hl. pose proof (IH l y ltac:(lia)). lia.
Qed.
Lemma units_nonneg l : 0 <= units l.
Proof. induction l as [|c l IH]; [done|]. pose proof (units_step l c). lia. Qed.

Lemma string_end_ok b fuel : inside b -> forall p sk, 0 <= p <= buf_length b -> buf_length b - p <= Z.of_nat fuel ->
  returns (string_end fuel b p sk) (fun r => match r with None => True | Some (e, sk') =>
    p <= e /\ e + 1 < buf_length b /\ rd8 (content b) e = Ok quote /\ units (seg (content b) p e) = e - p - (sk' - sk) end).
Proof.
  intros Hb. pose proof (in_block b Hb). pose proof (in_bytes b Hb) as Hby.
  induction fuel as [|fuel IH]; intros p sk Hp Hf; cbn [string_end]; (destruct (Z.ltb_spec p (buf_length b)); [|by apply returns_ok]); [lia|].
  eapply returns_bind; [apply rd8_returns; [done|lia]|]. intros c [_ E].
  destruct (Z.eqb_spec c quote) as [->|Hq].
  { apply returns_ok. rewrite seg_nil by lia. cbn [units]. pose proof (not_last b p quote Hb E ltac:(by unfold quote)). split; [|split; [|split; [done|]]]; lia. }
  destruct (Z.eqb_spec c 92) as [->|Hc].
  - destruct (Z.leb_spec (buf_length b) (p + 1)); [by apply returns_ok|]. eapply returns_mono; [apply IH; lia|].
    intros [[e sk']|]; [|done]. intros (K1 & K2 & K3 & K4). split; [lia|]. split; [lia|]. split; [done|].
    destruct (rd8_total (content b) (p + 1) ltac:(lia)) as [x Ex].
    rewrite (seg_cons _ p e 92 E) by lia. rewrite (seg_cons _ (p + 1) e x Ex) by lia. rewrite units_escape.
    replace (p + 1 + 1) with (p + 2) by lia. lia.
  - eapply returns_mono; [apply IH; lia|]. intros [[e sk']|]; [|done]. intros (K1 & K2 & K3 & K4).
    split; [lia|]. split; [lia|]. split; [done|]. rewrite (seg_cons _ p e c E), units_plain by (done || lia). lia.
Qed.

Lemma hex_digit_ok c d : hex_digit c = Some d -> 0 <= d < 16 /\ c <> 92.
Proof.
  unfold hex_digit. intros E.
  destruct (_ && _) eqn:E1 in E; [injection E as <-; lia|]. destruct (_ && _) eqn:E2 in E; [injection E as <-; lia|].
  destruct (_ && _) eqn:E3 in E; [injection E as <-; lia|done].
Qed.

(** Four digits, or zero. *)
Definition hex4_at (t : list Z) (p h : Z) : Prop := exists c1 c2 c3 c4 d1 d2 d3 d4,
  rd8 t p = Ok c1 /\ rd8 t (p + 1) = Ok c2 /\ rd8 t (p + 2) = Ok c3 /\ rd8 t (p + 3) = Ok c4 /\
  hex_digit c1 = Some d1 /\ hex_digit c2 = Some d2 /\ hex_digit c3 = Some d3 /\ hex_digit c4 = Some d4 /\
  h = ((d1 * 16 + d2) * 16 + d3) * 16 + d4.

Lemma parse_hex4_ok t p : 0 <= p -> p + 4 <= zlen t -> returns (parse_hex4 t p) (fun h => h = 0 \/ hex4_at t p h).
Proof.
  intros Hp Hl. unfold parse_hex4. cbn [parse_hex Nat.eqb].
  destruct (rd8_total t p ltac:(lia)) as [c1 E1]. rewrite E1. cbn [rbind].
  destruct (hex_digit c1) as [d1|] eqn:F1; [|apply returns_ok; by left].
  destruct (rd8_total t (p + 1) ltac:(lia)) as [c2 E2]. rewrite E2. cbn [rbind].
  destruct (hex_digit c2) as [d2|] eqn:F2; [|apply returns_ok; by left].
  destruct (rd8_total t (p + 1 + 1) ltac:(lia)) as [c3 E3]. rewrite E3. cbn [rbind].
  destruct (hex_digit c3) as [d3|] eqn:F3; [|apply returns_ok; by left].
  destruct (rd8_total t (p + 1 + 1 + 1) ltac:(lia)) as [c4 E4]. rewrite E4. cbn [rbind].
  destruct (hex_digit c4) as [d4|] eqn:F4; [|apply returns_ok; by left].
  apply returns_ok. right. exists c1, c2, c3, c4, d1, d2, d3, d4.
  replace (p + 2) with (p + 1 + 1) by lia. replace (p + 3) with (p + 1 + 1 + 1) by lia.
  do 8 (split; [done|]). rewrite !Z.shiftl_mul_pow2 by lia. lia.
Qed.

(** Bytes behind a hexadecimal number are counted apart. *)
Lemma hex4_units t p e h : hex4_at t p h -> 0 <= p -> p + 4 <= e -> units (seg t p e) = 4 + units (seg t (p + 4) e).
Proof.
  intros (c1 & c2 & c3 & c4 & d1 & d2 & d3 & d4 & E1 & E2 & E3 & E4 & F1 & F2 & F3 & F4 & _) Hp He.
  apply hex_digit_ok in F1 as [_ F1], F2 as [_ F2], F3 as [_ F3], F4 as [_ F4].
  rewrite (seg_cons _ _ _ _ E1), units_plain by (done || lia). rewrite (seg_cons _ _ _ _ E2), units_plain by (done || lia).
  replace (p + 1 + 1) with (p + 2) by lia. rewrite (seg_cons _ _ _ _ E3), units_plain by (done || lia).
  replace (p + 2 + 1) with (p + 3) by lia. rewrite (seg_cons _ _ _ _ E4), units_plain by (done || lia).
  replace (p + 3 + 1) with (p + 4) by lia. lia.
Qed.
(** Units do not grow with the position. *)
Lemma units_later t e n : forall p, 0 <= p -> p + Z.of_nat n <= e <= zlen t -> units (seg t (p + Z.of_nat n) e) <= units (seg t p e).
Proof.
  induction n as [|n IH]; intros p Hp He; [by rewrite Z.add_0_r|].
  destruct (rd8_total t p ltac:(lia)) as [c E]. rewrite (seg_cons t p e c E) by lia.
  pose proof (units_step (seg t (p + 1) e) c). specialize (IH (p + 1) ltac:(lia) ltac:(lia)).
  replace (p + Z.of_nat (S n)) with (p + 1 + Z.of_nat n) by lia. lia.
Qed.

Lemma land_u8 a m : is_u8 m -> is_u8 (Z.land a m).
Proof.
  intros Hm. assert (E : Z.land a m = Z.land (Z.land a m) (Z.ones 8)).
  { rewrite <- Z.land_assoc. f_equal. rewrite Z.land_ones by lia. unfold is_u8 in Hm. by rewrite Z.mod_small. }
  rewrite E, Z.land_ones by lia. unfold is_u8. change (2 ^ 8) with 256. lia.
Qed.
Lemma utf8_encode_ok c l : utf8_encode c = Some l -> Forall is_u8 l /\ zlen l <= 4 /\ (c = 0 -> zlen l = 1) /\ (c < 65536 -> zlen l <= 3).
Proof.
  unfold utf8_encode. destruct (Z.ltb_spec c 128); [|destruct (Z.ltb_spec c 2048); [|destruct (Z.ltb_spec c 65536);
    [|destruct (c <=? 1114111); [|done]]]]; intros [= <-].
  all: split; [repeat first [apply Forall_nil_2 | apply Forall_cons_2; [apply land_u8; unfold is_u8; lia|]]|unfold zlen; cbn [length]; repeat split; lia].
Qed.

(** A literal needs no more room than the first pass counted for it. *)
Definition literal_ok (t : list Z) (p e : Z) (r : Z * list Z) : Prop :=
  fst r = 0 \/
  0 < fst r /\ p + fst r <= e /\ Forall is_u8 (snd r) /\ zlen (snd r) + units (seg t (p + fst r) e) <= units (seg t p e).

Lemma utf16_units t p e n : 0 <= p -> p + 2 + Z.of_nat n <= e <= zlen t -> rd8 t p = Ok 92 -> rd8 t (p + 1) = Ok 117 ->
  1 + units (seg t (p + 2) e) = units (seg t p e) /\ units (seg t (p + 2 + Z.of_nat n) e) <= units (seg t (p + 2) e).
Proof.
  intros Hp He E0 E1. rewrite (seg_cons _ _ _ _ E0), (seg_cons _ _ _ _ E1), units_escape by lia.
  replace (p + 1 + 1) with (p + 2) by lia. split; [done|]. apply units_later; lia.
Qed.

Lemma utf16_ok t p e : 0 <= p -> e <= zlen t -> rd8 t p = Ok 92 -> rd8 t (p + 1) = Ok 117 ->
  returns (utf16_literal_to_utf8 t p e) (literal_ok t p e).
Proof.
  intros Hp He E0 E1. unfold utf16_literal_to_utf8. destruct (Z.ltb_spec (e - p) 6); [apply returns_ok; by left|].
  destruct (utf16_units t p e 4 Hp ltac:(lia) E0 E1) as [Hu0 Hu1]. change (Z.of_nat 4) with 4 in Hu1.
  eapply returns_bind; [apply parse_hex4_ok; lia|]. intros h Hh. destruct (_ && _); [apply returns_ok; by left|].
  destruct (_ && _) eqn:Esur.
  - destruct Hh as [->|Hh]; [done|]. destruct (Z.ltb_spec (e - (p + 6)) 6); [apply returns_ok; by left|].
    destruct (rd8_total t (p + 6) ltac:(lia)) as [c0 F0]. rewrite F0. cbn [rbind].
    destruct (Z.eqb_spec c0 92) as [->|]; [|apply returns_ok; by left]. cbn [negb].
    destruct (rd8_total t (p + 6 + 1) ltac:(lia)) as [c1 F1]. rewrite F1. cbn [rbind].
    destruct (Z.eqb_spec c1 117) as [->|]; [|apply returns_ok; by left]. cbn [negb].
    eapply returns_bind; [apply parse_hex4_ok; lia|]. intros h2 Hh2. destruct (_ || _) eqn:Es2; [apply returns_ok; by left|].
    destruct Hh2 as [->|Hh2]; [done|]. destruct (utf8_encode _) as [l|] eqn:El; [|apply returns_ok; by left].
    apply returns_ok. right. cbn [fst snd]. destruct (utf8_encode_ok _ _ El) as (Hb & Hl & _).
    pose proof (hex4_units t (p + 2) e h Hh ltac:(lia) ltac:(lia)) as K1.
    pose proof (hex4_units t (p + 6 + 2) e h2 Hh2 ltac:(lia) ltac:(lia)) as K2.
    destruct (utf16_units t (p + 6) e 4 ltac:(lia) ltac:(lia) F0 F1) as [K3 _].
    replace (p + 2 + 4) with (p + 6) in * by lia. replace (p + 6 + 2 + 4) with (p + 12) in * by lia.
    split; [lia|]. split; [lia|]. split; [done|]. lia.
  - destruct (utf8_encode h) as [l|] eqn:El; [|apply returns_ok; by left].
    apply returns_ok. right. cbn [fst snd]. destruct (utf8_encode_ok _ _ El) as (Hb & Hl & H0 & H3).
    replace (p + 2 + 4) with (p + 6) in * by lia.
    split; [lia|]. split; [lia|]. split; [done|]. destruct Hh as [->|Hh]; [specialize (H0 eq_refl); lia|].
    pose proof (hex4_units t (p + 2) e h Hh ltac:(lia) ltac:(lia)) as K1. replace (p + 2 + 4) with (p + 6) in * by lia.
    destruct (Z.lt_ge_cases h 65536) as [Hlt|]; [specialize (H3 Hlt)|]; lia.
Qed.

Lemma emit_ok size out l : zlen out + zlen l <= size -> emit size out l = Ok (out ++ l).
Proof. intros. unfold emit. by destruct (Z.leb_spec (zlen out + zlen l) size); [|lia]. Qed.

Lemma unescape_u8 c x : is_u8 c -> unescape c = Some x -> is_u8 x.
Proof.
  intros Hc. unfold unescape. repeat (destruct (_ =? _); [intros [= <-]; unfold is_u8; lia|]).
  destruct (_ || _); [intros [= <-]; done|done].
Qed.

Lemma copy_string_ok t size e N fuel : Forall is_u8 t -> e + 1 <= zlen t -> N <= size ->
  forall p out, 0 <= p -> e - p <= Z.of_nat fuel -> Forall is_u8 out -> zlen out + units (seg t p e) <= N ->
  returns (copy_string fuel t size e p out)
    (fun r => match fst r with None => 0 <= snd r | Some o => zlen o <= N /\ Forall is_u8 o end).
Proof.
  intros Ht He HN. induction fuel as [|fuel IH]; intros p out Hp Hf Hout Hu; cbn [copy_string]; pose proof (units_nonneg (seg t p e));
    (destruct (Z.ltb_spec p e); [|apply returns_ok; cbn; split; [lia|done]]); [lia|].
  eapply returns_bind; [apply rd8_returns; [done|lia]|]. intros c [Hc E].
  assert (Hemit : forall l q, Forall is_u8 l -> p < q -> zlen l + units (seg t q e) <= units (seg t p e) ->
    returns (let* out := emit size out l in copy_string fuel t size e q out)
      (fun r => match fst r with None => 0 <= snd r | Some o => zlen o <= N /\ Forall is_u8 o end)).
  { intros l q Hl Hq Hlu. pose proof (units_nonneg (seg t q e)). rewrite emit_ok by lia. cbn [rbind].
    apply IH; [lia|lia|by apply Forall_app|]. rewrite zlen_app. lia. }
  destruct (Z.eqb_spec c 92) as [->|Hn]; cbn [negb].
  2:{ apply Hemit; [by apply Forall_cons_2|lia|]. rewrite (seg_cons t p e c E), units_plain by (done || lia). change (zlen [c]) with 1. lia. }
  destruct (Z.ltb_spec (e - p) 1); [lia|].
  eapply returns_bind; [apply rd8_returns; [done|lia]|]. intros x [Hx Ex].
  destruct (unescape x) as [y|] eqn:Ey.
  - apply Hemit; [apply Forall_cons_2; [by apply (unescape_u8 x)|done]|lia|]. rewrite (seg_cons t p e 92 E) by lia.
    destruct (Z.lt_ge_cases (p + 1) e).
    + rewrite (seg_cons t (p + 1) e x Ex), units_escape by lia. replace (p + 1 + 1) with (p + 2) by lia. change (zlen [y]) with 1. lia.
    + rewrite !seg_nil by lia. done.
  - destruct (Z.eqb_spec x 117) as [->|]; [|by apply returns_ok].
    eapply returns_bind; [apply utf16_ok; done || lia|]. intros r [Hr|(R1 & R2 & R3 & R4)]; [rewrite Hr; by apply returns_ok|].
    destruct (Z.eqb_spec (fst r) 0); [lia|]. apply Hemit; [done|lia|done].
Qed.

(** A string becomes the bytes it stands for; the item is a string item. *)
Definition string_progress (item : cJSON) (b : parse_buffer) (r : option cJSON * parse_buffer) : Prop :=
  match r with
  | (None, b') => failed b b'
  | (Some i, b') => (exists s, i = mkItem (child item) cJSON_String (Some s) (valueint item) (valuedouble item) (item_string item) /\
      Forall is_u8 s) /\ inside b' /\ same b b' /\ offset b < offset b'
  end.
Lemma parse_string_ok item b : inside b -> returns (parse_string item b) (string_progress item b).
Proof.
  intros Hb. pose proof (in_offset b Hb). pose proof (in_block b Hb). unfold parse_string.
  assert (Hlen : Z.of_nat (length (content b)) = zlen (content b)) by done.
  unfold at_offset. rewrite Z.add_0_r. eapply returns_bind; [apply rd8_returns; [by apply in_bytes|lia]|]. intros c [_ E].
  assert (Hfail : forall o, 0 <= o -> returns (Ok (None, set_offset o b)) (string_progress item b)) by (intros; by apply returns_ok, failed_at).
  destruct (Z.eqb_spec c quote) as [->|]; [|apply Hfail; lia]. cbn [negb].
  pose proof (not_last b _ quote Hb E ltac:(by unfold quote) ltac:(lia)).
  eapply returns_bind; [apply string_end_ok; [done|lia|lia]|]. intros [[e sk]|]; [|intros _; apply Hfail; lia].
  intros (R1 & R2 & R3 & R4). set (size := e - offset b - sk + 1).
  eapply returns_bind; [apply (copy_string_ok _ size e (size - 1)); try lia; try apply Hb; [by constructor|rewrite zlen_nil; unfold size; lia]|].
  intros [[o|] q] Ho; cbn [fst snd] in Ho; [|by apply Hfail]. destruct Ho as [Ho Hby].
  rewrite emit_ok by (change (zlen [0]) with 1; lia). cbn [rbind]. apply returns_ok. cbn [string_progress].
  split; [by exists o|]. split; [apply inside_offset; [done|lia]|]. split; [auto with netsim|cbn; lia].
Qed.

(** ** Arrays and objects *)
Section Containers.
Context (parse_value : cJSON -> parse_buffer -> res (option cJSON * parse_buffer)) (d : Z)
  (Hvalue : forall item b, inside b -> depth b = d -> fresh item -> returns (parse_value item b) (progress item b)).

(** In front of an element: the position is one before it. *)
Definition before (b : parse_buffer) : Prop := inside (advance 1 b) /\ depth b = d.
Definition element_ok (named : bool) (b : parse_buffer) (r : option cJSON * parse_buffer) : Prop :=
  match r with
  | (None, b') => failed b b'
  | (Some i, b') => parsed i /\ (named = true -> item_string i <> None) /\ inside b' /\ same b b' /\ offset b + 1 < offset b'
  end.

Lemma fresh_item : fresh cJSON_New_Item.
Proof. done. Qed.

Lemma array_element_ok b : before b -> returns (array_element parse_value b) (element_ok false b).
Proof.
  intros [Hb Hd]. unfold array_element. eapply returns_bind; [by apply skip_ok|]. intros b1 (H1 & S1 & O1).
  eapply returns_mono; [apply Hvalue; [done| |apply fresh_item]|].
  { destruct S1 as (_ & _ & E). by rewrite E. }
  intros [[i|] b2]; [|by apply failed_same]. intros (P1 & _ & P3 & P4 & P5). cbn in O1. cbn.
  split; [done|]. split; [done|]. split; [done|]. split; [by apply (same_trans _ b1)|lia].
Qed.

Lemma object_member_ok b : before b -> returns (object_member parse_value b) (element_ok true b).
Proof.
  intros [Hb Hd]. unfold object_member. eapply returns_bind; [by apply skip_ok|]. intros b1 (H1 & S1 & O1).
  eapply returns_bind; [by apply parse_string_ok|]. intros [[i|] b2]; [|intros Hf; apply returns_ok; by apply (failed_same _ b1)].
  intros ((s & -> & _) & H2 & S2 & O2). eapply returns_bind; [by apply skip_ok|]. intros b3 (H3 & S3 & O3).
  eapply returns_bind; [by apply byte_is_ok|]. assert (Sb3 : same b b3) by (repeat (eapply same_trans; [eassumption|]); done).
  intros [] Hcolon; cbn [negb]; [|by apply returns_ok, failed_inside].
  eapply returns_bind; [apply skip_ok; by apply Hcolon|]. intros b4 (H4 & S4 & O4).
  assert (S : same b b4) by (repeat (eapply same_trans; [eassumption|]); done).
  eapply returns_mono; [apply Hvalue; [done| |done]|].
  { destruct S as (_ & _ & E). by rewrite E. }
  intros [[i|] b5]; [|by apply failed_same]. intros (P1 & P2 & P3 & P4 & P5). cbn in O1, O4. cbn.
  split; [done|]. split; [by rewrite P2|]. split; [done|]. split; [by apply (same_trans _ b4)|lia].
Qed.

Lemma after_element_ok close b : close <> 0 -> inside b -> returns (after_element close b)
  (fun r => match r with (None, b') => failed b b' | (Some _, b') => inside (advance 1 b') /\ same b b' /\ offset b <= offset b' end).
Proof.
  intros Hc Hb. unfold after_element. eapply returns_bind; [by apply skip_ok|]. intros b1 (H1 & S1 & O1).
  eapply returns_bind; [by apply byte_is_ok|]. intros [] Hcomma.
  { apply returns_ok. split; [by apply Hcomma|done]. }
  eapply returns_bind; [by apply byte_is_ok|]. intros [] Hclose; apply returns_ok; [|by apply failed_inside]. split; [by apply Hclose|done].
Qed.

Lemma element_loop_ok element named close fuel : close <> 0 ->
  (forall b, before b -> returns (element b) (element_ok named b)) ->
  forall b items, before b -> buf_length b - offset b <= Z.of_nat fuel ->
  Forall (fun i => parsed i /\ (named = true -> item_string i <> None)) items ->
  returns (element_loop element close fuel b items) (fun r => match r with (None, b') => failed b b'
    | (Some l, b') => Forall (fun i => parsed i /\ (named = true -> item_string i <> None)) l /\
        inside (advance 1 b') /\ same b b' /\ offset b < offset b' end).
Proof.
  intros Hclose Hel. induction fuel as [|fuel IH]; intros b items Hb Hf Hitems;
    (assert (Hin : 0 <= offset b + 1 < buf_length b) by apply Hb); [lia|].
  cbn [element_loop]. eapply returns_bind; [by apply Hel|]. intros [[i|] b1]; [|intros; by apply returns_ok].
  intros (P1 & P2 & P3 & P4 & P5). eapply returns_bind; [by apply after_element_ok|].
  intros [[more|] b2]; [|intros Hno; apply returns_ok; by apply (failed_same _ b1)]. intros (A1 & A2 & A3).
  assert (S : same b b2) by (by apply (same_trans _ b1)). pose proof S as (E1 & E2 & E3).
  assert (Hall : Forall (fun i => parsed i /\ (named = true -> item_string i <> None)) (items ++ [i])).
  { apply Forall_app. split; [done|]. by apply Forall_cons_2. }
  destruct more; [|apply returns_ok; split; [done|split; [done|split; [done|lia]]]].
  eapply returns_mono; [apply IH; [split; [done|rewrite E3; apply Hb]|rewrite E2; lia|done]|].
  intros [[l|] b3]; [|by apply failed_same]. intros (L1 & L2 & L3 & L4). split; [done|]. split; [done|]. split; [by apply (same_trans _ b2)|lia].
Qed.

Lemma advance_back b : advance 1 (advance (-1) b) = b.
Proof. destruct b. unfold advance, set_offset. cbn. f_equal. lia. Qed.

Lemma parse_elements_ok element (named : bool) close t item b : close <> 0 -> fresh item ->
  (t = cJSON_Array /\ named = false \/ t = cJSON_Object /\ named = true) ->
  (forall b, before b -> returns (element b) (element_ok named b)) ->
  inside (advance 1 b) -> 0 <= offset b -> depth b = d ->
  returns (parse_elements element close t item b) (fun r => match r with (None, b') => failed b b'
    | (Some i, b') => parsed i /\ item_string i = item_string item /\ inside b' /\
        content b' = content b /\ buf_length b' = buf_length b /\ depth b' = depth b - 1 /\ offset b < offset b' end).
Proof.
  intros Hclose [Hch Hv] Ht Hel Hb H0 Hd. unfold parse_elements.
  assert (Hparsed : forall l, Forall (fun i => parsed i /\ (named = true -> item_string i <> None)) l -> parsed (set_children t l item)).
  { intros l Hl. constructor; cbn.
    - eapply Forall_impl; [|exact Hl]. by intros i [? _].
    - destruct Ht as [[-> _]|[-> _]]; cbn; auto 10.
    - rewrite Hv. by destruct Ht as [[-> _]|[-> _]].
    - destruct Ht as [[-> _]|[-> _]]; auto.
    - destruct Ht as [[-> _]|[-> ->]]; [done|]. intros _. eapply Forall_impl; [|exact Hl]. intros i [_ Hi]. by apply Hi.
    - by destruct Ht as [[-> _]|[-> _]]. }
  eapply returns_bind; [by apply skip_ok|]. intros b1 (H1 & S1 & O1). cbn in O1.
  eapply returns_bind; [by apply byte_is_ok|]. intros [] Hempty.
  { apply returns_ok. split; [apply Hparsed; constructor|]. split; [done|]. split; [|destruct S1 as (E1 & E2 & E3); cbn in *].
    - apply (inside_depth _ (depth b1 - 1)) in Hempty; [|done..]. exact Hempty.
    - rewrite E1, E2, E3. do 3 (split; [done|]). cbn. lia. }
  rewrite can_access_inside by done. cbn [negb]. pose proof (in_block b1 H1). pose proof (in_offset b1 H1).
  assert (Hb2 : before (advance (-1) b1)).
  { split; [by rewrite advance_back|]. destruct S1 as (_ & _ & E3). cbn in E3 |- *. by rewrite E3. }
  eapply returns_bind; [apply (element_loop_ok element named); try done; cbn; unfold zlen in *; lia|].
  intros [[l|] b3]; [|intros Hno; apply returns_ok; by apply (failed_same _ b1)]. intros (L1 & L2 & (E1 & E2 & E3) & L4). apply returns_ok.
  destruct S1 as (F1 & F2 & F3). cbn in *.
  split; [by apply Hparsed|]. split; [done|]. split; [by apply (inside_depth _ (depth b3 - 1)) in L2|].
  rewrite E1, E2, E3, F1, F2, F3. do 3 (split; [done|]). lia.
Qed.
End Containers.

Lemma nul_free_string s : forallb (fun c => negb (c =? 0)) (cstr s) = true -> Forall (fun c => c <> 0) (cstr s).
Proof. intros Hs. apply List.Forall_forall. intros c Hc. rewrite forallb_forall in Hs. specialize (Hs c Hc). lia. Qed.

Lemma parsed_leaf item : child item = [] -> In (ctype item) [cJSON_NULL; cJSON_False; cJSON_True] ->
  valuestring item = None -> parsed item.
Proof.
  intros Hc Ht Hv. constructor; rewrite ?Hc, ?Hv; try done.
  - cbn in Ht |- *. intuition.
  - split; [|done]. intros E. rewrite E in Ht. by destruct Ht as [|[|[|[]]]].
  - intros E. rewrite E in Ht. by destruct Ht as [|[|[|[]]]].
Qed.

Lemma number_start_ok b : inside b -> returns (number_start b) (fun _ => True).
Proof.
  intros Hb. unfold number_start. rewrite can_access_inside by done. eapply returns_bind; [by apply at_offset_ok|].
  intros c _. by apply returns_ok.
Qed.

(** The recursion is as deep as the nesting, which is limited. *)
Lemma parse_value_ok fuel : forall item b, inside b -> fresh item -> 0 <= depth b <= CJSON_NESTING_LIMIT ->
  CJSON_NESTING_LIMIT - depth b < Z.of_nat fuel -> returns (parse_value fuel item b) (progress item b).
Proof.
  induction fuel as [|fuel IH]; intros item b Hb Hfresh Hd Hf; [lia|]. cbn [parse_value]. pose proof Hfresh as [Hch Hv].
  assert (Hleaf : forall t n, inside (advance n b) -> 0 < n -> In (ctype t) [cJSON_NULL; cJSON_False; cJSON_True] ->
    child t = child item -> valuestring t = valuestring item -> item_string t = item_string item ->
    returns (Ok (Some t, advance n b)) (progress item b)).
  { intros t n Hin Hn Ht E1 E2 E3. apply returns_ok. cbn [progress]. split; [apply parsed_leaf; congruence|]. split; [done|].
    split; [done|]. split; [done|cbn; lia]. }
  eapply returns_bind; [apply reads_ok; [done|by apply nul_free_string]|]. intros [] E; [by apply Hleaf; [apply E|lia|cbn; auto|..]|clear E].
  eapply returns_bind; [apply reads_ok; [done|by apply nul_free_string]|]. intros [] E; [by apply Hleaf; [apply E|lia|cbn; auto|..]|clear E].
  eapply returns_bind; [apply reads_ok; [done|by apply nul_free_string]|]. intros [] E; [by apply Hleaf; [apply E|lia|cbn; auto|..]|clear E].
  eapply returns_bind; [by apply byte_is_ok|]. intros [] _.
  { eapply returns_mono; [by apply parse_string_ok|]. intros [[i|] b']; [|by intros]. intros ((s & -> & Hs) & H1 & H2 & H3).
    split; [|done]. constructor; cbn; rewrite ?Hch; auto 10; done. }
  eapply returns_bind; [by apply number_start_ok|]. intros [] _; [by apply parse_number_ok|].
  assert (Hcont : forall element (named : bool) close t, close <> 0 ->
    (t = cJSON_Array /\ named = false \/ t = cJSON_Object /\ named = true) -> depth b < CJSON_NESTING_LIMIT ->
    (forall b1, before (depth b + 1) b1 -> returns (element b1) (element_ok named b1)) -> inside (advance 1 b) ->
    returns (parse_elements element close t item (set_depth (depth b + 1) b)) (progress item b)).
  { intros element named close t Hc Ht Hlim Hel Hin. pose proof (in_offset b Hb).
    eapply returns_mono; [eapply (parse_elements_ok (depth b + 1) element named); try done; [by apply (inside_depth _ (depth b + 1)) in Hin|cbn; lia]|].
    intros [[i|] b']; [|by intros]. cbn. intros (P1 & P2 & P3 & P4 & P5 & P6 & P7). split; [done|]. split; [done|]. split; [done|].
    split; [|done]. split; [done|]. split; [done|]. lia. }
  assert (Hval : depth b < CJSON_NESTING_LIMIT -> forall it b1, inside b1 -> depth b1 = depth b + 1 -> fresh it ->
    returns (parse_value fuel it b1) (progress it b1)) by (intros; apply IH; done || lia).
  eapply returns_bind; [by apply byte_is_ok|]. intros [] Harr.
  { unfold parse_array. destruct (Z.leb_spec CJSON_NESTING_LIMIT (depth b)); [by apply returns_ok, failed_inside|].
    eapply returns_bind; [apply at_offset_ok; auto with netsim|]. intros c _. destruct (negb _); [by apply returns_ok, failed_depth|].
    apply (Hcont _ false); auto. intros b1. apply array_element_ok. auto. }
  eapply returns_bind; [by apply byte_is_ok|]. intros [] Hobj; [|by apply returns_ok, failed_inside].
  unfold parse_object. destruct (Z.leb_spec CJSON_NESTING_LIMIT (depth b)); [by apply returns_ok, failed_inside|].
  eapply returns_bind; [apply byte_is_ok; auto with netsim|]. intros [] _; [|by apply returns_ok, failed_depth].
  apply (Hcont _ true); auto. intros b1. apply object_member_ok. auto.
Qed.

(** ** The entry points *)
Lemma c_str_split t : exists rest, t = c_str t ++ rest /\ (rest = [] \/ exists r, rest = 0 :: r).
Proof.
  induction t as [|c t (rest & E & Hr)]; [exists []; auto|]. cbn [c_str]. destruct (Z.eqb_spec c 0) as [->|].
  - exists (0 :: t). split; [done|]. right. by exists t.
  - exists rest. cbn. by rewrite <- E.
Qed.
Lemma c_str_free t : Forall (fun c => c <> 0) (c_str t).
Proof. induction t as [|c t IH]; cbn [c_str]; [constructor|]. destruct (Z.eqb_spec c 0); constructor; done. Qed.
Lemma strlen_zero t : rd8 (t ++ [0]) (strlen t) = Ok 0 /\ strlen t + 1 <= zlen (t ++ [0]).
Proof.
  destruct (c_str_split t) as (rest & E & Hr). unfold strlen. assert (Et : t ++ [0] = c_str t ++ rest ++ [0]) by (by rewrite app_assoc, <- E).
  rewrite Et, rd8_shift0, !zlen_app. pose proof (zlen_nonneg rest). change (zlen [0]) with 1. split; [|lia].
  by destruct Hr as [->|[r ->]].
Qed.
Lemma strlen_first t p : 0 <= p -> rd8 (t ++ [0]) p = Ok 0 -> strlen t <= p.
Proof.
  intros Hp E. destruct (Z.lt_ge_cases p (strlen t)) as [Hlt|]; [|done]. exfalso.
  destruct (c_str_split t) as (rest & Et & _). rewrite Et, <- app_assoc, rd8_app in E by (unfold strlen in Hlt; lia).
  unfold rd8 in E. destruct (0 <=? p); [|done]. destruct (c_str t !! Z.to_nat p) as [x|] eqn:Ex; [|done]. injection E as ->.
  pose proof (c_str_free t) as Hf. rewrite List.Forall_forall in Hf. apply (Hf 0); [|done]. by eapply lookup_in.
Qed.

Lemma inside_start text : Forall is_u8 text -> inside (mkBuf (text ++ [0]) (strlen text + 1) 0 0).
Proof.
  intros Ht. destruct (strlen_zero text) as [E Hl]. pose proof (zlen_nonneg (c_str text)).
  split; cbn; [unfold strlen; lia|done| |].
  - by replace (strlen text + 1 - 1) with (strlen text) by lia.
  - apply Forall_app. split; [done|]. apply Forall_cons_2; [unfold is_u8; lia|constructor].
Qed.

Lemma skip_utf8_bom_ok b : inside b -> returns (skip_utf8_bom b) (fun b' => inside b' /\ same b b').
Proof.
  intros Hb. pose proof (in_offset b Hb). unfold skip_utf8_bom. destruct (can_access_at_index b 4); [|by apply returns_ok].
  eapply returns_bind; [apply starts_ok; [done|repeat constructor; lia|lia]|]. cbn beta. intros [] E; apply returns_ok; [|done].
  split; [|done]. specialize (E eq_refl). change (zlen [239; 187; 191]) with 3 in E. apply inside_offset; [done|lia].
Qed.

Lemma error_position_ok text b : buf_length b = strlen text + 1 -> 0 <= offset b -> 0 <= error_position b <= strlen text.
Proof.
  intros E H0. pose proof (zlen_nonneg (c_str text)) as Hl. fold (strlen text) in Hl. unfold error_position. rewrite E. bool_lia.
Qed.

Lemma terminated_ok text b : inside b -> content b = text ++ [0] -> buf_length b = strlen text + 1 ->
  returns (byte_is b 0) (fun r => r = true -> offset b = strlen text).
Proof.
  intros Hb Ec El. pose proof (in_offset b Hb). pose proof (in_block b Hb). unfold byte_is. rewrite can_access_inside by done.
  unfold at_offset. rewrite Z.add_0_r. eapply returns_bind; [apply rd8_returns; [by apply in_bytes|lia]|]. intros c [_ E].
  apply returns_ok. intros ->%Z.eqb_eq. rewrite Ec in E. pose proof (strlen_first text (offset b) ltac:(lia) E). lia.
Qed.

(** C29: The JSON parser is memory safe and total.  Whatever bytes it is given, it
    reads no byte beyond the final zero, writes no byte beyond the blocks it
    allocates for strings (escape sequences included), converts no number outside
    the range of [int], and returns: with a position inside the text, and with
    nothing or with an item whose type says which of its fields are set, down to its
    last descendant; the members of an object all have a name.  When the text has to
    be terminated, an item is only returned at its end. *)
Theorem cJSON_Parse_safe (text : list Z) (require_null_terminated : bool) (Htext : Forall is_u8 text) :
  exists item pos, cJSON_ParseWithOpts (Some text) require_null_terminated = Ok (item, pos) /\
    0 <= pos <= strlen text /\
    forall i, item = Some i -> parsed i /\ (require_null_terminated = true -> pos = strlen text).
Proof.
  set (req := require_null_terminated).
  cut (returns (cJSON_ParseWithOpts (Some text) req) (fun r => 0 <= snd r <= strlen text /\
    forall i, fst r = Some i -> parsed i /\ (req = true -> snd r = strlen text))).
  { intros ([item pos] & E & H1 & H2). by exists item, pos. }
  pose proof (zlen_nonneg (c_str text)) as Hlen. fold (strlen text) in Hlen.
  unfold cJSON_ParseWithOpts, cJSON_ParseWithLengthOpts. destruct (Z.eqb_spec (strlen text + 1) 0); [lia|].
  set (b0 := mkBuf _ _ 0 0). assert (Hb0 : inside b0) by (by apply inside_start).
  eapply returns_bind; [by apply skip_utf8_bom_ok|]. intros b1 [H1 S1].
  eapply returns_bind; [by apply skip_ok|]. intros b2 (H2 & S2 & _).
  assert (S : same b0 b2) by (by apply (same_trans _ b1)).
  eapply returns_bind; [apply parse_value_ok; [done|done| |]; destruct S as (_ & _ & ->); cbn; unfold CJSON_NESTING_LIMIT; lia|].
  intros [[item|] b3]; [|intros Hf%(failed_same _ _ _ S); apply returns_ok; split; [|done]; by apply error_position_ok; apply Hf].
  intros (P1 & _ & P3 & P4 & _). assert (S3 : same b0 b3) by (by apply (same_trans _ b2)).
  destruct req; [|apply returns_ok; cbn; pose proof (in_offset b3 P3) as Ho; destruct S3 as (_ & E & _); rewrite E in Ho; cbn in Ho;
    split; [lia|intros i [= <-]; done]].
  eapply returns_bind; [by apply skip_ok|]. intros b4 (H4 & S4 & _). assert (S5 : same b0 b4) by (by apply (same_trans _ b3)).
  pose proof S5 as (Ec & El & _). eapply returns_bind; [by apply (terminated_ok text)|]. intros [] Ht; apply returns_ok; cbn [fst snd].
  - specialize (Ht eq_refl). rewrite Ht. split; [lia|]. intros i [= <-]. done.
  - split; [|done]. apply error_position_ok; [done|]. pose proof (in_offset b4 H4). lia.
Qed.

Lemma bytes_u8 l : forallb (fun c => (0 <=? c) && (c <? 256)) l = true -> Forall is_u8 l.
Proof. intros Hl. apply List.Forall_forall. intros c Hc. rewrite forallb_forall in Hl. specialize (Hl c Hc). unfold is_u8. lia. Qed.
Definition ex_json : list Z :=
  cstr "{" ++ quoted "a" ++ cstr ":[1,2.5e3," ++ [quote; 92; 117] ++ cstr "00" ++ [92; quote; quote] ++ cstr "]} x".
Lemma cJSON_Parse_safe_witness :
  exists item pos, cJSON_ParseWithOpts (Some ex_json) false = Ok (item, pos) /\ 0 <= pos <= strlen ex_json /\
    forall i, item = Some i -> parsed i /\ (false = true -> pos = strlen ex_json).
Proof.
  apply (cJSON_Parse_safe ex_json false). by apply bytes_u8.
Defined.
