(* ===== verification/CJsonGrammar.v ===== *)
(** The language of the JSON parser: a grammar, and that every text of it is parsed
    to the item it stands for. *)
From S2P Require Import Prelude CJson CFormat CJsonParse CJsonSafe.
From Stdlib Require Import Ascii String.
From stdpp Require Import base list numbers.
From Stdlib Require Import List ZArith Lia SpecFloat.
Open Scope Z_scope.
Open Scope c_scope.

(** ** The grammar *)
Definition white (w : list Z) : Prop := Forall (fun c => 0 < c <= 32) w.

Definition hex4 (l : list Z) (h : Z) : Prop := exists c1 c2 c3 c4 d1 d2 d3 d4,
  l = [c1; c2; c3; c4] /\ hex_digit c1 = Some d1 /\ hex_digit c2 = Some d2 /\ hex_digit c3 = Some d3 /\
  hex_digit c4 = Some d4 /\ h = ((d1 * 16 + d2) * 16 + d3) * 16 + d4.

(** The bytes a string stands for, and what is between its quotes. *)
Inductive string_text : list Z -> list Z -> Prop :=
  | st_nil : string_text [] []
  | st_plain c s t : c <> quote -> c <> 92 -> string_text s t -> string_text (c :: s) (c :: t)
  | st_escape e c s t : unescape e = Some c -> string_text s t -> string_text (c :: s) (92 :: e :: t)
  | st_code l h u s t : hex4 l h -> ~ (55296 <= h <= 57343) -> utf8_encode h = Some u ->
      string_text s t -> string_text (u ++ s) (92 :: 117 :: l ++ t)
  | st_pair l1 l2 h1 h2 u s t : hex4 l1 h1 -> hex4 l2 h2 -> 55296 <= h1 <= 56319 -> 56320 <= h2 <= 57343 ->
      utf8_encode (65536 + Z.lor (Z.shiftl (Z.land h1 1023) 10) (Z.land h2 1023)) = Some u ->
      string_text s t -> string_text (u ++ s) (92 :: 117 :: l1 ++ 92 :: 117 :: l2 ++ t).
Definition literal_text (s t : list Z) : Prop := exists t', string_text s t' /\ t = quote :: t' ++ [quote].

Definition blank (t : Z) : cJSON := mkItem [] t None 0 (S754_zero false) None.
Definition with_name (name : option (list Z)) (i : cJSON) : cJSON :=
  mkItem (child i) (ctype i) (valuestring i) (valueint i) (valuedouble i) name.

(** Values without a name, the elements of an array and the members of an object, the
    white space around them included. *)
Inductive value_text : cJSON -> list Z -> Prop :=
  | vt_null : value_text (blank cJSON_NULL) (cstr "null")
  | vt_false : value_text (blank cJSON_False) (cstr "false")
  | vt_true : value_text (set_true (blank cJSON_True)) (cstr "true")
  | vt_string s t : literal_text s t -> value_text (mkItem [] cJSON_String (Some s) 0 (S754_zero false) None) t
  | vt_number d n t : Forall (fun c => number_char c = true) t -> zlen t <= 63 -> strtod t = (d, zlen t) -> saturate d = Ok n ->
      (exists c r, t = c :: r /\ (c = 45 \/ is_digit c = true)) -> value_text (mkItem [] cJSON_Number None n d None) t
  | vt_empty_array w : white w -> value_text (blank cJSON_Array) (91 :: w ++ [93])
  | vt_array l t : elements_text l t -> value_text (mkItem l cJSON_Array None 0 (S754_zero false) None) (91 :: t ++ [93])
  | vt_empty_object w : white w -> value_text (blank cJSON_Object) (123 :: w ++ [125])
  | vt_object l t : members_text l t -> value_text (mkItem l cJSON_Object None 0 (S754_zero false) None) (123 :: t ++ [125])
with elements_text : list cJSON -> list Z -> Prop :=
  | et_last i t w1 w2 : value_text i t -> white w1 -> white w2 -> elements_text [i] (w1 ++ t ++ w2)
  | et_more i t w1 w2 l r : value_text i t -> white w1 -> white w2 -> elements_text l r ->
      elements_text (i :: l) (w1 ++ t ++ w2 ++ 44 :: r)
with members_text : list cJSON -> list Z -> Prop :=
  | mt_last i t n k w1 w2 w3 w4 : literal_text n k -> value_text i t -> white w1 -> white w2 -> white w3 -> white w4 ->
      members_text [with_name (Some n) i] (w1 ++ k ++ w2 ++ 58 :: w3 ++ t ++ w4)
  | mt_more i t n k w1 w2 w3 w4 l r : literal_text n k -> value_text i t -> white w1 -> white w2 -> white w3 -> white w4 ->
      members_text l r ->
      members_text (with_name (Some n) i :: l) (w1 ++ k ++ w2 ++ 58 :: w3 ++ t ++ w4 ++ 44 :: r).

Scheme value_text_mind := Induction for value_text Sort Prop
  with elements_text_mind := Induction for elements_text Sort Prop
  with members_text_mind := Induction for members_text Sort Prop.

(** How deep arrays and objects are nested. *)
Fixpoint nesting (i : cJSON) : Z :=
  match i with
  | mkItem l t _ _ _ _ =>
    (if (t =? cJSON_Array) || (t =? cJSON_Object) then 1 else 0) + fold_right (fun c m => Z.max (nesting c) m) 0 l
  end.

(** ** What is ahead in the buffer *)
Definition ahead (b : parse_buffer) (l : list Z) : Prop := inside b /\ seg (content b) (offset b) (buf_length b) = l.

Lemma seg_head t p e c l : seg t p e = c :: l -> 0 <= p -> rd8 t p = Ok c /\ p < e /\ seg t (p + 1) e = l.
Proof.
  intros E Hp. assert (Hlt : p < e).
  { destruct (Z.lt_ge_cases p e); [done|]. by rewrite seg_nil in E. }
  unfold seg in E. destruct (drop (Z.to_nat p) t) as [|x r] eqn:Ed; [by rewrite take_nil in E|].
  assert (Ex : rd8 t p = Ok x).
  { unfold rd8. destruct (Z.leb_spec 0 p); [|lia]. rewrite <- (Nat.add_0_r (Z.to_nat p)), <- lookup_drop, Ed. done. }
  change (take (Z.to_nat (e - p)) (drop (Z.to_nat p) t)) with (seg t p e) in *.
  pose proof (seg_cons t p e x Ex ltac:(lia)) as Es. unfold seg in Es at 1. rewrite Ed, E in Es. injection Es as <- ->. done.
Qed.

Lemma seg_app t e l r : forall p, seg t p e = l ++ r -> 0 <= p -> seg t (p + zlen l) e = r.
Proof.
  induction l as [|c l IH]; intros p E Hp; [change (zlen []) with 0; by rewrite Z.add_0_r|].
  apply seg_head in E as (_ & _ & E); [|done]. apply IH in E; [|lia]. rewrite zlen_cons. by replace (p + (zlen l + 1)) with (p + 1 + zlen l) by lia.
Qed.

Lemma ahead_cons b c l : ahead b (c :: l) -> at_offset b 0 = Ok c /\ can_access_at_index b 0 = true /\
  (l <> [] -> ahead (advance 1 b) l).
Proof.
  intros [Hb E]. pose proof (in_offset b Hb). apply seg_head in E as (E1 & E2 & E3); [|lia].
  split; [unfold at_offset; by rewrite Z.add_0_r|]. split; [by apply can_access_inside|]. intros Hl. split; [|done].
  apply inside_offset; [done|]. destruct (Z.lt_ge_cases (offset b + 1) (buf_length b)); [lia|]. by rewrite seg_nil in E3.
Qed.
Lemma ahead_app b t l : ahead b (t ++ l) -> l <> [] -> ahead (advance (zlen t) b) l.
Proof.
  revert b. induction t as [|c t IH]; intros b Hb Hl.
  - unfold advance. change (zlen []) with 0. rewrite Z.add_0_r. by destruct b.
  - apply ahead_cons in Hb as (_ & _ & Hb). specialize (Hb ltac:(by destruct t)). apply IH in Hb; [|done].
    unfold advance in *. cbn in Hb. rewrite zlen_cons. by replace (offset b + (zlen t + 1)) with (offset b + 1 + zlen t) by lia.
Qed.
Lemma advance_twice m n b : advance m (advance n b) = advance (n + m) b.
Proof. destruct b. unfold advance, set_offset. cbn. f_equal. lia. Qed.
Lemma ahead_depth b d l : ahead b l -> ahead (set_depth d b) l.
Proof. intros [Hb E]. split; [by apply inside_depth|done]. Qed.

(** ** Reading ahead *)
Lemma zlen_ahead b l : ahead b l -> zlen l = buf_length b - offset b.
Proof.
  intros [Hb <-]. pose proof (in_offset b Hb). pose proof (in_block b Hb). unfold seg, zlen in *. rewrite length_take, length_drop. lia.
Qed.

Lemma byte_is_ahead b c l x : ahead b (c :: l) -> byte_is b x = Ok (c =? x).
Proof. intros Hb. apply ahead_cons in Hb as (E1 & E2 & _). unfold byte_is. by rewrite E2, E1. Qed.

Fixpoint prefixb (s l : list Z) : bool :=
  match s, l with
  | [], _ => true
  | x :: s', c :: l' => (c =? x) && prefixb s' l'
  | _ :: _, [] => false
  end.
Lemma starts_ahead b s : forall i l, 0 <= offset b + i -> seg (content b) (offset b + i) (buf_length b) = l -> zlen s <= zlen l ->
  starts_with b i s = Ok (prefixb s l).
Proof.
  induction s as [|x s IH]; intros i l Hi El Hl; [done|]. destruct l as [|c l].
  { rewrite zlen_cons, zlen_nil in Hl. pose proof (zlen_nonneg s). lia. }
  rewrite !zlen_cons in Hl. apply seg_head in El as (E1 & E2 & E3); [|done]. cbn [starts_with prefixb]. unfold at_offset. rewrite E1.
  cbn [rbind]. destruct (c =? x); [|done]. apply IH; [lia| |lia]. by rewrite Z.add_assoc.
Qed.
Lemma prefixb_short s : forall l, zlen l < zlen s -> prefixb s l = false.
Proof.
  induction s as [|x s IH]; intros l Hl; [pose proof (zlen_nonneg l); change (zlen []) with 0 in Hl; lia|].
  destruct l as [|c l]; [done|]. rewrite !zlen_cons in Hl. cbn. rewrite IH by lia. apply andb_false_r.
Qed.
Lemma reads_ahead b l s : ahead b l -> reads b s = Ok (prefixb s l).
Proof.
  intros Hb. pose proof (zlen_ahead b l Hb) as E. destruct Hb as [Hb El]. pose proof (in_offset b Hb). unfold reads, can_read.
  destruct (Z.leb_spec (offset b + zlen s) (buf_length b)); [|by rewrite prefixb_short by lia].
  apply starts_ahead; rewrite ?Z.add_0_r; done || lia.
Qed.

Lemma skip_loop_ahead w c l : white w -> 32 < c -> forall fuel b, ahead b (w ++ c :: l) -> zlen w <= Z.of_nat fuel ->
  skip_loop fuel b = Ok (advance (zlen w) b).
Proof.
  intros Hw Hc. induction Hw as [|x w Hx Hw IH]; intros fuel b Hb Hf.
  - apply ahead_cons in Hb as (E1 & E2 & _). destruct fuel; cbn [skip_loop]; rewrite E2, E1; cbn [rbind];
      (destruct (Z.leb_spec c 32); [lia|]); unfold advance; change (zlen []) with 0; rewrite Z.add_0_r; by destruct b.
  - pose proof (ahead_cons _ _ _ Hb) as (E1 & E2 & Hb'). specialize (Hb' ltac:(by destruct w)). rewrite zlen_cons in *.
    pose proof (zlen_nonneg w). destruct fuel as [|fuel]; [lia|]. cbn [skip_loop]. rewrite E2, E1. cbn [rbind].
    destruct (Z.leb_spec x 32); [|lia]. rewrite (IH fuel _ Hb') by lia. rewrite advance_twice. f_equal. f_equal. lia.
Qed.
Lemma skip_ahead b w c l : ahead b (w ++ c :: l) -> white w -> 32 < c -> buffer_skip_whitespace b = Ok (advance (zlen w) b).
Proof.
  intros Hb Hw Hc. unfold buffer_skip_whitespace. rewrite can_access_inside by apply Hb. cbn [negb].
  pose proof (zlen_ahead _ _ Hb) as E. pose proof (in_block b (proj1 Hb)). pose proof (in_offset b (proj1 Hb)).
  rewrite zlen_app, zlen_cons in E. pose proof (zlen_nonneg l).
  rewrite (skip_loop_ahead w c l Hw Hc) by (done || unfold zlen in *; lia). cbn [rbind].
  pose proof (in_offset _ (proj1 (ahead_app b w (c :: l) Hb ltac:(done)))) as Ho. cbn in Ho |- *.
  by destruct (Z.eqb_spec (offset b + zlen w) (buf_length b)); [lia|].
Qed.

(** ** Numbers and strings *)
Lemma copy_number_ahead t c l n : Forall (fun c => number_char c = true) t -> number_char c = false -> forall b i, inside b ->
  0 <= i -> seg (content b) (offset b + i) (buf_length b) = t ++ c :: l -> zlen t <= Z.of_nat n -> copy_number n b i = Ok t.
Proof.
  intros Ht Hc. revert n. induction Ht as [|x t Hx Ht IH]; intros n b i Hb Hi El Hn; pose proof (in_offset b Hb).
  - apply seg_head in El as (E1 & E2 & _); [|lia]. destruct n; [done|]. cbn [copy_number]. unfold can_access_at_index, at_offset.
    rewrite E1. destruct (Z.ltb_spec (offset b + i) (buf_length b)); [|lia]. cbn [rbind]. by rewrite Hc.
  - apply seg_head in El as (E1 & E2 & E3); [|lia]. rewrite zlen_cons in Hn. pose proof (zlen_nonneg t). destruct n as [|n]; [lia|].
    cbn [copy_number]. unfold can_access_at_index, at_offset. rewrite E1. destruct (Z.ltb_spec (offset b + i) (buf_length b)); [|lia].
    cbn [rbind]. rewrite Hx, (IH n b (i + 1)); [done|done|lia| |lia]. by rewrite Z.add_assoc.
Qed.

Lemma hex_plain c d : hex_digit c = Some d -> c <> quote /\ c <> 92.
Proof. intros E. pose proof (hex_digit_ok c d E) as [_ H]. split; [|done]. intros ->. by vm_compute in E. Qed.

(** The first pass ends at the closing quote. *)
Lemma string_end_plain b fuel c p sk : rd8 (content b) p = Ok c -> p < buf_length b -> c <> quote -> c <> 92 -> (0 < fuel)%nat ->
  string_end fuel b p sk = string_end (pred fuel) b (p + 1) sk.
Proof.
  intros E Hp Hq Hb Hf. destruct fuel as [|fuel]; [lia|]. cbn [string_end pred]. destruct (Z.ltb_spec p (buf_length b)); [|lia].
  rewrite E. cbn [rbind]. destruct (Z.eqb_spec c quote); [done|]. by destruct (Z.eqb_spec c 92).
Qed.
Lemma string_end_escape b fuel p sk : rd8 (content b) p = Ok 92 -> p + 1 < buf_length b -> (0 < fuel)%nat ->
  string_end fuel b p sk = string_end (pred fuel) b (p + 2) (sk + 1).
Proof.
  intros E Hp Hf. destruct fuel as [|fuel]; [lia|]. cbn [string_end pred]. destruct (Z.ltb_spec p (buf_length b)); [|lia].
  rewrite E. cbn [rbind]. destruct (Z.eqb_spec 92 quote); [done|]. destruct (Z.leb_spec (buf_length b) (p + 1)); [lia|done].
Qed.
Lemma string_end_plains b l : Forall (fun c => c <> quote /\ c <> 92) l -> forall fuel p sk r, 0 <= p -> r <> [] ->
  seg (content b) p (buf_length b) = l ++ r -> (length l < fuel)%nat ->
  string_end fuel b p sk = string_end (fuel - length l) b (p + zlen l) sk.
Proof.
  intros Hl. induction Hl as [|c l [Hq Hc] Hl IH]; intros fuel p sk r Hp Hr El Hf.
  - cbn [length]. change (zlen []) with 0. by rewrite Z.add_0_r, Nat.sub_0_r.
  - cbn [length] in *. apply seg_head in El as (E1 & E2 & E3); [|done]. rewrite (string_end_plain b fuel c) by (done || lia).
    rewrite (IH (pred fuel) (p + 1) sk r) by (done || lia). rewrite zlen_cons. f_equal; lia.
Qed.
Lemma hex4_plain l h : hex4 l h -> Forall (fun c => c <> quote /\ c <> 92) l /\ length l = 4%nat.
Proof.
  intros (c1 & c2 & c3 & c4 & d1 & d2 & d3 & d4 & -> & H1 & H2 & H3 & H4 & _). split; [|done].
  repeat (apply Forall_cons_2; [by eapply hex_plain|]). by apply Forall_nil_2.
Qed.

(** One escaped code: two bytes and four digits. *)
Lemma string_end_code b fuel p sk l h r : hex4 l h -> 0 <= p -> r <> [] ->
  seg (content b) p (buf_length b) = 92 :: 117 :: l ++ r -> (5 < fuel)%nat ->
  seg (content b) (p + 6) (buf_length b) = r /\ string_end fuel b p sk = string_end (fuel - 5) b (p + 6) (sk + 1).
Proof.
  intros (Hl & El4)%hex4_plain Hp Hr El Hf. apply seg_head in El as (E1 & E2 & E3); [|done].
  apply seg_head in E3 as (E4 & E5 & E6); [|lia]. replace (p + 1 + 1) with (p + 2) in E6 by lia.
  assert (Hl4 : zlen l = 4) by (unfold zlen; lia). pose proof (seg_app _ _ _ _ _ E6 ltac:(lia)) as E7. rewrite Hl4 in E7.
  replace (p + 2 + 4) with (p + 6) in E7 by lia. split; [done|].
  rewrite string_end_escape by (done || lia). rewrite (string_end_plains b l Hl _ _ _ r) by (done || lia).
  rewrite Hl4, El4. f_equal; lia.
Qed.

Lemma string_end_text b s t : string_text s t -> forall fuel p sk l, 0 <= p ->
  seg (content b) p (buf_length b) = t ++ quote :: l -> (length t < fuel)%nat ->
  exists sk', string_end fuel b p sk = Ok (Some (p + zlen t, sk')).
Proof.
  induction 1 as [|c s t Hq Hc Ht IH|e c s t He Ht IH|h4 h u s t Hh _ _ Ht IH|l1 l2 h1 h2 u s t Hh1 Hh2 _ _ _ Ht IH];
    intros fuel p sk l Hp El Hf; repeat first [rewrite <- app_assoc in El | progress cbn [app] in El].
  - apply seg_head in El as (E1 & E2 & _); [|done]. exists sk. change (zlen []) with 0. rewrite Z.add_0_r.
    destruct fuel; cbn [string_end]; (destruct (Z.ltb_spec p (buf_length b)); [|lia]); by rewrite E1.
  - apply seg_head in El as (E1 & E2 & E3); [|done]. cbn [length] in Hf. rewrite (string_end_plain b fuel c) by (done || lia).
    destruct (IH (pred fuel) (p + 1) sk l) as (sk' & ->); [lia|done|lia|]. exists sk'. rewrite zlen_cons. do 3 f_equal. lia.
  - apply seg_head in El as (E1 & E2 & E3); [|done]. apply seg_head in E3 as (E4 & E5 & E6); [|lia]. cbn [length] in Hf.
    rewrite string_end_escape by (done || lia). replace (p + 1 + 1) with (p + 2) in E6 by lia.
    destruct (IH (pred fuel) (p + 2) (sk + 1) l) as (sk' & ->); [lia|done|lia|]. exists sk'. rewrite !zlen_cons. do 3 f_equal. lia.
  - pose proof (hex4_plain h4 h Hh) as [_ E4]. cbn [length] in Hf. rewrite length_app, E4 in Hf.
    destruct (string_end_code b fuel p sk h4 h (t ++ quote :: l) Hh Hp ltac:(by destruct t) El ltac:(lia)) as [E6 ->].
    destruct (IH (fuel - 5)%nat (p + 6) (sk + 1) l) as (sk' & ->); [lia|done|lia|]. exists sk'.
    rewrite !zlen_cons, zlen_app. do 3 f_equal. unfold zlen. lia.
  - pose proof (hex4_plain l1 h1 Hh1) as [_ E4]. pose proof (hex4_plain l2 h2 Hh2) as [_ E5].
    cbn [length] in Hf. rewrite !length_app in Hf. cbn [length] in Hf. rewrite length_app, E4, E5 in Hf.
    destruct (string_end_code b fuel p sk l1 h1 (92 :: 117 :: l2 ++ t ++ quote :: l) Hh1 Hp ltac:(done)) as [E6 ->].
    { done. } { lia. }
    destruct (string_end_code b (fuel - 5) (p + 6) (sk + 1) l2 h2 (t ++ quote :: l) Hh2 ltac:(lia) ltac:(by destruct t) E6 ltac:(lia)) as [E7 ->].
    destruct (IH (fuel - 5 - 5)%nat (p + 6 + 6) (sk + 1 + 1) l) as (sk' & ->); [lia|done|lia|]. exists sk'.
    rewrite !zlen_cons, zlen_app, !zlen_cons, zlen_app. do 3 f_equal. unfold zlen. lia.
Qed.

Lemma parse_hex4_text t p e l h r : hex4 l h -> 0 <= p -> seg t p e = l ++ r -> parse_hex4 t p = Ok h.
Proof.
  intros (c1 & c2 & c3 & c4 & d1 & d2 & d3 & d4 & -> & H1 & H2 & H3 & H4 & ->) Hp E. cbn [app] in E.
  apply seg_head in E as (E1 & _ & E); [|done]. apply seg_head in E as (E2 & _ & E); [|lia].
  apply seg_head in E as (E3 & _ & E); [|lia]. apply seg_head in E as (E4 & _ & _); [|lia].
  unfold parse_hex4. cbn [parse_hex Nat.eqb]. rewrite E1. cbn [rbind]. rewrite H1, E2. cbn [rbind]. rewrite H2, E3. cbn [rbind].
  rewrite H3, E4. cbn [rbind]. rewrite H4. f_equal. rewrite !Z.shiftl_mul_pow2 by lia. lia.
Qed.

(** The second pass, when it stays in its block, writes the string. *)
Lemma copy_string_nil text size e fuel p out r : 0 <= p -> seg text p e = [] ->
  copy_string fuel text size e p out = Ok r -> fst r = Some out.
Proof.
  intros Hp El Er. destruct (Z.lt_ge_cases p e) as [Hlt|Hge].
  - destruct fuel; cbn [copy_string] in Er; (destruct (Z.ltb_spec p e); [|lia]); [done|].
    destruct (rd8 text p) as [c| | |] eqn:E; [|done..]. by rewrite (seg_cons text p e c E) in El.
  - destruct fuel; cbn [copy_string] in Er; (destruct (Z.ltb_spec p e); [lia|]); by injection Er as <-.
Qed.
(** A step of it on [c]. *)
Definition copy_step (fuel : nat) (text : list Z) (size e p : Z) (out : list Z) (c : Z) : res (option (list Z) * Z) :=
  if negb (c =? 92) then let* out := emit size out [c] in copy_string fuel text size e (p + 1) out
  else
    let* x := rd8 text (p + 1) in
    match unescape x with
    | Some y => let* out := emit size out [y] in copy_string fuel text size e (p + 2) out
    | None =>
      if x =? 117 then
        let* r := utf16_literal_to_utf8 text p e in
        if fst r =? 0 then Ok (None, p)
        else let* out := emit size out (snd r) in copy_string fuel text size e (p + fst r) out
      else Ok (None, p)
    end.
Lemma copy_string_cons text size e fuel p out r c l : 0 <= p -> seg text p e = c :: l ->
  copy_string fuel text size e p out = Ok r -> exists fuel', copy_step fuel' text size e p out c = Ok r /\ p < e /\ seg text (p + 1) e = l.
Proof.
  intros Hp (E1 & E2 & E3)%seg_head Er; [|done]. destruct fuel as [|fuel]; cbn [copy_string] in Er;
    (destruct (Z.ltb_spec p e); [|lia]); [done|]. rewrite E1 in Er. exists fuel. split; [|done]. cbn [rbind] in Er. unfold copy_step.
  destruct (negb (c =? 92)); [done|]. by destruct (Z.ltb_spec (e - p) 1); [lia|].
Qed.
Lemma emit_inv {A} size out l (k : list Z -> res A) r : (let* out := emit size out l in k out) = Ok r -> k (out ++ l) = Ok r.
Proof. unfold emit. by destruct (_ <=? _). Qed.

Lemma seg_long t p e l r : seg t p e = l ++ r -> l <> [] -> p + zlen l <= e.
Proof.
  intros E Hl. apply (f_equal length) in E. unfold seg in E. rewrite length_take, length_app in E. unfold zlen.
  destruct l; [done|]. cbn [length] in *. lia.
Qed.
Lemma hex4_long t p e l h r : hex4 l h -> seg t p e = l ++ r -> p + 4 <= e.
Proof.
  intros (_ & E4)%hex4_plain E. apply seg_long in E; [unfold zlen in E; lia|]. by intros ->.
Qed.

(** The two forms of a code. *)
Lemma utf16_single text p e l h u r : hex4 l h -> ~ (55296 <= h <= 57343) -> utf8_encode h = Some u -> 0 <= p ->
  seg text (p + 2) e = l ++ r -> utf16_literal_to_utf8 text p e = Ok (6, u).
Proof.
  intros Hh Hs Hu Hp El. unfold utf16_literal_to_utf8. pose proof (hex4_long _ _ _ _ _ _ Hh El).
  destruct (Z.ltb_spec (e - p) 6); [lia|]. rewrite (parse_hex4_text _ (p + 2) _ _ _ _ Hh ltac:(lia) El). cbn [rbind].
  destruct ((56320 <=? h) && (h <=? 57343)) eqn:E1; [exfalso; lia|]. destruct ((55296 <=? h) && (h <=? 56319)) eqn:E2; [exfalso; lia|]. by rewrite Hu.
Qed.
Lemma utf16_pair text p e l1 l2 h1 h2 u r : hex4 l1 h1 -> hex4 l2 h2 -> 55296 <= h1 <= 56319 -> 56320 <= h2 <= 57343 ->
  utf8_encode (65536 + Z.lor (Z.shiftl (Z.land h1 1023) 10) (Z.land h2 1023)) = Some u -> 0 <= p ->
  seg text (p + 2) e = l1 ++ 92 :: 117 :: l2 ++ r -> utf16_literal_to_utf8 text p e = Ok (12, u).
Proof.
  intros Hh1 Hh2 Hr1 Hr2 Hu Hp El. unfold utf16_literal_to_utf8. pose proof (hex4_long _ _ _ _ _ _ Hh1 El).
  destruct (Z.ltb_spec (e - p) 6); [lia|]. rewrite (parse_hex4_text _ (p + 2) _ _ _ _ Hh1 ltac:(lia) El). cbn [rbind].
  destruct ((56320 <=? h1) && (h1 <=? 57343)) eqn:E1; [exfalso; lia|]. destruct ((55296 <=? h1) && (h1 <=? 56319)) eqn:E2; [|exfalso; lia]. clear E1 E2.
  apply seg_app in El; [|lia]. replace (zlen l1) with 4 in El by (apply hex4_plain in Hh1 as [_ E4]; unfold zlen; lia).
  replace (p + 2 + 4) with (p + 6) in El by lia.
  apply seg_head in El as (F1 & _ & El); [|lia]. apply seg_head in El as (F2 & _ & El); [|lia].
  replace (p + 6 + 1 + 1) with (p + 6 + 2) in El by lia. pose proof (hex4_long _ _ _ _ _ _ Hh2 El).
  destruct (Z.ltb_spec (e - (p + 6)) 6); [lia|]. rewrite F1. cbn [rbind Z.eqb Pos.eqb negb]. rewrite F2. cbn [rbind Z.eqb Pos.eqb negb].
  rewrite (parse_hex4_text _ (p + 6 + 2) _ _ _ _ Hh2 ltac:(lia) El). cbn [rbind].
  destruct (_ || _) eqn:E3; [exfalso; lia|]. by rewrite Hu.
Qed.

Lemma copy_string_text text size e s t : string_text s t -> forall fuel p out r, 0 <= p -> seg text p e = t ->
  copy_string fuel text size e p out = Ok r -> fst r = Some (out ++ s).
Proof.
  induction 1 as [|c s t Hq Hc Ht IH|x c s t He Ht IH|h4 h u s t Hh Hs Hu Ht IH|l1 l2 h1 h2 u s t Hh1 Hh2 Hs1 Hs2 Hu Ht IH];
    intros fuel p out r Hp El Er; [rewrite app_nil_r; by apply copy_string_nil in Er| | | |];
    (destruct (copy_string_cons _ _ _ _ _ _ _ _ _ Hp El Er) as (k & Ek & Hlt & E2); clear Er El fuel; unfold copy_step in Ek).
  - destruct (Z.eqb_spec c 92); [done|]. cbn [negb] in Ek. apply emit_inv, IH in Ek; [|lia|done]. by rewrite <- app_assoc in Ek.
  - apply seg_head in E2 as (E3 & _ & E4); [|lia]. cbn [Z.eqb Pos.eqb negb] in Ek. rewrite E3 in Ek. cbn [rbind] in Ek.
    rewrite He in Ek. apply emit_inv, IH in Ek; [|lia|by replace (p + 2) with (p + 1 + 1) by lia]. by rewrite <- app_assoc in Ek.
  - apply seg_head in E2 as (E3 & _ & E4); [|lia]. cbn [Z.eqb Pos.eqb negb] in Ek. rewrite E3 in Ek. cbn [rbind] in Ek.
    change (unescape 117) with (@None Z) in Ek. cbn [Z.eqb Pos.eqb] in Ek. replace (p + 1 + 1) with (p + 2) in E4 by lia.
    rewrite (utf16_single _ _ _ _ _ _ _ Hh Hs Hu Hp E4) in Ek. cbn [rbind fst snd Z.eqb] in Ek.
    apply seg_app in E4; [|lia]. replace (zlen h4) with 4 in E4 by (apply hex4_plain in Hh as [_ E5]; unfold zlen; lia).
    apply emit_inv, IH in Ek; [|lia|by replace (p + 6) with (p + 2 + 4) by lia]. by rewrite <- app_assoc in Ek.
  - apply seg_head in E2 as (E3 & _ & E4); [|lia]. cbn [Z.eqb Pos.eqb negb] in Ek. rewrite E3 in Ek. cbn [rbind] in Ek.
    change (unescape 117) with (@None Z) in Ek. cbn [Z.eqb Pos.eqb] in Ek. replace (p + 1 + 1) with (p + 2) in E4 by lia.
    rewrite (utf16_pair _ _ _ _ _ _ _ _ _ Hh1 Hh2 Hs1 Hs2 Hu Hp E4) in Ek. cbn [rbind fst snd Z.eqb] in Ek.
    apply seg_app in E4; [|lia]. replace (zlen l1) with 4 in E4 by (apply hex4_plain in Hh1 as [_ E5]; unfold zlen; lia).
    apply seg_head in E4 as (_ & _ & E4); [|lia]. apply seg_head in E4 as (_ & _ & E4); [|lia]. apply seg_app in E4; [|lia].
    replace (zlen l2) with 4 in E4 by (apply hex4_plain in Hh2 as [_ E5]; unfold zlen; lia).
    apply emit_inv, IH in Ek; [|lia|by replace (p + 12) with (p + 2 + 4 + 1 + 1 + 4) by lia]. by rewrite <- app_assoc in Ek.
Qed.

Lemma parse_string_text b item s t l : literal_text s t -> ahead b (t ++ l) -> l <> [] ->
  parse_string item b =
  Ok (Some (mkItem (child item) cJSON_String (Some s) (valueint item) (valuedouble item) (item_string item)), advance (zlen t) b).
Proof.
  intros (t' & Ht & ->) Hb Hl. pose proof Hb as [Hin El]. pose proof (in_offset b Hin). pose proof (in_block b Hin).
  pose proof (zlen_ahead _ _ Hb) as Hlen. cbn [app] in El, Hlen. rewrite <- app_assoc in El, Hlen. cbn [app] in El, Hlen.
  rewrite zlen_cons, zlen_app, zlen_cons in Hlen. pose proof (zlen_nonneg l).
  apply seg_head in El as (E1 & _ & E2); [|lia].
  destruct (parse_string_ok item b Hin) as (r & E & _). rewrite E. f_equal. unfold parse_string, at_offset in E.
  rewrite Z.add_0_r, E1 in E. cbn [rbind] in E. rewrite Z.eqb_refl in E. cbn [negb] in E.
  destruct (string_end_text b s t' Ht (length (content b)) (offset b + 1) 0 l ltac:(lia) E2 ltac:(unfold zlen in *; lia)) as (sk & Ee).
  rewrite Ee in E. cbn [rbind] in E. set (e := offset b + 1 + zlen t') in *.
  assert (E3 : seg (content b) (offset b + 1) e = t').
  { unfold seg in E2 |- *. apply (f_equal (take (length t'))) in E2. rewrite take_app_length, take_take in E2.
    etransitivity; [|exact E2]. f_equal. unfold e, zlen in *. lia. }
  destruct (copy_string _ _ _ _ _ _) as [[o q]| | |] eqn:Ec; [|done..]. cbn [rbind] in E.
  eapply copy_string_text in Ec as Ho; [|exact Ht|lia|exact E3]. cbn [fst app] in Ho. subst o.
  destruct (emit _ _ _); [|done..]. cbn [rbind] in E. injection E as <-. f_equal. unfold advance. f_equal.
  unfold e. rewrite zlen_cons, zlen_app. change (zlen [quote]) with 1. lia.
Qed.

(** ** Values *)
Definition blank_item (item : cJSON) : Prop :=
  child item = [] /\ valuestring item = None /\ valueint item = 0 /\ valuedouble item = S754_zero false.

Lemma value_head i t : value_text i t -> exists c r, t = c :: r /\ 32 < c < 128 /\ c <> 93 /\ c <> 125.
Proof.
  intros [| | |s u (t' & _ & ->)|d n u _ _ _ _ (c & r & -> & Hc)| | | |].
  all: eexists _, _; split; [reflexivity|try by vm_compute]. unfold is_digit in Hc. lia.
Qed.
Lemma literal_head s t : literal_text s t -> exists r, t = quote :: r.
Proof. intros (t' & _ & ->). by eexists. Qed.
Lemma white_app w1 w2 : white w1 -> white w2 -> white (w1 ++ w2).
Proof. intros. by apply Forall_app. Qed.

(** The texts of the elements begin with white space and something else. *)
Lemma elements_head l t : elements_text l t -> exists w c r, t = w ++ c :: r /\ white w /\ 32 < c /\ c <> 93.
Proof.
  intros [i u w1 w2 Hv Hw1 Hw2|i u w1 w2 l' r Hv Hw1 Hw2 _]; destruct (value_head i u Hv) as (c & k & -> & H1 & H2 & _);
    (exists w1, c; eexists; split; [reflexivity|by destruct H1]).
Qed.
Lemma members_head l t : members_text l t -> exists w c r, t = w ++ c :: r /\ white w /\ 32 < c /\ c <> 125.
Proof.
  intros [i u n k w1 w2 w3 w4 Hk _ Hw _ _ _|i u n k w1 w2 w3 w4 l' r Hk _ Hw _ _ _ _]; destruct (literal_head n k Hk) as (k' & ->);
    (exists w1, quote; eexists; split; [reflexivity|]; split; [done|]; unfold quote; lia).
Qed.

Definition nestings (l : list cJSON) : Z := fold_right (fun c m => Z.max (nesting c) m) 0 l.
Lemma nesting_container l t : t = cJSON_Array \/ t = cJSON_Object ->
  nesting (mkItem l t None 0 (S754_zero false) None) = 1 + nestings l.
Proof. by intros [-> | ->]. Qed.
Lemma nesting_nonneg i : 0 <= nesting i.
Proof.
  destruct i as [l t ? ? ? ?]. cbn. assert (H : forall l, 0 <= fold_right (fun c m => Z.max (nesting c) m) 0 l) by (clear; induction l; cbn; lia).
  specialize (H l). destruct (_ || _); lia.
Qed.
Lemma nestings_nonneg l : 0 <= nestings l.
Proof. unfold nestings. induction l; cbn; lia. Qed.
Lemma nesting_name n i : nesting (with_name n i) = nesting i.
Proof. by destruct i. Qed.
Lemma nestings_cons i l : nestings (i :: l) = Z.max (nesting i) (nestings l).
Proof. done. Qed.

Definition value_ok (i : cJSON) (t : list Z) : Prop := forall fuel item b c l,
  blank_item item -> ahead b (t ++ c :: l) -> number_char c = false -> 0 <= depth b ->
  depth b + nesting i <= CJSON_NESTING_LIMIT -> CJSON_NESTING_LIMIT - depth b < Z.of_nat fuel ->
  parse_value fuel item b = Ok (Some (with_name (item_string item) i), advance (zlen t) b).
Definition elements_ok (element : nat -> parse_buffer -> res (option cJSON * parse_buffer)) (close : Z)
  (l : list cJSON) (t : list Z) : Prop := forall fuel k b items r,
  ahead (advance 1 b) (t ++ close :: r) -> 0 <= depth b -> depth b + nestings l <= CJSON_NESTING_LIMIT ->
  CJSON_NESTING_LIMIT - depth b < Z.of_nat fuel -> zlen t <= Z.of_nat k ->
  element_loop (element fuel) close k b items = Ok (Some (items ++ l), advance (1 + zlen t) b).

Lemma value_name i t : value_text i t -> with_name None i = i.
Proof. by intros []. Qed.

(** The first byte decides. *)
Lemma prefixb_head x s c l : c <> x -> prefixb (x :: s) (c :: l) = false.
Proof. intros. cbn. by destruct (Z.eqb_spec c x). Qed.
Lemma parse_value_head fuel item b c l : ahead b (c :: l) -> c <> 110 -> c <> 102 -> c <> 116 ->
  parse_value (S fuel) item b =
  if c =? quote then parse_string item b
  else if (c =? 45) || is_digit c then parse_number item b
  else if c =? 91 then parse_array (parse_value fuel) item b
  else if c =? 123 then parse_object (parse_value fuel) item b
  else Ok (None, b).
Proof.
  intros Hb H1 H2 H3. cbn [parse_value]. rewrite !(reads_ahead _ _ _ Hb).
  change (cstr "null") with (110 :: cstr "ull"). change (cstr "false") with (102 :: cstr "alse"). change (cstr "true") with (116 :: cstr "rue").
  rewrite !prefixb_head by done. cbn [rbind]. rewrite !(byte_is_ahead _ _ _ _ Hb). cbn [rbind].
  pose proof (ahead_cons _ _ _ Hb) as (E1 & E2 & _). unfold number_start. rewrite E2, E1. cbn [rbind]. done.
Qed.

Ltac fuel_pos fuel := destruct fuel as [|fuel]; [lia|].

Lemma keyword_ok i s v : (forall l, prefixb (cstr "null") (cstr s ++ l) = String.eqb s "null") ->
  (forall l, prefixb (cstr "false") (cstr s ++ l) = String.eqb s "false") ->
  (forall l, prefixb (cstr "true") (cstr s ++ l) = String.eqb s "true") ->
  (s = "null" /\ i = blank cJSON_NULL \/ s = "false" /\ i = blank cJSON_False \/ s = "true" /\ i = set_true (blank cJSON_True))%string ->
  v = cstr s -> value_ok i v.
Proof.
  intros H1 H2 H3 Hs -> fuel item b c l (B1 & B2 & B3 & B4) Hb _ _ Hd Hf. pose proof (nesting_nonneg i). fuel_pos fuel.
  cbn [parse_value]. rewrite !(reads_ahead _ _ _ Hb), H1, H2, H3. destruct item as [ch ty vs vi vd nm]. cbn in B1, B2, B3, B4. subst.
  by destruct Hs as [[-> ->]|[[-> ->]|[-> ->]]].
Qed.

Lemma string_ok s t : literal_text s t -> value_ok (mkItem [] cJSON_String (Some s) 0 (S754_zero false) None) t.
Proof.
  intros Ht fuel item b c l (B1 & B2 & B3 & B4) Hb _ _ Hd Hf. change (nesting _) with 0 in Hd. fuel_pos fuel.
  pose proof (literal_head s t Ht) as [r Er]. rewrite Er in Hb. rewrite (parse_value_head _ _ _ _ _ Hb) by (by unfold quote).
  rewrite Z.eqb_refl, <- Er in *. rewrite (parse_string_text b item s t (c :: l) Ht Hb) by done.
  destruct item. cbn in *. by subst.
Qed.

Lemma number_ok d n t : Forall (fun c => number_char c = true) t -> zlen t <= 63 -> strtod t = (d, zlen t) -> saturate d = Ok n ->
  (exists c r, t = c :: r /\ (c = 45 \/ is_digit c = true)) -> value_ok (mkItem [] cJSON_Number None n d None) t.
Proof.
  intros Ht Hl Hd Hn (c0 & r & Et & Hc0) fuel item b c l (B1 & B2 & B3 & B4) Hb Hc _ Hde Hf. change (nesting _) with 0 in Hde. fuel_pos fuel.
  assert (Hr : 45 <= c0 <= 57) by (unfold is_digit in Hc0; lia). rewrite Et in Hb. cbn [app] in Hb.
  rewrite (parse_value_head _ _ _ _ _ Hb) by lia. destruct (Z.eqb_spec c0 quote) as [->|_]; [by destruct Hc0|].
  replace ((c0 =? 45) || is_digit c0) with true by (destruct Hc0 as [->| ->]; [done|by rewrite orb_true_r]).
  unfold parse_number. change (c0 :: r ++ c :: l) with ((c0 :: r) ++ c :: l) in Hb. rewrite <- Et in Hb. destruct Hb as [Hin El].
  rewrite (copy_number_ahead t c l 63 Ht Hc b 0 Hin) by (rewrite ?Z.add_0_r; done || lia). cbn [rbind]. rewrite Hd.
  destruct (Z.eqb_spec (zlen t) 0) as [E0|_]; [rewrite Et, zlen_cons in E0; pose proof (zlen_nonneg r); lia|].
  rewrite Hn. cbn [rbind]. destruct item. cbn in *. by subst.
Qed.

(** ** Loops over elements *)
Lemma buf_eq b o : advance (o - offset b) b = set_offset o b.
Proof. destruct b. unfold advance, set_offset. cbn. f_equal. lia. Qed.

Lemma after_ahead close b w c r : ahead b (w ++ c :: r) -> white w -> 32 < c -> after_element close b =
  if c =? 44 then Ok (Some true, advance (zlen w) b)
  else Ok (if c =? close then Some false else None, advance (zlen w) b).
Proof.
  intros Hb Hw Hc. unfold after_element. rewrite (skip_ahead b w c r) by done. cbn [rbind].
  apply ahead_app in Hb; [|done]. rewrite !(byte_is_ahead _ _ _ _ Hb). cbn [rbind]. by destruct (c =? 44).
Qed.
Lemma loop_last element close k b b1 i items w r : element b = Ok (Some i, b1) -> ahead b1 (w ++ close :: r) -> white w ->
  32 < close -> close <> 44 -> element_loop element close k b items = Ok (Some (items ++ [i]), advance (zlen w) b1).
Proof.
  intros E Hb Hw Hc Hne. destruct k; cbn [element_loop]; rewrite E; cbn [rbind]; rewrite (after_ahead close b1 w close r) by done;
    (destruct (Z.eqb_spec close 44); [done|]); by rewrite Z.eqb_refl.
Qed.
Lemma loop_more element close k b b1 i items w r : element b = Ok (Some i, b1) -> ahead b1 (w ++ 44 :: r) -> white w ->
  element_loop element close (S k) b items = element_loop element close k (advance (zlen w) b1) (items ++ [i]).
Proof. intros E Hb Hw. cbn [element_loop]. rewrite E. cbn [rbind]. by rewrite (after_ahead close b1 w 44 r) by done. Qed.

(** What follows a value in a container is no part of a number. *)
Lemma white_next w c r : white w -> number_char c = false -> exists x l, w ++ c :: r = x :: l /\ number_char x = false.
Proof.
  intros Hw Hc. destruct Hw as [|x w Hx Hw]; [by exists c, r|]. exists x, (w ++ c :: r). split; [done|].
  unfold number_char, is_digit. lia.
Qed.

(** A value behind white space. *)
Lemma spaced_value fuel item b i t w c r : value_text i t -> value_ok i t -> blank_item item -> white w -> number_char c = false ->
  ahead b (w ++ t ++ c :: r) -> 0 <= depth b -> depth b + nesting i <= CJSON_NESTING_LIMIT ->
  CJSON_NESTING_LIMIT - depth b < Z.of_nat fuel ->
  (let* b := buffer_skip_whitespace b in parse_value fuel item b) =
    Ok (Some (with_name (item_string item) i), advance (zlen (w ++ t)) b) /\ ahead (advance (zlen (w ++ t)) b) (c :: r).
Proof.
  intros Hv Hok Hbl Hw Hc Hb Hd Hn Hf. split; [|apply ahead_app; [by rewrite <- app_assoc|done]].
  destruct (value_head i t Hv) as (x & k & E & [Hx _] & _). pose proof Hb as Hb'. rewrite E in Hb'. cbn [app] in Hb'.
  rewrite (skip_ahead b w x (k ++ c :: r) Hb' Hw Hx). cbn [rbind]. apply ahead_app in Hb; [|by rewrite E].
  rewrite (Hok fuel item _ c r Hbl Hb Hc Hd Hn Hf). rewrite advance_twice, zlen_app. done.
Qed.

Lemma array_elem fuel b i t w c r : value_text i t -> value_ok i t -> white w -> number_char c = false ->
  ahead (advance 1 b) (w ++ t ++ c :: r) -> 0 <= depth b -> depth b + nesting i <= CJSON_NESTING_LIMIT ->
  CJSON_NESTING_LIMIT - depth b < Z.of_nat fuel ->
  array_element (parse_value fuel) b = Ok (Some i, advance (zlen (w ++ t)) (advance 1 b)) /\
  ahead (advance (zlen (w ++ t)) (advance 1 b)) (c :: r).
Proof.
  intros Hv Hok Hw Hc Hb Hd Hn Hf. unfold array_element.
  destruct (spaced_value fuel cJSON_New_Item (advance 1 b) i t w c r) as [-> Ha]; try done.
  change (item_string cJSON_New_Item) with (@None (list Z)). by rewrite (value_name i t Hv).
Qed.

Lemma object_elem fuel b i t n k w1 w2 w3 c r : literal_text n k -> value_text i t -> value_ok i t -> white w1 -> white w2 -> white w3 ->
  number_char c = false -> ahead (advance 1 b) (w1 ++ k ++ w2 ++ 58 :: w3 ++ t ++ c :: r) ->
  0 <= depth b -> depth b + nesting i <= CJSON_NESTING_LIMIT -> CJSON_NESTING_LIMIT - depth b < Z.of_nat fuel ->
  object_member (parse_value fuel) b =
    Ok (Some (with_name (Some n) i), advance (zlen (w1 ++ k ++ w2 ++ 58 :: w3 ++ t)) (advance 1 b)) /\
  ahead (advance (zlen (w1 ++ k ++ w2 ++ 58 :: w3 ++ t)) (advance 1 b)) (c :: r).
Proof.
  intros Hk Hv Hok Hw1 Hw2 Hw3 Hc Hb Hd Hn Hf. unfold object_member. pose proof (literal_head n k Hk) as [k' Ek].
  split; [|apply ahead_app; [|done]; repeat first [rewrite <- app_assoc | progress cbn [app]]; done].
  pose proof Hb as Hb'. rewrite Ek in Hb'. cbn [app] in Hb'. rewrite (skip_ahead _ w1 quote _ Hb' Hw1) by (unfold quote; lia). cbn [rbind].
  apply ahead_app in Hb; [|by rewrite Ek]. rewrite (parse_string_text _ _ n k _ Hk Hb) by (by destruct w2). cbn [rbind].
  apply ahead_app in Hb; [|by destruct w2]. rewrite (skip_ahead _ w2 58 _ Hb Hw2) by lia. cbn [rbind].
  apply ahead_app in Hb; [|done]. rewrite (byte_is_ahead _ _ _ 58 Hb). cbn [rbind Z.eqb Pos.eqb negb].
  apply ahead_cons in Hb as (_ & _ & Hb). specialize (Hb ltac:(by destruct w3, t)).
  match goal with |- (let* b := buffer_skip_whitespace ?b' in parse_value _ ?it b) = _ =>
    destruct (spaced_value fuel it b' i t w3 c r) as [-> _]; try done end.
  cbn [item_string take_name]. rewrite !advance_twice. do 3 f_equal. rewrite !zlen_app, zlen_cons, zlen_app. lia.
Qed.

Lemma elements_last i t w1 w2 : value_text i t -> value_ok i t -> white w1 -> white w2 ->
  elements_ok (fun f => array_element (parse_value f)) 93 [i] (w1 ++ t ++ w2).
Proof.
  intros Hv Hok Hw1 Hw2 fuel k b items r Hb Hd Hn Hf Hk. rewrite nestings_cons in Hn. pose proof (nestings_nonneg []).
  repeat (rewrite <- app_assoc in Hb). destruct (white_next w2 93 r Hw2 ltac:(done)) as (x & l & Ex & Hx). pose proof Hb as Hb'. rewrite Ex in Hb'.
  destruct (array_elem fuel b i t w1 x l Hv Hok Hw1 Hx Hb' Hd ltac:(lia) Hf) as [E Ha]. rewrite <- Ex in Ha.
  rewrite (loop_last _ 93 k b _ i items w2 r E Ha Hw2) by lia. rewrite !advance_twice. do 3 f_equal. rewrite !zlen_app. lia.
Qed.
Lemma elements_more i t w1 w2 l u : value_text i t -> value_ok i t -> white w1 -> white w2 -> elements_text l u ->
  elements_ok (fun f => array_element (parse_value f)) 93 l u ->
  elements_ok (fun f => array_element (parse_value f)) 93 (i :: l) (w1 ++ t ++ w2 ++ 44 :: u).
Proof.
  intros Hv Hok Hw1 Hw2 Hu IH fuel k b items r Hb Hd Hn Hf Hk. rewrite nestings_cons in Hn.
  repeat first [rewrite <- app_assoc in Hb | progress cbn [app] in Hb]. rewrite !zlen_app, zlen_cons in Hk. pose proof (zlen_nonneg u). pose proof (zlen_nonneg w1).
  pose proof (zlen_nonneg w2). pose proof (zlen_nonneg t). fuel_pos k.
  destruct (white_next w2 44 (u ++ 93 :: r) Hw2 ltac:(done)) as (x & m & Ex & Hx). pose proof Hb as Hb'. rewrite Ex in Hb'.
  destruct (array_elem fuel b i t w1 x m Hv Hok Hw1 Hx Hb' Hd ltac:(lia) Hf) as [E Ha]. rewrite <- Ex in Ha.
  rewrite (loop_more _ 93 k b _ i items w2 _ E Ha Hw2). apply ahead_app in Ha; [|done]. apply ahead_cons in Ha as (_ & _ & Ha).
  rewrite (IH fuel k _ (items ++ [i]) r) by (first [apply Ha; by destruct u | cbn; lia | done]).
  rewrite <- app_assoc, !advance_twice. do 3 f_equal. rewrite !zlen_app, zlen_cons. lia.
Qed.

Lemma members_last i t n k w1 w2 w3 w4 : literal_text n k -> value_text i t -> value_ok i t -> white w1 -> white w2 -> white w3 -> white w4 ->
  elements_ok (fun f => object_member (parse_value f)) 125 [with_name (Some n) i] (w1 ++ k ++ w2 ++ 58 :: w3 ++ t ++ w4).
Proof.
  intros Hl Hv Hok Hw1 Hw2 Hw3 Hw4 fuel m b items r Hb Hd Hn Hf Hm. rewrite nestings_cons, nesting_name in Hn. pose proof (nestings_nonneg []).
  repeat first [rewrite <- app_assoc in Hb | progress cbn [app] in Hb].
  destruct (white_next w4 125 r Hw4 ltac:(done)) as (x & l & Ex & Hx). pose proof Hb as Hb'. rewrite Ex in Hb'.
  destruct (object_elem fuel b i t n k w1 w2 w3 x l Hl Hv Hok Hw1 Hw2 Hw3 Hx Hb' Hd ltac:(lia) Hf) as [E Ha]. rewrite <- Ex in Ha.
  rewrite (loop_last _ 125 m b _ _ items w4 r E Ha Hw4) by lia. rewrite !advance_twice. do 3 f_equal.
  rewrite !zlen_app, !zlen_cons, !zlen_app. lia.
Qed.
Lemma members_more i t n k w1 w2 w3 w4 l u : literal_text n k -> value_text i t -> value_ok i t ->
  white w1 -> white w2 -> white w3 -> white w4 -> members_text l u ->
  elements_ok (fun f => object_member (parse_value f)) 125 l u ->
  elements_ok (fun f => object_member (parse_value f)) 125 (with_name (Some n) i :: l)
    (w1 ++ k ++ w2 ++ 58 :: w3 ++ t ++ w4 ++ 44 :: u).
Proof.
  intros Hl Hv Hok Hw1 Hw2 Hw3 Hw4 Hu IH fuel m b items r Hb Hd Hn Hf Hm. rewrite nestings_cons, nesting_name in Hn.
  repeat first [rewrite <- app_assoc in Hb | progress cbn [app] in Hb].
  assert (Hlen : zlen u < Z.of_nat m).
  { repeat (rewrite zlen_app in Hm || rewrite zlen_cons in Hm). pose proof (zlen_nonneg w1). pose proof (zlen_nonneg w2).
    pose proof (zlen_nonneg w3). pose proof (zlen_nonneg w4). pose proof (zlen_nonneg t). pose proof (zlen_nonneg k). lia. }
  pose proof (zlen_nonneg u). fuel_pos m.
  destruct (white_next w4 44 (u ++ 125 :: r) Hw4 ltac:(done)) as (x & q & Ex & Hx). pose proof Hb as Hb'. rewrite Ex in Hb'.
  destruct (object_elem fuel b i t n k w1 w2 w3 x q Hl Hv Hok Hw1 Hw2 Hw3 Hx Hb' Hd ltac:(lia) Hf) as [E Ha]. rewrite <- Ex in Ha.
  rewrite (loop_more _ 125 m b _ _ items w4 _ E Ha Hw4). apply ahead_app in Ha; [|done]. apply ahead_cons in Ha as (_ & _ & Ha).
  rewrite (IH fuel m _ (items ++ [with_name (Some n) i]) r) by (first [apply Ha; by destruct u | cbn; lia | done]).
  rewrite <- app_assoc, !advance_twice. do 3 f_equal. repeat (rewrite zlen_app || rewrite zlen_cons). lia.
Qed.

(** ** Containers *)
Definition skips (element : parse_buffer -> res (option cJSON * parse_buffer)) : Prop := forall b b1,
  buffer_skip_whitespace (advance 1 b) = Ok b1 -> buffer_skip_whitespace b1 = Ok b1 -> element (advance (-1) b1) = element b.
Lemma array_skips pv : skips (array_element pv).
Proof. intros b b1 E1 E2. unfold array_element. by rewrite advance_back, E1, E2. Qed.
Lemma object_skips pv : skips (object_member pv).
Proof. intros b b1 E1 E2. unfold object_member. by rewrite advance_back, E1, E2. Qed.
Lemma loop_skips element close k b b1 items : skips element -> buffer_skip_whitespace (advance 1 b) = Ok b1 ->
  buffer_skip_whitespace b1 = Ok b1 -> element_loop element close k (advance (-1) b1) items = element_loop element close k b items.
Proof. intros Hs E1 E2. destruct k; cbn [element_loop]; by rewrite (Hs b b1 E1 E2). Qed.
Lemma advance_0 b : advance 0 b = b.
Proof. destruct b. unfold advance, set_offset. cbn. by rewrite Z.add_0_r. Qed.

Lemma empty_elements element close t item b w c r : ahead (advance 1 b) (w ++ close :: c :: r) -> white w -> 32 < close ->
  parse_elements element close t item (set_depth (depth b + 1) b) = Ok (Some (set_children t [] item), advance (zlen w + 2) b).
Proof.
  intros Hb Hw Hc. unfold parse_elements. apply (ahead_depth _ (depth b + 1)) in Hb.
  change (set_depth (depth b + 1) (advance 1 b)) with (advance 1 (set_depth (depth b + 1) b)) in Hb.
  rewrite (skip_ahead _ w close (c :: r) Hb Hw Hc). cbn [rbind]. apply ahead_app in Hb; [|done].
  rewrite (byte_is_ahead _ _ _ _ Hb). cbn [rbind]. rewrite Z.eqb_refl. destruct b. unfold advance, set_depth, set_offset. cbn.
  do 3 f_equal; lia.
Qed.
Lemma full_elements element close t item b l u w x k c r : skips (element) -> u = w ++ x :: k -> white w -> 32 < x -> x <> close ->
  ahead (advance 1 b) (u ++ close :: c :: r) ->
  (forall fuel items, zlen u <= Z.of_nat fuel ->
    element_loop element close fuel (set_depth (depth b + 1) b) items = Ok (Some (items ++ l), advance (1 + zlen u) (set_depth (depth b + 1) b))) ->
  parse_elements element close t item (set_depth (depth b + 1) b) = Ok (Some (set_children t l item), advance (zlen u + 2) b).
Proof.
  intros Hsk Eu Hw Hx Hne Hb Hloop. unfold parse_elements. apply (ahead_depth _ (depth b + 1)) in Hb. pose proof Hb as Hb'.
  rewrite Eu in Hb'. rewrite <- app_assoc in Hb'. cbn [app] in Hb'.
  change (set_depth (depth b + 1) (advance 1 b)) with (advance 1 (set_depth (depth b + 1) b)) in *.
  set (b1 := set_depth (depth b + 1) b) in *.
  pose proof (skip_ahead _ w x _ Hb' Hw Hx) as E1. rewrite E1. cbn [rbind]. apply ahead_app in Hb'; [|done].
  pose proof (skip_ahead _ [] x _ Hb' ltac:(by constructor) Hx) as E2. change (zlen []) with 0 in E2. rewrite advance_0 in E2.
  rewrite (byte_is_ahead _ _ _ _ Hb'). cbn [rbind]. destruct (Z.eqb_spec x close); [done|].
  rewrite can_access_inside by apply Hb'. cbn [negb]. rewrite (loop_skips element close _ b1 _ [] Hsk E1 E2).
  rewrite Hloop. 2:{ pose proof (zlen_ahead _ _ Hb) as Hl. pose proof (in_block _ (proj1 Hb)). pose proof (in_offset _ (proj1 Hb)).
    rewrite zlen_app in Hl. pose proof (zlen_nonneg (close :: c :: r)). cbn in *. unfold zlen in *. lia. }
  cbn [rbind app]. unfold b1. destruct b. unfold advance, set_depth, set_offset. cbn. do 3 f_equal; lia.
Qed.

Lemma array_head fuel item b l : ahead b (91 :: l) -> depth b < CJSON_NESTING_LIMIT ->
  parse_value (S fuel) item b = parse_elements (array_element (parse_value fuel)) 93 cJSON_Array item (set_depth (depth b + 1) b).
Proof.
  intros Hb Hd. rewrite (parse_value_head _ _ _ _ _ Hb) by lia. change (91 =? quote) with false. cbn [Z.eqb Pos.eqb orb is_digit andb Z.leb Z.compare Pos.compare Pos.compare_cont].
  unfold parse_array. destruct (Z.leb_spec CJSON_NESTING_LIMIT (depth b)); [lia|].
  by destruct (ahead_cons _ _ _ (ahead_depth b (depth b + 1) _ Hb)) as (-> & _ & _).
Qed.
Lemma object_head fuel item b l : ahead b (123 :: l) -> depth b < CJSON_NESTING_LIMIT ->
  parse_value (S fuel) item b = parse_elements (object_member (parse_value fuel)) 125 cJSON_Object item (set_depth (depth b + 1) b).
Proof.
  intros Hb Hd. rewrite (parse_value_head _ _ _ _ _ Hb) by lia. change (123 =? quote) with false. cbn [Z.eqb Pos.eqb orb is_digit andb Z.leb Z.compare Pos.compare Pos.compare_cont].
  unfold parse_object. destruct (Z.leb_spec CJSON_NESTING_LIMIT (depth b)); [lia|].
  by rewrite (byte_is_ahead _ _ _ 123 (ahead_depth b (depth b + 1) _ Hb)).
Qed.

(** The containers as values. *)
Lemma empty_ok close open t w element :
  (forall fuel item b l, ahead b (open :: l) -> depth b < CJSON_NESTING_LIMIT ->
     parse_value (S fuel) item b = parse_elements (element fuel) close t item (set_depth (depth b + 1) b)) ->
  t = cJSON_Array \/ t = cJSON_Object -> 32 < close -> white w -> value_ok (blank t) (open :: w ++ [close]).
Proof.
  intros Hhead Ht Hc Hw fuel item b c l (B1 & B2 & B3 & B4) Hb _ _ Hd Hf.
  unfold blank in Hd. rewrite nesting_container in Hd by done. pose proof (nestings_nonneg []). fuel_pos fuel.
  cbn [app] in Hb. rewrite <- app_assoc in Hb. cbn [app] in Hb. rewrite (Hhead _ _ _ _ Hb) by lia.
  apply ahead_cons in Hb as (_ & _ & Hb). specialize (Hb ltac:(by destruct w)). rewrite (empty_elements _ _ _ _ _ w c l) by done.
  rewrite zlen_cons, zlen_app. change (zlen [close]) with 1. replace (zlen w + 1 + 1) with (zlen w + 2) by lia.
  destruct item. cbn in *. by subst.
Qed.
Lemma full_ok close open t l u w x k
  (element : (cJSON -> parse_buffer -> res (option cJSON * parse_buffer)) -> parse_buffer -> res (option cJSON * parse_buffer)) :
  (forall fuel item b l, ahead b (open :: l) -> depth b < CJSON_NESTING_LIMIT ->
     parse_value (S fuel) item b = parse_elements (element (parse_value fuel)) close t item (set_depth (depth b + 1) b)) ->
  (forall pv, skips (element pv)) -> t = cJSON_Array \/ t = cJSON_Object -> u = w ++ x :: k -> white w -> 32 < x -> x <> close ->
  elements_ok (fun f => element (parse_value f)) close l u ->
  value_ok (mkItem l t None 0 (S754_zero false) None) (open :: u ++ [close]).
Proof.
  intros Hhead Hsk Ht Eu Hw Hx Hne Hel fuel item b c r (B1 & B2 & B3 & B4) Hb _ Hd0 Hd Hf.
  rewrite nesting_container in Hd by done. pose proof (nestings_nonneg l). fuel_pos fuel.
  cbn [app] in Hb. rewrite <- app_assoc in Hb. cbn [app] in Hb. rewrite (Hhead _ _ _ _ Hb) by lia.
  apply ahead_cons in Hb as (_ & _ & Hb). specialize (Hb ltac:(by destruct u)).
  rewrite (full_elements _ close t item b l u w x k c r (Hsk _) Eu Hw Hx Hne Hb).
  2:{ intros fu items Hfu. apply (Hel fuel fu _ items (c :: r)); cbn [depth set_depth]; try (lia || exact Hfu). by apply (ahead_depth _ (depth b + 1)) in Hb. }
  rewrite zlen_cons, zlen_app. change (zlen [close]) with 1. replace (zlen u + 1 + 1) with (zlen u + 2) by lia.
  destruct item. cbn in *. by subst.
Qed.

Lemma value_complete i t : value_text i t -> value_ok i t.
Proof.
  revert i t. apply (value_text_mind (fun i t _ => value_ok i t)
    (fun l u _ => elements_ok (fun f => array_element (parse_value f)) 93 l u)
    (fun l u _ => elements_ok (fun f => object_member (parse_value f)) 125 l u)).
  - apply (keyword_ok _ "null"); auto.
  - apply (keyword_ok _ "false"); auto.
  - apply (keyword_ok _ "true"); auto 6.
  - apply string_ok.
  - apply number_ok.
  - intros w Hw. apply (empty_ok 93 91 cJSON_Array w (fun f => array_element (parse_value f))); auto; [by apply array_head|lia].
  - intros l u Hu Hel. destruct (elements_head l u Hu) as (w & x & k & Eu & Hw & Hx & Hne).
    apply (full_ok 93 91 cJSON_Array l u w x k array_element); try done; [apply array_head|apply array_skips|by left].
  - intros w Hw. apply (empty_ok 125 123 cJSON_Object w (fun f => object_member (parse_value f))); auto; [by apply object_head|lia].
  - intros l u Hu Hel. destruct (members_head l u Hu) as (w & x & k & Eu & Hw & Hx & Hne).
    apply (full_ok 125 123 cJSON_Object l u w x k object_member); try done; [apply object_head|apply object_skips|by right].
  - intros. by apply elements_last.
  - intros. by apply elements_more.
  - intros. by apply members_last.
  - intros. by apply members_more.
Qed.

(** ** The whole text *)
Lemma skip_loop_end l : Forall (fun c => c <= 32) l -> forall fuel b, ahead b l -> zlen l <= Z.of_nat fuel ->
  skip_loop fuel b = Ok (set_offset (buf_length b) b).
Proof.
  induction 1 as [|c l Hc Hl IH]; intros fuel b Hb Hf.
  { pose proof (zlen_ahead _ _ Hb) as E. pose proof (in_offset b (proj1 Hb)). change (zlen []) with 0 in E. lia. }
  pose proof (ahead_cons _ _ _ Hb) as (E1 & E2 & Hb'). pose proof (zlen_ahead _ _ Hb) as El. rewrite zlen_cons in *.
  pose proof (zlen_nonneg l). fuel_pos fuel. cbn [skip_loop]. rewrite E2, E1. cbn [rbind]. destruct (Z.leb_spec c 32); [|lia].
  destruct l as [|c' l].
  - change (zlen []) with 0 in El. destruct fuel; cbn [skip_loop]; unfold can_access_at_index; cbn;
      (destruct (Z.ltb_spec (offset b + 1 + 0) (buf_length b)); [lia|]); unfold advance; do 2 f_equal; lia.
  - rewrite (IH fuel _ (Hb' ltac:(done))) by lia. done.
Qed.
Lemma skip_end b w : ahead b (w ++ [0]) -> white w -> buffer_skip_whitespace b = Ok (advance (zlen w) b).
Proof.
  intros Hb Hw. unfold buffer_skip_whitespace. rewrite can_access_inside by apply Hb. cbn [negb].
  pose proof (zlen_ahead _ _ Hb) as El. pose proof (in_block b (proj1 Hb)). pose proof (in_offset b (proj1 Hb)).
  rewrite (skip_loop_end (w ++ [0])); [| |done|unfold zlen in *; lia].
  - cbn [rbind set_offset offset buf_length]. rewrite Z.eqb_refl. rewrite zlen_app in El. change (zlen [0]) with 1 in El.
    unfold advance, set_offset. cbn. do 2 f_equal. lia.
  - apply Forall_app. split; [|by apply Forall_cons_2]. eapply Forall_impl; [|exact Hw]. cbn. lia.
Qed.

Lemma c_str_plain t : Forall (fun c => 0 < c < 256) t -> c_str t = t /\ Forall is_u8 t.
Proof.
  induction 1 as [|c t Hc Ht [IH1 IH2]]; [done|]. split; [|apply Forall_cons_2; [unfold is_u8; lia|done]].
  cbn [c_str]. destruct (Z.eqb_spec c 0); [lia|]. by rewrite IH1.
Qed.

Lemma parse_text w1 w2 t i : white w1 -> white w2 -> value_text i t -> nesting i <= CJSON_NESTING_LIMIT ->
  Forall (fun c => 0 < c < 256) (w1 ++ t ++ w2) ->
  forall req, cJSON_ParseWithOpts (Some (w1 ++ t ++ w2)) req = Ok (Some i, if req then zlen (w1 ++ t ++ w2) else zlen (w1 ++ t)).
Proof.
  intros Hw1 Hw2 Ht Hnest Hbytes.
  intros req. destruct (c_str_plain _ Hbytes) as [Ec Hu8]. unfold cJSON_ParseWithOpts, cJSON_ParseWithLengthOpts.
  set (text := w1 ++ t ++ w2) in *. pose proof (zlen_nonneg text). unfold strlen. rewrite Ec.
  destruct (Z.eqb_spec (zlen text + 1) 0); [lia|].
  set (b := mkBuf _ _ 0 0). pose proof (inside_start text Hu8) as Hin. unfold strlen in Hin. rewrite Ec in Hin. fold b in Hin.
  assert (Hb : ahead b (w1 ++ t ++ w2 ++ [0])).
  { split; [done|]. unfold seg. cbn. rewrite drop_0, take_ge; [unfold text; by rewrite <- !app_assoc|]. rewrite length_app. unfold zlen. cbn. lia. }
  destruct (value_head i t Ht) as (x & k & Et & [Hx Hx'] & _).
  assert (Hbom : skip_utf8_bom b = Ok b).
  { unfold skip_utf8_bom. destruct (can_access_at_index b 4); [|done]. cbn [starts_with].
    assert (exists y m, w1 ++ t ++ w2 ++ [0] = y :: m /\ y < 128) as (y & m & Ey & Hy).
    { destruct Hw1 as [|y w1 Hy _]; [by exists x, (k ++ w2 ++ [0]); rewrite Et|]. by exists y, (w1 ++ t ++ w2 ++ [0]); split; [|lia]. }
    rewrite Ey in Hb. destruct (ahead_cons _ _ _ Hb) as (-> & _ & _). cbn [rbind]. by destruct (Z.eqb_spec y 239); [lia|]. }
  rewrite Hbom. cbn [rbind].
  destruct (white_next w2 0 [] Hw2 eq_refl) as (c & l & Ec' & Hc).
  destruct (spaced_value (Z.to_nat CJSON_NESTING_LIMIT + 1) cJSON_New_Item b i t w1 c l) as [E Ha]; try done;
    [by apply value_complete|by rewrite <- Ec'|].
  destruct (buffer_skip_whitespace b) as [b1| | |]; [|done..]. cbn [rbind] in E |- *. rewrite E. cbn [rbind].
  change (item_string cJSON_New_Item) with (@None (list Z)). rewrite (value_name i t Ht).
  destruct req; [|done]. rewrite <- Ec' in Ha. rewrite (skip_end _ w2 Ha Hw2). cbn [rbind].
  apply ahead_app in Ha; [|done]. rewrite (byte_is_ahead _ _ _ 0 Ha). cbn [rbind]. rewrite Z.eqb_refl. do 2 f_equal.
  cbn. rewrite zlen_app. unfold text. rewrite !zlen_app. lia.
Qed.

(** C30: The parser understands the whole language.  Every text of the grammar (any
    white space, every kind of escape sequence including pairs of surrogate codes,
    numbers of up to 63 characters, duplicate names) whose nesting is at most the
    limit is accepted, with the item the grammar assigns to it, strings decoded to
    UTF-8 and numbers rounded and saturated; the position returned is behind the
    value, or at the end of the text when the text has to be terminated. *)
Theorem cJSON_Parse_complete (w1 w2 t : list Z) (i : cJSON) (require_null_terminated : bool)
  (Hw1 : white w1) (Hw2 : white w2) (Ht : value_text i t) (Hnest : nesting i <= CJSON_NESTING_LIMIT)
  (Hbytes : Forall (fun c => 0 < c < 256) (w1 ++ t ++ w2)) :
  cJSON_ParseWithOpts (Some (w1 ++ t ++ w2)) require_null_terminated =
    Ok (Some i, if require_null_terminated then zlen (w1 ++ t ++ w2) else zlen (w1 ++ t)) /\
  cJSON_Parse (w1 ++ t ++ w2) = Ok (Some i).
Proof.
  pose proof (parse_text w1 w2 t i Hw1 Hw2 Ht Hnest Hbytes) as H. split; [apply H|]. unfold cJSON_Parse. by rewrite H.
Qed.

Definition ex_pair : list Z := [quote; 92; 117] ++ cstr "d83d" ++ [92; 117] ++ cstr "de00" ++ [92; 110; quote].
Definition ex_value : list Z := cstr "[" ++ ex_pair ++ cstr " , 2.50e1]".
Definition ex_item : cJSON :=
  ex_array [mkItem [] cJSON_String (Some [240; 159; 152; 128; 10]) 0 (S754_zero false) None;
            mkItem [] cJSON_Number None 25 (double_of_int 25) None].
Lemma ex_value_text : value_text ex_item ex_value.
Proof.
  change ex_value with (91 :: ([] ++ ex_pair ++ [32] ++ 44 :: [32] ++ cstr "2.50e1" ++ []) ++ [93]). apply vt_array. apply et_more.
  - apply vt_string. exists (92 :: 117 :: cstr "d83d" ++ 92 :: 117 :: cstr "de00" ++ [92; 110]). split; [|reflexivity].
    refine (st_pair _ _ 55357 56832 [240; 159; 152; 128] [10] [92; 110] _ _ _ _ _ _); [|
      |lia|lia|reflexivity|by apply (st_escape 110), st_nil]; by eexists _, _, _, _, _, _, _, _.
  - constructor.
  - by apply Forall_cons_2.
  - apply (et_last _ (cstr "2.50e1") [32] []); [|by apply Forall_cons_2|constructor].
    apply vt_number; [repeat constructor|done|by vm_compute|by vm_compute|]. eexists _, _. split; [reflexivity|by right].
Qed.
Lemma cJSON_Parse_complete_witness :
  cJSON_ParseWithOpts (Some ([32] ++ ex_value ++ [10])) true = Ok (Some ex_item, zlen ([32] ++ ex_value ++ [10])) /\
  cJSON_Parse ([32] ++ ex_value ++ [10]) = Ok (Some ex_item).
Proof.
  apply (cJSON_Parse_complete [32] [10] ex_value ex_item true); try (by apply Forall_cons_2).
  - apply ex_value_text.
  - by vm_compute.
  - apply List.Forall_forall. intros c Hc. 
    assert (Hall : forallb (fun c => (0 <? c) && (c <? 256)) ([32] ++ ex_value ++ [10]) = true) by done.
    rewrite forallb_forall in Hall. specialize (Hall c Hc). lia.
Defined.
