(* ===== verification/CJsonPrint.v ===== *)
(** The printer of the cJSON library (the printing part of ext/cjson/cJSON.c).

    The buffer is a block of bytes that grows by reallocation; what a fresh block
    holds is the parameter [junk].  Every write and every search for a final zero is
    checked against the block.  Allocation always succeeds. *)
From S2P Require Import Prelude CJson CFormat CJsonParse.
From Stdlib Require Import Ascii String.
From stdpp Require Import base list numbers.
From Stdlib Require Import List ZArith Lia SpecFloat.
Open Scope Z_scope.
Open Scope c_scope.

Section Print.
Context (junk : Z -> Z).

(** ** The buffer *)
Record printbuffer : Type := mkPrint {
  buffer : list Z;
  pb_length : Z;
  pb_offset : Z;
  pb_depth : Z;
  noalloc : bool;
  format : bool
}.
Definition set_buffer (b : list Z) (n : Z) (p : printbuffer) : printbuffer :=
  mkPrint b n (pb_offset p) (pb_depth p) (noalloc p) (format p).
Definition move (n : Z) (p : printbuffer) : printbuffer :=
  mkPrint (buffer p) (pb_length p) (pb_offset p + n) (pb_depth p) (noalloc p) (format p).
Definition deepen (n : Z) (p : printbuffer) : printbuffer :=
  mkPrint (buffer p) (pb_length p) (pb_offset p) (pb_depth p + n) (noalloc p) (format p).

Definition allocate (n : Z) : list Z := map junk (seqZ 0 n).
Definition realloc (b : list Z) (n : Z) : list Z :=
  take (Z.to_nat n) b ++ map junk (seqZ (zlen b) (n - zlen b)).

(** Nothing for a null pointer; the pointer of the code is [pb_offset]. *)
Definition ensure (p : printbuffer) (needed : Z) : option printbuffer :=
  if (0 <? pb_length p) && (pb_length p <=? pb_offset p) then None
  else if INT_MAX <? needed then None
  else
    let needed := needed + pb_offset p + 1 in
    if needed <=? pb_length p then Some p
    else if noalloc p then None
    else if INT_MAX / 2 <? needed then
      if needed <=? INT_MAX then Some (set_buffer (realloc (buffer p) INT_MAX) INT_MAX p) else None
    else Some (set_buffer (realloc (buffer p) (needed * 2)) (needed * 2) p).

(** [strlen(b + off)] *)
Definition strlen_at (b : list Z) (off : Z) : res Z :=
  if (0 <=? off) && existsb (Z.eqb 0) (drop (Z.to_nat off) b) then Ok (zlen (c_str (drop (Z.to_nat off) b))) else UB.
Definition update_offset (p : printbuffer) : res printbuffer :=
  let* n := strlen_at (buffer p) (pb_offset p) in Ok (move n p).

(** Writing at the pointer. *)
Definition put (p : printbuffer) (l : list Z) : res printbuffer :=
  let* b := zblit (buffer p) (pb_offset p) l in Ok (set_buffer b (pb_length p) p).
(** [ensure] and writing, which most functions begin with; [None] is a result of
    false. *)
Definition ensure_put (p : printbuffer) (needed : Z) (l : list Z) : res (option printbuffer) :=
  match ensure p needed with
  | None => Ok None
  | Some p => let* p := put p l in Ok (Some p)
  end.
Definition obind {A B} (m : res (option A)) (k : A -> res (option B)) : res (option B) :=
  let* o := m in match o with None => Ok None | Some a => k a end.

(** ** Numbers *)
Definition DBL_EPSILON : double := S754_finite false 4503599627370496 (-104).
Definition compare_double (a b : double) : bool :=
  let maxVal := if SFltb (SFabs b) (SFabs a) then SFabs a else SFabs b in
  SFleb (SFabs (SFsub 53 1024 a b)) (SFmul 53 1024 maxVal DBL_EPSILON).
Definition is_finite (d : double) : bool := match d with S754_zero _ | S754_finite _ _ _ => true | _ => false end.

Definition number_text (d : double) (n : Z) : list Z :=
  if negb (is_finite d) then cstr "null"
  else if SFeqb d (double_of_int n) then print_d n
  else
    let t := print_g 15 d in
    let '(test, used) := strtod t in
    if (used =? 0) || negb (compare_double test d) then print_g 17 d else t.

Definition print_number (item : cJSON) (p : printbuffer) : res (option printbuffer) :=
  let* t := fits_buf 26 (number_text (valuedouble item) (valueint item)) in
  obind (ensure_put p (zlen t + 1) (t ++ [0])) (fun p => Ok (Some (move (zlen t) p))).

(** ** Strings *)
Definition plain_char (c : Z) : bool := (31 <? c) && negb (c =? quote) && negb (c =? 92).
(** The letter behind the backslash. *)
Definition escape_letter (c : Z) : option Z :=
  if c =? 92 then Some 92 else if c =? quote then Some quote else if c =? 8 then Some 98 else if c =? 12 then Some 102
  else if c =? 10 then Some 110 else if c =? 13 then Some 114 else if c =? 9 then Some 116 else None.
Definition hex_letter (d : Z) : Z := if d <? 10 then 48 + d else 87 + d.
(** ["u%04x"] of a byte *)
Definition escape_code (c : Z) : list Z := [117; 48; 48; hex_letter (c / 16); hex_letter (c mod 16)].

Definition escape_size (c : Z) : Z :=
  match escape_letter c with Some _ => 1 | None => if c <? 32 then 5 else 0 end.
Definition escape_characters (s : list Z) : Z := fold_left (fun n c => n + escape_size c) s 0.

(** The loop over the string, from the output position [op] on. *)
Fixpoint copy_escaped (b : list Z) (op : Z) (s : list Z) : res (list Z) :=
  match s with
  | [] => Ok b
  | c :: s' =>
    if plain_char c then let* b := zblit b op [c] in copy_escaped b (op + 1) s'
    else
      let* b := zblit b op [92] in
      match escape_letter c with
      | Some x => let* b := zblit b (op + 1) [x] in copy_escaped b (op + 2) s'
      | None => let* b := zblit b (op + 1) (escape_code c ++ [0]) in copy_escaped b (op + 6) s'
      end
  end.

Definition print_string_ptr (input : option (list Z)) (p : printbuffer) : res (option printbuffer) :=
  match input with
  | None => ensure_put p 3 [quote; quote; 0]
  | Some block =>
    let s := c_str block in
    let escapes := escape_characters s in
    let output_length := zlen s + escapes in
    match ensure p (output_length + 3) with
    | None => Ok None
    | Some p =>
      let output := pb_offset p in
      if escapes =? 0 then
        let* p := put p (quote :: s ++ [quote; 0]) in Ok (Some p)
      else
        let* b := zblit (buffer p) output [quote] in
        let* b := copy_escaped b (output + 1) s in
        let* b := zblit b (output + output_length + 1) [quote] in
        let* b := zblit b (output + output_length + 2) [0] in
        Ok (Some (set_buffer b (pb_length p) p))
    end
  end.

(** ** Arrays and objects *)
Section Containers.
Context (print_value : cJSON -> printbuffer -> res (option printbuffer)).

(** Printing a value and moving behind it. *)
Definition print_item (c : cJSON) (p : printbuffer) : res (option printbuffer) :=
  obind (print_value c p) (fun p => let* p := update_offset p in Ok (Some p)).

Definition comma (fmt : bool) : list Z := if fmt then [44; 32] else [44].
Fixpoint array_items (l : list cJSON) (p : printbuffer) : res (option printbuffer) :=
  match l with
  | [] => Ok (Some p)
  | c :: l' =>
    obind (print_item c p) (fun p =>
    match l' with
    | [] => Ok (Some p)
    | _ :: _ =>
      let s := comma (format p) in
      obind (ensure_put p (zlen s + 1) (s ++ [0])) (fun p => array_items l' (move (zlen s) p))
    end)
  end.
Definition print_array (l : list cJSON) (p : printbuffer) : res (option printbuffer) :=
  obind (ensure_put p 1 [91]) (fun p =>
  obind (array_items l (deepen 1 (move 1 p))) (fun p =>
  obind (ensure_put p 2 [93; 0]) (fun p => Ok (Some (deepen (-1) p))))).

Definition tabs (n : Z) : list Z := replicate (Z.to_nat n) 9.
Definition colon (fmt : bool) : list Z := if fmt then [58; 9] else [58].
(** What follows a member. *)
Definition member_end (fmt last : bool) : list Z := (if last then [] else [44]) ++ (if fmt then [10] else []).
Definition print_indent (p : printbuffer) : res (option printbuffer) :=
  let d := pb_depth p in
  if format p then obind (ensure_put p d (tabs d)) (fun p => Ok (Some (move d p)))
  else Ok (Some p).

Fixpoint object_items (l : list cJSON) (p : printbuffer) : res (option printbuffer) :=
  match l with
  | [] => Ok (Some p)
  | c :: l' =>
    obind (print_indent p) (fun p =>
    obind (obind (print_string_ptr (item_string c) p) (fun p => let* p := update_offset p in Ok (Some p))) (fun p =>
    let s := colon (format p) in
    obind (ensure_put p (zlen s) s) (fun p =>
    obind (print_item c (move (zlen s) p)) (fun p =>
    let e := member_end (format p) (match l' with [] => true | _ => false end) in
    obind (ensure_put p (zlen e + 1) (e ++ [0])) (fun p => object_items l' (move (zlen e) p))))))
  end.
Definition open_brace (fmt : bool) : list Z := if fmt then [123; 10] else [123].
Definition print_object (l : list cJSON) (p : printbuffer) : res (option printbuffer) :=
  let o := open_brace (format p) in
  obind (ensure_put p (zlen o + 1) o) (fun p =>
  obind (object_items l (move (zlen o) (deepen 1 p))) (fun p =>
  obind (if format p then ensure_put p (pb_depth p + 1) (tabs (pb_depth p - 1) ++ [125; 0])
         else ensure_put p 2 [125; 0]) (fun p =>
  Ok (Some (deepen (-1) p))))).
End Containers.

(** ** Values *)
Definition print_literal (s : String.string) (p : printbuffer) : res (option printbuffer) :=
  ensure_put p (zlen (cstr s) + 1) (cstr s ++ [0]).

Fixpoint print_value (item : cJSON) (p : printbuffer) : res (option printbuffer) :=
  match item with
  | mkItem l type vs _ _ _ =>
    let t := Z.land type 255 in
    if t =? cJSON_NULL then print_literal "null" p
    else if t =? cJSON_False then print_literal "false" p
    else if t =? cJSON_True then print_literal "true" p
    else if t =? cJSON_Number then print_number item p
    else if t =? cJSON_Raw then
      match vs with None => Ok None | Some block => ensure_put p (strlen block + 1) (c_str block ++ [0]) end
    else if t =? cJSON_String then print_string_ptr vs p
    else if t =? cJSON_Array then print_array print_value l p
    else if t =? cJSON_Object then print_object print_value l p
    else Ok None
  end.

(** ** Entry points: the block with the text, its final zero included *)
Definition print (item : option cJSON) (fmt : bool) : res (option (list Z)) :=
  match item with
  | None => Ok None
  | Some i =>
    obind (print_value i (mkPrint (allocate 256) 256 0 0 false fmt)) (fun p =>
    let* p := update_offset p in
    Ok (Some (realloc (buffer p) (pb_offset p + 1))))
  end.
Definition cJSON_Print (item : option cJSON) : res (option (list Z)) := print item true.
Definition cJSON_PrintUnformatted (item : option cJSON) : res (option (list Z)) := print item false.

Definition cJSON_PrintBuffered (item : option cJSON) (prebuffer : Z) (fmt : bool) : res (option (list Z)) :=
  if prebuffer <? 0 then Ok None
  else
    match item with
    | None => Ok None
    | Some i => obind (print_value i (mkPrint (allocate prebuffer) prebuffer 0 0 false fmt)) (fun p => Ok (Some (buffer p)))
    end.
(** The block of the caller afterwards, when the item was printed. *)
Definition cJSON_PrintPreallocated (item : option cJSON) (block : list Z) (length : Z) (fmt : bool) : res (option (list Z)) :=
  if length <? 0 then Ok None
  else
    match item with
    | None => Ok None
    | Some i => obind (print_value i (mkPrint block length 0 0 true fmt)) (fun p => Ok (Some (buffer p)))
    end.
End Print.

Definition ex_print : cJSON :=
  ex_object [ex_number "a" 5; ex_named "b" (ex_array [mkItem [] cJSON_Number None 1 (double_of_int 1) None; mkItem [] cJSON_String (Some [34; 65; 1]) 0 (S754_zero false) None]);
             ex_named "c" (ex_object [])].
Example ex_printed :
  cJSON_PrintUnformatted (fun _ => 7) (Some ex_print) =
    Ok (Some (cstr "{" ++ quoted "a" ++ cstr ":5," ++ quoted "b" ++ cstr ":[1," ++ [quote; 92; quote; 65; 92] ++ cstr "u0001" ++
              [quote] ++ cstr "]," ++ quoted "c" ++ cstr ":{}}" ++ [0])) /\
  (let* r := cJSON_Print (fun _ => 7) (Some ex_print) in cJSON_Parse (c_str (default [] r))) =
    Ok (Some ex_print).
Proof. by vm_compute. Qed.
