(* ===== verification/CJsonText.v ===== *)
(** What the JSON printer prints: a text defined on the item alone, and that the
    printer writes exactly this text into its buffer. *)
From S2P Require Import Prelude CJson CFormat CJsonParse CJsonSafe CJsonPrint.
From Stdlib Require Import Ascii String.
From stdpp Require Import base list numbers.
From Stdlib Require Import List ZArith Lia SpecFloat.
Open Scope Z_scope.
Open Scope c_scope.

(** ** The text of an item *)
Definition escape_char (c : Z) : list Z :=
  if plain_char c then [c]
  else 92 :: match escape_letter c with Some x => [x] | None => escape_code c end.
Definition string_body (s : list Z) : list Z := flat_map escape_char s.
Definition string_literal (o : option (list Z)) : list Z :=
  quote :: string_body (match o with Some block => c_str block | None => [] end) ++ [quote].

Section Containers.
Context (text : cJSON -> list Z) (fmt : bool).
Fixpoint array_text (l : list cJSON) : list Z :=
  match l with
  | [] => []
  | c :: l' => text c ++ match l' with [] => [] | _ :: _ => comma fmt ++ array_text l' end
  end.
Definition member_text (d : Z) (c : cJSON) (last : bool) : list Z :=
  (if fmt then tabs d else []) ++ string_literal (item_string c) ++ colon fmt ++ text c ++ member_end fmt last.
Fixpoint object_text (d : Z) (l : list cJSON) : list Z :=
  match l with
  | [] => []
  | c :: l' => member_text d c (match l' with [] => true | _ => false end) ++ object_text d l'
  end.
End Containers.

Fixpoint json_text (fmt : bool) (d : Z) (i : cJSON) : list Z :=
  match i with
  | mkItem l type vs n v _ =>
    let t := Z.land type 255 in
    if t =? cJSON_NULL then cstr "null"
    else if t =? cJSON_False then cstr "false"
    else if t =? cJSON_True then cstr "true"
    else if t =? cJSON_Number then number_text v n
    else if t =? cJSON_Raw then c_str (default [] vs)
    else if t =? cJSON_String then string_literal vs
    else if t =? cJSON_Array then [91] ++ array_text (json_text fmt (d + 1)) fmt l ++ [93]
    else open_brace fmt ++ object_text (json_text fmt (d + 1)) fmt (d + 1) l ++ (if fmt then tabs d else []) ++ [125]
  end.

(** Items the printer accepts. *)
Definition string_u8 (o : option (list Z)) : Prop := match o with Some s => Forall is_u8 s | None => True end.
Inductive printable : cJSON -> Prop :=
  | printable_intro i : Forall printable (child i) ->
      In (Z.land (ctype i) 255) [cJSON_NULL; cJSON_False; cJSON_True; cJSON_Number; cJSON_Raw; cJSON_String; cJSON_Array; cJSON_Object] ->
      (Z.land (ctype i) 255 = cJSON_Raw -> valuestring i <> None) ->
      double_ok (valuedouble i) -> string_u8 (valuestring i) -> string_u8 (item_string i) -> printable i.

(** ** Texts have no zero *)
Lemma text_check l : forallb (fun c => negb (c =? 0)) l = true -> text_ok l.
Proof. intros Hl. apply List.Forall_forall. intros c Hc. rewrite forallb_forall in Hl. specialize (Hl c Hc). lia. Qed.
Lemma text_tabs n : text_ok (tabs n).
Proof. unfold tabs. induction (Z.to_nat n); by constructor. Qed.

(** A statement on bytes other than zero, by evaluation. *)
Lemma byte_cases (P : Z -> bool) : forallb P (seqZ 1 255) = true -> forall c, is_u8 c -> c <> 0 -> P c = true.
Proof.
  intros HP c Hc H0. rewrite forallb_forall in HP. apply HP. unfold is_u8 in Hc. apply in_map_iff. exists (Z.to_nat (c - 1)).
  split; [lia|]. apply in_seq. lia.
Qed.
Lemma escape_char_free c : is_u8 c -> c <> 0 -> text_ok (escape_char c) /\ zlen (escape_char c) = 1 + escape_size c.
Proof.
  intros Hc H0. pose proof (byte_cases (fun c => forallb (fun x => negb (x =? 0)) (escape_char c) &&
    (zlen (escape_char c) =? 1 + escape_size c)) ltac:(by vm_compute) c Hc H0) as Hcase.
  apply andb_prop in Hcase as [H1 H2]. split; [by apply text_check|lia].
Qed.

(** The bytes of a C string. *)
Definition string_chars (s : list Z) : Prop := Forall (fun c => is_u8 c /\ c <> 0) s.
Lemma c_str_chars b : Forall is_u8 b -> string_chars (c_str b).
Proof.
  induction 1 as [|c b Hc Hb IH]; [constructor|]. cbn [c_str]. destruct (Z.eqb_spec c 0); [constructor|]. by apply Forall_cons_2.
Qed.
Lemma string_body_ok s : string_chars s -> text_ok (string_body s) /\ zlen (string_body s) = zlen s + escape_characters s.
Proof.
  unfold escape_characters. intros Hs.
  assert (Hfold : forall s n, fold_left (fun n c => n + escape_size c) s n = n + fold_left (fun n c => n + escape_size c) s 0).
  { clear. induction s as [|c s IH]; intros n; cbn [fold_left]; [lia|]. rewrite IH, (IH (0 + _)). lia. }
  induction Hs as [|c s [Hc H0] Hs [IH1 IH2]]; [split; [constructor|done]|]. cbn [string_body flat_map fold_left].
  destruct (escape_char_free c Hc H0) as [E1 E2]. fold (string_body s). split; [by apply text_app|].
  rewrite Hfold, zlen_app, zlen_cons. lia.
Qed.
Lemma string_literal_text o : string_u8 o -> text_ok (string_literal o).
Proof.
  intros Ho. apply Forall_cons_2; [done|]. apply text_app; [|by apply text_check].
  destruct o as [b|]; [|constructor]. by apply string_body_ok, c_str_chars.
Qed.

(** Without escapes the body is the string. *)
Lemma escape_characters_0 s : string_chars s -> escape_characters s = 0 -> string_body s = s.
Proof.
  intros Hs E. destruct (string_body_ok s Hs) as [_ El]. rewrite E, Z.add_0_r in El. clear E.
  induction Hs as [|c s [Hc H0] Hs IH]; [done|]. cbn [string_body flat_map] in *. fold (string_body s) in *.
  destruct (escape_char_free c Hc H0) as [_ E2]. destruct (string_body_ok s Hs) as [_ E3]. rewrite zlen_app, zlen_cons in El.
  assert (Hn : forall x, 0 <= escape_size x) by (intros x; unfold escape_size; destruct (escape_letter x), (x <? 32); lia).
  assert (Hsum : forall l n, n <= fold_left (fun n c => n + escape_size c) l n).
  { intros l. induction l as [|x l IHl]; intros n; cbn; [lia|]. specialize (IHl (n + escape_size x)). specialize (Hn x). lia. }
  specialize (Hsum s 0). fold (escape_characters s) in Hsum. specialize (Hn c). rewrite IH by lia.
  pose proof (byte_cases (fun c => negb (escape_size c =? 0) || bool_decide (escape_char c = [c])) ltac:(by vm_compute) c Hc H0) as Hcase.
  cbn beta in Hcase. replace (escape_size c) with 0 in Hcase by lia. apply bool_decide_eq_true in Hcase. by rewrite Hcase.
Qed.

(** The loop writes the body. *)
Lemma zblit_next pre rest l : zlen l <= zlen rest -> exists rest', zblit (pre ++ rest) (zlen pre) l = Ok (pre ++ l ++ rest') /\
  zlen rest' = zlen rest - zlen l.
Proof.
  intros Hl. exists (drop (length l) rest). unfold zlen in Hl. split; [|unfold zlen; rewrite length_drop; lia].
  rewrite <- (take_drop (length l) rest) at 1. rewrite (zblit_app pre); [done..|]. unfold zlen. rewrite length_take. lia.
Qed.
Lemma copy_escaped_step c s pre rest : zlen (escape_char c) < zlen rest -> exists rest',
  copy_escaped (pre ++ rest) (zlen pre) (c :: s) = copy_escaped ((pre ++ escape_char c) ++ rest') (zlen (pre ++ escape_char c)) s /\
  zlen rest' = zlen rest - zlen (escape_char c).
Proof.
  intros Hl. cbn [copy_escaped]. unfold escape_char in *. destruct (plain_char c).
  - change (zlen [c]) with 1 in Hl. destruct (zblit_next pre rest [c]) as (r1 & -> & E1); [change (zlen [c]) with 1; lia|]. exists r1. cbn [rbind]. by rewrite zlen_snoc, <- app_assoc.
  - rewrite zlen_cons in Hl. pose proof (zlen_nonneg (match escape_letter c with Some x => [x] | None => escape_code c end)).
    destruct (zblit_next pre rest [92]) as (r1 & -> & E1); [change (zlen [92]) with 1; lia|].
    change (zlen [92]) with 1 in E1. cbn [rbind]. rewrite app_assoc, <- zlen_snoc with (x := 92). destruct (escape_letter c) as [x|].
    + change (zlen [x]) with 1 in Hl. destruct (zblit_next (pre ++ [92]) r1 [x]) as (r2 & -> & E2); [change (zlen [x]) with 1; lia|].
      change (zlen [x]) with 1 in E2. exists r2. cbn [rbind]. rewrite zlen_app. change (zlen [92; x]) with 2.
      split; [by rewrite <- !app_assoc|lia].
    + change (zlen (escape_code c)) with 5 in Hl.
      destruct (zblit_next (pre ++ [92]) r1 (escape_code c ++ [0])) as (r2 & -> & E2); [change (zlen (_ ++ [0])) with 6; lia|].
      change (zlen (escape_code c ++ [0])) with 6 in E2. exists (0 :: r2). cbn [rbind]. rewrite zlen_app.
      change (zlen (92 :: escape_code c)) with 6. split; [by rewrite <- !app_assoc|rewrite zlen_cons; lia].
Qed.
Lemma copy_escaped_ok s : forall pre rest, zlen (string_body s) < zlen rest ->
  exists rest', copy_escaped (pre ++ rest) (zlen pre) s = Ok (pre ++ string_body s ++ rest') /\
    zlen rest' = zlen rest - zlen (string_body s).
Proof.
  induction s as [|c s IH]; intros pre rest Hl; [exists rest; by rewrite Z.sub_0_r|].
  cbn [string_body flat_map] in *. fold (string_body s) in *. rewrite zlen_app in Hl. pose proof (zlen_nonneg (string_body s)).
  destruct (copy_escaped_step c s pre rest) as (r1 & -> & E1); [lia|].
  destruct (IH (pre ++ escape_char c) r1) as (r2 & -> & E2); [lia|]. exists r2. rewrite zlen_app. split; [by rewrite <- !app_assoc|lia].
Qed.

(** ** The state of the buffer *)

(** Behind the text [pre], at depth [d]. *)
Record ready (p : printbuffer) (pre : list Z) (d : Z) : Prop := {
  rd_buffer : exists rest, buffer p = pre ++ rest;
  rd_offset : pb_offset p = zlen pre;
  rd_room : zlen pre <= pb_length p <= zlen (buffer p);
  rd_open : 0 < pb_length p -> zlen pre < pb_length p;
  rd_max : pb_length p <= INT_MAX;
  rd_depth : pb_depth p = d
}.
(** Behind [pre], with [l] written and room for [n] bytes. *)
Record put_at (p : printbuffer) (pre l : list Z) (n d : Z) : Prop := {
  pt_buffer : exists rest, buffer p = pre ++ l ++ rest;
  pt_offset : pb_offset p = zlen pre;
  pt_room : zlen pre + n < pb_length p <= zlen (buffer p);
  pt_max : pb_length p <= INT_MAX;
  pt_depth : pb_depth p = d
}.
(** [t] and a final zero are written behind [pre]; the pointer is somewhere in [t]. *)
Record wrote (p : printbuffer) (pre t : list Z) (d : Z) : Prop := {
  wr_buffer : exists rest, buffer p = pre ++ t ++ 0 :: rest;
  wr_offset : zlen pre <= pb_offset p <= zlen pre + zlen t;
  wr_room : zlen pre + zlen t < pb_length p <= zlen (buffer p);
  wr_max : pb_length p <= INT_MAX;
  wr_depth : pb_depth p = d
}.
(** What does not change; the room a buffer can offer. *)
Definition mode (p p' : printbuffer) : Prop :=
  noalloc p' = noalloc p /\ format p' = format p /\ (noalloc p = true -> pb_length p' = pb_length p).
Definition room (p : printbuffer) : Z := if noalloc p then pb_length p else INT_MAX / 2.

(** The outcome of printing: a state, or failure because the text up to [t] needs
    more room. *)
Definition outcome (p : printbuffer) (t : Z) (m : res (option printbuffer)) (Q : printbuffer -> Prop) : Prop :=
  match m with
  | Ok (Some p') => Q p' /\ mode p p'
  | Ok None => room p < t
  | _ => False
  end.

Lemma mode_refl p : mode p p.
Proof. done. Qed.
Lemma mode_trans a b c : mode a b -> mode b c -> mode a c.
Proof. intros (E1 & E2 & E3) (F1 & F2 & F3). split; [by rewrite F1|]. split; [by rewrite F2|]. intros H. rewrite F3, E3; [done..|by rewrite E1]. Qed.
Lemma mode_room p p' : mode p p' -> room p' = room p.
Proof. intros (E1 & E2 & E3). unfold room. rewrite E1. destruct (noalloc p); [by apply E3|done]. Qed.
Lemma outcome_some p t p' (Q : printbuffer -> Prop) : Q p' -> mode p p' -> outcome p t (Ok (Some p')) Q.
Proof. done. Qed.
Lemma outcome_bind p t m k (Q R : printbuffer -> Prop) : outcome p t m Q ->
  (forall p', Q p' -> mode p p' -> outcome p' t (k p') R) -> outcome p t (obind m k) R.
Proof.
  intros Hm Hk. destruct m as [[p'|]| | |]; [|done..]. destruct Hm as [HQ Hmode]. cbn. specialize (Hk p' HQ Hmode).
  destruct (k p') as [[p2|]| | |]; [|cbn in *; by rewrite (mode_room p p') in Hk|done..]. destruct Hk as [HR H2]. split; [done|]. by apply (mode_trans _ p').
Qed.
Lemma outcome_mono p t t' m (Q R : printbuffer -> Prop) : outcome p t m Q -> t <= t' -> (forall p', Q p' -> R p') -> outcome p t' m R.
Proof. intros Hm Ht HQ. destruct m as [[p'|]| | |]; cbn in *; [|lia|done..]. destruct Hm. auto. Qed.

Lemma mode_move p n : mode p (move n p).
Proof. done. Qed.
Lemma mode_deepen p n : mode p (deepen n p).
Proof. done. Qed.
Lemma mode_format p p' f : mode p p' -> format p = f -> format p' = f.
Proof. intros (_ & -> & _). done. Qed.
Lemma ready_deepen p pre d n : ready p pre d -> ready (deepen n p) pre (d + n).
Proof. intros [R1 R2 R3 R4 R5 R6]. constructor; cbn; [done..|lia]. Qed.
Lemma wrote_deepen p pre t d n : wrote p pre t d -> wrote (deepen n p) pre t (d + n).
Proof. intros [R1 R2 R3 R4 R5]. constructor; cbn; [done..|lia]. Qed.
Lemma put_move p pre l n d : put_at p pre l n d -> zlen l <= n -> ready (move (zlen l) p) (pre ++ l) d.
Proof.
  intros [[rest R1] R2 R3 R4 R5] Hl. constructor; cbn; rewrite ?zlen_app; try lia. exists rest. by rewrite R1, <- app_assoc.
Qed.
Lemma put_wrote p pre a c n d : put_at p (pre ++ a) (c ++ [0]) n d -> zlen c < n -> wrote p pre (a ++ c) d.
Proof.
  intros [[rest R1] R2 R3 R4 R5] Hl. pose proof (zlen_nonneg a). pose proof (zlen_nonneg c). rewrite zlen_app in *.
  constructor; rewrite ?zlen_app; try lia. exists rest. by rewrite R1, <- !app_assoc.
Qed.
Lemma wrote_move p pre t d k : wrote p pre t d -> pb_offset p = zlen pre -> 0 <= k <= zlen t -> wrote (move k p) pre t d.
Proof. intros [R1 R2 R3 R4 R5] Ho Hk. constructor; cbn; [done|lia|done..]. Qed.

(** ** The steps of the printer *)
Section Steps.
Context (junk : Z -> Z).

Lemma zlen_realloc b n : 0 <= n -> zlen (realloc junk b n) = n.
Proof.
  intros Hn. unfold realloc. rewrite zlen_app. unfold zlen. rewrite length_take, length_map, length_seqZ. lia.
Qed.
Lemma realloc_prefix pre rest n : zlen pre <= n -> exists rest', realloc junk (pre ++ rest) n = pre ++ rest'.
Proof.
  intros Hn. unfold realloc. unfold zlen in Hn. rewrite take_app_ge by lia. rewrite <- app_assoc. by eexists.
Qed.
Lemma ready_realloc p pre d n : ready p pre d -> 0 <= n -> pb_length p < zlen pre + n + 1 <= INT_MAX -> forall m, zlen pre + n + 1 <= m <= INT_MAX ->
  noalloc p = false -> put_at (set_buffer (realloc junk (buffer p) m) m p) pre [] n d /\ mode p (set_buffer (realloc junk (buffer p) m) m p).
Proof.
  intros [[rest R1] R2 R3 R4 R5 R6] Hn Hl m Hm Ha. pose proof (zlen_nonneg pre). split.
  - constructor; cbn; rewrite ?zlen_realloc by lia; try lia. rewrite R1. apply realloc_prefix. lia.
  - split; [done|]. split; [done|]. rewrite Ha. done.
Qed.
Lemma ensure_ok p pre d n : ready p pre d -> 0 <= n ->
  outcome p (zlen pre + n + 1) (Ok (ensure junk p n)) (fun p' => put_at p' pre [] n d).
Proof.
  intros R Hn. pose proof R as [R1 R2 R3 R4 R5 R6]. pose proof (zlen_nonneg pre). unfold ensure. rewrite R2.
  assert (Hroom : pb_length p < zlen pre + n + 1 -> INT_MAX / 2 < zlen pre + n + 1 -> room p < zlen pre + n + 1)
    by (intros; unfold room; destruct (noalloc p); done).
  assert (Hmax : INT_MAX / 2 = 1073741823 /\ INT_MAX = 2147483647) by done.
  destruct (Z.ltb_spec 0 (pb_length p)), (Z.leb_spec (pb_length p) (zlen pre)); cbn [andb]; try lia;
    (destruct (Z.ltb_spec INT_MAX n); [cbn [outcome]; apply Hroom; lia|]);
    rewrite ?(Z.add_comm n (zlen pre)); (destruct (Z.leb_spec (zlen pre + n + 1) (pb_length p)); [by split; [constructor; [..|lia|lia|lia]|apply mode_refl]|]);
    (destruct (noalloc p) eqn:Ea; [unfold outcome, room; rewrite Ea; lia|]);
    (destruct (Z.ltb_spec (INT_MAX / 2) (zlen pre + n + 1));
      [destruct (Z.leb_spec (zlen pre + n + 1) INT_MAX); [|cbn [outcome]; apply Hroom; lia]|]);
    apply ready_realloc; try done; lia.
Qed.

Lemma put_ok p pre n d l : put_at p pre [] n d -> zlen l <= n -> exists p', put p l = Ok p' /\ put_at p' pre l n d /\ mode p p'.
Proof.
  intros [[rest R1] R2 R3 R4 R5] Hl. unfold put. rewrite R1, R2. cbn [app]. rewrite R1, zlen_app in R3. cbn [app] in R3.
  destruct (zblit_next pre rest l) as (rest' & -> & E); [lia|]. eexists. split; [done|]. split; [|done].
  constructor; cbn; [by eexists|done| |done..]. rewrite !zlen_app. lia.
Qed.
Lemma ensure_put_ok p pre d n l : ready p pre d -> zlen l <= n ->
  outcome p (zlen pre + n + 1) (ensure_put junk p n l) (fun p' => put_at p' pre l n d).
Proof.
  intros R Hl. pose proof (zlen_nonneg l). pose proof (ensure_ok p pre d n R ltac:(lia)) as He. unfold ensure_put.
  destruct (ensure junk p n) as [p1|]; [|done]. destruct He as [He M1]. destruct (put_ok p1 pre n d l He Hl) as (p2 & -> & P2 & M2).
  cbn. split; [done|]. by apply (mode_trans _ p1).
Qed.

(** Writing and moving behind. *)
Lemma ensure_move_ok p pre d n l k : ready p pre d -> zlen l <= n -> k = zlen l ->
  outcome p (zlen pre + n + 1) (obind (ensure_put junk p n l) (fun p => Ok (Some (move k p)))) (fun p' => ready p' (pre ++ l) d).
Proof.
  intros R Hl ->. apply (outcome_bind _ _ _ _ (fun p' => put_at p' pre l n d)); [by apply ensure_put_ok|]. intros p' R' M'.
  split; [|done]. by apply (put_move p' pre l n d).
Qed.

Lemma c_str_zero t rest : text_ok t -> c_str (t ++ 0 :: rest) = t.
Proof.
  induction 1 as [|c t Hc Ht IH]; [done|]. cbn [app c_str]. rewrite IH. by destruct (Z.eqb_spec c 0).
Qed.
Lemma update_offset_ok p pre t d : wrote p pre t d -> text_ok t -> exists p', update_offset p = Ok p' /\ ready p' (pre ++ t) d /\ mode p p'.
Proof.
  intros [[rest R1] R2 R3 R4 R5] Ht. unfold update_offset, strlen_at. pose proof (zlen_nonneg pre).
  destruct (Z.leb_spec 0 (pb_offset p)); [|lia]. set (k := Z.to_nat (pb_offset p - zlen pre)).
  assert (Hd : drop (Z.to_nat (pb_offset p)) (buffer p) = drop k t ++ 0 :: rest).
  { rewrite R1. unfold zlen in *. rewrite drop_app_ge by lia. replace (_ - _)%nat with k by (unfold k; lia).
    by rewrite drop_app_le by (unfold k; lia). }
  rewrite Hd. replace (existsb (Z.eqb 0) _) with true by (symmetry; rewrite existsb_app; cbn; by rewrite orb_true_r).
  cbn [andb rbind]. eexists. split; [done|]. split; [|done]. rewrite c_str_zero by (by apply Forall_drop).
  assert (Ek : pb_offset p + zlen (drop k t) = zlen (pre ++ t)) by (unfold zlen in *; rewrite length_drop, length_app; unfold k; lia).
  constructor; cbn; rewrite ?Ek, ?zlen_app; try lia. exists (0 :: rest). by rewrite R1, <- app_assoc.
Qed.
Lemma offset_updated p T m pre t d : outcome p T m (fun p' => wrote p' pre t d) -> text_ok t ->
  outcome p T (obind m (fun p => let* p := update_offset p in Ok (Some p))) (fun p' => ready p' (pre ++ t) d).
Proof.
  intros Hm Ht. eapply outcome_bind; [exact Hm|]. cbn beta. intros p1 R1 M1.
  destruct (update_offset_ok p1 pre t d R1 Ht) as (p2 & -> & R2 & M2). by split.
Qed.
End Steps.

(** ** What each function prints *)
Section Functions.
Context (junk : Z -> Z).

(** [f] prints [t] from depth [d] on, and ends at depth [d']; or it moves behind [t]
    at the same depth. *)
Definition prints_to (fmt : bool) (d d' : Z) (t : list Z) (f : printbuffer -> res (option printbuffer)) : Prop :=
  forall p pre, format p = fmt -> ready p pre d ->
    outcome p (zlen pre + zlen t + 2) (f p) (fun p' => wrote p' pre t d').
#[local] Abbreviation prints fmt d := (prints_to fmt d d).
Definition extends (fmt : bool) (d : Z) (t : list Z) (f : printbuffer -> res (option printbuffer)) : Prop :=
  forall p pre, format p = fmt -> ready p pre d ->
    outcome p (zlen pre + zlen t + 2) (f p) (fun p' => ready p' (pre ++ t) d).

Lemma put_prints fmt d t n : zlen t < n <= zlen t + 1 -> prints fmt d t (fun p => ensure_put junk p n (t ++ [0])).
Proof.
  intros Hn p pre Hf R. eapply outcome_mono; [apply (ensure_put_ok junk p pre d n _ R)|..]; [rewrite zlen_snoc; lia|lia|].
  intros p' P. apply (put_wrote p' pre [] t n d); [by rewrite app_nil_r|lia].
Qed.
Lemma print_literal_ok fmt d s : prints fmt d (cstr s) (print_literal junk s).
Proof. apply put_prints. lia. Qed.

Lemma number_text_ok v n : double_ok v -> zlen (number_text v n) < 26 /\ text_ok (number_text v n).
Proof.
  intros Hv. unfold number_text. destruct (negb (is_finite v)); [by split; [|apply text_check]|].
  destruct (SFeqb v (double_of_int n)); [split; [pose proof (zlen_print_d n); lia|apply text_print_d]|].
  destruct (strtod (print_g 15 v)) as [test used]. destruct (_ || _); apply print_g_ok; auto.
Qed.
Lemma print_number_ok fmt d i : double_ok (valuedouble i) ->
  prints fmt d (number_text (valuedouble i) (valueint i)) (print_number junk i).
Proof.
  intros Hv p pre Hf R. destruct (number_text_ok _ (valueint i) Hv) as [Hl Ht]. unfold print_number.
  rewrite fits_buf_ok by done. cbn [rbind]. set (t := number_text _ _) in *.
  eapply outcome_bind; [eapply outcome_mono; [apply (ensure_put_ok junk p pre d _ _ R)|..]; [rewrite zlen_snoc; lia|lia|intros ? K; exact K]|].
  cbn beta. intros p1 P1 M1. split; [|done]. pose proof (zlen_nonneg t). apply wrote_move; [|apply P1|lia].
  apply (put_wrote p1 pre [] t (zlen t + 1) d); [by rewrite app_nil_r|lia].
Qed.

Lemma zlen_literal o : zlen (string_literal o) = 2 + zlen (string_body (match o with Some b => c_str b | None => [] end)).
Proof. unfold string_literal. rewrite zlen_cons, zlen_snoc. lia. Qed.
Lemma escaped_ok s p pre d : string_chars s -> put_at p pre [] (zlen (string_body s) + 3) d -> exists b1 b2 b3 b4,
  zblit (buffer p) (pb_offset p) [quote] = Ok b1 /\ copy_escaped b1 (pb_offset p + 1) s = Ok b2 /\
  zblit b2 (pb_offset p + zlen (string_body s) + 1) [quote] = Ok b3 /\ zblit b3 (pb_offset p + zlen (string_body s) + 2) [0] = Ok b4 /\
  wrote (set_buffer b4 (pb_length p) p) pre (quote :: string_body s ++ [quote]) d.
Proof.
  intros Hs [[rest R1] R2 R3 R4 R5]. cbn [app] in R1. rewrite R1 in R3 |- *. rewrite R2, zlen_app in *. pose proof (zlen_nonneg (string_body s)).
  destruct (zblit_next pre rest [quote]) as (r1 & E1 & L1); [change (zlen [quote]) with 1; lia|]. change (zlen [quote]) with 1 in L1.
  rewrite app_assoc in E1. destruct (copy_escaped_ok s (pre ++ [quote]) r1) as (r2 & E2 & L2); [lia|].
  rewrite zlen_snoc in E2. rewrite app_assoc in E2.
  destruct (zblit_next ((pre ++ [quote]) ++ string_body s) r2 [quote]) as (r3 & E3 & L3); [change (zlen [quote]) with 1; lia|].
  change (zlen [quote]) with 1 in L3. rewrite app_assoc in E3.
  destruct (zblit_next (((pre ++ [quote]) ++ string_body s) ++ [quote]) r3 [0]) as (r4 & E4 & L4); [change (zlen [0]) with 1; lia|].
  change (zlen [0]) with 1 in L4. rewrite !zlen_app in E3. rewrite !zlen_app in E4. change (zlen [quote]) with 1 in E3. repeat rewrite zlen_app in E4. change (zlen [quote]) with 1 in E4.
  eexists _, _, _, _. split; [exact E1|]. split; [exact E2|].
  split; [rewrite <- E3; f_equal; lia|]. split; [rewrite <- E4; f_equal; lia|].
  constructor; cbn [buffer set_buffer pb_length pb_offset pb_depth]; rewrite ?zlen_app, ?zlen_cons, ?zlen_app, ?zlen_cons, ?zlen_nil; try lia.
  exists r4. rewrite <- !app_assoc. cbn [app]. by rewrite <- app_assoc.
Qed.
Lemma print_string_ptr_ok fmt d o : string_u8 o -> prints fmt d (string_literal o) (print_string_ptr junk o).
Proof.
  intros Ho p pre Hf R. rewrite zlen_literal. destruct o as [b|]; cbn [print_string_ptr].
  2: { eapply outcome_mono; [apply (put_prints fmt d [quote; quote] 3 ltac:(done) p pre Hf R)|change (zlen (string_body [])) with 0; change (zlen [quote; quote]) with 2; lia|done]. }
  pose proof (c_str_chars b Ho) as Hs. destruct (string_body_ok _ Hs) as [Ht Hl]. rewrite <- Hl. pose proof (zlen_nonneg (string_body (c_str b))).
  pose proof (ensure_ok junk p pre d (zlen (string_body (c_str b)) + 3) R ltac:(lia)) as He.
  destruct (ensure junk p _) as [p1|]; [|cbn in *; lia]. destruct He as [P1 M1].
  destruct (Z.eqb_spec (escape_characters (c_str b)) 0) as [E|E].
  - pose proof (escape_characters_0 _ Hs E) as Eb. rewrite Eb in *.
    destruct (put_ok junk p1 pre (zlen (c_str b) + 3) d (quote :: c_str b ++ [quote; 0]) P1) as (p2 & -> & P2 & M2).
    { rewrite zlen_cons, zlen_app. change (zlen [quote; 0]) with 2. lia. }
    split; [|by apply (mode_trans _ p1)]. unfold string_literal. rewrite Eb.
    apply (put_wrote p2 pre [] (quote :: c_str b ++ [quote]) (zlen (c_str b) + 3) d); [|rewrite zlen_cons, zlen_snoc; lia].
    rewrite app_nil_r. cbn [app]. by rewrite <- app_assoc.
  - destruct (escaped_ok (c_str b) p1 pre d Hs P1) as (b1 & b2 & b3 & b4 & -> & E2 & E3 & E4 & W). cbn [rbind].
    rewrite E2. cbn [rbind]. rewrite E3. cbn [rbind]. rewrite E4. cbn [rbind]. split; [exact W|].
    destruct M1 as (F1 & F2 & F3). by split.
Qed.

(** *** Composition *)
Lemma prints_ext fmt d d' t f g : (forall p, format p = fmt -> pb_depth p = d -> g p = f p) -> prints_to fmt d d' t f -> prints_to fmt d d' t g.
Proof. intros E Hf p pre Hp R. rewrite E; [by apply Hf|done|apply R]. Qed.
Lemma extends_ext fmt d t f g : (forall p, format p = fmt -> pb_depth p = d -> g p = f p) -> extends fmt d t f -> extends fmt d t g.
Proof. intros E Hf p pre Hp R. rewrite E; [by apply Hf|done|apply R]. Qed.
Lemma wrote_app p pre a b d : wrote p (pre ++ a) b d -> wrote p pre (a ++ b) d.
Proof.
  intros [[rest R1] R2 R3 R4 R5]. pose proof (zlen_nonneg a). rewrite zlen_app in *.
  constructor; rewrite ?zlen_app; try lia. exists rest. by rewrite R1, <- !app_assoc.
Qed.

Lemma extends_nil fmt d : extends fmt d [] (fun p => Ok (Some p)).
Proof. intros p pre Hp R. apply outcome_some; [by rewrite app_nil_r|done]. Qed.
Lemma extends_prints fmt d d' a b m k : extends fmt d a m -> prints_to fmt d d' b k -> prints_to fmt d d' (a ++ b) (fun p => obind (m p) k).
Proof.
  intros Hm Hk p pre Hp R. pose proof (zlen_nonneg b). rewrite zlen_app.
  eapply outcome_bind; [eapply outcome_mono; [by apply Hm|lia|intros ? K; exact K]|]. cbn beta. intros p1 R1 M1.
  eapply outcome_mono; [apply Hk; [by apply (mode_format p)|exact R1]|rewrite zlen_app; lia|]. intros p2 W. by apply wrote_app.
Qed.
Lemma extends_seq fmt d a b m k : extends fmt d a m -> extends fmt d b k -> extends fmt d (a ++ b) (fun p => obind (m p) k).
Proof.
  intros Hm Hk p pre Hp R. pose proof (zlen_nonneg b). rewrite zlen_app.
  eapply outcome_bind; [eapply outcome_mono; [by apply Hm|lia|intros ? K; exact K]|]. cbn beta. intros p1 R1 M1.
  eapply outcome_mono; [apply Hk; [by apply (mode_format p)|exact R1]|rewrite zlen_app; lia|]. intros p2 W. by rewrite app_assoc.
Qed.
Lemma prints_extends fmt d t m : prints fmt d t m -> text_ok t ->
  extends fmt d t (fun p => obind (m p) (fun p => let* p := update_offset p in Ok (Some p))).
Proof. intros Hm Ht p pre Hp R. apply (offset_updated junk); [by apply Hm|done]. Qed.

(** Writing [l], with room to spare, and moving behind it. *)
Lemma put_ready fmt d l z n p pre : format p = fmt -> ready p pre d -> zlen (l ++ z) <= n <= zlen l + 1 ->
  outcome p (zlen pre + zlen l + 2) (ensure_put junk p n (l ++ z)) (fun p' => ready (move (zlen l) p') (pre ++ l) d).
Proof.
  intros Hp R Hn. eapply outcome_mono; [apply (ensure_put_ok junk p pre d n _ R); lia|lia|]. intros p1 P1.
  destruct P1 as [[rest P1] P2 P3 P4 P5]. apply (put_move p1 pre l n d); [constructor; try done|rewrite zlen_app in Hn; pose proof (zlen_nonneg z); lia].
  exists (z ++ rest). by rewrite P1, <- app_assoc.
Qed.
Lemma put_extends fmt d l z n b k : zlen (l ++ z) <= n <= zlen l + 1 -> extends fmt d b k ->
  extends fmt d (l ++ b) (fun p => obind (ensure_put junk p n (l ++ z)) (fun p => k (move (zlen l) p))).
Proof.
  intros Hn Hk p pre Hp R. pose proof (zlen_nonneg b). rewrite zlen_app.
  eapply outcome_bind; [eapply outcome_mono; [by apply (put_ready fmt d l z n)|lia|intros ? K; exact K]|]. cbn beta. intros p1 R1 M1.
  eapply outcome_mono; [exact (Hk (move (zlen l) p1) _ (mode_format p p1 fmt M1 Hp) R1)|rewrite zlen_app; lia|]. intros p2 W. by rewrite app_assoc.
Qed.
Lemma put_extends_only fmt d l n b k : zlen l <= n <= zlen l + 1 -> extends fmt d b k ->
  extends fmt d (l ++ b) (fun p => obind (ensure_put junk p n l) (fun p => k (move (zlen l) p))).
Proof. intros Hn Hk. pose proof (put_extends fmt d l [] n b k) as Hput. rewrite app_nil_r in Hput. by apply Hput. Qed.
Lemma enter_prints fmt d l n b k : zlen l <= n <= zlen l + 1 -> prints_to fmt (d + 1) d b k ->
  prints fmt d (l ++ b) (fun p => obind (ensure_put junk p n l) (fun p => k (deepen 1 (move (zlen l) p)))).
Proof.
  intros Hn Hk p pre Hp R. pose proof (put_ready fmt d l [] n p pre Hp R) as Hput. rewrite app_nil_r in Hput. pose proof (zlen_nonneg b). rewrite zlen_app.
  eapply outcome_bind; [eapply outcome_mono; [by apply Hput|lia|intros ? K; exact K]|]. cbn beta. intros p1 R1 M1.
  eapply outcome_mono; [exact (Hk (deepen 1 (move (zlen l) p1)) _ (mode_format p p1 fmt M1 Hp) (ready_deepen _ _ _ 1 R1))|rewrite zlen_app; lia|].
  intros p2 W. by apply wrote_app.
Qed.
Lemma leave_prints fmt d t n : zlen t < n <= zlen t + 1 ->
  prints_to fmt (d + 1) d t (fun p => obind (ensure_put junk p n (t ++ [0])) (fun p => Ok (Some (deepen (-1) p)))).
Proof.
  intros Hn p pre Hp R. eapply outcome_bind; [by apply (put_prints fmt (d + 1) t n)|]. cbn beta. intros p1 W M1. split; [|done].
  replace d with (d + 1 + -1) by lia. by apply wrote_deepen.
Qed.

(** *** Arrays and objects *)
Section Items.
Context (fmt : bool) (d : Z) (text : cJSON -> list Z) (pv : cJSON -> printbuffer -> res (option printbuffer)).

Definition item_prints (c : cJSON) : Prop := prints fmt (d + 1) (text c) (pv c) /\ text_ok (text c) /\ string_u8 (item_string c).

Lemma print_item_ok c : item_prints c -> extends fmt (d + 1) (text c) (print_item pv c).
Proof. intros (H1 & H2 & _). by apply prints_extends. Qed.
Lemma array_items_ok l : Forall item_prints l -> extends fmt (d + 1) (array_text text fmt l) (array_items junk pv l).
Proof.
  induction 1 as [|c l Hc Hl IH]; [apply extends_nil|]. cbn [array_text array_items].
  apply extends_seq; [by apply print_item_ok|]. destruct l as [|c2 l]; [apply extends_nil|].
  eapply extends_ext; [intros p -> _; reflexivity|]. exact (put_extends _ _ (comma fmt) [0] (zlen (comma fmt) + 1) _ _ ltac:(rewrite zlen_snoc; lia) IH).
Qed.
Lemma print_array_ok l : Forall item_prints l -> prints fmt d ([91] ++ array_text text fmt l ++ [93]) (print_array junk pv l).
Proof.
  intros Hl. refine (enter_prints fmt d [91] 1 _ (fun p => obind (array_items junk pv l p) _) ltac:(done) _).
  apply extends_prints; [by apply array_items_ok|]. by apply (leave_prints fmt d [93] 2).
Qed.

Lemma zlen_tabs n : 0 <= n -> zlen (tabs n) = n.
Proof. intros. unfold tabs, zlen. rewrite length_replicate. lia. Qed.
Lemma print_indent_ok n : 0 <= n -> extends fmt n (if fmt then tabs n else []) (print_indent junk).
Proof.
  intros Hn. eapply extends_ext; [intros p Hp Hd; unfold print_indent; rewrite Hp, Hd; reflexivity|].
  destruct fmt; [|apply extends_nil]. rewrite <- (app_nil_r (tabs n)) at 1.
  eapply extends_ext; [|apply (put_extends_only true n (tabs n) n [] _ ltac:(rewrite zlen_tabs; lia) (extends_nil true n))].
  intros p _ _. cbn beta. by rewrite zlen_tabs.
Qed.
Lemma object_items_ok l : 0 <= d -> Forall item_prints l ->
  extends fmt (d + 1) (object_text text fmt (d + 1) l) (object_items junk pv l).
Proof.
  intros Hd. induction 1 as [|c l Hc Hl IH]; [apply extends_nil|]. cbn [object_text object_items]. unfold member_text.
  rewrite <- !app_assoc. apply extends_seq; [apply print_indent_ok; lia|].
  apply extends_seq; [destruct Hc as (_ & _ & Hs); apply prints_extends; [by apply print_string_ptr_ok|by apply string_literal_text]|].
  set (last := match l with [] => true | _ => false end).
  pose proof (put_extends _ _ (member_end fmt last) [0] (zlen (member_end fmt last) + 1) _ _ ltac:(rewrite zlen_snoc; lia) IH) as He.
  eapply extends_ext; [intros p -> _; cbv zeta; reflexivity|].
  refine (put_extends_only _ _ (colon fmt) (zlen (colon fmt)) _ (fun p => obind (print_item pv c p) _) ltac:(lia) _).
  apply extends_seq; [by apply print_item_ok|]. eapply extends_ext; [|exact He]. by intros p -> _.
Qed.
Lemma close_ok : 0 <= d -> prints_to fmt (d + 1) d ((if fmt then tabs d else []) ++ [125])
  (fun p => obind (if format p then ensure_put junk p (pb_depth p + 1) (tabs (pb_depth p - 1) ++ [125; 0])
                   else ensure_put junk p 2 [125; 0]) (fun p => Ok (Some (deepen (-1) p)))).
Proof.
  intros Hd. set (t := (if fmt then tabs d else []) ++ [125]).
  eapply prints_ext; [|apply (leave_prints fmt d t (zlen t + 1)); lia]. intros p -> ->. unfold t. rewrite zlen_snoc.
  destruct fmt; [|done]. rewrite zlen_tabs by done. replace (d + 1 - 1) with d by lia. by rewrite <- app_assoc.
Qed.
Lemma print_object_ok l : 0 <= d -> Forall item_prints l ->
  prints fmt d (open_brace fmt ++ object_text text fmt (d + 1) l ++ (if fmt then tabs d else []) ++ [125]) (print_object junk pv l).
Proof.
  intros Hd Hl. eapply prints_ext; [intros p Hp _; unfold print_object; rewrite Hp; reflexivity|]. cbv zeta.
  refine (enter_prints fmt d (open_brace fmt) (zlen (open_brace fmt) + 1) _ (fun p => obind (object_items junk pv l p) _) ltac:(lia) _).
  apply extends_prints; [by apply object_items_ok|]. by apply close_ok.
Qed.

Lemma array_text_ok l : Forall item_prints l -> text_ok (array_text text fmt l).
Proof.
  induction 1 as [|c l (_ & Hc & _) Hl IH]; [apply text_nil|]. cbn [array_text]. apply text_app; [done|]. destruct l; [apply text_nil|].
  apply text_app; [|done]. destruct fmt; by apply text_check.
Qed.
Lemma object_text_ok l n : Forall item_prints l -> text_ok (object_text text fmt n l).
Proof.
  induction 1 as [|c l (_ & Hc & Hs) Hl IH]; [apply text_nil|]. cbn [object_text]. unfold member_text.
  repeat apply text_app; try done; [destruct fmt; [apply text_tabs|apply text_nil]|by apply string_literal_text|destruct fmt; by apply text_check|..].
  all: first [destruct l; by apply text_check | destruct fmt; by apply text_check].
Qed.
End Items.

Lemma c_str_text_ok b : text_ok (c_str b).
Proof. induction b as [|c b IH]; [apply text_nil|]. cbn [c_str]. destruct (Z.eqb_spec c 0); [apply text_nil|by apply text_cons]. Qed.

Lemma print_value_ok fmt i : printable i -> forall d, 0 <= d ->
  prints fmt d (json_text fmt d i) (print_value junk i) /\ text_ok (json_text fmt d i).
Proof.
  induction i as [i IH] using cJSON_children_ind. intros Hi d Hd. inversion Hi as [i' Hc Ht Hraw Hv Hs Hn]; subst i'.
  assert (Hitems : Forall (item_prints fmt d (json_text fmt (d + 1)) (print_value junk)) (child i)).
  { apply List.Forall_forall. intros c Hin. rewrite List.Forall_forall in IH, Hc. pose proof (Hc c Hin) as Hp.
    destruct (IH c Hin Hp (d + 1) ltac:(lia)). split; [done|]. split; [done|]. by inversion Hp. }
  destruct i as [l type vs n v s]. cbn [child ctype valuestring valuedouble item_string] in *.
  cbn [json_text print_value]. set (t := Z.land type 255) in *. clearbody t.
  destruct Ht as [<-|[<-|[<-|[<-|[<-|[<-|[<-|[<-|[]]]]]]]]]; cbn [Z.eqb Pos.eqb cJSON_NULL cJSON_False cJSON_True cJSON_Number cJSON_Raw cJSON_String cJSON_Array cJSON_Object].
  1-3: split; [apply print_literal_ok|by apply text_check].
  - split; [by apply (print_number_ok fmt d (mkItem l type vs n v s))|by apply number_text_ok].
  - destruct vs as [b|]; [|by destruct (Hraw eq_refl)]. split; [apply put_prints; unfold strlen; cbn [default]; lia|apply c_str_text_ok].
  - split; [by apply print_string_ptr_ok|by apply string_literal_text].
  - split; [by apply print_array_ok|]. apply text_cons; [done|]. apply text_app; [|by apply text_check].
    by apply (array_text_ok fmt d _ (print_value junk)).
  - split; [by apply print_object_ok|]. repeat apply text_app; [destruct fmt; by apply text_check| |destruct fmt; [apply text_tabs|apply text_nil]|by apply text_check].
    by apply (object_text_ok fmt d _ (print_value junk)).
Qed.
End Functions.

(** ** The entry points *)
Lemma value_printed junk fmt i p : printable i -> format p = fmt -> pb_offset p = 0 -> pb_depth p = 0 ->
  0 <= pb_length p <= zlen (buffer p) -> pb_length p <= INT_MAX ->
  outcome p (zlen (json_text fmt 0 i) + 2) (print_value junk i p) (fun p' => wrote p' [] (json_text fmt 0 i) 0).
Proof.
  intros Hi Hf Ho Hd Hl Hm. destruct (print_value_ok junk fmt i Hi 0 ltac:(done)) as [Hp _].
  eapply outcome_mono; [apply (Hp p [] Hf)|rewrite zlen_nil; lia|done].
  constructor; change (zlen []) with 0; try lia. by exists (buffer p).
Qed.
Lemma zlen_allocate junk n : 0 <= n -> zlen (allocate junk n) = n.
Proof. intros Hn. unfold allocate, zlen. rewrite length_map, length_seqZ. lia. Qed.

(** [b] holds [t] as a string; there is none only when [n] bytes are not enough. *)
Definition holds (t : list Z) (n : Z) (r : option (list Z)) : Prop :=
  match r with Some b => exists rest, b = t ++ 0 :: rest | None => n < zlen t + 2 end.

Lemma block_printed junk fmt i p : printable i -> format p = fmt -> pb_offset p = 0 -> pb_depth p = 0 ->
  0 <= pb_length p <= zlen (buffer p) -> pb_length p <= INT_MAX ->
  returns (obind (print_value junk i p) (fun p => Ok (Some (buffer p)))) (holds (json_text fmt 0 i) (room p)).
Proof.
  intros Hi Hf Ho Hd Hl Hm. pose proof (value_printed junk fmt i p Hi Hf Ho Hd Hl Hm) as Hv.
  destruct (print_value junk i p) as [[p1|]| | |]; try done; (eexists; split; [reflexivity|]); [|exact Hv].
  destruct Hv as [[[rest W] _ _ _ _] _]. by exists rest.
Qed.

Lemma print_ok junk fmt i : printable i -> returns (print junk (Some i) fmt) (fun r =>
  match r with Some b => b = json_text fmt 0 i ++ [0] | None => INT_MAX / 2 < zlen (json_text fmt 0 i) + 2 end).
Proof.
  intros Hi. set (text := json_text fmt 0 i).
  set (p := mkPrint (allocate junk 256) 256 0 0 false fmt).
  pose proof (value_printed junk fmt i p Hi eq_refl eq_refl eq_refl) as Hv. unfold print. fold p.
  destruct (print_value_ok junk fmt i Hi 0 ltac:(done)) as [_ Ht].
  specialize (Hv ltac:(cbn [p buffer pb_length]; rewrite zlen_allocate; lia) ltac:(done)).
  destruct (print_value junk i p) as [[p1|]| | |]; try done; [|eexists; split; [reflexivity|exact Hv]].
  destruct Hv as [W _]. destruct (update_offset_ok junk p1 [] text 0 W Ht) as (p2 & E & R & _). cbn [obind rbind].
  rewrite E. cbn [rbind]. eexists. split; [reflexivity|]. rewrite (rd_offset _ _ _ R). cbn [app].
  destruct W as [[rest W] _ _ _ _]. assert (Eb : buffer p2 = text ++ 0 :: rest) by (unfold update_offset in E;
    destruct (strlen_at _ _); [|done..]; injection E as <-; exact W).
  rewrite Eb. unfold realloc. replace (zlen text + 1 - _) with (- zlen rest) by (rewrite zlen_app, zlen_cons; lia).
  replace (seqZ _ _) with (@nil Z) by (symmetry; apply seqZ_nil; pose proof (zlen_nonneg rest); lia). cbn [map].
  rewrite app_nil_r, (cons_middle 0 text rest), app_assoc. unfold zlen.
  replace (Z.to_nat _) with (length (text ++ [0])) by (rewrite length_app; cbn [length]; lia). by rewrite take_app_length.
Qed.

(** C31: Printing an item never reads or writes outside its buffer, whatever fresh
    memory holds, and the text it produces is [json_text], the text defined on the item
    alone, with its final zero: [cJSON_Print] and [cJSON_PrintUnformatted] return exactly
    this block, [cJSON_PrintBuffered] and [cJSON_PrintPreallocated] a block that begins
    with it.  They fail only for lack of room: when the text and two more bytes exceed
    half of [INT_MAX], or the length the caller gave for its own block. *)
Theorem cJSON_Print_text junk fmt i : printable i ->
  let text := json_text fmt 0 i in
  returns (print junk (Some i) fmt) (fun r =>
    match r with Some b => b = text ++ [0] | None => INT_MAX / 2 < zlen text + 2 end) /\
  (forall prebuffer, 0 <= prebuffer <= INT_MAX ->
    returns (cJSON_PrintBuffered junk (Some i) prebuffer fmt) (holds text (INT_MAX / 2))) /\
  (forall block n, 0 <= n <= zlen block -> n <= INT_MAX ->
    returns (cJSON_PrintPreallocated junk (Some i) block n fmt) (holds text n)).
Proof.
  intros Hi text. split; [by apply print_ok|split].
  - intros n Hn. unfold cJSON_PrintBuffered. destruct (Z.ltb_spec n 0); [lia|].
    apply (block_printed junk fmt i (mkPrint _ n 0 0 false fmt)); try done; cbn [buffer pb_length]; [|lia].
    rewrite zlen_allocate; lia.
  - intros block n Hn Hm. unfold cJSON_PrintPreallocated. destruct (Z.ltb_spec n 0); [lia|].
    by apply (block_printed junk fmt i (mkPrint block n 0 0 true fmt)).
Qed.
(** Evaluation decides which items can be printed. *)
Definition u8_check (o : option (list Z)) : bool :=
  match o with Some l => forallb (fun c => (0 <=? c) && (c <? 256)) l | None => true end.
Fixpoint printable_check (i : cJSON) : bool :=
  match i with
  | mkItem l type vs _ v s =>
    forallb printable_check l &&
    existsb (Z.eqb (Z.land type 255)) [cJSON_NULL; cJSON_False; cJSON_True; cJSON_Number; cJSON_Raw; cJSON_String; cJSON_Array; cJSON_Object] &&
    (negb (Z.land type 255 =? cJSON_Raw) || match vs with Some _ => true | None => false end) &&
    match v with S754_nan => false | S754_finite _ m e => (Z.pos m <? 2 ^ 53) && (-1074 <=? e) && (e <=? 971) | _ => true end &&
    u8_check vs && u8_check s
  end.
Lemma u8_check_ok o : u8_check o = true -> string_u8 o.
Proof.
  destruct o as [l|]; [|done]. apply bytes_u8.
Qed.
Lemma printable_check_ok i : printable_check i = true -> printable i.
Proof.
  induction i as [i IH] using cJSON_children_ind. destruct i as [l type vs n v s]. cbn [printable_check]. intros Hi.
  repeat match type of Hi with _ && _ = true => let H := fresh "K" in apply andb_prop in Hi as [Hi H] end. cbn [child] in IH.
  constructor; cbn [child ctype valuestring valuedouble item_string]; [| | | |by apply u8_check_ok..].
  - apply List.Forall_forall. intros c Hc. rewrite List.Forall_forall in IH. apply IH; [done|]. rewrite forallb_forall in Hi. by apply Hi.
  - apply existsb_exists in K3 as (x & Hx & E). apply Z.eqb_eq in E as ->. done.
  - intros E. rewrite E in K2. by destruct vs.
  - unfold double_ok. destruct v; [done..|lia].
Qed.
Lemma cJSON_Print_text_witness : printable ex_print /\
  returns (print (fun _ => 7) (Some ex_print) false) (fun r =>
    match r with Some b => b = json_text false 0 ex_print ++ [0] | None => INT_MAX / 2 < zlen (json_text false 0 ex_print) + 2 end).
Proof.
  assert (Hi : printable ex_print) by (apply printable_check_ok; by vm_compute).
  split; [exact Hi|]. exact (proj1 (cJSON_Print_text (fun _ => 7) false ex_print Hi)).
Defined.
