(* ===== verification/CJsonRound.v ===== *)
(** What is printed can be read back: the printed text of a document is in the grammar
    of the parser, and stands for the document. *)
From S2P Require Import Prelude CJson CFormat CJsonParse CJsonSafe CJsonGrammar CJsonPrint CJsonText.
From Stdlib Require Import Ascii String.
From stdpp Require Import base list numbers.
From Stdlib Require Import List ZArith Lia SpecFloat.
Open Scope Z_scope.
Open Scope c_scope.

(** ** Numbers *)
Lemma int_double_max : double_of_int INT_MAX = S754_finite false 9007199250546688 (-22).
Proof. by vm_compute. Qed.
Lemma int_double_min : double_of_int INT_MIN = S754_finite true 4503599627370496 (-21).
Proof. by vm_compute. Qed.

Lemma saturate_int n : INT_MIN <= n <= INT_MAX -> saturate (double_of_int n) = Ok n.
Proof.
  intros Hn. unfold INT_MIN, INT_MAX in Hn. assert (Hd : double_to_int (double_of_int n) = Ok n).
  { unfold double_to_int, INT_MIN, INT_MAX. rewrite double_trunc_int by lia. cbn [deref rbind].
    destruct (Z.leb_spec (-2147483648) n); [|lia]. by destruct (Z.leb_spec n 2147483647); [|lia]. }
  unfold saturate. destruct (Z.eq_dec n 0) as [->|Hz]; [done|].
  destruct (double_of_int_exact n Hz ltac:(lia)) as (m & k & Hk & Em & Hm & E). rewrite Hd, int_double_max, int_double_min, E.
  pose proof (fun j => Z.pow_le_mono_r 2 k j ltac:(lia)) as Hpow. destruct (Z.ltb_spec n 0).
  - cbn [SFleb SFcompare]. destruct (Z.compare_spec (- k) (-21)) as [Ek|Hlt|Hgt]; [| done|].
    + replace k with 21 in Em by lia. destruct (Pos.compare_cont Eq m 4503599627370496) eqn:Hc; cbn [CompOpp]; [|done|].
      * apply Pos.compare_eq in Hc as ->. unfold INT_MIN. f_equal. lia.
      * apply Pos.compare_gt_iff in Hc. exfalso. lia.
    + specialize (Hpow 20 ltac:(lia)). exfalso. change (2 ^ 20) with 1048576 in Hpow. change (2 ^ 52) with 4503599627370496 in Hm. nia.
  - cbn [SFleb SFcompare]. destruct (Z.compare_spec (-22) (- k)) as [Ek|Hlt|Hgt]; [| |done].
    + replace k with 22 in Em by lia. destruct (Pos.compare_cont Eq 9007199250546688 m) eqn:Hc; [| |done].
      * apply Pos.compare_eq in Hc as <-. unfold INT_MAX. f_equal. lia.
      * pose proof (proj1 (Pos.compare_lt_iff _ _) Hc). exfalso. lia.
    + specialize (Hpow 21 ltac:(lia)). exfalso. change (2 ^ 21) with 2097152 in Hpow. change (2 ^ 52) with 4503599627370496 in Hm. nia.
Qed.

Lemma take_digits_digits fuel : forall z acc m c, 0 <= z < 10 ^ Z.of_nat fuel -> (0 < fuel)%nat -> exists j, 0 < j /\
  zlen (digits fuel z acc) = j + zlen acc /\ take_digits (digits fuel z acc) m c = take_digits acc (m * 10 ^ j + z) (c + j).
Proof.
  induction fuel as [|fuel IH]; intros z acc m c Hz Hf; [lia|]. rewrite Nat2Z.inj_succ, Z.pow_succ_r in Hz by lia. cbn [digits].
  assert (Hdigit : forall m c, take_digits (48 + z mod 10 :: acc) m c = take_digits acc (m * 10 + z mod 10) (c + 1)).
  { intros. cbn [take_digits]. unfold is_digit. destruct (Z.leb_spec 48 (48 + z mod 10)); [|lia].
    destruct (Z.leb_spec (48 + z mod 10) 57); [|lia]. cbn [andb]. do 2 f_equal. lia. }
  destruct (Z.eqb_spec (z / 10) 0).
  - exists 1. rewrite zlen_cons, Hdigit. split; [done|]. split; [lia|]. f_equal. lia.
  - assert (0 < fuel)%nat by (destruct fuel; [cbn in Hz; lia|lia]).
    destruct (IH (z / 10) (48 + z mod 10 :: acc) m c ltac:(lia) ltac:(done)) as (j & Hj & E1 & E2). exists (j + 1).
    rewrite E1, E2, Hdigit, zlen_cons, Z.pow_add_r by lia. split; [lia|]. split; [lia|]. f_equal; lia.
Qed.
Lemma digits_head fuel : forall z acc, 0 <= z -> (0 < fuel)%nat -> exists c r, digits fuel z acc = c :: r /\ is_digit c = true.
Proof.
  induction fuel as [|fuel IH]; intros z acc Hz Hf; [lia|]. cbn [digits].
  assert (Hc : is_digit (48 + z mod 10) = true) by (unfold is_digit; lia).
  destruct (_ =? 0); [by eexists _, _|]. destruct fuel; [by eexists _, _|]. apply IH; lia.
Qed.
Lemma digits_chars fuel : forall z acc, 0 <= z -> Forall (fun c => number_char c = true) acc ->
  Forall (fun c => number_char c = true) (digits fuel z acc).
Proof.
  induction fuel as [|fuel IH]; intros z acc Hz Ha; [done|]. cbn [digits].
  assert (Forall (fun c => number_char c = true) (48 + z mod 10 :: acc)) by (apply Forall_cons_2; [unfold number_char, is_digit; lia|done]).
  destruct (_ =? 0); [done|]. apply IH; [lia|done].
Qed.

Lemma take_fraction_nil m : take_fraction [] m = (m, 0, 0, []).
Proof. done. Qed.
Lemma decimal_int (neg : bool) m : (m = 0 -> neg = false) -> decimal_double neg m 0 = double_of_int (if neg then - m else m).
Proof.
  intros Hm. unfold decimal_double. destruct (Z.eqb_spec m 0) as [->|H0]; [by rewrite Hm|].
  cbn [Z.ltb Z.leb Z.compare]. change (10 ^ 0) with 1. rewrite Z.mul_1_r. destruct neg; [|by rewrite Z.mul_1_l; destruct m].
  unfold double_of_int. replace (-1 * m) with (- m) by lia. by destruct m.
Qed.
Lemma strtod_print_d n : - 2 ^ 31 <= n < 2 ^ 31 -> strtod (print_d n) = (double_of_int n, zlen (print_d n)).
Proof.
  intros Hn. unfold print_d, print_u. rewrite i32_id by done. destruct (Z.ltb_spec n 0).
  - rewrite u32_id by (unfold is_u32; lia). unfold strtod. cbn [take_sign Z.eqb Pos.eqb].
    destruct (take_digits_digits 10 (- n) [] 0 0 ltac:(cbn; lia) ltac:(lia)) as (j & Hj & E1 & ->). cbn [take_digits].
    rewrite take_fraction_nil. destruct (Z.eqb_spec (0 + j + 0) 0); [lia|]. cbn [take_exponent].
    rewrite zlen_cons, E1, decimal_int by lia. change (zlen []) with 0. f_equal; [f_equal; lia|lia..].
  - rewrite u32_id by (unfold is_u32; lia). unfold strtod.
    destruct (digits_head 10 n [] ltac:(lia) ltac:(lia)) as (c & r & E & Hc).
    assert (Hs : take_sign (digits 10 n []) = (false, 0, digits 10 n [])).
    { rewrite E. unfold is_digit in Hc. cbn [take_sign]. destruct (Z.eqb_spec c 45); [lia|]. by destruct (Z.eqb_spec c 43); [lia|]. }
    rewrite Hs. destruct (take_digits_digits 10 n [] 0 0 ltac:(cbn; lia) ltac:(lia)) as (j & Hj & E1 & ->). cbn [take_digits].
    rewrite take_fraction_nil. destruct (Z.eqb_spec (0 + j + 0) 0); [lia|]. cbn [take_exponent].
    rewrite E1, decimal_int by done. change (zlen []) with 0. f_equal; [f_equal; lia|lia..].
Qed.
Lemma number_text_int n : number_text (double_of_int n) n = print_d n \/ ~ (- 2 ^ 31 <= n < 2 ^ 31).
Proof.
  destruct (decide (- 2 ^ 31 <= n < 2 ^ 31)) as [Hn|]; [left|by right]. unfold number_text.
  destruct (Z.eq_dec n 0) as [->|Hz]; [done|]. destruct (double_of_int_exact n Hz ltac:(lia)) as (m & k & _ & _ & _ & E).
  rewrite E. cbn [is_finite negb SFeqb SFcompare]. rewrite Z.compare_refl.
  change (Pos.compare_cont Eq m m) with (m ?= m)%positive. rewrite Pos.compare_refl. by destruct (n <? 0).
Qed.
Lemma print_d_head n : - 2 ^ 31 <= n < 2 ^ 31 -> Forall (fun c => number_char c = true) (print_d n) /\
  exists c r, print_d n = c :: r /\ (c = 45 \/ is_digit c = true).
Proof.
  intros Hn. unfold print_d, print_u. rewrite i32_id by done. pose proof (u32_range n) as R1. pose proof (u32_range (- n)) as R2.
  unfold is_u32 in R1, R2. destruct (n <? 0).
  - split; [apply Forall_cons_2; [done|apply digits_chars; [lia|constructor]]|]. eexists _, _. split; [done|by left].
  - split; [apply digits_chars; [lia|constructor]|]. destruct (digits_head 10 (u32 n) [] ltac:(lia) ltac:(lia)) as (c & r & E & Hc).
    exists c, r. split; [done|by right].
Qed.
Lemma number_value n : INT_MIN <= n <= INT_MAX ->
  value_text (mkItem [] cJSON_Number None n (double_of_int n) None) (number_text (double_of_int n) n).
Proof.
  intros Hn. assert (Hi : - 2 ^ 31 <= n < 2 ^ 31) by (unfold INT_MIN, INT_MAX in Hn; lia).
  destruct (number_text_int n) as [->|]; [|done]. destruct (print_d_head n Hi) as [Hc Hh].
  apply vt_number; [done|pose proof (zlen_print_d n); lia|by apply strtod_print_d|by apply saturate_int|done].
Qed.

(** ** Strings *)
Lemma hex_letter_ok d : 0 <= d < 16 -> hex_digit (hex_letter d) = Some d.
Proof.
  intros Hd. assert (Hall : forallb (fun d => bool_decide (hex_digit (hex_letter d) = Some d)) (seqZ 0 16) = true) by (by vm_compute).
  rewrite forallb_forall in Hall. apply (bool_decide_unpack _), Is_true_eq_left, Hall. apply in_map_iff. exists (Z.to_nat d).
  split; [lia|]. apply in_seq. lia.
Qed.
Lemma escape_char_cases c : is_u8 c -> c <> 0 ->
  escape_char c = [c] /\ c <> quote /\ c <> 92 \/
  (exists x, escape_char c = [92; x] /\ unescape x = Some c) \/
  (0 <= c < 32 /\ escape_char c = [92; 117; 48; 48; hex_letter (c / 16); hex_letter (c mod 16)]).
Proof.
  intros Hc H0. pose proof (byte_cases (fun c =>
    (bool_decide (escape_char c = [c]) && negb (c =? quote) && negb (c =? 92)) ||
    match escape_letter c with Some x => bool_decide (escape_char c = [92; x] /\ unescape x = Some c) | None => false end ||
    ((c <? 32) && bool_decide (escape_char c = 92 :: escape_code c))) ltac:(by vm_compute) c Hc H0) as Hcase.
  cbn beta in Hcase. apply orb_prop in Hcase as [[Hcase|Hcase]%orb_prop|Hcase].
  - left. apply andb_prop in Hcase as [[H1 H2]%andb_prop H3]. apply bool_decide_eq_true in H1. split; [done|]. split; lia.
  - right; left. destruct (escape_letter c) as [x|]; [|done]. exists x. by apply bool_decide_eq_true in Hcase.
  - right; right. apply andb_prop in Hcase as [H1 H2]. apply bool_decide_eq_true in H2. unfold is_u8 in Hc. split; [lia|done].
Qed.
Lemma string_body_text s : string_chars s -> string_text s (string_body s).
Proof.
  induction 1 as [|c s [Hc H0] Hs IH]; [constructor|]. cbn [string_body flat_map]. fold (string_body s).
  destruct (escape_char_cases c Hc H0) as [(-> & H1 & H2)|[(x & -> & Hx)|[Hr ->]]].
  - by apply st_plain.
  - by apply st_escape.
  - apply (st_code [48; 48; hex_letter (c / 16); hex_letter (c mod 16)] c [c]); [|lia| |done].
    + eexists _, _, _, _, 0, 0, _, _. split; [reflexivity|]. split; [done|]. split; [done|].
      split; [apply hex_letter_ok; lia|]. split; [apply hex_letter_ok; lia|lia].
    + unfold utf8_encode. destruct (Z.ltb_spec c 128); [|lia]. change 127 with (Z.ones 7). by rewrite Z.land_ones, Z.mod_small by lia.
Qed.
Lemma c_str_id s : string_chars s -> c_str s = s.
Proof. intros Hs. apply c_str_text. eapply Forall_impl; [|exact Hs]. by intros c []. Qed.
Lemma literal_ok s : string_chars s -> literal_text s (string_literal (Some s)).
Proof. intros Hs. exists (string_body s). split; [by apply string_body_text|]. unfold string_literal. by rewrite c_str_id. Qed.

(** ** Documents: values as the parser makes them, with integers for numbers *)
Inductive document : cJSON -> Prop :=
  | doc_null : document (blank cJSON_NULL)
  | doc_false : document (blank cJSON_False)
  | doc_true : document (set_true (blank cJSON_True))
  | doc_number n : INT_MIN <= n <= INT_MAX -> document (mkItem [] cJSON_Number None n (double_of_int n) None)
  | doc_string s : string_chars s -> document (mkItem [] cJSON_String (Some s) 0 (S754_zero false) None)
  | doc_array l : Forall document l -> document (mkItem l cJSON_Array None 0 (S754_zero false) None)
  | doc_object l : Forall (fun c => exists name, item_string c = Some name /\ string_chars name /\ document (with_name None c)) l ->
      document (mkItem l cJSON_Object None 0 (S754_zero false) None).

Lemma with_name_id c : with_name (item_string c) c = c.
Proof. by destruct c. Qed.
Lemma json_text_name fmt d o c : json_text fmt d (with_name o c) = json_text fmt d c.
Proof. by destruct c. Qed.
Lemma document_name c : document c -> item_string c = None.
Proof. by destruct 1. Qed.

Lemma white_check w : forallb (fun c => (0 <? c) && (c <=? 32)) w = true -> white w.
Proof. intros Hw. apply List.Forall_forall. intros c Hc. rewrite forallb_forall in Hw. specialize (Hw c Hc). lia. Qed.
Lemma white_tabs n : white (tabs n).
Proof. unfold tabs. induction (Z.to_nat n); by constructor. Qed.

Ltac app_norm := repeat (progress (rewrite <- ?app_assoc; cbn [app])); done.

Section Values.
Context (fmt : bool) (d : Z).
Let text := json_text fmt (d + 1).

Lemma array_elements l : Forall (fun c => value_text c (text c)) l -> l <> [] ->
  forall w, white w -> elements_text l (w ++ array_text text fmt l).
Proof.
  induction 1 as [|c l Hc Hl IH]; intros Hne w Hw; [done|]. cbn [array_text]. destruct l as [|c2 l].
  - rewrite app_nil_r. rewrite <- (app_nil_r (text c)). apply et_last; [done|done|constructor].
  - assert (Hsp : exists sp, comma fmt = 44 :: sp /\ white sp)
      by (destruct fmt; [exists [32]|exists []]; split; try done; by apply white_check).
    destruct Hsp as (sp & -> & Hsp). apply (et_more _ _ w []); [done|done|constructor|]. by apply IH.
Qed.

Lemma object_members l : Forall (fun c => exists name, item_string c = Some name /\ string_chars name /\
    value_text (with_name None c) (text c)) l -> l <> [] ->
  forall w trail, white w -> white trail -> members_text l (w ++ object_text text fmt (d + 1) l ++ trail).
Proof.
  induction 1 as [|c l (name & E & Hn & Hc) Hl IH]; intros Hne w trail Hw Ht; [done|]. cbn [object_text].
  set (ind := if fmt then tabs (d + 1) else []). assert (Hind : white (w ++ ind))
    by (apply white_app; [done|]; unfold ind; destruct fmt; [apply white_tabs|constructor]).
  assert (Hsp : exists sp, colon fmt = 58 :: sp /\ white sp)
    by (destruct fmt; [exists [9]|exists []]; split; try done; by apply white_check).
  destruct Hsp as (sp & Ec & Hsp). unfold member_text. fold ind. rewrite Ec, E.
  set (nl := if fmt then [10] else []). assert (Hnl : white nl) by (unfold nl; destruct fmt; by apply white_check).
  rewrite <- (with_name_id c) at 1. rewrite E. change (with_name (Some name) c) with (with_name (Some name) (with_name None c)).
  destruct l as [|c2 l].
  - pose proof (mt_last (with_name None c) (text c) name (string_literal (Some name)) (w ++ ind) [] sp (nl ++ trail)
      (literal_ok name Hn) Hc Hind ltac:(constructor) Hsp ltac:(by apply white_app)) as Hm.
    revert Hm. unfold member_end. fold nl. cbn [object_text]. app_norm.
  - pose proof (mt_more (with_name None c) (text c) name (string_literal (Some name)) (w ++ ind) [] sp [] (c2 :: l)
      (nl ++ object_text text fmt (d + 1) (c2 :: l) ++ trail)
      (literal_ok name Hn) Hc Hind ltac:(constructor) Hsp ltac:(constructor) (IH ltac:(done) nl trail Hnl Ht)) as Hm.
    revert Hm. unfold member_end. fold nl. app_norm.
Qed.
End Values.

Lemma document_text fmt i : document (with_name None i) -> forall d, value_text (with_name None i) (json_text fmt d i).
Proof.
  induction i as [i IH] using cJSON_children_ind. intros Hi d. destruct i as [l type vs n v s].
  change (with_name None (mkItem l type vs n v s)) with (mkItem l type vs n v None) in *. cbn [child] in IH.
  inversion Hi as [E|E|E|n' Hn E|s' Hs E|l' Hl E|l' Hl E]; subst.
  1-3: constructor.
  - by apply number_value.
  - cbn [json_text Z.land Pos.land Z.eqb Pos.eqb]. cbn. apply vt_string. by apply literal_ok.
  - cbn. destruct l as [|c l]; [by apply (vt_empty_array []); constructor|]. apply vt_array.
    apply (array_elements fmt d (c :: l)) with (w := []); [|done|constructor].
    apply List.Forall_forall. intros x Hx. rewrite List.Forall_forall in IH, Hl. pose proof (Hl x Hx) as Hd.
    assert (Ex : with_name None x = x) by (rewrite <- (document_name x Hd); apply with_name_id).
    rewrite <- Ex, json_text_name. apply IH; [done|by rewrite Ex].
  - cbn. destruct l as [|c l].
    + destruct fmt; [|by apply (vt_empty_object []); constructor]. apply (vt_empty_object ([10] ++ tabs d)).
      apply white_app; [by apply white_check|apply white_tabs].
    + set (w := if fmt then [10] else []). set (trail := if fmt then tabs d else []).
      assert (Hw : white w /\ white trail)
        by (unfold w, trail; destruct fmt; split; [by apply white_check|apply white_tabs|constructor|constructor]).
      pose proof (object_members fmt d (c :: l)) as Hm. assert (Hopen : open_brace fmt = 123 :: w) by (unfold w; by destruct fmt).
      rewrite Hopen. pose proof (vt_object (c :: l) (w ++ object_text (json_text fmt (d + 1)) fmt (d + 1) (c :: l) ++ trail)) as Hv.
      replace ((123 :: w) ++ _) with (123 :: (w ++ object_text (json_text fmt (d + 1)) fmt (d + 1) (c :: l) ++ trail) ++ [125])
        by (cbn [app]; by rewrite <- !app_assoc).
      apply Hv, Hm; [|done|apply Hw..]. clear Hm Hv Hopen. apply List.Forall_forall. intros x Hx.
      rewrite List.Forall_forall in IH, Hl. destruct (Hl x Hx) as (name & E & Hn & Hd). exists name. split; [done|]. split; [done|].
      by apply IH.
Qed.

(** Documents can be printed. *)
Lemma chars_u8 s : string_chars s -> Forall is_u8 s.
Proof. intros Hs. eapply Forall_impl; [|exact Hs]. by intros c []. Qed.
Lemma document_printable i : document (with_name None i) -> string_u8 (item_string i) -> printable i.
Proof.
  induction i as [i IH] using cJSON_children_ind. intros Hi Hs. destruct i as [l type vs n v s].
  change (with_name None (mkItem l type vs n v s)) with (mkItem l type vs n v None) in *. cbn [child item_string] in *.
  inversion Hi as [E|E|E|n' Hn E|s' Hs' E|l' Hl E|l' Hl E]; subst;
    (constructor; cbn [child ctype valuestring valuedouble item_string]; try done; try apply double_of_int_ok; try (cbn; tauto)).
  - by apply chars_u8.
  - apply List.Forall_forall. intros x Hx. rewrite List.Forall_forall in IH, Hl. pose proof (Hl x Hx) as Hd.
    pose proof (document_name x Hd) as En. apply IH; [done| |by rewrite En]. rewrite <- En at 1. by rewrite with_name_id.
  - apply List.Forall_forall. intros x Hx. rewrite List.Forall_forall in IH, Hl. destruct (Hl x Hx) as (name & En & Hn & Hd).
    apply IH; [done|done|]. rewrite En. by apply chars_u8.
Qed.

(** ** The texts are bytes *)
Lemma u8_check_list l : forallb (fun c => (0 <=? c) && (c <? 256)) l = true -> Forall is_u8 l.
Proof. apply bytes_u8. Qed.
Lemma u8_tabs n : Forall is_u8 (tabs n).
Proof. by apply Forall_replicate. Qed.
Lemma u8_literal s : string_chars s -> Forall is_u8 (string_literal (Some s)).
Proof.
  intros Hs. unfold string_literal. rewrite c_str_id by done. apply Forall_cons_2; [done|].
  apply Forall_app. split; [|by apply bytes_u8]. induction Hs as [|c s [Hc H0] Hs IH]; [constructor|]. apply Forall_app. split; [|exact IH].
  apply bytes_u8. by apply (byte_cases (fun c => forallb (fun c => (0 <=? c) && (c <? 256)) (escape_char c))).
Qed.
Lemma u8_array fmt text l : Forall (fun c => Forall is_u8 (text c)) l -> Forall is_u8 (array_text text fmt l).
Proof.
  induction 1 as [|c l Hc Hl IH]; [constructor|]. cbn [array_text]. apply Forall_app. split; [done|].
  destruct l; [constructor|]. apply Forall_app. split; [destruct fmt; by apply bytes_u8|done].
Qed.
Lemma u8_object fmt text n l : Forall (fun c => Forall is_u8 (text c) /\ exists name, item_string c = Some name /\ string_chars name) l ->
  Forall is_u8 (object_text text fmt n l).
Proof.
  induction 1 as [|c l [Hc (name & E & Hn)] Hl IH]; [constructor|]. cbn [object_text]. unfold member_text. rewrite E, !Forall_app.
  split; [split; [destruct fmt; [apply u8_tabs|constructor]|]|done]. split; [by apply u8_literal|].
  split; [destruct fmt; by apply bytes_u8|]. split; [done|]. unfold member_end. apply Forall_app.
  split; [destruct l|destruct fmt]; by apply bytes_u8.
Qed.
Lemma document_u8 fmt i : document (with_name None i) -> forall d, Forall is_u8 (json_text fmt d i).
Proof.
  induction i as [i IH] using cJSON_children_ind. intros Hi d. destruct i as [l type vs n v s].
  change (with_name None (mkItem l type vs n v s)) with (mkItem l type vs n v None) in *. cbn [child] in IH.
  inversion Hi as [E|E|E|n' Hn E|s' Hs' E|l' Hl E|l' Hl E]; subst; cbn.
  1-3: by apply bytes_u8.
  - assert (Hr : - 2 ^ 31 <= n < 2 ^ 31) by (unfold INT_MIN, INT_MAX in Hn; lia).
    destruct (number_text_int n) as [->|]; [|done]. eapply Forall_impl; [|apply (print_d_head n Hr)].
    intros c Hc. unfold number_char, is_digit in Hc. unfold is_u8. cbn beta in Hc. lia.
  - by apply u8_literal.
  - apply Forall_cons_2; [done|]. apply Forall_app. split; [|by apply bytes_u8]. apply u8_array.
    apply List.Forall_forall. intros x Hx. rewrite List.Forall_forall in IH, Hl. pose proof (Hl x Hx) as Hd.
    pose proof (document_name x Hd) as En. apply IH; [done|]. rewrite <- En. by rewrite with_name_id.
  - apply Forall_app. split; [destruct fmt; by apply bytes_u8|]. apply Forall_app. split.
    + apply u8_object. apply List.Forall_forall. intros x Hx. rewrite List.Forall_forall in IH, Hl.
      destruct (Hl x Hx) as (name & En & Hn & Hd). split; [by apply IH|by exists name].
    + apply Forall_app. split; [destruct fmt; [apply u8_tabs|constructor]|by apply bytes_u8].
Qed.

(** ** Printing and parsing *)

(** Printing an item and parsing the string in the block. *)
Definition reparse (junk : Z -> Z) (i : cJSON) (fmt : bool) : res (option cJSON) :=
  let* r := print junk (Some i) fmt in
  match r with Some b => cJSON_Parse (c_str b) | None => Ok None end.

(** C28: Round trip through the JSON library: a document (null, booleans, the integers of
    [int], strings of any bytes but zero, arrays, objects with names, nested at most as
    deep as the parser allows), printed formatted or not and parsed again, is the document
    itself, whenever its text fits the printer's buffer limit. *)
Theorem cJSON_Print_Parse junk i fmt (Hi : document i) (Hdeep : nesting i <= CJSON_NESTING_LIMIT)
  (Hfits : zlen (json_text fmt 0 i) + 2 <= INT_MAX / 2) : reparse junk i fmt = Ok (Some i).
Proof.
  assert (Ei : with_name None i = i) by (rewrite <- (document_name i Hi); apply with_name_id).
  assert (Hp : printable i) by (apply document_printable; [by rewrite Ei|by rewrite (document_name i Hi)]).
  destruct (print_ok junk fmt i Hp) as (r & E & Hr). unfold reparse. rewrite E. cbn [rbind].
  destruct r as [b|]; [subst b|lia]. destruct (print_value_ok junk fmt i Hp 0 ltac:(done)) as [_ Ht].
  rewrite c_str_zero by done. unfold cJSON_Parse.
  pose proof (document_text fmt i ltac:(by rewrite Ei) 0) as Hv. rewrite Ei in Hv.
  pose proof (document_u8 fmt i ltac:(by rewrite Ei) 0) as Hu.
  pose proof (parse_text [] [] (json_text fmt 0 i) i ltac:(constructor) ltac:(constructor) Hv Hdeep) as Hparse.
  cbn [app] in Hparse. rewrite app_nil_r in Hparse. rewrite Hparse; [done|].
  apply List.Forall_forall. intros c Hc. unfold text_ok in Ht. rewrite List.Forall_forall in Ht, Hu. specialize (Ht c Hc). specialize (Hu c Hc).
  unfold is_u8 in Hu. lia.
Qed.
Lemma ex_print_document : document ex_print.
Proof.
  assert (Hchars : forall s, forallb (fun c => (0 <? c) && (c <? 256)) s = true -> string_chars s).
  { intros s Hs. apply List.Forall_forall. intros c Hc. rewrite forallb_forall in Hs. specialize (Hs c Hc). unfold is_u8. lia. }
  apply doc_object. repeat apply Forall_cons_2; [..|apply Forall_nil_2].
  - exists (cstr "a"). split; [done|]. split; [by apply Hchars|]. apply (doc_number 5). done.
  - exists (cstr "b"). split; [done|]. split; [by apply Hchars|]. apply doc_array. repeat apply Forall_cons_2; [..|apply Forall_nil_2].
    + apply (doc_number 1). done.
    + by apply doc_string, Hchars.
  - exists (cstr "c"). split; [done|]. split; [by apply Hchars|]. by apply doc_object, Forall_nil_2.
Qed.
Lemma cJSON_Print_Parse_witness : reparse (fun _ => 7) ex_print true = Ok (Some ex_print).
Proof. apply cJSON_Print_Parse; [exact ex_print_document|by vm_compute|by vm_compute]. Defined.
