(* ===== verification/CJsonMinify.v ===== *)
(** [cJSON_Minify] (ext/cjson/cJSON.c): white space and comments are taken out of a text, in
    place.  It never touches memory outside the block, and of the formatted text of an item
    it leaves the unformatted one. *)
From Stdlib Require Import Ascii String.
From stdpp Require Import base list numbers.
From Stdlib Require Import List ZArith Lia SpecFloat.
From S2P Require Import Prelude CJson CFormat CJsonParse CJsonSafe CJsonPrint CJsonText CJsonRound.
Open Scope Z_scope.
Open Scope c_scope.

(** ** The code

    [b] is the block; [input] and [json] are where it is read, [output] and [into] where it is
    written. *)
Fixpoint oneline_loop (fuel : nat) (b : list Z) (input : Z) : res Z :=
  match fuel with
  | O => NoFuel
  | S fuel =>
    let* c := rd8 b input in
    if c =? 0 then Ok input
    else if c =? 10 then Ok (input + 1)
    else oneline_loop fuel b (input + 1)
  end.
Definition skip_oneline_comment (fuel : nat) (b : list Z) (input : Z) : res Z := oneline_loop fuel b (input + 2).

Fixpoint multiline_loop (fuel : nat) (b : list Z) (input : Z) : res Z :=
  match fuel with
  | O => NoFuel
  | S fuel =>
    let* c := rd8 b input in
    if c =? 0 then Ok input
    else
      let* ends := (if c =? 42 then let* d := rd8 b (input + 1) in Ok (d =? 47) else Ok false) in
      if ends : bool then Ok (input + 2) else multiline_loop fuel b (input + 1)
  end.
Definition skip_multiline_comment (fuel : nat) (b : list Z) (input : Z) : res Z := multiline_loop fuel b (input + 2).

Fixpoint string_loop (fuel : nat) (b : list Z) (input output : Z) : res (list Z * Z * Z) :=
  match fuel with
  | O => NoFuel
  | S fuel =>
    let* c := rd8 b input in
    if c =? 0 then Ok (b, input, output)
    else
      let* b := wr8 b output c in
      let* c := rd8 b input in
      if c =? quote then
        let* b := wr8 b output quote in
        Ok (b, input + 1, output + 1)
      else
        let* escaped := (if c =? 92 then let* d := rd8 b (input + 1) in Ok (d =? quote) else Ok false) in
        if escaped : bool then
          let* d := rd8 b (input + 1) in
          let* b := wr8 b (output + 1) d in
          string_loop fuel b (input + 1 + 1) (output + 1 + 1)
        else string_loop fuel b (input + 1) (output + 1)
  end.
Definition minify_string (fuel : nat) (b : list Z) (input output : Z) : res (list Z * Z * Z) :=
  let* c := rd8 b input in
  let* b := wr8 b output c in
  string_loop fuel b (input + 1) (output + 1).

Definition is_space (c : Z) : bool := (c =? 32) || (c =? 9) || (c =? 13) || (c =? 10).
(** One round of the loop: the block and the two positions. *)
Definition minify_round (fuel : nat) (b : list Z) (c json into : Z) : res (list Z * Z * Z) :=
  if is_space c then Ok (b, json + 1, into)
  else if c =? 47 then
    let* d := rd8 b (json + 1) in
    if d =? 47 then let* json := skip_oneline_comment fuel b json in Ok (b, json, into)
    else if d =? 42 then let* json := skip_multiline_comment fuel b json in Ok (b, json, into)
    else Ok (b, json + 1, into)
  else if c =? quote then minify_string fuel b json into
  else let* b := wr8 b into c in Ok (b, json + 1, into + 1).
Fixpoint minify_loop (fuel0 fuel : nat) (b : list Z) (json into : Z) : res (list Z * Z) :=
  match fuel with
  | O => NoFuel
  | S fuel =>
    let* c := rd8 b json in
    if c =? 0 then Ok (b, into)
    else
      let* r := minify_round fuel0 b c json into in
      let '(b, json, into) := r in
      minify_loop fuel0 fuel b json into
  end.
Definition cJSON_Minify (json : option (list Z)) : res (option (list Z)) :=
  match json with
  | None => Ok None
  | Some b =>
    let* r := minify_loop (S (length b)) (S (length b)) b 0 0 in
    let '(b, into) := r in
    let* b := wr8 b into 0 in
    Ok (Some b)
  end.

Definition minified (s : list Z) : option (list Z) :=
  match cJSON_Minify (Some (s ++ [0])) with Ok (Some b) => Some (c_str b) | _ => None end.
Example ex_minify :
  minified (cstr "{ " ++ quoted "a b" ++ cstr " : [1, /* two */ 2]} // end") = Some (cstr "{" ++ quoted "a b" ++ cstr ":[1,2]}").
Proof. by vm_compute. Qed.
(** A string that ends in a backslash: its closing quote is taken for an escaped one, and the next
    string loses its space. *)
Example minify_changes_strings :
  minified (cstr "[" ++ [quote; 97; 92; 92; quote] ++ cstr ", " ++ quoted "b c" ++ cstr "]") =
  Some (cstr "[" ++ [quote; 97; 92; 92; quote] ++ cstr ", " ++ quoted "bc" ++ cstr "]").
Proof. by vm_compute. Qed.

(** ** The text that is left *)
Inductive part : Type := Plain | Line | Block | Text.
Fixpoint minify (m : part) (t : list Z) {struct t} : list Z :=
  match t with
  | [] => []
  | c :: t' =>
    match m with
    | Plain =>
      if is_space c then minify Plain t'
      else if c =? 47 then
        match t' with
        | d :: t'' => if d =? 47 then minify Line t'' else if d =? 42 then minify Block t'' else minify Plain t'
        | [] => []
        end
      else if c =? quote then quote :: minify Text t'
      else c :: minify Plain t'
    | Line => minify (if c =? 10 then Plain else Line) t'
    | Block =>
      match t' with
      | d :: t'' => if (c =? 42) && (d =? 47) then minify Plain t'' else minify Block t'
      | [] => []
      end
    | Text =>
      if c =? quote then quote :: minify Plain t'
      else
        match t' with
        | d :: t'' => if (c =? 92) && (d =? quote) then 92 :: quote :: minify Text t'' else c :: minify Text t'
        | [] => [c]
        end
    end
  end.

(** ** In place

    What is written is in front of what is still to be read. *)
Lemma rd_next out gap c t : rd8 (out ++ gap ++ c :: t) (zlen out + zlen gap) = Ok c.
Proof. by rewrite app_assoc, <- zlen_app, rd8_shift0. Qed.
Lemma rd_second out gap c d t : rd8 (out ++ gap ++ c :: d :: t) (zlen out + zlen gap + 1) = Ok d.
Proof. rewrite app_assoc, <- zlen_app, rd8_shift by lia. done. Qed.
(** The byte that was read is still there. *)
Lemma wr_next out gap c : is_u8 c -> exists gap', zlen gap' = zlen gap /\
  (forall t, wr8 (out ++ gap ++ c :: t) (zlen out) c = Ok ((out ++ [c]) ++ gap' ++ t)) /\
  (forall t, rd8 ((out ++ [c]) ++ gap' ++ t) (zlen out + zlen gap) = Ok c).
Proof.
  intros Hc. unfold wr8. rewrite u8_id by done. destruct gap as [|g gap].
  - exists []. split; [done|]. split; intros t; cbn [app].
    + change (c :: t) with ([c] ++ t). rewrite (zblit_app out) by done. by rewrite <- app_assoc.
    + rewrite <- app_assoc. exact (rd_next out [] c t).
  - exists (gap ++ [c]). split; [by rewrite zlen_snoc, zlen_cons|]. split; intros t.
    + cbn [app]. change (g :: gap ++ c :: t) with ([g] ++ gap ++ c :: t). rewrite (zblit_app out) by done. by rewrite <- !app_assoc.
    + pose proof (rd_next (out ++ [c]) gap c t) as E. rewrite zlen_snoc in E. rewrite zlen_cons, <- (app_assoc gap). cbn [app].
      rewrite <- E. f_equal. lia.
Qed.
Lemma wr_again out c t : is_u8 c -> wr8 ((out ++ [c]) ++ t) (zlen out) c = Ok ((out ++ [c]) ++ t).
Proof. intros Hc. unfold wr8. rewrite u8_id, <- app_assoc by done. by rewrite (zblit_app out). Qed.

Section InPlace.
Context (tail : list Z).

(** [run t] from the text [t] leads to the text [r], in the part [Plain], and has written what [m] keeps in between. *)
Definition passes (m : part) (t : list Z) (out gap : list Z) (input : Z) : Prop :=
  exists r gap', out ++ gap ++ t ++ 0 :: tail = out ++ gap' ++ r ++ 0 :: tail /\ input = zlen out + zlen gap' /\
    minify m t = minify Plain r /\ string_chars r /\ (length r <= length t)%nat.

Lemma oneline_ok t : string_chars t -> forall fuel out gap, (length t < fuel)%nat -> exists input,
  oneline_loop fuel (out ++ gap ++ t ++ 0 :: tail) (zlen out + zlen gap) = Ok input /\ passes Line t out gap input.
Proof.
  induction 1 as [|c t [Hc H0] Ht IH]; intros [|fuel] out gap Hf; try (cbn in Hf; lia); cbn [oneline_loop].
  - cbn [app]. rewrite rd_next. eexists. split; [done|]. exists [], gap. repeat split; [constructor|cbn; lia].
  - cbn [app]. rewrite rd_next. cbn [rbind]. destruct (Z.eqb_spec c 0); [done|]. cbn [minify]. destruct (Z.eqb_spec c 10) as [E|E].
    + eexists. split; [done|]. exists t, (gap ++ [c]). rewrite zlen_snoc, <- !app_assoc. cbn [minify length]. rewrite (proj2 (Z.eqb_eq c 10) E).
      repeat split; [lia|done|lia].
    + destruct (IH fuel out (gap ++ [c])) as (input & E1 & r & gap' & E2 & E3 & E4 & E5 & E6); [cbn in Hf; lia|].
      rewrite zlen_snoc, <- !app_assoc in E1. rewrite <- app_assoc in E2. exists input. split; [rewrite <- E1; f_equal; lia|].
      exists r, gap'. cbn [minify length]. rewrite (proj2 (Z.eqb_neq c 10) E). repeat split; try done. lia.
Qed.
Lemma multiline_ok t : string_chars t -> forall fuel out gap, (length t < fuel)%nat -> exists input,
  multiline_loop fuel (out ++ gap ++ t ++ 0 :: tail) (zlen out + zlen gap) = Ok input /\ passes Block t out gap input.
Proof.
  induction 1 as [|c t [Hc H0] Ht IH]; intros [|fuel] out gap Hf; try (cbn in Hf; lia); cbn [multiline_loop].
  - cbn [app]. rewrite rd_next. eexists. split; [done|]. exists [], gap. repeat split; [constructor|cbn; lia].
  - cbn [app]. rewrite rd_next. cbn [rbind]. destruct (Z.eqb_spec c 0); [done|].
    assert (Hgo : minify Block (c :: t) = minify Block t -> exists input,
      multiline_loop fuel (out ++ gap ++ c :: t ++ 0 :: tail) (zlen out + zlen gap + 1) = Ok input /\ passes Block (c :: t) out gap input).
    { intros Em. destruct (IH fuel out (gap ++ [c])) as (input & E1 & r & gap' & E2 & E3 & E4 & E5 & E6); [cbn in Hf; lia|].
      rewrite zlen_snoc, <- !app_assoc in E1. rewrite <- app_assoc in E2. exists input. split; [rewrite <- E1; f_equal; lia|].
      exists r, gap'. rewrite Em. cbn [length]. repeat split; try done. lia. }
    destruct (Z.eqb_spec c 42) as [E|E]; cbn [rbind].
    + destruct Ht as [|d t [Hd Hd0] Ht].
      * cbn [app]. rewrite rd_second. cbn [rbind]. by apply Hgo.
      * cbn [app]. rewrite rd_second. cbn [rbind]. destruct (Z.eqb_spec d 47) as [E'|E'].
        -- eexists. split; [done|]. exists t, (gap ++ [c; d]). rewrite zlen_app, <- !app_assoc. subst. repeat split; [change (zlen [42; 47]) with 2; lia|done|cbn; lia].
        -- apply Hgo. cbn [minify]. by rewrite (proj2 (Z.eqb_neq d 47) E'), andb_false_r.
    + apply Hgo. cbn [minify]. destruct t; [done|]. by rewrite (proj2 (Z.eqb_neq c 42) E).
Qed.

(** From the text [t], with [out] written so far, [o] is written and [r], not longer than [n], is
    still to be read. *)
Definition writes (m : part) (t out gap : list Z) (n : nat) (x : list Z * Z * Z) : Prop :=
  exists o r gap', x = ((out ++ o) ++ gap' ++ r ++ 0 :: tail, zlen (out ++ o) + zlen gap', zlen (out ++ o)) /\
    minify m t = o ++ minify Plain r /\ string_chars r /\ zlen gap + zlen t = zlen o + zlen gap' + zlen r /\ (length r <= n)%nat.
Lemma writes_more m m' t t' out gap gap' o n n' x : writes m' t' (out ++ o) gap' n' x -> (n' <= n)%nat -> minify m t = o ++ minify m' t' ->
  zlen gap + zlen t = zlen o + zlen gap' + zlen t' -> writes m t out gap n x.
Proof.
  intros (o1 & r & g & -> & E & Hr & Hl & Hn) Hnn Em Hz. exists (o ++ o1), r, g. rewrite Em, E, <- !app_assoc, !zlen_app. repeat split; [done|lia|lia].
Qed.

Lemma string_part_ok n : forall t fuel out gap, (length t <= n)%nat -> string_chars t -> (length t < fuel)%nat -> exists x,
  string_loop fuel (out ++ gap ++ t ++ 0 :: tail) (zlen out + zlen gap) (zlen out) = Ok x /\ writes Text t out gap (length t) x.
Proof.
  induction n as [|n IH]; intros t [|fuel] out gap Hn Ht Hf; try lia; cbn [string_loop].
  - destruct t; [|cbn in Hn; lia]. cbn [app]. rewrite rd_next. eexists. split; [done|]. exists [], [], gap. rewrite app_nil_r. by repeat split; try (cbn; lia).
  - destruct Ht as [|c t [Hc H0] Ht].
    { cbn [app]. rewrite rd_next. eexists. split; [done|]. exists [], [], gap. rewrite app_nil_r. repeat split; [constructor|cbn; lia]. }
    cbn [app]. rewrite rd_next. cbn [rbind]. destruct (Z.eqb_spec c 0); [done|]. destruct (wr_next out gap c Hc) as (g1 & Hg & Hw & Hr).
    rewrite Hw. cbn [rbind]. rewrite Hr. cbn [rbind]. cbn [length] in *.
    assert (Eo : zlen out + 1 = zlen (out ++ [c])) by by rewrite zlen_snoc.
    assert (Ei : zlen out + zlen gap + 1 = zlen (out ++ [c]) + zlen g1) by (rewrite zlen_snoc; lia).
    destruct (Z.eqb_spec c quote) as [E|E].
    { subst c. rewrite wr_again by done. cbn [rbind]. eexists. split; [done|]. exists [quote], t, g1. rewrite Ei, Eo, zlen_cons. change (zlen [quote]) with 1.
      repeat split; [done|lia|lia]. }
    assert (Hgo : minify Text (c :: t) = c :: minify Text t -> exists x,
      string_loop fuel ((out ++ [c]) ++ g1 ++ t ++ 0 :: tail) (zlen out + zlen gap + 1) (zlen out + 1) = Ok x /\ writes Text (c :: t) out gap (S (length t)) x).
    { intros Em. rewrite Ei, Eo. destruct (IH t fuel (out ++ [c]) g1) as (x & Ex & Hx); [lia|done|lia|]. exists x. split; [done|].
      apply (writes_more Text Text _ t out gap g1 [c] _ (length t)); [done|lia|done|]. rewrite zlen_cons. change (zlen [c]) with 1. lia. }
    assert (Eq : (c =? quote) = false) by by apply Z.eqb_neq.
    destruct (Z.eqb_spec c 92) as [E'|E']; cbn [rbind]; [|apply Hgo; cbn [minify]; rewrite Eq, (proj2 (Z.eqb_neq c 92) E'); by destruct t].
    rewrite Ei. destruct Ht as [|d t [Hd Hd0] Ht]; [cbn [app]; rewrite rd_next; cbn [rbind]; rewrite <- Ei; apply Hgo; cbn [minify]; by rewrite Eq|].
    cbn [app]. rewrite rd_next. cbn [rbind]. destruct (Z.eqb_spec d quote) as [Ed|Ed].
    + rewrite Eo. destruct (wr_next (out ++ [c]) g1 d Hd) as (g2 & Hg2 & Hw2 & _). rewrite Hw2. cbn [rbind].
      destruct (IH t fuel ((out ++ [c]) ++ [d]) g2) as (x & Ex & Hx); [cbn in Hn; lia|done|cbn in Hf; lia|]. exists x. rewrite !zlen_snoc in Ex. rewrite !zlen_snoc. split.
      * rewrite <- Ex. f_equal. lia.
      * rewrite <- app_assoc in Hx. apply (writes_more Text Text _ t out gap g2 [c; d] _ (length t)); [done|cbn; lia| |autorewrite with crw; lia].
        subst. by cbn [minify app].
    + rewrite <- Ei. apply Hgo. cbn [minify]. by rewrite Eq, (proj2 (Z.eqb_neq d quote) Ed), andb_false_r.
Qed.


(** One round takes a part of the text. *)
Lemma passes_writes m c t t' out gap gap' input n : passes m t' out gap' input -> out ++ gap' ++ t' ++ 0 :: tail = out ++ gap ++ c :: t ++ 0 :: tail ->
  minify Plain (c :: t) = minify m t' -> (length t' <= n)%nat ->
  writes Plain (c :: t) out gap n (out ++ gap ++ c :: t ++ 0 :: tail, input, zlen out).
Proof.
  intros (r & g & E1 & -> & E2 & Hr & Hl) Eb Em Hn. exists [], r, g. rewrite app_nil_r, <- Eb, E1, Em. repeat split; [done|done| |lia].
  rewrite E1 in Eb. apply (f_equal zlen) in Eb. autorewrite with crw in *. lia.
Qed.
Lemma round_ok fuel c t out gap : string_chars (c :: t) -> (length t < fuel)%nat -> exists x,
  minify_round fuel (out ++ gap ++ c :: t ++ 0 :: tail) c (zlen out + zlen gap) (zlen out) = Ok x /\ writes Plain (c :: t) out gap (length t) x.
Proof.
  intros Hct Hf. inversion Hct as [|? ? [Hc H0] Ht]; subst. unfold minify_round.
  assert (Hskip : minify Plain (c :: t) = minify Plain t ->
    writes Plain (c :: t) out gap (length t) (out ++ gap ++ c :: t ++ 0 :: tail, zlen out + zlen gap + 1, zlen out)).
  { intros Em. exists [], t, (gap ++ [c]). rewrite Em, app_nil_r, zlen_snoc, <- !app_assoc, !zlen_cons. cbn [app]. change (zlen []) with 0.
    repeat split; try done; try lia. f_equal. f_equal. lia. }
  destruct (is_space c) eqn:Ew; [eexists; split; [done|]; apply Hskip; cbn [minify]; by rewrite Ew|].
  destruct (Z.eqb_spec c 47) as [E|E].
  - destruct Ht as [|d t [Hd Hd0] Ht].
    { cbn [app]. rewrite rd_second. cbn [rbind]. eexists. split; [done|]. apply Hskip. cbn [minify]. by rewrite Ew, (proj2 (Z.eqb_eq c 47) E). }
    cbn [app]. rewrite rd_second. cbn [rbind]. cbn [length] in Hf.
    assert (Em : minify Plain (c :: d :: t) = if d =? 47 then minify Line t else if d =? 42 then minify Block t else minify Plain (d :: t)).
    { cbn [minify]. by rewrite Ew, (proj2 (Z.eqb_eq c 47) E). }
    assert (Ei : zlen out + zlen gap + 2 = zlen out + zlen (gap ++ [c; d])) by (autorewrite with crw; lia).
    assert (Eb : out ++ (gap ++ [c; d]) ++ t ++ 0 :: tail = out ++ gap ++ c :: d :: t ++ 0 :: tail) by by rewrite <- app_assoc.
    destruct (d =? 47); [|destruct (d =? 42); [|eexists; split; [done|by apply Hskip]]].
    + destruct (oneline_ok t Ht fuel out (gap ++ [c; d])) as (input & E1 & Hs); [lia|]. unfold skip_oneline_comment. rewrite Ei, <- Eb, E1. cbn [rbind].
      eexists. split; [done|]. rewrite Eb. apply (passes_writes Line c (d :: t) t out gap _ input _ Hs); [done|done|cbn; lia].
    + destruct (multiline_ok t Ht fuel out (gap ++ [c; d])) as (input & E1 & Hs); [lia|]. unfold skip_multiline_comment. rewrite Ei, <- Eb, E1. cbn [rbind].
      eexists. split; [done|]. rewrite Eb. apply (passes_writes Block c (d :: t) t out gap _ input _ Hs); [done|done|cbn; lia].
  - destruct (wr_next out gap c Hc) as (g1 & Hg & Hw & Hr).
    assert (Eo : zlen out + 1 = zlen (out ++ [c])) by by rewrite zlen_snoc.
    assert (Ei : zlen out + zlen gap + 1 = zlen (out ++ [c]) + zlen g1) by (rewrite zlen_snoc; lia).
    destruct (Z.eqb_spec c quote) as [Eq|Eq].
    + unfold minify_string. rewrite rd_next. cbn [rbind]. rewrite Hw. cbn [rbind]. rewrite Ei, Eo.
      destruct (string_part_ok (length t) t fuel (out ++ [c]) g1) as (x & Ex & Hx); [done|done|done|]. exists x. split; [done|].
      apply (writes_more _ Text _ t _ _ g1 [c] _ (length t)); [done|done| |autorewrite with crw; lia]. subst. by cbn [minify app].
    + rewrite Hw. cbn [rbind]. eexists. split; [done|]. exists [c], t, g1. rewrite Ei, Eo. repeat split; [|done|autorewrite with crw; lia|done].
      cbn [minify app]. by rewrite Ew, (proj2 (Z.eqb_neq c 47) E), (proj2 (Z.eqb_neq c quote) Eq).
Qed.
Lemma loop_ok n : forall t fuel0 fuel out gap, (length t <= n)%nat -> string_chars t -> (length t < fuel)%nat -> (length t <= fuel0)%nat -> exists gap',
  minify_loop fuel0 fuel (out ++ gap ++ t ++ 0 :: tail) (zlen out + zlen gap) (zlen out) =
    Ok ((out ++ minify Plain t) ++ gap' ++ 0 :: tail, zlen (out ++ minify Plain t)) /\ zlen (minify Plain t) + zlen gap' = zlen gap + zlen t.
Proof.
  induction n as [|n IH]; intros t fuel0 [|fuel] out gap Hn Ht Hf Hf0; try lia; cbn [minify_loop].
  - destruct t; [|cbn in Hn; lia]. cbn [app]. rewrite rd_next. exists gap. cbn [rbind minify]. rewrite app_nil_r. split; [done|lia].
  - destruct t as [|c t]; [cbn [app]; rewrite rd_next; exists gap; cbn [rbind minify]; rewrite app_nil_r; split; [done|lia]|].
    cbn [app]. rewrite rd_next. cbn [rbind]. destruct (Z.eqb_spec c 0) as [E|E]; [by inversion Ht as [|? ? [? ?]]|]. cbn [length] in *.
    destruct (round_ok fuel0 c t out gap Ht) as (x & Ex & o & r & g & -> & Em & Hr & Hz & Hl); [lia|]. rewrite Ex. cbn [rbind].
    destruct (IH r fuel0 fuel (out ++ o) g) as (gap' & El & Hz'); [lia|done|lia|lia|]. exists gap'. rewrite El, Em, (app_assoc out o). split; [done|].
    rewrite zlen_app. lia.
Qed.
End InPlace.

Lemma cJSON_Minify_ok t tail : string_chars t -> exists junk,
  cJSON_Minify (Some (t ++ 0 :: tail)) = Ok (Some (minify Plain t ++ 0 :: junk)) /\ zlen (minify Plain t ++ 0 :: junk) = zlen (t ++ 0 :: tail).
Proof.
  intros Ht. unfold cJSON_Minify. set (fuel := S (length (t ++ 0 :: tail))).
  assert (Hf : (length t < fuel)%nat) by (unfold fuel; rewrite length_app; lia).
  destruct (loop_ok tail (length t) t fuel fuel [] []) as (gap & E & Hz); [done|done|done|lia|]. cbn [app] in E. change (zlen [] + zlen []) with 0 in E.
  change (zlen []) with 0 in E, Hz. rewrite E. cbn [rbind]. unfold wr8. change (u8 0) with 0. destruct gap as [|g gap].
  - change (zlen []) with 0 in Hz. exists tail. cbn [app]. change (0 :: tail) with ([0] ++ tail) at 1. rewrite (zblit_app (minify Plain t)) by done. split; [done|].
    autorewrite with crw. lia.
  - exists (gap ++ 0 :: tail). cbn [app]. change (g :: gap ++ 0 :: tail) with ([g] ++ gap ++ 0 :: tail). rewrite (zblit_app (minify Plain t)) by done.
    split; [done|]. autorewrite with crw in *. lia.
Qed.

(** ** Formatted text *)
Definition solid (c : Z) : bool := (0 <=? c) && (c <? 256) && negb (is_space c) && negb (c =? 47) && negb (c =? quote).
Definition all (p : Z -> bool) (s : list Z) : Prop := Forall (fun c => p c = true) s.
Lemma all_check p s : forallb p s = true -> all p s.
Proof. intros H. apply List.Forall_forall. by apply forallb_forall. Qed.
Lemma all_app p s t : all p s -> all p t -> all p (s ++ t).
Proof. apply Forall_app_2. Qed.

Lemma minify_solid s r : all solid s -> minify Plain (s ++ r) = s ++ minify Plain r.
Proof.
  induction 1 as [|c s Hc _ IH]; [done|]. cbn [app minify]. unfold solid in Hc. apply andb_prop in Hc as [[[_ Hw]%andb_prop H47]%andb_prop Hq].
  apply negb_true_iff in Hw, H47, Hq. rewrite Hw, H47, Hq, IH. done.
Qed.
Lemma minify_space s r : all is_space s -> minify Plain (s ++ r) = minify Plain r.
Proof. induction 1 as [|c s Hc _ IH]; [done|]. cbn [app minify]. by rewrite Hc. Qed.

(** *** Strings *)
Definition mid (c : Z) : bool := negb (c =? quote) && negb (c =? 92).
Lemma minify_mid s r : all mid s -> r <> [] -> minify Text (s ++ r) = s ++ minify Text r.
Proof.
  intros Hs Hr. induction Hs as [|c s Hc _ IH]; [done|]. cbn [app minify]. unfold mid in Hc. apply andb_prop in Hc as [Hq H92].
  apply negb_true_iff in Hq, H92. rewrite Hq, H92. cbn [andb]. destruct (s ++ r) as [|d x] eqn:E; [by apply app_eq_nil in E as [_ ->]|]. by rewrite IH.
Qed.
(** The three kinds of escapes. *)
Lemma escape_cases c : is_u8 c -> c <> 0 ->
  all mid (escape_char c) /\ escape_char c <> [] \/ (exists l, escape_char c = 92 :: l /\ all mid l /\ l <> []) \/ c = quote \/ c = 92.
Proof.
  intros Hc H0. pose proof (byte_cases (fun c => (forallb mid (escape_char c) && negb (bool_decide (escape_char c = []))) ||
    match escape_char c with x :: l => (x =? 92) && forallb mid l && negb (bool_decide (l = [])) | [] => false end ||
    (c =? quote) || (c =? 92)) ltac:(by vm_compute) c Hc H0) as H.
  cbn beta in H. apply orb_prop in H as [[[H|H]%orb_prop|H]%orb_prop|H]; [left|right; left|right; right; left|right; right; right].
  - apply andb_prop in H as [H1 H2]. split; [by apply all_check|]. intros E. by rewrite E in H2.
  - destruct (escape_char c) as [|x l]; [done|]. apply andb_prop in H as [[H1 H2]%andb_prop H3]. apply Z.eqb_eq in H1 as ->.
    exists l. repeat split; [by apply all_check|]. intros ->. done.
  - lia.
  - lia.
Qed.
Fixpoint backslash_end (s : list Z) : bool := match s with [] => false | [c] => c =? 92 | _ :: s' => backslash_end s' end.
Lemma body_head c s : exists x l, string_body (c :: s) = x :: l /\ (is_u8 c -> c <> 0 -> x <> quote).
Proof.
  cbn [string_body flat_map]. unfold escape_char. destruct (plain_char c) eqn:E; eexists _, _; (split; [reflexivity|]); intros _ _; [|done].
  unfold plain_char in E. intros ->. by rewrite Z.eqb_refl, andb_false_r in E.
Qed.
Lemma minify_escape d y : (d =? quote) = false -> minify Text (92 :: d :: y) = 92 :: minify Text (d :: y).
Proof. intros Hd. change (minify Text (92 :: d :: y)) with (if d =? quote then 92 :: quote :: minify Text y else 92 :: minify Text (d :: y)). by rewrite Hd. Qed.
Lemma minify_body s r : string_chars s -> backslash_end s = false -> minify Text (string_body s ++ quote :: r) = string_body s ++ quote :: minify Plain r.
Proof.
  induction 1 as [|c s [Hc H0] Hs IH]; intros Hend; [done|].
  assert (IH' : minify Text (string_body s ++ quote :: r) = string_body s ++ quote :: minify Plain r).
  { apply IH. destruct s; [done|exact Hend]. }
  assert (Hne : string_body s ++ quote :: r <> []) by (destruct (string_body s); done).
  change (string_body (c :: s)) with (escape_char c ++ string_body s). rewrite <- !app_assoc, <- IH'.
  destruct (escape_cases c Hc H0) as [[H _]|[(l & -> & H & Hl)|[->| ->]]].
  - by apply minify_mid.
  - destruct l as [|d l]; [done|]. inversion H as [|? ? Hd Hl']; subst. unfold mid in Hd. apply andb_prop in Hd as [Hq _].
    apply negb_true_iff in Hq. cbn [app]. rewrite minify_escape by done. f_equal. exact (minify_mid (d :: l) _ H Hne).
  - reflexivity.
  - change (escape_char 92) with [92; 92]. destruct s as [|c' s]; [done|]. destruct (body_head c' s) as (x & l & Eb & Hx). rewrite Eb in *. cbn [app].
    inversion Hs as [|? ? [Hc' Hc0] _]; subst. specialize (Hx Hc' Hc0). rewrite minify_escape by done. f_equal. apply minify_escape. by apply Z.eqb_neq.
Qed.
Definition good_string (o : option (list Z)) : Prop := match o with Some b => backslash_end (c_str b) = false | None => True end.
Lemma minify_literal o r : string_u8 o -> good_string o -> minify Plain (string_literal o ++ r) = string_literal o ++ minify Plain r.
Proof.
  intros Hu Hg. unfold string_literal. rewrite <- !app_comm_cons, <- !app_assoc. cbn [app]. change (minify Plain (quote :: ?x)) with (quote :: minify Text x).
  f_equal. destruct o as [b|]; [|done]. apply minify_body; [by apply c_str_chars|done].
Qed.

(** *** Numbers *)
Lemma solid_digits n : forall z acc, 0 <= z -> all solid acc -> all solid (digits n z acc).
Proof.
  induction n as [|n IH]; intros z acc Hz Ha; cbn [digits]; [done|].
  assert (Hd : solid (48 + z mod 10) = true).
  { pose proof (Z.mod_pos_bound z 10). unfold solid, is_space. change quote with 34. by bool_lia. }
  assert (Ha' : all solid (48 + z mod 10 :: acc)) by by constructor.
  destruct (z / 10 =? 0); [done|]. apply IH; [by apply Z.div_pos|done].
Qed.
Lemma solid_print_u z : all solid (print_u z).
Proof. apply solid_digits; [|constructor]. pose proof (u32_range z) as R. unfold is_u32 in R. lia. Qed.
Lemma solid_print_d z : all solid (print_d z).
Proof. unfold print_d. destruct (_ <? 0); [constructor; [done|]|]; apply solid_print_u. Qed.
Lemma solid_strip l : all solid l -> all solid (strip_zeros l).
Proof. induction 1 as [|c l Hc Hl IH]; [constructor|]. cbn [strip_zeros]. destruct (c =? 48); [done|by constructor]. Qed.
Lemma solid_fraction ds : all solid ds -> all solid (fraction ds).
Proof.
  intros Hd. unfold fraction.
  assert (Hr : all solid (rev (strip_zeros (rev ds)))) by (apply List.Forall_rev, solid_strip, List.Forall_rev, Hd).
  destruct (rev _); [done|]. by constructor.
Qed.
Lemma solid_layout prec x ds : all solid ds -> all solid (layout_g prec x ds).
Proof.
  intros Hd. unfold layout_g.
  assert (Hz : forall n, all solid (replicate n 48)) by (induction n; by constructor).
  destruct ((-4 <=? x) && (x <? prec)); [destruct (0 <=? x)|].
  - apply all_app; [by apply Forall_take|]. by apply solid_fraction, Forall_drop.
  - constructor; [done|]. apply solid_fraction, all_app; [apply Hz|done].
  - apply all_app; [by apply Forall_take|]. apply all_app; [by apply solid_fraction, Forall_drop|].
    unfold print_exp. constructor; [done|]. constructor; [by destruct (x <? 0)|]. apply all_app; [destruct (_ <? 10); by repeat constructor|apply solid_print_u].
Qed.
Lemma solid_print_g prec v : 0 < prec -> is_finite v = true -> all solid (print_g prec v).
Proof.
  intros Hp Hv. destruct v as [s|s| |s m e]; try discriminate; unfold print_g; [destruct s; by repeat constructor|].
  set (n := if 0 <=? e then _ else _). set (d := if 0 <=? e then _ else _). set (x := decimal_exponent _ _ _ _). set (p := prec - 1 - x).
  assert (Hn : 0 <= n). { unfold n. destruct (Z.leb_spec 0 e); [|lia]. apply Z.mul_nonneg_nonneg; [lia|]. apply Z.pow_nonneg. lia. }
  assert (Hd : 0 < d). { unfold d. destruct (Z.leb_spec 0 e); [lia|]. apply Z.pow_pos_nonneg; lia. }
  assert (Hq : 0 <= (if 0 <=? p then round_div (n * 10 ^ p) d else round_div n (d * 10 ^ (- p)))).
  { destruct (Z.leb_spec 0 p); apply round_div_nonneg; try done.
    - apply Z.mul_nonneg_nonneg; [done|]. apply Z.pow_nonneg. lia.
    - apply Z.mul_pos_pos; [done|]. apply Z.pow_pos_nonneg; lia. }
  set (q := if 0 <=? p then _ else _) in *.
  assert (Hsign : all solid (if s then [45] else [])) by (destruct s; by repeat constructor).
  destruct (q =? 10 ^ prec); (apply all_app; [done|]; apply solid_layout, solid_digits; [|constructor]); [|done]. apply Z.pow_nonneg. lia.
Qed.
Lemma solid_number v n : all solid (number_text v n).
Proof.
  unfold number_text. destruct (is_finite v) eqn:Hv; cbn [negb]; [|by apply all_check].
  destruct (SFeqb v (double_of_int n)); [apply solid_print_d|]. destruct (strtod (print_g 15 v)) as [test used].
  destruct (_ || _); by apply solid_print_g.
Qed.

(** *** Items *)

(** No raw text, and no string that ends in a backslash. *)
Inductive minifiable : cJSON -> Prop :=
  | minifiable_item i : Forall minifiable (child i) -> Z.land (ctype i) 255 <> cJSON_Raw -> good_string (valuestring i) -> good_string (item_string i) ->
      minifiable i.
Definition minifies (i : cJSON) : Prop := forall d d' r, minify Plain (json_text true d i ++ r) = json_text false d' i ++ minify Plain r.
Definition named_ok (i : cJSON) : Prop := string_u8 (item_string i) /\ good_string (item_string i).

Lemma minify_array d d' l r : Forall minifies l ->
  minify Plain (array_text (json_text true d) true l ++ r) = array_text (json_text false d') false l ++ minify Plain r.
Proof.
  induction 1 as [|i l Hi _ IH]; [done|]. cbn [array_text]. rewrite <- !app_assoc, (Hi d d'). f_equal. destruct l as [|j l]; [done|].
  rewrite <- !app_assoc. change (comma true) with ([44] ++ [32]). rewrite <- app_assoc, minify_solid, minify_space by by apply all_check. cbn [comma]. by rewrite IH.
Qed.
Lemma space_tabs n : all is_space (tabs n).
Proof. unfold tabs. induction (Z.to_nat n); by constructor. Qed.
Lemma minify_member d d' k i last r : minifies i -> named_ok i ->
  minify Plain (member_text (json_text true d) true k i last ++ r) = member_text (json_text false d') false (k) i last ++ minify Plain r.
Proof.
  intros Hi [Hu Hg]. unfold member_text. rewrite <- !app_assoc, minify_space by apply space_tabs. rewrite minify_literal by done. cbn [app]. f_equal.
  change (colon true) with ([58] ++ [9]). rewrite <- app_assoc, minify_solid, minify_space by by apply all_check. cbn [colon app]. f_equal. rewrite (Hi d d').
  f_equal. unfold member_end. rewrite <- !app_assoc, minify_solid, minify_space by (destruct last; by apply all_check). by destruct last.
Qed.
Lemma member_depth text k k' i last : member_text text false k i last = member_text text false k' i last.
Proof. done. Qed.
Lemma minify_object d d' k k' l r : Forall minifies l -> Forall named_ok l ->
  minify Plain (object_text (json_text true d) true k l ++ r) = object_text (json_text false d') false k' l ++ minify Plain r.
Proof.
  induction 1 as [|i l Hi _ IH]; intros Hn; [done|]. inversion Hn as [|? ? Hi' Hl]; subst. cbn [object_text]. rewrite <- !app_assoc.
  rewrite (minify_member d d') by done. rewrite (member_depth _ k k'). f_equal. by apply IH.
Qed.
Lemma minify_item i : printable i -> minifiable i -> minifies i.
Proof.
  induction i as [i IH] using cJSON_children_ind. intros Hp Hm d d' r. destruct Hp as [i Hpc Htype _ _ Hu _]. destruct Hm as [i Hmc Hraw Hg _].
  assert (Hl : Forall minifies (child i)).
  { apply List.Forall_forall. intros j Hj. rewrite List.Forall_forall in IH, Hpc, Hmc. by apply IH; [| apply Hpc | apply Hmc]. }
  assert (Hnames : Forall named_ok (child i)).
  { apply List.Forall_forall. intros j Hj. rewrite List.Forall_forall in Hpc, Hmc. destruct (Hpc j Hj), (Hmc _ Hj). by split. }
  destruct i as [l t vs n v nm]. cbn [child ctype valuestring item_string] in *. cbn [json_text]. set (ty := Z.land t 255) in *.
  destruct (ty =? cJSON_NULL); [by rewrite minify_solid by by apply all_check|].
  destruct (ty =? cJSON_False); [by rewrite minify_solid by by apply all_check|].
  destruct (ty =? cJSON_True); [by rewrite minify_solid by by apply all_check|].
  destruct (ty =? cJSON_Number); [by rewrite minify_solid by apply solid_number|].
  destruct (Z.eqb_spec ty cJSON_Raw); [done|].
  destruct (ty =? cJSON_String); [by apply minify_literal|].
  destruct (ty =? cJSON_Array).
  - rewrite <- !app_assoc, minify_solid, (minify_array (d + 1) (d' + 1)), minify_solid by (done || by apply all_check). done.
  - change (open_brace true) with ([123] ++ [10]). rewrite <- !app_assoc, minify_solid, minify_space by by apply all_check.
    rewrite (minify_object (d + 1) (d' + 1) (d + 1) (d' + 1)), minify_space, minify_solid by (done || apply space_tabs || by apply all_check). done.
Qed.

(** *** The text is made of bytes *)
Lemma solid_u8 s : all solid s -> Forall is_u8 s.
Proof. apply Forall_impl. intros c Hc. unfold solid in Hc. unfold is_u8. lia. Qed.
Lemma u8_any_literal o : string_u8 o -> Forall is_u8 (string_literal o).
Proof.
  intros Ho. destruct o as [b|]; [|by apply u8_check_list]. pose proof (c_str_chars b Ho) as Hc. pose proof (u8_literal _ Hc) as H.
  unfold string_literal in *. by rewrite (c_str_id _ Hc) in H.
Qed.
Lemma u8_members fmt text k l : Forall (fun i => Forall is_u8 (text i) /\ string_u8 (item_string i)) l -> Forall is_u8 (object_text text fmt k l).
Proof.
  induction 1 as [|i l [Hi Hn] _ IH]; [constructor|]. cbn [object_text]. unfold member_text. rewrite !Forall_app.
  split; [split; [destruct fmt; [apply u8_tabs|constructor]|]|done]. split; [by apply u8_any_literal|].
  split; [destruct fmt; by apply u8_check_list|]. split; [done|]. unfold member_end. apply Forall_app. split; [destruct l|destruct fmt]; by apply u8_check_list.
Qed.
Lemma u8_text fmt i : printable i -> forall d, Forall is_u8 (json_text fmt d i).
Proof.
  induction i as [i IH] using cJSON_children_ind. intros Hp d. destruct Hp as [i Hpc _ _ _ Hu _].
  assert (Hc : Forall (fun i => Forall is_u8 (json_text fmt (d + 1) i) /\ string_u8 (item_string i)) (child i)).
  { apply List.Forall_forall. intros j Hj. rewrite List.Forall_forall in IH, Hpc. split; [by apply IH, Hpc|]. by destruct (Hpc j Hj). }
  destruct i as [l t vs n v nm]. cbn [child ctype valuestring] in *. cbn [json_text]. repeat (match goal with |- context [if ?b then _ else _] => destruct b end);
    rewrite ?Forall_app; try (by apply u8_check_list).
  - apply solid_u8, solid_number.
  - destruct vs as [b|]; [|constructor]. by apply chars_u8, c_str_chars.
  - by apply u8_any_literal.
  - repeat split; try by apply u8_check_list. apply u8_array. revert Hc. apply Forall_impl. by intros j [Hj _].
  - repeat split; [by apply u8_check_list|by apply u8_members|apply u8_tabs|by apply u8_check_list].
  - repeat split; [by apply u8_check_list|by apply u8_members|constructor|by apply u8_check_list].
Qed.

(** C32: [cJSON_Minify] on the block that [cJSON_Print] makes.  It returns, reads and writes only
    inside the block, and leaves in it, ended by a zero, the text that [cJSON_PrintUnformatted] gives for the same item:
    all white space of the formatting is gone and no string is touched.  The item must not hold
    raw text, and none of its strings and names may end in a backslash; with such a string the code
    changes the strings behind it ([minify_changes_strings]). *)
Theorem minify_print junk i : printable i -> minifiable i ->
  returns (cJSON_Print junk (Some i)) (fun r => match r with
    | None => INT_MAX / 2 < zlen (json_text true 0 i) + 2
    | Some b => exists rest, cJSON_Minify (Some b) = Ok (Some (json_text false 0 i ++ 0 :: rest)) /\ zlen (json_text false 0 i ++ 0 :: rest) = zlen b /\
        (forall u, cJSON_PrintUnformatted junk (Some i) = Ok (Some u) -> u = json_text false 0 i ++ [0])
    end).
Proof.
  intros Hp Hm. destruct (print_ok junk true i Hp) as (r & Er & Hr). exists r. split; [done|]. destruct r as [b|]; [|done]. subst b.
  assert (Hchars : string_chars (json_text true 0 i)).
  { pose proof (u8_text true i Hp 0) as Hu. destruct (print_value_ok junk true i Hp 0 ltac:(done)) as [_ Ht]. apply List.Forall_forall. intros c Hc.
    unfold text_ok in Ht. rewrite List.Forall_forall in Hu, Ht. split; [by apply Hu|by apply Ht]. }
  destruct (cJSON_Minify_ok (json_text true 0 i) [] Hchars) as (rest & E & Hl).
  pose proof (minify_item i Hp Hm 0 0 []) as Em. change (minify Plain []) with (@nil Z) in Em. rewrite !app_nil_r in Em. rewrite Em in E, Hl.
  exists rest. split; [done|]. split; [done|].
  intros u Eu. destruct (print_ok junk false i Hp) as (u' & Eu' & Hu). unfold cJSON_PrintUnformatted in Eu. rewrite Eu in Eu'. by injection Eu' as <-.
Qed.

Lemma ex_print_minifiable : minifiable ex_print.
Proof. repeat first [apply Forall_cons_2 | apply Forall_nil_2 | apply minifiable_item; [|discriminate|by vm_compute|by vm_compute]]. Qed.
Lemma minify_print_witness : printable ex_print /\ minifiable ex_print /\
  returns (cJSON_Print (fun _ => 7) (Some ex_print)) (fun r => match r with
    | None => INT_MAX / 2 < zlen (json_text true 0 ex_print) + 2
    | Some b => exists rest, cJSON_Minify (Some b) = Ok (Some (json_text false 0 ex_print ++ 0 :: rest)) /\
        zlen (json_text false 0 ex_print ++ 0 :: rest) = zlen b /\
        (forall u, cJSON_PrintUnformatted (fun _ => 7) (Some ex_print) = Ok (Some u) -> u = json_text false 0 ex_print ++ [0])
    end).
Proof.
  assert (Hp : printable ex_print) by (apply printable_check_ok; by vm_compute). split; [exact Hp|]. split; [exact ex_print_minifiable|].
  exact (minify_print (fun _ => 7) ex_print Hp ex_print_minifiable).
Defined.
