(* ===== verification/HeapLogic.v ===== *)
(** A separation logic for code that allocates and frees.

    An assertion is a predicate on a heap, and it owns exactly that heap: nothing is
    dropped silently, so a triple says what is allocated and what is left over.  The logic is an
    instance of the interface of Iris, for its proof mode.  [wp m Q] says that the
    computation [m] is defined on every heap that has the owned part, leaves the rest alone, and
    turns the owned part into [Q]. *)
From iris.proofmode Require Import proofmode.
From stdpp Require Import base gmap.
From Stdlib Require Import ZArith Lia.
From S2P Require Import Prelude.

(** ** Assertions *)
Section HeapProp.
Context {V : Type}.

Record hprop : Type := HProp { holds :> gmap Z V -> Prop }.

Inductive h_equiv (P Q : hprop) : Prop := Equivalent { equiv_in : forall h, P h <-> Q h }.
#[export] Instance hprop_equiv : Equiv hprop := h_equiv.
#[export] Instance hprop_equivalence : Equivalence (≡@{hprop}).
Proof. split; [intros P; by split|intros P Q [H]; split; intros h; by rewrite (H h)|intros P Q R [H1] [H2]; split; intros h; by rewrite (H1 h)]. Qed.
Canonical Structure hpropO := Ofe hprop (discrete_ofe_mixin _).

Inductive h_entails (P Q : hprop) : Prop := Entails { entails_in : forall h, P h -> Q h }.
Definition h_emp : hprop := HProp (fun h => h = ∅).
Definition h_pure (φ : Prop) : hprop := HProp (fun _ => φ).
Definition h_and (P Q : hprop) : hprop := HProp (fun h => P h /\ Q h).
Definition h_or (P Q : hprop) : hprop := HProp (fun h => P h \/ Q h).
Definition h_impl (P Q : hprop) : hprop := HProp (fun h => P h -> Q h).
Definition h_forall (A : Type) (Φ : A -> hprop) : hprop := HProp (fun h => forall a, Φ a h).
Definition h_exist (A : Type) (Φ : A -> hprop) : hprop := HProp (fun h => exists a, Φ a h).
Definition h_sep (P Q : hprop) : hprop := HProp (fun h => exists h1 h2, h = h1 ∪ h2 /\ h1 ##ₘ h2 /\ P h1 /\ Q h2).
Definition h_wand (P Q : hprop) : hprop := HProp (fun h => forall h', h ##ₘ h' -> P h' -> Q (h ∪ h')).
Definition h_persistently (P : hprop) : hprop := h_pure (h_entails h_emp P).

Lemma sep_comm P Q : h_entails (h_sep P Q) (h_sep Q P).
Proof. split. intros h (h1 & h2 & -> & Hd & HP & HQ). exists h2, h1. by rewrite map_union_comm. Qed.

Lemma hprop_bi_mixin : BiMixin h_entails h_emp h_pure h_and h_or h_impl h_forall h_exist h_sep h_wand.
Proof.
  split.
  - split; [by intros P; split|]. intros P Q R [H1] [H2]. split. auto.
  - intros P Q. split; [intros [H]; split; split; intros h; apply H|]. intros [[H1] [H2]]. split. split; auto.
  - intros n φ ψ H. by split.
  - intros n P P' [HP] Q Q' [HQ]. split. intros h. by rewrite /= (HP h) (HQ h).
  - intros n P P' [HP] Q Q' [HQ]. split. intros h. by rewrite /= (HP h) (HQ h).
  - intros n P P' [HP] Q Q' [HQ]. split. intros h. by rewrite /= (HP h) (HQ h).
  - intros A n Φ Ψ H. split. intros h. cbn. split; intros H1 a; by apply (equiv_in _ _ (H a)).
  - intros A n Φ Ψ H. split. intros h. cbn. split; intros [a Ha]; exists a; by apply (equiv_in _ _ (H a)).
  - intros n P P' [HP] Q Q' [HQ]. split. intros h. cbn. split; intros (h1 & h2 & ? & ? & ? & ?); exists h1, h2; (split; [done|split; [done|]]);
      split; try apply HP; try apply HQ; done.
  - intros n P P' [HP] Q Q' [HQ]. split. intros h. cbn. split; intros H h' Hd HP'; apply HQ, H; try done; by apply HP.
  - by intros φ P Hφ.
  - intros φ P H. split. intros h Hφ. by apply (entails_in _ _ (H Hφ)).
  - intros P Q. by split; intros h [].
  - intros P Q. by split; intros h [].
  - intros P Q R [H1] [H2]. split. intros h HP. split; auto.
  - intros P Q. split. by left.
  - intros P Q. split. by right.
  - intros P Q R [H1] [H2]. split. intros h [?|?]; auto.
  - intros P Q R [H]. split. intros h HP HQ. by apply H.
  - intros P Q R [H]. split. intros h [HP HQ]. by apply H.
  - intros A P Ψ H. split. intros h HP a. by apply (H a).
  - intros A Ψ a. split. intros h H. apply H.
  - intros A Ψ a. split. intros h H. by exists a.
  - intros A Φ Q H. split. intros h [a Ha]. by apply (H a).
  - intros P P' Q Q' [HP] [HQ]. split. intros h (h1 & h2 & ? & ? & ? & ?). exists h1, h2. auto.
  - intros P. split. intros h HP. exists ∅, h. rewrite left_id_L. split; [done|]. split; [apply map_disjoint_empty_l|]. done.
  - intros P. split. intros h (h1 & h2 & -> & _ & -> & HP). by rewrite left_id_L.
  - intros P Q. apply sep_comm.
  - intros P Q R. split. intros h (h12 & h3 & -> & Hd & (h1 & h2 & -> & Hd12 & HP & HQ) & HR). apply map_disjoint_union_l in Hd as [Hd13 Hd23].
    exists h1, (h2 ∪ h3). rewrite assoc_L. split; [done|]. split; [by apply map_disjoint_union_r|]. split; [done|]. by exists h2, h3.
  - intros P Q R [H]. split. intros h HP h' Hd HQ. apply H. by exists h, h'.
  - intros P Q R [H]. split. intros h (h1 & h2 & -> & Hd & HP & HQ). by apply H.
Qed.

Lemma hprop_persistently_mixin : BiPersistentlyMixin h_entails h_emp h_and h_exist h_sep h_persistently.
Proof.
  eapply bi_persistently_mixin_discrete, hprop_bi_mixin; [done| |done].
  intros A Φ [H]. destruct (H ∅ eq_refl) as [a Ha]. exists a. split. by intros h ->.
Qed.
Lemma hprop_later_mixin : BiLaterMixin h_entails h_pure h_or h_impl h_forall h_exist h_sep h_persistently (fun P => P).
Proof. eapply bi_later_mixin_id, hprop_bi_mixin. done. Qed.

Canonical Structure hpropI : bi :=
  {| bi_ofe_mixin := ofe_mixin_of hprop; bi_bi_mixin := hprop_bi_mixin;
     bi_bi_persistently_mixin := hprop_persistently_mixin; bi_bi_later_mixin := hprop_later_mixin |}.

#[export] Instance hprop_pure_forall : BiPureForall hpropI.
Proof. intros A φ. split. intros h H. exact H. Qed.

(** One cell. *)
Definition points_to (p : Z) (v : V) : hpropI := HProp (fun h => h = {[ p := v ]}).
End HeapProp.
Arguments hprop : clear implicits.
Arguments hpropI : clear implicits.
Notation "p ↦ v" := (points_to p v) (at level 20) : bi_scope.


Lemma points_to_ne {V} p q (v w : V) : p ↦ v -∗ q ↦ w -∗ <affine> ⌜p <> q⌝ ∗ p ↦ v ∗ q ↦ w.
Proof.
  apply bi.entails_wand, bi.wand_intro_r. split. intros h (h1 & h2 & -> & Hd & -> & ->).
  exists ∅, ({[p := v]} ∪ {[q := w]}). rewrite left_id_L. split; [done|]. split; [apply map_disjoint_empty_l|]. split.
  - split; [done|]. cbn. intros ->. apply map_disjoint_singleton_l in Hd. by rewrite lookup_singleton_eq in Hd.
  - by exists {[p := v]}, {[q := w]}.
Qed.

(** ** Computations on a heap

    The number counts the calls of the allocator, whose answers may depend on it: each call
    gives an address that is not null and not in use, or null.  [rom] is memory that the
    code only reads, string constants. *)
Section Computations.
Context {V : Type}.

Record hstate : Type := mkHstate { mem : gmap Z V; calls : nat }.
Definition M (A : Type) : Type := hstate -> res (A * hstate).
Definition ret {A} (a : A) : M A := fun s => Ok (a, s).
Definition bind {A B} (m : M A) (k : A -> M B) : M B := fun s => let* r := m s in k (fst r) (snd r).
(** A computation without effects. *)
Definition lift {A} (r : res A) : M A := fun s => let* a := r in Ok (a, s).
Definition stop {A} : M A := fun _ => UB.
Definition out_of_fuel {A} : M A := fun _ => NoFuel.

Definition load (p : Z) : M V := fun s => let* v := deref (mem s !! p) in Ok (v, s).
Definition store (p : Z) (v : V) : M unit :=
  fun s => let* _ := deref (mem s !! p) in Ok (tt, mkHstate (<[p := v]> (mem s)) (calls s)).
Definition free (p : Z) : M unit :=
  fun s => let* _ := deref (mem s !! p) in Ok (tt, mkHstate (delete p (mem s)) (calls s)).

Class Allocator : Type := malloc_at : nat -> gmap Z V -> option Z.
Class AllocatorOk (a : Allocator) : Prop := {
  malloc_fresh k h p : malloc_at k h = Some p -> p <> 0%Z /\ h !! p = None
}.
Context {alloc : Allocator}.
(** Null when there is no memory. *)
Definition malloc (v : V) : M Z :=
  fun s =>
    match malloc_at (calls s) (mem s) with
    | Some p => Ok (p, mkHstate (<[p := v]> (mem s)) (S (calls s)))
    | None => Ok (0%Z, mkHstate (mem s) (S (calls s)))
    end.

Definition wp {A} (m : M A) (Φ : A -> hpropI V) : hpropI V :=
  HProp (fun h => forall hf k, h ##ₘ hf ->
    exists a h' k', m (mkHstate (h ∪ hf) k) = Ok (a, mkHstate (h' ∪ hf) k') /\ h' ##ₘ hf /\ Φ a h').

Lemma heap_ret {A} (a : A) (Φ : A -> hpropI V) : Φ a -∗ wp (ret a) Φ.
Proof. apply bi.entails_wand. split. intros h HΦ hf k Hd. by exists a, h, k. Qed.
Lemma heap_bind {A B} (m : M A) (k : A -> M B) (Φ : B -> hpropI V) : wp m (fun a => wp (k a) Φ) -∗ wp (bind m k) Φ.
Proof.
  apply bi.entails_wand. split. intros h H hf n Hd. destruct (H hf n Hd) as (a & h1 & n1 & E1 & Hd1 & H1).
  destruct (H1 hf n1 Hd1) as (b & h2 & n2 & E2 & Hd2 & H2). exists b, h2, n2. unfold bind. rewrite E1. done.
Qed.
Lemma wp_wand {A} (m : M A) (Φ Ψ : A -> hpropI V) : wp m Φ -∗ (∀ a, Φ a -∗ Ψ a) -∗ wp m Ψ.
Proof.
  apply bi.entails_wand, bi.wand_intro_r. split. intros h (h1 & h2 & -> & Hd & H & HW) hf n Hdf.
  apply map_disjoint_union_l in Hdf as [Hd1 Hd2].
  destruct (H (h2 ∪ hf) n) as (a & h' & n' & E & Hd' & HΦ); [by apply map_disjoint_union_r|].
  apply map_disjoint_union_r in Hd' as [Hd'2 Hd'f].
  exists a, (h2 ∪ h'), n'. split; [|split; [by apply map_disjoint_union_l|by apply (HW a h')]].
  assert (Em : h' ∪ (h2 ∪ hf) = (h2 ∪ h') ∪ hf) by rewrite assoc_L (map_union_comm h' h2) //.
  by rewrite -assoc_L E Em.
Qed.
Lemma wp_load p v (Φ : V -> hpropI V) : p ↦ v -∗ (p ↦ v -∗ Φ v) -∗ wp (load p) Φ.
Proof.
  apply bi.entails_wand, bi.wand_intro_r. split. intros h (h1 & h2 & -> & Hd & -> & HW) hf n Hdf.
  exists v, (h2 ∪ {[p := v]}), n. split; [|split].
  - rewrite (map_union_comm h2) //. unfold load. cbn. by rewrite -assoc_L lookup_union_l' ?lookup_singleton_eq.
  - by rewrite map_union_comm.
  - by apply HW.
Qed.
Lemma wp_store p v w (Φ : unit -> hpropI V) : p ↦ v -∗ (p ↦ w -∗ Φ tt) -∗ wp (store p w) Φ.
Proof.
  apply bi.entails_wand, bi.wand_intro_r. split. intros h (h1 & h2 & -> & Hd & -> & HW) hf n Hdf.
  assert (Hd' : h2 ##ₘ {[p := w]}) by (apply map_disjoint_singleton_r; by apply map_disjoint_singleton_l in Hd).
  exists tt, (h2 ∪ {[p := w]}), n. split; [|split].
  - rewrite (map_union_comm h2) //. unfold store. cbn. rewrite -!assoc_L lookup_union_l' ?lookup_singleton_eq //. cbn.
    by rewrite -!insert_union_singleton_l insert_insert_eq.
  - apply map_disjoint_union_l in Hdf as [Hd1 Hd2]. apply map_disjoint_union_l. split; [done|].
    apply map_disjoint_singleton_l. by apply map_disjoint_singleton_l in Hd1.
  - by apply HW.
Qed.
Lemma wp_free p v (Φ : unit -> hpropI V) : p ↦ v -∗ Φ tt -∗ wp (free p) Φ.
Proof.
  apply bi.entails_wand, bi.wand_intro_r. split. intros h (h1 & h2 & -> & Hd & -> & HΦ) hf n Hdf.
  apply map_disjoint_union_l in Hdf as [Hd1 Hd2].
  exists tt, h2, n. split; [|split; [done|done]].
  unfold free. cbn. rewrite -assoc_L lookup_union_l' ?lookup_singleton_eq //. cbn. rewrite -insert_union_singleton_l delete_insert_id //.
  apply lookup_union_None. split; [by apply (map_disjoint_singleton_l h2 p v)|by apply (map_disjoint_singleton_l hf p v)].
Qed.
Lemma wp_lift {A} (r : res A) a (Φ : A -> hpropI V) : r = Ok a -> Φ a -∗ wp (lift r) Φ.
Proof. intros ->. apply bi.entails_wand. split. intros h HΦ hf k Hd. by exists a, h, k. Qed.
(** Both answers have to be provided for. *)
Lemma wp_malloc {aok : AllocatorOk alloc} v (Φ : Z -> hpropI V) : (∀ p, <affine> ⌜p <> 0%Z /\ exists k h, malloc_at k h = Some p⌝ -∗ p ↦ v -∗ Φ p) ∧ Φ 0%Z -∗ wp (malloc v) Φ.
Proof.
  apply bi.entails_wand. split. intros h [HS HN] hf n Hd. unfold malloc. cbn. destruct (malloc_at n (h ∪ hf)) as [p|] eqn:E.
  - destruct (malloc_fresh _ _ _ E) as [Hp0 Hpn]. apply lookup_union_None in Hpn as [Hph Hpf].
    exists p, (<[p := v]> h), (S n). split; [by rewrite insert_union_l|]. split; [by apply map_disjoint_insert_l|].
    rewrite insert_union_singleton_r //. pose proof (HS p ∅ (map_disjoint_empty_r _)) as H. rewrite right_id_L in H.
    apply H; [|by apply map_disjoint_singleton_r|done]. split; [done|]. split; [done|]. by exists n, (h ∪ hf).
  - by exists 0%Z, h, (S n).
Qed.
End Computations.
Arguments hstate : clear implicits.
Arguments M : clear implicits.
Arguments Allocator : clear implicits.

(** No effects. *)
Lemma wp_pure {V A} (m : M V A) a (Φ : A -> hpropI V) : (forall s, m s = Ok (a, s)) -> Φ a -∗ wp m Φ.
Proof. intros E. apply bi.entails_wand. split. intros h HΦ hf k Hd. exists a, h, k. by rewrite E. Qed.

Declare Scope heap_scope.
Delimit Scope heap_scope with heap.
Notation "'let!' x ':=' m 'in' k" := (bind m (fun x => k))
  (at level 10, x pattern, m at level 100, k at level 200) : heap_scope.
Notation "m ';;;' k" := (bind m (fun _ : unit => k)) (at level 100, k at level 200, right associativity) : heap_scope.
