(* ===== verification/CJsonHeap.v ===== *)
(** Items of the cJSON library with their pointers (ext/cjson/cJSON.h): building, changing,
    copying, comparing and deleting them (ext/cjson/cJSON.c).

    The heap holds items and strings.  An item has the fields of the C structure; the
    children of an array or object are chained by [next] and [prev], and the [prev] of the first
    is the last.  A string is the block of bytes without the final zero.  The allocator may
    fail.  [rom] are the strings the caller passes and keeps: names, and the constant
    strings of [cJSON_StringIsConst]. *)
From stdpp Require Import base list numbers gmap.
From Stdlib Require Import ZArith Lia SpecFloat.
From S2P Require Import Prelude CJson CFormat CJsonParse CJsonPrint HeapLogic.
Open Scope Z_scope.
Open Scope heap_scope.

Definition cJSON_IsReference : Z := 256.
Definition cJSON_StringIsConst : Z := 512.
Definition has_flag (t f : Z) : bool := negb (Z.land t f =? 0).

(** [struct cJSON]. *)
Record node : Type := mkNode {
  n_next : Z;
  n_prev : Z;
  n_child : Z;
  n_type : Z;
  n_valuestring : Z;
  n_valueint : Z;
  n_valuedouble : double;
  n_string : Z
}.
Definition set_next (v : Z) (n : node) : node :=
  mkNode v (n_prev n) (n_child n) (n_type n) (n_valuestring n) (n_valueint n) (n_valuedouble n) (n_string n).
Definition set_prev (v : Z) (n : node) : node :=
  mkNode (n_next n) v (n_child n) (n_type n) (n_valuestring n) (n_valueint n) (n_valuedouble n) (n_string n).
Definition set_child (v : Z) (n : node) : node :=
  mkNode (n_next n) (n_prev n) v (n_type n) (n_valuestring n) (n_valueint n) (n_valuedouble n) (n_string n).
Definition set_ntype (v : Z) (n : node) : node :=
  mkNode (n_next n) (n_prev n) (n_child n) v (n_valuestring n) (n_valueint n) (n_valuedouble n) (n_string n).
Definition set_valuestring (v : Z) (n : node) : node :=
  mkNode (n_next n) (n_prev n) (n_child n) (n_type n) v (n_valueint n) (n_valuedouble n) (n_string n).
Definition set_number (i : Z) (d : double) (n : node) : node :=
  mkNode (n_next n) (n_prev n) (n_child n) (n_type n) (n_valuestring n) i d (n_string n).
Definition set_string (v : Z) (n : node) : node :=
  mkNode (n_next n) (n_prev n) (n_child n) (n_type n) (n_valuestring n) (n_valueint n) (n_valuedouble n) v.
Definition zero_node : node := mkNode 0 0 0 0 0 0 (S754_zero false) 0.

Inductive cell : Type := Node (n : node) | Str (b : list Z).

(** The block [b] after [strcpy] of [s], which fits. *)
Definition strcpy (b s : list Z) : list Z :=
  if (length s =? length b)%nat then s else s ++ 0 :: drop (S (length s)) b.

(** [cJSON_InitHooks]: functions are addresses; the pointer to the library's [realloc] is
    kept only with its own [malloc] and [free]. *)
Record internal_hooks : Type := mkHooks { allocate : Z; deallocate : Z; reallocate : option Z }.
Definition cJSON_InitHooks (malloc free realloc : Z) (hooks : option (option Z * option Z)) : internal_hooks :=
  match hooks with
  | None => mkHooks malloc free (Some realloc)
  | Some (malloc_fn, free_fn) =>
    let allocate := match malloc_fn with Some f => f | None => malloc end in
    let deallocate := match free_fn with Some f => f | None => free end in
    mkHooks allocate deallocate (if (allocate =? malloc) && (deallocate =? free) then Some realloc else None)
  end.

Section CJsonHeap.
Context {alloc : Allocator cell} (rom : Z -> option (list Z)).
Abbreviation M := (HeapLogic.M cell).

Definition get (p : Z) : M node :=
  let! c := load p in match c with Node n => ret n | Str _ => stop end.
Definition upd (p : Z) (f : node -> node) : M unit := let! n := get p in store p (Node (f n)).
(** The string a C function reads at an address. *)
Definition get_str (p : Z) : M (list Z) :=
  match rom p with
  | Some b => ret (c_str b)
  | None => let! c := load p in match c with Str b => ret (c_str b) | Node _ => stop end
  end.

Definition cJSON_malloc (c : cell) : M Z := malloc c.
Definition cJSON_free (p : Z) : M unit := free p.

Definition cJSON_strdup (string : Z) : M Z :=
  if string =? 0 then ret 0 else let! s := get_str string in malloc (Str s).
Definition cJSON_New_Item : M Z := malloc (Node zero_node).

Definition free_unless (b : bool) (p : Z) : M unit := if negb b && negb (p =? 0) then free p else ret tt.
Fixpoint cJSON_Delete (fuel : nat) (item : Z) : M unit :=
  if item =? 0 then ret tt
  else
    match fuel with
    | O => out_of_fuel
    | S fuel =>
      let! n := get item in
      (if negb (has_flag (n_type n) cJSON_IsReference) && negb (n_child n =? 0)
       then cJSON_Delete fuel (n_child n) else ret tt) ;;;
      free_unless (has_flag (n_type n) cJSON_IsReference) (n_valuestring n) ;;;
      free_unless (has_flag (n_type n) cJSON_StringIsConst) (n_string n) ;;;
      free item ;;;
      cJSON_Delete fuel (n_next n)
    end.

(** ** Values *)
Definition cJSON_SetNumberHelper (object : Z) (number : double) : M double :=
  let! i := lift (saturate number) in
  upd object (set_number i number) ;;;
  ret number.
Definition cJSON_SetBoolValue (object : Z) (boolValue : bool) : M Z :=
  if object =? 0 then ret cJSON_Invalid
  else
    let! n := get object in
    if has_flag (n_type n) (Z.lor cJSON_False cJSON_True) then
      let type := Z.lor (Z.ldiff (n_type n) (Z.lor cJSON_False cJSON_True)) (if boolValue then cJSON_True else cJSON_False) in
      upd object (set_ntype type) ;;;
      ret type
    else ret cJSON_Invalid.
Definition cJSON_SetValuestring (object valuestring : Z) : M Z :=
  let! n := get object in
  if negb (has_flag (n_type n) cJSON_String) || has_flag (n_type n) cJSON_IsReference then ret 0
  else
    let! s := get_str valuestring in
    let! old := get_str (n_valuestring n) in
    if zlen s <=? zlen old then
      let! c := load (n_valuestring n) in
      match c with
      | Str b => if valuestring =? n_valuestring n then stop else store (n_valuestring n) (Str (strcpy b s)) ;;; ret (n_valuestring n)
      | Node _ => stop
      end
    else
      let! copy := cJSON_strdup valuestring in
      if copy =? 0 then ret 0
      else
        (if negb (n_valuestring n =? 0) then cJSON_free (n_valuestring n) else ret tt) ;;;
        upd object (set_valuestring copy) ;;;
        ret copy.

(** ** Access *)
Fixpoint nth_item (current_child : Z) (index : nat) : M Z :=
  if current_child =? 0 then ret 0
  else
    match index with
    | O => ret current_child
    | S index => let! n := get current_child in nth_item (n_next n) index
    end.
Definition get_array_item (array : Z) (index : nat) : M Z :=
  if array =? 0 then ret 0 else let! n := get array in nth_item (n_child n) index.
Definition cJSON_GetArrayItem (array index : Z) : M Z :=
  if index <? 0 then ret 0 else get_array_item array (Z.to_nat index).

(** Whether the search stops at an item with this name. *)
Definition name_stops (name : list Z) (string : Z) (case_sensitive : bool) : M bool :=
  if case_sensitive then
    if string =? 0 then ret true else let! s := get_str string in ret (bool_decide (name = s))
  else
    if string =? 0 then ret false else let! s := get_str string in ret (case_insensitive_strcmp name s =? 0).
Fixpoint find_item (fuel : nat) (current_element : Z) (name : list Z) (case_sensitive : bool) : M Z :=
  if current_element =? 0 then ret 0
  else
    match fuel with
    | O => out_of_fuel
    | S fuel =>
      let! n := get current_element in
      let! stops := name_stops name (n_string n) case_sensitive in
      if stops then ret (if n_string n =? 0 then 0 else current_element)
      else find_item fuel (n_next n) name case_sensitive
    end.
Definition get_object_item (fuel : nat) (object name : Z) (case_sensitive : bool) : M Z :=
  if (object =? 0) || (name =? 0) then ret 0
  else
    let! n := get object in
    if n_child n =? 0 then ret 0
    else let! s := get_str name in find_item fuel (n_child n) s case_sensitive.
Definition cJSON_GetObjectItem (fuel : nat) (object string : Z) : M Z := get_object_item fuel object string false.
Definition cJSON_GetObjectItemCaseSensitive (fuel : nat) (object string : Z) : M Z := get_object_item fuel object string true.
Definition cJSON_HasObjectItem (fuel : nat) (object string : Z) : M bool :=
  let! i := cJSON_GetObjectItem fuel object string in ret (negb (i =? 0)).

(** ** Adding items *)
Definition suffix_object (prev item : Z) : M unit := upd prev (set_next item) ;;; upd item (set_prev prev).

Definition create_reference (item : Z) : M Z :=
  if item =? 0 then ret 0
  else
    let! reference := cJSON_New_Item in
    if reference =? 0 then ret 0
    else
      let! n := get item in
      upd reference (fun _ => n) ;;;
      upd reference (set_string 0) ;;;
      upd reference (fun r => set_ntype (Z.lor (n_type r) cJSON_IsReference) r) ;;;
      upd reference (fun r => set_next 0 (set_prev 0 r)) ;;;
      ret reference.

Definition add_item_to_array (array item : Z) : M bool :=
  if (item =? 0) || (array =? 0) || (array =? item) then ret false
  else
    let! a := get array in
    let child := n_child a in
    (if child =? 0 then
       upd array (set_child item) ;;;
       upd item (set_prev item) ;;;
       upd item (set_next 0)
     else
       let! c := get child in
       if negb (n_prev c =? 0) then
         suffix_object (n_prev c) item ;;;
         let! a := get array in
         upd (n_child a) (set_prev item)
       else ret tt) ;;;
    ret true.
Definition cJSON_AddItemToArray : Z -> Z -> M bool := add_item_to_array.

Definition add_item_to_object (object string item : Z) (constant_key : bool) : M bool :=
  if (object =? 0) || (string =? 0) || (item =? 0) || (object =? item) then ret false
  else
    let! n := get item in
    let! r :=
      (if constant_key then ret (Some (string, Z.lor (n_type n) cJSON_StringIsConst))
       else
         let! k := cJSON_strdup string in
         ret (if k =? 0 then None else Some (k, Z.ldiff (n_type n) cJSON_StringIsConst))) in
    match r with
    | None => ret false
    | Some (new_key, new_type) =>
      free_unless (has_flag (n_type n) cJSON_StringIsConst) (n_string n) ;;;
      upd item (set_string new_key) ;;;
      upd item (set_ntype new_type) ;;;
      add_item_to_array object item
    end.
Definition cJSON_AddItemToObject (object string item : Z) : M bool := add_item_to_object object string item false.
Definition cJSON_AddItemToObjectCS (object string item : Z) : M bool := add_item_to_object object string item true.
Definition cJSON_AddItemReferenceToArray (array item : Z) : M bool :=
  if array =? 0 then ret false
  else let! r := create_reference item in add_item_to_array array r.
Definition cJSON_AddItemReferenceToObject (object string item : Z) : M bool :=
  if (object =? 0) || (string =? 0) then ret false
  else let! r := create_reference item in add_item_to_object object string r false.

(** ** Taking items out *)
Definition cJSON_DetachItemViaPointer (parent item : Z) : M Z :=
  if (parent =? 0) || (item =? 0) then ret 0
  else
    let! p := get parent in
    let! i := get item in
    (if negb (item =? n_child p) then upd (n_prev i) (set_next (n_next i)) else ret tt) ;;;
    let! i := get item in
    (if negb (n_next i =? 0) then upd (n_next i) (set_prev (n_prev i)) else ret tt) ;;;
    let! p := get parent in
    let! i := get item in
    (if item =? n_child p then upd parent (set_child (n_next i))
     else if n_next i =? 0 then upd (n_child p) (set_prev (n_prev i))
     else ret tt) ;;;
    upd item (set_prev 0) ;;;
    upd item (set_next 0) ;;;
    ret item.
Definition cJSON_DetachItemFromArray (array which : Z) : M Z :=
  if which <? 0 then ret 0
  else let! i := get_array_item array (Z.to_nat which) in cJSON_DetachItemViaPointer array i.
Definition cJSON_DeleteItemFromArray (fuel : nat) (array which : Z) : M unit :=
  let! i := cJSON_DetachItemFromArray array which in cJSON_Delete fuel i.
Definition cJSON_DetachItemFromObject (fuel : nat) (object string : Z) : M Z :=
  let! i := cJSON_GetObjectItem fuel object string in cJSON_DetachItemViaPointer object i.
Definition cJSON_DetachItemFromObjectCaseSensitive (fuel : nat) (object string : Z) : M Z :=
  let! i := cJSON_GetObjectItemCaseSensitive fuel object string in cJSON_DetachItemViaPointer object i.
Definition cJSON_DeleteItemFromObject (fuel : nat) (object string : Z) : M unit :=
  let! i := cJSON_DetachItemFromObject fuel object string in cJSON_Delete fuel i.
Definition cJSON_DeleteItemFromObjectCaseSensitive (fuel : nat) (object string : Z) : M unit :=
  let! i := cJSON_DetachItemFromObjectCaseSensitive fuel object string in cJSON_Delete fuel i.

(** ** Putting items in the place of others *)
Definition cJSON_InsertItemInArray (array which newitem : Z) : M bool :=
  if which <? 0 then ret false
  else
    let! after_inserted := get_array_item array (Z.to_nat which) in
    if after_inserted =? 0 then add_item_to_array array newitem
    else
      upd newitem (set_next after_inserted) ;;;
      let! a := get after_inserted in
      upd newitem (set_prev (n_prev a)) ;;;
      upd after_inserted (set_prev newitem) ;;;
      let! arr := get array in
      (if after_inserted =? n_child arr then upd array (set_child newitem)
       else let! n := get newitem in upd (n_prev n) (set_next newitem)) ;;;
      ret true.

Definition cJSON_ReplaceItemViaPointer (fuel : nat) (parent item replacement : Z) : M bool :=
  if (parent =? 0) || (replacement =? 0) || (item =? 0) then ret false
  else if replacement =? item then ret true
  else
    let! i := get item in
    upd replacement (set_next (n_next i)) ;;;
    let! i := get item in
    upd replacement (set_prev (n_prev i)) ;;;
    let! r := get replacement in
    (if negb (n_next r =? 0) then upd (n_next r) (set_prev replacement) else ret tt) ;;;
    let! p := get parent in
    (if n_child p =? item then
       let! c := get (n_child p) in
       (if n_prev c =? n_child p then upd replacement (set_prev replacement) else ret tt) ;;;
       upd parent (set_child replacement)
     else
       let! r := get replacement in
       (if negb (n_prev r =? 0) then upd (n_prev r) (set_next replacement) else ret tt) ;;;
       let! r := get replacement in
       if n_next r =? 0 then let! p := get parent in upd (n_child p) (set_prev replacement) else ret tt) ;;;
    upd item (set_next 0) ;;;
    upd item (set_prev 0) ;;;
    cJSON_Delete fuel item ;;;
    ret true.
Definition cJSON_ReplaceItemInArray (fuel : nat) (array which newitem : Z) : M bool :=
  if which <? 0 then ret false
  else let! i := get_array_item array (Z.to_nat which) in cJSON_ReplaceItemViaPointer fuel array i newitem.
Definition replace_item_in_object (fuel : nat) (object string replacement : Z) (case_sensitive : bool) : M bool :=
  if (replacement =? 0) || (string =? 0) then ret false
  else
    let! r := get replacement in
    free_unless (has_flag (n_type r) cJSON_StringIsConst) (n_string r) ;;;
    let! k := cJSON_strdup string in
    upd replacement (set_string k) ;;;
    if k =? 0 then ret false
    else
      upd replacement (fun r => set_ntype (Z.ldiff (n_type r) cJSON_StringIsConst) r) ;;;
      let! i := get_object_item fuel object string case_sensitive in
      cJSON_ReplaceItemViaPointer fuel object i replacement.
Definition cJSON_ReplaceItemInObject (fuel : nat) (object string newitem : Z) : M bool :=
  replace_item_in_object fuel object string newitem false.
Definition cJSON_ReplaceItemInObjectCaseSensitive (fuel : nat) (object string newitem : Z) : M bool :=
  replace_item_in_object fuel object string newitem true.

(** ** Creating items *)
Definition create (f : node -> node) : M Z :=
  let! item := cJSON_New_Item in
  (if negb (item =? 0) then upd item f else ret tt) ;;;
  ret item.
Definition cJSON_CreateNull : M Z := create (set_ntype cJSON_NULL).
Definition cJSON_CreateTrue : M Z := create (set_ntype cJSON_True).
Definition cJSON_CreateFalse : M Z := create (set_ntype cJSON_False).
Definition cJSON_CreateBool (boolean : bool) : M Z := create (set_ntype (if boolean then cJSON_True else cJSON_False)).
Definition cJSON_CreateArray : M Z := create (set_ntype cJSON_Array).
Definition cJSON_CreateObject : M Z := create (set_ntype cJSON_Object).
Definition cJSON_CreateNumber (num : double) : M Z :=
  let! item := cJSON_New_Item in
  (if negb (item =? 0) then
     upd item (set_ntype cJSON_Number) ;;;
     let! i := lift (saturate num) in
     upd item (set_number i num)
   else ret tt) ;;;
  ret item.
(** [cJSON_CreateString] and [cJSON_CreateRaw]. *)
Definition create_text (fuel : nat) (type string : Z) : M Z :=
  let! item := cJSON_New_Item in
  if item =? 0 then ret 0
  else
    upd item (set_ntype type) ;;;
    let! v := cJSON_strdup string in
    upd item (set_valuestring v) ;;;
    if v =? 0 then cJSON_Delete fuel item ;;; ret 0 else ret item.
Definition cJSON_CreateString (fuel : nat) (string : Z) : M Z := create_text fuel cJSON_String string.
Definition cJSON_CreateRaw (fuel : nat) (raw : Z) : M Z := create_text fuel cJSON_Raw raw.
Definition cJSON_CreateStringReference (string : Z) : M Z :=
  create (fun n => set_valuestring string (set_ntype (Z.lor cJSON_String cJSON_IsReference) n)).
Definition cJSON_CreateObjectReference (child : Z) : M Z :=
  create (fun n => set_child child (set_ntype (Z.lor cJSON_Object cJSON_IsReference) n)).
Definition cJSON_CreateArrayReference (child : Z) : M Z :=
  create (fun n => set_child child (set_ntype (Z.lor cJSON_Array cJSON_IsReference) n)).

(** The loop of the four functions below, from the element [i] on: [p] is the last item of
    the chain.  The result is the new [n], or nothing if an item could not be created and the
    array is deleted. *)
Fixpoint fill_array {X} (fuel : nat) (make : X -> M Z) (numbers : list X) (i : nat) (a p : Z) : M (option Z) :=
  match numbers with
  | [] => ret (Some p)
  | x :: numbers =>
    let! n := make x in
    if n =? 0 then cJSON_Delete fuel a ;;; ret None
    else
      (if (i =? 0)%nat then upd a (set_child n) else suffix_object p n) ;;;
      fill_array fuel make numbers (S i) a n
  end.
Definition create_array {X} (fuel : nat) (make : X -> M Z) (numbers : option (list X)) (count : Z) : M Z :=
  match numbers with
  | None => ret 0
  | Some numbers =>
    if count <? 0 then ret 0
    else
      let! a := cJSON_CreateArray in
      if a =? 0 then ret 0
      else if zlen numbers <? count then stop
      else
        let! r := fill_array fuel make (take (Z.to_nat count) numbers) 0 a 0 in
        match r with
        | None => ret 0
        | Some n =>
          let! h := get a in
          (if negb (n_child h =? 0) then upd (n_child h) (set_prev n) else ret tt) ;;;
          ret a
        end
  end.
(** A [float] as a [double]. *)
Definition double_of_float (f : spec_float) : double :=
  match f with
  | S754_finite s m e => binary_normalize 53 1024 (if s then Z.neg m else Z.pos m) e s
  | f => f
  end.
Definition cJSON_CreateIntArray (fuel : nat) (numbers : option (list Z)) (count : Z) : M Z :=
  create_array fuel (fun i => cJSON_CreateNumber (double_of_int i)) numbers count.
Definition cJSON_CreateFloatArray (fuel : nat) (numbers : option (list spec_float)) (count : Z) : M Z :=
  create_array fuel (fun f => cJSON_CreateNumber (double_of_float f)) numbers count.
Definition cJSON_CreateDoubleArray (fuel : nat) (numbers : option (list double)) (count : Z) : M Z :=
  create_array fuel cJSON_CreateNumber numbers count.
Definition cJSON_CreateStringArray (fuel : nat) (strings : option (list Z)) (count : Z) : M Z :=
  create_array fuel (cJSON_CreateString fuel) strings count.

(** ** Creating an item in an object *)
Definition add_new (fuel : nat) (object name : Z) (make : M Z) : M Z :=
  let! item := make in
  let! added := add_item_to_object object name item false in
  if added : bool then ret item else cJSON_Delete fuel item ;;; ret 0.
Definition cJSON_AddNullToObject (fuel : nat) (object name : Z) : M Z := add_new fuel object name cJSON_CreateNull.
Definition cJSON_AddTrueToObject (fuel : nat) (object name : Z) : M Z := add_new fuel object name cJSON_CreateTrue.
Definition cJSON_AddFalseToObject (fuel : nat) (object name : Z) : M Z := add_new fuel object name cJSON_CreateFalse.
Definition cJSON_AddBoolToObject (fuel : nat) (object name : Z) (boolean : bool) : M Z := add_new fuel object name (cJSON_CreateBool boolean).
Definition cJSON_AddNumberToObject (fuel : nat) (object name : Z) (number : double) : M Z := add_new fuel object name (cJSON_CreateNumber number).
Definition cJSON_AddStringToObject (fuel : nat) (object name string : Z) : M Z := add_new fuel object name (cJSON_CreateString fuel string).
Definition cJSON_AddRawToObject (fuel : nat) (object name raw : Z) : M Z := add_new fuel object name (cJSON_CreateRaw fuel raw).
Definition cJSON_AddObjectToObject (fuel : nat) (object name : Z) : M Z := add_new fuel object name cJSON_CreateObject.
Definition cJSON_AddArrayToObject (fuel : nat) (object name : Z) : M Z := add_new fuel object name cJSON_CreateArray.

(** ** Duplicating *)

(** The loop over the children: [next] is the last copy so far.  [None] if one could not be copied. *)
Fixpoint duplicate_children (dup : Z -> M Z) (fuel : nat) (newitem child next : Z) : M (option Z) :=
  if child =? 0 then ret (Some next)
  else
    match fuel with
    | O => out_of_fuel
    | S fuel =>
      let! newchild := dup child in
      if newchild =? 0 then ret None
      else
        (if negb (next =? 0) then upd next (set_next newchild) ;;; upd newchild (set_prev next)
         else upd newitem (set_child newchild)) ;;;
        let! c := get child in
        duplicate_children dup fuel newitem (n_next c) newchild
    end.

(** A string of the original: [None] if there was no memory for the copy. *)
Definition duplicate_string (constant : bool) (string : Z) : M (option Z) :=
  if string =? 0 then ret (Some 0)
  else if constant then ret (Some string)
  else let! copy := cJSON_strdup string in ret (if copy =? 0 then None else Some copy).

Fixpoint cJSON_Duplicate (fuel : nat) (item : Z) (recurse : bool) : M Z :=
  if item =? 0 then ret 0
  else
    match fuel with
    | O => out_of_fuel
    | S fuel =>
      let! newitem := cJSON_New_Item in
      if newitem =? 0 then ret 0
      else
        let fail := cJSON_Delete (S fuel) newitem ;;; ret 0 in
        let! i := get item in
        upd newitem (set_ntype (Z.ldiff (n_type i) cJSON_IsReference)) ;;;
        upd newitem (set_number (n_valueint i) (n_valuedouble i)) ;;;
        let! v := duplicate_string false (n_valuestring i) in
        match v with
        | None => fail
        | Some v =>
          upd newitem (set_valuestring v) ;;;
          let! k := duplicate_string (has_flag (n_type i) cJSON_StringIsConst) (n_string i) in
          match k with
          | None => fail
          | Some k =>
            upd newitem (set_string k) ;;;
            if negb recurse then ret newitem
            else
              let! r := duplicate_children (fun c => cJSON_Duplicate fuel c true) fuel newitem (n_child i) 0 in
              match r with
              | None => fail
              | Some newchild =>
                let! n := get newitem in
                (if negb (n_child n =? 0) then upd (n_child n) (set_prev newchild) else ret tt) ;;;
                ret newitem
              end
          end
        end
    end.

(** ** Comparing *)
Definition valid_type (t : Z) : bool :=
  (t =? cJSON_False) || (t =? cJSON_True) || (t =? cJSON_NULL) || (t =? cJSON_Number) || (t =? cJSON_String) ||
  (t =? cJSON_Raw) || (t =? cJSON_Array) || (t =? cJSON_Object).

Fixpoint compare_arrays (cmp : Z -> Z -> M bool) (fuel : nat) (a_element b_element : Z) : M bool :=
  if (a_element =? 0) || (b_element =? 0) then ret (a_element =? b_element)
  else
    match fuel with
    | O => out_of_fuel
    | S fuel =>
      let! r := cmp a_element b_element in
      if negb r then ret false
      else
        let! a := get a_element in
        let! b := get b_element in
        compare_arrays cmp fuel (n_next a) (n_next b)
    end.
(** Each element of the one object has an equal one in the other, [other]. *)
Fixpoint compare_members (cmp : Z -> Z -> M bool) (fuel0 fuel : nat) (a_element other : Z) (case_sensitive : bool) : M bool :=
  if a_element =? 0 then ret true
  else
    match fuel with
    | O => out_of_fuel
    | S fuel =>
      let! b_element := (let! a := get a_element in get_object_item fuel0 other (n_string a) case_sensitive) in
      if b_element =? 0 then ret false
      else
        let! r := cmp a_element b_element in
        if negb r then ret false
        else let! a := get a_element in compare_members cmp fuel0 fuel (n_next a) other case_sensitive
    end.

Fixpoint cJSON_Compare (fuel : nat) (a b : Z) (case_sensitive : bool) : M bool :=
  if (a =? 0) || (b =? 0) then ret false
  else
    match fuel with
    | O => out_of_fuel
    | S fuel =>
      let! na := get a in
      let! nb := get b in
      let t := Z.land (n_type na) 255 in
      if negb (t =? Z.land (n_type nb) 255) then ret false
      else if negb (valid_type t) then ret false
      else if a =? b then ret true
      else if (t =? cJSON_False) || (t =? cJSON_True) || (t =? cJSON_NULL) then ret true
      else if t =? cJSON_Number then ret (compare_double (n_valuedouble na) (n_valuedouble nb))
      else if (t =? cJSON_String) || (t =? cJSON_Raw) then
        if (n_valuestring na =? 0) || (n_valuestring nb =? 0) then ret false
        else
          let! s1 := get_str (n_valuestring na) in
          let! s2 := get_str (n_valuestring nb) in
          ret (bool_decide (s1 = s2))
      else if t =? cJSON_Array then
        compare_arrays (fun x y => cJSON_Compare fuel x y case_sensitive) fuel (n_child na) (n_child nb)
      else
        let! r := compare_members (fun x y => cJSON_Compare fuel x y case_sensitive) fuel fuel (n_child na) b case_sensitive in
        if negb r then ret false
        else let! nb := get b in compare_members (fun x y => cJSON_Compare fuel x y case_sensitive) fuel fuel (n_child nb) a case_sensitive
    end.
End CJsonHeap.
