(* ===== verification/CJsonItems.v ===== *)
(** The items of [CJsonHeap] as the values of [CJson]: what each function does to the tree that
    the pointers form, when the allocator answers and when it does not. *)
From iris.proofmode Require Import proofmode.
From stdpp Require Import base list numbers gmap.
From Stdlib Require Import ZArith Lia SpecFloat.
From S2P Require Import Prelude CJson CFormat CJsonParse CJsonPrint HeapLogic CJsonHeap.
Set Warnings "-rewrite-rw".
Open Scope Z_scope.
Open Scope heap_scope.
Notation "⟨ φ ⟩" := (<affine> ⌜φ⌝)%I : bi_scope.

(** ** Steps *)
Lemma wp_get (p : Z) n (Φ : node -> hpropI cell) : p ↦ Node n -∗ (p ↦ Node n -∗ Φ n) -∗ wp (get p) Φ.
Proof. iIntros "Hp H". iApply heap_bind. iApply (wp_load with "Hp"). iIntros "Hp". iApply heap_ret. by iApply "H". Qed.
Lemma wp_upd (p : Z) n f (Φ : unit -> hpropI cell) : p ↦ Node n -∗ (p ↦ Node (f n) -∗ Φ tt) -∗ wp (upd p f) Φ.
Proof. iIntros "Hp H". iApply heap_bind. iApply (wp_get with "Hp"). iIntros "Hp". by iApply (wp_store with "Hp"). Qed.

Lemma set_child_same n : set_child (n_child n) n = n.
Proof. by destruct n. Qed.
Lemma set_prev_same n : set_prev (n_prev n) n = n.
Proof. by destruct n. Qed.
Lemma two_items (p q : Z) n m : p ↦ Node n -∗ q ↦ Node m -∗ ⟨ p <> q ⟩ ∗ p ↦ Node n ∗ q ↦ Node m.
Proof. iIntros "Hp Hq". iDestruct (points_to_ne with "Hp Hq") as "H". iExact "H". Qed.

Ltac rd H := iApply heap_bind; iApply (wp_get with H); iIntros H.
Ltac wr H := iApply heap_bind; iApply (wp_upd with H); iIntros H.
(** Comparing two addresses that are known to differ or not. *)
Ltac addr a b :=
  first [ rewrite (proj2 (Z.eqb_neq a b)); [|congruence || lia] | rewrite (proj2 (Z.eqb_eq a b)); [|congruence || lia] ].

(** ** The fuel of a tree

    The longest path that follows the first children and the next siblings. *)
Fixpoint span (i : cJSON) : nat :=
  match i with
  | mkItem l _ _ _ _ _ =>
    (fix spans (l : list cJSON) : nat := match l with [] => O | i :: l' => S (Nat.max (span i) (spans l')) end) l
  end.
Fixpoint spans (l : list cJSON) : nat :=
  match l with [] => O | i :: l' => S (Nat.max (span i) (spans l')) end.
Lemma span_eq i : span i = spans (child i).
Proof. by destruct i. Qed.
Lemma spans_app l1 l2 : (spans l2 <= spans (l1 ++ l2))%nat.
Proof. induction l1; cbn; lia. Qed.
Lemma spans_lookup l (k : nat) i : l !! k = Some i -> (span i < spans l)%nat.
Proof. revert k. induction l as [|j l IH]; intros [|k]; cbn; [done..|intros [= ->]; lia|]. intros E%IH. lia. Qed.

Section Items.
Context {alloc : Allocator cell} {aok : AllocatorOk alloc} (rom : Z -> option (list Z)).
Context (rom_apart : forall k h p, malloc_at k h = Some p -> rom p = None).
#[local] Abbreviation hProp := (hpropI cell).
#[local] Abbreviation M := (HeapLogic.M cell).
Implicit Types (i j : cJSON) (l : list cJSON) (n : node) (p q x y nx pv : Z).

(** ** Ownership *)
Definition str_own p (o : option (list Z)) : hProp := (match o with
  | None => ⟨ p = 0 ⟩
  | Some b => ⟨ p <> 0 /\ rom p = None ⟩ ∗ p ↦ Str b
  end)%I.
(** A constant name is not owned. *)
Definition key_own (t p : Z) (o : option (list Z)) : hProp := (if has_flag t cJSON_StringIsConst then
    match o with
    | None => ⟨ p = 0 ⟩
    | Some b => ⟨ p <> 0 /\ rom p = Some b ⟩
    end
  else str_own p o)%I.
(** The fields that do not hold pointers to items. *)
Record fits (n : node) i : Prop := mkFits {
  fit_type : n_type n = ctype i;
  fit_int : n_valueint n = valueint i;
  fit_double : n_valuedouble n = valuedouble i;
  fit_owned : has_flag (ctype i) cJSON_IsReference = false
}.

(** The item [i] at [p] between its siblings, with all that belongs to it. *)
Fixpoint item_own p nx pv i {struct i} : hProp := (match i with
  | mkItem l t vs vi vd nm =>
    ∃ n, ⟨ p <> 0 /\ n_next n = nx /\ n_prev n = pv /\ fits n (mkItem l t vs vi vd nm) ⟩ ∗ p ↦ Node n ∗
      str_own (n_valuestring n) vs ∗ key_own t (n_string n) nm ∗
      ∃ last, (fix seg pv p l nx last {struct l} : hProp :=
        match l with
        | [] => ⟨ p = nx /\ pv = last ⟩
        | i :: l' => ∃ q, item_own p q pv i ∗ seg p q l' nx last
        end) last (n_child n) l 0 last
  end)%I.
(** Siblings from [p] on: [pv] comes before them and [nx] after them, and [last] is the last of
    them, or [pv]. *)
Fixpoint seg pv p l nx last {struct l} : hProp := (match l with
  | [] => ⟨ p = nx /\ pv = last ⟩
  | i :: l' => ∃ q, item_own p q pv i ∗ seg p q l' nx last
  end)%I.
(** The chain of children: the first one's [prev] is the last one. *)
Definition kids p l : hProp := (∃ last, seg last p l 0 last)%I.
Definition body n i : hProp := (⟨ fits n i ⟩ ∗ str_own (n_valuestring n) (valuestring i) ∗ key_own (ctype i) (n_string n) (item_string i) ∗ kids (n_child n) (child i))%I.

Lemma item_own_eq p nx pv i : item_own p nx pv i ⊣⊢ ∃ n, ⟨ p <> 0 /\ n_next n = nx /\ n_prev n = pv ⟩ ∗ p ↦ Node n ∗ body n i.
Proof.
  destruct i as [l t vs vi vd nm]. unfold body, kids. cbn [item_own child ctype valuestring item_string]. iSplit.
  - iIntros "(%n & %H & Hp & Hv & Hk & Hc)". destruct H as (? & ? & ? & ?). iExists n. by iFrame.
  - iIntros "(%n & %H & Hp & %Hf & Hv & Hk & Hc)". destruct H as (? & ? & ?). iExists n. by iFrame.
Qed.

Lemma seg_join l1 : forall pv p l2 nx last, seg pv p (l1 ++ l2) nx last ⊣⊢ ∃ x y, seg pv p l1 x y ∗ seg y x l2 nx last.
Proof.
  induction l1 as [|i l1 IH]; intros pv p l2 nx last; cbn [app seg].
  - iSplit; [iIntros "H"; iExists p, pv; by iFrame|iIntros "(%x & %y & %H & H)"; by destruct H as [-> ->]].
  - iSplit.
    + iIntros "(%q & Hi & Hs)". rewrite IH. iDestruct "Hs" as (x y) "[H1 H2]". iExists x, y. iFrame.
    + iIntros "(%x & %y & (%q & Hi & H1) & H2)". iExists q. iFrame. rewrite IH. iExists x, y. iFrame.
Qed.

(** One node of a structure, with the way back. *)
Lemma item_node p nx pv i : item_own p nx pv i -∗
  ∃ n, ⟨ p <> 0 /\ n_next n = nx /\ n_prev n = pv /\ fits n i ⟩ ∗ p ↦ Node n ∗ body n i.
Proof.
  rewrite item_own_eq. iIntros "(%n & %H & Hp & %Hf & Hb)". destruct H as (? & ? & ?). iExists n. iFrame. done.
Qed.
Lemma node_item p n i : p <> 0 -> p ↦ Node n -∗ body n i -∗ item_own p (n_next n) (n_prev n) i.
Proof. iIntros (Hp) "Hp Hb". rewrite item_own_eq. iExists n. by iFrame. Qed.

Lemma item_null p nx pv i : item_own p nx pv i -∗ ⟨ p <> 0 ⟩ ∗ item_own p nx pv i.
Proof.
  iIntros "H". iDestruct (item_node with "H") as (n) "(%H & Hp & Hb)". destruct H as (Hp & <- & <- & _). iSplitR; [done|]. by iApply (node_item with "Hp").
Qed.
Lemma body_prev v n i : body n i -∗ body (set_prev v n) i.
Proof. iIntros "(%H & $ & $ & $)". destruct H. iPureIntro. by constructor. Qed.
Lemma body_next v n i : body n i -∗ body (set_next v n) i.
Proof. iIntros "(%H & $ & $ & $)". destruct H. iPureIntro. by constructor. Qed.
(** The node after its links were changed. *)
Lemma relink p n nx pv i : p <> 0 -> p ↦ Node (set_prev pv (set_next nx n)) -∗ body n i -∗ item_own p nx pv i.
Proof. iIntros (Hp) "Hp Hb". iApply (node_item with "Hp"); [done|]. by iApply body_prev; iApply body_next. Qed.

Lemma seg_first pv p i l nx last : seg pv p (i :: l) nx last -∗
  ∃ n, ⟨ p <> 0 /\ n_prev n = pv ⟩ ∗ p ↦ Node n ∗ (∀ pv', p ↦ Node (set_prev pv' n) -∗ seg pv' p (i :: l) nx last).
Proof.
  iIntros "(%q & Hi & Hs)". iDestruct (item_node with "Hi") as (n) "(%H & Hp & Hb)". destruct H as (Hp0 & Hn & Hv & Hf).
  iExists n. iFrame "Hp". iSplitR; [done|]. iIntros (pv') "Hp". iExists q. iFrame "Hs".
  iDestruct (node_item with "Hp [Hb]") as "H"; [done|by iApply body_prev|]. by rewrite /= Hn.
Qed.
Lemma seg_last pv p l i nx last : seg pv p (l ++ [i]) nx last -∗
  ∃ n, ⟨ last <> 0 /\ n_next n = nx ⟩ ∗ last ↦ Node n ∗ (∀ nx', last ↦ Node (set_next nx' n) -∗ seg pv p (l ++ [i]) nx' last).
Proof.
  rewrite seg_join. iIntros "(%x & %y & H1 & %q & Hi & %E)". destruct E as [-> ->].
  iDestruct (item_node with "Hi") as (n) "(%H & Hp & Hb)". destruct H as (Hp0 & Hn & Hv & Hf).
  iExists n. iFrame "Hp". iSplitR; [done|]. iIntros (nx') "Hp". rewrite seg_join. iExists last, y. iFrame "H1". iExists nx'.
  iDestruct (node_item with "Hp [Hb]") as "H"; [done|by iApply body_next|]. rewrite /= Hv. by iFrame.
Qed.
Lemma set_next_same n : set_next (n_next n) n = n.
Proof. by destruct n. Qed.
(** The ends of a chain that is not empty are not null. *)
Lemma seg_ends pv p l nx last : l <> [] -> seg pv p l nx last -∗ ⟨ p <> 0 /\ last <> 0 ⟩ ∗ seg pv p l nx last.
Proof.
  iIntros (Hl) "H". destruct (exists_last Hl) as (l0 & z & ->). iDestruct (seg_last with "H") as (n) "(%H & Hp & Hb)". destruct H as [H1 <-].
  iDestruct ("Hb" $! (n_next n) with "[Hp]") as "H"; [by rewrite set_next_same|]. destruct (l0 ++ [z]) as [|c l] eqn:E; [by destruct l0|].
  iDestruct (seg_first with "H") as (m) "(%H & Hp & Hb)". destruct H as [H2 <-]. iSplitR; [done|]. iApply ("Hb" $! (n_prev m)). by rewrite set_prev_same.
Qed.
Lemma seg_null pv p l last : seg pv p l 0 last -∗ ⟨ p = 0 <-> l = [] ⟩ ∗ seg pv p l 0 last.
Proof.
  destruct l as [|i l]; [iIntros "%H"; by destruct H as [-> ->]|]. iIntros "H".
  iDestruct (seg_first with "H") as (n) "(%H & Hp & Hb)". destruct H as [Hp Hv]. iSplitR; [done|].
  iApply "Hb". destruct n; cbn in *; by subst.
Qed.

(** An array or object with other children. *)
Definition with_child l i : cJSON := mkItem l (ctype i) (valuestring i) (valueint i) (valuedouble i) (item_string i).
(** Taking an item apart and putting it together with other children. *)
Lemma item_open p nx pv i : item_own p nx pv i -∗
  ∃ n, ⟨ p <> 0 /\ n_next n = nx /\ n_prev n = pv /\ fits n i ⟩ ∗ p ↦ Node n ∗ kids (n_child n) (child i) ∗
    (∀ c l, p ↦ Node (set_child c n) -∗ kids c l -∗ item_own p nx pv (with_child l i)).
Proof.
  iIntros "H". iDestruct (item_node with "H") as (n) "(%H & Hp & _ & Hv & Hk & Hc)". destruct H as (Hp & Hn & Hv & Hf).
  iExists n. iFrame "Hp Hc". iSplitR; [done|]. iIntros (c l) "Hp Hc".
  rewrite -Hn -Hv. iApply (node_item _ (set_child c n) with "Hp"); [done|]. iSplitR; [|by iFrame]. iPureIntro. destruct Hf. by constructor.
Qed.
Lemma with_child_same i : with_child (child i) i = i.
Proof. by destruct i. Qed.

(** An array or object without its children, which start at [c]. *)
Definition hole p nx pv i c : hProp :=
  (∃ n, ⟨ p <> 0 /\ n_next n = nx /\ n_prev n = pv /\ n_child n = c /\ fits n i ⟩ ∗ p ↦ Node n ∗
    str_own (n_valuestring n) (valuestring i) ∗ key_own (ctype i) (n_string n) (item_string i))%I.
Lemma item_hole p nx pv i : item_own p nx pv i ⊣⊢ ∃ c, hole p nx pv i c ∗ kids c (child i).
Proof.
  rewrite item_own_eq. iSplit.
  - iIntros "(%n & %H & Hp & %Hf & Hv & Hk & Hc)". destruct H as (? & ? & ?). iExists (n_child n). iFrame. done.
  - iIntros "(%c & (%n & %H & Hp & Hv & Hk) & Hc)". destruct H as (? & ? & ? & <- & ?). iExists n. iFrame. done.
Qed.
Lemma hole_with_child p nx pv i l c : hole p nx pv i c -∗ hole p nx pv (with_child l i) c.
Proof. iIntros "(%n & %H & H)". iExists n. iFrame. iPureIntro. destruct H as (? & ? & ? & ? & []). done. Qed.
Lemma hole_node p nx pv i c : hole p nx pv i c -∗
  ∃ n, ⟨ p <> 0 /\ n_child n = c /\ n_type n = ctype i ⟩ ∗ p ↦ Node n ∗ (∀ c, p ↦ Node (set_child c n) -∗ hole p nx pv i c).
Proof.
  iIntros "(%n & %H & Hp & Hv & Hk)". destruct H as (? & ? & ? & ? & Hf). iExists n. iFrame "Hp". iSplitR; [iPureIntro; destruct Hf; done|].
  iIntros (c') "Hp". iExists (set_child c' n). iFrame. iPureIntro. destruct Hf. done.
Qed.

(** The child [i] of [arr] at position [k], at [x], taken out of the chain. *)
Definition focus p nx pv arr (k : nat) x i : hProp :=
  (∃ c y q last, hole p nx pv arr c ∗ seg last c (take k (child arr)) x y ∗ item_own x q y i ∗ seg x q (drop (S k) (child arr)) 0 last)%I.
Lemma focus_close p nx pv arr k x i : child arr !! k = Some i -> focus p nx pv arr k x i -∗ item_own p nx pv arr.
Proof.
  iIntros (E) "(%c & %y & %q & %last & Hh & H1 & Hi & H2)". rewrite (item_hole p nx pv arr). iExists c. iFrame "Hh". iExists last.
  iEval (rewrite -(take_drop_middle _ _ _ E) seg_join). iExists x, y. iFrame "H1". iExists q. iFrame.
Qed.
End Items.

Section Operations.
Context {alloc : Allocator cell} {aok : AllocatorOk alloc} (rom : Z -> option (list Z)).
Context (rom_apart : forall k h p, malloc_at k h = Some p -> rom p = None).
#[local] Abbreviation hProp := (hpropI cell).
#[local] Abbreviation M := (HeapLogic.M cell).
#[local] Abbreviation item_own := (item_own rom).
#[local] Abbreviation seg := (seg rom).
#[local] Abbreviation kids := (kids rom).
Implicit Types (i j : cJSON) (l : list cJSON) (n : node) (p q x y nx pv : Z).

(** ** Adding *)
Lemma wp_add_item_to_array a nx pv arr it pv' i (Φ : bool -> hProp) :
  item_own a nx pv arr -∗ item_own it 0 pv' i -∗ (item_own a nx pv (with_child (child arr ++ [i]) arr) -∗ Φ true) -∗
  wp (add_item_to_array a it) Φ.
Proof.
  iIntros "Ha Hi HΦ". iDestruct (item_open with "Ha") as (n) "(%Ha & Ha & Hc & Hback)". destruct Ha as (Ha0 & Hn & Hv & Hf).
  iDestruct (item_node with "Hi") as (m) "(%Hi & Hi & Hb)". destruct Hi as (Hi0 & Hmn & Hmv & Hmf).
  iDestruct (two_items with "Ha Hi") as "(%Hne & Ha & Hi)". unfold add_item_to_array.
  addr it 0. addr a 0. addr a it. cbn [negb orb]. rd "Ha". iDestruct "Hc" as (last) "Hc". iDestruct (seg_null with "Hc") as "[%Hnull Hc]".
  destruct (Z.eqb_spec (n_child n) 0) as [E|E].
  - rewrite (proj1 Hnull E). iDestruct "Hc" as "%H". iApply heap_bind. wr "Ha". wr "Hi". iApply (wp_upd with "Hi"). iIntros "Hi".
    iApply heap_ret. iApply "HΦ". iApply ("Hback" with "Ha"). iExists it, 0. iSplitL; [|done].
    iApply (relink with "[Hi] Hb"); [done|]. iExact "Hi".
  - assert (Hl : child arr <> []) by (intros H; by apply E, Hnull). iDestruct (seg_ends with "Hc") as "[%H Hc]"; [done|]. destruct H as [_ Hlast].
    destruct (exists_last Hl) as (l0 & z & Ez). destruct (child arr) as [|c0 l] eqn:El; [done|].
    iDestruct (seg_first with "Hc") as (c) "(%Hc & Hc & Hcb)". destruct Hc as [_ Hcv]. iApply heap_bind. rd "Hc". rewrite Hcv. addr last 0. cbn [negb].
    iDestruct ("Hcb" $! last with "[Hc]") as "Hc"; [by rewrite -Hcv set_prev_same|]. rewrite Ez.
    iDestruct (seg_last with "Hc") as (d) "(%Hd & Hd & Hdb)". destruct Hd as [_ Hdn].
    iApply heap_bind. wr "Hd". iApply (wp_upd with "Hi"). iIntros "Hi". iDestruct ("Hdb" with "Hd") as "Hc". rd "Ha". rewrite -Ez.
    iDestruct (seg_first with "Hc") as (c') "(%Hc' & Hc & Hcb)". iApply (wp_upd with "Hc"). iIntros "Hc". iDestruct ("Hcb" with "Hc") as "Hc".
    iApply heap_ret. iApply "HΦ". iApply ("Hback" $! (n_child n) with "[Ha]"); [by rewrite set_child_same|]. iExists it. rewrite seg_join. iExists it, last. iFrame "Hc".
    iExists 0. iSplitL; [|done]. iApply (relink with "[Hi] Hb"); [done|]. rewrite -Hmn set_next_same. iExact "Hi".
Qed.

(** ** Looking for a child *)
Lemma wp_nth_item l : forall k pv p last (Φ : Z -> hProp), seg pv p l 0 last -∗
  match l !! k with
  | None => seg pv p l 0 last -∗ Φ 0
  | Some i => ∀ x y q, seg pv p (take k l) x y -∗ item_own x q y i -∗ seg x q (drop (S k) l) 0 last -∗ Φ x
  end -∗ wp (nth_item p k) Φ.
Proof.
  induction l as [|i l IH]; intros k pv p last Φ; iIntros "Hs HΦ".
  - iDestruct "Hs" as "%H". destruct H as [-> ->]. destruct k; cbn; iApply heap_ret; by iApply "HΦ".
  - iDestruct (seg_ends with "Hs") as "[%H (%q & Hi & Hs)]"; [done|]. destruct H as [Hp _]. destruct k as [|k]; cbn [nth_item]; addr p 0.
    + iApply heap_ret. iApply ("HΦ" with "[] Hi Hs"). done.
    + iDestruct (item_node with "Hi") as (n) "(%H & Hp & Hb)". destruct H as (_ & Hn & Hv & _). rd "Hp". rewrite Hn.
      iAssert (item_own p q pv i) with "[Hp Hb]" as "Hi"; [rewrite -Hn -Hv; by iApply (node_item with "Hp")|].
      iApply (IH with "Hs"). cbn. destruct (l !! k) as [j|]; [|iIntros "Hs"; iApply "HΦ"; iExists q; iFrame].
      iIntros (x y q') "H1 Hj H2". iApply ("HΦ" with "[Hi H1] Hj H2"). iExists q. iFrame.
Qed.
Lemma wp_get_array_item a nx pv arr k (Φ : Z -> hProp) : item_own a nx pv arr -∗
  match child arr !! k with
  | None => item_own a nx pv arr -∗ Φ 0
  | Some i => ∀ x, focus rom a nx pv arr k x i -∗ Φ x
  end -∗ wp (get_array_item a k) Φ.
Proof.
  iIntros "Ha HΦ". iEval (rewrite item_hole) in "Ha". iDestruct "Ha" as (c) "[Hh [%last Hc]]". iDestruct (hole_node with "Hh") as (n) "(%H & Ha & Hh)".
  destruct H as (Ha & <- & _). unfold get_array_item. addr a 0. rd "Ha". iDestruct ("Hh" $! (n_child n) with "[Ha]") as "Hh"; [by rewrite set_child_same|].
  iApply (wp_nth_item with "Hc"). destruct (child arr !! k) as [i|].
  - iIntros (x y q) "H1 Hi H2". iApply "HΦ". iExists _, y, q, last. iFrame.
  - iIntros "Hc". iApply "HΦ". rewrite item_hole. iExists _. iFrame.
Qed.

(** ** Taking a child out *)

(** Changing the links at the ends of a chain. *)
Lemma wp_first_prev pv p l nx last v (Φ : unit -> hProp) : l <> [] -> seg pv p l nx last -∗ (seg v p l nx last -∗ Φ tt) -∗ wp (upd p (set_prev v)) Φ.
Proof.
  iIntros (Hl) "H HΦ". destruct l as [|i l]; [done|]. iDestruct (seg_first with "H") as (n) "(%H & Hp & Hb)".
  iApply (wp_upd with "Hp"). iIntros "Hp". iApply "HΦ". by iApply "Hb".
Qed.
Lemma wp_last_next pv p l nx last v (Φ : unit -> hProp) : l <> [] -> seg pv p l nx last -∗ (seg pv p l v last -∗ Φ tt) -∗ wp (upd last (set_next v)) Φ.
Proof.
  iIntros (Hl) "H HΦ". destruct (exists_last Hl) as (l0 & z & ->). iDestruct (seg_last with "H") as (n) "(%H & Hp & Hb)".
  iApply (wp_upd with "Hp"). iIntros "Hp". iApply "HΦ". by iApply "Hb".
Qed.
(** The first of a chain is another item. *)
Lemma seg_apart pv p l nx last x n : l <> [] -> seg pv p l nx last -∗ x ↦ Node n -∗ ⟨ p <> x ⟩ ∗ seg pv p l nx last ∗ x ↦ Node n.
Proof.
  iIntros (Hl) "H Hx". destruct l as [|i l]; [done|]. iDestruct (seg_first with "H") as (m) "(%H & Hp & Hb)". destruct H as [H <-].
  iDestruct (two_items with "Hp Hx") as "(%Hne & Hp & $)". iSplitR; [done|]. iApply ("Hb" $! (n_prev m)). by rewrite set_prev_same.
Qed.
Lemma kids_empty : ⊢ kids 0 [].
Proof. by iExists 0. Qed.

(** The last steps: the parent has its children and the item loses its links. *)
Lemma wp_detach_end a nx pv arr c l x m i (Φ : Z -> hProp) : x <> 0 ->
  hole rom a nx pv arr c -∗ kids c l -∗ x ↦ Node m -∗ body rom m i -∗
  (item_own a nx pv (with_child l arr) -∗ item_own x 0 0 i -∗ Φ x) -∗
  wp (upd x (set_prev 0) ;;; upd x (set_next 0) ;;; ret x) Φ.
Proof.
  iIntros (Hx) "Hh Hc Hx Hb HΦ". wr "Hx". wr "Hx". iApply heap_ret. iApply ("HΦ" with "[Hh Hc]").
  - iApply item_hole. iExists c. iFrame "Hc". by iApply hole_with_child.
  - by iApply (relink _ _ m with "Hx Hb").
Qed.

Lemma wp_detach a nx pv arr k x i (Φ : Z -> hProp) : child arr !! k = Some i ->
  focus rom a nx pv arr k x i -∗
  (item_own a nx pv (with_child (delete k (child arr)) arr) -∗ item_own x 0 0 i -∗ Φ x) -∗ wp (cJSON_DetachItemViaPointer a x) Φ.
Proof.
  iIntros (Ek) "(%c & %y & %q & %last & Hh & H1 & Hi & H2) HΦ". rewrite delete_take_drop.
  iDestruct (hole_node with "Hh") as (n) "(%H & Ha & Hh)". destruct H as (Ha & Hnc & _).
  iDestruct (item_node with "Hi") as (m) "(%H & Hx & Hb)". destruct H as (Hx & Hmn & Hmp & _).
  unfold cJSON_DetachItemViaPointer. addr a 0. addr x 0. cbn [orb]. rd "Ha". rd "Hx". rewrite Hnc.
  set (l1 := take k (child arr)). set (l2 := drop (S k) (child arr)). destruct (decide (l1 = [])) as [E1|E1].
  - rewrite E1. iDestruct "H1" as "%H". destruct H as [-> ->]. rewrite Z.eqb_refl. cbn [negb]. iApply heap_bind. iApply heap_ret. rd "Hx". rewrite Hmn Hmp.
    destruct (decide (l2 = [])) as [E2|E2].
    + rewrite E2. iDestruct "H2" as "%H". destruct H as [-> ->]. iApply heap_bind. iApply heap_ret. rd "Ha". rd "Hx". rewrite Hnc Z.eqb_refl Hmn.
      wr "Ha". iApply (wp_detach_end with "[Hh Ha] [] Hx Hb HΦ"); [done|by iApply "Hh"|]. iApply kids_empty.
    + iDestruct (seg_ends with "H2") as "[%H H2]"; [done|]. destruct H as [Hq _]. addr q 0. cbn [negb]. iApply heap_bind.
      iApply (wp_first_prev with "H2"); [done|]. iIntros "H2". rd "Ha". rd "Hx". rewrite Hnc Z.eqb_refl Hmn. wr "Ha".
      iApply (wp_detach_end with "[Hh Ha] [H2] Hx Hb HΦ"); [done|by iApply "Hh"|]. by iExists y.
  - iDestruct (seg_apart with "H1 Hx") as "(%Hcx & H1 & Hx)"; [done|]. addr x c. cbn [negb]. iApply heap_bind. rewrite Hmp Hmn.
    iApply (wp_last_next with "H1"); [done|]. iIntros "H1". rd "Hx". rewrite Hmn Hmp.
    destruct (decide (l2 = [])) as [E2|E2].
    + rewrite E2. iDestruct "H2" as "%H". destruct H as [-> <-]. iApply heap_bind. iApply heap_ret. rd "Ha". rd "Hx". rewrite Hnc Hmn Hmp. addr x c. cbn [Z.eqb].
      iApply heap_bind. iApply (wp_first_prev with "H1"); [done|]. iIntros "H1".
      iApply (wp_detach_end with "[Hh Ha] [H1] Hx Hb HΦ"); [done|iApply ("Hh" $! c); by rewrite -Hnc set_child_same|]. rewrite app_nil_r. by iExists y.
    + iDestruct (seg_ends with "H2") as "[%H H2]"; [done|]. destruct H as [Hq _]. addr q 0. cbn [negb]. iApply heap_bind.
      iApply (wp_first_prev with "H2"); [done|]. iIntros "H2". rd "Ha". rd "Hx". rewrite Hnc Hmn. addr x c. addr q 0. iApply heap_bind. iApply heap_ret.
      iApply (wp_detach_end with "[Hh Ha] [H1 H2] Hx Hb HΦ"); [done|iApply ("Hh" $! c); by rewrite -Hnc set_child_same|].
      iExists last. rewrite seg_join. iExists q, y. iFrame.
Qed.

(** ** Deleting *)
Lemma wp_free_str p o (Φ : unit -> hProp) : str_own rom p o -∗ Φ tt -∗ wp (free_unless false p) Φ.
Proof.
  iIntros "Hp HΦ". unfold free_unless. destruct o as [b|]; cbn [str_own negb andb].
  - iDestruct "Hp" as "[%H Hp]". destruct H as [H _]. addr p 0. cbn [negb]. by iApply (wp_free with "Hp").
  - iDestruct "Hp" as "->". by iApply heap_ret.
Qed.
Lemma wp_free_key t p o (Φ : unit -> hProp) : key_own rom t p o -∗ Φ tt -∗ wp (free_unless (has_flag t cJSON_StringIsConst) p) Φ.
Proof.
  iIntros "Hp HΦ". unfold key_own. destruct (has_flag t cJSON_StringIsConst); [|by iApply (wp_free_str with "Hp")].
  destruct o; iDestruct "Hp" as "%H"; by iApply heap_ret.
Qed.
Lemma wp_Delete fuel : forall pv p l last (Φ : unit -> hProp), (spans l <= fuel)%nat -> seg pv p l 0 last -∗ Φ tt -∗ wp (cJSON_Delete fuel p) Φ.
Proof.
  induction fuel as [|fuel IH]; intros pv p l last Φ Hf; iIntros "Hs HΦ".
  - destruct l as [|i l]; [|cbn in Hf; lia]. iDestruct "Hs" as "%H". destruct H as [-> ->]. by iApply heap_ret.
  - destruct l as [|i l]; [iDestruct "Hs" as "%H"; destruct H as [-> ->]; by iApply heap_ret|].
    iDestruct (seg_ends with "Hs") as "[%H (%q & Hi & Hs)]"; [done|]. destruct H as [Hp _]. cbn [cJSON_Delete]. addr p 0.
    iDestruct (item_node with "Hi") as (n) "(%H & Hp & _ & Hv & Hk & [%m Hc])". destruct H as (_ & <- & _ & [Ht _ _ Ho]).
    rd "Hp". rewrite Ht Ho. cbn [negb andb]. cbn [spans] in Hf. iApply heap_bind.
    iAssert (∀ Ψ : unit -> hProp, Ψ tt -∗ wp (if negb (n_child n =? 0) then cJSON_Delete fuel (n_child n) else ret tt) Ψ)%I with "[Hc]" as "Hc".
    { iIntros (Ψ) "HΨ". iDestruct (seg_null with "Hc") as "[%H Hc]". destruct (Z.eqb_spec (n_child n) 0) as [E|E]; cbn [negb].
      - rewrite (proj1 H E). iDestruct "Hc" as "%H'". by iApply heap_ret.
      - iApply (IH with "Hc HΨ"). rewrite -span_eq. lia. }
    iApply "Hc". iApply heap_bind. iApply (wp_free_str with "Hv"). iApply heap_bind. iApply (wp_free_key with "Hk").
    iApply heap_bind. iApply (wp_free with "Hp"). iApply (IH with "Hs HΦ"). lia.
Qed.
(** An item whose children are chained but for the [prev] of the first, as while it is built. *)
Lemma wp_Delete_hole fuel p pv i c pv' l last (Φ : unit -> hProp) : (spans l < fuel)%nat ->
  hole rom p 0 pv i c -∗ seg pv' c l 0 last -∗ Φ tt -∗ wp (cJSON_Delete fuel p) Φ.
Proof.
  iIntros (Hf) "(%n & %H & Hp & Hv & Hk) Hc HΦ". destruct H as (Hp & Hn & _ & <- & [Ht _ _ Ho]).
  destruct fuel as [|fuel]; [lia|]. cbn [cJSON_Delete]. addr p 0. rd "Hp". rewrite Ht Ho Hn. cbn [negb andb]. iApply heap_bind.
  iDestruct (seg_null with "Hc") as "[%H Hc]".
  iAssert (∀ Ψ : unit -> hProp, Ψ tt -∗ wp (if negb (n_child n =? 0) then cJSON_Delete fuel (n_child n) else ret tt) Ψ)%I with "[Hc]" as "Hc".
  { iIntros (Ψ) "HΨ". destruct (Z.eqb_spec (n_child n) 0) as [E|E]; cbn [negb].
    - rewrite (proj1 H E). iDestruct "Hc" as "%H'". by iApply heap_ret.
    - iApply (wp_Delete with "Hc HΨ"). lia. }
  iApply "Hc". iApply heap_bind. iApply (wp_free_str with "Hv"). iApply heap_bind. iApply (wp_free_key with "Hk").
  iApply heap_bind. iApply (wp_free with "Hp"). destruct fuel; by iApply heap_ret.
Qed.
Lemma wp_Delete_item fuel p pv i (Φ : unit -> hProp) : (span i < fuel)%nat -> item_own p 0 pv i -∗ Φ tt -∗ wp (cJSON_Delete fuel p) Φ.
Proof. iIntros (Hf) "Hi HΦ". iApply (wp_Delete _ pv p [i] p with "[Hi] HΦ"); [cbn; lia|]. iExists 0. by iFrame. Qed.

(** ** Putting an item before or in the place of another *)
Lemma seg_apart_last pv p l nx last x n : l <> [] -> seg pv p l nx last -∗ x ↦ Node n -∗ ⟨ last <> x ⟩ ∗ seg pv p l nx last ∗ x ↦ Node n.
Proof.
  iIntros (Hl) "H Hx". destruct (exists_last Hl) as (l0 & z & ->). iDestruct (seg_last with "H") as (m) "(%H & Hp & Hb)". destruct H as [H <-].
  iDestruct (two_items with "Hp Hx") as "(%Hne & Hp & $)". iSplitR; [done|]. iApply ("Hb" $! (n_next m)). by rewrite set_next_same.
Qed.
(** The parent, with a chain of other children. *)
Lemma hole_close a nx pv arr c l last : hole rom a nx pv arr c -∗ seg last c l 0 last -∗ item_own a nx pv (with_child l arr).
Proof. iIntros "Hh Hc". iApply item_hole. iExists c. iSplitL "Hh"; [by iApply hole_with_child|]. by iExists last. Qed.

Lemma wp_insert_item a nx pv arr it pv' i which (Φ : bool -> hProp) :
  item_own a nx pv arr -∗ item_own it 0 pv' i -∗
  (if which <? 0 then item_own a nx pv arr -∗ item_own it 0 pv' i -∗ Φ false
   else item_own a nx pv (with_child (take (Z.to_nat which) (child arr) ++ i :: drop (Z.to_nat which) (child arr)) arr) -∗ Φ true) -∗
  wp (cJSON_InsertItemInArray a which it) Φ.
Proof.
  iIntros "Ha Hi HΦ". unfold cJSON_InsertItemInArray. destruct (which <? 0).
  { iApply heap_ret. iApply ("HΦ" with "Ha Hi"). }
  set (k := Z.to_nat which). iApply heap_bind. iApply (wp_get_array_item with "Ha"). destruct (child arr !! k) as [e|] eqn:Ek.
  2:{ iIntros "Ha". rewrite Z.eqb_refl. iApply (wp_add_item_to_array with "Ha Hi"). apply lookup_ge_None in Ek.
      by rewrite take_ge // drop_ge. }
  iIntros (x) "(%c & %y & %q & %last & Hh & H1 & He & H2)".
  iDestruct (item_node with "He") as (m) "(%H & Hx & Hb)". destruct H as (Hx & Hmn & Hmp & _).
  iDestruct (item_node with "Hi") as (r) "(%H & Hi & Hib)". destruct H as (Hi & Hrn & Hrp & _).
  addr x 0. wr "Hi". rd "Hx". rewrite Hmp. wr "Hi". wr "Hx".
  iDestruct (hole_node with "Hh") as (n) "(%H & Ha & Hh)". destruct H as (Ha & Hnc & _). rd "Ha". rewrite Hnc.
  assert (Ed : drop k (child arr) = e :: drop (S k) (child arr)) by by apply drop_S. rewrite Ed.
  set (l1 := take k (child arr)). set (l2 := drop (S k) (child arr)). destruct (decide (l1 = [])) as [E1|E1].
  - rewrite E1. iDestruct "H1" as "%H". destruct H as [-> ->]. rewrite Z.eqb_refl. iApply heap_bind. iApply (wp_upd with "Ha"). iIntros "Ha". iApply heap_ret.
    iApply "HΦ". iApply (hole_close with "[Hh Ha]"); [by iApply "Hh"|]. iExists x. iSplitL "Hi Hib".
    + by iApply (relink _ _ r with "Hi Hib").
    + iExists q. iFrame "H2". rewrite -Hmn. iApply (node_item _ _ (set_prev it m) with "Hx"); [done|]. by iApply body_prev.
  - iDestruct (seg_apart with "H1 Hx") as "(%Hcx & H1 & Hx)"; [done|]. addr x c. iApply heap_bind. rd "Hi". iApply (wp_last_next with "H1"); [done|].
    iIntros "H1". iApply heap_ret. iApply "HΦ". iApply (hole_close with "[Hh Ha] [-]"); [iApply ("Hh" $! c); by rewrite -Hnc set_child_same|].
    rewrite seg_join. iExists it, y. iFrame "H1". iExists x. iSplitL "Hi Hib"; [by iApply (relink _ _ r with "Hi Hib")|].
    iExists q. iFrame "H2". rewrite -Hmn. iApply (node_item _ _ (set_prev it m) with "Hx"); [done|]. by iApply body_prev.
Qed.

Lemma wp_replace fuel a nx pv arr k x e it nx' pv' i (Φ : bool -> hProp) : child arr !! k = Some e -> (span e < fuel)%nat ->
  focus rom a nx pv arr k x e -∗ item_own it nx' pv' i -∗
  (item_own a nx pv (with_child (<[k := i]> (child arr)) arr) -∗ Φ true) -∗
  wp (cJSON_ReplaceItemViaPointer fuel a x it) Φ.
Proof.
  iIntros (Ek Hf) "(%c & %y & %q & %last & Hh & H1 & He & H2) Hi HΦ".
  iDestruct (item_node with "He") as (m) "(%H & Hx & Hb)". destruct H as (Hx & Hmn & Hmp & _).
  iDestruct (item_node with "Hi") as (r) "(%H & Hi & Hib)". destruct H as (Hi & _).
  iDestruct (hole_node with "Hh") as (n) "(%H & Ha & Hh)". destruct H as (Ha & Hnc & _).
  iDestruct (two_items with "Hx Hi") as "(%Hne & Hx & Hi)".
  unfold cJSON_ReplaceItemViaPointer. addr a 0. addr it 0. addr x 0. cbn [orb]. addr it x.
  rd "Hx". wr "Hi". rd "Hx". wr "Hi". rd "Hi". rewrite Hmn Hmp. cbn [n_next n_prev set_next set_prev].
  rewrite insert_take_drop; [|by apply lookup_lt_is_Some; eauto].
  set (l1 := take k (child arr)). set (l2 := drop (S k) (child arr)).
  iAssert (⟨ last = x <-> l2 = [] ⟩ ∗ seg x q l2 0 last ∗ x ↦ Node m)%I with "[H2 Hx]" as "(%Hlast & H2 & Hx)".
  { destruct (decide (l2 = [])) as [E2|E2].
    - rewrite E2. iDestruct "H2" as "%H". destruct H as [-> <-]. by iFrame.
    - iDestruct (seg_apart_last with "H2 Hx") as "(%Hl & $ & $)"; [done|]. iPureIntro. split; [done|]. by intros ?%E2. }
  (* the sibling behind it *)
  iApply heap_bind.
  iAssert (∀ Ψ : unit -> hProp, (seg it q l2 0 (if decide (l2 = []) then it else last) -∗ Ψ tt) -∗
    wp (if negb (q =? 0) then upd q (set_prev it) else ret tt) Ψ)%I with "[H2]" as "H2".
  { iIntros (Ψ) "HΨ". case_decide as E2.
    - rewrite E2. iDestruct "H2" as "%H". destruct H as [-> <-]. iApply heap_ret. by iApply "HΨ".
    - iDestruct (seg_ends with "H2") as "[%H H2]"; [done|]. destruct H as [Hq _]. addr q 0. cbn [negb]. by iApply (wp_first_prev with "H2"). }
  iApply "H2". iIntros "H2". rd "Ha". rewrite Hnc.
  (* the sibling before it, and the parent *)
  iApply heap_bind.
  iAssert (∀ Ψ : unit -> hProp, (item_own a nx pv (with_child (l1 ++ i :: l2) arr) -∗ x ↦ Node m -∗ Ψ tt) -∗ wp _ Ψ)%I
    with "[Hh Ha H1 H2 Hi Hib Hx]" as "H"; last first.
  { iApply "H". iIntros "Ha Hx". wr "Hx". wr "Hx". iApply heap_bind. iApply (wp_Delete_item _ x 0 with "[Hx Hb]"); [exact Hf| |].
    - by iApply (relink _ _ m with "Hx Hb").
    - iApply heap_ret. by iApply "HΦ". }
  iIntros (Ψ) "HΨ". destruct (decide (l1 = [])) as [E1|E1].
  - rewrite E1. iDestruct "H1" as "%H". destruct H as [-> <-]. rewrite Z.eqb_refl. rd "Hx". rewrite Hmp. iApply heap_bind.
    destruct (Z.eqb_spec last x) as [El|El].
    + iApply (wp_upd with "Hi"). iIntros "Hi". iApply (wp_upd with "Ha"). iIntros "Ha". iApply ("HΨ" with "[-Hx] Hx").
      iApply (hole_close with "[Hh Ha]"); [by iApply "Hh"|]. rewrite (proj1 Hlast El). iExists q. iFrame "H2".
      by iApply (relink _ _ r with "Hi Hib").
    + iApply heap_ret. iApply (wp_upd with "Ha"). iIntros "Ha". iApply ("HΨ" with "[-Hx] Hx"). iApply (hole_close with "[Hh Ha]"); [by iApply "Hh"|].
      rewrite decide_False; [|by intros ?%Hlast]. iExists q. iFrame "H2". by iApply (relink _ _ r with "Hi Hib").
  - iDestruct (seg_apart with "H1 Hx") as "(%Hcx & H1 & Hx)"; [done|]. iDestruct (seg_ends with "H1") as "[%H H1]"; [done|]. destruct H as [Hc Hy].
    addr c x. rd "Hi". cbn [n_prev set_prev]. addr y 0. cbn [negb]. iApply heap_bind. iApply (wp_last_next with "H1"); [done|]. iIntros "H1".
    rd "Hi". cbn [n_next set_next set_prev]. destruct (Z.eqb_spec q 0) as [Eq|Eq].
    + rd "Ha". rewrite Hnc. iApply (wp_first_prev with "H1"); [done|]. iIntros "H1". iApply ("HΨ" with "[-Hx] Hx").
      destruct (decide (l2 = [])) as [E2|E2].
      2:{ iDestruct (seg_ends with "H2") as "[%H H2]"; [done|]. by destruct H. }
      rewrite E2. iApply (hole_close with "[Hh Ha] [-]"); [iApply ("Hh" $! c); by rewrite -Hnc set_child_same|].
      rewrite seg_join. iExists it, y. iFrame "H1". iExists q. iFrame "H2". by iApply (relink _ _ r with "Hi Hib").
    + iApply heap_ret. iApply ("HΨ" with "[-Hx] Hx"). destruct (decide (l2 = [])) as [E2|E2].
      { rewrite E2. iDestruct "H2" as "%H". by destruct H. }
      iApply (hole_close with "[Hh Ha] [-]"); [iApply ("Hh" $! c); by rewrite -Hnc set_child_same|].
      rewrite seg_join. iExists it, y. iFrame "H1". iExists q. iFrame "H2". by iApply (relink _ _ r with "Hi Hib").
Qed.
End Operations.
