(* ===== verification/CJsonCopy.v ===== *)
(** Items of [CJsonHeap] that are created, named, looked up by name, copied and compared: the
    functions that allocate, with both answers of the allocator. *)
From iris.proofmode Require Import proofmode.
From stdpp Require Import base list numbers gmap.
From Stdlib Require Import ZArith Lia SpecFloat.
From S2P Require Import Prelude CJson CFormat CJsonParse CJsonPrint HeapLogic CJsonHeap CJsonItems.
Set Warnings "-rewrite-rw".
Open Scope Z_scope.
Open Scope heap_scope.

(** ** Flags *)
Lemma flag_ldiff t a b : Z.ldiff b a = b -> has_flag (Z.ldiff t a) b = has_flag t b.
Proof.
  intros E. unfold has_flag. do 2 f_equal. rewrite -{2}E. apply Z.bits_inj'. intros n Hn.
  rewrite !Z.land_spec !Z.ldiff_spec. by destruct (Z.testbit t n), (Z.testbit a n), (Z.testbit b n).
Qed.
Lemma flag_ldiff_same t a : has_flag (Z.ldiff t a) a = false.
Proof.
  unfold has_flag. rewrite (_ : Z.land (Z.ldiff t a) a = 0) //. apply Z.bits_inj'. intros n Hn.
  rewrite Z.land_spec Z.ldiff_spec Z.bits_0. by destruct (Z.testbit t n), (Z.testbit a n).
Qed.
Lemma flag_lor_same t a : a <> 0 -> has_flag (Z.lor t a) a = true.
Proof.
  intros Ha. unfold has_flag. rewrite (_ : Z.land (Z.lor t a) a = a); [by rewrite (proj2 (Z.eqb_neq a 0))|]. apply Z.bits_inj'. intros n Hn.
  rewrite Z.land_spec Z.lor_spec. by destruct (Z.testbit t n), (Z.testbit a n).
Qed.
Lemma flag_lor t a b : Z.land a b = 0 -> has_flag (Z.lor t a) b = has_flag t b.
Proof. intros E. unfold has_flag. by rewrite Z.land_lor_distr_l E Z.lor_0_r. Qed.
Lemma flag_none t a : has_flag t a = false -> Z.land t a = 0.
Proof. unfold has_flag. destruct (Z.eqb_spec (Z.land t a) 0); done. Qed.
Lemma ldiff_none t a : has_flag t a = false -> Z.ldiff t a = t.
Proof.
  intros E%flag_none. apply Z.bits_inj'. intros n Hn. rewrite Z.ldiff_spec. assert (Hb := f_equal (fun z => Z.testbit z n) E). cbn in Hb.
  rewrite Z.land_spec Z.bits_0 in Hb. by destruct (Z.testbit t n), (Z.testbit a n).
Qed.

(** ** The values *)

(** An item with another name, owned or constant. *)
Definition named (constant : bool) (name : list Z) (i : cJSON) : cJSON :=
  mkItem (child i) (if constant then Z.lor (ctype i) cJSON_StringIsConst else Z.ldiff (ctype i) cJSON_StringIsConst)
    (valuestring i) (valueint i) (valuedouble i) (Some name).
Definition add_child (i o : cJSON) : cJSON := with_child (child o ++ [i]) o.

(** The position of the child a search by name finds. *)
Fixpoint find_pos (case_sensitive : bool) (l : list cJSON) (name : list Z) : option nat :=
  match l with
  | [] => None
  | e :: l' =>
    match item_string e with
    | None => if case_sensitive then None else S <$> find_pos case_sensitive l' name
    | Some s =>
      if (if case_sensitive then streq name s else case_insensitive_strcmp (c_str name) (c_str s) =? 0) then Some O
      else S <$> find_pos case_sensitive l' name
    end
  end.
Lemma find_pos_find (cs : bool) l name :
  (if cs then find_case_sensitive l name else find_case_insensitive l name) = find_pos cs l name ≫= fun k => l !! k.
Proof.
  induction l as [|e l IH]; [by destruct cs|]. cbn. destruct cs; destruct (item_string e) as [s|]; cbn; try done.
  - destruct (streq name s); [done|]. rewrite IH. by destruct (find_pos true l name).
  - destruct (_ =? 0); [done|]. rewrite IH. by destruct (find_pos false l name).
  - rewrite IH. by destruct (find_pos false l name).
Qed.
Lemma find_pos_lookup cs l name k : find_pos cs l name = Some k -> exists i, l !! k = Some i /\ item_string i <> None.
Proof.
  revert k. induction l as [|e l IH]; intros k; cbn; [done|].
  assert (Hs : S <$> find_pos cs l name = Some k -> exists i, (e :: l) !! k = Some i /\ item_string i <> None).
  { destruct (find_pos cs l name) as [k'|]; [|done]. intros [= <-]. by apply IH. }
  destruct (item_string e) as [s|] eqn:E; [|destruct cs; [done|exact Hs]].
  destruct (if cs then streq name s else _); [|exact Hs]. intros [= <-]. exists e. by rewrite E.
Qed.

(** A copy: strings end at their first zero. *)
Fixpoint copy (i : cJSON) : cJSON :=
  match i with
  | mkItem l t vs vi vd nm =>
    mkItem (map copy l) (Z.ldiff t cJSON_IsReference) (option_map c_str vs) vi vd
      (if has_flag t cJSON_StringIsConst then nm else option_map c_str nm)
  end.
Definition copy_top (i : cJSON) : cJSON := with_child [] (copy i).

Lemma spans_app_l l1 l2 : (spans l1 <= spans (l1 ++ l2))%nat.
Proof. induction l1; cbn; lia. Qed.
Lemma span_copy i : span (copy i) = span i.
Proof.
  induction i as [i IH] using cJSON_children_ind. destruct i as [l t vs vi vd nm]. cbn in IH. rewrite !span_eq. cbn [copy child].
  induction IH as [|i l Hi _ IHl]; cbn; [done|]. by rewrite Hi IHl.
Qed.
Lemma spans_copy l : spans (map copy l) = spans l.
Proof. induction l as [|i l IH]; cbn; [done|]. by rewrite span_copy IH. Qed.
Lemma spans_length l : (length l <= spans l)%nat.
Proof. induction l; cbn; lia. Qed.

Section Copying.
Context {alloc : Allocator cell} {aok : AllocatorOk alloc} (rom : Z -> option (list Z)).
Context (rom_apart : forall k h p, malloc_at k h = Some p -> rom p = None) (rom_null : rom 0 = None).
#[local] Abbreviation hProp := (hpropI cell).
#[local] Abbreviation item_own := (item_own rom).
#[local] Abbreviation seg := (seg rom).
#[local] Abbreviation hole := (hole rom).
#[local] Abbreviation body := (body rom).
#[local] Abbreviation str_own := (str_own rom).
#[local] Abbreviation key_own := (key_own rom).
Implicit Types (i j : cJSON) (l : list cJSON) (n : node) (p q x y nx pv : Z).

(** ** Strings *)
Lemma wp_get_rom s b (Φ : list Z -> hProp) : rom s = Some b -> Φ (c_str b) -∗ wp (get_str rom s) Φ.
Proof. iIntros (E) "H". unfold get_str. rewrite E. by iApply heap_ret. Qed.
Lemma wp_get_own v b (Φ : list Z -> hProp) : str_own v (Some b) -∗ (str_own v (Some b) -∗ Φ (c_str b)) -∗ wp (get_str rom v) Φ.
Proof.
  iIntros "[%H Hv] HΦ". destruct H as [Hv E]. unfold get_str. rewrite E. iApply heap_bind. iApply (wp_load with "Hv"). iIntros "Hv".
  iApply heap_ret. iApply "HΦ". iFrame. done.
Qed.
Lemma wp_get_key t k b (Φ : list Z -> hProp) : key_own t k (Some b) -∗ (key_own t k (Some b) -∗ Φ (c_str b)) -∗ wp (get_str rom k) Φ.
Proof.
  iIntros "Hk HΦ". unfold CJsonItems.key_own. destruct (has_flag t cJSON_StringIsConst); [|by iApply (wp_get_own with "Hk")].
  iDestruct "Hk" as "%H". destruct H as [H E]. iApply wp_get_rom; [done|]. by iApply "HΦ".
Qed.
(** The name is there exactly if the pointer is not null. *)
Lemma key_null t k o : key_own t k o -∗ ⟨ k = 0 <-> o = None ⟩ ∗ key_own t k o.
Proof.
  iIntros "Hk". unfold CJsonItems.key_own. destruct (has_flag t cJSON_StringIsConst).
  - destruct o; iDestruct "Hk" as "%H"; [destruct H|]; by iPureIntro.
  - destruct o as [b|]; cbn; [iDestruct "Hk" as "[%H $]"; destruct H|iDestruct "Hk" as "%H"]; by iPureIntro.
Qed.
Lemma key_own_none t : ⊢ key_own t 0 None.
Proof. unfold CJsonItems.key_own. by destruct (has_flag t cJSON_StringIsConst). Qed.
Lemma str_null v o : str_own v o -∗ ⟨ v = 0 <-> o = None ⟩ ∗ str_own v o.
Proof. destruct o as [b|]; cbn; [iIntros "[%H $]"; destruct H|iIntros "%H"]; by iPureIntro. Qed.

Lemma wp_new_str b (Φ : Z -> hProp) : (∀ k, str_own k (Some b) -∗ Φ k) ∧ Φ 0 -∗ wp (malloc (Str b)) Φ.
Proof.
  iIntros "H". iApply wp_malloc. iSplit; [iDestruct "H" as "[H _]"|by iDestruct "H" as "[_ H]"].
  iIntros (k) "%H Hk". destruct H as (Hk & n & h & E). iApply "H". iFrame. iPureIntro. split; [done|]. by eapply rom_apart.
Qed.
Lemma wp_strdup_rom s b (Φ : Z -> hProp) : rom s = Some b -> (∀ k, str_own k (Some (c_str b)) -∗ Φ k) ∧ Φ 0 -∗ wp (cJSON_strdup rom s) Φ.
Proof.
  iIntros (E) "H". unfold cJSON_strdup. assert (s <> 0) by (intros ->; congruence). addr s 0. iApply heap_bind. iApply wp_get_rom; [done|].
  by iApply wp_new_str.
Qed.
Lemma wp_strdup_own v b (Φ : Z -> hProp) : str_own v (Some b) -∗
  (∀ k, str_own v (Some b) -∗ str_own k (Some (c_str b)) -∗ Φ k) ∧ (str_own v (Some b) -∗ Φ 0) -∗ wp (cJSON_strdup rom v) Φ.
Proof.
  iIntros "Hv H". iDestruct (str_null with "Hv") as "[%Hn Hv]". unfold cJSON_strdup. assert (v <> 0) by (intros E; by apply Hn in E). addr v 0.
  iApply heap_bind. iApply (wp_get_own with "Hv"). iIntros "Hv". iApply wp_new_str. iSplit.
  - iDestruct "H" as "[H _]". iIntros (k) "Hk". by iApply ("H" with "Hv").
  - iDestruct "H" as "[_ H]". by iApply "H".
Qed.

(** ** New items *)
Lemma body_plain n i : fits n i -> n_valuestring n = 0 -> n_string n = 0 -> n_child n = 0 ->
  valuestring i = None -> item_string i = None -> child i = [] -> ⊢ body n i.
Proof.
  intros Hf Hv Hs Hc Ev Es Ec. unfold CJsonItems.body, CJsonItems.key_own. rewrite Hv Hs Hc Ev Es Ec.
  destruct (has_flag _ _); cbn; (do 3 (iSplitR; [done|])); iApply kids_empty.
Qed.
Lemma wp_New_Item (Φ : Z -> hProp) : (∀ p, ⟨ p <> 0 ⟩ -∗ p ↦ Node zero_node -∗ Φ p) ∧ Φ 0 -∗ wp cJSON_New_Item Φ.
Proof.
  iIntros "H". iApply wp_malloc. iSplit; [iDestruct "H" as "[H _]"|by iDestruct "H" as "[_ H]"].
  iIntros (p) "%H Hp". destruct H as [H _]. by iApply "H".
Qed.
Lemma wp_create f i (Φ : Z -> hProp) : fits (f zero_node) i ->
  n_next (f zero_node) = 0 -> n_prev (f zero_node) = 0 -> n_valuestring (f zero_node) = 0 -> n_string (f zero_node) = 0 ->
  n_child (f zero_node) = 0 -> valuestring i = None -> item_string i = None -> child i = [] ->
  (∀ p, item_own p 0 0 i -∗ Φ p) ∧ Φ 0 -∗ wp (create f) Φ.
Proof.
  iIntros (Hf Hn Hp Hv Hs Hc Ev Es Ec) "H". unfold create. iApply heap_bind. iApply wp_New_Item. iSplit.
  - iIntros (p) "%Hp0 Hp". iDestruct "H" as "[H _]". addr p 0. cbn [negb]. wr "Hp". iApply heap_ret. iApply "H".
    iDestruct (node_item _ p (f zero_node) i with "Hp []") as "Hi"; [done|by iApply body_plain|]. by rewrite Hn Hp.
  - iDestruct "H" as "[_ H]". iApply heap_bind. iApply heap_ret. by iApply heap_ret.
Qed.

(** [m] creates [i], or nothing. *)
Definition makes (m : HeapLogic.M cell Z) i : Prop :=
  forall Φ : Z -> hProp, (∀ p, item_own p 0 0 i -∗ Φ p) ∧ Φ 0 -∗ wp m Φ.
Definition basic (t : Z) : cJSON := mkItem [] t None 0 (S754_zero false) None.
Definition number_item (z : Z) (d : double) : cJSON := mkItem [] cJSON_Number None z d None.
Definition text_item (t : Z) (b : list Z) : cJSON := mkItem [] t (Some (c_str b)) 0 (S754_zero false) None.

Lemma makes_basic t : has_flag t cJSON_IsReference = false -> makes (create (set_ntype t)) (basic t).
Proof. iIntros (Ht Φ) "H". by iApply (wp_create with "H"). Qed.
Lemma makes_number z d : saturate d = Ok z -> makes (cJSON_CreateNumber d) (number_item z d).
Proof.
  iIntros (E Φ) "H". unfold cJSON_CreateNumber. iApply heap_bind. iApply wp_New_Item. iSplit.
  - iIntros (p) "%Hp0 Hp". iDestruct "H" as "[H _]". addr p 0. cbn [negb]. iApply heap_bind. wr "Hp". iApply heap_bind. iApply wp_lift; [done|].
    iApply (wp_upd with "Hp"). iIntros "Hp". iApply heap_ret. iApply "H".
    iApply (node_item _ p (set_number z d (set_ntype cJSON_Number zero_node)) with "Hp"); [done|]. by iApply body_plain.
  - iDestruct "H" as "[_ H]". iApply heap_bind. iApply heap_ret. by iApply heap_ret.
Qed.
Lemma makes_text fuel t s b : rom s = Some b -> has_flag t cJSON_IsReference = false -> has_flag t cJSON_StringIsConst = false ->
  (0 < fuel)%nat -> makes (create_text rom fuel t s) (text_item t b).
Proof.
  iIntros (Es Ht Hc Hf Φ) "H". unfold create_text. iApply heap_bind. iApply wp_New_Item. iSplit.
  - iIntros (p) "%Hp0 Hp". addr p 0. wr "Hp". iApply heap_bind. iApply wp_strdup_rom; [done|]. iSplit.
    + iDestruct "H" as "[H _]". iIntros (k) "Hk". iDestruct (str_null with "Hk") as "[%Hk0 Hk]". wr "Hp".
      destruct (Z.eqb_spec k 0) as [E|E]; [by apply Hk0 in E|]. iApply heap_ret. iApply "H".
      iApply (node_item _ p (set_valuestring k (set_ntype t zero_node)) with "Hp"); [done|]. iSplitR; [done|]. cbn. iSplitL; [done|].
      unfold CJsonItems.key_own. rewrite Hc. iSplit; [done|]. iApply kids_empty.
    + iDestruct "H" as "[_ H]". wr "Hp". cbn [Z.eqb]. iApply heap_bind.
      iApply (wp_Delete_item _ _ p 0 (basic t) with "[Hp]"); [done| |].
      * iApply (node_item _ p (set_valuestring 0 (set_ntype t zero_node)) with "Hp"); [done|]. by iApply body_plain.
      * by iApply heap_ret.
  - iDestruct "H" as "[_ H]". cbn [Z.eqb]. by iApply heap_ret.
Qed.

(** ** Naming an item and adding it *)
Lemma wp_add_item_to_object o nx pv ov s b it pv' i (constant : bool) (Φ : bool -> hProp) : rom s = Some b ->
  item_own o nx pv ov -∗ item_own it 0 pv' i -∗
  ((item_own o nx pv (add_child (named constant (if constant then b else c_str b) i) ov) -∗ Φ true) ∧
   (if constant then True else item_own o nx pv ov -∗ item_own it 0 pv' i -∗ Φ false)) -∗
  wp (add_item_to_object rom o s it constant) Φ.
Proof.
  iIntros (Es) "Ho Hi H". iDestruct (item_node with "Ho") as (m) "(%Ho & Ho & Hob)". destruct Ho as (Ho & <- & <- & _).
  iDestruct (item_node with "Hi") as (n) "(%Hi & Hi & Hib)". destruct Hi as (Hi & Hn & Hp & Hf).
  iDestruct (two_items with "Ho Hi") as "(%Hne & Ho & Hi)". unfold add_item_to_object. assert (s <> 0) by (intros ->; congruence).
  addr o 0. addr s 0. addr it 0. addr o it. cbn [orb]. rd "Hi". rewrite (fit_type _ _ Hf).
  iDestruct (node_item with "Ho Hob") as "Ho"; [done|]. iApply heap_bind.
  set (new_type := if constant then Z.lor (ctype i) cJSON_StringIsConst else Z.ldiff (ctype i) cJSON_StringIsConst).
  iAssert (∀ k, key_own new_type k (Some (if constant then b else c_str b)) -∗ item_own o (n_next m) (n_prev m) ov -∗
    it ↦ Node n -∗ body n i -∗
    (item_own o (n_next m) (n_prev m) (add_child (named constant (if constant then b else c_str b) i) ov) -∗ Φ true) -∗
    wp (free_unless (has_flag (ctype i) cJSON_StringIsConst) (n_string n) ;;;
        upd it (set_string k) ;;; upd it (set_ntype new_type) ;;; add_item_to_array o it) Φ)%I as "Hadd".
  { iIntros (k) "Hk Ho Hi (_ & Hv & Hold & Hc) HΦ". iApply heap_bind. iApply (wp_free_key with "Hold"). wr "Hi". wr "Hi".
    iApply (wp_add_item_to_array with "Ho [Hi Hv Hk Hc] HΦ"). rewrite -Hn.
    iApply (node_item _ it (set_ntype new_type (set_string k n)) with "Hi"); [done|]. iSplitR; [|by iFrame]. iPureIntro.
    destruct Hf as [? ? ? Hr]. constructor; cbn; try done. destruct constant; [by rewrite flag_lor|by rewrite flag_ldiff]. }
  destruct constant; cbn [negb].
  - iApply heap_ret. iDestruct "H" as "[H _]". iApply ("Hadd" with "[] Ho Hi Hib H"). unfold CJsonItems.key_own. rewrite flag_lor_same //.
  - iApply heap_bind. iApply wp_strdup_rom; [done|]. iSplit.
    + iIntros (k) "Hk". iDestruct (str_null with "Hk") as "[%Hk0 Hk]". destruct (Z.eqb_spec k 0) as [E|E]; [by apply Hk0 in E|].
      iApply heap_ret. iDestruct "H" as "[H _]". iApply ("Hadd" with "[Hk] Ho Hi Hib H"). unfold CJsonItems.key_own. by rewrite flag_ldiff_same.
    + cbn [Z.eqb]. iApply heap_ret. iApply heap_ret. iDestruct "H" as "[_ H]". iApply ("H" with "Ho [Hi Hib]"). rewrite -Hn -Hp.
      by iApply (node_item with "Hi Hib").
Qed.

Lemma wp_add_new fuel m i o nx pv ov s b (Φ : Z -> hProp) : makes m i -> rom s = Some b -> (span i < fuel)%nat ->
  item_own o nx pv ov -∗
  (∀ p, ⟨ p <> 0 ⟩ -∗ item_own o nx pv (add_child (named false (c_str b) i) ov) -∗ Φ p) ∧ (item_own o nx pv ov -∗ Φ 0) -∗
  wp (add_new rom fuel o s m) Φ.
Proof.
  iIntros (Hm Es Hf) "Ho H". unfold add_new. iApply heap_bind. iApply Hm. iSplit.
  - iIntros (p) "Hi". iDestruct (item_null with "Hi") as "[%Hp Hi]".
    iApply heap_bind. iApply (wp_add_item_to_object _ _ _ _ _ _ _ _ _ false with "Ho Hi"); [done|]. iSplit.
    + iIntros "Ho". iApply heap_ret. iDestruct "H" as "[H _]". by iApply "H".
    + iIntros "Ho Hi". iApply heap_bind. iApply (wp_Delete_item with "Hi"); [done|]. iApply heap_ret. iDestruct "H" as "[_ H]". by iApply "H".
  - iApply heap_bind. unfold add_item_to_object. rewrite Z.eqb_refl !orb_true_r. cbn [orb]. iApply heap_ret. iApply heap_bind.
    destruct fuel; iApply heap_ret; iApply heap_ret; iDestruct "H" as "[_ H]"; by iApply "H".
Qed.

(** ** Looking for a name *)
Lemma wp_name_stops t k o name (cs : bool) (Φ : bool -> hProp) : key_own t k o -∗
  (key_own t k o -∗ Φ (match o with
     | None => cs
     | Some s => if cs then streq name s else case_insensitive_strcmp (c_str name) (c_str s) =? 0
     end)) -∗ wp (name_stops rom (c_str name) k cs) Φ.
Proof.
  iIntros "Hk HΦ". iDestruct (key_null with "Hk") as "[%Hn Hk]". unfold name_stops. destruct o as [s|].
  - assert (Hk : k <> 0) by (intros E; by apply Hn in E). destruct cs; addr k 0; iApply heap_bind; iApply (wp_get_key with "Hk");
      iIntros "Hk"; iApply heap_ret; by iApply "HΦ".
  - rewrite (proj2 Hn eq_refl). destruct cs; iApply heap_ret; by iApply "HΦ".
Qed.
Lemma wp_find_item cs name l : forall fuel pv p last (Φ : Z -> hProp), (length l <= fuel)%nat -> seg pv p l 0 last -∗
  match find_pos cs l name with
  | None => seg pv p l 0 last -∗ Φ 0
  | Some k => ∀ i x y q, ⟨ l !! k = Some i ⟩ -∗ seg pv p (take k l) x y -∗ item_own x q y i -∗ seg x q (drop (S k) l) 0 last -∗ Φ x
  end -∗ wp (find_item rom fuel p (c_str name) cs) Φ.
Proof.
  induction l as [|i l IH]; intros fuel pv p last Φ Hf; iIntros "Hs HΦ".
  - iDestruct "Hs" as "%H". destruct H as [-> ->]. destruct fuel; cbn; iApply heap_ret; by iApply "HΦ".
  - iDestruct (seg_ends with "Hs") as "[%H (%q & Hi & Hs)]"; [done|]. destruct H as [Hp _]. destruct fuel as [|fuel]; [cbn in Hf; lia|].
    cbn [find_item]. addr p 0. iDestruct (item_node with "Hi") as (n) "(%H & Hp & Hb)". destruct H as (_ & Hn & Hv & _). rd "Hp".
    iDestruct "Hb" as "(Hf & Hval & Hk & Hc)". iDestruct (key_null with "Hk") as "[%Hk0 Hk]". iApply heap_bind. iApply (wp_name_stops with "Hk"). iIntros "Hk".
    iAssert (item_own p q pv i) with "[Hp Hf Hval Hk Hc]" as "Hi"; [rewrite -Hn -Hv; iApply (node_item with "Hp"); [done|]; iFrame|].
    assert (Hnext : find_pos cs (i :: l) name = S <$> find_pos cs l name ->
      seg p q l 0 last -∗ item_own p q pv i -∗
      match find_pos cs (i :: l) name with
      | None => seg pv p (i :: l) 0 last -∗ Φ 0
      | Some k => ∀ j x y z, ⟨ (i :: l) !! k = Some j ⟩ -∗ seg pv p (take k (i :: l)) x y -∗ item_own x z y j -∗ seg x z (drop (S k) (i :: l)) 0 last -∗ Φ x
      end -∗ wp (find_item rom fuel (n_next n) (c_str name) cs) Φ).
    { iIntros (E) "Hs Hi HΦ". rewrite E Hn. iApply (IH with "Hs"); [cbn in Hf; lia|]. destruct (find_pos cs l name) as [k|]; cbn.
      - iIntros (j x y z) "Hj H1 Hx H2". iApply ("HΦ" with "Hj [Hi H1] Hx H2"). iExists q. iFrame.
      - iIntros "Hs". iApply "HΦ". iExists q. iFrame. }
    cbn [find_pos] in *. destruct (item_string i) as [s|] eqn:Es.
    + destruct (if cs then streq name s else _) eqn:Et.
      * assert (n_string n <> 0) by (intros E; by apply Hk0 in E). addr (n_string n) 0. iApply heap_ret.
        iApply ("HΦ" with "[] [] Hi Hs"); [done|]. by cbn.
      * iApply (Hnext with "Hs Hi HΦ"). done.
    + rewrite (proj2 Hk0 eq_refl). destruct cs.
      * iApply heap_ret. iApply "HΦ". iExists q. iFrame.
      * iApply (Hnext with "Hs Hi HΦ"). done.
Qed.
(** The name is read through the resource [R]. *)
Lemma wp_get_object_item_str (R : hProp) fuel o nx pv ov s b (cs : bool) (Φ : Z -> hProp) :
  (forall Ψ : list Z -> hProp, R -∗ (R -∗ Ψ (c_str b)) -∗ wp (get_str rom s) Ψ) -> s <> 0 -> (length (child ov) <= fuel)%nat ->
  R -∗ item_own o nx pv ov -∗
  match find_pos cs (child ov) b with
  | None => R -∗ item_own o nx pv ov -∗ Φ 0
  | Some k => ∀ i x, ⟨ child ov !! k = Some i ⟩ -∗ R -∗ focus rom o nx pv ov k x i -∗ Φ x
  end -∗ wp (get_object_item rom fuel o s cs) Φ.
Proof.
  iIntros (HR Hs Hf) "HR Ho HΦ". iEval (rewrite item_hole) in "Ho". iDestruct "Ho" as (c) "[Hh [%last Hc]]".
  iDestruct (hole_node with "Hh") as (n) "(%H & Ho & Hh)". destruct H as (Ho & <- & _). unfold get_object_item.
  addr o 0. addr s 0. cbn [orb]. rd "Ho".
  iDestruct ("Hh" $! (n_child n) with "[Ho]") as "Hh"; [by rewrite set_child_same|]. iDestruct (seg_null with "Hc") as "[%Hnull Hc]".
  destruct (Z.eqb_spec (n_child n) 0) as [E|E].
  - iApply heap_ret. assert (En : find_pos cs (child ov) b = None) by by rewrite (proj1 Hnull E). rewrite En. iApply ("HΦ" with "HR").
    rewrite item_hole. iExists _. iFrame.
  - iApply heap_bind. iApply (HR with "HR"). iIntros "HR". iApply (wp_find_item with "Hc"); [done|].
    destruct (find_pos cs (child ov) b) as [k|].
    + iIntros (i x y q) "Hi H1 Hx H2". iApply ("HΦ" with "Hi HR"). iExists _, y, q, last. iFrame.
    + iIntros "Hc". iApply ("HΦ" with "HR"). rewrite item_hole. iExists _. iFrame.
Qed.
Lemma wp_get_object_item fuel o nx pv ov s b (cs : bool) (Φ : Z -> hProp) : rom s = Some b -> (length (child ov) <= fuel)%nat ->
  item_own o nx pv ov -∗
  match find_pos cs (child ov) b with
  | None => item_own o nx pv ov -∗ Φ 0
  | Some k => ∀ i x, ⟨ child ov !! k = Some i ⟩ -∗ focus rom o nx pv ov k x i -∗ Φ x
  end -∗ wp (get_object_item rom fuel o s cs) Φ.
Proof.
  iIntros (Es Hf) "Ho HΦ". iApply (wp_get_object_item_str emp%I with "[//] Ho"); [|by intros ->; congruence|done|].
  { iIntros (Ψ) "_ H". iApply wp_get_rom; [done|]. by iApply "H". }
  destruct (find_pos cs (child ov) b) as [k|]; [|iIntros "_"; done]. iIntros (i x) "Hk _". by iApply "HΦ".
Qed.

(** ** Duplicating *)
Definition duplicates (dup : Z -> HeapLogic.M cell Z) p nx pv i j : Prop :=
  forall Φ : Z -> hProp, item_own p nx pv i -∗
  ((∀ q, item_own p nx pv i -∗ item_own q 0 0 j -∗ Φ q) ∧ (item_own p nx pv i -∗ Φ 0)) -∗ wp (dup p) Φ.

(** A new item at the end of the chain under construction, whose first [prev] is not set. *)
Lemma wp_link new iv cc done next q j (Φ : unit -> hProp) :
  hole new 0 0 iv cc -∗ seg 0 cc done 0 next -∗ item_own q 0 0 j -∗
  (∀ cc', hole new 0 0 iv cc' -∗ seg 0 cc' (done ++ [j]) 0 q -∗ Φ tt) -∗
  wp (if negb (next =? 0) then upd next (set_next q) ;;; upd q (set_prev next) else upd new (set_child q)) Φ.
Proof.
  iIntros "Hh Hd Hj HΦ". destruct (decide (done = [])) as [->|Hd].
  - iDestruct "Hd" as "%H". destruct H as [-> <-]. cbn [Z.eqb negb]. iDestruct (hole_node with "Hh") as (n) "(%H & Hn & Hh)".
    iApply (wp_upd with "Hn"). iIntros "Hn". iApply ("HΦ" with "[Hh Hn]"); [by iApply "Hh"|]. iExists 0. by iFrame.
  - iDestruct (seg_ends with "Hd") as "[%H Hd]"; [done|]. destruct H as [_ Hnx]. addr next 0. cbn [negb]. iApply heap_bind.
    iApply (wp_last_next with "Hd"); [done|]. iIntros "Hd". iDestruct (item_node with "Hj") as (n) "(%H & Hq & Hb)". destruct H as (Hq & Hn & _).
    iApply (wp_upd with "Hq"). iIntros "Hq". iApply ("HΦ" with "Hh"). rewrite seg_join. iExists q, next. iFrame "Hd". iExists 0. iSplitL; [|done].
    iApply (relink _ _ n with "[Hq] Hb"); [done|]. by rewrite -Hn set_next_same.
Qed.

Lemma wp_duplicate_children dup fuel0 new iv :
  (forall i p nx pv, (span i < fuel0)%nat -> duplicates dup p nx pv i (copy i)) ->
  forall l k pvs c last done cc next (Φ : option Z -> hProp), (length l <= k)%nat -> (spans l <= fuel0)%nat ->
  seg pvs c l 0 last -∗ hole new 0 0 iv cc -∗ seg 0 cc done 0 next -∗
  ((∀ cc' next', seg pvs c l 0 last -∗ hole new 0 0 iv cc' -∗ seg 0 cc' (done ++ map copy l) 0 next' -∗ Φ (Some next')) ∧
   (∀ cc' next' l', ⟨ (spans l' <= spans (done ++ map copy l))%nat ⟩ -∗ seg pvs c l 0 last -∗ hole new 0 0 iv cc' -∗ seg 0 cc' l' 0 next' -∗ Φ None)) -∗
  wp (duplicate_children dup k new c next) Φ.
Proof.
  intros Hdup. induction l as [|i l IH]; intros k pvs c last done cc next Φ Hk Hf; iIntros "Hs Hh Hd HΦ".
  - iDestruct "Hs" as "%H". destruct H as [-> ->]. iDestruct "HΦ" as "[HΦ _]". destruct k; cbn; iApply heap_ret; iApply ("HΦ" with "[] Hh"); try done;
      by rewrite app_nil_r.
  - iDestruct (seg_ends with "Hs") as "[%H (%q & Hi & Hs)]"; [done|]. destruct H as [Hc _]. destruct k as [|k]; [cbn in Hk; lia|].
    cbn [duplicate_children]. addr c 0. cbn [spans length] in Hf, Hk. iApply heap_bind. iApply (Hdup with "Hi"); [lia|]. iSplit.
    + iIntros (j) "Hi Hj". iDestruct (item_null with "Hj") as "[%Hj Hj]". addr j 0. iApply heap_bind. iApply (wp_link with "Hh Hd Hj").
      iIntros (cc') "Hh Hd". iDestruct (item_node with "Hi") as (n) "(%H & Hp & Hb)". destruct H as (_ & Hn & Hv & _). rd "Hp". rewrite Hn.
      iAssert (item_own c q pvs i) with "[Hp Hb]" as "Hi"; [rewrite -Hn -Hv; by iApply (node_item with "Hp")|].
      iApply (IH with "Hs Hh Hd"); [lia|lia|]. cbn [List.map]. rewrite -app_assoc. iSplit.
      * iIntros (cc2 next2) "Hs Hh Hd". iDestruct "HΦ" as "[HΦ _]". iApply ("HΦ" with "[Hi Hs] Hh Hd"). iExists q. iFrame.
      * iIntros (cc2 next2 l2) "Hl Hs Hh Hd". iDestruct "HΦ" as "[_ HΦ]". iApply ("HΦ" with "Hl [Hi Hs] Hh Hd"). iExists q. iFrame.
    + iIntros "Hi". cbn [Z.eqb]. iApply heap_ret. iDestruct "HΦ" as "[_ HΦ]". iApply ("HΦ" with "[] [Hi Hs] Hh Hd"); [|iExists q; iFrame].
      iPureIntro. apply spans_app_l.
Qed.

Lemma wp_duplicate_value v o (Φ : option Z -> hProp) : str_own v o -∗
  ((∀ v', str_own v o -∗ str_own v' (option_map c_str o) -∗ Φ (Some v')) ∧ (str_own v o -∗ Φ None)) -∗
  wp (duplicate_string rom false v) Φ.
Proof.
  iIntros "Hv H". iDestruct (str_null with "Hv") as "[%Hn Hv]". unfold duplicate_string. destruct o as [b|].
  - assert (Hv : v <> 0) by (intros E; by apply Hn in E). addr v 0. iApply heap_bind. iApply (wp_strdup_own with "Hv"). iSplit.
    + iIntros (k) "Hv Hk". iDestruct (str_null with "Hk") as "[%Hk0 Hk]". destruct (Z.eqb_spec k 0) as [E|E]; [by apply Hk0 in E|].
      iApply heap_ret. iDestruct "H" as "[H _]". iApply ("H" with "Hv Hk").
    + iIntros "Hv". cbn [Z.eqb]. iApply heap_ret. iDestruct "H" as "[_ H]". by iApply "H".
  - rewrite (proj2 Hn eq_refl). cbn [Z.eqb]. iApply heap_ret. iDestruct "H" as "[H _]". by iApply ("H" with "Hv").
Qed.
Lemma wp_duplicate_key t k o (Φ : option Z -> hProp) : key_own t k o -∗
  ((∀ k', key_own t k o -∗ key_own (Z.ldiff t cJSON_IsReference) k' (if has_flag t cJSON_StringIsConst then o else option_map c_str o) -∗ Φ (Some k')) ∧
   (key_own t k o -∗ Φ None)) -∗
  wp (duplicate_string rom (has_flag t cJSON_StringIsConst) k) Φ.
Proof.
  iIntros "Hk H". unfold CJsonItems.key_own. rewrite flag_ldiff //. destruct (has_flag t cJSON_StringIsConst).
  - unfold duplicate_string. destruct o as [b|]; iDestruct "Hk" as "%Hk".
    + destruct Hk as [Hk E]. addr k 0. iApply heap_ret. iDestruct "H" as "[H _]". by iApply "H".
    + rewrite Hk. cbn [Z.eqb]. iApply heap_ret. iDestruct "H" as "[H _]". by iApply "H".
  - by iApply (wp_duplicate_value with "Hk").
Qed.

(** The way out of [cJSON_Duplicate] when there is no memory. *)
Lemma wp_fail fuel new iv c l last (Φ : Z -> hProp) : (spans l < fuel)%nat ->
  hole new 0 0 iv c -∗ seg 0 c l 0 last -∗ Φ 0 -∗ wp (cJSON_Delete fuel new ;;; ret 0) Φ.
Proof. iIntros (Hf) "Hh Hs HΦ". iApply heap_bind. iApply (wp_Delete_hole with "Hh Hs"); [done|]. by iApply heap_ret. Qed.

Lemma wp_Duplicate fuel : forall p nx pv i (recurse : bool), (span i < fuel)%nat ->
  duplicates (fun p => cJSON_Duplicate rom fuel p recurse) p nx pv i (if recurse then copy i else copy_top i).
Proof.
  induction fuel as [|fuel IH]; intros p nx pv i recurse Hf Φ; [lia|]. iIntros "Hi HΦ". cbn [cJSON_Duplicate].
  iDestruct (item_node with "Hi") as (n) "(%H & Hp & %Hfit & Hv & Hk & Hc)". destruct H as (Hp & Hn & Hpv & _). addr p 0.
  iApply heap_bind. iApply wp_New_Item. iSplit.
  2:{ iDestruct "HΦ" as "[_ HΦ]". iApply heap_ret. iApply "HΦ". rewrite -Hn -Hpv. iApply (node_item with "Hp"); [done|]. by iFrame. }
  iIntros (new) "%Hnew Hw". addr new 0. rd "Hp". wr "Hw". wr "Hw". rewrite (fit_type _ _ Hfit).
  set (t' := Z.ldiff (ctype i) cJSON_IsReference).
  assert (Ht' : has_flag t' cJSON_IsReference = false) by apply flag_ldiff_same.
  assert (Hc' : has_flag t' cJSON_StringIsConst = has_flag (ctype i) cJSON_StringIsConst) by by apply flag_ldiff.
  iApply heap_bind. iApply (wp_duplicate_value with "Hv"). iSplit; last first.
  { iIntros "Hv". iDestruct "HΦ" as "[_ HΦ]".
    iApply (wp_fail _ _ (mkItem [] t' None (valueint i) (valuedouble i) None) 0 [] 0 with "[Hw]"); [cbn; lia| |done|].
    - iExists _. iFrame "Hw". iSplitR; [iPureIntro; do 4 (split; [done|]); by destruct Hfit; constructor|]. iSplit; [done|].
      iApply key_own_none.
    - iApply "HΦ". rewrite -Hn -Hpv. iApply (node_item with "Hp"); [done|]. by iFrame. }
  iIntros (v') "Hv Hv'". wr "Hw". iApply heap_bind. iApply (wp_duplicate_key with "Hk"). iSplit; last first.
  { iIntros "Hk". iDestruct "HΦ" as "[_ HΦ]".
    iApply (wp_fail _ _ (mkItem [] t' (option_map c_str (valuestring i)) (valueint i) (valuedouble i) None) 0 [] 0 with "[Hw Hv']"); [cbn; lia| |done|].
    - iExists _. iFrame "Hw Hv'". iSplitR; [iPureIntro; do 4 (split; [done|]); by destruct Hfit; constructor|].
      iApply key_own_none.
    - iApply "HΦ". rewrite -Hn -Hpv. iApply (node_item with "Hp"); [done|]. by iFrame. }
  iIntros (k') "Hk Hk'". wr "Hw". fold t'.
  set (iv := copy_top i).
  iAssert (hole new 0 0 iv 0) with "[Hw Hv' Hk']" as "Hh".
  { iExists _. iFrame "Hw". unfold iv, copy_top, with_child. destruct i as [l t vs vi vd nm]. cbn in *. iFrame. iPureIntro.
    do 4 (split; [done|]). by destruct Hfit; constructor. }
  destruct recurse; cbn [negb]; last first.
  { iApply heap_ret. iDestruct "HΦ" as "[HΦ _]". iApply ("HΦ" with "[Hp Hv Hk Hc]").
    - rewrite -Hn -Hpv. iApply (node_item with "Hp"); [done|]. by iFrame.
    - iDestruct (hole_close _ _ _ _ _ 0 [] 0 with "Hh []") as "H"; [done|]. by destruct i. }
  iDestruct "Hc" as (last) "Hc". rewrite span_eq in Hf. pose proof (spans_length (child i)) as Hlen.
  assert (Hback : seg last (n_child n) (child i) 0 last -∗ p ↦ Node n -∗ str_own (n_valuestring n) (valuestring i) -∗
    key_own (ctype i) (n_string n) (item_string i) -∗ item_own p nx pv i).
  { iIntros "Hc Hp Hv Hk". rewrite -Hn -Hpv. iApply (node_item with "Hp"); [done|]. by iFrame. }
  assert (Hdup : forall j x nx' pv', (span j < fuel)%nat -> duplicates (fun p => cJSON_Duplicate rom fuel p true) x nx' pv' j (copy j)).
  { intros j x nx' pv' Hj. by apply (IH x nx' pv' j true). }
  iApply heap_bind. iApply (wp_duplicate_children _ fuel new iv Hdup _ _ _ _ _ [] with "Hc Hh []"); [lia|lia|done|iSplit].
  - iIntros (cc next) "Hc Hh Hs". iDestruct "HΦ" as "[HΦ _]". iDestruct (Hback with "Hc Hp Hv Hk") as "Hi". iDestruct ("HΦ" with "Hi") as "HΦ".
    iDestruct (hole_node with "Hh") as (w) "(%H & Hw & Hh)". destruct H as (_ & <- & _). rd "Hw".
    iDestruct ("Hh" $! (n_child w) with "[Hw]") as "Hh"; [by rewrite set_child_same|].
    iAssert (∀ pv', seg pv' (n_child w) (List.map copy (child i)) 0 next -∗ ⟨ pv' = next \/ child i = [] ⟩ -∗ wp (ret new) Φ)%I with "[HΦ Hh]" as "Hend".
    { iIntros (pv') "Hs %Hor". iApply heap_ret. iApply "HΦ".
      iAssert (item_own new 0 0 (with_child (List.map copy (child i)) iv)) with "[Hh Hs]" as "H"; [|by destruct i].
      destruct Hor as [->| ->]; [by iApply (hole_close with "Hh Hs")|]. iDestruct "Hs" as "%H". destruct H as [-> _].
      iApply (hole_close _ _ _ _ _ _ _ 0 with "Hh"). done. }
    iDestruct (seg_null with "Hs") as "[%Hnull Hs]". destruct (Z.eqb_spec (n_child w) 0) as [E|E]; cbn [negb].
    + iApply heap_bind. iApply heap_ret. iApply ("Hend" with "Hs"). iPureIntro. right. apply Hnull in E. by destruct (child i).
    + iApply heap_bind. iApply (wp_first_prev with "Hs"); [by intros H; apply E, Hnull|]. iIntros "Hs". iApply ("Hend" with "Hs"). by iLeft.
  - iIntros (cc next l') "%Hl Hc Hh Hs". iDestruct "HΦ" as "[_ HΦ]". iDestruct (Hback with "Hc Hp Hv Hk") as "Hi".
    iApply (wp_fail with "Hh Hs"); [|by iApply "HΦ"]. cbn [app] in Hl. rewrite spans_copy in Hl. lia.
Qed.
End Copying.
