(* ===== verification/CJsonCompare.v ===== *)
(** [cJSON_Compare] on items with their pointers: it changes nothing and decides the equality of
    the values, and an item equals its copy. *)
From iris.proofmode Require Import proofmode.
From stdpp Require Import base list numbers gmap.
From Stdlib Require Import ZArith Lia SpecFloat.
From S2P Require Import Prelude CJson CFormat CJsonParse CJsonPrint HeapLogic CJsonHeap CJsonItems CJsonCopy.
Set Warnings "-rewrite-rw".
Open Scope Z_scope.
Open Scope heap_scope.

(** ** Equality of values *)
Fixpoint equal_lists (eqv : cJSON -> cJSON -> bool) (l1 l2 : list cJSON) : bool :=
  match l1, l2 with
  | [], [] => true
  | i :: l1', j :: l2' => eqv i j && equal_lists eqv l1' l2'
  | _, _ => false
  end.
(** Each member of [l1] equals the one that its name finds in [l2]. *)
Definition member (eqv : cJSON -> cJSON -> bool) (cs : bool) (l2 : list cJSON) (i : cJSON) : bool :=
  match name ← item_string i; k ← find_pos cs l2 name; l2 !! k with
  | Some j => eqv i j
  | None => false
  end.
Definition members (eqv : cJSON -> cJSON -> bool) (cs : bool) (l1 l2 : list cJSON) : bool := forallb (member eqv cs l2) l1.
Definition same_text (o1 o2 : option (list Z)) : bool :=
  match o1, o2 with Some s1, Some s2 => bool_decide (c_str s1 = c_str s2) | _, _ => false end.
(** [n] bounds the depth. *)
Fixpoint equal_items (n : nat) (cs : bool) (a b : cJSON) : bool :=
  match n with
  | O => false
  | S n =>
    let t := Z.land (ctype a) 255 in
    if negb (t =? Z.land (ctype b) 255) then false
    else if negb (valid_type t) then false
    else if (t =? cJSON_False) || (t =? cJSON_True) || (t =? cJSON_NULL) then true
    else if t =? cJSON_Number then compare_double (valuedouble a) (valuedouble b)
    else if (t =? cJSON_String) || (t =? cJSON_Raw) then same_text (valuestring a) (valuestring b)
    else if t =? cJSON_Array then equal_lists (equal_items n cs) (child a) (child b)
    else members (equal_items n cs) cs (child a) (child b) && members (equal_items n cs) cs (child b) (child a)
  end.

Section Comparing.
Context {alloc : Allocator cell} {aok : AllocatorOk alloc} (rom : Z -> option (list Z)).
#[local] Abbreviation hProp := (hpropI cell).
#[local] Abbreviation item_own := (item_own rom).
#[local] Abbreviation seg := (seg rom).
Implicit Types (i j : cJSON) (l : list cJSON) (n : node) (p q x y nx pv : Z).

(** [cmp] decides [eqv] on two items of depth less than [N]. *)
Definition decides (N : nat) (cmp : Z -> Z -> HeapLogic.M cell bool) (eqv : cJSON -> cJSON -> bool) : Prop :=
  forall i x nx pv j y ny qv (Φ : bool -> hProp), (span i < N)%nat -> (span j < N)%nat ->
  item_own x nx pv i -∗ item_own y ny qv j -∗ (item_own x nx pv i -∗ item_own y ny qv j -∗ Φ (eqv i j)) -∗ wp (cmp x y) Φ.

Lemma wp_compare_arrays N cmp eqv : decides N cmp eqv -> forall l1 l2 fuel pv1 p1 last1 pv2 p2 last2 (Φ : bool -> hProp),
  (length l1 <= fuel)%nat -> (spans l1 <= N)%nat -> (spans l2 <= N)%nat -> seg pv1 p1 l1 0 last1 -∗ seg pv2 p2 l2 0 last2 -∗
  (seg pv1 p1 l1 0 last1 -∗ seg pv2 p2 l2 0 last2 -∗ Φ (equal_lists eqv l1 l2)) -∗ wp (compare_arrays cmp fuel p1 p2) Φ.
Proof.
  intros Hcmp. induction l1 as [|i l1 IH]; intros l2 fuel pv1 p1 last1 pv2 p2 last2 Φ Hl H1 H2; iIntros "Hs1 Hs2 HΦ".
  - iDestruct "Hs1" as "%E". destruct E as [-> ->]. iDestruct (seg_null with "Hs2") as "[%Hnull Hs2]".
    assert (E : compare_arrays cmp fuel 0 p2 = ret (0 =? p2)) by (destruct fuel; done). rewrite E. iApply heap_ret.
    assert (Eb : (0 =? p2) = equal_lists eqv [] l2).
    { destruct l2; cbn [equal_lists]; [apply Z.eqb_eq; by rewrite (proj2 Hnull)|]. apply Z.eqb_neq. intros E'. by discriminate (proj1 Hnull (eq_sym E')). }
    rewrite Eb. by iApply ("HΦ" with "[] Hs2").
  - iDestruct (seg_ends with "Hs1") as "[%H (%q1 & Hi & Hs1)]"; [done|]. destruct H as [Hp1 _]. destruct fuel as [|fuel]; [cbn in Hl; lia|].
    destruct l2 as [|j l2].
    + iDestruct "Hs2" as "%E". destruct E as [-> ->]. cbn [compare_arrays]. rewrite orb_true_r (proj2 (Z.eqb_neq p1 0)) //. iApply heap_ret.
      iApply ("HΦ" with "[Hi Hs1]"); [|done]. iExists q1. iFrame.
    + iDestruct (seg_ends with "Hs2") as "[%H (%q2 & Hj & Hs2)]"; [done|]. destruct H as [Hp2 _]. cbn [compare_arrays]. addr p1 0. addr p2 0. cbn [orb].
      cbn [spans length] in *. iApply heap_bind. iApply (Hcmp with "Hi Hj"); [lia..|]. iIntros "Hi Hj". cbn [equal_lists].
      destruct (eqv i j); cbn [negb andb]; last first.
      { iApply heap_ret. iApply ("HΦ" with "[Hi Hs1]"); [iExists q1|iExists q2]; iFrame. }
      iDestruct (item_node with "Hi") as (n) "(%Hn & Hi & Hib)". destruct Hn as (_ & <- & <- & _). rd "Hi".
      iDestruct (item_node with "Hj") as (m) "(%Hm & Hj & Hjb)". destruct Hm as (_ & <- & <- & _). rd "Hj".
      iApply (IH with "Hs1 Hs2"); [lia..|]. iIntros "Hs1 Hs2". iApply ("HΦ" with "[Hi Hib Hs1]").
      * iExists (n_next n). iFrame "Hs1". by iApply (node_item with "Hi Hib").
      * iExists (n_next m). iFrame "Hs2". by iApply (node_item with "Hj Hjb").
Qed.

(** Looking for the name that an item carries. *)
Lemma wp_find_named x nx pv i fuel o ny qv ov (cs : bool) (Φ : Z -> hProp) : (length (child ov) <= fuel)%nat ->
  item_own x nx pv i -∗ item_own o ny qv ov -∗
  (item_own x nx pv i -∗ match name ← item_string i; find_pos cs (child ov) name with
    | None => item_own o ny qv ov -∗ Φ 0
    | Some k => ∀ j y, ⟨ child ov !! k = Some j ⟩ -∗ focus rom o ny qv ov k y j -∗ Φ y
    end) -∗ wp (let! n := get x in get_object_item rom fuel o (n_string n) cs) Φ.
Proof.
  iIntros (Hf) "Hi Ho HΦ". iDestruct (item_node with "Hi") as (n) "(%Hn & Hx & (Hfit & Hv & Hk & Hc))". destruct Hn as (Hx & Hnx & Hpv & _). rd "Hx".
  iDestruct (key_null with "Hk") as "[%Hnull Hk]".
  assert (Hback : x ↦ Node n -∗ ⟨ fits n i ⟩ -∗ str_own rom (n_valuestring n) (valuestring i) -∗ kids rom (n_child n) (child i) -∗
    key_own rom (ctype i) (n_string n) (item_string i) -∗ item_own x nx pv i).
  { iIntros "Hx Hfit Hv Hc Hk". rewrite -Hnx -Hpv. iApply (node_item with "Hx"); [done|]. iFrame. }
  destruct (item_string i) as [name|] eqn:Es; cbn.
  - iApply (wp_get_object_item_str _ (key_own rom (ctype i) (n_string n) (Some name)) with "Hk Ho"); [| |done|].
    + iIntros (Ψ) "Hk H". iApply (wp_get_key with "Hk H").
    + intros E. by apply Hnull in E.
    + destruct (find_pos cs (child ov) name) as [k|].
      * iIntros (j y) "%Hj Hk Hfoc". iDestruct (Hback with "Hx Hfit Hv Hc Hk") as "Hi". iApply ("HΦ" with "Hi [//] Hfoc").
      * iIntros "Hk Ho". iDestruct (Hback with "Hx Hfit Hv Hc Hk") as "Hi". iApply ("HΦ" with "Hi Ho").
  - iDestruct (Hback with "Hx Hfit Hv Hc Hk") as "Hi". rewrite (proj2 Hnull eq_refl). iApply wp_pure; [|iApply ("HΦ" with "Hi Ho")].
    intros s. unfold get_object_item. by rewrite orb_true_r.
Qed.
Lemma wp_compare_members N cmp eqv o ny qv ov (cs : bool) : decides N cmp eqv -> (spans (child ov) <= N)%nat -> forall l fuel pv p last (Φ : bool -> hProp),
  (length l <= fuel)%nat -> (spans l <= N)%nat -> seg pv p l 0 last -∗ item_own o ny qv ov -∗
  (seg pv p l 0 last -∗ item_own o ny qv ov -∗ Φ (members eqv cs l (child ov))) -∗ wp (compare_members rom cmp N fuel p o cs) Φ.
Proof.
  intros Hcmp Hov. induction l as [|i l IH]; intros fuel pv p last Φ Hl Hs; iIntros "Hs Ho HΦ".
  - iDestruct "Hs" as "%E". destruct E as [-> ->]. destruct fuel; (iApply heap_ret; by iApply ("HΦ" with "[] Ho")).
  - iDestruct (seg_ends with "Hs") as "[%H (%q & Hi & Hs)]"; [done|]. destruct H as [Hp _]. destruct fuel as [|fuel]; [cbn in Hl; lia|].
    cbn [compare_members]. addr p 0. cbn [spans length] in *. iApply heap_bind.
    iApply (wp_find_named with "Hi Ho"); [pose proof (spans_length (child ov)); lia|]. iIntros "Hi".
    unfold members. cbn [forallb]. fold (members eqv cs l (child ov)).
    assert (Emem : member eqv cs (child ov) i = match (name ← item_string i; find_pos cs (child ov) name) with
      | Some k => match child ov !! k with Some j => eqv i j | None => false end | None => false end).
    { unfold member. destruct (item_string i) as [name|]; cbn; [|done]. by destruct (find_pos cs (child ov) name). }
    destruct (name ← item_string i; find_pos cs (child ov) name) as [k|].
    2:{ iIntros "Ho". cbn [Z.eqb]. iApply heap_ret. rewrite Emem. iApply ("HΦ" with "[Hi Hs] Ho"). iExists q. iFrame. }
    iIntros (j y) "%Hj (%c & %z & %w & %last' & Hh & H1 & Hy & H2)". rewrite Hj in Emem. iDestruct (item_null with "Hy") as "[%Hy Hy]". addr y 0.
    iApply heap_bind. pose proof (spans_lookup _ _ _ Hj). iApply (Hcmp with "Hi Hy"); [lia..|]. iIntros "Hi Hy".
    iDestruct (focus_close rom o ny qv ov k y j with "[Hh H1 Hy H2]") as "Ho"; [done|iExists c, z, w, last'; iFrame|].
    rewrite Emem. destruct (eqv i j); cbn [negb andb]; last first.
    { iApply heap_ret. iApply ("HΦ" with "[Hi Hs] Ho"). iExists q. iFrame. }
    iDestruct (item_node with "Hi") as (n) "(%Hn & Hi & Hib)". destruct Hn as (_ & <- & <- & _). rd "Hi".
    iApply (IH with "Hs Ho"); [lia..|]. iIntros "Hs". iApply "HΦ". iExists (n_next n). iFrame "Hs". by iApply (node_item with "Hi Hib").
Qed.
(** The children of an item, lent. *)
Lemma item_children p nx pv i : item_own p nx pv i -∗ ∃ n last, ⟨ p <> 0 ⟩ ∗ p ↦ Node n ∗ seg last (n_child n) (child i) 0 last ∗
  (p ↦ Node n -∗ seg last (n_child n) (child i) 0 last -∗ item_own p nx pv i).
Proof.
  iIntros "Hi". iDestruct (item_node with "Hi") as (n) "(%Hn & Hp & (Hfit & Hv & Hk & [%last Hc]))". destruct Hn as (Hp & <- & <- & _).
  iExists n, last. iFrame "Hp Hc". iSplitR; [done|]. iIntros "Hp Hc". iApply (node_item with "Hp"); [done|]. iFrame.
Qed.

Lemma wp_same_text n i m j (Φ : bool -> hProp) :
  str_own rom (n_valuestring n) (valuestring i) -∗ str_own rom (n_valuestring m) (valuestring j) -∗
  (str_own rom (n_valuestring n) (valuestring i) -∗ str_own rom (n_valuestring m) (valuestring j) -∗ Φ (same_text (valuestring i) (valuestring j))) -∗
  wp (if (n_valuestring n =? 0) || (n_valuestring m =? 0) then ret false
      else let! s1 := get_str rom (n_valuestring n) in let! s2 := get_str rom (n_valuestring m) in ret (bool_decide (s1 = s2))) Φ.
Proof.
  iIntros "Hn Hm HΦ". iDestruct (str_null with "Hn") as "[%En Hn]". iDestruct (str_null with "Hm") as "[%Em Hm]".
  destruct (valuestring i) as [s1|]; [|rewrite (proj2 (Z.eqb_eq _ 0) (proj2 En eq_refl)); iApply heap_ret; iApply ("HΦ" with "Hn Hm")].
  destruct (valuestring j) as [s2|]; [|rewrite (proj2 (Z.eqb_eq _ 0) (proj2 Em eq_refl)) orb_true_r; destruct (valuestring i); iApply heap_ret; iApply ("HΦ" with "Hn Hm")].
  assert (n_valuestring n <> 0) by (intros E; by apply En in E). assert (n_valuestring m <> 0) by (intros E; by apply Em in E).
  addr (n_valuestring n) 0. addr (n_valuestring m) 0. cbn [orb]. iApply heap_bind. iApply (wp_get_own with "Hn"). iIntros "Hn".
  iApply heap_bind. iApply (wp_get_own with "Hm"). iIntros "Hm". iApply heap_ret. iApply ("HΦ" with "Hn Hm").
Qed.

Lemma wp_Compare cs fuel : decides fuel (fun x y => cJSON_Compare rom fuel x y cs) (equal_items fuel cs).
Proof.
  induction fuel as [|fuel IH]; intros i x nx pv j y ny qv Φ Hi Hj; [lia|]. iIntros "Hi Hj HΦ". cbn [cJSON_Compare equal_items].
  iDestruct (item_node with "Hi") as (n) "(%Hn & Hx & Hib)". destruct Hn as (Hx & Hnx & Hpv & Hfn).
  iDestruct (item_node with "Hj") as (m) "(%Hm & Hy & Hjb)". destruct Hm as (Hy & Hny & Hqv & Hfm).
  iDestruct (two_items with "Hx Hy") as "(%Hne & Hx & Hy)". addr x 0. addr y 0. cbn [orb]. rd "Hx". rd "Hy". addr x y.
  rewrite (fit_type _ _ Hfn) (fit_type _ _ Hfm) (fit_double _ _ Hfn) (fit_double _ _ Hfm).
  rewrite span_eq in Hi. rewrite span_eq in Hj. pose proof (spans_length (child i)). pose proof (spans_length (child j)).
  iAssert (∀ r, (item_own x nx pv i -∗ item_own y ny qv j -∗ Φ r) -∗ x ↦ Node n -∗ body rom n i -∗ y ↦ Node m -∗ body rom m j -∗ wp (ret r) Φ)%I as "Hdone".
  { iIntros (r) "HΦ Hx Hib Hy Hjb". iApply heap_ret. iApply ("HΦ" with "[Hx Hib]").
    - rewrite -Hnx -Hpv. by iApply (node_item with "Hx").
    - rewrite -Hny -Hqv. by iApply (node_item with "Hy"). }
  set (t := Z.land (ctype i) 255). destruct (negb (t =? _)); [iApply ("Hdone" with "HΦ Hx Hib Hy Hjb")|].
  destruct (negb (valid_type t)); [iApply ("Hdone" with "HΦ Hx Hib Hy Hjb")|].
  destruct (_ || (t =? cJSON_NULL)); [iApply ("Hdone" with "HΦ Hx Hib Hy Hjb")|].
  destruct (t =? cJSON_Number); [iApply ("Hdone" with "HΦ Hx Hib Hy Hjb")|].
  destruct (_ || (t =? cJSON_Raw)).
  { iDestruct "Hib" as "(Hfit1 & Hv1 & Hrest1)". iDestruct "Hjb" as "(Hfit2 & Hv2 & Hrest2)". iApply (wp_same_text n i m j with "Hv1 Hv2").
    iIntros "Hv1 Hv2". iApply ("HΦ" with "[Hx Hfit1 Hv1 Hrest1]").
    - rewrite -Hnx -Hpv. iApply (node_item with "Hx"); [done|]. iFrame.
    - rewrite -Hny -Hqv. iApply (node_item with "Hy"); [done|]. iFrame. }
  iDestruct "Hib" as "(Hfit1 & Hv1 & Hk1 & [%last1 Hc1])". iDestruct "Hjb" as "(Hfit2 & Hv2 & Hk2 & [%last2 Hc2])".
  iAssert (x ↦ Node n -∗ ⟨ fits n i ⟩ -∗ str_own rom (n_valuestring n) (valuestring i) -∗ key_own rom (ctype i) (n_string n) (item_string i) -∗
    seg last1 (n_child n) (child i) 0 last1 -∗ item_own x nx pv i)%I as "Hback1".
  { iIntros "Hx Hf Hv Hk Hc". rewrite -Hnx -Hpv. iApply (node_item with "Hx"); [done|]. iFrame. }
  iAssert (y ↦ Node m -∗ ⟨ fits m j ⟩ -∗ str_own rom (n_valuestring m) (valuestring j) -∗ key_own rom (ctype j) (n_string m) (item_string j) -∗
    seg last2 (n_child m) (child j) 0 last2 -∗ item_own y ny qv j)%I as "Hback2".
  { iIntros "Hy Hf Hv Hk Hc". rewrite -Hny -Hqv. iApply (node_item with "Hy"); [done|]. iFrame. }
  destruct (t =? cJSON_Array).
  { iApply (wp_compare_arrays _ _ _ IH with "Hc1 Hc2"); [lia..|]. iIntros "Hc1 Hc2".
    iApply ("HΦ" with "[Hback1 Hx Hfit1 Hv1 Hk1 Hc1]"); [iApply ("Hback1" with "Hx Hfit1 Hv1 Hk1 Hc1")|iApply ("Hback2" with "Hy Hfit2 Hv2 Hk2 Hc2")]. }
  iDestruct ("Hback2" with "Hy Hfit2 Hv2 Hk2 Hc2") as "Hj". iApply heap_bind.
  iApply (wp_compare_members _ _ _ _ _ _ _ _ IH with "Hc1 Hj"); [lia..|]. iIntros "Hc1 Hj".
  iDestruct ("Hback1" with "Hx Hfit1 Hv1 Hk1 Hc1") as "Hi". destruct (members _ cs (child i) (child j)); cbn [negb andb]; last first.
  { iApply heap_ret. iApply ("HΦ" with "Hi Hj"). }
  iDestruct (item_children with "Hj") as (m' last) "(%Hy' & Hy & Hc & Hback)". rd "Hy".
  iApply (wp_compare_members _ _ _ _ _ _ _ _ IH with "Hc Hi"); [lia..|]. iIntros "Hc Hi". iApply ("HΦ" with "Hi"). iApply ("Hback" with "Hy Hc").
Qed.
End Comparing.

(** ** The depth does not matter *)
Lemma span_child l i : In i l -> (span i < spans l)%nat.
Proof. intros [k Hk]%list_elem_of_In%list_elem_of_lookup. by eapply spans_lookup. Qed.
Lemma equal_lists_ext f g l1 : forall l2, (forall i j, In i l1 -> In j l2 -> f i j = g i j) -> equal_lists f l1 l2 = equal_lists g l1 l2.
Proof.
  induction l1 as [|i l1 IH]; intros [|j l2] H; cbn; try done. rewrite (H i j); [|by left..]. f_equal. apply IH. intros i' j' Hi Hj. apply H; by right.
Qed.
Lemma members_ext f g cs l1 l2 : (forall i j, In i l1 -> In j l2 -> f i j = g i j) -> members f cs l1 l2 = members g cs l1 l2.
Proof.
  intros H. unfold members. induction l1 as [|i l1 IH]; cbn [forallb]; [done|]. f_equal; [|apply IH; intros i' j' Hi; apply H; by right].
  unfold member. destruct (name ← item_string i; k ← find_pos cs l2 name; l2 !! k) as [j|] eqn:E; [|done]. apply H; [by left|].
  apply bind_Some in E as (name & _ & E). apply bind_Some in E as (k & _ & E). apply list_elem_of_In, list_elem_of_lookup. by exists k.
Qed.
Lemma equal_items_depth cs n : forall m a b, (span a < n)%nat -> (span b < n)%nat -> (span a < m)%nat -> (span b < m)%nat ->
  equal_items n cs a b = equal_items m cs a b.
Proof.
  induction n as [|n IH]; intros [|m] a b Ha Hb Ha' Hb'; try lia. cbn [equal_items]. rewrite !span_eq in Ha Hb Ha' Hb'.
  repeat (match goal with |- (if ?c then _ else _) = _ => destruct c end; [done|]).
  assert (H : forall i j, In i (child a) -> In j (child b) -> equal_items n cs i j = equal_items m cs i j).
  { intros i j Hi%span_child Hj%span_child. apply IH; lia. }
  assert (H' : forall i j, In i (child b) -> In j (child a) -> equal_items n cs i j = equal_items m cs i j).
  { intros i j Hi%span_child Hj%span_child. apply IH; lia. }
  rewrite (equal_lists_ext _ _ _ _ H) (members_ext _ _ cs _ _ H) (members_ext _ _ cs _ _ H'). done.
Qed.
(** The answer of [cJSON_Compare] for two items. *)
Definition equal (cs : bool) (a b : cJSON) : bool := equal_items (S (Nat.max (span a) (span b))) cs a b.

(** ** Copies *)

(** An item whose parts all have a type that can be compared, numbers that equal themselves,
    texts where they belong, and in each object names that find their own member. *)
Definition finds_itself (cs : bool) (l : list cJSON) (k : nat) (i : cJSON) : Prop := item_string i ≫= find_pos cs l = Some k.
Inductive comparable (cs : bool) : cJSON -> Prop :=
  | comparable_item i : valid_type (Z.land (ctype i) 255) = true ->
      (Z.land (ctype i) 255 = cJSON_Number -> compare_double (valuedouble i) (valuedouble i) = true) ->
      (Z.land (ctype i) 255 = cJSON_String \/ Z.land (ctype i) 255 = cJSON_Raw -> valuestring i <> None) ->
      (Z.land (ctype i) 255 = cJSON_Object -> forall k c, child i !! k = Some c -> finds_itself cs (child i) k c) ->
      Forall (comparable cs) (child i) -> comparable cs i.

Lemma c_str_twice b : c_str (c_str b) = c_str b.
Proof. induction b as [|c b IH]; cbn [c_str]; [done|]. destruct (c =? 0) eqn:E; [done|]. cbn [c_str]. by rewrite E IH. Qed.
Lemma copy_type i : Z.land (ctype (copy i)) 255 = Z.land (ctype i) 255.
Proof.
  destruct i as [l t vs vi vd nm]. cbn [copy ctype]. apply Z.bits_inj'. intros n Hn. rewrite !Z.land_spec Z.ldiff_spec.
  destruct (decide (n = 8)) as [->|Hne]; [by rewrite !andb_false_r|]. replace (Z.testbit cJSON_IsReference n) with false; [by rewrite andb_true_r|].
  symmetry. change cJSON_IsReference with (2 ^ 8). apply Z.pow2_bits_false. lia.
Qed.
Lemma find_pos_copy cs l name : find_pos cs (map copy l) name = find_pos cs l name.
Proof.
  induction l as [|i l IH]; cbn [map find_pos]; [done|]. rewrite IH. destruct i as [l' t vs vi vd nm]. cbn [copy item_string].
  destruct (has_flag t cJSON_StringIsConst); [done|]. destruct nm as [s|]; cbn [option_map]; [|done]. unfold streq. by rewrite c_str_twice.
Qed.
Lemma find_pos_name cs l i : item_string (copy i) ≫= find_pos cs l = item_string i ≫= find_pos cs l.
Proof.
  destruct i as [l' t vs vi vd nm]. cbn [copy item_string]. destruct (has_flag t cJSON_StringIsConst); [done|]. destruct nm as [s|]; cbn; [|done].
  induction l as [|e l IH]; cbn [find_pos]; [done|]. rewrite IH. unfold streq. by rewrite c_str_twice.
Qed.
Lemma members_true f cs l1 l2 : (forall k c, l1 !! k = Some c -> item_string c ≫= find_pos cs l2 = Some k /\ exists c', l2 !! k = Some c' /\ f c c' = true) ->
  members f cs l1 l2 = true.
Proof.
  intros H. apply forallb_forall. intros c [k Hk]%list_elem_of_In%list_elem_of_lookup. destruct (H k c Hk) as (Ek & c' & Ec & Ef).
  unfold member. destruct (item_string c) as [name|]; [|done]. cbn in Ek |- *. by rewrite Ek /= Ec.
Qed.
Lemma equal_lists_copy f l : (forall i, In i l -> f i (copy i) = true /\ f (copy i) i = true) ->
  equal_lists f l (map copy l) = true /\ equal_lists f (map copy l) l = true.
Proof.
  induction l as [|i l IH]; intros H; [done|]. cbn [map equal_lists]. destruct (H i (or_introl eq_refl)) as [-> ->]. apply IH. intros j Hj. apply H. by right.
Qed.
Lemma copy_child i : child (copy i) = map copy (child i).
Proof. by destruct i. Qed.
Lemma copy_double i : valuedouble (copy i) = valuedouble i.
Proof. by destruct i. Qed.
Lemma copy_text i : valuestring i <> None ->
  same_text (valuestring i) (valuestring (copy i)) = true /\ same_text (valuestring (copy i)) (valuestring i) = true.
Proof.
  destruct i as [l t [b|] vi vd nm]; cbn [copy valuestring option_map same_text]; [|done]. intros _. rewrite c_str_twice bool_decide_eq_true_2 //.
Qed.

(** An item equals its copy, either way round. *)
Lemma copy_equal cs n : forall i, comparable cs i -> (span i < n)%nat -> equal_items n cs i (copy i) = true /\ equal_items n cs (copy i) i = true.
Proof.
  induction n as [|n IH]; intros i Hi Hn; [lia|]. destruct Hi as [i Hvalid Hnum Htext Hobj Hc]. rewrite span_eq in Hn.
  cbn [equal_items]. rewrite copy_type copy_child Hvalid !Z.eqb_refl. cbn [negb]. set (t := Z.land (ctype i) 255) in *.
  destruct (_ || (t =? cJSON_NULL)) eqn:E0; [done|].
  destruct (Z.eqb_spec t cJSON_Number) as [E|E1]; [rewrite copy_double; by rewrite Hnum|].
  destruct (Z.eqb_spec t cJSON_String) as [E|E2]; [apply copy_text, Htext; by left|].
  destruct (Z.eqb_spec t cJSON_Raw) as [E|E3]; [apply copy_text, Htext; by right|]. cbn [orb].
  assert (Hall : forall c, In c (child i) -> equal_items n cs c (copy c) = true /\ equal_items n cs (copy c) c = true).
  { intros c Hin. apply IH; [by apply (proj1 (List.Forall_forall _ _) Hc)|]. pose proof (span_child _ _ Hin). lia. }
  destruct (Z.eqb_spec t cJSON_Array) as [E|E4]; [by apply equal_lists_copy|].
  destruct (decide (t = cJSON_Object)) as [E|E5].
  - assert (H1 : members (equal_items n cs) cs (child i) (map copy (child i)) = true).
    { apply members_true. intros k c Hk. pose proof (Hobj E k c Hk) as Hf. unfold finds_itself in Hf.
      split; [by destruct (item_string c); cbn in Hf |- *; rewrite ?find_pos_copy|]. exists (copy c). rewrite list_lookup_fmap Hk. split; [done|]. apply Hall. by apply list_elem_of_In, list_elem_of_lookup; exists k. }
    assert (H2 : members (equal_items n cs) cs (map copy (child i)) (child i) = true).
    { apply members_true. intros k c' Hk. rewrite list_lookup_fmap in Hk. apply fmap_Some in Hk as (c & Hk & ->). rewrite find_pos_name. split; [by apply Hobj|].
      exists c. split; [done|]. apply Hall. by apply list_elem_of_In, list_elem_of_lookup; exists k. }
    by rewrite H1 H2.
  - apply orb_false_iff in E0 as [[H1 H2]%orb_false_iff H3]. unfold valid_type in Hvalid. rewrite H1 H2 H3 in Hvalid.
    rewrite (proj2 (Z.eqb_neq _ _) E1) (proj2 (Z.eqb_neq _ _) E2) (proj2 (Z.eqb_neq _ _) E3) (proj2 (Z.eqb_neq _ _) E4) (proj2 (Z.eqb_neq _ _) E5) in Hvalid.
    discriminate.
Qed.
Lemma copy_equals cs i : comparable cs i -> equal cs i (copy i) = true /\ equal cs (copy i) i = true.
Proof. intros H. unfold equal. rewrite span_copy. apply copy_equal; [done|lia]. Qed.
