(* ===== verification/CJsonClient.v ===== *)
(** Programs that use the tree functions of the cJSON library: whatever such a program does, the
    items on the heap are the trees that an abstract account of the calls predicts.

    The abstract state is a finite map from the items that the program holds to their
    values.  [call_spec] says what each call may answer and what becomes of the trees, for both
    answers of the allocator. *)
From iris.proofmode Require Import proofmode.
From stdpp Require Import base list numbers gmap fin_maps.
From Stdlib Require Import ZArith Lia SpecFloat.
From S2P Require Import Prelude CJson CFormat CJsonParse CJsonPrint HeapLogic CJsonHeap CJsonItems CJsonCopy CJsonCompare.
Set Warnings "-rewrite-rw".
Open Scope Z_scope.
Open Scope heap_scope.

(** ** Calls *)

(** What an item is created with. *)
Inductive kind : Type :=
  | KNull | KTrue | KFalse | KBool (b : bool) | KArray | KObject
  | KNumber (num : double) | KString (string : Z) | KRaw (raw : Z).

(** The arrays created in one call. *)
Inductive elements : Type :=
  | Ints (numbers : list Z) | Floats (numbers : list spec_float) | Doubles (numbers : list double) | Strings (strings : list Z).
Definition element_kinds (e : elements) : list kind :=
  match e with
  | Ints l => map (fun z => KNumber (double_of_int z)) l
  | Floats l => map (fun f => KNumber (double_of_float f)) l
  | Doubles l => map KNumber l
  | Strings l => map KString l
  end.

Inductive call : Type :=
  | Create (k : kind)
  | CreateArrayOf (e : elements) (count : Z)
  | AddToArray (array item : Z)
  | AddToObject (object string item : Z)
  | AddToObjectCS (object string item : Z)
  | AddNew (object name : Z) (k : kind)
  | DetachFromArray (array which : Z)
  | DetachFromObject (case_sensitive : bool) (object string : Z)
  | DeleteFromArray (array which : Z)
  | DeleteFromObject (case_sensitive : bool) (object string : Z)
  | Insert (array which newitem : Z)
  | ReplaceInArray (array which newitem : Z)
  | ReplaceInObject (case_sensitive : bool) (object string newitem : Z)
  | Duplicate (item : Z) (recurse : bool)
  | Delete (item : Z)
  | SetNumber (object : Z) (number : double)
  | SetBool (object : Z) (boolValue : bool)
  | SetText (object valuestring : Z)
  | HasItem (object string : Z)
  | Compare (case_sensitive : bool) (a b : Z).

Section Calls.
Context {alloc : Allocator cell} (rom : Z -> option (list Z)).
#[local] Abbreviation M := (HeapLogic.M cell).

Definition answer (b : bool) : Z := if b then 1 else 0.
Definition yes_no (m : M bool) : M Z := let! b := m in ret (answer b).
Definition no_answer (m : M unit) : M Z := m ;;; ret 0.

Definition create_kind (fuel : nat) (k : kind) : M Z :=
  match k with
  | KNull => cJSON_CreateNull
  | KTrue => cJSON_CreateTrue
  | KFalse => cJSON_CreateFalse
  | KBool b => cJSON_CreateBool b
  | KArray => cJSON_CreateArray
  | KObject => cJSON_CreateObject
  | KNumber num => cJSON_CreateNumber num
  | KString s => cJSON_CreateString rom fuel s
  | KRaw s => cJSON_CreateRaw rom fuel s
  end.
Definition add_kind (fuel : nat) (object name : Z) (k : kind) : M Z :=
  match k with
  | KNull => cJSON_AddNullToObject rom fuel object name
  | KTrue => cJSON_AddTrueToObject rom fuel object name
  | KFalse => cJSON_AddFalseToObject rom fuel object name
  | KBool b => cJSON_AddBoolToObject rom fuel object name b
  | KArray => cJSON_AddArrayToObject rom fuel object name
  | KObject => cJSON_AddObjectToObject rom fuel object name
  | KNumber num => cJSON_AddNumberToObject rom fuel object name num
  | KString s => cJSON_AddStringToObject rom fuel object name s
  | KRaw s => cJSON_AddRawToObject rom fuel object name s
  end.
Definition run_call (fuel : nat) (c : call) : M Z :=
  match c with
  | Create k => create_kind fuel k
  | CreateArrayOf (Ints l) count => cJSON_CreateIntArray fuel (Some l) count
  | CreateArrayOf (Floats l) count => cJSON_CreateFloatArray fuel (Some l) count
  | CreateArrayOf (Doubles l) count => cJSON_CreateDoubleArray fuel (Some l) count
  | CreateArrayOf (Strings l) count => cJSON_CreateStringArray rom fuel (Some l) count
  | AddToArray a x => yes_no (cJSON_AddItemToArray a x)
  | AddToObject o s x => yes_no (cJSON_AddItemToObject rom o s x)
  | AddToObjectCS o s x => yes_no (cJSON_AddItemToObjectCS rom o s x)
  | AddNew o s k => add_kind fuel o s k
  | DetachFromArray a w => cJSON_DetachItemFromArray a w
  | DetachFromObject true o s => cJSON_DetachItemFromObjectCaseSensitive rom fuel o s
  | DetachFromObject false o s => cJSON_DetachItemFromObject rom fuel o s
  | DeleteFromArray a w => no_answer (cJSON_DeleteItemFromArray fuel a w)
  | DeleteFromObject true o s => no_answer (cJSON_DeleteItemFromObjectCaseSensitive rom fuel o s)
  | DeleteFromObject false o s => no_answer (cJSON_DeleteItemFromObject rom fuel o s)
  | Insert a w x => yes_no (cJSON_InsertItemInArray a w x)
  | ReplaceInArray a w x => yes_no (cJSON_ReplaceItemInArray fuel a w x)
  | ReplaceInObject true o s x => yes_no (cJSON_ReplaceItemInObjectCaseSensitive rom fuel o s x)
  | ReplaceInObject false o s x => yes_no (cJSON_ReplaceItemInObject rom fuel o s x)
  | Duplicate x recurse => cJSON_Duplicate rom fuel x recurse
  | Delete x => no_answer (cJSON_Delete fuel x)
  | SetNumber x d => no_answer (let! _ := cJSON_SetNumberHelper x d in ret tt)
  | SetBool x b => cJSON_SetBoolValue x b
  | SetText x s => cJSON_SetValuestring rom x s
  | HasItem o s => yes_no (cJSON_HasObjectItem rom fuel o s)
  | Compare cs a b => yes_no (cJSON_Compare rom fuel a b cs)
  end.

(** Enough fuel for a call: no path in a tree is longer than the number of cells. *)
Definition call_size (c : call) : nat := match c with CreateArrayOf e _ => length (element_kinds e) | _ => O end.
Definition exec (c : call) : M Z := fun s => run_call (S (size (mem s) + call_size c)) c s.

(** A program: the next call depends on the answers so far. *)
Inductive client : Type := Done | Do (c : call) (k : Z -> client).
Fixpoint run_client (P : client) : M (list Z) :=
  match P with
  | Done => ret []
  | Do c k => let! r := exec c in let! tr := run_client (k r) in ret (r :: tr)
  end.

(** ** What they do *)
Definition text_of (t s : Z) : option cJSON := text_item t <$> rom s.
Definition kind_item (k : kind) : option cJSON :=
  match k with
  | KNull => Some (basic cJSON_NULL)
  | KTrue => Some (basic cJSON_True)
  | KFalse => Some (basic cJSON_False)
  | KBool b => Some (basic (if b then cJSON_True else cJSON_False))
  | KArray => Some (basic cJSON_Array)
  | KObject => Some (basic cJSON_Object)
  | KNumber d => match saturate d with Ok z => Some (number_item z d) | _ => None end
  | KString s => text_of cJSON_String s
  | KRaw s => text_of cJSON_Raw s
  end.
Definition array_of (l : list cJSON) : cJSON := with_child l (basic cJSON_Array).
Definition unnamed (i : cJSON) : cJSON := mkItem (child i) (ctype i) (valuestring i) (valueint i) (valuedouble i) None.
Definition insert_at (k : nat) (i arr : cJSON) : cJSON := with_child (take k (child arr) ++ i :: drop k (child arr)) arr.
Definition remove_at (k : nat) (arr : cJSON) : cJSON := with_child (delete k (child arr)) arr.
Definition replace_at (k : nat) (i arr : cJSON) : cJSON := with_child (<[k := i]> (child arr)) arr.

Definition with_number (z : Z) (d : double) (i : cJSON) : cJSON := mkItem (child i) (ctype i) (valuestring i) z d (item_string i).
Definition with_bool (b : bool) (i : cJSON) : cJSON :=
  mkItem (child i) (Z.lor (Z.ldiff (ctype i) 3) (if b then cJSON_True else cJSON_False)) (valuestring i) (valueint i) (valuedouble i) (item_string i).
Definition with_text (b : list Z) (i : cJSON) : cJSON := mkItem (child i) (ctype i) (Some b) (valueint i) (valuedouble i) (item_string i).
(** A text that fits is copied over the old one. *)
Definition set_text (s : list Z) (i : cJSON) : option cJSON :=
  if has_flag (ctype i) cJSON_String then
    old ← valuestring i; Some (with_text (if zlen s <=? zlen (c_str old) then strcpy old s else s) i)
  else None.

(** The trees that the program holds, by their address. *)
Abbreviation trees := (gmap Z cJSON).

(** The item a call creates. *)
Definition creates (F : trees) (c : call) : option cJSON :=
  match c with
  | Create k => kind_item k
  | CreateArrayOf e count =>
    if (count <? 0) || (zlen (element_kinds e) <? count) then None
    else array_of <$> mapM kind_item (take (Z.to_nat count) (element_kinds e))
  | Duplicate x recurse => (fun i => if recurse then copy i else copy_top i) <$> F !! x
  | _ => None
  end.
(** The child a call takes out: the array or object, and the position in it. *)
Definition selects (F : trees) (c : call) : option (Z * option nat) :=
  match c with
  | DetachFromArray a w | DeleteFromArray a w => arr ← F !! a; Some (a, if w <? 0 then None else k ← Some (Z.to_nat w); i ← child arr !! k; Some k)
  | DetachFromObject cs o s | DeleteFromObject cs o s => ov ← F !! o; b ← rom s; Some (o, find_pos cs (child ov) b)
  | _ => None
  end.
Definition detaches (c : call) : bool := match c with DetachFromArray _ _ | DetachFromObject _ _ _ => true | _ => false end.
(** The calls that do nothing because of a null pointer or a negative index. *)
Definition idle (c : call) : bool :=
  match c with
  | CreateArrayOf _ count => count <? 0
  | AddToArray a x => (x =? 0) || (a =? 0) || (a =? x)
  | AddToObject o s x | AddToObjectCS o s x => (o =? 0) || (s =? 0) || (x =? 0) || (o =? x)
  | DetachFromArray a w | DeleteFromArray a w | Insert a w _ | ReplaceInArray a w _ => (w <? 0) || (a =? 0)
  | DetachFromObject _ o s | DeleteFromObject _ o s => (o =? 0) || (s =? 0)
  | ReplaceInObject _ _ s x => (x =? 0) || (s =? 0)
  | Duplicate x _ | Delete x | SetBool x _ => x =? 0
  | HasItem o s => (o =? 0) || (s =? 0)
  | Compare _ a b => (a =? 0) || (b =? 0)
  | Create _ | AddNew _ _ _ | SetNumber _ _ | SetText _ _ => false
  end.

(** The answer of a call, and the trees after it. *)
Inductive call_spec (F : trees) : call -> Z -> trees -> Prop :=
  | spec_idle c : idle c = true -> call_spec F c 0 F
  | spec_create c i p : creates F c = Some i -> p <> 0 -> F !! p = None -> call_spec F c p (<[p := i]> F)
  | spec_no_memory c i : creates F c = Some i -> call_spec F c 0 F
  | spec_add a x arr i : F !! a = Some arr -> F !! x = Some i ->
      call_spec F (AddToArray a x) 1 (<[a := add_child i arr]> (delete x F))
  | spec_add_object o s x ov i b : F !! o = Some ov -> F !! x = Some i -> rom s = Some b ->
      call_spec F (AddToObject o s x) 1 (<[o := add_child (named false (c_str b) i) ov]> (delete x F))
  | spec_add_object_no_memory o s x : call_spec F (AddToObject o s x) 0 F
  | spec_add_object_cs o s x ov i b : F !! o = Some ov -> F !! x = Some i -> rom s = Some b ->
      call_spec F (AddToObjectCS o s x) 1 (<[o := add_child (named true b i) ov]> (delete x F))
  | spec_add_new o s k p ov i b : F !! o = Some ov -> kind_item k = Some i -> rom s = Some b -> p <> 0 ->
      call_spec F (AddNew o s k) p (<[o := add_child (named false (c_str b) i) ov]> F)
  | spec_add_new_no_memory o s k : call_spec F (AddNew o s k) 0 F
  | spec_detach c a k p arr i : detaches c = true -> selects F c = Some (a, Some k) -> F !! a = Some arr -> child arr !! k = Some i ->
      p <> 0 -> F !! p = None -> call_spec F c p (<[p := i]> (<[a := remove_at k arr]> F))
  | spec_delete_from c a k arr : detaches c = false -> selects F c = Some (a, Some k) -> F !! a = Some arr ->
      call_spec F c 0 (<[a := remove_at k arr]> F)
  | spec_absent c a : selects F c = Some (a, None) -> call_spec F c 0 F
  | spec_insert a w x arr i : F !! a = Some arr -> F !! x = Some i -> 0 <= w ->
      call_spec F (Insert a w x) 1 (<[a := insert_at (Z.to_nat w) i arr]> (delete x F))
  | spec_replace a w x arr i : F !! a = Some arr -> F !! x = Some i -> 0 <= w < zlen (child arr) ->
      call_spec F (ReplaceInArray a w x) 1 (<[a := replace_at (Z.to_nat w) i arr]> (delete x F))
  | spec_replace_absent a w x arr : F !! a = Some arr -> x = 0 \/ zlen (child arr) <= w -> call_spec F (ReplaceInArray a w x) 0 F
  | spec_replace_object cs o s x ov i b k : F !! o = Some ov -> F !! x = Some i -> rom s = Some b -> find_pos cs (child ov) b = Some k ->
      call_spec F (ReplaceInObject cs o s x) 1 (<[o := replace_at k (named false (c_str b) i) ov]> (delete x F))
  | spec_replace_object_absent cs o s x ov i b : F !! o = Some ov -> F !! x = Some i -> rom s = Some b -> find_pos cs (child ov) b = None ->
      call_spec F (ReplaceInObject cs o s x) 0 (<[x := named false (c_str b) i]> F)
  | spec_replace_object_no_memory cs o s x i : F !! x = Some i -> call_spec F (ReplaceInObject cs o s x) 0 (<[x := unnamed i]> F)
  | spec_delete x i : F !! x = Some i -> call_spec F (Delete x) 0 (delete x F)
  | spec_set_number x d i z : F !! x = Some i -> saturate d = Ok z -> call_spec F (SetNumber x d) 0 (<[x := with_number z d i]> F)
  | spec_set_bool x b i : F !! x = Some i -> has_flag (ctype i) 3 = true ->
      call_spec F (SetBool x b) (ctype (with_bool b i)) (<[x := with_bool b i]> F)
  | spec_set_bool_not x b i : F !! x = Some i -> has_flag (ctype i) 3 = false -> call_spec F (SetBool x b) 0 F
  | spec_set_text x s i b j p : F !! x = Some i -> rom s = Some b -> set_text (c_str b) i = Some j -> p <> 0 ->
      call_spec F (SetText x s) p (<[x := j]> F)
  | spec_set_text_not x s i : F !! x = Some i -> has_flag (ctype i) cJSON_String = false -> call_spec F (SetText x s) 0 F
  | spec_set_text_no_memory x s i old b : F !! x = Some i -> valuestring i = Some old -> rom s = Some b -> zlen (c_str old) < zlen (c_str b) ->
      call_spec F (SetText x s) 0 F
  | spec_has_item o s ov b : F !! o = Some ov -> rom s = Some b ->
      call_spec F (HasItem o s) (answer (bool_decide (is_Some (find_pos false (child ov) b)))) F
  | spec_compare cs a b va vb : F !! a = Some va -> F !! b = Some vb -> a <> b -> call_spec F (Compare cs a b) (answer (equal cs va vb)) F
  | spec_compare_self cs a va : F !! a = Some va -> call_spec F (Compare cs a a) (answer (valid_type (Z.land (ctype va) 255))) F.

(** What a caller has to see to: the items are its own, the parent is not the child, and the
    strings are strings. *)
Definition owned (F : trees) (p : Z) : Prop := is_Some (F !! p).
Definition ready (F : trees) (c : call) : Prop :=
  idle c = true \/
  match c with
  | Create k => is_Some (kind_item k)
  | CreateArrayOf _ _ | Duplicate _ _ => is_Some (creates F c)
  | AddToArray a x => owned F a /\ owned F x
  | AddToObject o s x | AddToObjectCS o s x => owned F o /\ owned F x /\ is_Some (rom s)
  | AddNew o s k => owned F o /\ is_Some (rom s) /\ is_Some (kind_item k)
  | DetachFromArray a _ | DeleteFromArray a _ => owned F a
  | DetachFromObject _ o s | DeleteFromObject _ o s => owned F o /\ is_Some (rom s)
  | Insert a _ x => owned F a /\ owned F x /\ a <> x
  | ReplaceInArray a _ x => owned F a /\ (x = 0 \/ owned F x /\ a <> x)
  | ReplaceInObject _ o s x => owned F o /\ owned F x /\ o <> x /\ is_Some (rom s)
  | Delete x => owned F x
  | SetBool x _ => owned F x
  | SetNumber x d => owned F x /\ exists z, saturate d = Ok z
  | SetText x s => exists i, F !! x = Some i /\ (has_flag (ctype i) cJSON_String = true -> valuestring i <> None /\ is_Some (rom s))
  | HasItem o s => owned F o /\ is_Some (rom s)
  | Compare _ a b => owned F a /\ owned F b
  end.

Fixpoint client_safe (F : trees) (P : client) : Prop :=
  match P with
  | Done => True
  | Do c k => ready F c /\ forall r F', call_spec F c r F' -> client_safe F' (k r)
  end.
Inductive client_spec : trees -> client -> list Z -> trees -> Prop :=
  | client_done F : client_spec F Done [] F
  | client_do F c k r F1 tr F2 : call_spec F c r F1 -> client_spec F1 (k r) tr F2 -> client_spec F (Do c k) (r :: tr) F2.
End Calls.
