(* ===== verification/CJsonRefine.v ===== *)
(** The calls of [CJsonClient] on the heap: each one does what [call_spec] says, and so does every
    program made of them. *)
From iris.proofmode Require Import proofmode.
From stdpp Require Import base list numbers gmap fin_maps.
From Stdlib Require Import ZArith Lia SpecFloat.
From S2P Require Import Prelude CJson CFormat CJsonParse CJsonPrint HeapLogic CJsonHeap CJsonItems CJsonCopy CJsonCompare CJsonClient.
Set Warnings "-rewrite-rw".
Open Scope Z_scope.
Open Scope heap_scope.

(** ** Size *)

(** The heap has [n] cells at least. *)
Definition cells (n : nat) : hpropI cell := HProp (fun h => (n <= size h)%nat).
Lemma cells_sep a b : cells a ∗ cells b ⊢ cells (a + b).
Proof. split. intros h (h1 & h2 & -> & Hd & H1 & H2). cbn in *. rewrite map_size_disj_union //. lia. Qed.
Lemma cells_le a b : (a <= b)%nat -> cells b ⊢ cells a.
Proof. intros H. split. cbn. lia. Qed.
Lemma cells_any (P : hpropI cell) : P ⊢ cells 0.
Proof. split. cbn. lia. Qed.
Lemma cells_one p (v : cell) : p ↦ v ⊢ cells 1.
Proof. split. intros h ->. cbn. by rewrite map_size_singleton. Qed.

Section Refine.
Context {alloc : Allocator cell} {aok : AllocatorOk alloc} (rom : Z -> option (list Z)).
Context (rom_apart : forall k h p, malloc_at k h = Some p -> rom p = None) (rom_null : rom 0 = None).
#[local] Abbreviation hProp := (hpropI cell).
#[local] Abbreviation item_own := (item_own rom).
#[local] Abbreviation seg := (seg rom).
#[local] Abbreviation hole := (hole rom).
#[local] Abbreviation body := (body rom).
#[local] Abbreviation kind_item := (kind_item rom).
#[local] Abbreviation makes := (makes rom).
Implicit Types (i j : cJSON) (l : list cJSON) (n : node) (p q x y nx pv : Z) (F : gmap Z cJSON).

Lemma seg_cells l : Forall (fun i => forall p nx pv, item_own p nx pv i ⊢ cells (S (span i))) l ->
  forall pv p nx last, seg pv p l nx last ⊢ cells (spans l).
Proof.
  induction 1 as [|i l Hi _ IH]; intros pv p nx last; [apply cells_any|]. cbn [CJsonItems.seg spans].
  iIntros "(%q & Hi & Hs)". iDestruct (Hi with "Hi") as "Hi". iDestruct (IH with "Hs") as "Hs".
  iDestruct (cells_sep with "[$Hi $Hs]") as "H". iApply (cells_le with "H"). lia.
Qed.
Lemma item_cells i : forall p nx pv, item_own p nx pv i ⊢ cells (S (span i)).
Proof.
  induction i as [i IH] using cJSON_children_ind. intros p nx pv. rewrite item_own_eq span_eq.
  iIntros "(%n & %H & Hp & %Hf & Hv & Hk & [%last Hc])". iDestruct (seg_cells with "Hc") as "Hc"; [done|].
  iDestruct (cells_one with "Hp") as "Hp". iDestruct (cells_any with "Hv") as "Hv". iDestruct (cells_any with "Hk") as "Hk".
  iDestruct (cells_sep with "[$Hv $Hk]") as "Hv". iDestruct (cells_sep with "[$Hv $Hc]") as "Hc".
  iDestruct (cells_sep with "[$Hp $Hc]") as "H". done.
Qed.

(** ** The trees of a program *)
Definition forest F : hProp := ([∗ map] p ↦ i ∈ F, item_own p 0 0 i)%I.

Lemma forest_take F p i : F !! p = Some i -> forest F ⊣⊢ item_own p 0 0 i ∗ forest (delete p F).
Proof. intros E. exact (big_sepM_delete _ _ _ _ E). Qed.
Lemma forest_set F p i : item_own p 0 0 i -∗ forest (delete p F) -∗ forest (<[p := i]> F).
Proof. iIntros "Hi HF". iApply big_sepM_insert_delete. iFrame. Qed.
Lemma forest_fresh F p nx pv i : item_own p nx pv i -∗ forest F -∗ ⟨ p <> 0 /\ F !! p = None ⟩ ∗ item_own p nx pv i ∗ forest F.
Proof.
  iIntros "Hi HF". iDestruct (item_null with "Hi") as "[%Hp Hi]". destruct (F !! p) as [j|] eqn:E; [|by iFrame].
  iEval (rewrite (forest_take _ _ _ E)) in "HF". iDestruct "HF" as "[Hj HF]".
  iDestruct (item_node with "Hi") as (n) "(%H1 & Hi & Hb)". iDestruct (item_node with "Hj") as (m) "(%H2 & Hj & Hc)".
  iDestruct (two_items with "Hi Hj") as "(%Hne & Hi & Hj)". done.
Qed.
Lemma forest_new F p i : item_own p 0 0 i -∗ forest F -∗ ⟨ p <> 0 /\ F !! p = None ⟩ ∗ forest (<[p := i]> F).
Proof.
  iIntros "Hi HF". iDestruct (forest_fresh with "Hi HF") as "(%H & Hi & HF)". iSplitR; [done|]. destruct H as [_ H].
  iApply big_sepM_insert; [done|]. iFrame.
Qed.
Lemma forest_two F a x arr i : a <> x -> F !! a = Some arr -> F !! x = Some i ->
  forest F ⊣⊢ item_own a 0 0 arr ∗ item_own x 0 0 i ∗ forest (delete a (delete x F)).
Proof.
  intros Hne Ea Ex. rewrite (forest_take F x i) // (forest_take (delete x F) a arr); [|by rewrite lookup_delete_ne].
  iSplit; iIntros "($ & $ & $)".
Qed.

(** ** Creating items *)
Lemma makes_kind fuel k i : kind_item k = Some i -> (0 < fuel)%nat -> makes (create_kind rom fuel k) i.
Proof.
  intros E Hf. destruct k as [| | |b| | |d|s|s]; cbn in E; try (injection E as <-; try destruct b; by apply makes_basic).
  - destruct (saturate d) as [z| | |] eqn:Es; [|done..]. injection E as <-. by apply makes_number.
  - apply fmap_Some in E as (b & Es & ->). by apply makes_text.
  - apply fmap_Some in E as (b & Es & ->). by apply makes_text.
Qed.
Lemma add_kind_new fuel o s k : add_kind rom fuel o s k = add_new rom fuel o s (create_kind rom fuel k).
Proof. by destruct k. Qed.
Lemma kind_span k i : kind_item k = Some i -> span i = O.
Proof.
  destruct k as [| | |b| | |d|s|s]; cbn; try (by intros [= <-]).
  - destruct (saturate d); [by intros [= <-]|done..].
  - intros (b & _ & ->)%fmap_Some. done.
  - intros (b & _ & ->)%fmap_Some. done.
Qed.

(** The loop that fills an array: [done] are the items it has. *)
Lemma wp_fill_array {X} (make : X -> HeapLogic.M cell Z) fuel a av numbers vals :
  Forall2 (fun (x : X) i => makes (make x) i) numbers vals -> forall done c last (Φ : option Z -> hProp),
  (spans (done ++ vals) < fuel)%nat -> hole a 0 0 av c -∗ seg 0 c done 0 last -∗
  ((∀ c last, hole a 0 0 av c -∗ seg 0 c (done ++ vals) 0 last -∗ Φ (Some last)) ∧ Φ None) -∗
  wp (fill_array fuel make numbers (length done) a last) Φ.
Proof.
  induction 1 as [|x i numbers vals Hx _ IH]; intros done c last Φ Hf; iIntros "Hh Hd H"; cbn [fill_array].
  - iApply heap_ret. iDestruct "H" as "[H _]". iApply ("H" with "Hh"). by rewrite app_nil_r.
  - iApply heap_bind. iApply Hx. iSplit; last first.
    { iDestruct "H" as "[_ H]". iApply heap_bind. iApply (wp_Delete_hole with "Hh Hd").
      - pose proof (spans_app_l done (i :: vals)). lia.
      - by iApply heap_ret. }
    iIntros (q) "Hi". iDestruct (item_null with "Hi") as "[%Hq Hi]". addr q 0. iApply heap_bind.
    iAssert (⟨ last = 0 <-> done = [] ⟩ ∗ seg 0 c done 0 last)%I with "[Hd]" as "[%Hl Hd]".
    { destruct (decide (done = [])) as [->|Hd]; [iDestruct "Hd" as "%H"; by destruct H as [-> <-]|].
      by iDestruct (seg_ends with "Hd") as "[%H $]"; [|destruct H]. }
    iAssert (wp (if negb (last =? 0) then upd last (set_next q) ;;; upd q (set_prev last) else upd a (set_child q))
      (fun _ => wp (fill_array fuel make numbers (S (length done)) a q) Φ)) with "[-]" as "Hw".
    { iApply (wp_link with "Hh Hd Hi"). iIntros (c') "Hh Hd". rewrite -(last_length done i). iApply (IH with "Hh Hd").
      - by rewrite -app_assoc.
      - by rewrite -app_assoc. }
    destruct (Nat.eqb_spec (length done) 0) as [E|E].
    + apply nil_length_inv in E. by rewrite (proj2 Hl E).
    + rewrite (proj2 (Z.eqb_neq last 0)); [done|]. intros E'. apply E. by rewrite (proj1 Hl E').
Qed.
Lemma makes_array {X} (make : X -> HeapLogic.M cell Z) fuel (numbers : list X) count vals : 0 <= count <= zlen numbers ->
  Forall2 (fun (x : X) i => makes (make x) i) (take (Z.to_nat count) numbers) vals -> (spans vals < fuel)%nat ->
  makes (create_array fuel make (Some numbers) count) (array_of vals).
Proof.
  iIntros (Hc Hv Hf Φ) "H". unfold create_array. rewrite (proj2 (Z.ltb_ge count 0)); [|lia]. iApply heap_bind.
  iApply makes_basic; [done|]. iSplit; [|iDestruct "H" as "[_ H]"; by iApply heap_ret].
  iIntros (a) "Ha". iDestruct (item_null with "Ha") as "[%Ha0 Ha]". addr a 0. rewrite (proj2 (Z.ltb_ge (zlen numbers) count)); [|lia].
  iEval (rewrite item_hole) in "Ha". iDestruct "Ha" as (c) "[Hh [%last0 Hc]]". iDestruct "Hc" as "%E". destruct E as [-> _].
  iApply heap_bind. iApply (wp_fill_array _ _ _ _ _ _ Hv [] 0 0 with "Hh []"); [done|done|]. iSplit; last first.
  { iDestruct "H" as "[_ H]". by iApply heap_ret. }
  iIntros (c last) "Hh Hs". iDestruct "H" as "[H _]".
  iDestruct (hole_node with "Hh") as (n) "(%Hn & Hn & Hh)". destruct Hn as (_ & <- & _). rd "Hn".
  iDestruct ("Hh" $! (n_child n) with "[Hn]") as "Hh"; [by rewrite set_child_same|].
  iDestruct (seg_null with "Hs") as "[%Hnull Hs]". iApply heap_bind. destruct (Z.eqb_spec (n_child n) 0) as [E|E]; cbn [negb].
  - iApply heap_ret. iApply heap_ret. iApply "H". cbn [app] in *. rewrite (proj1 Hnull E). iDestruct "Hs" as "%H". destruct H as [_ <-].
    iApply (hole_close _ _ _ _ _ _ [] 0 with "Hh"). rewrite E. done.
  - iApply (wp_first_prev with "Hs"); [by intros H; apply E, Hnull|]. iIntros "Hs". iApply heap_ret. iApply "H".
    iApply (hole_close with "Hh"). done.
Qed.

Lemma spans_leaves l : Forall (fun i => span i = O) l -> spans l = length l.
Proof. induction 1 as [|i l Hi _ IH]; cbn; [done|]. by rewrite Hi IH. Qed.
Lemma kinds_leaves ks vals : mapM kind_item ks = Some vals -> spans vals = length ks.
Proof.
  intros E. apply mapM_Some in E. rewrite spans_leaves; [by rewrite (Forall2_length _ _ _ E)|].
  induction E as [|k i ks vals Hk _ IH]; constructor; [by apply (kind_span k)|done].
Qed.
Lemma makes_elements {X} (make : X -> HeapLogic.M cell Z) (f : X -> kind) (l : list X) (vals : list cJSON) :
  (forall (y : X) i, kind_item (f y) = Some i -> makes (make y) i) -> forall n : nat,
  mapM kind_item (take n (map f l)) = Some vals -> Forall2 (fun (y : X) i => makes (make y) i) (take n l) vals.
Proof.
  intros Hm. revert vals. induction l as [|y l IH]; intros vals [|n] E; try (injection E as <-; constructor). cbn in E.
  apply bind_Some in E as (i & Ei & E). apply bind_Some in E as (l2 & El2 & E). injection E as <-. constructor; [by apply Hm|by apply IH].
Qed.
Lemma makes_array_of fuel e count i : creates rom ∅ (CreateArrayOf e count) = Some i -> (length (element_kinds e) < fuel)%nat ->
  makes (run_call rom fuel (CreateArrayOf e count)) i.
Proof.
  cbn [creates]. intros E Hf. destruct (Z.ltb_spec count 0) as [|Hc]; [done|]. destruct (Z.ltb_spec (zlen (element_kinds e)) count) as [|Hl]; [done|].
  cbn [orb] in E. apply fmap_Some in E as (vals & E & ->). assert (Hs : (spans vals < fuel)%nat).
  { rewrite (kinds_leaves _ _ E) length_take. lia. }
  destruct e as [l|l|l|l]; cbn [element_kinds run_call] in *; (apply makes_array; [unfold zlen in *; rewrite ?length_map in Hl; lia| |done]);
    (eapply makes_elements; [|exact E]); intros y i Ey; apply (makes_kind fuel _ _ Ey); lia.
Qed.

(** ** What a call does to the trees *)
Definition post F (c : call) (r : Z) : hProp := (∃ F', ⟨ call_spec rom F c r F' ⟩ ∗ forest F')%I.
Lemma post_intro F c r F' : call_spec rom F c r F' -> forest F' -∗ post F c r.
Proof. iIntros (H) "HF". iExists F'. by iFrame. Qed.

Lemma run_idle fuel c : idle c = true -> forall s, run_call rom (S fuel) c s = Ok (0, s).
Proof.
  intros H s. destruct c as [| e| | | | | |[]| |[]| | |[]| | | | | | |]; try destruct e; cbn [idle] in H; repeat (apply orb_true_iff in H as [H|H]); try discriminate;
    unfold run_call, yes_no, no_answer, cJSON_CreateIntArray, cJSON_CreateFloatArray, cJSON_CreateDoubleArray, cJSON_CreateStringArray, create_array,
      cJSON_AddItemToArray, add_item_to_array, cJSON_AddItemToObject, cJSON_AddItemToObjectCS, add_item_to_object,
      cJSON_DeleteItemFromArray, cJSON_DeleteItemFromObject, cJSON_DeleteItemFromObjectCaseSensitive,
      cJSON_DetachItemFromArray, cJSON_DetachItemFromObject, cJSON_DetachItemFromObjectCaseSensitive, cJSON_InsertItemInArray, cJSON_ReplaceItemInArray, cJSON_ReplaceItemInObject,
      cJSON_ReplaceItemInObjectCaseSensitive, replace_item_in_object, cJSON_GetObjectItem, cJSON_GetObjectItemCaseSensitive, get_object_item,
      get_array_item, cJSON_DetachItemViaPointer, cJSON_ReplaceItemViaPointer, cJSON_HasObjectItem, cJSON_GetObjectItem, get_object_item, cJSON_SetBoolValue, bind, ret;
    cbn [cJSON_Duplicate cJSON_Delete cJSON_Compare];
    rewrite ?H ?orb_true_r; cbn [orb fst snd rbind]; rewrite ?H ?orb_true_r; try reflexivity; try by destruct (_ <? 0).
  destruct (_ <? 0); cbn; [done|]. unfold add_item_to_array. by rewrite H orb_true_r.
Qed.

(** ** Taking a child out *)
Lemma wp_detach_in F a arr k x i (Φ : Z -> hProp) : child arr !! k = Some i ->
  focus rom a 0 0 arr k x i -∗ forest (delete a F) -∗
  (⟨ x <> 0 /\ <[a := remove_at k arr]> F !! x = None ⟩ -∗ item_own x 0 0 i -∗ forest (<[a := remove_at k arr]> F) -∗ Φ x) -∗
  wp (cJSON_DetachItemViaPointer a x) Φ.
Proof.
  iIntros (Ek) "Hfoc HF HΦ". iApply (wp_detach with "Hfoc"); [done|]. iIntros "Ha Hi".
  iDestruct (forest_set with "Ha HF") as "HF". iDestruct (forest_fresh with "Hi HF") as "(%H & Hi & HF)". iApply ("HΦ" with "[//] Hi HF").
Qed.
(** The call that takes the child out, in the two kinds of calls. *)
Definition detach_part (fuel : nat) (c : call) : HeapLogic.M cell Z :=
  match c with
  | DetachFromArray a w | DeleteFromArray a w => cJSON_DetachItemFromArray a w
  | DetachFromObject true o s | DeleteFromObject true o s => cJSON_DetachItemFromObjectCaseSensitive rom fuel o s
  | DetachFromObject false o s | DeleteFromObject false o s => cJSON_DetachItemFromObject rom fuel o s
  | _ => ret 0
  end.
Lemma detach_null a s : cJSON_DetachItemViaPointer a 0 s = Ok (0, s).
Proof. unfold cJSON_DetachItemViaPointer. by rewrite Z.eqb_refl orb_true_r. Qed.
Lemma wp_detach_object F fuel cs o s b ov (Φ : Z -> hProp) : F !! o = Some ov -> rom s = Some b -> (length (child ov) <= fuel)%nat ->
  forest F -∗
  match find_pos cs (child ov) b with
  | None => forest F -∗ Φ 0
  | Some k => ∀ x i, ⟨ child ov !! k = Some i /\ x <> 0 /\ <[o := remove_at k ov]> F !! x = None ⟩ -∗ item_own x 0 0 i -∗
      forest (<[o := remove_at k ov]> F) -∗ Φ x
  end -∗ wp (let! z := get_object_item rom fuel o s cs in cJSON_DetachItemViaPointer o z) Φ.
Proof.
  iIntros (Eo Es Hf) "HF HΦ". iEval (rewrite (forest_take _ _ _ Eo)) in "HF". iDestruct "HF" as "[Ho HF]".
  iApply heap_bind. iApply (wp_get_object_item with "Ho"); [done..|]. destruct (find_pos cs (child ov) b) as [k|].
  - iIntros (i x) "%Hk Hfoc". iApply (wp_detach_in with "Hfoc HF"); [done|]. iIntros "%Hx". iApply "HΦ". by destruct Hx.
  - iIntros "Ho". iApply wp_pure; [apply detach_null|]. iApply "HΦ". rewrite (forest_take _ _ _ Eo). iFrame.
Qed.
Lemma wp_selected F fuel c a k (Φ : Z -> hProp) : (forall p i, F !! p = Some i -> (span i < fuel)%nat) -> selects rom F c = Some (a, k) ->
  forest F -∗
  match k with
  | None => forest F -∗ Φ 0
  | Some k => ∀ x i arr, ⟨ F !! a = Some arr /\ child arr !! k = Some i /\ x <> 0 /\ <[a := remove_at k arr]> F !! x = None ⟩ -∗ item_own x 0 0 i -∗
      forest (<[a := remove_at k arr]> F) -∗ Φ x
  end -∗ wp (detach_part fuel c) Φ.
Proof.
  intros Hfuel Hsel.
  assert (Harr : forall a0 w arr, F !! a0 = Some arr -> a0 = a -> (if w <? 0 then None else k ← Some (Z.to_nat w); i ← child arr !! k; Some k) = k ->
    forest F -∗ match k with
    | None => forest F -∗ Φ 0
    | Some k => ∀ x i arr, ⟨ F !! a = Some arr /\ child arr !! k = Some i /\ x <> 0 /\ <[a := remove_at k arr]> F !! x = None ⟩ -∗ item_own x 0 0 i -∗
        forest (<[a := remove_at k arr]> F) -∗ Φ x
    end -∗ wp (cJSON_DetachItemFromArray a0 w) Φ).
  { iIntros (a0 w arr Ea -> Ek) "HF HΦ". unfold cJSON_DetachItemFromArray. destruct (w <? 0); [subst k; iApply heap_ret; by iApply "HΦ"|]. cbn in Ek.
    iEval (rewrite (forest_take _ _ _ Ea)) in "HF". iDestruct "HF" as "[Ha HF]". iApply heap_bind. iApply (wp_get_array_item with "Ha").
    destruct (child arr !! Z.to_nat w) as [i|] eqn:Ei; cbn in Ek; subst k.
    - iIntros (x) "Hfoc". iApply (wp_detach_in with "Hfoc HF"); [done|]. iIntros "%Hx". iApply "HΦ". by destruct Hx.
    - iIntros "Ha". iApply wp_pure; [apply detach_null|]. iApply "HΦ". rewrite (forest_take _ _ _ Ea). iFrame. }
  assert (Hobj : forall cs o s b ov, F !! o = Some ov -> rom s = Some b -> o = a -> find_pos cs (child ov) b = k ->
    forest F -∗ match k with
    | None => forest F -∗ Φ 0
    | Some k => ∀ x i arr, ⟨ F !! a = Some arr /\ child arr !! k = Some i /\ x <> 0 /\ <[a := remove_at k arr]> F !! x = None ⟩ -∗ item_own x 0 0 i -∗
        forest (<[a := remove_at k arr]> F) -∗ Φ x
    end -∗ wp (let! z := get_object_item rom fuel o s cs in cJSON_DetachItemViaPointer o z) Φ).
  { iIntros (cs o s b ov Eo Es -> Ek) "HF HΦ". iApply (wp_detach_object with "HF"); [done..| |].
    - pose proof (Hfuel _ _ Eo) as Hf. rewrite span_eq in Hf. pose proof (spans_length (child ov)). lia.
    - rewrite Ek. destruct k as [k|]; [|done]. iIntros (x i) "%H". by iApply "HΦ". }
  destruct c; cbn [selects] in Hsel; try discriminate;
    (apply bind_Some in Hsel as (arr & Ea & Hsel); try apply bind_Some in Hsel as (b & Eb & Hsel)); injection Hsel as E1 E2;
    [eapply Harr| |eapply Harr|]; try done; destruct case_sensitive; by eapply Hobj.
Qed.

(** ** Replacing a child by name *)
Lemma wp_rename x nx pv i s b (Ψ : bool -> hProp) (m : HeapLogic.M cell bool) : rom s = Some b -> item_own x nx pv i -∗
  ((item_own x nx pv (named false (c_str b) i) -∗ wp m Ψ) ∧ (item_own x nx pv (unnamed i) -∗ Ψ false)) -∗
  wp (let! r := get x in
      free_unless (has_flag (n_type r) cJSON_StringIsConst) (n_string r) ;;;
      let! k := cJSON_strdup rom s in
      upd x (set_string k) ;;;
      if k =? 0 then ret false
      else upd x (fun r => set_ntype (Z.ldiff (n_type r) cJSON_StringIsConst) r) ;;; m) Ψ.
Proof.
  iIntros (Es) "Hi H". iDestruct (item_node with "Hi") as (n) "(%Hi & Hi & (_ & Hv & Hk & Hc))". destruct Hi as (Hi & <- & <- & Hf).
  rd "Hi". rewrite (fit_type _ _ Hf). iApply heap_bind. iApply (wp_free_key with "Hk"). iApply heap_bind. iApply wp_strdup_rom; [done..|]. iSplit.
  - iIntros (k) "Hk". iDestruct (str_null with "Hk") as "[%Hk0 Hk]". wr "Hi". destruct (Z.eqb_spec k 0) as [E|E]; [by apply Hk0 in E|].
    wr "Hi". iDestruct "H" as "[H _]". iApply "H". iEval (cbn [n_type set_string]; rewrite (fit_type _ _ Hf)) in "Hi".
    iApply (node_item _ x (set_ntype (Z.ldiff (ctype i) cJSON_StringIsConst) (set_string k n)) with "Hi"); [done|].
    iSplitR; [|iFrame "Hv Hc"; unfold CJsonItems.key_own; by rewrite flag_ldiff_same].
    iPureIntro. destruct Hf as [? ? ? Hr]. constructor; cbn; try done. by rewrite flag_ldiff.
  - wr "Hi". cbn [Z.eqb]. iApply heap_ret. iDestruct "H" as "[_ H]". iApply "H".
    iApply (node_item _ x (set_string 0 n) with "Hi"); [done|]. iSplitR; [|iFrame "Hv Hc"; iApply key_own_none].
    iPureIntro. destruct Hf. by constructor.
Qed.
Lemma wp_replace_in_object fuel cs o ov x i s b (Φ : bool -> hProp) : rom s = Some b -> (span ov < fuel)%nat ->
  item_own o 0 0 ov -∗ item_own x 0 0 i -∗
  (match find_pos cs (child ov) b with
   | None => item_own o 0 0 ov -∗ item_own x 0 0 (named false (c_str b) i) -∗ Φ false
   | Some k => item_own o 0 0 (replace_at k (named false (c_str b) i) ov) -∗ Φ true
   end ∧ (item_own o 0 0 ov -∗ item_own x 0 0 (unnamed i) -∗ Φ false)) -∗
  wp (replace_item_in_object rom fuel o s x cs) Φ.
Proof.
  iIntros (Es Hf) "Ho Hi H". iDestruct (item_null with "Ho") as "[%Ho Ho]". iDestruct (item_null with "Hi") as "[%Hi Hi]".
  unfold replace_item_in_object. assert (s <> 0) by (intros ->; congruence). addr x 0. addr s 0. cbn [orb].
  rewrite span_eq in Hf. pose proof (spans_length (child ov)) as Hlen.
  iApply (wp_rename with "Hi"); [done|]. iSplit; last first.
  { iDestruct "H" as "[_ H]". by iApply "H". }
  iDestruct "H" as "[H _]". iIntros "Hi". iApply heap_bind. iApply (wp_get_object_item with "Ho"); [done..|lia|].
  destruct (find_pos cs (child ov) b) as [k|].
  - iIntros (e y) "%Hk Hfoc". iApply (wp_replace with "Hfoc Hi"); [done| |done]. pose proof (spans_lookup _ _ _ Hk). lia.
  - iIntros "Ho". iApply wp_pure; [|by iApply ("H" with "Ho")]. intros st. unfold cJSON_ReplaceItemViaPointer. by rewrite Z.eqb_refl !orb_true_r.
Qed.

(** ** Each call *)
Lemma wp_made F c m i : makes m i -> creates rom F c = Some i -> forest F -∗ wp m (post F c).
Proof.
  iIntros (Hm Ec) "HF". iApply Hm. iSplit.
  - iIntros (p) "Hi". iDestruct (forest_new with "Hi HF") as "[%H HF]". destruct H. iApply (post_intro with "HF"). by apply spec_create.
  - iApply (post_intro with "HF"). by apply (spec_no_memory _ _ _ i).
Qed.
Lemma wp_duplicated F fuel x (recurse : bool) i : F !! x = Some i -> (span i < fuel)%nat ->
  forest F -∗ wp (cJSON_Duplicate rom fuel x recurse) (post F (Duplicate x recurse)).
Proof.
  iIntros (Ex Hf) "HF". iEval (rewrite (forest_take _ _ _ Ex)) in "HF". iDestruct "HF" as "[Hx HF]".
  assert (Ec : creates rom F (Duplicate x recurse) = Some (if recurse then copy i else copy_top i)) by (cbn; by rewrite Ex).
  iApply (wp_Duplicate with "Hx"); [done..|]. iSplit.
  - iIntros (q) "Hx Hq". iDestruct (forest_take _ _ _ Ex with "[$Hx $HF]") as "HF". iDestruct (forest_new with "Hq HF") as "[%H HF]". destruct H.
    iApply (post_intro with "HF"). by apply spec_create.
  - iIntros "Hx". iDestruct (forest_take _ _ _ Ex with "[$Hx $HF]") as "HF". iApply (post_intro with "HF"). by eapply spec_no_memory.
Qed.
(** Two trees become one. *)
Lemma wp_joined F c m a x arr i : a <> x -> F !! a = Some arr -> F !! x = Some i ->
  (forall Φ : bool -> hProp, item_own a 0 0 arr -∗ item_own x 0 0 i -∗
     (∀ b, (∃ arr', ⟨ b = true /\ call_spec rom F c 1 (<[a := arr']> (delete x F)) ⟩ ∗ item_own a 0 0 arr') ∨
        (∃ i', ⟨ b = false /\ call_spec rom F c 0 (<[x := i']> F) ⟩ ∗ item_own a 0 0 arr ∗ item_own x 0 0 i') -∗ Φ b) -∗ wp m Φ) ->
  forest F -∗ wp (yes_no m) (post F c).
Proof.
  iIntros (Hne Ea Ex Hm) "HF". iDestruct (forest_two _ _ _ _ _ Hne Ea Ex with "HF") as "(Ha & Hx & HF)". iApply heap_bind.
  iApply (Hm with "Ha Hx"). iIntros (b) "[(%arr' & %H & Ha)|(%i' & %H & Ha & Hx)]"; destruct H as [-> H]; iApply heap_ret.
  - iApply (post_intro with "[Ha HF]"); [done|]. by iApply (forest_set with "Ha").
  - iApply (post_intro with "[Ha Hx HF]"); [done|].
    iDestruct (forest_set (delete x F) with "Ha HF") as "HF". rewrite insert_id; [|by rewrite lookup_delete_ne]. by iApply (forest_set with "Hx").
Qed.
Lemma wp_added F a x arr i : a <> x -> F !! a = Some arr -> F !! x = Some i ->
  forest F -∗ wp (yes_no (cJSON_AddItemToArray a x)) (post F (AddToArray a x)).
Proof.
  intros Hne Ea Ex. apply (wp_joined _ _ _ _ _ _ _ Hne Ea Ex). iIntros (Φ) "Ha Hx HΦ".
  iApply (wp_add_item_to_array with "Ha Hx"). iIntros "Ha". iApply "HΦ". iLeft. iExists _. iFrame "Ha". iPureIntro. split; [done|]. by apply spec_add.
Qed.
Lemma wp_added_object F o s x ov i b : o <> x -> F !! o = Some ov -> F !! x = Some i -> rom s = Some b ->
  forest F -∗ wp (yes_no (cJSON_AddItemToObject rom o s x)) (post F (AddToObject o s x)).
Proof.
  intros Hne Eo Ex Es. apply (wp_joined _ _ _ _ _ _ _ Hne Eo Ex). iIntros (Φ) "Ho Hx HΦ".
  iApply (wp_add_item_to_object with "Ho Hx"); [done..|]. iSplit.
  - iIntros "Ho". iApply "HΦ". iLeft. iExists _. iFrame "Ho". iPureIntro. split; [done|]. by apply spec_add_object.
  - iIntros "Ho Hx". iApply "HΦ". iRight. iExists i. iFrame. iPureIntro. split; [done|]. rewrite insert_id //. apply spec_add_object_no_memory.
Qed.
Lemma wp_added_object_cs F o s x ov i b : o <> x -> F !! o = Some ov -> F !! x = Some i -> rom s = Some b ->
  forest F -∗ wp (yes_no (cJSON_AddItemToObjectCS rom o s x)) (post F (AddToObjectCS o s x)).
Proof.
  intros Hne Eo Ex Es. apply (wp_joined _ _ _ _ _ _ _ Hne Eo Ex). iIntros (Φ) "Ho Hx HΦ".
  iApply (wp_add_item_to_object with "Ho Hx"); [done..|]. iSplit; [|done].
  iIntros "Ho". iApply "HΦ". iLeft. iExists _. iFrame "Ho". iPureIntro. split; [done|]. by apply spec_add_object_cs.
Qed.
Lemma wp_added_new F fuel o s k ov i b : F !! o = Some ov -> rom s = Some b -> kind_item k = Some i -> (0 < fuel)%nat ->
  forest F -∗ wp (add_kind rom fuel o s k) (post F (AddNew o s k)).
Proof.
  iIntros (Eo Es Ek Hf) "HF". rewrite add_kind_new. iDestruct (forest_take _ _ _ Eo with "HF") as "[Ho HF]".
  iApply (wp_add_new with "Ho"); [done..|by apply makes_kind|done|by rewrite (kind_span _ _ Ek)|]. iSplit.
  - iIntros (p) "%Hp Ho". iApply (post_intro with "[Ho HF]"); [|by iApply (forest_set with "Ho")]. by apply spec_add_new.
  - iIntros "Ho". iApply (post_intro with "[Ho HF]"); [apply spec_add_new_no_memory|]. iApply (forest_take _ _ _ Eo). iFrame.
Qed.
Lemma wp_detached F fuel c a k : (forall p i, F !! p = Some i -> (span i < fuel)%nat) -> selects rom F c = Some (a, k) -> detaches c = true ->
  forest F -∗ wp (detach_part fuel c) (post F c).
Proof.
  iIntros (Hf Es Hd) "HF". iApply (wp_selected with "HF"); [done..|]. destruct k as [k|].
  - iIntros (x i arr) "%H Hx HF". destruct H as (Ea & Ei & Hx & Hn). iDestruct (forest_new with "Hx HF") as "[_ HF]".
    iApply (post_intro with "HF"). apply (spec_detach _ _ _ a k x arr i); try done.
    destruct (decide (x = a)) as [->|]; [by rewrite lookup_insert_eq in Hn|by rewrite lookup_insert_ne in Hn].
  - iIntros "HF". iApply (post_intro with "HF"). by eapply spec_absent.
Qed.
Lemma wp_deleted_from F fuel c a k : (forall p i, F !! p = Some i -> (span i < fuel)%nat) -> selects rom F c = Some (a, k) -> detaches c = false ->
  forest F -∗ wp (no_answer (let! z := detach_part fuel c in cJSON_Delete fuel z)) (post F c).
Proof.
  iIntros (Hf Es Hd) "HF". iApply heap_bind. iApply heap_bind. iApply (wp_selected with "HF"); [done..|]. destruct k as [k|].
  - iIntros (x i arr) "%H Hx HF". destruct H as (Ea & Ei & Hx & Hn). iApply (wp_Delete_item with "Hx").
    + pose proof (Hf _ _ Ea) as H. rewrite span_eq in H. pose proof (spans_lookup _ _ _ Ei). lia.
    + iApply heap_ret. iApply (post_intro with "HF"). by apply (spec_delete_from _ _ _ a k arr).
  - iIntros "HF". destruct fuel; (iApply heap_ret; iApply heap_ret; iApply (post_intro with "HF"); by eapply spec_absent).
Qed.
Lemma wp_inserted F a w x arr i : 0 <= w -> a <> x -> F !! a = Some arr -> F !! x = Some i ->
  forest F -∗ wp (yes_no (cJSON_InsertItemInArray a w x)) (post F (Insert a w x)).
Proof.
  intros Hw Hne Ea Ex. apply (wp_joined _ _ _ _ _ _ _ Hne Ea Ex). iIntros (Φ) "Ha Hx HΦ".
  iApply (wp_insert_item with "Ha Hx"). rewrite (proj2 (Z.ltb_ge w 0)) //. iIntros "Ha". iApply "HΦ". iLeft. iExists _. iFrame "Ha".
  iPureIntro. split; [done|]. by apply (spec_insert _ _ a w x arr i).
Qed.
Lemma wp_replaced F fuel a w x arr i : 0 <= w -> a <> x -> F !! a = Some arr -> F !! x = Some i -> (span arr < fuel)%nat ->
  forest F -∗ wp (yes_no (cJSON_ReplaceItemInArray fuel a w x)) (post F (ReplaceInArray a w x)).
Proof.
  intros Hw Hne Ea Ex Hf. apply (wp_joined _ _ _ _ _ _ _ Hne Ea Ex). iIntros (Φ) "Ha Hx HΦ".
  unfold cJSON_ReplaceItemInArray. rewrite (proj2 (Z.ltb_ge w 0)) //. iApply heap_bind. iApply (wp_get_array_item with "Ha").
  destruct (child arr !! Z.to_nat w) as [e|] eqn:Ee.
  - iIntros (z) "Hz". iApply (wp_replace with "Hz Hx"); [done| |].
    + rewrite span_eq in Hf. pose proof (spans_lookup _ _ _ Ee). lia.
    + iIntros "Ha". iApply "HΦ". iLeft. iExists _. iFrame "Ha". iPureIntro. split; [done|]. apply (spec_replace _ _ a w x arr i); try done.
      apply lookup_lt_Some in Ee. unfold zlen. lia.
  - iIntros "Ha". iApply wp_pure; [intros s; unfold cJSON_ReplaceItemViaPointer; by rewrite Z.eqb_refl !orb_true_r|]. iApply "HΦ". iRight.
    iExists i. iFrame. iPureIntro. split; [done|]. rewrite insert_id //. apply (spec_replace_absent _ _ a w x arr); [done|right].
    apply lookup_ge_None in Ee. unfold zlen. lia.
Qed.
(** With no item to put in, as when it could not be created. *)
Lemma wp_replaced_null F fuel a w arr : 0 <= w -> F !! a = Some arr ->
  forest F -∗ wp (yes_no (cJSON_ReplaceItemInArray fuel a w 0)) (post F (ReplaceInArray a w 0)).
Proof.
  iIntros (Hw Ea) "HF". iDestruct (forest_take _ _ _ Ea with "HF") as "[Ha HF]".
  unfold cJSON_ReplaceItemInArray. rewrite (proj2 (Z.ltb_ge w 0)) //. iApply heap_bind. iApply heap_bind. iApply (wp_get_array_item with "Ha").
  assert (Hend : ⊢ ∀ z, forest F -∗ wp (cJSON_ReplaceItemViaPointer fuel a z 0) (fun b => wp (ret (answer b)) (post F (ReplaceInArray a w 0)))).
  { iIntros (z) "HF". iApply wp_pure; [intros s; unfold cJSON_ReplaceItemViaPointer; by rewrite Z.eqb_refl !orb_true_r|]. iApply heap_ret.
    iApply (post_intro with "HF"). apply (spec_replace_absent _ _ a w 0 arr); [done|by left]. }
  destruct (child arr !! Z.to_nat w) as [e|] eqn:Ee.
  - iIntros (z) "Hz". iApply Hend. iApply (forest_take _ _ _ Ea). iFrame "HF". by iApply (focus_close with "Hz").
  - iIntros "Ha". iApply Hend. iApply (forest_take _ _ _ Ea). iFrame.
Qed.
Lemma wp_replaced_object F fuel cs o s x ov i b : o <> x -> F !! o = Some ov -> F !! x = Some i -> rom s = Some b -> (span ov < fuel)%nat ->
  forest F -∗ wp (yes_no (replace_item_in_object rom fuel o s x cs)) (post F (ReplaceInObject cs o s x)).
Proof.
  intros Hne Eo Ex Es Hf. apply (wp_joined _ _ _ _ _ _ _ Hne Eo Ex). iIntros (Φ) "Ho Hx HΦ".
  iApply (wp_replace_in_object with "Ho Hx"); [done..|]. iSplit.
  - destruct (find_pos cs (child ov) b) as [k|] eqn:Ek.
    + iIntros "Ho". iApply "HΦ". iLeft. iExists _. iFrame "Ho". iPureIntro. split; [done|]. by apply (spec_replace_object _ _ cs o s x ov i b k).
    + iIntros "Ho Hx". iApply "HΦ". iRight. iExists _. iFrame. iPureIntro. split; [done|]. by apply (spec_replace_object_absent _ _ cs o s x ov i b).
  - iIntros "Ho Hx". iApply "HΦ". iRight. iExists _. iFrame. iPureIntro. split; [done|]. by apply spec_replace_object_no_memory.
Qed.
Lemma wp_deleted F fuel x i : F !! x = Some i -> (span i < fuel)%nat -> forest F -∗ wp (no_answer (cJSON_Delete fuel x)) (post F (Delete x)).
Proof.
  iIntros (Ex Hf) "HF". iDestruct (forest_take _ _ _ Ex with "HF") as "[Hx HF]". iApply heap_bind. iApply (wp_Delete_item with "Hx"); [done|].
  iApply heap_ret. iApply (post_intro with "HF"). by eapply spec_delete.
Qed.

(** ** Values *)
Lemma forest_update F x i : F !! x = Some i -> forest F -∗ ∃ n, ⟨ x <> 0 /\ fits n i ⟩ ∗ x ↦ Node n ∗ body n i ∗
  (∀ m j, ⟨ n_next m = n_next n /\ n_prev m = n_prev n ⟩ -∗ x ↦ Node m -∗ body m j -∗ forest (<[x := j]> F)).
Proof.
  iIntros (Ex) "HF". iDestruct (forest_take _ _ _ Ex with "HF") as "[Hx HF]". iDestruct (item_node with "Hx") as (n) "(%H & Hn & Hb)".
  destruct H as (Hx & Hnx & Hpv & Hfit). iExists n. iFrame "Hn Hb". iSplitR; [done|]. iIntros (m j) "%H Hn Hb". destruct H as [H1 H2].
  iDestruct (node_item with "Hn Hb") as "Hx"; [done|]. iEval (rewrite H1 H2 Hnx Hpv) in "Hx". by iApply (forest_set with "Hx").
Qed.
Lemma wp_number_set F x d i z : F !! x = Some i -> saturate d = Ok z ->
  forest F -∗ wp (no_answer (let! _ := cJSON_SetNumberHelper x d in ret tt)) (post F (SetNumber x d)).
Proof.
  iIntros (Ex Ez) "HF". iDestruct (forest_update _ _ _ Ex with "HF") as (n) "(%H & Hx & Hb & Hback)". destruct H as [Hx Hfit].
  unfold cJSON_SetNumberHelper. do 3 iApply heap_bind. iApply wp_lift; [done|]. wr "Hx". do 3 iApply heap_ret.
  iApply (post_intro F _ _ (<[x := with_number z d i]> F) with "[-]"); [by apply spec_set_number|].
  iApply ("Hback" $! (set_number z d n) with "[//] Hx"). iDestruct "Hb" as "(_ & $ & $ & $)". iPureIntro. destruct Hfit. by constructor.
Qed.
Lemma wp_bool_set F x b i : F !! x = Some i -> forest F -∗ wp (cJSON_SetBoolValue x b) (post F (SetBool x b)).
Proof.
  iIntros (Ex) "HF". iDestruct (forest_update _ _ _ Ex with "HF") as (n) "(%H & Hx & Hb & Hback)". destruct H as [Hx Hfit].
  unfold cJSON_SetBoolValue. addr x 0. rd "Hx". rewrite (fit_type _ _ Hfit). change (Z.lor cJSON_False cJSON_True) with 3.
  destruct (has_flag (ctype i) 3) eqn:Et.
  - wr "Hx". iApply heap_ret. iApply (post_intro F _ _ (<[x := with_bool b i]> F) with "[-]"); [by apply (spec_set_bool _ _ x b i)|].
    iApply ("Hback" $! (set_ntype (ctype (with_bool b i)) n) (with_bool b i) with "[//] Hx"). iDestruct "Hb" as "(_ & $ & Hk & $)".
    assert (Hflag : forall f, Z.ldiff f 3 = f -> Z.land cJSON_True f = 0 -> Z.land cJSON_False f = 0 -> has_flag (ctype (with_bool b i)) f = has_flag (ctype i) f).
    { intros f H1 H2 H3. cbn [with_bool ctype]. rewrite flag_lor; [by apply flag_ldiff|by destruct b]. }
    iSplitR.
    + iPureIntro. destruct Hfit as [? ? ? Ho]. constructor; try done. by rewrite Hflag.
    + unfold CJsonItems.key_own. by rewrite Hflag.
  - iApply heap_ret. iApply (post_intro F _ _ F with "[-]"); [by apply (spec_set_bool_not _ _ x b i)|].
    iDestruct ("Hback" $! n i with "[//] Hx Hb") as "H". by rewrite insert_id.
Qed.
Lemma wp_text_set F x s i : F !! x = Some i -> (has_flag (ctype i) cJSON_String = true -> valuestring i <> None /\ is_Some (rom s)) ->
  forest F -∗ wp (cJSON_SetValuestring rom x s) (post F (SetText x s)).
Proof.
  iIntros (Ex Ht) "HF". iDestruct (forest_update _ _ _ Ex with "HF") as (n) "(%H & Hx & Hb & Hback)". destruct H as [Hx Hfit].
  unfold cJSON_SetValuestring. rd "Hx". rewrite (fit_type _ _ Hfit) (fit_owned _ _ Hfit) orb_false_r.
  assert (Hsame : x ↦ Node n -∗ body n i -∗
    (∀ m j, ⟨ n_next m = n_next n /\ n_prev m = n_prev n ⟩ -∗ x ↦ Node m -∗ body m j -∗ forest (<[x := j]> F)) -∗ forest F).
  { iIntros "Hx Hb Hback". iDestruct ("Hback" $! n i with "[//] Hx Hb") as "H". by rewrite insert_id. }
  destruct (has_flag (ctype i) cJSON_String) eqn:Etype; cbn [negb]; last first.
  { iApply heap_ret. iDestruct (Hsame with "Hx Hb Hback") as "HF". iApply (post_intro with "HF"). by eapply spec_set_text_not. }
  destruct (Ht eq_refl) as [Hv [b Es]]. iDestruct "Hb" as "(%Hf & Hv & Hk & Hc)". destruct (valuestring i) as [old|] eqn:Eold; [|done].
  assert (Hpost : forall text m, set_text (c_str b) i = Some (with_text text i) -> n_next m = n_next n -> n_prev m = n_prev n ->
      fits m (with_text text i) -> n_string m = n_string n -> n_child m = n_child n -> n_valuestring m <> 0 ->
    x ↦ Node m -∗ str_own rom (n_valuestring m) (Some text) -∗ key_own rom (ctype i) (n_string n) (item_string i) -∗ kids rom (n_child n) (child i) -∗
    (∀ m j, ⟨ n_next m = n_next n /\ n_prev m = n_prev n ⟩ -∗ x ↦ Node m -∗ body m j -∗ forest (<[x := j]> F)) -∗
    post F (SetText x s) (n_valuestring m)).
  { iIntros (text m E1 E2 E3 Hfm E4 E5 Hp) "Hx Hv Hk Hc Hback". iApply (post_intro F _ _ (<[x := with_text text i]> F) with "[-]"); [by eapply spec_set_text|].
    iApply ("Hback" $! m with "[//] Hx"). unfold CJsonItems.body. rewrite E4 E5. by iFrame. }
  iApply heap_bind. iApply wp_get_rom; [done|]. iApply heap_bind. iApply (wp_get_own with "Hv"). iIntros "Hv".
  destruct (Z.leb_spec (zlen (c_str b)) (zlen (c_str old))) as [Hle|Hlt].
  - iDestruct "Hv" as "[%H Hv]". destruct H as [Hv0 Hrom]. iApply heap_bind. iApply (wp_load with "Hv"). iIntros "Hv".
    rewrite (proj2 (Z.eqb_neq s (n_valuestring n))); [|congruence]. iApply heap_bind. iApply (wp_store with "Hv"). iIntros "Hv". iApply heap_ret.
    iApply (Hpost (strcpy old (c_str b)) n with "Hx [Hv] Hk Hc Hback"); try done; [|by destruct Hf|by iFrame].
    unfold set_text. rewrite Etype Eold /= (proj2 (Z.leb_le _ _)) //.
  - iApply heap_bind. iApply wp_strdup_rom; [done..|]. iSplit; last first.
    { cbn [Z.eqb]. iApply heap_ret. iDestruct (Hsame with "Hx [Hv Hk Hc] Hback") as "HF"; [unfold CJsonItems.body; rewrite Eold; by iFrame|]. iApply (post_intro with "HF"). by eapply spec_set_text_no_memory. }
    iIntros (k) "Hnew". iDestruct (str_null with "Hnew") as "[%Hk0 Hnew]". assert (Hk : k <> 0) by (intros E; by apply Hk0 in E). addr k 0.
    iDestruct "Hv" as "[%H Hv]". destruct H as [Hv0 _]. addr (n_valuestring n) 0. cbn [negb]. iApply heap_bind. iApply (wp_free with "Hv"). wr "Hx". iApply heap_ret.
    iApply (Hpost (c_str b) (set_valuestring k n) with "Hx Hnew Hk Hc Hback"); try done; [|by destruct Hf].
    unfold set_text. rewrite Etype Eold /= (proj2 (Z.leb_gt _ _)) //.
Qed.
Lemma wp_has_item F fuel o s ov b : F !! o = Some ov -> rom s = Some b -> (span ov < fuel)%nat ->
  forest F -∗ wp (yes_no (cJSON_HasObjectItem rom fuel o s)) (post F (HasItem o s)).
Proof.
  iIntros (Eo Es Hf) "HF". iDestruct (forest_take _ _ _ Eo with "HF") as "[Ho HF]".
  iAssert (item_own o 0 0 ov -∗ post F (HasItem o s) (answer (bool_decide (is_Some (find_pos false (child ov) b)))))%I with "[HF]" as "Hend".
  { iIntros "Ho". iApply (post_intro F _ _ F with "[-]"); [by apply spec_has_item|]. iApply (forest_take _ _ _ Eo). iFrame. }
  rewrite span_eq in Hf. pose proof (spans_length (child ov)). do 2 iApply heap_bind. iApply (wp_get_object_item with "Ho"); [done..|lia|].
  destruct (find_pos false (child ov) b) as [k|] eqn:Ek.
  - iIntros (i y) "%Hi Hfoc". iApply heap_ret. iApply heap_ret.
    iAssert (⟨ y <> 0 ⟩ ∗ focus rom o 0 0 ov k y i)%I with "[Hfoc]" as "[%Hy Hfoc]".
    { iDestruct "Hfoc" as (c z q last) "(Hh & H1 & Hy & H2)". iDestruct (item_null with "Hy") as "[$ Hy]". iExists c, z, q, last. iFrame. }
    addr y 0. iApply "Hend". by iApply (focus_close with "Hfoc").
  - iIntros "Ho". iApply heap_ret. iApply heap_ret. by iApply "Hend".
Qed.
(** ** Comparing *)
Lemma wp_compared F fuel cs a b va vb : a <> b -> F !! a = Some va -> F !! b = Some vb -> (span va < fuel)%nat -> (span vb < fuel)%nat ->
  forest F -∗ wp (yes_no (cJSON_Compare rom fuel a b cs)) (post F (Compare cs a b)).
Proof.
  iIntros (Hne Ea Eb Hfa Hfb) "HF". iDestruct (forest_two _ _ _ _ _ Hne Ea Eb with "HF") as "(Ha & Hb & HF)". iApply heap_bind.
  iApply (wp_Compare _ cs fuel with "Ha Hb"); [done..|]. iIntros "Ha Hb". iApply heap_ret.
  rewrite (equal_items_depth cs fuel (S (Nat.max (span va) (span vb)))); [|lia..].
  iApply (post_intro F _ _ F with "[-]"); [by apply spec_compare|]. iApply (forest_two _ _ _ _ _ Hne Ea Eb). iFrame.
Qed.
Lemma wp_compared_self F fuel cs a va : F !! a = Some va ->
  forest F -∗ wp (yes_no (cJSON_Compare rom (S fuel) a a cs)) (post F (Compare cs a a)).
Proof.
  iIntros (Ea) "HF". iDestruct (forest_take _ _ _ Ea with "HF") as "[Ha HF]". iDestruct (item_node with "Ha") as (n) "(%H & Hn & Hb)".
  destruct H as (Ha & Hnx & Hpv & Hfit). iApply heap_bind. cbn [cJSON_Compare]. addr a 0. cbn [orb]. rd "Hn". rd "Hn".
  rewrite !Z.eqb_refl (fit_type _ _ Hfit). cbn [negb].
  assert (E : (if negb (valid_type (Z.land (ctype va) 255)) then ret false else ret true) = ret (V := cell) (valid_type (Z.land (ctype va) 255))) by by destruct (valid_type _).
  rewrite E. do 2 iApply heap_ret. iApply (post_intro F _ _ F with "[-]"); [by apply spec_compare_self|]. iApply (forest_take _ _ _ Ea). iFrame "HF".
  iDestruct (node_item with "Hn Hb") as "Ha"; [done|]. by iEval (rewrite Hnx Hpv) in "Ha".
Qed.

Lemma wp_call F fuel c : ready rom F c -> (forall p i, F !! p = Some i -> (span i < S fuel)%nat) -> (call_size c < S fuel)%nat ->
  forest F -∗ wp (run_call rom (S fuel) c) (post F c).
Proof.
  iIntros ([Hc|Hc] Hf Hs) "HF".
  { iApply wp_pure; [by apply run_idle|]. iApply (post_intro with "HF"). by apply spec_idle. }
  destruct (idle c) eqn:Hi.
  { iApply wp_pure; [by apply run_idle|]. iApply (post_intro with "HF"). by apply spec_idle. }
  destruct c as [k|e n|a x|o s x|o s x|o s k|a w|cs o s|a w|cs o s|a w x|a w x|cs o s x|x recurse|x|x d|x b|x s|o s|cs a b]; cbn [idle ready] in *; unfold owned in *.
  - destruct Hc as [i Hk]. iApply (wp_made with "HF"); [|done]. apply makes_kind; [done|lia].
  - destruct Hc as [i Hk]. iApply (wp_made with "HF"); [|done]. by apply makes_array_of.
  - destruct Hc as [[arr Ea] [i Ex]]. apply orb_false_iff in Hi as [_ Hne%Z.eqb_neq]. by iApply (wp_added with "HF").
  - destruct Hc as ([ov Eo] & [i Ex] & [b Es]). apply orb_false_iff in Hi as [_ Hne%Z.eqb_neq]. by iApply (wp_added_object with "HF").
  - destruct Hc as ([ov Eo] & [i Ex] & [b Es]). apply orb_false_iff in Hi as [_ Hne%Z.eqb_neq]. by iApply (wp_added_object_cs with "HF").
  - destruct Hc as ([ov Eo] & [b Es] & [i Ek]). iApply (wp_added_new with "HF"); [done..|lia].
  - destruct Hc as [arr Ea]. iApply (wp_detached F (S fuel) (DetachFromArray a w) with "HF"); [done|by rewrite /= Ea|done].
  - destruct Hc as ([ov Eo] & [b Es]). iDestruct (wp_detached F (S fuel) (DetachFromObject cs o s) with "HF") as "H"; [done|by rewrite /= Eo /= Es|done|].
    by destruct cs.
  - destruct Hc as [arr Ea]. iApply (wp_deleted_from F (S fuel) (DeleteFromArray a w) with "HF"); [done|by rewrite /= Ea|done].
  - destruct Hc as ([ov Eo] & [b Es]). iDestruct (wp_deleted_from F (S fuel) (DeleteFromObject cs o s) with "HF") as "H"; [done|by rewrite /= Eo /= Es|done|].
    by destruct cs.
  - destruct Hc as ([arr Ea] & [i Ex] & Hne). apply orb_false_iff in Hi as [Hw%Z.ltb_ge _]. by iApply (wp_inserted with "HF").
  - destruct Hc as ([arr Ea] & Hc). apply orb_false_iff in Hi as [Hw%Z.ltb_ge _]. destruct Hc as [->|[[i Ex] Hne]].
    + by iApply (wp_replaced_null with "HF").
    + iApply (wp_replaced with "HF"); [done..|by eapply Hf].
  - destruct Hc as ([ov Eo] & [i Ex] & Hne & [b Es]). iDestruct (wp_replaced_object F (S fuel) cs with "HF") as "H"; [done..|by eapply Hf|].
    by destruct cs.
  - destruct Hc as [i0 Hc]. apply fmap_Some in Hc as (i & Ex & _). iApply (wp_duplicated with "HF"); [done|by eapply Hf].
  - destruct Hc as [i Ex]. iApply (wp_deleted with "HF"); [done|by eapply Hf].
  - destruct Hc as ([i Ex] & z & Ez). by iApply (wp_number_set with "HF").
  - destruct Hc as [i Ex]. by iApply (wp_bool_set with "HF").
  - destruct Hc as (i & Ex & Ht). by iApply (wp_text_set with "HF").
  - destruct Hc as ([ov Eo] & [b Es]). iApply (wp_has_item with "HF"); [done..|by eapply Hf].
  - destruct Hc as ([va Ea] & [vb Eb]). destruct (decide (a = b)) as [<-|Hne]; [by iApply (wp_compared_self with "HF")|].
    iApply (wp_compared with "HF"); [done..|by eapply Hf|by eapply Hf].
Qed.

(** ** Programs *)
Lemma forest_fuel F h p i : forest F h -> F !! p = Some i -> (span i < size h)%nat.
Proof.
  intros H E. assert (HF : forest F ⊢ cells (S (span i))); [|exact (entails_in _ _ HF h H)].
  rewrite (forest_take _ _ _ E). iIntros "[Hi HF]". iDestruct (item_cells with "Hi") as "Hi". iDestruct (cells_any with "HF") as "HF".
  iDestruct (cells_sep with "[$Hi $HF]") as "H". iApply (cells_le with "H"). lia.
Qed.
Lemma exec_call F c s : ready rom F c -> forest F (mem s) ->
  exists r s' F', exec rom c s = Ok (r, s') /\ call_spec rom F c r F' /\ forest F' (mem s').
Proof.
  intros Hc HF. destruct s as [h k]. cbn [mem] in HF. unfold exec. cbn [mem]. set (fuel := (size h + call_size c)%nat).
  assert (Hw : forest F ⊢ wp (run_call rom (S fuel) c) (post F c)).
  { apply bi.wand_entails, wp_call; [done| |unfold fuel; lia]. intros p i E. pose proof (forest_fuel F h p i HF E). unfold fuel. lia. }
  destruct (entails_in _ _ Hw h HF ∅ k (map_disjoint_empty_r h)) as (r & h' & k' & E & _ & F' & h1 & h2 & Eh & _ & [E1 Hspec] & HF').
  rewrite !right_id_L in E. change (h1 = ∅) in E1. cbn in Eh. subst. rewrite map_empty_union in E. by exists r, (mkHstate h2 k'), F'.
Qed.
Lemma forest_empty h : forest ∅ h <-> h = ∅.
Proof. unfold forest. assert (H : ([∗ map] p ↦ i ∈ ∅, item_own p 0 0 i) ⊣⊢ emp) by apply big_sepM_empty. by rewrite (equiv_in _ _ H). Qed.

(** C15: Whatever a program does with the tree functions of the cJSON library - creating, naming,
    adding, detaching, inserting, replacing, duplicating and deleting items, in any order, with
    each call chosen after the answers of the earlier ones, and with an allocator that
    may fail at every call - it runs to the end without undefined behaviour, provided that every call
    gets items that the program holds.  Each answer is one that the abstract account of the calls
    allows, and at the end the heap is made up of exactly the trees that the account
    predicts: links, values, names and ownership are right, and nothing is lost.  In
    particular a program that has given everything back leaves an empty heap. *)
Theorem tree_programs_refine P F s : client_safe rom F P -> forest F (mem s) ->
  exists tr s' F', run_client rom P s = Ok (tr, s') /\ client_spec rom F P tr F' /\ forest F' (mem s') /\ (F' = ∅ -> mem s' = ∅).
Proof.
  revert F s. induction P as [|c k IH]; intros F s HP HF.
  - exists [], s, F. split; [done|]. split; [apply client_done|]. split; [done|]. intros ->. by apply forest_empty.
  - destruct HP as [Hc Hk]. destruct (exec_call F c s Hc HF) as (r & s1 & F1 & E & Hspec & HF1).
    destruct (IH r F1 s1 (Hk r F1 Hspec) HF1) as (tr & s2 & F2 & E2 & Hspec2 & HF2 & Hend).
    exists (r :: tr), s2, F2. split; [|split; [by apply (client_do _ _ _ _ _ F1)|done]].
    cbn [run_client]. unfold bind. rewrite E /= E2. done.
Qed.
Lemma forest_null F h : forest F h -> F !! 0 = None.
Proof.
  intros H. destruct (F !! 0) as [i|] eqn:E; [|done]. assert (Hf : forest F ⊢ False); [|by destruct (entails_in _ _ Hf h H)].
  rewrite (forest_take _ _ _ E). iIntros "[Hi HF]". iDestruct (item_null with "Hi") as "[%H0 Hi]". done.
Qed.
Lemma compare_answer F cs a b r F' : call_spec rom F (Compare cs a b) r F' ->
  F' = F /\ ((a = 0 \/ b = 0) /\ r = 0 \/ (exists va vb, F !! a = Some va /\ F !! b = Some vb /\ a <> b /\ r = answer (equal cs va vb)) \/ a = b).
Proof.
  intros H. inversion H; subst; try done; try (split; [done|]).
  - left. split; [|done]. match goal with E : idle _ = true |- _ => apply orb_true_iff in E as [E%Z.eqb_eq|E%Z.eqb_eq]; auto end.
  - right. left. eauto 10.
  - auto.
Qed.

(** An item and its copy.  [cJSON_Duplicate] of any item that the program holds either
    returns null, and then every part it had already copied is freed again and the heap holds
    what it held before; or it returns a new tree, in addition to the old ones, that has the same structure and
    contents.  [cJSON_Compare], which changes nothing, then says that the two are equal, provided that the
    item has only values that can be compared at all: known types, numbers that equal themselves (not a
    NaN), texts where they belong, and no two names of an object that the search takes for the same. *)
Theorem duplicate_compares cs F s p i : F !! p = Some i -> comparable cs i -> forest F (mem s) ->
  exists d r s', run_client rom (Do (Duplicate p true) (fun d => Do (Compare cs p d) (fun _ => Done))) s = Ok ([d; r], s') /\
    (d = 0 /\ r = 0 /\ forest F (mem s') \/ d <> 0 /\ F !! d = None /\ r = 1 /\ forest (<[d := copy i]> F) (mem s')).
Proof.
  intros Ep Hi HF. assert (Hp : p <> 0) by (intros ->; by rewrite (forest_null F _ HF) in Ep).
  destruct (exec_call F (Duplicate p true) s) as (d & s1 & F1 & E1 & H1 & HF1); [right; cbn; by rewrite Ep|done|].
  assert (Hd : d = 0 /\ F1 = F \/ d <> 0 /\ F !! d = None /\ F1 = <[d := copy i]> F).
  { inversion H1; subst; try done; cbn in *; simplify_eq; try by left. right. rewrite Ep in H. by injection H as <-. }
  destruct (exec_call F1 (Compare cs p d) s1) as (r & s2 & F2 & E2 & H2 & HF2); [|done|].
  { destruct Hd as [[-> ->]|(Hd & En & ->)]; [left; by rewrite /= orb_true_r|right]. unfold owned. split; [|by rewrite lookup_insert_eq].
    rewrite lookup_insert_ne; [by exists i|congruence]. }
  exists d, r, s2. split; [cbn [run_client]; unfold bind, ret; rewrite E1; cbn [rbind fst snd]; by rewrite E2|].
  apply compare_answer in H2 as [-> H2]. destruct Hd as [[-> ->]|(Hd & En & ->)].
  - left. destruct H2 as [[_ ->]|[(va & vb & _ & Eb & _)|H2]]; [done| |done]. by rewrite (forest_null F _ HF) in Eb.
  - right. assert (Hpd : p <> d) by congruence. destruct H2 as [[[]]|[(va & vb & Ea & Eb & _ & ->)|]]; [done..| |done].
    rewrite lookup_insert_ne // Ep in Ea. rewrite lookup_insert_eq in Eb. simplify_eq. by rewrite (proj1 (copy_equals cs va Hi)).
Qed.
End Refine.

(** ** A program *)

(** An allocator that gives the addresses from one on, and nothing at the fifth call. *)
#[export] Instance bump : Allocator cell := fun k h =>
  let p := Z.of_nat (S k) in if (k =? 4)%nat then None else match h !! p with None => Some p | Some _ => None end.
#[export] Instance bump_ok : AllocatorOk bump.
Proof. constructor. intros k h p. unfold malloc_at, bump. destruct (k =? 4)%nat; [done|]. destruct (h !! _) eqn:E; [done|]. intros [= <-]. split; [lia|done]. Qed.
Definition names (p : Z) : option (list Z) := if p =? -1 then Some (cstr "on") else None.
Lemma names_apart k h p : malloc_at k h = Some p -> names p = None.
Proof. unfold malloc_at, bump, names. destruct (k =? 4)%nat; [done|]. destruct (h !! _); [done|]. intros [= <-]. by destruct (Z.eqb_spec (Z.of_nat (S k)) (-1)); [lia|]. Qed.

(** An object with one member is copied; both are deleted. *)
Definition copy_and_delete : client :=
  Do (Create KObject) (fun o => if o =? 0 then Done else
    Do (AddNew o (-1) KTrue) (fun _ =>
      Do (Duplicate o true) (fun d =>
        Do (Delete o) (fun _ => Do (Delete d) (fun _ => Done))))).
Example copy_and_delete_runs :
  run_client names copy_and_delete (mkHstate ∅ 0) = Ok ([1; 2; 0; 0; 0], mkHstate ∅ 5).
Proof. vm_compute. reflexivity. Qed.
(** The possible outcomes of a call. *)
Ltac outcomes :=
  let H := fresh in intros ?r ?F' H; inversion H; clear H; repeat (subst; simplify_option_eq); try discriminate.
Lemma copy_safe F o : owned F o -> o <> 0 ->
  client_safe names F (Do (Duplicate o true) (fun d => Do (Delete o) (fun _ => Do (Delete d) (fun _ => Done)))).
Proof.
  intros [i Eo] Ho. split; [right; cbn; rewrite Eo; by eexists|]. outcomes; try by apply Z.eqb_eq in H0.
  - assert (Hro : r <> o) by congruence. split; [right; exists i; by rewrite lookup_insert_ne|]. outcomes; [by apply Z.eqb_eq in H0|].
    split; [right|done]. eexists. rewrite lookup_delete_ne // lookup_insert_eq //.
  - split; [right; by exists i|]. outcomes; (split; [by left|done]).
Qed.
Lemma copy_and_delete_safe : client_safe names ∅ copy_and_delete.
Proof.
  split; [right; cbn; by eexists|]. outcomes; [|done].
  rewrite (proj2 (Z.eqb_neq r 0)) //. split; [right; split; [eexists; by rewrite lookup_insert_eq|by split; eexists]|].
  outcomes; (apply copy_safe; [eexists; by rewrite lookup_insert_eq|done]).
Qed.
Lemma tree_programs_refine_witness : exists tr s' F', run_client names copy_and_delete (mkHstate ∅ 0) = Ok (tr, s') /\
  client_spec names ∅ copy_and_delete tr F' /\ forest names F' (mem s') /\ (F' = ∅ -> mem s' = ∅).
Proof.
  apply (tree_programs_refine names names_apart eq_refl copy_and_delete ∅ (mkHstate ∅ 0)); [exact copy_and_delete_safe|by apply forest_empty].
Defined.

(** An array with one member, as it is laid out, and its copy. *)
Definition ex_cells : gmap Z cell :=
  {[ 1 := Node (set_child 2 (set_ntype cJSON_Array zero_node)); 2 := Node (set_prev 2 (set_ntype cJSON_True zero_node)) ]}.
Lemma ex_forest : forest names {[ 1 := array_of [basic cJSON_True] ]} ex_cells.
Proof.
  assert (H : (1 ↦ Node (set_child 2 (set_ntype cJSON_Array zero_node))) ∗ (2 ↦ Node (set_prev 2 (set_ntype cJSON_True zero_node))) ⊢
    forest names {[ 1 := array_of [basic cJSON_True] ]}).
  { unfold forest. rewrite big_sepM_singleton. iIntros "[H1 H2]".
    iApply (node_item _ 1 (set_child 2 (set_ntype cJSON_Array zero_node)) with "H1"); [done|]. iSplitR; [done|]. iSplitR; [done|]. iSplitR; [done|].
    iExists 2, 0. iSplitL; [|done]. iApply (node_item _ 2 (set_prev 2 (set_ntype cJSON_True zero_node)) with "H2"); [done|]. by iApply body_plain. }
  apply (entails_in _ _ H). eexists {[ 1 := _ ]}, {[ 2 := _ ]}. split; [|split; [|by split]].
  - unfold ex_cells. by rewrite insert_union_singleton_l.
  - by apply map_disjoint_singleton_r; rewrite lookup_singleton_ne.
Qed.
Lemma duplicate_compares_example : exists d r s',
  run_client names (Do (Duplicate 1 true) (fun d => Do (Compare true 1 d) (fun _ => Done))) (mkHstate ex_cells 2) = Ok ([d; r], s') /\
  (d = 0 /\ r = 0 /\ forest names {[ 1 := array_of [basic cJSON_True] ]} (mem s') \/
   d <> 0 /\ ({[ 1 := array_of [basic cJSON_True] ]} : gmap Z cJSON) !! d = None /\ r = 1 /\
   forest names (<[d := copy (array_of [basic cJSON_True])]> {[ 1 := array_of [basic cJSON_True] ]}) (mem s')).
Proof.
  apply (duplicate_compares names names_apart eq_refl true _ (mkHstate ex_cells 2) 1 (array_of [basic cJSON_True])); [reflexivity| |exact ex_forest].
  constructor; [reflexivity|discriminate|intros [H|H]; discriminate H|discriminate|]. constructor; [|constructor].
  constructor; [reflexivity|discriminate|intros [H|H]; discriminate H|discriminate|constructor].
Defined.

(** ** Calls that go wrong

    A position that is taken and no item to insert: [cJSON_InsertItemInArray] writes through the
    null pointer.  The other functions that add an item test it. *)
Example insert_null_item : cJSON_InsertItemInArray 1 0 0 (mkHstate ex_cells 2) = UB.
Proof. reflexivity. Qed.
(** [cJSON_ReplaceItemInObject] with the name that the new item carries already: the name is freed before it
    is copied. *)
Definition ex_named_cells : gmap Z cell :=
  {[ 1 := Node (set_child 2 (set_ntype cJSON_Object zero_node));
     2 := Node (set_string 5 (set_prev 2 (set_ntype cJSON_True zero_node)));
     3 := Node (set_string 4 (set_ntype cJSON_False zero_node));
     4 := Str (cstr "on"); 5 := Str (cstr "on") ]}.
Example replace_by_own_name : cJSON_ReplaceItemInObject names 6 1 4 3 (mkHstate ex_named_cells 5) = UB /\
  (let* r := cJSON_ReplaceItemInObject names 6 1 (-1) 3 (mkHstate ex_named_cells 5) in Ok (fst r)) = Ok true.
Proof. split; vm_compute; reflexivity. Qed.
