(* ===== verification/MsgQueue.v ===== *)
(** Message queues between the processes (util/mq.c, util/mq.h).

    The queues themselves are the kernel's: [MsgService] is its interface
    ([msgget], [msgsnd] and [msgrcv] with [IPC_NOWAIT]) and [MsgServiceOk] states
    what the manual pages promise.  [send_mq], [recv_mq] and [mq_flush] are the
    program's functions on it.  Every process polls with the same loop, which is
    [recv_loop] with the loop body as its argument; [recv_loop_ok] is the rule the
    processes' theorems use.  [ListQueues] is an instance with bounded queues. *)
From S2P Require Import Prelude.
From stdpp Require Import base list numbers gmap.
From Stdlib Require Import ZArith Lia.
Open Scope Z_scope.
Open Scope c_scope.

(** ** Parameters of the whole program (include/params.h) *)
Definition MAX_NODE_ID : Z := 128.
Definition MQ_KEY_MAC_TO_NET : Z := 0x0100.
Definition MQ_KEY_NET_TO_MAC : Z := 0x0200.
Definition MQ_KEY_MAC_TO_PHY : Z := 0x0300.
Definition MQ_KEY_PHY_TO_MAC : Z := 0x0400.
Definition MQ_KEY_NET_COMMAND : Z := 0x0500.
Definition MQ_KEY_PHY_COMMAND : Z := 0x0700.
Definition MQ_KEY_NET_REPORT : Z := 0x0800.
Definition MQ_KEY_PHY_REPORT : Z := 0x0a00.
Definition MESSAGE_TYPE_DATA : Z := 1.
Definition MESSAGE_TYPE_HEARTBEAT : Z := 3.

(** The node ids, in the order the loops over them take. *)
Definition node_ids : list Z := seqZ 0 MAX_NODE_ID.

Lemma in_node_ids nid : In nid node_ids <-> 0 <= nid < 128.
Proof. unfold node_ids. rewrite <- list_elem_of_In, elem_of_seqZ. unfold MAX_NODE_ID. lia. Qed.

Lemma nodup_node_ids : List.NoDup node_ids.
Proof. apply NoDup_ListNoDup, NoDup_seqZ. Qed.

(** ** The message queue wrapper *)
Definition MQ_MAX_DATA_LEN : Z := 5000.
Definition EAGAIN : Z := 11.

(** A message as the kernel keeps it, with a text of its own length, and the
    program's receive buffer, whose text has [MQ_MAX_DATA_LEN] bytes. *)
Record MqMsgbuf : Type := mkMsg { type : Z; text : list Z }.

(** It fits a receive buffer; [msgrcv] fails on a longer one and leaves it. *)
Definition fits (m : MqMsgbuf) : Prop := zlen (text m) <= MQ_MAX_DATA_LEN.

(** [pending] and [room] are no operations: the messages of a queue, oldest
    first, and the fact that it can take so many more. *)
Class MsgService (Q : Type) := {
  msgget : Z -> Z;
  msgsnd : Q -> Z -> MqMsgbuf -> Q * Z;
  msgrcv : Q -> Z -> Q * option MqMsgbuf;
  pending : Q -> Z -> list MqMsgbuf;
  room : Q -> Z -> nat -> Prop
}.

(** [q'] is [q] with what was sent to the queue [id], of [ms], in order: all of
    it if there was room for it. *)
Definition pushed {Q} `{MsgService Q} (q q' : Q) (id : Z) (ms : list MqMsgbuf) : Prop :=
  exists sub, pending q' id = pending q id ++ sub /\ sub `sublist_of` ms /\
    forall k, room q id (length ms + k) -> sub = ms /\ room q' id k.

(** One message was taken from [id], and the other queues are as they were. *)
Definition popped {Q} `{MsgService Q} (q q' : Q) (id : Z) (m : MqMsgbuf) : Prop :=
  pending q id = m :: pending q' id /\
  (forall i, i <> id -> pending q' i = pending q i) /\
  (forall i k, room q i k -> room q' i k).

Class MsgServiceOk (Q : Type) `{MsgService Q} : Prop := {
  msgget_inj : forall k1 k2, msgget k1 = msgget k2 -> k1 = k2;
  msgsnd_ok : forall q id m, let '(q', r) := msgsnd q id m in
    (r = 0 -> pending q' id = pending q id ++ [m]) /\
    (r <> 0 -> pending q' id = pending q id) /\
    (forall k, room q id (S k) -> r = 0 /\ room q' id k) /\
    (forall i, i <> id -> pending q' i = pending q i) /\
    (forall i k, i <> id -> room q i k -> room q' i k);
  msgrcv_ok : forall q id, let '(q', r) := msgrcv q id in
    match r with
    | None => q' = q /\ forall m ms, pending q id = m :: ms -> ~ fits m
    | Some m => popped q q' id m
    end
}.

Section Mq.
Context {Q : Type} `{MsgService Q}.

(** The queues and the return value.  A message longer than the buffer is copied
    all the same. *)
Definition send_mq (q : Q) (mqid : Z) (data : list Z) (len mtype : Z) : res (Q * Z) :=
  if mtype <? 1 then Ok (q, -1)
  else if MQ_MAX_DATA_LEN <? len then UB
  else
    let* t := zslice data 0 len in
    let '(q, ret) := msgsnd q mqid (mkMsg mtype t) in
    if ret =? 0 then Ok (q, 1)
    else if ret =? EAGAIN then Ok (q, 0) else Ok (q, -2).

(** The queues, the length or -1, and the receive buffer: the text behind the
    received bytes stays. *)
Definition recv_mq (q : Q) (mqid : Z) (msg : MqMsgbuf) : Q * Z * MqMsgbuf :=
  match msgrcv q mqid with
  | (q, None) => (q, -1, msg)
  | (q, Some m) => (q, zlen (text m),
                    mkMsg (type m) (text m ++ drop (length (text m)) (text msg)))
  end.

(** [while (1) { res = recv_mq(id, &msg); if (res < 0) break; body }], with the
    state [s] the body changes and a bound on the number of turns. *)
Section Loop.
Context {S : Type} (body : Q -> MqMsgbuf -> Z -> S -> res (Q * S)).

Fixpoint recv_loop (fuel : nat) (q : Q) (mqid : Z) (msg : MqMsgbuf) (s : S)
  : res (Q * S * MqMsgbuf) :=
  let '(q, r, msg) := recv_mq q mqid msg in
  if r <? 0 then Ok (q, s, msg)
  else match fuel with
       | O => NoFuel
       | Datatypes.S n =>
         let* r := body q msg r s in
         let '(q, s) := r in
         recv_loop n q mqid msg s
       end.
End Loop.

(** [junk] is the local buffer. *)
Definition mq_flush (fuel : nat) (q : Q) (mqid : Z) (junk : MqMsgbuf) : res Q :=
  let* r := recv_loop (fun q _ _ s => Ok (q, s)) fuel q mqid junk tt in
  Ok (fst (fst r)).

(** ** Laws of [pushed] *)
Lemma pushed_nil_iff (q q' : Q) i :
  pushed q q' i [] <-> pending q' i = pending q i /\ forall k, room q i k -> room q' i k.
Proof.
  split.
  - intros (sub & E & Hs & Hr). apply sublist_nil_r in Hs as ->. rewrite app_nil_r in E.
    split; [done|]. intros k Hk. by apply Hr.
  - intros [E Hr]. exists []. rewrite app_nil_r. split; [done|]. split; [done|]. intros k Hk.
    split; [done|by apply Hr].
Qed.

Lemma pushed_refl (q : Q) i : pushed q q i [].
Proof. by apply pushed_nil_iff. Qed.

Lemma pushed_app (q q1 q2 : Q) i ms1 ms2 :
  pushed q q1 i ms1 -> pushed q1 q2 i ms2 -> pushed q q2 i (ms1 ++ ms2).
Proof.
  intros (s1 & E1 & Hs1 & Hr1) (s2 & E2 & Hs2 & Hr2). exists (s1 ++ s2).
  split; [by rewrite E2, E1, app_assoc|]. split; [by apply sublist_app|].
  intros k Hk. rewrite length_app, <- Nat.add_assoc in Hk.
  destruct (Hr1 _ Hk) as [-> Hk1]. by destruct (Hr2 _ Hk1) as [-> ?].
Qed.

(** A sequence of steps that only send. *)
Lemma pushed_popped (q q1 q2 : Q) i id m ms :
  i <> id -> popped q q1 id m -> pushed q1 q2 i ms -> pushed q q2 i ms.
Proof.
  intros Hi (_ & Ho & Hr) (sub & E & Hs & Hk). exists sub. rewrite <- Ho by done.
  split; [done|]. split; [done|]. intros k Hroom. apply Hk. by apply Hr.
Qed.

Lemma pushed_room (q q' : Q) i ms :
  pushed q q' i ms -> room q i (length ms) -> pending q' i = pending q i ++ ms.
Proof.
  intros (sub & E & _ & Hk) Hr. rewrite <- (Nat.add_0_r (length ms)) in Hr.
  by destruct (Hk _ Hr) as [-> _].
Qed.

Context {QOk : MsgServiceOk Q}.

Lemma msgsnd_pushed (q : Q) id m :
  pushed q (fst (msgsnd q id m)) id [m] /\ forall i, i <> id -> pushed q (fst (msgsnd q id m)) i [].
Proof.
  pose proof (msgsnd_ok q id m) as Hs. destruct (msgsnd q id m) as [q' r]. cbn [fst].
  destruct Hs as (Hz & Hnz & Hr & Ho & Hro). split.
  - destruct (Z.eq_dec r 0) as [->|Hne].
    + exists [m]. split; [by apply Hz|]. split; [done|]. intros k Hk. cbn in Hk. by destruct (Hr k Hk).
    + exists []. rewrite app_nil_r. split; [by apply Hnz|]. split; [apply sublist_nil_l|].
      intros k Hk. cbn in Hk. by destruct (Hr k Hk).
  - intros i Hi. apply pushed_nil_iff. split; [by apply Ho|]. intros k. by apply Hro.
Qed.

Lemma send_mq_ok (q : Q) id data len mtype t :
  1 <= mtype -> len <= MQ_MAX_DATA_LEN -> zslice data 0 len = Ok t ->
  exists q' r, send_mq q id data len mtype = Ok (q', r) /\
    pushed q q' id [mkMsg mtype t] /\ forall i, i <> id -> pushed q q' i [].
Proof.
  intros Ht Hl Es. unfold send_mq. destruct (Z.ltb_spec mtype 1); [lia|].
  destruct (Z.ltb_spec MQ_MAX_DATA_LEN len); [lia|]. rewrite Es. cbn [rbind].
  destruct (msgsnd_pushed q id (mkMsg mtype t)) as [Hp Ho].
  destruct (msgsnd q id (mkMsg mtype t)) as [q' r]. cbn [fst] in *.
  exists q', (if r =? 0 then 1 else if r =? EAGAIN then 0 else -2).
  split; [by destruct (r =? 0); [|destruct (r =? EAGAIN)]|]. by split.
Qed.

Lemma recv_mq_none (q : Q) id msg : pending q id = [] -> recv_mq q id msg = (q, -1, msg).
Proof.
  intros E. unfold recv_mq. pose proof (msgrcv_ok q id) as Hr.
  destruct (msgrcv q id) as [q' [m|]]; [|by destruct Hr as [-> _]].
  destruct Hr as (Hp & _). congruence.
Qed.

Lemma recv_mq_some (q : Q) id msg m ms : pending q id = m :: ms -> fits m ->
  exists q', recv_mq q id msg = (q', zlen (text m),
      mkMsg (type m) (text m ++ drop (length (text m)) (text msg))) /\
    popped q q' id m /\ pending q' id = ms.
Proof.
  intros E Hfit. unfold recv_mq. pose proof (msgrcv_ok q id) as Hr.
  destruct (msgrcv q id) as [q' [m'|]]; [|by destruct Hr as [_ Hr]; destruct (Hr _ _ E)].
  exists q'. assert (m' = m /\ pending q' id = ms) as [-> ?]; [|done].
  destruct Hr as (Hp & _). rewrite E in Hp. by injection Hp as -> ->.
Qed.

(** The rule for the polling loop.  [next] is what a message does to the state and
    [out] what it sends to each queue; [Inv] relates the state to the messages that
    are still to come.  The loop then empties its queue, in order, within as many
    turns as it had messages. *)
Section LoopRule.
Context {S : Type} (body : Q -> MqMsgbuf -> Z -> S -> res (Q * S)).
Context (id : Z) (next : S -> MqMsgbuf -> S) (out : S -> MqMsgbuf -> Z -> list MqMsgbuf).

Fixpoint all_out (s : S) (ms : list MqMsgbuf) (i : Z) : list MqMsgbuf :=
  match ms with
  | [] => []
  | m :: ms' => out s m i ++ all_out (next s m) ms' i
  end.

Section Run.
Context (Inv : S -> list MqMsgbuf -> Prop).
Hypothesis inv_fits : forall s m ms, Inv s (m :: ms) -> fits m.
Hypothesis body_ok : forall q m ms junk s, Inv s (m :: ms) ->
  exists q', body q (mkMsg (type m) (text m ++ junk)) (zlen (text m)) s = Ok (q', next s m) /\
    Inv (next s m) ms /\ out s m id = [] /\ forall i, pushed q q' i (out s m i).

Lemma recv_loop_inv ms : forall fuel (q : Q) msg s,
  (length ms <= fuel)%nat -> pending q id = ms -> Inv s ms ->
  exists q' msg', recv_loop body fuel q id msg s = Ok (q', fold_left next ms s, msg') /\
    pending q' id = [] /\ Inv (fold_left next ms s) [] /\
    (forall k, room q id k -> room q' id k) /\
    forall i, i <> id -> pushed q q' i (all_out s ms i).
Proof.
  induction ms as [|m ms IH]; intros fuel q msg s Hf Hp Hi.
  - exists q, msg. destruct fuel; cbn [recv_loop]; rewrite (recv_mq_none q id msg) by done;
      cbn; (split; [done|]); (split; [done|]); (split; [done|]); (split; [done|]);
      intros i _; apply pushed_refl.
  - destruct fuel as [|n]; [cbn in Hf; lia|].
    destruct (recv_mq_some q id msg m ms) as (q1 & E & Hpop & Hp1); [done|by eapply inv_fits|].
    cbn [recv_loop]. rewrite E. destruct (Z.ltb_spec (zlen (text m)) 0) as [Hneg|_];
      [pose proof (zlen_nonneg (text m)); lia|].
    destruct (body_ok q1 m ms (drop (length (text m)) (text msg)) s Hi) as (q2 & -> & Hi2 & Ho & Hpu).
    cbn [rbind].
    pose proof (Hpu id) as Hid. rewrite Ho in Hid. apply pushed_nil_iff in Hid as [Hid Hroom].
    destruct (IH n q2 (mkMsg (type m) (text m ++ drop (length (text m)) (text msg))) (next s m))
      as (q3 & msg3 & E3 & Hp3 & Hi3 & Hr3 & Hpu3); [cbn in Hf; lia|congruence|done|].
    exists q3, msg3. split; [done|]. split; [done|]. split; [done|]. split.
    + intros k Hk. apply Hr3, Hroom. by apply Hpop.
    + intros i Hne. cbn [all_out]. eapply pushed_popped; [done|exact Hpop|].
      eapply pushed_app; [apply Hpu|by apply Hpu3].
Qed.
End Run.

(** The same with an invariant of the state and a condition on each message. *)
Context (Inv : S -> Prop) (okm : MqMsgbuf -> Prop).
Hypothesis okm_fits : forall m, okm m -> fits m.
Hypothesis body_ok : forall q m junk s, Inv s -> okm m ->
  exists q', body q (mkMsg (type m) (text m ++ junk)) (zlen (text m)) s = Ok (q', next s m) /\
    Inv (next s m) /\ out s m id = [] /\ forall i, pushed q q' i (out s m i).

Lemma recv_loop_ok ms fuel (q : Q) msg s :
  (length ms <= fuel)%nat -> pending q id = ms -> Inv s -> Forall okm ms ->
  exists q' msg', recv_loop body fuel q id msg s = Ok (q', fold_left next ms s, msg') /\
    pending q' id = [] /\ Inv (fold_left next ms s) /\
    (forall k, room q id k -> room q' id k) /\
    forall i, i <> id -> pushed q q' i (all_out s ms i).
Proof.
  intros Hf Hp Hi Hok.
  destruct (recv_loop_inv (fun s ms => Inv s /\ Forall okm ms)) with
    (ms := ms) (fuel := fuel) (q := q) (msg := msg) (s := s) as (q' & msg' & E & H1 & [H2 _] & H3); try done.
  - intros s' m ms' [_ Hm]. apply Forall_cons_iff in Hm as [Hm _]. by apply okm_fits.
  - intros q' m ms' junk s' [Hs Hm]. apply Forall_cons_iff in Hm as [Hm Hms].
    destruct (body_ok q' m junk s' Hs Hm) as (q2 & E & H1 & H2 & H3). by exists q2.
  - by exists q', msg'.
Qed.
End LoopRule.

(** A loop whose body leaves the queues alone runs its handler [g] on the messages
    in turn, failures included. *)
Lemma recv_loop_pure {S} (g : S -> Z -> list Z -> res S) (id : Z) ms : forall fuel (q : Q) msg (s : S),
  (length ms <= fuel)%nat -> pending q id = ms -> Forall fits ms ->
  (forall s m junk, In m ms -> g s (type m) (text m ++ junk) = g s (type m) (text m)) ->
  let run := rfold (fun s m => g s (type m) (text m)) ms s in
  let loop := recv_loop (fun q msg _ s => let* s := g s (type msg) (text msg) in Ok (q, s)) fuel q id msg s in
  match run with
  | Ok s' => exists q' msg', loop = Ok (q', s', msg') /\ pending q' id = [] /\
      forall i, i <> id -> pushed q q' i []
  | UB => loop = UB
  | Exit c => loop = Exit c
  | NoFuel => loop = NoFuel
  end.
Proof.
  induction ms as [|m ms IH]; intros fuel q msg s Hf Hp Hfit Hg; cbn [rfold].
  - exists q, msg. destruct fuel; cbn [recv_loop]; rewrite (recv_mq_none q id msg) by done;
      (split; [done|]); (split; [done|]); intros i _; apply pushed_refl.
  - destruct fuel as [|n]; [cbn in Hf; lia|]. apply Forall_cons_iff in Hfit as [Hm Hfit].
    destruct (recv_mq_some q id msg m ms) as (q1 & E & Hpop & Hp1); [done..|].
    cbn [recv_loop]. rewrite E. destruct (Z.ltb_spec (zlen (text m)) 0) as [Hneg|_];
      [pose proof (zlen_nonneg (text m)); lia|].
    cbn [type text]. rewrite Hg by by left.
    destruct (g s (type m) (text m)) as [s1| | |]; cbn [rbind]; [|done..].
    assert (Hg' : forall s m' junk, In m' ms -> g s (type m') (text m' ++ junk) = g s (type m') (text m'))
      by (intros; apply Hg; by right).
    specialize (IH n q1 (mkMsg (type m) (text m ++ drop (length (text m)) (text msg))) s1
      ltac:(cbn in Hf; lia) Hp1 Hfit Hg').
    cbn zeta in IH. destruct (rfold _ ms s1) as [s2| | |]; [|done..].
    destruct IH as (q2 & msg2 & E2 & Hp2 & Ho2). exists q2, msg2. split; [done|]. split; [done|].
    intros i Hi. eapply pushed_popped; [done|exact Hpop|]. by apply Ho2.
Qed.

Lemma all_out_nil {S} (next : S -> MqMsgbuf -> S) s ms i : all_out next (fun _ _ _ => []) s ms i = [].
Proof. revert s. induction ms as [|m ms IH]; intros s; [done|]. cbn. apply IH. Qed.

Lemma mq_flush_ok fuel (q : Q) id junk :
  Forall fits (pending q id) ->
  (length (pending q id) <= fuel)%nat ->
  exists q', mq_flush fuel q id junk = Ok q' /\ pending q' id = [] /\
    (forall k, room q id k -> room q' id k) /\ forall i, i <> id -> pushed q q' i [].
Proof.
  intros Hfit Hf. unfold mq_flush.
  destruct (recv_loop_ok (S:=unit) (fun q _ _ s => Ok (q, s)) id (fun s _ => s) (fun _ _ _ => [])
    (fun _ => True) fits) with (ms := pending q id) (fuel := fuel) (q := q) (msg := junk)
    (s := tt) as (q' & msg' & E & Hp & _ & Hr & Ho); try done.
  - intros q1 m junk' s _ _. exists q1. do 3 (split; [done|]). intros i. apply pushed_refl.
  - rewrite E. exists q'. split; [done|]. split; [done|]. split; [done|]. intros i Hi.
    specialize (Ho i Hi). by rewrite all_out_nil in Ho.
Qed.
End Mq.

(** ** An instance: queues that hold at most [lq_cap] messages *)
Record ListQueues : Type := mkLq { lq_cap : nat; lq_queues : gmap Z (list MqMsgbuf) }.

Definition lq_pending (q : ListQueues) (id : Z) : list MqMsgbuf := default [] (lq_queues q !! id).
Definition lq_set (q : ListQueues) (id : Z) (ms : list MqMsgbuf) : ListQueues :=
  mkLq (lq_cap q) (<[id := ms]> (lq_queues q)).

#[export] Instance list_queues : MsgService ListQueues := {
  msgget key := key;
  msgsnd q id m :=
    if (length (lq_pending q id) <? lq_cap q)%nat
    then (lq_set q id (lq_pending q id ++ [m]), 0) else (q, EAGAIN);
  msgrcv q id :=
    match lq_pending q id with
    | [] => (q, None)
    | m :: ms => if zlen (text m) <=? MQ_MAX_DATA_LEN then (lq_set q id ms, Some m) else (q, None)
    end;
  pending := lq_pending;
  room q id k := (length (lq_pending q id) + k <= lq_cap q)%nat
}.

Lemma lq_pending_set q id ms i : lq_pending (lq_set q id ms) i = if i =? id then ms else lq_pending q i.
Proof.
  unfold lq_pending, lq_set. cbn. destruct (Z.eqb_spec i id) as [->|Hne].
  - by rewrite lookup_insert_eq.
  - by rewrite lookup_insert_ne.
Qed.

#[export] Instance list_queues_ok : MsgServiceOk ListQueues.
Proof.
  split.
  - done.
  - intros q id m. change (@pending ListQueues list_queues) with lq_pending. cbn [msgsnd list_queues].
    destruct (Nat.ltb_spec (length (lq_pending q id)) (lq_cap q)) as [Hl|Hl].
    + split; [by rewrite lq_pending_set, Z.eqb_refl|]. split; [done|]. split; [|split].
      * intros k Hk. split; [done|]. cbn in Hk |- *.
        rewrite lq_pending_set, Z.eqb_refl, length_app. cbn. lia.
      * intros i Hi. rewrite lq_pending_set. by destruct (Z.eqb_spec i id).
      * intros i k Hi Hk. cbn in Hk |- *. rewrite lq_pending_set. by destruct (Z.eqb_spec i id).
    + split; [done|]. split; [done|]. split; [intros k Hk; cbn in Hk; lia|]. done.
  - intros q id. unfold popped. change (@pending ListQueues list_queues) with lq_pending.
    cbn [msgrcv list_queues]. destruct (lq_pending q id) as [|m ms] eqn:E; [done|].
    destruct (Z.leb_spec (zlen (text m)) MQ_MAX_DATA_LEN) as [Hl|Hl].
    2:{ split; [done|]. intros m' ms' E'. injection E' as <- <-. unfold fits. lia. }
    split; [by rewrite lq_pending_set, Z.eqb_refl|]. split.
    + intros i Hi. rewrite lq_pending_set. by destruct (Z.eqb_spec i id).
    + intros i k Hk. cbn in Hk |- *. rewrite lq_pending_set.
      destruct (Z.eqb_spec i id) as [->|]; [|done]. rewrite E in Hk. cbn in Hk. lia.
Qed.
