(* ===== verification/Phy.v ===== *)
(** The radio simulator process (simphy/simphy.c, simphy/simphy.h).

    It keeps which nodes are alive and a table of links, passes every frame it
    gets from the MAC process of a node on to the MAC processes of the live nodes
    with a line of sight to it, and changes links on commands of the simulator. *)
From S2P Require Import Prelude MsgQueue.
From stdpp Require Import base list numbers gmap.
From Stdlib Require Import ZArith Lia.
Open Scope Z_scope.
Open Scope c_scope.

Record SimLink : Type := mkLink { los : Z; pathloss_x100 : Z }.
Record NodeCtx : Type := mkNode { alive : Z; mqid_send_mac : Z; mqid_recv_mac : Z }.
Record SimPhyCtx : Type := mkPhy {
  nodes : list NodeCtx;
  phy_mqid_recv_command : Z;
  phy_mqid_send_report : Z;
  links : list (list SimLink)
}.

(** include/config_msg.h *)
Definition CONF_MSG_TYPE_PHY_LINK_CONFIG : Z := 1.

Definition get_node (spctx : SimPhyCtx) (nid : Z) : res NodeCtx := deref (nodes spctx !! Z.to_nat nid).
Definition get_link (spctx : SimPhyCtx) (n1 n2 : Z) : res SimLink :=
  let* row := deref (links spctx !! Z.to_nat n1) in deref (row !! Z.to_nat n2).

Definition set_nodes (v : list NodeCtx) (c : SimPhyCtx) : SimPhyCtx :=
  mkPhy v (phy_mqid_recv_command c) (phy_mqid_send_report c) (links c).
Definition set_links (v : list (list SimLink)) (c : SimPhyCtx) : SimPhyCtx :=
  mkPhy (nodes c) (phy_mqid_recv_command c) (phy_mqid_send_report c) v.
Definition set_alive (nid : Z) (c : SimPhyCtx) : SimPhyCtx :=
  set_nodes (alter (fun n => mkNode 1 (mqid_send_mac n) (mqid_recv_mac n)) (Z.to_nat nid) (nodes c)) c.

(** Store to [links[n1][n2]]; an index past the table is an access outside it. *)
Definition set_link (n1 n2 : Z) (l : SimLink) (c : SimPhyCtx) : res SimPhyCtx :=
  let* old := get_link c n1 n2 in
  Ok (set_links (alter (fun row => <[Z.to_nat n2 := l]> row) (Z.to_nat n1) (links c)) c).

Section Phy.
Context {Q : Type} `{MsgService Q}.

Definition send_to_mac (q : Q) (spctx : SimPhyCtx) (receiver_nid : Z) (data : list Z) (len type : Z)
  : res Q :=
  let* n := get_node spctx receiver_nid in
  let* r := send_mq q (mqid_send_mac n) data len type in
  Ok (fst r).

Definition process_mac_frame (q : Q) (spctx : SimPhyCtx) (sender_nid : Z) (data : list Z) (len : Z)
  : res Q :=
  rfold (fun q nid =>
    if sender_nid =? nid then Ok q
    else
      let* n := get_node spctx nid in
      if alive n =? 1 then
        let* link := get_link spctx sender_nid nid in
        if negb (los link =? 1) then Ok q
        else send_to_mac q spctx nid data len MESSAGE_TYPE_DATA
      else Ok q) node_ids q.

(** The body of the polling loop of [recv_from_mac]. *)
Definition recv_mac_msg (nid : Z) (q : Q) (msg : MqMsgbuf) (r : Z) (spctx : SimPhyCtx)
  : res (Q * SimPhyCtx) :=
  let spctx := set_alive nid spctx in
  if type msg =? MESSAGE_TYPE_DATA then
    let* q := process_mac_frame q spctx nid (text msg) r in Ok (q, spctx)
  else Ok (q, spctx).

Definition recv_from_mac (fuel : nat) (q : Q) (spctx : SimPhyCtx) (msg : MqMsgbuf)
  : res (Q * SimPhyCtx * MqMsgbuf) :=
  rfold (fun '(q, spctx, msg) nid =>
    let* n := get_node spctx nid in
    recv_loop (recv_mac_msg nid) fuel q (mqid_recv_mac n) msg spctx) node_ids (q, spctx, msg).

(** [msg] points to a packed [PhyLinkConfig]. *)
Definition handle_link_config_command (spctx : SimPhyCtx) (msg : list Z) : res SimPhyCtx :=
  let* n1 := rd8 msg 0 in
  let* n2 := rd8 msg 1 in
  let* l := rd8 msg 2 in
  let* pl := rd32 msg 3 in
  let* spctx := set_link n1 n2 (mkLink l pl) spctx in
  set_link n2 n1 (mkLink l pl) spctx.

Definition phy_command (q : Q) (msg : MqMsgbuf) (r : Z) (spctx : SimPhyCtx) : res (Q * SimPhyCtx) :=
  if type msg =? CONF_MSG_TYPE_PHY_LINK_CONFIG then
    let* spctx := handle_link_config_command spctx (text msg) in Ok (q, spctx)
  else Ok (q, spctx).

Definition recv_command (fuel : nat) (q : Q) (spctx : SimPhyCtx) (junk : MqMsgbuf)
  : res (Q * SimPhyCtx) :=
  let* r := recv_loop phy_command fuel q (phy_mqid_recv_command spctx) junk spctx in
  Ok (fst r).

Definition simphy_work (fuel : nat) (q : Q) (spctx : SimPhyCtx) (junk junk' : MqMsgbuf)
  : res (Q * SimPhyCtx) :=
  let* r := recv_from_mac fuel q spctx junk in
  let '(q, spctx, _) := r in
  recv_command fuel q spctx junk'.

(** ** Start *)
Definition init_link_state (spctx : SimPhyCtx) : SimPhyCtx :=
  set_links (replicate (Z.to_nat MAX_NODE_ID) (replicate (Z.to_nat MAX_NODE_ID) (mkLink 1 0))) spctx.

Definition create_simphy_context : SimPhyCtx :=
  init_link_state (mkPhy (replicate (Z.to_nat MAX_NODE_ID) (mkNode 0 0 0)) 0 0 []).

Definition set_node_mq (nid send recv : Z) (c : SimPhyCtx) : SimPhyCtx :=
  set_nodes (alter (fun n => mkNode (alive n) send recv) (Z.to_nat nid) (nodes c)) c.

(** The body of the loop over the nodes. *)
Definition init_node_mq (fuel : nat) (junk : MqMsgbuf) (st : Q * SimPhyCtx) (nid : Z)
  : res (Q * SimPhyCtx) :=
  let '(q, spctx) := st in
  let mqid_send_mac := msgget (MQ_KEY_PHY_TO_MAC + nid) in
  let* q := mq_flush fuel q mqid_send_mac junk in
  let mqid_recv_mac := msgget (MQ_KEY_MAC_TO_PHY + nid) in
  let* q := mq_flush fuel q mqid_recv_mac junk in
  Ok (q, set_node_mq nid mqid_send_mac mqid_recv_mac spctx).

Definition simphy_init_mq (fuel : nat) (q : Q) (spctx : SimPhyCtx) (junk : MqMsgbuf)
  : res (Q * SimPhyCtx) :=
  let* r := rfold (init_node_mq fuel junk) node_ids (q, spctx) in
  let '(q, spctx) := r in
  let mqid_send_report := msgget MQ_KEY_PHY_REPORT in
  let* q := mq_flush fuel q mqid_send_report junk in
  let mqid_recv_command := msgget MQ_KEY_PHY_COMMAND in
  let* q := mq_flush fuel q mqid_recv_command junk in
  Ok (q, mkPhy (nodes spctx) mqid_recv_command mqid_send_report (links spctx)).

(** ** What a well-formed context is *)
Record phy_wf (c : SimPhyCtx) : Prop := {
  wf_nodes : forall nid, In nid node_ids -> exists a, get_node c nid =
    Ok (mkNode a (msgget (MQ_KEY_PHY_TO_MAC + nid)) (msgget (MQ_KEY_MAC_TO_PHY + nid)));
  wf_links : forall n1 n2, In n1 node_ids -> In n2 node_ids -> exists l, get_link c n1 n2 = Ok l;
  wf_command : phy_mqid_recv_command c = msgget MQ_KEY_PHY_COMMAND
}.

(** Node [r] hears node [s]. *)
Definition is_alive (c : SimPhyCtx) (r : Z) : bool :=
  match get_node c r with Ok n => alive n =? 1 | _ => false end.
Definition line_of_sight (c : SimPhyCtx) (s r : Z) : bool :=
  match get_link c s r with Ok l => los l =? 1 | _ => false end.
Definition hears (c : SimPhyCtx) (s r : Z) : bool :=
  negb (s =? r) && is_alive c r && line_of_sight c s r.

Definition is_data (m : MqMsgbuf) : bool := type m =? MESSAGE_TYPE_DATA.

(** What one message of the node [s] puts into the queue [i]: the message, if the
    queue is that of a node that hears it. *)
Definition relay_to (c : SimPhyCtx) (s : Z) (m : MqMsgbuf) (i r : Z) : list MqMsgbuf :=
  if is_data m && hears c s r && (i =? msgget (MQ_KEY_PHY_TO_MAC + r)) then [m] else [].
Definition relays (c : SimPhyCtx) (s : Z) (m : MqMsgbuf) (i : Z) : list MqMsgbuf :=
  concat (map (relay_to c s m i) node_ids).

(** The state and the output of the receive loops over the nodes [l], when the
    node [s] has sent [inq s]. *)
Definition heard_from (inq : Z -> list MqMsgbuf) (c : SimPhyCtx) (s : Z) : SimPhyCtx :=
  match inq s with [] => c | _ => set_alive s c end.
Fixpoint phy_out (inq : Z -> list MqMsgbuf) (c : SimPhyCtx) (l : list Z) (r : Z) : list MqMsgbuf :=
  match l with
  | [] => []
  | s :: l' => (if hears c s r then List.filter is_data (inq s) else []) ++
               phy_out inq (heard_from inq c s) l' r
  end.

(** ** Queue ids are distinct *)
Context {QOk : MsgServiceOk Q}.

Lemma msgget_eq k1 k2 : (msgget k1 =? msgget k2) = (k1 =? k2).
Proof.
  destruct (Z.eqb_spec k1 k2) as [->|Hne]; [apply Z.eqb_refl|].
  destruct (Z.eqb_spec (msgget k1) (msgget k2)) as [E|]; [|done]. by apply msgget_inj in E.
Qed.

(** ** Live nodes *)
Lemma get_node_set_alive s r c :
  get_node (set_alive s c) r =
  let* n := get_node c r in
  Ok (if Z.to_nat s =? Z.to_nat r then mkNode 1 (mqid_send_mac n) (mqid_recv_mac n) else n)%nat.
Proof.
  unfold get_node, set_alive. cbn. destruct (Nat.eqb_spec (Z.to_nat s) (Z.to_nat r)) as [->|Hne].
  - rewrite list_lookup_alter_eq. by destruct (nodes c !! Z.to_nat r).
  - rewrite list_lookup_alter_ne by done. by destruct (nodes c !! Z.to_nat r).
Qed.

Lemma set_alive_wf s c : phy_wf c -> phy_wf (set_alive s c).
Proof.
  intros [Hn Hl Hc]. split; [|exact Hl|exact Hc]. intros nid Hin. destruct (Hn nid Hin) as [a E].
  rewrite get_node_set_alive, E. cbn. destruct (Nat.eqb _ _); eauto.
Qed.

Lemma is_alive_set_alive s r c : In s node_ids -> In r node_ids -> phy_wf c ->
  is_alive (set_alive s c) r = is_alive c r || (s =? r).
Proof.
  intros Hs Hr Hc. apply in_node_ids in Hs. destruct (wf_nodes c Hc r Hr) as [a E].
  apply in_node_ids in Hr. unfold is_alive. rewrite get_node_set_alive, E. cbn.
  destruct (Nat.eqb_spec (Z.to_nat s) (Z.to_nat r)), (Z.eqb_spec s r); cbn;
    rewrite ?orb_true_r, ?orb_false_r; done || lia.
Qed.

Lemma hears_set_alive s r c : In s node_ids -> In r node_ids -> phy_wf c ->
  hears (set_alive s c) s r = hears c s r.
Proof.
  intros Hs Hr Hc. unfold hears. rewrite is_alive_set_alive by done.
  change (line_of_sight (set_alive s c)) with (line_of_sight c).
  by destruct (s =? r), (is_alive c r).
Qed.

Lemma set_alive_idem s c : set_alive s (set_alive s c) = set_alive s c.
Proof.
  unfold set_alive, set_nodes. cbn. f_equal. apply list_eq. intros j.
  destruct (decide (Z.to_nat s = j)) as [<-|Hne].
  - rewrite !list_lookup_alter_eq. by destruct (nodes c !! Z.to_nat s).
  - by rewrite !list_lookup_alter_ne.
Qed.

Lemma fold_set_alive s (ms : list MqMsgbuf) c :
  fold_left (fun c _ => set_alive s c) ms c = match ms with [] => c | _ => set_alive s c end.
Proof.
  destruct ms as [|m ms]; [done|]. cbn. revert c. induction ms as [|m' ms IH]; intros c; [done|].
  cbn. by rewrite set_alive_idem, IH.
Qed.

(** ** One frame *)
Lemma send_to_mac_ok (q : Q) c r m junk :
  phy_wf c -> In r node_ids -> is_data m = true -> fits m ->
  exists q', send_to_mac q c r (text m ++ junk) (zlen (text m)) MESSAGE_TYPE_DATA = Ok q' /\
    forall i, pushed q q' i (if i =? msgget (MQ_KEY_PHY_TO_MAC + r) then [m] else []).
Proof.
  intros Hc Hr Hd Hf. destruct (wf_nodes c Hc r Hr) as [a E]. unfold send_to_mac. rewrite E.
  cbn [rbind mqid_send_mac].
  destruct (send_mq_ok q (msgget (MQ_KEY_PHY_TO_MAC + r)) (text m ++ junk) (zlen (text m))
    MESSAGE_TYPE_DATA (text m)) as (q' & r' & -> & Hp & Ho);
    [done|done|by apply (zslice_prefix _ (text m) junk)|].
  exists q'. split; [done|]. intros i. destruct (Z.eqb_spec i (msgget (MQ_KEY_PHY_TO_MAC + r))) as [->|Hne].
  - assert (Em : m = mkMsg MESSAGE_TYPE_DATA (text m)); [|by rewrite Em at 1].
    destruct m as [ty tx]. unfold is_data in Hd. cbn in Hd. by apply Z.eqb_eq in Hd as ->.
  - by apply Ho.
Qed.

Lemma process_mac_frame_ok (q : Q) c s m junk :
  phy_wf c -> In s node_ids -> is_data m = true -> fits m ->
  exists q', process_mac_frame q c s (text m ++ junk) (zlen (text m)) = Ok q' /\
    forall i, pushed q q' i (relays c s m i).
Proof.
  intros Hc Hs Hd Hf. unfold process_mac_frame, relays.
  pose proof (incl_refl node_ids) as Hin. revert Hin. generalize node_ids at 1 3 4 as l.
  intros l. revert q. induction l as [|r l IH]; intros q Hin; cbn [rfold map concat].
  - exists q. split; [done|]. intros i. apply pushed_refl.
  - assert (Hr : In r node_ids) by (apply Hin; now left).
    assert (Hin' : incl l node_ids) by (intros x Hx; apply Hin; now right).
    destruct (wf_nodes c Hc r Hr) as [a En]. destruct (wf_links c Hc s r Hs Hr) as [lk El].
    match goal with |- context [rbind ?step _] =>
      assert (Hstep : exists q1, step = Ok q1 /\ forall i, pushed q q1 i (relay_to c s m i r)) end.
    { unfold relay_to, hears, is_alive, line_of_sight. rewrite En, El, Hd. cbn [rbind alive andb].
      destruct (s =? r); [cbn; eexists; split; [done|]; intros; apply pushed_refl|].
      destruct (a =? 1); [|cbn; eexists; split; [done|]; intros; apply pushed_refl].
      destruct (los lk =? 1); [|cbn; eexists; split; [done|]; intros; apply pushed_refl].
      by apply send_to_mac_ok. }
    destruct Hstep as (q1 & -> & Hp1). cbn [rbind]. destruct (IH q1 Hin') as (q2 & -> & Hp2).
    exists q2. split; [done|]. intros i. by eapply pushed_app.
Qed.

Lemma relays_own c s m r : In r node_ids ->
  relays c s m (msgget (MQ_KEY_PHY_TO_MAC + r)) = if hears c s r && is_data m then [m] else [].
Proof.
  intros Hr. unfold relays. pose proof nodup_node_ids as Hnd. revert Hr Hnd.
  generalize node_ids. induction l as [|x l IH]; intros Hr Hnd; [done|].
  apply NoDup_cons_iff in Hnd as [Hx Hnd]. cbn [map concat]. unfold relay_to at 1.
  rewrite msgget_eq. destruct (Z.eqb_spec (MQ_KEY_PHY_TO_MAC + r) (MQ_KEY_PHY_TO_MAC + x)) as [E|Hne].
  - assert (x = r) as -> by lia. rewrite andb_true_r.
    assert (Hz : concat (map (relay_to c s m (msgget (MQ_KEY_PHY_TO_MAC + r))) l) = []).
    { clear IH Hr Hnd. induction l as [|y l IH]; [done|]. cbn. unfold relay_to at 1. rewrite msgget_eq.
      destruct (Z.eqb_spec (MQ_KEY_PHY_TO_MAC + r) (MQ_KEY_PHY_TO_MAC + y)) as [E'|].
      - destruct Hx. left. lia.
      - rewrite andb_false_r. apply IH. contradict Hx. now right. }
    rewrite Hz, app_nil_r. by rewrite andb_comm.
  - rewrite andb_false_r. cbn [app]. apply IH; [|done]. destruct Hr as [->|]; [done|done].
Qed.

Lemma relays_other c s m i :
  (forall r, In r node_ids -> i <> msgget (MQ_KEY_PHY_TO_MAC + r)) -> relays c s m i = [].
Proof.
  intros Hi. unfold relays. revert Hi. generalize node_ids. induction l as [|r l IH]; intros Hi; [done|].
  cbn [map concat]. unfold relay_to at 1.
  destruct (Z.eqb_spec i (msgget (MQ_KEY_PHY_TO_MAC + r))) as [E|]; [by destruct (Hi r (or_introl eq_refl))|].
  rewrite andb_false_r. apply IH. intros r' Hr'. apply Hi. now right.
Qed.

(** ** The messages of one node *)
Definition mac_in (s : Z) : Z := msgget (MQ_KEY_MAC_TO_PHY + s).
Definition mac_out (r : Z) : Z := msgget (MQ_KEY_PHY_TO_MAC + r).

Lemma mac_in_out s r : In s node_ids -> In r node_ids -> mac_in s <> mac_out r.
Proof.
  intros Hs Hr E. apply in_node_ids in Hs, Hr. apply msgget_inj in E.
  unfold MQ_KEY_MAC_TO_PHY, MQ_KEY_PHY_TO_MAC in E. lia.
Qed.

Lemma mac_in_inj s r : mac_in s = mac_in r -> s = r.
Proof. intros E. apply msgget_inj in E. lia. Qed.

Lemma recv_mac_msg_ok s (q : Q) m junk c :
  In s node_ids -> phy_wf c -> fits m ->
  exists q', recv_mac_msg s q (mkMsg (type m) (text m ++ junk)) (zlen (text m)) c =
      Ok (q', set_alive s c) /\
    forall i, pushed q q' i (relays (set_alive s c) s m i).
Proof.
  intros Hs Hc Hf. unfold recv_mac_msg. cbn [type text].
  destruct (type m =? MESSAGE_TYPE_DATA) eqn:Hd.
  - destruct (process_mac_frame_ok q (set_alive s c) s m junk) as (q' & -> & Hp);
      [by apply set_alive_wf|done|done|done|]. exists q'. by split.
  - exists q. split; [done|]. intros i.
    replace (relays (set_alive s c) s m i) with (@nil MqMsgbuf); [apply pushed_refl|].
    unfold relays, relay_to, is_data. rewrite Hd. cbn [andb]. generalize node_ids. by induction l.
Qed.

Lemma all_out_own s c ms r : In s node_ids -> In r node_ids -> phy_wf c ->
  all_out (fun c _ => set_alive s c) (fun c m i => relays (set_alive s c) s m i) c ms (mac_out r) =
    if hears c s r then List.filter is_data ms else [].
Proof.
  intros Hs Hr. revert c. induction ms as [|m ms IH]; intros c Hc; cbn [all_out List.filter].
  - by destruct (hears c s r).
  - rewrite IH by by apply set_alive_wf. unfold mac_out. rewrite relays_own by done.
    rewrite !hears_set_alive by done. destruct (hears c s r), (is_data m); done.
Qed.

Lemma all_out_other s c ms i : (forall r, In r node_ids -> i <> mac_out r) ->
  all_out (fun c _ => set_alive s c) (fun c m i => relays (set_alive s c) s m i) c ms i = [].
Proof.
  intros Hi. revert c. induction ms as [|m ms IH]; intros c; [done|]. cbn [all_out].
  by rewrite IH, relays_other.
Qed.

Lemma recv_node_ok s fuel (q : Q) msg c :
  In s node_ids -> phy_wf c -> Forall fits (pending q (mac_in s)) ->
  (length (pending q (mac_in s)) <= fuel)%nat ->
  exists q' msg', recv_loop (recv_mac_msg s) fuel q (mac_in s) msg c =
      Ok (q', heard_from (fun s => pending q (mac_in s)) c s, msg') /\
    phy_wf (heard_from (fun s => pending q (mac_in s)) c s) /\
    pending q' (mac_in s) = [] /\
    (forall r, In r node_ids ->
      pushed q q' (mac_out r) (if hears c s r then List.filter is_data (pending q (mac_in s)) else [])) /\
    forall i, i <> mac_in s -> (forall r, In r node_ids -> i <> mac_out r) -> pushed q q' i [].
Proof.
  intros Hs Hc Hfit Hfuel.
  destruct (recv_loop_ok (recv_mac_msg s) (mac_in s) (fun c _ => set_alive s c)
    (fun c m i => relays (set_alive s c) s m i) phy_wf fits) with
    (ms := pending q (mac_in s)) (fuel := fuel) (q := q) (msg := msg) (s := c)
    as (q' & msg' & E & Hp & Hw & _ & Ho); try done.
  - intros q1 m junk c1 Hc1 Hm. destruct (recv_mac_msg_ok s q1 m junk c1) as (q2 & E & Hp); [done..|].
    exists q2. split; [done|]. split; [by apply set_alive_wf|]. split; [|done].
    apply relays_other. intros r. by apply mac_in_out.
  - rewrite fold_set_alive in E, Hw. exists q', msg'. split; [done|]. split; [done|]. split; [done|].
    split.
    + intros r Hr. rewrite <- all_out_own by done. apply Ho. intros E'. by apply (mac_in_out s r Hs Hr).
    + intros i Hi Hr. rewrite <- (all_out_other s c (pending q (mac_in s)) i) by done. by apply Ho.
Qed.

(** ** All nodes *)
Lemma phy_out_ext f g c l r : (forall s, In s l -> f s = g s) -> phy_out f c l r = phy_out g c l r.
Proof.
  revert c. induction l as [|s l IH]; intros c H'; [done|]. cbn [phy_out]. unfold heard_from at 1 2.
  rewrite (H' s (or_introl eq_refl)). f_equal. apply IH. intros x Hx. apply H'. by right.
Qed.

Lemma fold_heard_ext f g l c : (forall s, In s l -> f s = g s) ->
  fold_left (heard_from f) l c = fold_left (heard_from g) l c.
Proof.
  revert c. induction l as [|s l IH]; intros c H'; [done|]. cbn [fold_left]. unfold heard_from at 2 4.
  rewrite (H' s (or_introl eq_refl)). apply IH. intros x Hx. apply H'. by right.
Qed.

Lemma recv_nodes_ok fuel l : forall (q : Q) c msg,
  incl l node_ids -> List.NoDup l -> phy_wf c ->
  (forall s, In s l -> Forall fits (pending q (mac_in s)) /\ (length (pending q (mac_in s)) <= fuel)%nat) ->
  let inq s := pending q (mac_in s) in
  exists q' msg', rfold (fun '(q, c, msg) nid =>
      let* n := get_node c nid in
      recv_loop (recv_mac_msg nid) fuel q (mqid_recv_mac n) msg c) l (q, c, msg) =
      Ok (q', fold_left (heard_from inq) l c, msg') /\
    phy_wf (fold_left (heard_from inq) l c) /\
    (forall s, In s l -> pending q' (mac_in s) = []) /\
    (forall r, In r node_ids -> pushed q q' (mac_out r) (phy_out inq c l r)) /\
    forall i, (forall s, In s l -> i <> mac_in s) -> (forall r, In r node_ids -> i <> mac_out r) ->
      pushed q q' i [].
Proof.
  induction l as [|s l IH]; intros q c msg Hin Hnd Hc Hq inq.
  - exists q, msg. split; [done|]. split; [done|]. split; [done|].
    split; intros; apply pushed_refl.
  - apply NoDup_cons_iff in Hnd as [Hs Hnd]. apply incl_cons_inv in Hin as [Hsn Hin].
    destruct (Hq s (or_introl eq_refl)) as [Hfit Hfuel].
    destruct (recv_node_ok s fuel q msg c) as (q1 & msg1 & E1 & Hc1 & Hp1 & Ho1 & Hn1); [done..|].
    cbn [rfold]. destruct (wf_nodes c Hc s Hsn) as [a En]. rewrite En. cbn [rbind mqid_recv_mac].
    change (msgget (MQ_KEY_MAC_TO_PHY + s)) with (mac_in s). rewrite E1. cbn [rbind].
    assert (Hsame : forall s', In s' l -> pending q1 (mac_in s') = pending q (mac_in s')).
    { intros s' Hs'. apply (pushed_nil_iff q q1). apply Hn1.
      - intros E. apply mac_in_inj in E as ->. done.
      - intros r Hr. apply mac_in_out; [by apply Hin|done]. }
    destruct (IH q1 (heard_from inq c s) msg1) as (q2 & msg2 & E2 & Hc2 & Hp2 & Ho2 & Hn2); try done.
    { intros s' Hs'. rewrite Hsame by done. apply Hq. by right. }
    rewrite (fold_heard_ext _ inq) in E2, Hc2 by done.
    exists q2, msg2. split; [exact E2|]. split; [exact Hc2|]. split; [|split].
    + intros s' [<-|Hs']; [|by apply Hp2]. rewrite <- Hp1. apply (pushed_nil_iff q1 q2). apply Hn2.
      * intros s' Hs' E. apply mac_in_inj in E as <-. done.
      * intros r Hr. by apply mac_in_out.
    + intros r Hr. cbn [phy_out]. eapply pushed_app; [by apply Ho1|].
      rewrite <- (phy_out_ext (fun s => pending q1 (mac_in s))) by done. by apply Ho2.
    + intros i Hi Hr. change (@nil MqMsgbuf) with (@nil MqMsgbuf ++ []). eapply pushed_app.
      * apply Hn1; [apply Hi; by left|done].
      * apply Hn2; [|done]. intros s' Hs'. apply Hi. by right.
Qed.

(** ** What a node receives in one round

    The frames of every other node it has a line of sight to, in the order of the
    node ids, if it is alive when they are relayed: from before, or because it has
    a smaller id and was heard of in this round. *)
Definition nonempty {A} (l : list A) : bool := match l with [] => false | _ => true end.
Definition delivered (inq : Z -> list MqMsgbuf) (c : SimPhyCtx) (r : Z) : list MqMsgbuf :=
  concat (map (fun s =>
    if negb (s =? r) && (is_alive c r || ((r <? s) && nonempty (inq r))) && line_of_sight c s r
    then List.filter is_data (inq s) else []) node_ids).

Lemma heard_from_wf inq s c : phy_wf c -> phy_wf (heard_from inq c s).
Proof. intros. unfold heard_from. destruct (inq s); [done|by apply set_alive_wf]. Qed.

Lemma is_alive_heard inq s r c : In s node_ids -> In r node_ids -> phy_wf c ->
  is_alive (heard_from inq c s) r = is_alive c r || ((s =? r) && nonempty (inq r)).
Proof.
  intros Hs Hr Hc. unfold heard_from. destruct (Z.eqb_spec s r) as [->|Hne].
  - destruct (inq r); cbn; [by rewrite orb_false_r|]. rewrite is_alive_set_alive by done.
    by rewrite Z.eqb_refl.
  - cbn. rewrite orb_false_r. destruct (inq s); [done|]. rewrite is_alive_set_alive by done.
    destruct (Z.eqb_spec s r); [done|]. by rewrite orb_false_r.
Qed.

Lemma phy_out_heard inq r n : forall a c, 0 <= a -> a + Z.of_nat n <= 128 -> In r node_ids -> phy_wf c ->
  phy_out inq c (seqZ a (Z.of_nat n)) r = concat (map (fun s =>
    if negb (s =? r) && (is_alive c r || ((a <=? r) && (r <? s) && nonempty (inq r))) &&
       line_of_sight c s r
    then List.filter is_data (inq s) else []) (seqZ a (Z.of_nat n))).
Proof.
  induction n as [|n IH]; intros a c Ha Hn Hr Hc; [done|].
  assert (Hain : In a node_ids) by (apply in_node_ids; lia).
  rewrite seqZ_cons by lia. replace (Z.pred (Z.of_nat (S n))) with (Z.of_nat n) by lia.
  cbn [phy_out map concat]. f_equal.
  - unfold hears. replace ((a <=? r) && (r <? a)) with false by bool_lia. cbn [andb].
    by rewrite orb_false_r.
  - rewrite IH by (done || lia || by apply heard_from_wf). f_equal. apply map_ext_in.
    intros s Hs. apply list_elem_of_In, elem_of_seqZ in Hs.
    rewrite is_alive_heard by done.
    replace (line_of_sight (heard_from inq c a)) with (line_of_sight c)
      by (unfold heard_from; by destruct (inq a)).
    replace (is_alive c r || (a =? r) && nonempty (inq r) || (Z.succ a <=? r) && (r <? s) && nonempty (inq r))
      with (is_alive c r || (a <=? r) && (r <? s) && nonempty (inq r)); [done|].
    destruct (is_alive c r), (nonempty (inq r)); cbn; try done; bool_lia.
Qed.

Lemma phy_out_delivered inq c r : In r node_ids -> phy_wf c ->
  phy_out inq c node_ids r = delivered inq c r.
Proof.
  intros Hr Hc. unfold node_ids, MAX_NODE_ID. change 128 with (Z.of_nat 128).
  rewrite phy_out_heard by (done || lia). unfold delivered, node_ids, MAX_NODE_ID.
  change (Z.of_nat 128) with 128. f_equal. apply map_ext. intros s.
  apply in_node_ids in Hr. replace (0 <=? r) with true by bool_lia. done.
Qed.

Lemma fold_heard inq l c : List.NoDup l -> incl l node_ids -> phy_wf c ->
  let c' := fold_left (heard_from inq) l c in
  phy_wf c' /\ links c' = links c /\ forall r, In r l -> is_alive c' r = is_alive c r || nonempty (inq r).
Proof.
  revert c. induction l as [|s l IH]; intros c Hnd Hin Hc c'; [done|].
  apply NoDup_cons_iff in Hnd as [Hs Hnd]. apply incl_cons_inv in Hin as [Hsn Hin].
  destruct (IH (heard_from inq c s) Hnd Hin (heard_from_wf inq s c Hc)) as (Hw & Hl & Ha).
  split; [exact Hw|]. split.
  - unfold c'. cbn [fold_left]. rewrite Hl. unfold heard_from. by destruct (inq s).
  - intros r [->|Hr]; unfold c'; cbn [fold_left].
    + clear IH Ha Hw Hl c'. replace (is_alive c r || nonempty (inq r)) with (is_alive (heard_from inq c r) r)
        by (rewrite is_alive_heard by done; by rewrite Z.eqb_refl).
      pose proof (heard_from_wf inq r c Hc) as Hw. revert Hw Hs Hin. generalize (heard_from inq c r).
      clear Hnd. induction l as [|x l IH]; intros d Hw Hs Hin; [done|]. cbn [fold_left].
      apply incl_cons_inv in Hin as [Hxn Hin]. rewrite IH; [|by apply heard_from_wf|by intros ?; apply Hs; right|done].
      rewrite is_alive_heard by done. destruct (Z.eqb_spec x r) as [->|]; [by destruct Hs; left|].
      by rewrite orb_false_r.
    + rewrite Ha by done. rewrite is_alive_heard by (done || by apply Hin).
      destruct (Z.eqb_spec s r) as [->|]; [done|]. by rewrite orb_false_r.
Qed.

(** ** Link commands *)
Record PhyLinkConfig : Type := mkPhyLinkConfig {
  node_id_1 : Z; node_id_2 : Z; conf_los : Z; conf_pathloss_x100 : Z
}.
Definition enc_config (m : PhyLinkConfig) : list Z :=
  [node_id_1 m; node_id_2 m; conf_los m] ++ le32 (conf_pathloss_x100 m).
Definition config_msg (m : PhyLinkConfig) : MqMsgbuf :=
  mkMsg CONF_MSG_TYPE_PHY_LINK_CONFIG (enc_config m).
Record config_ok (m : PhyLinkConfig) : Prop := {
  cfg_n1 : In (node_id_1 m) node_ids;
  cfg_n2 : In (node_id_2 m) node_ids;
  cfg_los : is_u8 (conf_los m);
  cfg_pl : is_u32 (conf_pathloss_x100 m)
}.

(** The entry of the table for [a] and [b] after a command. *)
Definition link_after (a b : Z) (l : SimLink) (m : PhyLinkConfig) : SimLink :=
  if ((a =? node_id_1 m) && (b =? node_id_2 m)) || ((a =? node_id_2 m) && (b =? node_id_1 m))
  then mkLink (conf_los m) (conf_pathloss_x100 m) else l.

Lemma set_link_ok c n1 n2 l : phy_wf c -> In n1 node_ids -> In n2 node_ids ->
  exists c', set_link n1 n2 l c = Ok c' /\ phy_wf c' /\ nodes c' = nodes c /\
    forall a b, In a node_ids -> In b node_ids ->
      get_link c' a b = if (a =? n1) && (b =? n2) then Ok l else get_link c a b.
Proof.
  intros Hc H1 H2. unfold set_link. destruct (wf_links c Hc n1 n2 H1 H2) as [old Eold].
  rewrite Eold. cbn [rbind]. set (c' := set_links _ c). exists c'. split; [done|].
  assert (Hget : forall a b, In a node_ids -> In b node_ids ->
      get_link c' a b = if (a =? n1) && (b =? n2) then Ok l else get_link c a b).
  { intros a b Ha Hb. apply in_node_ids in Ha, Hb, H1, H2. unfold get_link in *. cbn.
    destruct (Z.eqb_spec a n1) as [->|Hne]; cbn [andb].
    - rewrite list_lookup_alter_eq. destruct (links c !! Z.to_nat n1) as [row|]; [|done]. cbn in *.
      destruct (Z.eqb_spec b n2) as [->|Hne2].
      + rewrite list_lookup_insert_eq; [done|]. apply lookup_lt_is_Some_1.
        destruct (row !! Z.to_nat n2); [eauto|done].
      + by rewrite list_lookup_insert_ne by lia.
    - by rewrite list_lookup_alter_ne by lia. }
  split; [|by split]. split; [by apply Hc| |by apply Hc].
  intros a b Ha Hb. rewrite Hget by done. destruct (_ && _); [eauto|by apply (wf_links c Hc)].
Qed.

Lemma handle_link_config_run c m junk : config_ok m ->
  handle_link_config_command c (enc_config m ++ junk) =
  let l := mkLink (conf_los m) (conf_pathloss_x100 m) in
  let* c := set_link (node_id_1 m) (node_id_2 m) l c in set_link (node_id_2 m) (node_id_1 m) l c.
Proof.
  intros [H1 H2 Hl Hp]. unfold handle_link_config_command.
  replace (rd32 (enc_config m ++ junk) 3) with (Ok (conf_pathloss_x100 m)); [done|].
  symmetry. unfold enc_config. rewrite <- app_assoc.
  exact (rd32_enc [node_id_1 m; node_id_2 m; conf_los m] _ junk Hp).
Qed.

Lemma handle_link_config_ok c m junk : phy_wf c -> config_ok m ->
  exists c', handle_link_config_command c (enc_config m ++ junk) = Ok c' /\ phy_wf c' /\
    nodes c' = nodes c /\
    forall a b l, In a node_ids -> In b node_ids -> get_link c a b = Ok l ->
      get_link c' a b = Ok (link_after a b l m).
Proof.
  intros Hc Hm. rewrite handle_link_config_run by done. destruct Hm as [H1 H2 _ _]. cbn zeta.
  destruct (set_link_ok c (node_id_1 m) (node_id_2 m) (mkLink (conf_los m) (conf_pathloss_x100 m)))
    as (c1 & -> & Hc1 & Hn1 & Hg1); [done..|]. cbn [rbind].
  destruct (set_link_ok c1 (node_id_2 m) (node_id_1 m) (mkLink (conf_los m) (conf_pathloss_x100 m)))
    as (c2 & -> & Hc2 & Hn2 & Hg2); [done..|].
  exists c2. split; [done|]. split; [done|]. split; [by rewrite Hn2|].
  intros a b l Ha Hb E. rewrite Hg2, Hg1, E by done. unfold link_after.
  by destruct ((a =? node_id_1 m) && (b =? node_id_2 m)), ((a =? node_id_2 m) && (b =? node_id_1 m)).
Qed.

(** What a command does to the context, as a function. *)
Definition configured (c : SimPhyCtx) (m : MqMsgbuf) : SimPhyCtx :=
  match handle_link_config_command c (text m) with Ok c' => c' | _ => c end.

Lemma configured_app c m junk : phy_wf c -> config_ok m ->
  handle_link_config_command c (enc_config m ++ junk) = Ok (configured c (config_msg m)).
Proof.
  intros Hc Hm. unfold configured. cbn [text config_msg].
  destruct (handle_link_config_ok c m [] Hc Hm) as (c' & E & _).
  rewrite handle_link_config_run in E by done. rewrite <- (app_nil_r (enc_config m)) at 2.
  by rewrite !handle_link_config_run, E.
Qed.

Lemma configured_all cfgs : forall c, phy_wf c -> Forall config_ok cfgs ->
  let c' := fold_left configured (map config_msg cfgs) c in
  phy_wf c' /\ nodes c' = nodes c /\
  forall a b l, In a node_ids -> In b node_ids -> get_link c a b = Ok l ->
    get_link c' a b = Ok (fold_left (link_after a b) cfgs l).
Proof.
  induction cfgs as [|m cfgs IH]; intros c Hc Hok; [done|]. apply Forall_cons_iff in Hok as [Hm Hok].
  destruct (handle_link_config_ok c m [] Hc Hm) as (c1 & E & Hc1 & Hn1 & Hg1).
  rewrite (configured_app c m []) in E by done. injection E as E. cbn [map fold_left]. rewrite E.
  destruct (IH c1 Hc1 Hok) as (Hw & Hn & Hg). split; [done|]. split; [by rewrite Hn|].
  intros a b l Ha Hb El. by apply Hg, Hg1.
Qed.

Lemma recv_command_ok fuel (q : Q) c junk cfgs :
  phy_wf c -> Forall config_ok cfgs -> pending q (msgget MQ_KEY_PHY_COMMAND) = map config_msg cfgs ->
  (length cfgs <= fuel)%nat ->
  exists q', recv_command fuel q c junk = Ok (q', fold_left configured (map config_msg cfgs) c) /\
    pending q' (msgget MQ_KEY_PHY_COMMAND) = [] /\
    forall i, i <> msgget MQ_KEY_PHY_COMMAND -> pushed q q' i [].
Proof.
  intros Hc Hok Hp Hf. unfold recv_command. rewrite (wf_command c Hc).
  destruct (recv_loop_ok phy_command (msgget MQ_KEY_PHY_COMMAND) configured (fun _ _ _ => []) phy_wf
    (fun m => exists cfg, config_ok cfg /\ m = config_msg cfg)) with
    (ms := map config_msg cfgs) (fuel := fuel) (q := q) (msg := junk) (s := c)
    as (q' & msg' & E & Hp' & _ & _ & Ho); try done.
  - intros m (cfg & _ & ->). unfold fits. change (zlen (text (config_msg cfg))) with 7. done.
  - intros q1 m junk' c1 Hc1 (cfg & Hcfg & ->). exists q1. unfold phy_command.
    cbn [type text config_msg]. rewrite Z.eqb_refl, configured_app by done. split; [done|].
    split; [|split; [done|intros; apply pushed_refl]].
    destruct (handle_link_config_ok c1 cfg [] Hc1 Hcfg) as (c2 & E2 & Hc2 & _).
    rewrite configured_app in E2 by done. by injection E2 as ->.
  - by rewrite length_map.
  - apply List.Forall_forall. intros m (cfg & <- & Hin)%in_map_iff. exists cfg. split; [|done].
    rewrite List.Forall_forall in Hok. by apply Hok.
  - rewrite E. exists q'. split; [done|]. split; [done|]. intros i Hi.
    specialize (Ho i Hi). by rewrite all_out_nil in Ho.
Qed.

(** ** One round of the process *)
Lemma command_not_mac nid : In nid node_ids ->
  msgget MQ_KEY_PHY_COMMAND <> mac_in nid /\ msgget MQ_KEY_PHY_COMMAND <> mac_out nid.
Proof.
  intros Hn. apply in_node_ids in Hn. unfold mac_in, mac_out.
  split; intros E; apply msgget_inj in E;
    unfold MQ_KEY_PHY_COMMAND, MQ_KEY_MAC_TO_PHY, MQ_KEY_PHY_TO_MAC in E; lia.
Qed.

(** What [simphy_work] finds in its queues, and its bound. *)
Record phy_input (fuel : nat) (q : Q) (cfgs : list PhyLinkConfig) : Prop := {
  in_fits : forall s, In s node_ids -> Forall fits (pending q (mac_in s));
  in_fuel : forall s, In s node_ids -> (length (pending q (mac_in s)) <= fuel)%nat;
  in_command : pending q (msgget MQ_KEY_PHY_COMMAND) = map config_msg cfgs;
  in_cfgs : Forall config_ok cfgs;
  in_cfgs_fuel : (length cfgs <= fuel)%nat
}.

Record phy_round (q : Q) (c : SimPhyCtx) (cfgs : list PhyLinkConfig) (q' : Q) (c' : SimPhyCtx) : Prop := {
  round_wf : phy_wf c';
  round_out : forall r, In r node_ids ->
    pushed q q' (mac_out r) (delivered (fun s => pending q (mac_in s)) c r);
  round_in : forall s, In s node_ids -> pending q' (mac_in s) = [];
  round_command : pending q' (msgget MQ_KEY_PHY_COMMAND) = [];
  round_other : forall i, i <> msgget MQ_KEY_PHY_COMMAND ->
    (forall n, In n node_ids -> i <> mac_in n /\ i <> mac_out n) -> pushed q q' i [];
  round_alive : forall r, In r node_ids ->
    is_alive c' r = is_alive c r || nonempty (pending q (mac_in r));
  round_links : forall a b l, In a node_ids -> In b node_ids -> get_link c a b = Ok l ->
    get_link c' a b = Ok (fold_left (link_after a b) cfgs l)
}.

Lemma simphy_work_spec fuel (q : Q) c cfgs junk junk' :
  phy_wf c -> phy_input fuel q cfgs ->
  exists q' c', simphy_work fuel q c junk junk' = Ok (q', c') /\ phy_round q c cfgs q' c'.
Proof.
  intros Hc [Hfit Hfuel Hcmd Hcfg Hcf]. unfold simphy_work, recv_from_mac.
  destruct (recv_nodes_ok fuel node_ids q c junk) as (q1 & msg1 & E1 & Hc1 & Hp1 & Ho1 & Hn1);
    [apply incl_refl|apply nodup_node_ids|done|by intros s Hs; split; [apply Hfit|apply Hfuel]|].
  rewrite E1. cbn [rbind].
  destruct (fold_heard (fun s => pending q (mac_in s)) node_ids c) as (_ & Hl1 & Ha1);
    [apply nodup_node_ids|apply incl_refl|done|].
  set (c1 := fold_left _ node_ids c) in *.
  assert (Hcmd1 : pending q1 (msgget MQ_KEY_PHY_COMMAND) = map config_msg cfgs).
  { rewrite <- Hcmd. apply (pushed_nil_iff q q1). apply Hn1; intros n Hn; by apply command_not_mac. }
  destruct (recv_command_ok fuel q1 c1 junk' cfgs) as (q2 & E2 & Hp2 & Ho2); [done..|].
  destruct (configured_all cfgs c1 Hc1 Hcfg) as (Hw & Hn & Hg).
  exists q2, (fold_left configured (map config_msg cfgs) c1). split; [exact E2|].
  split; [done| | |done| | |].
  - intros r Hr. rewrite <- phy_out_delivered by done.
    rewrite <- (app_nil_r (phy_out _ _ _ _)). eapply pushed_app; [by apply Ho1|].
    apply Ho2. intros E. by destruct (command_not_mac r Hr).
  - intros s Hs. rewrite <- (Hp1 s Hs). apply (pushed_nil_iff q1 q2). apply Ho2. intros E.
    by destruct (command_not_mac s Hs).
  - intros i Hi Hne. change (@nil MqMsgbuf) with (@nil MqMsgbuf ++ []). eapply pushed_app.
    + apply Hn1; intros n Hn'; by apply Hne.
    + by apply Ho2.
  - intros r Hr. rewrite <- Ha1 by done. unfold is_alive, get_node. by rewrite Hn.
  - intros a b l Ha Hb E. apply Hg; [done|done|]. unfold get_link in *. by rewrite Hl1.
Qed.

(** C6: The radio simulator distributes frames along its links.  Whatever is in
    the queues of the MAC processes, one round of [simphy_work] returns without
    undefined behaviour, within as many turns as the longest queue has messages,
    and empties them.  To every node it sends exactly the data frames of the
    other nodes that have a line of sight to it, in order, provided the node is
    alive by then, and none of its own; if a queue is full, frames for it are
    lost, but none is reordered, repeated or misdirected.  A node heard of is
    alive from then on.  The commands that waited then set each link in both
    directions, the last one for a pair deciding. *)
Theorem simphy_work_distributes (fuel : nat) (q : Q) (c : SimPhyCtx) (cfgs : list PhyLinkConfig)
  (junk junk' : MqMsgbuf) (Hc : phy_wf c) (Hin : phy_input fuel q cfgs) :
  exists q' c', simphy_work fuel q c junk junk' = Ok (q', c') /\ phy_round q c cfgs q' c'.
Proof. by apply simphy_work_spec. Qed.

(** ** Start *)
Lemma set_node_mq_lookup n s r' (c : SimPhyCtx) nid :
  get_node (set_node_mq n s r' c) nid =
  let* x := get_node c nid in
  Ok (if Z.to_nat n =? Z.to_nat nid then mkNode (alive x) s r' else x)%nat.
Proof.
  unfold get_node, set_node_mq. cbn. destruct (Nat.eqb_spec (Z.to_nat n) (Z.to_nat nid)) as [->|Hne].
  - rewrite list_lookup_alter_eq. by destruct (nodes c !! Z.to_nat nid).
  - rewrite list_lookup_alter_ne by done. by destruct (nodes c !! Z.to_nat nid).
Qed.
(** Every queue can be flushed within the bound. *)
Definition flushable (fuel : nat) (q : Q) : Prop :=
  forall i, Forall fits (pending q i) /\ (length (pending q i) <= fuel)%nat.

Lemma mq_flush_flushable fuel (q : Q) id junk : flushable fuel q ->
  exists q', mq_flush fuel q id junk = Ok q' /\ flushable fuel q' /\
    pending q' id = [] /\ forall i, pending q i = [] -> pending q' i = [].
Proof.
  intros Hq. destruct (Hq id) as [Hf Hl].
  destruct (mq_flush_ok fuel q id junk Hf Hl) as (q' & -> & Hp & _ & Ho). exists q'.
  assert (Hother : forall i, i <> id -> pending q' i = pending q i)
    by (intros i Hi; by apply (pushed_nil_iff q q'), Ho).
  split; [done|]. split; [|split; [done|]].
  - intros i. destruct (Z.eq_dec i id) as [->|Hne]; [rewrite Hp; split; [done|cbn; lia]|].
    rewrite Hother by done. apply Hq.
  - intros i Hi. destruct (Z.eq_dec i id) as [->|Hne]; [done|]. by rewrite Hother.
Qed.

Lemma init_nodes_ok fuel junk l : forall (q : Q) c, flushable fuel q -> incl l node_ids ->
  (forall n, In n node_ids -> exists x, get_node c n = Ok x) ->
  exists q' c', rfold (init_node_mq fuel junk) l (q, c) = Ok (q', c') /\
    flushable fuel q' /\ links c' = links c /\ (forall i, pending q i = [] -> pending q' i = []) /\
    (forall n, In n l -> pending q' (mac_in n) = [] /\ pending q' (mac_out n) = []) /\
    forall n x, In n node_ids -> get_node c n = Ok x ->
      get_node c' n = Ok (if existsb (Z.eqb n) l then mkNode (alive x) (mac_out n) (mac_in n) else x).
Proof.
  induction l as [|s l IH]; intros q c Hq Hin Hc; cbn [rfold].
  { exists q, c. do 5 (split; [done|]). done. }
  apply incl_cons_inv in Hin as [Hs Hin].
  destruct (mq_flush_flushable fuel q (mac_out s) junk Hq) as (q1 & E1 & Hq1 & Hp1 & Hk1).
  destruct (mq_flush_flushable fuel q1 (mac_in s) junk Hq1) as (q2 & E2 & Hq2 & Hp2 & Hk2).
  unfold mac_out in E1. unfold mac_in in E2. unfold init_node_mq at 1. rewrite E1. cbn [rbind].
  rewrite E2. cbn [rbind]. fold (mac_out s) (mac_in s).
  destruct (IH q2 (set_node_mq s (mac_out s) (mac_in s) c)) as (q3 & c3 & E3 & Hq3 & Hl3 & Hk3 & Hp3 & Hn3);
    [done|done| |].
  { intros n Hn. rewrite set_node_mq_lookup. destruct (Hc n Hn) as [x ->]. cbn. eauto. }
  exists q3, c3. split; [exact E3|]. split; [done|]. split; [done|]. split; [by intros i Hi; apply Hk3, Hk2, Hk1|].
  split.
  - intros n [<-|Hn]; [|by apply Hp3]. split; apply Hk3; [done|by apply Hk2].
  - intros n x Hn Ex. erewrite Hn3; [|done|rewrite set_node_mq_lookup, Ex; reflexivity]. cbn [existsb].
    apply in_node_ids in Hn, Hs. destruct (Nat.eqb_spec (Z.to_nat s) (Z.to_nat n)), (Z.eqb_spec n s);
      cbn [orb]; try lia; subst; by destruct (existsb _ l).
Qed.

(** The radio simulator starts clean.  Whatever an earlier run left in the
    queues, [create_simphy_context] and [simphy_init_mq] end with a well-formed
    context in which each node has its own two queues, no node is alive, every
    link is connected, and all the queues the process uses are empty. *)
Theorem simphy_start (fuel : nat) (q : Q) (junk : MqMsgbuf) (Hq : flushable fuel q) :
  exists q' c, simphy_init_mq fuel q create_simphy_context junk = Ok (q', c) /\ phy_wf c /\
    pending q' (msgget MQ_KEY_PHY_COMMAND) = [] /\ pending q' (msgget MQ_KEY_PHY_REPORT) = [] /\
    (forall n, In n node_ids -> is_alive c n = false /\
       pending q' (mac_in n) = [] /\ pending q' (mac_out n) = []) /\
    forall a b, In a node_ids -> In b node_ids -> line_of_sight c a b = true.
Proof.
  assert (Hn0 : forall n, In n node_ids -> get_node create_simphy_context n = Ok (mkNode 0 0 0)).
  { intros n Hn%in_node_ids. unfold get_node. cbn [nodes create_simphy_context init_link_state set_links].
    by rewrite lookup_replicate_2 by (unfold MAX_NODE_ID; lia). }
  assert (Hl0 : forall a b, In a node_ids -> In b node_ids ->
      get_link create_simphy_context a b = Ok (mkLink 1 0)).
  { intros a b Ha%in_node_ids Hb%in_node_ids. unfold get_link.
    cbn [links create_simphy_context init_link_state set_links].
    rewrite lookup_replicate_2 by (unfold MAX_NODE_ID; lia). cbn [deref rbind].
    by rewrite lookup_replicate_2 by (unfold MAX_NODE_ID; lia). }
  destruct (init_nodes_ok fuel junk node_ids q create_simphy_context Hq (incl_refl _))
    as (q1 & c1 & E1 & Hq1 & Hl1 & _ & Hp1 & Hn1); [by intros n Hn; rewrite Hn0 by done; eauto|].
  destruct (mq_flush_flushable fuel q1 (msgget MQ_KEY_PHY_REPORT) junk Hq1) as (q2 & E2 & Hq2 & Hp2 & Hk2).
  destruct (mq_flush_flushable fuel q2 (msgget MQ_KEY_PHY_COMMAND) junk Hq2) as (q3 & E3 & Hq3 & Hp3 & Hk3).
  unfold simphy_init_mq. rewrite E1. cbn [rbind]. rewrite E2. cbn [rbind]. rewrite E3. cbn [rbind].
  eexists q3, _. split; [reflexivity|].
  assert (Hn : forall n, In n node_ids -> get_node c1 n = Ok (mkNode 0 (mac_out n) (mac_in n))).
  { intros n Hn. rewrite (Hn1 n (mkNode 0 0 0)) by (done || by apply Hn0).
    replace (existsb (Z.eqb n) node_ids) with true; [done|]. symmetry. apply existsb_exists. exists n.
    by rewrite Z.eqb_refl. }
  assert (Hl : forall a b, In a node_ids -> In b node_ids -> get_link c1 a b = Ok (mkLink 1 0)).
  { intros a b Ha Hb. unfold get_link. rewrite Hl1. by apply Hl0. }
  split; [|split; [done|split; [by apply Hk3|split]]].
  - split; [by intros n Hin; exists 0; apply Hn|by intros a b Ha Hb; exists (mkLink 1 0); apply Hl|done].
  - intros n Hin. destruct (Hp1 n Hin) as [Hi Ho]. split; [|by split; apply Hk3, Hk2].
    unfold is_alive. change (get_node _ n) with (get_node c1 n). by rewrite Hn.
  - intros a b Ha Hb. unfold line_of_sight. change (get_link _ a b) with (get_link c1 a b). by rewrite Hl.
Qed.
End Phy.

(** Three live nodes in a row: 0 and 1, and 1 and 2 see each other, 0 and 2 do not.
    A frame of the node 1 reaches both, a frame of 0 only 1.  The command takes
    effect after that. *)
Definition ex_phy : SimPhyCtx :=
  mkPhy (map (fun n => mkNode (if n <? 3 then 1 else 0) (MQ_KEY_PHY_TO_MAC + n) (MQ_KEY_MAC_TO_PHY + n))
             node_ids) MQ_KEY_PHY_COMMAND MQ_KEY_PHY_REPORT
    (map (fun a => map (fun b => mkLink (if Z.abs (a - b) <? 2 then 1 else 0) 0) node_ids) node_ids).
Definition ex_junk : MqMsgbuf := mkMsg 0 (replicate 5000 0).
Definition ex_cfg : PhyLinkConfig := mkPhyLinkConfig 0 2 1 7.
Definition ex_queues : ListQueues :=
  mkLq 10 (<[MQ_KEY_MAC_TO_PHY + 0 := [mkMsg 1 [10; 11]]]>
          (<[MQ_KEY_MAC_TO_PHY + 1 := [mkMsg 1 [20]; mkMsg 3 []]]>
          (<[MQ_KEY_PHY_COMMAND := [config_msg ex_cfg]]> ∅))).

Example ex_phy_round :
  match simphy_work 2 ex_queues ex_phy ex_junk ex_junk with
  | Ok (q, c) => (map (fun n => lq_pending q (MQ_KEY_PHY_TO_MAC + n)) [0; 1; 2; 3], get_link c 2 0)
  | _ => ([], UB)
  end = ([[mkMsg 1 [20]]; [mkMsg 1 [10; 11]]; [mkMsg 1 [20]]; []], Ok (mkLink 1 7)).
Proof. vm_compute. reflexivity. Qed.

Lemma ex_phy_wf : phy_wf ex_phy.
Proof.
  assert (Hn : forallb (fun n => match get_node ex_phy n with
      | Ok (mkNode _ s r) => (s =? MQ_KEY_PHY_TO_MAC + n) && (r =? MQ_KEY_MAC_TO_PHY + n) | _ => false end)
      node_ids = true) by (vm_compute; reflexivity).
  assert (Hl : forallb (fun a => forallb (fun b => is_ok (get_link ex_phy a b)) node_ids) node_ids = true)
    by (vm_compute; reflexivity).
  rewrite forallb_forall in Hn, Hl. split; [| |done].
  - intros n Hin. specialize (Hn n Hin). destruct (get_node ex_phy n) as [[a s r]| | |]; try done.
    apply andb_prop in Hn as [->%Z.eqb_eq ->%Z.eqb_eq]. by exists a.
  - intros a b Ha Hb. specialize (Hl a Ha). rewrite forallb_forall in Hl. specialize (Hl b Hb).
    destruct (get_link ex_phy a b); try done. eauto.
Qed.

Lemma ex_phy_input : phy_input 2 ex_queues [ex_cfg].
Proof.
  assert (H : forallb (fun s => forallb (fun m => zlen (text m) <=? MQ_MAX_DATA_LEN)
      (pending ex_queues (mac_in s)) && (length (pending ex_queues (mac_in s)) <=? 2)%nat) node_ids = true)
    by (vm_compute; reflexivity).
  rewrite forallb_forall in H. split; [| |done| |cbn; lia].
  - intros s Hs. specialize (H s Hs). apply andb_prop in H as [H _]. rewrite forallb_forall in H.
    apply List.Forall_forall. intros m Hm. unfold fits. specialize (H m Hm). lia.
  - intros s Hs. specialize (H s Hs). apply andb_prop in H as [_ H]. by apply Nat.leb_le in H.
  - repeat constructor; try (apply in_node_ids; cbn; lia); cbn; unfold is_u8, is_u32; lia.
Qed.

Lemma simphy_work_distributes_witness :
  exists q' c', simphy_work 2 ex_queues ex_phy ex_junk ex_junk = Ok (q', c') /\
    phy_round ex_queues ex_phy [ex_cfg] q' c'.
Proof. apply simphy_work_distributes; [exact ex_phy_wf|exact ex_phy_input]. Defined.

Lemma ex_flushable : flushable 1 (mkLq 1 (<[MQ_KEY_PHY_COMMAND := [config_msg ex_cfg]]> ∅)).
Proof.
  intros i. cbn [pending list_queues]. unfold lq_pending. cbn [lq_queues].
  destruct (Z.eq_dec i MQ_KEY_PHY_COMMAND) as [->|Hne].
  - rewrite lookup_insert_eq. cbn. split; [|lia]. by repeat constructor.
  - rewrite lookup_insert_ne by done. rewrite lookup_empty. cbn. split; [done|lia].
Qed.

Lemma simphy_start_witness :
  exists q' c, simphy_init_mq 1 (mkLq 1 (<[MQ_KEY_PHY_COMMAND := [config_msg ex_cfg]]> ∅))
      create_simphy_context ex_junk = Ok (q', c) /\ phy_wf c /\
    pending q' (msgget MQ_KEY_PHY_COMMAND) = [] /\ pending q' (msgget MQ_KEY_PHY_REPORT) = [] /\
    (forall n, In n node_ids -> is_alive c n = false /\
       pending q' (mac_in n) = [] /\ pending q' (mac_out n) = []) /\
    forall a b, In a node_ids -> In b node_ids -> line_of_sight c a b = true.
Proof. apply simphy_start. exact ex_flushable. Defined.
