(* ===== verification/Mac.v ===== *)
(** The MAC process of a node (simmac/simmac.c): a relay between the queues of
    the node process and those of the radio simulator, in both directions. *)
From S2P Require Import Prelude MsgQueue.
From stdpp Require Import base list numbers gmap.
From Stdlib Require Import ZArith Lia.
Open Scope Z_scope.
Open Scope c_scope.

Record SimMacCtx : Type := mkMac {
  mac_node_id : Z;
  mqid_recv_net : Z;
  mqid_send_net : Z;
  mqid_recv_phy : Z;
  mqid_send_phy : Z
}.

Section Mac.
Context {Q : Type} `{MsgService Q}.

Definition init_mq (fuel : nat) (q : Q) (node_id : Z) (junk : MqMsgbuf) : res (Q * SimMacCtx) :=
  let mqid_send_net := msgget (MQ_KEY_MAC_TO_NET + node_id) in
  let mqid_recv_net := msgget (MQ_KEY_NET_TO_MAC + node_id) in
  let mqid_send_phy := msgget (MQ_KEY_MAC_TO_PHY + node_id) in
  let mqid_recv_phy := msgget (MQ_KEY_PHY_TO_MAC + node_id) in
  let* q := mq_flush fuel q mqid_send_net junk in
  let* q := mq_flush fuel q mqid_recv_net junk in
  let* q := mq_flush fuel q mqid_send_phy junk in
  let* q := mq_flush fuel q mqid_recv_phy junk in
  Ok (q, mkMac node_id mqid_recv_net mqid_send_net mqid_recv_phy mqid_send_phy).

Definition sendto_net (q : Q) (smctx : SimMacCtx) (data : list Z) (len type : Z) : res Q :=
  let* r := send_mq q (mqid_send_net smctx) data len type in Ok (fst r).
Definition sendto_phy (q : Q) (smctx : SimMacCtx) (data : list Z) (len type : Z) : res Q :=
  let* r := send_mq q (mqid_send_phy smctx) data len type in Ok (fst r).

Definition process_net_msg (q : Q) (smctx : SimMacCtx) (data : list Z) (len : Z) : res Q :=
  sendto_phy q smctx data len MESSAGE_TYPE_DATA.
Definition process_phy_msg (q : Q) (smctx : SimMacCtx) (data : list Z) (len : Z) : res Q :=
  sendto_net q smctx data len MESSAGE_TYPE_DATA.

(** A loop body without a state of its own. *)
Definition stateless (f : Q -> list Z -> Z -> res Q) (q : Q) (msg : MqMsgbuf) (r : Z) (u : unit)
  : res (Q * unit) :=
  let* q := f q (text msg) r in Ok (q, u).

(** The two loops share the receive buffer. *)
Definition poll_mq (fuel : nat) (q : Q) (smctx : SimMacCtx) (msg : MqMsgbuf) : res Q :=
  let* r := recv_loop (stateless (fun q => process_net_msg q smctx)) fuel q (mqid_recv_net smctx) msg tt in
  let '(q, _, msg) := r in
  let* r := recv_loop (stateless (fun q => process_phy_msg q smctx)) fuel q (mqid_recv_phy smctx) msg tt in
  Ok (fst (fst r)).

(** [main] up to the main loop: the queues, and a heartbeat of no bytes. *)
Definition mac_start (fuel : nat) (q : Q) (node_id : Z) (junk : MqMsgbuf) : res (Q * SimMacCtx) :=
  let* r := init_mq fuel q node_id junk in
  let '(q, smctx) := r in
  let* q := sendto_phy q smctx [] 0 MESSAGE_TYPE_HEARTBEAT in
  Ok (q, smctx).

(** ** The context of a node *)
Definition mac_ctx (n : Z) : SimMacCtx :=
  mkMac n (msgget (MQ_KEY_NET_TO_MAC + n)) (msgget (MQ_KEY_MAC_TO_NET + n))
    (msgget (MQ_KEY_PHY_TO_MAC + n)) (msgget (MQ_KEY_MAC_TO_PHY + n)).

(** Every message is passed on as data. *)
Definition as_data (m : MqMsgbuf) : MqMsgbuf := mkMsg MESSAGE_TYPE_DATA (text m).

Context {QOk : MsgServiceOk Q}.

(** ** Relaying one queue to another *)
Section Relay.
Context (from to : Z) (f : Q -> list Z -> Z -> res Q).
Hypothesis f_sends : forall q data len, f q data len =
  (let* r := send_mq q to data len MESSAGE_TYPE_DATA in Ok (fst r)).
Hypothesis Hne : from <> to.

Lemma relay_one (q : Q) m junk : fits m ->
  exists q', f q (text m ++ junk) (zlen (text m)) = Ok q' /\
    pushed q q' to [as_data m] /\ forall i, i <> to -> pushed q q' i [].
Proof.
  intros Hm. rewrite f_sends.
  destruct (send_mq_ok q to (text m ++ junk) (zlen (text m)) MESSAGE_TYPE_DATA (text m))
    as (q' & r & -> & Hp & Ho); [done|done|by apply (zslice_prefix _ (text m) junk)|].
  by exists q'.
Qed.

Lemma relay_loop fuel (q : Q) msg :
  Forall fits (pending q from) -> (length (pending q from) <= fuel)%nat ->
  exists q' msg', recv_loop (stateless f) fuel q from msg tt = Ok (q', tt, msg') /\
    pending q' from = [] /\ pushed q q' to (map as_data (pending q from)) /\
    (forall k, room q from k -> room q' from k) /\
    forall i, i <> from -> i <> to -> pushed q q' i [].
Proof.
  intros Hfit Hfuel.
  destruct (recv_loop_ok (S:=unit) (stateless f) from (fun u _ => u)
    (fun _ m i => if i =? to then [as_data m] else []) (fun _ => True) fits)
    with (ms := pending q from) (fuel := fuel) (q := q) (msg := msg) (s := tt)
    as (q' & msg' & E & Hp & _ & Hr & Ho); try done.
  - intros q1 m junk [] _ Hm. destruct (relay_one q1 m junk Hm) as (q2 & E & Hp & Ho).
    exists q2. unfold stateless. cbn [text]. rewrite E. split; [done|]. split; [done|]. split.
    + by destruct (Z.eqb_spec from to).
    + intros i. destruct (Z.eqb_spec i to) as [->|]; [done|by apply Ho].
  - exists q', msg'. rewrite E. split; [by destruct (fold_left _ _ _)|]. split; [done|].
    assert (Hall : forall ms i, all_out (fun u _ => u)
        (fun _ m i => if i =? to then [as_data m] else []) tt ms i =
        if i =? to then map as_data ms else []).
    { intros ms i. induction ms as [|m ms IH]; cbn [all_out map]; [by destruct (i =? to)|].
      rewrite IH. by destruct (i =? to). }
    split; [|split; [done|]].
    + specialize (Ho to (not_eq_sym Hne)). by rewrite Hall, Z.eqb_refl in Ho.
    + intros i Hi Ht. specialize (Ho i Hi). rewrite Hall in Ho. by destruct (Z.eqb_spec i to).
Qed.
End Relay.

(** ** One round *)
Definition net_down (n : Z) : Z := msgget (MQ_KEY_NET_TO_MAC + n).
Definition net_up (n : Z) : Z := msgget (MQ_KEY_MAC_TO_NET + n).
Definition phy_down (n : Z) : Z := msgget (MQ_KEY_MAC_TO_PHY + n).
Definition phy_up (n : Z) : Z := msgget (MQ_KEY_PHY_TO_MAC + n).

(** The queues of two layers, or of two nodes on one, are different. *)
Lemma node_queue_neq k1 k2 n m : In n node_ids -> In m node_ids ->
  256 <= Z.abs (k1 - k2) -> msgget (k1 + n) <> msgget (k2 + m).
Proof.
  intros Hn Hm Hk E. apply in_node_ids in Hn, Hm. apply msgget_inj in E. lia.
Qed.

Ltac queues_differ := first [apply node_queue_neq; [done|done|vm_compute; discriminate]].

Record mac_round (n : Z) (q q' : Q) : Prop := {
  mac_down : pushed q q' (phy_down n) (map as_data (pending q (net_down n)));
  mac_up : pushed q q' (net_up n) (map as_data (pending q (phy_up n)));
  mac_down_done : pending q' (net_down n) = [];
  mac_up_done : pending q' (phy_up n) = [];
  mac_room_down : forall k, room q (net_down n) k -> room q' (net_down n) k;
  mac_room_up : forall k, room q (phy_up n) k -> room q' (phy_up n) k;
  mac_others : forall i, i <> net_down n -> i <> net_up n -> i <> phy_down n -> i <> phy_up n ->
    pushed q q' i []
}.

Lemma poll_mq_spec fuel (q : Q) n msg : In n node_ids ->
  Forall fits (pending q (net_down n)) -> Forall fits (pending q (phy_up n)) ->
  (length (pending q (net_down n)) <= fuel)%nat -> (length (pending q (phy_up n)) <= fuel)%nat ->
  exists q', poll_mq fuel q (mac_ctx n) msg = Ok q' /\ mac_round n q q'.
Proof.
  intros Hn Hf1 Hf2 Hl1 Hl2. unfold poll_mq. cbn [mac_ctx mqid_recv_net mqid_recv_phy].
  assert (D : net_down n <> phy_down n /\ net_down n <> net_up n /\ net_down n <> phy_up n /\
    phy_up n <> net_up n /\ phy_up n <> phy_down n /\ net_up n <> phy_down n)
    by (repeat split; queues_differ).
  destruct D as (D1 & D2 & D3 & D4 & D5 & D6).
  destruct (relay_loop (net_down n) (phy_down n) (fun q => process_net_msg q (mac_ctx n)))
    with (fuel := fuel) (q := q) (msg := msg) as (q1 & msg1 & E1 & Hp1 & Ho1 & Hr1 & Hx1); try done.
  fold (net_down n). rewrite E1. cbn [rbind].
  assert (Hsame : pending q1 (phy_up n) = pending q (phy_up n))
    by (apply (pushed_nil_iff q q1); by apply Hx1).
  destruct (relay_loop (phy_up n) (net_up n) (fun q => process_phy_msg q (mac_ctx n)))
    with (fuel := fuel) (q := q1) (msg := msg1) as (q2 & msg2 & E2 & Hp2 & Ho2 & Hr2 & Hx2);
    try done; try by rewrite Hsame.
  fold (phy_up n). rewrite E2. cbn [rbind fst]. exists q2. split; [done|].
  assert (N1 : forall i, pushed q q1 i [] -> forall k, room q i k -> room q1 i k)
    by (intros i Hi; by apply pushed_nil_iff).
  split.
  - rewrite <- (app_nil_r (map as_data _)). eapply pushed_app; [exact Ho1|by apply Hx2].
  - rewrite <- Hsame. change (map as_data (pending q1 (phy_up n)))
      with ([] ++ map as_data (pending q1 (phy_up n))).
    eapply pushed_app; [by apply Hx1|exact Ho2].
  - rewrite <- Hp1. apply (pushed_nil_iff q1 q2). by apply Hx2.
  - done.
  - intros k Hk. apply (pushed_nil_iff q1 q2); [by apply Hx2|by apply Hr1].
  - intros k Hk. apply Hr2, (N1 (phy_up n)); [by apply Hx1|done].
  - intros i H1 H2 H3 H4. change (@nil MqMsgbuf) with (@nil MqMsgbuf ++ []).
    eapply pushed_app; [by apply Hx1|by apply Hx2].
Qed.
End Mac.
