(* ===== verification/Cll.v ===== *)
(** Circular doubly linked lists (util/cll.h, util/cll.c).

    The heap maps the address of a node to its two pointers; address 0 is the
    null pointer, and a load or store through an address that is not in the heap
    is [UB].  [ring h head l] says that the nodes of [l] are linked, in this
    order and in both directions, into a circle through [head].  The theorem
    relates every sequence of operations to the sequence [l]; the files that use
    a list of the program as a Rocq list ([RoutingEntry.route], the visit queue
    of the route computation, [iface_addr_list], the sorted MAC slots) rely on
    it. *)
From S2P Require Import Prelude.
From stdpp Require Import base list numbers gmap.
From Stdlib Require Import ZArith Lia.
Open Scope Z_scope.
Open Scope c_scope.

Record CllElem : Type := mkCll { prev : Z; next : Z }.
Abbreviation cheap := (gmap Z CllElem).

Definition get_prev (h : cheap) (p : Z) : res Z := let* e := deref (h !! p) in Ok (prev e).
Definition get_next (h : cheap) (p : Z) : res Z := let* e := deref (h !! p) in Ok (next e).
Definition put_prev (h : cheap) (p v : Z) : res cheap :=
  let* e := deref (h !! p) in Ok (<[p := {| prev := v; next := next e |}]> h).
Definition put_next (h : cheap) (p v : Z) : res cheap :=
  let* e := deref (h !! p) in Ok (<[p := {| prev := prev e; next := v |}]> h).

Definition cll_init_head (h : cheap) (head : Z) : res (cheap * Z) :=
  let* h := put_next h head head in
  let* h := put_prev h head head in
  Ok (h, 0).

Definition cll_add_tail (h : cheap) (head elem : Z) : res (cheap * Z) :=
  if (head =? 0) || (elem =? 0) then Ok (h, -1)
  else
    let* pprev := get_prev h head in
    let* h := put_next h pprev elem in
    let* h := put_prev h elem pprev in
    let* h := put_prev h head elem in
    let* h := put_next h elem head in
    Ok (h, 1).

Definition cll_delete (h : cheap) (head delete_elem : Z) : res (cheap * Z) :=
  if (head =? 0) || (delete_elem =? 0) then Ok (h, -1)
  else
    let* dprev := get_prev h delete_elem in
    let* dnext := get_next h delete_elem in
    let* h := put_next h dprev dnext in
    let* h := put_prev h dnext dprev in
    Ok (h, 1).

(** The popped node, or 0 for a null pointer. *)
Definition cll_pop_head (h : cheap) (head : Z) : res (cheap * Z) :=
  if head =? 0 then Ok (h, 0)
  else
    let* first := get_next h head in
    if negb (first =? head) then
      let* r := cll_delete h head first in Ok (fst r, first)
    else Ok (h, 0).

(** [cll_foreach]: the nodes the loop visits from [trav_elem] on. *)
Fixpoint cll_foreach (fuel : nat) (h : cheap) (trav_elem head : Z) : res (list Z) :=
  match fuel with
  | O => NoFuel
  | S n =>
    if trav_elem =? head then Ok []
    else
      let* nxt := get_next h trav_elem in
      let* l := cll_foreach n h nxt head in
      Ok (trav_elem :: l)
  end.

Definition cll_no_entry (h : cheap) (head : Z) : res bool :=
  let* n := get_next h head in Ok (n =? head).
Definition cll_one_entry (h : cheap) (head : Z) : res bool :=
  let* n := get_next h head in
  let* m := get_next h n in Ok (m =? head).

(** ** Rings *)
Fixpoint chain (h : cheap) (a : Z) (l : list Z) (b : Z) : Prop :=
  match l with
  | [] => get_next h a = Ok b /\ get_prev h b = Ok a
  | x :: l' => get_next h a = Ok x /\ get_prev h x = Ok a /\ chain h x l' b
  end.

Definition ring (h : cheap) (head : Z) (l : list Z) : Prop :=
  List.NoDup (head :: l) /\ ~ In 0 (head :: l) /\ chain h head l head.

Lemma chain_app h a l1 x l2 b :
  chain h a (l1 ++ x :: l2) b <-> chain h a l1 x /\ chain h x l2 b.
Proof. revert a. induction l1 as [|y l1 IH]; intros a; cbn; [|rewrite IH]; tauto. Qed.

(** A chain depends on the [next] of all but its end and on the [prev] of all but
    its start. *)
Lemma chain_frame h h' a l b :
  (forall p, In p (a :: l) -> get_next h' p = get_next h p) ->
  (forall p, In p l \/ p = b -> get_prev h' p = get_prev h p) ->
  chain h a l b -> chain h' a l b.
Proof.
  revert a. induction l as [|x l IH]; intros a Hn Hp; cbn.
  - rewrite Hn, Hp by (cbn; auto). done.
  - rewrite Hn, Hp by (cbn; auto). intros (? & ? & H). split; [done|]. split; [done|].
    apply IH; [..|done]; intros; [apply Hn|apply Hp]; cbn in *; tauto.
Qed.

Lemma put_next_ok h p v n : get_next h p = Ok n ->
  exists h', put_next h p v = Ok h' /\
    (forall q, get_next h' q = if q =? p then Ok v else get_next h q) /\
    (forall q, get_prev h' q = get_prev h q) /\ dom h' = dom h.
Proof.
  unfold get_next, get_prev, put_next. destruct (h !! p) as [e|] eqn:E; [|done]. cbn. intros _.
  eexists. split; [done|]. split; [|split].
  - intros q. destruct (Z.eqb_spec q p) as [->|]; [by rewrite lookup_insert_eq|].
    by rewrite lookup_insert_ne.
  - intros q. destruct (decide (p = q)) as [->|]; [by rewrite lookup_insert_eq, E|].
    by rewrite lookup_insert_ne.
  - rewrite dom_insert_L. apply subseteq_union_1_L, singleton_subseteq_l. by eapply elem_of_dom_2.
Qed.

Lemma put_prev_ok h p v n : get_prev h p = Ok n ->
  exists h', put_prev h p v = Ok h' /\
    (forall q, get_prev h' q = if q =? p then Ok v else get_prev h q) /\
    (forall q, get_next h' q = get_next h q) /\ dom h' = dom h.
Proof.
  unfold get_next, get_prev, put_prev. destruct (h !! p) as [e|] eqn:E; [|done]. cbn. intros _.
  eexists. split; [done|]. split; [|split].
  - intros q. destruct (Z.eqb_spec q p) as [->|]; [by rewrite lookup_insert_eq|].
    by rewrite lookup_insert_ne.
  - intros q. destruct (decide (p = q)) as [->|]; [by rewrite lookup_insert_eq, E|].
    by rewrite lookup_insert_ne.
  - rewrite dom_insert_L. apply subseteq_union_1_L, singleton_subseteq_l. by eapply elem_of_dom_2.
Qed.

Lemma in_heap h p : p ∈ dom h -> exists n v, get_next h p = Ok n /\ get_prev h p = Ok v.
Proof.
  unfold get_next, get_prev. intros [e ->]%elem_of_dom. cbn. eauto.
Qed.

(** Decides the comparisons of addresses that are known to differ or not. *)
Ltac addr_eq :=
  repeat match goal with
  | |- context [ ?a =? ?a ] => rewrite (Z.eqb_refl a)
  | |- context [ ?a =? ?b ] =>
      first [ rewrite (proj2 (Z.eqb_neq a b)) by (intros ->; cbn in *; tauto || congruence)
            | rewrite (proj2 (Z.eqb_eq a b)) by congruence ]
  end.

Lemma cll_init_head_spec h head :
  head <> 0 -> head ∈ dom h ->
  exists h', cll_init_head h head = Ok (h', 0) /\ ring h' head [] /\ dom h' = dom h.
Proof.
  intros H0 Hd. destruct (in_heap h head Hd) as (n & v & Hn & Hv).
  destruct (put_next_ok h head head n Hn) as (h1 & E1 & N1 & P1 & D1).
  destruct (put_prev_ok h1 head head v) as (h2 & E2 & P2 & N2 & D2); [by rewrite P1|].
  exists h2. unfold cll_init_head. rewrite E1. cbn. rewrite E2. cbn.
  split; [done|]. split; [|congruence].
  split; [repeat constructor; tauto|]. split; [cbn; tauto|]. cbn.
  rewrite N2, N1, P2. addr_eq. done.
Qed.

Lemma cll_add_tail_spec h head l elem :
  ring h head l -> elem <> 0 -> elem ∈ dom h -> ~ In elem (head :: l) ->
  exists h', cll_add_tail h head elem = Ok (h', 1) /\ ring h' head (l ++ [elem]) /\ dom h' = dom h.
Proof.
  intros (Hnd & H0 & Hc) He Hd Hin. destruct (in_heap h elem Hd) as (en & ev & Hen & Hev).
  assert (Hhead : head <> 0) by (intros ->; apply H0; now left).
  assert (Hla : exists la, get_prev h head = Ok la /\ get_next h la = Ok head /\
    ((l = [] /\ la = head) \/ exists l0, l = l0 ++ [la] /\ chain h head l0 la)).
  { destruct l as [|x l' _] using rev_ind; [exists head; cbn in Hc; intuition|].
    exists x. apply chain_app in Hc as (Hc1 & Hc2 & Hc3). split; [done|]. split; [done|]. eauto. }
  destruct Hla as (la & Hp & Hn & Hl).
  destruct (put_next_ok h la elem head Hn) as (h1 & E1 & N1 & P1 & D1).
  destruct (put_prev_ok h1 elem la ev) as (h2 & E2 & P2 & N2 & D2); [by rewrite P1|].
  assert (Hhe : head <> elem) by (intros ->; apply Hin; now left).
  destruct (put_prev_ok h2 head elem la) as (h3 & E3 & P3 & N3 & D3);
    [rewrite P2, P1; addr_eq; done|].
  assert (Hlae : la <> elem).
  { intros ->. apply Hin. destruct Hl as [[_ ->]|(l0 & -> & _)]; [now left|].
    right. apply in_app_iff. right. now left. }
  destruct (put_next_ok h3 elem head en) as (h4 & E4 & N4 & P4 & D4);
    [rewrite N3, N2, N1; addr_eq; done|].
  exists h4. unfold cll_add_tail. rewrite (proj2 (Z.eqb_neq head 0)), (proj2 (Z.eqb_neq elem 0)) by done.
  cbn. rewrite Hp. cbn. rewrite E1. cbn. rewrite E2. cbn. rewrite E3. cbn. rewrite E4. cbn.
  split; [done|]. split; [|congruence].
  split; [by apply (nodup_snoc (head :: l))|]. split.
  { intros [?|Hi]; [done|]. apply in_app_iff in Hi as [?|[?|[]]]; [|done]. apply H0. now right. }
  destruct Hl as [[-> ->]|(l0 & -> & Hc1)].
  - cbn. rewrite N4, !P4, P3, N3, N2, N1, P3, P2, N4. addr_eq. done.
  - rewrite <- app_assoc. apply chain_app. cbn [app chain].
    rewrite !N4, !P4, !P3, !N3, !N2, !N1, P2.
    assert (Hnx : ~ In la (head :: l0)).
    { intros Hi. apply (NoDup_remove_2 (head :: l0) [] la); cbn; [done|]. by rewrite app_nil_r. }
    assert (la <> head) by (intros ->; apply Hnx; now left). addr_eq. split; [|done].
    assert (Hei : ~ In elem (head :: l0)) by (intros Hi; apply Hin; cbn in *; rewrite in_app_iff; tauto).
    revert Hc1. apply chain_frame.
    + intros p Hpi. rewrite N4, N3, N2, N1. addr_eq. done.
    + intros p Hpi. rewrite P4, P3, P2, P1.
      assert (p <> head).
      { intros ->. destruct Hpi as [Hi| ->]; [|done]. inversion Hnd. rewrite in_app_iff in *. tauto. }
      assert (p <> elem) by (intros ->; destruct Hpi as [Hi| ->]; [cbn in Hei; tauto|done]).
      addr_eq. done.
Qed.

(** The last link of a chain can be redirected. *)
Lemma chain_last h a l x :
  chain h a l x -> List.NoDup (a :: l) ->
  exists p, get_prev h x = Ok p /\ get_next h p = Ok x /\ In p (a :: l) /\
    forall h' b, get_next h' p = Ok b -> get_prev h' b = Ok p ->
      (forall r, In r (a :: l) -> r <> p -> get_next h' r = get_next h r) ->
      (forall r, In r l -> get_prev h' r = get_prev h r) -> chain h' a l b.
Proof.
  revert a. induction l as [|y l IH]; intros a; cbn [chain].
  - intros [Hn Hp] _. exists a. repeat split; auto. now left.
  - intros (Hn & Hp & Hc) Hnd. inversion Hnd as [|? ? Hni Hnd']; subst.
    destruct (IH y Hc Hnd') as (p & Hxp & Hpx & Hin & Hre). exists p.
    split; [done|]. split; [done|]. split; [by right|]. intros h' b Hn' Hp' Hf Hg.
    assert (a <> p) by congruence.
    rewrite Hf, Hg by (cbn; auto). split; [done|]. split; [done|].
    apply Hre; [done|done|..]; intros; [apply Hf|apply Hg]; cbn in *; tauto.
Qed.

Lemma cll_delete_spec h head l1 x l2 :
  ring h head (l1 ++ x :: l2) ->
  exists h', cll_delete h head x = Ok (h', 1) /\ ring h' head (l1 ++ l2) /\ dom h' = dom h.
Proof.
  intros (Hnd & H0 & Hc). apply chain_app in Hc as [Hc1 Hc2].
  assert (Hnd' := Hnd). change (head :: l1 ++ x :: l2) with ((head :: l1) ++ x :: l2) in Hnd'.
  assert (Hx1 : ~ In x ((head :: l1) ++ l2)) by (by apply NoDup_remove_2).
  apply NoDup_remove_1 in Hnd'.
  assert (Hnd1 : List.NoDup (head :: l1)) by (by apply NoDup_app_remove_r in Hnd').
  destruct (chain_last _ _ _ _ Hc1 Hnd1) as (p & Hxp & Hpx & Hp & Hre).
  assert (Hq : exists q, get_next h x = Ok q /\ get_prev h q = Ok x /\
    ((l2 = [] /\ q = head) \/ exists l2', l2 = q :: l2' /\ chain h q l2' head)).
  { destruct l2 as [|q l2']; cbn in Hc2; [exists head; tauto|]. exists q.
    split; [tauto|]. split; [tauto|]. right. exists l2'. tauto. }
  destruct Hq as (q & Hxq & Hqx & Hl2).
  destruct (put_next_ok h p q x Hpx) as (h1 & E1 & N1 & P1 & D1).
  destruct (put_prev_ok h1 q p x) as (h2 & E2 & P2 & N2 & D2); [by rewrite P1|].
  assert (Hhead : head <> 0) by (intros ->; apply H0; now left).
  assert (Hx0 : x <> 0).
  { intros ->. apply H0. right. apply in_app_iff. right. now left. }
  exists h2. unfold cll_delete. rewrite (proj2 (Z.eqb_neq head 0)), (proj2 (Z.eqb_neq x 0)) by done.
  cbn [orb]. rewrite Hxp. cbn. rewrite Hxq. cbn. rewrite E1. cbn. rewrite E2. cbn.
  split; [done|]. split; [|congruence]. split; [done|].
  split. { intros Hi. apply H0. cbn in *. rewrite in_app_iff in *. cbn. tauto. }
  assert (Hq1 : ~ In q l1).
  { destruct Hl2 as [[-> ->]|(l2' & -> & _)].
    - by inversion Hnd1.
    - intros Hi. apply (NoDup_remove_2 (head :: l1) l2' q Hnd'). cbn. rewrite in_app_iff. tauto. }
  assert (Hc1' : chain h2 head l1 q).
  { apply Hre.
    - rewrite N2, N1. addr_eq. done.
    - rewrite P2. addr_eq. done.
    - intros r Hr Hrp. rewrite N2, N1. addr_eq. done.
    - intros r Hr. rewrite P2, P1. assert (r <> q) by (intros ->; done). addr_eq. done. }
  destruct Hl2 as [[-> ->]|(l2' & -> & Hc3)]; [by rewrite app_nil_r|].
  apply chain_app. split; [done|]. revert Hc3. 
  assert (Hq2 := NoDup_remove_2 (head :: l1) l2' q Hnd'). rewrite in_app_iff in Hq2.
  apply chain_frame; intros r Hr.
  - rewrite N2, N1. assert (r <> p); [|addr_eq; done]. intros ->.
    destruct Hr as [->|Hr]; [tauto|].
    apply NoDup_remove_1 in Hnd'. revert Hnd' Hp Hr. clear.
    generalize (head :: l1). intros l Hn H1 H2.
    induction l as [|a l IH]; [done|]. cbn in Hn. inversion Hn; subst.
    destruct H1 as [->|H1]; [|auto]. rewrite in_app_iff in *. tauto.
  - rewrite P2, P1. assert (r <> q); [|addr_eq; done]. intros ->.
    destruct Hr as [Hr| ->]; [tauto|]. apply Hq2. left. now left.
Qed.

Lemma cll_pop_head_spec h head l :
  ring h head l ->
  exists h', cll_pop_head h head = Ok (h', match l with x :: _ => x | [] => 0 end) /\
    ring h' head (tail l) /\ dom h' = dom h.
Proof.
  intros Hr. assert (Hr' := Hr). destruct Hr' as (Hnd & H0 & Hc).
  assert (Hhead : head <> 0) by (intros ->; apply H0; now left).
  unfold cll_pop_head. rewrite (proj2 (Z.eqb_neq head 0)) by done.
  destruct l as [|x l]; cbn in Hc.
  - destruct Hc as [-> _]. cbn. rewrite Z.eqb_refl. cbn. eauto.
  - destruct Hc as (-> & _). cbn. assert (x <> head) by (intros ->; inversion Hnd; cbn in *; tauto).
    addr_eq. cbn. destruct (cll_delete_spec h head [] x l Hr) as (h' & -> & ? & ?). cbn. eauto.
Qed.

Lemma cll_foreach_chain h head l a fuel :
  chain h a l head -> ~ In head l -> (length l < fuel)%nat ->
  exists n, get_next h a = Ok n /\ cll_foreach fuel h n head = Ok l.
Proof.
  revert a fuel. induction l as [|x l IH]; intros a [|fuel] Hc Hni Hf; cbn in Hf; try lia.
  - destruct Hc as [Hn _]. exists head. split; [done|]. cbn. by rewrite Z.eqb_refl.
  - destruct Hc as (Hn & _ & Hc). exists x. split; [done|]. cbn.
    assert (x <> head) by (intros ->; apply Hni; now left). addr_eq.
    destruct (IH x fuel Hc) as (n & -> & E); [intros ?; apply Hni; now right|lia|].
    cbn. by rewrite E.
Qed.

(** ** Runs *)
Inductive cll_op : Type :=
  | AddTail (elem : Z)
  | PopHead
  | Delete (elem : Z).

Definition cll_step (head : Z) (h : cheap) (o : cll_op) : res (cheap * Z) :=
  match o with
  | AddTail e => cll_add_tail h head e
  | PopHead => cll_pop_head h head
  | Delete e => cll_delete h head e
  end.

(** The sequence that a list stands for, and the results of the calls. *)
Definition seq_step (l : list Z) (o : cll_op) : list Z * Z :=
  match o with
  | AddTail e => (l ++ [e], 1)
  | PopHead => (tail l, match l with x :: _ => x | [] => 0 end)
  | Delete e => (List.filter (fun x => negb (x =? e)) l, 1)
  end.

Fixpoint cll_run (head : Z) (h : cheap) (ops : list cll_op) : res (cheap * list Z) :=
  match ops with
  | [] => Ok (h, [])
  | o :: ops' =>
    let* r := cll_step head h o in
    let* r' := cll_run head (fst r) ops' in
    Ok (fst r', snd r :: snd r')
  end.

Fixpoint seq_run (l : list Z) (ops : list cll_op) : list Z * list Z :=
  match ops with
  | [] => (l, [])
  | o :: ops' =>
    let r := seq_run (fst (seq_step l o)) ops' in
    (fst r, snd (seq_step l o) :: snd r)
  end.

(** The callers' side: a node that is added is allocated and not in the list, a
    node that is deleted is in it. *)
Definition cll_op_ok (h : cheap) (head : Z) (l : list Z) (o : cll_op) : Prop :=
  match o with
  | AddTail e => e <> 0 /\ e ∈ dom h /\ ~ In e (head :: l)
  | PopHead => True
  | Delete e => In e l
  end.
Fixpoint cll_ops_ok (h : cheap) (head : Z) (l : list Z) (ops : list cll_op) : Prop :=
  match ops with
  | [] => True
  | o :: ops' => cll_op_ok h head l o /\ cll_ops_ok h head (fst (seq_step l o)) ops'
  end.

Lemma filter_mid (l1 : list Z) x l2 :
  ~ In x l1 -> ~ In x l2 -> List.filter (fun y => negb (y =? x)) (l1 ++ x :: l2) = l1 ++ l2.
Proof.
  assert (H : forall l, ~ In x l -> List.filter (fun y => negb (y =? x)) l = l).
  { induction l as [|y l IH]; cbn; intros Hi; [done|].
    rewrite (proj2 (Z.eqb_neq y x)) by tauto. cbn. by rewrite IH by tauto. }
  intros H1 H2. rewrite List.filter_app. cbn. rewrite Z.eqb_refl. cbn. by rewrite !H.
Qed.

Lemma cll_step_refines h head l o :
  ring h head l -> cll_op_ok h head l o ->
  exists h', cll_step head h o = Ok (h', snd (seq_step l o)) /\
    ring h' head (fst (seq_step l o)) /\ dom h' = dom h.
Proof.
  intros Hr Ho. destruct o as [e| |e]; cbn [cll_step seq_step fst snd cll_op_ok] in *.
  - destruct Ho as (? & ? & ?). by apply cll_add_tail_spec.
  - by apply cll_pop_head_spec.
  - apply in_split in Ho as (l1 & l2 & ->).
    assert (Hni : ~ In e (l1 ++ l2)).
    { destruct Hr as [Hnd _]. apply (NoDup_remove_2 (head :: l1) l2 e) in Hnd. cbn in Hnd. tauto. }
    rewrite in_app_iff in Hni. rewrite filter_mid by tauto. by apply cll_delete_spec.
Qed.

Lemma cll_ops_ok_dom h h' head l ops :
  dom h' = dom h -> cll_ops_ok h head l ops -> cll_ops_ok h' head l ops.
Proof.
  intros Hd. revert l. induction ops as [|o ops IH]; intros l; cbn; [done|].
  intros [Ho Hops]. split; [|auto]. destruct o; cbn in *; [|done..]. by rewrite Hd.
Qed.

(** C39: The intrusive circular list implements a sequence: on a freshly
    initialised head, any run of [cll_add_tail], [cll_pop_head] and [cll_delete]
    on allocated nodes returns what the same run on a sequence returns (append,
    remove the first, remove a member), never follows a bad pointer, and the loop
    [cll_foreach] then ends and visits exactly the nodes of the sequence in
    order. *)
Theorem cll_refines_sequence (h : cheap) (head : Z) (ops : list cll_op)
  (Hhead : head <> 0) (Hdom : head ∈ dom h) (Hops : cll_ops_ok h head [] ops) :
  exists h0 h', cll_init_head h head = Ok (h0, 0) /\
    cll_run head h0 ops = Ok (h', snd (seq_run [] ops)) /\
    ring h' head (fst (seq_run [] ops)) /\
    forall fuel, (length (fst (seq_run [] ops)) < fuel)%nat ->
      exists n, get_next h' head = Ok n /\
        cll_foreach fuel h' n head = Ok (fst (seq_run [] ops)).
Proof.
  destruct (cll_init_head_spec h head Hhead Hdom) as (h0 & E0 & Hr & Hd).
  exists h0. assert (Hrun : exists h', cll_run head h0 ops = Ok (h', snd (seq_run [] ops)) /\
    ring h' head (fst (seq_run [] ops))).
  { apply (cll_ops_ok_dom h h0) in Hops; [|done]. clear E0 Hd. revert h0 Hr Hops.
    generalize (@nil Z). induction ops as [|o ops IH]; intros l h0 Hr Hops; cbn; [eauto|].
    destruct Hops as [Ho Hops]. destruct (cll_step_refines h0 head l o Hr Ho) as (h1 & -> & Hr1 & Hd1).
    cbn. destruct (IH (fst (seq_step l o)) h1 Hr1) as (h2 & -> & Hr2);
      [by apply (cll_ops_ok_dom h0)|]. cbn. eauto. }
  destruct Hrun as (h' & E & Hr'). exists h'. split; [done|]. split; [done|]. split; [done|].
  intros fuel Hf. destruct Hr' as (Hnd & _ & Hc). apply cll_foreach_chain; [done| |done].
  by inversion Hnd.
Qed.

Definition ex_heap : cheap := list_to_map ((fun p => (p, mkCll 0 0)) <$> [1; 2; 3; 4]).
Definition ex_ops : list cll_op := [AddTail 2; AddTail 3; AddTail 4; Delete 3; PopHead; AddTail 3].

Lemma cll_refines_sequence_witness :
  exists h0 h', cll_init_head ex_heap 1 = Ok (h0, 0) /\
    cll_run 1 h0 ex_ops = Ok (h', [1; 1; 1; 1; 2; 1]) /\ ring h' 1 [4; 3] /\
    forall fuel, (2 < fuel)%nat ->
      exists n, get_next h' 1 = Ok n /\ cll_foreach fuel h' n 1 = Ok [4; 3].
Proof.
  apply (cll_refines_sequence ex_heap 1 ex_ops); [lia|by vm_compute|].
  assert (Hd : forall p, bool_decide (p ∈ dom ex_heap) = true -> p ∈ dom ex_heap)
    by (intros p Hp; by apply bool_decide_eq_true in Hp).
  cbn. intuition (try lia); apply Hd; vm_compute; reflexivity.
Defined.
