(* ===== verification/OlsrNeighbor.v ===== *)
(** Neighbours and links (simnet/olsr/olsr_neighbor.c, simnet/olsr/olsr_link.c).

    A pointer to a neighbour or a link is its key (for a link: interface and
    neighbour address), and reading through a pointer whose element is gone is
    [UB].  The global context [g_olsr_ctx] and the parameter [ctx] are the same
    object in the program, so one context is passed.  A validity time becomes the
    [int] interval of a timer in microseconds. *)
From S2P Require Import Prelude OrdTree RingBuffer TimerQueue OlsrContext OlsrSpf.
From stdpp Require Import base list numbers gmap.
From Stdlib Require Import ZArith Lia.
Open Scope Z_scope.
Open Scope c_scope.

(** [interval_us = vtime * 1000], from unsigned to [int]. *)
Definition vtime_us (vtime : Z) : Z := i32 (u32 (vtime * 1000)).

(** ** olsr_neighbor.c *)
Definition get_neighbor_status (ctx : OlsrContext) (addr : Z) : Z :=
  match rbtree_search (neighbor_tree ctx) addr with
  | Some elem => neigh_status elem
  | None => STATUS_UNAVAILABLE
  end.

Definition set_neighbor_status (ctx : OlsrContext) (neighbor status : Z) : res OlsrContext :=
  let* n := deref (rbtree_search (neighbor_tree ctx) neighbor) in
  if negb (neigh_status n =? status)
  then calc_routing_table
         (set_neighbor_tree ctx (tree_update (neighbor_tree ctx) neighbor (set_status status)))
  else Ok ctx.

Definition make_neighbor_elem (neigh_addr willingness : Z) : NeighborElem :=
  {| neighbor_main_addr := neigh_addr; neigh_status := STATUS_UNAVAILABLE;
     willingness := willingness; neighbor2_tree := [] |}.

(** Assignment to the 2-hop tree of a neighbour. *)
Definition upd_neighbor2 (ctx : OlsrContext) (neigh : Z)
  (f : list Neighbor2Elem -> list Neighbor2Elem) : OlsrContext :=
  set_neighbor_tree ctx
    (tree_update (neighbor_tree ctx) neigh (fun n => set_neighbor2_tree (f (neighbor2_tree n)) n)).

Definition neigh2_elem_expire (ctx : OlsrContext) (bridge n2 timer : Z) : res OlsrContext :=
  let* neigh := deref (rbtree_search (neighbor_tree ctx) bridge) in
  let* ctx := upd_tq ctx (fun tq => timerqueue_free_timer tq timer) in
  Ok (upd_neighbor2 ctx bridge (fun t => fst (rbtree_delete t n2))).

Definition update_neigh2_tuple (ctx : OlsrContext) (neigh n2addr vtime : Z) : res OlsrContext :=
  let* n := deref (rbtree_search (neighbor_tree ctx) neigh) in
  match rbtree_search (neighbor2_tree n) n2addr with
  | None =>
    let* r := with_tq ctx (fun tq => start_timer tq 0 (vtime_us vtime) 1
                (Cb_neigh2_elem_expire (neighbor_main_addr n) n2addr)) in
    let '(ctx, timer) := r in
    Ok (upd_neighbor2 ctx neigh (fun t => tree_put t
          {| neighbor2_main_addr := n2addr; bridge_addr := neighbor_main_addr n;
             neigh2_expire_timer := timer |}))
  | Some n2elem =>
    upd_tq ctx (fun tq =>
      let* tq := poke tq (neigh2_expire_timer n2elem) (set_interval (vtime_us vtime)) in
      timerqueue_reactivate_timer tq (neigh2_expire_timer n2elem))
  end.

(** The double loop over interfaces and links. *)
Definition neighbor_has_sym_link (ctx : OlsrContext) (neighbor_main_addr : Z) : bool :=
  existsb (fun ielem =>
    existsb (fun lelem => (neighbor_iface_addr lelem =? neighbor_main_addr) &&
                          (link_status lelem =? SYM_LINK))
            (iface_link_tree ielem))
    (local_iface_tree ctx).

Definition update_neighbor_status (ctx : OlsrContext) (neigh : Z) : res OlsrContext :=
  let* n := deref (rbtree_search (neighbor_tree ctx) neigh) in
  if neighbor_has_sym_link ctx (neighbor_main_addr n) then
    if negb (neigh_status n =? MPR_NEIGH) then set_neighbor_status ctx neigh SYM_NEIGH else Ok ctx
  else set_neighbor_status ctx neigh NOT_NEIGH.

(** ** olsr_link.c *)

(** Access to a link through its pointer. *)
Definition find_link (ctx : OlsrContext) (iface link : Z) : res LinkElem :=
  let* i := deref (rbtree_search (local_iface_tree ctx) iface) in
  deref (rbtree_search (iface_link_tree i) link).
Definition upd_links (ctx : OlsrContext) (iface : Z) (f : list LinkElem -> list LinkElem)
  : OlsrContext :=
  set_local_iface_tree ctx
    (tree_update (local_iface_tree ctx) iface (fun i => set_links (f (iface_link_tree i)) i)).
Definition upd_link (ctx : OlsrContext) (iface link : Z) (f : LinkElem -> LinkElem)
  : res OlsrContext :=
  let* _ := find_link ctx iface link in
  Ok (upd_links ctx iface (fun t => tree_update t link f)).

(** The assignment is skipped when the status is already there. *)
Definition set_link_status (status : Z) (link : LinkElem) : LinkElem :=
  if negb (link_status link =? status) then set_link_status_field status link else link.

Definition update_neighbor_state_by_link_change (ctx : OlsrContext) (link : LinkElem)
  : res OlsrContext :=
  update_neighbor_status ctx (neighbor_iface_addr link).

Definition free_timer_if (ctx : OlsrContext) (t : option Z) : res OlsrContext :=
  match t with
  | Some p => upd_tq ctx (fun tq => timerqueue_free_timer tq p)
  | None => Ok ctx
  end.

Definition link_timer_expire (ctx : OlsrContext) (iface link : Z) : res OlsrContext :=
  let* l := find_link ctx iface link in
  let* ctx := free_timer_if ctx (link_expire_timer l) in
  let* ctx := free_timer_if ctx (asym_timer l) in
  let* ctx := free_timer_if ctx (sym_timer l) in
  let* _ := deref (rbtree_search (local_iface_tree ctx) (link_local_addr l)) in
  let ctx := upd_links ctx (link_local_addr l)
               (fun t => fst (rbtree_delete t (neighbor_iface_addr l))) in
  update_neighbor_state_by_link_change ctx l.

(** Defined by the program but never installed as a callback or called. *)
Definition asym_link_timer_expire (ctx : OlsrContext) (iface link : Z) : res OlsrContext :=
  let* ctx := upd_link ctx iface link (set_link_status LOST_LINK) in
  let* l := find_link ctx iface link in
  update_neighbor_state_by_link_change ctx l.

Definition sym_link_timer_expire (ctx : OlsrContext) (iface link : Z) : res OlsrContext :=
  let* l := find_link ctx iface link in
  let* p := deref (asym_timer l) in
  let* t := peek (timerqueue ctx) p in
  let* ctx := upd_link ctx iface link
    (set_link_status (if active t =? 1 then ASYM_LINK else LOST_LINK)) in
  let* l := find_link ctx iface link in
  update_neighbor_state_by_link_change ctx l.

(** The common part of the three setters: start the timer on first use, then
    rewind it.  All three install [link_timer_expire]. *)
Definition link_elem_timer_set (ctx : OlsrContext) (iface link vtime : Z)
  (timer : LinkElem -> option Z) (set_timer : option Z -> LinkElem -> LinkElem)
  : res OlsrContext :=
  let* l := find_link ctx iface link in
  match timer l with
  | None =>
    let* r := with_tq ctx (fun tq => start_timer tq 0 (vtime_us vtime) 1
                (fun _ => Cb_link_timer_expire iface link)) in
    let '(ctx, p) := r in
    upd_link ctx iface link (set_timer (Some p))
  | Some p =>
    upd_tq ctx (fun tq =>
      let* tq := poke tq p (set_interval (vtime_us vtime)) in
      timerqueue_reactivate_timer tq p)
  end.

Definition link_elem_expire_timer_set (ctx : OlsrContext) (iface link vtime : Z)
  : res OlsrContext :=
  link_elem_timer_set ctx iface link vtime link_expire_timer set_link_expire_timer.

Definition link_elem_asym_timer_set (ctx : OlsrContext) (iface link vtime : Z)
  : res OlsrContext :=
  let* l := find_link ctx iface link in
  let* ctx := if negb (link_status l =? SYM_LINK)
              then upd_link ctx iface link (set_link_status ASYM_LINK) else Ok ctx in
  link_elem_timer_set ctx iface link vtime asym_timer set_asym_timer.

Definition link_elem_sym_timer_set (ctx : OlsrContext) (iface link vtime : Z)
  : res OlsrContext :=
  let* ctx := upd_link ctx iface link (set_link_status SYM_LINK) in
  link_elem_timer_set ctx iface link vtime sym_timer set_sym_timer.

(** [make_link_elem] and the insertion by its only caller, which both happen
    before the timer can fire.  The [memset] leaves the status 0. *)
Definition make_link_elem (ctx : OlsrContext) (src my_addr vtime : Z) : res OlsrContext :=
  let link := set_link_status LOST_LINK
    {| neighbor_iface_addr := src; link_local_addr := my_addr; link_status := 0;
       sym_timer := None; asym_timer := None; link_expire_timer := None |} in
  let ctx := upd_links ctx my_addr (fun t => tree_put t link) in
  link_elem_expire_timer_set ctx my_addr src vtime.

(** ** Changing the status of a neighbour *)

(** The fields that status changes and the route computation leave alone. *)
Definition same_but_routes (c1 c2 : OlsrContext) : Prop :=
  let norm c := set_routing_table
    (set_neighbor_tree (set_node_stat_tree (set_stat c zero_stats) []) []) [] in
  norm c1 = norm c2.

Lemma same_but_routes_trans c1 c2 c3 :
  same_but_routes c1 c2 -> same_but_routes c2 c3 -> same_but_routes c1 c3.
Proof. unfold same_but_routes. congruence. Qed.

(** Assignment of a status through the key of a neighbour. *)
Definition assign_status (a s : Z) (n : NeighborElem) : NeighborElem :=
  if neighbor_main_addr n =? a then set_status s n else n.

Lemma set_neighbor_status_ok w net ctx a s :
  routing_ok w net ctx -> In a (keys (neighbor_tree ctx)) ->
  exists ctx', set_neighbor_status ctx a s = Ok ctx' /\ routing_ok w net ctx' /\
    neighbor_tree ctx' = map (assign_status a s) (neighbor_tree ctx) /\
    same_but_routes ctx ctx' /\ (routes_current ctx -> routes_current ctx').
Proof.
  intros H Ha. assert (HWa : in_window w a) by (by apply (net_win _ _ _ H), (nbr_net _ _ _ H)).
  pose proof (nbr_ok _ _ _ H) as Hn.
  destruct (search_some (in_window w) _ a Hn HWa Ha) as (n & Es & Hin & Hk). cbn in Hk.
  assert (Hmap : tree_update (neighbor_tree ctx) a (set_status s) =
                 map (assign_status a s) (neighbor_tree ctx)).
  { rewrite (update_map (in_window w)) by done. apply map_ext_in. intros x Hx.
    unfold assign_status. cbn. rewrite (compare_eqb w), Z.eqb_sym by (done || tree_dom). done. }
  unfold set_neighbor_status. rewrite Es. cbn [deref rbind].
  destruct (Z.eqb_spec (neigh_status n) s) as [E|E]; cbn [negb].
  - exists ctx. split; [done|]. split; [done|]. split; [|by split].
    rewrite <- (map_id (neighbor_tree ctx)) at 1. apply map_ext_in. intros x Hx.
    unfold assign_status. destruct (Z.eqb_spec (neighbor_main_addr x) a); [|done].
    assert (x = n) as -> by tree_same. subst s. by destruct n.
  - set (ctx1 := set_neighbor_tree ctx _).
    assert (H1 : routing_ok w net ctx1).
    { destruct H. constructor; try done; cbn.
      - by apply (update_ok (in_window w)).
      - by rewrite keys_update. }
    destruct (calc_routing_table_spec w net ctx1 H1) as (ctx' & -> & Hr & Hspf).
    pose proof (spf_result_current _ _ Hspf) as Hcur. destruct Hspf as [Hres _ _].
    exists ctx'. split; [done|]. split; [done|]. unfold same_but_stats in Hres.
    split; [|split; [|done]].
    + apply (f_equal neighbor_tree) in Hres. cbn in Hres. by rewrite <- Hres, Hmap.
    + unfold same_but_routes. apply (f_equal (fun c => set_routing_table (set_neighbor_tree c []) []))
        in Hres. by rewrite <- Hres.
Qed.
