(* ===== verification/OlsrMpr.v ===== *)
(** Selection of the multipoint relays (simnet/olsr/olsr_mpr.c).

    The sets N and N2 of RFC 3626 are built from the neighbour tree, and
    [populate_mpr_set] moves neighbours from N to the MPR set until N2 is empty.
    The status of the neighbours is updated on the way, which recomputes the
    routing table each time ([set_neighbor_status]).

    [covers] is the specification: every symmetric strict 2-hop neighbour is
    reached through a neighbour of the MPR set. *)
From S2P Require Import Prelude OrdTree RingBuffer TimerQueue OlsrContext OlsrSpf OlsrNeighbor.
From stdpp Require Import base list numbers gmap.
From Stdlib Require Import ZArith Lia Sorted.
Open Scope Z_scope.
Open Scope c_scope.

Record AddrSetElem : Type := mkAddrSet { set_addr : Z }.
Record N2ReachabilityTreeElem : Type := mkN2r { n2_addr : Z; n1_tree : list AddrSetElem }.

#[export] Instance addr_set_key : TreeKey AddrSetElem Z :=
  {| tkey := set_addr; tcmp := rbtree_compare_by_inetaddr |}.
#[export] Instance n2r_key : TreeKey N2ReachabilityTreeElem Z :=
  {| tkey := n2_addr; tcmp := rbtree_compare_by_inetaddr |}.

Definition set_n1_tree (t : list AddrSetElem) (e : N2ReachabilityTreeElem)
  : N2ReachabilityTreeElem := mkN2r (n2_addr e) t.

Definition add_n1 (n1_set : list AddrSetElem) (nelem : NeighborElem) : list AddrSetElem :=
  if is_sym nelem then tree_put n1_set (mkAddrSet (neighbor_main_addr nelem)) else n1_set.

Definition calc_n1_set (neighbors : list NeighborElem) : list AddrSetElem :=
  fold_left add_n1 neighbors [].

(** Inner loop body of [calc_n2_set].  Inserting again an element that is in the
    tree finds its key there and does nothing. *)
Definition add_n2 (own : Z) (n1_set : list AddrSetElem) (n1 : Z)
  (n2_set : list N2ReachabilityTreeElem) (n2elem : Neighbor2Elem)
  : list N2ReachabilityTreeElem :=
  let n2 := neighbor2_main_addr n2elem in
  if n2 =? own then n2_set
  else match rbtree_search n1_set n2 with
       | Some _ => n2_set
       | None =>
         let addr_elem := mkAddrSet n1 in
         match rbtree_search n2_set n2 with
         | None => tree_put n2_set (mkN2r n2 (tree_put [] addr_elem))
         | Some _ => tree_update n2_set n2 (fun e => set_n1_tree (tree_put (n1_tree e) addr_elem) e)
         end
       end.

Definition add_n2_of (own : Z) (n1_set : list AddrSetElem)
  (n2_set : list N2ReachabilityTreeElem) (nelem : NeighborElem) : list N2ReachabilityTreeElem :=
  if is_sym nelem
  then fold_left (add_n2 own n1_set (neighbor_main_addr nelem)) (neighbor2_tree nelem) n2_set
  else n2_set.

Definition calc_n2_set (own : Z) (neighbors : list NeighborElem) (n1_set : list AddrSetElem)
  : list N2ReachabilityTreeElem :=
  fold_left (add_n2_of own n1_set) neighbors [].

(** The two sets and the context, threaded through the selection. *)
Definition mpr_state : Type :=
  OlsrContext * list AddrSetElem * list N2ReachabilityTreeElem.

(** Remove from N2 the 2-hop neighbours of a selected neighbour. *)
Definition remove_covered (n2_set : list N2ReachabilityTreeElem) (neighbors2 : list Neighbor2Elem)
  : list N2ReachabilityTreeElem :=
  fold_left (fun n2_set n2elem =>
    match rbtree_search n2_set (neighbor2_main_addr n2elem) with
    | Some n2r_elem => fst (rbtree_delete n2_set (n2_addr n2r_elem))
    | None => n2_set
    end) neighbors2 n2_set.

(** First loop of [add_unique_bridge_to_mpr]: the only bridges to some node. *)
Definition select_unique_bridges (n2_set : list N2ReachabilityTreeElem) : list MprElem :=
  fold_left (fun selected n2r_elem =>
    match n1_tree n2r_elem with
    | [n1] => tree_put selected (mkMpr (set_addr n1))
    | _ => selected
    end) n2_set [].

(** Body of its second loop. *)
Definition select_mpr (st : mpr_state) (mpr : MprElem) : res mpr_state :=
  let '(ctx, n1_set, n2_set) := st in
  let ctx := set_mpr_tree ctx (tree_put (mpr_tree ctx) mpr) in
  let n1_set := fst (rbtree_delete n1_set (mpr_addr mpr)) in
  let* ctx := set_neighbor_status ctx (mpr_addr mpr) MPR_NEIGH in
  let* mpr_neigh := deref (rbtree_search (neighbor_tree ctx) (mpr_addr mpr)) in
  Ok (ctx, n1_set, remove_covered n2_set (neighbor2_tree mpr_neigh)).

(** The body links the node it visits into [ctx->mpr_tree].  This tree is empty,
    so the insertion clears the three pointers of the node, and the step
    [rbtree_next] from the same node finds no successor: the second loop runs for
    the first selected bridge only. *)
Definition add_unique_bridge_to_mpr (st : mpr_state) : res mpr_state :=
  match rbtree_first (select_unique_bridges (snd st)) with
  | None => Ok st
  | Some mpr_elem => select_mpr st mpr_elem
  end.

Definition calc_reachability (neigh : NeighborElem) (n2_set : list N2ReachabilityTreeElem) : Z :=
  zlen (List.filter (fun n2elem =>
    match rbtree_search n2_set (neighbor2_main_addr n2elem) with Some _ => true | None => false end)
    (neighbor2_tree neigh)).

(** The best neighbour so far, with its reachability. *)
Definition get_max_reachablilty_neigh (neighbors : list NeighborElem)
  (n1_set : list AddrSetElem) (n2_set : list N2ReachabilityTreeElem)
  : res (option NeighborElem) :=
  let* best := rfold (fun best aelem =>
    let* nelem := deref (rbtree_search neighbors (set_addr aelem)) in
    let reachability := calc_reachability nelem n2_set in
    Ok (if fst best <? reachability then (reachability, Some nelem) else best))
    n1_set (0, None) in
  Ok (snd best).

Fixpoint populate_mpr_set_by_reachability (fuel : nat) (st : mpr_state) : res mpr_state :=
  let '(ctx, n1_set, n2_set) := st in
  match n2_set with
  | [] => Ok st
  | _ =>
    match fuel with
    | O => NoFuel
    | S n =>
      let* best := get_max_reachablilty_neigh (neighbor_tree ctx) n1_set n2_set in
      match best with
      | None => Ok st
      | Some nelem =>
        let mpr := neighbor_main_addr nelem in
        let* ctx := set_neighbor_status ctx mpr MPR_NEIGH in
        let ctx := set_mpr_tree ctx (tree_put (mpr_tree ctx) (mkMpr mpr)) in
        let n1_set := fst (rbtree_delete n1_set mpr) in
        let* mpr_neigh := deref (rbtree_search (neighbor_tree ctx) mpr) in
        populate_mpr_set_by_reachability n
          (ctx, n1_set, remove_covered n2_set (neighbor2_tree mpr_neigh))
      end
    end
  end.

Definition check_mpr_set_change (old_set new_set : list MprElem) : bool :=
  if negb (length old_set =? length new_set)%nat then true
  else existsb (fun old_elem =>
    match rbtree_search new_set (mpr_addr old_elem) with None => true | Some _ => false end) old_set.

Definition clean_n1_set (ctx : OlsrContext) (n1_set : list AddrSetElem) : res OlsrContext :=
  rfold (fun ctx addr_elem => set_neighbor_status ctx (set_addr addr_elem) SYM_NEIGH) n1_set ctx.

(** Each turn of the greedy loop removes a node of N2. *)
Definition populate_mpr_set (ctx : OlsrContext) : res OlsrContext :=
  let old_set := mpr_tree ctx in
  let ctx := set_mpr_tree ctx [] in
  let n1_set := calc_n1_set (neighbor_tree ctx) in
  let n2_set := calc_n2_set (own_ip ctx) (neighbor_tree ctx) n1_set in
  let* st := add_unique_bridge_to_mpr (ctx, n1_set, n2_set) in
  let* st := populate_mpr_set_by_reachability (length n2_set) st in
  let '(ctx, n1_set, _) := st in
  let ctx := if check_mpr_set_change old_set (mpr_tree ctx)
             then set_ansn ctx (u16 (ansn ctx + 1)) else ctx in
  clean_n1_set ctx n1_set.

(** ** Specification *)
Section Spec.
Context (own : Z) (neighbors : list NeighborElem).

Definition symmetric (a : Z) : Prop :=
  exists n, In n neighbors /\ is_sym n = true /\ neighbor_main_addr n = a.

(** The symmetric neighbour [b] reaches [x]. *)
Definition bridges (b x : Z) : Prop :=
  exists n, In n neighbors /\ is_sym n = true /\ neighbor_main_addr n = b /\
    In x (keys (neighbor2_tree n)).

(** [x] is a strict 2-hop neighbour. *)
Definition strict2 (x : Z) : Prop := x <> own /\ ~ symmetric x /\ exists b, bridges b x.

Definition covers (mprs : list Z) : Prop :=
  forall x, strict2 x -> exists b, In b mprs /\ bridges b x.
End Spec.

(** The neighbour tree with the statuses that follow from the MPR set. *)
Definition mark (mprs : list MprElem) (n : NeighborElem) : NeighborElem :=
  if existsb (Z.eqb (neighbor_main_addr n)) (keys mprs) then set_status MPR_NEIGH n else n.
Definition remark (mprs : list MprElem) (n : NeighborElem) : NeighborElem :=
  if is_sym n
  then set_status (if existsb (Z.eqb (neighbor_main_addr n)) (keys mprs) then MPR_NEIGH
                   else SYM_NEIGH) n
  else n.

(** ** The sets N and N2 *)
Lemma existsb_in x l : existsb (Z.eqb x) l = true <-> In x l.
Proof.
  rewrite existsb_exists. split.
  - intros (y & Hy & E). apply Z.eqb_eq in E. by subst.
  - intros Hx. exists x. by rewrite Z.eqb_refl.
Qed.

Lemma bridged_dec neighbors l x :
  {exists b, In b l /\ bridges neighbors b x} + {~ exists b, In b l /\ bridges neighbors b x}.
Proof.
  destruct (existsb (fun n => is_sym n && existsb (Z.eqb (neighbor_main_addr n)) l &&
                              existsb (Z.eqb x) (keys (neighbor2_tree n))) neighbors) eqn:E;
    [left|right].
  - apply existsb_exists in E as (n & Hn & E). apply andb_prop in E as [E Ex].
    apply andb_prop in E as [Es Eb]. apply existsb_in in Eb, Ex.
    exists (neighbor_main_addr n). split; [done|]. by exists n.
  - intros (b & Hb & n & Hn & Hs & <- & Hx). apply not_true_iff_false in E. apply E.
    apply existsb_exists. exists n. rewrite Hs. apply existsb_in in Hb, Hx. by rewrite Hb, Hx.
Qed.

Section Sets.
Context (w own : Z) (neighbors : list NeighborElem).
Abbreviation W := (in_window w).
Hypothesis Hnbrs : tree_ok W neighbors.
Hypothesis Hn2 : forall n, In n neighbors -> tree_ok W (neighbor2_tree n).

Lemma calc_n1_set_ok :
  tree_ok W (calc_n1_set neighbors) /\
  forall a, In a (keys (calc_n1_set neighbors)) <-> symmetric neighbors a.
Proof using Hnbrs.
  unfold calc_n1_set, symmetric.
  assert (H : forall l t, incl l neighbors -> tree_ok W t ->
    tree_ok W (fold_left add_n1 l t) /\
    forall a, In a (keys (fold_left add_n1 l t)) <->
      In a (keys t) \/ exists n, In n l /\ is_sym n = true /\ neighbor_main_addr n = a).
  { induction l as [|n l IH]; intros t Hl Ht; cbn [fold_left].
    - split; [done|]. intros a. split; [auto|]. intros [?|(? & [] & _)]. done.
    - assert (Hn : In n neighbors) by (apply Hl; now left).
      assert (HWn : W (neighbor_main_addr n)) by tree_dom.
      destruct (IH (add_n1 t n)) as [Hok Hk].
      { intros x Hx. apply Hl. now right. }
      { unfold add_n1. destruct (is_sym n); [|done]. by apply (tree_put_ok W). }
      split; [done|]. intros a. rewrite Hk. unfold add_n1. destruct (is_sym n) eqn:Es.
      + rewrite (keys_put W) by done. cbn. split.
        * intros [[->|?]|(? & ? & ? & ?)]; eauto 6.
        * intros [?|(? & [<-|?] & ? & ?)]; eauto 6.
      + cbn. split; [intros [?|(? & ? & ? & ?)]; eauto 6|].
        intros [?|(? & [<-|?] & ? & ?)]; eauto 6. congruence. }
  destruct (H neighbors []) as [Hok Hk]; [apply incl_refl|apply tree_ok_nil|].
  split; [done|]. intros a. rewrite Hk, keys_nil. cbn. tauto.
Qed.

(** The two loops of [calc_n2_set] as one over (neighbour, 2-hop neighbour). *)
Definition pairs : list (Z * Neighbor2Elem) :=
  concat (map (fun n => map (pair (neighbor_main_addr n)) (neighbor2_tree n))
              (List.filter is_sym neighbors)).

Lemma in_pairs b x : (exists e, In (b, e) pairs /\ neighbor2_main_addr e = x) <->
  bridges neighbors b x.
Proof using.
  unfold pairs, bridges. split.
  - intros (e & He & Hx). apply in_concat in He as (l & Hl & He).
    apply in_map_iff in Hl as (n & <- & Hn). apply filter_In in Hn as [Hn Hs].
    apply in_map_iff in He as (e' & [= <- <-] & He). exists n. split; [done|].
    split; [done|]. split; [done|]. by apply (in_keys _ e').
  - intros (n & Hn & Hs & <- & Hx). apply in_keys_inv in Hx as (e & He & <-).
    exists e. split; [|done]. apply in_concat. eexists. split; [|by apply in_map].
    apply in_map_iff. exists n. split; [done|]. by apply filter_In.
Qed.

Lemma calc_n2_set_pairs n1 :
  calc_n2_set own neighbors n1 =
  fold_left (fun t p => add_n2 own n1 (fst p) t (snd p)) pairs [].
Proof using.
  unfold calc_n2_set, pairs. generalize (@nil N2ReachabilityTreeElem). clear Hnbrs Hn2.
  induction neighbors as [|n l IH]; intros t; cbn; [done|].
  unfold add_n2_of at 2. destruct (is_sym n); cbn; [|apply IH].
  rewrite fold_left_app. rewrite IH. f_equal.
  generalize (neighbor2_tree n). intros l2. clear IH. revert t.
  induction l2 as [|e l2 IH2]; intros t; cbn; [done|]. apply IH2.
Qed.

(** What N2 holds after some of the pairs. *)
Record n2_inv (ps : list (Z * Neighbor2Elem)) (t : list N2ReachabilityTreeElem) : Prop := {
  n2_ok : tree_ok W t;
  n2_keys : forall x, In x (keys t) <->
    x <> own /\ ~ symmetric neighbors x /\ exists b e, In (b, e) ps /\ neighbor2_main_addr e = x;
  n2_n1_ok : forall r, In r t -> tree_ok W (n1_tree r);
  n2_n1 : forall r b, In r t -> In b (keys (n1_tree r)) <->
    exists e, In (b, e) ps /\ neighbor2_main_addr e = n2_addr r
}.

Lemma add_n2_inv ps t b e :
  n2_inv ps t -> W b -> W (neighbor2_main_addr e) ->
  n2_inv (ps ++ [(b, e)]) (add_n2 own (calc_n1_set neighbors) b t e).
Proof using Hnbrs.
  intros [Hok Hk Hn1ok Hn1] Hb Hx. destruct calc_n1_set_ok as [Hs1 Hs2].
  set (x := neighbor2_main_addr e) in *. unfold add_n2. fold x.
  assert (Hsnoc : forall c f, In (c, f) (ps ++ [(b, e)]) <-> In (c, f) ps \/ (c = b /\ f = e)).
  { intros c f. rewrite in_app_iff. cbn. intuition congruence. }
  assert (Hskip : x = own \/ symmetric neighbors x -> n2_inv (ps ++ [(b, e)]) t).
  { intros Hno. split; [done| |done|].
    - intros y. rewrite Hk. setoid_rewrite Hsnoc. split.
      + intros (? & ? & c & f & ? & ?). eauto 8.
      + intros (? & ? & c & f & [?|[-> ->]] & Hy); [eauto 8|].
        fold x in Hy. subst y. exfalso. tauto.
    - intros r c Hr. rewrite Hn1 by done. setoid_rewrite Hsnoc. split.
      + intros (f & ? & ?). eauto.
      + intros (f & [?|[-> ->]] & Hy); [eauto|]. fold x in Hy.
        assert (Hkr : In (n2_addr r) (keys t)) by (by apply (in_keys _ r)).
        apply Hk in Hkr. rewrite <- Hy in Hkr. exfalso. tauto. }
  destruct (Z.eqb_spec x own) as [Ho|Ho]; [auto|].
  destruct (rbtree_search (calc_n1_set neighbors) x) as [s|] eqn:Es.
  { apply (search_iff W) in Es as [Hin He]; [|done|done]. apply Hskip. right. apply Hs2.
    by apply (in_keys _ s). }
  apply (search_none_iff W) in Es; [|done|done]. rewrite Hs2 in Es. clear Hskip.
  destruct (rbtree_search t x) as [r0|] eqn:Et.
  - apply (search_iff W) in Et as [Hr0 Hr0x]; [|done|done]. cbn in Hr0x.
    set (f := fun e0 => set_n1_tree (tree_put (n1_tree e0) (mkAddrSet b)) e0).
    assert (Hf : forall e0, tkey (f e0) = tkey e0) by done.
    pose proof (fun r => in_update W f Hf t x r Hok Hx) as Hin. split.
    + by apply (update_ok W).
    + intros y. rewrite keys_update by done. rewrite Hk. setoid_rewrite Hsnoc. split.
      * intros (? & ? & c & g & ? & ?). eauto 8.
      * intros (? & ? & c & g & [?|[-> ->]] & Hy); [eauto 8|]. fold x in Hy. subst y.
        apply Hk. by apply (in_keys _ r0).
    + intros r Hr. apply Hin in Hr as [(r1 & Hr1 & _ & ->)|[Hr _]]; [|auto].
      cbn. apply (tree_put_ok W); auto.
    + intros r c Hr. setoid_rewrite Hsnoc.
      apply Hin in Hr as [(r1 & Hr1 & Hr1x & ->)|[Hr Hne]]; cbn in *.
      * rewrite (keys_put W) by auto. rewrite Hn1 by done. cbn. rewrite Hr1x. split.
        -- intros [->|(g & ? & ?)]; eauto.
        -- intros (g & [?|[-> ->]] & Hg); eauto.
      * rewrite Hn1 by done. split.
        -- intros (g & ? & ?). eauto.
        -- intros (g & [?|[-> ->]] & Hg); [eauto|]. fold x in Hg. congruence.
  - assert (Hnone := Et). apply (search_none_iff W) in Hnone; [|done|done].
    set (r0 := mkN2r x (tree_put [] (mkAddrSet b))).
    destruct (put_fresh W t r0 Hok Hx Et) as [Hok' Hperm].
    assert (Hin : forall r, In r (tree_put t r0) <-> r0 = r \/ In r t)
      by (intros r; rewrite Hperm; done).
    assert (Hb0 : tree_ok W (tree_put [] (mkAddrSet b))) by (apply (tree_put_ok W); [apply tree_ok_nil|done]).
    split.
    + done.
    + intros y. rewrite (keys_put W) by done. rewrite Hk. setoid_rewrite Hsnoc. cbn. split.
      * intros [->|(? & ? & c & g & ? & ?)]; eauto 10.
      * intros (? & ? & c & g & [?|[-> ->]] & Hy); [right|by left]. eauto 8.
    + intros r Hr. apply Hin in Hr as [<-|Hr]; auto.
    + intros r c Hr. setoid_rewrite Hsnoc. apply Hin in Hr as [<-|Hr]; cbn.
      * rewrite (keys_put W) by (done || apply tree_ok_nil). rewrite keys_nil. cbn. split.
        -- intros [->|[]]. eauto.
        -- intros (g & [Hg|[-> ->]] & Hgx); [|by left]. exfalso. apply Hnone. apply Hk. eauto 8.
      * rewrite Hn1 by done. split.
        -- intros (g & ? & ?). eauto.
        -- intros (g & [?|[-> ->]] & Hg); [eauto|]. fold x in Hg. exfalso. apply Hnone.
           apply (in_keys _ r); [done|]. by rewrite Hg.
Qed.

(** N2 is the set of the strict 2-hop neighbours, each with its bridges. *)
Lemma calc_n2_set_ok :
  let n2_set := calc_n2_set own neighbors (calc_n1_set neighbors) in
  tree_ok W n2_set /\ (forall x, In x (keys n2_set) <-> strict2 own neighbors x) /\
  forall r b, In r n2_set -> In b (keys (n1_tree r)) <-> bridges neighbors b (n2_addr r).
Proof using Hnbrs Hn2.
  cbv zeta. rewrite calc_n2_set_pairs.
  assert (HW : forall b e, In (b, e) pairs -> W b /\ W (neighbor2_main_addr e)).
  { intros b e He. unfold pairs in He. apply in_concat in He as (l & Hl & He).
    apply in_map_iff in Hl as (n & <- & Hn). apply filter_In in Hn as [Hn _].
    apply in_map_iff in He as (e' & [= <- <-] & He).
    pose proof (Hn2 n Hn). split; tree_dom. }
  assert (H : forall ps qs t, incl ps pairs -> n2_inv qs t ->
    n2_inv (qs ++ ps)
      (fold_left (fun t p => add_n2 own (calc_n1_set neighbors) (fst p) t (snd p)) ps t)).
  { induction ps as [|[b e] ps IH]; intros qs t Hp Ht; cbn [fold_left]; [by rewrite app_nil_r|].
    destruct (HW b e) as [Hb He]; [apply Hp; now left|].
    replace (qs ++ (b, e) :: ps) with ((qs ++ [(b, e)]) ++ ps) by (by rewrite <- app_assoc).
    apply IH; [intros x Hx; apply Hp; now right|]. by apply add_n2_inv. }
  destruct (H pairs [] []) as [Hok Hk Hn1ok Hn1]; [apply incl_refl| |].
  { split; [apply tree_ok_nil| |done|done]. intros x. rewrite keys_nil. cbn. split; [done|].
    intros (_ & _ & b & e & [] & _). }
  split; [done|]. split.
  - intros x. rewrite Hk. unfold strict2. setoid_rewrite <- in_pairs. split.
    + intros (? & ? & b & e & ? & ?). eauto 8.
    + intros (? & ? & b & e & ? & ?). eauto 8.
  - intros r b Hr. rewrite Hn1 by done. apply in_pairs.
Qed.
End Sets.

(** ** The selection *)

(** The fields the selection leaves alone. *)
Definition same_but_mpr (c1 c2 : OlsrContext) : Prop :=
  same_but_routes (set_mpr_tree c1 []) (set_mpr_tree c2 []).

Lemma same_but_mpr_trans c1 c2 c3 :
  same_but_mpr c1 c2 -> same_but_mpr c2 c3 -> same_but_mpr c1 c3.
Proof. apply same_but_routes_trans. Qed.

Lemma routes_mpr c1 c2 : same_but_routes c1 c2 -> same_but_mpr c1 c2.
Proof.
  unfold same_but_mpr, same_but_routes. intros H.
  by apply (f_equal (fun c => set_mpr_tree c [])) in H.
Qed.

Section Selection.
Context (w : Z) (net : list Z) (c0 : OlsrContext).
Abbreviation W := (in_window w).
Abbreviation N0 := (neighbor_tree c0).
Abbreviation own := (own_ip c0).
Hypothesis H0 : routing_ok w net c0.
Hypothesis Hn2 : forall n, In n N0 -> tree_ok W (neighbor2_tree n).

Lemma sym_window a : symmetric N0 a -> W a.
Proof using H0.
  intros (n & Hn & _ & <-). pose proof (nbr_ok _ _ _ H0). tree_dom.
Qed.

Lemma bridges_window b x : bridges N0 b x -> W x.
Proof using Hn2.
  intros (n & Hn & _ & _ & Hx). apply in_keys_inv in Hx as (e & He & <-).
  pose proof (Hn2 n Hn). tree_dom.
Qed.

(** The sets while relays are being selected. *)
Record mpr_inv (st : mpr_state) : Prop := {
  mi_routing : routing_ok w net (fst (fst st));
  mi_frame : same_but_mpr c0 (fst (fst st));
  mi_routes : routes_current c0 -> routes_current (fst (fst st));
  mi_nbrs : neighbor_tree (fst (fst st)) = map (mark (mpr_tree (fst (fst st)))) N0;
  mi_mpr_ok : tree_ok W (mpr_tree (fst (fst st)));
  mi_mpr : forall a, In a (keys (mpr_tree (fst (fst st)))) ->
    symmetric N0 a /\ exists x, strict2 own N0 x /\ bridges N0 a x;
  mi_n1_ok : tree_ok W (snd (fst st));
  mi_n1 : forall a, In a (keys (snd (fst st))) <->
    symmetric N0 a /\ ~ In a (keys (mpr_tree (fst (fst st))));
  mi_n2_ok : tree_ok W (snd st);
  mi_n2 : forall x, In x (keys (snd st)) <->
    strict2 own N0 x /\ ~ exists b, In b (keys (mpr_tree (fst (fst st)))) /\ bridges N0 b x
}.

Lemma remove_covered_ok n2 nb2 :
  tree_ok W n2 -> tree_ok W nb2 ->
  tree_ok W (remove_covered n2 nb2) /\
  forall x, In x (keys (remove_covered n2 nb2)) <-> In x (keys n2) /\ ~ In x (keys nb2).
Proof using.
  revert n2. induction nb2 as [|e nb2 IH]; intros n2 Hok Hnb; cbn [remove_covered fold_left].
  { rewrite keys_nil. split; [done|]. intros x. cbn. tauto. }
  apply tree_ok_cons in Hnb as (He & Hnb & _). change (W (neighbor2_main_addr e)) in He.
  fold (remove_covered (match rbtree_search n2 (neighbor2_main_addr e) with
    | Some r => fst (rbtree_delete n2 (n2_addr r)) | None => n2 end) nb2).
  destruct (rbtree_search n2 (neighbor2_main_addr e)) as [r|] eqn:Es.
  - apply (search_iff W) in Es as [Hr Hk]; [|done|done]. cbn in Hk. rewrite Hk.
    destruct (delete_spec W n2 (neighbor2_main_addr e) Hok He) as (Hok' & _ & Hin).
    destruct (IH _ Hok' Hnb) as [Hok'' Hkeys]. split; [done|]. intros x.
    rewrite Hkeys, keys_cons. cbn.
    assert (Hx : In x (keys (fst (rbtree_delete n2 (neighbor2_main_addr e)))) <->
                 In x (keys n2) /\ x <> neighbor2_main_addr e).
    { split.
      - intros Hx. apply in_keys_inv in Hx as (r' & Hr' & <-). apply Hin in Hr' as [Hr' Hne].
        split; [by apply (in_keys _ r')|done].
      - intros [Hx Hne]. apply in_keys_inv in Hx as (r' & Hr' & <-).
        apply (in_keys _ r'); [|done]. by apply Hin. }
    rewrite Hx. split; intros; intuition congruence.
  - apply (search_none_iff W) in Es; [|done|done].
    destruct (IH _ Hok Hnb) as [Hok'' Hkeys]. split; [done|]. intros x.
    rewrite Hkeys, keys_cons. cbn. split; intros; intuition congruence.
Qed.

(** The neighbour behind an address of N, and its 2-hop neighbours. *)
Lemma marked_neighbor (nbrs : list NeighborElem) (f : NeighborElem -> NeighborElem) a :
  nbrs = map f N0 ->
  (forall n, neighbor_main_addr (f n) = neighbor_main_addr n /\
             neighbor2_tree (f n) = neighbor2_tree n) ->
  tree_ok W nbrs -> symmetric N0 a ->
  In a (keys nbrs) /\
  exists n, rbtree_search nbrs a = Some n /\ neighbor_main_addr n = a /\
    tree_ok W (neighbor2_tree n) /\
    forall x, In x (keys (neighbor2_tree n)) <-> bridges N0 a x.
Proof using H0 Hn2.
  intros -> Hf Hok Hs. assert (HWa := sym_window a Hs). destruct Hs as (n & Hn & Hsym & Ha).
  assert (Hin : In (f n) (map f N0)) by (by apply in_map).
  assert (Hka : In a (keys (map f N0))).
  { apply (in_keys _ (f n)); [done|]. cbn. by rewrite (proj1 (Hf n)). }
  split; [done|].
  destruct (search_some W _ a Hok HWa Hka) as (n' & Es & Hn' & Hk). exists n'. cbn in Hk.
  assert (n' = f n) as ->.
  { apply (tree_ok_inj W (map f N0) n' (f n) Hok Hn' Hin). cbn. rewrite (proj1 (Hf n)). congruence. }
  split; [done|]. split; [done|]. rewrite (proj2 (Hf n)). split; [by apply Hn2|].
  intros x. split.
  - intros Hx. exists n. auto.
  - intros (m & Hm & _ & Hma & Hx). pose proof (nbr_ok _ _ _ H0).
    assert (m = n) as -> by tree_same. done.
Qed.

Lemma mark_fields M n : neighbor_main_addr (mark M n) = neighbor_main_addr n /\
  neighbor2_tree (mark M n) = neighbor2_tree n.
Proof using. unfold mark. by destruct (existsb _ _). Qed.

(** Selecting one more relay [a], whatever the order of the assignments. *)
Lemma mpr_select ctx n1 n2 a ctx2 :
  mpr_inv (ctx, n1, n2) -> In a (keys n1) ->
  (exists x, strict2 own N0 x /\ bridges N0 a x) ->
  routing_ok w net ctx2 -> same_but_mpr ctx ctx2 -> (routes_current ctx -> routes_current ctx2) ->
  mpr_tree ctx2 = tree_put (mpr_tree ctx) (mkMpr a) ->
  neighbor_tree ctx2 = map (assign_status a MPR_NEIGH) (neighbor_tree ctx) ->
  exists n, rbtree_search (neighbor_tree ctx2) a = Some n /\
    let st' := (ctx2, fst (rbtree_delete n1 a), remove_covered n2 (neighbor2_tree n)) in
    mpr_inv st' /\
    forall x, In x (keys n2) -> bridges N0 a x -> (length (snd st') < length n2)%nat.
Proof using H0 Hn2.
  intros [Hr Hf Hcu Hnb Hmo Hm Ho1 H1 Ho2 H2] Ha Hx Hr2 Hf2 Hcu2 Hmpr Hnb2. cbn in *.
  assert (Hsa := proj1 (proj1 (H1 a) Ha)). assert (HWa := sym_window a Hsa).
  assert (Hk : forall b, In b (keys (mpr_tree ctx2)) <-> b = a \/ In b (keys (mpr_tree ctx)))
    by (intros b; rewrite Hmpr; by rewrite (keys_put W)).
  assert (Hnb2' : neighbor_tree ctx2 = map (mark (mpr_tree ctx2)) N0).
  { rewrite Hnb2, Hnb, map_map. apply map_ext_in. intros n Hn. unfold assign_status.
    rewrite (proj1 (mark_fields _ _)). unfold mark.
    destruct (existsb _ (keys (mpr_tree ctx2))) eqn:E2.
    - apply existsb_in, Hk in E2. destruct (Z.eqb_spec (neighbor_main_addr n) a) as [E|E].
      + by destruct (existsb _ _).
      + destruct E2 as [?|E2]; [done|]. apply existsb_in in E2. by rewrite E2.
    - assert (Hni : ~ In (neighbor_main_addr n) (keys (mpr_tree ctx2)))
        by (rewrite <- existsb_in; congruence). rewrite Hk in Hni.
      rewrite (proj2 (Z.eqb_neq _ _)) by tauto.
      destruct (existsb (Z.eqb (neighbor_main_addr n)) (keys (mpr_tree ctx))) eqn:E1; [|done]. apply existsb_in in E1. tauto. }
  destruct (marked_neighbor (neighbor_tree ctx2) (mark (mpr_tree ctx2)) a Hnb2' (mark_fields _)
    (nbr_ok _ _ _ Hr2) Hsa) as (_ & n & Es & _ & Hn2ok & Hbr).
  exists n. split; [done|]. cbv zeta.
  destruct (remove_covered_ok n2 (neighbor2_tree n) Ho2 Hn2ok) as [Hrok Hrk].
  destruct (delete_spec W n1 a Ho1 HWa) as (Hd1 & _ & Hd2). split.
  - constructor; cbn; try done.
    + by eapply same_but_mpr_trans.
    + auto.
    + rewrite Hmpr. by apply (tree_put_ok W).
    + intros b Hb. apply Hk in Hb as [->|Hb]; [done|auto].
    + intros b. rewrite Hk. transitivity (In b (keys n1) /\ b <> a); [|rewrite H1; tauto]. split.
      * intros Hb. apply in_keys_inv in Hb as (e & He & <-). apply Hd2 in He as [He Hne].
        split; [by apply (in_keys _ e)|done].
      * intros [Hb Hne]. apply in_keys_inv in Hb as (e & He & <-). apply (in_keys _ e); [|done].
        by apply Hd2.
    + intros x. rewrite Hrk, Hbr, H2. setoid_rewrite Hk. split.
      * intros [[? Hno] ?]. split; [done|]. intros (b & [->|?] & ?); [done|]. apply Hno. eauto.
      * intros [? Hno]. split; [split; [done|]|]; [intros (b & ? & ?)|intros ?]; apply Hno; eauto.
  - intros x Hxn Hxb. cbn.
    assert (Hl : (length (x :: keys (remove_covered n2 (neighbor2_tree n))) <= length (keys n2))%nat).
    { apply NoDup_incl_length.
      - constructor; [|by apply (tree_ok_nodup W)]. rewrite Hrk, Hbr. tauto.
      - intros y [<-|Hy]; [done|]. by apply Hrk, proj1 in Hy. }
    unfold keys in Hl. cbn in Hl. rewrite !length_map in Hl. lia.
Qed.

(** Symmetric neighbours are in the neighbour tree throughout. *)
Lemma inv_neighbor ctx n1 n2 a :
  mpr_inv (ctx, n1, n2) -> symmetric N0 a ->
  In a (keys (neighbor_tree ctx)) /\
  exists n, rbtree_search (neighbor_tree ctx) a = Some n /\ neighbor_main_addr n = a /\
    tree_ok W (neighbor2_tree n) /\
    forall x, In x (keys (neighbor2_tree n)) <-> bridges N0 a x.
Proof using H0 Hn2.
  intros Hi Ha. apply (marked_neighbor _ _ a (mi_nbrs _ Hi) (mark_fields _)); [|done].
  apply (nbr_ok _ _ _ (mi_routing _ Hi)).
Qed.

(** The first step: a bridge that is alone for some 2-hop neighbour. *)
Lemma select_unique_in n2 m :
  In m (select_unique_bridges n2) -> exists r, In r n2 /\ map set_addr (n1_tree r) = [mpr_addr m].
Proof using.
  unfold select_unique_bridges.
  assert (H : forall l t, In m (fold_left (fun selected n2r_elem =>
      match n1_tree n2r_elem with
      | [n1] => tree_put selected (mkMpr (set_addr n1))
      | _ => selected
      end) l t) -> In m t \/ exists r, In r l /\ map set_addr (n1_tree r) = [mpr_addr m]).
  { induction l as [|r l IH]; intros t Hm; cbn [fold_left] in Hm; [auto|].
    apply IH in Hm as [Hm|(r' & ? & ?)]; [|right; exists r'; split; [now right|done]].
    destruct (n1_tree r) as [|b [|]] eqn:Er; auto.
    apply in_put in Hm as [->|Hm]; [|auto]. right. exists r. rewrite Er. split; [now left|done]. }
  intros Hm. by apply H in Hm as [[]|?].
Qed.

Lemma add_unique_bridge_ok st :
  mpr_inv st -> mpr_tree (fst (fst st)) = [] ->
  (forall r b, In r (snd st) -> In b (keys (n1_tree r)) <-> bridges N0 b (n2_addr r)) ->
  exists st', add_unique_bridge_to_mpr st = Ok st' /\ mpr_inv st' /\
    (length (snd st') <= length (snd st))%nat.
Proof using H0 Hn2.
  destruct st as [[ctx n1] n2]. cbn [fst snd]. intros Hi Hm Hbr.
  unfold add_unique_bridge_to_mpr. cbn [snd].
  destruct (rbtree_first (select_unique_bridges n2)) as [m|] eqn:Ef; [|eauto].
  assert (Hin : In m (select_unique_bridges n2)).
  { destruct (select_unique_bridges n2); [done|]. injection Ef as ->. now left. }
  apply select_unique_in in Hin as (r & Hr & Hn1).
  assert (Hb : bridges N0 (mpr_addr m) (n2_addr r)).
  { apply Hbr; [done|]. unfold keys. change (@tkey AddrSetElem Z _) with set_addr. rewrite Hn1.
    now left. }
  assert (Hrk : In (n2_addr r) (keys n2)) by (by apply (in_keys _ r)).
  assert (Hs2 := proj1 (mi_n2 _ Hi _) Hrk). cbn in Hs2.
  assert (Hsym : symmetric N0 (mpr_addr m)) by (destruct Hb as (n & ? & ? & ? & _); exists n; done).
  assert (Ha : In (mpr_addr m) (keys n1)).
  { apply (mi_n1 _ Hi). split; [done|]. cbn. rewrite Hm, keys_nil. by intros []. }
  set (ctx1 := set_mpr_tree ctx (tree_put (mpr_tree ctx) m)).
  assert (Hr1 : routing_ok w net ctx1) by (destruct (mi_routing _ Hi); by constructor).
  destruct (inv_neighbor _ _ _ _ Hi Hsym) as (Hka & _).
  destruct (set_neighbor_status_ok w net ctx1 (mpr_addr m) MPR_NEIGH Hr1 Hka)
    as (ctx2 & E & Hr2 & Hnb & Hsame & Hcu).
  assert (Hmpr2 : mpr_tree ctx2 = tree_put (mpr_tree ctx) (mkMpr (mpr_addr m))).
  { apply (f_equal mpr_tree) in Hsame. cbn in Hsame. rewrite <- Hsame. by destruct m. }
  destruct (mpr_select ctx n1 n2 (mpr_addr m) ctx2 Hi Ha) as (n & Es & Hi' & Hlt); try done.
  { exists (n2_addr r). split; [apply Hs2|done]. }
  { by apply routes_mpr in Hsame. }
  unfold select_mpr. fold ctx1. rewrite E. cbn [rbind]. rewrite Es. cbn [deref rbind].
  eexists. split; [done|]. split; [done|]. apply Nat.lt_le_incl, (Hlt (n2_addr r)); done.
Qed.

(** The greedy choice. *)
Lemma get_max_ok ctx n1 n2 :
  mpr_inv (ctx, n1, n2) ->
  exists best, get_max_reachablilty_neigh (neighbor_tree ctx) n1 n2 = Ok best /\
    match best with
    | None => forall a x, In a (keys n1) -> bridges N0 a x -> ~ In x (keys n2)
    | Some n => In (neighbor_main_addr n) (keys n1) /\
                exists x, bridges N0 (neighbor_main_addr n) x /\ In x (keys n2)
    end.
Proof using H0 Hn2.
  intros Hi. unfold get_max_reachablilty_neigh.
  assert (Hreach : forall n, tree_ok W (neighbor2_tree n) ->
    0 <= calc_reachability n n2 /\
    (0 < calc_reachability n n2 <->
     exists x, In x (keys (neighbor2_tree n)) /\ In x (keys n2))).
  { intros n Hn. pose proof (mi_n2_ok _ Hi) as Hok. cbn in Hok. unfold calc_reachability.
    set (f := fun e : Neighbor2Elem => _). split; [apply zlen_nonneg|]. split.
    - intros Hl. destruct (List.filter f (neighbor2_tree n)) as [|e l] eqn:Ef; [by apply Z.lt_irrefl in Hl|].
      assert (He : In e (List.filter f (neighbor2_tree n))) by (rewrite Ef; now left).
      apply filter_In in He as [He Hf]. exists (neighbor2_main_addr e).
      split; [by apply (in_keys _ e)|]. unfold f in Hf.
      destruct (rbtree_search n2 (neighbor2_main_addr e)) as [r|] eqn:Es; [|done].
      apply (search_iff W) in Es as [Hr Hk]; [|done|tree_dom]. by apply (in_keys _ r).
    - intros (x & Hx & Hx2). apply in_keys_inv in Hx as (e & He & <-).
      assert (Hin : In e (List.filter f (neighbor2_tree n))).
      { apply filter_In. split; [done|]. unfold f.
        destruct (search_some W n2 (neighbor2_main_addr e)) as (r & -> & _); [done|tree_dom|done|done]. }
      destruct (List.filter f (neighbor2_tree n)); [done|]. rewrite zlen_cons.
      pose proof (zlen_nonneg l). lia. }
  set (P := fun (done : list AddrSetElem) (best : Z * option NeighborElem) =>
    0 <= fst best /\
    (forall a x, In a (keys done) -> bridges N0 a x -> In x (keys n2) -> 0 < fst best) /\
    match snd best with
    | None => fst best = 0
    | Some n => In (neighbor_main_addr n) (keys n1) /\
                exists x, bridges N0 (neighbor_main_addr n) x /\ In x (keys n2)
    end).
  assert (Hloop : forall l d best, incl l n1 -> P d best ->
    exists best', rfold (fun best aelem =>
      let* nelem := deref (rbtree_search (neighbor_tree ctx) (set_addr aelem)) in
      Ok (if fst best <? calc_reachability nelem n2
          then (calc_reachability nelem n2, Some nelem) else best)) l best = Ok best' /\
      P (d ++ l) best').
  { induction l as [|e l IH]; intros d best Hl (Hp & Hall & Hb); cbn [rfold].
    { exists best. rewrite app_nil_r. by split. }
    assert (He : In (set_addr e) (keys n1)) by (apply (in_keys _ e); [apply Hl; now left|done]).
    assert (Hsym := proj1 (proj1 (mi_n1 _ Hi _) He)).
    destruct (inv_neighbor _ _ _ _ Hi Hsym) as (_ & n & -> & Hna & Hn2ok & Hbr). cbn [deref rbind].
    destruct (Hreach n Hn2ok) as [Hr0 Hr].
    replace (d ++ e :: l) with ((d ++ [e]) ++ l) by (by rewrite <- app_assoc).
    apply IH; [intros y Hy; apply Hl; now right|].
    assert (Hall' : forall m, fst best <= m -> calc_reachability n n2 <= m ->
      forall a x, In a (keys (d ++ [e])) -> bridges N0 a x -> In x (keys n2) -> 0 < m).
    { intros m Hm1 Hm2 a x Ha Hbx Hx. unfold keys in Ha. rewrite map_app, in_app_iff in Ha.
      destruct Ha as [Ha|[<-|[]]]; [specialize (Hall a x Ha Hbx Hx); lia|].
      assert (0 < calc_reachability n n2); [|lia]. apply Hr. exists x. by rewrite Hbr. }
    destruct (Z.ltb_spec (fst best) (calc_reachability n n2)).
    - split; [cbn; lia|]. split; [apply Hall'; cbn; lia|]. cbn. rewrite Hna. split; [done|].
      destruct (proj1 Hr) as (x & Hx & Hx2); [lia|]. exists x. by rewrite <- Hbr.
    - split; [done|]. split; [apply Hall'; lia|done]. }
  destruct (Hloop n1 [] (0, None)) as (best & -> & Hp0 & Hall & Hb); [apply incl_refl| |].
  { split; [cbn; lia|]. split; [|done]. intros a x Ha. rewrite keys_nil in Ha. done. }
  cbn [rbind]. exists (snd best). split; [done|]. destruct (snd best) as [n|]; [done|].
  intros a x Ha Hbx Hx. specialize (Hall a x Ha Hbx Hx). lia.
Qed.

(** The loop empties N2: each turn covers one more of its nodes. *)
Lemma greedy_ok fuel st :
  mpr_inv st -> (length (snd st) <= fuel)%nat ->
  exists st', populate_mpr_set_by_reachability fuel st = Ok st' /\ mpr_inv st' /\ snd st' = [].
Proof using H0 Hn2.
  revert st. induction fuel as [|fuel IH]; intros [[ctx n1] n2] Hi Hf; cbn [snd] in Hf.
  - destruct n2; [|cbn in Hf; lia]. cbn. eauto.
  - cbn [populate_mpr_set_by_reachability]. destruct n2 as [|r0 n2']; [eauto|].
    set (n2 := r0 :: n2') in *.
    destruct (get_max_ok ctx n1 n2 Hi) as (best & -> & Hb). cbn [rbind].
    destruct best as [n|].
    + destruct Hb as (Ha & x & Hx & Hxn). set (a := neighbor_main_addr n) in *.
      assert (Hsym := proj1 (proj1 (mi_n1 _ Hi _) Ha)).
      destruct (inv_neighbor _ _ _ _ Hi Hsym) as (Hka & _).
      destruct (set_neighbor_status_ok w net ctx a MPR_NEIGH (mi_routing _ Hi) Hka)
        as (ctx1 & -> & Hr1 & Hnb & Hsame & Hcu). cbn [rbind].
      set (ctx2 := set_mpr_tree ctx1 (tree_put (mpr_tree ctx1) (mkMpr a))).
      assert (Hm1 : mpr_tree ctx1 = mpr_tree ctx) by (by apply (f_equal mpr_tree) in Hsame).
      destruct (mpr_select ctx n1 n2 a ctx2 Hi Ha) as (n' & Es & Hi' & Hlt); try done.
      { exists x. split; [|done]. by apply (mi_n2 _ Hi). }
      { by destruct Hr1; constructor. }
      { apply routes_mpr in Hsame. unfold same_but_mpr, same_but_routes in *. by rewrite Hsame. }
      { unfold ctx2. cbn. by rewrite Hm1. }
      rewrite Es. cbn [deref rbind]. apply IH; [done|].
      specialize (Hlt x Hxn Hx). cbn [snd] in Hlt |- *. lia.
    + exfalso. assert (Hr : In (n2_addr r0) (keys n2)).
      { apply (in_keys _ r0); [|done]. now left. }
      destruct (proj1 (mi_n2 _ Hi _) Hr) as [(Ho & Hns & b & Hbr) Hno].
      apply (Hb b (n2_addr r0)); [|done|done]. apply (mi_n1 _ Hi). split.
      * destruct Hbr as (m & ? & ? & ? & _). by exists m.
      * intros Hbm. apply Hno. eauto.
Qed.

(** The neighbours left in N lose the status of a relay. *)
Lemma clean_n1_set_ok ctx n1 n2 :
  mpr_inv (ctx, n1, n2) ->
  exists ctx', clean_n1_set ctx n1 = Ok ctx' /\ routing_ok w net ctx' /\
    neighbor_tree ctx' = map (remark (mpr_tree ctx)) N0 /\ same_but_routes ctx ctx' /\
    (routes_current ctx -> routes_current ctx').
Proof using H0 Hn2.
  intros Hi. unfold clean_n1_set.
  set (f := fun (d : list AddrSetElem) n =>
    if existsb (Z.eqb (neighbor_main_addr n)) (keys d) then set_status SYM_NEIGH n
    else mark (mpr_tree ctx) n).
  assert (Hff : forall d n, neighbor_main_addr (f d n) = neighbor_main_addr n /\
             neighbor2_tree (f d n) = neighbor2_tree n).
  { intros d n. unfold f. destruct (existsb _ _); [done|]. apply mark_fields. }
  assert (Hloop : forall l d c, incl l n1 -> routing_ok w net c -> same_but_routes ctx c ->
    neighbor_tree c = map (f d) N0 -> (routes_current ctx -> routes_current c) ->
    exists c', rfold (fun c e => set_neighbor_status c (set_addr e) SYM_NEIGH) l c = Ok c' /\
      routing_ok w net c' /\ same_but_routes ctx c' /\ neighbor_tree c' = map (f (d ++ l)) N0 /\
      (routes_current ctx -> routes_current c')).
  { induction l as [|e l IH]; intros d c Hl Hr Hs Hn Hc; cbn [rfold].
    { exists c. by rewrite app_nil_r. }
    assert (He : In (set_addr e) (keys n1)) by (apply (in_keys _ e); [apply Hl; now left|done]).
    assert (Hsym := proj1 (proj1 (mi_n1 _ Hi _) He)).
    destruct (marked_neighbor _ _ (set_addr e) Hn (Hff d)) as (Hka & _);
      [apply (nbr_ok _ _ _ Hr)|done|].
    destruct (set_neighbor_status_ok w net c (set_addr e) SYM_NEIGH Hr Hka)
      as (c1 & -> & Hr1 & Hn1 & Hs1 & Hc1). cbn [rbind].
    replace (d ++ e :: l) with ((d ++ [e]) ++ l) by (by rewrite <- app_assoc).
    apply IH; [intros y Hy; apply Hl; now right|done|by eapply same_but_routes_trans| |auto].
    rewrite Hn1, Hn, map_map. apply map_ext. intros n. unfold assign_status.
    rewrite (proj1 (Hff d n)). unfold f at 2 3. unfold keys. rewrite map_app, existsb_app. cbn.
    rewrite orb_false_r. fold (keys d).
    destruct (neighbor_main_addr n =? set_addr e); [|by rewrite orb_false_r].
    rewrite orb_true_r. unfold f, mark. by repeat destruct (existsb _ _). }
  destruct (Hloop n1 [] ctx) as (c' & -> & Hr & Hs & Hn & Hc); [apply incl_refl|apply (mi_routing _ Hi)
    |done|apply (mi_nbrs _ Hi)|done|].
  exists c'. split; [done|]. split; [done|]. split; [|done]. rewrite Hn. apply map_ext_in.
  intros n Hin. unfold f, remark, mark. cbn [app].
  assert (Hu : forall a, symmetric N0 a -> neighbor_main_addr n = a -> is_sym n = true).
  { intros a (m & Hm & Hs' & Hma) Hna. pose proof (nbr_ok _ _ _ H0).
    assert (n = m) as -> by tree_same. done. }
  destruct (existsb _ (keys n1)) eqn:E1.
  - apply existsb_in in E1. apply (mi_n1 _ Hi) in E1 as [Hsym Hno]. cbn in Hno.
    rewrite (Hu _ Hsym eq_refl).
    destruct (existsb _ _) eqn:E2; [|done]. apply existsb_in in E2. done.
  - destruct (is_sym n) eqn:Esym.
    + destruct (existsb _ (keys (mpr_tree ctx))) eqn:E2; [done|]. exfalso.
      assert (Hno : ~ In (neighbor_main_addr n) (keys n1)) by (rewrite <- existsb_in; congruence).
      apply Hno, (mi_n1 _ Hi). cbn. rewrite <- existsb_in, E2. split; [|done]. by exists n.
    + destruct (existsb _ (keys (mpr_tree ctx))) eqn:E2; [|done]. apply existsb_in in E2.
      apply (mi_mpr _ Hi) in E2 as [Hsym _]. discriminate (Hu _ Hsym eq_refl).
Qed.
End Selection.

(** The change test compares the two sets. *)
Lemma check_mpr_set_change_ok w old new :
  tree_ok (in_window w) old -> tree_ok (in_window w) new ->
  check_mpr_set_change old new = false <-> (forall a, In a (keys old) <-> In a (keys new)).
Proof.
  intros Ho Hn. unfold check_mpr_set_change.
  assert (Hndo : List.NoDup (keys old)) by (by apply (tree_ok_nodup (in_window w))).
  assert (Hndn : List.NoDup (keys new)) by (by apply (tree_ok_nodup (in_window w))).
  assert (Hlen : forall t : list MprElem, length t = length (keys t))
    by (intros; unfold keys; by rewrite length_map).
  assert (Hincl : existsb (fun o : MprElem => match rbtree_search new (mpr_addr o) with
      None => true | Some _ => false end) old = false <-> incl (keys old) (keys new)).
  { split.
    - intros He a Ha. apply in_keys_inv in Ha as (o & Ho' & <-).
      destruct (rbtree_search new (mpr_addr o)) as [e|] eqn:Es.
      + apply (search_iff (in_window w)) in Es as [He' Hke]; [|done|tree_dom]. by apply (in_keys _ e).
      + assert (Ht : existsb (fun o : MprElem => match rbtree_search new (mpr_addr o) with
          None => true | Some _ => false end) old = true); [|congruence].
        apply existsb_exists. exists o. by rewrite Es.
    - intros Hi. apply not_true_is_false. intros He. apply existsb_exists in He as (o & Ho' & He).
      destruct (search_some (in_window w) new (mpr_addr o)) as (e & Es & _);
        [done|tree_dom|apply Hi; by apply (in_keys _ o)|]. by rewrite Es in He. }
  destruct (Nat.eqb_spec (length old) (length new)) as [E|E]; cbn.
  - rewrite Hincl. split.
    + intros Hi a. split; [apply Hi|]. apply NoDup_length_incl; [done| |done].
      rewrite <- !Hlen. lia.
    + intros Hi a. apply Hi.
  - split; [done|]. intros Hi. exfalso. apply E. rewrite !Hlen.
    apply Nat.le_antisymm; apply NoDup_incl_length; try done; intros a; apply Hi.
Qed.

(** What the selection does to the context. *)
Record mpr_result (w : Z) (net : list Z) (ctx ctx' : OlsrContext) : Prop := {
  mr_routing : routing_ok w net ctx';
  mr_tree : tree_ok (in_window w) (mpr_tree ctx');
  mr_covers : covers (own_ip ctx) (neighbor_tree ctx) (keys (mpr_tree ctx'));
  mr_useful : forall a, In a (keys (mpr_tree ctx')) -> symmetric (neighbor_tree ctx) a /\
    exists x, strict2 (own_ip ctx) (neighbor_tree ctx) x /\ bridges (neighbor_tree ctx) a x;
  mr_status : neighbor_tree ctx' = map (remark (mpr_tree ctx')) (neighbor_tree ctx);
  mr_same : (forall a, In a (keys (mpr_tree ctx)) <-> In a (keys (mpr_tree ctx'))) ->
    OlsrContext.ansn ctx' = OlsrContext.ansn ctx;
  mr_changed : ~ (forall a, In a (keys (mpr_tree ctx)) <-> In a (keys (mpr_tree ctx'))) ->
    OlsrContext.ansn ctx' = u16 (OlsrContext.ansn ctx + 1);
  mr_frame : same_but_mpr (set_ansn ctx 0) (set_ansn ctx' 0);
  mr_routes : routes_current ctx -> routes_current ctx'
}.

Lemma populate_mpr_set_spec w net ctx :
  routing_ok w net ctx ->
  (forall n, In n (neighbor_tree ctx) -> tree_ok (in_window w) (neighbor2_tree n)) ->
  tree_ok (in_window w) (mpr_tree ctx) ->
  exists ctx', populate_mpr_set ctx = Ok ctx' /\ mpr_result w net ctx ctx'.
Proof.
  intros H Hn2 Hm. unfold populate_mpr_set. set (c0 := set_mpr_tree ctx []).
  assert (H0 : routing_ok w net c0) by (destruct H; by constructor).
  pose proof (nbr_ok _ _ _ H) as Hnok. change (neighbor_tree c0) with (neighbor_tree ctx).
  destruct (calc_n1_set_ok w (neighbor_tree ctx) Hnok) as [H1ok H1].
  destruct (calc_n2_set_ok w (own_ip c0) (neighbor_tree ctx) Hnok Hn2) as (H2ok & H2 & Hbr).
  cbv zeta in *. set (n1 := calc_n1_set _) in *. set (n2 := calc_n2_set _ _ _) in *.
  assert (Hi : mpr_inv w net c0 (c0, n1, n2)).
  { constructor; cbn; rewrite ?keys_nil; try done.
    - rewrite <- (map_id (neighbor_tree ctx)) at 1. apply map_ext. done.
    - apply tree_ok_nil.
    - intros a. rewrite H1. cbn. tauto.
    - intros x. rewrite H2. split; [intros ?; split; [done|]; by intros (b & [] & _)|tauto]. }
  destruct (add_unique_bridge_ok w net c0 H0 Hn2 _ Hi) as (st1 & -> & Hi1 & Hle); [done|done|].
  cbn [rbind]. destruct (greedy_ok w net c0 H0 Hn2 (length n2) st1 Hi1 Hle) as (st2 & -> & Hi2 & E2).
  cbn [rbind]. destruct st2 as [[ctx2 n1'] n2']. cbn [snd] in E2. subst n2'.
  pose proof (mi_frame _ _ _ _ Hi2) as Hf2. pose proof (mi_mpr_ok _ _ _ _ Hi2) as Hm2. cbn in Hf2, Hm2.
  assert (Ha2 : OlsrContext.ansn ctx2 = OlsrContext.ansn ctx)
    by (unfold same_but_mpr, same_but_routes in Hf2;
        by apply (f_equal OlsrContext.ansn) in Hf2).
  pose proof (check_mpr_set_change_ok w (mpr_tree ctx) (mpr_tree ctx2) Hm Hm2) as Hch.
  set (ctx3 := if check_mpr_set_change (mpr_tree ctx) (mpr_tree ctx2)
               then set_ansn ctx2 (u16 (OlsrContext.ansn ctx2 + 1)) else ctx2).
  assert (Hf3 : mpr_tree ctx3 = mpr_tree ctx2 /\ neighbor_tree ctx3 = neighbor_tree ctx2 /\
    set_ansn ctx3 0 = set_ansn ctx2 0) by (unfold ctx3; by destruct (check_mpr_set_change _ _)).
  destruct Hf3 as (Em3 & En3 & Ef3).
  assert (Hi3 : mpr_inv w net (set_ansn c0 (OlsrContext.ansn ctx3)) (ctx3, n1', [])).
  { destruct Hi2 as [Hr2 _ Hcu2 Hn2' Hmo2 Hmp2 Ho1 Hk1 Ho2 Hk2]. cbn in *.
    constructor; cbn; rewrite ?Em3, ?En3; try done.
    - unfold ctx3. destruct (check_mpr_set_change _ _); [by destruct Hr2; constructor|done].
    - unfold same_but_mpr, same_but_routes in *.
      transitivity (set_routing_table (set_neighbor_tree (set_node_stat_tree (set_stat
        (set_mpr_tree (set_ansn ctx2 (OlsrContext.ansn ctx3)) []) zero_stats) []) []) []).
      + by apply (f_equal (fun c => set_ansn c (OlsrContext.ansn ctx3))) in Hf2.
      + unfold ctx3. by destruct (check_mpr_set_change _ _), ctx2.
    - intros Hc. unfold ctx3. destruct (check_mpr_set_change _ _); exact (Hcu2 Hc). }
  assert (H0' : routing_ok w net (set_ansn c0 (OlsrContext.ansn ctx3))) by (destruct H0; by constructor).
  destruct (clean_n1_set_ok w net (set_ansn c0 (OlsrContext.ansn ctx3)) H0' Hn2 ctx3 n1' [] Hi3)
    as (ctx' & E & Hr' & Hn' & Hs' & Hcu').
  exists ctx'. split; [exact E|].
  assert (Em' : mpr_tree ctx' = mpr_tree ctx2).
  { apply (f_equal mpr_tree) in Hs'. cbn in Hs'. congruence. }
  assert (Ea' : OlsrContext.ansn ctx' = OlsrContext.ansn ctx3).
  { by apply (f_equal OlsrContext.ansn) in Hs'. }
  pose proof (mi_routes _ _ _ _ Hi3) as Hcu3. destruct Hi3 as [_ _ _ _ _ Hmp3 _ _ _ Hk3]. cbn in Hmp3, Hk3. rewrite Em3 in *.
  constructor; rewrite ?Em', ?Ea'; try done.
  - intros x Hx. destruct (bridged_dec (neighbor_tree ctx) (keys (mpr_tree ctx2)) x); [done|].
    exfalso. apply (proj2 (Hk3 x)). by split.
  - intros Heq. unfold ctx3. by rewrite (proj2 Hch Heq).
  - intros Hne. unfold ctx3. destruct (check_mpr_set_change _ _) eqn:Ec.
    + cbn. by rewrite Ha2.
    + exfalso. by apply Hne, Hch.
  - unfold same_but_mpr, same_but_routes in *.
    apply (f_equal (fun c => set_ansn (set_mpr_tree c []) 0)) in Hs'.
    apply (f_equal (fun c => set_ansn c 0)) in Hf2.
    transitivity (set_routing_table (set_neighbor_tree (set_node_stat_tree (set_stat
      (set_mpr_tree (set_ansn ctx3 0) []) zero_stats) []) []) []); [|exact Hs'].
    rewrite Ef3. exact Hf2.
  - intros Hc. apply Hcu', Hcu3. exact Hc.
Qed.

(** C19: The MPR selection is total and correct: on a well-formed context it
    returns within its loop bound and without undefined behaviour, N2 always ends
    empty, and in the result every strict symmetric 2-hop neighbour is covered by a
    relay; every relay is a symmetric neighbour that reaches some such node; the
    status of exactly the symmetric neighbours is brought in line with the new set;
    the advertised sequence number steps, modulo 2^16, exactly when the set
    changed; and apart from the routing table and the statistics, which stay
    well-formed, nothing else changes; a routing table that was current stays
    current. *)
Theorem populate_mpr_set_correct (w : Z) (net : list Z) (ctx : OlsrContext)
  (H : routing_ok w net ctx)
  (Hn2 : forall n, In n (neighbor_tree ctx) -> tree_ok (in_window w) (neighbor2_tree n))
  (Hm : tree_ok (in_window w) (mpr_tree ctx)) :
  exists ctx', populate_mpr_set ctx = Ok ctx' /\ mpr_result w net ctx ctx'.
Proof. by apply populate_mpr_set_spec. Qed.

(** Three symmetric neighbours: 2 alone reaches 10, 4 alone reaches 12, and 3 is
    not needed; the unique bridge 4 is found by the greedy loop. *)
Definition ex_mpr_ctx : OlsrContext :=
  let n2 a b := mkNeigh2 a b 0 in
  set_neighbor_tree (init_olsr_context 1 zero_stats (fun _ => mkTimespec 0 0) (fun _ => 0) [])
    [mkNeigh 2 SYM_NEIGH 3 [n2 1 2; n2 10 2; n2 11 2]; mkNeigh 3 MPR_NEIGH 3 [n2 2 3; n2 11 3];
     mkNeigh 4 SYM_NEIGH 3 [n2 11 4; n2 12 4]; mkNeigh 5 NOT_NEIGH 3 [n2 13 5]].

Example ex_mpr_set :
  option_map (fun c => (keys (mpr_tree c), map neigh_status (neighbor_tree c)))
    (match populate_mpr_set ex_mpr_ctx with Ok c => Some c | _ => None end) =
  Some ([2; 4], [MPR_NEIGH; SYM_NEIGH; MPR_NEIGH; NOT_NEIGH]).
Proof. vm_compute. reflexivity. Qed.

Lemma populate_mpr_set_correct_witness :
  exists ctx', populate_mpr_set ex_mpr_ctx = Ok ctx' /\
    mpr_result 0 [1; 2; 3; 4; 5; 10; 11; 12; 13] ex_mpr_ctx ctx'.
Proof.
  apply (populate_mpr_set_correct 0 [1; 2; 3; 4; 5; 10; 11; 12; 13] ex_mpr_ctx).
  - constructor; [vm_compute; lia| |tree_concrete| |split; [tree_concrete|]| | | |tree_concrete| |].
    + each; apply in_windowb_ok; reflexivity.
    + intros a. each; tauto.
    + each.
    + intros a. each.
    + each.
    + intros t a. each.
    + each.
    + constructor; each. constructor.
  - each; tree_concrete.
  - tree_concrete.
Defined.
