(* ===== verification/OlsrHello.v ===== *)
(** HELLO messages (simnet/olsr/olsr_hello.c).

    A message is built in and read from a block of bytes at an offset, with the
    loads and stores of the packed structs [HelloMsg] and [HelloInfo].  The
    [reserved] byte of an info block is never written, so it keeps whatever was
    in the sender's stack buffer.

    [hello_groups] is the abstract content of the message a node sends: for each
    link code, in order, the addresses with this code.  The theorems relate the
    bytes to it, in both directions. *)
From S2P Require Import Prelude OrdTree RingBuffer TimerQueue OlsrContext OlsrSpf OlsrMantissa OlsrNeighbor OlsrMpr.
From stdpp Require Import base list numbers gmap.
From Stdlib Require Import ZArith Lia.
Open Scope Z_scope.
Open Scope c_scope.

Definition sizeof_HelloInfo : Z := 4.
Definition sizeof_HelloMsg : Z := 4.
Definition sizeof_in_addr : Z := 4.

(** ** Building *)

(** The links of all interfaces, in the order of the two nested loops. *)
Definition all_links (ctx : OlsrContext) : list LinkElem :=
  concat (map iface_link_tree (local_iface_tree ctx)).

(** The link code announced for a link, if the neighbour has a status. *)
Definition link_code_of (ctx : OlsrContext) (lelem : LinkElem) : option Z :=
  let neighbor_status := get_neighbor_status ctx (neighbor_iface_addr lelem) in
  if neighbor_status =? STATUS_UNAVAILABLE then None
  else Some (u8 (CREATE_LINK_CODE neighbor_status (link_status lelem))).

(** [offset] is [*offsetp]; the block and the new offset are returned. *)
Definition hello_write_links_with_code (ctx : OlsrContext) (b : list Z) (offset code : Z)
  : res (list Z * Z) :=
  let hello_info := offset in
  let* b := wr8 b hello_info code in
  let* st := rfold (fun '(b, offset, write_count) lelem =>
      match link_code_of ctx lelem with
      | None => Ok (b, offset, write_count)
      | Some link_code =>
        if link_code =? code then
          let* b := wr32 b (hello_info + sizeof_HelloInfo + sizeof_in_addr * write_count)
                      (neighbor_iface_addr lelem) in
          Ok (b, offset + sizeof_in_addr, u16 (write_count + 1))
        else Ok (b, offset, write_count)
      end) (all_links ctx) (b, offset + sizeof_HelloInfo, 0) in
  let '(b, offset, write_count) := st in
  if write_count =? 0 then Ok (b, offset - sizeof_HelloInfo)
  else let* b := wr16 b (hello_info + 2) (htons write_count) in Ok (b, offset).

(** The codes in the order of the loops over [nstat] and [lstat]. *)
Definition link_codes : list Z :=
  concat (map (fun nstat => map (fun lstat => u8 (CREATE_LINK_CODE nstat lstat))
                              (seqZ 0 LINK_STATUS_END))
              (seqZ 0 NEIGHBOR_STATUS_END)).

Definition hello_write_links (ctx : OlsrContext) (b : list Z) (offset : Z)
  : res (list Z * Z) :=
  rfold (fun '(b, offset) code => hello_write_links_with_code ctx b offset code)
        link_codes (b, offset).

(** The block and the length of the message. *)
Definition build_olsr_hello (ctx : OlsrContext) (b : list Z) (buf : Z) : res (list Z * Z) :=
  let* b := wr16 b buf 0 in
  let* htime := reltime_to_me DEF_HELLO_INTERVAL_MS in
  let* b := wr8 b (buf + 2) htime in
  let* b := wr8 b (buf + 3) (param_willingness (param ctx)) in
  let* r := hello_write_links ctx b (buf + sizeof_HelloMsg) in
  let '(b, offset) := r in
  Ok (b, offset - buf).

(** ** Reading *)

(** Is [own] among the [n] addresses from [off] on? *)
Fixpoint has_addr (n : nat) (b : list Z) (off own : Z) : res bool :=
  match n with
  | O => Ok false
  | S n' =>
    let* a := rd32 b off in
    if a =? own then Ok true else has_addr n' b (off + sizeof_in_addr) own
  end.

(** The search of [populate_linkset]: the link code announced for [own]. *)
Fixpoint find_linkcode (fuel : nat) (b : list Z) (start len offset own : Z) : res Z :=
  if offset - start <? len then
    match fuel with
    | O => NoFuel
    | S n =>
      let* size := rd16 b (offset + 2) in
      let entrynum := ntohs size in
      let* found := has_addr (Z.to_nat entrynum) b (offset + sizeof_HelloInfo) own in
      let* link_code := rd8 b offset in
      if (found : bool) && negb (link_code =? STATUS_UNAVAILABLE) then Ok link_code
      else find_linkcode n b start len
             (offset + sizeof_HelloInfo + sizeof_in_addr * entrynum) own
    end
  else Ok STATUS_UNAVAILABLE.

(** Every turn moves at least one info header ahead inside the block. *)
Definition hello_fuel (b : list Z) : nat := S (length b).

Definition mpr_selector_expire (ctx : OlsrContext) (selector timer : Z) : res OlsrContext :=
  let ctx := set_selector_tree ctx (fst (rbtree_delete (selector_tree ctx) selector)) in
  upd_tq ctx (fun tq => timerqueue_free_timer tq timer).

(** The branch for [MPR_NEIGH] of the second switch of [populate_linkset]. *)
Definition update_mpr_selector (ctx : OlsrContext) (orig link_addr vtime : Z) : res OlsrContext :=
  let* r :=
    match rbtree_search (selector_tree ctx) link_addr with
    | Some mpr_selector => Ok (ctx, mpr_selector)
    | None =>
      let* r := with_tq ctx (fun tq => start_timer tq 0 0 0 (Cb_mpr_selector_expire orig)) in
      let '(ctx, timer) := r in
      Ok (ctx, {| selector_addr := orig; selector_expire_timer := timer |})
    end in
  let '(ctx, mpr_selector) := r in
  let* ctx := upd_tq ctx (fun tq =>
    let* tq := poke tq (selector_expire_timer mpr_selector) (set_interval (vtime_us vtime)) in
    timerqueue_reactivate_timer tq (selector_expire_timer mpr_selector)) in
  Ok (set_selector_tree ctx (tree_put (selector_tree ctx) mpr_selector)).

(** [link] is named by its interface and its address; [hello_info] is the offset
    of the first info block. *)
Definition populate_linkset (ctx : OlsrContext) (orig iface link : Z) (b : list Z)
  (hello_info len vtime : Z) : res OlsrContext :=
  let* linkcode_to_me :=
    find_linkcode (hello_fuel b) b hello_info len hello_info (own_ip ctx) in
  if negb (linkcode_to_me =? STATUS_UNAVAILABLE) then
    let linkstat := EXTRACT_LINK linkcode_to_me in
    let* ctx :=
      if (linkstat =? SYM_LINK) || (linkstat =? ASYM_LINK) then
        link_elem_sym_timer_set ctx iface link vtime
      else if linkstat =? LOST_LINK then
        let* l := find_link ctx iface link in
        let* p := deref (sym_timer l) in
        let* ctx := upd_tq ctx (fun tq => poke tq p (set_active 0)) in
        sym_link_timer_expire ctx iface link
      else Ok ctx in
    let neighstat := EXTRACT_STATUS linkcode_to_me in
    if neighstat =? MPR_NEIGH then update_mpr_selector ctx orig link vtime else Ok ctx
  else Ok ctx.

(** The inner loop of [populate_neigh2set], over [n] addresses. *)
Fixpoint neigh2_entries (n : nat) (ctx : OlsrContext) (neigh : Z) (b : list Z) (off vtime : Z)
  : res OlsrContext :=
  match n with
  | O => Ok ctx
  | S n' =>
    let* neigh2_addr := rd32 b off in
    let* ctx := if neigh2_addr =? own_ip ctx then Ok ctx
                else update_neigh2_tuple ctx neigh neigh2_addr vtime in
    neigh2_entries n' ctx neigh b (off + sizeof_in_addr) vtime
  end.

Fixpoint populate_neigh2set (fuel : nat) (ctx : OlsrContext) (neigh : Z) (b : list Z)
  (start len offset vtime : Z) : res OlsrContext :=
  if offset - start <? len then
    match fuel with
    | O => NoFuel
    | S n =>
      let* size := rd16 b (offset + 2) in
      let entrynum := ntohs size in
      let* ctx := neigh2_entries (Z.to_nat entrynum) ctx neigh b (offset + sizeof_HelloInfo) vtime in
      populate_neigh2set n ctx neigh b start len
        (offset + sizeof_HelloInfo + sizeof_in_addr * entrynum) vtime
    end
  else Ok ctx.

Definition make_new_local_iface_elem (ctx : OlsrContext) : OlsrContext :=
  set_local_iface_tree ctx
    (tree_put (local_iface_tree ctx) {| local_iface_addr := own_ip ctx; iface_link_tree := [] |}).

(** [hello] is the offset of the message in the block [b]; [msgsize] is a
    [size_t]. *)
Definition process_olsr_hello (ctx : OlsrContext) (src orig : Z) (b : list Z)
  (hello vtime msgsize : Z) : res OlsrContext :=
  let* willingness := rd8 b (hello + 3) in
  let ctx := match rbtree_search (local_iface_tree ctx) (own_ip ctx) with
             | Some _ => ctx
             | None => make_new_local_iface_elem ctx
             end in
  let ctx := match rbtree_search (neighbor_tree ctx) src with
             | Some _ => ctx
             | None => set_neighbor_tree ctx
                         (tree_put (neighbor_tree ctx) (make_neighbor_elem src willingness))
             end in
  let* iface := deref (rbtree_search (local_iface_tree ctx) (own_ip ctx)) in
  let* ctx := match rbtree_search (iface_link_tree iface) src with
              | None => make_link_elem ctx src (own_ip ctx) vtime
              | Some _ => link_elem_expire_timer_set ctx (own_ip ctx) src vtime
              end in
  let* ctx := link_elem_asym_timer_set ctx (own_ip ctx) src vtime in
  let hello_info := hello + sizeof_HelloMsg in
  let len := u64 (msgsize - sizeof_HelloMsg) in
  let* ctx := populate_linkset ctx orig (own_ip ctx) src b hello_info len vtime in
  let* ctx := update_neighbor_status ctx src in
  let* neigh := deref (rbtree_search (neighbor_tree ctx) src) in
  let* ctx := if is_sym neigh
              then populate_neigh2set (hello_fuel b) ctx src b hello_info len hello_info vtime
              else Ok ctx in
  populate_mpr_set ctx.

(** ** The content of a message *)

(** The addresses announced with a code. *)
Definition coded (ctx : OlsrContext) (code : Z) (l : list LinkElem) : list Z :=
  map neighbor_iface_addr
    (List.filter (fun e => match link_code_of ctx e with Some c => c =? code | None => false end) l).

Definition nonempty_group (g : Z * list Z) : bool := negb (zlen (snd g) =? 0).
Definition hello_groups (ctx : OlsrContext) : list (Z * list Z) :=
  List.filter nonempty_group (map (fun code => (code, coded ctx code (all_links ctx))) link_codes).

(** The code under which an address is announced. *)
Definition announced (gs : list (Z * list Z)) (a : Z) : Z :=
  match List.find (fun g => existsb (Z.eqb a) (snd g)) gs with
  | Some g => fst g
  | None => STATUS_UNAVAILABLE
  end.

(** Its bytes; [r] is the byte that is never written. *)
Definition enc_info (g : Z * list Z) (r : Z) : list Z :=
  [fst g; r] ++ le16 (htons (zlen (snd g))) ++ enc_addrs (snd g).
Inductive enc_infos : list (Z * list Z) -> list Z -> Prop :=
  | enc_nil : enc_infos [] []
  | enc_cons g r gs bytes : is_u8 r -> enc_infos gs bytes ->
      enc_infos (g :: gs) (enc_info g r ++ bytes).
Definition infos_size (gs : list (Z * list Z)) : Z :=
  foldr (fun g n => 4 + 4 * zlen (snd g) + n) 0 gs.

Lemma infos_size_cons g gs : infos_size (g :: gs) = 4 + 4 * zlen (snd g) + infos_size gs.
Proof. done. Qed.

#[export] Hint Rewrite zlen_enc_addrs : crw.
Lemma zlen_enc_info g r : zlen (enc_info g r) = 4 + 4 * zlen (snd g).
Proof. unfold enc_info. rewrite !zlen_app, zlen_enc_addrs. zlens. Qed.
Lemma zlen_enc_infos gs bytes : enc_infos gs bytes -> zlen bytes = infos_size gs.
Proof. induction 1; cbn [infos_size foldr]; [done|]. rewrite zlen_app, zlen_enc_info. unfold infos_size in *. lia. Qed.
Lemma infos_size_nonneg gs : 4 * zlen gs <= infos_size gs.
Proof.
  induction gs as [|g gs IH]; cbn [infos_size foldr]; [done|]. rewrite zlen_cons.
  pose proof (zlen_nonneg (snd g)). unfold infos_size in *. lia.
Qed.
Lemma enc_info_app gs1 gs2 b1 b2 : enc_infos gs1 b1 -> enc_infos gs2 b2 ->
  enc_infos (gs1 ++ gs2) (b1 ++ b2).
Proof. induction 1; intros H2; [done|]. cbn. rewrite <- app_assoc. by constructor; auto. Qed.

Lemma coded_length ctx code l : zlen (coded ctx code l) <= zlen l.
Proof.
  unfold coded, zlen. rewrite length_map. induction l as [|e l IH]; cbn; [lia|].
  destruct (match link_code_of ctx e with Some c => c =? code | None => false end); cbn; lia.
Qed.

(** ** Building writes the content *)
Section Build.
Context (ctx : OlsrContext).
Hypothesis Hlinks : zlen (all_links ctx) < 65536.

(** The inner loops. *)
Lemma write_addrs code links A done rest off hi :
  zlen A = hi + 4 -> zlen done + zlen links < 65536 ->
  4 * zlen (coded ctx code links) <= zlen rest ->
  exists rest', rfold (fun '(b, offset, write_count) lelem =>
      match link_code_of ctx lelem with
      | None => Ok (b, offset, write_count)
      | Some link_code =>
        if link_code =? code then
          let* b := wr32 b (hi + sizeof_HelloInfo + sizeof_in_addr * write_count)
                      (neighbor_iface_addr lelem) in
          Ok (b, offset + sizeof_in_addr, u16 (write_count + 1))
        else Ok (b, offset, write_count)
      end) links (A ++ enc_addrs done ++ rest, off, zlen done) =
    Ok (A ++ enc_addrs (done ++ coded ctx code links) ++ rest',
        off + 4 * zlen (coded ctx code links), zlen (done ++ coded ctx code links)) /\
    exists x, rest = x ++ rest' /\ zlen x = 4 * zlen (coded ctx code links).
Proof using.
  intros HA. revert done rest off. induction links as [|e links IH]; intros done rest off Hd Hr.
  { exists rest. change (coded ctx code []) with (@nil Z).
    rewrite app_nil_r, (@zlen_nil Z), Z.mul_0_r, Z.add_0_r. split; [done|by exists []]. }
  rewrite zlen_cons in Hd. pose proof (zlen_nonneg links). pose proof (zlen_nonneg done).
  cbn [rfold]. unfold coded in *. cbn [List.filter] in *.
  destruct (link_code_of ctx e) as [c|]; [|cbn [rbind]; apply IH; [lia|done]].
  destruct (c =? code); [|cbn [rbind]; apply IH; [lia|done]].
  cbn [map] in *. rewrite zlen_cons in *.
  set (m := map neighbor_iface_addr (List.filter _ links)) in *. pose proof (zlen_nonneg m).
  destruct (zcut rest 4) as (x & rest1 & -> & Hx); [lia|].
  unfold sizeof_HelloInfo, sizeof_in_addr, wr32 in *.
  rewrite (app_assoc A), (zblit_app (A ++ enc_addrs done) x rest1) by
    (rewrite ?zlen_app, ?zlen_enc_addrs, ?HA; zlens).
  cbn [rbind]. rewrite zlen_app in Hr.
  rewrite <- !app_assoc. replace (u16 (zlen done + 1)) with (zlen (done ++ [neighbor_iface_addr e]))
    by (rewrite zlen_app, u16_id; [done|unfold is_u16; lia]).
  replace (A ++ enc_addrs done ++ le32 (neighbor_iface_addr e) ++ rest1) with
    (A ++ enc_addrs (done ++ [neighbor_iface_addr e]) ++ rest1).
  2:{ rewrite enc_addrs_app, <- app_assoc. unfold enc_addrs at 2. cbn [map concat].
      by rewrite app_nil_r. }
  destruct (IH (done ++ [neighbor_iface_addr e]) rest1 (off + 4)) as (rest' & -> & y & -> & Hy);
    [zlens|lia|].
  exists rest'. rewrite <- !app_assoc. cbn [app].
  replace (off + 4 * (zlen m + 1)) with (off + 4 + 4 * zlen m) by lia. split; [done|].
  exists (x ++ y). rewrite <- app_assoc, zlen_app. split; [done|lia].
Qed.

(** One info block. *)
Lemma write_code pre rest code :
  is_u8 code -> Forall is_u8 rest -> zlen (coded ctx code (all_links ctx)) * 4 + 4 <= zlen rest ->
  let g := (code, coded ctx code (all_links ctx)) in
  exists bytes rest', hello_write_links_with_code ctx (pre ++ rest) (zlen pre) code =
      Ok (pre ++ bytes ++ rest', zlen pre + zlen bytes) /\
    enc_infos (List.filter nonempty_group [g]) bytes /\ Forall is_u8 rest' /\
    zlen bytes + zlen rest' = zlen rest.
Proof using Hlinks.
  intros Hc Hu Hroom g. pose proof (coded_length ctx code (all_links ctx)) as Hcl.
  set (m := coded ctx code (all_links ctx)) in *. pose proof (zlen_nonneg m).
  destruct (zcut rest 4) as (x & rest1 & -> & Hx); [lia|]. rewrite zlen_app in Hroom.
  unfold zlen in Hx. destruct x as [|x0 [|x1 [|x2 [|x3 [|]]]]]; cbn in Hx; try lia. clear Hx.
  unfold hello_write_links_with_code.
  rewrite wr8_shift0. unfold wr8. blit_step.
  rewrite (u8_id code) by done. cbn [rbind].
  pose proof (write_addrs code (all_links ctx) (pre ++ [code; x1; x2; x3]) [] rest1
    (zlen pre + sizeof_HelloInfo) (zlen pre)) as (rest' & Hw & y & -> & Hy);
    [zlens|zlens|fold m; zlens|].
  cbn [enc_addrs map concat app] in Hw. rewrite <- app_assoc in Hw. cbn [app] in Hw.
  rewrite zlen_nil in Hw. rewrite Hw. cbn [rbind]. fold m in Hy |- *. clear Hw.
  rewrite !Forall_app, !Forall_cons_iff in Hu. destruct Hu as ((_ & Hx1 & Hx2 & Hx3 & _) & Huy & Hur).
  cbn [List.filter]. unfold nonempty_group. cbn [snd g]. fold (enc_addrs m).
  destruct (Z.eqb_spec (zlen m) 0) as [E|E]; cbn [negb].
  - assert (m = []) as -> by (by apply zlen_0).
    exists [], ([code; x1; x2; x3] ++ rest'). unfold enc_addrs. cbn [map concat app].
    change (@zlen Z []) with 0 in *. assert (y = []) as -> by (by apply zlen_0).
    rewrite <- app_assoc. unfold sizeof_HelloInfo. split; [do 3 f_equal; lia|].
    split; [constructor|]. split; [by do 4 (constructor; [done|])|zlens].
  - exists (enc_info g x1), rest'. rewrite <- app_assoc, wr16_shift by lia. unfold wr16.
    blit_step. unfold enc_info. cbn [fst snd g]. rewrite <- !app_assoc. cbn [app].
    unfold sizeof_HelloInfo. split; [do 2 f_equal; zlens|].
    split; [|split; [done|zlens]].
    change (code :: x1 :: le16 (htons (zlen m)) ++ enc_addrs m) with (enc_info g x1).
    rewrite <- (app_nil_r (enc_info g x1)). apply (enc_cons g x1 [] []); [done|constructor].
Qed.

(** The loop over the codes. *)
Lemma write_codes codes pre rest :
  Forall is_u8 codes -> Forall is_u8 rest ->
  let gs := List.filter nonempty_group (map (fun c => (c, coded ctx c (all_links ctx))) codes) in
  infos_size gs + 4 <= zlen rest ->
  exists bytes rest',
    rfold (fun '(b, offset) code => hello_write_links_with_code ctx b offset code)
      codes (pre ++ rest, zlen pre) = Ok (pre ++ bytes ++ rest', zlen pre + zlen bytes) /\
    enc_infos gs bytes /\ zlen bytes + zlen rest' = zlen rest.
Proof using Hlinks.
  intros Hc. revert pre rest. induction Hc as [|c codes Hc _ IH]; intros pre rest Hu; cbv zeta.
  { intros _. exists [], rest. cbn. rewrite Z.add_0_r. split; [done|]. split; [constructor|done]. }
  intros Hroom. cbn [map rfold].
  set (g := (c, coded ctx c (all_links ctx))) in *.
  assert (Hg : 4 * zlen (snd g) + 4 <= zlen rest /\
    infos_size (List.filter nonempty_group [g]) + infos_size (List.filter nonempty_group
      (map (fun c => (c, coded ctx c (all_links ctx))) codes)) + 4 <= zlen rest).
  { cbn [map] in Hroom. fold g in Hroom. cbn [List.filter] in *.
    pose proof (infos_size_nonneg (List.filter nonempty_group
      (map (fun c => (c, coded ctx c (all_links ctx))) codes))) as H0.
    pose proof (zlen_nonneg (List.filter nonempty_group
      (map (fun c => (c, coded ctx c (all_links ctx))) codes))).
    assert (Eg : nonempty_group g = negb (zlen (snd g) =? 0)) by done. rewrite Eg in *.
    destruct (Z.eqb_spec (zlen (snd g)) 0) as [E|E]; cbn [negb] in *;
      rewrite ?infos_size_cons in *; change (infos_size []) with 0; lia. }
  destruct Hg as [Hg1 Hg2].
  destruct (write_code pre rest c Hc Hu) as (bytes & rest1 & -> & He & Hu1 & Hl);
    [cbn [snd g] in Hg1; lia|]. cbn [rbind].
  rewrite (app_assoc pre). rewrite <- (zlen_app pre bytes).
  assert (Hb := zlen_enc_infos _ _ He).
  destruct (IH (pre ++ bytes) rest1 Hu1) as (bytes2 & rest2 & -> & He2 & Hl2).
  { fold g in Hb. lia. }
  exists (bytes ++ bytes2), rest2. rewrite <- !app_assoc, !zlen_app.
  split; [do 2 f_equal; lia|]. split; [|lia].
  change (List.filter nonempty_group (g :: ?l)) with (List.filter nonempty_group ([g] ++ l)).
  rewrite List.filter_app. by apply enc_info_app.
Qed.
End Build.

(** ** Reading recovers the content *)
Definition group_ok (g : Z * list Z) : Prop :=
  is_u8 (fst g) /\ fst g <> STATUS_UNAVAILABLE /\ Forall is_u32 (snd g) /\ zlen (snd g) < 65536.



Lemma has_addr_ok l P Q own :
  Forall is_u32 l ->
  has_addr (length l) (P ++ enc_addrs l ++ Q) (zlen P) own = Ok (existsb (Z.eqb own) l).
Proof.
  intros Hl. revert P. induction Hl as [|a l Ha _ IH]; intros P; cbn [length has_addr]; [done|].
  rewrite enc_addrs_cons, <- app_assoc, rd32_enc by done. cbn [rbind existsb].
  rewrite (Z.eqb_sym own a). destruct (a =? own); [done|].
  rewrite (app_assoc P). specialize (IH (P ++ le32 a)).
  rewrite zlen_app in IH. exact IH.
Qed.

(** Reading the header of an info block. *)
Lemma read_info g r P Q :
  group_ok g ->
  rd8 (P ++ enc_info g r ++ Q) (zlen P) = Ok (fst g) /\
  (let* size := rd16 (P ++ enc_info g r ++ Q) (zlen P + 2) in Ok (ntohs size)) = Ok (zlen (snd g)).
Proof.
  intros (Hc & _ & _ & Hn). pose proof (zlen_nonneg (snd g)). split.
  - by rewrite rd8_shift0.
  - rewrite rd16_shift by lia. unfold enc_info. cbn [app]. run_blits.
    rewrite rd16_le16 by apply htons_range. rewrite ntohs_htons, u16_id by (unfold is_u16; lia). done.
Qed.

Lemma find_linkcode_ok gs B2 : enc_infos gs B2 -> forall P B1 Q own fuel,
  Forall group_ok gs -> (length gs <= fuel)%nat ->
  find_linkcode fuel (P ++ B1 ++ B2 ++ Q) (zlen P) (zlen (B1 ++ B2)) (zlen (P ++ B1)) own =
    Ok (announced gs own).
Proof.
  induction 1 as [|g r gs B2 Hr He IH]; intros P B1 Q own fuel Hok Hf.
  { destruct fuel; cbn [find_linkcode]; rewrite !zlen_app;
      (destruct (Z.ltb_spec (zlen P + zlen B1 - zlen P) (zlen B1 + zlen (@nil Z)));
       [change (zlen (@nil Z)) with 0 in *; lia|done]). }
  inversion Hok as [|? ? Hg Hok']; subst.
  destruct fuel as [|fuel]; [cbn in Hf; lia|]. cbn [length] in Hf. cbn [find_linkcode].
  destruct (Z.ltb_spec (zlen (P ++ B1) - zlen P) (zlen (B1 ++ enc_info g r ++ B2))) as [_|Hlt].
  2:{ rewrite !zlen_app, zlen_enc_info in Hlt. pose proof (zlen_nonneg (snd g)).
      pose proof (zlen_nonneg B2). lia. }
  set (blk := P ++ B1 ++ (enc_info g r ++ B2) ++ Q).
  assert (Eb : blk = (P ++ B1) ++ enc_info g r ++ (B2 ++ Q)) by (unfold blk; by rewrite <- !app_assoc).
  destruct (read_info g r (P ++ B1) (B2 ++ Q) Hg) as [E8 E16]. rewrite <- Eb in E8, E16.
  destruct (rd16 blk (zlen (P ++ B1) + 2)) as [size| | |]; try discriminate E16.
  cbn [rbind] in *. injection E16 as ->. rewrite E8.
  destruct Hg as (Hc & Hne & Hu & Hn).
  assert (Eh : has_addr (Z.to_nat (zlen (snd g))) blk (zlen (P ++ B1) + sizeof_HelloInfo) own =
               Ok (existsb (Z.eqb own) (snd g))).
  { unfold zlen at 1. rewrite Nat2Z.id.
    rewrite <- (has_addr_ok (snd g) ((P ++ B1) ++ [fst g; r] ++ le16 (htons (zlen (snd g)))) (B2 ++ Q))
      by done. f_equal.
    - rewrite Eb. unfold enc_info. by rewrite <- !app_assoc.
    - rewrite (zlen_app (P ++ B1)). done. }
  rewrite Eh. cbn [rbind]. unfold announced. cbn [List.find].
  destruct (existsb (Z.eqb own) (snd g)); cbn [andb].
  - rewrite (proj2 (Z.eqb_neq _ _)) by done. done.
  - specialize (IH P (B1 ++ enc_info g r) Q own fuel Hok' ltac:(lia)). unfold announced in IH.
    rewrite <- IH. unfold blk. rewrite <- !app_assoc. f_equal.
    rewrite !zlen_app, zlen_enc_info. unfold sizeof_HelloInfo, sizeof_in_addr. lia.
Qed.

(** The two-hop neighbours a list of addresses stands for. *)
Definition note_neighbors2 (neigh vtime : Z) (l : list Z) (ctx : OlsrContext) : res OlsrContext :=
  rfold (fun ctx a => if a =? own_ip ctx then Ok ctx else update_neigh2_tuple ctx neigh a vtime)
        l ctx.

Lemma neigh2_entries_ok l P Q ctx neigh vtime :
  Forall is_u32 l ->
  neigh2_entries (length l) ctx neigh (P ++ enc_addrs l ++ Q) (zlen P) vtime =
    note_neighbors2 neigh vtime l ctx.
Proof.
  intros Hl. revert P ctx.
  induction Hl as [|a l Ha _ IH]; intros P ctx; cbn [length neigh2_entries note_neighbors2 rfold]; [done|].
  rewrite enc_addrs_cons, <- app_assoc, rd32_enc by done. cbn [rbind].
  destruct (if a =? own_ip ctx then Ok ctx else update_neigh2_tuple ctx neigh a vtime) as [c| | |];
    try done. cbn [rbind]. rewrite (app_assoc P). specialize (IH (P ++ le32 a) c).
  rewrite zlen_app in IH. exact IH.
Qed.

Lemma populate_neigh2set_ok gs B2 : enc_infos gs B2 -> forall P B1 Q fuel ctx neigh vtime,
  Forall group_ok gs -> (length gs <= fuel)%nat ->
  populate_neigh2set fuel ctx neigh (P ++ B1 ++ B2 ++ Q) (zlen P) (zlen (B1 ++ B2))
    (zlen (P ++ B1)) vtime = note_neighbors2 neigh vtime (concat (map snd gs)) ctx.
Proof.
  induction 1 as [|g r gs B2 Hr He IH]; intros P B1 Q fuel ctx neigh vtime Hok Hf.
  { destruct fuel; cbn [populate_neigh2set]; rewrite !zlen_app;
      (destruct (Z.ltb_spec (zlen P + zlen B1 - zlen P) (zlen B1 + zlen (@nil Z)));
       [change (zlen (@nil Z)) with 0 in *; lia|done]). }
  inversion Hok as [|? ? Hg Hok']; subst.
  destruct fuel as [|fuel]; [cbn in Hf; lia|]. cbn [length] in Hf. cbn [populate_neigh2set].
  destruct (Z.ltb_spec (zlen (P ++ B1) - zlen P) (zlen (B1 ++ enc_info g r ++ B2))) as [_|Hlt].
  2:{ rewrite !zlen_app, zlen_enc_info in Hlt. pose proof (zlen_nonneg (snd g)).
      pose proof (zlen_nonneg B2). lia. }
  set (blk := P ++ B1 ++ (enc_info g r ++ B2) ++ Q).
  assert (Eb : blk = (P ++ B1) ++ enc_info g r ++ (B2 ++ Q)) by (unfold blk; by rewrite <- !app_assoc).
  destruct (read_info g r (P ++ B1) (B2 ++ Q) Hg) as [_ E16]. rewrite <- Eb in E16.
  destruct (rd16 blk (zlen (P ++ B1) + 2)) as [size| | |]; try discriminate E16.
  cbn [rbind] in *. injection E16 as ->. destruct Hg as (Hc & Hne & Hu & Hn).
  assert (Eh : neigh2_entries (Z.to_nat (zlen (snd g))) ctx neigh blk
                 (zlen (P ++ B1) + sizeof_HelloInfo) vtime = note_neighbors2 neigh vtime (snd g) ctx).
  { unfold zlen at 1. rewrite Nat2Z.id.
    rewrite <- (neigh2_entries_ok (snd g) ((P ++ B1) ++ [fst g; r] ++ le16 (htons (zlen (snd g))))
      (B2 ++ Q)) by done. f_equal.
    - rewrite Eb. unfold enc_info. by rewrite <- !app_assoc.
    - rewrite (zlen_app (P ++ B1)). done. }
  rewrite Eh. cbn [map concat]. unfold note_neighbors2 at 2. rewrite rfold_app.
  fold (note_neighbors2 neigh vtime (snd g) ctx).
  destruct (note_neighbors2 neigh vtime (snd g) ctx) as [c| | |]; try done. cbn [rbind].
  fold (note_neighbors2 neigh vtime (concat (map snd gs)) c).
  specialize (IH P (B1 ++ enc_info g r) Q fuel c neigh vtime Hok' ltac:(lia)).
  rewrite <- IH. unfold blk. rewrite <- !app_assoc. f_equal.
  rewrite !zlen_app, zlen_enc_info. unfold sizeof_HelloInfo, sizeof_in_addr. lia.
Qed.

Lemma link_codes_ok : Forall is_u8 link_codes /\ Forall (fun c => c <> STATUS_UNAVAILABLE) link_codes.
Proof. vm_compute. split; repeat constructor; discriminate. Qed.

Lemma hello_groups_ok ctx :
  zlen (all_links ctx) < 65536 ->
  (forall l, In l (all_links ctx) -> is_u32 (neighbor_iface_addr l)) ->
  Forall group_ok (hello_groups ctx).
Proof.
  intros Hn Hu. apply List.Forall_forall. intros g Hg.
  apply filter_In in Hg as [Hg _]. apply in_map_iff in Hg as (c & <- & Hc).
  destruct link_codes_ok as [H8 Hne]. rewrite List.Forall_forall in H8, Hne.
  split; [by apply H8|]. split; [by apply Hne|]. cbn. split.
  - apply List.Forall_forall. intros a Ha. apply in_map_iff in Ha as (l & <- & Hl).
    apply filter_In in Hl as [Hl _]. auto.
  - pose proof (coded_length ctx c (all_links ctx)). lia.
Qed.

(** The first four bytes of a message. *)
Definition hello_head (ctx : OlsrContext) : list Z := [0; 0; 3; u8 (param_willingness (param ctx))].

Lemma build_hello_ok ctx pre rest :
  zlen (all_links ctx) < 65536 -> Forall is_u8 rest -> infos_size (hello_groups ctx) + 8 <= zlen rest ->
  exists bytes rest', build_olsr_hello ctx (pre ++ rest) (zlen pre) =
      Ok (pre ++ (hello_head ctx ++ bytes) ++ rest', zlen (hello_head ctx ++ bytes)) /\
    enc_infos (hello_groups ctx) bytes.
Proof.
  intros Hlinks Hbytes Hroom. pose proof (infos_size_nonneg (hello_groups ctx)).
  pose proof (zlen_nonneg (hello_groups ctx)).
  destruct (zcut rest 4) as (x & rest1 & -> & Hx); [lia|]. apply Forall_app in Hbytes as [_ Hb].
  rewrite zlen_app in Hroom.
  destruct (write_codes ctx Hlinks link_codes (pre ++ hello_head ctx) rest1) as (bytes & rest' & E & He & Hl);
    [apply link_codes_ok|done|unfold hello_groups in *; lia|].
  exists bytes, rest'. split; [|exact He].
  unfold build_olsr_hello, hello_write_links. unfold wr16 at 1. rewrite wr16_shift0.
  explode x 4%nat. unfold wr16. blit_step.
  replace (reltime_to_me DEF_HELLO_INTERVAL_MS) with (Ok 3) by reflexivity. cbn [rbind].
  rewrite !wr8_shift by lia. unfold wr8. blit_step. rewrite zblit_shift by lia. blit_step.
  unfold hello_head in *. rewrite <- app_assoc, zlen_app in E. cbn [app] in E. unfold sizeof_HelloMsg.
  change (zlen [0; 0; 3; u8 (param_willingness (param ctx))]) with 4 in E.
  unfold le16. cbn [app take drop length]. rewrite drop_0.
  change (u8 0) with 0. change (u8 (0 / 256)) with 0. change (u8 3) with 3. rewrite E.
  cbn [rbind]. rewrite <- !app_assoc. do 2 f_equal. zlens.
Qed.

Lemma hello_roundtrip_spec ctx pre rest :
  zlen (all_links ctx) < 65536 ->
  (forall l, In l (all_links ctx) -> is_u32 (neighbor_iface_addr l)) ->
  Forall is_u8 rest -> infos_size (hello_groups ctx) + 8 <= zlen rest ->
  exists msg rest', build_olsr_hello ctx (pre ++ rest) (zlen pre) =
      Ok (pre ++ msg ++ rest', zlen msg) /\
    zlen msg = 4 + infos_size (hello_groups ctx) /\
    rd8 msg 3 = Ok (u8 (param_willingness (param ctx))) /\
    forall P Q,
      let blk := P ++ msg ++ Q in
      let info := zlen P + sizeof_HelloMsg in
      let len := zlen msg - sizeof_HelloMsg in
      (forall own, find_linkcode (hello_fuel blk) blk info len info own =
        Ok (announced (hello_groups ctx) own)) /\
      (forall rctx neigh vtime, populate_neigh2set (hello_fuel blk) rctx neigh blk info len info vtime =
        note_neighbors2 neigh vtime (concat (map snd (hello_groups ctx))) rctx).
Proof.
  intros Hlinks Haddr Hbytes Hroom.
  pose proof (infos_size_nonneg (hello_groups ctx)) as Hs.
  destruct (build_hello_ok ctx pre rest Hlinks Hbytes Hroom) as (bytes & rest' & E & He).
  exists (hello_head ctx ++ bytes), rest'. split; [exact E|].
  assert (Hlen : zlen bytes = infos_size (hello_groups ctx)) by (by apply zlen_enc_infos).
  split; [rewrite zlen_app, Hlen; done|]. split; [done|]. intros P Q. cbv zeta.
  set (hdr := hello_head ctx).
  replace (P ++ (hdr ++ bytes) ++ Q) with ((P ++ hdr) ++ [] ++ bytes ++ Q)
    by (by rewrite <- !app_assoc).
  replace (zlen P + sizeof_HelloMsg) with (zlen (P ++ hdr)) by (rewrite zlen_app; done).
  replace (zlen (hdr ++ bytes) - sizeof_HelloMsg) with (zlen ([] ++ bytes))
    by (cbn [app]; rewrite (zlen_app hdr); change (zlen hdr) with 4; unfold sizeof_HelloMsg; lia).
  assert (Hg : Forall group_ok (hello_groups ctx)) by (by apply hello_groups_ok).
  assert (Hf : (length (hello_groups ctx) <= hello_fuel ((P ++ hdr) ++ [] ++ bytes ++ Q))%nat).
  { unfold hello_fuel. cbn [app]. rewrite !length_app. unfold zlen in *.
    pose proof (zlen_nonneg (hello_groups ctx)). unfold zlen in *. lia. }
  split; intros.
  - rewrite <- (find_linkcode_ok _ _ He (P ++ hdr) [] Q own _ Hg Hf). by rewrite app_nil_r.
  - rewrite <- (populate_neigh2set_ok _ _ He (P ++ hdr) [] Q _ rctx neigh vtime Hg Hf).
    by rewrite app_nil_r.
Qed.

(** C23: A HELLO message carries its content exactly: built in any buffer with
    enough room, it stays inside it and has the announced length, and a receiver
    that holds the message anywhere in its memory finds, without leaving the
    message and within its loop bound, for every address precisely the link code
    under which the sender announced it, and notes precisely the announced
    addresses as 2-hop neighbours, in order. *)
Theorem hello_roundtrip (ctx : OlsrContext) (pre rest : list Z)
  (Hlinks : zlen (all_links ctx) < 65536)
  (Haddr : forall l, In l (all_links ctx) -> is_u32 (neighbor_iface_addr l))
  (Hbytes : Forall is_u8 rest) (Hroom : infos_size (hello_groups ctx) + 8 <= zlen rest) :
  exists msg rest', build_olsr_hello ctx (pre ++ rest) (zlen pre) =
      Ok (pre ++ msg ++ rest', zlen msg) /\
    zlen msg = 4 + infos_size (hello_groups ctx) /\
    rd8 msg 3 = Ok (u8 (param_willingness (param ctx))) /\
    forall P Q,
      let blk := P ++ msg ++ Q in
      let info := zlen P + sizeof_HelloMsg in
      let len := zlen msg - sizeof_HelloMsg in
      (forall own, find_linkcode (hello_fuel blk) blk info len info own =
        Ok (announced (hello_groups ctx) own)) /\
      (forall rctx neigh vtime, populate_neigh2set (hello_fuel blk) rctx neigh blk info len info vtime =
        note_neighbors2 neigh vtime (concat (map snd (hello_groups ctx))) rctx).
Proof. by apply hello_roundtrip_spec. Qed.

(** A node with a symmetric relay 2, a neighbour 3 it only hears, and an address
    4 whose neighbour element is missing. *)
Definition ex_hello_ctx : OlsrContext :=
  let lk a s := mkLink a 1 s None None None in
  set_local_iface_tree
    (set_neighbor_tree (init_olsr_context 1 zero_stats (fun _ => mkTimespec 0 0) (fun _ => 0) [])
       [mkNeigh 2 MPR_NEIGH 3 []; mkNeigh 3 NOT_NEIGH 3 []])
    [mkIface 1 [lk 2 SYM_LINK; lk 3 ASYM_LINK; lk 4 SYM_LINK]].

Example ex_hello_groups : hello_groups ex_hello_ctx = [(1, [3]); (10, [2])].
Proof. vm_compute. reflexivity. Qed.

Lemma hello_roundtrip_witness :
  exists msg rest', build_olsr_hello ex_hello_ctx ([7] ++ repeat 0xcc 40) 1 =
      Ok ([7] ++ msg ++ rest', zlen msg) /\
    zlen msg = 4 + infos_size (hello_groups ex_hello_ctx) /\
    rd8 msg 3 = Ok (u8 (param_willingness (param ex_hello_ctx))) /\
    forall P Q,
      let blk := P ++ msg ++ Q in
      let info := zlen P + sizeof_HelloMsg in
      let len := zlen msg - sizeof_HelloMsg in
      (forall own, find_linkcode (hello_fuel blk) blk info len info own =
        Ok (announced (hello_groups ex_hello_ctx) own)) /\
      (forall rctx neigh vtime, populate_neigh2set (hello_fuel blk) rctx neigh blk info len info vtime =
        note_neighbors2 neigh vtime (concat (map snd (hello_groups ex_hello_ctx))) rctx).
Proof.
  apply (hello_roundtrip ex_hello_ctx [7] (repeat 0xcc 40)).
  - vm_compute. reflexivity.
  - each; unfold is_u32; lia.
  - cbn. repeat constructor; discriminate.
  - vm_compute. discriminate.
Defined.
