(* ===== verification/OlsrTc.v ===== *)
(** Topology control messages (simnet/olsr/olsr_tc.c).

    A TC message names the neighbours that chose its originator as a relay.  The
    receiver keeps them in the topology tree and recomputes the routes when the
    set changed.  Messages are read and written at an offset of a block. *)
From S2P Require Import Prelude OrdTree RingBuffer TimerQueue OlsrContext OlsrSpf OlsrNeighbor.
From stdpp Require Import base list numbers gmap.
From Stdlib Require Import ZArith Lia.
Open Scope Z_scope.
Open Scope c_scope.

Definition sizeof_TcMsg : Z := 4.

(** [tc_msg->neigh[neighidx] = addr] for the selectors, from [off] on. *)
Fixpoint write_selectors (b : list Z) (off : Z) (sels : list MprSelectorElem) : res (list Z) :=
  match sels with
  | [] => Ok b
  | sel :: sels' =>
    let* b := wr32 b off (selector_addr sel) in write_selectors b (off + 4) sels'
  end.

(** The context, the block and the length of the message; the [reserved] field is
    not written. *)
Definition build_olsr_tc (ctx : OlsrContext) (b : list Z) (buf : Z)
  : res (OlsrContext * list Z * Z) :=
  let* b := wr16 b buf (htons (OlsrContext.ansn ctx)) in
  let ctx := set_ansn ctx (u16 (OlsrContext.ansn ctx + 1)) in
  let* b := write_selectors b (buf + sizeof_TcMsg) (selector_tree ctx) in
  Ok (ctx, b, sizeof_TcMsg + 4 * zlen (selector_tree ctx)).

Definition topology_info_timer_expire_cb (ctx : OlsrContext) (dest timer : Z) : res OlsrContext :=
  let ctx := set_topology_tree ctx (fst (rbtree_delete (topology_tree ctx) dest)) in
  let* ctx := upd_tq ctx (fun tq => timerqueue_free_timer tq timer) in
  calc_routing_table ctx.

Definition max_obsolutes : nat := 10.

(** At most ten obsolete neighbours are removed in one call; the new tree and
    their number. *)
Definition remove_obsolute_advertised_neighbor (an : list AdvertisedNeighElem)
  : list AdvertisedNeighElem * Z :=
  let obsolutes := take max_obsolutes
    (map last_addr (List.filter (fun a => negb (obsolete a =? 0)) an)) in
  (fold_left (fun t addr => fst (rbtree_delete t addr)) obsolutes an, zlen obsolutes).

(** One advertised neighbour: a new element, or the old one kept. *)
Definition note_advertised (st : list AdvertisedNeighElem * bool) (ana : Z)
  : list AdvertisedNeighElem * bool :=
  match rbtree_insert (fst st) {| last_addr := ana; obsolete := 0; duplicated := 0 |} with
  | Some t => (t, true)
  | None => (tree_update (fst st) ana (set_obsolete 0), snd st)
  end.

(** The loop over the [n] addresses of the message. *)
Fixpoint read_advertised (n : nat) (b : list Z) (off : Z) (st : list AdvertisedNeighElem * bool)
  : res (list AdvertisedNeighElem * bool) :=
  match n with
  | O => Ok st
  | S n' =>
    let* ana := rd32 b off in
    read_advertised n' b (off + 4) (note_advertised st ana)
  end.

(** The originator's element, made if it is not there. *)
Definition get_topology_info (ctx : OlsrContext) (orig ansn vtime : Z) : res OlsrContext :=
  match rbtree_search (topology_tree ctx) orig with
  | Some _ => Ok ctx
  | None =>
    let* r := with_tq ctx (fun tq =>
      start_timer tq 0 (vtime_us vtime) 1 (Cb_topology_info_timer_expire orig)) in
    let '(ctx, timer) := r in
    Ok (set_topology_tree ctx (tree_put (topology_tree ctx)
          {| dest_addr := orig; topo_seq := ansn; an_tree := []; topo_expire_timer := timer |}))
  end.

(** [msg] is the offset of the message, [tc_size] its size (16 bits). *)
Definition process_olsr_tc (ctx : OlsrContext) (b : list Z) (msg tc_size src orig vtime : Z)
  : res OlsrContext :=
  match rbtree_search (neighbor_tree ctx) src with
  | None => Ok ctx
  | Some neigh =>
    if negb (is_sym neigh) then Ok ctx
    else
      let* be := rd16 b msg in
      let ansn := ntohs be in
      let* ctx := get_topology_info ctx orig ansn vtime in
      let* telem := deref (rbtree_search (topology_tree ctx) orig) in
      if ansn <? topo_seq telem then Ok ctx
      else
        let* ctx := upd_tq ctx (fun tq => timerqueue_reactivate_timer tq (topo_expire_timer telem)) in
        let an := map (set_obsolete 1) (an_tree telem) in
        let entry_num := i32 (u64 (tc_size / 4 - 1)) in
        let* r := read_advertised (Z.to_nat entry_num) b (msg + sizeof_TcMsg) (an, false) in
        let '(an, info_changed) := r in
        let '(an, obsoluted) := remove_obsolute_advertised_neighbor an in
        let ctx := set_topology_tree ctx
          (tree_update (topology_tree ctx) orig (fun e => set_topo_seq ansn (set_an_tree an e))) in
        if info_changed || negb (obsoluted =? 0) then calc_routing_table ctx else Ok ctx
  end.


(** ** The set of advertised neighbours after a message *)

(** What a message with the addresses [addrs] makes of the neighbours [old]:
    all of them are in, nothing else is new, and the neighbours it no longer
    names are gone unless there were more than ten. *)
Record tc_updated (addrs : list Z) (old new : list AdvertisedNeighElem) : Prop := {
  upd_in : incl addrs (keys new);
  upd_only : forall k, In k (keys new) -> In k addrs \/ In k (keys old);
  upd_exact : (length (List.filter (fun k => negb (existsb (Z.eqb k) addrs)) (keys old))
                 <= max_obsolutes)%nat ->
              forall k, In k (keys new) -> In k addrs
}.

Lemma in_existsb k l : existsb (Z.eqb k) l = true <-> In k l.
Proof.
  rewrite existsb_exists. split.
  - intros (x & Hx & E). apply Z.eqb_eq in E as ->. done.
  - intros H. exists k. split; [done|]. apply Z.eqb_refl.
Qed.

Section Advertised.
Context (w : Z) (old : list AdvertisedNeighElem).
Hypothesis (Hold : tree_ok (in_window w) old) (Hdup : forall a, In a old -> duplicated a <> 1).

(** The tree while the addresses [seen] have been read. *)
Record reading (seen : list Z) (st : list AdvertisedNeighElem * bool) : Prop := {
  rd_ok : tree_ok (in_window w) (fst st);
  rd_keys : forall k, In k (keys (fst st)) <-> In k (keys old) \/ In k seen;
  rd_mark : forall a, In a (fst st) ->
    obsolete a = if existsb (Z.eqb (last_addr a)) seen then 0 else 1;
  rd_dup : forall a, In a (fst st) -> duplicated a <> 1;
  rd_changed : snd st = true <-> exists k, In k seen /\ ~ In k (keys old)
}.

Lemma keys_mark t : keys (map (set_obsolete 1) t) = keys t.
Proof using. unfold keys. by rewrite map_map. Qed.

Lemma reading_start : reading [] (map (set_obsolete 1) old, false).
Proof using Hold Hdup.
  constructor; cbn.
  - apply (tree_ok_keys (in_window w) old); [by rewrite keys_mark|done].
  - intros k. rewrite keys_mark. tauto.
  - intros a Ha. by apply in_map_iff in Ha as (b & <- & _).
  - intros a Ha. apply in_map_iff in Ha as (b & <- & Hb). exact (Hdup b Hb).
  - split; [done|]. by intros (? & [] & _).
Qed.

Lemma reading_step seen st ana :
  in_window w ana -> reading seen st -> reading (seen ++ [ana]) (note_advertised st ana).
Proof using.
  intros Hana [Hok Hk Hm Hd Hc]. destruct st as [t ch]. cbn in *. unfold note_advertised. cbn.
  assert (Hmark : forall x, existsb (Z.eqb x) (seen ++ [ana]) =
                            existsb (Z.eqb x) seen || (x =? ana))
    by (intros; rewrite existsb_app; cbn; by rewrite orb_false_r).
  set (e := {| last_addr := ana; obsolete := 0; duplicated := 0 |}).
  destruct (rbtree_insert t e) as [t'|] eqn:Ei.
  - assert (Hn : ~ In ana (keys t)).
    { intros Hin. assert (rbtree_insert t e = None) by (by apply (insert_none_iff (in_window w))).
      congruence. }
    apply (insert_some (in_window w)) in Ei as [Hok' Hp]; [|done|done].
    constructor; cbn.
    + done.
    + intros k. unfold keys at 1. rewrite Hp. cbn. fold (keys t). rewrite Hk, in_app_iff. cbn.
      intuition congruence.
    + intros a Ha. rewrite Hp in Ha. rewrite Hmark. destruct Ha as [<-|Ha]; cbn.
      * by rewrite Z.eqb_refl, orb_true_r.
      * rewrite Hm by done. destruct (Z.eqb_spec (last_addr a) ana) as [E|E].
        -- exfalso. apply Hn. by apply (in_keys _ a).
        -- by rewrite orb_false_r.
    + intros a Ha. rewrite Hp in Ha. destruct Ha as [<-|Ha]; [done|auto].
    + split; [|done]. intros _. exists ana. rewrite in_app_iff. cbn. split; [auto|].
      intros Hin. apply Hn, Hk. by left.
  - apply (insert_none_iff (in_window w) t e) in Ei; [|done|done]. cbn in Ei.
    assert (Hf : forall x, tkey (set_obsolete 0 x) = tkey x) by done.
    constructor; cbn.
    + by apply (update_ok (in_window w)).
    + intros k. rewrite keys_update by done. rewrite Hk, in_app_iff. cbn.
      pose proof (proj1 (Hk ana) Ei). intuition congruence.
    + intros a Ha. rewrite (in_update (in_window w)) in Ha by done; destruct Ha as [(b & Hb & Eb & ->)|[Ha Ea]];
        rewrite Hmark; cbn in *.
      * by rewrite Eb, Z.eqb_refl, orb_true_r.
      * rewrite Hm by done. by rewrite (proj2 (Z.eqb_neq _ _) Ea), orb_false_r.
    + intros a Ha. rewrite (in_update (in_window w)) in Ha by done; destruct Ha as [(b & Hb & Eb & ->)|[Ha Ea]];
        cbn; auto.
    + rewrite Hc. split; intros (k & Hin & Ho); exists k; rewrite in_app_iff in *; cbn in *; [tauto|].
      split; [|done]. destruct Hin as [?|[<-|[]]]; [done|]. apply Hk in Ei. tauto.
Qed.

Lemma read_advertised_ok addrs seen P Q st :
  Forall (in_window w) addrs -> reading seen st ->
  exists st', read_advertised (length addrs) (P ++ enc_addrs addrs ++ Q) (zlen P) st = Ok st' /\
    reading (seen ++ addrs) st'.
Proof using.
  intros Ha. revert seen P st. induction Ha as [|a addrs Ha _ IH]; intros seen P st Hst; cbn [length].
  { exists st. by rewrite app_nil_r. }
  cbn [read_advertised]. rewrite enc_addrs_cons, <- app_assoc, rd32_enc by apply Ha. cbn [rbind].
  rewrite (app_assoc P). replace (zlen P + 4) with (zlen (P ++ le32 a)) by (by rewrite zlen_app).
  destruct (IH (seen ++ [a]) (P ++ le32 a) (note_advertised st a)) as (st' & -> & Hst');
    [by apply reading_step|]. exists st'. split; [done|]. by rewrite <- app_assoc in Hst'.
Qed.
End Advertised.

(** Removal keeps what is not in the list of at most ten addresses. *)
Lemma remove_obsolute_ok w an :
  tree_ok (in_window w) an ->
  let stale := map last_addr (List.filter (fun a => negb (obsolete a =? 0)) an) in
  exists an' n, remove_obsolute_advertised_neighbor an = (an', n) /\
    tree_ok (in_window w) an' /\ n = zlen (take max_obsolutes stale) /\
    (forall a, In a an' <-> In a an /\ ~ In (last_addr a) (take max_obsolutes stale)).
Proof.
  intros Hok stale. unfold remove_obsolute_advertised_neighbor. fold stale.
  eexists _, _. split; [done|].
  assert (Hw : forall k, In k (take max_obsolutes stale) -> in_window w k).
  { intros k Hk. apply in_take, in_map_iff in Hk as (a & <- & Ha). apply filter_In in Ha as [Ha _]. tree_dom. }
  revert Hw. generalize (take max_obsolutes stale). intros l. revert an Hok stale.
  induction l as [|k l IH]; intros an Hok _ Hw; cbn [fold_left].
  { split; [done|]. split; [done|]. cbn. tauto. }
  destruct (delete_spec (in_window w) an k Hok) as (Hok' & _ & Hin); [apply Hw; by left|].
  destruct (IH (fst (rbtree_delete an k)) Hok') as (? & _ & Hl); [intros; apply Hw; by right|].
  split; [done|]. split; [done|]. intros a. rewrite Hl, Hin. cbn. intuition congruence.
Qed.

Section Replace.
Context (w : Z) (old : list AdvertisedNeighElem).
Hypothesis (Hold : tree_ok (in_window w) old) (Hdup : forall a, In a old -> duplicated a <> 1).

(** The tree and the change flag at the end. *)
Lemma replace_ok addrs P Q :
  Forall (in_window w) addrs ->
  exists an1 ch an2 n,
    read_advertised (length addrs) (P ++ enc_addrs addrs ++ Q) (zlen P)
      (map (set_obsolete 1) old, false) = Ok (an1, ch) /\
    remove_obsolute_advertised_neighbor an1 = (an2, n) /\
    tree_ok (in_window w) an2 /\ (forall a, In a an2 -> duplicated a <> 1) /\
    tc_updated addrs old an2 /\
    (ch || negb (n =? 0) = false -> forall k, In k (keys an2) <-> In k (keys old)) /\
    (ch || negb (n =? 0) = false -> addrs <> [] -> old <> []).
Proof using Hold Hdup.
  intros Ha.
  destruct (read_advertised_ok w old addrs [] P Q _ Ha (reading_start w old Hold Hdup))
    as ([an1 ch] & E1 & [Hok Hk Hm Hd Hc]). cbn in *.
  destruct (remove_obsolute_ok w an1 Hok) as (an2 & n & E2 & Hok2 & -> & Hin).
  set (stale := map last_addr (List.filter (fun a => negb (obsolete a =? 0)) an1)) in *.
  assert (Hst : forall k, In k stale <-> In k (keys old) /\ ~ In k addrs).
  { intros k. unfold stale. rewrite in_map_iff. split.
    - intros (a & <- & Hf). apply filter_In in Hf as [Ha1 Hf]. rewrite Hm in Hf by done.
      destruct (existsb (Z.eqb (last_addr a)) addrs) eqn:E; [done|].
      assert (~ In (last_addr a) addrs) by (rewrite <- in_existsb; congruence).
      split; [|done]. destruct (proj1 (Hk (last_addr a))); [by apply (in_keys _ a)|done|done].
    - intros [Ho Hn]. destruct (in_keys_inv an1 k) as (a & Ha1 & <-); [apply Hk; by left|].
      exists a. split; [done|]. apply filter_In. split; [done|]. rewrite Hm by done. cbn.
      destruct (existsb (Z.eqb (last_addr a)) addrs) eqn:E; [|done]. apply in_existsb in E.
      by destruct Hn. }
  assert (Hkeys : forall k, In k (keys an2) <->
            In k (keys an1) /\ ~ In k (take max_obsolutes stale)).
  { intros k. split.
    - intros Hin2. apply in_keys_inv in Hin2 as (a & Ha2 & <-). apply Hin in Ha2 as [? ?].
      split; [by apply (in_keys _ a)|done].
    - intros [H1 H2]. apply in_keys_inv in H1 as (a & Ha1 & <-). apply (in_keys _ a); [|done].
      by apply Hin. }
  exists an1, ch, an2, (zlen (take max_obsolutes stale)). split; [done|]. split; [done|].
  split; [done|]. split; [intros a Ha2; apply Hin in Ha2 as [? _]; auto|].
  split; [|split].
  - constructor.
    + intros k Hi. apply Hkeys. split; [apply Hk; by right|]. intros Ht. apply in_take, Hst in Ht. tauto.
    + intros k Hi. apply Hkeys in Hi as [Hi _]. apply Hk in Hi. tauto.
    + intros Hlen k Hi. apply Hkeys in Hi as [Hi Hn]. apply Hk in Hi as [Hi|]; [|done].
      destruct (in_dec Z.eq_dec k addrs); [done|]. exfalso. apply Hn.
      rewrite take_ge; [by apply Hst|]. etransitivity; [|exact Hlen].
      apply NoDup_incl_length.
      * unfold stale. pose proof (tree_ok_nodup (in_window w) _ Hok) as Hnd.
        clear - Hnd. induction an1 as [|a l IH]; cbn; [constructor|].
        rewrite keys_cons in Hnd. inversion Hnd as [|? ? H1 H2]; subst.
        destruct (negb _); cbn; [|auto]. constructor; [|auto]. intros Hin. apply H1.
        apply in_map_iff in Hin as (b & <- & Hb). apply filter_In in Hb as [Hb _].
        by apply (in_keys _ b).
      * intros x Hx. apply filter_In. apply Hst in Hx as [Hx1 Hx2]. split; [done|].
        destruct (existsb (Z.eqb x) addrs) eqn:E; [|done]. by apply in_existsb in E.
  - intros E k. apply orb_false_iff in E as [-> E].
    assert (Hno : take max_obsolutes stale = []).
    { apply zlen_0. destruct (Z.eqb_spec (zlen (take max_obsolutes stale)) 0); done. }
    rewrite Hkeys, Hno, Hk. cbn. split; [|tauto]. intros [[|Hi] _]; [done|].
    destruct (in_dec Z.eq_dec k (keys old)); [done|]. exfalso.
    assert (false = true) by (apply Hc; eauto). done.
  - intros E Hne ->. apply orb_false_iff in E as [-> E]. destruct addrs as [|a addrs]; [done|].
    assert (false = true); [|done]. apply Hc. exists a. cbn. auto.
Qed.
End Replace.

(** ** Processing a message *)

(** The bytes of a message; [r] are the two reserved ones. *)
Definition tc_bytes (ansn : Z) (r addrs : list Z) : list Z :=
  le16 (htons ansn) ++ r ++ enc_addrs addrs.

(** Every node of the topology has a usable timer. *)
Definition topo_live (ctx : OlsrContext) : Prop :=
  forall t, In t (topology_tree ctx) -> live (timerqueue ctx) (topo_expire_timer t).

(** The neighbours known of [orig]. *)
Definition known_of (ctx : OlsrContext) (orig : Z) : list AdvertisedNeighElem :=
  match rbtree_search (topology_tree ctx) orig with Some t => an_tree t | None => [] end.

(** What is left alone by a TC message. *)
Definition same_but_topology (c1 c2 : OlsrContext) : Prop :=
  let norm c := set_timerqueue (set_topology_tree (set_routing_table
    (set_node_stat_tree (set_stat c zero_stats) []) []) []) (timerqueue c2) in
  norm c1 = norm c2.

Record tc_result (ctx ctx' : OlsrContext) (orig ansn : Z) (addrs : list Z) : Prop := {
  tc_node : exists t, rbtree_search (topology_tree ctx') orig = Some t /\ topo_seq t = ansn /\
    tc_updated addrs (known_of ctx orig) (an_tree t) /\
    exists e, heap (timerqueue ctx') !! topo_expire_timer t = Some e /\ active e = 1 /\ attached e = 1;
  tc_others : forall t, dest_addr t <> orig ->
    In t (topology_tree ctx') <-> In t (topology_tree ctx);
  tc_routes : routes_current ctx -> In orig (keys (topology_tree ctx)) \/ addrs <> [] ->
    routes_current ctx';
  tc_frame : same_but_topology ctx ctx'
}.

Lemma routing_ok_tq w net ctx tq : routing_ok w net ctx -> routing_ok w net (set_timerqueue ctx tq).
Proof. intros H. by constructor; apply H. Qed.

Lemma routing_ok_topo w net ctx l :
  topo_ok w l -> incl (keys l) net -> (forall t, In t l -> incl (keys (an_tree t)) net) ->
  no_duplicates l -> routing_ok w net ctx -> routing_ok w net (set_topology_tree ctx l).
Proof. intros ? ? ? ? H. constructor; try done; apply H. Qed.

Lemma get_topology_info_ok w net ctx orig ansn vtime :
  routing_ok w net ctx -> topo_live ctx -> In orig net ->
  exists tq l t, let ctx1 := set_topology_tree (set_timerqueue ctx tq) l in
    get_topology_info ctx orig ansn vtime = Ok ctx1 /\
    routing_ok w net ctx1 /\ topo_live ctx1 /\ rbtree_search l orig = Some t /\
    an_tree t = known_of ctx orig /\
    topo_seq t = match rbtree_search (topology_tree ctx) orig with
                 | Some t => topo_seq t | None => ansn end /\
    (forall k, In k (keys l) <-> k = orig \/ In k (keys (topology_tree ctx))) /\
    (forall x, dest_addr x <> orig -> In x l <-> In x (topology_tree ctx)) /\
    (In orig (keys (topology_tree ctx)) -> l = topology_tree ctx).
Proof.
  intros H Hlive Ho. pose proof (net_win _ _ _ H orig Ho) as Hw.
  destruct (top_ok _ _ _ H) as [Ht Han]. unfold get_topology_info, known_of.
  destruct (rbtree_search (topology_tree ctx) orig) as [t|] eqn:Es.
  - exists (timerqueue ctx), (topology_tree ctx), t. cbv zeta.
    replace (set_topology_tree (set_timerqueue ctx _) _) with ctx by (by destruct ctx).
    apply (search_iff (in_window w)) in Es as Hs; [|done|done]. destruct Hs as [Hin Hd].
    pose proof (in_keys _ _ _ Hin Hd) as Hk. do 6 (split; [done|]).
    split; [|done]. intros k. split; [tauto|]. by intros [->|].
  - destruct (start_timer_ok (timerqueue ctx) 0 (vtime_us vtime) 1
      (Cb_topology_info_timer_expire orig)) as (tq & E & Honly & _ & _).
    unfold with_tq. rewrite E. cbn [rbind fst snd].
    set (e := {| dest_addr := orig |}).
    destruct (put_fresh (in_window w) (topology_tree ctx) e Ht Hw Es) as [Hok' Hp].
    exists tq, (tree_put (topology_tree ctx) e), e. cbv zeta. split; [done|].
    assert (Hin : forall x, In x (tree_put (topology_tree ctx) e) <-> x = e \/ In x (topology_tree ctx))
      by (intros x; rewrite Hp; cbn; intuition congruence).
    apply (search_none_iff (in_window w)) in Es as Hnk; [|done|done].
    split; [|split; [|split; [|split; [|split; [|split; [|split]]]]]].
    + apply routing_ok_topo; [split| | | |by apply routing_ok_tq].
      * done.
      * intros x Hx. apply Hin in Hx as [->|Hx]; [apply tree_ok_nil|auto].
      * intros k Hk. apply (keys_put (in_window w)) in Hk as [->|Hk]; [done|by apply (top_net _ _ _ H)|done|done].
      * intros x Hx. apply Hin in Hx as [->|Hx]; [by intros ? []|by apply (top_an_net _ _ _ H)].
      * intros x a Hx. apply Hin in Hx as [->|Hx]; [by intros []|by apply (top_nodup _ _ _ H)].
    + intros x Hx. cbn in Hx. apply Hin in Hx as [->|Hx]; [by apply Honly|].
      eapply only_timer_live; [done|]. by apply Hlive.
    + apply (search_iff (in_window w)); [done|done|]. rewrite Hin. auto.
    + done.
    + done.
    + intros k. by rewrite (keys_put (in_window w)).
    + intros x Hx. rewrite Hin. split; [|by right]. intros [->|]; done.
    + done.
Qed.

(** The node gets its new neighbours. *)
Section Assign.
Context (w : Z) (net : list Z) (ctx : OlsrContext) (t : TopologyInfoElem) (ansn : Z)
  (an : list AdvertisedNeighElem).
Hypothesis (H : routing_ok w net ctx) (Ht : In t (topology_tree ctx))
  (Hok : tree_ok (in_window w) an) (Hnet : incl (keys an) net)
  (Hdup : forall a, In a an -> duplicated a <> 1).

Definition assigned : list TopologyInfoElem :=
  tree_update (topology_tree ctx) (dest_addr t) (fun e => set_topo_seq ansn (set_an_tree an e)).

Lemma dest_window : in_window w (dest_addr t).
Proof using H Ht. exact (tree_ok_dom _ _ _ (proj1 (top_ok _ _ _ H)) Ht). Qed.

Lemma in_assigned x : In x assigned <->
  x = set_topo_seq ansn (set_an_tree an t) \/ (In x (topology_tree ctx) /\ dest_addr x <> dest_addr t).
Proof using H Ht.
  pose proof (proj1 (top_ok _ _ _ H)) as Hto. unfold assigned.
  rewrite (in_update (in_window w)) by (done || apply dest_window). split.
  - intros [(e & He & Ek & ->)|[? ?]]; [|by right]. left. by assert (e = t) as -> by tree_same.
  - intros [->|?]; [left; eauto|by right].
Qed.

Lemma keys_assigned : keys assigned = keys (topology_tree ctx).
Proof using. unfold assigned. by rewrite keys_update. Qed.

Lemma search_assigned :
  rbtree_search assigned (dest_addr t) = Some (set_topo_seq ansn (set_an_tree an t)).
Proof using H Ht.
  pose proof (proj1 (top_ok _ _ _ H)) as Hto. pose proof dest_window.
  apply (search_iff (in_window w)).
  - apply (tree_ok_keys (in_window w) (topology_tree ctx)); [by rewrite keys_assigned|done].
  - done.
  - rewrite in_assigned. auto.
Qed.

Lemma assigned_ok tq : routing_ok w net (set_topology_tree (set_timerqueue ctx tq) assigned).
Proof using All.
  destruct (top_ok _ _ _ H) as [Hto Han].
  apply routing_ok_topo; [split| | | |by apply routing_ok_tq].
  - apply (tree_ok_keys (in_window w) (topology_tree ctx)); [by rewrite keys_assigned|done].
  - intros x Hx. apply in_assigned in Hx as [->|[Hx _]]; [done|auto].
  - rewrite keys_assigned. apply H.
  - intros x Hx. apply in_assigned in Hx as [->|[Hx _]]; [done|by apply (top_an_net _ _ _ H)].
  - intros x a Hx. apply in_assigned in Hx as [->|[Hx _]]; [apply Hdup|by apply (top_nodup _ _ _ H)].
Qed.

(** With the same neighbours, the links are the same. *)
Lemma assigned_link u v : (forall k, In k (keys an) <-> In k (keys (an_tree t))) ->
  link (own_ip ctx) assigned u v <-> link (own_ip ctx) (topology_tree ctx) u v.
Proof using H Ht.
  intros Hk. assert (He : forall a b, edge assigned a b <-> edge (topology_tree ctx) a b).
  { intros a b. unfold edge. split.
    - intros (x & Hx & Ex & Hb). apply in_assigned in Hx as [->|[Hx _]]; [|eauto].
      exists t. cbn in *. rewrite Hk in Hb. auto.
    - intros (x & Hx & Ex & Hb). destruct (Z.eq_dec (dest_addr x) (dest_addr t)) as [E|E].
      + assert (x = t) as ->.
        { pose proof (proj1 (top_ok _ _ _ H)) as Hto. tree_same. }
        eexists. rewrite in_assigned. split; [by left|]. cbn. by rewrite Hk.
      + exists x. rewrite in_assigned. auto. }
  unfold link. by rewrite !He, keys_assigned.
Qed.
End Assign.

Lemma read_ansn P ansn r addrs Q : is_u16 ansn ->
  rd16 (P ++ tc_bytes ansn r addrs ++ Q) (zlen P) = Ok (htons ansn).
Proof.
  intros Ha. rewrite <- (Z.add_0_r (zlen P)), rd16_shift by lia. unfold tc_bytes, le16. cbn [app].
  run_blits. by rewrite rd16_le16 by apply htons_range.
Qed.

Lemma process_tc_stale ctx P r addrs Q size src orig ansn vtime n t :
  is_u16 ansn -> rbtree_search (neighbor_tree ctx) src = Some n -> is_sym n = true ->
  rbtree_search (topology_tree ctx) orig = Some t -> ansn < topo_seq t ->
  process_olsr_tc ctx (P ++ tc_bytes ansn r addrs ++ Q) (zlen P) size src orig vtime = Ok ctx.
Proof.
  intros Ha En Es Et Hlt. unfold process_olsr_tc. rewrite En, Es, read_ansn by done. cbn [negb rbind].
  rewrite ntohs_htons, u16_id by done. unfold get_topology_info. rewrite Et. cbn [rbind].
  rewrite Et. cbn [deref rbind]. bool_lia. done.
Qed.

(** ** The handler, once the node [t] of the originator is at hand *)
Section Fresh.
Context (w : Z) (net : list Z) (ctx : OlsrContext) (tq tq2 : TimerqueueContext olsr_cb)
  (l : list TopologyInfoElem) (t : TopologyInfoElem) (orig ansn : Z) (addrs : list Z)
  (an2 : list AdvertisedNeighElem).
Let ctx1 : OlsrContext := set_topology_tree (set_timerqueue ctx tq) l.
Let ctx2 : OlsrContext := set_topology_tree (set_timerqueue ctx1 tq2) (assigned ctx1 t ansn an2).
Hypothesis (H1 : routing_ok w net ctx1) (Hint : In t l) (Hd : dest_addr t = orig).

Lemma process_tc_run n P r Q src vtime an1 ch k :
  rbtree_search (neighbor_tree ctx) src = Some n -> is_sym n = true ->
  is_u16 ansn -> zlen r = 2 -> 4 + 4 * zlen addrs < 65536 -> topo_seq t <= ansn ->
  get_topology_info ctx orig ansn vtime = Ok ctx1 ->
  timerqueue_reactivate_timer tq (topo_expire_timer t) = Ok tq2 ->
  read_advertised (length addrs) ((P ++ le16 (htons ansn) ++ r) ++ enc_addrs addrs ++ Q)
    (zlen (P ++ le16 (htons ansn) ++ r)) (map (set_obsolete 1) (an_tree t), false) = Ok (an1, ch) ->
  remove_obsolute_advertised_neighbor an1 = (an2, k) ->
  process_olsr_tc ctx (P ++ tc_bytes ansn r addrs ++ Q) (zlen P)
    (4 + 4 * zlen addrs) src orig vtime =
    if ch || negb (k =? 0) then calc_routing_table ctx2 else Ok ctx2.
Proof using H1 Hint Hd.
  intros En Es Ha Hr Hlen Hle E1 E2 E3 E4. pose proof (zlen_nonneg addrs).
  assert (Et : rbtree_search l orig = Some t).
  { pose proof (dest_window w net ctx1 t H1 Hint) as Hw. rewrite Hd in Hw.
    apply (search_iff (in_window w)); [apply (top_ok _ _ _ H1)|done|]. done. }
  unfold process_olsr_tc. rewrite En, Es, read_ansn by done. cbn [negb rbind].
  rewrite ntohs_htons, u16_id by done. rewrite E1. cbn [rbind].
  change (topology_tree ctx1) with l. rewrite Et. cbn [deref rbind].
  destruct (Z.ltb_spec ansn (topo_seq t)) as [|_]; [lia|].
  unfold upd_tq. change (timerqueue ctx1) with tq. rewrite E2. cbn [rbind].
  replace (i32 (u64 ((4 + 4 * zlen addrs) / 4 - 1))) with (zlen addrs)
    by (rewrite i32_id; unfold u64; lia).
  unfold zlen at 1. rewrite Nat2Z.id.
  replace (zlen P + sizeof_TcMsg) with (zlen (P ++ le16 (htons ansn) ++ r))
    by (rewrite !zlen_app, Hr; unfold sizeof_TcMsg; change (zlen (le16 _)) with 2; lia).
  unfold tc_bytes. rewrite <- !app_assoc in E3 |- *. rewrite E3. cbn [rbind].
  rewrite E4. unfold ctx2, assigned. rewrite Hd. done.
Qed.

(** [ctx'] is [ctx2], perhaps with other routes. *)
Lemma tc_result_intro ctx' te :
  topo_live ctx1 -> an_tree t = known_of ctx orig ->
  (forall x, dest_addr x <> orig -> In x l <-> In x (topology_tree ctx)) ->
  only_timer tq tq2 (topo_expire_timer t) ->
  heap tq2 !! topo_expire_timer t = Some te -> active te = 1 -> attached te = 1 ->
  tc_updated addrs (an_tree t) an2 ->
  same_but_stats (set_routing_table ctx2 (routing_table ctx')) ctx' ->
  (routes_current ctx -> In orig (keys (topology_tree ctx)) \/ addrs <> [] -> routes_current ctx') ->
  topo_live ctx' /\ tc_result ctx ctx' orig ansn addrs.
Proof using H1 Hint Hd.
  intros Hlive1 Ean Hin Honly Hte Hact Hatt Hupd Hs Hroutes. unfold same_but_stats in Hs.
  assert (Etl : topology_tree ctx' = assigned ctx1 t ansn an2)
    by (by apply (f_equal topology_tree) in Hs).
  assert (Etq : timerqueue ctx' = tq2) by (by apply (f_equal timerqueue) in Hs).
  split.
  { intros x Hx. rewrite Etl in Hx. rewrite Etq.
    apply (in_assigned w net ctx1 t ansn an2 H1 Hint) in Hx as [->|[Hx _]];
      [by apply Honly|]. eapply only_timer_live; [exact Honly|]. by apply Hlive1. }
  constructor; [| |done|].
  - exists (set_topo_seq ansn (set_an_tree an2 t)). rewrite Etl, Etq, <- Ean.
    split; [rewrite <- Hd; by apply (search_assigned w net)|]. split; [done|]. split; [done|]. by exists te.
  - intros x Hx. rewrite Etl, (in_assigned w net) by done. change (topology_tree ctx1) with l.
    rewrite Hin by done. split; [intros [->|[? _]]|]; [by cbn in Hx|done|].
    rewrite Hd. auto.
  - unfold same_but_topology. rewrite Etq.
    apply (f_equal (fun c => set_timerqueue (set_topology_tree (set_routing_table c []) []) tq2)) in Hs.
    etransitivity; [|etransitivity; [exact Hs|]]; [by destruct ctx|by destruct ctx'].
Qed.
End Fresh.

(** What happens to the timers: the originator's one is made if it is new, and
    rewound. *)
Definition topo_timers (l : list TopologyInfoElem) : list (Z * Z) :=
  map (fun t => (dest_addr t, topo_expire_timer t)) l.
Definition tc_timers (ctx ctx' : OlsrContext) (orig ansn vtime : Z) : Prop :=
  exists ctx1 t, get_topology_info ctx orig ansn vtime = Ok ctx1 /\
    In t (topology_tree ctx1) /\ dest_addr t = orig /\
    timerqueue_reactivate_timer (timerqueue ctx1) (topo_expire_timer t) = Ok (timerqueue ctx') /\
    topo_timers (topology_tree ctx') = topo_timers (topology_tree ctx1).

Lemma timers_assigned ctx t ansn an : topo_timers (assigned ctx t ansn an) = topo_timers (topology_tree ctx).
Proof.
  unfold assigned, topo_timers. induction (topology_tree ctx) as [|x l IH]; cbn; [done|].
  destruct (_ =? 0); cbn; congruence.
Qed.

Lemma process_tc_fresh w net ctx P r addrs Q src orig ansn vtime n :
  routing_ok w net ctx -> topo_live ctx ->
  rbtree_search (neighbor_tree ctx) src = Some n -> is_sym n = true ->
  In orig net -> incl addrs net -> is_u16 ansn -> zlen r = 2 -> 4 + 4 * zlen addrs < 65536 ->
  (forall t, rbtree_search (topology_tree ctx) orig = Some t -> topo_seq t <= ansn) ->
  exists ctx', process_olsr_tc ctx (P ++ tc_bytes ansn r addrs ++ Q) (zlen P)
                 (4 + 4 * zlen addrs) src orig vtime = Ok ctx' /\
    routing_ok w net ctx' /\ topo_live ctx' /\ tc_result ctx ctx' orig ansn addrs /\
    tc_timers ctx ctx' orig ansn vtime.
Proof.
  intros H Hlive En Es Ho Hinc Ha Hr Hlen Hseq.
  destruct (get_topology_info_ok w net ctx orig ansn vtime H Hlive Ho) as
    (tq & l & t & E1 & H1 & Hlive1 & Et & Ean & Eseq & Hkl & Hin & Hold). cbv zeta in *.
  set (ctx1 := set_topology_tree (set_timerqueue ctx tq) l) in *.
  pose proof (net_win _ _ _ H orig Ho) as Hw.
  destruct (proj1 (search_iff (in_window w) l orig t (proj1 (top_ok _ _ _ H1)) Hw) Et) as [Hint Hd].
  destruct (Hlive1 t Hint) as [te Hte].
  destruct (timerqueue_reactivate_timer_ok tq (topo_expire_timer t) te Hte) as
    (tq2 & E2 & Honly & _ & Hte2).
  destruct (replace_ok w (an_tree t) (proj2 (top_ok _ _ _ H1) t Hint)
    (fun a => top_nodup _ _ _ H1 t a Hint) addrs (P ++ le16 (htons ansn) ++ r) Q)
    as (an1 & ch & an2 & k & E3 & E4 & Hok2 & Hdup2 & Hupd & Hsame & Hne).
  { apply List.Forall_forall. intros a Hi. by apply (net_win _ _ _ H), Hinc. }
  assert (Hnet2 : incl (keys an2) net).
  { intros a Hi. apply (upd_only _ _ _ Hupd) in Hi as [Hi|Hi]; [auto|].
    by apply (top_an_net _ _ _ H1 t Hint). }
  pose proof (assigned_ok w net ctx1 t ansn an2 H1 Hint Hok2 Hnet2 Hdup2 tq2) as H2.
  assert (Hle : topo_seq t <= ansn).
  { rewrite Eseq. destruct (rbtree_search (topology_tree ctx) orig); [by apply Hseq|lia]. }
  erewrite (process_tc_run w net ctx tq tq2 l t orig ansn addrs an2 H1 Hint Hd) by done.
  set (ctx2 := set_topology_tree (set_timerqueue ctx1 tq2) (assigned ctx1 t ansn an2)) in *.
  assert (Htm : forall ctx', timerqueue ctx' = tq2 -> topology_tree ctx' = topology_tree ctx2 ->
    tc_timers ctx ctx' orig ansn vtime).
  { intros ctx' Eq Et'. exists ctx1, t. rewrite Eq, Et'. do 4 (split; [done|]). apply timers_assigned. }
  assert (Hsplit : forall ctx', routing_ok w net ctx' ->
    topo_live ctx' /\ tc_result ctx ctx' orig ansn addrs -> tc_timers ctx ctx' orig ansn vtime ->
    routing_ok w net ctx' /\ topo_live ctx' /\ tc_result ctx ctx' orig ansn addrs /\
    tc_timers ctx ctx' orig ansn vtime) by tauto.
  destruct (ch || negb (k =? 0)) eqn:Ech.
  - destruct (calc_routing_table_spec w net ctx2 H2) as (ctx' & E & H' & Hspf).
    exists ctx'. split; [done|]. pose proof (res_frame _ _ Hspf) as Hf. unfold same_but_stats in Hf.
    apply Hsplit; [done| |apply Htm; [exact (eq_sym (f_equal timerqueue Hf))|exact (eq_sym (f_equal topology_tree Hf))]].
    eapply (tc_result_intro w net ctx tq tq2 l t); try done.
    intros _ _. by eapply spf_result_current.
  - exists ctx2. split; [done|]. apply Hsplit; [done| |by apply Htm].
    eapply (tc_result_intro w net ctx tq tq2 l t); try done.
    intros Hcur Hor. apply (routes_current_same ctx); try done. intros u v.
    assert (Hk : In orig (keys (topology_tree ctx))).
    { destruct Hor as [|Hna]; [done|]. assert (an_tree t <> []) as Hn by auto.
      rewrite Ean in Hn. unfold known_of in Hn.
      destruct (rbtree_search (topology_tree ctx) orig) as [t0|] eqn:Es0; [|done].
      apply (search_iff (in_window w)) in Es0 as [Hi0 Hd0]; [|apply H|done]. by apply (in_keys _ t0). }
    etransitivity; [apply (assigned_link w net ctx1 t ansn an2 H1 Hint); auto|].
    change (topology_tree ctx1) with l. by rewrite Hold.
Qed.


(** The node 1 hears from its neighbour 2 that 3 no longer uses it but 4 does. *)
Definition ex_tc_ctx : OlsrContext :=
  let tq : TimerqueueContext olsr_cb := create_timerqueue (fun _ => mkTimespec 0 0) (fun _ => 0) in
  let tq := match start_timer tq 0 0 1 (Cb_topology_info_timer_expire 2) with Ok (tq, _) => tq | _ => tq end in
  set_timerqueue (set_topology_tree ex_ctx [mkTopo 2 7 [mkAn 3 0 0] 1]) tq.


(** ** Building a message *)
Lemma write_selectors_ok sels A rest :
  4 * zlen sels <= zlen rest ->
  exists rest', write_selectors (A ++ rest) (zlen A) sels =
      Ok (A ++ enc_addrs (map selector_addr sels) ++ rest') /\
    exists y, rest = y ++ rest' /\ zlen y = 4 * zlen sels.
Proof.
  revert A rest. induction sels as [|s sels IH]; intros A rest Hl; cbn [write_selectors map].
  { exists rest. split; [done|]. by exists []. }
  rewrite zlen_cons in Hl |- *. pose proof (zlen_nonneg sels).
  destruct (zcut rest 4) as (x & rest1 & -> & Hx); [lia|]. rewrite zlen_app in Hl.
  unfold wr32. rewrite (zblit_app A x rest1) by done. cbn [rbind].
  rewrite (app_assoc A). replace (zlen A + 4) with (zlen (A ++ le32 (selector_addr s)))
    by (by rewrite zlen_app).
  destruct (IH (A ++ le32 (selector_addr s)) rest1) as (rest' & -> & y & -> & Hy); [lia|].
  exists rest'. rewrite enc_addrs_cons, <- !app_assoc. split; [done|].
  exists (x ++ y). rewrite <- app_assoc, zlen_app. split; [done|lia].
Qed.

Lemma build_olsr_tc_spec ctx pre rest :
  4 + 4 * zlen (selector_tree ctx) <= zlen rest ->
  exists r rest',
    build_olsr_tc ctx (pre ++ rest) (zlen pre) =
      Ok (set_ansn ctx (u16 (ansn ctx + 1)),
          pre ++ tc_bytes (ansn ctx) r (keys (selector_tree ctx)) ++ rest',
          4 + 4 * zlen (selector_tree ctx)) /\
    zlen r = 2 /\ exists x y, rest = x ++ r ++ y ++ rest' /\ zlen x = 2 /\
      zlen y = 4 * zlen (selector_tree ctx).
Proof.
  intros Hroom.  pose proof (zlen_nonneg (selector_tree ctx)).
  destruct (zcut rest 2) as (x & rest1 & -> & Hx); [lia|]. rewrite zlen_app in Hroom.
  destruct (zcut rest1 2) as (r & rest2 & -> & Hr); [lia|]. rewrite zlen_app in Hroom.
  unfold build_olsr_tc, wr16. rewrite (zblit_app pre x) by done. cbn [rbind].
  replace (pre ++ le16 (htons (ansn ctx)) ++ r ++ rest2)
    with ((pre ++ le16 (htons (ansn ctx)) ++ r) ++ rest2) by (by rewrite <- !app_assoc).
  replace (zlen pre + sizeof_TcMsg) with (zlen (pre ++ le16 (htons (ansn ctx)) ++ r))
    by (rewrite !zlen_app, Hr; unfold sizeof_TcMsg; change (zlen (le16 _)) with 2; lia).
  destruct (write_selectors_ok (selector_tree ctx) (pre ++ le16 (htons (ansn ctx)) ++ r) rest2)
    as (rest' & E & y & -> & Hy); [lia|].
  change (selector_tree (set_ansn ctx _)) with (selector_tree ctx). rewrite E. cbn [rbind].
  exists r, rest'. unfold tc_bytes. rewrite <- !app_assoc.
  split; [done|]. split; [done|].
  by exists x, y.
Qed.

(** Building a topology message writes exactly the message: the advertised
    sequence number, then the addresses of the nodes that chose this node as a
    relay, in a block with room for them; it touches no byte before or behind,
    returns the length of the message, and advances the sequence number modulo
    2^16. *)
Theorem build_olsr_tc_message (ctx : OlsrContext) (pre rest : list Z)
  (Hroom : 4 + 4 * zlen (selector_tree ctx) <= zlen rest) :
  exists r rest',
    build_olsr_tc ctx (pre ++ rest) (zlen pre) =
      Ok (set_ansn ctx (u16 (ansn ctx + 1)),
          pre ++ tc_bytes (ansn ctx) r (keys (selector_tree ctx)) ++ rest',
          4 + 4 * zlen (selector_tree ctx)) /\
    zlen r = 2 /\ exists x y, rest = x ++ r ++ y ++ rest' /\ zlen x = 2 /\
      zlen y = 4 * zlen (selector_tree ctx).
Proof. by apply build_olsr_tc_spec. Qed.

Lemma build_olsr_tc_message_witness :
  let ctx := set_ansn (set_selector_tree ex_ctx [mkSelector 2 1; mkSelector 9 2]) 65535 in
  exists r rest',
    build_olsr_tc ctx ([7] ++ repeat 0xcc 14) 1 =
      Ok (set_ansn ctx 0, [7] ++ tc_bytes 65535 r [2; 9] ++ rest', 12) /\
    zlen r = 2 /\ exists x y, repeat 0xcc 14 = x ++ r ++ y ++ rest' /\ zlen x = 2 /\ zlen y = 8.
Proof.
  apply (build_olsr_tc_message
    (set_ansn (set_selector_tree ex_ctx [mkSelector 2 1; mkSelector 9 2]) 65535) [7] (repeat 0xcc 14)).
  vm_compute. discriminate.
Defined.
