(* ===== verification/OlsrForwarding.v ===== *)
(** Message forwarding and the duplicate set (simnet/olsr/olsr_forwarding.c).

    Messages lie in the received packet: a block of bytes and the offset of the
    packed [OlsrMsgHeader].  Forwarding decrements the time to live and
    increments the hop count in place, then queues the bytes.  A pointer to a
    duplicate entry is its key. *)
From S2P Require Import Prelude OrdTree RingBuffer TimerQueue OlsrContext.
From stdpp Require Import base list numbers gmap.
From Stdlib Require Import ZArith Lia.
Open Scope Z_scope.
Open Scope c_scope.

(** ** The message header (olsr_proto.h), with its fields in host order *)
Record OlsrMsgHeader : Type := mkHdr {
  olsr_msgtype : Z;
  olsr_vtime : Z;
  olsr_msgsize : Z;
  originator : Z;
  ttl : Z;
  hopcnt : Z;
  seqno : Z
}.
Definition sizeof_OlsrMsgHeader : Z := 12.

(** Loads of the fields of the header at [msg]. *)
Definition msg_type (b : list Z) (msg : Z) : res Z := rd8 b msg.
Definition msg_vtime (b : list Z) (msg : Z) : res Z := rd8 b (msg + 1).
Definition msg_size (b : list Z) (msg : Z) : res Z :=
  let* v := rd16 b (msg + 2) in Ok (ntohs v).
Definition msg_originator (b : list Z) (msg : Z) : res Z := rd32 b (msg + 4).
Definition msg_ttl (b : list Z) (msg : Z) : res Z := rd8 b (msg + 8).
Definition msg_hopcnt (b : list Z) (msg : Z) : res Z := rd8 b (msg + 9).
Definition msg_seqno (b : list Z) (msg : Z) : res Z :=
  let* v := rd16 b (msg + 10) in Ok (ntohs v).

(** The key of a message in the duplicate set. *)
Definition msg_key (b : list Z) (msg : Z) : res DuplicateSetKey :=
  let* o := msg_originator b msg in
  let* s := msg_seqno b msg in
  Ok {| orig := o; dup_seq := s |}.

(** ** olsr_forwarding.c *)
Definition is_mpr_selector (ctx : OlsrContext) (addr : Z) : bool :=
  match rbtree_search (selector_tree ctx) addr with Some _ => true | None => false end.

Definition expire_dup_entry_cb (ctx : OlsrContext) (key : DuplicateSetKey) (timer : Z)
  : res OlsrContext :=
  let ctx := set_dup_tree ctx (fst (rbtree_delete (dup_tree ctx) key)) in
  upd_tq ctx (fun tq => timerqueue_free_timer tq timer).

Definition create_dup_entry (ctx : OlsrContext) (dkey : DuplicateSetKey)
  : res (OlsrContext * DuplicateSetElem) :=
  let* r := with_tq ctx (fun tq =>
    start_timer tq 0 (DEF_DUP_HOLD_TIME_MS * 1000) 1 (Cb_expire_dup_entry dkey)) in
  let '(ctx, timer) := r in
  Ok (ctx, {| dup_key := dkey; retransmitted := 0; iface_addr_list := [own_ip ctx];
              dup_expire_timer := timer |}).

(** The new context and the block, whose header the function writes. *)
Definition olsr_msg_forwarding (ctx : OlsrContext) (b : list Z) (msg src : Z)
  : res (OlsrContext * list Z) :=
  let* dkey := msg_key b msg in
  let* r :=
    match rbtree_search (dup_tree ctx) dkey with
    | Some delem => Ok (ctx, negb (retransmitted delem =? 0))
    | None =>
      let* r := create_dup_entry ctx dkey in
      let '(ctx, delem) := r in
      Ok (set_dup_tree ctx (tree_put (dup_tree ctx) delem), false)
    end in
  let '(ctx, done) := r in
  if (done : bool) then Ok (ctx, b)
  else if negb (is_mpr_selector ctx src) then Ok (ctx, b)
  else
    let ctx := set_dup_tree ctx (tree_update (dup_tree ctx) dkey (set_retransmitted 1)) in
    let* t := msg_ttl b msg in
    let* b := wr8 b (msg + 8) (t - 1) in
    let* h := msg_hopcnt b msg in
    let* b := wr8 b (msg + 9) (h + 1) in
    let* t := msg_ttl b msg in
    if t =? 0 then Ok (ctx, b)
    else
      let* n := msg_size b msg in
      let* r := RingBuffer_push (olsr_tx_msgbuf ctx) (drop (Z.to_nat msg) b) n in
      Ok (set_olsr_tx_msgbuf ctx (fst r), b).

(** ** The bytes of a message *)
Definition enc_header (h : OlsrMsgHeader) : list Z :=
  [olsr_msgtype h; olsr_vtime h] ++ le16 (htons (olsr_msgsize h)) ++ le32 (originator h) ++
  [ttl h; hopcnt h] ++ le16 (htons (seqno h)).

Record hdr_ok (h : OlsrMsgHeader) : Prop := {
  hdr_type : is_u8 (olsr_msgtype h);
  hdr_vtime : is_u8 (olsr_vtime h);
  hdr_size : is_u16 (olsr_msgsize h);
  hdr_orig : is_u32 (originator h);
  hdr_ttl : is_u8 (ttl h);
  hdr_hop : is_u8 (hopcnt h);
  hdr_seq : is_u16 (seqno h)
}.

Definition hdr_key (h : OlsrMsgHeader) : DuplicateSetKey := {| orig := originator h; dup_seq := seqno h |}.

(** The header one hop further. *)
Definition next_hop (h : OlsrMsgHeader) : OlsrMsgHeader :=
  mkHdr (olsr_msgtype h) (olsr_vtime h) (olsr_msgsize h) (originator h)
    (u8 (ttl h - 1)) (u8 (hopcnt h + 1)) (seqno h).

Lemma zlen_enc_header h : zlen (enc_header h) = 12.
Proof. done. Qed.

Section Header.
Context (P : list Z) (h : OlsrMsgHeader) (X : list Z).
Hypothesis H : hdr_ok h.

Lemma read_header :
  let b := P ++ enc_header h ++ X in
  let msg := zlen P in
  msg_type b msg = Ok (olsr_msgtype h) /\ msg_vtime b msg = Ok (olsr_vtime h) /\
  msg_size b msg = Ok (olsr_msgsize h) /\ msg_originator b msg = Ok (originator h) /\
  msg_ttl b msg = Ok (ttl h) /\ msg_hopcnt b msg = Ok (hopcnt h) /\
  msg_seqno b msg = Ok (seqno h).
Proof using H.
  destruct H. unfold msg_type, msg_vtime, msg_size, msg_originator, msg_ttl, msg_hopcnt, msg_seqno.
  cbv zeta. rewrite rd8_shift0, !rd8_shift, !rd16_shift, rd32_shift by lia.
  unfold enc_header, le32, le16. cbn [app]. run_blits.
  rewrite rd32_le32, !rd16_le16, !ntohs_htons, !u16_id by (done || apply htons_range). done.
Qed.

Lemma read_key : msg_key (P ++ enc_header h ++ X) (zlen P) = Ok (hdr_key h).
Proof using H.
  destruct read_header as (_ & _ & _ & E1 & _ & _ & E2). unfold msg_key. by rewrite E1, E2.
Qed.

(** The two stores of the forwarding. *)
Lemma write_next_hop :
  (let* b := wr8 (P ++ enc_header h ++ X) (zlen P + 8) (ttl h - 1) in
   let* hc := msg_hopcnt b (zlen P) in
   wr8 b (zlen P + 9) (hc + 1)) = Ok (P ++ enc_header (next_hop h) ++ X).
Proof using.
  rewrite wr8_shift by lia. unfold enc_header at 1, le32, le16. cbn [app]. unfold wr8 at 1. blit_step.
  unfold msg_hopcnt. rewrite rd8_shift by lia. blit_step. rewrite wr8_shift by lia.
  unfold wr8. blit_step. done.
Qed.

Lemma next_hop_ok : hdr_ok (next_hop h).
Proof using H. destruct H. constructor; cbn; auto using u8_range. Qed.
End Header.

(** ** What one call does *)
Definition relayed (ctx : OlsrContext) (k : DuplicateSetKey) : bool :=
  match rbtree_search (dup_tree ctx) k with
  | Some d => negb (retransmitted d =? 0) | None => false
  end.

Record fwd_ok (w : Z) (ctx : OlsrContext) : Prop := {
  fwd_dup : tree_ok (dupkey_in_window w) (dup_tree ctx);
  fwd_ring : RingBuffer.wf (olsr_tx_msgbuf ctx)
}.

(** All but the duplicate set, the transmit queue and the timers. *)
Definition same_but_fwd (c1 c2 : OlsrContext) : Prop :=
  set_dup_tree (set_timerqueue (set_olsr_tx_msgbuf c1 (olsr_tx_msgbuf c2)) (timerqueue c2)) (dup_tree c2) = c2.

Definition room (ctx : OlsrContext) : Z :=
  RingBuffer.size (olsr_tx_msgbuf ctx) - zlen (contents (olsr_tx_msgbuf ctx)).

(** Is the message queued, given that it was not relayed before? *)
Definition queued (ctx : OlsrContext) (h : OlsrMsgHeader) (src : Z) : bool :=
  negb (relayed ctx (hdr_key h)) && is_mpr_selector ctx src &&
  negb (ttl (next_hop h) =? 0) && (olsr_msgsize h <=? room ctx).

Record fwd_result (w : Z) (ctx ctx' : OlsrContext) (h : OlsrMsgHeader) (payload : list Z) (src : Z)
  : Prop := {
  fr_ok : fwd_ok w ctx';
  fr_known : In (hdr_key h) (keys (dup_tree ctx'));
  fr_relayed : relayed ctx' (hdr_key h) = relayed ctx (hdr_key h) || is_mpr_selector ctx src;
  fr_others : forall k, dupkey_in_window w k -> k <> hdr_key h ->
    rbtree_search (dup_tree ctx') k = rbtree_search (dup_tree ctx) k;
  fr_queue : contents (olsr_tx_msgbuf ctx') = contents (olsr_tx_msgbuf ctx) ++
    if queued ctx h src then enc_header (next_hop h) ++ payload else [];
  fr_frame : same_but_fwd ctx ctx'
}.

Lemma dup_eqb w k1 k2 : dupkey_in_window w k1 -> dupkey_in_window w k2 -> k1 <> k2 ->
  (rbtree_compare_by_dupkey k1 k2 =? 0) = false.
Proof.
  intros H1 H2 Hne. apply Z.eqb_neq. intros E. apply Hne.
  exact (proj1 (@cmp_eq _ _ _ (dupkey_order w) k1 k2 H1 H2) E).
Qed.

(** Looking up or making the entry of the key. *)
Lemma dup_entry_ok w ctx k :
  fwd_ok w ctx -> dupkey_in_window w k ->
  exists ctx1, match rbtree_search (dup_tree ctx) k with
    | Some delem => Ok (ctx, negb (retransmitted delem =? 0))
    | None =>
      let* r := create_dup_entry ctx k in
      let '(ctx, delem) := r in
      Ok (set_dup_tree ctx (tree_put (dup_tree ctx) delem), false)
    end = Ok (ctx1, relayed ctx k) /\
    fwd_ok w ctx1 /\ In k (keys (dup_tree ctx1)) /\ relayed ctx1 k = relayed ctx k /\
    (forall k', dupkey_in_window w k' -> k' <> k ->
      rbtree_search (dup_tree ctx1) k' = rbtree_search (dup_tree ctx) k') /\
    same_but_fwd ctx ctx1 /\ olsr_tx_msgbuf ctx1 = olsr_tx_msgbuf ctx.
Proof.
  intros [Hd Hr] Hk. unfold relayed. destruct (rbtree_search (dup_tree ctx) k) as [d|] eqn:Es.
  - exists ctx. rewrite Es. split; [done|]. split; [by split|]. split.
    + apply (search_iff (dupkey_in_window w)) in Es as [Hi He]; [|done|done]. by apply (in_keys _ d).
    + split; [done|]. split; [done|]. split; [by destruct ctx|done].
  - unfold create_dup_entry, with_tq.
    destruct (start_timer_ok (timerqueue ctx) 0 (DEF_DUP_HOLD_TIME_MS * 1000) 1
      (Cb_expire_dup_entry k)) as (tq & -> & _). cbn [rbind fst snd dup_tree set_timerqueue own_ip].
    set (d := {| dup_key := k |}).
    destruct (put_fresh (dupkey_in_window w) (dup_tree ctx) d Hd Hk Es) as [Hok Hp].
    assert (Hs : forall k', dupkey_in_window w k' -> rbtree_search (tree_put (dup_tree ctx) d) k' =
              if rbtree_compare_by_dupkey k' k =? 0 then Some d else rbtree_search (dup_tree ctx) k').
    { intros k' Hk'. destruct (rbtree_search (tree_put (dup_tree ctx) d) k') as [e|] eqn:E.
      - apply (search_iff (dupkey_in_window w)) in E as [Hi He]; [|done|done]. rewrite Hp in Hi.
        destruct Hi as [<-|Hi].
        + cbn in He. subst k'. by rewrite (proj2 (cmp_eq k k Hk Hk)).
        + assert (k' <> k).
          { intros ->. apply (search_none_iff (dupkey_in_window w)) in Es; [|done|done].
            by apply Es, (in_keys _ e). }
          rewrite (dup_eqb w) by done. symmetry. by apply (search_iff (dupkey_in_window w)).
      - apply (search_none_iff (dupkey_in_window w)) in E; [|done|done].
        rewrite (keys_put (dupkey_in_window w)) in E by done.
        assert (k' <> k) by (intros ->; apply E; by left). rewrite (dup_eqb w) by done. symmetry.
        apply (search_none_iff (dupkey_in_window w)); [done|done|]. intros Hi. apply E. by right. }
    eexists. split; [done|]. cbn. split; [by split|]. split.
    + apply (keys_put (dupkey_in_window w)); [done|done|by left].
    + split; [rewrite Hs by done; by rewrite (proj2 (cmp_eq k k Hk Hk))|].
      split; [intros k' Hk' Hne; rewrite Hs by done; by rewrite (dup_eqb w)|].
      split; [by destruct ctx|done].
Qed.

(** Marking the entry. *)
Lemma mark_ok w ctx k :
  fwd_ok w ctx -> dupkey_in_window w k -> In k (keys (dup_tree ctx)) ->
  let ctx1 := set_dup_tree ctx (tree_update (dup_tree ctx) k (set_retransmitted 1)) in
  fwd_ok w ctx1 /\ In k (keys (dup_tree ctx1)) /\ relayed ctx1 k = true /\
  (forall k', dupkey_in_window w k' -> k' <> k ->
    rbtree_search (dup_tree ctx1) k' = rbtree_search (dup_tree ctx) k').
Proof.
  intros [Hd Hr] Hk Hin. cbv zeta. split; [split; [by apply (update_ok (dupkey_in_window w))|done]|].
  split; [cbn; by rewrite keys_update|]. unfold relayed. cbn. split.
  - rewrite (search_update (dupkey_in_window w)) by done. cbn.
    rewrite (proj2 (cmp_eq k k Hk Hk)) by done. cbn.
    destruct (search_some (dupkey_in_window w) _ k Hd Hk Hin) as (d & -> & _). done.
  - intros k' Hk' Hne. rewrite (search_update (dupkey_in_window w)) by done. cbn.
    by rewrite (dup_eqb w).
Qed.

Section Step.
Context (w : Z) (P Q payload : list Z) (h : OlsrMsgHeader) (src : Z).
Hypothesis (Hh : hdr_ok h) (Hsize : olsr_msgsize h = 12 + zlen payload)
  (Hk : dupkey_in_window w (hdr_key h)).
Abbreviation packet hd := (P ++ enc_header hd ++ payload ++ Q).

(** The last part: the changed header is in place. *)
Lemma push_message ctx :
  RingBuffer.wf (olsr_tx_msgbuf ctx) ->
  exists rb, (if ttl (next_hop h) =? 0 then Ok (ctx, packet (next_hop h)) else
    let* n := msg_size (packet (next_hop h)) (zlen P) in
    let* r := RingBuffer_push (olsr_tx_msgbuf ctx) (drop (Z.to_nat (zlen P)) (packet (next_hop h))) n in
    Ok (set_olsr_tx_msgbuf ctx (fst r), packet (next_hop h))) =
    Ok (set_olsr_tx_msgbuf ctx rb, packet (next_hop h)) /\ RingBuffer.wf rb /\
    contents rb = contents (olsr_tx_msgbuf ctx) ++
      if negb (ttl (next_hop h) =? 0) && (olsr_msgsize h <=? room ctx)
      then enc_header (next_hop h) ++ payload else [].
Proof using Hh Hsize.
  intros Hwf. pose proof (zlen_nonneg payload). pose proof (zlen_nonneg Q).
  destruct (ttl (next_hop h) =? 0) eqn:Et.
  { exists (olsr_tx_msgbuf ctx). rewrite app_nil_r. split; [by destruct ctx|done]. }
  destruct (read_header P (next_hop h) (payload ++ Q) (next_hop_ok h Hh)) as (_ & _ & -> & _).
  change (olsr_msgsize (next_hop h)) with (olsr_msgsize h). cbn [rbind].
  unfold zlen at 1. rewrite Nat2Z.id, drop_app_length.
  destruct (push_spec (olsr_tx_msgbuf ctx) (enc_header (next_hop h) ++ payload ++ Q)
    (olsr_msgsize h)) as (rb & -> & Hwf' & Habs); [done|rewrite !zlen_app, zlen_enc_header; lia|].
  cbn [rbind fst snd]. exists rb. split; [done|]. split; [done|].
  apply (f_equal items) in Habs. cbn [items abs] in Habs. rewrite Habs. unfold spec_push, room.
  cbn [abs cap items negb andb]. set (c := contents _).
  destruct (Z.ltb_spec (RingBuffer.size (olsr_tx_msgbuf ctx) - zlen c) (olsr_msgsize h));
    destruct (Z.leb_spec (olsr_msgsize h) (RingBuffer.size (olsr_tx_msgbuf ctx) - zlen c)); try lia;
    cbn [fst items]; [by rewrite app_nil_r|]. f_equal.
  rewrite app_assoc, take_app_length'; [done|]. rewrite length_app.
  change (length (enc_header (next_hop h))) with 12%nat. unfold zlen in *. lia.
Qed.

Lemma forward_step ctx :
  fwd_ok w ctx ->
  exists ctx', olsr_msg_forwarding ctx (packet h) (zlen P) src =
      Ok (ctx', packet (if negb (relayed ctx (hdr_key h)) && is_mpr_selector ctx src
                        then next_hop h else h)) /\
    fwd_result w ctx ctx' h payload src.
Proof using Hh Hsize Hk.
  intros Hok. destruct (read_header P h (payload ++ Q) Hh) as (_ & _ & _ & _ & Et & _ & _).
  destruct (dup_entry_ok w ctx (hdr_key h) Hok Hk) as (ctx1 & E1 & H1 & Hin1 & Hr1 & Ho1 & Hf1 & Hb1).
  unfold olsr_msg_forwarding. rewrite read_key by done. cbn [rbind]. rewrite E1. cbn [rbind].
  assert (Hsel : is_mpr_selector ctx1 src = is_mpr_selector ctx src).
  { unfold is_mpr_selector. by rewrite <- Hf1. }
  unfold queued. destruct (relayed ctx (hdr_key h)) eqn:Erel; cbn [negb andb].
  { exists ctx1. split; [done|]. constructor; try done.
    - by rewrite Erel.
    - unfold queued. by rewrite Erel, app_nil_r, Hb1. }
  rewrite Hsel. destruct (is_mpr_selector ctx src) eqn:Esel; cbn [negb].
  2:{ exists ctx1. split; [done|]. constructor; try done.
      - by rewrite Erel, Esel, Hr1.
      - unfold queued. by rewrite Erel, Esel, app_nil_r, Hb1. }
  destruct (mark_ok w ctx1 (hdr_key h) H1 Hk Hin1) as (H2 & Hin2 & Hr2 & Ho2). cbv zeta in *.
  set (ctx2 := set_dup_tree ctx1 _) in *. rewrite Et. cbn [rbind].
  assert (Hb2 : olsr_tx_msgbuf ctx2 = olsr_tx_msgbuf ctx) by done.
  pose proof (write_next_hop P h (payload ++ Q)) as Ew.
  destruct (wr8 (packet h) (zlen P + 8) (ttl h - 1)) as [b| | |]; try discriminate Ew.
  cbn [rbind] in *. destruct (msg_hopcnt b (zlen P)) as [hc| | |]; try discriminate Ew.
  cbn [rbind] in *. rewrite Ew. cbn [rbind].
  destruct (read_header P (next_hop h) (payload ++ Q) (next_hop_ok h Hh)) as (_ & _ & _ & _ & -> & _).
  cbn [rbind].
  destruct (push_message ctx2 (fwd_ring _ _ H2)) as (rb & Hrun & Hwf & Hc). rewrite Hrun.
  exists (set_olsr_tx_msgbuf ctx2 rb). split; [done|]. constructor.
  - split; [apply H2|done].
  - done.
  - rewrite Esel, orb_true_r. exact Hr2.
  - intros k Hkw Hne. transitivity (rbtree_search (dup_tree ctx1) k); [by apply Ho2|by apply Ho1].
  - cbn [olsr_tx_msgbuf set_olsr_tx_msgbuf]. rewrite Hc, Hb2. unfold queued. rewrite Erel, Esel.
    unfold room. by rewrite Hb2.
  - unfold same_but_fwd in *. unfold ctx2. rewrite <- Hf1. by destruct ctx.
Qed.
End Step.

(** ** Sequences of received messages *)

(** A received message: its sender, its bytes, and what surrounds it. *)
Record rx_msg : Type := mkRx {
  rx_src : Z; rx_hdr : OlsrMsgHeader; rx_payload : list Z; rx_before : list Z; rx_after : list Z
}.
Definition rx_ok (w : Z) (m : rx_msg) : Prop :=
  hdr_ok (rx_hdr m) /\ olsr_msgsize (rx_hdr m) = 12 + zlen (rx_payload m) /\
  dupkey_in_window w (hdr_key (rx_hdr m)).
Definition rx_key (m : rx_msg) : DuplicateSetKey := hdr_key (rx_hdr m).

(** The bytes a relay sends on. *)
Definition relayed_bytes (m : rx_msg) : list Z := enc_header (next_hop (rx_hdr m)) ++ rx_payload m.

Fixpoint forward_all (ctx : OlsrContext) (ms : list rx_msg) : res OlsrContext :=
  match ms with
  | [] => Ok ctx
  | m :: ms' =>
    let* r := olsr_msg_forwarding ctx
      (rx_before m ++ enc_header (rx_hdr m) ++ rx_payload m ++ rx_after m)
      (zlen (rx_before m)) (rx_src m) in
    forward_all (fst r) ms'
  end.

#[export] Instance dup_key_eq_dec : EqDecision DuplicateSetKey.
Proof. solve_decision. Defined.

(** The messages of [ms] that were queued: a selection, in order, with at most
    one message per key, and only from senders that chose this node. *)
Record forwarded (ctx : OlsrContext) (ms log : list rx_msg) : Prop := {
  fw_sub : sublist log ms;
  fw_once : List.NoDup (map rx_key log);
  fw_new : forall m, In m log -> relayed ctx (rx_key m) = false /\
    is_mpr_selector ctx (rx_src m) = true /\ ttl (next_hop (rx_hdr m)) <> 0
}.

Lemma forward_all_spec w ms : forall ctx,
  fwd_ok w ctx -> Forall (rx_ok w) ms ->
  exists ctx' log, forward_all ctx ms = Ok ctx' /\ fwd_ok w ctx' /\
    contents (olsr_tx_msgbuf ctx') =
      contents (olsr_tx_msgbuf ctx) ++ concat (map relayed_bytes log) /\
    forwarded ctx ms log /\
    (forall m, In m ms -> is_mpr_selector ctx (rx_src m) = true -> relayed ctx' (rx_key m) = true) /\
    (forall k, dupkey_in_window w k -> relayed ctx k = true -> relayed ctx' k = true).
Proof.
  induction ms as [|m ms IH]; intros ctx Hok Hms.
  { exists ctx, []. cbn. rewrite app_nil_r. split; [done|]. split; [done|]. split; [done|].
    split; [split; [done|constructor|by intros ? []]|]. split; [by intros ? []|done]. }
  inversion Hms as [|? ? (Hh & Hs & Hk) Hms']; subst. cbn [forward_all].
  destruct (forward_step w (rx_before m) (rx_after m) (rx_payload m) (rx_hdr m) (rx_src m)
    Hh Hs Hk ctx Hok) as (ctx1 & -> & [Hok1 _ Hrel Hoth Hq Hf]). cbn [rbind fst].
  assert (Hsel : forall a, is_mpr_selector ctx1 a = is_mpr_selector ctx a).
  { intros a. unfold is_mpr_selector. unfold same_but_fwd in Hf. by rewrite <- Hf. }
  destruct (IH ctx1 Hok1 Hms') as (ctx' & log & Hrun & Hok' & Hc & [Hsub Hnd Hnew] & Hall & Hmono).
  assert (Hkeep : forall k, dupkey_in_window w k -> relayed ctx k = true -> relayed ctx1 k = true).
  { intros k Hkw Hkr. destruct (decide (k = rx_key m)) as [->|Hne]; [by unfold rx_key in *; rewrite Hrel, Hkr|].
    unfold relayed. rewrite Hoth by done. exact Hkr. }
  assert (Hin : forall x, In x log -> rx_ok w x).
  { intros x Hx. rewrite List.Forall_forall in Hms'. apply Hms'.
    apply list_elem_of_In in Hx. apply list_elem_of_In. by eapply elem_of_sublist. }
  assert (Hback : forall x, In x log -> relayed ctx (rx_key x) = false).
  { intros x Hx. destruct (relayed ctx (rx_key x)) eqn:E; [|done].
    apply Hkeep in E; [|by apply Hin]. by rewrite (proj1 (Hnew x Hx)) in E. }
  exists ctx', (if queued ctx (rx_hdr m) (rx_src m) then m :: log else log).
  split; [done|]. split; [done|]. split; [|split; [|split]].
  - rewrite Hc, Hq, <- app_assoc. f_equal. destruct (queued _ _ _); done.
  - destruct (queued ctx (rx_hdr m) (rx_src m)) eqn:Eq.
    + unfold queued in Eq. apply andb_prop in Eq as [Eq _]. apply andb_prop in Eq as [Eq Ettl].
      apply andb_prop in Eq as [Er Es]. apply negb_true_iff in Er, Ettl. apply Z.eqb_neq in Ettl.
      split; [by constructor| |].
      * cbn. constructor; [|done]. intros Hi. apply in_map_iff in Hi as (x & Ex & Hx).
        pose proof (proj1 (Hnew x Hx)) as Hx1. rewrite Ex in Hx1. unfold rx_key in Hx1.
        rewrite Hrel, Es, orb_true_r in Hx1. done.
      * intros x [<-|Hx]; [done|]. split; [by apply Hback|]. rewrite <- Hsel. apply (Hnew x Hx).
    + split; [by constructor|done|]. intros x Hx. split; [by apply Hback|].
      rewrite <- Hsel. apply (Hnew x Hx).
  - intros x [<-|Hx] Hs'; [|apply Hall; [done|by rewrite Hsel]].
    apply Hmono; [done|]. unfold rx_key. by rewrite Hrel, Hs', orb_true_r.
  - intros k Hkw Hkr. apply Hmono; [done|]. by apply Hkeep.
Qed.

(** C21: A message is relayed at most once.  Whatever messages arrive, in
    whatever order and from whomever, forwarding them returns without undefined
    behaviour; what enters the transmit queue is, in order, a selection of these
    messages in which no originator and sequence number occurs twice, none was
    relayed before, and all came from nodes that chose this one as their relay;
    each carries a time to live one lower and a hop count one higher, the rest of
    its bytes unchanged; and afterwards every message that such a node sent is
    marked as relayed. *)
Theorem olsr_msg_forwarding_at_most_once (w : Z) (ctx : OlsrContext) (ms : list rx_msg)
  (H : fwd_ok w ctx) (Hms : Forall (rx_ok w) ms) :
  exists ctx' log, forward_all ctx ms = Ok ctx' /\ fwd_ok w ctx' /\
    contents (olsr_tx_msgbuf ctx') =
      contents (olsr_tx_msgbuf ctx) ++ concat (map relayed_bytes log) /\
    forwarded ctx ms log /\
    (forall m, In m ms -> is_mpr_selector ctx (rx_src m) = true -> relayed ctx' (rx_key m) = true).
Proof.
  destruct (forward_all_spec w ms ctx H Hms) as (ctx' & log & ? & ? & ? & ? & ? & _).
  by exists ctx', log.
Qed.

(** Two copies of one message from a selector, and a message of another node. *)
Definition ex_fwd_ctx : OlsrContext :=
  set_selector_tree (init_olsr_context 1 zero_stats (fun _ => mkTimespec 0 0) (fun _ => 0)
    (repeat 0 2001)) [mkSelector 2 1].
Definition ex_fwd_hdr : OlsrMsgHeader := mkHdr 2 0x87 14 7 64 0 300.
Definition ex_fwd_msgs : list rx_msg :=
  [mkRx 2 ex_fwd_hdr [1; 2] [] [9]; mkRx 3 (mkHdr 2 0x87 12 8 64 0 5) [] [9] [];
   mkRx 2 ex_fwd_hdr [1; 2] [9; 9] []].

Example ex_forward_once :
  match forward_all ex_fwd_ctx ex_fwd_msgs with
  | Ok c => contents (olsr_tx_msgbuf c) =
      [2; 0x87; 0; 14; 7; 0; 0; 0; 63; 1; 1; 44; 1; 2] | _ => False end.
Proof. vm_compute. reflexivity. Qed.

Lemma olsr_msg_forwarding_at_most_once_witness :
  fwd_ok 0 ex_fwd_ctx /\ Forall (rx_ok 0) ex_fwd_msgs /\
  exists ctx' log, forward_all ex_fwd_ctx ex_fwd_msgs = Ok ctx' /\ fwd_ok 0 ctx' /\
    contents (olsr_tx_msgbuf ctx') =
      contents (olsr_tx_msgbuf ex_fwd_ctx) ++ concat (map relayed_bytes log) /\
    forwarded ex_fwd_ctx ex_fwd_msgs log /\
    (forall m, In m ex_fwd_msgs -> is_mpr_selector ex_fwd_ctx (rx_src m) = true ->
       relayed ctx' (rx_key m) = true).
Proof.
  assert (H : fwd_ok 0 ex_fwd_ctx).
  { split; [apply tree_ok_nil|]. unfold RingBuffer.wf. vm_compute. intuition discriminate. }
  assert (Hms : Forall (rx_ok 0) ex_fwd_msgs).
  { repeat constructor; vm_compute; intuition discriminate. }
  split; [exact H|]. split; [exact Hms|].
  apply (olsr_msg_forwarding_at_most_once 0 ex_fwd_ctx ex_fwd_msgs H Hms).
Defined.
