(* ===== verification/OlsrRoute.v ===== *)
(** Sending and receiving (simnet/olsr/olsr_route.c).

    The periodic callbacks build messages into a stack buffer and queue them;
    [olsr_send_from_queue_cb] wraps all that is queued into one UDP broadcast;
    [handle_route_pkt] takes such a packet apart; the data functions route IP
    packets with the minimal encapsulation.  An uninitialised stack buffer is the
    parameter [junk], so the theorems hold whatever it contains. *)
From S2P Require Import Prelude OrdTree RingBuffer TimerQueue OlsrContext OlsrSpf OlsrMantissa NetUtil OlsrNeighbor OlsrMpr OlsrHello OlsrTc OlsrForwarding.
From stdpp Require Import base list numbers gmap.
From Stdlib Require Import ZArith Lia.
Open Scope Z_scope.
Open Scope c_scope.

(** [conf.send_remote(data, length)] and [conf.send_local(data, length)]. *)
Definition send_remote (ctx : OlsrContext) (b : list Z) (len : Z) : res OlsrContext :=
  let* frame := zslice b 0 len in Ok (set_outs ctx (outs ctx ++ [SendRemote frame])).
Definition send_local (ctx : OlsrContext) (b : list Z) (len : Z) : res OlsrContext :=
  let* frame := zslice b 0 len in Ok (set_outs ctx (outs ctx ++ [SendLocal frame])).

(** ** Sending *)
Definition broadcast_ip : Z := MAKE_BE32_IP 255 255 255 255.

(** [junk] is [pkt.data]. *)
Definition olsr_send_from_queue_cb (ctx : OlsrContext) (junk : list Z) : res OlsrContext :=
  let read := RingBuffer_get_readable_bufsize (olsr_tx_msgbuf ctx) in
  if read <=? 0 then Ok ctx
  else
    let payload_len := read + 4 in
    let* b := build_ip_hdr junk 0 (IPUDP_HDRLEN + payload_len) 64 (own_ip ctx) broadcast_ip
                IPPROTO_UDP in
    let* b := build_udp_hdr_no_checksum b sizeof_iphdr OLSR_PROTO_PORT OLSR_PROTO_PORT payload_len in
    let offset := IPUDP_HDRLEN in
    let* b := zblit b offset (le16 (htons (4 + read))) in
    let* b := zblit b (offset + 2) (le16 (htons (msg_seq ctx))) in
    let* r := RingBuffer_pop (olsr_tx_msgbuf ctx) read in
    let '(rb, bytes, _) := r in
    let* b := zblit b (offset + 4) bytes in
    let* ctx := send_remote (set_olsr_tx_msgbuf ctx rb) b (offset + 4 + read) in
    Ok (set_msg_seq ctx (u16 (msg_seq ctx + 1))).

(** The header of an own message, the body, the size, and into the queue.  [body]
    is [build_olsr_hello] or [build_olsr_tc]. *)
Definition queue_own_msg (ctx : OlsrContext) (junk : list Z) (msgtype vtime_ms ttl : Z)
  (body : OlsrContext -> list Z -> Z -> res (OlsrContext * list Z * Z)) : res OlsrContext :=
  let* b := wr8 junk 0 msgtype in
  let* vt := reltime_to_me vtime_ms in
  let* b := wr8 b 1 vt in
  let* b := wr32 b 4 (own_ip ctx) in
  let* b := wr8 b 8 ttl in
  let* b := wr8 b 9 0 in
  let* b := wr16 b 10 (htons (msg_seq ctx)) in
  let* r := body ctx b sizeof_OlsrMsgHeader in
  let '(ctx, b, len) := r in
  let msglen := u16 (sizeof_OlsrMsgHeader + len) in
  let* b := wr16 b 2 (htons msglen) in
  let* r := RingBuffer_push (olsr_tx_msgbuf ctx) b msglen in
  Ok (set_olsr_tx_msgbuf ctx (fst r)).

Definition olsr_hello_timer_cb (ctx : OlsrContext) (junk : list Z) : res OlsrContext :=
  queue_own_msg ctx junk MSG_TYPE_HELLO DEF_HELLO_VTIME 1
    (fun ctx b buf => let* r := build_olsr_hello ctx b buf in Ok (ctx, fst r, snd r)).

Definition olsr_tc_timer_cb (ctx : OlsrContext) (junk : list Z) : res OlsrContext :=
  queue_own_msg ctx junk MSG_TYPE_TC DEF_TC_VTIME 64 build_olsr_tc.

(** The four periodic timers, on the first start of the module (their static
    pointers are null). *)
Definition olsr_start_timer (ctx : OlsrContext) : res OlsrContext :=
  let start ctx jitter interval cb :=
    let* r := with_tq ctx (fun tq => start_timer tq jitter interval 0 (fun _ => cb)) in Ok (fst r) in
  let hello := hello_interval_ms (param ctx) * 1000 in
  let tc := tc_interval_ms (param ctx) * 1000 in
  let* ctx := start ctx (Z.quot hello 8) hello Cb_olsr_hello_timer in
  let* ctx := start ctx (Z.quot tc 8) tc Cb_olsr_tc_timer in
  let* ctx := start ctx 0 (50 * 1000) Cb_olsr_send_from_queue in
  start ctx (100 * 1000) (6000 * 1000) Cb_dump_debuginfo.

(** ** Receiving *)
Definition is_already_processed (ctx : OlsrContext) (b : list Z) (msg : Z) : res bool :=
  let* dkey := msg_key b msg in
  Ok match rbtree_search (dup_tree ctx) dkey with Some _ => true | None => false end.

Definition process_olsr_msg (ctx : OlsrContext) (b : list Z) (msg src : Z) : res OlsrContext :=
  let* dup := is_already_processed ctx b msg in
  if (dup : bool) then Ok ctx
  else
    let* v := msg_vtime b msg in
    let vtime := me_to_reltime v in
    let* msgsize := msg_size b msg in
    let payloadsize := u16 (msgsize - sizeof_OlsrMsgHeader) in
    let* t := msg_type b msg in
    let* orig := msg_originator b msg in
    if t =? MSG_TYPE_HELLO then
      process_olsr_hello ctx src orig b (msg + sizeof_OlsrMsgHeader) vtime payloadsize
    else if t =? MSG_TYPE_TC then
      process_olsr_tc ctx b (msg + sizeof_OlsrMsgHeader) payloadsize src orig vtime
    else Ok ctx.

(** The context and the block, which forwarding writes to. *)
Definition handle_olsr_msg (ctx : OlsrContext) (b : list Z) (msg src : Z)
  : res (OlsrContext * list Z) :=
  let* orig := msg_originator b msg in
  if orig =? own_ip ctx then Ok (ctx, b)
  else
    let* ctx := process_olsr_msg ctx b msg src in
    let* t := msg_ttl b msg in
    if 1 <? t then olsr_msg_forwarding ctx b msg src else Ok (ctx, b).

(** The loop over the messages of a packet; [off] is [offset - payload_offset]. *)
Fixpoint handle_msgs (fuel : nat) (ctx : OlsrContext) (b : list Z) (payload_len off : Z)
  : res (OlsrContext * list Z) :=
  if off <? payload_len then
    match fuel with
    | O => NoFuel
    | S n =>
      let* msgsize := msg_size b (IPUDP_HDRLEN + off) in
      if msgsize =? 0 then Exit 2
      else
        let* src := iph_saddr b 0 in
        let* r := handle_olsr_msg ctx b (IPUDP_HDRLEN + off) src in
        handle_msgs n (fst r) (snd r) payload_len (off + msgsize)
    end
  else Ok (ctx, b).

Definition handle_route_pkt (ctx : OlsrContext) (pkt : PacketBuf) : res OlsrContext :=
  let payload_len := i32 (u64 (pkt_length pkt - IPUDP_HDRLEN)) in
  if payload_len <=? 0 then Ok ctx
  else
    let* r := handle_msgs (Z.to_nat payload_len) ctx (data pkt) payload_len 4 in
    Ok (fst r).

(** ** Data packets *)

(** [junk] is the encapsulation buffer. *)
Definition ip_route (ctx : OlsrContext) (pkt : PacketBuf) (from_local : bool) (junk : list Z)
  : res OlsrContext :=
  let* daddr := iph_daddr (data pkt) 0 in
  match rbtree_search (routing_table ctx) daddr with
  | None => Ok ctx
  | Some entry =>
    if (hop_count entry =? 1) && from_local then send_remote ctx (data pkt) (pkt_length pkt)
    else
      let* nexthop := deref (List.hd_error (route entry)) in
      let* encap := minimal_mip_encap pkt {| pkt_length := 0; data := junk |} (own_ip ctx) nexthop in
      send_remote ctx (data encap) (pkt_length encap)
  end.

(** [junk] and [junk'] are the decapsulation buffer and the one of [ip_route]. *)
Definition handle_remote_data_pkt (ctx : OlsrContext) (pkt : PacketBuf) (junk junk' : list Z)
  : res OlsrContext :=
  let* daddr := iph_daddr (data pkt) 0 in
  if negb (IP_C_CLASS_MATCH (own_ip ctx) daddr) then Ok ctx
  else
    let* proto := iph_protocol (data pkt) 0 in
    if proto =? IPPROTO_MOBILE then
      let* decap := minimal_mip_decap pkt {| pkt_length := 0; data := junk |} in
      let* daddr := iph_daddr (data decap) 0 in
      if IP_C_CLASS_MATCH (own_ip ctx) daddr
      then send_local ctx (data decap) (pkt_length decap)
      else ip_route ctx decap false junk'
    else send_local ctx (data pkt) (pkt_length pkt).

Definition handle_local_data_pkt (ctx : OlsrContext) (pkt : PacketBuf) (junk : list Z)
  : res OlsrContext :=
  let* daddr := iph_daddr (data pkt) 0 in
  if IP_C_CLASS_MATCH (own_ip ctx) daddr then Ok ctx
  else ip_route ctx pkt true junk.

(** ** Emptying the transmit queue *)
Lemma build_udp_hdr_at a x rest sp dp n :
  zlen x = 8 ->
  build_udp_hdr_no_checksum (a ++ x ++ rest) (zlen a) sp dp n =
    Ok (a ++ (le16 (htons sp) ++ le16 (htons dp) ++ le16 (htons (8 + u16 n)) ++ [0; 0]) ++ rest).
Proof.
  intros Hx. explode x 8%nat.
  assert (E : build_udp_hdr_no_checksum ([z; z0; z1; z2; z3; z4; z5; z6] ++ rest) 0 sp dp n =
    Ok ((le16 (htons sp) ++ le16 (htons dp) ++ le16 (htons (8 + u16 n)) ++ [0; 0]) ++ rest)).
  { unfold build_udp_hdr_no_checksum. run_blits. reflexivity. }
  revert E. generalize ([z; z0; z1; z2; z3; z4; z5; z6] ++ rest) as b,
    ((le16 (htons sp) ++ le16 (htons dp) ++ le16 (htons (8 + u16 n)) ++ [0; 0]) ++ rest) as b'.
  intros b b' E. unfold build_udp_hdr_no_checksum in *.
  rewrite <- (Z.add_0_r (zlen a)), <- !(Z.add_assoc (zlen a)). shift_run E. by rewrite E.
Qed.

(** The packet the queued bytes [cs] travel in; the IP header is the only part
    that is not written out. *)
Definition olsr_frame (ip cs : list Z) (seq : Z) : list Z :=
  ip ++ (le16 (htons OLSR_PROTO_PORT) ++ le16 (htons OLSR_PROTO_PORT) ++
         le16 (htons (8 + (zlen cs + 4))) ++ [0; 0]) ++
  (le16 (htons (4 + zlen cs)) ++ le16 (htons seq)) ++ cs.

(** A frame of the module [own] with the bytes [cs]. *)
Definition is_olsr_frame (own seq : Z) (cs f : list Z) : Prop :=
  exists ip, f = olsr_frame ip cs seq /\ zlen ip = 20 /\ Forall is_u8 ip /\ calc_ip_checksum ip = 0 /\
    ip_hdr_reads ip 5 (32 + zlen cs) IPPROTO_UDP own broadcast_ip.

Lemma pop_all rb :
  RingBuffer.wf rb ->
  exists rb', RingBuffer_pop rb (zlen (contents rb)) = Ok (rb', contents rb, zlen (contents rb)) /\
    RingBuffer.wf rb' /\ contents rb' = [] /\ RingBuffer.size rb' = RingBuffer.size rb.
Proof.
  intros Hwf. pose proof (zlen_nonneg (contents rb)).
  destruct (read_spec rb (zlen (contents rb)) true Hwf) as (rb' & E & Hwf' & Habs); [done|].
  unfold RingBuffer_pop. rewrite E. unfold spec_read in *. cbn [abs items cap] in *.
  rewrite Z.ltb_irrefl in *. cbn [fst snd] in *. unfold zlen in Habs |- *. rewrite Nat2Z.id in *.
  rewrite firstn_all in *. rewrite drop_all in Habs. exists rb'. split; [done|]. split; [done|].
  split; [by apply (f_equal items) in Habs|by apply (f_equal cap) in Habs].
Qed.

Lemma send_from_queue_ok ctx junk :
  RingBuffer.wf (olsr_tx_msgbuf ctx) -> RingBuffer.size (olsr_tx_msgbuf ctx) <= OLSR_TX_MSGBUF_SIZE ->
  is_u32 (own_ip ctx) -> zlen junk = PKT_DATA_SIZE -> contents (olsr_tx_msgbuf ctx) <> [] ->
  exists rb f, olsr_send_from_queue_cb ctx junk =
      Ok (set_msg_seq (set_outs (set_olsr_tx_msgbuf ctx rb) (outs ctx ++ [SendRemote f]))
            (u16 (msg_seq ctx + 1))) /\
    RingBuffer.wf rb /\ contents rb = [] /\ RingBuffer.size rb = RingBuffer.size (olsr_tx_msgbuf ctx) /\
    is_olsr_frame (own_ip ctx) (msg_seq ctx) (contents (olsr_tx_msgbuf ctx)) f.
Proof.
  intros Hwf Hsz Ho Hj Hne. pose proof (used_range _ Hwf) as Hu. pose proof (zlen_contents _ Hwf) as Hc.
  destruct (pop_all _ Hwf) as (rb & Epop & Hwf' & Hc' & Hsz').
  set (cs := contents (olsr_tx_msgbuf ctx)) in *. unfold OLSR_TX_MSGBUF_SIZE, PKT_DATA_SIZE in *.
  unfold MAX_IPPKT_SIZE, MAX_ETHER_HEADER_MARGIN in *.
  assert (Hpos : 0 < zlen cs).
  { destruct (Z.eq_dec (zlen cs) 0) as [E|]; [by apply zlen_0 in E|]. pose proof (zlen_nonneg cs). lia. }
  destruct (zcut junk 20) as (j1 & r1 & -> & H1); [lia|]. rewrite zlen_app in Hj.
  destruct (zcut r1 8) as (j2 & r2 & -> & H2); [lia|]. rewrite zlen_app in Hj.
  destruct (zcut r2 2) as (j3 & r3 & -> & H3); [lia|]. rewrite zlen_app in Hj.
  destruct (zcut r3 2) as (j4 & r4 & -> & H4); [lia|]. rewrite zlen_app in Hj.
  destruct (zcut r4 (zlen cs)) as (j5 & r5 & -> & H5); [lia|].
  destruct (build_ip_hdr_at0 j1 (j2 ++ j3 ++ j4 ++ j5 ++ r5) (IPUDP_HDRLEN + (zlen cs + 4)) 64
    (own_ip ctx) broadcast_ip IPPROTO_UDP) as (ip & Eip & Hip & Hipu & Hck & Hrd);
    [done|done|vm_compute; split; [discriminate|reflexivity]|vm_compute; split; [discriminate|reflexivity]|].
  exists rb, (olsr_frame ip cs (msg_seq ctx)). split; [|split; [done|split; [done|split; [done|]]]].
  2:{ exists ip. do 4 (split; [done|]). replace (32 + zlen cs) with (IPUDP_HDRLEN + (zlen cs + 4))
        by (unfold IPUDP_HDRLEN, sizeof_iphdr, sizeof_udphdr; lia). done. }
  unfold olsr_send_from_queue_cb. rewrite readable_used, <- Hc by done.
  destruct (Z.leb_spec (zlen cs) 0); [lia|]. rewrite Eip. cbn [rbind].
  replace sizeof_iphdr with (zlen ip) by done. rewrite build_udp_hdr_at by done. cbn [rbind].
  rewrite (u16_id (zlen cs + 4)) by (unfold is_u16; lia).
  set (udp := le16 _ ++ _). assert (Hudp : zlen udp = 8) by done.
  replace IPUDP_HDRLEN with (zlen (ip ++ udp)) by (rewrite zlen_app, Hip, Hudp; done).
  rewrite (app_assoc ip), (zblit_app (ip ++ udp) j3) by done. cbn [rbind].
  rewrite (app_assoc (ip ++ udp)), (zblit_app ((ip ++ udp) ++ le16 (htons (4 + zlen cs))) j4)
    by (done || by rewrite (zlen_app (ip ++ udp))). cbn [rbind]. rewrite Epop. cbn [rbind].
  rewrite (app_assoc ((ip ++ udp) ++ le16 (htons (4 + zlen cs)))),
    (zblit_app (((ip ++ udp) ++ le16 (htons (4 + zlen cs))) ++ le16 (htons (msg_seq ctx))) j5)
    by (rewrite ?zlen_app, ?zlen_le16; lia). cbn [rbind].
  unfold send_remote. rewrite (zslice_prefix _ (olsr_frame ip cs (msg_seq ctx)) r5).
  - reflexivity.
  - unfold olsr_frame. fold udp. by rewrite <- !app_assoc.
  - unfold olsr_frame. fold udp. rewrite !zlen_app, !zlen_le16. lia.
Qed.

(** ** Taking a packet apart *)
Definition msg_wf (m : OlsrMsgHeader * list Z) : Prop :=
  hdr_ok (fst m) /\ olsr_msgsize (fst m) = 12 + zlen (snd m).
Definition enc_msg (m : OlsrMsgHeader * list Z) : list Z := enc_header (fst m) ++ snd m.
Definition enc_msgs (ms : list (OlsrMsgHeader * list Z)) : list Z := concat (map enc_msg ms).

Lemma zlen_enc_msg m : zlen (enc_msg m) = 12 + zlen (snd m).
Proof. unfold enc_msg. by rewrite zlen_app, zlen_enc_header. Qed.

(** The messages [ms], handled one after the other where they lie: [P] is what
    lies before them in the block and [T] what follows. *)
Fixpoint handle_list (ctx : OlsrContext) (src : Z) (P : list Z) (ms : list (OlsrMsgHeader * list Z))
  (T : list Z) : res OlsrContext :=
  match ms with
  | [] => Ok ctx
  | m :: ms' =>
    let* r := handle_olsr_msg ctx (P ++ enc_msg m ++ enc_msgs ms' ++ T) (zlen P) src in
    handle_list (fst r) src (take (length P + length (enc_msg m)) (snd r)) ms' T
  end.

(** Handling a message changes at most its time to live and hop count. *)
Lemma forwarding_block ctx P h X src ctx' b' :
  hdr_ok h -> olsr_msg_forwarding ctx (P ++ enc_header h ++ X) (zlen P) src = Ok (ctx', b') ->
  b' = P ++ enc_header h ++ X \/ b' = P ++ enc_header (next_hop h) ++ X.
Proof.
  intros Hh. unfold olsr_msg_forwarding. rewrite read_key by done. cbn [rbind].
  intros E. apply rbind_ok in E as ([c done] & _ & E). destruct done; [inv_ok; by left|].
  destruct (negb (is_mpr_selector c src)); [inv_ok; by left|]. right.
  destruct (read_header P h X Hh) as (_ & _ & _ & _ & Et & _). rewrite Et in E. cbn [rbind] in E.
  pose proof (write_next_hop P h X) as Ew.
  destruct (wr8 (P ++ enc_header h ++ X) (zlen P + 8) (ttl h - 1)) as [b| | |]; try discriminate Ew.
  cbn [rbind] in *. destruct (msg_hopcnt b (zlen P)) as [hc| | |]; try discriminate Ew.
  cbn [rbind] in *. rewrite Ew in E. cbn [rbind] in E.
  apply rbind_ok in E as (t & _ & E). destruct (t =? 0); [by inv_ok|].
  apply rbind_ok in E as (n & _ & E). apply rbind_ok in E as (r & _ & E). by inv_ok.
Qed.

Lemma handle_msg_block ctx P h X src ctx' b' :
  hdr_ok h -> handle_olsr_msg ctx (P ++ enc_header h ++ X) (zlen P) src = Ok (ctx', b') ->
  exists h', hdr_ok h' /\ b' = P ++ enc_header h' ++ X.
Proof.
  intros Hh. unfold handle_olsr_msg. destruct (read_header P h X Hh) as (_ & _ & _ & -> & Et & _).
  cbn [rbind]. destruct (originator h =? own_ip ctx); [intros; inv_ok; eauto|].
  intros E. apply rbind_ok in E as (c & _ & E). rewrite Et in E. cbn [rbind] in E.
  destruct (1 <? ttl h); [|inv_ok; eauto].
  apply forwarding_block in E as [->| ->]; [eauto..|done]. exists (next_hop h).
  split; [by apply next_hop_ok|done].
Qed.

Lemma handle_msgs_list ms : forall ctx P T src off fuel,
  Forall msg_wf ms -> zlen P = IPUDP_HDRLEN + off -> 0 <= off -> iph_saddr P 0 = Ok src ->
  (length ms <= fuel)%nat ->
  (let* r := handle_msgs fuel ctx (P ++ enc_msgs ms ++ T) (off + zlen (enc_msgs ms)) off in Ok (fst r)) =
  handle_list ctx src P ms T.
Proof.
  induction ms as [|m ms IH]; intros ctx P T src off fuel Hms HP Hoff Hs Hf.
  { cbn [enc_msgs map concat app handle_list]. change (zlen (@nil Z)) with 0.
    destruct fuel; cbn [handle_msgs]; destruct (Z.ltb_spec off (off + 0)); (lia || done). }
  inversion Hms as [|? ? [Hh Hsize] Hms']; subst. destruct fuel as [|fuel]; [cbn in Hf; lia|].
  change (enc_msgs (m :: ms)) with (enc_msg m ++ enc_msgs ms). rewrite <- app_assoc.
  pose proof (zlen_nonneg (snd m)). pose proof (zlen_nonneg (enc_msgs ms)).
  cbn [handle_msgs handle_list]. rewrite zlen_app, zlen_enc_msg.
  destruct (Z.ltb_spec off (off + (12 + zlen (snd m) + zlen (enc_msgs ms)))) as [_|]; [|lia].
  rewrite <- HP.
  assert (Eb : P ++ enc_msg m ++ enc_msgs ms ++ T = P ++ enc_header (fst m) ++ (snd m ++ enc_msgs ms ++ T))
    by (unfold enc_msg; by rewrite <- !app_assoc).
  rewrite Eb. destruct (read_header P (fst m) (snd m ++ enc_msgs ms ++ T) Hh) as (_ & _ & -> & _).
  cbn [rbind]. rewrite Hsize. destruct (Z.eqb_spec (12 + zlen (snd m)) 0); [lia|].
  assert (Hs0 : iph_saddr (P ++ enc_header (fst m) ++ snd m ++ enc_msgs ms ++ T) 0 = Ok src).
  { unfold iph_saddr in *. rewrite rd32_app by (unfold IPUDP_HDRLEN, sizeof_iphdr, sizeof_udphdr in *; lia).
    done. }
  rewrite Hs0. cbn [rbind].
  destruct (handle_olsr_msg ctx (P ++ enc_header (fst m) ++ snd m ++ enc_msgs ms ++ T) (zlen P) src)
    as [[ctx' b']| | |] eqn:Eh; try done. cbn [rbind fst snd].
  apply handle_msg_block in Eh as (h' & Hh' & ->); [|done].
  rewrite (app_assoc (enc_header h')), (app_assoc P).
  rewrite take_app_length' by (rewrite !length_app; unfold enc_msg; rewrite length_app;
    change (length (enc_header h')) with 12%nat; change (length (enc_header (fst m))) with 12%nat; lia).
  rewrite <- (IH ctx' (P ++ enc_header h' ++ snd m) T src (off + (12 + zlen (snd m))) fuel Hms').
  - do 2 f_equal; lia.
  - rewrite !zlen_app, zlen_enc_header. lia.
  - lia.
  - unfold iph_saddr in *. rewrite rd32_app by (unfold IPUDP_HDRLEN, sizeof_iphdr, sizeof_udphdr in *; lia).
    done.
  - cbn in Hf. lia.
Qed.

Lemma length_enc_msgs ms : 12 * zlen ms <= zlen (enc_msgs ms).
Proof.
  induction ms as [|m ms IH]; [done|]. change (enc_msgs (m :: ms)) with (enc_msg m ++ enc_msgs ms).
  rewrite zlen_app, zlen_cons, zlen_enc_msg. pose proof (zlen_nonneg (snd m)). lia.
Qed.

Lemma handle_frame ctx own seq ms f tl :
  is_olsr_frame own seq (enc_msgs ms) f -> Forall msg_wf ms -> ms <> [] ->
  zlen (enc_msgs ms) <= OLSR_TX_MSGBUF_SIZE ->
  exists P, zlen P = 32 /\ f ++ tl = P ++ enc_msgs ms ++ tl /\
    handle_route_pkt ctx {| pkt_length := zlen f; data := f ++ tl |} = handle_list ctx own P ms tl.
Proof.
  intros (ip & -> & Hip & _ & _ & Hrd) Hms Hne Hlen. pose proof (length_enc_msgs ms) as Hl.
  assert (0 < zlen ms) by (destruct ms; [done|rewrite zlen_cons; pose proof (zlen_nonneg ms); lia]).
  unfold OLSR_TX_MSGBUF_SIZE in Hlen.
  set (udp := le16 (htons OLSR_PROTO_PORT) ++ le16 (htons OLSR_PROTO_PORT) ++
    le16 (htons (8 + (zlen (enc_msgs ms) + 4))) ++ [0; 0]).
  set (hd := le16 (htons (4 + zlen (enc_msgs ms))) ++ le16 (htons seq)).
  exists (ip ++ udp ++ hd). split; [rewrite !zlen_app, Hip; done|].
  assert (Eb : olsr_frame ip (enc_msgs ms) seq ++ tl = (ip ++ udp ++ hd) ++ enc_msgs ms ++ tl)
    by (unfold olsr_frame; fold udp hd; by rewrite <- !app_assoc).
  split; [done|]. rewrite Eb. unfold handle_route_pkt. cbn [data pkt_length].
  replace (i32 (u64 (zlen (olsr_frame ip (enc_msgs ms) seq) - IPUDP_HDRLEN)))
    with (4 + zlen (enc_msgs ms)).
  2:{ unfold olsr_frame. fold udp hd. rewrite !zlen_app, Hip. change (zlen udp) with 8.
      change (zlen hd) with 4. unfold IPUDP_HDRLEN, sizeof_iphdr, sizeof_udphdr.
      rewrite i32_id; unfold u64; lia. }
  destruct (Z.leb_spec (4 + zlen (enc_msgs ms)) 0); [lia|].
  apply handle_msgs_list; [done| |lia| |unfold zlen in *; lia].
  - rewrite !zlen_app, Hip. done.
  - destruct Hrd as [_ _ _ Hr _]. unfold iph_saddr in *. by rewrite rd32_app by lia.
Qed.

(** C24: What the module sends is what a receiver takes apart.  When the transmit
    queue holds whole messages, the send callback empties it into one broadcast
    UDP frame, whose IP header verifies, and counts the packet; and any node that
    finds this frame in its packet buffer handles exactly these messages, each
    once, in order, at their places, with the sender as the source, and neither
    exits nor runs past the end. *)
Theorem olsr_packet_roundtrip (ctx : OlsrContext) (junk : list Z)
  (ms : list (OlsrMsgHeader * list Z))
  (Hwf : RingBuffer.wf (olsr_tx_msgbuf ctx))
  (Hsize : RingBuffer.size (olsr_tx_msgbuf ctx) <= OLSR_TX_MSGBUF_SIZE)
  (Hown : is_u32 (own_ip ctx)) (Hjunk : zlen junk = PKT_DATA_SIZE)
  (Hq : contents (olsr_tx_msgbuf ctx) = enc_msgs ms) (Hms : Forall msg_wf ms) (Hne : ms <> []) :
  exists ctx' f, olsr_send_from_queue_cb ctx junk = Ok ctx' /\
    outs ctx' = outs ctx ++ [SendRemote f] /\ contents (olsr_tx_msgbuf ctx') = [] /\
    msg_seq ctx' = u16 (msg_seq ctx + 1) /\
    is_olsr_frame (own_ip ctx) (msg_seq ctx) (enc_msgs ms) f /\
    forall rctx tl, exists P, zlen P = 32 /\ f ++ tl = P ++ enc_msgs ms ++ tl /\
      handle_route_pkt rctx {| pkt_length := zlen f; data := f ++ tl |} =
        handle_list rctx (own_ip ctx) P ms tl.
Proof.
  assert (Hlen : zlen (enc_msgs ms) <= OLSR_TX_MSGBUF_SIZE).
  { rewrite <- Hq, zlen_contents by done. pose proof (used_range _ Hwf). lia. }
  destruct (send_from_queue_ok ctx junk Hwf Hsize Hown Hjunk) as (rb & f & E & _ & Hc & _ & Hf).
  { rewrite Hq. intros E. destruct ms as [|m ms]; [done|]. pose proof (length_enc_msgs (m :: ms)) as Hl.
    rewrite E, zlen_cons in Hl. change (zlen (@nil Z)) with 0 in Hl. pose proof (zlen_nonneg ms). lia. }
  rewrite Hq in Hf. eexists _, f. split; [exact E|]. do 4 (split; [done|]).
  intros rctx tl. by apply (handle_frame rctx (own_ip ctx) (msg_seq ctx)).
Qed.

(** Two messages wait. *)
Definition ex_queued : list (OlsrMsgHeader * list Z) :=
  [(mkHdr 9 0 12 7 1 0 5, []); (mkHdr 2 0xe5 14 7 64 0 6, [1; 2])].
Definition ex_send_ctx : OlsrContext :=
  set_olsr_tx_msgbuf (init_olsr_context 7 zero_stats (fun _ => mkTimespec 0 0) (fun _ => 0) [])
    (mkRingBuffer 2000 2000 0 26 (enc_msgs ex_queued ++ repeat 0 1975)).

Lemma olsr_packet_roundtrip_witness :
  exists ctx' f, olsr_send_from_queue_cb ex_send_ctx (repeat 0xcc 2050) = Ok ctx' /\
    outs ctx' = [SendRemote f] /\ contents (olsr_tx_msgbuf ctx') = [] /\ msg_seq ctx' = 1 /\
    is_olsr_frame 7 0 (enc_msgs ex_queued) f /\
    forall rctx tl, exists P, zlen P = 32 /\ f ++ tl = P ++ enc_msgs ex_queued ++ tl /\
      handle_route_pkt rctx {| pkt_length := zlen f; data := f ++ tl |} =
        handle_list rctx 7 P ex_queued tl.
Proof.
  apply (olsr_packet_roundtrip ex_send_ctx (repeat 0xcc 2050) ex_queued).
  - unfold RingBuffer.wf. vm_compute. intuition discriminate.
  - vm_compute. discriminate.
  - vm_compute. split; [discriminate|reflexivity].
  - vm_compute. reflexivity.
  - vm_compute. reflexivity.
  - repeat constructor; vm_compute; (discriminate || reflexivity).
  - discriminate.
Defined.

(** ** The messages of the node itself *)

(** The header of a message before its size is known: two bytes are the buffer's. *)
Definition own_prefix (ctx : OlsrContext) (junk : list Z) (t vt tl : Z) : list Z :=
  [t; vt] ++ take 2 (drop 2 junk) ++ le32 (own_ip ctx) ++ [tl; 0] ++ le16 (htons (msg_seq ctx)).

Lemma zlen_own_prefix ctx junk t vt tl : 12 <= zlen junk -> zlen (own_prefix ctx junk t vt tl) = 12.
Proof.
  intros H. unfold own_prefix. rewrite !zlen_app, zlen_le16. change (zlen (le32 _)) with 4.
  unfold zlen in *. cbn [length]. rewrite length_take, length_drop. lia.
Qed.

Section Own.
Context (ctx ctx1 : OlsrContext) (junk : list Z) (t vt vtime tl : Z)
  (body : OlsrContext -> list Z -> Z -> res (OlsrContext * list Z * Z)) (msg rest' : list Z).
Hypothesis (Hj : 12 <= zlen junk) (Ht : is_u8 t) (Hvt : is_u8 vt) (Htl : is_u8 tl)
  (Hv : reltime_to_me vtime = Ok vt) (Hlen : 12 + zlen msg < 65536)
  (Hbody : body ctx (own_prefix ctx junk t vt tl ++ drop 12 junk) 12 =
     Ok (ctx1, own_prefix ctx junk t vt tl ++ msg ++ rest', zlen msg))
  (Hwf : RingBuffer.wf (olsr_tx_msgbuf ctx1)).

Definition own_header : OlsrMsgHeader :=
  mkHdr t vt (12 + zlen msg) (own_ip ctx) tl 0 (u16 (msg_seq ctx)).

Lemma queue_own_msg_ok :
  exists rb, queue_own_msg ctx junk t vtime tl body = Ok (set_olsr_tx_msgbuf ctx1 rb) /\
    RingBuffer.wf rb /\ RingBuffer.size rb = RingBuffer.size (olsr_tx_msgbuf ctx1) /\
    contents rb = contents (olsr_tx_msgbuf ctx1) ++
      if 12 + zlen msg <=? room ctx1 then enc_msg (own_header, msg) else [].
Proof using All.
  pose proof (zlen_nonneg msg). pose proof (zlen_nonneg rest').
  destruct (zcut junk 12) as (j & jr & Ej & Hj12); [lia|].
  assert (Edrop : drop 12 junk = jr).
  { rewrite Ej. unfold zlen in Hj12. replace 12%nat with (length j) by lia. apply drop_app_length. }
  rewrite Edrop in Hbody. unfold queue_own_msg, sizeof_OlsrMsgHeader. rewrite Hv, Ej.
  explode j 12%nat. run_blits.
  rewrite (u8_id t), (u8_id vt), (u8_id tl) by done. change (u8 0) with 0.
  unfold own_prefix in Hbody. rewrite Ej in Hbody. cbn [app drop take] in Hbody.
  unfold le32, le16 in Hbody. cbn [app] in Hbody. rewrite Hbody. cbn [rbind]. run_blits.
  assert (Hu : u16 (12 + zlen msg) = 12 + zlen msg) by (apply u16_id; unfold is_u16; lia). rewrite Hu.
  match goal with |- context [ RingBuffer_push _ ?d _ ] =>
    assert (Ed : d = enc_msg (own_header, msg) ++ rest') end.
  { unfold enc_msg, enc_header, own_header, le32, le16. cbn [fst snd olsr_msgtype olsr_vtime
      olsr_msgsize originator ttl hopcnt seqno app].
    assert (Es : htons (u16 (msg_seq ctx)) = htons (msg_seq ctx))
      by (unfold htons; rewrite (u16_id (u16 _)) by apply u16_range; done).
    rewrite Es. rewrite <- ?app_assoc. reflexivity. }
  rewrite Ed. assert (Hml : zlen (enc_msg (own_header, msg)) = 12 + zlen msg) by apply zlen_enc_msg.
  destruct (push_spec (olsr_tx_msgbuf ctx1) (enc_msg (own_header, msg) ++ rest') (12 + zlen msg))
    as (rb & -> & Hwf' & Habs); [done|rewrite zlen_app; lia|]. cbn [rbind fst].
  exists rb. split; [done|]. split; [done|].
  pose proof (f_equal cap Habs) as Hcap. apply (f_equal items) in Habs. cbn [items cap abs] in *.
  unfold spec_push, room in *. cbn [abs cap items] in *. set (c := contents (olsr_tx_msgbuf ctx1)) in *.
  destruct (Z.ltb_spec (RingBuffer.size (olsr_tx_msgbuf ctx1) - zlen c) (12 + zlen msg));
    destruct (Z.leb_spec (12 + zlen msg) (RingBuffer.size (olsr_tx_msgbuf ctx1) - zlen c)); try lia;
    cbn [fst items cap] in *; split; try done; rewrite Habs; [by rewrite app_nil_r|]. f_equal.
  rewrite <- Hml. unfold zlen. by rewrite Nat2Z.id, take_app_length.
Qed.
End Own.

(** The TC message of a node, as it is queued. *)
Definition tc_message (ctx : OlsrContext) (r : list Z) : OlsrMsgHeader * list Z :=
  let msg := tc_bytes (ansn ctx) r (keys (selector_tree ctx)) in
  (own_header ctx MSG_TYPE_TC 0xe5 64 msg, msg).

Lemma zlen_tc_bytes a r l : zlen r = 2 -> zlen (tc_bytes a r l) = 4 + 4 * zlen l.
Proof. intros Hr. unfold tc_bytes. rewrite !zlen_app, zlen_enc_addrs, zlen_le16, Hr. lia. Qed.

Lemma tc_timer_ok ctx junk :
  RingBuffer.wf (olsr_tx_msgbuf ctx) -> zlen junk = MAX_IPPKT_SIZE ->
  16 + 4 * zlen (selector_tree ctx) <= MAX_IPPKT_SIZE ->
  exists r rb, zlen r = 2 /\
    olsr_tc_timer_cb ctx junk =
      Ok (set_olsr_tx_msgbuf (set_ansn ctx (u16 (ansn ctx + 1))) rb) /\
    RingBuffer.wf rb /\ RingBuffer.size rb = RingBuffer.size (olsr_tx_msgbuf ctx) /\
    contents rb = contents (olsr_tx_msgbuf ctx) ++
      if zlen (enc_msg (tc_message ctx r)) <=? room ctx then enc_msg (tc_message ctx r) else [].
Proof.
  intros Hwf Hj Hn. unfold MAX_IPPKT_SIZE in *. pose proof (zlen_nonneg (selector_tree ctx)).
  assert (Hd : zlen (drop 12 junk) = 1988).
  { unfold zlen in *. rewrite length_drop. lia. }
  destruct (build_olsr_tc_spec ctx (own_prefix ctx junk MSG_TYPE_TC 0xe5 64) (drop 12 junk))
    as (r & rest' & Hb & Hr & _); [lia|]. rewrite zlen_own_prefix in Hb by lia. exists r.
  assert (Hk : zlen (keys (selector_tree ctx)) = zlen (selector_tree ctx))
    by (unfold keys, zlen; by rewrite length_map).
  pose proof (zlen_tc_bytes (ansn ctx) r (keys (selector_tree ctx)) Hr) as Hl. rewrite Hk in Hl.
  destruct (queue_own_msg_ok ctx (set_ansn ctx (u16 (ansn ctx + 1))) junk MSG_TYPE_TC 0xe5 DEF_TC_VTIME 64
    build_olsr_tc (tc_bytes (ansn ctx) r (keys (selector_tree ctx))) rest') as (rb & E & Hwf' & Hs & Hc).
  - lia.
  - unfold is_u8, MSG_TYPE_TC. lia.
  - unfold is_u8. lia.
  - unfold is_u8. lia.
  - vm_compute. reflexivity.
  - lia.
  - rewrite Hl. exact Hb.
  - done.
  - exists rb. split; [done|]. split; [exact E|]. split; [done|]. split; [done|].
    rewrite zlen_enc_msg. exact Hc.
Qed.
