(* ===== verification/RouteIface.v ===== *)
(** The interface between the node process and its routing module
    (simnet/route_iface.h, simnet/include/net_statistics.h).

    [RouteFunctions] is the table of entry points, as operations on the module's
    state [S]; [RouteConfig] is what the two sides share through
    [CommonRouteConfig]: the statistics, which both write, and the frames the
    module has sent through [send_remote] and [send_local] and the process has not
    yet carried out.  [RouteModuleOk] is the module's promise to the process. *)
From S2P Require Import Prelude OlsrContext.
From stdpp Require Import base list numbers.
From Stdlib Require Import ZArith Lia.
Open Scope Z_scope.

(** [start] is given the own address and the statistics; [end] frees the module's
    memory and is left out. *)
Record RouteFunctions (S : Type) : Type := mkRouteFunctions {
  handle_remote_pkt : S -> list Z -> Z -> res S;
  handle_local_pkt : S -> list Z -> Z -> res S;
  start : Z -> NetStats -> res S;
  work : S -> res S
}.
Arguments mkRouteFunctions {S}.
Arguments handle_remote_pkt {S}.
Arguments handle_local_pkt {S}.
Arguments start {S}.
Arguments work {S}.

Class RouteConfig (S : Type) := {
  conf_stat : S -> NetStats;
  conf_set_stat : S -> NetStats -> S;
  conf_outs : S -> list output;
  conf_set_outs : S -> list output -> S
}.

(** The module reads of a packet only the bytes it is given the length of, and the
    shared fields are fields. *)
Class RouteModuleOk (S : Type) `{RouteConfig S} (route : RouteFunctions S) : Prop := {
  remote_frame : forall s f junk,
    handle_remote_pkt route s (f ++ junk) (zlen f) = handle_remote_pkt route s f (zlen f);
  local_frame : forall s f junk,
    handle_local_pkt route s (f ++ junk) (zlen f) = handle_local_pkt route s f (zlen f);
  stat_set_stat : forall s v, conf_stat (conf_set_stat s v) = v;
  stat_set_outs : forall s v, conf_stat (conf_set_outs s v) = conf_stat s;
  outs_set_outs : forall s v, conf_outs (conf_set_outs s v) = v;
  outs_set_stat : forall s v, conf_outs (conf_set_stat s v) = conf_outs s;
  set_stat_same : forall s, conf_set_stat s (conf_stat s) = s;
  set_stat_twice : forall s v w, conf_set_stat (conf_set_stat s v) w = conf_set_stat s w
}.
