(* ===== verification/OlsrRouteIface.v ===== *)
(** The interface of the OLSR module to the network job
    (simnet/olsr/olsr_route_iface.c): packets from the two sides, start, and the
    periodic work, which runs the expired timers of the queue.

    [olsr_iface] and [olsr_module_ok] are the OLSR instance of the interface in
    RouteIface.v. *)
From S2P Require Import Prelude OrdTree RingBuffer TimerQueue OlsrContext OlsrSpf NetUtil OlsrNeighbor OlsrMpr OlsrHello OlsrTc OlsrForwarding OlsrRoute RouteIface.
From stdpp Require Import base list numbers gmap.
From Stdlib Require Import ZArith Lia.
Open Scope Z_scope.
Open Scope c_scope.

Definition iph_tot_len (b : list Z) (off : Z) : res Z :=
  let* v := rd16 b (off + 2) in Ok (ntohs v).

Definition count_tx (bytes : Z) (t : TrafficCountInfo) : TrafficCountInfo :=
  mkTraffic (u32 (tx_bytes t + bytes)) (rx_bytes t) (u32 (tx_pkts t + 1)) (rx_pkts t) 1.

(** Called for received packets, it counts them under their destination, as
    transmitted. *)
Definition statistics_update (ctx : OlsrContext) (ippkt : list Z) : res OlsrContext :=
  let* daddr := iph_daddr ippkt 0 in
  let* r := get_neighborstat_buf ctx daddr in
  let '(ctx, stat_elem) := r in
  let* tot_len := iph_tot_len ippkt 0 in
  poke_info ctx (info stat_elem) (fun i => set_traffic (count_tx tot_len (traffic i)) i).

(** The uninitialised stack buffers of one call, in the order of their use. *)
Record StackBufs : Type := mkBufs { pkb : list Z; decap_buf : list Z; encap_buf : list Z }.

Definition copy_packet (pkb frame : list Z) (len : Z) : res PacketBuf :=
  let* b := memcpy pkb 0 frame 0 len in Ok {| pkt_length := len; data := b |}.

Definition olsr_handle_local_pkt (bufs : StackBufs) (ctx : OlsrContext) (frame : list Z) (len : Z)
  : res OlsrContext :=
  let* pkt := copy_packet (pkb bufs) frame len in
  handle_local_data_pkt ctx pkt (encap_buf bufs).

Definition olsr_handle_remote_pkt (bufs : StackBufs) (ctx : OlsrContext) (frame : list Z) (len : Z)
  : res OlsrContext :=
  let* pkt := copy_packet (pkb bufs) frame len in
  let* ctx := statistics_update ctx (data pkt) in
  let* proto := iph_protocol (data pkt) 0 in
  if proto =? IPPROTO_UDP then
    let* ihl := iph_ihl (data pkt) 0 in
    let* dest := rd16 (data pkt) (ihl * 4 + 2) in
    if ntohs dest =? OLSR_PROTO_PORT then handle_route_pkt ctx pkt
    else handle_remote_data_pkt ctx pkt (decap_buf bufs) (encap_buf bufs)
  else handle_remote_data_pkt ctx pkt (decap_buf bufs) (encap_buf bufs).

Definition olsr_start (own_ip : Z) (stat : NetStats) (clk : nat -> timespec) (rnd : nat -> Z)
  (blk : list Z) : res OlsrContext :=
  olsr_start_timer (init_olsr_context own_ip stat clk rnd blk).

(** A callback of the module; [junk] gives the stack buffer of each sender. *)
Definition run_olsr_cb (junk : olsr_cb -> OlsrContext -> list Z) (cb : olsr_cb) (ctx : OlsrContext)
  : res OlsrContext :=
  match cb with
  | Cb_link_timer_expire iface link => link_timer_expire ctx iface link
  | Cb_neigh2_elem_expire bridge n2 timer => neigh2_elem_expire ctx bridge n2 timer
  | Cb_mpr_selector_expire selector timer => mpr_selector_expire ctx selector timer
  | Cb_topology_info_timer_expire dest timer => topology_info_timer_expire_cb ctx dest timer
  | Cb_expire_dup_entry key timer => expire_dup_entry_cb ctx key timer
  | Cb_olsr_hello_timer => olsr_hello_timer_cb ctx (junk cb ctx)
  | Cb_olsr_tc_timer => olsr_tc_timer_cb ctx (junk cb ctx)
  | Cb_olsr_send_from_queue => olsr_send_from_queue_cb ctx (junk cb ctx)
  | Cb_dump_debuginfo => Ok ctx
  end.

Definition olsr_work (junk : olsr_cb -> OlsrContext -> list Z) (fuel : nat) (ctx : OlsrContext)
  : res OlsrContext :=
  timerqueue_work timerqueue set_timerqueue (run_olsr_cb junk) fuel ctx.

(** ** The module behind the interface *)
Definition olsr_iface (bufs : StackBufs) (junk : olsr_cb -> OlsrContext -> list Z) (fuel : nat)
  (clk : nat -> timespec) (rnd : nat -> Z) (blk : list Z) : RouteFunctions OlsrContext :=
  {| handle_remote_pkt := olsr_handle_remote_pkt bufs;
     handle_local_pkt := olsr_handle_local_pkt bufs;
     start own_ip stat := olsr_start own_ip stat clk rnd blk;
     work := olsr_work junk fuel |}.

#[export] Instance olsr_config : RouteConfig OlsrContext :=
  {| conf_stat := stat; conf_set_stat := set_stat; conf_outs := outs; conf_set_outs := set_outs |}.

Lemma copy_packet_frame pk f junk : copy_packet pk (f ++ junk) (zlen f) = copy_packet pk f (zlen f).
Proof.
  unfold copy_packet, memcpy. rewrite (zslice_prefix (f ++ junk) f junk) by done.
  by rewrite (zslice_prefix f f []) by (by rewrite ?app_nil_r).
Qed.

#[export] Instance olsr_module_ok bufs junk fuel clk rnd blk :
  RouteModuleOk OlsrContext (olsr_iface bufs junk fuel clk rnd blk).
Proof.
  split; try done.
  - intros s f j. cbn. unfold olsr_handle_remote_pkt. by rewrite copy_packet_frame.
  - intros s f j. cbn. unfold olsr_handle_local_pkt. by rewrite copy_packet_frame.
  - by intros [].
Qed.
