(* ===== verification/OlsrDelivery.v ===== *)
(** End to end: what the nodes of a network achieve together.

    Files OlsrRoute and OlsrRouteIface model one node.  Here the frames that one
    node hands to [send_remote] are given to [olsr_handle_remote_pkt] of another:
    a data packet that is encapsulated from hop to hop reaches its destination
    unchanged, and the topology message of a node sets its entry in the topology
    of a neighbour. *)
From S2P Require Import Prelude OrdTree RingBuffer TimerQueue OlsrContext OlsrSpf OlsrMantissa NetUtil OlsrNeighbor OlsrMpr OlsrHello OlsrTc OlsrForwarding OlsrRoute OlsrRouteIface.
From stdpp Require Import base list numbers gmap.
From Stdlib Require Import ZArith Lia.
Open Scope Z_scope.
Open Scope c_scope.

(** ** Reception of a frame *)

(** The statistics of a node that knows the addresses of its network. *)
Definition counting (net : list Z) (ctx : OlsrContext) : Prop :=
  stats_ok net (stat ctx) (node_stat_tree ctx) /\ (length net <= MAX_NODE_COUNT)%nat.

Definition bufs_ok (bufs : StackBufs) : Prop :=
  zlen (pkb bufs) = PKT_DATA_SIZE /\ zlen (decap_buf bufs) = PKT_DATA_SIZE /\
  zlen (encap_buf bufs) = PKT_DATA_SIZE.

Lemma statistics_update_ok net ctx b daddr :
  counting net ctx -> In daddr net -> iph_daddr b 0 = Ok daddr -> 4 <= zlen b ->
  exists ctx', statistics_update ctx b = Ok ctx' /\ counting net ctx' /\ same_but_stats ctx ctx'.
Proof.
  intros [Hst Hn] Hd Ed Hb. unfold statistics_update. rewrite Ed. cbn [rbind].
  destruct (get_neighborstat_buf_ok net ctx daddr Hst Hd Hn) as (c1 & e & -> & Hst1 & Hi & Hs1).
  cbn [rbind]. unfold iph_tot_len, rd16.
  destruct (rd8_total b (0 + 2)) as [x ->]; [lia|]. destruct (rd8_total b (0 + 2 + 1)) as [y ->]; [lia|].
  cbn [rbind].
  destruct (poke_info_ok net c1 (info e) (fun i => set_traffic (count_tx (ntohs (x + 256 * y)) (traffic i)) i))
    as (c2 & -> & Hst2 & Hs2); [done|done|done|done|].
  exists c2. split; [done|]. split; [by split|]. by eapply same_but_stats_trans.
Qed.

(** The buffer after the copy. *)
Lemma copy_packet_ok pk f :
  zlen f <= zlen pk ->
  exists tl, copy_packet pk f (zlen f) = Ok {| pkt_length := zlen f; data := f ++ tl |} /\
    zlen (f ++ tl) = zlen pk.
Proof.
  intros Hf. pose proof (zlen_nonneg f). destruct (zcut pk (zlen f)) as (x & tl & -> & Hx); [lia|].
  exists tl. unfold copy_packet, memcpy. rewrite (zslice_prefix f f []) by (by rewrite ?app_nil_r).
  cbn [rbind]. rewrite zblit_prefix by done. cbn [rbind]. split; [done|]. rewrite !zlen_app in *. lia.
Qed.

(** ** One datagram, on its way *)
Section Datagram.
Context (h opts pay : list Z) (dst : Z).

Definition payload_bytes : list Z := h ++ opts ++ pay.

(** A sealed IP packet to [dst] that can be encapsulated. *)
Record datagram : Prop := {
  dg_hdr : zlen h = 20;
  dg_bytes : Forall is_u8 (h ++ opts);
  dg_ihl : iph_ihl h 0 = Ok (5 + zlen opts / 4);
  dg_opts : zlen opts mod 4 = 0 /\ zlen opts <= 28;
  dg_len : rd16 h 2 = Ok (htons (zlen payload_bytes));
  dg_check : rd16 h 10 = Ok (calc_ip_checksum (take 10 h ++ [0; 0] ++ drop 12 h ++ opts));
  dg_room : zlen payload_bytes + 12 <= PKT_DATA_SIZE;
  dg_dst : iph_daddr h 0 = Ok dst
}.

(** A frame that carries it to the node [nh]. *)
Record carried (nh : Z) (f : list Z) : Prop := {
  car_len : zlen f = zlen payload_bytes + 12;
  car_dst : forall tl, iph_daddr (f ++ tl) 0 = Ok nh;
  car_proto : forall tl, iph_protocol (f ++ tl) 0 = Ok IPPROTO_MOBILE;
  car_decap : forall tl buf, zlen (data buf) = PKT_DATA_SIZE -> exists rest,
    minimal_mip_decap {| pkt_length := zlen f; data := f ++ tl |} buf =
      Ok {| pkt_length := zlen payload_bytes; data := h ++ opts ++ pay ++ rest |}
}.

Hypothesis Hdg : datagram.

Lemma dst_read tl : iph_daddr (h ++ tl) 0 = Ok dst.
Proof using Hdg.
  pose proof (dg_hdr Hdg). rewrite <- (dg_dst Hdg). unfold iph_daddr. by rewrite rd32_app by lia.
Qed.

Lemma encap_carried rest junk src nh :
  zlen (h ++ opts ++ pay ++ rest) = PKT_DATA_SIZE -> zlen junk = PKT_DATA_SIZE ->
  is_u32 src -> is_u32 nh ->
  exists f tl, minimal_mip_encap {| pkt_length := zlen payload_bytes; data := h ++ opts ++ pay ++ rest |}
      {| pkt_length := 0; data := junk |} src nh =
    Ok {| pkt_length := zlen f; data := f ++ tl |} /\ carried nh f.
Proof using Hdg.
  intros Hsz Hj Hs Hn. destruct Hdg as [Hh Hb Hi [Ho Ho28] Hl Hc Hr Hd].
  destruct (mip_transit {| pkt_length := zlen payload_bytes; data := h ++ opts ++ pay ++ rest |}
    {| pkt_length := 0; data := junk |} h opts pay rest src nh) as
    (e & oh & mip & rest1 & He & Hle & Hde & [_ _ Hrp _ Hrd] & Hoh & Hm & _ & _ & Hdec);
    [by constructor|by constructor|done..|]. cbn [pkt_length] in *.
  assert (Hlen : zlen (oh ++ opts ++ mip ++ pay) = zlen payload_bytes + 12).
  { unfold payload_bytes. rewrite !zlen_app. lia. }
  exists (oh ++ opts ++ mip ++ pay), rest1. rewrite He. destruct e as [el ed]. cbn in *. subst.
  rewrite Hlen, <- !app_assoc. split; [done|]. constructor.
  - done.
  - intros tl. rewrite <- app_assoc. unfold iph_daddr in *. by rewrite rd32_app by lia.
  - intros tl. rewrite <- app_assoc. unfold iph_protocol in *. by rewrite rd8_app by lia.
  - intros tl buf Hbuf. destruct (Hdec tl buf Hbuf) as [rest2 Hd2]. exists rest2.
    rewrite Hlen, <- !app_assoc. exact Hd2.
Qed.

(** The first hop of the route of a node to [dst]. *)
Definition next_hop_is (ctx : OlsrContext) (nh : Z) : Prop :=
  exists e, rbtree_search (routing_table ctx) dst = Some e /\ List.hd_error (route e) = Some nh.

Lemma send_remote_frame ctx f tl : send_remote ctx (f ++ tl) (zlen f) =
  Ok (set_outs ctx (outs ctx ++ [SendRemote f])).
Proof using. unfold send_remote. by rewrite (zslice_prefix _ f tl). Qed.

Lemma ip_route_encap ctx rest fl junk nh :
  zlen (h ++ opts ++ pay ++ rest) = PKT_DATA_SIZE -> zlen junk = PKT_DATA_SIZE ->
  is_u32 (own_ip ctx) -> is_u32 nh -> next_hop_is ctx nh ->
  (forall e, rbtree_search (routing_table ctx) dst = Some e -> (hop_count e =? 1) && fl = false) ->
  exists f, ip_route ctx {| pkt_length := zlen payload_bytes; data := h ++ opts ++ pay ++ rest |} fl junk =
      Ok (set_outs ctx (outs ctx ++ [SendRemote f])) /\ carried nh f.
Proof using Hdg.
  intros Hsz Hj Ho Hn (e & Ee & Eh) Hfl.
  destruct (encap_carried rest junk (own_ip ctx) nh Hsz Hj Ho Hn) as (f & tl & Ef & Hc).
  exists f. split; [|done]. unfold ip_route. cbn [data]. rewrite dst_read. cbn [rbind].
  rewrite Ee, (Hfl e Ee), Eh. cbn [deref rbind]. rewrite Ef. cbn [rbind data pkt_length].
  apply send_remote_frame.
Qed.

(** *** The nodes *)
Record data_ready (net : list Z) (bufs : StackBufs) (ctx : OlsrContext) : Prop := {
  node_counting : counting net ctx;
  node_bufs : bufs_ok bufs;
  node_own : is_u32 (own_ip ctx) /\ In (own_ip ctx) net
}.

Lemma class_refl a : IP_C_CLASS_MATCH a a = true.
Proof using. unfold IP_C_CLASS_MATCH. apply Z.eqb_refl. Qed.

(** What a node does with a frame that carries the datagram to [nh]: if that is
    one of its addresses it takes the datagram out. *)
Lemma receive_carried net bufs ctx nh f :
  data_ready net bufs ctx -> In nh net -> carried nh f ->
  exists ctx1 rest, counting net ctx1 /\ same_but_stats ctx ctx1 /\
    zlen (h ++ opts ++ pay ++ rest) = PKT_DATA_SIZE /\
    olsr_handle_remote_pkt bufs ctx f (zlen f) =
      if negb (IP_C_CLASS_MATCH (own_ip ctx) nh) then Ok ctx1
      else if IP_C_CLASS_MATCH (own_ip ctx) dst
      then Ok (set_outs ctx1 (outs ctx1 ++ [SendLocal payload_bytes]))
      else ip_route ctx1 {| pkt_length := zlen payload_bytes; data := h ++ opts ++ pay ++ rest |}
             false (encap_buf bufs).
Proof using Hdg.
  intros [Hcnt (Hb1 & Hb2 & _) _] Hin [Hl Hd Hp Hdec]. pose proof (dg_room Hdg) as Hroom.
  pose proof (dg_hdr Hdg) as Hh.
  assert (12 <= zlen f) by (rewrite Hl; pose proof (zlen_nonneg payload_bytes); lia).
  destruct (copy_packet_ok (pkb bufs) f) as (tl & Ecp & Htl); [lia|].
  destruct (statistics_update_ok net ctx (f ++ tl) nh Hcnt Hin (Hd tl)) as
    (ctx1 & Est & Hcnt1 & Hsame); [rewrite zlen_app; pose proof (zlen_nonneg tl); lia|].
  destruct (Hdec tl {| pkt_length := 0; data := decap_buf bufs |} Hb2) as [rest Er].
  assert (Hsz : zlen (h ++ opts ++ pay ++ rest) = PKT_DATA_SIZE).
  { apply zlen_decap in Er. by rewrite <- Hb2. }
  exists ctx1, rest. split; [done|]. split; [done|]. split; [done|].
  assert (Eo : own_ip ctx1 = own_ip ctx) by (unfold same_but_stats in Hsame; by apply (f_equal own_ip) in Hsame).
  unfold olsr_handle_remote_pkt. rewrite Ecp. cbn [rbind data]. rewrite Est. cbn [rbind].
  rewrite Hp. cbn [rbind]. change (IPPROTO_MOBILE =? IPPROTO_UDP) with false. cbn iota.
  unfold handle_remote_data_pkt. cbn [data]. rewrite Hd, Hp, Eo. cbn [rbind].
  destruct (IP_C_CLASS_MATCH (own_ip ctx) nh); cbn [negb]; [|done].
  change (IPPROTO_MOBILE =? IPPROTO_MOBILE) with true. cbn iota.
  rewrite Er. cbn [rbind data]. rewrite dst_read. cbn [rbind].
  destruct (IP_C_CLASS_MATCH (own_ip ctx) dst); [|done].
  unfold send_local. cbn [pkt_length]. rewrite (zslice_prefix _ payload_bytes rest); [done|..|done].
  unfold payload_bytes. by rewrite <- !app_assoc.
Qed.

(** A datagram that is safe to travel plain: it does not look like mobile IP, nor
    like a packet of the routing protocol. *)
Definition plain_ok : Prop :=
  exists p, iph_protocol h 0 = Ok p /\ p <> IPPROTO_MOBILE /\
    (p = IPPROTO_UDP -> exists d, rd16 payload_bytes ((5 + zlen opts / 4) * 4 + 2) = Ok d /\
       ntohs d <> OLSR_PROTO_PORT).

(** Such a frame goes up as it is, if it is for the node. *)
Lemma receive_plain net bufs ctx :
  data_ready net bufs ctx -> In dst net -> plain_ok ->
  exists ctx1, counting net ctx1 /\ same_but_stats ctx ctx1 /\
    olsr_handle_remote_pkt bufs ctx payload_bytes (zlen payload_bytes) =
      if negb (IP_C_CLASS_MATCH (own_ip ctx) dst) then Ok ctx1
      else Ok (set_outs ctx1 (outs ctx1 ++ [SendLocal payload_bytes])).
Proof using Hdg.
  intros [Hcnt (Hb1 & _ & _) _] Hin (p & Ep & Hm & Hu). pose proof (dg_room Hdg) as Hroom.
  pose proof (dg_hdr Hdg) as Hh.
  destruct (copy_packet_ok (pkb bufs) payload_bytes) as (tl & Ecp & Htl); [lia|].
  assert (Er : forall l, payload_bytes ++ l = h ++ (opts ++ pay ++ l))
    by (intros; unfold payload_bytes; by rewrite <- !app_assoc).
  destruct (statistics_update_ok net ctx (payload_bytes ++ tl) dst Hcnt Hin) as
    (ctx1 & Est & Hcnt1 & Hsame); [rewrite Er; apply dst_read|rewrite Htl; unfold PKT_DATA_SIZE, MAX_IPPKT_SIZE, MAX_ETHER_HEADER_MARGIN in *; lia|].
  assert (Eo1 : own_ip ctx1 = own_ip ctx) by (unfold same_but_stats in Hsame; by apply (f_equal own_ip) in Hsame).
  exists ctx1. split; [done|]. split; [done|].
  unfold olsr_handle_remote_pkt. rewrite Ecp. cbn [rbind data]. rewrite Est. cbn [rbind].
  assert (Edata : handle_remote_data_pkt ctx1 {| pkt_length := zlen payload_bytes; data := payload_bytes ++ tl |}
      (decap_buf bufs) (encap_buf bufs) = if negb (IP_C_CLASS_MATCH (own_ip ctx) dst) then Ok ctx1
      else Ok (set_outs ctx1 (outs ctx1 ++ [SendLocal payload_bytes]))).
  { unfold handle_remote_data_pkt, iph_protocol in *. cbn [data]. rewrite Er, dst_read. cbn [rbind].
    rewrite Eo1, (rd8_app h) by lia. destruct (IP_C_CLASS_MATCH (own_ip ctx) dst); cbn [negb]; [|done].
    rewrite Ep. cbn [rbind].
    rewrite (proj2 (Z.eqb_neq p IPPROTO_MOBILE) Hm). unfold send_local. cbn [pkt_length].
    by rewrite <- Er, (zslice_prefix _ payload_bytes tl). }
  assert (Epr : iph_protocol (payload_bytes ++ tl) 0 = Ok p)
    by (unfold iph_protocol in *; by rewrite Er, (rd8_app h) by lia).
  rewrite Epr. cbn [rbind]. destruct (Z.eqb_spec p IPPROTO_UDP) as [Eu|]; [|done].
  destruct (Hu Eu) as (d & Ed & Hd). apply (rd16_ok_app _ tl) in Ed.
  assert (Ei : iph_ihl (payload_bytes ++ tl) 0 = Ok (5 + zlen opts / 4)).
  { rewrite <- (dg_ihl Hdg). unfold iph_ihl. by rewrite Er, (rd8_app h) by lia. }
  rewrite Ei. cbn [rbind]. rewrite Ed. cbn [rbind].
  by rewrite (proj2 (Z.eqb_neq _ _) Hd).
Qed.

(** *** The path *)
Definition new_outs (c c' : OlsrContext) : list output := drop (length (outs c)) (outs c').

Lemma new_outs_app c c1 o : outs c1 = outs c -> new_outs c (set_outs c1 (outs c1 ++ [o])) = [o].
Proof using. unfold new_outs. cbn. intros ->. by rewrite drop_app_length. Qed.

(** The frame is handed from node to node until one of them does not send it on. *)
Fixpoint forward_along (hops : list (StackBufs * OlsrContext)) (f : list Z) : res (list output) :=
  match hops with
  | [] => Ok [SendRemote f]
  | (bufs, c) :: hops' =>
    let* c' := olsr_handle_remote_pkt bufs c f (zlen f) in
    match new_outs c c' with
    | [SendRemote f'] => forward_along hops' f'
    | os => Ok os
    end
  end.

Definition send_data (bufs : StackBufs) (c : OlsrContext) (hops : list (StackBufs * OlsrContext))
  (pkt : list Z) : res (list output) :=
  let* c' := olsr_handle_local_pkt bufs c pkt (zlen pkt) in
  match new_outs c c' with
  | [SendRemote f] => forward_along hops f
  | os => Ok os
  end.

(** Each node's first hop to [dst] is the next node. *)
Inductive chain : OlsrContext -> list (StackBufs * OlsrContext) -> Prop :=
  | chain_last c b d : next_hop_is c (own_ip d) -> own_ip d = dst -> chain c [(b, d)]
  | chain_relay c b r hops : next_hop_is c (own_ip r) ->
      IP_C_CLASS_MATCH (own_ip r) dst = false -> chain r hops -> chain c ((b, r) :: hops).

Lemma chain_next c hops : chain c hops ->
  exists b d rest, hops = (b, d) :: rest /\ next_hop_is c (own_ip d).
Proof using. intros []; eauto. Qed.

Lemma same_stats_fields c1 c2 : same_but_stats c1 c2 ->
  own_ip c2 = own_ip c1 /\ routing_table c2 = routing_table c1 /\ outs c2 = outs c1.
Proof using.
  unfold same_but_stats. intros H. repeat split.
  - by apply (f_equal own_ip) in H.
  - by apply (f_equal routing_table) in H.
  - by apply (f_equal outs) in H.
Qed.

Lemma forward_along_ok net c hops f d b rest :
  chain c hops -> Forall (fun n => data_ready net (fst n) (snd n)) hops ->
  hops = (b, d) :: rest -> carried (own_ip d) f ->
  forward_along hops f = Ok [SendLocal payload_bytes].
Proof using Hdg.
  intros Hc. revert f d b rest. induction Hc as [c b d Hn Hd|c b r hops Hn Hm Hc IH];
    intros f d0 b0 rest Hok [= <- <- <-] Hf; inversion Hok as [|? ? Hnode Hok']; subst; cbn [fst snd] in *;
    destruct (receive_carried net _ _ _ f Hnode (proj2 (node_own _ _ _ Hnode)) Hf) as (c1 & tl & Hcnt & Hsame & Hsz & E);
    destruct (same_stats_fields _ _ Hsame) as (Eo & Et & Eouts); cbn [forward_along]; rewrite E, class_refl; cbn [negb].
  - rewrite Hd, class_refl. cbn [rbind]. by rewrite new_outs_app.
  - rewrite Hm. destruct (chain_next _ _ Hc) as (b' & d' & rest' & -> & Hnh).
    inversion Hok' as [|? ? Hnode' _]; subst. cbn [fst snd] in *.
    destruct (ip_route_encap c1 tl false (encap_buf b) (own_ip d')) as (f' & Ef & Hf').
    + done.
    + apply Hnode.
    + rewrite Eo. apply Hnode.
    + apply Hnode'.
    + unfold next_hop_is in *. by rewrite Et.
    + intros e _. apply andb_false_r.
    + rewrite Ef. cbn [rbind]. rewrite new_outs_app by done. by eapply IH.
Qed.

Lemma send_data_ok net bufs c hops :
  is_u32 (own_ip c) -> bufs_ok bufs -> IP_C_CLASS_MATCH (own_ip c) dst = false ->
  chain c hops -> Forall (fun n => data_ready net (fst n) (snd n)) hops ->
  (forall e, rbtree_search (routing_table c) dst = Some e -> hop_count e = 1 ->
     (exists b d, hops = [(b, d)]) /\ plain_ok) ->
  send_data bufs c hops payload_bytes = Ok [SendLocal payload_bytes].
Proof using Hdg.
  intros Ho (Hb1 & _ & Hb3) Hm Hc Hok Hone. pose proof (dg_room Hdg).
  destruct (copy_packet_ok (pkb bufs) payload_bytes) as (tl & Ecp & Htl); [lia|].
  assert (Er : payload_bytes ++ tl = h ++ opts ++ pay ++ tl)
    by (unfold payload_bytes; by rewrite <- !app_assoc).
  destruct (chain_next _ _ Hc) as (b & d & rest & Eh & Hnh).
  pose proof Hok as Hok'. rewrite Eh in Hok'. inversion Hok' as [|? ? Hnode _]; subst.
  cbn [fst snd] in *. destruct Hnh as (e & Ee & Ehd).
  unfold send_data, olsr_handle_local_pkt, handle_local_data_pkt. rewrite Ecp. cbn [rbind data].
  rewrite Er, dst_read. cbn [rbind]. rewrite Hm.
  destruct (Z.eqb_spec (hop_count e) 1) as [E1|E1].
  - destruct (Hone e Ee E1) as ((b' & d' & [= <- <- ->]) & Hplain).
    unfold ip_route. cbn [data pkt_length]. rewrite dst_read. cbn [rbind]. rewrite Ee, E1. cbn.
    rewrite <- Er, send_remote_frame. cbn [rbind]. rewrite new_outs_app by done. cbn [forward_along].
    assert (Ed : own_ip d = dst) by (inversion Hc as [|? ? ? ? ? ? Hcc]; [done|inversion Hcc]).
    destruct (receive_plain net b d Hnode) as (d1 & _ & Hs & ->);
      [rewrite <- Ed; apply (node_own _ _ _ Hnode)|done|].
    rewrite Ed, class_refl. cbn [negb rbind].
    rewrite new_outs_app; [done|]. by destruct (same_stats_fields _ _ Hs) as (_ & _ & ?).
  - destruct (ip_route_encap c tl true (encap_buf bufs) (own_ip d)) as (f & Ef & Hf); try done.
    + by rewrite <- Er, Htl.
    + apply Hnode.
    + by exists e.
    + intros e' Ee'. rewrite Ee in Ee'. injection Ee' as <-.
      by rewrite (proj2 (Z.eqb_neq _ _) E1).
    + rewrite Ef. cbn [rbind]. rewrite new_outs_app by done. by eapply forward_along_ok.
Qed.
End Datagram.

(** C4: A data packet reaches its destination unchanged.  Let the nodes of a path
    have routing tables whose first hop to the destination is each time the next
    node of the path.  Then a packet the sender is given goes from node to node,
    encapsulated anew at each, without undefined behaviour and whatever the stack
    buffers contain, and the last node hands exactly the sender's bytes to its
    local side, while nobody else delivers anything.  Only a packet for a one-hop
    neighbour travels plain; it must not look like mobile IP or routing traffic. *)
Theorem data_delivery (net h opts pay : list Z) (dst : Z) (bufs : StackBufs) (c : OlsrContext)
  (hops : list (StackBufs * OlsrContext))
  (Hdg : datagram h opts pay dst) (Hown : is_u32 (own_ip c)) (Hbufs : bufs_ok bufs)
  (Hfar : IP_C_CLASS_MATCH (own_ip c) dst = false)
  (Hpath : chain dst c hops) (Hnodes : Forall (fun n => data_ready net (fst n) (snd n)) hops)
  (Hplain : forall e, rbtree_search (routing_table c) dst = Some e -> hop_count e = 1 ->
     (exists b d, hops = [(b, d)]) /\ plain_ok h opts pay) :
  send_data bufs c hops (h ++ opts ++ pay) = Ok [SendLocal (h ++ opts ++ pay)].
Proof. by apply (send_data_ok h opts pay dst Hdg net). Qed.

(** Three nodes: 192.168.1.2 reaches 192.168.2.2 by way of 192.168.3.2. *)
Definition ex_bufs : StackBufs :=
  let b := repeat 0xcc 2050 in {| pkb := b; decap_buf := b; encap_buf := b |}.
Definition ex_node (own : Z) (table : list RoutingEntry) : OlsrContext :=
  set_routing_table (init_olsr_context own zero_stats (fun _ => mkTimespec 0 0) (fun _ => 0) []) table.
Definition ex_src : OlsrContext := ex_node 0x0201a8c0 [mkRoute 0x0202a8c0 2 [0x0203a8c0; 0x0202a8c0]].
Definition ex_relay : OlsrContext := ex_node 0x0203a8c0 [mkRoute 0x0202a8c0 1 [0x0202a8c0]].
Definition ex_dst : OlsrContext := ex_node 0x0202a8c0 [].
Definition ex_hops : list (StackBufs * OlsrContext) := [(ex_bufs, ex_relay); (ex_bufs, ex_dst)].

Lemma ex_data_ready own table :
  is_u32 own -> In own [0x0203a8c0; 0x0202a8c0] ->
  data_ready [0x0203a8c0; 0x0202a8c0] ex_bufs (ex_node own table).
Proof.
  intros Ho Hi. constructor; [split| |done].
  - clear Hi. constructor; each. constructor.
  - vm_compute. lia.
  - repeat split.
Qed.

Lemma ex_datagram : datagram ex_hdr [] [1; 2; 3; 4] 0x0202a8c0.
Proof.
  constructor; try (vm_compute; reflexivity).
  - unfold ex_hdr. cbn [app]. repeat constructor; discriminate.
  - split; [reflexivity|vm_compute; discriminate].
  - vm_compute. discriminate.
Qed.

Lemma data_delivery_witness :
  send_data ex_bufs ex_src ex_hops (ex_hdr ++ [] ++ [1; 2; 3; 4]) =
    Ok [SendLocal (ex_hdr ++ [] ++ [1; 2; 3; 4])].
Proof.
  apply (data_delivery [0x0203a8c0; 0x0202a8c0] ex_hdr [] [1; 2; 3; 4] 0x0202a8c0).
  - exact ex_datagram.
  - vm_compute. split; [discriminate|reflexivity].
  - repeat split.
  - reflexivity.
  - apply chain_relay; [|reflexivity|apply chain_last; [|reflexivity]];
      eexists; (split; [vm_compute; reflexivity|reflexivity]).
  - constructor; [|constructor; [|constructor]]; apply ex_data_ready; cbn;
      (tauto || (vm_compute; split; [discriminate|reflexivity])).
  - intros e He. vm_compute in He. injection He as <-. discriminate.
Defined.

(** ** From the selectors of one node to the topology of another *)
Lemma routing_ok_stats w net ctx ctx' :
  routing_ok w net ctx -> counting net ctx' -> same_but_stats ctx ctx' -> routing_ok w net ctx'.
Proof.
  intros H [Hst Hn] Hs. unfold same_but_stats in Hs.
  assert (E1 : neighbor_tree ctx' = neighbor_tree ctx) by (by apply (f_equal neighbor_tree) in Hs).
  assert (E2 : topology_tree ctx' = topology_tree ctx) by (by apply (f_equal topology_tree) in Hs).
  assert (E3 : routing_table ctx' = routing_table ctx) by (by apply (f_equal routing_table) in Hs).
  constructor; rewrite ?E1, ?E2, ?E3; first [apply H | done].
Qed.

(** An OLSR frame received: the messages are handled one by one. *)
Lemma receive_olsr_frame net bufs ctx own seq ms f :
  counting net ctx -> bufs_ok bufs -> In broadcast_ip net ->
  is_olsr_frame own seq (enc_msgs ms) f -> Forall msg_wf ms -> ms <> [] ->
  zlen (enc_msgs ms) <= OLSR_TX_MSGBUF_SIZE ->
  exists ctx1 P tl, counting net ctx1 /\ same_but_stats ctx ctx1 /\
    olsr_handle_remote_pkt bufs ctx f (zlen f) = handle_list ctx1 own P ms tl.
Proof.
  intros Hcnt (Hb1 & _) Hin Hf Hms Hne Hlen.
  pose proof Hf as (ip & Ef & Hip & _ & _ & Hrd). destruct Hrd as [Hri _ Hrp _ Hrd].
  assert (Hfl : zlen f = 32 + zlen (enc_msgs ms)) by
    (rewrite Ef; unfold olsr_frame; rewrite !zlen_app, Hip, !zlen_le16; change (zlen [0; 0]) with 2; lia).
  unfold OLSR_TX_MSGBUF_SIZE in Hlen.
  destruct (copy_packet_ok (pkb bufs) f) as (tl & Ecp & Htl);
    [rewrite Hb1, Hfl; unfold PKT_DATA_SIZE, MAX_IPPKT_SIZE, MAX_ETHER_HEADER_MARGIN; lia|].
  assert (Eb : exists X, f ++ tl = ip ++ (le16 (htons OLSR_PROTO_PORT) ++ le16 (htons OLSR_PROTO_PORT)) ++ X).
  { eexists. rewrite Ef. unfold olsr_frame. rewrite <- !app_assoc. reflexivity. }
  destruct Eb as [X Eb].
  destruct (statistics_update_ok net ctx (f ++ tl) broadcast_ip Hcnt Hin) as (ctx1 & Est & Hcnt1 & Hs1).
  { rewrite Eb. unfold iph_daddr in *. by rewrite rd32_app by lia. }
  { rewrite zlen_app, Hfl. pose proof (zlen_nonneg tl). pose proof (zlen_nonneg (enc_msgs ms)). lia. }
  destruct (handle_frame ctx1 own seq ms f tl Hf Hms Hne Hlen) as (P & _ & _ & Eh).
  exists ctx1, P, tl. split; [done|]. split; [done|].
  unfold olsr_handle_remote_pkt. rewrite Ecp. cbn [rbind data]. rewrite Est. cbn [rbind].
  assert (E9 : iph_protocol (f ++ tl) 0 = Ok IPPROTO_UDP)
    by (rewrite Eb; unfold iph_protocol in *; by rewrite rd8_app by lia).
  assert (E0 : iph_ihl (f ++ tl) 0 = Ok 5)
    by (rewrite Eb; unfold iph_ihl in *; by rewrite rd8_app by lia).
  assert (E22 : rd16 (f ++ tl) (5 * 4 + 2) = Ok (htons OLSR_PROTO_PORT)).
  { rewrite Eb. replace (5 * 4 + 2) with (zlen ip + 2) by lia.
    rewrite rd16_shift by lia. unfold le16. cbn [app]. run_blits. by rewrite rd16_le16 by apply htons_range. }
  rewrite E9. cbn [rbind]. change (IPPROTO_UDP =? IPPROTO_UDP) with true. cbn iota.
  rewrite E0. cbn [rbind]. rewrite E22. cbn [rbind].
  rewrite ntohs_htons. change (u16 OLSR_PROTO_PORT =? OLSR_PROTO_PORT) with true. cbn iota.
  exact Eh.
Qed.

(** What [ctx'] has learned from the node [orig]. *)
Record learned (ctx ctx' : OlsrContext) (orig ansn : Z) (addrs : list Z) : Prop := {
  lrn_node : exists t, rbtree_search (topology_tree ctx') orig = Some t /\ topo_seq t = ansn /\
    tc_updated addrs (known_of ctx orig) (an_tree t);
  lrn_others : forall t, dest_addr t <> orig ->
    In t (topology_tree ctx') <-> In t (topology_tree ctx);
  lrn_routes : routes_current ctx -> In orig (keys (topology_tree ctx)) \/ addrs <> [] ->
    routes_current ctx'
}.

(** A fresh TC message of a symmetric neighbour. *)
Lemma handle_tc_message w net ctx P tl sctx r n :
  let orig := own_ip sctx in
  let addrs := keys (selector_tree sctx) in
  routing_ok w net ctx -> topo_live ctx -> fwd_ok w ctx ->
  rbtree_search (neighbor_tree ctx) orig = Some n -> is_sym n = true ->
  In orig net -> incl addrs net -> orig <> own_ip ctx -> is_u16 (ansn sctx) -> zlen r = 2 ->
  16 + 4 * zlen addrs <= MAX_IPPKT_SIZE ->
  rbtree_search (dup_tree ctx) (hdr_key (fst (tc_message sctx r))) = None ->
  (forall t, rbtree_search (topology_tree ctx) orig = Some t -> topo_seq t <= ansn sctx) ->
  exists ctx', handle_list ctx orig P [tc_message sctx r] tl = Ok ctx' /\
    learned ctx ctx' orig (ansn sctx) addrs.
Proof.
  intros orig addrs H Hlive Hfwd Hn Hs Ho Hinc Hne Ha Hr Hlen Hdup Hseq. cbn [handle_list].
  unfold MAX_IPPKT_SIZE in Hlen. pose proof (zlen_nonneg addrs).
  set (m := tc_message sctx r) in *. set (hd := fst m) in *.
  assert (Hsz : zlen (snd m) = 4 + 4 * zlen addrs) by (by apply zlen_tc_bytes).
  pose proof (net_win _ _ _ H orig Ho) as Hw.
  assert (Hh : hdr_ok hd).
  { assert (Hz : is_u16 (12 + zlen (snd m))) by (rewrite Hsz; unfold is_u16; lia).
    constructor; try exact Hz; try apply u16_range; try apply Hw;
      cbn; unfold is_u8, MSG_TYPE_TC; lia. }
  set (b := P ++ enc_msg m ++ enc_msgs [] ++ tl).
  assert (Eb : b = P ++ enc_header hd ++ (snd m ++ tl))
    by (unfold b, enc_msg, enc_msgs; cbn [map concat app]; by rewrite <- app_assoc).
  destruct (read_header P hd (snd m ++ tl) Hh) as (Et & Ev & Esz & Eo & Ettl & _). rewrite <- Eb in *.
  unfold handle_olsr_msg. rewrite Eo. cbn [rbind]. change (originator hd) with orig.
  rewrite (proj2 (Z.eqb_neq _ _) Hne).
  destruct (process_tc_fresh w net ctx (P ++ enc_header hd) r addrs tl orig orig (ansn sctx) (me_to_reltime 0xe5) n)
    as (c1 & Ep & H1 & _ & [(t & Ht & Hts & Hupd & _) Hoth Hrt Hframe] & _); try done; [lia|].
  assert (Epm : process_olsr_msg ctx b (zlen P) orig = Ok c1).
  { unfold process_olsr_msg, is_already_processed. rewrite Eb, read_key, <- Eb by done. cbn [rbind].
    rewrite Hdup, Ev, Esz, Et, Eo. cbn [rbind].
    change (olsr_msgtype hd =? MSG_TYPE_HELLO) with false.
    change (olsr_msgtype hd =? MSG_TYPE_TC) with true. cbn iota.
    change (olsr_vtime hd) with 0xe5. change (originator hd) with orig.
    replace (u16 (olsr_msgsize hd - sizeof_OlsrMsgHeader)) with (4 + 4 * zlen addrs).
    2:{ change (olsr_msgsize hd) with (12 + zlen (snd m)). rewrite Hsz. unfold sizeof_OlsrMsgHeader.
        rewrite u16_id by (unfold is_u16; lia). lia. }
    rewrite <- Ep. f_equal; [rewrite Eb; change (snd m) with (tc_bytes (ansn sctx) r addrs);
      by rewrite <- !app_assoc|by rewrite zlen_app, zlen_enc_header]. }
  rewrite Epm. cbn [rbind]. rewrite Ettl. cbn [rbind]. change (1 <? ttl hd) with true. cbn iota.
  unfold same_but_topology in Hframe.
  assert (Hfwd1 : fwd_ok w c1).
  { destruct Hfwd as [Hd Hring]. split.
    - apply (f_equal dup_tree) in Hframe. cbn in Hframe. by rewrite <- Hframe.
    - apply (f_equal olsr_tx_msgbuf) in Hframe. cbn in Hframe. by rewrite <- Hframe. }
  destruct (forward_step w P tl (snd m) hd orig Hh) with (ctx := c1) as (c2 & Ef & [_ _ _ _ _ Hsame]);
    [done|split; [exact Hw|apply u16_range]|done|].
  rewrite Eb, Ef. cbn [rbind fst]. exists c2. split; [done|]. unfold same_but_fwd in Hsame.
  assert (E1 : topology_tree c2 = topology_tree c1) by (apply (f_equal topology_tree) in Hsame; by cbn in Hsame).
  assert (E2 : own_ip c2 = own_ip c1) by (apply (f_equal own_ip) in Hsame; by cbn in Hsame).
  assert (E3 : neighbor_tree c2 = neighbor_tree c1) by (apply (f_equal neighbor_tree) in Hsame; by cbn in Hsame).
  assert (E4 : routing_table c2 = routing_table c1) by (apply (f_equal routing_table) in Hsame; by cbn in Hsame).
  constructor; rewrite ?E1; [by exists t|done|].
  intros Hc Hk. apply (routes_current_same c1); try done; [by rewrite E1|]. by apply Hrt.
Qed.

(** A node [r] that can learn the topology of [s]. *)
Record can_learn (w : Z) (net : list Z) (s r : OlsrContext) (bufs : StackBufs) : Prop := {
  cl_routing : routing_ok w net r;
  cl_live : topo_live r;
  cl_fwd : fwd_ok w r;
  cl_bufs : bufs_ok bufs;
  cl_net : In broadcast_ip net /\ In (own_ip s) net /\ incl (keys (selector_tree s)) net;
  cl_sym : exists n, rbtree_search (neighbor_tree r) (own_ip s) = Some n /\ is_sym n = true;
  cl_other : own_ip s <> own_ip r;
  cl_new : rbtree_search (dup_tree r) {| orig := own_ip s; dup_seq := u16 (msg_seq s) |} = None;
  cl_seq : is_u16 (ansn s) /\
    forall t, rbtree_search (topology_tree r) (own_ip s) = Some t -> topo_seq t <= ansn s
}.

Lemma learned_stats ctx ctx1 ctx' orig ansn addrs :
  same_but_stats ctx ctx1 -> learned ctx1 ctx' orig ansn addrs -> learned ctx ctx' orig ansn addrs.
Proof.
  unfold same_but_stats. intros Hs [Hn Ho Hr].
  assert (E1 : neighbor_tree ctx1 = neighbor_tree ctx) by (by apply (f_equal neighbor_tree) in Hs).
  assert (E2 : topology_tree ctx1 = topology_tree ctx) by (by apply (f_equal topology_tree) in Hs).
  assert (E3 : routing_table ctx1 = routing_table ctx) by (by apply (f_equal routing_table) in Hs).
  assert (E4 : own_ip ctx1 = own_ip ctx) by (by apply (f_equal own_ip) in Hs).
  constructor.
  - destruct Hn as (t & ? & ? & Hu). exists t. unfold known_of in *. rewrite E2 in Hu. done.
  - by rewrite <- E2.
  - intros Hc. rewrite <- E2. apply Hr. apply (routes_current_same ctx); try done. by rewrite E2.
Qed.


(** The node 2, chosen as a relay by 3 and 4, and its neighbour 1. *)
Definition ex_sender : OlsrContext :=
  set_selector_tree (init_olsr_context 2 zero_stats (fun _ => mkTimespec 0 0) (fun _ => 0)
    (repeat 0 2001)) [mkSelector 3 1; mkSelector 4 2].
Definition ex_receiver : OlsrContext :=
  set_neighbor_tree (init_olsr_context 1 zero_stats (fun _ => mkTimespec 0 0) (fun _ => 0)
    (repeat 0 2001)) [mkNeigh 2 SYM_NEIGH 3 []].

Lemma ex_can_learn : can_learn 0xf0000000 [1; 2; 3; 4; 0xffffffff] ex_sender ex_receiver ex_bufs.
Proof.
  constructor.
  - constructor; [vm_compute; lia| |tree_concrete| |split; [tree_concrete|]| | | |tree_concrete| |].
    + each; apply in_windowb_ok; reflexivity.
    + intros a. each; tauto.
    + each.
    + intros a. each.
    + each.
    + intros t a [].
    + each.
    + constructor; each. constructor.
  - intros t [].
  - split; [apply tree_ok_nil|]. unfold RingBuffer.wf. vm_compute. intuition discriminate.
  - repeat split.
  - split; [cbn; tauto|]. split; [cbn; tauto|]. intros a. each; tauto.
  - eexists. split; [vm_compute; reflexivity|reflexivity].
  - discriminate.
  - reflexivity.
  - split; [vm_compute; split; [discriminate|reflexivity]|]. intros t Ht. discriminate Ht.
Qed.

