(* ===== verification/OlsrInv.v ===== *)
(** The invariant of a routing node.

    [owners] lists the timers the elements of the context point to, each with the
    callback that leads back to its element; [node_ok] is what holds between two
    events at a node: the trees are well formed, every link has a neighbour, a
    neighbour is symmetric exactly if its link is, and the queue holds the owned
    timers, the four periodic ones and freed ones (TimerOwners).  It is the
    invariant that the files OlsrHelloRun, OlsrExpire and OlsrNode preserve. *)
From S2P Require Import Prelude OrdTree RingBuffer TimerQueue TimerWork TimerOwners OlsrContext OlsrSpf OlsrMantissa OlsrNeighbor OlsrMpr OlsrHello OlsrTc OlsrForwarding.
From stdpp Require Import base list numbers gmap.
From Stdlib Require Import ZArith Lia.
Open Scope Z_scope.
Open Scope c_scope.

(** ** Timers and their owners *)
Definition opt_list {A} (o : option A) : list A := match o with Some x => [x] | None => [] end.

Definition link_timers (l : LinkElem) : list Z :=
  opt_list (sym_timer l) ++ opt_list (asym_timer l) ++ opt_list (link_expire_timer l).
Definition link_cb (l : LinkElem) : olsr_cb :=
  Cb_link_timer_expire (link_local_addr l) (neighbor_iface_addr l).
Definition link_owner (l : LinkElem) : list (Z * olsr_cb) := map (fun p => (p, link_cb l)) (link_timers l).
Definition neigh2_owner (e : Neighbor2Elem) : Z * olsr_cb :=
  (neigh2_expire_timer e,
   Cb_neigh2_elem_expire (bridge_addr e) (neighbor2_main_addr e) (neigh2_expire_timer e)).
Definition neigh_owner (n : NeighborElem) : list (Z * olsr_cb) := map neigh2_owner (neighbor2_tree n).
Definition selector_owner (s : MprSelectorElem) : Z * olsr_cb :=
  (selector_expire_timer s, Cb_mpr_selector_expire (selector_addr s) (selector_expire_timer s)).
Definition topo_owner (t : TopologyInfoElem) : Z * olsr_cb :=
  (topo_expire_timer t, Cb_topology_info_timer_expire (dest_addr t) (topo_expire_timer t)).
Definition dup_owner (d : DuplicateSetElem) : Z * olsr_cb :=
  (dup_expire_timer d, Cb_expire_dup_entry (dup_key d) (dup_expire_timer d)).

Definition owners (ctx : OlsrContext) : list (Z * olsr_cb) :=
  concat (map link_owner (all_links ctx)) ++ concat (map neigh_owner (neighbor_tree ctx)) ++
  map selector_owner (selector_tree ctx) ++ map topo_owner (topology_tree ctx) ++
  map dup_owner (dup_tree ctx).

Definition periodic_cb (cb : olsr_cb) : bool :=
  match cb with
  | Cb_olsr_hello_timer | Cb_olsr_tc_timer | Cb_olsr_send_from_queue | Cb_dump_debuginfo => true
  | _ => false
  end.

(** ** The invariant *)

(** A link between two events has been heard: its two main timers run. *)
Record link_ok (own : Z) (l : LinkElem) : Prop := {
  lk_local : link_local_addr l = own;
  lk_status : link_status l = ASYM_LINK \/ link_status l = SYM_LINK;
  lk_timers : (exists p, link_expire_timer l = Some p) /\ exists p, asym_timer l = Some p
}.

Record neigh2_ok (w : Z) (net : list Z) (n : NeighborElem) : Prop := {
  n2_tree_ok : tree_ok (in_window w) (neighbor2_tree n);
  n2_net : incl (keys (neighbor2_tree n)) net;
  n2_bridge : forall e, In e (neighbor2_tree n) -> bridge_addr e = neighbor_main_addr n
}.

(** The trees, the timers and the statuses of the neighbours apart. *)
Record node_trees (w : Z) (net : list Z) (ctx : OlsrContext) : Prop := {
  nw_routing : routing_ok w net ctx;
  nw_own : In (own_ip ctx) net;
  nw_n2 : forall n, In n (neighbor_tree ctx) -> neigh2_ok w net n;
  nw_mpr : tree_ok (in_window w) (mpr_tree ctx);
  nw_sel : tree_ok (in_window w) (selector_tree ctx) /\ incl (keys (selector_tree ctx)) net;
  nw_dup : tree_ok (dupkey_in_window w) (dup_tree ctx);
  nw_ring : RingBuffer.wf (olsr_tx_msgbuf ctx) /\
    RingBuffer.size (olsr_tx_msgbuf ctx) = OLSR_TX_MSGBUF_SIZE;
  nw_iface : local_iface_tree ctx = [] \/
    local_iface_tree ctx = [mkIface (own_ip ctx) (all_links ctx)];
  nw_links : tree_ok (in_window w) (all_links ctx) /\
    incl (keys (all_links ctx)) (keys (neighbor_tree ctx));
  nw_link : forall l, In l (all_links ctx) -> link_ok (own_ip ctx) l
}.

(** A neighbour is symmetric exactly if its link is. *)
Definition sym_agrees (ctx : OlsrContext) : Prop :=
  forall n, In n (neighbor_tree ctx) -> is_sym n = neighbor_has_sym_link ctx (neighbor_main_addr n).

(** [a] is a periodic timer. *)
Record node_ok (w : Z) (net : list Z) (a : Z) (ctx : OlsrContext) : Prop := {
  nd_trees : node_trees w net ctx;
  nd_sym : sym_agrees ctx;
  nd_queue : queue_ok periodic_cb a (timerqueue ctx) (owners ctx)
}.

(** ** Frames of the invariant *)

(** The parts of the context the invariant reads, the timers apart. *)
Definition same_trees (c1 c2 : OlsrContext) : Prop :=
  own_ip c1 = own_ip c2 /\ neighbor_tree c1 = neighbor_tree c2 /\ mpr_tree c1 = mpr_tree c2 /\
  selector_tree c1 = selector_tree c2 /\ dup_tree c1 = dup_tree c2 /\
  local_iface_tree c1 = local_iface_tree c2 /\ topology_tree c1 = topology_tree c2.

Lemma owners_same c1 c2 : same_trees c1 c2 -> owners c2 = owners c1.
Proof.
  intros (_ & E1 & _ & E3 & E4 & E5 & E6). unfold owners, all_links.
  by rewrite E1, E3, E4, E5, E6.
Qed.

Lemma node_trees_same w net c1 c2 :
  same_trees c1 c2 -> routing_ok w net c2 ->
  RingBuffer.wf (olsr_tx_msgbuf c2) /\ RingBuffer.size (olsr_tx_msgbuf c2) = OLSR_TX_MSGBUF_SIZE ->
  node_trees w net c1 -> node_trees w net c2.
Proof.
  intros (E0 & E1 & E2 & E3 & E4 & E5 & E6) Hr Hring [].
  constructor; try done; unfold all_links in *; by rewrite <- ?E0, <- ?E1, <- ?E2, <- ?E3, <- ?E4, <- ?E5.
Qed.

Lemma sym_agrees_same c1 c2 : same_trees c1 c2 -> sym_agrees c1 -> sym_agrees c2.
Proof.
  intros (_ & E1 & _ & _ & _ & E5 & _). unfold sym_agrees, neighbor_has_sym_link. by rewrite E1, E5.
Qed.

(** With other timers. *)
Lemma node_trees_tq w net ctx tq : node_trees w net ctx -> node_trees w net (set_timerqueue ctx tq).
Proof. intros H. by apply (node_trees_same w net ctx); [..|apply routing_ok_tq, H|apply H|]. Qed.

Lemma window_of w net ctx a : node_trees w net ctx -> In a net -> in_window w a.
Proof. intros H. apply (net_win _ _ _ (nw_routing _ _ _ H)). Qed.

Lemma own_window w net ctx : node_trees w net ctx -> in_window w (own_ip ctx).
Proof. intros H. apply (window_of w net ctx); [done|apply (nw_own _ _ _ H)]. Qed.

Lemma has_sym_iff ctx a : neighbor_has_sym_link ctx a = true <->
  exists l, In l (all_links ctx) /\ neighbor_iface_addr l = a /\ link_status l = SYM_LINK.
Proof.
  unfold neighbor_has_sym_link, all_links. rewrite existsb_exists. split.
  - intros (i & Hi & E). apply existsb_exists in E as (l & Hl & E). apply andb_prop in E as [E1 E2].
    apply Z.eqb_eq in E1, E2. exists l. split; [|done]. apply in_concat. exists (iface_link_tree i).
    split; [by apply in_map|done].
  - intros (l & Hl & E1 & E2). apply in_concat in Hl as (ls & Hls & Hl). apply in_map_iff in Hls as (i & <- & Hi).
    exists i. split; [done|]. apply existsb_exists. exists l. split; [done|].
    by rewrite E1, E2, !Z.eqb_refl.
Qed.

Lemma bool_iff (x y : bool) : (x = true <-> y = true) -> x = y.
Proof. destruct x, y; intuition congruence. Qed.

Lemma has_sym_same c1 c2 a :
  (forall l, neighbor_iface_addr l = a -> In l (all_links c1) <-> In l (all_links c2)) ->
  neighbor_has_sym_link c1 a = neighbor_has_sym_link c2 a.
Proof.
  intros H. apply bool_iff. rewrite !has_sym_iff.
  split; intros (l & ? & E & ?); exists l; (split; [by apply H|done]).
Qed.

(** The neighbours' marks leave the symmetric set and the 2-hop sets alone. *)
Lemma assign_fields a s n : neighbor_main_addr (assign_status a s n) = neighbor_main_addr n /\
  neighbor2_tree (assign_status a s n) = neighbor2_tree n.
Proof. unfold assign_status. by destruct (_ =? _). Qed.

Lemma remark_fields M n : neighbor_main_addr (remark M n) = neighbor_main_addr n /\
  neighbor2_tree (remark M n) = neighbor2_tree n /\ is_sym (remark M n) = is_sym n.
Proof.
  unfold remark. destruct (is_sym n) eqn:E; [|done]. do 2 (split; [done|]).
  by destruct (existsb _ _).
Qed.

(** With other marks on the neighbours. *)
Lemma neigh2_ok_same w net n n' : neighbor_main_addr n' = neighbor_main_addr n ->
  neighbor2_tree n' = neighbor2_tree n -> neigh2_ok w net n -> neigh2_ok w net n'.
Proof. intros E1 E2 []. constructor; rewrite ?E1, ?E2; done. Qed.

Lemma keys_marked (f : NeighborElem -> NeighborElem) l :
  (forall n, neighbor_main_addr (f n) = neighbor_main_addr n) -> keys (map f l) = keys l.
Proof. intros Hf. unfold keys. rewrite map_map. apply map_ext. exact Hf. Qed.

Lemma owners_marked (f : NeighborElem -> NeighborElem) l :
  (forall n, neighbor2_tree (f n) = neighbor2_tree n) ->
  concat (map neigh_owner (map f l)) = concat (map neigh_owner l).
Proof. intros Hf. rewrite map_map. f_equal. apply map_ext. intros n. unfold neigh_owner. by rewrite Hf. Qed.

(** ** A change of the links and what it makes of the neighbour *)

(** The neighbour [src] has a status that a HELLO can announce. *)
Definition marked (ctx : OlsrContext) (src : Z) : Prop :=
  forall n, In n (neighbor_tree ctx) -> neighbor_main_addr n = src -> 0 <= neigh_status n < NEIGHBOR_STATUS_END.

(** [ctx'] is [ctx] with the status of the neighbour [src] brought in line. *)
Record status_updated (w : Z) (net : list Z) (ctx ctx' : OlsrContext) (src : Z) : Prop := {
  su_trees : node_trees w net ctx';
  su_sym : forall n, In n (neighbor_tree ctx') -> neighbor_main_addr n = src ->
    is_sym n = neighbor_has_sym_link ctx src;
  su_map : exists f, neighbor_tree ctx' = map f (neighbor_tree ctx) /\
    (forall n, neighbor_main_addr (f n) = neighbor_main_addr n /\ neighbor2_tree (f n) = neighbor2_tree n) /\
    (forall n, neighbor_main_addr n <> src -> f n = n);
  su_marked : marked ctx' src;
  su_frame : same_but_routes ctx ctx';
  su_routes : routes_current ctx -> routes_current ctx'
}.

Lemma set_status_updated w net ctx src s :
  0 <= s < NEIGHBOR_STATUS_END -> node_trees w net ctx -> In src (keys (neighbor_tree ctx)) ->
  ((s =? SYM_NEIGH) || (s =? MPR_NEIGH)) = neighbor_has_sym_link ctx src ->
  exists ctx', set_neighbor_status ctx src s = Ok ctx' /\ status_updated w net ctx ctx' src.
Proof.
  intros Hrange H Hin Hs. destruct (set_neighbor_status_ok w net ctx src s (nw_routing _ _ _ H) Hin)
    as (ctx' & E & Hr & Hn & Hf & Hc).
  exists ctx'. split; [done|]. pose proof Hf as Hf'. unfold same_but_routes in Hf'.
  assert (E1 : local_iface_tree ctx' = local_iface_tree ctx) by (by apply (f_equal local_iface_tree) in Hf').
  assert (E2 : own_ip ctx' = own_ip ctx) by (by apply (f_equal own_ip) in Hf').
  assert (E3 : mpr_tree ctx' = mpr_tree ctx) by (by apply (f_equal mpr_tree) in Hf').
  assert (E4 : selector_tree ctx' = selector_tree ctx) by (by apply (f_equal selector_tree) in Hf').
  assert (E5 : dup_tree ctx' = dup_tree ctx) by (by apply (f_equal dup_tree) in Hf').
  assert (E6 : olsr_tx_msgbuf ctx' = olsr_tx_msgbuf ctx) by (by apply (f_equal olsr_tx_msgbuf) in Hf').
  assert (El : all_links ctx' = all_links ctx) by (unfold all_links; by rewrite E1).
  constructor; [| |by eexists; split; [exact Hn|]; split; [apply assign_fields|];
    intros n Hne; unfold assign_status; rewrite (proj2 (Z.eqb_neq _ _) Hne)| |done|done].
  - destruct H. constructor; rewrite ?E1, ?E2, ?E3, ?E4, ?E5, ?E6, ?El; try done.
    + intros n Hi. rewrite Hn in Hi. apply in_map_iff in Hi as (n0 & <- & Hi).
      destruct (assign_fields src s n0). by apply (neigh2_ok_same w net n0); [..|auto].
    + split; [apply nw_links0|]. rewrite Hn, keys_marked by (intros; apply assign_fields). apply nw_links0.
  - intros n Hi Ha. rewrite Hn in Hi. apply in_map_iff in Hi as (n0 & <- & Hi).
    rewrite (proj1 (assign_fields _ _ _)) in Ha. unfold assign_status. rewrite Ha, Z.eqb_refl. by rewrite <- Hs.
  - intros n Hi Ha. rewrite Hn in Hi. apply in_map_iff in Hi as (n0 & <- & Hi).
    rewrite (proj1 (assign_fields _ _ _)) in Ha. unfold assign_status. by rewrite Ha, Z.eqb_refl.
Qed.

Lemma update_status_ok w net ctx src :
  node_trees w net ctx -> In src (keys (neighbor_tree ctx)) ->
  exists ctx', update_neighbor_status ctx src = Ok ctx' /\ status_updated w net ctx ctx' src.
Proof.
  intros H Hin. unfold update_neighbor_status.
  pose proof (nbr_ok _ _ _ (nw_routing _ _ _ H)) as Hok.
  assert (HW : in_window w src) by (apply (window_of w net ctx); [done|]; by apply (nbr_net _ _ _ (nw_routing _ _ _ H))).
  destruct (search_some (in_window w) _ src Hok HW Hin) as (n & Es & Hn & Hk). cbn in Hk.
  rewrite Es. cbn [deref rbind]. rewrite Hk.
  destruct (neighbor_has_sym_link ctx src) eqn:Esym; [|by apply set_status_updated].
  destruct (Z.eqb_spec (neigh_status n) MPR_NEIGH) as [E|E]; cbn [negb]; [|by apply set_status_updated].
  exists ctx. split; [done|]. constructor; try done.
  - intros n' Hn' Hk'. assert (n' = n) as -> by tree_same. unfold is_sym. rewrite E, Esym. done.
  - exists (fun n => n). by rewrite map_id.
  - intros n' Hn' Hk'. assert (n' = n) as -> by tree_same. by rewrite E.
Qed.

(** All symmetric statuses agree again. *)
Lemma status_updated_agrees w net ctx0 ctx ctx' src :
  status_updated w net ctx ctx' src ->
  neighbor_tree ctx0 = neighbor_tree ctx -> sym_agrees ctx0 ->
  (forall l, neighbor_iface_addr l <> src -> In l (all_links ctx) <-> In l (all_links ctx0)) ->
  sym_agrees ctx'.
Proof.
  intros [_ Hs (f & Hm & Hf & Hid) _ Hfr _] En H0 Hl n Hn.
  assert (El : all_links ctx' = all_links ctx).
  { unfold same_but_routes in Hfr. unfold all_links. apply (f_equal local_iface_tree) in Hfr. cbn in Hfr. by rewrite Hfr. }
  assert (Eh : forall b, neighbor_has_sym_link ctx' b = neighbor_has_sym_link ctx b)
    by (intros b; apply has_sym_same; intros; by rewrite El).
  rewrite Eh. destruct (Z.eq_dec (neighbor_main_addr n) src) as [E|E]; [rewrite E; by apply Hs|].
  rewrite Hm in Hn. apply in_map_iff in Hn as (n0 & <- & Hn). rewrite (proj1 (Hf n0)) in *.
  rewrite Hid by done. rewrite <- En in Hn. rewrite (H0 n0 Hn). apply has_sym_same.
  intros l Hla. symmetry. apply Hl. by rewrite Hla.
Qed.

Lemma status_updated_owners w net ctx ctx' src :
  status_updated w net ctx ctx' src -> owners ctx' = owners ctx /\ timerqueue ctx' = timerqueue ctx.
Proof.
  intros [_ _ (f & Hm & Hf & _) _ Hfr _]. unfold same_but_routes in Hfr.
  split; [|by apply (f_equal timerqueue) in Hfr]. unfold owners, all_links. rewrite Hm, owners_marked by apply Hf.
  pose proof (f_equal local_iface_tree Hfr) as E1. pose proof (f_equal selector_tree Hfr) as E2.
  pose proof (f_equal topology_tree Hfr) as E3. pose proof (f_equal dup_tree Hfr) as E4. cbn in *.
  by rewrite E1, E2, E3, E4.
Qed.

(** ** The routes depend on the symmetric neighbours only *)
Definition sym_incl (l1 l2 : list NeighborElem) : Prop :=
  forall n, In n l1 -> is_sym n = true ->
  exists n', In n' l2 /\ is_sym n' = true /\ neighbor_main_addr n' = neighbor_main_addr n.

Lemma walk_sym own l1 l2 (R : Z -> Z -> Prop) p v : sym_incl l1 l2 -> walk own l1 R p v -> walk own l2 R p v.
Proof.
  intros Hs. induction 1 as [n Hn Hsym|]; [|by econstructor].
  destruct (Hs n Hn Hsym) as (n' & ? & ? & <-). by constructor.
Qed.

Lemma routes_current_sym ctx ctx' :
  own_ip ctx' = own_ip ctx -> topology_tree ctx' = topology_tree ctx ->
  routing_table ctx' = routing_table ctx ->
  sym_incl (neighbor_tree ctx) (neighbor_tree ctx') -> sym_incl (neighbor_tree ctx') (neighbor_tree ctx) ->
  routes_current ctx -> routes_current ctx'.
Proof.
  unfold routes_current. intros -> -> -> H1 H2 [Hs Hm]. split.
  - intros e He. destruct (Hs e He) as [Hw Hh]. split; [|done]. by eapply walk_sym.
  - intros p v Hw. apply Hm. by eapply walk_sym.
Qed.
