(* ===== verification/OlsrStart.v ===== *)
(** Starting a node (simnet/olsr/olsr_route_iface.c, [olsr_start]).

    The invariant of OlsrInv holds when the four periodic timers have been
    started, with the HELLO timer as the anchor of the queue. *)
From S2P Require Import Prelude OrdTree RingBuffer TimerQueue TimerWork TimerOwners OlsrContext OlsrSpf OlsrMantissa OlsrNeighbor OlsrMpr OlsrHello OlsrTc OlsrForwarding OlsrRoute RouteIface OlsrRouteIface OlsrInv.
From stdpp Require Import base list numbers gmap.
From Stdlib Require Import ZArith Lia.
Open Scope Z_scope.
Open Scope c_scope.

(** A queue with the program's own timers only. *)
Record plain_queue (tq : TimerqueueContext olsr_cb) : Prop := {
  pq_tq : tq_ok tq;
  pq_timers : forall p e, heap tq !! p = Some e -> p < next_ptr tq /\ In p (rbt tq) /\ active e = 1 /\
    use_once e = 0 /\ free_on_detach e = 0 /\ detached_callback e = None /\
    exists cb, callback e = Some cb /\ periodic_cb cb = true
}.

Lemma plain_queue_ok tq a e : plain_queue tq -> heap tq !! a = Some e -> queue_ok periodic_cb a tq [].
Proof.
  intros [Hq Ht] Ha. destruct (Ht a e Ha) as (_ & Hin & Hact & Hu & Hf & _ & cb & Hcb & Hp).
  constructor; [|done|by intros q x Hx _; left; apply (Ht q x Hx)|
    split; [done|split; [by left|exists e; rewrite Hact; done]]].
  constructor; try done.
  - constructor.
  - intros p x Hx. by apply (Ht p x Hx).
  - intros p x Hx. by apply (Ht p x Hx).
  - intros p x Hx _. destruct (Ht p x Hx) as (_ & _ & _ & _ & _ & _ & c & ? & ?). eauto.
  - by exists e, cb.
Qed.

Lemma start_periodic tq jitter interval cb :
  plain_queue tq -> periodic_cb cb = true -> 0 <= jitter <= 10000000 -> jitter < interval ->
  interval + jitter < 2 ^ 31 ->
  exists tq', start_timer tq jitter interval 0 (fun _ => cb) = Ok (tq', next_ptr tq) /\
    plain_queue tq' /\ (exists e, heap tq' !! next_ptr tq = Some e) /\
    (forall p, is_Some (heap tq !! p) -> is_Some (heap tq' !! p)).
Proof.
  intros [Hq Ht] Hp Hj Hi Hm. set (p := next_ptr tq).
  assert (Hfresh : heap tq !! p = None).
  { destruct (heap tq !! p) as [x|] eqn:E; [|done]. destruct (Ht p x E). unfold p in *. lia. }
  set (e := mkTimer (mkTimespec 0 0) jitter 0 0 0 interval 0 (Some cb) None).
  set (tq1 := {| heap := <[p := e]> (heap tq); rbt := rbt tq; next_ptr := p + 1; clk := clk tq;
    ticks := ticks tq; rnd := rnd tq; rands := rands tq |}).
  assert (Hout : ~ In p (rbt tq)).
  { intros Hin. destruct (tq_live _ Hq p Hin) as (x & Hx & _). congruence. }
  assert (Hsame : forall q, q <> p -> heap tq1 !! q = heap tq !! q)
    by (intros q Hne; apply lookup_insert_ne; by intros ->).
  destruct (register_entered tq1 p e) as (tq' & E & [Eh Et En Hsh]).
  { destruct Hq as [Hs Hl Hc Hr]. constructor; [|..|done|done].
    - apply (tree_ok_same_keys (heap tq)); [|done]. intros q Hq. unfold key_at. rewrite Hsame; [done|by intros ->].
    - intros q Hq. rewrite Hsame by (by intros ->). destruct (Hl q Hq) as (x & ? & _ & ?). eauto. }
  { apply lookup_insert_eq. }
  { exact Hout. }
  assert (Hnew : heap tq' !! p = Some (registered tq1 e)) by (rewrite Eh; apply lookup_insert_eq).
  assert (Hold : forall q, q <> p -> heap tq' !! q = heap tq !! q)
    by (intros q Hne; rewrite Eh, lookup_insert_ne by done; by apply Hsame).
  exists tq'. split; [|split; [|split; [by eexists|]]].
  - unfold start_timer, timerqueue_new_timer. erewrite poke_ok by (cbn; apply lookup_insert_eq).
    cbn [rbind]. unfold set_heap. cbn [heap rbt next_ptr clk ticks rnd rands]. rewrite insert_insert_eq.
    fold p. cbn. fold e tq1. rewrite E. done.
  - constructor.
    + apply tq_ok_shape. split; [done|]. intros q x Hin Hx. destruct (Z.eq_dec q p) as [->|Hne].
      * rewrite Hnew in Hx. injection Hx as <-. apply registered_ok; [by exists cb|]. by constructor.
      * rewrite Hold in Hx by done. apply Et in Hin as [?|Hin]; [done|].
        destruct (tq_live _ Hq q Hin) as (x' & Hx' & ? & _). congruence.
    + intros q x Hx. rewrite En, Et. change (next_ptr tq1) with (p + 1). destruct (Z.eq_dec q p) as [->|Hne].
      * rewrite Hnew in Hx. injection Hx as <-. split; [lia|]. split; [by left|]. do 4 (split; [done|]). by exists cb.
      * rewrite Hold in Hx by done. destruct (Ht q x Hx) as (? & ? & ?). split; [unfold p; lia|]. split; [by right|done].
  - intros q Hq'. destruct (Z.eq_dec q p) as [->|Hne]; [rewrite Hnew; by eexists|by rewrite Hold].
Qed.

Lemma start_one ctx jitter interval cb :
  plain_queue (timerqueue ctx) -> periodic_cb cb = true -> 0 <= jitter <= 10000000 -> jitter < interval ->
  interval + jitter < 2 ^ 31 ->
  exists tq, (let* r := with_tq ctx (fun tq => start_timer tq jitter interval 0 (fun _ => cb)) in Ok (fst r)) =
      Ok (set_timerqueue ctx tq) /\ plain_queue tq /\
    (exists e, heap tq !! next_ptr (timerqueue ctx) = Some e) /\
    (forall p, is_Some (heap (timerqueue ctx) !! p) -> is_Some (heap tq !! p)).
Proof.
  intros H Hp Hj Hi Hm. destruct (start_periodic _ _ _ _ H Hp Hj Hi Hm) as (tq & E & Hr).
  exists tq. unfold with_tq. rewrite E. done.
Qed.

(** The pointer of the first timer. *)
Definition hello_timer_ptr : Z := next_ptr (@create_timerqueue olsr_cb (fun _ => mkTimespec 0 0) (fun _ => 0)).

Lemma olsr_start_ok w net own st clk rnd blk :
  (length net <= MAX_NODE_COUNT)%nat -> (forall a, In a net -> in_window w a) -> In own net ->
  stats_ok net st [] -> (forall n, normal (clk n)) -> (forall n, 0 <= rnd n) ->
  zlen blk = OLSR_TX_MSGBUF_SIZE + 1 ->
  exists ctx, olsr_start own st clk rnd blk = Ok ctx /\ node_ok w net hello_timer_ptr ctx /\
    own_ip ctx = own /\ all_links ctx = [] /\ neighbor_tree ctx = [] /\ routes_current ctx /\
    contents (olsr_tx_msgbuf ctx) = [] /\ outs ctx = [].
Proof.
  intros Hsz Hwin Hown Hst Hclk Hrnd Hblk. unfold olsr_start, olsr_start_timer.
  set (c0 := init_olsr_context own st clk rnd blk).
  assert (H0 : plain_queue (timerqueue c0)).
  { constructor; [|by intros p e He]. constructor; try done. apply tree_ok_nil. }
  set (h := hello_interval_ms (param c0) * 1000). set (t := tc_interval_ms (param c0) * 1000).
  destruct (start_one c0 (Z.quot h 8) h Cb_olsr_hello_timer H0) as (q1 & E1 & H1 & [e1 He1] & _);
    [done|vm_compute; split; discriminate|done|done|]. rewrite E1. cbn [rbind].
  destruct (start_one (set_timerqueue c0 q1) (Z.quot t 8) t Cb_olsr_tc_timer H1) as (q2 & E2 & H2 & _ & K2);
    [done|vm_compute; split; discriminate|done|done|]. rewrite E2. cbn [rbind].
  destruct (start_one (set_timerqueue (set_timerqueue c0 q1) q2) 0 (50 * 1000) Cb_olsr_send_from_queue H2)
    as (q3 & E3 & H3 & _ & K3); [done|done|done|done|]. rewrite E3. cbn [rbind].
  destruct (start_one (set_timerqueue c0 q3) (100 * 1000) (6000 * 1000) Cb_dump_debuginfo H3)
    as (q4 & E4 & H4 & _ & K4); [done|done|done|done|].
  exists (set_timerqueue c0 q4). split; [exact E4|].
  destruct (K4 hello_timer_ptr) as [e4 He4]; [apply K3, K2; by exists e1|].
  split; [constructor; [|by intros n []|by apply (plain_queue_ok q4 hello_timer_ptr e4)]|].
  - constructor; try done; try (by left); try (split; [apply tree_ok_nil|by intros ? []]).
    + constructor; try done; try apply tree_ok_nil; try (by intros ? []); (split; [apply tree_ok_nil|by intros ? []]).
    + apply tree_ok_nil.
    + apply tree_ok_nil.
  - do 3 (split; [done|]). split; [split; [by intros e []|]; intros p v Hw; exfalso; by induction Hw|].
    split; [apply contents_empty; done|done].
Qed.

(** Nodes of the network [ex_net], with a clock that moves a second with every reading. *)
Definition ex_net : list Z := [1; 2; 3; 4].
Definition ex_clock (n : nat) : timespec := mkTimespec (Z.of_nat n) 0.
Definition ex_started (own : Z) : OlsrContext :=
  match olsr_start own zero_stats ex_clock (fun _ => 0)
          (repeat 0 (Z.to_nat (OLSR_TX_MSGBUF_SIZE + 1))) with
  | Ok ctx => ctx
  | _ => init_olsr_context own zero_stats ex_clock (fun _ => 0) []
  end.

(** Such a node starts well in any network it belongs to. *)
Definition ex_block : list Z := repeat 0 (Z.to_nat (OLSR_TX_MSGBUF_SIZE + 1)).

Lemma ex_stats_ok net : stats_ok net zero_stats [].
Proof.
  constructor; [vm_compute; split; discriminate|reflexivity|constructor|by intros a []| |].
  - intros i Hi. apply repeat_spec in Hi as ->. reflexivity.
  - by intros e [].
Qed.

Lemma ex_clock_normal n : normal (ex_clock n).
Proof. unfold normal. cbn. lia. Qed.

Lemma ex_block_size : zlen ex_block = OLSR_TX_MSGBUF_SIZE + 1.
Proof. vm_compute. reflexivity. Qed.

Lemma ex_started_by w net own :
  (length net <= MAX_NODE_COUNT)%nat -> (forall a, In a net -> in_window w a) -> In own net ->
  olsr_start own zero_stats ex_clock (fun _ => 0) ex_block = Ok (ex_started own) /\
  node_ok w net hello_timer_ptr (ex_started own) /\ own_ip (ex_started own) = own /\
  all_links (ex_started own) = [] /\ neighbor_tree (ex_started own) = [] /\ routes_current (ex_started own) /\
  contents (olsr_tx_msgbuf (ex_started own)) = [] /\ outs (ex_started own) = [].
Proof.
  intros Hsz Hwin Hin. destruct (olsr_start_ok w net own zero_stats ex_clock (fun _ => 0) ex_block
    Hsz Hwin Hin (ex_stats_ok net) ex_clock_normal (fun _ => Z.le_refl 0) ex_block_size) as (ctx & E & H).
  unfold ex_started. fold ex_block. rewrite E. exact (conj eq_refl H).
Qed.

Lemma ex_started_in w net own :
  (length net <= MAX_NODE_COUNT)%nat -> (forall a, In a net -> in_window w a) -> In own net ->
  node_ok w net hello_timer_ptr (ex_started own) /\ own_ip (ex_started own) = own /\
  all_links (ex_started own) = [] /\ neighbor_tree (ex_started own) = [] /\ routes_current (ex_started own) /\
  contents (olsr_tx_msgbuf (ex_started own)) = [] /\ outs (ex_started own) = [].
Proof. intros Hsz Hwin Hin. exact (proj2 (ex_started_by w net own Hsz Hwin Hin)). Qed.

Lemma ex_net_window a : In a ex_net -> in_window 0 a.
Proof. intros H. unfold in_window, is_u32, u32. repeat destruct H as [<-|H]; try lia. done. Qed.

Lemma ex_started_ok own : In own ex_net ->
  node_ok 0 ex_net hello_timer_ptr (ex_started own) /\ own_ip (ex_started own) = own /\
  all_links (ex_started own) = [] /\ neighbor_tree (ex_started own) = [] /\ routes_current (ex_started own) /\
  contents (olsr_tx_msgbuf (ex_started own)) = [] /\ outs (ex_started own) = [].
Proof.
  intros Hin. apply ex_started_in; [vm_compute; lia|exact ex_net_window|done].
Qed.
