(* ===== verification/OlsrHelloRun.v ===== *)
(** The HELLO handler as a whole (simnet/olsr/olsr_hello.c, [process_olsr_hello]).

    The handler works on one link, one neighbour and the queue: [linked] and
    [bridged] name the states it passes through by the place of the link in its
    tree and of the neighbour in its tree.  [process_hello_run] puts the parts
    together, and [process_olsr_hello_correct] says what a node has learned. *)
From S2P Require Import Prelude OrdTree RingBuffer TimerQueue TimerWork TimerOwners OlsrContext OlsrSpf OlsrMantissa OlsrNeighbor OlsrMpr OlsrHello OlsrTc OlsrForwarding OlsrInv OlsrStart.
From stdpp Require Import base list numbers gmap.
From Stdlib Require Import ZArith Lia.
Open Scope Z_scope.
Open Scope c_scope.

Abbreviation queue_holds a tq own := (queue_ok periodic_cb a tq own).

(** The three timers of a link. *)
Record slot (get : LinkElem -> option Z) (set : option Z -> LinkElem -> LinkElem) : Prop := {
  sl_get : forall o l, get (set o l) = o;
  sl_keep : forall o l, neighbor_iface_addr (set o l) = neighbor_iface_addr l /\
    link_local_addr (set o l) = link_local_addr l /\ link_status (set o l) = link_status l;
  sl_in : forall l p, get l = Some p -> In p (link_timers l);
  sl_new : forall l p, get l = None -> Permutation (link_timers (set (Some p) l)) (p :: link_timers l)
}.

Ltac slot_tac := constructor; try done; intros l p E; unfold link_timers in *; cbn; rewrite E; cbn;
  rewrite ?in_app_iff; cbn; auto.

Lemma expire_slot : slot link_expire_timer set_link_expire_timer.
Proof.
  slot_tac. rewrite app_nil_r, app_assoc, Permutation_app_comm. done.
Qed.
Lemma asym_slot : slot asym_timer set_asym_timer.
Proof. slot_tac. by rewrite Permutation_middle. Qed.
Lemma sym_slot : slot sym_timer set_sym_timer.
Proof. slot_tac. Qed.

(** ** The link *)
Section Link.
Context (w a : Z) (ctx : OlsrContext) (l1 l2 : list LinkElem) (R : list (Z * olsr_cb)) (src vtime : Z).
Hypothesis Hvt : 0 < vtime_us vtime < 2 ^ 31.

Definition linked (tq : TimerqueueContext olsr_cb) (lk : LinkElem) : OlsrContext :=
  set_local_iface_tree (set_timerqueue ctx tq) [mkIface (own_ip ctx) (l1 ++ lk :: l2)].

(** [lk] is the link to [src] and has its place between the others. *)
Record placed (lk : LinkElem) : Prop := {
  pl_key : neighbor_iface_addr lk = src;
  pl_local : link_local_addr lk = own_ip ctx;
  pl_tree : tree_ok (in_window w) (l1 ++ lk :: l2)
}.

Lemma placed_same lk lk' : neighbor_iface_addr lk' = neighbor_iface_addr lk ->
  link_local_addr lk' = link_local_addr lk -> placed lk -> placed lk'.
Proof using.
  intros E1 E2 [? ? Ht]. constructor; [congruence|congruence|]. by apply (zip_swap (in_window w) l1 l2 lk).
Qed.

Lemma find_linked tq lk : placed lk -> find_link (linked tq lk) (own_ip ctx) src = Ok lk.
Proof using.
  intros [Hk _ Ht]. unfold find_link, linked. cbn [local_iface_tree set_local_iface_tree rbtree_search tkey
    iface_key local_iface_addr tcmp]. rewrite compare_refl. cbn [Z.eqb deref rbind iface_link_tree].
  rewrite <- Hk. change (neighbor_iface_addr lk) with (tkey lk). by rewrite (zip_search (in_window w)).
Qed.

Lemma upd_linked tq lk f : placed lk -> upd_link (linked tq lk) (own_ip ctx) src f = Ok (linked tq (f lk)).
Proof using.
  intros Hp. unfold upd_link. rewrite find_linked by done. cbn [rbind]. destruct Hp as [Hk _ Ht].
  unfold upd_links, linked. cbn [local_iface_tree set_local_iface_tree tree_update tkey iface_key
    local_iface_addr tcmp]. rewrite compare_refl. cbn [Z.eqb set_links iface_link_tree local_iface_addr].
  rewrite <- Hk. change (neighbor_iface_addr lk) with (tkey lk). by rewrite (zip_update (in_window w)).
Qed.

(** Starting or rewinding one of its timers. *)
Lemma timer_set_ok get set tq lk :
  slot get set -> placed lk -> queue_holds a tq (link_owner lk ++ R) ->
  exists tq' lk' q, link_elem_timer_set (linked tq lk) (own_ip ctx) src vtime get set = Ok (linked tq' lk') /\
    queue_holds a tq' (link_owner lk' ++ R) /\ placed lk' /\
    get lk' = Some q /\ lk' = match get lk with Some _ => lk | None => set (Some q) lk end /\
    keeps tq tq' q /\ armed tq' q (vtime_us vtime).
Proof using Hvt.
  intros Hs Hp Hq. unfold link_elem_timer_set. rewrite find_linked by done. cbn [rbind].
  destruct (get lk) as [p|] eqn:Eg.
  - assert (Hin : In (p, link_cb lk) (link_owner lk ++ R)).
    { apply in_app_iff. left. apply (in_map (fun p => (p, link_cb lk))). by apply (sl_in _ _ Hs). }
    destruct (ow_live _ _ _ _ (qo_owners _ _ _ _ Hq) p _ Hin) as (e & He & _).
    destruct (rewind_owned periodic_cb a tq _ p _ e (vtime_us vtime) Hq Hin He) as (tq' & E & Hq' & Hk & _ & Ha);
      [by left|].
    exists tq', lk, p. unfold upd_tq. change (timerqueue (linked tq lk)) with tq.
    change (let* tq := poke tq p (set_interval (vtime_us vtime)) in timerqueue_reactivate_timer tq p)
      with (rewind tq p (vtime_us vtime)). rewrite E. cbn [rbind]. done.
  - unfold with_tq. change (timerqueue (linked tq lk)) with tq.
    destruct (start_owned periodic_cb a tq _ (vtime_us vtime) 1 (fun _ => Cb_link_timer_expire (own_ip ctx) src) Hq)
      as (tq' & E & Hq' & Hk & _ & Ha); [done|done|]. rewrite E. cbn [rbind fst snd].
    set (q := next_ptr tq) in *.
    change (set_timerqueue (linked tq lk) tq') with (linked tq' lk). rewrite upd_linked by done.
    destruct (sl_keep _ _ Hs (Some q) lk) as (E1 & E2 & E3).
    exists tq', (set (Some q) lk), q. split; [done|]. split.
    + unfold link_owner, link_cb. rewrite E1, E2, (pl_key _ Hp), (pl_local _ Hp).
      rewrite (sl_new _ _ Hs) by done. cbn [map app].
      unfold link_owner, link_cb in Hq'. by rewrite (pl_key _ Hp), (pl_local _ Hp) in Hq'.
    + split; [by apply (placed_same lk)|]. split; [apply (sl_get _ _ Hs)|done].
Qed.

Lemma status_same s lk : link_owner (set_link_status s lk) = link_owner lk /\
  neighbor_iface_addr (set_link_status s lk) = neighbor_iface_addr lk /\
  link_local_addr (set_link_status s lk) = link_local_addr lk /\
  link_expire_timer (set_link_status s lk) = link_expire_timer lk /\
  asym_timer (set_link_status s lk) = asym_timer lk /\
  sym_timer (set_link_status s lk) = sym_timer lk /\ link_status (set_link_status s lk) = s.
Proof using. unfold set_link_status. by destruct (Z.eqb_spec (link_status lk) s). Qed.

(** The timers of one link are different. *)
Lemma timers_distinct tq lk p :
  queue_holds a tq (link_owner lk ++ R) -> link_expire_timer lk = Some p ->
  asym_timer lk <> Some p /\ sym_timer lk <> Some p.
Proof using.
  intros Hq Ep. pose proof (ow_nodup _ _ _ _ (qo_owners _ _ _ _ Hq)) as Hn.
  rewrite map_app in Hn. apply NoDup_app_remove_r in Hn. unfold link_owner, link_timers in Hn.
  rewrite map_map, map_id, Ep in Hn. cbn [opt_list fst] in Hn. split; intros Eq; rewrite Eq in Hn; cbn in Hn.
  - apply NoDup_app_remove_l in Hn. inversion Hn as [|? ? Hx]; subst. apply Hx. by left.
  - inversion Hn as [|? ? Hx]; subst. apply Hx, in_app_iff. right. by left.
Qed.

(** A link of which the sender announces the code [c] has been heard there. *)
Definition sym_heard (c : Z) : bool :=
  negb (c =? STATUS_UNAVAILABLE) && ((EXTRACT_LINK c =? SYM_LINK) || (EXTRACT_LINK c =? ASYM_LINK)).

Definition status_after (c old : Z) : Z :=
  if sym_heard c || (old =? SYM_LINK) then SYM_LINK else ASYM_LINK.

(** The link has been heard: the first two steps of the handler. *)
Lemma link_heard_ok tq lk :
  placed lk -> queue_holds a tq (link_owner lk ++ R) ->
  exists tq' lk' q q2, (let* ctx' := link_elem_expire_timer_set (linked tq lk) (own_ip ctx) src vtime in
      link_elem_asym_timer_set ctx' (own_ip ctx) src vtime) = Ok (linked tq' lk') /\
    queue_holds a tq' (link_owner lk' ++ R) /\ placed lk' /\
    link_status lk' = status_after STATUS_UNAVAILABLE (link_status lk) /\ asym_timer lk' = Some q2 /\
    link_expire_timer lk' = Some q /\ armed tq' q (vtime_us vtime).
Proof using Hvt.
  intros Hp Hq. unfold link_elem_expire_timer_set.
  destruct (timer_set_ok _ _ tq lk expire_slot Hp Hq) as (tq1 & lk1 & q & -> & Hq1 & Hp1 & Eq1 & E1 & _ & Ha1).
  cbn [rbind]. assert (Es1 : link_status lk1 = link_status lk)
    by (rewrite E1; by destruct (link_expire_timer lk)).
  unfold link_elem_asym_timer_set. rewrite find_linked by done. cbn [rbind]. rewrite Es1.
  set (lk1' := if negb (link_status lk =? SYM_LINK) then set_link_status ASYM_LINK lk1 else lk1).
  assert (H1' : link_owner lk1' = link_owner lk1 /\ placed lk1' /\ link_expire_timer lk1' = Some q /\
      link_status lk1' = status_after STATUS_UNAVAILABLE (link_status lk)).
  { unfold lk1', status_after. cbn [sym_heard negb orb andb Z.eqb STATUS_UNAVAILABLE Pos.eqb].
    destruct (status_same ASYM_LINK lk1) as (F1 & F2 & F3 & F4 & _ & _ & F7).
    destruct (Z.eqb_spec (link_status lk) SYM_LINK) as [E|E]; cbn [negb].
    - by rewrite Es1, E.
    - rewrite F1, F4, F7. split; [done|]. split; [|done]. by apply (placed_same lk1). }
  destruct H1' as (Eo & Hp1' & Eq1' & Es1').
  replace (if negb (link_status lk =? SYM_LINK)
    then upd_link (linked tq1 lk1) (own_ip ctx) src (set_link_status ASYM_LINK) else Ok (linked tq1 lk1))
    with (Ok (linked tq1 lk1')) by (unfold lk1'; destruct (negb _); [by rewrite upd_linked|done]).
  cbn [rbind]. rewrite <- Eo in Hq1.
  destruct (timer_set_ok _ _ tq1 lk1' asym_slot Hp1' Hq1) as (tq2 & lk2 & q2 & -> & Hq2 & Hp2 & Eq2 & E2 & Hk2 & Ha2).
  assert (F2 : link_expire_timer lk2 = Some q /\ link_status lk2 = link_status lk1')
    by (rewrite E2; destruct (asym_timer lk1'); by rewrite <- ?Eq1'). destruct F2 as [Eq2' Es2].
  exists tq2, lk2, q, q2. split; [done|]. split; [done|]. split; [done|]. split; [by rewrite Es2|].
  split; [done|]. split; [done|]. eapply keeps_armed; [exact Hk2| |done]. intros ->.
  by apply (proj1 (timers_distinct tq2 lk2 q2 Hq2 Eq2')).
Qed.

(** ... and perhaps in the other direction too. *)
Lemma link_sym_ok c tq lk old q q2 :
  placed lk -> queue_holds a tq (link_owner lk ++ R) ->
  link_status lk = status_after STATUS_UNAVAILABLE old -> asym_timer lk = Some q2 ->
  link_expire_timer lk = Some q -> armed tq q (vtime_us vtime) ->
  exists tq' lk', (if sym_heard c then link_elem_sym_timer_set (linked tq lk) (own_ip ctx) src vtime
      else Ok (linked tq lk)) = Ok (linked tq' lk') /\
    queue_holds a tq' (link_owner lk' ++ R) /\ placed lk' /\ link_ok (own_ip ctx) lk' /\
    link_status lk' = status_after c old /\
    link_expire_timer lk' = Some q /\ armed tq' q (vtime_us vtime).
Proof using Hvt.
  intros Hp Hq Es Ea Ee Har.
  assert (Hst : status_after STATUS_UNAVAILABLE old = ASYM_LINK \/
                status_after STATUS_UNAVAILABLE old = SYM_LINK)
    by (unfold status_after; destruct (_ || _); auto).
  unfold status_after in Es, Hst |- *. destruct (sym_heard c); cbn [orb].
  - unfold link_elem_sym_timer_set. rewrite upd_linked by done. cbn [rbind].
    destruct (status_same SYM_LINK lk) as (G1 & G2 & G3 & G4 & G5 & G6 & G7).
    rewrite <- G1 in Hq. assert (Hp2 : placed (set_link_status SYM_LINK lk)) by (by apply (placed_same lk)).
    destruct (timer_set_ok _ _ tq _ sym_slot Hp2 Hq) as (tq3 & lk3 & q3 & -> & Hq3 & Hp3 & Eq3 & E3 & Hk3 & Ha3).
    assert (F3 : link_expire_timer lk3 = Some q /\ asym_timer lk3 = Some q2 /\ link_status lk3 = SYM_LINK /\
        link_local_addr lk3 = link_local_addr lk).
    { rewrite E3. destruct (sym_timer (set_link_status SYM_LINK lk)); cbn; by rewrite G3, G4, G5, G7. }
    destruct F3 as (Eq3' & Ea3 & Es3 & El3).
    exists tq3, lk3. split; [done|]. split; [done|]. split; [done|]. split.
    + constructor; [rewrite El3; apply Hp|by right|]. split; eauto.
    + split; [done|]. split; [done|]. eapply keeps_armed; [exact Hk3| |done]. intros ->.
      by apply (proj2 (timers_distinct tq3 lk3 q3 Hq3 Eq3')).
  - exists tq, lk. split; [done|]. split; [done|]. split; [done|]. split.
    + constructor; [apply Hp|by rewrite Es|]. split; eauto.
    + split; [by rewrite Es|]. done.
Qed.
End Link.

(** Other timers than the one that was rewound. *)
Lemma armed_frame a tq tq' X R q p i :
  queue_holds a tq' (X ++ R) -> keeps tq tq' q -> In q (map fst X) -> In p (map fst R) ->
  armed tq p i -> armed tq' p i.
Proof.
  intros Hq Hk Hx Hr. apply keeps_armed with (p := q); [done|]. intros ->.
  pose proof (ow_nodup _ _ _ _ (qo_owners _ _ _ _ Hq)) as Hn. rewrite map_app in Hn.
  revert Hn. induction (map fst X) as [|x l IH]; [done|]. cbn. intros Hn. inversion Hn as [|? ? H1 H2]; subst.
  destruct Hx as [->|Hx]; [apply H1, in_app_iff; by right|]. by apply IH.
Qed.

(** ** The selector *)
Lemma update_selector_ok w a ctx src vtime R :
  0 < vtime_us vtime < 2 ^ 31 -> in_window w src -> tree_ok (in_window w) (selector_tree ctx) ->
  queue_holds a (timerqueue ctx) (map selector_owner (selector_tree ctx) ++ R) ->
  exists tq' sel', update_mpr_selector ctx src src vtime =
      Ok (set_selector_tree (set_timerqueue ctx tq') sel') /\
    queue_holds a tq' (map selector_owner sel' ++ R) /\ tree_ok (in_window w) sel' /\
    (forall k, In k (keys sel') <-> k = src \/ In k (keys (selector_tree ctx))) /\
    (forall p i, In p (map fst R) -> armed (timerqueue ctx) p i -> armed tq' p i).
Proof.
  intros Hvt Hw Ht Hq. unfold update_mpr_selector. set (sel := selector_tree ctx) in *.
  destruct (rbtree_search sel src) as [s|] eqn:Es.
  - apply (search_iff (in_window w)) in Es as [Hin Hk]; [|done|done]. cbn in Hk. cbn [rbind].
    assert (Hown : In (selector_owner s) (map selector_owner sel ++ R)) by (apply in_app_iff; left; by apply in_map).
    destruct (ow_live _ _ _ _ (qo_owners _ _ _ _ Hq) _ _ Hown) as (e & He & _).
    destruct (rewind_owned periodic_cb a _ _ _ _ e (vtime_us vtime) Hq Hown He) as (tq' & E & Hq' & Hkp & _ & _);
      [by left|].
    exists tq', sel. unfold upd_tq. unfold rewind, selector_owner in E. cbn [fst] in E. rewrite E. cbn [rbind]. change (selector_tree (set_timerqueue ctx tq')) with sel.
    pose proof (in_keys _ _ _ Hin Hk) as Hks.
    rewrite (put_there (in_window w)) by (done || (cbn; rewrite Hk; done)).
    split; [done|]. split; [done|]. split; [done|]. split; [intros k; split; [by right|by intros [->|]]|].
    intros p i Hp Ha. eapply armed_frame; [exact Hq'|exact Hkp| |done|done].
    rewrite map_map. by apply (in_map (fun s => fst (selector_owner s))).
  - destruct (start_rewound periodic_cb a _ _ (vtime_us vtime) (Cb_mpr_selector_expire src) Hq)
      as (tq1 & tq' & E1 & E2 & Hq' & Hkp & _ & _); [done|done|].
    set (q := next_ptr (timerqueue ctx)) in *. unfold with_tq. rewrite E1. cbn [rbind fst snd].
    set (s := {| selector_addr := src |}). unfold upd_tq. cbn [selector_expire_timer timerqueue set_timerqueue].
    change (selector_expire_timer s) with q. unfold rewind in E2. rewrite E2. cbn [rbind].
    destruct (put_fresh (in_window w) sel s Ht Hw Es) as [Hok Hp].
    exists tq', (tree_put sel s). split; [done|]. split; [|split; [done|split]].
    + by rewrite Hp.
    + intros k. by rewrite (keys_put (in_window w)).
    + intros p i Hpr Ha. eapply (armed_frame a _ tq' (selector_owner s :: map selector_owner sel) R q);
        [exact Hq'|exact Hkp|by left|done|done].
Qed.

(** ** The 2-hop neighbours *)
Section Bridge.
Context (w a : Z) (ctx : OlsrContext) (m1 m2 : list NeighborElem) (n : NeighborElem)
  (R : list (Z * olsr_cb)) (vtime : Z).
Hypothesis (Hvt : 0 < vtime_us vtime < 2 ^ 31) (Hn : tree_ok (in_window w) (m1 ++ n :: m2)).

Definition bridged (tq : TimerqueueContext olsr_cb) (t : list Neighbor2Elem) : OlsrContext :=
  set_neighbor_tree (set_timerqueue ctx tq) (m1 ++ set_neighbor2_tree t n :: m2).

Lemma bridged_tree t : tree_ok (in_window w) (m1 ++ set_neighbor2_tree t n :: m2).
Proof using Hn. by apply (zip_swap (in_window w) m1 m2 n). Qed.

Record bridge_ok (t : list Neighbor2Elem) : Prop := {
  br_tree : tree_ok (in_window w) t;
  br_addr : forall e, In e t -> bridge_addr e = neighbor_main_addr n
}.

Lemma update_neigh2_ok tq t x :
  bridge_ok t -> in_window w x -> queue_holds a tq (map neigh2_owner t ++ R) ->
  exists tq' t', update_neigh2_tuple (bridged tq t) (neighbor_main_addr n) x vtime = Ok (bridged tq' t') /\
    queue_holds a tq' (map neigh2_owner t' ++ R) /\ bridge_ok t' /\
    (forall k, In k (keys t') <-> k = x \/ In k (keys t)) /\
    (forall p i, In p (map fst R) -> armed tq p i -> armed tq' p i).
Proof using Hvt Hn.
  intros [Ht Hb] Hx Hq. unfold update_neigh2_tuple.
  assert (Es : rbtree_search (neighbor_tree (bridged tq t)) (neighbor_main_addr n) =
    Some (set_neighbor2_tree t n)) by apply (zip_search (in_window w) m1 m2 _ (bridged_tree t)).
  rewrite Es. cbn [deref rbind neighbor2_tree set_neighbor2_tree].
  destruct (rbtree_search t x) as [e|] eqn:Ee.
  - apply (search_iff (in_window w)) in Ee as [Hin Hk]; [|done|done]. cbn in Hk.
    assert (Hown : In (neigh2_owner e) (map neigh2_owner t ++ R)) by (apply in_app_iff; left; by apply in_map).
    destruct (ow_live _ _ _ _ (qo_owners _ _ _ _ Hq) _ _ Hown) as (te & Hte & _).
    destruct (rewind_owned periodic_cb a _ _ _ _ te (vtime_us vtime) Hq Hown Hte) as (tq' & E & Hq' & Hkp & _ & _);
      [by left|].
    exists tq', t. unfold upd_tq. change (timerqueue (bridged tq t)) with tq.
    unfold rewind, neigh2_owner in E. cbn [fst] in E.
    rewrite E. cbn [rbind]. split; [done|]. split; [done|]. split; [done|].
    pose proof (in_keys _ _ _ Hin Hk) as Hks.
    split; [intros k; split; [by right|by intros [->|]]|].
    intros p i Hp Ha. eapply armed_frame; [exact Hq'|exact Hkp| |done|done].
    rewrite map_map. by apply (in_map (fun e => fst (neigh2_owner e))).
  - set (cb := Cb_neigh2_elem_expire (neighbor_main_addr (set_neighbor2_tree t n)) x).
    destruct (start_owned periodic_cb a _ _ (vtime_us vtime) 1 cb Hq) as (tq' & E & Hq' & Hkp & _ & _); [done|done|].
    unfold with_tq. change (timerqueue (bridged tq t)) with tq. rewrite E. cbn [rbind fst snd].
    set (q := next_ptr tq) in *.
    set (e := {| neighbor2_main_addr := x |}).
    destruct (put_fresh (in_window w) t e Ht Hx Ee) as [Hok Hp].
    exists tq', (tree_put t e). split.
    + unfold upd_neighbor2. f_equal. unfold bridged. cbn [neighbor_tree set_neighbor_tree set_timerqueue].
      change (neighbor_main_addr n) with (tkey (set_neighbor2_tree t n)).
      by rewrite (zip_update (in_window w)) by apply bridged_tree.
    + split; [by rewrite Hp|]. split; [|split].
      * split; [done|]. intros e' He'. rewrite Hp in He'. destruct He' as [<-|?]; [done|auto].
      * intros k. by rewrite (keys_put (in_window w)).
      * intros p i Hpr Ha. eapply (armed_frame a _ tq' (neigh2_owner e :: map neigh2_owner t) R q);
          [exact Hq'|exact Hkp|by left|done|done].
Qed.

Lemma note_neighbors2_ok addrs : forall tq t,
  Forall (in_window w) addrs -> bridge_ok t -> queue_holds a tq (map neigh2_owner t ++ R) ->
  exists tq' t', note_neighbors2 (neighbor_main_addr n) vtime addrs (bridged tq t) = Ok (bridged tq' t') /\
    queue_holds a tq' (map neigh2_owner t' ++ R) /\ bridge_ok t' /\
    (forall k, In k (keys t') <-> (In k addrs /\ k <> own_ip ctx) \/ In k (keys t)) /\
    (forall p i, In p (map fst R) -> armed tq p i -> armed tq' p i).
Proof using Hvt Hn.
  induction addrs as [|x addrs IH]; intros tq t Hall Hb Hq; cbn [note_neighbors2 rfold].
  { exists tq, t. split; [done|]. split; [done|]. split; [done|]. split; [|auto].
    intros k. cbn. tauto. }
  inversion Hall as [|? ? Hx Hall']; subst. change (own_ip (bridged tq t)) with (own_ip ctx).
  destruct (Z.eqb_spec x (own_ip ctx)) as [Ex|Ex]; cbn [rbind].
  - destruct (IH tq t Hall' Hb Hq) as (tq' & t' & E & Hq' & Hb' & Hk & Hf). exists tq', t'.
    split; [exact E|]. split; [done|]. split; [done|]. split; [|done].
    intros k. rewrite Hk. cbn. intuition congruence.
  - destruct (update_neigh2_ok tq t x Hb Hx Hq) as (tq1 & t1 & -> & Hq1 & Hb1 & Hk1 & Hf1). cbn [rbind].
    destruct (IH tq1 t1 Hall' Hb1 Hq1) as (tq' & t' & E & Hq' & Hb' & Hk & Hf). exists tq', t'.
    split; [exact E|]. split; [done|]. split; [done|]. split; [|auto].
    intros k. rewrite Hk, Hk1. cbn. intuition congruence.
Qed.
End Bridge.

(** ** What a node knows of its neighbourhood *)

(** The neighbour [b] has reported [x]. *)
Definition reaches (l : list NeighborElem) (b x : Z) : Prop :=
  exists n, In n l /\ neighbor_main_addr n = b /\ In x (keys (neighbor2_tree n)).

(** Other marks on the neighbours, which change neither statement. *)
Definition marks_only (f : NeighborElem -> NeighborElem) : Prop :=
  forall n, neighbor_main_addr (f n) = neighbor_main_addr n /\ neighbor2_tree (f n) = neighbor2_tree n /\
    is_sym (f n) = is_sym n.

Lemma exists_marked (P : NeighborElem -> Prop) f l : (forall n, P (f n) <-> P n) ->
  (exists n, In n (map f l) /\ P n) <-> exists n, In n l /\ P n.
Proof.
  intros Hf. split.
  - intros (n & Hn & HP). apply in_map_iff in Hn as (n0 & <- & Hn). exists n0. by rewrite <- Hf.
  - intros (n & Hn & HP). exists (f n). rewrite Hf. split; [by apply in_map|done].
Qed.

Lemma symmetric_marked f l b : marks_only f -> OlsrMpr.symmetric (map f l) b <-> OlsrMpr.symmetric l b.
Proof. intros Hf. apply exists_marked. intros n. by destruct (Hf n) as (-> & _ & ->). Qed.
Lemma bridges_marked f l b x : marks_only f -> bridges (map f l) b x <-> bridges l b x.
Proof. intros Hf. apply exists_marked. intros n. by destruct (Hf n) as (-> & -> & ->). Qed.
Lemma reaches_marked f l b x : marks_only f -> reaches (map f l) b x <-> reaches l b x.
Proof. intros Hf. apply exists_marked. intros n. by destruct (Hf n) as (-> & -> & _). Qed.

Lemma covers_marked f own l mprs : marks_only f -> covers own l mprs -> covers own (map f l) mprs.
Proof.
  intros Hf Hc x (Ho & Hns & b & Hb). rewrite symmetric_marked in Hns by done. rewrite bridges_marked in Hb by done.
  destruct (Hc x) as (m & Hm & Hb'); [by split; [|split; [|exists b]]|]. exists m.
  by rewrite bridges_marked.
Qed.

(** One neighbour in its place, and the others. *)
Lemma exists_zip (P : NeighborElem -> Prop) m1 m2 n :
  (exists x, In x (m1 ++ n :: m2) /\ P x) <-> P n \/ exists x, In x (m1 ++ m2) /\ P x.
Proof.
  split.
  - intros (x & Hx & HP). apply in_app_iff in Hx as [Hx|[->|Hx]]; [right| by left|right];
      exists x; (split; [apply in_app_iff; auto|done]).
  - intros [HP|(x & Hx & HP)]; [exists n; split; [apply in_elt|done]|].
    exists x. split; [|done]. apply in_app_iff in Hx as [Hx|Hx]; apply in_app_iff; [by left|right; by right].
Qed.

(** ** The interface and the neighbour *)
Definition ensure_iface (ctx : OlsrContext) : OlsrContext :=
  match rbtree_search (local_iface_tree ctx) (own_ip ctx) with
  | Some _ => ctx
  | None => make_new_local_iface_elem ctx
  end.
Definition ensure_neighbor (ctx : OlsrContext) (src will : Z) : OlsrContext :=
  match rbtree_search (neighbor_tree ctx) src with
  | Some _ => ctx
  | None => set_neighbor_tree ctx (tree_put (neighbor_tree ctx) (make_neighbor_elem src will))
  end.

Lemma ensure_iface_ok w net a ctx :
  node_ok w net a ctx ->
  local_iface_tree (ensure_iface ctx) = [mkIface (own_ip ctx) (all_links ctx)] /\
  ensure_iface ctx = set_local_iface_tree ctx [mkIface (own_ip ctx) (all_links ctx)].
Proof.
  intros [H _ _]. unfold ensure_iface. destruct (nw_iface _ _ _ H) as [E|E].
  - unfold make_new_local_iface_elem, all_links. rewrite E. done.
  - rewrite E at 1 2. cbn [rbtree_search tkey iface_key local_iface_addr tcmp]. rewrite compare_refl.
    cbn [Z.eqb]. split; [done|]. rewrite <- E. by destruct ctx.
Qed.

Lemma all_links_one ctx i l : all_links (set_local_iface_tree ctx [mkIface i l]) = l.
Proof. unfold all_links. cbn. apply app_nil_r. Qed.

(** What the preparation leaves. *)
Record prepared (w : Z) (net : list Z) (a : Z) (ctx ctx1 : OlsrContext) (src : Z) : Prop := {
  pr_node : node_ok w net a ctx1;
  pr_iface : local_iface_tree ctx1 = [mkIface (own_ip ctx1) (all_links ctx)];
  pr_links : all_links ctx1 = all_links ctx;
  pr_there : In src (keys (neighbor_tree ctx1));
  pr_known : forall b, In b (keys (neighbor_tree ctx1)) <-> b = src \/ In b (keys (neighbor_tree ctx));
  pr_sym : forall b, OlsrMpr.symmetric (neighbor_tree ctx1) b <-> OlsrMpr.symmetric (neighbor_tree ctx) b;
  pr_reach : forall b x, reaches (neighbor_tree ctx1) b x <-> reaches (neighbor_tree ctx) b x;
  pr_routes : routes_current ctx -> routes_current ctx1;
  pr_frame : set_local_iface_tree (set_neighbor_tree ctx (neighbor_tree ctx1)) (local_iface_tree ctx1) = ctx1
}.

Lemma prepare_ok w net a ctx src will :
  node_ok w net a ctx -> In src net ->
  prepared w net a ctx (ensure_neighbor (ensure_iface ctx) src will) src.
Proof.
  intros H Hsrc. destruct (ensure_iface_ok w net a ctx H) as [Ei Ec]. rewrite Ec in *. clear Ei.
  set (c0 := set_local_iface_tree ctx [mkIface (own_ip ctx) (all_links ctx)]).
  assert (El : all_links c0 = all_links ctx) by apply all_links_one.
  assert (Hh : forall b, neighbor_has_sym_link c0 b = neighbor_has_sym_link ctx b)
    by (intros b; apply has_sym_same; intros; by rewrite El).
  assert (H0 : node_ok w net a c0).
  { destruct H as [Ht Hs Hq]. constructor.
    - destruct Ht as [Hr ? ? ? ? ? ? ? ? ?]. constructor; rewrite ?El; try done;
        [by destruct Hr; constructor|by right].
    - intros n Hn. rewrite Hh. by apply Hs.
    - unfold owners. by rewrite El. }
  pose proof (window_of w net c0 src (nd_trees _ _ _ _ H0) Hsrc) as HW.
  unfold ensure_neighbor. destruct (rbtree_search (neighbor_tree c0) src) as [n|] eqn:Es.
  - apply (search_iff (in_window w)) in Es as [Hn Hk]; [|apply (nw_routing _ _ _ (nd_trees _ _ _ _ H0))|done].
    pose proof (in_keys _ _ _ Hn Hk). constructor; try done. intros b. split; [by right|by intros [->|]].
  - set (n0 := make_neighbor_elem src will).
    pose proof (nbr_ok _ _ _ (nw_routing _ _ _ (nd_trees _ _ _ _ H0))) as Hok.
    destruct (put_fresh (in_window w) (neighbor_tree c0) n0 Hok HW Es) as [Hok1 Hp].
    apply (search_none_iff (in_window w)) in Es; [|done|done].
    assert (Hin : forall n, In n (tree_put (neighbor_tree c0) n0) <-> n = n0 \/ In n (neighbor_tree ctx))
      by (intros n; rewrite Hp; cbn; intuition congruence).
    constructor; cbn [neighbor_tree set_neighbor_tree].
    + destruct H0 as [Ht Hs Hq]. constructor.
      * destruct Ht as [Hr ? Hn2 ? ? ? ? ? Hli ?]. constructor; try done; cbn [neighbor_tree set_neighbor_tree].
        -- destruct Hr as [? ? ? Hnet ? ? ? ? ? ? ?]. constructor; try done; cbn [neighbor_tree set_neighbor_tree].
           intros k Hk. rewrite (keys_put (in_window w)) in Hk by done. destruct Hk as [->|Hk]; [done|].
           by apply Hnet.
        -- intros n Hn. apply Hin in Hn as [->|Hn]; [|auto].
           constructor; [apply tree_ok_nil|by intros ? []|by intros ? []].
        -- split; [apply Hli|]. intros k Hk. rewrite (keys_put (in_window w)) by done. right.
           by apply Hli.
      * intros n Hn. apply Hin in Hn as [->|Hn]; [|by apply Hs].
        symmetry. apply not_true_is_false. rewrite has_sym_iff. intros (l & Hl & Ea & _). apply Es.
        apply (proj2 (nw_links _ _ _ Ht)). apply (in_keys _ l); [exact Hl|done].
      * unfold owners. cbn [neighbor_tree set_neighbor_tree].
        change (all_links (set_neighbor_tree c0 _)) with (all_links c0).
        assert (E : Permutation (concat (map neigh_owner (tree_put (neighbor_tree c0) n0)))
                                (concat (map neigh_owner (neighbor_tree c0)))) by (by rewrite Hp).
        rewrite E. exact Hq.
    + done.
    + exact El.
    + apply (keys_put (in_window w)); [done|done|by left].
    + intros b. by rewrite (keys_put (in_window w)).
    + intros b. split; [|intros (n & Hn & ?); exists n; rewrite Hin; by split; [right|]].
      intros (n & Hn & Hsym & ?). apply Hin in Hn as [->|Hn]; [done|by exists n].
    + intros b x. split; [|intros (n & Hn & ?); exists n; rewrite Hin; by split; [right|]].
      intros (n & Hn & ? & Hx). apply Hin in Hn as [->|Hn]; [done|by exists n].
    + apply routes_current_sym; try done; intros n Hn Hs.
      * exists n. split; [apply Hin; by right|done].
      * apply Hin in Hn as [->|Hn]; [done|by exists n].
    + done.
Qed.

(** ** The place of the link *)
Definition old_status (ctx : OlsrContext) (src : Z) : Z :=
  match rbtree_search (all_links ctx) src with Some l => link_status l | None => LOST_LINK end.

(** The timers of everything but the links. *)
Definition other_owners (ctx : OlsrContext) : list (Z * olsr_cb) :=
  concat (map neigh_owner (neighbor_tree ctx)) ++ map selector_owner (selector_tree ctx) ++
  map topo_owner (topology_tree ctx) ++ map dup_owner (dup_tree ctx).

Lemma owners_linked ctx l1 l2 tq lk :
  Permutation (owners (linked ctx l1 l2 tq lk))
    (link_owner lk ++ concat (map link_owner (l1 ++ l2)) ++ other_owners ctx).
Proof.
  unfold owners, linked. rewrite all_links_one. fold (other_owners ctx).
  rewrite !map_app, !concat_app. cbn [map concat]. cbn. app_perm. done.
Qed.

Definition first_step (ctx : OlsrContext) (src vtime : Z) : res OlsrContext :=
  let* iface := deref (rbtree_search (local_iface_tree ctx) (own_ip ctx)) in
  match rbtree_search (iface_link_tree iface) src with
  | None => make_link_elem ctx src (own_ip ctx) vtime
  | Some _ => link_elem_expire_timer_set ctx (own_ip ctx) src vtime
  end.

Lemma link_place w net a ctx src vtime :
  node_ok w net a ctx -> local_iface_tree ctx = [mkIface (own_ip ctx) (all_links ctx)] ->
  In src (keys (neighbor_tree ctx)) ->
  exists l1 l2 lk, placed w ctx l1 l2 src lk /\ link_status lk = old_status ctx src /\
    queue_holds a (timerqueue ctx) (link_owner lk ++ concat (map link_owner (l1 ++ l2)) ++ other_owners ctx) /\
    first_step ctx src vtime =
      link_elem_expire_timer_set (linked ctx l1 l2 (timerqueue ctx) lk) (own_ip ctx) src vtime /\
    (forall l lk', neighbor_iface_addr l <> src -> neighbor_iface_addr lk' = src ->
       In l (l1 ++ lk' :: l2) <-> In l (all_links ctx)) /\
    (forall l, In l (l1 ++ l2) -> In l (all_links ctx)).
Proof.
  intros [Ht _ Hq] Ei Hsrc. destruct (nw_links _ _ _ Ht) as [Hlt _].
  assert (HW : in_window w src) by (apply (window_of w net ctx); [done|]; by apply (nbr_net _ _ _ (nw_routing _ _ _ Ht))).
  unfold first_step. rewrite Ei. cbn [rbtree_search tkey iface_key local_iface_addr tcmp].
  rewrite compare_refl. cbn [Z.eqb deref rbind iface_link_tree]. unfold old_status.
  assert (Eo : owners ctx = concat (map link_owner (all_links ctx)) ++ other_owners ctx) by done.
  rewrite Eo in Hq. destruct (rbtree_search (all_links ctx) src) as [lk|] eqn:Es.
  - apply (search_iff (in_window w)) in Es as [Hin Hk]; [|done|done]. cbn in Hk.
    destruct (in_split _ _ Hin) as (l1 & l2 & El). exists l1, l2, lk. rewrite El in Hlt.
    assert (Ec : linked ctx l1 l2 (timerqueue ctx) lk = ctx)
      by (unfold linked; rewrite <- El, <- Ei; by destruct ctx).
    split; [|split; [done|split; [|split; [by rewrite Ec|split]]]].
    + constructor; [done|by apply (nw_link _ _ _ Ht)|done].
    + rewrite El in Hq. rewrite !map_app, !concat_app in Hq |- *. cbn [map concat] in Hq.
      rewrite <- !app_assoc in *. by rewrite (Permutation_app_swap_app (link_owner lk)).
    + intros l lk' Hl Hlk. rewrite El, !in_app_iff. cbn. split; intros [?|[->|?]]; try (by auto); congruence.
    + intros l Hl. rewrite El, in_app_iff. cbn. destruct (in_app_or _ _ _ Hl); auto.
  - set (lk := set_link_status LOST_LINK {| neighbor_iface_addr := src; link_local_addr := own_ip ctx;
      link_status := 0; sym_timer := None; asym_timer := None; link_expire_timer := None |}).
    destruct (zip_put (in_window w) (all_links ctx) lk Es Hlt HW) as (l1 & l2 & El & Ep).
    destruct (put_fresh (in_window w) (all_links ctx) lk Hlt HW Es) as [Hok _]. rewrite Ep in Hok.
    exists l1, l2, lk. split; [by constructor|]. split; [done|]. split; [|split; [|split]].
    + rewrite El in Hq. exact Hq.
    + unfold make_link_elem. fold lk. f_equal. unfold upd_links, linked. rewrite Ei.
      cbn [tree_update tkey iface_key local_iface_addr tcmp]. rewrite compare_refl. cbn [Z.eqb].
      unfold set_links. cbn [iface_link_tree local_iface_addr]. rewrite Ep. by destruct ctx.
    + intros l lk' Hl Hlk. rewrite El, !in_app_iff. cbn. split; [intros [?|[->|?]]; auto; congruence|].
      intros [?|?]; auto.
    + intros l Hl. by rewrite El.
Qed.

(** ** The stage of the links and the selectors *)
Definition mpr_heard (c : Z) : bool :=
  negb (c =? STATUS_UNAVAILABLE) && (EXTRACT_STATUS c =? MPR_NEIGH).

(** The sender announces a link it has lost. *)
Definition lost_heard (c : Z) : bool :=
  negb (c =? STATUS_UNAVAILABLE) && (EXTRACT_LINK c =? LOST_LINK).

Lemma populate_linkset_eq ctx src b info len vtime c :
  find_linkcode (hello_fuel b) b info len info (own_ip ctx) = Ok c -> lost_heard c = false ->
  populate_linkset ctx src (own_ip ctx) src b info len vtime =
    let* ctx' := if sym_heard c then link_elem_sym_timer_set ctx (own_ip ctx) src vtime else Ok ctx in
    if mpr_heard c then update_mpr_selector ctx' src src vtime else Ok ctx'.
Proof.
  intros E Hl. unfold populate_linkset, sym_heard, mpr_heard, lost_heard in *. rewrite E. cbn [rbind].
  destruct (Z.eqb_spec c STATUS_UNAVAILABLE) as [Ec|Ec]; cbn [negb andb] in *; [done|].
  by rewrite Hl.
Qed.

Record links_done (w : Z) (net : list Z) (a : Z) (ctx ctx' : OlsrContext) (src vtime c : Z) : Prop := {
  ld_trees : node_trees w net ctx';
  ld_queue : queue_holds a (timerqueue ctx') (owners ctx');
  ld_link : exists l q, In l (all_links ctx') /\ neighbor_iface_addr l = src /\
    link_status l = status_after c (old_status ctx src) /\
    link_expire_timer l = Some q /\ armed (timerqueue ctx') q (vtime_us vtime);
  ld_others : forall l, neighbor_iface_addr l <> src -> In l (all_links ctx') <-> In l (all_links ctx);
  ld_selectors : forall k, In k (keys (selector_tree ctx')) <->
    In k (keys (selector_tree ctx)) \/ (k = src /\ mpr_heard c = true);
  ld_frame : set_selector_tree (set_local_iface_tree (set_timerqueue ctx (timerqueue ctx'))
    (local_iface_tree ctx')) (selector_tree ctx') = ctx'
}.

Lemma linked_trees w net a ctx l1 l2 tq lk src :
  node_ok w net a ctx -> In src (keys (neighbor_tree ctx)) ->
  placed w ctx l1 l2 src lk -> link_ok (own_ip ctx) lk ->
  (forall l, In l (l1 ++ l2) -> In l (all_links ctx)) ->
  node_trees w net (linked ctx l1 l2 tq lk).
Proof.
  intros [[Hr ? ? ? ? ? ? ? [_ Hk] Hl] _ _] Hsrc [Pk Pl Pt] Hlk Hin.
  assert (El : all_links (linked ctx l1 l2 tq lk) = l1 ++ lk :: l2) by apply all_links_one.
  assert (Hin' : forall l, In l (l1 ++ lk :: l2) -> l = lk \/ In l (all_links ctx)).
  { intros l Hi. apply in_app_iff in Hi as [Hi|[<-|Hi]]; auto; right; apply Hin, in_app_iff; auto. }
  constructor; rewrite ?El; try done.
  - by destruct Hr; constructor.
  - by right.
  - split; [done|]. intros k Hi. apply in_keys_inv in Hi as (l & Hi & <-).
    apply Hin' in Hi as [->|Hi]; [by change (tkey lk) with (neighbor_iface_addr lk); rewrite Pk|].
    apply Hk. by apply (in_keys _ l).
  - intros l Hi. apply Hin' in Hi as [->|Hi]; [done|by apply Hl].
Qed.

Lemma selector_trees w net ctx tq sel :
  node_trees w net ctx -> tree_ok (in_window w) sel -> incl (keys sel) net ->
  node_trees w net (set_selector_tree (set_timerqueue ctx tq) sel).
Proof. intros [Hr ? ? ? ? ? ? ? ? ?] Hs Hn. constructor; try done. by destruct Hr; constructor. Qed.

(** The timers of everything but the selectors. *)
Definition but_selectors (ctx : OlsrContext) : list (Z * olsr_cb) :=
  concat (map link_owner (all_links ctx)) ++ concat (map neigh_owner (neighbor_tree ctx)) ++
  map topo_owner (topology_tree ctx) ++ map dup_owner (dup_tree ctx).

Lemma owners_selectors ctx tq sel :
  Permutation (owners (set_selector_tree (set_timerqueue ctx tq) sel))
    (map selector_owner sel ++ but_selectors ctx).
Proof.
  unfold owners, but_selectors.
  change (all_links (set_selector_tree (set_timerqueue ctx tq) sel)) with (all_links ctx).
  cbn [neighbor_tree selector_tree topology_tree dup_tree set_selector_tree set_timerqueue]. app_perm.
Qed.

Lemma links_stage w net a ctx src vtime b info len c :
  node_ok w net a ctx -> local_iface_tree ctx = [mkIface (own_ip ctx) (all_links ctx)] ->
  In src (keys (neighbor_tree ctx)) -> 0 < vtime_us vtime < 2 ^ 31 ->
  find_linkcode (hello_fuel b) b info len info (own_ip ctx) = Ok c -> lost_heard c = false ->
  exists ctx', (let* ctx1 := first_step ctx src vtime in
      let* ctx1 := link_elem_asym_timer_set ctx1 (own_ip ctx1) src vtime in
      populate_linkset ctx1 src (own_ip ctx1) src b info len vtime) = Ok ctx' /\
    links_done w net a ctx ctx' src vtime c.
Proof.
  intros H Ei Hsrc Hvt Ec Hlost.
  assert (Hnet : In src net) by (by apply (nbr_net _ _ _ (nw_routing _ _ _ (nd_trees _ _ _ _ H)))).
  destruct (link_place w net a ctx src vtime H Ei Hsrc) as (l1 & l2 & lk & Hp & Eold & Hq & -> & Hoth & Hsub).
  destruct (link_heard_ok w a ctx l1 l2 _ src vtime Hvt _ lk Hp Hq) as
    (tq1 & lk1 & q & q2 & E1 & Hq1 & Hp1 & Es1 & Ea1 & Ee1 & Ha1).
  destruct (link_sym_ok w a ctx l1 l2 _ src vtime Hvt c tq1 lk1 _ q q2 Hp1 Hq1 Es1 Ea1 Ee1 Ha1) as
    (tq2 & lk2 & E2 & Hq2 & Hp2 & Hok2 & Es2 & Ee2 & Ha2).
  apply rbind_ok in E1 as (cx & E1 & E1'). rewrite E1. cbn [rbind].
  assert (Eo : own_ip cx = own_ip ctx).
  { unfold link_elem_asym_timer_set in E1'. clear - E1. unfold link_elem_expire_timer_set, link_elem_timer_set in E1.
    apply rbind_ok in E1 as (l & _ & E). destruct (link_expire_timer l).
    - unfold upd_tq in E. apply rbind_ok in E as (x & _ & E). by injection E as <-.
    - unfold with_tq in E. apply rbind_ok in E as (x & Ex & E). apply rbind_ok in Ex as (y & _ & Ex).
      injection Ex as <-. unfold upd_link in E. apply rbind_ok in E as (z & _ & E). by injection E as <-. }
  rewrite Eo, E1'. cbn [rbind]. change (own_ip (linked ctx l1 l2 tq1 lk1)) with (own_ip ctx).
  change (own_ip ctx) with (own_ip (linked ctx l1 l2 tq1 lk1)) in Ec.
  pose proof (populate_linkset_eq (linked ctx l1 l2 tq1 lk1) src b info len vtime c Ec Hlost) as E.
  change (own_ip (linked ctx l1 l2 tq1 lk1)) with (own_ip ctx) in E. rewrite E, E2. cbn [rbind].
  set (ctx2 := linked ctx l1 l2 tq2 lk2) in *.
  pose proof (linked_trees w net a ctx l1 l2 tq2 lk2 src H Hsrc Hp2 Hok2 Hsub) as Ht2.
  assert (Hl2 : all_links ctx2 = l1 ++ lk2 :: l2) by apply all_links_one.
  rewrite <- (owners_linked ctx l1 l2 tq2 lk2) in Hq2. fold ctx2 in Hq2. rewrite Eold in Es2.
  assert (Hin2 : In lk2 (all_links ctx2)) by (rewrite Hl2; apply in_elt).
  destruct (mpr_heard c) eqn:Em.
  - assert (Eo2 : Permutation (owners ctx2) (map selector_owner (selector_tree ctx2) ++ but_selectors ctx2))
      by (rewrite <- (owners_selectors ctx2 (timerqueue ctx2)); by destruct ctx2).
    rewrite Eo2 in Hq2.
    destruct (update_selector_ok w a ctx2 src vtime (but_selectors ctx2) Hvt) as
      (tq3 & sel & E3 & Hq3 & Hs3 & Hk3 & Hf3); [by apply (window_of w net ctx2)|apply Ht2|exact Hq2|].
    exists (set_selector_tree (set_timerqueue ctx2 tq3) sel). split; [exact E3|]. constructor.
    + apply selector_trees; [done|done|]. intros k Hk. apply Hk3 in Hk as [->|Hk]; [done|by apply (proj2 (nw_sel _ _ _ Ht2))].
    + by rewrite owners_selectors.
    + exists lk2, q. split; [exact Hin2|]. split; [apply Hp2|]. split; [done|]. split; [done|].
      apply Hf3; [|done]. unfold but_selectors. rewrite map_app, in_app_iff. left.
      apply in_map_iff. exists (q, link_cb lk2). split; [done|]. apply in_concat. exists (link_owner lk2).
      split; [by apply in_map|]. apply (in_map (fun p => (p, link_cb lk2))). unfold link_timers.
      rewrite Ee2, !in_app_iff. cbn. auto.
    + intros l Hl. change (all_links (set_selector_tree (set_timerqueue ctx2 tq3) sel)) with (all_links ctx2). rewrite Hl2. apply Hoth; [done|apply Hp2].
    + intros k. cbn. rewrite Hk3, Em. change (selector_tree ctx2) with (selector_tree ctx). intuition congruence.
    + done.
  - exists ctx2. split; [done|]. constructor; try done.
    + exists lk2, q. split; [exact Hin2|]. split; [apply Hp2|]. done.
    + intros l Hl. rewrite Hl2. apply Hoth; [done|apply Hp2].
    + intros k. rewrite Em. change (selector_tree ctx2) with (selector_tree ctx). intuition congruence.
Qed.

(** ** The stage of the 2-hop neighbours *)
Record neigh2_done (w : Z) (net : list Z) (a : Z) (ctx ctx' : OlsrContext) (src : Z) (addrs : list Z) : Prop := {
  n2d_trees : node_trees w net ctx';
  n2d_queue : queue_holds a (timerqueue ctx') (owners ctx');
  n2d_zip : exists m1 m2 n t, neighbor_tree ctx = m1 ++ n :: m2 /\ neighbor_main_addr n = src /\
    neighbor_tree ctx' = m1 ++ set_neighbor2_tree t n :: m2 /\
    (forall k, In k (keys t) <-> (In k addrs /\ k <> own_ip ctx) \/ In k (keys (neighbor2_tree n)));
  n2d_armed : forall p i, In p (map fst (concat (map link_owner (all_links ctx)))) ->
    armed (timerqueue ctx) p i -> armed (timerqueue ctx') p i;
  n2d_frame : set_neighbor_tree (set_timerqueue ctx (timerqueue ctx')) (neighbor_tree ctx') = ctx'
}.

(** The timers of everything but the 2-hop set of one neighbour. *)
Definition but_neigh2 (ctx : OlsrContext) (m1 m2 : list NeighborElem) : list (Z * olsr_cb) :=
  concat (map link_owner (all_links ctx)) ++ concat (map neigh_owner (m1 ++ m2)) ++
  map selector_owner (selector_tree ctx) ++ map topo_owner (topology_tree ctx) ++ map dup_owner (dup_tree ctx).

Lemma owners_bridged ctx m1 m2 n tq t :
  Permutation (owners (bridged ctx m1 m2 n tq t)) (map neigh2_owner t ++ but_neigh2 ctx m1 m2).
Proof.
  unfold owners, bridged, but_neigh2.
  change (all_links (set_neighbor_tree (set_timerqueue ctx tq) (m1 ++ set_neighbor2_tree t n :: m2))) with (all_links ctx).
  cbn [neighbor_tree selector_tree topology_tree dup_tree set_neighbor_tree set_timerqueue].
  rewrite !map_app, !concat_app. cbn [map concat]. unfold neigh_owner at 2. cbn [neighbor2_tree set_neighbor2_tree].
  app_perm.
Qed.

Lemma bridged_id ctx m1 m2 n : neighbor_tree ctx = m1 ++ n :: m2 ->
  bridged ctx m1 m2 n (timerqueue ctx) (neighbor2_tree n) = ctx.
Proof. intros En. unfold bridged. destruct ctx. cbn in *. rewrite En. by destruct n. Qed.

Lemma bridged_trees w net ctx m1 m2 n tq t :
  node_trees w net ctx -> neighbor_tree ctx = m1 ++ n :: m2 -> neigh2_ok w net (set_neighbor2_tree t n) ->
  node_trees w net (bridged ctx m1 m2 n tq t).
Proof.
  intros [Hr ? ? ? ? ? ? ? ? ?] En Ht.
  assert (Hkeys : keys (m1 ++ set_neighbor2_tree t n :: m2) = keys (neighbor_tree ctx))
    by (rewrite En; unfold keys; by rewrite !map_app).
  pose proof (nbr_ok _ _ _ Hr) as Hok. rewrite En in Hok.
  constructor; try done; cbn [neighbor_tree bridged set_neighbor_tree].
  - destruct Hr. constructor; try done; cbn [neighbor_tree bridged set_neighbor_tree].
    + by apply (zip_swap (in_window w) m1 m2 n).
    + by rewrite Hkeys.
  - intros x Hx. assert (Hx' : x = set_neighbor2_tree t n \/ In x (neighbor_tree ctx)).
    { rewrite En. apply in_app_iff in Hx as [Hx|[<-|Hx]]; rewrite ?in_app_iff; cbn; auto. }
    destruct Hx' as [->|Hx']; [done|auto].
  - by rewrite Hkeys.
Qed.

(** What is known of the neighbours themselves does not change. *)
Lemma bridged_same (P : NeighborElem -> Prop) m1 m2 n t b :
  (P n <-> P (set_neighbor2_tree t n)) ->
  (exists x, In x (m1 ++ set_neighbor2_tree t n :: m2) /\ P x /\ neighbor_main_addr x = b) <->
  (exists x, In x (m1 ++ n :: m2) /\ P x /\ neighbor_main_addr x = b).
Proof.
  intros HP. rewrite !(exists_zip (fun x => P x /\ neighbor_main_addr x = b)).
  cbn [neighbor_main_addr set_neighbor2_tree]. by rewrite HP.
Qed.

Lemma bridged_marks ctx m1 m2 n tq t : neighbor_tree ctx = m1 ++ n :: m2 ->
  (sym_agrees ctx -> sym_agrees (bridged ctx m1 m2 n tq t)) /\
  (routes_current ctx -> routes_current (bridged ctx m1 m2 n tq t)).
Proof.
  intros En. split.
  - intros Hs n' Hn'. rewrite (has_sym_same (bridged ctx m1 m2 n tq t) ctx) by done.
    unfold sym_agrees in Hs. rewrite En in Hs. cbn [bridged neighbor_tree set_neighbor_tree] in Hn'.
    apply in_app_iff in Hn' as [Hn'|[<-|Hn']].
    + apply Hs, in_app_iff. by left.
    + apply (Hs n), in_elt.
    + apply Hs, in_app_iff. right. by right.
  - apply routes_current_sym; try done; rewrite En; intros x Hx Hsx;
      apply (bridged_same (fun x => is_sym x = true) m1 m2 n t); (done || by exists x).
Qed.

Lemma neigh2_stage w net a ctx src vtime addrs :
  node_trees w net ctx -> queue_holds a (timerqueue ctx) (owners ctx) ->
  In src (keys (neighbor_tree ctx)) -> 0 < vtime_us vtime < 2 ^ 31 -> incl addrs net ->
  exists ctx', note_neighbors2 src vtime addrs ctx = Ok ctx' /\ neigh2_done w net a ctx ctx' src addrs.
Proof.
  intros Ht Hq Hsrc Hvt Hinc. apply in_keys_inv in Hsrc as (n & Hn & Hk). cbn in Hk.
  destruct (in_split _ _ Hn) as (m1 & m2 & En). pose proof (nw_n2 _ _ _ Ht n Hn) as [Hn2 Hnet2 Hbr].
  pose proof (nbr_ok _ _ _ (nw_routing _ _ _ Ht)) as Hok. rewrite En in Hok.
  pose proof (bridged_id ctx m1 m2 n En) as Ec.
  assert (Hq0 : queue_holds a (timerqueue ctx) (map neigh2_owner (neighbor2_tree n) ++ but_neigh2 ctx m1 m2))
    by (rewrite <- (owners_bridged ctx m1 m2 n (timerqueue ctx)), Ec; exact Hq).
  destruct (note_neighbors2_ok w a ctx m1 m2 n (but_neigh2 ctx m1 m2) vtime Hvt Hok addrs (timerqueue ctx) (neighbor2_tree n))
    as (tq' & t' & E & Hq' & [Ht' Hb'] & Hk' & Hf); [|by split|exact Hq0|].
  { apply List.Forall_forall. intros x Hx. apply (window_of w net ctx); auto. }
  rewrite Ec, Hk in E. exists (bridged ctx m1 m2 n tq' t'). split; [exact E|]. constructor.
  - apply bridged_trees; [done|done|]. constructor; cbn; [done| |done].
    intros k Hi. apply Hk' in Hi as [[Hi _]|Hi]; auto.
  - by rewrite owners_bridged.
  - exists m1, m2, n, t'. split; [done|]. split; [done|]. split; [done|]. exact Hk'.
  - intros p i Hp. apply Hf. unfold but_neigh2. rewrite map_app, in_app_iff. by left.
  - done.
Qed.

(** ** The selection of relays at the end *)
Lemma mpr_stage w net a ctx :
  node_trees w net ctx -> sym_agrees ctx -> queue_holds a (timerqueue ctx) (owners ctx) ->
  exists ctx', populate_mpr_set ctx = Ok ctx' /\ mpr_result w net ctx ctx' /\ node_ok w net a ctx' /\
    timerqueue ctx' = timerqueue ctx /\ local_iface_tree ctx' = local_iface_tree ctx /\
    selector_tree ctx' = selector_tree ctx.
Proof.
  intros Ht Hs Hq. destruct (populate_mpr_set_spec w net ctx) as (ctx' & E & Hm);
    [apply Ht|intros n Hn; apply (nw_n2 _ _ _ Ht n Hn)|apply Ht|].
  exists ctx'. split; [done|]. split; [done|]. pose proof (mr_frame _ _ _ _ Hm) as Hf.
  unfold same_but_mpr, same_but_routes in Hf.
  assert (E1 : local_iface_tree ctx' = local_iface_tree ctx) by (by apply (f_equal local_iface_tree) in Hf).
  assert (E2 : own_ip ctx' = own_ip ctx) by (by apply (f_equal own_ip) in Hf).
  assert (E3 : timerqueue ctx' = timerqueue ctx) by (by apply (f_equal timerqueue) in Hf).
  assert (E4 : selector_tree ctx' = selector_tree ctx) by (by apply (f_equal selector_tree) in Hf).
  assert (E5 : dup_tree ctx' = dup_tree ctx) by (by apply (f_equal dup_tree) in Hf).
  assert (E6 : olsr_tx_msgbuf ctx' = olsr_tx_msgbuf ctx) by (by apply (f_equal olsr_tx_msgbuf) in Hf).
  assert (E7 : topology_tree ctx' = topology_tree ctx) by (by apply (f_equal topology_tree) in Hf).
  assert (El : all_links ctx' = all_links ctx) by (unfold all_links; by rewrite E1).
  pose proof (mr_status _ _ _ _ Hm) as En. pose proof (remark_fields (mpr_tree ctx')) as Hrm.
  split; [|done]. constructor.
  - destruct Ht. constructor; rewrite ?E1, ?E2, ?E4, ?E5, ?E6, ?El; try done; try apply Hm.
    + intros n Hn. rewrite En in Hn. apply in_map_iff in Hn as (n0 & <- & Hn).
      destruct (Hrm n0) as (? & ? & _). by apply (neigh2_ok_same w net n0); [..|auto].
    + rewrite En, keys_marked by apply Hrm. done.
  - intros n Hn. rewrite En in Hn. apply in_map_iff in Hn as (n0 & <- & Hn).
    destruct (Hrm n0) as (-> & _ & ->). rewrite (Hs n0 Hn). apply has_sym_same. intros; by rewrite El.
  - rewrite E3. unfold owners. rewrite El, En, owners_marked, E4, E5, E7 by apply Hrm. done.
Qed.

(** ** The whole handler *)

(** The parts of a node that no step of the handler touches. *)
Definition rest_of (ctx : OlsrContext) :=
  (own_ip ctx, topology_tree ctx, dup_tree ctx, olsr_tx_msgbuf ctx, outs ctx, param ctx, msg_seq ctx).
Definition same_rest (c1 c2 : OlsrContext) : Prop := rest_of c2 = rest_of c1.

Lemma routes_frame c1 c2 : same_but_routes c1 c2 -> rest_of c2 = rest_of c1 /\
  local_iface_tree c2 = local_iface_tree c1 /\ selector_tree c2 = selector_tree c1 /\
  timerqueue c2 = timerqueue c1.
Proof.
  intros H. split; [exact (eq_sym (f_equal rest_of H))|].
  split; [exact (eq_sym (f_equal local_iface_tree H))|].
  split; [exact (eq_sym (f_equal selector_tree H))|exact (eq_sym (f_equal timerqueue H))].
Qed.

(** What the handler has made of a node: [c] is the link code that the sender
    announces for the node and [addrs] the addresses it announces. *)
Record hello_learned (w : Z) (net : list Z) (a : Z) (ctx ctx' : OlsrContext) (src vtime c : Z)
  (addrs : list Z) : Prop := {
  hl_node : node_ok w net a ctx';
  hl_link : exists l q, In l (all_links ctx') /\ neighbor_iface_addr l = src /\
    link_status l = status_after c (old_status ctx src) /\
    link_expire_timer l = Some q /\ armed (timerqueue ctx') q (vtime_us vtime);
  hl_links : forall l, neighbor_iface_addr l <> src -> In l (all_links ctx') <-> In l (all_links ctx);
  hl_known : forall b, In b (keys (neighbor_tree ctx')) <-> b = src \/ In b (keys (neighbor_tree ctx));
  hl_marked : marked ctx' src;
  hl_sym : forall b, OlsrMpr.symmetric (neighbor_tree ctx') b <->
    if b =? src then status_after c (old_status ctx src) = SYM_LINK
    else OlsrMpr.symmetric (neighbor_tree ctx) b;
  hl_reach : forall b x, reaches (neighbor_tree ctx') b x <-> reaches (neighbor_tree ctx) b x \/
    b = src /\ status_after c (old_status ctx src) = SYM_LINK /\ In x addrs /\ x <> own_ip ctx;
  hl_selectors : forall k, In k (keys (selector_tree ctx')) <->
    In k (keys (selector_tree ctx)) \/ (k = src /\ mpr_heard c = true);
  hl_covers : covers (own_ip ctx') (neighbor_tree ctx') (keys (mpr_tree ctx'));
  hl_relays : forall m, In m (keys (mpr_tree ctx')) -> OlsrMpr.symmetric (neighbor_tree ctx') m;
  hl_routes : routes_current ctx -> routes_current ctx';
  hl_rest : same_rest ctx ctx'
}.

(** The symmetric mark follows the link. *)
Lemma sym_after w net a ctx1 ctx2 ctx3 src vtime c :
  node_ok w net a ctx1 -> links_done w net a ctx1 ctx2 src vtime c ->
  status_updated w net ctx2 ctx3 src -> In src (keys (neighbor_tree ctx2)) ->
  forall b, OlsrMpr.symmetric (neighbor_tree ctx3) b <->
    if b =? src then status_after c (old_status ctx1 src) = SYM_LINK
    else OlsrMpr.symmetric (neighbor_tree ctx1) b.
Proof.
  intros _ [Ht _ (l & q & Hl & Ka & Es & _) _ _ Hf] [_ Hs (f & Em & Hf1 & Hid) _ _ _] Hin b.
  assert (En : neighbor_tree ctx2 = neighbor_tree ctx1) by (rewrite <- Hf; done).
  destruct (Z.eqb_spec b src) as [->|Hb].
  - rewrite <- Es. transitivity (neighbor_has_sym_link ctx2 src = true).
    + split; [intros (n & Hn & Hsym & Ha); by rewrite <- (Hs n Hn Ha)|]. intros Hh.
      apply in_keys_inv in Hin as (n & Hn & Hk). exists (f n). destruct (Hf1 n) as [Ea _].
      assert (Hi : In (f n) (neighbor_tree ctx3)) by (rewrite Em; by apply in_map).
      split; [done|]. split; [|by rewrite Ea]. rewrite (Hs _ Hi); [done|by rewrite Ea].
    + rewrite has_sym_iff. split; [|intros; by exists l].
      intros (l' & Hl' & Ka' & <-). f_equal. pose proof (proj1 (nw_links _ _ _ Ht)) as Hlt.
      assert (l = l') as -> by tree_same. done.
  - rewrite Em, En. split.
    + intros (n & Hn & Hsym & Ha). apply in_map_iff in Hn as (n0 & <- & Hn). rewrite (proj1 (Hf1 n0)) in Ha.
      rewrite Hid in Hsym by congruence. by exists n0.
    + intros (n & Hn & Hsym & Ha). exists n. split; [|done]. rewrite <- (Hid n) by congruence. by apply in_map.
Qed.

Lemma remark_range M n : 0 <= neigh_status n < NEIGHBOR_STATUS_END ->
  0 <= neigh_status (remark M n) < NEIGHBOR_STATUS_END.
Proof.
  intros H. unfold remark. destruct (is_sym n); [|done].
  by destruct (existsb _ _).
Qed.

(** The 2-hop stage changes neither the marks nor the other neighbours. *)
Lemma neigh2_views w net a ctx ctx' src addrs :
  neigh2_done w net a ctx ctx' src addrs ->
  keys (neighbor_tree ctx') = keys (neighbor_tree ctx) /\
  (forall b, OlsrMpr.symmetric (neighbor_tree ctx') b <-> OlsrMpr.symmetric (neighbor_tree ctx) b) /\
  (forall b x, reaches (neighbor_tree ctx') b x <->
     reaches (neighbor_tree ctx) b x \/ b = src /\ In x addrs /\ x <> own_ip ctx) /\
  (sym_agrees ctx -> sym_agrees ctx') /\ (routes_current ctx -> routes_current ctx') /\
  (marked ctx src -> marked ctx' src).
Proof.
  intros [_ _ (m1 & m2 & n & t & En & Hk & En' & Ht) _ Hf].
  assert (Ec : bridged ctx m1 m2 n (timerqueue ctx') t = ctx') by (unfold bridged; rewrite <- En'; exact Hf).
  split; [rewrite En, En'; unfold keys; by rewrite !map_app|]. split; [|split].
  - intros b. unfold OlsrMpr.symmetric. rewrite En, En'. by apply (bridged_same (fun x => is_sym x = true)).
  - intros b x. rewrite En, En'. unfold reaches.
    rewrite !(exists_zip (fun y => neighbor_main_addr y = b /\ In x (keys (neighbor2_tree y)))).
    cbn [neighbor_main_addr set_neighbor2_tree neighbor2_tree]. rewrite Ht, Hk. intuition congruence.
  - rewrite <- Ec. split; [by apply bridged_marks|]. split; [by apply bridged_marks|].
    unfold marked. cbn [bridged neighbor_tree set_neighbor_tree]. rewrite En. intros H x Hx Ha.
    apply in_app_iff in Hx as [Hx|[<-|Hx]]; [apply H; [apply in_app_iff; by left|done]|by apply (H n); [apply in_elt|]|].
    apply H; [apply in_app_iff; right; by right|done].
Qed.

(** The status of the neighbour after the link: what the rest of the handler reads. *)
Record status_done (w : Z) (net : list Z) (a : Z) (ctx1 ctx2 ctx3 : OlsrContext) (src c : Z) : Prop := {
  sd_trees : node_trees w net ctx3;
  sd_agrees : sym_agrees ctx3;
  sd_queue : queue_holds a (timerqueue ctx3) (owners ctx3);
  sd_keys : keys (neighbor_tree ctx3) = keys (neighbor_tree ctx1);
  sd_sym : forall b, OlsrMpr.symmetric (neighbor_tree ctx3) b <->
    if b =? src then status_after c (old_status ctx1 src) = SYM_LINK
    else OlsrMpr.symmetric (neighbor_tree ctx1) b;
  sd_reach : forall b x, reaches (neighbor_tree ctx3) b x <-> reaches (neighbor_tree ctx1) b x;
  sd_marked : marked ctx3 src;
  sd_routes : routes_current ctx1 -> routes_current ctx3;
  sd_frame : same_but_routes ctx2 ctx3
}.

Lemma status_stage w net a ctx1 ctx2 src vtime c :
  node_ok w net a ctx1 -> links_done w net a ctx1 ctx2 src vtime c -> In src (keys (neighbor_tree ctx1)) ->
  exists ctx3, update_neighbor_status ctx2 src = Ok ctx3 /\ status_done w net a ctx1 ctx2 ctx3 src c.
Proof.
  intros H1 H2 Hin. pose proof (ld_frame _ _ _ _ _ _ _ _ H2) as Hf2.
  assert (En2 : neighbor_tree ctx2 = neighbor_tree ctx1) by (by rewrite <- Hf2).
  assert (Hin2 : In src (keys (neighbor_tree ctx2))) by (by rewrite En2).
  destruct (update_status_ok w net ctx2 src (ld_trees _ _ _ _ _ _ _ _ H2) Hin2) as (ctx3 & E & H3).
  exists ctx3. split; [exact E|].
  destruct (status_updated_owners w net ctx2 ctx3 src H3) as [Eo3 Eq3].
  constructor.
  - apply H3.
  - apply (status_updated_agrees w net ctx1 ctx2 ctx3 src H3 (eq_sym En2) (nd_sym _ _ _ _ H1)),
      (ld_others _ _ _ _ _ _ _ _ H2).
  - rewrite Eo3, Eq3. apply H2.
  - destruct (su_map _ _ _ _ _ H3) as (f & -> & Hf3 & _). rewrite En2, keys_marked; [done|apply Hf3].
  - by apply (sym_after w net a ctx1 ctx2 ctx3 src vtime c).
  - intros b x. destruct (su_map _ _ _ _ _ H3) as (f & -> & Hf3 & _). rewrite En2.
    apply exists_marked. intros n. by destruct (Hf3 n) as (-> & ->).
  - apply H3.
  - intros Hc. apply (su_routes _ _ _ _ _ H3). revert Hc.
    apply routes_current_sym; [by rewrite <- Hf2..| |]; rewrite En2; intros n; by exists n.
  - apply H3.
Qed.

(** The rest of the handler: the 2-hop neighbours and the relays. *)
Lemma tail_run w net a ctx3 src vtime addrs :
  node_trees w net ctx3 -> sym_agrees ctx3 -> queue_holds a (timerqueue ctx3) (owners ctx3) ->
  In src (keys (neighbor_tree ctx3)) -> 0 < vtime_us vtime < 2 ^ 31 -> incl addrs net ->
  exists n ctx4 ctx' heard, rbtree_search (neighbor_tree ctx3) src = Some n /\
    In n (neighbor_tree ctx3) /\ neighbor_main_addr n = src /\
    (if is_sym n then note_neighbors2 src vtime addrs ctx3 else Ok ctx3) = Ok ctx4 /\
    heard = (if is_sym n then addrs else []) /\ neigh2_done w net a ctx3 ctx4 src heard /\
    populate_mpr_set ctx4 = Ok ctx' /\ mpr_result w net ctx4 ctx' /\ node_ok w net a ctx' /\
    timerqueue ctx' = timerqueue ctx4 /\ local_iface_tree ctx' = local_iface_tree ctx4 /\
    selector_tree ctx' = selector_tree ctx4.
Proof.
  intros Ht Hs Hq Hin Hvt Hinc. pose proof (nbr_ok _ _ _ (nw_routing _ _ _ Ht)) as Hok.
  assert (Hsrc : In src net) by (by apply (nbr_net _ _ _ (nw_routing _ _ _ Ht))).
  destruct (search_some (in_window w) _ src Hok (window_of w net ctx3 src Ht Hsrc) Hin) as (n & En & Hn & Hk).
  destruct (neigh2_stage w net a ctx3 src vtime (if is_sym n then addrs else []) Ht Hq Hin Hvt) as (ctx4 & E4 & H4);
    [destruct (is_sym n); [done|by intros ? []]|].
  destruct (neigh2_views w net a ctx3 ctx4 src _ H4) as (_ & _ & _ & Ha4 & _ & _).
  destruct (mpr_stage w net a ctx4) as (ctx' & E5 & Hm & Hnode & Hrest); [apply H4|by apply Ha4|apply H4|].
  exists n, ctx4, ctx', (if is_sym n then addrs else []). do 3 (split; [done|]).
  split; [revert E4; by destruct (is_sym n)|]. done.
Qed.

Lemma hello_tail w net a ctx1 ctx2 ctx3 src vtime c addrs :
  node_ok w net a ctx1 -> links_done w net a ctx1 ctx2 src vtime c ->
  status_done w net a ctx1 ctx2 ctx3 src c ->
  In src (keys (neighbor_tree ctx1)) -> 0 < vtime_us vtime < 2 ^ 31 -> incl addrs net ->
  exists n ctx4 ctx', rbtree_search (neighbor_tree ctx3) src = Some n /\
    (if is_sym n then note_neighbors2 src vtime addrs ctx3 else Ok ctx3) = Ok ctx4 /\
    populate_mpr_set ctx4 = Ok ctx' /\ hello_learned w net a ctx1 ctx' src vtime c addrs.
Proof.
  intros H1 H2 [Ht3 Ha3 Hq3 Hk3 Hs3 Hr3 Hm3 Hc3 Hf3] Hin Hvt Hinc.
  destruct (tail_run w net a ctx3 src vtime addrs Ht3 Ha3 Hq3) as
    (n & ctx4 & ctx' & heard & En & Hn & Hkn & E4 & Eh & H4 & E5 & Hm & Hnode & Et & Ei & Es); [by rewrite Hk3|done|done|].
  exists n, ctx4, ctx'. do 3 (split; [done|]).
  destruct (neigh2_views w net a ctx3 ctx4 src _ H4) as (Hk4 & Hs4 & Hr4 & _ & Hc4 & Hm4).
  pose proof (n2d_frame _ _ _ _ _ _ _ H4) as Hf4. pose proof (ld_frame _ _ _ _ _ _ _ _ H2) as Hf2.
  pose proof (mr_frame _ _ _ _ Hm) as Hf5. pose proof (mr_status _ _ _ _ Hm) as En5.
  assert (Hrm : marks_only (remark (mpr_tree ctx'))) by (intros x; apply remark_fields).
  destruct (routes_frame ctx2 ctx3 Hf3) as (Er3 & Ei3 & Es3 & Etq3).
  assert (Er2 : rest_of ctx2 = rest_of ctx1) by (by rewrite <- Hf2).
  assert (E43 : rest_of ctx4 = rest_of ctx3 /\ local_iface_tree ctx4 = local_iface_tree ctx3 /\
    selector_tree ctx4 = selector_tree ctx3) by (by rewrite <- Hf4).
  destruct E43 as (Er4 & Ei4 & Es4). assert (Er5 : rest_of ctx' = rest_of ctx4) by exact (eq_sym (f_equal rest_of Hf5)).
  assert (Er : rest_of ctx' = rest_of ctx1) by congruence.
  assert (El3 : all_links ctx3 = all_links ctx2) by (unfold all_links; by rewrite Ei3).
  assert (El : all_links ctx' = all_links ctx2) by (unfold all_links; by rewrite Ei, Ei4, Ei3).
  assert (Eo : own_ip ctx3 = own_ip ctx1 /\ own_ip ctx' = own_ip ctx4)
    by (unfold rest_of in *; split; congruence). destruct Eo as [Eo3 Eo5].
  assert (Hsym : is_sym n = true <-> status_after c (old_status ctx1 src) = SYM_LINK).
  { specialize (Hs3 src). rewrite Z.eqb_refl in Hs3. rewrite <- Hs3. split; [by intros; exists n|].
    intros (n' & Hn' & Hsn & Hkn'). pose proof (nbr_ok _ _ _ (nw_routing _ _ _ Ht3)) as Hok.
    assert (n = n') as -> by tree_same. done. }
  constructor; rewrite ?El; try done.
  - destruct (ld_link _ _ _ _ _ _ _ _ H2) as (l & q & Hl & Ka & Esl & Eq & Har).
    exists l, q. do 4 (split; [done|]). rewrite Et. apply (n2d_armed _ _ _ _ _ _ _ H4); [|by rewrite Etq3].
    rewrite El3. apply in_map_iff. exists (q, link_cb l). split; [done|]. apply in_concat.
    exists (link_owner l). split; [by apply in_map|]. apply (in_map (fun p => (p, link_cb l))).
    unfold link_timers. rewrite Eq, !in_app_iff. cbn. auto.
  - apply H2.
  - intros b. rewrite En5, keys_marked by apply Hrm. rewrite Hk4, Hk3. split; [by right|by intros [->|]].
  - intros m Hi Ka. rewrite En5 in Hi. apply in_map_iff in Hi as (m0 & <- & Hi).
    rewrite (proj1 (Hrm m0)) in Ka. by apply remark_range, (Hm4 Hm3).
  - intros b. by rewrite En5, symmetric_marked, Hs4.
  - intros b x. rewrite En5, reaches_marked, Hr4, Hr3, <- Hsym, Eo3, Eh by done.
    destruct (is_sym n); cbn; intuition congruence.
  - intros k. rewrite Es, Es4, Es3. apply H2.
  - rewrite Eo5, En5. apply covers_marked; [done|apply Hm].
  - intros m Hi. rewrite En5, symmetric_marked by done. by apply (mr_useful _ _ _ _ Hm).
  - intros Hc. by apply (mr_routes _ _ _ _ Hm), Hc4, Hc3.
Qed.

Lemma prepared_learned w net a ctx ctx1 ctx' src vtime c addrs :
  prepared w net a ctx ctx1 src -> hello_learned w net a ctx1 ctx' src vtime c addrs ->
  hello_learned w net a ctx ctx' src vtime c addrs.
Proof.
  intros [_ _ El _ Hk Hs Hr Hc Hf] [Hn Hl Hls Hk' Hmk Hs' Hr' Hsel Hco Hre Hc' Hrest].
  assert (Eo : old_status ctx1 src = old_status ctx src) by (unfold old_status; by rewrite El).
  assert (Es : own_ip ctx1 = own_ip ctx /\ selector_tree ctx1 = selector_tree ctx /\ rest_of ctx1 = rest_of ctx)
    by (by rewrite <- Hf). destruct Es as (Ei & Es & Er). rewrite Eo in *. constructor; try done.
  - intros l Hne. by rewrite Hls, El.
  - intros b. rewrite Hk', Hk. tauto.
  - intros b. rewrite Hs'. destruct (b =? src); [done|apply Hs].
  - intros b x. by rewrite Hr', Hr, Ei.
  - intros k. by rewrite Hsel, Es.
  - auto.
  - unfold same_rest in *. congruence.
Qed.

Lemma process_hello_run w net a ctx src will vtime msgsize b hello c addrs :
  node_ok w net a ctx -> In src net -> 0 < vtime_us vtime < 2 ^ 31 -> incl addrs net ->
  rd8 b (hello + 3) = Ok will ->
  let info := hello + sizeof_HelloMsg in
  let len := u64 (msgsize - sizeof_HelloMsg) in
  find_linkcode (hello_fuel b) b info len info (own_ip ctx) = Ok c -> lost_heard c = false ->
  (forall rctx, populate_neigh2set (hello_fuel b) rctx src b info len info vtime =
     note_neighbors2 src vtime addrs rctx) ->
  exists ctx', process_olsr_hello ctx src src b hello vtime msgsize = Ok ctx' /\
    hello_learned w net a ctx ctx' src vtime c addrs.
Proof.
  intros H Hsrc Hvt Hinc Hw info len Ec Hlost Hpop. unfold process_olsr_hello. rewrite Hw. cbn [rbind].
  fold (ensure_iface ctx). fold (ensure_neighbor (ensure_iface ctx) src will).
  destruct (prepare_ok w net a ctx src will H Hsrc) as [H1 Hi1 El1 Hin1 _ _ _ _ Hf1].
  set (ctx1 := ensure_neighbor (ensure_iface ctx) src will) in *.
  assert (Eown : own_ip ctx = own_ip ctx1) by (by rewrite <- Hf1). rewrite Eown in Ec.
  destruct (links_stage w net a ctx1 src vtime b info len c) as (ctx2 & E2 & H2);
    [done|by rewrite El1|done|done|done|done|].
  apply rbind_ok in E2 as (cx & Ex & E2). apply rbind_ok in E2 as (cy & Ey & E2).
  unfold first_step in Ex.
  apply rbind_ok in Ex as (iface & Ei & Ex). rewrite Ei. cbn [rbind]. rewrite Ex. cbn [rbind].
  rewrite Ey. cbn [rbind]. fold info len. rewrite E2. cbn [rbind].
  destruct (status_stage w net a ctx1 ctx2 src vtime c H1 H2 Hin1) as (ctx3 & -> & H3). cbn [rbind].
  destruct (hello_tail w net a ctx1 ctx2 ctx3 src vtime c addrs) as (n & ctx4 & ctx' & -> & E4 & E5 & Hd); try done.
  cbn [deref rbind]. rewrite Hpop, E4. cbn [rbind]. exists ctx'. split; [exact E5|].
  apply (prepared_learned w net a ctx ctx1); [by apply prepare_ok|done].
Qed.

(** A HELLO message in memory: its header is [hd], and the info blocks are the
    groups [gs]. *)
Record hello_message (net : list Z) (b P hd bytes Q : list Z) (gs : list (Z * list Z)) : Prop := {
  hm_block : b = P ++ hd ++ bytes ++ Q;
  hm_head : zlen hd = sizeof_HelloMsg;
  hm_infos : enc_infos gs bytes;
  hm_groups : Forall group_ok gs;
  hm_addrs : incl (concat (map snd gs)) net;
  hm_size : zlen bytes < 65536
}.

Lemma process_hello_spec w net a ctx src vtime b P hd bytes Q gs :
  node_ok w net a ctx -> In src net -> 0 < vtime_us vtime < 2 ^ 31 ->
  hello_message net b P hd bytes Q gs -> lost_heard (announced gs (own_ip ctx)) = false ->
  exists ctx', process_olsr_hello ctx src src b (zlen P) vtime (zlen (hd ++ bytes)) = Ok ctx' /\
    hello_learned w net a ctx ctx' src vtime (announced gs (own_ip ctx)) (concat (map snd gs)).
Proof.
  intros H Hsrc Hvt [-> Hh He Hg Hinc Hsz] Hlost. unfold sizeof_HelloMsg in Hh.
  assert (Hb : P ++ hd ++ bytes ++ Q = (P ++ hd) ++ [] ++ bytes ++ Q) by (by rewrite <- !app_assoc).
  assert (Hlen : u64 (zlen (hd ++ bytes) - sizeof_HelloMsg) = zlen ([] ++ bytes)).
  { rewrite zlen_app, Hh. unfold sizeof_HelloMsg. cbn [app]. pose proof (zlen_nonneg bytes).
    unfold u64. lia. }
  assert (Hinfo : zlen P + sizeof_HelloMsg = zlen (P ++ hd)) by (rewrite zlen_app, Hh; done).
  assert (Hf : (length gs <= hello_fuel (P ++ hd ++ bytes ++ Q))%nat).
  { pose proof (zlen_enc_infos _ _ He) as E. pose proof (infos_size_nonneg gs) as Hs.
    unfold hello_fuel. rewrite !length_app. unfold zlen in *. lia. }
  assert (Hw : exists will, rd8 (P ++ hd ++ bytes ++ Q) (zlen P + 3) = Ok will).
  { rewrite rd8_shift by lia. explode hd 4%nat. eexists. reflexivity. }
  destruct Hw as (will & Hw). eapply process_hello_run; try done; rewrite Hlen, Hinfo.
  - rewrite Hb in Hf |- *. pose proof (find_linkcode_ok gs bytes He (P ++ hd) [] Q (own_ip ctx) _ Hg Hf) as E.
    by rewrite app_nil_r in E.
  - intros rctx. rewrite Hb in Hf |- *.
    pose proof (populate_neigh2set_ok gs bytes He (P ++ hd) [] Q _ rctx src vtime Hg Hf) as E.
    by rewrite app_nil_r in E.
Qed.


(** The node 2 announces the node 1 as a symmetric relay (code 10) and the node 3
    as a neighbour it only hears (code 1). *)
Definition ex_hello_bytes : list Z := enc_info (10, [1]) 0 ++ enc_info (1, [3]) 0.

Example ex_hello_run :
  match process_olsr_hello (ex_started 1) 2 2 ([9] ++ [0; 0; 3; 3] ++ ex_hello_bytes) 1 6000 20 with
  | Ok c => (map neighbor_main_addr (neighbor_tree c), map neigh_status (neighbor_tree c), keys (mpr_tree c),
             map link_status (all_links c), keys (selector_tree c), map route_dest (routing_table c))
            = ([2], [MPR_NEIGH], [2], [SYM_LINK], [2], [2])
  | _ => False
  end.
Proof. vm_compute. reflexivity. Qed.

