(* ===== verification/OlsrExpire.v ===== *)
(** The timers of a node run out (the expiry callbacks of olsr_link.c,
    olsr_neighbor.c, olsr_hello.c, olsr_tc.c and olsr_forwarding.c).

    Every callback takes one element out of its tree and frees its timers.  The
    lemmas say that the trees stay well formed, that the other elements keep their
    timers, and that nothing else happens to the queue ([frees]), which is what
    the loop of the timer queue asks of its client. *)
From S2P Require Import Prelude OrdTree RingBuffer TimerQueue TimerWork TimerOwners OlsrContext OlsrSpf OlsrMantissa OlsrNeighbor OlsrMpr OlsrHello OlsrTc OlsrForwarding OlsrRoute RouteIface OlsrRouteIface OlsrInv OlsrHelloRun.
From stdpp Require Import base list numbers gmap.
From Stdlib Require Import ZArith Lia.
Open Scope Z_scope.
Open Scope c_scope.

(** The invariant of a node while a callback runs. *)
Record node_mid (w : Z) (net : list Z) (a : Z) (ctx : OlsrContext) : Prop := {
  md_trees : node_trees w net ctx;
  md_sym : sym_agrees ctx;
  md_owners : owners_ok periodic_cb a (timerqueue ctx) (owners ctx)
}.

(** The parts that only the periodic callbacks change. *)
Definition sending (ctx : OlsrContext) :=
  (own_ip ctx, olsr_tx_msgbuf ctx, outs ctx, param ctx, msg_seq ctx).

(** What an expired timer leaves behind; [gone] are the timers that go with it. *)
Record expired (w : Z) (net : list Z) (a : Z) (ctx ctx' : OlsrContext) (gone : list (Z * olsr_cb)) : Prop := {
  ex_gone : Permutation (owners ctx) (gone ++ owners ctx');
  ex_node : node_mid w net a ctx';
  ex_frees : frees a (timerqueue ctx) (timerqueue ctx');
  ex_routes : routes_current ctx -> routes_current ctx';
  ex_sending : sending ctx' = sending ctx
}.

(** Taking an element out of a tree. *)
Lemma take_out `{TK : TreeKey E K, !CmpOrder tcmp D} (t : list E) x :
  tree_ok D t -> In x t -> exists l1 l2, t = l1 ++ x :: l2 /\
    fst (rbtree_delete t (tkey x)) = l1 ++ l2 /\ tree_ok D (l1 ++ l2) /\
    (forall y, In y (l1 ++ l2) -> In y t) /\ incl (keys (l1 ++ l2)) (keys t) /\
    (forall y, In y (l1 ++ l2) <-> In y t /\ tkey y <> tkey x).
Proof.
  intros Hok Hin. destruct (in_split _ _ Hin) as (l1 & l2 & ->).
  pose proof (zip_delete D l1 l2 x Hok) as Hd. exists l1, l2.
  destruct (delete_spec D _ (tkey x) Hok) as (Hok' & _ & Hi); [apply (tree_ok_dom D (l1 ++ x :: l2) x); [done|apply in_elt]|]. rewrite Hd in *.
  split; [done|]. split; [done|]. split; [done|]. split; [|split].
  - intros y Hy. by apply Hi in Hy as [? _].
  - intros k Hk. apply in_keys_inv in Hk as (y & Hy & <-). apply Hi in Hy as [Hy _]. by apply (in_keys _ y).
  - exact Hi.
Qed.

(** ** Selectors and duplicates *)
Lemma selector_expired w net a ctx s :
  node_mid w net a ctx -> In s (selector_tree ctx) ->
  exists ctx', mpr_selector_expire ctx (selector_addr s) (selector_expire_timer s) = Ok ctx' /\
    expired w net a ctx ctx' [selector_owner s] /\ keys (selector_tree ctx') = keys (fst (rbtree_delete (selector_tree ctx) (selector_addr s))).
Proof.
  intros [Ht Hs Ho] Hin. destruct (nw_sel _ _ _ Ht) as [Hok Hnet].
  destruct (take_out (D := in_window w) (selector_tree ctx) s Hok Hin) as (l1 & l2 & Es & Ed & Hok' & _ & Hk & _).
  assert (Hp : Permutation (owners ctx) (selector_owner s :: map selector_owner (l1 ++ l2) ++ but_selectors ctx)).
  { transitivity (owners (set_selector_tree (set_timerqueue ctx (timerqueue ctx)) (selector_tree ctx)));
    [by destruct ctx|]. rewrite owners_selectors, Es, !map_app. cbn [map]. rewrite <- !app_assoc. cbn [app]. symmetry. apply Permutation_middle. }
  rewrite Hp in Ho. destruct (free_one _ _ _ _ _ _ Ho) as (tq' & Ef & Hf & Ho').
  exists (set_selector_tree (set_timerqueue ctx tq') (l1 ++ l2)).
  unfold mpr_selector_expire, upd_tq. cbn [timerqueue set_selector_tree] in *.
  change (selector_addr s) with (tkey s). rewrite Ed, Ef. split; [done|]. split; [|done].
  constructor; [by rewrite owners_selectors|..|exact Hf|done|done]. constructor.
  - apply selector_trees; [done|done|]. intros k Hi. by apply Hnet, Hk.
  - exact Hs.
  - rewrite owners_selectors. exact Ho'.
Qed.

Lemma take_owner {A B} (f : A -> B) X l1 x l2 Y :
  Permutation (X ++ map f (l1 ++ x :: l2) ++ Y) (f x :: X ++ map f (l1 ++ l2) ++ Y).
Proof.
  rewrite !map_app. cbn [map]. rewrite <- !app_assoc. cbn [app].
  rewrite (app_assoc X (map f l1) (f x :: _)), (app_assoc X (map f l1) (map f l2 ++ Y)).
  symmetry. apply Permutation_middle.
Qed.

Lemma dup_expired w net a ctx d :
  node_mid w net a ctx -> In d (dup_tree ctx) ->
  exists ctx', expire_dup_entry_cb ctx (dup_key d) (dup_expire_timer d) = Ok ctx' /\
    expired w net a ctx ctx' [dup_owner d].
Proof.
  intros [Ht Hs Ho] Hin. pose proof (nw_dup _ _ _ Ht) as Hok.
  destruct (take_out (D := dupkey_in_window w) (dup_tree ctx) d Hok Hin) as (l1 & l2 & Es & Ed & Hok' & _ & _ & _).
  assert (Hp : Permutation (owners ctx) (dup_owner d :: owners (set_dup_tree ctx (l1 ++ l2)))).
  { unfold owners. cbn [dup_tree neighbor_tree selector_tree topology_tree set_dup_tree].
    change (all_links (set_dup_tree ctx (l1 ++ l2))) with (all_links ctx). rewrite Es.
    rewrite <- (app_nil_r (map dup_owner (l1 ++ d :: l2))), <- (app_nil_r (map dup_owner (l1 ++ l2))).
    rewrite !app_assoc, <- !(app_assoc _ _ []). apply take_owner. }
  rewrite Hp in Ho. destruct (free_one _ _ _ _ _ _ Ho) as (tq' & Ef & Hf & Ho').
  exists (set_timerqueue (set_dup_tree ctx (l1 ++ l2)) tq').
  unfold expire_dup_entry_cb, upd_tq. cbn [timerqueue set_dup_tree] in *.
  change (dup_key d) with (tkey d). rewrite Ed, Ef. split; [done|].
  constructor; [exact Hp|..|exact Hf|done|done]. constructor; [|exact Hs|exact Ho'].
  apply node_trees_tq. destruct Ht as [Hr ? ? ? ? ? ? ? ? ?]. constructor; try done. by destruct Hr; constructor.
Qed.

(** ** The topology *)
Lemma spf_frame ctx ctx' : spf_result ctx ctx' ->
  same_trees ctx ctx' /\ timerqueue ctx' = timerqueue ctx /\ sending ctx' = sending ctx /\
  olsr_tx_msgbuf ctx' = olsr_tx_msgbuf ctx.
Proof.
  intros [Hf _ _]. unfold same_but_stats in Hf. split.
  - split; [exact (f_equal own_ip Hf)|]. split; [exact (f_equal neighbor_tree Hf)|].
    split; [exact (f_equal mpr_tree Hf)|]. split; [exact (f_equal selector_tree Hf)|].
    split; [exact (f_equal dup_tree Hf)|]. split; [exact (f_equal local_iface_tree Hf)|].
    exact (f_equal topology_tree Hf).
  - split; [exact (eq_sym (f_equal timerqueue Hf))|]. split; [exact (eq_sym (f_equal sending Hf))|].
    exact (eq_sym (f_equal olsr_tx_msgbuf Hf)).
Qed.

Lemma topo_expired w net a ctx t :
  node_mid w net a ctx -> In t (topology_tree ctx) ->
  exists ctx', topology_info_timer_expire_cb ctx (dest_addr t) (topo_expire_timer t) = Ok ctx' /\
    expired w net a ctx ctx' [topo_owner t] /\ routes_current ctx'.
Proof.
  intros [Ht Hs Ho] Hin. pose proof (nw_routing _ _ _ Ht) as Hr. destruct (top_ok _ _ _ Hr) as [Hok Han].
  destruct (take_out (D := in_window w) (topology_tree ctx) t Hok Hin) as (l1 & l2 & Es & Ed & Hok' & Hsub & Hk & _).
  assert (Hp : Permutation (owners ctx) (topo_owner t :: owners (set_topology_tree ctx (l1 ++ l2)))).
  { unfold owners. cbn [dup_tree neighbor_tree selector_tree topology_tree set_topology_tree].
    change (all_links (set_topology_tree ctx (l1 ++ l2))) with (all_links ctx). rewrite Es.
    rewrite !app_assoc, <- !(app_assoc _ _ (map dup_owner (dup_tree ctx))). apply take_owner. }
  rewrite Hp in Ho. destruct (free_one _ _ _ _ _ _ Ho) as (tq' & Ef & Hf & Ho').
  set (ctx1 := set_timerqueue (set_topology_tree ctx (l1 ++ l2)) tq').
  assert (Hr1 : routing_ok w net ctx1).
  { apply routing_ok_tq, routing_ok_topo; [split; [done|auto]| | | |done].
    - intros k Hi. by apply (top_net _ _ _ Hr), Hk.
    - intros x Hx. apply (top_an_net _ _ _ Hr). auto.
    - intros x b Hx. apply (top_nodup _ _ _ Hr). auto. }
  destruct (calc_routing_table_spec w net ctx1 Hr1) as (ctx' & E & Hr' & Hspf).
  exists ctx'. split.
  - unfold topology_info_timer_expire_cb, upd_tq. change (dest_addr t) with (tkey t). rewrite Ed.
    cbn [timerqueue set_topology_tree] in *. rewrite Ef. exact E.
  - assert (Hc : routes_current ctx') by (by apply (spf_result_current ctx1)). split; [|done].
    destruct (spf_frame ctx1 ctx' Hspf) as (Hsame & Eq & Esn & Ering).
    constructor; [by rewrite (owners_same ctx1 ctx')|..|by rewrite Eq|done|by rewrite Esn]. constructor.
    + apply (node_trees_same w net ctx1); [done|done|rewrite Ering; apply Ht|].
      apply node_trees_tq. destruct Ht as [_ ? ? ? ? ? ? ? ? ?]. constructor; try done.
      exact (routing_ok_tq w net ctx1 (timerqueue ctx) Hr1).
    + apply (sym_agrees_same ctx1); [done|exact Hs].
    + rewrite Eq, (owners_same ctx1) by done. exact Ho'.
Qed.

(** ** 2-hop neighbours *)
Lemma neigh2_expired w net a ctx n e :
  node_mid w net a ctx -> In n (neighbor_tree ctx) -> In e (neighbor2_tree n) ->
  exists ctx', neigh2_elem_expire ctx (bridge_addr e) (neighbor2_main_addr e) (neigh2_expire_timer e) = Ok ctx' /\
    expired w net a ctx ctx' [neigh2_owner e].
Proof.
  intros [Ht Hs Ho] Hn He. destruct (nw_n2 _ _ _ Ht n Hn) as [Hok Hnet Hbr]. rewrite (Hbr e He).
  pose proof (nbr_ok _ _ _ (nw_routing _ _ _ Ht)) as Hnok.
  destruct (in_split _ _ Hn) as (m1 & m2 & En). rewrite En in Hnok.
  destruct (take_out (D := in_window w) (neighbor2_tree n) e Hok He) as (l1 & l2 & Es & Ed & Hok' & Hsub & Hk & _).
  pose proof (bridged_id ctx m1 m2 n En) as Ec.
  assert (Hp : Permutation (owners ctx) (neigh2_owner e :: map neigh2_owner (l1 ++ l2) ++ but_neigh2 ctx m1 m2)).
  { rewrite <- Ec at 1. rewrite owners_bridged, Es. apply (take_owner neigh2_owner []). }
  rewrite Hp in Ho. destruct (free_one _ _ _ _ _ _ Ho) as (tq' & Ef & Hf & Ho').
  exists (bridged ctx m1 m2 n tq' (l1 ++ l2)). split.
  - unfold neigh2_elem_expire, upd_tq. rewrite En.
    change (neighbor_main_addr n) with (tkey n) at 1. rewrite (zip_search (in_window w)) by done.
    cbn [deref rbind]. cbn [neigh2_owner fst] in Ef. rewrite Ef. cbn [rbind].
    f_equal. unfold upd_neighbor2, bridged. cbn [neighbor_tree set_timerqueue]. rewrite En.
    change (neighbor_main_addr n) with (tkey n). rewrite (zip_update (in_window w)) by done.
    change (neighbor2_main_addr e) with (tkey e). by rewrite Ed.
  - destruct (bridged_marks ctx m1 m2 n tq' (l1 ++ l2) En) as [Hs' Hc'].
    constructor; [by rewrite owners_bridged|..|exact Hf|exact Hc'|done]. constructor; [|by apply Hs'|].
    + apply bridged_trees; [done|done|]. constructor; [exact Hok'| |].
      * intros k Hi. by apply Hnet, Hk.
      * intros x Hx. apply Hbr. auto.
    + rewrite owners_bridged. exact Ho'.
Qed.

(** ** Links *)
Lemma free_if_ok a ctx t cb own :
  owners_ok periodic_cb a (timerqueue ctx) (map (fun p => (p, cb)) (opt_list t) ++ own) ->
  exists tq', free_timer_if ctx t = Ok (set_timerqueue ctx tq') /\
    frees a (timerqueue ctx) tq' /\ owners_ok periodic_cb a tq' own.
Proof.
  intros H. destruct t as [p|]; cbn in *.
  - destruct (free_one _ _ _ _ _ _ H) as (tq' & E & Hf & Ho). exists tq'. unfold upd_tq. by rewrite E.
  - exists (timerqueue ctx). split; [by destruct ctx|]. split; [apply frees_none|done].
Qed.

(** The node without the link. *)
Definition unlinked (ctx : OlsrContext) (ls : list LinkElem) (tq : TimerqueueContext olsr_cb) : OlsrContext :=
  set_local_iface_tree (set_timerqueue ctx tq) [mkIface (own_ip ctx) ls].

Lemma unlinked_trees w net ctx ls tq :
  node_trees w net ctx -> tree_ok (in_window w) ls -> (forall l, In l ls -> In l (all_links ctx)) ->
  node_trees w net (unlinked ctx ls tq).
Proof.
  intros [Hr ? ? ? ? ? ? ? [_ Hk] Hl] Hok Hsub.
  assert (El : all_links (unlinked ctx ls tq) = ls) by apply all_links_one.
  constructor; rewrite ?El; try done.
  - by destruct Hr; constructor.
  - by right.
  - split; [done|]. intros k Hi. apply in_keys_inv in Hi as (l & Hi & <-). apply Hk. apply (in_keys _ l); auto.
  - intros l Hi. apply Hl. auto.
Qed.

(** The links and timers that go. *)
Lemma link_removed w net a ctx l :
  node_mid w net a ctx -> In l (all_links ctx) ->
  exists ls tq', (let* l0 := find_link ctx (own_ip ctx) (neighbor_iface_addr l) in
      let* ctx := free_timer_if ctx (link_expire_timer l0) in
      let* ctx := free_timer_if ctx (asym_timer l0) in
      let* ctx := free_timer_if ctx (sym_timer l0) in
      let* _ := deref (rbtree_search (local_iface_tree ctx) (link_local_addr l0)) in
      Ok (upd_links ctx (link_local_addr l0) (fun t => fst (rbtree_delete t (neighbor_iface_addr l0))), l0)) =
      Ok (unlinked ctx ls tq', l) /\
    tree_ok (in_window w) ls /\
    (forall l', In l' ls <-> In l' (all_links ctx) /\ neighbor_iface_addr l' <> neighbor_iface_addr l) /\
    frees a (timerqueue ctx) tq' /\ owners_ok periodic_cb a tq' (owners (unlinked ctx ls tq')) /\
    Permutation (owners ctx) (link_owner l ++ owners (unlinked ctx ls tq')).
Proof.
  intros [Ht _ Ho] Hl. destruct (nw_links _ _ _ Ht) as [Hok _].
  pose proof (lk_local _ _ (nw_link _ _ _ Ht l Hl)) as Eloc.
  assert (Ei : local_iface_tree ctx = [mkIface (own_ip ctx) (all_links ctx)]).
  { destruct (nw_iface _ _ _ Ht) as [E|E]; [|done]. unfold all_links in Hl. by rewrite E in Hl. }
  destruct (take_out (D := in_window w) (all_links ctx) l Hok Hl) as (l1 & l2 & Es & Ed & Hok' & _ & _ & Hin).
  set (R := concat (map link_owner (l1 ++ l2)) ++ other_owners ctx).
  assert (Hp : Permutation (owners ctx) (map (fun p => (p, link_cb l)) (opt_list (link_expire_timer l)) ++
    map (fun p => (p, link_cb l)) (opt_list (asym_timer l)) ++
    map (fun p => (p, link_cb l)) (opt_list (sym_timer l)) ++ R)).
  { unfold owners. fold (other_owners ctx). rewrite Es, !map_app, !concat_app. cbn [map concat].
    unfold link_owner at 2, link_timers. rewrite !map_app. unfold R. rewrite map_app, concat_app. app_perm. }
  rewrite Hp in Ho. apply free_if_ok in Ho as (tq1 & E1 & Hf1 & Ho).
  apply (free_if_ok a (set_timerqueue ctx tq1)) in Ho as (tq2 & E2 & Hf2 & Ho).
  apply (free_if_ok a (set_timerqueue ctx tq2)) in Ho as (tq3 & E3 & Hf3 & Ho).
  exists (l1 ++ l2), tq3. unfold find_link. rewrite Ei. cbn [rbtree_search tkey iface_key local_iface_addr tcmp].
  rewrite compare_refl. cbn [Z.eqb deref rbind iface_link_tree]. rewrite Es.
  change (neighbor_iface_addr l) with (tkey l) at 1. rewrite Es in Hok.
  rewrite (zip_search (in_window w)) by done. cbn [deref rbind]. rewrite E1. cbn [rbind]. rewrite E2. cbn [rbind].
  change (set_timerqueue (set_timerqueue ctx tq1) tq2) with (set_timerqueue ctx tq2). rewrite E3. cbn [rbind].
  cbn [local_iface_tree set_timerqueue]. rewrite Ei, Eloc. cbn [rbtree_search tkey iface_key local_iface_addr tcmp].
  rewrite compare_refl. cbn [Z.eqb deref rbind]. rewrite <- Es. split; [|split; [done|split; [exact Hin|split]]].
  - f_equal. f_equal. unfold upd_links, unlinked. cbn [local_iface_tree set_timerqueue]. rewrite Ei.
    cbn [tree_update tkey iface_key local_iface_addr tcmp]. rewrite compare_refl. cbn [Z.eqb].
    unfold set_links. cbn [iface_link_tree local_iface_addr]. change (neighbor_iface_addr l) with (tkey l).
    by rewrite Ed.
  - eapply frees_trans; [exact Hf1|]. eapply frees_trans; [exact Hf2|exact Hf3].
  - assert (ER : owners (unlinked ctx (l1 ++ l2) tq3) = R) by (unfold owners, unlinked; by rewrite all_links_one).
    rewrite ER. split; [exact Ho|]. rewrite Hp. unfold link_owner, link_timers. rewrite !map_app. app_perm.
Qed.

Lemma ok_pair {A B} (x x' : A) (y y' : B) : Ok (x, y) = Ok (x', y') -> x = x' /\ y = y'.
Proof. by intros [= -> ->]. Qed.

Lemma link_expired w net a ctx l :
  node_mid w net a ctx -> In l (all_links ctx) ->
  exists ctx', link_timer_expire ctx (own_ip ctx) (neighbor_iface_addr l) = Ok ctx' /\
    expired w net a ctx ctx' (link_owner l) /\
    (forall l', In l' (all_links ctx') <-> In l' (all_links ctx) /\ neighbor_iface_addr l' <> neighbor_iface_addr l) /\
    ~ OlsrMpr.symmetric (neighbor_tree ctx') (neighbor_iface_addr l).
Proof.
  intros H Hl. destruct (link_removed w net a ctx l H Hl) as (ls & tq' & E & Hok & Hin & Hf & Ho & Hp).
  destruct H as [Ht Hs _]. set (src := neighbor_iface_addr l) in *. set (ctx1 := unlinked ctx ls tq') in *.
  assert (Ht1 : node_trees w net ctx1) by (apply unlinked_trees; [done|done|]; intros l' Hi; by apply Hin).
  assert (Hsrc : In src (keys (neighbor_tree ctx1))).
  { apply (proj2 (nw_links _ _ _ Ht)). by apply (in_keys _ l). }
  assert (El : all_links ctx1 = ls) by apply all_links_one.
  destruct (update_status_ok w net ctx1 src Ht1 Hsrc) as (ctx' & E' & Hu).
  destruct (status_updated_owners w net ctx1 ctx' src Hu) as [Eo Eq].
  pose proof (su_frame _ _ _ _ _ Hu) as Hfr. destruct (routes_frame ctx1 ctx' Hfr) as (_ & Ei & _ & _).
  assert (El' : all_links ctx' = ls) by (unfold all_links in *; by rewrite Ei).
  exists ctx'. split; [|split; [|split]].
  - unfold link_timer_expire. apply rbind_ok in E as (l0 & -> & E). cbn [rbind].
    apply rbind_ok in E as (c1 & -> & E). cbn [rbind]. apply rbind_ok in E as (c2 & -> & E). cbn [rbind].
    apply rbind_ok in E as (c3 & -> & E). cbn [rbind]. apply rbind_ok in E as (i & -> & E). cbn [rbind].
    apply ok_pair in E as [E ->]. rewrite E. exact E'.
  - constructor; [by rewrite Eo| |by rewrite Eq| |].
    + constructor; [apply Hu| |by rewrite Eo, Eq].
      apply (status_updated_agrees w net ctx ctx1 ctx' src Hu); [done|done|].
      intros l' Hne. rewrite El, Hin. tauto.
    + intros Hc. apply (su_routes _ _ _ _ _ Hu). revert Hc. apply routes_current_sym; try done; intros x; by exists x.
    + exact (eq_sym (f_equal sending Hfr)).
  - intros l'. by rewrite El'.
  - intros (n & Hn & Hsym & Ha). rewrite (su_sym _ _ _ _ _ Hu n Hn Ha) in Hsym.
    apply has_sym_iff in Hsym as (l' & Hl' & Ea & _). rewrite El in Hl'. by apply Hin in Hl' as [_ ?].
Qed.
