(* ===== verification/OlsrTraffic.v ===== *)
(** What nodes send (the periodic callbacks of olsr_hello.c, olsr_tc.c and
    olsr_route.c).

    [good_msg] describes the OLSR messages that nodes of a network exchange, and
    [traffic_ok] says that a node has only such messages in its transmit queue and
    has only sent such frames.  The periodic callbacks keep this up; together with
    the expiry callbacks they make the module a client of the timer loop. *)
From S2P Require Import Prelude OrdTree RingBuffer TimerQueue TimerWork TimerOwners OlsrContext OlsrSpf OlsrMantissa NetUtil OlsrNeighbor OlsrMpr OlsrHello OlsrTc OlsrForwarding OlsrRoute RouteIface OlsrRouteIface OlsrDelivery OlsrInv OlsrHelloRun OlsrExpire.
From stdpp Require Import base list numbers gmap.
From Stdlib Require Import ZArith Lia.
Open Scope Z_scope.
Open Scope c_scope.

(** ** The size of a HELLO *)
Definition code_count (ctx : OlsrContext) (e : LinkElem) (c : Z) : Z :=
  match link_code_of ctx e with Some c' => if c' =? c then 1 else 0 | None => 0 end.

Lemma coded_cons ctx c e links : zlen (coded ctx c (e :: links)) = code_count ctx e c + zlen (coded ctx c links).
Proof.
  unfold coded, code_count. cbn [List.filter]. destruct (link_code_of ctx e) as [c'|]; [|lia].
  destruct (c' =? c); cbn [map]; rewrite ?zlen_cons; lia.
Qed.

Definition total (f : Z -> Z) (codes : list Z) : Z := foldr (fun c n => f c + n) 0 codes.

Lemma total_add f g codes : total (fun c => f c + g c) codes = total f codes + total g codes.
Proof. unfold total. induction codes as [|c codes IH]; cbn; lia. Qed.
Lemma total_ext f g codes : (forall c, f c = g c) -> total f codes = total g codes.
Proof. intros H. unfold total. induction codes as [|c codes IH]; cbn; [done|]. by rewrite H, IH. Qed.

Lemma code_once ctx e codes : List.NoDup codes -> 0 <= total (code_count ctx e) codes <= 1.
Proof.
  unfold code_count. destruct (link_code_of ctx e) as [c'|].
  2:{ intros _. replace (total (fun _ => 0) codes) with 0; [lia|]. unfold total. by induction codes. }
  induction 1 as [|c codes Hc _ IH]; cbn; [lia|]. fold (total (fun c => if c' =? c then 1 else 0) codes).
  destruct (Z.eqb_spec c' c) as [->|]; [|lia].
  replace (total (fun c0 => if c =? c0 then 1 else 0) codes) with 0; [lia|].
  clear IH. unfold total. induction codes as [|x codes IH]; cbn; [done|].
  destruct (Z.eqb_spec c x) as [->|]; [exfalso; apply Hc; by left|].
  rewrite <- IH; [done|]. intros Hi. apply Hc. by right.
Qed.

Lemma coded_total ctx links codes : List.NoDup codes ->
  total (fun c => zlen (coded ctx c links)) codes <= zlen links.
Proof.
  intros Hn. induction links as [|e links IH].
  - unfold total. induction codes; cbn in *; [done|]. inversion Hn. auto.
  - rewrite zlen_cons. pose proof (code_once ctx e codes Hn).
    rewrite (total_ext _ (fun c => code_count ctx e c + zlen (coded ctx c links))) by (intros c; apply coded_cons).
    rewrite total_add. lia.
Qed.

Lemma hello_size ctx : infos_size (hello_groups ctx) <= 8 * zlen (all_links ctx).
Proof.
  assert (Hn : List.NoDup link_codes).
  { apply NoDup_ListNoDup. apply (bool_decide_unpack (NoDup link_codes)). vm_compute. exact I. }
  pose proof (coded_total ctx (all_links ctx) link_codes Hn) as Ht.
  transitivity (8 * total (fun c => zlen (coded ctx c (all_links ctx))) link_codes); [|lia].
  unfold hello_groups. clear. induction link_codes as [|c codes IH]; [done|].
  cbn [map List.filter total foldr]. fold (total (fun c => zlen (coded ctx c (all_links ctx))) codes).
  unfold nonempty_group at 1. cbn [snd]. pose proof (zlen_nonneg (coded ctx c (all_links ctx))).
  destruct (Z.eqb_spec (zlen (coded ctx c (all_links ctx))) 0) as [E|E]; cbn [negb]; [lia|].
  rewrite infos_size_cons. cbn [snd]. lia.
Qed.

(** ** The content of a HELLO *)
Lemma links_count w net ctx : node_trees w net ctx -> zlen (all_links ctx) <= 50.
Proof.
  intros H. destruct (nw_links _ _ _ H) as [Hok Hk]. pose proof (net_size _ _ _ (nw_routing _ _ _ H)) as Hn.
  assert (length (keys (all_links ctx)) <= length net)%nat.
  { apply NoDup_incl_length; [by apply (tree_ok_nodup (in_window w))|].
    intros x Hx. apply (nbr_net _ _ _ (nw_routing _ _ _ H)). by apply Hk. }
  unfold keys in *. rewrite length_map in *. unfold zlen, MAX_NODE_COUNT in *. lia.
Qed.

Lemma in_groups ctx g : In g (hello_groups ctx) ->
  forall x, In x (snd g) -> exists l, In l (all_links ctx) /\ neighbor_iface_addr l = x /\
    link_code_of ctx l = Some (fst g).
Proof.
  intros Hg x Hx. apply filter_In in Hg as [Hg _]. apply in_map_iff in Hg as (c & <- & _). cbn in *.
  apply in_map_iff in Hx as (l & <- & Hl). apply filter_In in Hl as [Hl Hc]. exists l.
  split; [done|]. split; [done|]. destruct (link_code_of ctx l) as [c'|]; [|done].
  by apply Z.eqb_eq in Hc as ->.
Qed.

Lemma groups_net w net ctx : node_trees w net ctx -> incl (concat (map snd (hello_groups ctx))) net.
Proof.
  intros H x Hx. apply in_concat in Hx as (g' & Hg & Hx). apply in_map_iff in Hg as (g & <- & Hg).
  destruct (in_groups ctx g Hg x Hx) as (l & Hl & <- & _).
  apply (nbr_net _ _ _ (nw_routing _ _ _ H)), (nw_links _ _ _ H). by apply (in_keys _ l).
Qed.

Lemma extract_link s l : 0 <= l < 4 -> EXTRACT_LINK (u8 (CREATE_LINK_CODE s l)) = l.
Proof.
  intros Hl. unfold EXTRACT_LINK, CREATE_LINK_CODE. rewrite u8_land, <- Z.land_assoc.
  change (Z.land 0xFF 0x3) with 0x3. rewrite Z.land_lor_distr_l. change 3 with (Z.ones 2).
  rewrite !Z.land_ones, Z.shiftl_mul_pow2, Z.mod_mul, Z.lor_0_r by lia. apply Z.mod_small. lia.
Qed.

(** A node never announces a lost link. *)
Lemma never_lost w net ctx x : node_trees w net ctx -> lost_heard (announced (hello_groups ctx) x) = false.
Proof.
  intros H. unfold announced. destruct (List.find _ _) as [g|] eqn:E; [|done].
  apply List.find_some in E as [Hg Hx]. apply existsb_exists in Hx as (y & Hy & Ey).
  destruct (in_groups ctx g Hg y Hy) as (l & Hl & _ & Hc). unfold link_code_of in Hc.
  destruct (_ =? STATUS_UNAVAILABLE); [done|]. injection Hc as <-. unfold lost_heard.
  rewrite extract_link.
  - destruct (lk_status _ _ (nw_link _ _ _ H l Hl)) as [->| ->]; apply andb_false_r.
  - destruct (lk_status _ _ (nw_link _ _ _ H l Hl)) as [->| ->]; done.
Qed.

Lemma groups_ok w net ctx : node_trees w net ctx -> Forall group_ok (hello_groups ctx).
Proof.
  intros H. pose proof (links_count w net ctx H). apply hello_groups_ok; [lia|].
  intros l Hl. apply (window_of w net ctx); [done|].
  apply (nbr_net _ _ _ (nw_routing _ _ _ H)), (nw_links _ _ _ H). by apply (in_keys _ l).
Qed.

(** ** Good messages *)
Definition is_hello (m : OlsrMsgHeader * list Z) : Prop := olsr_msgtype (fst m) = MSG_TYPE_HELLO.

Inductive good_body (net : list Z) (m : OlsrMsgHeader * list Z) : Prop :=
  | good_hello hd bytes gs : is_hello m -> ttl (fst m) <= 1 -> snd m = hd ++ bytes ->
      zlen hd = sizeof_HelloMsg -> enc_infos gs bytes -> Forall group_ok gs ->
      incl (concat (map snd gs)) net -> (forall x, lost_heard (announced gs x) = false) -> good_body net m
  | good_tc ansn r addrs : olsr_msgtype (fst m) = MSG_TYPE_TC -> snd m = tc_bytes ansn r addrs ->
      is_u16 ansn -> zlen r = 2 -> incl addrs net -> good_body net m.

Record good_msg (net : list Z) (m : OlsrMsgHeader * list Z) : Prop := {
  gm_wf : msg_wf m;
  gm_orig : In (originator (fst m)) net;
  gm_vtime : 0 < vtime_us (me_to_reltime (olsr_vtime (fst m))) < 2 ^ 31;
  gm_body : good_body net m
}.

(** The messages a node [own] may send: a HELLO only if it is its own. *)
Definition sendable (net : list Z) (own : Z) (m : OlsrMsgHeader * list Z) : Prop :=
  good_msg net m /\ (is_hello m -> originator (fst m) = own).

(** ** The messages of the node itself *)
Definition buffer_of (cb : olsr_cb) : Z :=
  match cb with Cb_olsr_send_from_queue => PKT_DATA_SIZE | _ => MAX_IPPKT_SIZE end.
Definition junk_ok (junk : olsr_cb -> OlsrContext -> list Z) : Prop :=
  forall cb ctx, zlen (junk cb ctx) = buffer_of cb /\ Forall is_u8 (junk cb ctx).

(** The HELLO a node queues. *)
Definition hello_message (ctx : OlsrContext) (bytes : list Z) : OlsrMsgHeader * list Z :=
  let msg := hello_head ctx ++ bytes in (own_header ctx MSG_TYPE_HELLO 0x84 1 msg, msg).

Example hello_vtime : reltime_to_me DEF_HELLO_VTIME = Ok 0x84 /\ reltime_to_me DEF_TC_VTIME = Ok 0xe5.
Proof. split; vm_compute; reflexivity. Qed.

Lemma hello_timer_ok ctx junk :
  RingBuffer.wf (olsr_tx_msgbuf ctx) -> zlen junk = MAX_IPPKT_SIZE -> Forall is_u8 junk ->
  zlen (all_links ctx) <= 50 ->
  exists bytes rb, enc_infos (hello_groups ctx) bytes /\
    olsr_hello_timer_cb ctx junk = Ok (set_olsr_tx_msgbuf ctx rb) /\
    RingBuffer.wf rb /\ RingBuffer.size rb = RingBuffer.size (olsr_tx_msgbuf ctx) /\
    contents rb = contents (olsr_tx_msgbuf ctx) ++
      if zlen (enc_msg (hello_message ctx bytes)) <=? room ctx then enc_msg (hello_message ctx bytes) else [].
Proof.
  intros Hwf Hj Hu Hn. unfold MAX_IPPKT_SIZE in *. pose proof (hello_size ctx) as Hs.
  assert (Hd : zlen (drop 12 junk) = 1988).
  { unfold zlen in *. rewrite length_drop. lia. }
  destruct (build_hello_ok ctx (own_prefix ctx junk MSG_TYPE_HELLO 0x84 1) (drop 12 junk))
    as (bytes & rest' & Hb & He); [lia|by apply Forall_drop|lia|].
  rewrite zlen_own_prefix in Hb by lia. exists bytes.
  assert (Hl : zlen (hello_head ctx ++ bytes) = 4 + infos_size (hello_groups ctx))
    by (rewrite zlen_app, (zlen_enc_infos _ _ He); done).
  destruct (queue_own_msg_ok ctx ctx junk MSG_TYPE_HELLO 0x84 DEF_HELLO_VTIME 1
    (fun ctx b buf => let* r := build_olsr_hello ctx b buf in Ok (ctx, fst r, snd r))
    (hello_head ctx ++ bytes) rest') as (rb & E & Hwf' & Hsz & Hc).
  - lia.
  - unfold is_u8, MSG_TYPE_HELLO. lia.
  - unfold is_u8. lia.
  - unfold is_u8. lia.
  - vm_compute. reflexivity.
  - lia.
  - rewrite Hb. done.
  - done.
  - exists rb. split; [done|]. split; [exact E|]. split; [done|]. split; [done|].
    rewrite zlen_enc_msg. exact Hc.
Qed.

(** The headers of the own messages. *)
Lemma own_header_ok ctx t vt tl msg : is_u8 t -> is_u8 vt -> is_u8 tl -> 12 + zlen msg < 65536 ->
  is_u32 (own_ip ctx) -> msg_wf (own_header ctx t vt tl msg, msg).
Proof.
  intros Ht Hv Htl Hl Ho. pose proof (zlen_nonneg msg). split; [|done].
  constructor; cbn; try done; try apply u16_range; unfold is_u16, is_u8 in *; lia.
Qed.

Lemma hello_sendable w net ctx bytes :
  node_trees w net ctx -> enc_infos (hello_groups ctx) bytes ->
  sendable net (own_ip ctx) (hello_message ctx bytes).
Proof.
  intros H He. pose proof (links_count w net ctx H). pose proof (hello_size ctx).
  pose proof (zlen_enc_infos _ _ He) as Hz.
  split; [|done]. constructor.
  - apply own_header_ok; [done|done|done| |by apply (own_window w net)].
    rewrite zlen_app. change (zlen (hello_head ctx)) with 4. lia.
  - apply (nw_own _ _ _ H).
  - vm_compute. done.
  - apply (good_hello net _ (hello_head ctx) bytes (hello_groups ctx)); try done.
    + by apply (groups_ok w net).
    + by apply (groups_net w net).
    + intros x. by apply (never_lost w net).
Qed.

Lemma tc_sendable w net ctx r : node_trees w net ctx -> zlen r = 2 ->
  zlen (selector_tree ctx) <= 50 -> sendable net (own_ip ctx) (tc_message ctx r).
Proof.
  intros H Hr Hn. assert (Hk : zlen (keys (selector_tree ctx)) = zlen (selector_tree ctx))
    by (unfold keys, zlen; by rewrite length_map).
  pose proof (zlen_tc_bytes (ansn ctx) r (keys (selector_tree ctx)) Hr) as Hl.
  split; [|intros E; discriminate E]. constructor.
  - apply own_header_ok; [done|done|done|lia|by apply (own_window w net)].
  - apply (nw_own _ _ _ H).
  - vm_compute. done.
  - apply (good_tc net _ (u16 (ansn ctx)) r (keys (selector_tree ctx))); try done.
    + cbn [snd tc_message]. unfold tc_bytes, htons. by rewrite (u16_id (u16 _)) by apply u16_range.
    + apply u16_range.
    + apply (nw_sel _ _ _ H).
Qed.

Lemma selectors_count w net ctx : node_trees w net ctx -> zlen (selector_tree ctx) <= 50.
Proof.
  intros H. destruct (nw_sel _ _ _ H) as [Hok Hk]. pose proof (net_size _ _ _ (nw_routing _ _ _ H)) as Hn.
  assert (length (keys (selector_tree ctx)) <= length net)%nat
    by (apply NoDup_incl_length; [by apply (tree_ok_nodup (in_window w))|done]).
  unfold keys in *. rewrite length_map in *. unfold zlen, MAX_NODE_COUNT in *. lia.
Qed.

Lemma enc_msgs_snoc ms m : enc_msgs (ms ++ [m]) = enc_msgs ms ++ enc_msg m.
Proof. unfold enc_msgs. rewrite map_app, concat_app. cbn. by rewrite app_nil_r. Qed.

(** ** Good frames *)
Section Data.

(** The datagrams that the nodes' local sides have handed in. *)
Context (D : list Z -> Prop).

Inductive good_frame (net : list Z) (f : list Z) : Prop :=
  | olsr_frame_ok own seq ms : In own net -> is_olsr_frame own seq (enc_msgs ms) f ->
      Forall (sendable net own) ms -> ms <> [] -> zlen (enc_msgs ms) <= OLSR_TX_MSGBUF_SIZE ->
      good_frame net f
  | carried_frame_ok h opts pay dst nh : datagram h opts pay dst -> In dst net -> In nh net ->
      D (payload_bytes h opts pay) -> carried h opts pay nh f -> good_frame net f
  | plain_frame_ok h opts pay dst : datagram h opts pay dst -> In dst net -> plain_ok h opts pay ->
      f = payload_bytes h opts pay -> D f -> good_frame net f.

(** What the node [own] may hand to its local side. *)
Definition good_delivery (own : Z) (f : list Z) : Prop :=
  exists h opts pay dst, datagram h opts pay dst /\ f = payload_bytes h opts pay /\ D f /\
    IP_C_CLASS_MATCH own dst = true.

Record traffic_ok (net : list Z) (ctx : OlsrContext) : Prop := {
  tr_queue : exists ms, contents (olsr_tx_msgbuf ctx) = enc_msgs ms /\ Forall (sendable net (own_ip ctx)) ms;
  tr_outs : forall f, In (SendRemote f) (outs ctx) -> good_frame net f;
  tr_locals : forall f, In (SendLocal f) (outs ctx) -> good_delivery (own_ip ctx) f
}.

Lemma traffic_ok_same net ctx ctx' : sending ctx' = sending ctx -> traffic_ok net ctx -> traffic_ok net ctx'.
Proof.
  unfold sending. intros [= Eo Er Eu _ _] [(ms & Ec & Hms) Ho Hl]. constructor.
  - exists ms. by rewrite Er, Eo.
  - by rewrite Eu.
  - by rewrite Eu, Eo.
Qed.

(** What a periodic callback does. *)
Record ticked (w : Z) (net : list Z) (a : Z) (ctx ctx' : OlsrContext) : Prop := {
  tk_node : node_mid w net a ctx';
  tk_timers : timerqueue ctx' = timerqueue ctx;
  tk_traffic : traffic_ok net ctx';
  tk_trees : same_trees ctx ctx';
  tk_table : routing_table ctx' = routing_table ctx
}.

(** It has changed nothing but the queue, the output and the counters. *)
Lemma ticked_intro w net a ctx ctx' :
  node_mid w net a ctx -> traffic_ok net ctx' -> same_trees ctx ctx' ->
  stat ctx' = stat ctx -> node_stat_tree ctx' = node_stat_tree ctx -> routing_table ctx' = routing_table ctx ->
  timerqueue ctx' = timerqueue ctx ->
  RingBuffer.wf (olsr_tx_msgbuf ctx') -> RingBuffer.size (olsr_tx_msgbuf ctx') = OLSR_TX_MSGBUF_SIZE ->
  ticked w net a ctx ctx'.
Proof.
  intros [Ht Hs Ho] Htr Hsame E1 E2 E3 E4 Hwf Hsz. constructor; try done. constructor.
  - apply (node_trees_same w net ctx); [done| |done|done].
    destruct (nw_routing _ _ _ Ht) as [? ? ? ? ? ? ? ? ? ? ?]. destruct Hsame as (F0 & F1 & _ & _ & _ & _ & F6).
    constructor; rewrite <- ?F1, <- ?F6, ?E1, ?E2, ?E3; done.
  - by apply (sym_agrees_same ctx).
  - by rewrite E4, (owners_same ctx).
Qed.

(** A message of the node itself enters the queue, or there is no room. *)
Lemma queued_ok net ctx ctx' m (c : bool) :
  traffic_ok net ctx -> sendable net (own_ip ctx) m -> own_ip ctx' = own_ip ctx -> outs ctx' = outs ctx ->
  contents (olsr_tx_msgbuf ctx') = contents (olsr_tx_msgbuf ctx) ++ (if c then enc_msg m else []) ->
  traffic_ok net ctx'.
Proof.
  intros [(ms & Ec & Hms) Ho Hl] Hm Eo Eu E. constructor; [|by rewrite Eu|by rewrite Eu, Eo].
  rewrite E, Eo, Ec. destruct c; [|exists ms; by rewrite app_nil_r].
  exists (ms ++ [m]). rewrite enc_msgs_snoc. split; [done|]. apply Forall_app. split; [done|].
  constructor; [done|constructor].
Qed.

(** ** The periodic callbacks *)
Lemma hello_ticked w net a ctx junk :
  node_mid w net a ctx -> traffic_ok net ctx -> zlen junk = MAX_IPPKT_SIZE -> Forall is_u8 junk ->
  exists ctx', olsr_hello_timer_cb ctx junk = Ok ctx' /\ ticked w net a ctx ctx'.
Proof.
  intros H Htr Hj Hu. pose proof (md_trees _ _ _ _ H) as Ht. destruct (nw_ring _ _ _ Ht) as [Hwf Hsz].
  destruct (hello_timer_ok ctx junk Hwf Hj Hu (links_count w net ctx Ht)) as (bytes & rb & He & E & Hwf' & Hsz' & Hc).
  exists (set_olsr_tx_msgbuf ctx rb). split; [exact E|].
  apply ticked_intro; try done; [|cbn; congruence].
  by apply (queued_ok net ctx (set_olsr_tx_msgbuf ctx rb) (hello_message ctx bytes) _ Htr (hello_sendable w net ctx bytes Ht He) eq_refl eq_refl Hc).
Qed.

Lemma tc_ticked w net a ctx junk :
  node_mid w net a ctx -> traffic_ok net ctx -> zlen junk = MAX_IPPKT_SIZE ->
  exists ctx', olsr_tc_timer_cb ctx junk = Ok ctx' /\ ticked w net a ctx ctx'.
Proof.
  intros H Htr Hj. pose proof (md_trees _ _ _ _ H) as Ht. destruct (nw_ring _ _ _ Ht) as [Hwf Hsz].
  pose proof (selectors_count w net ctx Ht) as Hn.
  destruct (tc_timer_ok ctx junk Hwf Hj) as (r & rb & Hr & E & Hwf' & Hsz' & Hc);
    [unfold MAX_IPPKT_SIZE; lia|].
  eexists. split; [exact E|]. apply ticked_intro; try done; [|cbn; congruence].
  by apply (queued_ok net ctx (set_olsr_tx_msgbuf (set_ansn ctx (u16 (ansn ctx + 1))) rb) (tc_message ctx r) _ Htr (tc_sendable w net ctx r Ht Hr Hn) eq_refl eq_refl Hc).
Qed.

Lemma send_ticked w net a ctx junk :
  node_mid w net a ctx -> traffic_ok net ctx -> zlen junk = PKT_DATA_SIZE ->
  exists ctx', olsr_send_from_queue_cb ctx junk = Ok ctx' /\ ticked w net a ctx ctx'.
Proof.
  intros H Htr Hj. pose proof (md_trees _ _ _ _ H) as Ht. destruct (nw_ring _ _ _ Ht) as [Hwf Hsz].
  pose proof (zlen_contents _ Hwf) as Hz. pose proof (used_range _ Hwf) as Hr.
  destruct (contents (olsr_tx_msgbuf ctx)) as [|x cs] eqn:Ec.
  - exists ctx. split; [|by apply ticked_intro]. unfold olsr_send_from_queue_cb.
    rewrite readable_used by done. change (zlen (@nil Z)) with 0 in Hz. by rewrite <- Hz.
  - destruct (send_from_queue_ok ctx junk) as (rb & f & E & Hwf' & Hc & Hsz' & Hf); [done|lia| |done|by rewrite Ec|].
    { by apply (own_window w net). }
    eexists. split; [exact E|]. apply ticked_intro; try done; [|cbn; congruence].
    destruct Htr as [(ms & Em & Hms) Ho Hl]. constructor.
    + exists []. cbn. by rewrite Hc.
    + cbn. intros g Hg. apply in_app_iff in Hg as [Hg|[[= <-]|[]]]; [auto|]. rewrite Em in Hf.
      apply (olsr_frame_ok net f (own_ip ctx) (msg_seq ctx) ms); try done; [apply (nw_own _ _ _ Ht)| |].
      * intros ->. rewrite Em in Ec. discriminate Ec.
      * rewrite <- Em, Ec, Hz. lia.
    + cbn. intros g Hg. apply in_app_iff in Hg as [Hg|[[=]|[]]]. auto.
Qed.

Lemma periodic_ticked w net a junk ctx cb :
  junk_ok junk -> node_mid w net a ctx -> traffic_ok net ctx -> periodic_cb cb = true ->
  exists ctx', run_olsr_cb junk cb ctx = Ok ctx' /\ ticked w net a ctx ctx'.
Proof.
  intros Hj H Htr Hp. destruct (Hj cb ctx) as [Hz Hu].
  destruct cb; try discriminate Hp; cbn [run_olsr_cb buffer_of] in *.
  - by apply hello_ticked.
  - by apply tc_ticked.
  - by apply send_ticked.
  - exists ctx. split; [done|]. apply ticked_intro; try done; apply (nw_ring _ _ _ (md_trees _ _ _ _ H)).
Qed.
End Data.
