(* ===== verification/OlsrWork.v ===== *)
(** The periodic work of a node (simnet/olsr/olsr_route_iface.c, [olsr_work]).

    A node in its invariant keeps the promises of [TimerClient] (TimerWork), so
    the loop of its timer queue ends, and the invariant holds again. *)
From S2P Require Import Prelude OrdTree RingBuffer TimerQueue TimerWork TimerOwners OlsrContext OlsrSpf OlsrMantissa NetUtil OlsrNeighbor OlsrMpr OlsrHello OlsrTc OlsrForwarding OlsrRoute RouteIface OlsrRouteIface OlsrDelivery OlsrInv OlsrStart OlsrHelloRun OlsrExpire OlsrTraffic.
From stdpp Require Import base list numbers gmap.
From Stdlib Require Import ZArith Lia.
Open Scope Z_scope.
Open Scope c_scope.

(** A callback that leads back to an element finds it and takes it out. *)
Lemma owned_expired w net a junk ctx p cb :
  node_mid w net a ctx -> In (p, cb) (owners ctx) ->
  exists ctx' gone, run_olsr_cb junk cb ctx = Ok ctx' /\ expired w net a ctx ctx' gone /\ In (p, cb) gone.
Proof.
  intros H Hin. unfold owners in Hin. rewrite !in_app_iff in Hin.
  destruct Hin as [Hin|[Hin|[Hin|[Hin|Hin]]]].
  - apply in_concat in Hin as (o & Ho & Hin). apply in_map_iff in Ho as (l & <- & Hl).
    assert (Ecb : cb = link_cb l) by (apply in_map_iff in Hin as (q & [= _ <-] & _); done). subst cb.
    destruct (link_expired w net a ctx l H Hl) as (ctx' & E & He & _). exists ctx', (link_owner l).
    unfold link_cb at 1. cbn [run_olsr_cb].
    by rewrite (lk_local _ _ (nw_link _ _ _ (md_trees _ _ _ _ H) l Hl)).
  - apply in_concat in Hin as (o & Ho & Hin). apply in_map_iff in Ho as (n & <- & Hn).
    apply in_map_iff in Hin as (e & [= <- <-] & He).
    destruct (neigh2_expired w net a ctx n e H Hn He) as (ctx' & E & Hx). exists ctx', [neigh2_owner e].
    split; [exact E|]. split; [done|by left].
  - apply in_map_iff in Hin as (s & [= <- <-] & Hs).
    destruct (selector_expired w net a ctx s H Hs) as (ctx' & E & He & _). exists ctx', [selector_owner s].
    split; [exact E|]. split; [done|by left].
  - apply in_map_iff in Hin as (t & [= <- <-] & Ht).
    destruct (topo_expired w net a ctx t H Ht) as (ctx' & E & He & _). exists ctx', [topo_owner t].
    split; [exact E|]. split; [done|by left].
  - apply in_map_iff in Hin as (d & [= <- <-] & Hd).
    destruct (dup_expired w net a ctx d H Hd) as (ctx' & E & Hx). exists ctx', [dup_owner d].
    split; [exact E|]. split; [done|by left].
Qed.

(** The timer of what is gone belongs to nobody. *)
Lemma gone_not_owned w net a ctx ctx' gone p cb :
  node_mid w net a ctx -> expired w net a ctx ctx' gone -> In (p, cb) gone ->
  ~ In p (map fst (owners ctx')).
Proof.
  intros H Hx Hin Hp. pose proof (ow_nodup _ _ _ _ (md_owners _ _ _ _ H)) as Hn.
  rewrite (ex_gone _ _ _ _ _ _ Hx), map_app in Hn. apply in_split in Hin as (g1 & g2 & ->).
  rewrite map_app in Hn. cbn [map fst] in Hn. rewrite <- app_assoc in Hn.
  apply NoDup_app_remove_l in Hn. cbn [app] in Hn. inversion Hn as [|? ? Hno _]; subst.
  apply Hno, in_app_iff. by right.
Qed.

(** The time of a call. *)
Abbreviation now_of ctx := (clk (timerqueue ctx) (ticks (timerqueue ctx))).

Section Data.
Context (D : list Z -> Prop).

(** What a node knows of itself between two callbacks; [own] is its address, and
    [cur] says whether its routes were current. *)
Record between (w : Z) (net : list Z) (own : Z) (cur : Prop) (a : Z) (ctx : OlsrContext) : Prop := {
  bt_mid : node_mid w net a ctx;
  bt_traffic : traffic_ok D net ctx;
  bt_own : own_ip ctx = own;
  bt_routes : cur -> routes_current ctx
}.

Lemma between_expired w net own cur a ctx ctx' gone :
  between w net own cur a ctx -> expired w net a ctx ctx' gone -> between w net own cur a ctx'.
Proof.
  intros [_ Ht Ho Hr] [_ Hn _ Hr' Hs]. constructor; [done|by apply (traffic_ok_same D net ctx)| |auto].
  unfold sending in Hs. congruence.
Qed.

Lemma between_ticked w net own cur a ctx ctx' :
  between w net own cur a ctx -> ticked D w net a ctx ctx' -> between w net own cur a ctx'.
Proof.
  intros [_ _ Ho Hr] [Hn _ Ht (E0 & E1 & _ & _ & _ & _ & E6) Et]. constructor; [done|done|congruence|].
  intros Hc. specialize (Hr Hc). unfold routes_current in *. by rewrite <- E0, <- E1, <- E6, Et.
Qed.

(** Another queue with the same owners. *)
Lemma between_tq w net own cur a ctx tq :
  between w net own cur a ctx -> owners_ok periodic_cb a tq (owners ctx) ->
  between w net own cur a (set_timerqueue ctx tq).
Proof.
  intros [[Ht Hs _] Htr Ho Hr] Hq. constructor; [|by apply (traffic_ok_same D net ctx)|done|exact Hr].
  constructor; [by apply node_trees_tq|exact Hs|exact Hq].
Qed.

(** The callback of the timer [p] has run. *)
Definition after (w : Z) (net : list Z) (own : Z) (cur : Prop) (a p : Z) (ctx : OlsrContext) : Prop :=
  between w net own cur a ctx /\ ~ In p (map fst (owners ctx)).

Lemma client_runs w net own cur a junk now s p e cb :
  junk_ok junk -> between w net own cur a s -> queue_mid (timerqueue s) p -> anchored (timerqueue s) a p ->
  heap (timerqueue s) !! p = Some e -> active e <> 0 -> attached e <> 0 -> callback e = Some cb ->
  exists s' e', run_olsr_cb junk cb s = Ok s' /\ after w net own cur a p s' /\
    queue_mid (timerqueue s') p /\ anchored (timerqueue s') a p /\
    heap (timerqueue s') !! p = Some e' /\ priv_rbk e' = priv_rbk e /\ attached e' <> 0 /\
    lags now (heap (timerqueue s')) (rbt (timerqueue s')) <= lags now (heap (timerqueue s)) (rbt (timerqueue s)).
Proof.
  intros Hj H Hm Han He Hact Hatt Hcb. pose proof (md_owners _ _ _ _ (bt_mid _ _ _ _ _ _ H)) as Ho.
  destruct (ow_active _ _ _ _ Ho p e He Hact) as (c & Hc & Hk). rewrite Hcb in Hc. injection Hc as <-.
  destruct Hk as [Hper|Hin].
  - destruct (periodic_ticked D w net a junk s cb Hj) as (s' & E & Ht); [apply H|apply H|done|].
    exists s', e. rewrite (tk_timers _ _ _ _ _ _ Ht). split; [done|]. split.
    + split; [by apply (between_ticked w net own cur a s)|]. rewrite (owners_same s s') by apply Ht. intros Hin.
      apply in_map_iff in Hin as ([q c] & [= ->] & Hin). pose proof (ow_client _ _ _ _ Ho _ _ Hin) as Hf.
      destruct (ow_live _ _ _ _ Ho _ _ Hin) as (x & Hx & Hob). pose proof (ob_callback _ _ Hob). congruence.
    + do 5 (split; [done|]). lia.
  - destruct (owned_expired w net a junk s p cb) as (s' & gone & E & Hx & Hg); [apply H|done|].
    destruct (frees_running a now _ _ p e (ex_frees _ _ _ _ _ _ Hx)) as ([Hm' Han' _] & (e' & He' & Ek & Ha') & El);
      [by constructor; eauto|done|].
    exists s', e'. rewrite El. split; [done|]. split.
    + split; [by apply (between_expired w net own cur a s s' gone)|].
      apply (gone_not_owned w net a s s' gone p cb); [apply H|done|done].
    + do 5 (split; [done|]). lia.
Qed.

#[export] Instance olsr_client w net own cur a junk now (Hj : junk_ok junk) :
  TimerClient timerqueue set_timerqueue (run_olsr_cb junk) (between w net own cur a) (after w net own cur a) a now.
Proof.
  constructor.
  - done.
  - intros s tq p H Ht Eh. apply between_tq; [done|].
    apply (owners_queue periodic_cb a (timerqueue s)); [done|apply Ht|apply (bt_mid _ _ _ _ _ _ H)].
  - intros s p e H He Hact. split; [done|]. intros Hin. apply in_map_iff in Hin as ([q c] & [= ->] & Hin).
    destruct (ow_live _ _ _ _ (md_owners _ _ _ _ (bt_mid _ _ _ _ _ _ H)) _ _ Hin) as (x & Hx & Hob).
    destruct (ob_running _ _ Hob). congruence.
  - by intros s p [H _].
  - intros s tq p [H Hno] Ht. split; [|exact Hno]. apply between_tq; [done|].
    apply (owners_touch periodic_cb a (timerqueue s) tq _ p Ht Hno), (bt_mid _ _ _ _ _ _ H).
  - intros s p e H He Hf. apply between_tq; [done|].
    apply (owners_delete periodic_cb a _ _ p e); [done|done|]. apply (bt_mid _ _ _ _ _ _ H).
  - intros s p e cb. by apply client_runs.
  - intros s p e cb [H _] _ _ _ He _ Hd. exfalso.
    pose proof (ow_plain _ _ _ _ (md_owners _ _ _ _ (bt_mid _ _ _ _ _ _ H)) p e He). congruence.
Qed.

(** ** Nodes and their traffic *)
Record node_well (w : Z) (net : list Z) (a : Z) (ctx : OlsrContext) : Prop := {
  wl_node : node_ok w net a ctx;
  wl_traffic : traffic_ok D net ctx
}.

(** Every element of the node has a timer that runs and is not due. *)
Definition nothing_expired (now : timespec) (ctx : OlsrContext) : Prop :=
  forall p cb, In (p, cb) (owners ctx) -> exists e,
    heap (timerqueue ctx) !! p = Some e /\ In p (rbt (timerqueue ctx)) /\ active e = 1 /\
    callback e = Some cb /\ check_expire (priv_rbk e) now = false.

Lemma none_due_elements w net a ctx now :
  node_ok w net a ctx -> none_due now (timerqueue ctx) -> nothing_expired now ctx.
Proof.
  intros [_ _ [Ho _ Hit _]] Hd p cb Hin. destruct (ow_live _ _ _ _ Ho p cb Hin) as (e & He & [Hc _ _ [Ha Hact] _]).
  exists e. destruct (Hit p e He) as [Hp|[]]; [lia|]. do 4 (split; [done|]). by apply (Hd p).
Qed.

Lemma work_spec w net a junk ctx :
  junk_ok junk -> node_well w net a ctx ->
  exists ctx', olsr_work junk (work_fuel (timerqueue ctx)) ctx = Ok ctx' /\
    node_well w net a ctx' /\ own_ip ctx' = own_ip ctx /\
    (routes_current ctx -> routes_current ctx') /\ nothing_expired (now_of ctx) ctx'.
Proof.
  intros Hj [[Ht Hs [Ho Hq Hit Ha]] Htr]. unfold olsr_work.
  destruct (timerqueue_work_spec timerqueue set_timerqueue (run_olsr_cb junk)
    (between w net (own_ip ctx) (routes_current ctx) a) (after w net (own_ip ctx) (routes_current ctx) a) a ctx)
    as (ctx' & E & [[[Ht' Hs' Ho'] Htr' Eo Hr'] Hq' Hit' Ha'] & Hd).
  - by apply olsr_client.
  - constructor; [|done|done|done]. constructor; [by constructor|done|done|done].
  - assert (Hn : node_ok w net a ctx') by (constructor; [done|done|by constructor]).
    exists ctx'. split; [done|]. split; [by constructor|]. split; [done|]. split; [done|].
    by apply (none_due_elements w net a).
Qed.

End Data.


Definition ex_junk (cb : olsr_cb) (_ : OlsrContext) : list Z := repeat 0xcc (Z.to_nat (buffer_of cb)).

Lemma ex_junk_ok : junk_ok ex_junk.
Proof.
  intros cb ctx. unfold ex_junk, zlen. rewrite repeat_length. split; [destruct cb; reflexivity|].
  apply List.Forall_forall. intros x Hx. apply repeat_spec in Hx as ->. unfold is_u8. lia.
Qed.

Lemma ex_well_in D w net own :
  (length net <= MAX_NODE_COUNT)%nat -> (forall a, In a net -> in_window w a) -> In own net ->
  node_well D w net hello_timer_ptr (ex_started own).
Proof.
  intros Hsz Hwin Hin. destruct (ex_started_in w net own Hsz Hwin Hin) as (H & _ & _ & _ & _ & Hc & Ho).
  constructor; [exact H|]. constructor; [exists []; split; [exact Hc|constructor]| |]; rewrite Ho; intros f [].
Qed.

(** Four seconds after the start the node has sent HELLOs and TCs. *)
Example ex_work_run :
  match olsr_work ex_junk 300 (ex_started 1) with
  | Ok c => (length (outs c), msg_seq c) = (7%nat, 7)
  | _ => False
  end.
Proof. vm_compute. reflexivity. Qed.

