(* ===== verification/OlsrNode.v ===== *)
(** A node receives (simnet/olsr/olsr_route.c, olsr_route_iface.c).

    Whatever good frame arrives and whatever datagram the local side hands in, the
    module returns without undefined behaviour and its invariant holds again: the
    handlers of HELLO and TC messages, the forwarding, and the routing of data
    packets, for a node in any state that satisfies the invariant. *)
From S2P Require Import Prelude OrdTree RingBuffer TimerQueue TimerWork TimerOwners OlsrContext OlsrSpf OlsrMantissa NetUtil OlsrNeighbor OlsrMpr OlsrHello OlsrTc OlsrForwarding OlsrRoute RouteIface OlsrRouteIface OlsrDelivery OlsrInv OlsrStart OlsrHelloRun OlsrExpire OlsrTraffic OlsrWork.
From stdpp Require Import base list numbers gmap.
From Stdlib Require Import ZArith Lia.
Open Scope Z_scope.
Open Scope c_scope.

(** ** Other elements with the same timers *)
Definition topo_owner_of (x : Z * Z) : Z * olsr_cb := (x.2, Cb_topology_info_timer_expire x.1 x.2).

Lemma topo_owners l : map topo_owner l = map topo_owner_of (topo_timers l).
Proof. unfold topo_timers. by rewrite map_map. Qed.

(** All owners but those of the topology. *)
Definition but_topology (ctx : OlsrContext) : list (Z * olsr_cb) :=
  concat (map link_owner (all_links ctx)) ++ concat (map neigh_owner (neighbor_tree ctx)) ++
  map selector_owner (selector_tree ctx) ++ map dup_owner (dup_tree ctx).

Lemma owners_topology ctx : Permutation (owners ctx) (map topo_owner (topology_tree ctx) ++ but_topology ctx).
Proof. unfold owners, but_topology. app_perm. Qed.

(** The element [x] with its timer is new in the tree. *)
Lemma put_owner `{TK : TreeKey E K} (Dm : K -> Prop) `{!CmpOrder tcmp Dm} (owner : E -> Z * olsr_cb) (t : list E) x :
  tree_ok Dm t -> Dm (tkey x) -> rbtree_search t (tkey x) = None ->
  Permutation (map owner (tree_put t x)) (owner x :: map owner t).
Proof.
  intros Hok Hx Hs. destruct (zip_put Dm t x Hs Hok Hx) as (l1 & l2 & -> & ->).
  rewrite !map_app. cbn. symmetry. apply Permutation_middle.
Qed.

(** ** A TC message *)

(** Getting the element of the originator, with its timer. *)
Lemma topology_info_queue w net a ctx orig ansn vtime ctx1 :
  node_ok w net a ctx -> In orig net -> get_topology_info ctx orig ansn vtime = Ok ctx1 ->
  queue_ok periodic_cb a (timerqueue ctx1) (owners ctx1).
Proof.
  intros [Ht _ Hq] Ho. unfold get_topology_info. pose proof (top_ok _ _ _ (nw_routing _ _ _ Ht)) as [Hok _].
  destruct (rbtree_search (topology_tree ctx) orig) eqn:Es; [by intros [= <-]|].
  destruct (start_owned periodic_cb a (timerqueue ctx) (owners ctx) (vtime_us vtime) 1
    (Cb_topology_info_timer_expire orig) Hq) as (tq & E & Hq' & _); [done|done|].
  unfold with_tq. rewrite E. cbn [rbind fst snd]. intros [= <-].
  set (e := {| dest_addr := orig |}).
  assert (Hp : Permutation (owners (set_topology_tree (set_timerqueue ctx tq) (tree_put (topology_tree ctx) e)))
    (topo_owner e :: owners ctx)).
  { rewrite !owners_topology. cbn [topology_tree set_topology_tree].
    rewrite (put_owner (in_window w) topo_owner) by (done || by apply (window_of w net ctx)). done. }
  cbn [timerqueue set_topology_tree set_timerqueue]. rewrite Hp. exact Hq'.
Qed.

Lemma tc_queue w net a ctx ctx' orig ansn vtime :
  node_ok w net a ctx -> In orig net -> tc_timers ctx ctx' orig ansn vtime -> same_but_topology ctx ctx' ->
  queue_ok periodic_cb a (timerqueue ctx') (owners ctx').
Proof.
  intros H Ho (ctx1 & t & E & Ht & Hd & Er & Et) Hf.
  pose proof (topology_info_queue w net a ctx orig ansn vtime ctx1 H Ho E) as H1.
  assert (Hin : In (topo_owner t) (owners ctx1)).
  { rewrite owners_topology. apply in_app_iff. left. by apply in_map. }
  destruct (reactivate_owned periodic_cb a (timerqueue ctx1) (owners ctx1) (topo_expire_timer t) _ H1 Hin)
    as (tq & E2 & H2 & _).
  rewrite Er in E2. injection E2 as <-.
  assert (Hp : owners ctx' = owners ctx1); [|by rewrite Hp].
  assert (Hb : all_links ctx1 = all_links ctx /\ neighbor_tree ctx1 = neighbor_tree ctx /\
    selector_tree ctx1 = selector_tree ctx /\ dup_tree ctx1 = dup_tree ctx).
  { revert E. unfold get_topology_info, with_tq. destruct (rbtree_search _ _); [by intros [= <-]|].
    intros E. apply rbind_ok in E as ([c p] & E & E'). apply rbind_ok in E as (r & _ & E). inv_ok. done. }
  unfold owners. destruct Hb as (-> & -> & -> & ->). rewrite !topo_owners, Et.
  unfold same_but_topology in Hf.
  assert (E1 : all_links ctx' = all_links ctx) by exact (eq_sym (f_equal all_links Hf)).
  assert (E2 : neighbor_tree ctx' = neighbor_tree ctx) by exact (eq_sym (f_equal neighbor_tree Hf)).
  assert (E3 : selector_tree ctx' = selector_tree ctx) by exact (eq_sym (f_equal selector_tree Hf)).
  assert (E4 : dup_tree ctx' = dup_tree ctx) by exact (eq_sym (f_equal dup_tree Hf)).
  by rewrite E1, E2, E3, E4.
Qed.

(** Other topology, routes and timers. *)
Lemma node_trees_topology w net ctx ctx' : same_but_topology ctx ctx' -> routing_ok w net ctx' ->
  node_trees w net ctx -> node_trees w net ctx'.
Proof.
  unfold same_but_topology. intros Hf Hr [].
  assert (E0 : own_ip ctx' = own_ip ctx) by exact (eq_sym (f_equal own_ip Hf)).
  assert (E1 : all_links ctx' = all_links ctx) by exact (eq_sym (f_equal all_links Hf)).
  assert (E2 : neighbor_tree ctx' = neighbor_tree ctx) by exact (eq_sym (f_equal neighbor_tree Hf)).
  assert (E3 : selector_tree ctx' = selector_tree ctx) by exact (eq_sym (f_equal selector_tree Hf)).
  assert (E4 : dup_tree ctx' = dup_tree ctx) by exact (eq_sym (f_equal dup_tree Hf)).
  assert (E5 : mpr_tree ctx' = mpr_tree ctx) by exact (eq_sym (f_equal mpr_tree Hf)).
  assert (E6 : olsr_tx_msgbuf ctx' = olsr_tx_msgbuf ctx) by exact (eq_sym (f_equal olsr_tx_msgbuf Hf)).
  assert (E7 : local_iface_tree ctx' = local_iface_tree ctx) by exact (eq_sym (f_equal local_iface_tree Hf)).
  constructor; rewrite ?E0, ?E1, ?E2, ?E3, ?E4, ?E5, ?E6, ?E7; done.
Qed.

(** What a message of another node does to a node: the invariant is kept; the
    routes stay current except perhaps when the message is of the kind [quiet]. *)
Record processed (w : Z) (net : list Z) (a : Z) (quiet : Prop) (ctx ctx' : OlsrContext) : Prop := {
  pd_node : node_ok w net a ctx';
  pd_sending : sending ctx' = sending ctx;
  pd_routes : routes_current ctx -> ~ quiet -> routes_current ctx'
}.

Lemma processed_refl w net a quiet ctx : node_ok w net a ctx -> processed w net a quiet ctx ctx.
Proof. by constructor. Qed.

Lemma tc_processed w net a ctx P r addrs Q src orig ansn vtime :
  node_ok w net a ctx -> In orig net -> In src net -> incl addrs net -> is_u16 ansn -> zlen r = 2 ->
  4 + 4 * zlen addrs < 65536 ->
  exists ctx', process_olsr_tc ctx (P ++ tc_bytes ansn r addrs ++ Q) (zlen P) (4 + 4 * zlen addrs) src orig vtime
      = Ok ctx' /\
    processed w net a (addrs = []) ctx ctx'.
Proof.
  intros H Ho Hsrc Hinc Ha Hr Hlen. pose proof (nd_trees _ _ _ _ H) as Ht. pose proof (nw_routing _ _ _ Ht) as Hro.
  destruct (rbtree_search (neighbor_tree ctx) src) as [n|] eqn:En.
  2:{ exists ctx. split; [unfold process_olsr_tc; by rewrite En|by apply processed_refl]. }
  destruct (is_sym n) eqn:Esym.
  2:{ exists ctx. split; [unfold process_olsr_tc; by rewrite En, Esym|by apply processed_refl]. }
  assert (Hstale : (exists t, rbtree_search (topology_tree ctx) orig = Some t /\ ansn < topo_seq t) \/
    forall t, rbtree_search (topology_tree ctx) orig = Some t -> topo_seq t <= ansn).
  { destruct (rbtree_search (topology_tree ctx) orig) as [t|]; [|by right].
    destruct (Z.lt_ge_cases ansn (topo_seq t)); [left; by exists t|right; by intros t' [= <-]]. }
  destruct Hstale as [(t & Et & Hlt)|Hfresh].
  { exists ctx. split; [|by apply processed_refl]. by rewrite (process_tc_stale ctx P r addrs Q _ src orig ansn vtime n t). }
  destruct (process_tc_fresh w net ctx P r addrs Q src orig ansn vtime n) as (ctx' & E & Hro' & _ & [_ _ Hrt Hf] & Htm);
    try done.
  { intros t Hi. destruct (ow_live _ _ _ _ (qo_owners _ _ _ _ (nd_queue _ _ _ _ H)) (topo_expire_timer t) (topo_owner t).2)
      as (e & He & _); [|by exists e]. rewrite owners_topology. apply in_app_iff. left.
    change (In (topo_owner t) (map topo_owner (topology_tree ctx))). by apply in_map. }
  exists ctx'. split; [done|]. constructor.
  - constructor; [by apply (node_trees_topology w net ctx)| |by apply (tc_queue w net a ctx ctx' orig ansn vtime)].
    unfold same_but_topology in Hf. unfold sym_agrees, neighbor_has_sym_link.
    assert (E2 : neighbor_tree ctx' = neighbor_tree ctx) by exact (eq_sym (f_equal neighbor_tree Hf)).
    assert (E7 : local_iface_tree ctx' = local_iface_tree ctx) by exact (eq_sym (f_equal local_iface_tree Hf)).
    rewrite E2, E7. apply H.
  - exact (eq_sym (f_equal sending Hf)).
  - intros Hc Hq. apply Hrt; [done|]. by right.
Qed.

(** ** Forwarding *)
Definition dup_timers (l : list DuplicateSetElem) : list (DuplicateSetKey * Z) :=
  map (fun d => (dup_key d, dup_expire_timer d)) l.
Definition dup_owner_of (x : DuplicateSetKey * Z) : Z * olsr_cb := (x.2, Cb_expire_dup_entry x.1 x.2).

Lemma dup_owners l : map dup_owner l = map dup_owner_of (dup_timers l).
Proof. unfold dup_timers. by rewrite map_map. Qed.

Lemma owners_dup ctx d tq : Permutation
  (owners (set_dup_tree (set_timerqueue ctx tq) d))
  (map dup_owner d ++ concat (map link_owner (all_links ctx)) ++ concat (map neigh_owner (neighbor_tree ctx)) ++
   map selector_owner (selector_tree ctx) ++ map topo_owner (topology_tree ctx)).
Proof.
  unfold owners. change (all_links (set_dup_tree (set_timerqueue ctx tq) d)) with (all_links ctx).
  cbn [dup_tree neighbor_tree selector_tree topology_tree set_dup_tree set_timerqueue]. app_perm.
Qed.

(** The entry that is there, or a new one with its timer. *)
Definition dup_entry (ctx : OlsrContext) (k : DuplicateSetKey) : res (OlsrContext * bool) :=
  match rbtree_search (dup_tree ctx) k with
  | Some delem => Ok (ctx, negb (retransmitted delem =? 0))
  | None =>
    let* r := create_dup_entry ctx k in
    let '(ctx, delem) := r in
    Ok (set_dup_tree ctx (tree_put (dup_tree ctx) delem), false)
  end.

Lemma forwarding_steps ctx b msg src ctx' b' : olsr_msg_forwarding ctx b msg src = Ok (ctx', b') ->
  exists k ctx1 done d rb, msg_key b msg = Ok k /\ dup_entry ctx k = Ok (ctx1, done) /\
    ctx' = set_olsr_tx_msgbuf (set_dup_tree ctx1 d) rb /\ dup_timers d = dup_timers (dup_tree ctx1) /\
    RingBuffer.size rb = RingBuffer.size (olsr_tx_msgbuf ctx1).
Proof.
  unfold olsr_msg_forwarding. intros E. apply rbind_ok in E as (k & Ek & E).
  fold (dup_entry ctx k) in E. apply rbind_ok in E as ([ctx1 dn] & Ed & E).
  exists k, ctx1, dn. assert (Hsame : forall d, dup_timers (tree_update d k (set_retransmitted 1)) = dup_timers d).
  { intros d. unfold dup_timers. induction d as [|x d IH]; cbn; [done|]. destruct (_ =? 0); cbn; [done|]. by rewrite IH. }
  assert (Eself : ctx1 = set_olsr_tx_msgbuf (set_dup_tree ctx1 (dup_tree ctx1)) (olsr_tx_msgbuf ctx1)) by (by destruct ctx1).
  destruct dn; [inv_ok; eauto 8|]. destruct (negb (is_mpr_selector ctx1 src)); [inv_ok; eauto 8|].
  apply rbind_ok in E as (t & _ & E). apply rbind_ok in E as (b1 & _ & E).
  apply rbind_ok in E as (h & _ & E). apply rbind_ok in E as (b2 & _ & E). apply rbind_ok in E as (t2 & _ & E).
  exists (tree_update (dup_tree ctx1) k (set_retransmitted 1)).
  destruct (t2 =? 0); [inv_ok; exists (olsr_tx_msgbuf ctx1); by destruct ctx1|].
  apply rbind_ok in E as (n & _ & E). apply rbind_ok in E as (r & Er & E). pose proof (push_size _ _ _ _ Er).
  inv_ok. by exists (fst r).
Qed.

Lemma dup_entry_queue w net a ctx k ctx1 dn :
  node_ok w net a ctx -> In (orig k) net -> is_u16 (dup_seq k) -> dup_entry ctx k = Ok (ctx1, dn) ->
  queue_ok periodic_cb a (timerqueue ctx1) (owners ctx1) /\ tree_ok (dupkey_in_window w) (dup_tree ctx1) /\
  exists tq d, ctx1 = set_dup_tree (set_timerqueue ctx tq) d.
Proof.
  intros [Ht _ Hq] Ho Hseq. unfold dup_entry.
  assert (Hk : dupkey_in_window w k) by (split; [by apply (window_of w net ctx)|done]).
  pose proof (nw_dup _ _ _ Ht) as Hok.
  destruct (rbtree_search (dup_tree ctx) k) eqn:Es.
  { intros [= <- _]. split; [done|]. split; [done|]. exists (timerqueue ctx), (dup_tree ctx). by destruct ctx. }
  destruct (start_owned periodic_cb a (timerqueue ctx) (owners ctx) (DEF_DUP_HOLD_TIME_MS * 1000) 1
    (Cb_expire_dup_entry k) Hq) as (tq & E & Hq' & _); [done|done|].
  unfold create_dup_entry, with_tq. rewrite E. cbn [rbind fst snd dup_tree set_timerqueue own_ip].
  set (e := {| dup_key := k |}). intros [= <- _].
  destruct (put_fresh (dupkey_in_window w) (dup_tree ctx) e Hok Hk Es) as [Hok' _].
  split; [|split; [exact Hok'|by exists tq, (tree_put (dup_tree ctx) e)]].
  assert (Hp : Permutation (owners (set_dup_tree (set_timerqueue ctx tq) (tree_put (dup_tree ctx) e)))
    (dup_owner e :: owners ctx)).
  { rewrite owners_dup, (put_owner (dupkey_in_window w) dup_owner) by done. cbn [app]. constructor.
    rewrite <- (owners_dup ctx (dup_tree ctx) (timerqueue ctx)). by destruct ctx. }
  cbn [timerqueue set_dup_tree set_timerqueue]. rewrite Hp. exact Hq'.
Qed.

(** The trees after forwarding. *)
Lemma node_trees_fwd w net ctx tq d rb : node_trees w net ctx -> tree_ok (dupkey_in_window w) d ->
  RingBuffer.wf rb -> RingBuffer.size rb = OLSR_TX_MSGBUF_SIZE ->
  node_trees w net (set_olsr_tx_msgbuf (set_dup_tree (set_timerqueue ctx tq) d) rb).
Proof.
  intros [Hr ? ? ? ? ? ? ? ? ?] Hd Hwf Hsz. constructor; try done.
  destruct Hr as [? ? ? ? ? ? ? ? ? ? ?]. by constructor.
Qed.

Lemma forward_node w net a ctx P h payload Q src :
  node_ok w net a ctx -> msg_wf (h, payload) -> In (originator h) net ->
  exists ctx' b', olsr_msg_forwarding ctx (P ++ enc_header h ++ payload ++ Q) (zlen P) src = Ok (ctx', b') /\
    node_ok w net a ctx' /\ fwd_result w ctx ctx' h payload src.
Proof.
  intros H [Hh Hsize] Ho. cbn [fst snd] in *. pose proof (nd_trees _ _ _ _ H) as Ht.
  destruct (nw_ring _ _ _ Ht) as [Hwf Hsz].
  destruct (forward_step w P Q payload h src Hh Hsize) with (ctx := ctx) as (ctx' & E & Hres);
    [split; [by apply (window_of w net ctx)|apply Hh]|split; [apply Ht|done]|].
  eexists ctx', _. split; [exact E|]. split; [|done].
  destruct (forwarding_steps _ _ _ _ _ _ E) as (k & ctx1 & dn & d & rb & Ek & Ed & -> & Etm & Esz).
  rewrite read_key in Ek by done. injection Ek as <-.
  destruct (dup_entry_queue w net a ctx (hdr_key h) ctx1 dn H) as (Hq & Hok & tq & d1 & ->); [done|apply Hh|done|].
  destruct Hres as [[Hd Hw'] _ _ _ Hc _]. cbn [dup_tree olsr_tx_msgbuf set_olsr_tx_msgbuf set_dup_tree] in *.
  assert (Hp : Permutation (owners (set_dup_tree (set_timerqueue ctx tq) d1)) (owners (set_dup_tree (set_timerqueue ctx tq) d)))
    by (rewrite !owners_dup, !dup_owners, Etm; done).
  constructor; [apply node_trees_fwd; try done; by rewrite Esz| |].
  - apply H.
  - change (owners _) with (owners (set_dup_tree (set_timerqueue ctx tq) d)). rewrite <- Hp. exact Hq.
Qed.

(** ** Handling a message *)

(** A TC message that names nobody: if its originator is new, the routes are not
    recomputed although a link may have appeared. *)
Definition quiet_msg (m : OlsrMsgHeader * list Z) : Prop :=
  olsr_msgtype (fst m) = MSG_TYPE_TC /\ zlen (snd m) = 4.

Lemma process_msg_ok w net a ctx P m X src :
  node_ok w net a ctx -> In src net -> sendable net src m ->
  exists ctx', process_olsr_msg ctx (P ++ enc_header (fst m) ++ snd m ++ X) (zlen P) src = Ok ctx' /\
    processed w net a (quiet_msg m) ctx ctx'.
Proof.
  intros H Hsrc [[[Hh Hsize] Ho Hvt Hbody] Hself].
  destruct (read_header P (fst m) (snd m ++ X) Hh) as (Et & Ev & Esz & Eo & _).
  unfold process_olsr_msg, is_already_processed. rewrite read_key by done. cbn [rbind].
  destruct (rbtree_search (dup_tree ctx) (hdr_key (fst m))); [by exists ctx; split; [|apply processed_refl]|].
  rewrite Ev, Esz, Et, Eo. cbn [rbind]. rewrite Hsize.
  pose proof (zlen_nonneg (snd m)) as Hpos. pose proof (hdr_size _ Hh) as Hu. rewrite Hsize in Hu. unfold is_u16 in Hu.
  replace (u16 (12 + zlen (snd m) - sizeof_OlsrMsgHeader)) with (zlen (snd m))
    by (unfold sizeof_OlsrMsgHeader; rewrite u16_id by (unfold is_u16; lia); lia).
  replace (zlen P + sizeof_OlsrMsgHeader) with (zlen (P ++ enc_header (fst m))) by (by rewrite zlen_app).
  destruct Hbody as [hd bytes gs Hhello _ Es Hhd He Hg Hinc Hlost|ansn r addrs Htc Es Ha Hr Hinc].
  - unfold is_hello in Hhello. rewrite Hhello. cbn [Z.eqb Pos.eqb MSG_TYPE_HELLO].
    rewrite (Hself Hhello), Es in *. rewrite zlen_app in *.
    destruct (process_hello_spec w net a ctx src (me_to_reltime (olsr_vtime (fst m)))
      ((P ++ enc_header (fst m)) ++ hd ++ bytes ++ X) (P ++ enc_header (fst m)) hd bytes X gs) as (ctx' & E & Hl); try done.
    { constructor; try done. pose proof (zlen_nonneg hd). lia. }
    rewrite zlen_app in E. exists ctx'. split; [rewrite <- E; by rewrite <- !app_assoc|].
    pose proof (hl_rest _ _ _ _ _ _ _ _ _ Hl) as Hrest. unfold same_rest, rest_of in Hrest.
    constructor; [apply Hl|unfold sending; congruence|intros Hc _; by apply Hl].
  - rewrite Htc. change (MSG_TYPE_TC =? MSG_TYPE_HELLO) with false. change (MSG_TYPE_TC =? MSG_TYPE_TC) with true.
    cbn iota. rewrite Es in *. rewrite zlen_tc_bytes in * by done.
    destruct (tc_processed w net a ctx (P ++ enc_header (fst m)) r addrs X src (originator (fst m)) ansn
      (me_to_reltime (olsr_vtime (fst m))) H Ho Hsrc Hinc Ha Hr) as (ctx' & E & [? ? Hrt]); [lia|].
    exists ctx'. split; [rewrite <- E; by rewrite <- !app_assoc|]. constructor; try done.
    intros Hc Hq. apply Hrt; [done|]. intros ->. apply Hq. unfold quiet_msg. by rewrite Es, zlen_tc_bytes.
Qed.

(** Only TC messages live long enough to be sent on. *)
Lemma next_hop_sendable net src own m : sendable net src m -> 1 < ttl (fst m) ->
  sendable net own (next_hop (fst m), snd m).
Proof.
  intros [[[Hh Hsize] Ho Hvt Hbody] _] Httl.
  destruct Hbody as [hd bytes gs _ Hle _ _ _ _ _ _|ansn r addrs Htc Es Ha Hr Hinc]; [lia|]. split.
  - constructor; [split; [by apply next_hop_ok|done]|done|done|]. by apply (good_tc net _ ansn r addrs).
  - unfold is_hello. cbn. rewrite Htc. discriminate.
Qed.

Section Data.
Context (D : list Z -> Prop).

(** What becomes of a node that has handled something: it has sent nothing yet. *)
Record handled (w : Z) (net : list Z) (a : Z) (quiet : Prop) (ctx ctx' : OlsrContext) : Prop := {
  hd_well : node_well D w net a ctx';
  hd_own : own_ip ctx' = own_ip ctx;
  hd_outs : outs ctx' = outs ctx;
  hd_routes : routes_current ctx -> ~ quiet -> routes_current ctx'
}.

Lemma handled_processed w net a quiet ctx ctx' :
  node_well D w net a ctx -> processed w net a quiet ctx ctx' -> handled w net a quiet ctx ctx'.
Proof.
  intros [_ Htr] [Hn Hs Hr]. constructor; [|unfold sending in Hs; congruence..|done].
  constructor; [done|]. by apply (traffic_ok_same D net ctx).
Qed.

Lemma handled_trans w net a quiet1 quiet2 ctx0 ctx1 ctx2 :
  handled w net a quiet1 ctx0 ctx1 -> handled w net a quiet2 ctx1 ctx2 ->
  handled w net a (quiet1 \/ quiet2) ctx0 ctx2.
Proof. intros [? ? ? Hr1] [? ? ? Hr2]. constructor; [done|congruence..|]. intros Hc Hq. tauto. Qed.

(** Forwarding keeps the traffic good. *)
Lemma forward_handled w net a ctx P m X src :
  node_well D w net a ctx -> sendable net src m -> 1 < ttl (fst m) ->
  exists ctx' b', olsr_msg_forwarding ctx (P ++ enc_header (fst m) ++ snd m ++ X) (zlen P) src = Ok (ctx', b') /\
    handled w net a False ctx ctx'.
Proof.
  intros [H Htr] Hm Httl. pose proof (gm_wf _ _ (proj1 Hm)) as Hwf. pose proof (gm_orig _ _ (proj1 Hm)) as Ho.
  destruct (forward_node w net a ctx P (fst m) (snd m) X src H) as (ctx' & b' & E & Hn & Hres); [by destruct m|done|].
  exists ctx', b'. split; [done|]. destruct Hres as [_ _ _ _ Hq Hf]. unfold same_but_fwd in Hf.
  assert (Eown : own_ip ctx' = own_ip ctx) by exact (eq_sym (f_equal own_ip Hf)).
  assert (Eouts : outs ctx' = outs ctx) by exact (eq_sym (f_equal outs Hf)).
  constructor; [|done|done|].
  - constructor; [done|]. apply (queued_ok D net ctx ctx' (next_hop (fst m), snd m) (queued ctx (fst m) src)); try done.
    by apply (next_hop_sendable net src).
  - intros Hc _. apply (routes_current_same ctx); try done.
    + exact (eq_sym (f_equal neighbor_tree Hf)).
    + exact (eq_sym (f_equal routing_table Hf)).
    + assert (Et : topology_tree ctx' = topology_tree ctx) by exact (eq_sym (f_equal topology_tree Hf)). by rewrite Et.
Qed.

Lemma handle_one w net a ctx P m X src :
  node_well D w net a ctx -> In src net -> sendable net src m ->
  exists ctx' b', handle_olsr_msg ctx (P ++ enc_header (fst m) ++ snd m ++ X) (zlen P) src = Ok (ctx', b') /\
    handled w net a (quiet_msg m) ctx ctx'.
Proof.
  intros H Hsrc Hm. pose proof (proj1 (gm_wf _ _ (proj1 Hm))) as Hh.
  destruct (read_header P (fst m) (snd m ++ X) Hh) as (_ & _ & _ & Eo & Et & _).
  unfold handle_olsr_msg. rewrite Eo. cbn [rbind].
  destruct (originator (fst m) =? own_ip ctx).
  { eexists ctx, _. split; [done|]. apply handled_processed; [done|]. apply processed_refl, H. }
  destruct (process_msg_ok w net a ctx P m X src (wl_node _ _ _ _ _ H) Hsrc Hm) as (ctx1 & -> & Hp).
  apply (handled_processed _ _ _ _ _ _ H) in Hp. cbn [rbind]. rewrite Et. cbn [rbind].
  destruct (Z.ltb_spec 1 (ttl (fst m))) as [Hlt|]; [|by eexists ctx1, _].
  destruct (forward_handled w net a ctx1 P m X src) as (ctx' & b' & E & Hf); [apply Hp|done|done|].
  exists ctx', b'. split; [done|]. destruct Hp as [? ? ? Hr1], Hf as [? ? ? Hr2].
  constructor; [done|congruence..|]. auto.
Qed.

Lemma handle_all w net a src T ms : forall ctx P,
  node_well D w net a ctx -> In src net -> Forall (sendable net src) ms ->
  exists ctx', handle_list ctx src P ms T = Ok ctx' /\ handled w net a (Exists quiet_msg ms) ctx ctx'.
Proof.
  induction ms as [|m ms IH]; intros ctx P H Hsrc Hms; cbn [handle_list].
  { exists ctx. split; [done|]. apply handled_processed, processed_refl; [done|apply H]. }
  inversion Hms as [|? ? Hm Hms']; subst.
  assert (Eb : P ++ enc_msg m ++ enc_msgs ms ++ T = P ++ enc_header (fst m) ++ snd m ++ enc_msgs ms ++ T)
    by (unfold enc_msg; by rewrite <- !app_assoc).
  destruct (handle_one w net a ctx P m (enc_msgs ms ++ T) src H Hsrc Hm) as (ctx1 & b1 & E & H1).
  rewrite Eb, E. cbn [rbind fst snd].
  destruct (IH ctx1 (take (length P + length (enc_msg m)) b1) (hd_well _ _ _ _ _ _ H1) Hsrc Hms') as (ctx' & E' & H2).
  exists ctx'. split; [done|]. destruct (handled_trans _ _ _ _ _ _ _ _ H1 H2) as [? ? ? Hr].
  constructor; try done. intros Hc Hq. apply Hr; [done|]. intros [?|?]; apply Hq; [by left|by right].
Qed.

(** ** What a reception sends on or delivers *)
Definition good_out (net : list Z) (own : Z) (o : output) : Prop :=
  match o with SendRemote f => good_frame D net f | SendLocal f => good_delivery D own f end.

Lemma outs_well w net a ctx os : node_well D w net a ctx -> Forall (good_out net (own_ip ctx)) os ->
  node_well D w net a (set_outs ctx (outs ctx ++ os)).
Proof.
  intros [[Ht Hs Hq] [Hms Ho Hl]] Hos. rewrite List.Forall_forall in Hos. constructor.
  - constructor; [|exact Hs|exact Hq]. apply (node_trees_same w net ctx); [done| |apply Ht|done].
    destruct (nw_routing _ _ _ Ht) as [? ? ? ? ? ? ? ? ? ? ?]. by constructor.
  - constructor; [exact Hms|..]; cbn; intros f Hf; apply in_app_iff in Hf as [Hf|Hf]; auto; apply (Hos _ Hf).
Qed.

Lemma stats_handled w net a ctx ctx1 : node_well D w net a ctx -> counting net ctx1 -> same_but_stats ctx ctx1 ->
  handled w net a False ctx ctx1.
Proof.
  intros [[Ht Hs Hq] Htr] Hc Hf. unfold same_but_stats in Hf.
  assert (E0 : own_ip ctx1 = own_ip ctx) by exact (eq_sym (f_equal own_ip Hf)).
  assert (E1 : neighbor_tree ctx1 = neighbor_tree ctx) by exact (eq_sym (f_equal neighbor_tree Hf)).
  assert (E2 : topology_tree ctx1 = topology_tree ctx) by exact (eq_sym (f_equal topology_tree Hf)).
  assert (Esame : same_trees ctx ctx1) by
    (unfold same_trees; repeat split; [exact (f_equal own_ip Hf)|exact (f_equal neighbor_tree Hf)|exact (f_equal mpr_tree Hf)|
     exact (f_equal selector_tree Hf)|exact (f_equal dup_tree Hf)|exact (f_equal local_iface_tree Hf)|exact (f_equal topology_tree Hf)]).
  assert (Etq : timerqueue ctx1 = timerqueue ctx) by exact (eq_sym (f_equal timerqueue Hf)).
  assert (Erb : olsr_tx_msgbuf ctx1 = olsr_tx_msgbuf ctx) by exact (eq_sym (f_equal olsr_tx_msgbuf Hf)).
  constructor; [|done|exact (eq_sym (f_equal outs Hf))|].
  - constructor; [constructor|].
    + apply (node_trees_same w net ctx); [done| |rewrite Erb; apply Ht|done].
      by apply (routing_ok_stats w net ctx); [apply Ht|..].
    + by apply (sym_agrees_same ctx).
    + by rewrite Etq, (owners_same ctx).
    + apply (traffic_ok_same D net ctx); [|done]. exact (eq_sym (f_equal sending Hf)).
  - intros Hr _. apply (routes_current_same ctx); try done; [exact (eq_sym (f_equal routing_table Hf))|by rewrite E2].
Qed.

Lemma node_ready w net a bufs ctx : node_well D w net a ctx -> bufs_ok bufs -> data_ready net bufs ctx.
Proof.
  intros [[Ht _ _] _] Hb. pose proof (nw_routing _ _ _ Ht) as Hr. constructor; [|done|].
  - split; [apply (sta_ok _ _ _ Hr)|apply (net_size _ _ _ Hr)].
  - split; [by apply (own_window w net ctx)|apply (nw_own _ _ _ Ht)].
Qed.

(** What a packet from either side leads to. *)
Record received (w : Z) (net : list Z) (a : Z) (quiet : Prop) (ctx ctx' : OlsrContext) : Prop := {
  rc_well : node_well D w net a ctx';
  rc_own : own_ip ctx' = own_ip ctx;
  rc_routes : routes_current ctx -> ~ quiet -> routes_current ctx'
}.

Lemma received_outs w net a quiet ctx ctx1 os : handled w net a False ctx ctx1 ->
  Forall (good_out net (own_ip ctx)) os -> received w net a quiet ctx (set_outs ctx1 (outs ctx1 ++ os)).
Proof.
  intros [Hw Ho _ Hr] Hos. constructor; [apply outs_well; [done|by rewrite Ho]|done|].
  intros Hc _. by apply (routes_current_same ctx1); auto.
Qed.

Lemma received_same w net a quiet ctx ctx1 : handled w net a False ctx ctx1 -> received w net a quiet ctx ctx1.
Proof. intros [Hw Ho _ Hr]. constructor; [done|done|]. auto. Qed.

(** *** A datagram *)
Section Datagram.
Context (net h opts pay : list Z) (dst : Z).
Hypothesis (Hdg : datagram h opts pay dst) (Hdst : In dst net) (HD : D (payload_bytes h opts pay)).

Lemma ip_route_ok w a ctx rest fl junk :
  node_well D w net a ctx -> zlen (h ++ opts ++ pay ++ rest) = PKT_DATA_SIZE -> zlen junk = PKT_DATA_SIZE ->
  (fl = true -> plain_ok h opts pay) ->
  exists os, ip_route ctx {| pkt_length := zlen (payload_bytes h opts pay); data := h ++ opts ++ pay ++ rest |} fl junk =
      Ok (set_outs ctx (outs ctx ++ os)) /\ Forall (good_out net (own_ip ctx)) os.
Proof using Hdg Hdst HD.
  intros H Hsz Hj Hfl. pose proof (nd_trees _ _ _ _ (wl_node _ _ _ _ _ H)) as Ht.
  pose proof (nw_routing _ _ _ Ht) as Hr.
  destruct (rbtree_search (routing_table ctx) dst) as [e|] eqn:Es.
  2:{ exists []. split; [|constructor]. unfold ip_route. cbn [data]. rewrite (dst_read h opts pay dst Hdg). cbn [rbind].
      rewrite Es, app_nil_r. by destruct ctx. }
  apply (search_iff (in_window w)) in Es as Hin; [|apply Hr|by apply (window_of w net ctx)].
  destruct Hin as [Hin Hd]. destruct (tab_wf _ _ _ Hr e Hin) as ((p & Ep) & _ & _ & Hinc).
  destruct (List.hd_error (route e)) as [nh|] eqn:Eh; [|rewrite Ep in Eh; by destruct p].
  assert (Hnh : In nh net) by (apply Hinc; destruct (route e); [done|injection Eh as ->; by left]).
  destruct ((hop_count e =? 1) && fl) eqn:Eone.
  - apply andb_prop in Eone as [E1 ->]. exists [SendRemote (payload_bytes h opts pay)]. split.
    + unfold ip_route. cbn [data pkt_length]. rewrite (dst_read h opts pay dst Hdg). cbn [rbind]. rewrite Es, E1. cbn [andb].
      replace (h ++ opts ++ pay ++ rest) with (payload_bytes h opts pay ++ rest)
        by (unfold payload_bytes; by rewrite <- !app_assoc). apply send_remote_frame.
    + constructor; [|constructor]. by apply (plain_frame_ok D net _ h opts pay dst); auto.
  - destruct (ip_route_encap h opts pay dst Hdg ctx rest fl junk nh) as (f & E & Hf); try done.
    + by apply (own_window w net ctx).
    + by apply (window_of w net ctx).
    + by exists e.
    + intros e' Ee. rewrite Es in Ee. by injection Ee as <-.
    + exists [SendRemote f]. split; [done|]. constructor; [|constructor].
      by apply (carried_frame_ok D net f h opts pay dst nh).
Qed.

Lemma delivered_ok own : IP_C_CLASS_MATCH own dst = true ->
  Forall (good_out net own) [SendLocal (payload_bytes h opts pay)].
Proof using Hdg HD. intros E. constructor; [|constructor]. by exists h, opts, pay, dst. Qed.

Lemma carried_received w a bufs ctx nh f quiet :
  node_well D w net a ctx -> bufs_ok bufs -> In nh net -> carried h opts pay nh f ->
  exists ctx', olsr_handle_remote_pkt bufs ctx f (zlen f) = Ok ctx' /\ received w net a quiet ctx ctx'.
Proof using Hdg Hdst HD.
  intros H Hb Hnh Hf. pose proof (nd_trees _ _ _ _ (wl_node _ _ _ _ _ H)) as Ht.
  pose proof (nw_routing _ _ _ Ht) as Hr. pose proof Hb as (Hb1 & Hb2 & Hb3).
  destruct (receive_carried h opts pay dst Hdg net bufs ctx nh f) as (ctx1 & rest & Hc & Hs & Hsz & E); [|done..|].
  { by apply (node_ready w net a). }
  pose proof (stats_handled w net a ctx ctx1 H Hc Hs) as H1. rewrite E.
  destruct (IP_C_CLASS_MATCH (own_ip ctx) nh); cbn [negb]; [|exists ctx1; split; [done|by apply received_same]].
  destruct (IP_C_CLASS_MATCH (own_ip ctx) dst) eqn:Em.
  { eexists. split; [done|]. apply received_outs; [done|by apply delivered_ok]. }
  destruct (ip_route_ok w a ctx1 rest false (encap_buf bufs)) as (os & -> & Hos); [apply H1|done..|].
  eexists. split; [done|]. apply received_outs; [done|]. by rewrite <- (hd_own _ _ _ _ _ _ H1).
Qed.

Lemma plain_received w a bufs ctx quiet :
  node_well D w net a ctx -> bufs_ok bufs -> plain_ok h opts pay ->
  exists ctx', olsr_handle_remote_pkt bufs ctx (payload_bytes h opts pay) (zlen (payload_bytes h opts pay)) = Ok ctx' /\
    received w net a quiet ctx ctx'.
Proof using Hdg Hdst HD.
  intros H Hb Hp. pose proof (nd_trees _ _ _ _ (wl_node _ _ _ _ _ H)) as Ht.
  pose proof (nw_routing _ _ _ Ht) as Hr.
  destruct (receive_plain h opts pay dst Hdg net bufs ctx) as (ctx1 & Hc & Hs & E); [|done..|].
  { by apply (node_ready w net a). }
  pose proof (stats_handled w net a ctx ctx1 H Hc Hs) as H1. rewrite E.
  destruct (IP_C_CLASS_MATCH (own_ip ctx) dst) eqn:Em; cbn [negb].
  - eexists. split; [done|]. apply received_outs; [done|by apply delivered_ok].
  - exists ctx1. split; [done|by apply received_same].
Qed.

Lemma local_sent w a bufs ctx quiet :
  node_well D w net a ctx -> bufs_ok bufs -> plain_ok h opts pay ->
  exists ctx', olsr_handle_local_pkt bufs ctx (payload_bytes h opts pay) (zlen (payload_bytes h opts pay)) = Ok ctx' /\
    received w net a quiet ctx ctx'.
Proof using Hdg Hdst HD.
  intros H (Hb1 & _ & Hb3) Hp. pose proof (dg_room _ _ _ _ Hdg) as Hroom.
  assert (H1 : handled w net a False ctx ctx) by (by apply handled_processed, processed_refl, H).
  destruct (copy_packet_ok (pkb bufs) (payload_bytes h opts pay)) as (tl & Ecp & Htl); [lia|].
  assert (Er : payload_bytes h opts pay ++ tl = h ++ opts ++ pay ++ tl)
    by (unfold payload_bytes; by rewrite <- !app_assoc).
  unfold olsr_handle_local_pkt, handle_local_data_pkt. rewrite Ecp. cbn [rbind data].
  rewrite Er, (dst_read h opts pay dst Hdg). cbn [rbind].
  destruct (IP_C_CLASS_MATCH (own_ip ctx) dst); [exists ctx; split; [done|by apply received_same]|].
  destruct (ip_route_ok w a ctx tl true (encap_buf bufs) H) as (os & -> & Hos); [by rewrite <- Er, Htl|done|done|].
  eexists. split; [done|]. by apply received_outs.
Qed.
End Datagram.

(** *** A frame *)

(** It holds a TC message that names nobody. *)
Definition quiet_frame (f : list Z) : Prop :=
  exists own seq ms, is_olsr_frame own seq (enc_msgs ms) f /\ Exists quiet_msg ms.

Lemma frame_received w net a bufs ctx f :
  node_well D w net a ctx -> bufs_ok bufs -> In broadcast_ip net -> good_frame D net f ->
  exists ctx', olsr_handle_remote_pkt bufs ctx f (zlen f) = Ok ctx' /\ received w net a (quiet_frame f) ctx ctx'.
Proof.
  intros H Hb Hbc [own seq ms Hown Hf Hms Hne Hlen|h opts pay dst nh Hdg Hdst Hnh HD Hc|h opts pay dst Hdg Hdst Hp -> HD].
  - assert (Hwf : Forall msg_wf ms).
    { rewrite List.Forall_forall in *. intros m Hm. apply (gm_wf net). by apply Hms. }
    destruct (node_ready w net a bufs ctx H Hb) as [Hcnt _ _].
    destruct (receive_olsr_frame net bufs ctx own seq ms f Hcnt Hb Hbc Hf Hwf Hne Hlen)
      as (ctx1 & P & tl & Hc & Hs & ->).
    pose proof (stats_handled w net a ctx ctx1 H Hc Hs) as H1.
    destruct (handle_all w net a own tl ms ctx1 P (hd_well _ _ _ _ _ _ H1) Hown Hms) as (ctx' & -> & H2).
    destruct (handled_trans _ _ _ _ _ _ _ _ H1 H2) as [Hw Ho _ Hr]. exists ctx'. split; [done|].
    constructor; [done|done|]. intros Hcur Hq. apply Hr; [done|]. intros [[]|Hex]. apply Hq. by exists own, seq, ms.
  - by apply (carried_received net h opts pay dst Hdg Hdst HD w a bufs ctx nh).
  - by apply (plain_received net h opts pay dst Hdg Hdst HD).
Qed.

(** What the local side may hand in. *)
Definition good_local (net : list Z) (f : list Z) : Prop :=
  exists h opts pay dst, datagram h opts pay dst /\ In dst net /\ plain_ok h opts pay /\
    f = payload_bytes h opts pay /\ D f.

Lemma local_received w net a bufs ctx f quiet :
  node_well D w net a ctx -> bufs_ok bufs -> good_local net f ->
  exists ctx', olsr_handle_local_pkt bufs ctx f (zlen f) = Ok ctx' /\ received w net a quiet ctx ctx'.
Proof.
  intros H Hb (h & opts & pay & dst & Hdg & Hdst & Hp & -> & HD).
  by apply (local_sent net h opts pay dst Hdg Hdst HD).
Qed.
End Data.

(** C16: A node handles every packet.  Let a node be in its invariant, and let a
    good frame arrive - an OLSR packet of any node of the network with any number
    of HELLO and TC messages, stale, repeated or new, of the sender or relayed for
    others, or a data packet for any address, encapsulated or plain - or let the
    local side hand in a datagram.  Whatever the stack buffers contain, the module
    returns without undefined behaviour or exit, and the invariant holds again:
    the trees, timers and statuses agree, the queue holds messages that a
    neighbour can take apart, everything sent is a good frame, and only datagrams
    that were handed in somewhere and are addressed to this node are delivered.
    Routes that were current are current, unless the packet holds a topology
    message that names nobody. *)
Theorem olsr_packets_handled (D : list Z -> Prop) (w : Z) (net : list Z) (a : Z) (bufs : StackBufs)
  (ctx : OlsrContext) (f : list Z)
  (H : node_well D w net a ctx) (Hb : bufs_ok bufs) (Hbc : In broadcast_ip net) :
  (good_frame D net f ->
   exists ctx', olsr_handle_remote_pkt bufs ctx f (zlen f) = Ok ctx' /\
     received D w net a (quiet_frame f) ctx ctx') /\
  (good_local D net f ->
   exists ctx', olsr_handle_local_pkt bufs ctx f (zlen f) = Ok ctx' /\
     received D w net a False ctx ctx').
Proof. split; intros Hf; [by apply frame_received|by apply local_received]. Qed.

(** A network of three nodes, whose addresses are 192.168.1.2 to 192.168.3.2 as
    they are read from memory, and the broadcast address. *)
Definition ex_lan : list Z := [0x0201a8c0; 0x0202a8c0; 0x0203a8c0; broadcast_ip].

Lemma ex_lan_ok : (length ex_lan <= MAX_NODE_COUNT)%nat /\ forall a, In a ex_lan -> in_window 0x90000000 a.
Proof.
  split; [vm_compute; lia|]. intros a H. apply in_windowb_ok.
  repeat destruct H as [<-|H]; try reflexivity. destruct H.
Qed.

Lemma ex_member D own : In own ex_lan -> node_well D 0x90000000 ex_lan hello_timer_ptr (ex_started own).
Proof. intros H. apply ex_well_in; [apply ex_lan_ok|apply ex_lan_ok|done]. Qed.

Lemma ex_plain : plain_ok ex_hdr [] [1; 2; 3; 4].
Proof.
  exists IPPROTO_UDP. split; [reflexivity|]. split; [discriminate|]. intros _.
  eexists. split; [vm_compute; reflexivity|]. vm_compute. discriminate.
Qed.

Lemma olsr_packets_handled_witness :
  let all := fun _ : list Z => True in
  let packet := ex_hdr ++ [] ++ [1; 2; 3; 4] in
  (exists ctx', olsr_handle_remote_pkt ex_bufs (ex_started 0x0202a8c0) packet (zlen packet) = Ok ctx' /\
     received all 0x90000000 ex_lan hello_timer_ptr (quiet_frame packet) (ex_started 0x0202a8c0) ctx') /\
  (exists ctx', olsr_handle_local_pkt ex_bufs (ex_started 0x0202a8c0) packet (zlen packet) = Ok ctx' /\
     received all 0x90000000 ex_lan hello_timer_ptr False (ex_started 0x0202a8c0) ctx').
Proof.
  intros all packet. assert (Hin : In 0x0202a8c0 ex_lan) by (right; by left).
  destruct (olsr_packets_handled all 0x90000000 ex_lan hello_timer_ptr ex_bufs (ex_started 0x0202a8c0) packet)
    as [Hr Hl].
  - by apply ex_member.
  - repeat split.
  - right. right. right. by left.
  - split; [apply Hr|apply Hl].
    + apply (plain_frame_ok all ex_lan packet ex_hdr [] [1; 2; 3; 4] 0x0202a8c0 ex_datagram Hin ex_plain); [reflexivity|exact I].
    + exists ex_hdr, [], [1; 2; 3; 4], 0x0202a8c0. split; [exact ex_datagram|]. split; [exact Hin|].
      split; [exact ex_plain|]. split; [reflexivity|exact I].
Defined.
