(* ===== verification/OlsrNetwork.v ===== *)
(** Networks of nodes: what holds whatever happens.

    The nodes run the module of the files before; every frame that a node hands to
    [send_remote] is on the air from then on, and any node may receive any such
    frame at any time, once, often or never.  So the theorems hold for every
    topology and mobility, with loss, duplication and delay of frames.  The other
    events are a round of the periodic work of a node and a datagram from its
    local side. *)
From S2P Require Import Prelude OrdTree RingBuffer TimerQueue TimerWork TimerOwners OlsrContext OlsrSpf OlsrMantissa NetUtil OlsrNeighbor OlsrMpr OlsrHello OlsrTc OlsrForwarding OlsrRoute RouteIface OlsrRouteIface OlsrDelivery OlsrInv OlsrStart OlsrHelloRun OlsrExpire OlsrTraffic OlsrWork OlsrNode.
From stdpp Require Import base list numbers gmap.
From Stdlib Require Import ZArith Lia.
Open Scope Z_scope.
Open Scope c_scope.

(** [delivered] are the packets handed to the local sides, with the node. *)
Record network : Type := mkNetwork {
  nodes : list OlsrContext;
  air : list (list Z);
  delivered : list (nat * list Z)
}.

Inductive event : Type :=
  | EvWork (i : nat)
  | EvReceive (i k : nat) (bufs : StackBufs)
  | EvLocal (i : nat) (pkt : list Z) (bufs : StackBufs).

Definition remotes (os : list output) : list (list Z) :=
  flat_map (fun o => match o with SendRemote f => [f] | SendLocal _ => [] end) os.
Definition locals (os : list output) : list (list Z) :=
  flat_map (fun o => match o with SendLocal f => [f] | SendRemote _ => [] end) os.

(** The node has run; its process carries out what it asked for. *)
Definition node_ran (n : network) (i : nat) (ctx : OlsrContext) : network :=
  mkNetwork (<[i := set_outs ctx []]> (nodes n)) (air n ++ remotes (outs ctx))
    (delivered n ++ map (pair i) (locals (outs ctx))).

Section Run.
Context (junk : olsr_cb -> OlsrContext -> list Z) (fuel : OlsrContext -> nat).

Definition at_node (n : network) (i : nat) (f : OlsrContext -> res OlsrContext) : res network :=
  match nodes n !! i with
  | Some ctx => let* ctx' := f ctx in Ok (node_ran n i ctx')
  | None => Ok n
  end.

(** An event that names no node or frame does nothing. *)
Definition net_step (n : network) (ev : event) : res network :=
  match ev with
  | EvWork i => at_node n i (fun ctx => olsr_work junk (fuel ctx) ctx)
  | EvReceive i k bufs =>
    match air n !! k with
    | Some f => at_node n i (fun ctx => olsr_handle_remote_pkt bufs ctx f (zlen f))
    | None => Ok n
    end
  | EvLocal i pkt bufs => at_node n i (fun ctx => olsr_handle_local_pkt bufs ctx pkt (zlen pkt))
  end.

Definition net_run (evs : list event) (n : network) : res network := rfold net_step evs n.
End Run.

(** ** The invariant *)
Section Invariant.
Context (D : list Z -> Prop) (w : Z) (net : list Z) (a : Z).

Record net_ok (own : list Z) (n : network) : Prop := {
  no_own : map own_ip (nodes n) = own;
  no_nodes : forall ctx, In ctx (nodes n) -> node_well D w net a ctx;
  no_air : forall f, In f (air n) -> good_frame D net f;
  no_delivered : forall i f, In (i, f) (delivered n) -> exists o, own !! i = Some o /\ good_delivery D o f
}.

Definition event_ok (ev : event) : Prop :=
  match ev with
  | EvWork _ => True
  | EvReceive _ _ bufs => bufs_ok bufs
  | EvLocal _ pkt bufs => bufs_ok bufs /\ good_local D net pkt
  end.

Lemma emptied ctx : node_well D w net a ctx -> node_well D w net a (set_outs ctx []).
Proof.
  intros [[Ht Hs Hq] [Hms _ _]]. constructor; [constructor; [|exact Hs|exact Hq]|].
  - apply (node_trees_same w net ctx); [done| |apply (nw_ring _ _ _ Ht)|done].
    destruct (nw_routing _ _ _ Ht) as [? ? ? ? ? ? ? ? ? ? ?]. by constructor.
  - constructor; [exact Hms|by intros f []..].
Qed.

Lemma node_ran_ok own n i ctx ctx' :
  net_ok own n -> nodes n !! i = Some ctx -> node_well D w net a ctx' -> own_ip ctx' = own_ip ctx ->
  net_ok own (node_ran n i ctx').
Proof.
  intros [Ho Hn Ha Hd] Hi Hw Eo. pose proof Hw as [_ [_ Hout Hloc]]. constructor; cbn.
  - rewrite <- Ho. by apply (map_insert_same _ _ _ ctx).
  - intros c Hc. apply in_insert in Hc as [->|Hc]; [by apply emptied|by apply Hn].
  - intros f Hf. apply in_app_iff in Hf as [Hf|Hf]; [by apply Ha|]. apply in_flat_map in Hf as (o & Hin & Hf).
    destruct o as [g|g]; [|done]. destruct Hf as [<-|[]]. by apply Hout.
  - intros j f Hf. apply in_app_iff in Hf as [Hf|Hf]; [by apply Hd|].
    apply in_map_iff in Hf as (g & [= <- ->] & Hf). apply in_flat_map in Hf as (o & Hin & Hf).
    destruct o as [x|x]; [done|]. destruct Hf as [->|[]]. exists (own_ip ctx'). split; [|by apply Hloc].
    rewrite <- Ho, Eo. change (map own_ip (nodes n)) with (own_ip <$> nodes n). by rewrite list_lookup_fmap, Hi.
Qed.

(** Every event at every node, in the order it may come. *)
Lemma net_step_ok own junk n ev :
  junk_ok junk -> In broadcast_ip net -> net_ok own n -> event_ok ev ->
  exists n', net_step junk (fun ctx => work_fuel (timerqueue ctx)) n ev = Ok n' /\ net_ok own n'.
Proof.
  intros Hj Hbc Hn Hev.
  assert (Hat : forall i f, (forall ctx, In ctx (nodes n) -> exists ctx', f ctx = Ok ctx' /\
      node_well D w net a ctx' /\ own_ip ctx' = own_ip ctx) ->
    exists n', at_node n i f = Ok n' /\ net_ok own n').
  { intros i f Hf. unfold at_node. destruct (nodes n !! i) as [ctx|] eqn:Ei; [|by exists n].
    destruct (Hf ctx) as (ctx' & -> & Hw & Eo); [by apply lookup_in in Ei|]. cbn [rbind].
    exists (node_ran n i ctx'). split; [done|]. by apply (node_ran_ok own n i ctx). }
  destruct ev as [i|i k bufs|i pkt bufs]; cbn [net_step event_ok] in *.
  - apply Hat. intros ctx Hi. destruct (work_spec D w net a junk ctx Hj (no_nodes _ _ Hn ctx Hi)) as (ctx' & E & Hw & Eo & _).
    exists ctx'. exact (conj E (conj Hw Eo)).
  - destruct (air n !! k) as [f|] eqn:Ek; [|by exists n]. apply Hat. intros ctx Hi.
    destruct (frame_received D w net a bufs ctx f (no_nodes _ _ Hn ctx Hi) Hev Hbc) as (ctx' & E & [Hw Eo _]);
      [apply (no_air _ _ Hn), (lookup_in _ k _ Ek)|].
    exists ctx'. exact (conj E (conj Hw Eo)).
  - destruct Hev as [Hb Hp]. apply Hat. intros ctx Hi.
    destruct (local_received D w net a bufs ctx pkt False (no_nodes _ _ Hn ctx Hi) Hb Hp) as (ctx' & E & [Hw Eo _]).
    exists ctx'. exact (conj E (conj Hw Eo)).
Qed.

Lemma net_run_ok own junk evs n :
  junk_ok junk -> In broadcast_ip net -> net_ok own n -> Forall event_ok evs ->
  exists n', net_run junk (fun ctx => work_fuel (timerqueue ctx)) evs n = Ok n' /\ net_ok own n'.
Proof.
  intros Hj Hbc Hn Hevs. apply rfold_inv; [done|]. intros s ev Hev Hs. apply net_step_ok; [done..|].
  rewrite List.Forall_forall in Hevs. auto.
Qed.
End Invariant.

(** ** From the start *)

(** A node of the network that has just started. *)
Record started (net : list Z) (ctx : OlsrContext) : Prop := {
  sd_own : In (own_ip ctx) net;
  sd_start : exists st clk rnd blk, olsr_start (own_ip ctx) st clk rnd blk = Ok ctx /\ stats_ok net st [] /\
    (forall n, normal (clk n)) /\ (forall n, 0 <= rnd n) /\ zlen blk = OLSR_TX_MSGBUF_SIZE + 1
}.

Lemma started_well D w net ctx :
  (length net <= MAX_NODE_COUNT)%nat -> (forall a, In a net -> in_window w a) -> started net ctx ->
  node_well D w net hello_timer_ptr ctx.
Proof.
  intros Hsz Hwin [Ho (st & clk & rnd & blk & E & Hst & Hc & Hr & Hb)].
  destruct (olsr_start_ok w net (own_ip ctx) st clk rnd blk Hsz Hwin Ho Hst Hc Hr Hb)
    as (ctx' & E' & H & _ & _ & _ & _ & Hq & Hout).
  rewrite E in E'. injection E' as <-. constructor; [exact H|].
  constructor; [exists []; split; [exact Hq|constructor]| |]; rewrite Hout; intros f [].
Qed.

(** [pkt] was handed in by one of the events. *)
Definition handed_in (evs : list event) (pkt : list Z) : Prop := exists i bufs, In (EvLocal i pkt bufs) evs.

Definition start_of (ctxs : list OlsrContext) : network := mkNetwork ctxs [] [].


(** Two nodes: the second hears the first, the first hears the answer and sends a
    packet, which arrives twice, and reception number 99 finds no frame. *)
Definition ex_pair : list OlsrContext := map ex_started [0x0201a8c0; 0x0202a8c0].
Definition ex_packet : list Z := ex_hdr ++ [] ++ [1; 2; 3; 4].
Definition ex_events : list event :=
  [EvWork 0; EvReceive 1 0 ex_bufs; EvReceive 1 1 ex_bufs; EvWork 1; EvReceive 0 7 ex_bufs; EvReceive 0 8 ex_bufs;
   EvLocal 0 ex_packet ex_bufs; EvReceive 1 39 ex_bufs; EvReceive 1 39 ex_bufs; EvReceive 1 99 ex_bufs].

Example ex_network_run :
  match net_run ex_junk (fun _ => 3000%nat) ex_events (start_of ex_pair) with
  | Ok n => (length (air n), delivered n, map (fun c => map route_dest (routing_table c)) (nodes n))
            = (40%nat, [(1%nat, ex_packet); (1%nat, ex_packet)], [[0x0202a8c0]; []])
  | _ => False
  end.
Proof. vm_compute. reflexivity. Qed.

Lemma ex_pair_started : Forall (started ex_lan) ex_pair.
Proof.
  assert (H : forall own, In own ex_lan -> started ex_lan (ex_started own)).
  { intros own Hin.
    destruct (ex_started_by 0x90000000 ex_lan own (proj1 ex_lan_ok) (proj2 ex_lan_ok) Hin) as (E & _ & Eo & _).
    constructor; rewrite Eo; [exact Hin|]. exists zero_stats, ex_clock, (fun _ => 0), ex_block.
    exact (conj E (conj (ex_stats_ok ex_lan) (conj ex_clock_normal (conj (fun _ => Z.le_refl 0) ex_block_size)))). }
  unfold ex_pair. cbn [map]. constructor; [apply H; by left|]. constructor; [apply H; right; by left|constructor].
Qed.

Lemma ex_local : good_local (fun _ => True) ex_lan ex_packet.
Proof.
  exists ex_hdr, [], [1; 2; 3; 4], 0x0202a8c0. split; [exact ex_datagram|]. split; [right; by left|].
  split; [exact ex_plain|]. split; [reflexivity|exact I].
Qed.

Lemma ex_bufs_ok : bufs_ok ex_bufs.
Proof. repeat split. Qed.

