(* ===== verification/OlsrHandshake.v ===== *)
(** How two nodes become neighbours.

    One HELLO of a node, from its timer to the reception by another node, and the
    three HELLOs after which each of the two has the other as a symmetric
    neighbour and a route of one hop to it, whatever else they know. *)
From S2P Require Import Prelude OrdTree RingBuffer TimerQueue TimerWork TimerOwners OlsrContext OlsrSpf OlsrMantissa NetUtil OlsrNeighbor OlsrMpr OlsrHello OlsrTc OlsrForwarding OlsrRoute RouteIface OlsrRouteIface OlsrDelivery OlsrInv OlsrStart OlsrHelloRun OlsrExpire OlsrTraffic OlsrWork OlsrNode.
From stdpp Require Import base list numbers gmap.
From Stdlib Require Import ZArith Lia.
Open Scope Z_scope.
Open Scope c_scope.

(** ** What a HELLO says of one address *)
Lemma code_announced st l : 0 <= st < NEIGHBOR_STATUS_END -> l = ASYM_LINK \/ l = SYM_LINK ->
  let c := u8 (CREATE_LINK_CODE st l) in
  In c link_codes /\ sym_heard c = true /\ mpr_heard c = (st =? MPR_NEIGH).
Proof.
  unfold NEIGHBOR_STATUS_END. intros Hst Hl. assert (Hc : st = 0 \/ st = 1 \/ st = 2) by lia.
  assert (Hin : forall c, existsb (Z.eqb c) link_codes = true -> In c link_codes).
  { intros c E. apply existsb_exists in E as (x & Hx & E). by apply Z.eqb_eq in E as ->. }
  destruct Hc as [->|[->| ->]], Hl as [->| ->]; (split; [apply Hin; vm_compute; reflexivity|by vm_compute]).
Qed.

(** The node has a link to [x]. *)
Definition knows (ctx : OlsrContext) (x : Z) : Prop := In x (keys (all_links ctx)).

Lemma announced_known w net ctx x : node_trees w net ctx -> knows ctx x -> marked ctx x ->
  let c := announced (hello_groups ctx) x in
  sym_heard c = true /\ mpr_heard c = (get_neighbor_status ctx x =? MPR_NEIGH).
Proof.
  intros H Hk Hm. apply in_keys_inv in Hk as (l & Hl & Ka). cbn in Ka.
  destruct (nw_links _ _ _ H) as [Hlt Hinc]. pose proof (nbr_ok _ _ _ (nw_routing _ _ _ H)) as Hok.
  assert (Hn : In x (keys (neighbor_tree ctx))) by (apply Hinc; by apply (in_keys _ l)).
  assert (Hx : in_window w x) by (apply (window_of w net ctx); [done|]; by apply (nbr_net _ _ _ (nw_routing _ _ _ H))).
  destruct (search_some (in_window w) _ x Hok Hx Hn) as (n & Es & Hi & Kn). cbn in Kn.
  assert (Est : get_neighbor_status ctx x = neigh_status n) by (unfold get_neighbor_status; by rewrite Es).
  pose proof (Hm n Hi Kn) as Hst. rewrite <- Est in Hst.
  destruct (code_announced _ (link_status l) Hst (lk_status _ _ (nw_link _ _ _ H l Hl))) as (Hc & Hsym & Hmpr).
  set (c0 := u8 (CREATE_LINK_CODE (get_neighbor_status ctx x) (link_status l))) in *.
  assert (Ecode : link_code_of ctx l = Some c0).
  { unfold link_code_of. rewrite Ka. destruct (Z.eqb_spec (get_neighbor_status ctx x) STATUS_UNAVAILABLE) as [E|]; [|done].
    rewrite E in Hst. unfold NEIGHBOR_STATUS_END, STATUS_UNAVAILABLE in Hst. lia. }
  assert (Hcoded : In x (coded ctx c0 (all_links ctx))).
  { unfold coded. rewrite <- Ka. apply in_map, filter_In. split; [done|]. rewrite Ecode. apply Z.eqb_refl. }
  assert (Hg : In (c0, coded ctx c0 (all_links ctx)) (hello_groups ctx)).
  { apply filter_In. split; [by apply (in_map (fun code => (code, coded ctx code (all_links ctx))))|].
    unfold nonempty_group. cbn [snd]. destruct (coded ctx c0 (all_links ctx)) as [|y ys]; [done|].
    rewrite zlen_cons. pose proof (zlen_nonneg ys). apply negb_true_iff, Z.eqb_neq. lia. }
  assert (Ec : announced (hello_groups ctx) x = c0); [|rewrite Ec; done].
  unfold announced. destruct (List.find _ _) as [g|] eqn:Ef.
  - apply List.find_some in Ef as [Hg' Hx']. apply existsb_exists in Hx' as (y & Hy & Ey). apply Z.eqb_eq in Ey as <-.
    destruct (in_groups ctx g Hg' x Hy) as (l' & Hl' & Ka' & Ecode').
    assert (l = l') as <- by tree_same. congruence.
  - exfalso. pose proof (List.find_none _ _ Ef _ Hg) as Hno. cbn [snd] in Hno.
    assert (existsb (Z.eqb x) (coded ctx c0 (all_links ctx)) = true)
      by (apply existsb_exists; exists x; split; [done|apply Z.eqb_refl]). congruence.
Qed.

Lemma announced_unknown ctx x : ~ knows ctx x -> announced (hello_groups ctx) x = STATUS_UNAVAILABLE.
Proof.
  intros Hn. unfold announced. destruct (List.find _ _) as [g|] eqn:Ef; [|done]. exfalso. apply Hn.
  apply List.find_some in Ef as [Hg Hx]. apply existsb_exists in Hx as (y & Hy & Ey). apply Z.eqb_eq in Ey as <-.
  destruct (in_groups ctx g Hg x Hy) as (l & Hl & Ka & _). by apply (in_keys _ l).
Qed.

(** ** One HELLO *)

(** The HELLO timer of [s] fires, then its send timer, and [r] receives the frame.
    [new_outs] are the frames that left. *)
Definition hello_to (junk1 junk2 : list Z) (bufs : StackBufs) (s r : OlsrContext)
  : res (OlsrContext * OlsrContext) :=
  let* s1 := olsr_hello_timer_cb s junk1 in
  let* s2 := olsr_send_from_queue_cb s1 junk2 in
  match new_outs s s2 with
  | [SendRemote f] => let* r' := olsr_handle_remote_pkt bufs r f (zlen f) in Ok (s2, r')
  | _ => Ok (s2, r)
  end.

Section Hello.
Context (D : list Z -> Prop) (w : Z) (net : list Z) (a : Z).

(** What sending leaves of the sender. *)
Record has_sent (s s' : OlsrContext) : Prop := {
  hs_well : node_well D w net a s';
  hs_trees : same_trees s s';
  hs_table : routing_table s' = routing_table s;
  hs_queue : contents (olsr_tx_msgbuf s') = []
}.

Lemma well_mid ctx : node_well D w net a ctx -> node_mid w net a ctx.
Proof. intros [[Ht Hs Hq] _]. constructor; [done|done|apply Hq]. Qed.

(** A periodic callback keeps a node in its invariant. *)
Lemma ticked_well ctx ctx' : node_well D w net a ctx -> ticked D w net a ctx ctx' -> node_well D w net a ctx'.
Proof.
  intros [[_ _ Hq] _] [[Ht Hs _] Etq Htr Hsame _]. constructor; [|done]. constructor; [done|done|].
  by rewrite Etq, (owners_same ctx).
Qed.

Lemma same_trees_trans c1 c2 c3 : same_trees c1 c2 -> same_trees c2 c3 -> same_trees c1 c3.
Proof. unfold same_trees. intuition congruence. Qed.

(** One HELLO leaves a node whose queue was empty. *)
Lemma hello_sent s junk1 junk2 :
  node_well D w net a s -> contents (olsr_tx_msgbuf s) = [] ->
  zlen junk1 = MAX_IPPKT_SIZE -> Forall is_u8 junk1 -> zlen junk2 = PKT_DATA_SIZE ->
  exists s1 s2 f bytes, olsr_hello_timer_cb s junk1 = Ok s1 /\ olsr_send_from_queue_cb s1 junk2 = Ok s2 /\
    outs s2 = outs s ++ [SendRemote f] /\ has_sent s s2 /\ enc_infos (hello_groups s) bytes /\
    is_olsr_frame (own_ip s) (msg_seq s) (enc_msgs [hello_message s bytes]) f.
Proof.
  intros H Hq Hj1 Hu Hj2. pose proof (nd_trees _ _ _ _ (wl_node _ _ _ _ _ H)) as Ht.
  destruct (nw_ring _ _ _ Ht) as [Hwf Hsz].
  destruct (hello_timer_ok s junk1 Hwf Hj1 Hu (links_count w net s Ht)) as (bytes & rb & He & E1 & Hwf1 & Hsz1 & Hc1).
  destruct (hello_ticked D w net a s junk1 (well_mid s H) (wl_traffic _ _ _ _ _ H) Hj1 Hu) as (s1 & E1' & Htk1).
  rewrite E1 in E1'. injection E1' as <-. set (s1 := set_olsr_tx_msgbuf s rb) in *.
  pose proof (ticked_well s s1 H Htk1) as H1.
  assert (Hlen : zlen (enc_msg (hello_message s bytes)) <= 2000).
  { rewrite zlen_enc_msg. cbn [snd hello_message]. rewrite zlen_app, (zlen_enc_infos _ _ He).
    change (zlen (hello_head s)) with 4. pose proof (hello_size s). pose proof (links_count w net s Ht). lia. }
  assert (Hc : contents (olsr_tx_msgbuf s1) = enc_msgs [hello_message s bytes]).
  { cbn [olsr_tx_msgbuf set_olsr_tx_msgbuf s1]. rewrite Hc1, Hq. unfold room. rewrite Hq, Hsz.
    change (zlen (@nil Z)) with 0. unfold OLSR_TX_MSGBUF_SIZE.
    destruct (Z.leb_spec (zlen (enc_msg (hello_message s bytes))) (2000 - 0)); [|lia].
    unfold enc_msgs. cbn. by rewrite app_nil_r. }
  destruct (send_from_queue_ok s1 junk2) as (rb2 & f & E2 & _ & Hc2 & _ & Hf).
  { exact Hwf1. }
  { cbn. rewrite Hsz1, Hsz. done. }
  { by apply (own_window w net s). }
  { done. }
  { rewrite Hc. discriminate. }
  destruct (send_ticked D w net a s1 junk2 (well_mid s1 H1) (wl_traffic _ _ _ _ _ H1) Hj2) as (s2 & E2' & Htk2).
  pose proof E2' as E2''. rewrite E2 in E2'. injection E2' as E2'.
  exists s1, s2, f, bytes. split; [exact E1|]. split; [exact E2''|]. split; [by rewrite <- E2'|].
  split; [|split; [done|by rewrite <- Hc]]. constructor.
  - by apply (ticked_well s1).
  - apply (same_trees_trans s s1); [apply Htk1|apply Htk2].
  - rewrite (tk_table _ _ _ _ _ _ Htk2). apply (tk_table _ _ _ _ _ _ Htk1).
  - by rewrite <- E2'.
Qed.

(** *** Its reception *)
Lemma hello_handled ctx P tl s bytes :
  node_ok w net a ctx -> node_trees w net s -> enc_infos (hello_groups s) bytes ->
  own_ip s <> own_ip ctx -> rbtree_search (dup_tree ctx) (hdr_key (fst (hello_message s bytes))) = None ->
  exists ctx' vtime, handle_list ctx (own_ip s) P [hello_message s bytes] tl = Ok ctx' /\
    hello_learned w net a ctx ctx' (own_ip s) vtime (announced (hello_groups s) (own_ip ctx))
      (concat (map snd (hello_groups s))).
Proof.
  intros H Hs He Hne Hdup. set (m := hello_message s bytes) in *.
  destruct (hello_sendable w net s bytes Hs He) as [[[Hh Hsize] _ Hvt _] _]. fold m in Hh, Hsize, Hvt.
  cbn [handle_list].
  assert (Eb : P ++ enc_msg m ++ enc_msgs [] ++ tl = P ++ enc_header (fst m) ++ (snd m ++ tl))
    by (unfold enc_msg, enc_msgs; cbn [map concat app]; by rewrite <- app_assoc).
  rewrite Eb. destruct (read_header P (fst m) (snd m ++ tl) Hh) as (Et & Ev & Esz & Eo & Ettl & _).
  unfold handle_olsr_msg. rewrite Eo. cbn [rbind]. change (originator (fst m)) with (own_ip s).
  rewrite (proj2 (Z.eqb_neq _ _) Hne).
  unfold process_olsr_msg, is_already_processed. rewrite read_key by done. cbn [rbind].
  rewrite Hdup, Ev, Esz, Et, Eo. cbn [rbind].
  change (olsr_msgtype (fst m) =? MSG_TYPE_HELLO) with true. cbn iota. change (originator (fst m)) with (own_ip s).
  pose proof (zlen_nonneg (snd m)) as Hpos. pose proof (hdr_size _ Hh) as Hu. rewrite Hsize in Hu |- *. unfold is_u16 in Hu.
  replace (u16 (12 + zlen (snd m) - sizeof_OlsrMsgHeader)) with (zlen (snd m))
    by (unfold sizeof_OlsrMsgHeader; rewrite u16_id by (unfold is_u16; lia); lia).
  replace (zlen P + sizeof_OlsrMsgHeader) with (zlen (P ++ enc_header (fst m))) by (by rewrite zlen_app).
  destruct (process_hello_spec w net a ctx (own_ip s) (me_to_reltime (olsr_vtime (fst m)))
    ((P ++ enc_header (fst m)) ++ hello_head s ++ bytes ++ tl) (P ++ enc_header (fst m)) (hello_head s) bytes tl
    (hello_groups s)) as (ctx' & E & Hl); try done.
  { apply (nw_own _ _ _ Hs). }
  { constructor; try done; [by apply (groups_ok w net)|by apply (groups_net w net)|].
    change (snd m) with (hello_head s ++ bytes) in *. rewrite zlen_app in *. change (zlen (hello_head s)) with 4 in *. lia. }
  { by apply (never_lost w net). }
  exists ctx', (me_to_reltime (olsr_vtime (fst m))). split; [|done].
  change (snd m) with (hello_head s ++ bytes). rewrite <- !app_assoc in E |- *. rewrite E. cbn [rbind].
  change (snd m) with (hello_head s ++ bytes) in Ettl. rewrite <- !app_assoc in Ettl. rewrite Ettl.
  by cbn.
Qed.

(** What [r] knows after a HELLO of [s]. *)
Record has_heard (s r r' : OlsrContext) : Prop := {
  hr_well : node_well D w net a r';
  hr_own : own_ip r' = own_ip r;
  hr_queue : contents (olsr_tx_msgbuf r') = contents (olsr_tx_msgbuf r);
  hr_dup : dup_tree r' = dup_tree r;
  hr_knows : knows r' (own_ip s);
  hr_marked : marked r' (own_ip s);
  hr_sym : marked s (own_ip r) -> (OlsrMpr.symmetric (neighbor_tree r') (own_ip s) <->
    knows s (own_ip r) \/ old_status r (own_ip s) = SYM_LINK);
  hr_selected : marked s (own_ip r) -> (In (own_ip s) (keys (selector_tree r')) <->
    In (own_ip s) (keys (selector_tree r)) \/
    knows s (own_ip r) /\ get_neighbor_status s (own_ip r) = MPR_NEIGH);
  hr_routes : routes_current r -> routes_current r'
}.

Lemma knows_dec ctx x : knows ctx x \/ ~ knows ctx x.
Proof. unfold knows. destruct (in_dec Z.eq_dec x (keys (all_links ctx))); auto. Qed.

Lemma learned_heard s r ctx1 r' vtime :
  node_trees w net s -> same_but_stats r ctx1 -> node_well D w net a r' -> (routes_current r -> routes_current r') ->
  hello_learned w net a ctx1 r' (own_ip s) vtime (announced (hello_groups s) (own_ip ctx1))
    (concat (map snd (hello_groups s))) -> has_heard s r r'.
Proof.
  intros Hs Hf Hw Hr [_ (l & q & Hl & Ka & Es & _) _ _ Hm Hsym _ Hsel _ _ _ Hrest]. unfold same_but_stats in Hf.
  assert (Eo : own_ip ctx1 = own_ip r) by exact (eq_sym (f_equal own_ip Hf)).
  assert (El : all_links ctx1 = all_links r) by exact (eq_sym (f_equal all_links Hf)).
  assert (Esel : selector_tree ctx1 = selector_tree r) by exact (eq_sym (f_equal selector_tree Hf)).
  assert (Eq : olsr_tx_msgbuf ctx1 = olsr_tx_msgbuf r) by exact (eq_sym (f_equal olsr_tx_msgbuf Hf)).
  assert (Ed : dup_tree ctx1 = dup_tree r) by exact (eq_sym (f_equal dup_tree Hf)).
  assert (Eold : old_status ctx1 (own_ip s) = old_status r (own_ip s)) by (unfold old_status; by rewrite El).
  unfold same_rest, rest_of in Hrest. rewrite Eo, Eold, Esel in *. constructor; try done; try congruence.
  - by apply (in_keys _ l).
  - intros Hmk. rewrite Hsym, Z.eqb_refl. unfold status_after. destruct (knows_dec s (own_ip r)) as [Hk|Hk].
    + destruct (announced_known w net s (own_ip r) Hs Hk Hmk) as [-> _]. cbn [orb]. intuition.
    + rewrite (announced_unknown s (own_ip r) Hk). cbn [sym_heard Z.eqb STATUS_UNAVAILABLE Pos.eqb negb andb orb].
      destruct (Z.eqb_spec (old_status r (own_ip s)) SYM_LINK); [by intuition|]. split; [discriminate|tauto].
  - intros Hmk. rewrite Hsel. destruct (knows_dec s (own_ip r)) as [Hk|Hk].
    + destruct (announced_known w net s (own_ip r) Hs Hk Hmk) as [_ ->]. rewrite Z.eqb_eq. tauto.
    + rewrite (announced_unknown s (own_ip r) Hk). cbn [mpr_heard Z.eqb STATUS_UNAVAILABLE Pos.eqb negb andb].
      split; [intros [?|[_ ?]]; [by left|discriminate]|tauto].
Qed.

Lemma hello_to_ok s r junk1 junk2 bufs :
  node_well D w net a s -> node_well D w net a r -> contents (olsr_tx_msgbuf s) = [] ->
  zlen junk1 = MAX_IPPKT_SIZE -> Forall is_u8 junk1 -> zlen junk2 = PKT_DATA_SIZE -> bufs_ok bufs ->
  In broadcast_ip net -> own_ip s <> own_ip r ->
  (forall k, orig k = own_ip s -> rbtree_search (dup_tree r) k = None) ->
  exists s' r', hello_to junk1 junk2 bufs s r = Ok (s', r') /\ has_sent s s' /\ has_heard s r r'.
Proof.
  intros Hs Hr Hq Hj1 Hu Hj2 Hb Hbc Hne Hdup. pose proof (nd_trees _ _ _ _ (wl_node _ _ _ _ _ Hs)) as Hts.
  destruct (hello_sent s junk1 junk2 Hs Hq Hj1 Hu Hj2) as (s1 & s2 & f & bytes & E1 & E2 & Eo & Hsent & He & Hf).
  set (m := hello_message s bytes) in *. pose proof (hello_sendable w net s bytes Hts He) as Hm. fold m in Hm.
  assert (Hms : Forall (sendable net (own_ip s)) [m]) by (constructor; [done|constructor]).
  assert (Hlen : zlen (enc_msgs [m]) <= OLSR_TX_MSGBUF_SIZE).
  { unfold enc_msgs. cbn [map concat]. rewrite app_nil_r, zlen_enc_msg. cbn [snd hello_message m].
    rewrite zlen_app, (zlen_enc_infos _ _ He). change (zlen (hello_head s)) with 4.
    pose proof (hello_size s). pose proof (links_count w net s Hts). unfold OLSR_TX_MSGBUF_SIZE. lia. }
  assert (Hgood : good_frame D net f)
    by (apply (olsr_frame_ok D net f (own_ip s) (msg_seq s) [m]); [apply (nw_own _ _ _ Hts)|done|done|done|done]).
  destruct (frame_received D w net a bufs r f Hr Hb Hbc Hgood) as (r' & E3 & Hrc).
  destruct (receive_olsr_frame net bufs r (own_ip s) (msg_seq s) [m] f) as (ctx1 & P & tl & Hcnt & Hst & E4);
    [apply (node_counting _ _ _ (node_ready D w net a bufs r Hr Hb))|done|done|done| |done|done|].
  { constructor; [apply (gm_wf net), Hm|constructor]. }
  pose proof (stats_handled D w net a r ctx1 Hr Hcnt Hst) as H1.
  assert (Ed : dup_tree ctx1 = dup_tree r) by (unfold same_but_stats in Hst; exact (eq_sym (f_equal dup_tree Hst))).
  destruct (hello_handled ctx1 P tl s bytes) as (r2 & vtime & E5 & Hl);
    [apply (hd_well _ _ _ _ _ _ _ H1)|done|done|by rewrite (hd_own _ _ _ _ _ _ _ H1)|rewrite Ed; by apply Hdup|].
  unfold m in E4. rewrite E4, E5 in E3. injection E3 as <-. exists s2, r2. split; [|split; [done|]].
  - unfold hello_to. rewrite E1. cbn [rbind]. rewrite E2. cbn [rbind]. unfold new_outs.
    rewrite Eo, drop_app_length, E4, E5. done.
  - apply (learned_heard s r ctx1 r2 vtime); try done; [apply Hrc|]. intros Hc.
    apply (hl_routes _ _ _ _ _ _ _ _ _ Hl), (hd_routes _ _ _ _ _ _ _ H1); [done|by intros []].
Qed.
End Hello.

(** ** Three HELLOs *)

(** The stack buffers of the two callbacks and of the receiver. *)
Record HelloBufs : Type := mkHelloBufs { hello_junk : list Z; send_junk : list Z; rx_bufs : StackBufs }.
Definition hello_bufs_ok (b : HelloBufs) : Prop :=
  zlen (hello_junk b) = MAX_IPPKT_SIZE /\ Forall is_u8 (hello_junk b) /\
  zlen (send_junk b) = PKT_DATA_SIZE /\ bufs_ok (rx_bufs b).
Definition hello_with (b : HelloBufs) (s r : OlsrContext) : res (OlsrContext * OlsrContext) :=
  hello_to (hello_junk b) (send_junk b) (rx_bufs b) s r.

(** [s] says hello, [r] answers, [s] says hello again. *)
Definition handshake (b : HelloBufs) (s r : OlsrContext) : res (OlsrContext * OlsrContext) :=
  let* sr := hello_with b s r in
  let* rs := hello_with b (snd sr) (fst sr) in
  hello_with b (snd rs) (fst rs).

(** A route of one hop. *)
Definition direct_route (ctx : OlsrContext) (x : Z) : Prop :=
  exists e, In e (routing_table ctx) /\ route_dest e = x /\ route e = [x] /\ hop_count e = 1.

Lemma routed_directly ctx x : routes_current ctx -> OlsrMpr.symmetric (neighbor_tree ctx) x -> direct_route ctx x.
Proof.
  intros [Hs Hm] (n & Hn & Hsym & <-).
  destruct (Hm [neighbor_main_addr n] (neighbor_main_addr n)) as (e & He & Hd & Hh); [by constructor|].
  exists e. split; [done|]. split; [done|]. destruct (Hs e He) as [Hw Hc]. apply walk_end in Hw as (q & Eq).
  rewrite Hd in Eq. rewrite Hc, Eq, zlen_app in Hh. change (zlen [neighbor_main_addr n]) with 1 in Hh.
  assert (q = []) as -> by (apply zlen_0; pose proof (zlen_nonneg q); lia). split; [done|]. by rewrite Hc, Eq.
Qed.

(** [s] has [r] as a neighbour, and a route to it if its routes were current. *)
Record peered (w : Z) (net : list Z) (a : Z) (s s' : OlsrContext) (x : Z) : Prop := {
  pe_well : node_well (fun _ => True) w net a s';
  pe_own : own_ip s' = own_ip s;
  pe_sym : OlsrMpr.symmetric (neighbor_tree s') x;
  pe_route : routes_current s -> direct_route s' x
}.

Section Handshake.
Context (w : Z) (net : list Z) (a : Z) (b : HelloBufs).
Hypothesis (Hb : hello_bufs_ok b) (Hbc : In broadcast_ip net).
Abbreviation well := (node_well (fun _ : list Z => True) w net a).
Abbreviation sent := (has_sent (fun _ : list Z => True) w net a).
Abbreviation heard := (has_heard (fun _ : list Z => True) w net a).

(** Nothing of the node [o] has been relayed. *)
Definition unheard_of (ctx : OlsrContext) (o : Z) : Prop :=
  forall k, orig k = o -> rbtree_search (dup_tree ctx) k = None.

Lemma sent_routes s s' : sent s s' -> routes_current s -> routes_current s'.
Proof using.
  intros [_ (E0 & E1 & _ & _ & _ & _ & E6) Et _] Hc. by apply (routes_current_same s); rewrite <- ?E6.
Qed.

Lemma one_hello s r : well s -> well r -> contents (olsr_tx_msgbuf s) = [] -> own_ip s <> own_ip r ->
  unheard_of r (own_ip s) -> exists s' r', hello_with b s r = Ok (s', r') /\ sent s s' /\ heard s r r'.
Proof using Hb Hbc.
  intros Hs Hr Hq Hne Hu. destruct Hb as (H1 & H2 & H3 & H4).
  by apply (hello_to_ok (fun _ => True) w net a s r).
Qed.

Lemma handshake_run s r : well s -> well r ->
  contents (olsr_tx_msgbuf s) = [] -> contents (olsr_tx_msgbuf r) = [] -> own_ip s <> own_ip r ->
  unheard_of r (own_ip s) -> unheard_of s (own_ip r) ->
  exists s' r', handshake b s r = Ok (s', r') /\
    peered w net a s s' (own_ip r) /\ peered w net a r r' (own_ip s).
Proof using Hb Hbc.
  intros Hs Hr Hqs Hqr Hne Hur Hus.
  destruct (one_hello s r Hs Hr Hqs Hne Hur) as (s1 & r1 & E1 & Hs1 & Hr1).
  pose proof (hs_trees _ _ _ _ _ _ Hs1) as (Eo1 & _ & _ & _ & Ed1 & Ei1 & _).
  pose proof (hr_own _ _ _ _ _ _ _ Hr1) as Er1.
  destruct (one_hello r1 s1) as (r2 & s2 & E2 & Hr2 & Hs2);
    [apply Hr1|apply Hs1|by rewrite (hr_queue _ _ _ _ _ _ _ Hr1)|congruence| |].
  { intros k Hk. rewrite <- Ed1. apply Hus. congruence. }
  pose proof (hs_trees _ _ _ _ _ _ Hr2) as (Eo2 & En2 & _ & _ & Ed2 & Ei2 & _).
  pose proof (hr_own _ _ _ _ _ _ _ Hs2) as Er2.
  destruct (one_hello s2 r2) as (s3 & r3 & E3 & Hs3 & Hr3);
    [apply Hs2|apply Hr2|rewrite (hr_queue _ _ _ _ _ _ _ Hs2); apply Hs1|congruence| |].
  { intros k Hk. rewrite <- Ed2, (hr_dup _ _ _ _ _ _ _ Hr1). apply Hur. congruence. }
  pose proof (hs_trees _ _ _ _ _ _ Hs3) as (Eo3 & En3 & _).
  assert (Hsym2 : OlsrMpr.symmetric (neighbor_tree s2) (own_ip r1)).
  { apply (hr_sym _ _ _ _ _ _ _ Hs2); rewrite <- Eo1; [apply Hr1|left; apply Hr1]. }
  assert (Hsym3 : OlsrMpr.symmetric (neighbor_tree r3) (own_ip s2)).
  { apply (hr_sym _ _ _ _ _ _ _ Hr3); rewrite <- Eo2; [apply Hs2|left; apply Hs2]. }
  exists s3, r3. split; [unfold handshake; rewrite E1; cbn [rbind fst snd]; rewrite E2; exact E3|].
  assert (Hss : OlsrMpr.symmetric (neighbor_tree s3) (own_ip r)) by (rewrite <- En3, <- Er1; done).
  assert (Hsr : OlsrMpr.symmetric (neighbor_tree r3) (own_ip s)) by (rewrite Eo1, <- Er2; done).
  split; (constructor; [|congruence || (rewrite (hr_own _ _ _ _ _ _ _ Hr3); congruence)|done|]).
  - apply Hs3.
  - intros Hc. apply routed_directly; [|done]. apply (sent_routes s2 s3 Hs3), (hr_routes _ _ _ _ _ _ _ Hs2).
    by apply (sent_routes s s1 Hs1).
  - apply Hr3.
  - intros Hc. apply routed_directly; [|done]. apply (hr_routes _ _ _ _ _ _ _ Hr3), (sent_routes r1 r2 Hr2).
    by apply (hr_routes _ _ _ _ _ _ _ Hr1).
Qed.
End Handshake.

(** C3: Two nodes become neighbours with three HELLOs.  Take any two nodes in
    their invariant, with empty transmit queues, that have relayed nothing of each
    other.  Let the first send a HELLO that the second receives, the second answer
    and the first repeat it, each time by its HELLO timer and its send timer, and
    whatever the stack buffers contain.  All nine calls return without undefined
    behaviour; then each node has the other as a symmetric neighbour, and if its
    routing table was current before, a route of exactly one hop to it. *)
Theorem handshake_completes (w : Z) (net : list Z) (a : Z) (b : HelloBufs) (s r : OlsrContext)
  (Hb : hello_bufs_ok b) (Hbc : In broadcast_ip net)
  (Hs : node_well (fun _ => True) w net a s) (Hr : node_well (fun _ => True) w net a r)
  (Hqs : contents (olsr_tx_msgbuf s) = []) (Hqr : contents (olsr_tx_msgbuf r) = [])
  (Hne : own_ip s <> own_ip r)
  (Hur : unheard_of r (own_ip s)) (Hus : unheard_of s (own_ip r)) :
  exists s' r', handshake b s r = Ok (s', r') /\
    peered w net a s s' (own_ip r) /\ peered w net a r r' (own_ip s).
Proof. by apply handshake_run. Qed.

Definition ex_hello_bufs : HelloBufs := mkHelloBufs (repeat 0xcc 2000) (repeat 0xcc 2050) ex_bufs.

Example ex_handshake :
  match handshake ex_hello_bufs (ex_started 0x0201a8c0) (ex_started 0x0202a8c0) with
  | Ok (s, r) => (map neigh_status (neighbor_tree s), map route_dest (routing_table s),
                  map neigh_status (neighbor_tree r), map route_dest (routing_table r))
                 = ([SYM_NEIGH], [0x0202a8c0], [SYM_NEIGH], [0x0201a8c0])
  | _ => False
  end.
Proof. vm_compute. reflexivity. Qed.

Lemma handshake_completes_witness :
  let s := ex_started 0x0201a8c0 in let r := ex_started 0x0202a8c0 in
  exists s' r', handshake ex_hello_bufs s r = Ok (s', r') /\
    peered 0x90000000 ex_lan hello_timer_ptr s s' (own_ip r) /\
    peered 0x90000000 ex_lan hello_timer_ptr r r' (own_ip s).
Proof.
  intros s r. apply (handshake_completes 0x90000000 ex_lan hello_timer_ptr ex_hello_bufs s r).
  - split; [vm_compute; reflexivity|]. split; [|split; [vm_compute; reflexivity|by repeat split]].
    apply List.Forall_forall. intros x Hx. apply repeat_spec in Hx as ->. unfold is_u8. lia.
  - right. right. right. by left.
  - apply ex_member. by left.
  - apply ex_member. right. by left.
  - vm_compute. reflexivity.
  - vm_compute. reflexivity.
  - vm_compute. discriminate.
  - intros k _. vm_compute. reflexivity.
  - intros k _. vm_compute. reflexivity.
Defined.
