(* ===== verification/Net.v ===== *)
(** The node process (simnet/simnet.c, mac_connection.c, net_command.c,
    net_report.c, dummy.c, main.c).

    One round of its main loop takes the packets from the MAC queue to the routing
    module, carries out the commands of the simulator, which start and stop the
    streams of dummy traffic, fires its own timers (the streams and the statistics
    report) and gives the routing module its turn.  The module is any that keeps
    the promises of RouteIface.v; what it has sent is carried out, in order, when
    a call of it returns. *)
From S2P Require Import Prelude OrdTree TimerQueue OlsrContext NetUtil MsgQueue RouteIface.
From stdpp Require Import base list numbers gmap.
From Stdlib Require Import ZArith Lia.
Open Scope Z_scope.
Open Scope c_scope.

(** ** Message layouts (include/config_msg.h, include/report_msg.h) *)
Definition CONF_MSG_TYPE_NET_SET_DUMMY_TRAFFIC : Z := 1.
Definition CONF_MSG_TYPE_NET_UNSET_DUMMY_TRAFFIC : Z := 2.
Definition CONF_MSG_TYPE_NET_UPDATE_DUMMY_TRAFFIC : Z := 3.
Definition REPORT_MSG_NET_TRX : Z := 1.
Definition REPORT_MSG_NET_LOCAL_TRX : Z := 2.
Definition REPORT_MSG_NET_ROUTING : Z := 3.

Record NetSetDummyTrafficConfig : Type := mkDummy {
  conf_id : Z; src_id : Z; dst_id : Z; payload_size : Z; interval_ms : Z
}.
Definition read_dummy_config (b : list Z) : res NetSetDummyTrafficConfig :=
  let* i := rd16 b 0 in
  let* s := rd16 b 2 in
  let* d := rd16 b 4 in
  let* p := rd16 b 6 in
  let* t := rd16 b 8 in
  Ok (mkDummy i s d p t).
Definition enc_dummy_config (c : NetSetDummyTrafficConfig) : list Z :=
  le16 (conf_id c) ++ le16 (src_id c) ++ le16 (dst_id c) ++ le16 (payload_size c) ++
  le16 (interval_ms c).

(** [NetTrxReport] and [NetRoutingReport]. *)
Definition enc_trx_report (peer tx rx : Z) : list Z := le32 peer ++ le32 tx ++ le32 rx.
Definition enc_routing_report (visit_num target : Z) (path : list Z) : list Z :=
  le16 visit_num ++ le16 target ++ enc_addrs path.

(** ** State *)
Definition MAX_DUMMY_STREAMS : Z := 1000.

(** Callbacks of the process's timers; the argument of a stream is its own copy
    of the configuration. *)
Inductive net_cb : Type :=
  | Cb_send_net_report
  | Cb_send_dummy_packet (conf : NetSetDummyTrafficConfig)
  | Cb_dummypkt_send_job_detach (conf : NetSetDummyTrafficConfig).

(** [stat] is shared with the routing module and lives there. *)
Record SimNetCtx : Type := mkNet {
  net_timerqueue : TimerqueueContext net_cb;
  net_node_id : Z;
  net_recv_mac : Z;
  net_send_mac : Z;
  net_recv_command : Z;
  net_send_report : Z;
  dummy_traffic_timers : list (option Z)
}.
Definition set_net_tq (c : SimNetCtx) (v : TimerqueueContext net_cb) : SimNetCtx :=
  mkNet v (net_node_id c) (net_recv_mac c) (net_send_mac c) (net_recv_command c) (net_send_report c)
    (dummy_traffic_timers c).
Definition set_dummy_timer (c : SimNetCtx) (id : Z) (p : option Z) : SimNetCtx :=
  mkNet (net_timerqueue c) (net_node_id c) (net_recv_mac c) (net_send_mac c) (net_recv_command c)
    (net_send_report c) (<[Z.to_nat id := p]> (dummy_traffic_timers c)).
Definition net_upd_tq (f : TimerqueueContext net_cb -> res (TimerqueueContext net_cb)) (c : SimNetCtx)
  : res SimNetCtx :=
  let* tq := f (net_timerqueue c) in Ok (set_net_tq c tq).

(** ** Dummy traffic (dummy.c): the streams *)

(** Slot [conf_id] of the table; a greater id is an access outside it. *)
Definition dummy_timer (c : SimNetCtx) (id : Z) : res (option Z) :=
  deref (dummy_traffic_timers c !! Z.to_nat id).

Definition set_stream (conf : NetSetDummyTrafficConfig) (e : TimerqueueElem net_cb)
  : TimerqueueElem net_cb :=
  mkTimer (priv_rbk e) (max_jitter e) (active e) (attached e) 1 (interval_ms conf * 1000) 0
    (Some (Cb_send_dummy_packet conf)) (Some (Cb_dummypkt_send_job_detach conf)).

(** The last call links the timer into the tree.  A timer that is in it already
    would be linked twice; the tree is then no tree any more. *)
Definition register_dummypkt_send_job (c : SimNetCtx) (data : list Z) : res SimNetCtx :=
  let* conf := read_dummy_config data in
  let* slot := dummy_timer c (conf_id conf) in
  let '(c, p) :=
    match slot with
    | Some p => (c, p)
    | None => let '(tq, p) := timerqueue_new_timer (net_timerqueue c) in
              (set_dummy_timer (set_net_tq c tq) (conf_id conf) (Some p), p)
    end in
  let* c := net_upd_tq (fun tq => poke tq p (set_stream conf)) c in
  let* e := peek (net_timerqueue c) p in
  if attached e =? 1 then UB
  else net_upd_tq (fun tq => timerqueue_register_timer tq p) c.

(** [data] is a [NetUnsetDummyTrafficConfig], of which only the id is read. *)
Definition unregister_dummypkt_send_job (c : SimNetCtx) (data : list Z) : res SimNetCtx :=
  let* id := rd16 data 0 in
  let* slot := dummy_timer c id in
  match slot with
  | None => Ok c
  | Some p =>
    let* c := net_upd_tq (fun tq => poke tq p (set_active 0)) c in
    Ok (set_dummy_timer c id None)
  end.

(** ** Commands (net_command.c) *)
Definition process_command (c : SimNetCtx) (data : list Z) (type : Z) : res SimNetCtx :=
  if type =? CONF_MSG_TYPE_NET_SET_DUMMY_TRAFFIC then register_dummypkt_send_job c data
  else if type =? CONF_MSG_TYPE_NET_UNSET_DUMMY_TRAFFIC then unregister_dummypkt_send_job c data
  else if type =? CONF_MSG_TYPE_NET_UPDATE_DUMMY_TRAFFIC then
    let* c := unregister_dummypkt_send_job c data in
    register_dummypkt_send_job c data
  else Ok c.

Section Net.
Context {Q : Type} `{MsgService Q}.

Definition net_recv_commands (fuel : nat) (q : Q) (c : SimNetCtx) (junk : MqMsgbuf)
  : res (Q * SimNetCtx) :=
  let* r := recv_loop (fun q msg _ c => let* c := process_command c (text msg) (type msg) in Ok (q, c))
              fuel q (net_recv_command c) junk c in
  Ok (fst r).

(** ** The MAC queue (mac_connection.c, simnet.c) *)
Definition sendto_mac (q : Q) (c : SimNetCtx) (data : list Z) (len type : Z) : res Q :=
  let* r := send_mq q (net_send_mac c) data len type in Ok (fst r).

(** [remote_send] and [local_send], the two functions the module is given; the
    second only logs. *)
Definition remote_send (q : Q) (c : SimNetCtx) (data : list Z) (len : Z) : res Q :=
  sendto_mac q c data len 1.
Definition local_send (q : Q) (data : list Z) (len : Z) : res Q := Ok q.

Context {R : Type} `{RouteConfig R} (route : RouteFunctions R).

Definition carry_out (c : SimNetCtx) (q : Q) (o : output) : res Q :=
  match o with
  | SendRemote f => remote_send q c f (zlen f)
  | SendLocal f => local_send q f (zlen f)
  end.

(** A call of the routing module. *)
Definition route_call (f : R -> res R) (q : Q) (c : SimNetCtx) (r : R) : res (Q * R) :=
  let* r := f r in
  let* q := rfold (carry_out c) (conf_outs r) q in
  Ok (q, conf_set_outs r []).

Definition process_mac_msg (q : Q) (c : SimNetCtx) (r : R) (data : list Z) (len : Z) : res (Q * R) :=
  route_call (fun r => handle_remote_pkt route r data len) q c r.

Definition recvfrom_mac (fuel : nat) (q : Q) (c : SimNetCtx) (r : R) (junk : MqMsgbuf) : res (Q * R) :=
  let* x := recv_loop (fun q msg len r =>
      if type msg =? MESSAGE_TYPE_DATA then process_mac_msg q c r (text msg) len else Ok (q, r))
    fuel q (net_recv_mac c) junk r in
  Ok (fst x).

(** ** Dummy traffic: a packet *)
Definition send_dummy_packet (pkb : list Z) (conf : NetSetDummyTrafficConfig) (q : Q) (c : SimNetCtx) (r : R)
  : res (Q * R) :=
  let sender_ip := MAKE_BE32_IP 192 168 (net_node_id c) 1 in
  let receiver_ip := MAKE_BE32_IP 192 168 (dst_id conf) 1 in
  let* b := build_ip_hdr pkb 0 (payload_size conf + IPUDP_HDRLEN) 64 sender_ip receiver_ip IPPROTO_UDP in
  let* b := build_udp_hdr_no_checksum b sizeof_iphdr 29111 29112 (payload_size conf) in
  let* b := zblit b IPUDP_HDRLEN (replicate (Z.to_nat (payload_size conf)) 0) in
  route_call (fun r => handle_local_pkt route r b (IPUDP_HDRLEN + payload_size conf)) q c r.

(** ** Reports (net_report.c) *)

(** The same copy into a message as in [send_mq], and no check of the type. *)
Definition send_report_to_simulator (q : Q) (mqid : Z) (data : list Z) (len type : Z) : res Q :=
  if MQ_MAX_DATA_LEN <? len then UB
  else
    let* t := zslice data 0 len in
    Ok (fst (msgsnd q mqid (mkMsg type t))).

Definition sizeof_route_msgbuf : Z := 300.

(** [hop_count] addresses are copied from a path of [MAX_HOP_COUNT] into a buffer
    of [sizeof_route_msgbuf] bytes. *)
Definition send_route_report (q : Q) (c : SimNetCtx) (info : NeighborInfo) (neighbor_addr : Z) : res Q :=
  let rinfo := routing info in
  let n := rinfo_hop_count rinfo in
  if (n <? 0) || (Z.of_nat MAX_HOP_COUNT <? n) || (sizeof_route_msgbuf <? 4 + 4 * n) then UB
  else
    let report := enc_routing_report n (u8 (neighbor_addr / 65536)) (take (Z.to_nat n) (rinfo_path rinfo)) in
    send_report_to_simulator q (net_send_report c) report (4 + 4 * n) REPORT_MSG_NET_ROUTING.

Definition send_traffic_report (q : Q) (c : SimNetCtx) (info : NeighborInfo) (neighbor_addr : Z) : res Q :=
  let t := traffic info in
  send_report_to_simulator q (net_send_report c)
    (enc_trx_report neighbor_addr (tx_bytes t) (rx_bytes t)) 12 REPORT_MSG_NET_TRX.

Definition clear_traffic (i : NeighborInfo) : NeighborInfo :=
  let t := traffic i in
  mkNinfo (ninfo_addr i) (mkTraffic (tx_bytes t) (rx_bytes t) (tx_pkts t) (rx_pkts t) 0) (routing i).
Definition clear_routing (i : NeighborInfo) : NeighborInfo :=
  mkNinfo (ninfo_addr i) (traffic i) (mkRinfo (rinfo_hop_count (routing i)) (rinfo_path (routing i)) 0).

(** The loop body for one entry: the queues and the entry after it. *)
Definition report_entry (c : SimNetCtx) (q : Q) (info : NeighborInfo) : res (Q * NeighborInfo) :=
  let neighbor_addr := ninfo_addr info in
  let* x :=
    if negb (traffic_dirty (traffic info) =? 0) then
      let* q := send_traffic_report q c info neighbor_addr in Ok (q, clear_traffic info)
    else Ok (q, info) in
  let '(q, info) := x in
  if negb (routing_dirty (routing info) =? 0) then
    let* q := send_route_report q c info neighbor_addr in Ok (q, clear_routing info)
  else Ok (q, info).

Definition send_net_report_cb (q : Q) (c : SimNetCtx) (r : R) : res (Q * R) :=
  let* x := rfold (fun '(q, stat) i =>
      let* info := deref (node_info stat !! Z.to_nat i) in
      let* y := report_entry c q info in
      let '(q, info) := y in
      Ok (q, {| node_stats_num := node_stats_num stat;
                node_info := <[Z.to_nat i := info]> (node_info stat) |}))
    (seqZ 0 (node_stats_num (conf_stat r))) (q, conf_stat r) in
  let '(q, stat) := x in
  Ok (q, conf_set_stat r stat).

(** ** The process *)
Definition net_state : Type := Q * SimNetCtx * R.

Definition run_net_cb (pkb : list Z) (cb : net_cb) (s : net_state) : res net_state :=
  let '(q, c, r) := s in
  match cb with
  | Cb_send_net_report => let* x := send_net_report_cb q c r in Ok (fst x, c, snd x)
  | Cb_send_dummy_packet conf => let* x := send_dummy_packet pkb conf q c r in Ok (fst x, c, snd x)
  | Cb_dummypkt_send_job_detach _ => Ok s
  end.

Definition net_get_tq (s : net_state) : TimerqueueContext net_cb := net_timerqueue (snd (fst s)).
Definition net_set_tq (s : net_state) (tq : TimerqueueContext net_cb) : net_state :=
  let '(q, c, r) := s in (q, set_net_tq c tq, r).

Definition simnet_work (fuel tfuel : nat) (pkb : list Z) (junk junk' : MqMsgbuf) (s : net_state)
  : res net_state :=
  let '(q, c, r) := s in
  let* x := recvfrom_mac fuel q c r junk in
  let '(q, r) := x in
  let* x := net_recv_commands fuel q c junk' in
  let '(q, c) := x in
  let* s := timerqueue_work net_get_tq net_set_tq (run_net_cb pkb) tfuel (q, c, r) in
  let '(q, c, r) := s in
  let* x := route_call (work route) q c r in
  Ok (fst x, c, snd x).

(** ** Start (main.c) *)
Definition get_simnet_context (node_id : Z) (clk : nat -> timespec) (rnd : nat -> Z) : SimNetCtx :=
  mkNet (create_timerqueue clk rnd) node_id 0 0 0 0 (replicate (Z.to_nat MAX_DUMMY_STREAMS) None).

Definition simnet_init_mq (fuel : nat) (q : Q) (c : SimNetCtx) (junk : MqMsgbuf) : res (Q * SimNetCtx) :=
  let mqid_send_mac := msgget (MQ_KEY_NET_TO_MAC + net_node_id c) in
  let mqid_recv_mac := msgget (MQ_KEY_MAC_TO_NET + net_node_id c) in
  let mqid_send_report := msgget (MQ_KEY_NET_REPORT + net_node_id c) in
  let mqid_recv_command := msgget (MQ_KEY_NET_COMMAND + net_node_id c) in
  let* q := mq_flush fuel q mqid_send_mac junk in
  let* q := mq_flush fuel q mqid_recv_mac junk in
  let* q := mq_flush fuel q mqid_send_report junk in
  let* q := mq_flush fuel q mqid_recv_command junk in
  Ok (q, mkNet (net_timerqueue c) (net_node_id c) mqid_recv_mac mqid_send_mac mqid_recv_command
           mqid_send_report (dummy_traffic_timers c)).

Definition start_report_job (c : SimNetCtx) : res SimNetCtx :=
  net_upd_tq (fun tq =>
    let* r := start_timer tq 0 (1000 * 100) 0 (fun _ => Cb_send_net_report) in Ok (fst r)) c.

(** [main] up to the main loop. *)
Definition net_start (fuel : nat) (q : Q) (node_id : Z) (clk : nat -> timespec) (rnd : nat -> Z)
  (junk : MqMsgbuf) : res net_state :=
  let c := get_simnet_context node_id clk rnd in
  let* x := simnet_init_mq fuel q c junk in
  let '(q, c) := x in
  let* r := start route (MAKE_BE32_IP 192 168 node_id 1) zero_stats in
  let* q := rfold (carry_out c) (conf_outs r) q in
  let* c := start_report_job c in
  Ok (q, c, conf_set_outs r []).
End Net.
