(* ===== verification/NetStreams.v ===== *)
(** The streams of dummy traffic as a map (simnet/net_command.c, dummy.c).

    The process keeps its streams as pointers in a table, to timers on a heap that
    the timer tree links.  Seen from the simulator they are a map from ids to
    configurations: a command sets, removes or replaces one entry.  [streams] relates
    the two, [spec_command] is the abstract command, and the theorem is the
    refinement, for every sequence of commands in the queue. *)
From S2P Require Import Prelude OrdTree TimerQueue OlsrContext NetUtil MsgQueue RouteIface Net.
From stdpp Require Import base list numbers gmap.
From Stdlib Require Import ZArith Lia.
Open Scope Z_scope.
Open Scope c_scope.

(** ** Commands *)
Inductive command : Type :=
  | CmdSet (conf : NetSetDummyTrafficConfig)
  | CmdUnset (id : Z)
  | CmdUpdate (conf : NetSetDummyTrafficConfig).

Definition command_msg (m : command) : MqMsgbuf :=
  match m with
  | CmdSet conf => mkMsg CONF_MSG_TYPE_NET_SET_DUMMY_TRAFFIC (enc_dummy_config conf)
  | CmdUnset id => mkMsg CONF_MSG_TYPE_NET_UNSET_DUMMY_TRAFFIC (le16 id)
  | CmdUpdate conf => mkMsg CONF_MSG_TYPE_NET_UPDATE_DUMMY_TRAFFIC (enc_dummy_config conf)
  end.

Record config_u16 (c : NetSetDummyTrafficConfig) : Prop := {
  u16_id_ : is_u16 (conf_id c);
  u16_src : is_u16 (src_id c);
  u16_dst : is_u16 (dst_id c);
  u16_size : is_u16 (payload_size c);
  u16_interval : is_u16 (interval_ms c)
}.
Definition command_ok (m : command) : Prop :=
  match m with
  | CmdSet conf | CmdUpdate conf => config_u16 conf
  | CmdUnset id => is_u16 id
  end.

(** The abstract command.  A stream is never set twice, and ids are below the
    size of the table; otherwise the code leaves defined behaviour. *)
Abbreviation stream_map := (gmap Z NetSetDummyTrafficConfig).
Definition spec_command (m : stream_map) (cmd : command) : res stream_map :=
  match cmd with
  | CmdSet conf =>
    if MAX_DUMMY_STREAMS <=? conf_id conf then UB
    else match m !! conf_id conf with Some _ => UB | None => Ok (<[conf_id conf := conf]> m) end
  | CmdUnset id => if MAX_DUMMY_STREAMS <=? id then UB else Ok (delete id m)
  | CmdUpdate conf =>
    if MAX_DUMMY_STREAMS <=? conf_id conf then UB else Ok (<[conf_id conf := conf]> m)
  end.

(** ** The relation *)

(** The timer [p] generates the packets of [conf]: it is in the tree and active. *)
Record generates (tq : TimerqueueContext net_cb) (p : Z) (conf : NetSetDummyTrafficConfig) : Prop := {
  gen_elem : exists t, heap tq !! p =
    Some (mkTimer t 0 1 1 1 (interval_ms conf * 1000) 0 (Some (Cb_send_dummy_packet conf))
            (Some (Cb_dummypkt_send_job_detach conf)));
  gen_linked : In p (rbt tq)
}.

Record streams (c : SimNetCtx) (m : stream_map) : Prop := {
  str_len : zlen (dummy_traffic_timers c) = MAX_DUMMY_STREAMS;
  str_slot : forall id, 0 <= id < MAX_DUMMY_STREAMS ->
    match m !! id with
    | None => dummy_timer c id = Ok None
    | Some conf => exists p, dummy_timer c id = Ok (Some p) /\ generates (net_timerqueue c) p conf
    end;
  str_distinct : forall id1 id2 p, 0 <= id1 < MAX_DUMMY_STREAMS -> 0 <= id2 < MAX_DUMMY_STREAMS ->
    dummy_timer c id1 = Ok (Some p) -> dummy_timer c id2 = Ok (Some p) -> id1 = id2;
  str_fresh : forall p, next_ptr (net_timerqueue c) <= p -> heap (net_timerqueue c) !! p = None
}.

(** ** Reading commands *)
Lemma read_dummy_config_ok conf junk : config_u16 conf ->
  read_dummy_config (enc_dummy_config conf ++ junk) = Ok conf.
Proof.
  intros [Hi Hs Hd Hp Ht]. unfold read_dummy_config, enc_dummy_config. rewrite <- !app_assoc.
  pose (i := le16 (conf_id conf)). pose (s := le16 (src_id conf)). pose (d := le16 (dst_id conf)).
  pose (p := le16 (payload_size conf)). pose (t := le16 (interval_ms conf)).
  set (b := le16 (conf_id conf) ++ _).
  assert (E0 : rd16 b 0 = Ok (conf_id conf)) by exact (rd16_enc [] _ (s ++ d ++ p ++ t ++ junk) Hi).
  assert (E2 : rd16 b 2 = Ok (src_id conf)) by exact (rd16_enc i _ (d ++ p ++ t ++ junk) Hs).
  assert (E4 : rd16 b 4 = Ok (dst_id conf)) by exact (rd16_enc (i ++ s) _ (p ++ t ++ junk) Hd).
  assert (E6 : rd16 b 6 = Ok (payload_size conf)) by exact (rd16_enc (i ++ s ++ d) _ (t ++ junk) Hp).
  assert (E8 : rd16 b 8 = Ok (interval_ms conf)) by exact (rd16_enc (i ++ s ++ d ++ p) _ junk Ht).
  rewrite E0, E2, E4, E6, E8. by destruct conf.
Qed.

Lemma read_id_ok id junk : is_u16 id -> rd16 (le16 id ++ junk) 0 = Ok id.
Proof. intros H. exact (rd16_enc [] id junk H). Qed.

Lemma read_conf_id conf junk : config_u16 conf -> rd16 (enc_dummy_config conf ++ junk) 0 = Ok (conf_id conf).
Proof. intros [H _ _ _ _]. unfold enc_dummy_config. rewrite <- app_assoc. by apply read_id_ok. Qed.

Lemma read_exact {A} (f : list Z -> res A) b v : (forall junk, f (b ++ junk) = Ok v) -> f b = Ok v.
Proof. intros H. specialize (H []). by rewrite app_nil_r in H. Qed.

(** ** The table *)
Lemma dummy_timer_range c m id : streams c m -> 0 <= id ->
  MAX_DUMMY_STREAMS <= id -> dummy_timer c id = UB.
Proof.
  intros Hs H0 Hid. pose proof (str_len c m Hs) as Hl. unfold dummy_timer.
  rewrite lookup_ge_None_2; [done|]. unfold zlen in Hl. lia.
Qed.

Lemma dummy_timer_set c id p j : 0 <= id < zlen (dummy_traffic_timers c) -> 0 <= j ->
  dummy_timer (set_dummy_timer c id p) j = if j =? id then Ok p else dummy_timer c j.
Proof.
  intros Hid Hj. unfold dummy_timer, set_dummy_timer. cbn. unfold zlen in Hid.
  destruct (Z.eqb_spec j id) as [->|Hne].
  - by rewrite list_lookup_insert_eq by lia.
  - by rewrite list_lookup_insert_ne by lia.
Qed.

Lemma dummy_timer_tq c tq j : dummy_timer (set_net_tq c tq) j = dummy_timer c j.
Proof. done. Qed.

(** Registering links the timer into the tree. *)
Lemma register_linked {C} (tq tq' : TimerqueueContext C) p :
  timerqueue_register_timer tq p = Ok tq' -> In p (rbt tq').
Proof.
  unfold timerqueue_register_timer, peek. destruct (heap tq !! p) as [e|] eqn:He; [|discriminate].
  cbn [deref rbind clock_gettime]. set (tq1 := {| heap := heap tq |}).
  rewrite (poke_ok tq1 p _ e He). cbn [rbind].
  set (tq2 := set_heap tq1 _).
  assert (Hin : In p (rbt (tq_insert tq2 p))).
  { unfold tq_insert. cbn [rbt set_rbt]. unfold tree_put. generalize (rbt tq2) as t. intros t.
    destruct (@rbtree_insert _ _ (tq_tree (heap tq2)) t p) as [t'|] eqn:E.
    - apply insert_perm in E. rewrite E. by left.
    - revert E. induction t as [|x t IH]; cbn [rbtree_insert]; [discriminate|].
      destruct (Z.eqb_spec (@tcmp _ _ (tq_tree (heap tq2)) (@tkey _ _ (tq_tree (heap tq2)) p)
        (@tkey _ _ (tq_tree (heap tq2)) x)) 0) as [E0|E0].
      + apply compare_elem_ptr in E0. cbn in E0. subst. by left.
      + destruct (_ <? 0); [discriminate|].
        destruct (@rbtree_insert _ _ (tq_tree (heap tq2)) t p); [discriminate|]. intros _. right. by apply IH. }
  erewrite poke_ok by (cbn; apply lookup_insert_eq). cbn [rbind].
  erewrite poke_ok by (cbn; apply lookup_insert_eq). intros E. injection E as <-. exact Hin.
Qed.

Lemma generates_other tq tq' p q conf : q <> p -> only_timer tq tq' p ->
  generates tq q conf -> generates tq' q conf.
Proof.
  intros Hq (_ & Ho & Hr) [He Hin]. split; [by rewrite Ho|]. by apply Hr.
Qed.

(** ** Setting a free stream *)
Lemma set_free c m conf junk : streams c m -> config_u16 conf -> conf_id conf < MAX_DUMMY_STREAMS ->
  m !! conf_id conf = None ->
  exists c', register_dummypkt_send_job c (enc_dummy_config conf ++ junk) = Ok c' /\
    streams c' (<[conf_id conf := conf]> m).
Proof.
  intros Hs Hc Hid Hm. pose proof Hs as [Hlen Hslot Hdist Hfresh].
  assert (H0 : 0 <= conf_id conf) by (destruct (u16_id_ conf Hc); lia).
  unfold register_dummypkt_send_job. rewrite read_dummy_config_ok by done. cbn [rbind].
  pose proof (Hslot (conf_id conf) (conj H0 Hid)) as Hd. rewrite Hm in Hd. rewrite Hd. cbn [rbind].
  unfold timerqueue_new_timer. set (tq := net_timerqueue c) in *. set (p := next_ptr tq) in *.
  unfold net_upd_tq. cbn [net_timerqueue set_dummy_timer set_net_tq].
  erewrite poke_ok by (cbn; apply lookup_insert_eq). cbn [rbind set_net_tq net_timerqueue].
  unfold peek. cbn [heap set_heap]. rewrite insert_insert_eq, lookup_insert_eq. cbn [deref rbind].
  cbn [attached set_stream new_elem]. cbn [Z.eqb].
  set (tq1 := set_heap _ _). set (e1 := set_stream conf new_elem).
  assert (He1 : heap tq1 !! p = Some e1) by (cbn; apply lookup_insert_eq).
  destruct (timerqueue_register_timer_ok tq1 p e1 He1) as (tq2 & E2 & Ho2 & Hn2 & He2).
  rewrite E2. cbn [rbind]. eexists. split; [reflexivity|].
  match goal with |- streams ?x _ => set (c2 := x) end.
  assert (Htq : net_timerqueue c2 = tq2) by done.
  assert (Hno : forall id, 0 <= id < MAX_DUMMY_STREAMS -> dummy_timer c id <> Ok (Some p)).
  { intros id Hr Hp. specialize (Hslot id Hr). destruct (m !! id) as [cf|].
    - destruct Hslot as (p' & Ep & [[t Et] _]). rewrite Hp in Ep. injection Ep as <-.
      rewrite Hfresh in Et by (unfold p; lia). discriminate.
    - congruence. }
  assert (Hget : forall j, 0 <= j ->
      dummy_timer c2 j = if j =? conf_id conf then Ok (Some p) else dummy_timer c j).
  { intros j Hj. change (dummy_timer c2 j) with (dummy_timer (set_dummy_timer c (conf_id conf) (Some p)) j).
    apply dummy_timer_set; [rewrite Hlen; lia|done]. }
  split.
  - unfold zlen in *. cbn. by rewrite length_insert.
  - intros id Hr. rewrite (Hget id) by lia. destruct (Z.eqb_spec id (conf_id conf)) as [->|Hne].
    + rewrite lookup_insert_eq. exists p. split; [done|]. split; [|rewrite Htq; by eapply register_linked].
      rewrite Htq, He2. eauto.
    + rewrite lookup_insert_ne by done. specialize (Hslot id Hr). destruct (m !! id) as [cf|]; [|done].
      destruct Hslot as (p' & Ep & Hg). exists p'. split; [done|]. rewrite Htq.
      assert (Hpp : p' <> p) by (intros ->; by apply (Hno id Hr)).
      apply (generates_other tq1 tq2 p); [done|done|]. destruct Hg as [He Hl].
      split; [|exact Hl]. cbn. by rewrite lookup_insert_ne.
  - intros id1 id2 p' H1 H2. rewrite !Hget by lia.
    destruct (Z.eqb_spec id1 (conf_id conf)) as [->|], (Z.eqb_spec id2 (conf_id conf)) as [->|]; intros E1 E2'.
    + done.
    + injection E1 as <-. by destruct (Hno id2 H2).
    + injection E2' as <-. by destruct (Hno id1 H1).
    + by eapply Hdist.
  - intros p' Hp'. rewrite Htq in *. rewrite Hn2 in Hp'. cbn in Hp'.
    destruct Ho2 as (_ & Ho & _). rewrite Ho by (unfold p; lia). cbn.
    rewrite lookup_insert_ne by (unfold p; lia). apply Hfresh. fold tq. lia.
Qed.

(** ** Removing a stream *)
Lemma unset_ok c m id data junk : streams c m -> 0 <= id < MAX_DUMMY_STREAMS ->
  rd16 (data ++ junk) 0 = Ok id ->
  exists c', unregister_dummypkt_send_job c (data ++ junk) = Ok c' /\ streams c' (delete id m).
Proof.
  intros Hs Hid Hrd. pose proof Hs as [Hlen Hslot Hdist Hfresh].
  unfold unregister_dummypkt_send_job. rewrite Hrd. cbn [rbind].
  pose proof (Hslot id Hid) as Hd. destruct (m !! id) as [conf|] eqn:Em.
  2:{ rewrite Hd. cbn [rbind]. exists c. split; [done|]. by rewrite delete_id. }
  destruct Hd as (p & Ep & [[t Et] Hin]). rewrite Ep. cbn [rbind]. unfold net_upd_tq.
  erewrite poke_ok by exact Et. cbn [rbind]. eexists. split; [reflexivity|].
  match goal with |- streams ?x _ => set (c2 := x) end.
  assert (Hget : forall j, 0 <= j -> dummy_timer c2 j = if j =? id then Ok None else dummy_timer c j).
  { intros j Hj. change (dummy_timer c2 j) with (dummy_timer (set_dummy_timer c id None) j).
    apply dummy_timer_set; [rewrite Hlen; lia|done]. }
  split.
  - unfold zlen in *. cbn. by rewrite length_insert.
  - intros j Hj. rewrite Hget by lia. destruct (Z.eqb_spec j id) as [->|Hne].
    + by rewrite lookup_delete_eq.
    + rewrite lookup_delete_ne by done. specialize (Hslot j Hj). destruct (m !! j) as [cf|]; [|done].
      destruct Hslot as (p' & Ep' & [He Hl]). exists p'. split; [done|].
      assert (Hpp : p' <> p) by (intros ->; by rewrite (Hdist j id p) in Hne).
      split; [|exact Hl]. cbn. by rewrite lookup_insert_ne.
  - intros id1 id2 p' H1 H2. rewrite !Hget by lia.
    destruct (Z.eqb_spec id1 id), (Z.eqb_spec id2 id); try discriminate. by apply Hdist.
  - intros p' Hp'. cbn in Hp' |- *. destruct (Z.eq_dec p' p) as [->|Hne].
    + rewrite Hfresh in Et by exact Hp'. discriminate.
    + rewrite lookup_insert_ne by done. by apply Hfresh.
Qed.

(** Setting a stream that runs. *)
Lemma set_taken c m conf junk old : streams c m -> config_u16 conf -> conf_id conf < MAX_DUMMY_STREAMS ->
  m !! conf_id conf = Some old -> register_dummypkt_send_job c (enc_dummy_config conf ++ junk) = UB.
Proof.
  intros Hs Hc Hid Hm. assert (H0 : 0 <= conf_id conf) by (destruct (u16_id_ conf Hc); lia).
  unfold register_dummypkt_send_job. rewrite read_dummy_config_ok by done. cbn [rbind].
  pose proof (str_slot c m Hs (conf_id conf) (conj H0 Hid)) as Hd. rewrite Hm in Hd.
  destruct Hd as (p & -> & [[t Et] _]). cbn [rbind]. unfold net_upd_tq. erewrite poke_ok by exact Et.
  cbn [rbind set_net_tq net_timerqueue]. unfold peek. cbn [heap set_heap].
  by rewrite lookup_insert_eq.
Qed.

(** ** One command *)
Lemma process_command_sim c m cmd junk : streams c m -> command_ok cmd ->
  match spec_command m cmd with
  | Ok m' => exists c', process_command c (text (command_msg cmd) ++ junk) (type (command_msg cmd)) = Ok c' /\
      streams c' m'
  | _ => process_command c (text (command_msg cmd) ++ junk) (type (command_msg cmd)) = UB
  end.
Proof.
  intros Hs Hok. destruct cmd as [conf|id|conf]; cbn [command_msg text type spec_command].
  - change (process_command c (enc_dummy_config conf ++ junk) CONF_MSG_TYPE_NET_SET_DUMMY_TRAFFIC)
      with (register_dummypkt_send_job c (enc_dummy_config conf ++ junk)).
    destruct (Z.leb_spec MAX_DUMMY_STREAMS (conf_id conf)) as [Hid|Hid].
    + unfold register_dummypkt_send_job. rewrite read_dummy_config_ok by done. cbn [rbind].
      erewrite dummy_timer_range; [done|done|destruct (u16_id_ conf Hok); lia|done].
    + destruct (m !! conf_id conf) as [old|] eqn:Em; [by eapply set_taken|by apply set_free].
  - change (process_command c (le16 id ++ junk) CONF_MSG_TYPE_NET_UNSET_DUMMY_TRAFFIC) with (unregister_dummypkt_send_job c (le16 id ++ junk)).
    pose proof (read_id_ok id junk Hok) as Hrd. destruct Hok as [H0 _].
    destruct (Z.leb_spec MAX_DUMMY_STREAMS id) as [Hid|Hid].
    + unfold unregister_dummypkt_send_job. rewrite Hrd. cbn [rbind]. by erewrite dummy_timer_range.
    + by apply unset_ok.
  - change (process_command c (enc_dummy_config conf ++ junk) CONF_MSG_TYPE_NET_UPDATE_DUMMY_TRAFFIC) with
      (let* c := unregister_dummypkt_send_job c (enc_dummy_config conf ++ junk) in
       register_dummypkt_send_job c (enc_dummy_config conf ++ junk)).
    pose proof (read_conf_id conf junk Hok) as Hrd. pose proof (u16_id_ conf Hok) as [H0 _].
    destruct (Z.leb_spec MAX_DUMMY_STREAMS (conf_id conf)) as [Hid|Hid].
    + unfold unregister_dummypkt_send_job. rewrite Hrd. cbn [rbind]. by erewrite dummy_timer_range.
    + destruct (unset_ok c m (conf_id conf) (enc_dummy_config conf) junk) as (c1 & E1 & Hs1); [done|lia|done|].
      rewrite E1. cbn [rbind].
      destruct (set_free c1 (delete (conf_id conf) m) conf junk) as (c2 & E2 & Hs2); try done;
        [by rewrite lookup_delete_eq|]. exists c2. split; [done|]. by rewrite insert_delete_eq in Hs2.
Qed.

Lemma process_commands_sim cmds : forall c m, streams c m -> Forall command_ok cmds ->
  match rfold spec_command cmds m with
  | Ok m' => exists c', rfold (fun c msg => process_command c (text msg) (type msg)) (map command_msg cmds) c =
      Ok c' /\ streams c' m'
  | _ => rfold (fun c msg => process_command c (text msg) (type msg)) (map command_msg cmds) c = UB
  end.
Proof.
  induction cmds as [|cmd cmds IH]; intros c m Hs Hok; cbn [rfold map]; [by exists c|].
  apply Forall_cons_iff in Hok as [Hc Hok]. pose proof (process_command_sim c m cmd [] Hs Hc) as Hsim.
  rewrite app_nil_r in Hsim.
  destruct (spec_command m cmd) as [m1| | |]; cbn [rbind];
    [|by rewrite Hsim|by rewrite Hsim|by rewrite Hsim].
  destruct Hsim as (c1 & -> & Hs1). cbn [rbind]. by apply IH.
Qed.

(** What is behind a message in the buffer does not matter. *)
Lemma process_command_junk c cmd junk : command_ok cmd ->
  process_command c (text (command_msg cmd) ++ junk) (type (command_msg cmd)) =
  process_command c (text (command_msg cmd)) (type (command_msg cmd)).
Proof.
  intros Hok. assert (Hreg : forall conf junk, config_u16 conf ->
      register_dummypkt_send_job c (enc_dummy_config conf ++ junk) =
      register_dummypkt_send_job c (enc_dummy_config conf)).
  { intros conf j Hc. unfold register_dummypkt_send_job. rewrite read_dummy_config_ok by done.
    by rewrite (read_exact read_dummy_config _ conf (fun j => read_dummy_config_ok conf j Hc)). }
  destruct cmd as [conf|id|conf]; cbn [command_msg text type]; cbn [command_ok] in Hok.
  - by apply Hreg.
  - cbn -[le16 unregister_dummypkt_send_job]. unfold unregister_dummypkt_send_job.
    rewrite read_id_ok by done. by rewrite (read_exact (fun b => rd16 b 0) _ id (fun j => read_id_ok id j Hok)).
  - assert (Hun : unregister_dummypkt_send_job c (enc_dummy_config conf ++ junk) =
        unregister_dummypkt_send_job c (enc_dummy_config conf)).
    { unfold unregister_dummypkt_send_job. rewrite read_conf_id by done.
      by rewrite (read_exact (fun b => rd16 b 0) _ _ (fun j => read_conf_id conf j Hok)). }
    unfold process_command. cbn -[enc_dummy_config unregister_dummypkt_send_job register_dummypkt_send_job].
    rewrite Hun. destruct (unregister_dummypkt_send_job c (enc_dummy_config conf)) as [c1| | |]; [|done..].
    cbn [rbind]. unfold register_dummypkt_send_job. rewrite read_dummy_config_ok by done.
    by rewrite (read_exact read_dummy_config _ conf (fun j => read_dummy_config_ok conf j Hok)).
Qed.

Lemma net_commands_spec {Q} `{MsgServiceOk Q} (fuel : nat) (q : Q) (c : SimNetCtx)
  (m : stream_map) (cmds : list command) (junk : MqMsgbuf)
  (Hs : streams c m) (Hok : Forall command_ok cmds)
  (Hq : pending q (net_recv_command c) = map command_msg cmds) (Hf : (length cmds <= fuel)%nat) :
  match rfold spec_command cmds m with
  | Ok m' => exists q' c', net_recv_commands fuel q c junk = Ok (q', c') /\ streams c' m' /\
      pending q' (net_recv_command c) = []
  | _ => net_recv_commands fuel q c junk = UB
  end.
Proof.
  unfold net_recv_commands.
  pose proof (recv_loop_pure (fun c t b => process_command c b t) (net_recv_command c)
    (map command_msg cmds) fuel q junk c) as Hloop.
  rewrite length_map in Hloop. specialize (Hloop Hf Hq). cbn zeta in Hloop.
  pose proof (process_commands_sim cmds c m Hs Hok) as Hsim.
  destruct (rfold spec_command cmds m) as [m'| | |].
  2-4: rewrite Hsim in Hloop; rewrite Hloop; [done| |];
    [apply List.Forall_forall; intros x ([conf|id|conf] & <- & _)%in_map_iff; done|];
    intros s x j (cmd & <- & Hin)%in_map_iff; apply process_command_junk;
    rewrite List.Forall_forall in Hok; by apply Hok.
  destruct Hsim as (c' & E & Hs'). rewrite E in Hloop. destruct Hloop as (q' & msg' & El & Hp & _).
  - apply List.Forall_forall. intros x ([conf|id|conf] & <- & _)%in_map_iff; done.
  - intros s x j (cmd & <- & Hin)%in_map_iff. apply process_command_junk.
    rewrite List.Forall_forall in Hok. by apply Hok.
  - rewrite El. by exists q', c'.
Qed.

(** C26: The commands of the simulator act on the streams of dummy traffic as on a
    map.  From a process whose table represents the map [m], and with any sequence
    of commands in its queue, [recv_command] ends within as many turns and does to
    the map what the commands say: one entry set, removed or replaced, with a timer
    that is linked, active and carries the configuration for each entry.  Only when
    a command names an id beyond the table, or sets a stream that runs, does the
    code leave defined behaviour, and then it does. *)
Theorem net_commands_refine {Q} `{MsgServiceOk Q} (fuel : nat) (q : Q) (c : SimNetCtx)
  (m : stream_map) (cmds : list command) (junk : MqMsgbuf)
  (Hs : streams c m) (Hok : Forall command_ok cmds)
  (Hq : pending q (net_recv_command c) = map command_msg cmds) (Hf : (length cmds <= fuel)%nat) :
  match rfold spec_command cmds m with
  | Ok m' => exists q' c', net_recv_commands fuel q c junk = Ok (q', c') /\ streams c' m' /\
      pending q' (net_recv_command c) = []
  | _ => net_recv_commands fuel q c junk = UB
  end.
Proof. by apply net_commands_spec. Qed.

(** A table without streams, and a run: two streams start, one is replaced, one
    stops. *)
Definition ex_net : SimNetCtx :=
  mkNet (create_timerqueue (fun _ => mkTimespec 0 0) (fun _ => 0)) 3 1 2 3 4
    (replicate (Z.to_nat MAX_DUMMY_STREAMS) None).
Definition ex_stream (id size : Z) : NetSetDummyTrafficConfig := mkDummy id 3 5 size 100.
Definition ex_commands : list command :=
  [CmdSet (ex_stream 7 64); CmdSet (ex_stream 8 64); CmdUpdate (ex_stream 7 512); CmdUnset 8].

Lemma ex_net_streams : streams ex_net ∅.
Proof.
  split.
  - vm_compute. reflexivity.
  - intros id Hid. rewrite lookup_empty. unfold dummy_timer. cbn [dummy_traffic_timers ex_net].
    rewrite lookup_replicate_2; [done|]. lia.
  - intros id1 id2 p H1 _. unfold dummy_timer. cbn [dummy_traffic_timers ex_net].
    rewrite lookup_replicate_2 by lia. discriminate.
  - intros p _. apply lookup_empty.
Qed.

Lemma net_commands_refine_witness :
  match rfold spec_command ex_commands ∅ with
  | Ok m' => exists q' c',
      net_recv_commands 4 (mkLq 9 (<[3 := map command_msg ex_commands]> ∅)) ex_net (mkMsg 0 []) =
        Ok (q', c') /\ streams c' m' /\ pending q' 3 = []
  | _ => net_recv_commands 4 (mkLq 9 (<[3 := map command_msg ex_commands]> ∅)) ex_net (mkMsg 0 []) = UB
  end.
Proof.
  apply (net_commands_refine 4 (mkLq 9 (<[3 := map command_msg ex_commands]> ∅)) ex_net ∅ ex_commands).
  - exact ex_net_streams.
  - repeat constructor; cbn; unfold is_u16; lia.
  - vm_compute. reflexivity.
  - cbn. lia.
Defined.

Example ex_streams_left : rfold spec_command ex_commands ∅ = Ok {[7 := ex_stream 7 512]}.
Proof. vm_compute. reflexivity. Qed.
