(* ===== verification/Simulator.v ===== *)
(** The simulator process (simulator/simulator.h, simulator_config.h, simulator.c,
    sim_childproc.c): its context, the processes it starts and kills, and the
    configuration it sends.

    [forks] are the successive results of [fork] in the parent, [trace] records the
    processes forked and the kill signals sent, oldest first. *)
From S2P Require Import Prelude RingBuffer MsgQueue Net Phy.
From stdpp Require Import base list numbers.
From Stdlib Require Import ZArith Lia.
Open Scope Z_scope.
Open Scope c_scope.

Definition MQ_KEY_MAC_COMMAND : Z := 0x0600.
Definition MQ_KEY_MAC_REPORT : Z := 0x0900.
Definition MAX_DUMMYSTREAM_CONF_NUM : Z := 100.
Definition MAX_SIMLINK_CONF_NUM : Z := 1000.

(** ** Context *)
Record SimNode : Type := mkSimNode {
  mqid_net_command : Z;
  mqid_mac_command : Z;
  mqid_net_report : Z;
  mqid_mac_report : Z;
  mac_pid : Z;
  net_pid : Z
}.
Record SimulatorConfig : Type := mkSimConf {
  active_node : list Z;
  dummystream_conf_num : Z;
  dummy_stream_info : list NetSetDummyTrafficConfig;
  simlink_conf_num : Z;
  linkconfs : list PhyLinkConfig
}.
Record SimulatorServerCtx : Type := mkServer {
  recvq : option RingBuffer;
  sendq : option RingBuffer;
  stop : Z
}.
Record SimulatorCtx : Type := mkSctx {
  server_mode : Z;
  sim_phy_command : Z;
  sim_phy_report : Z;
  phy_pid : Z;
  conf : SimulatorConfig;
  sim_nodes : list SimNode;
  sim_link : list (list PhyLinkConfig);
  server_ctx : SimulatorServerCtx
}.
Definition set_conf (v : SimulatorConfig) (c : SimulatorCtx) : SimulatorCtx :=
  mkSctx (server_mode c) (sim_phy_command c) (sim_phy_report c) (phy_pid c) v (sim_nodes c) (sim_link c)
    (server_ctx c).
Definition set_phy_pid (v : Z) (c : SimulatorCtx) : SimulatorCtx :=
  mkSctx (server_mode c) (sim_phy_command c) (sim_phy_report c) v (conf c) (sim_nodes c) (sim_link c)
    (server_ctx c).
Definition set_sim_nodes (v : list SimNode) (c : SimulatorCtx) : SimulatorCtx :=
  mkSctx (server_mode c) (sim_phy_command c) (sim_phy_report c) (phy_pid c) (conf c) v (sim_link c)
    (server_ctx c).
Definition set_sim_link (v : list (list PhyLinkConfig)) (c : SimulatorCtx) : SimulatorCtx :=
  mkSctx (server_mode c) (sim_phy_command c) (sim_phy_report c) (phy_pid c) (conf c) (sim_nodes c) v
    (server_ctx c).
Definition set_server_ctx (v : SimulatorServerCtx) (c : SimulatorCtx) : SimulatorCtx :=
  mkSctx (server_mode c) (sim_phy_command c) (sim_phy_report c) (phy_pid c) (conf c) (sim_nodes c)
    (sim_link c) v.
Definition set_mac_pid (v : Z) (n : SimNode) : SimNode :=
  mkSimNode (mqid_net_command n) (mqid_mac_command n) (mqid_net_report n) (mqid_mac_report n) v (net_pid n).
Definition set_net_pid (v : Z) (n : SimNode) : SimNode :=
  mkSimNode (mqid_net_command n) (mqid_mac_command n) (mqid_net_report n) (mqid_mac_report n) (mac_pid n) v.

Definition sim_node (c : SimulatorCtx) (nid : Z) : res SimNode :=
  if nid <? 0 then UB else deref (sim_nodes c !! Z.to_nat nid).

(** ** Child processes *)
Inductive binary : Type := SIMNET_BINARY | SIMMAC_BINARY | SIMPHY_BINARY.
Inductive proc_event : Type :=
  | Forked (pid : Z) (bin : binary) (node_id : Z)
  | Killed (pid : Z).

Section Simulator.
Context {Q : Type} `{MsgService Q}.

Record sim_state : Type := mkSim {
  sctx : SimulatorCtx;
  sim_q : Q;
  forks : nat -> Z;
  trace : list proc_event
}.
Definition with_sctx (c : SimulatorCtx) (s : sim_state) : sim_state :=
  mkSim c (sim_q s) (forks s) (trace s).
Definition with_q (q : Q) (s : sim_state) : sim_state := mkSim (sctx s) q (forks s) (trace s).

(** The parent's side: the state and the result of [fork]. *)
Definition execute_simulation_component_binary (s : sim_state) (bin : binary) (node_id : Z)
  : sim_state * Z :=
  let pid := forks s 0%nat in
  (mkSim (sctx s) (sim_q s) (fun n => forks s (S n)) (trace s ++ [Forked pid bin node_id]), pid).
Definition start_net (s : sim_state) (node_id : Z) : sim_state * Z :=
  execute_simulation_component_binary s SIMNET_BINARY node_id.
Definition start_mac (s : sim_state) (node_id : Z) : sim_state * Z :=
  execute_simulation_component_binary s SIMMAC_BINARY node_id.
Definition start_simphy (s : sim_state) : sim_state * Z :=
  execute_simulation_component_binary s SIMPHY_BINARY (-1).

Definition upd_node (f : SimNode -> SimNode) (nid : Z) (s : sim_state) : res sim_state :=
  let* n := sim_node (sctx s) nid in
  Ok (with_sctx (set_sim_nodes (<[Z.to_nat nid := f n]> (sim_nodes (sctx s))) (sctx s)) s).

Definition start_simnode (s : sim_state) (node_id : Z) : res sim_state :=
  let '(s, pid) := start_mac s node_id in
  let* s := upd_node (set_mac_pid pid) node_id s in
  let '(s, pid) := start_net s node_id in
  upd_node (set_net_pid pid) node_id s.

Definition start_phy (s : sim_state) : sim_state :=
  let '(s, pid) := start_simphy s in with_sctx (set_phy_pid pid (sctx s)) s.

Definition kill (s : sim_state) (pid : Z) : sim_state :=
  mkSim (sctx s) (sim_q s) (forks s) (trace s ++ [Killed pid]).

Definition kill_node (s : sim_state) (i : Z) : res sim_state :=
  let* n := sim_node (sctx s) i in
  let* s := if 0 <? net_pid n then upd_node (set_net_pid 0) i (kill s (net_pid n)) else Ok s in
  let* n := sim_node (sctx s) i in
  if 0 <? mac_pid n then upd_node (set_mac_pid 0) i (kill s (mac_pid n)) else Ok s.

Definition simulator_kill_all_process (s : sim_state) : res sim_state :=
  let c := sctx s in
  let s := if 0 <? phy_pid c then with_sctx (set_phy_pid 0 c) (kill s (phy_pid c)) else s in
  rfold kill_node node_ids s.

Definition start_simulate_local (s : sim_state) : res sim_state :=
  rfold (fun s i =>
    let* a := deref (active_node (conf (sctx s)) !! Z.to_nat i) in
    if a =? 1 then start_simnode s i else Ok s) node_ids (start_phy s).

(** ** Configuration messages *)
Definition send_dummystream_config_msgs (s : sim_state) : res sim_state :=
  rfold (fun s i =>
    let* info := deref (dummy_stream_info (conf (sctx s)) !! Z.to_nat i) in
    let* n := sim_node (sctx s) (src_id info) in
    let* r := send_mq (sim_q s) (mqid_net_command n) (enc_dummy_config info) 10
                CONF_MSG_TYPE_NET_SET_DUMMY_TRAFFIC in
    Ok (with_q (fst r) s)) (seqZ 0 (dummystream_conf_num (conf (sctx s)))) s.

Definition send_link_config_msgs (s : sim_state) : res sim_state :=
  rfold (fun s i =>
    let* l := deref (linkconfs (conf (sctx s)) !! Z.to_nat i) in
    let* r := send_mq (sim_q s) (sim_phy_command (sctx s)) (enc_config l) 7 CONF_MSG_TYPE_PHY_LINK_CONFIG in
    Ok (with_q (fst r) s)) (seqZ 0 (simlink_conf_num (conf (sctx s)))) s.

Definition send_config_msgs (s : sim_state) : res sim_state :=
  let* s := send_dummystream_config_msgs s in send_link_config_msgs s.

(** ** Start *)
Definition init_node_queues (fuel : nat) (junk : MqMsgbuf) (st : Q * SimulatorCtx) (nid : Z)
  : res (Q * SimulatorCtx) :=
  let '(q, c) := st in
  let* n := sim_node c nid in
  let net_command := msgget (MQ_KEY_NET_COMMAND + nid) in
  let* q := mq_flush fuel q net_command junk in
  let net_report := msgget (MQ_KEY_NET_REPORT + nid) in
  let* q := mq_flush fuel q net_report junk in
  let mac_command := msgget (MQ_KEY_MAC_COMMAND + nid) in
  let* q := mq_flush fuel q mac_command junk in
  let mac_report := msgget (MQ_KEY_MAC_REPORT + nid) in
  let* q := mq_flush fuel q mac_report junk in
  Ok (q, set_sim_nodes (<[Z.to_nat nid :=
      mkSimNode net_command mac_command net_report mac_report (mac_pid n) (net_pid n)]> (sim_nodes c)) c).

Definition simulator_init_mq (fuel : nat) (q : Q) (c : SimulatorCtx) (junk : MqMsgbuf)
  : res (Q * SimulatorCtx) :=
  let* st := rfold (init_node_queues fuel junk) node_ids (q, c) in
  let '(q, c) := st in
  let phy_command := msgget MQ_KEY_PHY_COMMAND in
  let* q := mq_flush fuel q phy_command junk in
  let phy_report := msgget MQ_KEY_PHY_REPORT in
  let* q := mq_flush fuel q phy_report junk in
  Ok (q, mkSctx (server_mode c) phy_command phy_report (phy_pid c) (conf c) (sim_nodes c) (sim_link c)
           (server_ctx c)).

Definition zero_conf : SimulatorConfig :=
  mkSimConf (replicate (Z.to_nat MAX_NODE_ID) 0) 0
    (replicate (Z.to_nat MAX_DUMMYSTREAM_CONF_NUM) (mkDummy 0 0 0 0 0)) 0
    (replicate (Z.to_nat MAX_SIMLINK_CONF_NUM) (mkPhyLinkConfig 0 0 0 0)).
Definition initial_links : list (list PhyLinkConfig) :=
  map (fun i => map (fun j => mkPhyLinkConfig i j 1 0) node_ids) node_ids.
Definition zero_sctx : SimulatorCtx :=
  mkSctx 0 0 0 0 zero_conf (replicate (Z.to_nat MAX_NODE_ID) (mkSimNode 0 0 0 0 0 0)) initial_links
    (mkServer None None 0).

Definition initialize_simulator_context (fuel : nat) (q : Q) (junk : MqMsgbuf) : res (Q * SimulatorCtx) :=
  simulator_init_mq fuel q zero_sctx junk.

(** A context whose queues are those of the nodes. *)
Record sim_wf (c : SimulatorCtx) : Prop := {
  wf_sim_node : forall n, In n node_ids -> exists mp np, sim_node c n = Ok
    (mkSimNode (msgget (MQ_KEY_NET_COMMAND + n)) (msgget (MQ_KEY_MAC_COMMAND + n))
       (msgget (MQ_KEY_NET_REPORT + n)) (msgget (MQ_KEY_MAC_REPORT + n)) mp np);
  wf_sim_len : zlen (sim_nodes c) = MAX_NODE_ID;
  wf_sim_phy : sim_phy_command c = msgget MQ_KEY_PHY_COMMAND /\ sim_phy_report c = msgget MQ_KEY_PHY_REPORT
}.

(** [parse_config] is a parameter here (SimConfig.v). *)
Definition simulator_start_local (parse_config : SimulatorConfig -> res SimulatorConfig) (s : sim_state)
  : res sim_state :=
  let* cf := parse_config (conf (sctx s)) in
  let* s := start_simulate_local (with_sctx (set_conf cf (sctx s)) s) in
  send_config_msgs s.
End Simulator.

(** A context over the list queues. *)
Definition ex_sctx (mode : Z) (srv : SimulatorServerCtx) : SimulatorCtx :=
  mkSctx mode MQ_KEY_PHY_COMMAND MQ_KEY_PHY_REPORT 0 zero_conf
    (map (fun n => mkSimNode (MQ_KEY_NET_COMMAND + n) (MQ_KEY_MAC_COMMAND + n) (MQ_KEY_NET_REPORT + n)
                     (MQ_KEY_MAC_REPORT + n) 0 0) node_ids)
    initial_links srv.

Lemma lookup_node_ids n : In n node_ids -> node_ids !! Z.to_nat n = Some n.
Proof. intros Hn%in_node_ids. apply lookup_seqZ. unfold MAX_NODE_ID. lia. Qed.

Lemma ex_sctx_wf mode srv : sim_wf (Q := ListQueues) (ex_sctx mode srv).
Proof.
  split; [|done|done]. intros n Hn. exists 0, 0. unfold sim_node. pose proof Hn as Hr. apply in_node_ids in Hr.
  destruct (Z.ltb_spec n 0); [lia|]. unfold ex_sctx. cbn [sim_nodes]. rewrite list_lookup_fmap.
  by rewrite lookup_node_ids.
Qed.
