(* ===== verification/SimConf.v ===== *)
(** The configuration messages of the front end (simulator/sim_remote_conf.c) and
    the configuration file (simulator/simulator_config.c).

    Both are JSON texts; [cJSON_Parse] is the parser they are given to. *)
From S2P Require Import Prelude RingBuffer MsgQueue Net Phy Simulator CJson.
From stdpp Require Import base list numbers.
From Stdlib Require Import ZArith Lia SpecFloat Ascii String.
Open Scope Z_scope.
Open Scope c_scope.

(** The value of a member that is a number. *)
Definition get_int (json : option cJSON) (name : String.string) : option Z :=
  match cJSON_GetObjectItem json (cstr name) with
  | Some i => if cJSON_IsNumber (Some i) then Some (valueint i) else None
  | None => None
  end.

Definition set_stream_info (v : list NetSetDummyTrafficConfig) (c : SimulatorCtx) : SimulatorCtx :=
  let cf := conf c in
  set_conf (mkSimConf (active_node cf) (dummystream_conf_num cf) v (simlink_conf_num cf) (linkconfs cf)) c.

Definition stream_info (c : SimulatorCtx) (i : Z) : res NetSetDummyTrafficConfig :=
  if i <? 0 then UB else deref (dummy_stream_info (conf c) !! Z.to_nat i).

Definition link_entry (c : SimulatorCtx) (n1 n2 : Z) : res PhyLinkConfig :=
  let* row := deref (sim_link c !! Z.to_nat n1) in deref (row !! Z.to_nat n2).
Definition set_link_entry (n1 n2 : Z) (l : PhyLinkConfig) (c : SimulatorCtx) : SimulatorCtx :=
  set_sim_link (alter (fun row => <[Z.to_nat n2 := l]> row) (Z.to_nat n1) (sim_link c)) c.

Definition status_json : list Z :=
  [123] ++ quoted "type" ++ [58] ++ quoted "Status" ++ [44] ++ quoted "status" ++ [58] ++ quoted "OK" ++ [125].

Definition push_sendq (c : SimulatorCtx) (data : list Z) (len : Z) : res SimulatorCtx :=
  let srv := server_ctx c in
  let* rb := deref (sendq srv) in
  let* r := RingBuffer_push rb data len in
  Ok (set_server_ctx (mkServer (recvq srv) (Some (fst r)) (stop srv)) c).

(** A text behind its length, in network order. *)
Definition push_json (c : SimulatorCtx) (json : list Z) : res SimulatorCtx :=
  let jsonlen := htons (strlen json) in
  let* c := push_sendq c (le16 jsonlen) 2 in
  push_sendq c json (strlen json).

Section SimConf.
Context {Q : Type} `{MsgService Q}.
Abbreviation state := (sim_state (Q := Q)).

(** ** Start *)
Definition start_simulate_remote (s : state) (nodenum : Z) : res state :=
  let* s := simulator_kill_all_process s in
  rfold start_simnode (seqZ 0 nodenum) (start_phy s).

Definition handle_start_simulation_msg (s : state) (json : option cJSON) : res state :=
  match get_int json "nodenum" with
  | Some nodenum => start_simulate_remote s nodenum
  | None => Ok s
  end.

(** ** Links: [msg] is not initialised, and keeps the values of the last number *)
Definition link_number (n1 n2 : Z) (linkval : double) (st : state * PhyLinkConfig) : res (state * PhyLinkConfig) :=
  let '(s, _) := st in
  let los := if SFltb (double_of_int 1000) linkval then 0 else 1 in
  let msg := mkPhyLinkConfig (u8 n1) (u8 n2) los 0 in
  let* old := link_entry (sctx s) n1 n2 in
  if negb (conf_los old =? los) || negb (conf_pathloss_x100 old =? 0)
  then Ok (with_sctx (set_link_entry n1 n2 (mkPhyLinkConfig (node_id_1 old) (node_id_2 old) los 0) (sctx s)) s, msg)
  else Ok (s, msg).

Definition handle_link (n1 : Z) (st : state * PhyLinkConfig * Z) (link : cJSON)
  : res (state * PhyLinkConfig * Z) :=
  let '(s, msg, n2) := st in
  let* r := if cJSON_IsNumber (Some link) then link_number n1 n2 (valuedouble link) (s, msg) else Ok (s, msg) in
  let '(s, msg) := r in
  let* r := send_mq (sim_q s) (sim_phy_command (sctx s)) (enc_config msg) 7 CONF_MSG_TYPE_PHY_LINK_CONFIG in
  Ok (with_q (fst r) s, msg, n2 + 1).

Definition handle_link_row (st : state * PhyLinkConfig * Z) (links : cJSON)
  : res (state * PhyLinkConfig * Z) :=
  let '(s, msg, n1) := st in
  let* r := rfold (handle_link n1) (child links) (s, msg, n1 + 1) in
  Ok (fst r, n1 + 1).

Definition handle_link_info_msg (junk : PhyLinkConfig) (s : state) (json : option cJSON) : res state :=
  let type := cJSON_GetObjectItem json (cstr "links") in
  if cJSON_IsArray type then
    let* r := rfold handle_link_row (cJSON_items type) (s, junk, 0) in Ok (fst (fst r))
  else Ok s.

(** ** Dummy traffic: each field of the stored stream is set as soon as it is found *)
Definition store (s : state) (i : Z) (c : NetSetDummyTrafficConfig) : state :=
  with_sctx (set_stream_info (<[Z.to_nat i := c]> (dummy_stream_info (conf (sctx s)))) (sctx s)) s.

Definition handle_start_dummy_traffic (s : state) (json : option cJSON) (is_update : bool) : res state :=
  match get_int json "confId" with
  | None => Ok s
  | Some i =>
    let* m := stream_info (sctx s) i in
    let m := mkDummy (u16 i) (src_id m) (dst_id m) (payload_size m) (interval_ms m) in
    match get_int json "sourceNodeId" with
    | None => Ok (store s i m)
    | Some src =>
      let m := mkDummy (conf_id m) (u16 src) (dst_id m) (payload_size m) (interval_ms m) in
      match get_int json "destinationNodeId" with
      | None => Ok (store s i m)
      | Some dst =>
        let m := mkDummy (conf_id m) (src_id m) (u16 dst) (payload_size m) (interval_ms m) in
        match get_int json "packetSize" with
        | None => Ok (store s i m)
        | Some size =>
          let m := mkDummy (conf_id m) (src_id m) (dst_id m) (u16 size) (interval_ms m) in
          match get_int json "intervalMs" with
          | None => Ok (store s i m)
          | Some ms =>
            let m := mkDummy (conf_id m) (src_id m) (dst_id m) (payload_size m) (u16 ms) in
            let s := store s i m in
            let code := if is_update then CONF_MSG_TYPE_NET_UPDATE_DUMMY_TRAFFIC
                        else CONF_MSG_TYPE_NET_SET_DUMMY_TRAFFIC in
            let* n := sim_node (sctx s) (src_id m) in
            let* r := send_mq (sim_q s) (mqid_net_command n) (enc_dummy_config m) 10 code in
            Ok (with_q (fst r) s)
          end
        end
      end
    end
  end.

Definition handle_stop_dummy_traffic (s : state) (json : option cJSON) : res state :=
  match get_int json "confId" with
  | None => Ok s
  | Some i =>
    let id := u16 i in
    let* info := stream_info (sctx s) id in
    let* n := sim_node (sctx s) (src_id info) in
    let* r := send_mq (sim_q s) (mqid_net_command n) (le16 id) 2 CONF_MSG_TYPE_NET_UNSET_DUMMY_TRAFFIC in
    Ok (with_q (fst r) s)
  end.

(** ** Dispatch *)
Definition send_status (s : state) : res state :=
  let* c := push_json (sctx s) status_json in Ok (with_sctx c s).

Definition dispatch (junk : PhyLinkConfig) (s : state) (json : option cJSON) (typestr : list Z) : res state :=
  if streq typestr (cstr "Status") then send_status s
  else if streq typestr (cstr "Start") then handle_start_simulation_msg s json
  else if streq typestr (cstr "LinkInfo") then handle_link_info_msg junk s json
  else if streq typestr (cstr "NewDummyTrafficConf") then Ok s
  else if streq typestr (cstr "DeleteDummyTrafficConf") then handle_stop_dummy_traffic s json
  else if streq typestr (cstr "UpdateDummyTrafficConf") then handle_start_dummy_traffic s json true
  else if streq typestr (cstr "StartDummyTraffic") then handle_start_dummy_traffic s json false
  else if streq typestr (cstr "StopDummyTraffic") then handle_stop_dummy_traffic s json
  else Ok s.

Context (cJSON_Parse : list Z -> res (option cJSON)).

Definition handle_remote_conf_msg (junk : PhyLinkConfig) (s : state) (jsonstr : list Z) : res state :=
  let* json := cJSON_Parse jsonstr in
  match cJSON_GetObjectItem json (cstr "type") with
  | None => Ok s
  | Some type =>
    if cJSON_IsString (Some type) then
      let* typestr := deref (valuestring type) in dispatch junk s json typestr
    else Ok s
  end.
End SimConf.
