(* ===== verification/SimProc.v ===== *)
(** The processes the simulator starts: which run, and that none is lost. *)
From S2P Require Import Prelude MsgQueue Net Phy Simulator CJson SimConf.
From Stdlib Require Import Ascii String.
From stdpp Require Import base list numbers gmap.
From Stdlib Require Import List ZArith Lia Permutation SpecFloat.
Open Scope Z_scope.
Open Scope c_scope.

(** ** The processes that run after a trace *)
Fixpoint remove_one (p : Z) (l : list Z) : list Z :=
  match l with
  | [] => []
  | x :: l' => if x =? p then l' else x :: remove_one p l'
  end.
Definition after_event (l : list Z) (e : proc_event) : list Z :=
  match e with
  | Forked pid _ _ => if 0 <? pid then l ++ [pid] else l
  | Killed pid => remove_one pid l
  end.
Definition running (t : list proc_event) : list Z := fold_left after_event t [].

(** The processes the context knows. *)
Definition pid_list (pid : Z) : list Z := if 0 <? pid then [pid] else [].
Definition node_pids (n : SimNode) : list Z := pid_list (net_pid n) ++ pid_list (mac_pid n).
Definition recorded (c : SimulatorCtx) : list Z :=
  pid_list (phy_pid c) ++ concat (map node_pids (sim_nodes c)).

(** ** What the operations leave behind *)
Definition stopped (pid : Z) : Z := if 0 <? pid then 0 else pid.
Definition stopped_node (n : SimNode) : SimNode := set_mac_pid (stopped (mac_pid n)) (set_net_pid (stopped (net_pid n)) n).
Fixpoint started_nodes (f : nat -> Z) (l : list SimNode) : list SimNode :=
  match l with
  | [] => []
  | n :: l' => set_net_pid (f 1%nat) (set_mac_pid (f 0%nat) n) :: started_nodes (fun k => f (2 + k)%nat) l'
  end.
Fixpoint node_starts (f : nat -> Z) (i : Z) (k : nat) : list proc_event :=
  match k with
  | O => []
  | S k' => Forked (f 0%nat) SIMMAC_BINARY i :: Forked (f 1%nat) SIMNET_BINARY i ::
            node_starts (fun j => f (2 + j)%nat) (i + 1) k'
  end.
Definition starts (f : nat -> Z) (nodenum : nat) : list proc_event :=
  Forked (f 0%nat) SIMPHY_BINARY (-1) :: node_starts (fun j => f (S j)) 0 nodenum.

Fixpoint skip_forks (f : nat -> Z) (k : nat) : nat -> Z :=
  match k with O => f | S k' => skip_forks (fun j => f (2 + j)%nat) k' end.

Section SimProc.
Context {Q : Type} `{MsgService Q}.
Abbreviation state := (sim_state (Q := Q)).

Lemma sim_node_at (c : SimulatorCtx) pre n post : sim_nodes c = pre ++ n :: post -> sim_node c (zlen pre) = Ok n.
Proof.
  intros E. unfold sim_node, zlen. destruct (Z.ltb_spec (Z.of_nat (length pre)) 0); [lia|].
  by rewrite E, Nat2Z.id, list_lookup_middle.
Qed.

Lemma upd_node_at f (s : state) pre n post : sim_nodes (sctx s) = pre ++ n :: post ->
  upd_node f (zlen pre) s = Ok (with_sctx (set_sim_nodes (pre ++ f n :: post) (sctx s)) s).
Proof.
  intros E. unfold upd_node. rewrite (sim_node_at _ pre n post E). cbn [rbind]. do 3 f_equal.
  unfold zlen. rewrite E, Nat2Z.id. by rewrite insert_app_r_alt, Nat.sub_diag by lia.
Qed.

(** The state with other nodes and a longer trace. *)
Definition moved (s : state) (nodes : list SimNode) (f : nat -> Z) (t : list proc_event) : state :=
  mkSim (set_sim_nodes nodes (sctx s)) (sim_q s) f (trace s ++ t).

Lemma kill_node_at (s : state) pre n post : sim_nodes (sctx s) = pre ++ n :: post ->
  kill_node s (zlen pre) = Ok (moved s (pre ++ stopped_node n :: post) (forks s) (map Killed (node_pids n))).
Proof.
  intros E. unfold kill_node. rewrite (sim_node_at _ pre n post E). cbn [rbind].
  assert (E1 : (if 0 <? net_pid n then upd_node (set_net_pid 0) (zlen pre) (kill s (net_pid n)) else Ok s) =
    Ok (moved s (pre ++ set_net_pid (stopped (net_pid n)) n :: post) (forks s) (map Killed (pid_list (net_pid n))))).
  { unfold stopped, pid_list. destruct (0 <? net_pid n).
    - rewrite (upd_node_at _ _ pre n post) by done. done.
    - unfold moved. cbn. rewrite app_nil_r. replace (set_net_pid (net_pid n) n) with n by (by destruct n).
      rewrite <- E. by destruct s as [[] ? ? ?]. }
  rewrite E1. cbn [rbind]. set (n1 := set_net_pid (stopped (net_pid n)) n).
  set (s1 := moved s (pre ++ n1 :: post) _ _).
  rewrite (sim_node_at (sctx s1) pre n1 post) by done. cbn [rbind].
  unfold stopped_node, node_pids. rewrite map_app. unfold stopped at 1. unfold pid_list at 2.
  change (mac_pid n1) with (mac_pid n). destruct (0 <? mac_pid n).
  - rewrite (upd_node_at _ _ pre n1 post) by done. unfold moved, kill, s1. cbn. by rewrite <- app_assoc.
  - unfold s1. cbn. rewrite app_nil_r. replace (set_mac_pid (mac_pid n) n1) with n1 by (by destruct n). done.
Qed.

Lemma kill_nodes_ok post : forall (s : state) pre, sim_nodes (sctx s) = pre ++ post ->
  rfold kill_node (seqZ (zlen pre) (zlen post)) s =
  Ok (moved s (pre ++ map stopped_node post) (forks s) (map Killed (concat (map node_pids post)))).
Proof.
  induction post as [|n post IH]; intros s pre E.
  - cbn. rewrite !app_nil_r in *. unfold moved. rewrite app_nil_r, <- E. by destruct s as [[] ? ? ?].
  - pose proof (zlen_nonneg post). rewrite seqZ_cons by (rewrite zlen_cons; lia). cbn [rfold].
    rewrite (kill_node_at s pre n post E). cbn [rbind].
    replace (Z.succ (zlen pre)) with (zlen (pre ++ [stopped_node n])) by (rewrite zlen_app, zlen_cons, zlen_nil; lia).
    replace (Z.pred (zlen (n :: post))) with (zlen post) by (rewrite zlen_cons; lia).
    rewrite IH by (cbn; by rewrite <- app_assoc). unfold moved. cbn.
    by rewrite <- !app_assoc, map_app.
Qed.

Lemma start_node_at (s : state) pre n post : sim_nodes (sctx s) = pre ++ n :: post ->
  start_simnode s (zlen pre) =
  Ok (moved s (pre ++ started_nodes (forks s) [n] ++ post) (fun k => forks s (2 + k)%nat)
        (node_starts (forks s) (zlen pre) 1)).
Proof.
  intros E. unfold start_simnode, start_mac, start_net, execute_simulation_component_binary.
  rewrite (upd_node_at _ _ pre n post) by done. cbn [rbind].
  rewrite (upd_node_at _ _ pre (set_mac_pid (forks s 0%nat) n) post) by done.
  unfold moved. cbn. by rewrite <- app_assoc.
Qed.

Lemma start_nodes_ok k : forall (s : state) pre post rest, length post = k -> sim_nodes (sctx s) = pre ++ post ++ rest ->
  rfold start_simnode (seqZ (zlen pre) (Z.of_nat k)) s =
  Ok (moved s (pre ++ started_nodes (forks s) post ++ rest) (skip_forks (forks s) k)
        (node_starts (forks s) (zlen pre) k)).
Proof.
  induction k as [|k IH]; intros s pre post rest Hk E.
  - destruct post; [|done]. cbn in E |- *. unfold moved. rewrite app_nil_r, <- E. by destruct s as [[] ? ? ?].
  - destruct post as [|n post]; [done|]. cbn in Hk. rewrite seqZ_cons by lia. cbn [rfold].
    rewrite (start_node_at s pre n (post ++ rest) E). cbn [rbind].
    replace (Z.succ (zlen pre)) with (zlen (pre ++ started_nodes (forks s) [n]))
      by (unfold zlen; rewrite length_app; cbn [length started_nodes]; lia).
    replace (Z.pred (Z.of_nat (S k))) with (Z.of_nat k) by lia.
    rewrite (IH _ _ post rest) by (lia || (cbn; by rewrite <- !app_assoc)).
    unfold moved. cbn. rewrite <- !app_assoc. cbn. repeat f_equal. unfold zlen. rewrite length_app. cbn. lia.
Qed.

(** ** Killing and starting all of them *)
Definition all_stopped (c : SimulatorCtx) : SimulatorCtx :=
  set_sim_nodes (map stopped_node (sim_nodes c)) (set_phy_pid (stopped (phy_pid c)) c).

Lemma kill_all_ok (s : state) : zlen (sim_nodes (sctx s)) = MAX_NODE_ID ->
  simulator_kill_all_process s =
  Ok (mkSim (all_stopped (sctx s)) (sim_q s) (forks s) (trace s ++ map Killed (recorded (sctx s)))).
Proof.
  intros Hl. unfold simulator_kill_all_process, recorded, pid_list at 1, all_stopped, stopped.
  assert (Ek : forall s1 : state, sim_nodes (sctx s1) = sim_nodes (sctx s) -> rfold kill_node node_ids s1 =
    Ok (moved s1 (map stopped_node (sim_nodes (sctx s))) (forks s1) (map Killed (concat (map node_pids (sim_nodes (sctx s))))))).
  { intros s1 E. unfold node_ids. rewrite <- Hl. exact (kill_nodes_ok (sim_nodes (sctx s)) s1 [] E). }
  destruct (0 <? phy_pid (sctx s)); rewrite Ek by done; unfold moved; cbn; [by rewrite <- app_assoc|].
  by destruct s as [[] ? ? ?].
Qed.

Definition restarted (f : nat -> Z) (n : nat) (c : SimulatorCtx) : SimulatorCtx :=
  let nodes := sim_nodes (all_stopped c) in
  set_sim_nodes (started_nodes (fun k => f (S k)) (take n nodes) ++ drop n nodes)
    (set_phy_pid (f 0%nat) (all_stopped c)).

Lemma start_remote_ok (s : state) n : zlen (sim_nodes (sctx s)) = MAX_NODE_ID -> n <= MAX_NODE_ID ->
  start_simulate_remote s n =
  Ok (mkSim (restarted (forks s) (Z.to_nat n) (sctx s)) (sim_q s) (skip_forks (fun k => forks s (S k)) (Z.to_nat n))
        (trace s ++ map Killed (recorded (sctx s)) ++ starts (forks s) (Z.to_nat n))).
Proof.
  intros Hl Hn. unfold start_simulate_remote. rewrite kill_all_ok by done. cbn [rbind].
  set (k := Z.to_nat n). set (nodes := sim_nodes (all_stopped (sctx s))).
  assert (Es : forall s1 : state, sim_nodes (sctx s1) = nodes -> rfold start_simnode (seqZ 0 n) s1 =
    Ok (moved s1 (started_nodes (forks s1) (take k nodes) ++ drop k nodes) (skip_forks (forks s1) k)
          (node_starts (forks s1) 0 k))).
  { intros s1 E. replace (seqZ 0 n) with (seqZ 0 (Z.of_nat k)) by (unfold seqZ; do 2 f_equal; lia).
    refine (start_nodes_ok k s1 [] (take k nodes) (drop k nodes) _ _); [|by rewrite take_drop].
    rewrite length_take. unfold nodes. cbn. rewrite length_map. unfold zlen, MAX_NODE_ID in *. lia. }
  rewrite Es by done. unfold moved, restarted, starts. cbn. by rewrite <- !app_assoc.
Qed.

(** ** Processes and records agree *)
Definition tracked (s : state) : Prop := Permutation (running (trace s)) (recorded (sctx s)).

Lemma running_app t1 t2 : running (t1 ++ t2) = fold_left after_event t2 (running t1).
Proof. unfold running. by rewrite fold_left_app. Qed.

Lemma remove_one_perm p l : In p l -> Permutation l (p :: remove_one p l).
Proof.
  induction l as [|x l IH]; [done|]. intros Hin. cbn. destruct (Z.eqb_spec x p) as [->|Hne]; [done|].
  destruct Hin as [->|Hin]; [done|]. rewrite perm_swap. constructor. by apply IH.
Qed.

Lemma killed_perm l : forall run rest, Permutation run (l ++ rest) ->
  Permutation (fold_left after_event (map Killed l) run) rest.
Proof.
  induction l as [|p l IH]; intros run rest Hp; [done|]. cbn. apply IH.
  assert (Hin : In p run) by (eapply Permutation_in; [symmetry; exact Hp|by left]).
  apply remove_one_perm in Hin. rewrite Hin in Hp. cbn in Hp. by apply Permutation_cons_inv in Hp.
Qed.

Lemma forked_perm pid b i l run : Permutation run l ->
  Permutation (after_event run (Forked pid b i)) (l ++ pid_list pid).
Proof.
  intros Hp. cbn. unfold pid_list. destruct (0 <? pid); [|by rewrite app_nil_r]. by rewrite Hp.
Qed.

Lemma recorded_stopped c : recorded (all_stopped c) = [].
Proof.
  assert (Hs : forall p, pid_list (stopped p) = []).
  { intros p. unfold pid_list, stopped. destruct (0 <? p) eqn:E; [done|by rewrite E]. }
  unfold recorded, all_stopped. cbn. rewrite Hs. cbn. induction (sim_nodes c) as [|n l IH]; [done|].
  cbn. unfold node_pids at 1. cbn. by rewrite !Hs.
Qed.

Lemma started_perm nodes : forall f i run rest, Permutation run rest ->
  Permutation (fold_left after_event (node_starts f i (length nodes)) run)
    (rest ++ concat (map node_pids (started_nodes f nodes))).
Proof.
  induction nodes as [|n nodes IH]; intros f i run rest Hp; [cbn; by rewrite app_nil_r|].
  cbn [length node_starts fold_left started_nodes map concat]. unfold node_pids at 1. cbn [net_pid mac_pid set_net_pid set_mac_pid].
  rewrite (IH _ _ _ (rest ++ (pid_list (f 1%nat) ++ pid_list (f 0%nat)))).
  - by rewrite <- !app_assoc.
  - rewrite (forked_perm _ _ _ (rest ++ pid_list (f 0%nat))); [|by apply forked_perm].
    rewrite <- app_assoc. apply Permutation_app_head, Permutation_app_comm.
Qed.

Lemma start_remote_tracked (s : state) n s' : zlen (sim_nodes (sctx s)) = MAX_NODE_ID -> n <= MAX_NODE_ID ->
  tracked s -> start_simulate_remote s n = Ok s' -> tracked s'.
Proof.
  intros Hl Hn Ht. rewrite start_remote_ok by done. intros [= <-]. unfold tracked. cbn [trace sctx].
  rewrite running_app, fold_left_app.
  assert (Hk : Permutation (fold_left after_event (map Killed (recorded (sctx s))) (running (trace s))) [])
    by (apply killed_perm; by rewrite app_nil_r).
  apply Permutation_sym, Permutation_nil in Hk. rewrite Hk.
  set (nodes := take (Z.to_nat n) (sim_nodes (all_stopped (sctx s)))).
  assert (El : Z.to_nat n = length nodes).
  { unfold nodes. rewrite length_take. cbn. rewrite length_map. unfold zlen, MAX_NODE_ID in *. lia. }
  pose proof (started_perm nodes (fun j => forks s (S j)) 0 _ _
    (forked_perm (forks s 0%nat) SIMPHY_BINARY (-1) [] [] (perm_nil _))) as Hp.
  rewrite <- El in Hp. rewrite Hp.
  unfold recorded, restarted. cbn [phy_pid set_sim_nodes set_phy_pid sim_nodes]. fold nodes.
  rewrite map_app, concat_app. apply Permutation_app_head.
  assert (Hd : forall k, concat (map node_pids (drop k (sim_nodes (all_stopped (sctx s))))) = []).
  { intros k. pose proof (recorded_stopped (sctx s)) as Hr. unfold recorded in Hr. apply app_eq_nil in Hr as [_ Hr].
    rewrite <- (take_drop k (sim_nodes _)), map_app, concat_app in Hr. by apply app_eq_nil in Hr as [_ Hr]. }
  by rewrite Hd, app_nil_r.
Qed.

(** A node id beyond the table. *)
Lemma start_simnode_ub (s : state) i : zlen (sim_nodes (sctx s)) <= i -> start_simnode s i = UB.
Proof.
  intros Hi. unfold zlen in Hi. unfold start_simnode, start_mac, execute_simulation_component_binary, upd_node, sim_node.
  cbn [sctx]. destruct (Z.ltb_spec i 0); [done|]. by rewrite lookup_ge_None_2 by lia.
Qed.

Lemma zlen_started l : forall f, zlen (started_nodes f l) = zlen l.
Proof. unfold zlen. induction l as [|x l IH]; intros f; cbn; [done|]. specialize (IH (fun k => f (2 + k)%nat)). cbn [Nat.add] in IH. lia. Qed.

Lemma zlen_restarted f n c : zlen (sim_nodes (restarted f n c)) = zlen (sim_nodes c).
Proof.
  unfold restarted. cbn [sim_nodes set_sim_nodes]. rewrite zlen_app, zlen_started, <- zlen_app, take_drop.
  unfold all_stopped, zlen. cbn [sim_nodes set_sim_nodes]. by rewrite length_map.
Qed.

Lemma rfold_ub {A B} (f : A -> B -> res A) l1 b l2 a a1 : rfold f l1 a = Ok a1 -> f a1 b = UB ->
  rfold f (l1 ++ b :: l2) a = UB.
Proof. intros E1 E2. rewrite rfold_app, E1. cbn. by rewrite E2. Qed.

Lemma start_remote_ub (s : state) n : zlen (sim_nodes (sctx s)) = MAX_NODE_ID -> MAX_NODE_ID < n ->
  start_simulate_remote s n = UB.
Proof.
  intros Hl Hn. pose proof (start_remote_ok s MAX_NODE_ID Hl (Z.le_refl _)) as E.
  unfold start_simulate_remote in E |- *. apply rbind_ok in E as (s1 & -> & E).
  assert (Eseq : seqZ 0 n = seqZ 0 MAX_NODE_ID ++ MAX_NODE_ID :: seqZ (MAX_NODE_ID + 1) (n - MAX_NODE_ID - 1)).
  { replace n with (MAX_NODE_ID + (n - MAX_NODE_ID)) at 1 by lia.
    rewrite seqZ_app by (unfold MAX_NODE_ID in *; lia). f_equal. rewrite seqZ_cons by lia.
    by replace (0 + MAX_NODE_ID) with MAX_NODE_ID by lia. }
  cbn [rbind]. rewrite Eseq. eapply rfold_ub; [exact E|]. apply start_simnode_ub.
  cbn [sctx]. by rewrite zlen_restarted, Hl.
Qed.

(** ** The other messages leave the processes alone *)
Definition same_procs (s s' : state) : Prop :=
  trace s' = trace s /\ phy_pid (sctx s') = phy_pid (sctx s) /\ sim_nodes (sctx s') = sim_nodes (sctx s).

Lemma same_procs_trans s1 s2 s3 : same_procs s1 s2 -> same_procs s2 s3 -> same_procs s1 s3.
Proof. unfold same_procs. intuition congruence. Qed.

Lemma rfold_keeps {A B} (P : A -> Prop) (f : A -> B -> res A) l : 
  (forall a b a', P a -> f a b = Ok a' -> P a') -> forall a a', P a -> rfold f l a = Ok a' -> P a'.
Proof.
  intros Hf. induction l as [|b l IH]; intros a a' Ha; cbn; [by intros [= <-]|].
  destruct (f a b) as [a1| | |] eqn:E; [|done..]. cbn. apply IH. by apply (Hf a b).
Qed.

Lemma send_same (s s' : state) id data len mtype :
  (let* r := send_mq (sim_q s) id data len mtype in Ok (with_q (fst r) s)) = Ok s' -> same_procs s s'.
Proof. destruct (send_mq _ _ _ _ _) as [r| | |]; [|done..]. by intros [= <-]. Qed.

Definition same_pids (c c' : SimulatorCtx) : Prop := phy_pid c' = phy_pid c /\ sim_nodes c' = sim_nodes c.

Lemma push_same c data len c' : push_sendq c data len = Ok c' -> same_pids c c'.
Proof.
  unfold push_sendq. destruct (sendq (server_ctx c)) as [rb|]; [|done]. cbn [deref rbind].
  destruct (RingBuffer.RingBuffer_push rb data len) as [r| | |]; [|done..]. by intros [= <-].
Qed.

Lemma push_json_same c json c' : push_json c json = Ok c' -> same_pids c c'.
Proof.
  unfold push_json. cbv zeta. intros E. apply rbind_ok in E as (c1 & E1%push_same & E2%push_same).
  unfold same_pids in *. intuition congruence.
Qed.

Lemma send_status_same s s' : send_status s = Ok s' -> same_procs s s'.
Proof.
  unfold send_status. intros (c & Hc%push_json_same & E)%rbind_ok. injection E as <-.
  by destruct Hc.
Qed.

Lemma link_info_same junk s json s' : handle_link_info_msg junk s json = Ok s' -> same_procs s s'.
Proof.
  unfold handle_link_info_msg. destruct (cJSON_IsArray _); [|by intros [= <-]].
  destruct (rfold _ _ _) as [r| | |] eqn:E; [|done..]. intros [= <-].
  apply (rfold_keeps (fun st => same_procs s (fst (fst st)))) in E; [done| |done]. clear E r.
  intros [[s1 msg] n1] row [[s2 msg2] n2] Hs1 E. unfold handle_link_row in E.
  destruct (rfold _ _ _) as [r| | |] eqn:Er; [|done..]. cbn [rbind] in E. injection E as E1 _.
  apply (rfold_keeps (fun st => same_procs s (fst (fst st)))) in Er; [by rewrite <- E1; destruct r as [[? ?] ?]| |done].
  clear E1 Er r s2 msg2 n2. intros [[s2 m2] n2] l [[s3 m3] n3] Hs2 E. unfold handle_link in E.
  destruct (if cJSON_IsNumber (Some l) then _ else _) as [[s4 m4]| | |] eqn:El; [|done..]. cbn [rbind] in E.
  destruct (send_mq _ _ _ _ _) as [r| | |]; [|done..]. cbn in E. injection E as <- _ _. cbn.
  eapply same_procs_trans; [exact Hs2|]. destruct (cJSON_IsNumber _); [|by injection El as <- _].
  unfold link_number in El. destruct (link_entry _ _ _) as [old| | |]; [|done..]. cbn in El.
  destruct (_ || _); by injection El as <- _.
Qed.

Lemma start_dummy_same s json upd s' : handle_start_dummy_traffic s json upd = Ok s' -> same_procs s s'.
Proof.
  unfold handle_start_dummy_traffic. intros E.
  repeat match type of E with
  | (match get_int ?j ?n with _ => _ end) = _ => destruct (get_int j n); [|by injection E as <-]
  | (let* _ := stream_info ?c ?i in _) = _ => destruct (stream_info c i); [cbn [rbind] in E|done..]
  end.
  cbv zeta in E. destruct (sim_node _ _) as [n| | |]; [|done..]. cbn [rbind] in E. by apply send_same in E.
Qed.

Lemma stop_dummy_same s json s' : handle_stop_dummy_traffic s json = Ok s' -> same_procs s s'.
Proof.
  unfold handle_stop_dummy_traffic. destruct (get_int _ _); [|by intros [= <-]]. cbv zeta.
  destruct (stream_info _ _); [|done..]. cbn [rbind]. destruct (sim_node _ _); [|done..]. cbn [rbind].
  apply send_same.
Qed.

Lemma tracked_same s s' : same_procs s s' -> tracked s -> tracked s'.
Proof. intros (E1 & E2 & E3). unfold tracked, recorded. by rewrite E1, E2, E3. Qed.

Definition tracked_ctx (s : state) : Prop := tracked s /\ zlen (sim_nodes (sctx s)) = MAX_NODE_ID.

Lemma start_keeps s n s' : tracked_ctx s -> start_simulate_remote s n = Ok s' -> tracked_ctx s'.
Proof.
  intros [Ht Hl] E. destruct (Z.le_gt_cases n MAX_NODE_ID) as [Hn|Hn]; [|by rewrite start_remote_ub in E].
  split; [by eapply start_remote_tracked|]. rewrite start_remote_ok in E by done. injection E as <-.
  cbn [sctx]. by rewrite zlen_restarted.
Qed.

Lemma conf_msg_keeps parse junk s m s' : tracked_ctx s -> handle_remote_conf_msg parse junk s m = Ok s' ->
  tracked_ctx s'.
Proof.
  intros Hs. unfold handle_remote_conf_msg. destruct (parse m) as [json| | |]; [|done..]. cbn [rbind].
  destruct (cJSON_GetObjectItem json _) as [ty|]; [|by intros [= <-]].
  destruct (cJSON_IsString _); [|by intros [= <-]]. destruct (valuestring ty) as [t|]; [|done]. cbn [deref rbind].
  assert (Hsame : forall s', same_procs s s' -> tracked_ctx s').
  { intros s1 Hp. destruct Hs as [Ht Hl]. split; [by eapply tracked_same|]. by destruct Hp as (_ & _ & ->). }
  unfold dispatch. repeat match goal with |- context [streq ?a ?b] => destruct (streq a b) end;
    intros E; try (injection E as <-; done).
  - by apply Hsame, send_status_same.
  - unfold handle_start_simulation_msg in E. destruct (get_int _ _) as [n|]; [|by injection E as <-].
    by eapply start_keeps.
  - by eapply Hsame, link_info_same.
  - by eapply Hsame, stop_dummy_same.
  - by eapply Hsame, start_dummy_same.
  - by eapply Hsame, start_dummy_same.
  - by eapply Hsame, stop_dummy_same.
Qed.


Lemma started_lookup l : forall f i, started_nodes f l !! i =
  (fun n => set_net_pid (f (2 * i + 1)%nat) (set_mac_pid (f (2 * i)%nat) n)) <$> l !! i.
Proof.
  induction l as [|n l IH]; intros f [|i]; [done..|]. cbn [started_nodes lookup list_lookup]. 
  change (list_lookup i (started_nodes _ l)) with (started_nodes (fun k => f (2 + k)%nat) l !! i).
  rewrite IH. change (list_lookup i l) with (l !! i).
  replace (2 * S i + 1)%nat with (2 + (2 * i + 1))%nat by lia. by replace (2 * S i)%nat with (2 + 2 * i)%nat by lia.
Qed.

(** The Start message restarts the simulation.  With a number of nodes the table
    has room for, every recorded process is killed first (the radio, then of each
    node the network and the MAC process), then the radio process and for each node
    its MAC and its network process are started, in this order, with the node's id;
    each node's entry records the two processes just started for it and the other
    entries none.  The queues are not touched.  A greater number leaves the table,
    after processes were started. *)
Theorem start_simulation (s : state) (n : Z) (Hl : zlen (sim_nodes (sctx s)) = MAX_NODE_ID) :
  if n <=? MAX_NODE_ID then
    exists s', start_simulate_remote s n = Ok s' /\ sim_q s' = sim_q s /\
      trace s' = trace s ++ map Killed (recorded (sctx s)) ++ starts (forks s) (Z.to_nat n) /\
      phy_pid (sctx s') = forks s 0%nat /\
      forall i node, sim_nodes (sctx s) !! i = Some node ->
        exists node', sim_nodes (sctx s') !! i = Some node' /\ mqid_net_command node' = mqid_net_command node /\
          if (i <? Z.to_nat n)%nat then mac_pid node' = forks s (2 * i + 1)%nat /\ net_pid node' = forks s (2 * i + 2)%nat
          else node_pids node' = []
  else start_simulate_remote s n = UB.
Proof.
  destruct (Z.leb_spec n MAX_NODE_ID) as [Hn|Hn]; [|by apply start_remote_ub].
  rewrite start_remote_ok by done. eexists. split; [reflexivity|]. do 3 (split; [done|]).
  intros i node Hi. unfold restarted. cbn [sctx sim_nodes set_sim_nodes].
  set (nodes := sim_nodes (all_stopped (sctx s))).
  assert (Hi' : nodes !! i = Some (stopped_node node)).
  { unfold nodes, all_stopped. cbn [sim_nodes set_sim_nodes]. by rewrite list_lookup_fmap, Hi. }
  assert (Hlen : length (started_nodes (fun k => forks s (S k)) (take (Z.to_nat n) nodes)) = Nat.min (Z.to_nat n) (length nodes)).
  { apply Nat2Z.inj. fold (zlen (started_nodes (fun k => forks s (S k)) (take (Z.to_nat n) nodes))).
    rewrite zlen_started. unfold zlen. by rewrite length_take. }
  pose proof (lookup_lt_Some _ _ _ Hi') as Hlt. destruct (Nat.ltb_spec i (Z.to_nat n)) as [Hin|Hin].
  - rewrite lookup_app_l, started_lookup, lookup_take_lt, Hi' by lia. eexists. split; [reflexivity|].
    cbn -[Nat.mul]. split; [done|]. split; f_equal; lia.
  - rewrite lookup_app_r, Hlen, lookup_drop by lia.
    replace (Z.to_nat n + (i - Nat.min (Z.to_nat n) (length nodes)))%nat with i by lia. rewrite Hi'.
    eexists. split; [reflexivity|]. split; [done|]. unfold node_pids, pid_list, stopped_node, stopped. cbn.
    destruct (0 <? net_pid node) eqn:E1, (0 <? mac_pid node) eqn:E2; cbn; by rewrite ?E1, ?E2.
Qed.
End SimProc.

(** ** Runs *)
Definition ex_sim : sim_state (Q := ListQueues) := mkSim zero_sctx (mkLq 5 ∅) (fun n => 100 + Z.of_nat n) [].
Definition ex_restart : sim_state (Q := ListQueues) :=
  match start_simulate_remote ex_sim 2 with Ok s => s | _ => ex_sim end.

Example ex_two_starts :
  (let* s := start_simulate_remote ex_sim 2 in let* s := start_simulate_remote s 1 in
   Ok (trace s, running (trace s))) =
  Ok ([Forked 100 SIMPHY_BINARY (-1); Forked 101 SIMMAC_BINARY 0; Forked 102 SIMNET_BINARY 0;
       Forked 103 SIMMAC_BINARY 1; Forked 104 SIMNET_BINARY 1;
       Killed 100; Killed 102; Killed 101; Killed 104; Killed 103;
       Forked 105 SIMPHY_BINARY (-1); Forked 106 SIMMAC_BINARY 0; Forked 107 SIMNET_BINARY 0], [105; 106; 107]).
Proof. vm_compute. reflexivity. Qed.

Lemma start_simulation_witness :
  if 2 <=? MAX_NODE_ID then
    exists s', start_simulate_remote ex_sim 2 = Ok s' /\ sim_q s' = sim_q ex_sim /\
      trace s' = [] ++ map Killed (recorded (sctx ex_sim)) ++ starts (forks ex_sim) 2 /\
      phy_pid (sctx s') = 100 /\
      forall i node, sim_nodes (sctx ex_sim) !! i = Some node ->
        exists node', sim_nodes (sctx s') !! i = Some node' /\ mqid_net_command node' = mqid_net_command node /\
          if (i <? 2)%nat then mac_pid node' = forks ex_sim (2 * i + 1)%nat /\ net_pid node' = forks ex_sim (2 * i + 2)%nat
          else node_pids node' = []
  else start_simulate_remote ex_sim 2 = UB.
Proof. apply (start_simulation ex_sim 2). reflexivity. Defined.

(** A start message in place of a parser. *)
Definition ex_start (n : Z) : cJSON :=
  mkItem [mkItem [] cJSON_String (Some (cstr "Start")) 0 (S754_zero false) (Some (cstr "type")); ex_number "nodenum" n]
    cJSON_Object None 0 (S754_zero false) None.
Definition ex_started : sim_state (Q := ListQueues) :=
  match rfold (handle_remote_conf_msg (fun b => Ok (Some (ex_start (zlen b)))) (mkPhyLinkConfig 0 0 0 0)) [[1; 1]; [1]] ex_sim with
  | Ok s => s
  | _ => ex_sim
  end.

