(* ===== verification/SimCommands.v ===== *)
(** What the messages of the front end do in the other processes: the traffic
    messages become the commands of the nodes, the link matrix becomes the link
    table of the radio simulator. *)
From S2P Require Import Prelude MsgQueue Net Phy NetStreams Simulator CJson SimConf.
From Stdlib Require Import Ascii String.
From stdpp Require Import base list numbers gmap.
From Stdlib Require Import List ZArith Lia SpecFloat.
Open Scope Z_scope.
Open Scope c_scope.

(** ** Traffic messages *)
Inductive traffic : Type :=
  | Start (c : NetSetDummyTrafficConfig)
  | Update (c : NetSetDummyTrafficConfig)
  | Stop (id : Z).

(** The JSON value carries the message: its members are numbers with these values. *)
Record carries_stream (json : option cJSON) (c : NetSetDummyTrafficConfig) : Prop := {
  car_id : get_int json "confId" = Some (conf_id c);
  car_src : get_int json "sourceNodeId" = Some (src_id c);
  car_dst : get_int json "destinationNodeId" = Some (dst_id c);
  car_size : get_int json "packetSize" = Some (payload_size c);
  car_interval : get_int json "intervalMs" = Some (interval_ms c)
}.
Definition carries (json : option cJSON) (t : traffic) : Prop :=
  match t with
  | Start c | Update c => carries_stream json c
  | Stop id => get_int json "confId" = Some id
  end.

(** A stream has an id in the simulator's table and starts at a node. *)
Record stream_ok (c : NetSetDummyTrafficConfig) : Prop := {
  sok_u16 : config_u16 c;
  sok_id : conf_id c < MAX_DUMMYSTREAM_CONF_NUM;
  sok_src : In (src_id c) node_ids
}.
Definition traffic_ok (t : traffic) : Prop :=
  match t with Start c | Update c => stream_ok c | Stop id => 0 <= id < MAX_DUMMYSTREAM_CONF_NUM end.

Definition traffic_id (t : traffic) : Z := match t with Start c | Update c => conf_id c | Stop id => id end.

(** The node a message is for: that of the stream, or of the stream last stored under
    its id; [src] is the source of each stored stream. *)
Definition target (src : Z -> Z) (t : traffic) : Z :=
  match t with Start c | Update c => src_id c | Stop id => src id end.
Definition to_command (t : traffic) : command :=
  match t with Start c => CmdSet c | Update c => CmdUpdate c | Stop id => CmdUnset id end.
Definition new_src (src : Z -> Z) (t : traffic) : Z -> Z :=
  match t with
  | Start c | Update c => fun i => if i =? conf_id c then src_id c else src i
  | Stop _ => src
  end.

(** The commands node [n] gets. *)
Fixpoint commands_for (n : Z) (src : Z -> Z) (ts : list traffic) : list command :=
  match ts with
  | [] => []
  | t :: ts' => (if target src t =? n then [to_command t] else []) ++ commands_for n (new_src src t) ts'
  end.

Section Traffic.
Context {Q : Type} `{MsgServiceOk Q}.
Abbreviation state := (sim_state (Q := Q)).

Definition net_command (n : Z) : Z := msgget (MQ_KEY_NET_COMMAND + n).

(** The sources in the simulator's table. *)
Record stores (s : state) (src : Z -> Z) : Prop := {
  st_wf : sim_wf (sctx s);
  st_streams : forall i, 0 <= i < MAX_DUMMYSTREAM_CONF_NUM ->
    exists c, stream_info (sctx s) i = Ok c /\ src_id c = src i /\ In (src i) node_ids
}.

Definition handle_traffic (s : state) (m : option cJSON * traffic) : res state :=
  match snd m with
  | Start _ => handle_start_dummy_traffic s (fst m) false
  | Update _ => handle_start_dummy_traffic s (fst m) true
  | Stop _ => handle_stop_dummy_traffic s (fst m)
  end.

Lemma stream_info_store (s : state) i c j : 0 <= j -> 0 <= i < zlen (dummy_stream_info (conf (sctx s))) ->
  stream_info (sctx (store s i c)) j = if j =? i then Ok c else stream_info (sctx s) j.
Proof.
  intros Hj Hi. unfold stream_info. destruct (Z.ltb_spec j 0); [lia|].
  change (dummy_stream_info (conf (sctx (store s i c)))) with (<[Z.to_nat i := c]> (dummy_stream_info (conf (sctx s)))).
  unfold zlen in Hi. destruct (Z.eqb_spec j i) as [->|Hne].
  - by rewrite list_lookup_insert_eq by lia.
  - by rewrite list_lookup_insert_ne by lia.
Qed.

Lemma stream_info_range (s : state) i c : stream_info (sctx s) i = Ok c ->
  0 <= i < zlen (dummy_stream_info (conf (sctx s))).
Proof.
  unfold stream_info. destruct (Z.ltb_spec i 0) as [?|Hi]; [done|].
  destruct (_ !! Z.to_nat i) eqn:E; [|done]. intros _. apply lookup_lt_Some in E. unfold zlen. lia.
Qed.

(** Sending to the command queue of a node. *)
Lemma send_command (s : state) n cmd : sim_wf (sctx s) -> In n node_ids ->
  exists q', (let* k := sim_node (sctx s) n in
              let* r := send_mq (sim_q s) (mqid_net_command k) (text (command_msg cmd))
                          (zlen (text (command_msg cmd))) (type (command_msg cmd)) in
              Ok (with_q (fst r) s)) = Ok (with_q q' s) /\
    pushed (sim_q s) q' (net_command n) [command_msg cmd] /\ forall i, i <> net_command n -> pushed (sim_q s) q' i [].
Proof.
  intros Hw Hn. destruct (wf_sim_node _ Hw n Hn) as (mp & np & ->). cbn [rbind mqid_net_command].
  fold (net_command n).
  destruct (send_mq_ok (sim_q s) (net_command n) (text (command_msg cmd)) (zlen (text (command_msg cmd)))
    (type (command_msg cmd)) (text (command_msg cmd))) as (q' & r & E & Hp & Ho).
  - by destruct cmd.
  - by destruct cmd.
  - rewrite zslice_ok by (pose proof (zlen_nonneg (text (command_msg cmd))); lia).
    rewrite drop_0, take_ge; [done|]. unfold zlen. lia.
  - rewrite E. exists q'. split; [done|]. split; [|done]. by destruct cmd.
Qed.

Lemma store_keeps (s : state) i c src : stores s src -> 0 <= i < zlen (dummy_stream_info (conf (sctx s))) ->
  In (src_id c) node_ids -> stores (store s i c) (fun j => if j =? i then src_id c else src j).
Proof.
  intros [Hw Hst] Hi Hc. split.
  - destruct Hw as [H1 H2 H3]. by split.
  - intros j Hj. rewrite stream_info_store by lia. destruct (Z.eqb_spec j i) as [->|Hne]; [by exists c|by apply Hst].
Qed.

Lemma start_traffic_ok (s : state) json c upd src : stores s src -> carries_stream json c -> stream_ok c ->
  exists q', handle_start_dummy_traffic s json upd = Ok (with_q q' (store s (conf_id c) c)) /\
    pushed (sim_q s) q' (net_command (src_id c)) [command_msg (if upd then CmdUpdate c else CmdSet c)] /\
    forall i, i <> net_command (src_id c) -> pushed (sim_q s) q' i [].
Proof.
  intros Hs [E1 E2 E3 E4 E5] [[U1 U2 U3 U4 U5] Hid Hsrc]. unfold handle_start_dummy_traffic.
  rewrite E1, E2, E3, E4, E5. destruct (st_streams _ _ Hs (conf_id c)) as (c0 & E & _).
  { unfold is_u16 in U1. lia. }
  rewrite E. cbn [rbind conf_id src_id dst_id payload_size interval_ms]. rewrite !u16_id by done.
  replace (mkDummy _ _ _ _ _) with c by (by destruct c). cbv zeta.
  destruct (send_command (store s (conf_id c) c) (src_id c) (if upd then CmdUpdate c else CmdSet c)) as (q' & Eq & Hp & Ho);
    [by destruct (store_keeps s (conf_id c) c src Hs (stream_info_range _ _ _ E) Hsrc)|done|].
  exists q'. split; [|done]. destruct upd; exact Eq.
Qed.

Lemma handle_traffic_ok (s : state) json t src : stores s src -> carries json t -> traffic_ok t ->
  exists s', handle_traffic s (json, t) = Ok s' /\ stores s' (new_src src t) /\
    pushed (sim_q s) (sim_q s') (net_command (target src t)) [command_msg (to_command t)] /\
    forall i, i <> net_command (target src t) -> pushed (sim_q s) (sim_q s') i [].
Proof.
  intros Hs Hc Ht. unfold handle_traffic. cbn [fst snd].
  assert (Hstart : forall c upd, carries_stream json c -> stream_ok c -> exists s',
    handle_start_dummy_traffic s json upd = Ok s' /\ stores s' (fun i => if i =? conf_id c then src_id c else src i) /\
    pushed (sim_q s) (sim_q s') (net_command (src_id c)) [command_msg (if upd then CmdUpdate c else CmdSet c)] /\
    forall i, i <> net_command (src_id c) -> pushed (sim_q s) (sim_q s') i []).
  { intros c upd Hcar Hok. destruct (start_traffic_ok s json c upd src Hs Hcar Hok) as (q' & E & Hp & Ho).
    exists (with_q q' (store s (conf_id c) c)). split; [done|]. split; [|done].
    destruct Hok as [[U1 _ _ _ _] Hid Hsrc]. destruct (st_streams _ _ Hs (conf_id c)) as (c0 & E0 & _).
    { unfold is_u16 in U1. lia. }
    destruct (store_keeps s (conf_id c) c src Hs (stream_info_range _ _ _ E0) Hsrc) as [Hw Hst]. by split. }
  destruct t as [c|c|id].
  - apply (Hstart c false Hc Ht).
  - apply (Hstart c true Hc Ht).
  - unfold handle_stop_dummy_traffic. cbn in Hc, Ht. rewrite Hc. cbv zeta.
    rewrite u16_id by (unfold is_u16, MAX_DUMMYSTREAM_CONF_NUM in *; lia).
    destruct (st_streams _ _ Hs id Ht) as (c0 & -> & E0 & Hn). cbn [rbind]. rewrite E0.
    destruct (send_command s (src id) (CmdUnset id) (st_wf _ _ Hs) Hn) as (q' & Eq & Hp & Ho).
    exists (with_q q' s). split; [exact Eq|]. split; [|done]. by destruct Hs.
Qed.

Lemma handle_traffics_ok ts : forall (jsons : list (option cJSON)) (s : state) src,
  stores s src -> Forall2 carries jsons ts -> Forall traffic_ok ts ->
  exists s', rfold handle_traffic (combine jsons ts) s = Ok s' /\
    forall n, In n node_ids -> pushed (sim_q s) (sim_q s') (net_command n) (map command_msg (commands_for n src ts)).
Proof.
  induction ts as [|t ts IH]; intros jsons s src Hs Hc Ht.
  - apply Forall2_nil_inv_r in Hc as ->. exists s. split; [done|]. intros n _. apply pushed_refl.
  - destruct jsons as [|json jsons]; [by apply Forall2_nil_cons_inv in Hc|].
    apply Forall2_cons_1 in Hc as [Hj Hc]. apply Forall_cons_1 in Ht as [Ht Hts].
    destruct (handle_traffic_ok s json t src Hs Hj Ht) as (s1 & E1 & Hs1 & Hp1 & Ho1).
    destruct (IH jsons s1 _ Hs1 Hc Hts) as (s2 & E2 & Hp2). exists s2. cbn [combine rfold].
    rewrite E1. split; [exact E2|]. intros n Hn. cbn [commands_for]. rewrite map_app.
    eapply pushed_app; [|by apply Hp2].
    destruct (Z.eqb_spec (target src t) n) as [<-|Hne]; [done|].
    apply Ho1. unfold net_command. intros E. apply msgget_inj in E. lia.
Qed.
End Traffic.

(** C12: The traffic messages of the front end drive the streams of the nodes.  Any
    sequence of Start, Update and Stop messages is handled without failing, and gives
    each node, in order, the commands that concern it: a Stop goes to the source last
    stored under its id.  When the node's queue was empty and had room for them, the
    node, in its next turn, turns a table that represents the streams [m] into one
    that represents what these commands make of [m]. *)
Theorem traffic_reaches_streams {Q} `{MsgServiceOk Q} (s : sim_state) (src : Z -> Z)
  (jsons : list (option cJSON)) (ts : list traffic) (n : Z) (c : SimNetCtx) (m m' : stream_map)
  (fuel : nat) (junk : MqMsgbuf)
  (Hs : stores s src) (Hcar : Forall2 carries jsons ts) (Hok : Forall traffic_ok ts) (Hn : In n node_ids)
  (Hempty : pending (sim_q s) (net_command n) = [])
  (Hroom : room (sim_q s) (net_command n) (length (commands_for n src ts)))
  (Hc : net_recv_command c = net_command n) (Hstr : streams c m)
  (Hrun : rfold spec_command (commands_for n src ts) m = Ok m')
  (Hfuel : (length (commands_for n src ts) <= fuel)%nat) :
  exists s' q' c', rfold handle_traffic (combine jsons ts) s = Ok s' /\
    net_recv_commands fuel (sim_q s') c junk = Ok (q', c') /\ streams c' m'.
Proof.
  destruct (handle_traffics_ok ts jsons s src Hs Hcar Hok) as (s' & E & Hp).
  destruct (Hp n Hn) as (sub & Epend & _ & Hall).
  destruct (Hall 0%nat) as [-> _]; [rewrite length_map, Nat.add_0_r; done|].
  rewrite Hempty in Epend. cbn [app] in Epend. rewrite <- Hc in Epend.
  assert (Hcmd : Forall command_ok (commands_for n src ts)).
  { clear -Hok. revert src. induction ts as [|t ts IH]; intros src; [constructor|].
    apply Forall_cons_1 in Hok as [Ht Hok]. cbn. apply Forall_app. split; [|by apply IH].
    destruct (_ =? n); constructor; [|constructor].
    destruct t as [c|c|id]; cbn in Ht |- *; [by destruct Ht..|]. unfold is_u16, MAX_DUMMYSTREAM_CONF_NUM in *. lia. }
  pose proof (net_commands_spec fuel (sim_q s') c m _ junk Hstr Hcmd Epend Hfuel) as Hres.
  rewrite Hrun in Hres. destruct Hres as (q' & c' & Er & Hs' & _). by exists s', q', c'.
Qed.

(** ** The link matrix *)
Definition link_los (v : double) : Z := if SFltb (double_of_int 1000) v then 0 else 1.
Fixpoint row_cfgs (i j : Z) (row : list double) : list PhyLinkConfig :=
  match row with
  | [] => []
  | v :: row' => mkPhyLinkConfig i j (link_los v) 0 :: row_cfgs i (j + 1) row'
  end.
Fixpoint matrix_cfgs (i : Z) (rows : list (list double)) : list PhyLinkConfig :=
  match rows with
  | [] => []
  | row :: rows' => row_cfgs i (i + 1) row ++ matrix_cfgs (i + 1) rows'
  end.

(** The JSON value is the matrix: row [i] holds the values of the links of node [i]
    to the nodes behind it. *)
Definition is_number (item : cJSON) (v : double) : Prop :=
  cJSON_IsNumber (Some item) = true /\ valuedouble item = v.
Definition is_row (item : cJSON) (row : list double) : Prop := Forall2 is_number (child item) row.
Definition is_matrix (json : option cJSON) (rows : list (list double)) : Prop :=
  exists item, cJSON_GetObjectItem json (cstr "links") = Some item /\ cJSON_IsArray (Some item) = true /\
    Forall2 is_row (child item) rows.
(** The rows from [i] on stay inside the table. *)
Fixpoint rows_fit (i : Z) (rows : list (list double)) : Prop :=
  match rows with
  | [] => True
  | row :: rows' => i < MAX_NODE_ID /\ i + 1 + zlen row <= MAX_NODE_ID /\ rows_fit (i + 1) rows'
  end.

Section Links.
Context {Q : Type} `{MsgServiceOk Q}.
Abbreviation state := (sim_state (Q := Q)).

Record links_wf (c : SimulatorCtx) : Prop := {
  lw_phy : sim_phy_command c = msgget MQ_KEY_PHY_COMMAND;
  lw_rows : forall i j, In i node_ids -> In j node_ids -> exists e, link_entry c i j = Ok e
}.

Lemma link_entry_set c n1 n2 l i j e : link_entry c i j = Ok e -> exists e', link_entry (set_link_entry n1 n2 l c) i j = Ok e'.
Proof.
  unfold link_entry. cbn [sim_link set_link_entry set_sim_link].
  destruct (decide (Z.to_nat n1 = Z.to_nat i)) as [Eq|Hne].
  - rewrite Eq, list_lookup_alter_eq. destruct (sim_link c !! Z.to_nat i) as [row|]; [|done]. cbn.
    destruct (row !! Z.to_nat j) as [x|] eqn:Ex; [|done]. intros _.
    destruct (decide (Z.to_nat n2 = Z.to_nat j)) as [->|Hne2].
    + rewrite list_lookup_insert_eq by (by apply lookup_lt_Some in Ex). by exists l.
    + rewrite list_lookup_insert_ne, Ex by done. by exists x.
  - rewrite list_lookup_alter_ne by done. intros ->. by exists e.
Qed.

Lemma links_wf_set c n1 n2 l : links_wf c -> links_wf (set_link_entry n1 n2 l c).
Proof.
  intros [H1 H2]. split; [done|]. intros i j Hi Hj. destruct (H2 i j Hi Hj) as [e E]. by eapply link_entry_set.
Qed.

Definition phy_command_q : Z := msgget MQ_KEY_PHY_COMMAND.

(** One row, one matrix: the messages sent. *)
Definition sent_links (s s' : state) (cfgs : list PhyLinkConfig) : Prop :=
  links_wf (sctx s') /\ pushed (sim_q s) (sim_q s') phy_command_q (map config_msg cfgs) /\
  forall i, i <> phy_command_q -> pushed (sim_q s) (sim_q s') i [].

Lemma sent_links_app (s s1 s2 : state) c1 c2 : sent_links s s1 c1 -> sent_links s1 s2 c2 -> sent_links s s2 (c1 ++ c2).
Proof.
  intros (_ & Hp1 & Ho1) (Hw & Hp2 & Ho2). split; [done|]. rewrite map_app. split; [by eapply pushed_app|].
  intros i Hi. by apply (pushed_app _ _ _ _ [] [] (Ho1 i Hi) (Ho2 i Hi)).
Qed.

Lemma link_ok (s : state) msg i j item v : links_wf (sctx s) -> In i node_ids -> In j node_ids -> is_number item v ->
  exists s', handle_link i (s, msg, j) item = Ok (s', mkPhyLinkConfig i j (link_los v) 0, j + 1) /\
    sent_links s s' [mkPhyLinkConfig i j (link_los v) 0].
Proof.
  intros Hw Hi Hj [Hn <-]. unfold handle_link, link_number. rewrite Hn.
  destruct (lw_rows _ Hw i j Hi Hj) as [e E]. rewrite E. cbn [rbind]. fold (link_los (valuedouble item)).
  apply in_node_ids in Hi, Hj. rewrite !u8_id by (unfold is_u8; lia).
  set (m := mkPhyLinkConfig i j (link_los (valuedouble item)) 0).
  assert (Hb : exists s1, (if negb (conf_los e =? link_los (valuedouble item)) || negb (conf_pathloss_x100 e =? 0)
      then Ok (with_sctx (set_link_entry i j (mkPhyLinkConfig (node_id_1 e) (node_id_2 e) (link_los (valuedouble item)) 0) (sctx s)) s, m)
      else Ok (s, m)) = Ok (s1, m) /\ links_wf (sctx s1) /\ sim_q s1 = sim_q s).
  { destruct (_ || _); [|by exists s]. eexists. split; [reflexivity|]. split; [|done]. by apply links_wf_set. }
  destruct Hb as (s1 & -> & Hw1 & Eq). cbn [rbind].
  destruct (send_mq_ok (sim_q s1) (sim_phy_command (sctx s1)) (enc_config m) 7 CONF_MSG_TYPE_PHY_LINK_CONFIG (enc_config m))
    as (q' & r & Es & Hp & Ho); [done|by unfold MQ_MAX_DATA_LEN|done|].
  rewrite Es. eexists. split; [reflexivity|]. rewrite (lw_phy _ Hw1), Eq in *. split; [|by split].
  by destruct Hw1.
Qed.

Lemma row_ok i items row : Forall2 is_number items row -> In i node_ids -> forall j (s : state) msg,
  0 <= j -> j + zlen row <= MAX_NODE_ID -> links_wf (sctx s) ->
  exists s' msg' j', rfold (handle_link i) items (s, msg, j) = Ok (s', msg', j') /\ sent_links s s' (row_cfgs i j row).
Proof.
  intros Hall Hi. induction Hall as [|item v items row Hv _ IH]; intros j s msg Hj Hfit Hw.
  - exists s, msg, j. split; [done|]. split; [done|]. split; intros; apply pushed_refl.
  - rewrite zlen_cons in Hfit. pose proof (zlen_nonneg row).
    destruct (link_ok s msg i j item v Hw Hi) as (s1 & E1 & Hs1); [apply in_node_ids; unfold MAX_NODE_ID in *; lia|done|].
    destruct (IH (j + 1) s1 (mkPhyLinkConfig i j (link_los v) 0)) as (s2 & m2 & j2 & E2 & Hs2); [lia|lia|apply Hs1|].
    exists s2, m2, j2. cbn [rfold row_cfgs]. rewrite E1. split; [exact E2|]. exact (sent_links_app _ _ _ [_] _ Hs1 Hs2).
Qed.

Lemma matrix_ok items rows : Forall2 is_row items rows -> forall i (s : state) msg,
  0 <= i -> rows_fit i rows -> links_wf (sctx s) ->
  exists s' msg' i', rfold handle_link_row items (s, msg, i) = Ok (s', msg', i') /\ sent_links s s' (matrix_cfgs i rows).
Proof.
  intros Hall. induction Hall as [|item row items rows Hr _ IH]; intros i s msg Hi Hfit Hw.
  - exists s, msg, i. split; [done|]. split; [done|]. split; intros; apply pushed_refl.
  - destruct Hfit as (Hi2 & Hrow & Hfit).
    destruct (row_ok i _ row Hr) with (j := i + 1) (s := s) (msg := msg) as (s1 & m1 & j1 & E1 & Hs1); try lia; [|done|].
    { apply in_node_ids. unfold MAX_NODE_ID in *. lia. }
    destruct (IH (i + 1) s1 m1) as (s2 & m2 & i2 & E2 & Hs2); [lia|done|apply Hs1|].
    exists s2, m2, i2. cbn [rfold matrix_cfgs]. unfold handle_link_row at 1. rewrite E1. cbn [rbind fst].
    split; [exact E2|]. by eapply sent_links_app.
Qed.

Lemma link_info_ok junk (s : state) json rows : links_wf (sctx s) -> is_matrix json rows -> rows_fit 0 rows ->
  exists s', handle_link_info_msg junk s json = Ok s' /\ sent_links s s' (matrix_cfgs 0 rows).
Proof.
  intros Hw (item & Ei & Ea & Hall) Hfit. unfold handle_link_info_msg. rewrite Ei, Ea.
  destruct (matrix_ok _ rows Hall 0 s junk) as (s' & m & i & E & Hs); [lia|done..|].
  unfold cJSON_items. rewrite E. by exists s'.
Qed.
End Links.

(** ** The link table after the commands of a matrix *)
Definition at_index {A} (l : list A) (k : Z) : option A := if k <? 0 then None else l !! Z.to_nat k.
Lemma at_index_cons {A} (x : A) l k : at_index (x :: l) k = if k =? 0 then Some x else at_index l (k - 1).
Proof.
  unfold at_index. destruct (Z.eqb_spec k 0) as [->|Hk]; [done|].
  destruct (Z.ltb_spec k 0), (Z.ltb_spec (k - 1) 0); try lia; [done|].
  by replace (Z.to_nat k) with (S (Z.to_nat (k - 1))) by lia.
Qed.
Lemma at_index_nil {A} k : at_index (@nil A) k = None.
Proof. unfold at_index. by destruct (k <? 0). Qed.
Lemma at_index_neg {A} (l : list A) k : k < 0 -> at_index l k = None.
Proof. unfold at_index. intros. by destruct (Z.ltb_spec k 0); [|lia]. Qed.
Definition or_link (l : SimLink) (o : option double) : SimLink :=
  match o with Some v => mkLink (link_los v) 0 | None => l end.

Lemma link_after_pair a b i j v l : a < b -> i < j ->
  link_after a b l (mkPhyLinkConfig i j (link_los v) 0) = if (a =? i) && (b =? j) then mkLink (link_los v) 0 else l.
Proof.
  intros Ha Hi. unfold link_after. cbn.
  destruct (Z.eqb_spec a i), (Z.eqb_spec b j), (Z.eqb_spec a j), (Z.eqb_spec b i); cbn; auto; lia.
Qed.
Lemma link_after_sym a b l m : link_after a b l m = link_after b a l m.
Proof.
  unfold link_after.
  by destruct (a =? node_id_1 m), (b =? node_id_2 m), (a =? node_id_2 m), (b =? node_id_1 m).
Qed.

Lemma fold_sym a b cfgs : forall l, fold_left (link_after b a) cfgs l = fold_left (link_after a b) cfgs l.
Proof. induction cfgs as [|m cfgs IH]; intros l; [done|]. cbn. by rewrite link_after_sym, IH. Qed.

Lemma row_fold (a b i : Z) row : a < b -> forall j l, i < j ->
  fold_left (link_after a b) (row_cfgs i j row) l = if a =? i then or_link l (at_index row (b - j)) else l.
Proof.
  intros Hab. induction row as [|v row IH]; intros j l Hj; cbn [row_cfgs fold_left].
  - rewrite at_index_nil. by destruct (a =? i).
  - rewrite IH, link_after_pair, at_index_cons by lia. destruct (Z.eqb_spec a i) as [->|]; [|done]. cbn [andb].
    replace (b - (j + 1)) with (b - j - 1) by lia.
    destruct (Z.eqb_spec b j) as [E|Hne], (Z.eqb_spec (b - j) 0); try lia; [|done].
    by rewrite at_index_neg by lia.
Qed.

Lemma matrix_fold (a b : Z) rows : a < b -> forall i l,
  fold_left (link_after a b) (matrix_cfgs i rows) l =
  or_link l (row ← at_index rows (a - i); at_index row (b - a - 1)).
Proof.
  intros Hab. induction rows as [|row rows IH]; intros i l; cbn [matrix_cfgs].
  - by rewrite at_index_nil.
  - rewrite fold_left_app, IH, row_fold, at_index_cons by lia.
    replace (a - (i + 1)) with (a - i - 1) by lia.
    destruct (Z.eqb_spec a i) as [E|Hne], (Z.eqb_spec (a - i) 0) as [Hz|Hz]; try lia; [|done].
    subst a. cbn [mbind option_bind]. replace (b - (i + 1)) with (b - i - 1) by lia.
    by rewrite (at_index_neg rows) by lia.
Qed.

Lemma row_cfgs_ok i row : In i node_ids -> forall j, 0 <= j -> j + zlen row <= MAX_NODE_ID -> Forall config_ok (row_cfgs i j row).
Proof.
  intros Hi. induction row as [|v row IH]; intros j Hj Hl; [constructor|]. rewrite zlen_cons in Hl.
  pose proof (zlen_nonneg row). constructor; [|apply IH; lia]. split; cbn; [done|apply in_node_ids; unfold MAX_NODE_ID in *; lia|..].
  - unfold link_los, is_u8. destruct (SFltb _ v); lia.
  - unfold is_u32. lia.
Qed.
Lemma matrix_cfgs_ok rows : forall i, 0 <= i -> rows_fit i rows -> Forall config_ok (matrix_cfgs i rows).
Proof.
  induction rows as [|row rows IH]; intros i Hi Hf; [constructor|]. destruct Hf as (H1 & H2 & Hf). cbn [matrix_cfgs].
  apply Forall_app. split; [|apply IH; [lia|done]]. apply row_cfgs_ok; [|lia..].
  apply in_node_ids. unfold MAX_NODE_ID in *. lia.
Qed.

Definition matrix_value (rows : list (list double)) (a b : Z) : option double :=
  row ← at_index rows (a - 0); at_index row (b - a - 1).

(** C34: The link matrix of the front end becomes the link table of the radio
    simulator.  A LinkInfo message whose rows fit the table is handled without
    failing, and after the next turn of the radio simulator two nodes are in line of
    sight, in both directions, exactly if the value the matrix has for them is at most
    1000; the pairs the matrix does not mention are as before.  The uninitialised
    message the handler starts from is never sent. *)
Theorem link_matrix_applied {Q} `{MsgServiceOk Q} (s : sim_state) (json : option cJSON) (rows : list (list double))
  (c : SimPhyCtx) (fuel : nat) (junk : PhyLinkConfig) (junk1 junk2 : MqMsgbuf)
  (Hs : links_wf (sctx s)) (Hjson : is_matrix json rows) (Hfit : rows_fit 0 rows) (Hc : phy_wf c)
  (Hempty : pending (sim_q s) phy_command_q = [])
  (Hroom : room (sim_q s) phy_command_q (length (matrix_cfgs 0 rows)))
  (Hmac : forall n, In n node_ids ->
     Forall fits (pending (sim_q s) (mac_in n)) /\ (length (pending (sim_q s) (mac_in n)) <= fuel)%nat)
  (Hfuel : (length (matrix_cfgs 0 rows) <= fuel)%nat) :
  exists s' q' c', handle_link_info_msg junk s json = Ok s' /\ simphy_work fuel (sim_q s') c junk1 junk2 = Ok (q', c') /\
    forall a b, In a node_ids -> In b node_ids -> a < b ->
      line_of_sight c' a b = match matrix_value rows a b with
                             | Some v => negb (SFltb (double_of_int 1000) v) | None => line_of_sight c a b end /\
      line_of_sight c' b a = match matrix_value rows a b with
                             | Some v => negb (SFltb (double_of_int 1000) v) | None => line_of_sight c b a end.
Proof.
  destruct (link_info_ok junk s json rows Hs Hjson Hfit) as (s' & E & _ & Hp & Ho).
  destruct Hp as (sub & Epend & _ & Hall).
  destruct (Hall 0%nat) as [-> _]; [rewrite length_map, Nat.add_0_r; done|].
  rewrite Hempty in Epend. cbn [app] in Epend.
  assert (Hin : phy_input fuel (sim_q s') (matrix_cfgs 0 rows)).
  { split; try done.
    1, 2: intros n Hn; destruct (command_not_mac n Hn) as [Hne _];
      rewrite (proj1 (proj1 (pushed_nil_iff _ _ _) (Ho (mac_in n) (not_eq_sym Hne)))); by apply Hmac.
    by apply matrix_cfgs_ok; [lia|]. }
  destruct (simphy_work_spec fuel (sim_q s') c (matrix_cfgs 0 rows) junk1 junk2 Hc Hin) as (q' & c' & E2 & Hround).
  exists s', q', c'. split; [done|]. split; [done|]. intros a b Ha Hb Hab.
  assert (Hlos : forall l, (los (or_link l (matrix_value rows a b)) =? 1) =
    match matrix_value rows a b with Some v => negb (SFltb (double_of_int 1000) v) | None => los l =? 1 end).
  { intros l. destruct (matrix_value rows a b) as [v|]; [|done]. cbn. unfold link_los. by destruct (SFltb _ v). }
  unfold line_of_sight. split.
  - destruct (wf_links c Hc a b Ha Hb) as [l El]. rewrite (round_links _ _ _ _ _ Hround a b l Ha Hb El), El.
    by rewrite matrix_fold by done.
  - destruct (wf_links c Hc b a Hb Ha) as [l El]. rewrite (round_links _ _ _ _ _ Hround b a l Hb Ha El), El.
    by rewrite fold_sym, matrix_fold by done.
Qed.

(** ** Runs *)
Definition ex_commander : sim_state (Q := ListQueues) := mkSim (ex_sctx 1 (mkServer None None 0)) (mkLq 9 ∅) (fun _ => 0) [].
Definition ex_traffic : list traffic :=
  [Start (ex_stream 7 64); Start (mkDummy 8 1 2 64 10); Start (ex_stream 9 64); Update (ex_stream 7 512); Stop 9].
Definition ex_traffic_json (t : traffic) : option cJSON :=
  Some (ex_object match t with
    | Start c | Update c =>
      [ex_number "confId" (conf_id c); ex_number "sourceNodeId" (src_id c); ex_number "destinationNodeId" (dst_id c);
       ex_number "packetSize" (payload_size c); ex_number "intervalMs" (interval_ms c)]
    | Stop id => [ex_number "confId" id]
    end).
Definition ex_node3 : SimNetCtx :=
  mkNet (net_timerqueue ex_net) 3 1 2 (MQ_KEY_NET_COMMAND + 3) 4 (dummy_traffic_timers ex_net).

Lemma ex_commander_stores : stores ex_commander (fun _ => 0).
Proof.
  split; [apply ex_sctx_wf|]. intros i Hi. exists (mkDummy 0 0 0 0 0). split; [|split; [done|by apply in_node_ids]].
  unfold stream_info. destruct (Z.ltb_spec i 0); [lia|].
  change (dummy_stream_info (conf (sctx ex_commander))) with (replicate (Z.to_nat MAX_DUMMYSTREAM_CONF_NUM) (mkDummy 0 0 0 0 0)).
  by rewrite lookup_replicate_2 by lia.
Qed.

Lemma traffic_reaches_streams_witness :
  exists s' q' c', rfold handle_traffic (combine (map ex_traffic_json ex_traffic) ex_traffic) ex_commander = Ok s' /\
    net_recv_commands 9 (sim_q s') ex_node3 (mkMsg 0 []) = Ok (q', c') /\ streams c' {[7 := ex_stream 7 512]}.
Proof.
  apply (traffic_reaches_streams ex_commander (fun _ => 0) (map ex_traffic_json ex_traffic) ex_traffic 3 ex_node3 ∅).
  - exact ex_commander_stores.
  - repeat constructor.
  - unfold ex_traffic, ex_stream. repeat match goal with
      | |- Forall _ (_ :: _) => apply Forall_cons_2; unfold traffic_ok, MAX_DUMMYSTREAM_CONF_NUM; [|]
      | |- Forall _ [] => by constructor
      end; [| | | |lia].
    all: split; [split; unfold is_u16; cbn [conf_id src_id dst_id payload_size interval_ms]; lia
                |cbn [conf_id]; unfold MAX_DUMMYSTREAM_CONF_NUM; lia|apply in_node_ids; cbn [src_id]; lia].
  - by apply in_node_ids.
  - done.
  - apply Nat.leb_le. by vm_compute.
  - done.
  - destruct ex_net_streams. by split.
  - reflexivity.
  - apply Nat.leb_le. by vm_compute.
Defined.

(** Three nodes; the link of 0 and 2 is too weak. *)
Definition ex_row (l : list Z) : cJSON := ex_array (map (ex_number "") l).
Definition ex_matrix : option cJSON := Some (ex_object [ex_named "links" (ex_array [ex_row [10; 2000]; ex_row [999]])]).
Definition ex_rows : list (list double) := [[double_of_int 10; double_of_int 2000]; [double_of_int 999]].

Lemma link_matrix_applied_witness :
  exists s' q' c', handle_link_info_msg (mkPhyLinkConfig 9 9 9 9) ex_commander ex_matrix = Ok s' /\
    simphy_work 3 (sim_q s') ex_phy ex_junk ex_junk = Ok (q', c') /\
    forall a b, In a node_ids -> In b node_ids -> a < b ->
      line_of_sight c' a b = match matrix_value ex_rows a b with
                             | Some v => negb (SFltb (double_of_int 1000) v) | None => line_of_sight ex_phy a b end /\
      line_of_sight c' b a = match matrix_value ex_rows a b with
                             | Some v => negb (SFltb (double_of_int 1000) v) | None => line_of_sight ex_phy b a end.
Proof.
  apply (link_matrix_applied ex_commander ex_matrix ex_rows ex_phy 3 (mkPhyLinkConfig 9 9 9 9) ex_junk ex_junk).
  - split; [done|]. intros i j Hi Hj. exists (mkPhyLinkConfig i j 1 0). unfold link_entry.
    change (sim_link (sctx ex_commander)) with initial_links. unfold initial_links.
    rewrite !list_lookup_fmap, lookup_node_ids by done. cbn. by rewrite list_lookup_fmap, lookup_node_ids.
  - eexists. split; [reflexivity|]. split; [done|]. repeat constructor.
  - cbn. unfold MAX_NODE_ID, zlen. cbn. lia.
  - apply ex_phy_wf.
  - done.
  - apply Nat.leb_le. by vm_compute.
  - intros n Hn. change (pending _ _) with (@nil MqMsgbuf). split; [by constructor|cbn; lia].
  - apply Nat.leb_le. by vm_compute.
Defined.
