(* ===== verification/SimConfig.v ===== *)
(** The configuration file of the local mode (simulator/simulator_config.c).

    [config_string] is the text of the file; what the code prints is left out. *)
From S2P Require Import Prelude MsgQueue Net Phy Simulator CJson.
From stdpp Require Import base list numbers.
From Stdlib Require Import ZArith Lia SpecFloat Ascii String.
Open Scope Z_scope.
Open Scope c_scope.

(** [cJSON_GetObjectItemCaseSensitive(item, name)->valueint]. *)
Definition member_int (item : cJSON) (name : String.string) : res Z :=
  let* i := deref (cJSON_GetObjectItemCaseSensitive (Some item) (cstr name)) in Ok (valueint i).

Definition write_at {A} (l : list A) (i : Z) (v : A) : res (list A) :=
  if (0 <=? i) && (i <? zlen l) then Ok (<[Z.to_nat i := v]> l) else UB.

Definition parse_node (cf : SimulatorConfig) (node_json : cJSON) : res SimulatorConfig :=
  let* nid := member_int node_json "id" in
  let* active := write_at (active_node cf) nid 1 in
  Ok (mkSimConf active (dummystream_conf_num cf) (dummy_stream_info cf) (simlink_conf_num cf) (linkconfs cf)).

Definition parse_link (cf : SimulatorConfig) (link_json : cJSON) : res SimulatorConfig :=
  let* n1 := member_int link_json "nid1" in
  let* n2 := member_int link_json "nid2" in
  let los_json := cJSON_GetObjectItemCaseSensitive (Some link_json) (cstr "los") in
  let los := match los_json with
             | Some i => if cJSON_IsNumber los_json then u8 (valueint i) else 1
             | None => 1
             end in
  let pl_json := cJSON_GetObjectItemCaseSensitive (Some link_json) (cstr "pathloss") in
  let* pl := match pl_json with
             | Some i => if cJSON_IsNumber pl_json then double_to_u32 (valuedouble i) else Ok 0
             | None => Ok 0
             end in
  let* l := write_at (linkconfs cf) (simlink_conf_num cf) (mkPhyLinkConfig (u8 n1) (u8 n2) los pl) in
  Ok (mkSimConf (active_node cf) (dummystream_conf_num cf) (dummy_stream_info cf) (simlink_conf_num cf + 1) l).

Definition parse_stream (cf : SimulatorConfig) (dummy_traffic_conf : cJSON) : res SimulatorConfig :=
  if MAX_DUMMYSTREAM_CONF_NUM <=? dummystream_conf_num cf then Exit 2
  else
    let* src_id := member_int dummy_traffic_conf "src_id" in
    let* dst_id := member_int dummy_traffic_conf "dst_id" in
    let* payload_size := member_int dummy_traffic_conf "payload_size" in
    let* interval_ms := member_int dummy_traffic_conf "interval_ms" in
    let num := dummystream_conf_num cf in
    let* l := write_at (dummy_stream_info cf) num
                (mkDummy (u16 num) (u16 src_id) (u16 dst_id) (u16 payload_size) (u16 interval_ms)) in
    Ok (mkSimConf (active_node cf) (num + 1) l (simlink_conf_num cf) (linkconfs cf)).

Definition parse_list (f : SimulatorConfig -> cJSON -> res SimulatorConfig) (json : cJSON)
  (name : String.string) (missing : res SimulatorConfig) (cf : SimulatorConfig) : res SimulatorConfig :=
  let l := cJSON_GetObjectItemCaseSensitive (Some json) (cstr name) in
  if cJSON_IsArray l then rfold f (cJSON_items l) cf else missing.

Definition parse_config (cJSON_Parse : list Z -> res (option cJSON)) (config_string : list Z)
  (cf : SimulatorConfig) : res SimulatorConfig :=
  let* j := cJSON_Parse config_string in
  match j with
  | None => Exit 2
  | Some json =>
    let* cf := parse_list parse_node json "nodes" (Exit 2) cf in
    let* cf := parse_list parse_link json "links" (Ok cf) cf in
    parse_list parse_stream json "dummy_traffic" (Ok cf) cf
  end.
