(* ===== verification/SimLocal.v ===== *)
(** The local mode: what the configuration file says is what is started and sent. *)
From S2P Require Import Prelude MsgQueue Net Phy NetStreams Simulator CJson SimConf SimProc SimCommands SimConfig.
From Stdlib Require Import Ascii String.
From stdpp Require Import base list numbers gmap.
From Stdlib Require Import List ZArith Lia SpecFloat.
Open Scope Z_scope.
Open Scope c_scope.

(** ** What the file says *)
Record scenario : Type := mkScenario {
  sc_nodes : list Z;
  sc_links : list PhyLinkConfig;
  sc_streams : list NetSetDummyTrafficConfig
}.

Definition number_of (item : cJSON) (name : String.string) : option cJSON :=
  match cJSON_GetObjectItemCaseSensitive (Some item) (cstr name) with
  | Some i => if cJSON_IsNumber (Some i) then Some i else None
  | None => None
  end.
Definition has_int (item : cJSON) (name : String.string) (v : Z) : Prop :=
  exists i, cJSON_GetObjectItemCaseSensitive (Some item) (cstr name) = Some i /\ valueint i = v.

(** A node, a link (whose line of sight and path loss have defaults), a stream; the
    stream ids count from 0. *)
Definition says_node (item : cJSON) (n : Z) : Prop := has_int item "id" n.
Record says_link (item : cJSON) (l : PhyLinkConfig) : Prop := {
  sl_n1 : has_int item "nid1" (node_id_1 l) /\ is_u8 (node_id_1 l);
  sl_n2 : has_int item "nid2" (node_id_2 l) /\ is_u8 (node_id_2 l);
  sl_los : match number_of item "los" with
           | Some i => valueint i = conf_los l /\ is_u8 (conf_los l)
           | None => conf_los l = 1
           end;
  sl_pl : match number_of item "pathloss" with
          | Some i => double_to_u32 (valuedouble i) = Ok (conf_pathloss_x100 l)
          | None => conf_pathloss_x100 l = 0
          end
}.
Record says_stream (item : cJSON) (c : NetSetDummyTrafficConfig) : Prop := {
  ss_src : has_int item "src_id" (src_id c);
  ss_dst : has_int item "dst_id" (dst_id c);
  ss_size : has_int item "payload_size" (payload_size c);
  ss_interval : has_int item "interval_ms" (interval_ms c);
  ss_u16 : config_u16 c
}.
Definition says_list {A} (json : cJSON) (name : String.string) (R : cJSON -> A -> Prop) (l : list A) : Prop :=
  exists item, cJSON_GetObjectItemCaseSensitive (Some json) (cstr name) = Some item /\
    cJSON_IsArray (Some item) = true /\ Forall2 R (child item) l.
Fixpoint numbered (i : Z) (l : list NetSetDummyTrafficConfig) : Prop :=
  match l with [] => True | c :: l' => conf_id c = i /\ numbered (i + 1) l' end.
Record says (json : cJSON) (sc : scenario) : Prop := {
  says_nodes : says_list json "nodes" says_node (sc_nodes sc);
  says_links : says_list json "links" says_link (sc_links sc);
  says_streams : says_list json "dummy_traffic" says_stream (sc_streams sc);
  says_numbered : numbered 0 (sc_streams sc)
}.

(** ** The configuration *)
Definition activate (active : list Z) (ids : list Z) : list Z :=
  fold_left (fun a n => <[Z.to_nat n := 1]> a) ids active.
Definition overwrite {A} (l : list A) (new : list A) : list A := new ++ drop (length new) l.
Definition scenario_conf (sc : scenario) : SimulatorConfig :=
  mkSimConf (activate (active_node zero_conf) (sc_nodes sc))
    (zlen (sc_streams sc)) (overwrite (dummy_stream_info zero_conf) (sc_streams sc))
    (zlen (sc_links sc)) (overwrite (linkconfs zero_conf) (sc_links sc)).

Lemma member_int_ok item name v : has_int item name v -> member_int item name = Ok v.
Proof. intros (i & E & <-). unfold member_int. by rewrite E. Qed.

Lemma write_at_ok {A} (l : list A) i v : write_at l i v = if (0 <=? i) && (i <? zlen l) then Ok (<[Z.to_nat i := v]> l) else UB.
Proof. done. Qed.

Definition in_table (n : Z) : bool := (0 <=? n) && (n <? MAX_NODE_ID).

Lemma parse_nodes_ok items ids : Forall2 says_node items ids -> forall cf, zlen (active_node cf) = MAX_NODE_ID ->
  rfold parse_node items cf =
  if forallb in_table ids then
    Ok (mkSimConf (activate (active_node cf) ids) (dummystream_conf_num cf) (dummy_stream_info cf)
          (simlink_conf_num cf) (linkconfs cf))
  else UB.
Proof.
  intros Hall. induction Hall as [|item n items ids Hn _ IH]; intros cf Hl; [by destruct cf|].
  cbn [rfold]. unfold parse_node at 1. rewrite (member_int_ok _ _ _ Hn). cbn [rbind]. unfold write_at. rewrite Hl.
  cbn [forallb]. fold (in_table n). destruct (in_table n); [|done]. cbn [rbind andb].
  rewrite IH; [done|]. cbn [active_node]. unfold zlen in *. by rewrite length_insert.
Qed.

(** Slot [num] of a table whose first slots are taken. *)
Lemma overwrite_next {A} (l done_ : list A) x : zlen done_ < zlen l ->
  <[Z.to_nat (zlen done_) := x]> (overwrite l done_) = overwrite l (done_ ++ [x]).
Proof.
  intros Hl. unfold overwrite, zlen in *. rewrite Nat2Z.id, insert_app_r_alt, Nat.sub_diag, <- app_assoc by lia. f_equal.
  rewrite length_app. destruct (drop (length done_) l) as [|y k] eqn:E.
  - apply (f_equal length) in E. rewrite length_drop in E. cbn in E. lia.
  - cbn. f_equal. change k with (drop 1 (y :: k)). rewrite <- E, drop_drop. done.
Qed.
Lemma zlen_overwrite {A} (l new : list A) : zlen new <= zlen l -> zlen (overwrite l new) = zlen l.
Proof. unfold overwrite, zlen. rewrite length_app, length_drop. lia. Qed.

Lemma parse_link_one cf item l : says_link item l ->
  parse_link cf item =
  let* x := write_at (linkconfs cf) (simlink_conf_num cf) l in
  Ok (mkSimConf (active_node cf) (dummystream_conf_num cf) (dummy_stream_info cf) (simlink_conf_num cf + 1) x).
Proof.
  intros [[H1 U1] [H2 U2] Hlos Hpl]. unfold parse_link.
  rewrite (member_int_ok _ _ _ H1), (member_int_ok _ _ _ H2). cbn [rbind]. unfold number_of in Hlos, Hpl.
  rewrite !u8_id by done.
  assert (Elos : match cJSON_GetObjectItemCaseSensitive (Some item) (cstr "los") with
    | Some i => if cJSON_IsNumber (Some i) then u8 (valueint i) else 1 | None => 1 end = conf_los l).
  { destruct (cJSON_GetObjectItemCaseSensitive _ (cstr "los")) as [i|]; [|done].
    destruct (cJSON_IsNumber (Some i)); [|done]. destruct Hlos as [<- Hu]. by apply u8_id. }
  assert (Epl : match cJSON_GetObjectItemCaseSensitive (Some item) (cstr "pathloss") with
    | Some i => if cJSON_IsNumber (Some i) then double_to_u32 (valuedouble i) else Ok 0 | None => Ok 0 end =
    Ok (conf_pathloss_x100 l)).
  { destruct (cJSON_GetObjectItemCaseSensitive _ (cstr "pathloss")) as [i|]; [|by rewrite Hpl].
    destruct (cJSON_IsNumber (Some i)); [done|by rewrite Hpl]. }
  destruct (cJSON_GetObjectItemCaseSensitive (Some item) (cstr "los")) as [i1|];
    destruct (cJSON_GetObjectItemCaseSensitive (Some item) (cstr "pathloss")) as [i2|]; rewrite Elos, Epl; by destruct l.
Qed.

Lemma parse_stream_one cf item c : says_stream item c -> conf_id c = dummystream_conf_num cf ->
  parse_stream cf item =
  if MAX_DUMMYSTREAM_CONF_NUM <=? dummystream_conf_num cf then Exit 2
  else
    let* x := write_at (dummy_stream_info cf) (dummystream_conf_num cf) c in
    Ok (mkSimConf (active_node cf) (dummystream_conf_num cf + 1) x (simlink_conf_num cf) (linkconfs cf)).
Proof.
  intros [H1 H2 H3 H4 [U1 U2 U3 U4 U5]] Hid. unfold parse_stream. destruct (_ <=? _); [done|].
  rewrite (member_int_ok _ _ _ H1), (member_int_ok _ _ _ H2), (member_int_ok _ _ _ H3), (member_int_ok _ _ _ H4).
  cbn [rbind]. rewrite <- Hid. rewrite !u16_id by done. by destruct c.
Qed.

(** Writing the next slot. *)
Lemma write_next {A} (old pre : list A) x : zlen pre < zlen old ->
  write_at (overwrite old pre) (zlen pre) x = Ok (overwrite old (pre ++ [x])).
Proof.
  intros Hl. rewrite write_at_ok, zlen_overwrite by lia. pose proof (zlen_nonneg pre).
  destruct (Z.leb_spec 0 (zlen pre)); [|lia]. destruct (Z.ltb_spec (zlen pre) (zlen old)); [|lia].
  cbn [andb]. by rewrite overwrite_next.
Qed.

Lemma parse_links_ok items ls : Forall2 says_link items ls -> forall a sn si old pre, zlen old = MAX_SIMLINK_CONF_NUM ->
  zlen pre <= MAX_SIMLINK_CONF_NUM ->
  rfold parse_link items (mkSimConf a sn si (zlen pre) (overwrite old pre)) =
  if zlen pre + zlen ls <=? MAX_SIMLINK_CONF_NUM
  then Ok (mkSimConf a sn si (zlen (pre ++ ls)) (overwrite old (pre ++ ls))) else UB.
Proof.
  intros Hall. induction Hall as [|item l items ls Hl Hls IH]; intros a sn si old pre Hold Hpre.
  - cbn [rfold]. rewrite zlen_nil, app_nil_r. by destruct (Z.leb_spec (zlen pre + 0) MAX_SIMLINK_CONF_NUM); [|lia].
  - cbn [rfold]. rewrite (parse_link_one _ item l Hl).
    cbn [simlink_conf_num linkconfs active_node dummystream_conf_num dummy_stream_info].
    pose proof (zlen_nonneg ls). rewrite zlen_cons. replace (zlen pre + (zlen ls + 1)) with (zlen pre + 1 + zlen ls) by lia.
    destruct (Z.lt_ge_cases (zlen pre) MAX_SIMLINK_CONF_NUM) as [Hlt|Hge].
    + rewrite write_next by lia. cbn [rbind]. rewrite <- zlen_snoc with (x := l).
      rewrite IH by (rewrite ?zlen_snoc; lia). by rewrite <- app_assoc.
    + rewrite write_at_ok, zlen_overwrite, Hold by lia.
      destruct (Z.ltb_spec (zlen pre) MAX_SIMLINK_CONF_NUM); [lia|]. rewrite andb_false_r.
      by destruct (Z.leb_spec (zlen pre + 1 + zlen ls) MAX_SIMLINK_CONF_NUM); [lia|].
Qed.

Lemma parse_streams_ok items cs : Forall2 says_stream items cs -> forall a ln li old pre,
  zlen old = MAX_DUMMYSTREAM_CONF_NUM -> zlen pre <= MAX_DUMMYSTREAM_CONF_NUM -> numbered (zlen pre) cs ->
  rfold parse_stream items (mkSimConf a (zlen pre) (overwrite old pre) ln li) =
  if zlen pre + zlen cs <=? MAX_DUMMYSTREAM_CONF_NUM
  then Ok (mkSimConf a (zlen (pre ++ cs)) (overwrite old (pre ++ cs)) ln li) else Exit 2.
Proof.
  intros Hall. induction Hall as [|item c items cs Hc Hcs IH]; intros a ln li old pre Hold Hpre Hnum.
  - cbn [rfold]. rewrite zlen_nil, app_nil_r. by destruct (Z.leb_spec (zlen pre + 0) MAX_DUMMYSTREAM_CONF_NUM); [|lia].
  - destruct Hnum as [Hid Hnum]. cbn [rfold]. rewrite (parse_stream_one _ item c Hc) by done.
    cbn [simlink_conf_num linkconfs active_node dummystream_conf_num dummy_stream_info].
    pose proof (zlen_nonneg cs). rewrite zlen_cons. replace (zlen pre + (zlen cs + 1)) with (zlen pre + 1 + zlen cs) by lia.
    destruct (Z.leb_spec MAX_DUMMYSTREAM_CONF_NUM (zlen pre)).
    + by destruct (Z.leb_spec (zlen pre + 1 + zlen cs) MAX_DUMMYSTREAM_CONF_NUM); [lia|].
    + rewrite write_next by lia. cbn [rbind]. rewrite <- zlen_snoc with (x := c).
      rewrite IH by (rewrite ?zlen_snoc; lia || done). by rewrite <- app_assoc.
Qed.

Lemma parse_config_ok json sc : says json sc ->
  parse_config (fun _ => Ok (Some json)) [] zero_conf =
  if negb (forallb in_table (sc_nodes sc)) then UB
  else if MAX_SIMLINK_CONF_NUM <? zlen (sc_links sc) then UB
  else if MAX_DUMMYSTREAM_CONF_NUM <? zlen (sc_streams sc) then Exit 2
  else Ok (scenario_conf sc).
Proof.
  intros [(ni & En & An & Hn) (li & El & Al & Hl) (si & Es & As & Hs) Hnum].
  unfold parse_config, parse_list. cbn [rbind]. rewrite En, An, El, Al, Es, As. cbn [cJSON_items].
  rewrite (parse_nodes_ok _ _ Hn) by done. destruct (forallb in_table (sc_nodes sc)); [|done]. cbn [rbind negb].
  change (dummystream_conf_num zero_conf) with 0. change (simlink_conf_num zero_conf) with 0.
  set (a := activate _ _).
  pose proof (parse_links_ok _ _ Hl a 0 (dummy_stream_info zero_conf) (linkconfs zero_conf) [] eq_refl ltac:(by vm_compute)) as E1.
  change (overwrite (linkconfs zero_conf) []) with (linkconfs zero_conf) in E1.
  cbn [app] in E1. change (zlen []) with 0 in E1. rewrite Z.add_0_l in E1. rewrite E1. clear E1.
  rewrite Z.ltb_antisym. destruct (zlen (sc_links sc) <=? MAX_SIMLINK_CONF_NUM); [|done]. cbn [rbind negb].
  pose proof (parse_streams_ok _ _ Hs a (zlen (sc_links sc)) (overwrite (linkconfs zero_conf) (sc_links sc))
    (dummy_stream_info zero_conf) [] eq_refl ltac:(by vm_compute) Hnum) as E2.
  change (overwrite (dummy_stream_info zero_conf) []) with (dummy_stream_info zero_conf) in E2.
  cbn [app] in E2. change (zlen []) with 0 in E2. rewrite Z.add_0_l in E2. rewrite E2. clear E2.
  rewrite Z.ltb_antisym. by destruct (zlen (sc_streams sc) <=? MAX_DUMMYSTREAM_CONF_NUM).
Qed.

(** ** Starting the active nodes *)
Fixpoint local_starts (f : nat -> Z) (i : Z) (active : list Z) : list proc_event :=
  match active with
  | [] => []
  | a :: active' =>
    if a =? 1
    then Forked (f 0%nat) SIMMAC_BINARY i :: Forked (f 1%nat) SIMNET_BINARY i ::
         local_starts (fun k => f (2 + k)%nat) (i + 1) active'
    else local_starts f (i + 1) active'
  end.
Fixpoint local_nodes (f : nat -> Z) (active : list Z) (nodes : list SimNode) : list SimNode :=
  match active, nodes with
  | a :: active', n :: nodes' =>
    if a =? 1
    then set_net_pid (f 1%nat) (set_mac_pid (f 0%nat) n) :: local_nodes (fun k => f (2 + k)%nat) active' nodes'
    else n :: local_nodes f active' nodes'
  | _, _ => nodes
  end.
Fixpoint local_forks (f : nat -> Z) (active : list Z) : nat -> Z :=
  match active with
  | [] => f
  | a :: active' => if a =? 1 then local_forks (fun k => f (2 + k)%nat) active' else local_forks f active'
  end.

Section Local.
Context {Q : Type} `{MsgServiceOk Q}.
Abbreviation state := (sim_state (Q := Q)).

Lemma local_start_loop post : forall (s : state) pre act, length act = length post ->
  sim_nodes (sctx s) = pre ++ post -> drop (length pre) (active_node (conf (sctx s))) = act ->
  rfold (fun s i => let* a := deref (active_node (conf (sctx s)) !! Z.to_nat i) in
                    if a =? 1 then start_simnode s i else Ok s) (seqZ (zlen pre) (zlen post)) s =
  Ok (moved s (pre ++ local_nodes (forks s) act post) (local_forks (forks s) act) (local_starts (forks s) (zlen pre) act)).
Proof.
  induction post as [|n post IH]; intros s pre act Hlen En Ea.
  - destruct act; [|done]. cbn. unfold moved. rewrite !app_nil_r in *. rewrite <- En. by destruct s as [[] ? ? ?].
  - destruct act as [|a act]; [done|]. cbn in Hlen. rewrite seqZ_cons by (rewrite zlen_cons; pose proof (zlen_nonneg post); lia).
    assert (Ha : active_node (conf (sctx s)) !! Z.to_nat (zlen pre) = Some a).
    { unfold zlen. rewrite Nat2Z.id. rewrite <- (Nat.add_0_r (length pre)), <- lookup_drop, Ea. done. }
    cbn [rfold]. rewrite Ha. cbn [deref rbind].
    assert (Edrop : forall x : SimNode, drop (length (pre ++ [x])) (active_node (conf (sctx s))) = act).
    { intros x. rewrite length_app. cbn [length]. rewrite <- drop_drop, Ea. done. }
    replace (Z.pred (zlen (n :: post))) with (zlen post) by (rewrite zlen_cons; lia).
    cbn [local_nodes local_forks local_starts]. destruct (a =? 1).
    + rewrite (start_node_at s pre n post En). cbn [rbind started_nodes app].
      set (x := set_net_pid _ _). replace (Z.succ (zlen pre)) with (zlen (pre ++ [x])) by (rewrite zlen_snoc; lia).
      rewrite (IH _ (pre ++ [x]) act) by (lia || apply Edrop || (cbn; by rewrite <- app_assoc)).
      unfold moved. cbn. rewrite <- !app_assoc, zlen_snoc. done.
    + cbn [rbind]. replace (Z.succ (zlen pre)) with (zlen (pre ++ [n])) by (rewrite zlen_snoc; lia).
      rewrite (IH _ (pre ++ [n]) act) by (lia || apply Edrop || (by rewrite <- app_assoc)).
      unfold moved. by rewrite <- !app_assoc, zlen_snoc.
Qed.

Lemma start_local_ok (s : state) : zlen (sim_nodes (sctx s)) = MAX_NODE_ID ->
  zlen (active_node (conf (sctx s))) = MAX_NODE_ID ->
  let act := active_node (conf (sctx s)) in let f := fun k => forks s (S k) in
  start_simulate_local s =
  Ok (mkSim (set_sim_nodes (local_nodes f act (sim_nodes (sctx s))) (set_phy_pid (forks s 0%nat) (sctx s))) (sim_q s)
        (local_forks f act) (trace s ++ Forked (forks s 0%nat) SIMPHY_BINARY (-1) :: local_starts f 0 act)).
Proof.
  intros Hn Ha act f. unfold start_simulate_local, node_ids. rewrite <- Hn.
  assert (E : forall s1 : state, sim_nodes (sctx s1) = sim_nodes (sctx s) -> active_node (conf (sctx s1)) = act ->
    rfold (fun s i => let* a := deref (active_node (conf (sctx s)) !! Z.to_nat i) in
                      if a =? 1 then start_simnode s i else Ok s) (seqZ 0 (zlen (sim_nodes (sctx s)))) s1 =
    Ok (moved s1 (local_nodes (forks s1) act (sim_nodes (sctx s))) (local_forks (forks s1) act) (local_starts (forks s1) 0 act))).
  { intros s1 E1 E2. refine (local_start_loop (sim_nodes (sctx s)) s1 [] act _ E1 E2).
    unfold act. unfold zlen in *. lia. }
  rewrite E by done. unfold moved. cbn. by rewrite <- app_assoc.
Qed.

(** ** Sending the configuration *)

(** A loop over the first entries of a table is a loop over these entries. *)
Lemma rfold_index {A B} (tbl : A -> list B) (f : A -> B -> res A) (l tl : list B) :
  (forall a b a', f a b = Ok a' -> tbl a' = tbl a) -> forall pre a, tbl a = pre ++ l ++ tl ->
  rfold (fun a i => let* b := deref (tbl a !! Z.to_nat i) in f a b) (seqZ (zlen pre) (zlen l)) a = rfold f l a.
Proof.
  intros Hf. induction l as [|b l IH]; intros pre a Ha; [done|].
  rewrite seqZ_cons by (rewrite zlen_cons; pose proof (zlen_nonneg l); lia). cbn [rfold].
  assert (El : tbl a !! Z.to_nat (zlen pre) = Some b)
    by (rewrite Ha; unfold zlen; rewrite Nat2Z.id; by apply list_lookup_middle).
  rewrite El. cbn [deref rbind]. destruct (f a b) as [a1| | |] eqn:E; [|done..]. cbn [rbind].
  rewrite <- (IH (pre ++ [b]) a1) by (rewrite (Hf _ _ _ E), Ha; by rewrite <- app_assoc).
  rewrite zlen_snoc. by replace (Z.pred (zlen (b :: l))) with (zlen l) by (rewrite zlen_cons; lia).
Qed.

Definition streams_of (n : Z) (cs : list NetSetDummyTrafficConfig) : list command :=
  map CmdSet (List.filter (fun c => src_id c =? n) cs).

Lemma send_streams_ok cs : forall (s : state), sim_wf (sctx s) -> Forall (fun c => In (src_id c) node_ids) cs ->
  exists q', rfold (fun s info => let* n := sim_node (sctx s) (src_id info) in
      let* r := send_mq (sim_q s) (mqid_net_command n) (enc_dummy_config info) 10 CONF_MSG_TYPE_NET_SET_DUMMY_TRAFFIC in
      Ok (with_q (fst r) s)) cs s = Ok (with_q q' s) /\
    (forall n, In n node_ids -> pushed (sim_q s) q' (net_command n) (map command_msg (streams_of n cs))) /\
    forall i, (forall n, In n node_ids -> i <> net_command n) -> pushed (sim_q s) q' i [].
Proof.
  induction cs as [|c cs IH]; intros s Hw Hc.
  - exists (sim_q s). split; [by destruct s|]. split; intros; apply pushed_refl.
  - apply Forall_cons_1 in Hc as [Hsrc Hc].
    destruct (send_command s (src_id c) (CmdSet c) Hw Hsrc) as (q1 & E1 & Hp1 & Ho1).
    change (zlen (text (command_msg (CmdSet c)))) with 10 in E1.
    change (text (command_msg (CmdSet c))) with (enc_dummy_config c) in E1.
    change (type (command_msg (CmdSet c))) with CONF_MSG_TYPE_NET_SET_DUMMY_TRAFFIC in E1.
    destruct (IH (with_q q1 s) Hw Hc) as (q2 & E2 & Hp2 & Ho2). exists q2. cbn [rfold]. rewrite E1. cbn [rbind].
    split; [exact E2|]. split.
    + intros n Hn. unfold streams_of. cbn [List.filter].
      assert (Hone : pushed (sim_q s) q1 (net_command n) (if src_id c =? n then [command_msg (CmdSet c)] else [])).
      { destruct (Z.eqb_spec (src_id c) n) as [<-|Hne]; [done|]. apply Ho1. unfold net_command. intros E.
        apply msgget_inj in E. lia. }
      destruct (src_id c =? n); exact (pushed_app _ _ _ _ _ _ Hone (Hp2 n Hn)).
    + intros i Hi. exact (pushed_app _ _ _ _ [] [] (Ho1 i (Hi _ Hsrc)) (Ho2 i Hi)).
Qed.

Lemma send_links_ok ls : forall (s : state), sim_wf (sctx s) ->
  exists q', rfold (fun s l =>
      let* r := send_mq (sim_q s) (sim_phy_command (sctx s)) (enc_config l) 7 CONF_MSG_TYPE_PHY_LINK_CONFIG in
      Ok (with_q (fst r) s)) ls s = Ok (with_q q' s) /\
    pushed (sim_q s) q' phy_command_q (map config_msg ls) /\ forall i, i <> phy_command_q -> pushed (sim_q s) q' i [].
Proof.
  induction ls as [|l ls IH]; intros s Hw.
  - exists (sim_q s). split; [by destruct s|]. split; intros; apply pushed_refl.
  - destruct (wf_sim_phy _ Hw) as [Ephy _]. cbn [rfold]. rewrite Ephy. fold phy_command_q.
    destruct (send_mq_ok (sim_q s) phy_command_q (enc_config l) 7 CONF_MSG_TYPE_PHY_LINK_CONFIG (enc_config l))
      as (q1 & r & E1 & Hp1 & Ho1); [done|by unfold MQ_MAX_DATA_LEN|done|].
    destruct (IH (with_q q1 s) Hw) as (q2 & E2 & Hp2 & Ho2). exists q2. rewrite E1. split; [exact E2|]. split.
    + exact (pushed_app _ _ _ _ [config_msg l] _ Hp1 Hp2).
    + intros i Hi. exact (pushed_app _ _ _ _ [] [] (Ho1 i Hi) (Ho2 i Hi)).
Qed.

Lemma send_config_ok (s : state) sc : sim_wf (sctx s) -> conf (sctx s) = scenario_conf sc ->
  Forall (fun c => In (src_id c) node_ids) (sc_streams sc) ->
  exists q', send_config_msgs s = Ok (with_q q' s) /\
    (forall n, In n node_ids -> pushed (sim_q s) q' (net_command n) (map command_msg (streams_of n (sc_streams sc)))) /\
    pushed (sim_q s) q' phy_command_q (map config_msg (sc_links sc)) /\
    forall i, i <> phy_command_q -> (forall n, In n node_ids -> i <> net_command n) -> pushed (sim_q s) q' i [].
Proof.
  intros Hw Hconf Hsrc. unfold send_config_msgs, send_dummystream_config_msgs.
  destruct (send_streams_ok (sc_streams sc) s Hw Hsrc) as (q1 & E1 & Hp1 & Ho1).
  rewrite <- (rfold_index (fun st => dummy_stream_info (conf (sctx st))) _ (sc_streams sc)
    (drop (length (sc_streams sc)) (dummy_stream_info zero_conf))) with (pre := []) in E1.
  2:{ intros a b a' E. destruct (sim_node _ _); [|done..]. cbn [rbind] in E.
      destruct (send_mq _ _ _ _ _); [|done..]. by injection E as <-. }
  2:{ by rewrite Hconf. }
  rewrite Hconf. change (dummystream_conf_num (scenario_conf sc)) with (zlen (sc_streams sc)).
  change (zlen []) with 0 in E1. rewrite E1. cbn [rbind]. unfold send_link_config_msgs. cbn [sctx with_q]. rewrite Hconf.
  change (simlink_conf_num (scenario_conf sc)) with (zlen (sc_links sc)).
  destruct (send_links_ok (sc_links sc) (with_q q1 s) Hw) as (q2 & E2 & Hp2 & Ho2).
  rewrite <- (rfold_index (fun st => linkconfs (conf (sctx st))) _ (sc_links sc)
    (drop (length (sc_links sc)) (linkconfs zero_conf))) with (pre := []) in E2.
  2:{ intros a b a' E. destruct (send_mq _ _ _ _ _); [|done..]. by injection E as <-. }
  2:{ cbn [sctx with_q]. by rewrite Hconf. }
  exists q2. split; [exact E2|]. cbn [sim_q with_q] in Hp2, Ho2.
  assert (Hnp : forall n, In n node_ids -> net_command n <> phy_command_q).
  { intros n Hn%in_node_ids E%msgget_inj. unfold MQ_KEY_NET_COMMAND, MQ_KEY_PHY_COMMAND in E. lia. }
  split; [|split].
  - intros n Hn. rewrite <- (app_nil_r (map command_msg _)). apply (pushed_app _ _ _ _ _ [] (Hp1 n Hn)). by apply Ho2, Hnp.
  - refine (pushed_app _ _ _ _ [] _ (Ho1 _ _) Hp2). intros n Hn E. by apply (Hnp n Hn).
  - intros i Hi Hn. exact (pushed_app _ _ _ _ [] [] (Ho1 i Hn) (Ho2 i Hi)).
Qed.
End Local.

(** The flag of a node in the configuration. *)
Lemma activate_lookup ids : forall active i, 0 <= i < zlen active -> Forall (fun n => 0 <= n) ids ->
  activate active ids !! Z.to_nat i = if existsb (Z.eqb i) ids then Some 1 else active !! Z.to_nat i.
Proof.
  unfold activate. induction ids as [|n ids IH]; intros active i Hi Hn; [done|].
  apply Forall_cons_1 in Hn as [Hn0 Hn]. cbn [fold_left existsb].
  rewrite IH by (unfold zlen in *; rewrite ?length_insert; done || lia).
  destruct (Z.eqb_spec i n) as [->|Hne]; cbn [orb].
  - rewrite list_lookup_insert_eq by (unfold zlen in *; lia). by destruct (existsb _ _).
  - by rewrite list_lookup_insert_ne by lia.
Qed.
Lemma zlen_activate ids : forall active, zlen (activate active ids) = zlen active.
Proof.
  unfold activate. induction ids as [|n ids IH]; intros active; [done|]. cbn [fold_left]. rewrite IH.
  unfold zlen. by rewrite length_insert.
Qed.

(** What the local mode does with a scenario: the processes it starts, and what it
    sends to each node and to the radio. *)
Definition scenario_flags (sc : scenario) : list Z := activate (replicate (Z.to_nat MAX_NODE_ID) 0) (sc_nodes sc).
Record local_run {Q} `{MsgService Q} (s : sim_state) (sc : scenario) (s' : sim_state) : Prop := {
  run_trace : trace s' = trace s ++ Forked (forks s 0%nat) SIMPHY_BINARY (-1) ::
    local_starts (fun k => forks s (S k)) 0 (scenario_flags sc);
  run_streams : forall n, In n node_ids ->
    pushed (sim_q s) (sim_q s') (net_command n) (map command_msg (streams_of n (sc_streams sc)));
  run_links : pushed (sim_q s) (sim_q s') phy_command_q (map config_msg (sc_links sc));
  run_other : forall i, i <> phy_command_q -> (forall n, In n node_ids -> i <> net_command n) ->
    pushed (sim_q s) (sim_q s') i []
}.

Lemma wf_local_nodes {Q} `{MsgServiceOk Q} f act c pid : sim_wf c ->
  sim_wf (set_sim_nodes (local_nodes f act (sim_nodes c)) (set_phy_pid pid c)).
Proof.
  intros [Hn Hl Hp].
  assert (Hloc : forall nodes f act (i : nat) x, nodes !! i = Some x -> exists mp np,
    local_nodes f act nodes !! i = Some (set_net_pid np (set_mac_pid mp x))).
  { clear. assert (Hsame : forall x : SimNode, x = set_net_pid (net_pid x) (set_mac_pid (mac_pid x) x)) by (by intros []).
    induction nodes as [|n nodes IH]; intros f act i x Hi; [done|].
    destruct act as [|a act]; [exists (mac_pid x), (net_pid x); by rewrite <- Hsame|].
    destruct i as [|i]; cbn in Hi |- *.
    - injection Hi as <-. destruct (a =? 1); cbn; [by eexists _, _|]. exists (mac_pid n), (net_pid n). by rewrite <- Hsame.
    - destruct (a =? 1); cbn; by apply IH. }
  split; [|cbn; rewrite <- Hl|done].
  - intros n Hin. destruct (Hn n Hin) as (mp & np & E). unfold sim_node in E |- *. destruct (n <? 0); [done|].
    cbn [sim_nodes set_sim_nodes]. destruct (sim_nodes c !! Z.to_nat n) as [x|] eqn:Ex; [|done]. cbn in E. injection E as ->.
    destruct (Hloc _ f act _ _ Ex) as (mp' & np' & ->). by exists mp', np'.
  - clear. unfold zlen. f_equal. generalize (sim_nodes c) as nodes. intros nodes. revert f act.
    induction nodes as [|n nodes IH]; intros f [|a act]; [done..|]. cbn. destruct (a =? 1); cbn; by rewrite IH.
Qed.

(** C35: The local mode runs the scenario of its configuration file.  A file that does
    not parse ends the program with code 2, and so does one with more than 100
    streams; a node id outside the table, or more than 1000 links, leaves the table.
    Otherwise the program starts the radio process and exactly the listed nodes, in
    ascending order, each with its MAC and its network process, and then sends to each
    node the streams that start at it, numbered as in the file, and to the radio the
    links, in the order of the file, and nothing to anybody else. *)
Theorem local_mode {Q} `{MsgServiceOk Q} (parse : list Z -> res (option cJSON)) (text : list Z) (s : sim_state)
  (json : cJSON) (sc : scenario) (Hw : sim_wf (sctx s)) (Hzero : conf (sctx s) = zero_conf)
  (Hsrc : Forall (fun c => In (src_id c) node_ids) (sc_streams sc)) :
  (parse text = Ok None -> simulator_start_local (parse_config parse text) s = Exit 2) /\
  (parse text = Ok (Some json) -> says json sc ->
   let r := simulator_start_local (parse_config parse text) s in
   if negb (forallb in_table (sc_nodes sc)) then r = UB
   else if MAX_SIMLINK_CONF_NUM <? zlen (sc_links sc) then r = UB
   else if MAX_DUMMYSTREAM_CONF_NUM <? zlen (sc_streams sc) then r = Exit 2
   else exists s', r = Ok s' /\ local_run s sc s').
Proof.
  unfold simulator_start_local. rewrite Hzero. split.
  { intros E. unfold parse_config. by rewrite E. }
  intros E Hsays. pose proof (parse_config_ok json sc Hsays) as Ep. unfold parse_config in Ep |- *. rewrite E.
  cbn [rbind] in Ep |- *. rewrite Ep. clear Ep. cbv zeta.
  destruct (forallb in_table (sc_nodes sc)) eqn:Hnodes; [|done]. cbn [negb].
  destruct (MAX_SIMLINK_CONF_NUM <? zlen (sc_links sc)) eqn:Elinks; [done|].
  destruct (MAX_DUMMYSTREAM_CONF_NUM <? zlen (sc_streams sc)) eqn:Estreams; [done|]. cbn [rbind].
  set (s1 := with_sctx (set_conf (scenario_conf sc) (sctx s)) s).
  assert (Eact : active_node (conf (sctx s1)) = scenario_flags sc) by done.
  pose proof (start_local_ok s1 (wf_sim_len _ Hw)) as E1. cbv zeta in E1. rewrite Eact in E1.
  rewrite E1 by (unfold scenario_flags; rewrite zlen_activate; unfold zlen; rewrite length_replicate; done). clear E1.
  cbn [rbind]. set (s2 := mkSim _ _ _ _).
  destruct (send_config_ok s2 sc) as (q' & -> & Hp & Hl & Ho); [|done|done|].
  { apply wf_local_nodes. by destruct Hw. }
  exists (with_q q' s2). split; [done|]. by split.
Qed.

(** ** A run: two nodes, one link with the default line of sight, one stream *)
Definition ex_scenario : scenario :=
  mkScenario [1; 3] [mkPhyLinkConfig 1 3 1 20] [mkDummy 0 1 3 64 100].
Definition ex_config : cJSON :=
  ex_object [
    ex_named "nodes" (ex_array [ex_object [ex_number "id" 1]; ex_object [ex_number "id" 3]]);
    ex_named "links" (ex_array [ex_object [ex_number "nid1" 1; ex_number "nid2" 3; ex_number "pathloss" 20]]);
    ex_named "dummy_traffic" (ex_array [ex_object [ex_number "src_id" 1; ex_number "dst_id" 3;
      ex_number "payload_size" 64; ex_number "interval_ms" 100]])].
Definition ex_sim_start : sim_state (Q := ListQueues) :=
  mkSim (ex_sctx 0 (mkServer None None 0)) (mkLq 9 ∅) (fun n => 100 + Z.of_nat n) [].

Lemma ex_config_says : says ex_config ex_scenario.
Proof.
  repeat match goal with
    | |- says _ _ => split
    | |- says_list _ _ _ _ => eexists; split; [reflexivity|split; [reflexivity|]]
    | |- Forall2 _ _ _ => repeat constructor
    | |- says_node _ _ => unfold says_node
    | |- has_int _ _ _ => eexists; split; reflexivity
    | |- _ => done
    end.
Qed.

Lemma local_mode_witness :
  exists s', simulator_start_local (parse_config (fun _ => Ok (Some ex_config)) []) ex_sim_start = Ok s' /\
    local_run ex_sim_start ex_scenario s'.
Proof.
  destruct (local_mode (fun _ => Ok (Some ex_config)) [] ex_sim_start ex_config ex_scenario) as [_ Hm].
  - apply ex_sctx_wf.
  - reflexivity.
  - apply Forall_cons_2; [by apply in_node_ids|by constructor].
  - exact (Hm eq_refl ex_config_says).
Defined.
