(* ===== verification/SimReport.v ===== *)
(** Reports of the nodes, turned into JSON for the front end
    (simulator/sim_hdlreport.c). *)
From S2P Require Import Prelude RingBuffer MsgQueue Net Phy Simulator CJson CFormat SimConf.
From stdpp Require Import base list numbers.
From Stdlib Require Import ZArith Lia Ascii String.
Open Scope Z_scope.
Open Scope c_scope.

(** The two results of [RingBuffer_push] are ignored. *)
Definition send_json_to_front (c : SimulatorCtx) (json : list Z) : res SimulatorCtx :=
  if negb (server_mode c =? 1) then Ok c else push_json c json.

Definition trx_json (report_node peer tx rx : Z) : list Z :=
  [123] ++ quoted "type" ++ cstr ": " ++ quoted "TRx" ++ cstr ", " ++ quoted "node" ++ cstr ": " ++
  print_d report_node ++ cstr ", " ++ quoted "peer" ++ cstr ": " ++ print_u peer ++ cstr "," ++
  quoted "tx" ++ cstr ": " ++ print_d tx ++ cstr ", " ++ quoted "rx" ++ cstr ": " ++ print_d rx ++ [125].

(** The peer is octet 3 of the address in memory. *)
Definition process_net_trx_report (c : SimulatorCtx) (report_node : Z) (data : list Z) : res SimulatorCtx :=
  let* peer := rd8 data 3 in
  let* tx := rd32 data 4 in
  let* rx := rd32 data 8 in
  let* json := fits_buf 1024 (trx_json report_node peer tx rx) in
  send_json_to_front c json.

Definition route_head (report_node target visit_num : Z) : list Z :=
  [123] ++ quoted "type" ++ cstr ": " ++ quoted "Route" ++ cstr ", " ++ quoted "node" ++ cstr ": " ++
  print_d report_node ++ cstr ", " ++ quoted "target" ++ cstr ": " ++ print_d target ++ cstr "," ++
  quoted "hopcount" ++ cstr ": " ++ print_d visit_num ++ cstr ", " ++ quoted "path" ++ cstr " : [".

(** Each piece is written behind the last one. *)
Definition route_hop (data : list Z) (visit_num : Z) (b : list Z) (i : Z) : res (list Z) :=
  let* hop := rd8 data (4 + 4 * i + 2) in
  let* b := fits_buf 1024 (b ++ print_u hop) in
  if i =? visit_num - 1 then Ok b else fits_buf 1024 (b ++ cstr ", ").

Definition process_net_route_report (c : SimulatorCtx) (report_node : Z) (data : list Z) : res SimulatorCtx :=
  let* visit_num := rd16 data 0 in
  let* target := rd16 data 2 in
  let* b := fits_buf 1024 (route_head report_node target visit_num) in
  let* b := rfold (route_hop data visit_num) (seqZ 0 visit_num) b in
  let* json := fits_buf 1024 (b ++ cstr "]}") in
  send_json_to_front c json.

Definition handle_net_report (c : SimulatorCtx) (report_node type : Z) (data : list Z) : res SimulatorCtx :=
  if type =? REPORT_MSG_NET_TRX then process_net_trx_report c report_node data
  else if type =? REPORT_MSG_NET_ROUTING then process_net_route_report c report_node data
  else Ok c.

(** ** The queues *)
Section SimReport.
Context {Q : Type} `{MsgService Q}.

(** A queue whose messages mean nothing. *)
Definition discard (fuel : nat) (mqid : Z) (st : Q * MqMsgbuf) : res (Q * MqMsgbuf) :=
  let* r := recv_loop (fun q _ _ u => Ok (q, u)) fuel (fst st) mqid (snd st) tt in
  let '(q, _, msg) := r in Ok (q, msg).

Definition recv_phy_report (fuel : nat) (q : Q) (c : SimulatorCtx) (junk : MqMsgbuf) : res Q :=
  let* r := discard fuel (sim_phy_report c) (q, junk) in Ok (fst r).

Definition recv_mac_report (fuel : nat) (q : Q) (c : SimulatorCtx) (junk : MqMsgbuf) : res Q :=
  let* r := rfold (fun st i =>
      let* n := sim_node c i in discard fuel (mqid_mac_report n) st) node_ids (q, junk) in
  Ok (fst r).

Definition recv_net_report (fuel : nat) (q : Q) (c : SimulatorCtx) (junk : MqMsgbuf)
  : res (Q * SimulatorCtx) :=
  let* r := rfold (fun '(q, c, msg) i =>
      let* n := sim_node c i in
      recv_loop (fun q msg _ c => let* c := handle_net_report c i (type msg) (text msg) in Ok (q, c))
        fuel q (mqid_net_report n) msg c) node_ids (q, c, junk) in
  Ok (fst r).

Definition recv_report (fuel : nat) (s : sim_state) (junk1 junk2 junk3 : MqMsgbuf) : res sim_state :=
  let* q := recv_phy_report fuel (sim_q s) (sctx s) junk1 in
  let* q := recv_mac_report fuel q (sctx s) junk2 in
  let* r := recv_net_report fuel q (sctx s) junk3 in
  Ok (with_q (fst r) (with_sctx (snd r) s)).
End SimReport.
