(* ===== verification/SimServer.v ===== *)
(** The connection to the front end (simulator/sim_server.c): the stream of length
    prefixed JSON texts, and one turn of the loops of its two threads. *)
From S2P Require Import Prelude RingBuffer MsgQueue Net Phy Simulator CJson SimConf SimReport.
From stdpp Require Import base list numbers.
From Stdlib Require Import ZArith Lia.
Open Scope Z_scope.
Open Scope c_scope.

Definition TCP_IO_SIZE : Z := 10240.
Definition TCP_BUFFER_SIZE : Z := 819200.

Definition set_recvq (rb : option RingBuffer) (v : SimulatorServerCtx) : SimulatorServerCtx :=
  mkServer rb (sendq v) (stop v).
Definition set_sendq (rb : option RingBuffer) (v : SimulatorServerCtx) : SimulatorServerCtx :=
  mkServer (recvq v) rb (stop v).

(** ** The network thread *)

(** [simulator_start_server]; [blk1] and [blk2] are the new blocks. *)
Definition simulator_start_server (blk1 blk2 : list Z) (v : SimulatorServerCtx) : SimulatorServerCtx :=
  let v := match recvq v with
           | None => set_recvq (Some (RingBuffer_new TCP_BUFFER_SIZE blk1)) v
           | Some _ => v
           end in
  match sendq v with
  | None => set_sendq (Some (RingBuffer_new TCP_BUFFER_SIZE blk2)) v
  | Some _ => v
  end.
Definition simulator_free_server_buffers (v : SimulatorServerCtx) : SimulatorServerCtx :=
  set_sendq None (set_recvq None v).

(** No connection, or the end of one: what is buffered is dropped. *)
Definition drop_buffers (v : SimulatorServerCtx) : res SimulatorServerCtx :=
  let* r := deref (recvq v) in
  let* w := deref (sendq v) in
  Ok (set_sendq (Some (RingBuffer_drop_buffer w)) (set_recvq (Some (RingBuffer_drop_buffer r)) v)).

(** [data] is what [recv] returned, nothing if it had none. *)
Definition server_recv (v : SimulatorServerCtx) (data : list Z) : res SimulatorServerCtx :=
  if zlen data =? 0 then Ok v
  else
    let* rb := deref (recvq v) in
    let* r := RingBuffer_push rb data (zlen data) in
    Ok (set_recvq (Some (fst r)) v).

(** The bytes given to [send], in blocks of at most [TCP_IO_SIZE]. *)
Fixpoint server_send (fuel : nat) (v : SimulatorServerCtx) (sent : list Z) : res (SimulatorServerCtx * list Z) :=
  let* rb := deref (sendq v) in
  let readable := RingBuffer_get_readable_bufsize rb in
  if readable =? 0 then Ok (v, sent)
  else
    let keep_send := TCP_IO_SIZE <? readable in
    let readable := if keep_send then TCP_IO_SIZE else readable in
    let* r := RingBuffer_pop rb readable in
    let '(rb, b, _) := r in
    let v := set_sendq (Some rb) v in
    if keep_send then
      match fuel with O => NoFuel | S n => server_send n v (sent ++ b) end
    else Ok (v, sent ++ b).

(** ** The main thread *)
Section SimServer.
Context {Q : Type} `{MsgService Q}.
Abbreviation state := (sim_state (Q := Q)).
Context (handle : state -> list Z -> res state).

Definition put_recvq (rb : RingBuffer) (s : state) : state :=
  with_sctx (set_server_ctx (set_recvq (Some rb) (server_ctx (sctx s))) (sctx s)) s.

(** One turn of the loop: the state, and whether there was a message.  [handle] is
    [handle_remote_conf_msg]. *)
Definition parse_one (s : state) : res (state * bool) :=
  let* rb := deref (recvq (server_ctx (sctx s))) in
  let canread := RingBuffer_get_readable_bufsize rb in
  if 2 <=? canread then
    let* r := RingBuffer_read rb 2 in
    let '(rb, b, _) := r in
    let* jsonlen := rd16 b 0 in
    let jsonlen := ntohs jsonlen in
    if 2 + jsonlen <=? canread then
      let* r := RingBuffer_pop rb 2 in
      let '(rb, _, _) := r in
      let* r := RingBuffer_pop rb jsonlen in
      let '(rb, jsonstr, _) := r in
      let* s := handle (put_recvq rb s) jsonstr in
      Ok (s, true)
    else Ok (s, false)
  else Ok (s, false).

Fixpoint parse_loop (fuel : nat) (s : state) : res state :=
  let* r := parse_one s in
  if snd r then match fuel with O => NoFuel | S n => parse_loop n (fst r) end
  else Ok (fst r).

Definition parse_client_json (fuel : nat) (s : state) : res state :=
  match recvq (server_ctx (sctx s)) with
  | None => Ok s
  | Some _ => parse_loop fuel s
  end.
End SimServer.

(** One turn of [simulator_server_mainloop]. *)
Definition server_turn {Q} `{MsgService Q} (cJSON_Parse : list Z -> res (option CJson.cJSON))
  (fuel qfuel : nat) (junk : PhyLinkConfig) (junk1 junk2 junk3 : MqMsgbuf) (s : sim_state) : res sim_state :=
  let* s := parse_client_json (handle_remote_conf_msg cJSON_Parse junk) fuel s in
  recv_report qfuel s junk1 junk2 junk3.
