(* ===== verification/SimStream.v ===== *)
(** The byte stream between the front end and the simulator: framing in both
    directions, whatever the pieces are in which the bytes arrive. *)
From S2P Require Import Prelude RingBuffer MsgQueue Net Phy Simulator CJson SimConf SimReport SimServer.
From Stdlib Require Import Ascii String.
From stdpp Require Import base list numbers.
From Stdlib Require Import List.
From Stdlib Require Import ZArith Lia SpecFloat.
Open Scope Z_scope.
Open Scope c_scope.

(** ** The ring buffer as a queue of bytes *)
Definition holds (rb : RingBuffer) (b : list Z) : Prop :=
  RingBuffer.wf rb /\ RingBuffer.size rb = TCP_BUFFER_SIZE /\ contents rb = b.

Lemma holds_readable rb b : holds rb b -> RingBuffer_get_readable_bufsize rb = zlen b.
Proof. intros (Hw & _ & <-). by rewrite readable_used, zlen_contents. Qed.

Lemma holds_read rb b n : holds rb b -> 0 <= n <= zlen b ->
  exists rb', RingBuffer_read rb n = Ok (rb', take (Z.to_nat n) b, n) /\ holds rb' b.
Proof.
  intros (Hw & Hs & <-) Hn. destruct (read_spec rb n false Hw) as (rb' & E & Hw' & Ha); [lia|].
  unfold spec_read in E, Ha. cbn [items abs] in E, Ha.
  destruct (Z.ltb_spec (zlen (contents rb)) n); [lia|]. cbn in E, Ha.
  exists rb'. split; [exact E|]. injection Ha as H1 H2. split; [done|]. split; [congruence|done].
Qed.

Lemma holds_pop rb b n : holds rb b -> 0 <= n <= zlen b ->
  exists rb', RingBuffer_pop rb n = Ok (rb', take (Z.to_nat n) b, n) /\ holds rb' (drop (Z.to_nat n) b).
Proof.
  intros (Hw & Hs & <-) Hn. destruct (read_spec rb n true Hw) as (rb' & E & Hw' & Ha); [lia|].
  unfold spec_read in E, Ha. cbn [items abs] in E, Ha.
  destruct (Z.ltb_spec (zlen (contents rb)) n); [lia|]. cbn in E, Ha.
  exists rb'. split; [exact E|]. injection Ha as H1 H2. split; [done|]. split; [congruence|done].
Qed.

Lemma holds_push rb b data : holds rb b -> zlen b + zlen data <= TCP_BUFFER_SIZE ->
  exists rb', RingBuffer_push rb data (zlen data) = Ok (rb', zlen data) /\ holds rb' (b ++ data).
Proof.
  intros (Hw & Hs & <-) Hn. pose proof (zlen_contents rb Hw).
  destruct (push_ok rb data (zlen data) Hw) as (rb' & E & Hw' & Hs' & Hc); [pose proof (zlen_nonneg data); lia|lia|].
  exists rb'. split; [exact E|]. split; [done|]. split; [congruence|]. rewrite Hc. f_equal.
  apply take_ge. unfold zlen. lia.
Qed.

(** ** Frames *)
Definition frame (m : list Z) : list Z := [zlen m / 256; zlen m mod 256] ++ m.
Definition frames (ms : list (list Z)) : list Z := concat (map frame ms).
Definition frame_ok (m : list Z) : Prop := zlen m < 65536.
(** Not yet a whole frame. *)
Definition incomplete (b : list Z) : Prop :=
  match b with hi :: lo :: b' => zlen b' < 256 * hi + lo | _ => True end.

Lemma zlen_frame m : zlen (frame m) = 2 + zlen m.
Proof. unfold frame. zlens. Qed.

Lemma frame_incomplete m b : ~ incomplete (frame m ++ b).
Proof. unfold frame. cbn [app incomplete]. zlens. Qed.

Lemma frame_inj m1 m2 b1 b2 : frame_ok m1 -> frame_ok m2 -> frame m1 ++ b1 = frame m2 ++ b2 ->
  m1 = m2 /\ b1 = b2.
Proof.
  unfold frame, frame_ok. cbn [app]. intros H1 H2 E. injection E as E1 E2 E3.
  assert (El : zlen m1 = zlen m2) by (pose proof (zlen_nonneg m1); pose proof (zlen_nonneg m2); lia).
  apply app_inj_1 in E3; [done|]. unfold zlen in El. lia.
Qed.

(** The frames at the head of a stream are those of any decomposition of it. *)
Lemma frames_prefix ms1 : forall ms t1 t rest, Forall frame_ok ms1 -> Forall frame_ok ms -> incomplete t ->
  frames ms1 ++ t1 ++ rest = frames ms ++ t ->
  exists ms2, ms = ms1 ++ ms2 /\ t1 ++ rest = frames ms2 ++ t.
Proof.
  induction ms1 as [|m1 ms1 IH]; intros ms t1 t rest H1 H2 Ht E; [by exists ms|].
  apply Forall_cons_1 in H1 as [Hm1 H1]. unfold frames in E. cbn [map concat] in E.
  rewrite <- app_assoc in E. destruct ms as [|m ms].
  - cbn in E. exfalso. subst t. by apply frame_incomplete in Ht.
  - apply Forall_cons_1 in H2 as [Hm H2]. cbn [map concat] in E. rewrite <- app_assoc in E.
    apply frame_inj in E as [<- E]; [|done|done].
    destruct (IH ms t1 t rest H1 H2 Ht E) as (ms2 & -> & E'). by exists ms2.
Qed.

(** Every stream of bytes is a sequence of frames and the beginning of one. *)
Lemma split_frames n : forall b, (length b <= n)%nat -> Forall is_u8 b ->
  exists ms t, b = frames ms ++ t /\ incomplete t /\ Forall frame_ok ms /\ (length ms <= length b)%nat.
Proof.
  induction n as [|n IH]; intros b Hl Hb.
  { destruct b; [|cbn in Hl; lia]. by exists [], []. }
  destruct b as [|hi [|lo b]]; [by exists [], []|exists [], [hi]; do 2 (split; [done|]); split; [by constructor|cbn; lia]|].
  destruct (Z.ltb_spec (zlen b) (256 * hi + lo)) as [Hi|Hi].
  { exists [], (hi :: lo :: b). do 2 (split; [done|]). split; [by constructor|cbn; lia]. }
  apply Forall_cons_1 in Hb as [Hhi Hb]. apply Forall_cons_1 in Hb as [Hlo Hb]. unfold is_u8 in Hhi, Hlo.
  set (k := Z.to_nat (256 * hi + lo)). cbn in Hl.
  destruct (IH (drop k b)) as (ms & t & E & Ht & Hms & Hlen); [rewrite length_drop; lia|by apply Forall_drop|].
  assert (Hk : zlen (take k b) = 256 * hi + lo)
    by (unfold k, zlen in *; rewrite length_take; lia).
  exists (take k b :: ms), t. split; [|split; [done|split]].
  - unfold frames. cbn [map concat]. rewrite <- app_assoc. fold (frames ms). rewrite <- E.
    unfold frame. rewrite Hk. cbn [app]. f_equal; [lia|]. f_equal; [lia|]. by rewrite take_drop.
  - constructor; [|done]. unfold frame_ok. lia.
  - cbn. rewrite length_drop in Hlen. lia.
Qed.

(** ** Receiving *)
Definition rmap {A B} (f : A -> B) (m : res A) : res B := let* a := m in Ok (f a).

Section Receive.
Context {Q : Type} `{MsgService Q}.
Abbreviation state := (sim_state (Q := Q)).
Context (handle : state -> list Z -> res state).

(** The handler does not look at the receive queue. *)
Definition blind_to_recvq : Prop :=
  forall rb s m, handle (put_recvq rb s) m = rmap (put_recvq rb) (handle s m).
Hypothesis Hblind : blind_to_recvq.

Lemma read_length a b : is_u8 a -> is_u8 b ->
  rd16 [a; b] 0 = Ok (a + 256 * b) /\ ntohs (a + 256 * b) = 256 * a + b.
Proof. unfold is_u8. intros. split; [done|]. unfold ntohs, htons, u16. lia. Qed.

Lemma put_put_recvq rb rb' (s : state) : put_recvq rb (put_recvq rb' s) = put_recvq rb s.
Proof. done. Qed.

Lemma parse_one_frame rb m rest (s s' : state) : frame_ok m -> holds rb (frame m ++ rest) ->
  handle s m = Ok s' ->
  exists rb', parse_one handle (put_recvq rb s) = Ok (put_recvq rb' s', true) /\ holds rb' rest.
Proof.
  intros Hm Hrb Hh. unfold frame_ok in Hm. unfold parse_one. cbn [recvq server_ctx sctx put_recvq with_sctx set_server_ctx set_recvq].
  cbn [deref rbind]. rewrite (holds_readable _ _ Hrb), zlen_app, zlen_frame.
  pose proof (zlen_nonneg m) as Hm0. pose proof (zlen_nonneg rest) as Hr0.
  destruct (Z.leb_spec 2 (2 + zlen m + zlen rest)); [|lia].
  destruct (holds_read rb _ 2 Hrb) as (rb1 & -> & Hrb1); [rewrite zlen_app, zlen_frame; lia|].
  cbn [rbind]. change (take (Z.to_nat 2) (frame m ++ rest)) with [zlen m / 256; zlen m mod 256].
  destruct (read_length (zlen m / 256) (zlen m mod 256)) as [-> Hj]; [unfold is_u8; lia..|].
  cbn [rbind]. rewrite Hj. replace (256 * (zlen m / 256) + zlen m mod 256) with (zlen m) by lia.
  destruct (Z.leb_spec (2 + zlen m) (2 + zlen m + zlen rest)); [|lia].
  destruct (holds_pop rb1 _ 2 Hrb1) as (rb2 & -> & Hrb2); [rewrite zlen_app, zlen_frame; lia|].
  cbn [rbind]. change (drop (Z.to_nat 2) (frame m ++ rest)) with (m ++ rest) in Hrb2.
  destruct (holds_pop rb2 _ (zlen m) Hrb2) as (rb3 & -> & Hrb3); [rewrite zlen_app; lia|].
  cbn [rbind]. assert (El : Z.to_nat (zlen m) = length m) by (unfold zlen; lia).
  rewrite El, take_app_length in *. rewrite drop_app_length in Hrb3.
  rewrite put_put_recvq, Hblind, Hh. exists rb3. by split.
Qed.

Lemma parse_one_incomplete rb t (s : state) : incomplete t -> Forall is_u8 t -> holds rb t ->
  parse_one handle (put_recvq rb s) = Ok (put_recvq rb s, false).
Proof.
  intros Ht Hu Hrb. unfold parse_one. cbn [recvq server_ctx sctx put_recvq with_sctx set_server_ctx set_recvq].
  cbn [deref rbind]. rewrite (holds_readable _ _ Hrb).
  destruct t as [|hi [|lo t]]; [done..|].
  apply Forall_cons_1 in Hu as [Hhi Hu]. apply Forall_cons_1 in Hu as [Hlo _]. unfold is_u8 in Hhi, Hlo.
  assert (El : zlen (hi :: lo :: t) = 2 + zlen t) by (rewrite !zlen_cons; lia).
  pose proof (zlen_nonneg t).
  destruct (holds_read rb _ 2 Hrb) as (rb1 & -> & Hrb1); [lia|].
  rewrite El. destruct (Z.leb_spec 2 (2 + zlen t)); [|lia].
  cbn [rbind]. change (take (Z.to_nat 2) (hi :: lo :: t)) with [hi; lo]. cbn [incomplete] in Ht.
  destruct (read_length hi lo) as [-> Hj]; [done..|]. cbn [rbind]. rewrite Hj.
  by destruct (Z.leb_spec (2 + (256 * hi + lo)) (2 + zlen t)); [lia|].
Qed.

Lemma parse_loop_frames t ms : forall fuel rb (s s' : state), (length ms <= fuel)%nat ->
  Forall frame_ok ms -> incomplete t -> Forall is_u8 t -> holds rb (frames ms ++ t) -> rfold handle ms s = Ok s' ->
  exists rb', parse_loop handle fuel (put_recvq rb s) = Ok (put_recvq rb' s') /\ holds rb' t.
Proof.
  induction ms as [|m ms IH]; intros fuel rb s s' Hf Hms Ht Hu Hrb Hrun; cbn in Hrun.
  - injection Hrun as <-. exists rb. split; [|done].
    destruct fuel; cbn [parse_loop]; by rewrite (parse_one_incomplete rb t s Ht Hu Hrb).
  - apply Forall_cons_1 in Hms as [Hm Hms]. destruct (handle s m) as [s1| | |] eqn:E; [|done..].
    cbn in Hrun. unfold frames in Hrb. cbn [map concat] in Hrb. rewrite <- app_assoc in Hrb.
    destruct (parse_one_frame rb m _ s s1 Hm Hrb E) as (rb1 & E1 & Hrb1).
    destruct fuel as [|fuel]; [cbn in Hf; lia|]. cbn [parse_loop]. rewrite E1. cbn [rbind snd fst].
    apply IH; try done. cbn in Hf. lia.
Qed.

(** The pieces that arrive, each followed by a turn of the main thread. *)
Definition receive (fuel : nat) (s : state) (piece : list Z) : res state :=
  let* v := server_recv (server_ctx (sctx s)) piece in
  parse_client_json handle fuel (with_sctx (set_server_ctx v (sctx s)) s).

Lemma receive_piece fuel rb b piece (s s' : state) ms t :
  holds rb b -> zlen b + zlen piece <= TCP_BUFFER_SIZE -> b ++ piece = frames ms ++ t ->
  incomplete t -> Forall is_u8 t -> Forall frame_ok ms -> (length ms <= fuel)%nat -> rfold handle ms s = Ok s' ->
  exists rb', receive fuel (put_recvq rb s) piece = Ok (put_recvq rb' s') /\ holds rb' t.
Proof.
  intros Hrb Hroom E Ht Hu Hms Hf Hrun. unfold receive, server_recv.
  assert (Hpush : exists rb1, holds rb1 (b ++ piece) /\
    (let* v := server_recv (server_ctx (sctx (put_recvq rb s))) piece in
     Ok (with_sctx (set_server_ctx v (sctx (put_recvq rb s))) (put_recvq rb s))) = Ok (put_recvq rb1 s)).
  { unfold server_recv. destruct (Z.eqb_spec (zlen piece) 0) as [H0|H0].
    - apply zlen_0 in H0 as ->. rewrite app_nil_r. exists rb. by split.
    - cbn [recvq server_ctx sctx put_recvq with_sctx set_server_ctx set_recvq deref rbind].
      destruct (holds_push rb b piece Hrb Hroom) as (rb1 & -> & Hrb1). by exists rb1. }
  destruct Hpush as (rb1 & Hrb1 & E1). rewrite E in Hrb1. unfold server_recv in E1.
  destruct (if zlen piece =? 0 then _ else _) as [v| | |]; cbn [rbind] in E1 |- *; [|done..].
  injection E1 as ->. unfold parse_client_json.
  change (with_sctx _ (put_recvq rb s)) with (put_recvq rb1 s).
  cbn [recvq server_ctx sctx put_recvq with_sctx set_server_ctx set_recvq].
  by apply parse_loop_frames with (ms := ms).
Qed.

Lemma incomplete_short b : incomplete b -> Forall is_u8 b -> zlen b <= 65536.
Proof.
  destruct b as [|hi [|lo b]]; [done..|]. cbn [incomplete]. rewrite !zlen_cons. intros Hi Hu.
  apply Forall_cons_1 in Hu as [Hhi Hu]. apply Forall_cons_1 in Hu as [Hlo _]. unfold is_u8 in Hhi, Hlo. lia.
Qed.

Lemma receive_pieces fuel t pieces : forall rb b ms (s s' : state),
  holds rb b -> incomplete b -> Forall is_u8 (b ++ concat pieces) ->
  Forall (fun p => zlen p <= TCP_IO_SIZE) pieces -> b ++ concat pieces = frames ms ++ t ->
  incomplete t -> Forall frame_ok ms -> (length ms <= fuel)%nat -> rfold handle ms s = Ok s' ->
  exists rb', rfold (receive fuel) pieces (put_recvq rb s) = Ok (put_recvq rb' s') /\ holds rb' t.
Proof.
  induction pieces as [|p pieces IH]; intros rb b ms s s' Hrb Hb Hu Hp E Ht Hms Hf Hrun; cbn [rfold concat] in *.
  - rewrite app_nil_r in E. destruct ms as [|m ms].
    + injection Hrun as <-. cbn in E. subst t. by exists rb.
    + unfold frames in E. cbn [map concat] in E. rewrite <- app_assoc in E. subst b.
      by apply frame_incomplete in Hb.
  - apply Forall_cons_1 in Hp as [Hp Hps]. rewrite app_assoc in Hu, E.
    assert (Hbu : Forall is_u8 b) by (apply Forall_app in Hu as [Hu _]; by apply Forall_app in Hu as [Hu _]).
    destruct (split_frames (length (b ++ p)) (b ++ p)) as (ms1 & t1 & E1 & Ht1 & Hms1 & _); [lia| |].
    { by apply Forall_app in Hu as [Hu _]. }
    assert (Ht1u : Forall is_u8 t1).
    { rewrite E1 in Hu. apply Forall_app in Hu as [Hu _]. by apply Forall_app in Hu as [_ Hu]. }
    rewrite E1, <- app_assoc in E.
    destruct (frames_prefix ms1 ms t1 t _ Hms1 Hms Ht E) as (ms2 & -> & E2).
    rewrite rfold_app in Hrun. destruct (rfold handle ms1 s) as [s1| | |] eqn:Hrun1; [|done..].
    rewrite length_app in Hf. apply Forall_app in Hms as [_ Hms2].
    destruct (receive_piece fuel rb b p s s1 ms1 t1) as (rb1 & -> & Hrb1); try done; [|lia|].
    { pose proof (incomplete_short b Hb Hbu). unfold TCP_IO_SIZE, TCP_BUFFER_SIZE in *. lia. }
    cbn [rbind]. apply IH with (b := t1) (ms := ms2); try done; [|lia].
    rewrite E1, <- app_assoc in Hu. by apply Forall_app in Hu as [_ Hu].
Qed.
End Receive.

(** ** The handler of the configuration messages does not look at the receive queue *)

(** An operation commutes with a change of the state it ignores. *)
Definition commutes {A} (g : A -> A) (f : A -> res A) : Prop := forall s, f (g s) = rmap g (f s).

Lemma commutes_bind {A} (g : A -> A) f k : commutes g f -> commutes g k ->
  commutes g (fun s => let* s := f s in k s).
Proof. intros Hf Hk s. rewrite Hf. destruct (f s) as [s1| | |]; [apply Hk|done..]. Qed.

Lemma commutes_rfold {A B} (g : A -> A) (f : A -> B -> res A) l : (forall b, commutes g (fun s => f s b)) ->
  commutes g (rfold f l).
Proof.
  intros Hf. induction l as [|b l IH]; [done|]. exact (commutes_bind _ _ _ (Hf b) IH).
Qed.

Section Blind.
Context {Q : Type} `{MsgService Q}.
Abbreviation state := (sim_state (Q := Q)).
Context (rb : RingBuffer).
Abbreviation put := (put_recvq (Q := Q) rb).

Lemma blind_status : commutes put send_status.
Proof.
  intros s. unfold send_status, push_json, push_sendq. cbn -[RingBuffer_push status_json].
  destruct (sendq _) as [r|]; [|done]. cbn -[RingBuffer_push status_json].
  destruct (RingBuffer_push r _ 2) as [r1| | |]; [|done..]. cbn -[RingBuffer_push status_json].
  by destruct (RingBuffer_push (fst r1) _ _).
Qed.

Lemma blind_upd_node f nid : commutes put (upd_node f nid).
Proof.
  intros s. unfold upd_node. change (sim_node (sctx (put s)) nid) with (sim_node (sctx s) nid).
  by destruct (sim_node (sctx s) nid).
Qed.

Lemma blind_kill_node i : commutes put (fun s => kill_node s i).
Proof.
  intros s. unfold kill_node. change (sim_node (sctx (put s)) i) with (sim_node (sctx s) i).
  destruct (sim_node (sctx s) i) as [n| | |]; [|done..]. cbn [rbind].
  apply (commutes_bind put (fun s => if 0 <? net_pid n then upd_node (set_net_pid 0) i (kill s (net_pid n)) else Ok s)
    (fun s => let* n := sim_node (sctx s) i in
       if 0 <? mac_pid n then upd_node (set_mac_pid 0) i (kill s (mac_pid n)) else Ok s)); clear s.
  - intros s. destruct (0 <? net_pid n); [|done]. by rewrite <- blind_upd_node.
  - intros s. change (sim_node (sctx (put s)) i) with (sim_node (sctx s) i).
    destruct (sim_node (sctx s) i) as [k| | |]; [|done..]. cbn [rbind].
    destruct (0 <? mac_pid k); [|done]. by rewrite <- blind_upd_node.
Qed.

Lemma blind_start_simnode i : commutes put (fun s => start_simnode s i).
Proof.
  intros s. unfold start_simnode, start_mac, start_net, execute_simulation_component_binary.
  cbn beta iota zeta.
  change (mkSim (sctx (put s)) (sim_q (put s)) ?f ?t) with (put (mkSim (sctx s) (sim_q s) f t)).
  rewrite blind_upd_node. destruct (upd_node _ _ _) as [s1| | |]; [|done..]. cbn.
  apply (blind_upd_node _ i (mkSim (sctx s1) (sim_q s1) _ _)).
Qed.

Lemma blind_start_remote n : commutes put (fun s => start_simulate_remote s n).
Proof.
  intros s. unfold start_simulate_remote. apply (commutes_bind put simulator_kill_all_process
    (fun s => rfold start_simnode (seqZ 0 n) (start_phy s))); clear s; intros s.
  - unfold simulator_kill_all_process. cbn [sctx put_recvq with_sctx set_server_ctx phy_pid].
    rewrite <- (commutes_rfold put kill_node node_ids blind_kill_node). by destruct (0 <? phy_pid (sctx s)).
  - exact (commutes_rfold put start_simnode (seqZ 0 n) blind_start_simnode (start_phy s)).
Qed.

Lemma blind_link_info junk json : commutes put (fun s => handle_link_info_msg junk s json).
Proof.
  intros s. unfold handle_link_info_msg. destruct (cJSON_IsArray _); [|done].
  set (put3 := fun st : state * PhyLinkConfig * Z => (put (fst (fst st)), snd (fst st), snd st)).
  assert (Hlink : forall n1 l, commutes put3 (fun st => handle_link n1 st l)).
  { intros n1 l [[s1 msg] n2]. unfold handle_link, put3. cbn [fst snd].
    assert (E : forall st : state * PhyLinkConfig,
      (let* r := (if cJSON_IsNumber (Some l) then link_number n1 n2 (valuedouble l) (put (fst st), snd st)
                  else Ok (put (fst st), snd st)) in Ok r) =
      rmap (fun st => (put (fst st), snd st))
        (if cJSON_IsNumber (Some l) then link_number n1 n2 (valuedouble l) st else Ok st)).
    { intros [s2 m2]. destruct (cJSON_IsNumber _); [|done]. unfold link_number. cbn [fst snd].
      change (link_entry (sctx (put s2)) n1 n2) with (link_entry (sctx s2) n1 n2).
      destruct (link_entry (sctx s2) n1 n2) as [old| | |]; [|done..]. cbn [rbind]. by destruct (_ || _). }
    specialize (E (s1, msg)). cbn [fst snd] in E.
    destruct (if cJSON_IsNumber (Some l) then link_number n1 n2 _ (s1, msg) else _) as [[s2 m2]| | |];
      destruct (if cJSON_IsNumber (Some l) then _ else Ok (put s1, msg)) as [[s3 m3]| | |];
      try done; cbn in E; [|by injection E as ->].
    injection E as -> ->. cbn -[send_mq enc_config]. by destruct (send_mq (sim_q s2) _ _ _ _). }
  assert (Hrow : forall r, commutes put3 (fun st => handle_link_row st r)).
  { intros r [[s1 msg] n1]. unfold handle_link_row, put3. cbn [fst snd].
    pose proof (commutes_rfold put3 _ (child r) (Hlink n1) (s1, msg, n1 + 1)) as E.
    unfold put3 at 1 in E. cbn [fst snd] in E. rewrite E.
    by destruct (rfold (handle_link n1) (child r) (s1, msg, n1 + 1)) as [[[? ?] ?]| | |]. }
  pose proof (commutes_rfold put3 _ (cJSON_items (cJSON_GetObjectItem json (cstr "links"))) Hrow (s, junk, 0)) as E.
  unfold put3 at 1 in E. cbn [fst snd] in E. rewrite E.
  by destruct (rfold handle_link_row _ (s, junk, 0)) as [[[? ?] ?]| | |].
Qed.

Lemma blind_start_dummy json upd : commutes put (fun s => handle_start_dummy_traffic s json upd).
Proof.
  intros s. unfold handle_start_dummy_traffic. destruct (get_int json "confId") as [i|]; [|done].
  change (stream_info (sctx (put s)) i) with (stream_info (sctx s) i).
  destruct (stream_info (sctx s) i) as [m| | |]; [|done..]. cbn [rbind].
  destruct (get_int json "sourceNodeId"); [|done]. destruct (get_int json "destinationNodeId"); [|done].
  destruct (get_int json "packetSize"); [|done]. destruct (get_int json "intervalMs"); [|done].
  cbv zeta. match goal with |- context [store s i ?mm] =>
    set (s1 := store s i mm); change (store (put s) i mm) with (put s1) end.
  match goal with |- context [sim_node (sctx s1) ?k] =>
    change (sim_node (sctx (put s1)) k) with (sim_node (sctx s1) k); destruct (sim_node (sctx s1) k) as [n| | |] end;
    [|done..].
  cbn [rbind]. change (sim_q (put s1)) with (sim_q s1). by destruct (send_mq (sim_q s1) _ _ _ _).
Qed.

Lemma blind_stop_dummy json : commutes put (fun s => handle_stop_dummy_traffic s json).
Proof.
  intros s. unfold handle_stop_dummy_traffic. destruct (get_int json "confId") as [i|]; [|done].
  change (stream_info (sctx (put s)) (u16 i)) with (stream_info (sctx s) (u16 i)).
  destruct (stream_info (sctx s) (u16 i)) as [m| | |]; [|done..]. cbn [rbind].
  change (sim_node (sctx (put s)) (src_id m)) with (sim_node (sctx s) (src_id m)).
  destruct (sim_node _ _) as [n| | |]; [|done..]. cbn -[send_mq le16]. by destruct (send_mq (sim_q s) _ _ _ _).
Qed.

Lemma blind_dispatch junk json typestr : commutes put (fun s => dispatch junk s json typestr).
Proof.
  intros s. unfold dispatch. repeat match goal with |- context [streq ?a ?b] => destruct (streq a b) end;
    try done; try apply blind_link_info; try apply blind_start_dummy; try apply blind_stop_dummy.
  - apply blind_status.
  - unfold handle_start_simulation_msg. destruct (get_int json "nodenum"); [apply blind_start_remote|done].
Qed.
End Blind.

Lemma handle_conf_blind {Q} `{MsgService Q} parse junk : blind_to_recvq (handle_remote_conf_msg parse junk).
Proof.
  intros rb s m. unfold handle_remote_conf_msg. destruct (parse m) as [json| | |]; [|done..]. cbn [rbind].
  destruct (cJSON_GetObjectItem json _) as [type|]; [|done].
  destruct (cJSON_IsString _); [|done]. destruct (valuestring type) as [t|]; [|done]. cbn [deref rbind].
  apply blind_dispatch.
Qed.

(** C10: The stream from the front end is taken apart independently of the pieces in
    which it arrives.  When the pieces, each at most what one [recv] returns,
    concatenate to the frames of the messages [ms] and the beginning [t] of another,
    then taking them in one by one, with a turn of the main loop after each, hands
    exactly the messages [ms] to [handle_remote_conf_msg], once and in order: the
    final state is that of handling them one after the other, and the receive buffer
    holds just [t].  No read or write leaves the ring buffer, and the loop ends. *)
Theorem client_stream {Q} `{MsgService Q} (parse : list Z -> res (option cJSON)) (junk : PhyLinkConfig)
  (fuel : nat) (rb : RingBuffer) (s s' : sim_state) (ms pieces : list (list Z)) (t : list Z)
  (Hrb : holds rb []) (Hms : Forall frame_ok ms) (Ht : incomplete t)
  (Hstream : concat pieces = frames ms ++ t) (Hbytes : Forall is_u8 (concat pieces))
  (Hpieces : Forall (fun p => zlen p <= TCP_IO_SIZE) pieces) (Hfuel : (length ms <= fuel)%nat)
  (Hrun : rfold (handle_remote_conf_msg parse junk) ms s = Ok s') :
  exists rb', rfold (receive (handle_remote_conf_msg parse junk) fuel) pieces (put_recvq rb s) =
      Ok (put_recvq rb' s') /\ holds rb' t.
Proof.
  by apply receive_pieces with (b := []) (ms := ms); try apply handle_conf_blind.
Qed.

(** A status request, in pieces of one byte, two bytes and the rest, and the first
    byte of the next frame. *)
Definition ex_status : cJSON :=
  mkItem [mkItem [] cJSON_String (Some (cstr "Status")) 0 (S754_zero false) (Some (cstr "type"))]
    cJSON_Object None 0 (S754_zero false) None.
Definition ex_parse (text : list Z) : res (option cJSON) :=
  Ok (if streq text (cstr "status") then Some ex_status else None).
Definition ex_ring : RingBuffer := RingBuffer_new TCP_BUFFER_SIZE (replicate (Z.to_nat TCP_BUFFER_SIZE + 1) 0).
Definition ex_server : sim_state (Q := ListQueues) :=
  mkSim (set_server_ctx (mkServer None (Some (RingBuffer_new 200 (replicate 201 0))) 0) zero_sctx)
    (mkLq 5 ∅) (fun _ => 0) [].
Definition ex_after : sim_state (Q := ListQueues) :=
  match handle_remote_conf_msg ex_parse (mkPhyLinkConfig 0 0 0 0) ex_server (cstr "status") with
  | Ok s => s
  | _ => ex_server
  end.

Lemma ring_new_holds : holds ex_ring [].
Proof.
  split; [|split; [done|by apply contents_empty]]. unfold RingBuffer.wf, ex_ring, RingBuffer_new. cbn [max_offset RingBuffer.size RingBuffer.head RingBuffer.tail buf].
  unfold zlen. rewrite length_replicate. unfold TCP_BUFFER_SIZE. lia.
Qed.

Lemma client_stream_witness :
  exists rb', rfold (receive (handle_remote_conf_msg ex_parse (mkPhyLinkConfig 0 0 0 0)) 1)
      [[0]; [6; 115]; cstr "tatus" ++ [0]] (put_recvq ex_ring ex_server) =
      Ok (put_recvq rb' ex_after) /\ holds rb' [0].
Proof.
  apply (client_stream ex_parse (mkPhyLinkConfig 0 0 0 0) 1 ex_ring ex_server ex_after [cstr "status"]).
  - apply ring_new_holds.
  - by repeat constructor.
  - done.
  - reflexivity.
  - cbn. repeat constructor; unfold is_u8; lia.
  - do 3 (apply Forall_cons_2; [by vm_compute|]). by constructor.
  - done.
  - vm_compute. reflexivity.
Defined.

(** The answer waits to be sent. *)
Example ex_status_answer :
  (let* rb := deref (sendq (server_ctx (sctx ex_after))) in Ok (contents rb)) = Ok (frame status_json).
Proof. vm_compute. reflexivity. Qed.
