(* ===== verification/NetPackets.v ===== *)
(** The packets and the reports of the node process (simnet/mac_connection.c,
    simnet.c, net_report.c), against the interface of the routing module.

    Every packet in the MAC queue is given to the module once, in order, and what
    the module sends is in the queue to the MAC, in order; a report names the
    entries that changed since the last one. *)
From S2P Require Import Prelude OrdTree TimerQueue OlsrContext NetUtil MsgQueue RouteIface Net OlsrSpf OlsrRouteIface OlsrDelivery.
From stdpp Require Import base list numbers gmap.
From Stdlib Require Import ZArith Lia.
Open Scope Z_scope.
Open Scope c_scope.

Section Packets.
Context {Q : Type} `{MsgServiceOk Q} {R : Type} (route : RouteFunctions R) `{RouteModuleOk R route}.

(** ** Sending *)

(** The messages of the frames the module sends to other nodes. *)
Definition to_mac (os : list output) : list MqMsgbuf :=
  concat (map (fun o => match o with SendRemote f => [mkMsg MESSAGE_TYPE_DATA f] | SendLocal _ => [] end) os).

Lemma carry_out_ok c os : forall (q : Q), Forall fits (to_mac os) ->
  exists q', rfold (carry_out c) os q = Ok q' /\ pushed q q' (net_send_mac c) (to_mac os) /\
    forall i, i <> net_send_mac c -> pushed q q' i [].
Proof.
  induction os as [|o os IH]; intros q Hf; cbn [rfold].
  { exists q. split; [done|]. split; [apply pushed_refl|intros; apply pushed_refl]. }
  destruct o as [f|f]; cbn [carry_out].
  - change (to_mac (SendRemote f :: os)) with (mkMsg MESSAGE_TYPE_DATA f :: to_mac os) in *.
    apply Forall_cons_iff in Hf as [Hf1 Hf]. unfold remote_send, sendto_mac.
    destruct (send_mq_ok q (net_send_mac c) f (zlen f) 1 f) as (q1 & r & -> & Hp & Ho);
      [done|exact Hf1|by apply (zslice_prefix f f []); rewrite ?app_nil_r|]. cbn [rbind fst].
    destruct (IH q1 Hf) as (q2 & -> & Hp2 & Ho2). exists q2. split; [done|]. split.
    + change (mkMsg MESSAGE_TYPE_DATA f :: to_mac os) with ([mkMsg MESSAGE_TYPE_DATA f] ++ to_mac os).
      by eapply pushed_app.
    + intros i Hi. change (@nil MqMsgbuf) with (@nil MqMsgbuf ++ []). eapply pushed_app; [by apply Ho|by apply Ho2].
  - cbn [local_send rbind]. by apply IH.
Qed.

(** ** Receiving *)

(** What the module does with one message, and what it sends. *)
Definition handle_msg (r : R) (m : MqMsgbuf) : res R :=
  if type m =? MESSAGE_TYPE_DATA then
    let* r := handle_remote_pkt route r (text m) (zlen (text m)) in Ok (conf_set_outs r [])
  else Ok r.
Definition sent_on (r : R) (m : MqMsgbuf) : list MqMsgbuf :=
  if type m =? MESSAGE_TYPE_DATA then
    match handle_remote_pkt route r (text m) (zlen (text m)) with
    | Ok r1 => to_mac (conf_outs r1)
    | _ => []
    end
  else [].
Fixpoint all_sent (r : R) (ms : list MqMsgbuf) : list MqMsgbuf :=
  match ms with
  | [] => []
  | m :: ms' => sent_on r m ++ match handle_msg r m with Ok r1 => all_sent r1 ms' | _ => [] end
  end.

Definition handled (r : R) (m : MqMsgbuf) : R := match handle_msg r m with Ok r1 => r1 | _ => r end.

Lemma recv_one_ok (q : Q) c r m junk r1 : handle_msg r m = Ok r1 -> Forall fits (sent_on r m) ->
  exists q', (if type m =? MESSAGE_TYPE_DATA
              then process_mac_msg route q c r (text m ++ junk) (zlen (text m)) else Ok (q, r)) = Ok (q', r1) /\
    pushed q q' (net_send_mac c) (sent_on r m) /\ forall i, i <> net_send_mac c -> pushed q q' i [].
Proof.
  unfold handle_msg, sent_on, process_mac_msg, route_call. intros Eh Hf.
  destruct (type m =? MESSAGE_TYPE_DATA).
  - rewrite remote_frame. destruct (handle_remote_pkt route r (text m) (zlen (text m))) as [r2| | |];
      try discriminate. cbn [rbind] in *. injection Eh as <-.
    destruct (carry_out_ok c (conf_outs r2) q Hf) as (q' & -> & Hp & Ho). cbn [rbind]. by exists q'.
  - injection Eh as <-. exists q. split; [done|]. split; [apply pushed_refl|intros; apply pushed_refl].
Qed.

Lemma all_out_sent c ms : forall r r', net_send_mac c <> net_recv_mac c ->
  rfold handle_msg ms r = Ok r' ->
  all_out handled (fun r m i => if i =? net_send_mac c then sent_on r m else []) r ms (net_send_mac c) =
    all_sent r ms /\
  fold_left handled ms r = r' /\
  forall i, i <> net_send_mac c ->
    all_out handled (fun r m i => if i =? net_send_mac c then sent_on r m else []) r ms i = [].
Proof.
  induction ms as [|m ms IH]; intros r r' Hne E; cbn [rfold all_out all_sent fold_left] in *.
  - by injection E as <-.
  - destruct (handle_msg r m) as [r1| | |] eqn:Eh; try discriminate. cbn [rbind] in E.
    assert (Er : handled r m = r1) by (unfold handled; by rewrite Eh). rewrite Er, Z.eqb_refl.
    destruct (IH r1 r' Hne E) as (-> & -> & Hi). split; [done|]. split; [done|]. intros i Hne'.
    rewrite Hi by done. by destruct (Z.eqb_spec i (net_send_mac c)).
Qed.

Lemma recvfrom_mac_spec fuel (q : Q) c r r' junk :
  net_send_mac c <> net_recv_mac c ->
  let ms := pending q (net_recv_mac c) in
  rfold handle_msg ms r = Ok r' -> Forall fits ms -> Forall fits (all_sent r ms) -> (length ms <= fuel)%nat ->
  exists q', recvfrom_mac route fuel q c r junk = Ok (q', r') /\ pending q' (net_recv_mac c) = [] /\
    pushed q q' (net_send_mac c) (all_sent r ms) /\
    forall i, i <> net_send_mac c -> i <> net_recv_mac c -> pushed q q' i [].
Proof.
  intros Hne ms Hrun Hfit Hsent Hfuel. unfold recvfrom_mac.
  destruct (recv_loop_inv (fun q msg len r =>
      if type msg =? MESSAGE_TYPE_DATA then process_mac_msg route q c r (text msg) len else Ok (q, r))
    (net_recv_mac c) handled (fun r m i => if i =? net_send_mac c then sent_on r m else [])
    (fun r ms => (exists r', rfold handle_msg ms r = Ok r') /\ Forall fits ms /\ Forall fits (all_sent r ms)))
    with (ms := ms) (fuel := fuel) (q := q) (msg := junk) (s := r)
    as (q' & msg' & E & Hp & _ & _ & Ho); [| |done|done|eauto|].
  - intros s m ms' (_ & Hf & _). by apply Forall_cons_iff in Hf as [Hf _].
  - intros q1 m ms' j s ([s' Es] & Hf & Hs). apply Forall_cons_iff in Hf as [_ Hf].
    cbn [rfold all_sent] in Es, Hs. apply Forall_app in Hs as [Hs1 Hs2].
    destruct (handle_msg s m) as [s1| | |] eqn:Eh; try discriminate. cbn [rbind] in Es.
    destruct (recv_one_ok q1 c s m j s1 Eh Hs1) as (q2 & E2 & Hp2 & Ho2).
    assert (Er : handled s m = s1) by (unfold handled; by rewrite Eh). rewrite Er.
    exists q2. split; [exact E2|]. split; [eauto|]. split.
    + destruct (Z.eqb_spec (net_recv_mac c) (net_send_mac c)); [congruence|done].
    + intros i. destruct (Z.eqb_spec i (net_send_mac c)) as [->|]; [done|by apply Ho2].
  - destruct (all_out_sent c ms r r' Hne Hrun) as (Es & Ef & En).
    rewrite E, Ef. cbn [rbind fst]. exists q'. split; [done|]. split; [done|]. split.
    + rewrite <- Es. by apply Ho.
    + intros i Hi Hr. rewrite <- (En i Hi). by apply Ho.
Qed.

(** ** Reports *)
Definition info_ok (i : NeighborInfo) : Prop :=
  0 <= rinfo_hop_count (routing i) <= Z.of_nat MAX_HOP_COUNT /\
  length (rinfo_path (routing i)) = MAX_HOP_COUNT.

(** What is reported of an entry, and the entry afterwards. *)
Definition reports_of (i : NeighborInfo) : list MqMsgbuf :=
  (if traffic_dirty (traffic i) =? 0 then []
   else [mkMsg REPORT_MSG_NET_TRX (enc_trx_report (ninfo_addr i) (tx_bytes (traffic i)) (rx_bytes (traffic i)))]) ++
  (if routing_dirty (routing i) =? 0 then []
   else [mkMsg REPORT_MSG_NET_ROUTING (enc_routing_report (rinfo_hop_count (routing i))
           (u8 (ninfo_addr i / 65536)) (take (Z.to_nat (rinfo_hop_count (routing i))) (rinfo_path (routing i))))]).
Definition cleaned (i : NeighborInfo) : NeighborInfo := clear_routing (clear_traffic i).

Lemma reports_of_cleaned i : reports_of (cleaned i) = [].
Proof. done. Qed.

Lemma clear_traffic_id i : traffic_dirty (traffic i) = 0 -> clear_traffic i = i.
Proof. destruct i as [a [? ? ? ? d] ?]. cbn. by intros ->. Qed.
Lemma clear_routing_id i : routing_dirty (routing i) = 0 -> clear_routing i = i.
Proof. destruct i as [a ? [? ? d]]. cbn. by intros ->. Qed.

Lemma send_report_ok (q : Q) id data len type : len <= MQ_MAX_DATA_LEN -> len = zlen data ->
  exists q', send_report_to_simulator q id data len type = Ok q' /\ pushed q q' id [mkMsg type data] /\
    forall i, i <> id -> pushed q q' i [].
Proof.
  intros Hl ->. unfold send_report_to_simulator. destruct (Z.ltb_spec MQ_MAX_DATA_LEN (zlen data)); [lia|].
  rewrite (zslice_prefix data data []) by (by rewrite ?app_nil_r). cbn [rbind].
  eexists. split; [reflexivity|]. apply msgsnd_pushed.
Qed.

Lemma report_entry_ok c (q : Q) i : info_ok i ->
  exists q', report_entry c q i = Ok (q', cleaned i) /\ pushed q q' (net_send_report c) (reports_of i) /\
    forall j, j <> net_send_report c -> pushed q q' j [].
Proof.
  intros [Hh Hp]. unfold report_entry, reports_of, cleaned.
  assert (Htr : exists q1, (if negb (traffic_dirty (traffic i) =? 0)
      then let* q := send_traffic_report q c i (ninfo_addr i) in Ok (q, clear_traffic i) else Ok (q, i)) =
      Ok (q1, clear_traffic i) /\
    pushed q q1 (net_send_report c) (if traffic_dirty (traffic i) =? 0 then [] else
      [mkMsg REPORT_MSG_NET_TRX (enc_trx_report (ninfo_addr i) (tx_bytes (traffic i)) (rx_bytes (traffic i)))]) /\
    forall j, j <> net_send_report c -> pushed q q1 j []).
  { destruct (Z.eqb_spec (traffic_dirty (traffic i)) 0) as [E|E]; cbn [negb].
    - rewrite clear_traffic_id by done. exists q. split; [done|]. split; [apply pushed_refl|intros; apply pushed_refl].
    - unfold send_traffic_report. destruct (send_report_ok q (net_send_report c)
        (enc_trx_report (ninfo_addr i) (tx_bytes (traffic i)) (rx_bytes (traffic i))) 12 REPORT_MSG_NET_TRX)
        as (q1 & -> & Hp1 & Ho1); [done|done|]. cbn [rbind]. by exists q1. }
  destruct Htr as (q1 & -> & Hp1 & Ho1). cbn [rbind].
  change (routing (clear_traffic i)) with (routing i).
  destruct (Z.eqb_spec (routing_dirty (routing i)) 0) as [E|E]; cbn [negb].
  - exists q1. rewrite clear_routing_id by done. rewrite app_nil_r. by split.
  - unfold send_route_report. change (routing (clear_traffic i)) with (routing i).
    unfold MAX_HOP_COUNT, sizeof_route_msgbuf in *.
    destruct (Z.ltb_spec (rinfo_hop_count (routing i)) 0); [lia|].
    destruct (Z.ltb_spec (Z.of_nat 50) (rinfo_hop_count (routing i))); [lia|].
    destruct (Z.ltb_spec 300 (4 + 4 * rinfo_hop_count (routing i))); [lia|]. cbn [orb].
    destruct (send_report_ok q1 (net_send_report c) (enc_routing_report (rinfo_hop_count (routing i))
      (u8 (ninfo_addr i / 65536)) (take (Z.to_nat (rinfo_hop_count (routing i))) (rinfo_path (routing i))))
      (4 + 4 * rinfo_hop_count (routing i)) REPORT_MSG_NET_ROUTING) as (q2 & -> & Hp2 & Ho2);
      [unfold MQ_MAX_DATA_LEN; lia| |].
    + unfold enc_routing_report. rewrite !zlen_app, !zlen_le16, zlen_enc_addrs.
      unfold zlen. rewrite length_take. lia.
    + cbn [rbind]. exists q2. split; [done|]. split; [by eapply pushed_app|].
      intros j Hj. change (@nil MqMsgbuf) with (@nil MqMsgbuf ++ []).
      eapply pushed_app; [by apply Ho1|by apply Ho2].
Qed.

(** The loop over the entries from [a] on. *)
Lemma report_loop_ok c (num : Z) n : forall a pre l (q : Q), Z.of_nat (length pre) = a -> length l = n ->
  Forall info_ok l -> forall post,
  exists q', rfold (fun '(q, stat) i =>
      let* info := deref (node_info stat !! Z.to_nat i) in
      let* y := report_entry c q info in
      let '(q, info) := y in
      Ok (q, {| node_stats_num := node_stats_num stat;
                node_info := <[Z.to_nat i := info]> (node_info stat) |}))
    (seqZ a (Z.of_nat n)) (q, mkStats num (pre ++ l ++ post)) =
    Ok (q', mkStats num (pre ++ map cleaned l ++ post)) /\
    pushed q q' (net_send_report c) (concat (map reports_of l)) /\
    forall j, j <> net_send_report c -> pushed q q' j [].
Proof.
  induction n as [|n IH]; intros a pre l q Ha Hl Hok post.
  - destruct l; [|done]. exists q. split; [done|]. split; [apply pushed_refl|intros; apply pushed_refl].
  - destruct l as [|i l]; [done|]. apply Forall_cons_iff in Hok as [Hi Hok].
    rewrite seqZ_cons by lia. replace (Z.pred (Z.of_nat (S n))) with (Z.of_nat n) by lia.
    cbn [rfold node_info node_stats_num]. replace (Z.to_nat a) with (length pre) by lia.
    rewrite lookup_app_r, Nat.sub_diag by lia. cbn [app lookup list_lookup deref rbind].
    destruct (report_entry_ok c q i Hi) as (q1 & -> & Hp1 & Ho1). cbn [rbind].
    rewrite insert_app_r_alt, Nat.sub_diag by lia. change (<[0%nat:=cleaned i]> (i :: l ++ post)) with (cleaned i :: l ++ post).
    destruct (IH (Z.succ a) (pre ++ [cleaned i]) l q1) with (post := post) as (q2 & E2 & Hp2 & Ho2).
    { rewrite length_app. cbn. lia. } { by injection Hl. } { done. }
    rewrite <- !app_assoc in E2. cbn [app] in E2. rewrite E2. exists q2. split; [done|]. split.
    + cbn [map concat]. by eapply pushed_app.
    + intros j Hj. change (@nil MqMsgbuf) with (@nil MqMsgbuf ++ []).
      eapply pushed_app; [by apply Ho1|by apply Ho2].
Qed.

Definition report_ready (s : NetStats) : Prop :=
  0 <= node_stats_num s <= zlen (node_info s) /\ Forall info_ok (node_info s).
Definition used_infos (s : NetStats) : list NeighborInfo :=
  take (Z.to_nat (node_stats_num s)) (node_info s).
Definition all_cleaned (s : NetStats) : NetStats :=
  mkStats (node_stats_num s) (map cleaned (used_infos s) ++ drop (Z.to_nat (node_stats_num s)) (node_info s)).

Lemma send_net_report_spec (q : Q) c r : report_ready (conf_stat r) ->
  exists q', send_net_report_cb q c r = Ok (q', conf_set_stat r (all_cleaned (conf_stat r))) /\
    pushed q q' (net_send_report c) (concat (map reports_of (used_infos (conf_stat r)))) /\
    forall j, j <> net_send_report c -> pushed q q' j [].
Proof.
  intros [Hn Hok]. unfold send_net_report_cb, all_cleaned, used_infos.
  destruct (conf_stat r) as [num l] eqn:Es. cbn [node_stats_num node_info] in *.
  set (k := Z.to_nat num) in *. unfold zlen in Hn.
  destruct (report_loop_ok c num k 0 [] (take k l) q) with (post := drop k l) as (q' & E & Hp & Ho);
    [done|rewrite length_take; lia|by apply Forall_take|].
  cbn [app] in E. rewrite take_drop in E. replace (Z.of_nat k) with num in E by lia.
  rewrite E. cbn [rbind]. by exists q'.
Qed.

(** C25: Every packet that waits in the MAC queue is given to the routing module,
    once, in order and byte for byte, and messages of other types are dropped:
    [recvfrom_mac] ends in the state the module reaches by handling these packets
    one after the other, within as many turns as there were messages, with the
    queue empty; and what the module sent meanwhile is appended to the queue to the
    MAC in order (as far as it has room).  It holds for every module that keeps the
    promises of the interface and handles these packets without failing. *)
Theorem recvfrom_mac_delivers (fuel : nat) (q : Q) (c : SimNetCtx) (r r' : R) (junk : MqMsgbuf)
  (Hne : net_send_mac c <> net_recv_mac c)
  (Hrun : rfold handle_msg (pending q (net_recv_mac c)) r = Ok r')
  (Hfit : Forall fits (pending q (net_recv_mac c)))
  (Hsent : Forall fits (all_sent r (pending q (net_recv_mac c))))
  (Hfuel : (length (pending q (net_recv_mac c)) <= fuel)%nat) :
  exists q', recvfrom_mac route fuel q c r junk = Ok (q', r') /\ pending q' (net_recv_mac c) = [] /\
    pushed q q' (net_send_mac c) (all_sent r (pending q (net_recv_mac c))) /\
    forall i, i <> net_send_mac c -> i <> net_recv_mac c -> pushed q q' i [].
Proof. by apply recvfrom_mac_spec. Qed.

(** C27: The periodic report tells the simulator exactly what changed: for every
    known node, in order, its counters if they are marked, and its route (number
    of hops, node id and path) if that is marked; it touches no other queue and no
    memory outside its buffers, clears the marks and changes nothing else; so a
    report that follows immediately sends nothing. *)
Theorem send_net_report_complete (q : Q) (c : SimNetCtx) (r : R) (Hr : report_ready (conf_stat r)) :
  exists q' r', send_net_report_cb q c r = Ok (q', r') /\
    r' = conf_set_stat r (all_cleaned (conf_stat r)) /\
    pushed q q' (net_send_report c) (concat (map reports_of (used_infos (conf_stat r)))) /\
    (forall j, j <> net_send_report c -> pushed q q' j []) /\
    exists q'', send_net_report_cb q' c r' = Ok (q'', r') /\ forall j, pushed q' q'' j [].
Proof.
  destruct (send_net_report_spec q c r Hr) as (q' & E & Hp & Ho).
  set (s := conf_stat r) in *. set (r' := conf_set_stat r (all_cleaned s)) in *.
  assert (Es : conf_stat r' = all_cleaned s) by apply stat_set_stat.
  assert (Hlen : length (used_infos s) = Z.to_nat (node_stats_num s))
    by (unfold used_infos; rewrite length_take; unfold report_ready, zlen in Hr; lia).
  assert (Hu : used_infos (all_cleaned s) = map cleaned (used_infos s)).
  { unfold used_infos at 1. cbn [node_stats_num node_info all_cleaned].
    rewrite take_app_length'; [done|]. by rewrite length_map. }
  assert (Hd : drop (Z.to_nat (node_stats_num s)) (node_info (all_cleaned s)) =
      drop (Z.to_nat (node_stats_num s)) (node_info s)).
  { cbn [node_info all_cleaned]. rewrite drop_app_length'; [done|]. by rewrite length_map. }
  assert (Hcl : all_cleaned (all_cleaned s) = all_cleaned s).
  { unfold all_cleaned at 1. rewrite Hu. change (node_stats_num (all_cleaned s)) with (node_stats_num s).
    rewrite Hd. unfold all_cleaned. f_equal. f_equal. rewrite map_map. by apply map_ext. }
  assert (Hr' : report_ready (conf_stat r')).
  { rewrite Es. destruct Hr as [Hn Hok]. split.
    - cbn [all_cleaned node_stats_num node_info]. rewrite zlen_app. unfold zlen in *.
      rewrite length_map, Hlen, length_drop. lia.
    - cbn [all_cleaned node_info]. apply Forall_app. split; [|by apply Forall_drop].
      apply Forall_map. unfold used_infos. by apply Forall_take. }
  destruct (send_net_report_spec q' c r' Hr') as (q2 & E2 & Hp2 & Ho2).
  exists q', r'. split; [exact E|]. split; [done|]. split; [exact Hp|]. split; [exact Ho|].
  exists q2. split.
  - rewrite E2, Es, Hcl. unfold r'. by rewrite set_stat_twice.
  - intros j. destruct (Z.eq_dec j (net_send_report c)) as [->|Hne]; [|by apply Ho2].
    rewrite Es, Hu, map_map in Hp2. replace (concat _) with (@nil MqMsgbuf) in Hp2; [done|].
    generalize (used_infos s) as l. clear. induction l; done.
Qed.
End Packets.

(** The relay of OlsrDelivery: the encapsulated packet in its MAC queue is sent on. *)
Definition ex_route : RouteFunctions OlsrContext :=
  olsr_iface ex_bufs (fun _ _ => []) 0 (fun _ => mkTimespec 0 0) (fun _ => 0) [].
Definition ex_relay_net : SimNetCtx :=
  mkNet (create_timerqueue (fun _ => mkTimespec 0 0) (fun _ => 0)) 3 1 2 3 4
    (replicate (Z.to_nat MAX_DUMMY_STREAMS) None).
Definition ex_carried : list Z :=
  match olsr_handle_local_pkt ex_bufs ex_src (ex_hdr ++ [1; 2; 3; 4]) 24 with
  | Ok c => match outs c with SendRemote f :: _ => f | _ => [] end
  | _ => []
  end.
Definition ex_waiting : ListQueues := mkLq 5 (<[1 := [mkMsg 1 ex_carried; mkMsg 2 [9]]]> ∅).
Definition ex_relayed : OlsrContext :=
  match rfold (handle_msg ex_route) (pending ex_waiting 1) ex_relay with Ok r => r | _ => ex_relay end.

Lemma ex_relay_run : rfold (handle_msg ex_route) (pending ex_waiting 1) ex_relay = Ok ex_relayed.
Proof. vm_compute. reflexivity. Qed.

Lemma fits_all (l : list MqMsgbuf) :
  forallb (fun m => zlen (text m) <=? MQ_MAX_DATA_LEN) l = true -> Forall fits l.
Proof.
  rewrite forallb_forall. intros H. apply List.Forall_forall. intros m Hm. unfold fits.
  specialize (H m Hm). lia.
Qed.

Lemma recvfrom_mac_delivers_witness :
  (exists q', recvfrom_mac ex_route 2 ex_waiting ex_relay_net ex_relay (mkMsg 0 []) = Ok (q', ex_relayed) /\
    pending q' 1 = [] /\ pushed ex_waiting q' 2 (all_sent ex_route ex_relay (pending ex_waiting 1)) /\
    forall i, i <> 2 -> i <> 1 -> pushed ex_waiting q' i []) /\
  length (all_sent ex_route ex_relay (pending ex_waiting 1)) = 1%nat.
Proof.
  split; [|vm_compute; reflexivity].
  apply (recvfrom_mac_delivers ex_route 2 ex_waiting ex_relay_net ex_relay ex_relayed).
  - discriminate.
  - exact ex_relay_run.
  - apply fits_all. vm_compute. reflexivity.
  - apply fits_all. vm_compute. reflexivity.
  - vm_compute. lia.
Defined.

Lemma infos_all (l : list NeighborInfo) :
  forallb (fun i => (0 <=? rinfo_hop_count (routing i)) && (rinfo_hop_count (routing i) <=? 50) &&
    (length (rinfo_path (routing i)) =? 50)%nat) l = true -> Forall info_ok l.
Proof.
  rewrite forallb_forall. intros H. apply List.Forall_forall. intros i Hi. specialize (H i Hi).
  apply andb_prop in H as [[H1 H2]%andb_prop H3]. apply Nat.eqb_eq in H3.
  unfold info_ok, MAX_HOP_COUNT. lia.
Qed.

(** Its statistics then have an entry to report. *)
Lemma send_net_report_complete_witness :
  (exists q' r', send_net_report_cb ex_waiting ex_relay_net ex_relayed = Ok (q', r') /\
    r' = conf_set_stat ex_relayed (all_cleaned (conf_stat ex_relayed)) /\
    pushed ex_waiting q' 4 (concat (map reports_of (used_infos (conf_stat ex_relayed)))) /\
    (forall j, j <> 4 -> pushed ex_waiting q' j []) /\
    exists q'', send_net_report_cb q' ex_relay_net r' = Ok (q'', r') /\ forall j, pushed q' q'' j []) /\
  length (concat (map reports_of (used_infos (conf_stat ex_relayed)))) = 1%nat.
Proof.
  split; [|vm_compute; reflexivity].
  apply (send_net_report_complete ex_route ex_waiting ex_relay_net ex_relayed). split.
  - vm_compute. split; discriminate.
  - apply infos_all. vm_compute. reflexivity.
Defined.
