(* ===== verification/SimFront.v ===== *)
(** What the front end receives: the reports of the nodes as a stream of JSON texts. *)
From S2P Require Import Prelude RingBuffer OlsrContext NetUtil MsgQueue RouteIface Net Phy NetPackets Simulator CJson CFormat SimConf SimReport SimServer SimStream.
From Stdlib Require Import Ascii String.
From stdpp Require Import base list numbers gmap.
From Stdlib Require Import List ZArith Lia SpecFloat.
Open Scope Z_scope.
Open Scope c_scope.

(** ** The send queue *)
Definition put_sendq (rb : RingBuffer) (c : SimulatorCtx) : SimulatorCtx :=
  set_server_ctx (set_sendq (Some rb) (server_ctx c)) c.

Lemma push_sendq_ok rb b data c : holds rb b -> zlen b + zlen data <= TCP_BUFFER_SIZE ->
  exists rb', push_sendq (put_sendq rb c) data (zlen data) = Ok (put_sendq rb' c) /\ holds rb' (b ++ data).
Proof.
  intros Hrb Hr. destruct (holds_push rb b data Hrb Hr) as (rb' & E & Hrb'). unfold push_sendq.
  cbn [sendq server_ctx put_sendq set_server_ctx set_sendq deref rbind]. rewrite E. by exists rb'.
Qed.

Lemma push_json_ok rb b json c : holds rb b -> text_ok json -> frame_ok json ->
  zlen b + zlen (frame json) <= TCP_BUFFER_SIZE ->
  exists rb', push_json (put_sendq rb c) json = Ok (put_sendq rb' c) /\ holds rb' (b ++ frame json).
Proof.
  intros Hrb Ht Hf Hr. unfold push_json. rewrite strlen_text by done. rewrite zlen_frame in Hr.
  pose proof (zlen_nonneg json). unfold frame_ok in Hf.
  rewrite le16_htons by (unfold is_u16; lia).
  destruct (push_sendq_ok rb b [zlen json / 256; zlen json mod 256] c Hrb) as (rb1 & E1 & Hb1); [zlens|].
  change (zlen [_; _]) with 2 in E1. rewrite E1. cbn [rbind].
  destruct (push_sendq_ok rb1 _ json c Hb1) as (rb2 & E2 & Hb2); [zlens|].
  rewrite E2. exists rb2. split; [done|]. unfold frame. by rewrite app_assoc.
Qed.

Lemma send_json_ok rb b json c : server_mode c = 1 -> holds rb b -> text_ok json -> frame_ok json ->
  zlen b + zlen (frame json) <= TCP_BUFFER_SIZE ->
  exists rb', send_json_to_front (put_sendq rb c) json = Ok (put_sendq rb' c) /\ holds rb' (b ++ frame json).
Proof.
  intros Hs. unfold send_json_to_front. cbn [server_mode put_sendq set_server_ctx]. rewrite Hs.
  apply push_json_ok.
Qed.

(** The network thread gives [send] all that waits. *)
Lemma server_send_ok fuel : forall rb b v sent, sendq v = Some rb -> holds rb b ->
  zlen b <= TCP_IO_SIZE * (Z.of_nat fuel + 1) ->
  exists rb', server_send fuel v sent = Ok (set_sendq (Some rb') v, sent ++ b) /\ holds rb' [].
Proof.
  assert (Hlast : forall rb b, holds rb b -> exists rb', RingBuffer_pop rb (zlen b) = Ok (rb', b, zlen b) /\ holds rb' []).
  { intros rb b Hrb. pose proof (zlen_nonneg b). destruct (holds_pop rb b (zlen b) Hrb) as (rb1 & E & Hb1); [lia|].
    exists rb1. unfold zlen in *. rewrite Nat2Z.id in *. by rewrite take_ge in E by lia; rewrite drop_ge in Hb1 by lia. }
  unfold TCP_IO_SIZE. induction fuel as [|fuel IH]; intros rb b v sent Hv Hrb Hl; cbn [server_send]; rewrite Hv;
    cbn [deref rbind]; rewrite (holds_readable _ _ Hrb); pose proof (zlen_nonneg b);
    destruct (Z.eqb_spec (zlen b) 0) as [Hz|Hz];
    try (apply zlen_0 in Hz as ->; exists rb; rewrite app_nil_r; split; [|done]; destruct v; cbn in Hv; by subst);
    unfold TCP_IO_SIZE; destruct (Z.ltb_spec 10240 (zlen b)) as [Hbig|Hsmall];
    try (destruct (Hlast rb b Hrb) as (rb1 & -> & Hb1); exists rb1; by split); [lia|].
  destruct (holds_pop rb b 10240 Hrb) as (rb1 & -> & Hb1); [lia|]. cbn [rbind].
  destruct (IH rb1 _ (set_sendq (Some rb1) v) (sent ++ take (Z.to_nat 10240) b) eq_refl Hb1) as (rb2 & -> & Hb2).
  { unfold zlen in *. rewrite length_drop. lia. }
  exists rb2. by rewrite <- app_assoc, take_drop.
Qed.

(** ** The text of a report *)
Fixpoint commas (l : list (list Z)) : list Z :=
  match l with
  | [] => []
  | [x] => x
  | x :: l' => x ++ cstr ", " ++ commas l'
  end.
Definition octet (k a : Z) : Z := u8 (a / 2 ^ (8 * k)).
Definition route_json (report_node target : Z) (path : list Z) : list Z :=
  route_head report_node target (zlen path) ++ commas (map (fun a => print_u (octet 2 a)) path) ++ cstr "]}".

Definition route_of (i : NeighborInfo) : list Z :=
  take (Z.to_nat (rinfo_hop_count (routing i))) (rinfo_path (routing i)).
Definition report_texts (n : Z) (i : NeighborInfo) : list (list Z) :=
  (if traffic_dirty (traffic i) =? 0 then []
   else [trx_json n (octet 3 (ninfo_addr i)) (tx_bytes (traffic i)) (rx_bytes (traffic i))]) ++
  (if routing_dirty (routing i) =? 0 then []
   else [route_json n (octet 2 (ninfo_addr i)) (route_of i)]).

Record report_info_ok (i : NeighborInfo) : Prop := {
  rep_info : info_ok i;
  rep_tx : is_u32 (tx_bytes (traffic i));
  rep_rx : is_u32 (rx_bytes (traffic i))
}.

Lemma text_commas l : Forall text_ok l -> text_ok (commas l).
Proof.
  induction l as [|x [|y l] IH]; intros Hl; [apply text_nil|by apply Forall_cons_1 in Hl as [? _]|].
  apply Forall_cons_1 in Hl as [Hx Hl]. change (commas (x :: y :: l)) with (x ++ cstr ", " ++ commas (y :: l)).
  apply text_app; [done|]. apply text_app; [|by apply IH]. cbn. is_text.
Qed.
Lemma text_route n t path : text_ok (route_json n t path).
Proof.
  unfold route_json, route_head. apply text_app; [cbn -[print_d print_u]; is_text|]. apply text_app; [|cbn; is_text].
  apply text_commas. apply List.Forall_forall. intros x (a & <- & _)%in_map_iff. apply text_print_u.
Qed.
Lemma text_trx n p tx rx : text_ok (trx_json n p tx rx).
Proof. unfold trx_json. cbn -[print_d print_u]. is_text. Qed.

Ltac zlen_consts :=
  repeat match goal with
  | |- context [zlen (quoted ?s)] => let v := eval vm_compute in (zlen (quoted s)) in change (zlen (quoted s)) with v
  | |- context [zlen (cstr ?s)] => let v := eval vm_compute in (zlen (cstr s)) in change (zlen (cstr s)) with v
  end.

Lemma zlen_trx n p tx rx : zlen (trx_json n p tx rx) <= 200.
Proof.
  unfold trx_json. autorewrite with crw. zlen_consts. pose proof (zlen_print_d n). pose proof (zlen_print_u p).
  pose proof (zlen_print_d tx). pose proof (zlen_print_d rx). lia.
Qed.
Lemma zlen_route_head n t v : zlen (route_head n t v) <= 200.
Proof.
  unfold route_head. autorewrite with crw. zlen_consts. pose proof (zlen_print_d n). pose proof (zlen_print_d t).
  pose proof (zlen_print_d v). lia.
Qed.
Lemma zlen_commas (f : Z -> Z) path : zlen (commas (map (fun a => print_u (f a)) path)) <= 12 * zlen path.
Proof.
  induction path as [|a [|b l] IH]; [done| |].
  - cbn [map commas]. pose proof (zlen_print_u (f a)). rewrite zlen_cons. pose proof (zlen_nonneg (@nil Z)). lia.
  - change (commas (map _ (a :: b :: l))) with
      (print_u (f a) ++ cstr ", " ++ commas (map (fun a => print_u (f a)) (b :: l))).
    rewrite !zlen_app, (zlen_cons a). pose proof (zlen_print_u (f a)). change (zlen (cstr ", ")) with 2. lia.
Qed.

(** ** The handlers *)
Lemma trx_report_ok c n addr tx rx junk : is_u32 tx -> is_u32 rx ->
  process_net_trx_report c n (enc_trx_report addr tx rx ++ junk) = send_json_to_front c (trx_json n (octet 3 addr) tx rx).
Proof.
  intros Ht Hr. unfold process_net_trx_report, enc_trx_report.
  assert (E3 : rd8 ((le32 addr ++ le32 tx ++ le32 rx) ++ junk) 3 = Ok (octet 3 addr)).
  { unfold octet. change (2 ^ (8 * 3)) with (65536 * 256). by rewrite <- Z.div_div by lia. }
  rewrite E3. cbn [rbind]. rewrite <- !app_assoc.
  rewrite (rd32_enc (le32 addr) tx) by done. cbn [rbind].
  rewrite (app_assoc (le32 addr)). rewrite (rd32_enc (le32 addr ++ le32 tx) rx) by done. cbn [rbind].
  rewrite fits_buf_ok; [done|]. pose proof (zlen_trx n (octet 3 addr) tx rx). lia.
Qed.

Lemma route_hops_ok data P junk path : zlen P = 4 -> forall rest pre b,
  path = pre ++ rest -> data = P ++ enc_addrs path ++ junk -> zlen b + 12 * zlen rest < 1024 ->
  rfold (route_hop data (zlen path)) (seqZ (zlen pre) (zlen rest)) b =
  Ok (b ++ commas (map (fun a => print_u (octet 2 a)) rest)).
Proof.
  intros HP. induction rest as [|a rest IH]; intros pre b Ep Ed Hb.
  - cbn. by rewrite app_nil_r.
  - rewrite zlen_cons in Hb. pose proof (zlen_nonneg rest) as Hr. pose proof (zlen_nonneg pre).
    rewrite seqZ_cons by (rewrite zlen_cons; lia). cbn [rfold]. unfold route_hop at 1.
    assert (E : rd8 data (4 + 4 * zlen pre + 2) = Ok (octet 2 a)).
    { rewrite Ed, Ep, enc_addrs_app, enc_addrs_cons, <- !app_assoc, app_assoc.
      replace (4 + 4 * zlen pre + 2) with (zlen (P ++ enc_addrs pre) + 2) by (rewrite zlen_app, zlen_enc_addrs; lia).
      by rewrite rd8_shift by lia. }
    rewrite E. cbn [rbind]. pose proof (zlen_print_u (octet 2 a)) as Hl.
    rewrite fits_buf_ok by (rewrite zlen_app; lia). cbn [rbind].
    assert (Ez : zlen path = zlen pre + 1 + zlen rest) by (rewrite Ep, zlen_app, zlen_cons; lia).
    destruct rest as [|a' rest].
    + rewrite zlen_nil in Ez. destruct (Z.eqb_spec (zlen pre) (zlen path - 1)); [|lia]. done.
    + rewrite (zlen_cons a') in Ez, Hb, Hr. pose proof (zlen_nonneg rest).
      destruct (Z.eqb_spec (zlen pre) (zlen path - 1)); [lia|].
      rewrite fits_buf_ok by (rewrite !zlen_app; change (zlen (cstr ", ")) with 2; lia). cbn [rbind].
      specialize (IH (pre ++ [a]) ((b ++ print_u (octet 2 a)) ++ cstr ", ")).
      rewrite <- app_assoc in IH. specialize (IH Ep Ed). rewrite (zlen_app pre [a]), (zlen_cons a), zlen_nil in IH.
      replace (Z.succ (zlen pre)) with (zlen pre + (0 + 1)) by lia.
      replace (Z.pred (zlen (a :: a' :: rest))) with (zlen (a' :: rest)) by (rewrite !zlen_cons; lia).
      rewrite IH; [by rewrite <- !app_assoc|]. rewrite !zlen_app, zlen_cons. change (zlen (cstr ", ")) with 2. lia.
Qed.

Lemma route_report_ok c n target path junk : is_u16 target -> zlen path <= 50 ->
  process_net_route_report c n (enc_routing_report (zlen path) target path ++ junk) =
  send_json_to_front c (route_json n target path).
Proof.
  intros Ht Hp. pose proof (zlen_nonneg path). unfold process_net_route_report, enc_routing_report. rewrite <- !app_assoc.
  pose proof (rd16_enc [] (zlen path) (le16 target ++ enc_addrs path ++ junk)) as E1. cbn [app] in E1.
  change (zlen []) with 0 in E1. rewrite E1 by (unfold is_u16; lia). cbn [rbind].
  rewrite (rd16_enc (le16 (zlen path)) target) by done. cbn [rbind].
  pose proof (zlen_route_head n target (zlen path)).
  rewrite fits_buf_ok by lia. cbn [rbind]. rewrite app_assoc.
  pose proof (route_hops_ok _ (le16 (zlen path) ++ le16 target) junk path eq_refl path []
    (route_head n target (zlen path)) eq_refl eq_refl) as E2.
  rewrite zlen_nil in E2. rewrite E2 by lia. cbn [rbind]. rewrite fits_buf_ok; [by rewrite <- app_assoc|].
  rewrite !zlen_app. pose proof (zlen_commas (octet 2) path). change (zlen (cstr "]}")) with 2. lia.
Qed.

(** ** From the report queues to the stream *)
Definition renders (n : Z) (m : MqMsgbuf) (t : list Z) : Prop :=
  fits m /\ text_ok t /\ frame_ok t /\
  forall c junk, handle_net_report c n (type m) (text m ++ junk) = send_json_to_front c t.

Lemma info_renders n i : report_info_ok i -> Forall2 (renders n) (reports_of i) (report_texts n i).
Proof.
  intros [[Hh Hl] Ht Hr]. unfold reports_of, report_texts. apply Forall2_app.
  - destruct (traffic_dirty (traffic i) =? 0); constructor; [|constructor].
    pose proof (zlen_trx n (octet 3 (ninfo_addr i)) (tx_bytes (traffic i)) (rx_bytes (traffic i))).
    split; [done|]. split; [apply text_trx|]. split; [unfold frame_ok; lia|]. intros c junk.
    by apply trx_report_ok.
  - destruct (routing_dirty (routing i) =? 0); constructor; [|constructor].
    assert (Ez : zlen (route_of i) = rinfo_hop_count (routing i)).
    { unfold zlen, route_of. rewrite length_take, Hl. unfold MAX_HOP_COUNT in *. lia. }
    assert (Hp : zlen (route_of i) <= 50) by (unfold MAX_HOP_COUNT in *; lia).
    pose proof (zlen_nonneg (route_of i)).
    split; [|split; [apply text_route|split]].
    + unfold fits. cbn [text]. unfold enc_routing_report. fold (route_of i).
      autorewrite with crw. rewrite zlen_enc_addrs. unfold MQ_MAX_DATA_LEN. lia.
    + unfold frame_ok, route_json. rewrite !zlen_app. zlen_consts.
      pose proof (zlen_commas (octet 2) (route_of i)). pose proof (zlen_route_head n (octet 2 (ninfo_addr i)) (zlen (route_of i))).
      lia.
    + intros c junk. cbn [type text]. fold (route_of i). rewrite <- Ez. apply route_report_ok; [|done].
      change (octet 2 (ninfo_addr i)) with (u8 (ninfo_addr i / 65536)).
      pose proof (u8_range (ninfo_addr i / 65536)) as R. unfold is_u8, is_u16 in *. lia.
Qed.

Lemma render_all n c ms ts : Forall2 (renders n) ms ts -> server_mode c = 1 -> forall rb b, holds rb b ->
  zlen b + zlen (frames ts) <= TCP_BUFFER_SIZE ->
  exists rb', rfold (fun c m => handle_net_report c n (type m) (text m)) ms (put_sendq rb c) = Ok (put_sendq rb' c) /\
    holds rb' (b ++ frames ts).
Proof.
  intros Hall Hs. induction Hall as [|m t ms ts (_ & Ht & Hf & Hm) _ IH]; intros rb b Hrb Hr.
  - exists rb. by rewrite app_nil_r.
  - unfold frames in Hr |- *. cbn [map concat rfold] in Hr |- *. rewrite zlen_app in Hr.
    specialize (Hm (put_sendq rb c) []). rewrite app_nil_r in Hm. rewrite Hm.
    pose proof (zlen_nonneg (frames ts)) as Hn. unfold frames in Hn.
    destruct (send_json_ok rb b t c Hs Hrb Ht Hf) as (rb1 & -> & Hb1); [lia|]. cbn [rbind].
    rewrite app_assoc. apply IH; [done|]. rewrite zlen_app. unfold frames. lia.
Qed.

Section Front.
Context {Q : Type} `{MsgServiceOk Q}.

Definition net_report (n : Z) : Z := msgget (MQ_KEY_NET_REPORT + n).
Definition mac_report (n : Z) : Z := msgget (MQ_KEY_MAC_REPORT + n).
Definition phy_report : Z := msgget MQ_KEY_PHY_REPORT.

Lemma discard_ok fuel (q : Q) id msg : Forall fits (pending q id) -> (length (pending q id) <= fuel)%nat ->
  exists q' msg', discard fuel id (q, msg) = Ok (q', msg') /\ pending q' id = [] /\
    forall i, i <> id -> pending q' i = pending q i.
Proof.
  intros Hfit Hf. unfold discard. cbn [fst snd].
  pose proof (recv_loop_pure (fun u _ _ => Ok u) id _ fuel q msg tt Hf eq_refl Hfit ltac:(done)) as E.
  assert (Er : forall ms : list MqMsgbuf, rfold (fun (u : unit) (_ : MqMsgbuf) => Ok u) ms tt = Ok tt)
    by (induction ms; done).
  rewrite Er in E. destruct E as (q' & msg' & E & Hp & Ho). cbn in E. rewrite E. exists q', msg'.
  split; [done|]. split; [done|]. intros i Hi. by apply pushed_nil_iff, Ho.
Qed.

Lemma queue_keys a b n m : In n node_ids -> In m node_ids -> n <> m \/ a <> b ->
  In a [MQ_KEY_NET_REPORT; MQ_KEY_MAC_REPORT] -> In b [MQ_KEY_NET_REPORT; MQ_KEY_MAC_REPORT] ->
  msgget (a + n) <> msgget (b + m).
Proof.
  intros Hn%in_node_ids Hm%in_node_ids Hne Ha Hb E%msgget_inj.
  unfold MQ_KEY_NET_REPORT, MQ_KEY_MAC_REPORT in *. cbn in Ha, Hb. lia.
Qed.
Lemma phy_report_key a n : In n node_ids -> In a [MQ_KEY_NET_REPORT; MQ_KEY_MAC_REPORT] ->
  msgget (a + n) <> phy_report.
Proof.
  intros Hn%in_node_ids Ha E%msgget_inj. unfold MQ_KEY_NET_REPORT, MQ_KEY_MAC_REPORT, MQ_KEY_PHY_REPORT in *.
  cbn in Ha. lia.
Qed.

(** The loop over the nodes that empties their MAC queues. *)
Lemma recv_mac_ok fuel c l : forall (q : Q) msg, sim_wf c -> incl l node_ids ->
  (forall n, In n l -> Forall fits (pending q (mac_report n)) /\ (length (pending q (mac_report n)) <= fuel)%nat) ->
  exists q' msg', rfold (fun st i => let* n := sim_node c i in discard fuel (mqid_mac_report n) st) l (q, msg) =
      Ok (q', msg') /\ (forall n, In n l -> pending q' (mac_report n) = []) /\
    forall i, (forall n, In n l -> i <> mac_report n) -> pending q' i = pending q i.
Proof.
  induction l as [|n l IH]; intros q msg Hc Hl Hq; [by exists q, msg|]. cbn [rfold].
  destruct (wf_sim_node c Hc n) as (mp & np & ->); [apply Hl; by left|]. cbn [rbind mqid_mac_report].
  destruct (Hq n (or_introl eq_refl)) as [Hfit Hf].
  destruct (discard_ok fuel q (mac_report n) msg Hfit Hf) as (q1 & msg1 & E1 & Hp1 & Ho1).
  unfold mac_report in E1. rewrite E1. cbn [rbind].
  assert (Hsame : forall m, In m l -> pending q1 (mac_report m) = pending q (mac_report m) \/ pending q1 (mac_report m) = []).
  { intros m Hm. destruct (Z.eq_dec (mac_report m) (mac_report n)) as [->|Hne]; [by right|left; by apply Ho1]. }
  destruct (IH q1 msg1 Hc) as (q2 & msg2 & E2 & Hp2 & Ho2).
  - intros m Hm. apply Hl. by right.
  - intros m Hm. destruct (Hsame m Hm) as [->| ->]; [apply Hq; by right|]. cbn. split; [by constructor|lia].
  - exists q2, msg2. split; [done|]. split.
    + intros m [<-|Hm]; [|by apply Hp2]. destruct (in_dec Z.eq_dec n l) as [Hin|Hnin]; [by apply Hp2|].
      rewrite Ho2; [done|]. intros m Hm E. apply msgget_inj in E. assert (n = m) by lia. by subst.
    + intros i Hi. rewrite Ho2 by (intros m Hm; apply Hi; by right). apply Ho1, Hi. by left.
Qed.

(** The loop over the nodes that turns their reports into texts. *)
Lemma recv_net_ok fuel c (infos : Z -> list NeighborInfo) l : forall (q : Q) msg rb b,
  sim_wf c -> server_mode c = 1 -> incl l node_ids -> List.NoDup l ->
  (forall n, In n l -> pending q (net_report n) = concat (map reports_of (infos n)) /\
     Forall report_info_ok (infos n) /\ (length (pending q (net_report n)) <= fuel)%nat) ->
  let texts := concat (map (fun n => concat (map (report_texts n) (infos n))) l) in
  holds rb b -> zlen b + zlen (frames texts) <= TCP_BUFFER_SIZE ->
  exists q' msg' rb', rfold (fun '(q, c, msg) i =>
      let* n := sim_node c i in
      recv_loop (fun q msg _ c => let* c := handle_net_report c i (type msg) (text msg) in Ok (q, c))
        fuel q (mqid_net_report n) msg c) l (q, put_sendq rb c, msg) = Ok (q', put_sendq rb' c, msg') /\
    holds rb' (b ++ frames texts) /\ (forall n, In n l -> pending q' (net_report n) = []) /\
    forall i, (forall n, In n l -> i <> net_report n) -> pending q' i = pending q i.
Proof.
  induction l as [|n l IH]; intros q msg rb b Hc Hs Hl Hnd Hq texts Hrb Hr.
  { exists q, msg, rb. unfold texts. cbn. by rewrite app_nil_r. }
  apply NoDup_cons_iff in Hnd as [Hn Hnd]. unfold texts in Hr |- *. cbn [map concat rfold] in Hr |- *.
  change (sim_node (put_sendq rb c) n) with (sim_node c n).
  destruct (wf_sim_node c Hc n) as (mp & np & ->); [apply Hl; by left|]. cbn [rbind mqid_net_report].
  destruct (Hq n (or_introl eq_refl)) as (Hp & Hok & Hf). fold (net_report n).
  assert (Hall : Forall2 (renders n) (concat (map reports_of (infos n))) (concat (map (report_texts n) (infos n)))).
  { clear -Hok. induction (infos n) as [|i infs IHi]; [constructor|]. apply Forall_cons_1 in Hok as [Hi Hok].
    cbn. apply Forall2_app; [by apply info_renders|by apply IHi]. }
  unfold frames in Hr |- *. rewrite map_app, concat_app in Hr |- *. rewrite zlen_app in Hr.
  set (mine := concat (map (report_texts n) (infos n))) in *.
  set (others := concat (map (fun n => concat (map (report_texts n) (infos n))) l)) in *.
  pose proof (zlen_nonneg (frames others)) as Hpos. unfold frames in Hpos.
  destruct (render_all n c _ mine Hall Hs rb b Hrb) as (rb1 & E1 & Hb1); [unfold frames; lia|].
  pose proof (recv_loop_pure (fun c t b => handle_net_report c n t b) (net_report n) _ fuel q msg (put_sendq rb c) Hf eq_refl) as Eloop.
  rewrite Hp in Eloop. cbn zeta in Eloop. rewrite E1 in Eloop.
  destruct Eloop as (q1 & msg1 & E2 & Hp1 & Ho1).
  { clear -Hall. induction Hall as [|m1 t1 ms1 ts1 [Hm _] Hall IHHall]; by constructor. }
  { intros s m junk Hin. clear -Hall Hin. induction Hall as [|m1 t1 ms1 ts1 (_ & _ & _ & Hm) Hall IHHall]; [done|].
    destruct Hin as [->|Hin]; [|by apply IHHall]. rewrite Hm. specialize (Hm s []). by rewrite app_nil_r in Hm. }
  rewrite E2. cbn [rbind].
  assert (Hsame : forall i, i <> net_report n -> pending q1 i = pending q i)
    by (intros i Hi; by apply pushed_nil_iff, Ho1).
  assert (Hne : forall m, In m l -> net_report m <> net_report n).
  { intros m Hm E. apply msgget_inj in E. assert (m = n) by lia. by subst. }
  destruct (IH q1 msg1 rb1 (b ++ frames mine) Hc Hs) as (q2 & msg2 & rb2 & E3 & Hb2 & Hp2 & Ho2); try done.
  - intros m Hm. apply Hl. by right.
  - intros m Hm. rewrite Hsame by (by apply Hne). apply Hq. by right.
  - rewrite zlen_app. unfold frames in *. lia.
  - exists q2, msg2, rb2. split; [exact E3|]. unfold frames in Hb2. rewrite <- app_assoc in Hb2. split; [done|]. split.
    + intros m [<-|Hm]; [|by apply Hp2]. rewrite Ho2; [done|]. intros m Hm E. by apply (Hne m Hm).
    + intros i Hi. rewrite Ho2 by (intros m Hm; apply Hi; by right). apply Hsame, Hi. by left.
Qed.

(** What waits in the report queues: of the MAC and PHY processes anything, of each
    node the reports about the entries [infos n]. *)
Record reports_waiting (fuel : nat) (q : Q) (infos : Z -> list NeighborInfo) : Prop := {
  wait_phy : Forall fits (pending q phy_report) /\ (length (pending q phy_report) <= fuel)%nat;
  wait_mac : forall n, In n node_ids ->
    Forall fits (pending q (mac_report n)) /\ (length (pending q (mac_report n)) <= fuel)%nat;
  wait_net : forall n, In n node_ids -> pending q (net_report n) = concat (map reports_of (infos n)) /\
    Forall report_info_ok (infos n) /\ (length (pending q (net_report n)) <= fuel)%nat
}.
Definition all_texts (infos : Z -> list NeighborInfo) : list (list Z) :=
  concat (map (fun n => concat (map (report_texts n) (infos n))) node_ids).

Lemma put_sendq_same rb c : sendq (server_ctx c) = Some rb -> put_sendq rb c = c.
Proof. destruct c as [? ? ? ? ? ? ? [r w st]]. cbn. by intros ->. Qed.

Lemma recv_report_ok fuel (s : sim_state) rb infos junk1 junk2 junk3 :
  sim_wf (sctx s) -> server_mode (sctx s) = 1 -> sendq (server_ctx (sctx s)) = Some rb -> holds rb [] ->
  reports_waiting fuel (sim_q s) infos -> zlen (frames (all_texts infos)) <= TCP_BUFFER_SIZE ->
  exists s' rb', recv_report fuel s junk1 junk2 junk3 = Ok s' /\
    sctx s' = put_sendq rb' (sctx s) /\ holds rb' (frames (all_texts infos)) /\
    forall n, In n node_ids -> pending (sim_q s') (net_report n) = [].
Proof.
  intros Hc Hs Hrb Hempty [[Hfp Hlp] Hm Hn] Hroom. unfold recv_report, recv_phy_report.
  destruct (wf_sim_phy _ Hc) as [_ ->].
  destruct (discard_ok fuel (sim_q s) phy_report junk1 Hfp Hlp) as (q1 & m1 & E1 & _ & Ho1).
  unfold phy_report in E1. rewrite E1. cbn [rbind fst]. unfold recv_mac_report.
  destruct (recv_mac_ok fuel (sctx s) node_ids q1 junk2 Hc) as (q2 & m2 & E2 & _ & Ho2); [apply incl_refl|..].
  { intros n Hin. rewrite Ho1 by (apply phy_report_key; [done|cbn; auto]). by apply Hm. }
  rewrite E2. cbn [rbind fst]. unfold recv_net_report.
  destruct (recv_net_ok fuel (sctx s) infos node_ids q2 junk3 rb [] Hc Hs) as (q3 & m3 & rb3 & E3 & Hb3 & Hp3 & _);
    try done; [apply incl_refl|apply nodup_node_ids|..].
  { intros n Hin. rewrite Ho2.
    - rewrite Ho1 by (apply phy_report_key; [done|cbn; auto]). by apply Hn.
    - intros m Hm'. apply queue_keys; [done|done|right; discriminate|cbn; auto..]. }
  rewrite put_sendq_same in E3 by done. rewrite E3. cbn [rbind fst snd].
  exists (with_q q3 (with_sctx (put_sendq rb3 (sctx s)) s)), rb3. done.
Qed.

(** C11: What the nodes report reaches the front end completely and in order.  From a
    simulator whose send buffer is empty, one turn of [recv_report] and of the
    network thread's sending loop gives [send] exactly the frames of the JSON texts of
    the waiting reports, node by node and in the order they were made, with
    nothing between them, empties the queues, and drops whatever the other processes
    reported; the texts say what the entries of the node's statistics say.  No
    formatted text overruns its buffer, for routes of any length the node can report,
    as long as the frames fit the send buffer. *)
Theorem reports_reach_front (fuel k : nat) (s : sim_state) (rb : RingBuffer) (infos : Z -> list NeighborInfo)
  (junk1 junk2 junk3 : MqMsgbuf) (Hc : sim_wf (sctx s)) (Hmode : server_mode (sctx s) = 1)
  (Hrb : sendq (server_ctx (sctx s)) = Some rb) (Hempty : holds rb [])
  (Hwait : reports_waiting fuel (sim_q s) infos)
  (Hroom : zlen (frames (all_texts infos)) <= TCP_BUFFER_SIZE) (Hk : (80 <= k)%nat) :
  exists s' v', recv_report fuel s junk1 junk2 junk3 = Ok s' /\
    server_send k (server_ctx (sctx s')) [] = Ok (v', frames (all_texts infos)) /\
    forall n, In n node_ids -> pending (sim_q s') (net_report n) = [].
Proof.
  destruct (recv_report_ok fuel s rb infos junk1 junk2 junk3) as (s' & rb' & E & Es & Hb & Hp); try done.
  destruct (server_send_ok k rb' _ (server_ctx (sctx s')) [] ltac:(by rewrite Es) Hb) as (rb2 & E2 & _).
  { unfold TCP_IO_SIZE, TCP_BUFFER_SIZE in *. lia. }
  exists s', (set_sendq (Some rb2) (server_ctx (sctx s'))). done.
Qed.
End Front.

(** ** A run: node 1 reports its traffic with node 3 and its route to it *)
Definition ex_info : NeighborInfo :=
  mkNinfo 0x0103a8c0 (mkTraffic 1500 20 3 1 1) (mkRinfo 2 ([0x0102a8c0; 0x0103a8c0] ++ replicate 48 0) 1).
Definition ex_infos (n : Z) : list NeighborInfo := if n =? 1 then [ex_info] else [].
Definition ex_front : sim_state (Q := ListQueues) :=
  mkSim (ex_sctx 1 (mkServer None (Some ex_ring) 0)) (mkLq 9 (<[MQ_KEY_NET_REPORT + 1 := reports_of ex_info]> ∅)) (fun _ => 0) [].

Example ex_texts : all_texts ex_infos =
  [[123] ++ quoted "type" ++ cstr ": " ++ quoted "TRx" ++ cstr ", " ++ quoted "node" ++ cstr ": 1, " ++
     quoted "peer" ++ cstr ": 1," ++ quoted "tx" ++ cstr ": 1500, " ++ quoted "rx" ++ cstr ": 20}";
   [123] ++ quoted "type" ++ cstr ": " ++ quoted "Route" ++ cstr ", " ++ quoted "node" ++ cstr ": 1, " ++
     quoted "target" ++ cstr ": 3," ++ quoted "hopcount" ++ cstr ": 2, " ++ quoted "path" ++ cstr " : [2, 3]}"].
Proof. vm_compute. reflexivity. Qed.

Lemma ex_waiting_reports : reports_waiting (Q := ListQueues) 2 (sim_q ex_front) ex_infos.
Proof.
  assert (Hp : forall i, pending (sim_q ex_front) i = if i =? MQ_KEY_NET_REPORT + 1 then reports_of ex_info else []).
  { intros i. cbn. unfold lq_pending. cbn [lq_queues]. destruct (Z.eqb_spec i (MQ_KEY_NET_REPORT + 1)) as [->|Hne].
    - by rewrite lookup_insert_eq.
    - by rewrite lookup_insert_ne. }
  split.
  - rewrite Hp. replace (phy_report =? _) with false by done. cbn. split; [by constructor|lia].
  - intros n Hn%in_node_ids. rewrite Hp. unfold mac_report. cbn [msgget list_queues].
    destruct (Z.eqb_spec (MQ_KEY_MAC_REPORT + n) (MQ_KEY_NET_REPORT + 1)) as [E|_].
    { unfold MQ_KEY_MAC_REPORT, MQ_KEY_NET_REPORT in E. lia. }
    cbn. split; [by constructor|lia].
  - intros n Hn. rewrite Hp. unfold net_report, ex_infos. cbn [msgget list_queues].
    destruct (Z.eqb_spec (MQ_KEY_NET_REPORT + n) (MQ_KEY_NET_REPORT + 1)) as [E|E], (Z.eqb_spec n 1); try lia.
    + split; [cbn [map concat]; by rewrite app_nil_r|]. split; [|vm_compute; lia]. constructor; [|constructor].
      split; [split; [split; by vm_compute|done]|..]; split; by vm_compute.
    + split; [done|]. split; [by constructor|cbn; lia].
Qed.

Lemma reports_reach_front_witness :
  exists s' v', recv_report 2 ex_front (mkMsg 0 []) (mkMsg 0 []) (mkMsg 0 []) = Ok s' /\
    server_send 80 (server_ctx (sctx s')) [] = Ok (v', frames (all_texts ex_infos)) /\
    forall n, In n node_ids -> pending (sim_q s') (net_report n) = [].
Proof.
  apply (reports_reach_front 2 80 ex_front ex_ring ex_infos);
    [apply ex_sctx_wf|done|done|apply ring_new_holds|apply ex_waiting_reports|by vm_compute|done].
Defined.
