(* ===== verification/Medium.v ===== *)
(** The radio medium as a whole: the MAC process of every node, the radio simulator and
    the queues between them, with the node processes at both ends.

    A step is a turn of one process, the code of Mac and Phy run on the shared queues; of
    a node process only what its turn does to its two queues counts ([net_turn], which
    [recvfrom_mac] of simnet/mac_connection.c provides).  Turns come in any order. *)
From S2P Require Import Prelude MsgQueue Mac Phy RouteIface Net NetPackets.
From stdpp Require Import base list numbers gmap.
From Stdlib Require Import ZArith Lia.
Open Scope Z_scope.
Open Scope c_scope.

Section Medium.
Context {Q : Type} `{MsgServiceOk Q}.

(** ** The queues *)
Definition mac_keys : list Z := [MQ_KEY_NET_TO_MAC; MQ_KEY_MAC_TO_NET; MQ_KEY_MAC_TO_PHY; MQ_KEY_PHY_TO_MAC].
Definition command_queue : Z := msgget MQ_KEY_PHY_COMMAND.
(** Nothing is taken from a queue, and nothing put into it. *)
Definition keeps (q q' : Q) (i : Z) : Prop := pushed q q' i [].
Definition medium_queue (i : Z) : Prop :=
  i = command_queue \/ exists k n, In k mac_keys /\ In n node_ids /\ i = msgget (k + n).

Lemma command_neq k n : In k mac_keys -> In n node_ids -> command_queue <> msgget (k + n).
Proof.
  intros Hk Hn E. apply msgget_inj in E. apply in_node_ids in Hn.
  cbn in Hk. unfold MQ_KEY_PHY_COMMAND, MQ_KEY_NET_TO_MAC, MQ_KEY_MAC_TO_NET, MQ_KEY_MAC_TO_PHY, MQ_KEY_PHY_TO_MAC in *.
  destruct Hk as [<-|[<-|[<-|[<-|[]]]]]; lia.
Qed.

(** ** Turns *)

(** A turn of the node process [n]: it takes every message that waits for it and sends
    some. *)
Record net_turn (n : Z) (q q' : Q) (got sent : list MqMsgbuf) : Prop := {
  turn_got : pending q (net_up n) = got;
  turn_empty : pending q' (net_up n) = [];
  turn_sent : pushed q q' (net_down n) sent;
  turn_fits : Forall fits sent;
  turn_others : forall i, i <> net_up n -> i <> net_down n -> medium_queue i -> keeps q q' i
}.

(** Turns that are enough to empty the queues of a process. *)
Definition mac_fuel (q : Q) (n : Z) : nat := length (pending q (net_down n)) + length (pending q (phy_up n)).
Definition phy_fuel (q : Q) : nat :=
  length (pending q command_queue) + list_sum (map (fun s => length (pending q (mac_in s))) node_ids).

Inductive event : Type := NetTurn (n : Z) (got : list MqMsgbuf) | MacTurn (n : Z) | PhyTurn | LinkCommand (cfgs : list PhyLinkConfig).
Inductive step : Q * SimPhyCtx -> event -> Q * SimPhyCtx -> Prop :=
  | step_net n got sent q q' c : In n node_ids -> net_turn n q q' got sent -> step (q, c) (NetTurn n got) (q', c)
  | step_mac n msg q q' c : In n node_ids -> poll_mq (mac_fuel q n) q (mac_ctx n) msg = Ok q' -> step (q, c) (MacTurn n) (q', c)
  | step_phy junk junk' q q' c c' : simphy_work (phy_fuel q) q c junk junk' = Ok (q', c') -> step (q, c) PhyTurn (q', c')
  | step_command cfgs q q' c : Forall config_ok cfgs -> pushed q q' command_queue (map config_msg cfgs) ->
      (forall i, i <> command_queue -> keeps q q' i) -> step (q, c) (LinkCommand cfgs) (q', c).

(** What every reachable state satisfies. *)
Record medium_ok (s : Q * SimPhyCtx) : Prop := {
  ok_wf : phy_wf (snd s);
  ok_fits : forall k n, In k mac_keys -> In n node_ids -> Forall fits (pending (fst s) (msgget (k + n)));
  ok_commands : exists cfgs, pending (fst s) command_queue = map config_msg cfgs /\ Forall config_ok cfgs
}.

(** ** The processes run in such a state *)
Lemma mac_turn_ok s n msg : medium_ok s -> In n node_ids ->
  exists q', poll_mq (mac_fuel (fst s) n) (fst s) (mac_ctx n) msg = Ok q' /\ mac_round n (fst s) q'.
Proof.
  intros [_ Hf _] Hn. apply poll_mq_spec; [done|apply (Hf MQ_KEY_NET_TO_MAC)|apply (Hf MQ_KEY_PHY_TO_MAC)|unfold mac_fuel; lia..]; cbn; tauto.
Qed.
Lemma in_list_sum (f : Z -> nat) x l : In x l -> (f x <= list_sum (map f l))%nat.
Proof. induction l as [|y l IH]; [done|]. cbn [map]. change (list_sum (f y :: map f l)) with (f y + list_sum (map f l))%nat.
  intros [->|Hx]; [lia|specialize (IH Hx); lia]. Qed.
Lemma phy_turn_ok s junk junk' : medium_ok s ->
  exists q' c' cfgs, simphy_work (phy_fuel (fst s)) (fst s) (snd s) junk junk' = Ok (q', c') /\ phy_round (fst s) (snd s) cfgs q' c'.
Proof.
  intros [Hwf Hf (cfgs & Hcmd & Hcfg)].
  destruct (simphy_work_spec (phy_fuel (fst s)) (fst s) (snd s) cfgs junk junk' Hwf) as (q' & c' & Hrun & Hround); [|by exists q', c', cfgs].
  split; [| |done|done|].
  - intros x Hx. apply (Hf MQ_KEY_MAC_TO_PHY); cbn; tauto.
  - intros x Hx. unfold phy_fuel. pose proof (in_list_sum (fun s0 => length (pending (fst s) (mac_in s0))) x node_ids Hx) as Hle. cbn beta in Hle. lia.
  - unfold phy_fuel. rewrite Hcmd, length_map. lia.
Qed.

(** ** Every step keeps it *)

Lemma Forall_sublist {A} (P : A -> Prop) l l' : l `sublist_of` l' -> Forall P l' -> Forall P l.
Proof. induction 1 as [|x l l' _ IH|x l l' _ IH]; [done| |]; intros [Hx Hl]%Forall_cons_1; [constructor; [done|by apply IH]|by apply IH]. Qed.
(** A queue was emptied, or got messages that fit. *)
Definition fed (q q' : Q) (i : Z) : Prop := pending q' i = [] \/ exists ms, pushed q q' i ms /\ Forall fits ms.
Lemma fed_fits q q' i : fed q q' i -> Forall fits (pending q i) -> Forall fits (pending q' i).
Proof.
  intros [->|(ms & (sub & -> & Hs & _) & Hms)] Hf; [done|]. apply Forall_app. split; [done|]. by eapply Forall_sublist.
Qed.
Lemma fed_keeps q q' i : keeps q q' i -> fed q q' i.
Proof. intros Hk. right. exists []. by split. Qed.
Lemma as_data_fits ms : Forall fits ms -> Forall fits (map as_data ms).
Proof. induction 1; by constructor. Qed.
Lemma delivered_fits inq c r : (forall s, In s node_ids -> Forall fits (inq s)) -> Forall fits (delivered inq c r).
Proof.
  intros Hf. unfold delivered. apply List.Forall_forall. intros m Hm. apply in_concat in Hm as (l & Hl & Hm). apply in_map_iff in Hl as (s & <- & Hs).
  specialize (Hf s Hs). rewrite List.Forall_forall in Hf. destruct (_ && _ && _); [|done]. apply filter_In in Hm as [Hm _]. by apply Hf.
Qed.
Lemma mac_fed n q q' i : mac_round n q q' -> Forall fits (pending q (net_down n)) -> Forall fits (pending q (phy_up n)) -> fed q q' i.
Proof.
  intros [Hd Hu Hde Hue _ _ Ho] H1 H2.
  destruct (Z.eq_dec i (net_down n)) as [->|]; [by left|]. destruct (Z.eq_dec i (phy_up n)) as [->|]; [by left|].
  destruct (Z.eq_dec i (phy_down n)) as [->|]; [right; eexists; split; [exact Hd|by apply as_data_fits]|].
  destruct (Z.eq_dec i (net_up n)) as [->|]; [right; eexists; split; [exact Hu|by apply as_data_fits]|]. by apply fed_keeps, Ho.
Qed.
Lemma phy_other k n : In k [MQ_KEY_NET_TO_MAC; MQ_KEY_MAC_TO_NET] -> In n node_ids ->
  forall x, In x node_ids -> msgget (k + n) <> mac_in x /\ msgget (k + n) <> mac_out x.
Proof. intros Hk Hn x Hx. split; (apply node_queue_neq; [done..|]); destruct Hk as [<-|[<-|[]]]; vm_compute; done. Qed.
Lemma phy_fed q c cfgs q' c' k n : phy_round q c cfgs q' c' -> (forall s, In s node_ids -> Forall fits (pending q (mac_in s))) ->
  In k mac_keys -> In n node_ids -> fed q q' (msgget (k + n)).
Proof.
  intros Hr Hf Hk Hn. assert (Hcases : In k [MQ_KEY_NET_TO_MAC; MQ_KEY_MAC_TO_NET] \/ k = MQ_KEY_MAC_TO_PHY \/ k = MQ_KEY_PHY_TO_MAC) by (cbn in *; intuition).
  destruct Hcases as [Hk'|[->| ->]].
  - apply fed_keeps, (round_other _ _ _ _ _ Hr); [apply not_eq_sym; by apply command_neq|by apply phy_other].
  - left. by apply (round_in _ _ _ _ _ Hr).
  - right. eexists. split; [by apply (round_out _ _ _ _ _ Hr)|]. by apply delivered_fits.
Qed.
Lemma sublist_commands sub cfgs : sub `sublist_of` map config_msg cfgs -> exists cfgs', sub = map config_msg cfgs' /\ cfgs' `sublist_of` cfgs.
Proof.
  revert sub. induction cfgs as [|cfg cfgs IH]; intros sub Hs; cbn [map] in Hs.
  - apply sublist_nil_r in Hs as ->. by exists [].
  - apply sublist_cons_r in Hs as [Hs|(l' & -> & Hs)]; destruct (IH _ Hs) as (cfgs' & -> & Hc).
    + exists cfgs'. split; [done|]. by constructor.
    + exists (cfg :: cfgs'). split; [done|]. by constructor.
Qed.

Lemma step_ok s e s' : medium_ok s -> step s e s' -> medium_ok s'.
Proof.
  intros Hok Hs. pose proof Hok as [Hwf Hf Hcmd]. destruct Hs as [n got sent q q' c Hn Ht|n msg q q' c Hn Hrun|junk junk' q q' c c' Hrun|cfgs q q' c Hc Hp Ho];
    cbn [fst snd] in *.
  - split; cbn [fst snd]; [done| |].
    + intros k m Hk Hm. eapply fed_fits; [|by apply Hf]. destruct (Z.eq_dec (msgget (k + m)) (net_up n)) as [->|]; [left; by apply (turn_empty _ _ _ _ _ Ht)|].
      destruct (Z.eq_dec (msgget (k + m)) (net_down n)) as [->|]; [right; exists sent; split; apply Ht|].
      apply fed_keeps, (turn_others _ _ _ _ _ Ht); [done..|]. right. by exists k, m.
    + rewrite (proj1 (proj1 (pushed_nil_iff q q' command_queue) (turn_others _ _ _ _ _ Ht command_queue
        (command_neq MQ_KEY_MAC_TO_NET n ltac:(cbn; tauto) Hn) (command_neq MQ_KEY_NET_TO_MAC n ltac:(cbn; tauto) Hn) ltac:(by left)))). done.
  - destruct (mac_turn_ok (q, c) n msg Hok Hn) as (q1 & Hrun1 & Hr). cbn [fst] in *. rewrite Hrun in Hrun1. injection Hrun1 as <-. split; cbn [fst snd]; [done| |].
    + intros k m Hk Hm. eapply fed_fits; [|by apply Hf]. eapply mac_fed; [exact Hr|apply (Hf MQ_KEY_NET_TO_MAC)|apply (Hf MQ_KEY_PHY_TO_MAC)]; cbn; tauto.
    + rewrite (proj1 (proj1 (pushed_nil_iff q q' command_queue) (mac_others _ _ _ Hr command_queue
        (command_neq MQ_KEY_NET_TO_MAC n ltac:(cbn; tauto) Hn) (command_neq MQ_KEY_MAC_TO_NET n ltac:(cbn; tauto) Hn)
        (command_neq MQ_KEY_MAC_TO_PHY n ltac:(cbn; tauto) Hn) (command_neq MQ_KEY_PHY_TO_MAC n ltac:(cbn; tauto) Hn)))). done.
  - destruct (phy_turn_ok (q, c) junk junk' Hok) as (q1 & c1 & cfgs & Hrun1 & Hr). cbn [fst snd] in *. rewrite Hrun in Hrun1. injection Hrun1 as <- <-.
    split; cbn [fst snd]; [apply Hr| |exists []; split; [apply Hr|done]].
    intros k m Hk Hm. eapply fed_fits; [|by apply Hf]. eapply phy_fed; [exact Hr| |done|done]. intros s Hs. apply (Hf MQ_KEY_MAC_TO_PHY); cbn; tauto.
  - split; cbn [fst snd]; [done| |].
    + intros k m Hk Hm. eapply fed_fits; [apply fed_keeps, Ho, not_eq_sym; by apply command_neq|by apply Hf].
    + destruct Hcmd as (cfgs0 & Hp0 & Hc0), Hp as (sub & Hp & Hsub & _). destruct (sublist_commands sub cfgs Hsub) as (cfgs' & -> & Hsub').
      exists (cfgs0 ++ cfgs'). rewrite Hp, Hp0, map_app. split; [done|]. apply Forall_app. split; [done|]. by eapply Forall_sublist.
Qed.

(** ** Safety *)
Inductive reachable (s0 : Q * SimPhyCtx) : Q * SimPhyCtx -> Prop :=
  | reach_start : reachable s0 s0
  | reach_step s e s' : reachable s0 s -> step s e s' -> reachable s0 s'.
Lemma reachable_ok s0 s : medium_ok s0 -> reachable s0 s -> medium_ok s.
Proof. intros Hs0 Hr. induction Hr as [|s e s' _ IH Hs]; [done|]. by eapply step_ok. Qed.

(** C8: no turn of the medium goes wrong.  In every state that turns of the processes in any order lead to, the MAC process of each
    node and the radio simulator run their next turn to its end without an access outside a buffer or table, whatever the receive
    buffers hold; every message in a queue between them fits the receive buffers. *)
Theorem medium_safe s0 s : medium_ok s0 -> reachable s0 s ->
  (forall n msg, In n node_ids -> exists q', poll_mq (mac_fuel (fst s) n) (fst s) (mac_ctx n) msg = Ok q') /\
  (forall junk junk', exists q' c', simphy_work (phy_fuel (fst s)) (fst s) (snd s) junk junk' = Ok (q', c')) /\
  forall k n, In k mac_keys -> In n node_ids -> Forall fits (pending (fst s) (msgget (k + n))).
Proof.
  intros Hs0 Hr. pose proof (reachable_ok s0 s Hs0 Hr) as Hok. split; [|split].
  - intros n msg Hn. destruct (mac_turn_ok s n msg Hok Hn) as (q' & Hrun & _). by exists q'.
  - intros junk junk'. destruct (phy_turn_ok s junk junk' Hok) as (q' & c' & _ & Hrun & _). by exists q', c'.
  - apply Hok.
Qed.

(** ** Liveness *)

(** A turn finds room for what it sends. *)
Definition roomy (s : Q * SimPhyCtx) (e : event) : Prop :=
  let '(q, c) := s in
  match e with
  | MacTurn n => room q (phy_down n) (length (pending q (net_down n))) /\ room q (net_up n) (length (pending q (phy_up n)))
  | PhyTurn => forall r, In r node_ids -> room q (mac_out r) (length (delivered (fun s => pending q (mac_in s)) c r))
  | _ => True
  end.
Record run (st : nat -> Q * SimPhyCtx) (ev : nat -> event) : Prop := {
  run_start : medium_ok (st 0%nat);
  run_step : forall i, step (st i) (ev i) (st (S i));
  run_room : forall i, roomy (st i) (ev i)
}.
Definition is_mac (n : Z) (e : event) : bool := match e with MacTurn m => m =? n | _ => false end.
Definition is_phy (e : event) : bool := match e with PhyTurn => true | _ => false end.
Definition is_net (n : Z) (e : event) : bool := match e with NetTurn m _ => m =? n | _ => false end.
Definition often (ev : nat -> event) (f : event -> bool) : Prop := forall i, exists j, (i <= j)%nat /\ f (ev j) = true.

Lemma run_ok st ev i : run st ev -> medium_ok (st i).
Proof. intros [Hs0 Hs _]. induction i as [|i IH]; [done|]. by eapply step_ok. Qed.
(** What holds until a turn that comes again and again, and then something else, leads to it. *)
Lemma leads_to ev (f : event -> bool) (P P' : nat -> Prop) t : often ev f ->
  (forall i, (t <= i)%nat -> P i -> f (ev i) = false -> P (S i)) -> (forall i, (t <= i)%nat -> P i -> f (ev i) = true -> P' i) ->
  forall i, (t <= i)%nat -> P i -> exists j, (i <= j)%nat /\ f (ev j) = true /\ P' j.
Proof.
  intros Hoft Hkeep Hgo i Hi HP. destruct (Hoft i) as (j & Hj & Hf). remember (j - i)%nat as d eqn:Ed. revert i Hi HP Hj Ed.
  induction d as [|d IH]; intros i Hi HP Hj Ed.
  - assert (j = i) as -> by lia. exists i. split; [done|]. split; [done|]. by apply Hgo.
  - destruct (f (ev i)) eqn:Ei; [exists i; split; [done|]; split; [done|]; by apply Hgo|].
    destruct (IH (S i)) as (j' & Hj' & Hf' & HP'); [lia|by apply Hkeep|lia|lia|]. exists j'. split; [lia|done].
Qed.
Lemma pushed_sublist q q' i ms ms' : pushed q q' i ms -> ms' `sublist_of` pending q i -> ms' `sublist_of` pending q' i.
Proof. intros (sub & -> & _ & _) Hs. by apply sublist_inserts_r. Qed.

(** A queue only loses messages in the turns of the process that reads it. *)
Definition reader (k n : Z) (e : event) : bool :=
  if k =? MQ_KEY_MAC_TO_NET then is_net n e else if k =? MQ_KEY_MAC_TO_PHY then is_phy e else is_mac n e.
Lemma key_inj k k' n n' : In k mac_keys -> In k' mac_keys -> In n node_ids -> In n' node_ids -> msgget (k + n) = msgget (k' + n') -> k = k' /\ n = n'.
Proof.
  intros Hk Hk' Hn Hn' E. apply msgget_inj in E. apply in_node_ids in Hn, Hn'. cbn in Hk, Hk'.
  unfold MQ_KEY_NET_TO_MAC, MQ_KEY_MAC_TO_NET, MQ_KEY_MAC_TO_PHY, MQ_KEY_PHY_TO_MAC in *. lia.
Qed.
Lemma only_fed k n s e s' : medium_ok s -> step s e s' -> In k mac_keys -> In n node_ids -> reader k n e = false ->
  exists ms, pushed (fst s) (fst s') (msgget (k + n)) ms.
Proof.
  intros Hok Hs Hk Hn He.
  assert (Hin : forall k', k' = MQ_KEY_NET_TO_MAC \/ k' = MQ_KEY_MAC_TO_NET \/ k' = MQ_KEY_MAC_TO_PHY \/ k' = MQ_KEY_PHY_TO_MAC -> In k' mac_keys)
    by (cbn; intuition).
  destruct Hs as [m got sent q q' c Hm Ht|m msg q q' c Hm Hrun|junk junk' q q' c c' Hrun|cfgs q q' c Hc Hp Ho]; cbn [fst snd] in *.
  - destruct (Z.eq_dec (msgget (k + n)) (net_up m)) as [E|Hne].
    { apply key_inj in E as [-> ->]; [|done|apply Hin; tauto|done|done]. cbn in He. by rewrite Z.eqb_refl in He. }
    destruct (Z.eq_dec (msgget (k + n)) (net_down m)) as [->|Hne2]; [by exists sent; apply Ht|].
    exists []. apply (turn_others _ _ _ _ _ Ht); [done..|]. right. by exists k, n.
  - destruct (mac_turn_ok (q, c) m msg Hok Hm) as (q1 & Hrun1 & Hr). cbn [fst] in *. rewrite Hrun in Hrun1. injection Hrun1 as <-.
    destruct (Z.eq_dec (msgget (k + n)) (net_down m)) as [E|H1].
    { apply key_inj in E as [-> ->]; [|done|apply Hin; tauto|done|done]. cbn in He. by rewrite Z.eqb_refl in He. }
    destruct (Z.eq_dec (msgget (k + n)) (phy_up m)) as [E|H2].
    { apply key_inj in E as [-> ->]; [|done|apply Hin; tauto|done|done]. cbn in He. by rewrite Z.eqb_refl in He. }
    destruct (Z.eq_dec (msgget (k + n)) (phy_down m)) as [->|H3]; [eexists; apply Hr|].
    destruct (Z.eq_dec (msgget (k + n)) (net_up m)) as [->|H4]; [eexists; apply Hr|]. exists []. by apply (mac_others _ _ _ Hr).
  - destruct (phy_turn_ok (q, c) junk junk' Hok) as (q1 & c1 & cfgs & Hrun1 & Hr). cbn [fst snd] in *. rewrite Hrun in Hrun1. injection Hrun1 as <- <-.
    destruct (Z.eq_dec k MQ_KEY_PHY_TO_MAC) as [->|H1]; [eexists; by apply (round_out _ _ _ _ _ Hr)|].
    destruct (Z.eq_dec k MQ_KEY_MAC_TO_PHY) as [->|H2]; [done|]. exists []. apply (round_other _ _ _ _ _ Hr); [apply not_eq_sym; by apply command_neq|].
    apply phy_other; [|done]. cbn in Hk |- *. intuition congruence.
  - exists []. apply Ho, not_eq_sym. by apply command_neq.
Qed.
Lemma kept k n s e s' ms : medium_ok s -> step s e s' -> In k mac_keys -> In n node_ids -> reader k n e = false ->
  ms `sublist_of` pending (fst s) (msgget (k + n)) -> ms `sublist_of` pending (fst s') (msgget (k + n)).
Proof. intros Hok Hs Hk Hn He Hms. destruct (only_fed k n s e s' Hok Hs Hk Hn He) as [sent Hp]. by eapply pushed_sublist. Qed.

(** What the turn of the reader does with them. *)
Lemma map_sublist {A B} (f : A -> B) l l' : l `sublist_of` l' -> map f l `sublist_of` map f l'.
Proof. induction 1; by constructor. Qed.
Lemma mac_moves_down n s s' e ms : medium_ok s -> step s e s' -> roomy s e -> is_mac n e = true ->
  ms `sublist_of` pending (fst s) (net_down n) -> map as_data ms `sublist_of` pending (fst s') (phy_down n).
Proof.
  intros Hok Hs Hroom He Hms. destruct Hs as [| m msg q q' c Hm Hrun| |]; try discriminate. cbn [fst is_mac roomy] in *. apply Z.eqb_eq in He as ->.
  destruct (mac_turn_ok (q, c) n msg Hok Hm) as (q1 & Hrun1 & Hr). cbn [fst] in *. rewrite Hrun in Hrun1. injection Hrun1 as <-.
  rewrite (pushed_room _ _ _ _ (mac_down _ _ _ Hr)) by (rewrite length_map; apply Hroom). apply sublist_inserts_l. by apply map_sublist.
Qed.
Lemma mac_moves_up n s s' e ms : medium_ok s -> step s e s' -> roomy s e -> is_mac n e = true ->
  ms `sublist_of` pending (fst s) (phy_up n) -> map as_data ms `sublist_of` pending (fst s') (net_up n).
Proof.
  intros Hok Hs Hroom He Hms. destruct Hs as [| m msg q q' c Hm Hrun| |]; try discriminate. cbn [fst is_mac roomy] in *. apply Z.eqb_eq in He as ->.
  destruct (mac_turn_ok (q, c) n msg Hok Hm) as (q1 & Hrun1 & Hr). cbn [fst] in *. rewrite Hrun in Hrun1. injection Hrun1 as <-.
  rewrite (pushed_room _ _ _ _ (mac_up _ _ _ Hr)) by (rewrite length_map; apply Hroom). apply sublist_inserts_l. by apply map_sublist.
Qed.
Lemma delivered_has inq c s r : In s node_ids -> hears c s r = true -> List.filter is_data (inq s) `sublist_of` delivered inq c r.
Proof.
  intros Hs Hh. unfold delivered. induction node_ids as [|x l IH]; [done|]. cbn [map concat]. destruct Hs as [->|Hs].
  - apply sublist_inserts_r. unfold hears in Hh. apply andb_prop in Hh as [Hh ->]. apply andb_prop in Hh as [-> ->]. done.
  - apply sublist_inserts_l. by apply IH.
Qed.
Lemma phy_moves s r st st' e ms : medium_ok st -> step st e st' -> roomy st e -> is_phy e = true -> In s node_ids -> In r node_ids ->
  hears (snd st) s r = true -> Forall (fun m => is_data m = true) ms ->
  ms `sublist_of` pending (fst st) (phy_down s) -> ms `sublist_of` pending (fst st') (phy_up r).
Proof.
  intros Hok Hs Hroom He Hsn Hrn Hh Hd Hms. destruct Hs as [| |junk junk' q q' c c' Hrun|]; try discriminate. cbn [fst snd roomy] in *.
  destruct (phy_turn_ok (q, c) junk junk' Hok) as (q1 & c1 & cfgs & Hrun1 & Hr). cbn [fst snd] in *. rewrite Hrun in Hrun1. injection Hrun1 as <- <-.
  change (phy_up r) with (mac_out r). change (phy_down s) with (mac_in s) in Hms. rewrite (pushed_room _ _ _ _ (round_out _ _ _ _ _ Hr r Hrn)) by (by apply Hroom). apply sublist_inserts_l.
  etransitivity; [|by apply (delivered_has (fun s => pending q (mac_in s)) c s r)].
  assert (Hall : forall l l', l `sublist_of` l' -> Forall (fun m => is_data m = true) l -> l `sublist_of` List.filter is_data l').
  { induction 1 as [|x l l' _ IH|x l l' _ IH]; intros Hl; [done| |]; cbn [List.filter].
    - apply Forall_cons_1 in Hl as [-> Hl]. by apply sublist_skip, IH.
    - destruct (is_data x); [by apply sublist_cons, IH|by apply IH]. }
  by apply Hall.
Qed.

(** C7: every frame arrives.  In a run in which each queue has room for what is sent to it, and in which the four processes on the
    way take turns again and again, in any order with the others, the frames the node process [s] has handed to its MAC process are
    taken by the node process [r] in one of its later turns, all of them and in order, as long as the radio simulator lets [r] hear [s]. *)
Theorem frames_arrive st ev s r t : run st ev -> In s node_ids -> In r node_ids ->
  often ev (is_mac s) -> often ev is_phy -> often ev (is_mac r) -> often ev (is_net r) ->
  (forall i, (t <= i)%nat -> hears (snd (st i)) s r = true) ->
  exists j got, (t <= j)%nat /\ ev j = NetTurn r got /\ map as_data (pending (fst (st t)) (net_down s)) `sublist_of` got.
Proof.
  intros Hrun Hs Hr Hms Hp Hmr Hnr Hhear. set (ms := pending (fst (st t)) (net_down s)). set (ds := map as_data ms).
  assert (Hdd : map as_data ds = ds) by (unfold ds; rewrite map_map; by apply map_ext).
  assert (Hdata : Forall (fun m => is_data m = true) ds) by (unfold ds; apply List.Forall_forall; intros m (m' & <- & _)%in_map_iff; done).
  pose proof (fun i => run_ok st ev i Hrun) as Hok. pose proof (run_step _ _ Hrun) as Hstep. pose proof (run_room _ _ Hrun) as Hroom.
  destruct (leads_to ev (is_mac s) (fun i => ms `sublist_of` pending (fst (st i)) (net_down s)) (fun i => ds `sublist_of` pending (fst (st (S i))) (phy_down s)) t Hms)
    with (i := t) as (a & Ha & _ & Pa); [| |done|done|].
  { intros i Hi HP He. apply (kept MQ_KEY_NET_TO_MAC s (st i) (ev i) (st (S i))); [apply Hok|apply Hstep|cbn; tauto|done|exact He|exact HP]. }
  { intros i Hi HP He. by apply (mac_moves_down s (st i) (st (S i)) (ev i)). }
  destruct (leads_to ev is_phy (fun i => ds `sublist_of` pending (fst (st i)) (phy_down s)) (fun i => ds `sublist_of` pending (fst (st (S i))) (phy_up r)) t Hp)
    with (i := S a) as (b & Hb & _ & Pb); [| |lia|done|].
  { intros i Hi HP He. apply (kept MQ_KEY_MAC_TO_PHY s (st i) (ev i) (st (S i))); [apply Hok|apply Hstep|cbn; tauto|done|exact He|exact HP]. }
  { intros i Hi HP He. by apply (phy_moves s r (st i) (st (S i)) (ev i)); [..|apply Hhear| |]. }
  destruct (leads_to ev (is_mac r) (fun i => ds `sublist_of` pending (fst (st i)) (phy_up r)) (fun i => ds `sublist_of` pending (fst (st (S i))) (net_up r)) t Hmr)
    with (i := S b) as (d & Hd & _ & Pd); [| |lia|done|].
  { intros i Hi HP He. apply (kept MQ_KEY_PHY_TO_MAC r (st i) (ev i) (st (S i))); [apply Hok|apply Hstep|cbn; tauto|done|exact He|exact HP]. }
  { intros i Hi HP He. rewrite <- Hdd. by apply (mac_moves_up r (st i) (st (S i)) (ev i)). }
  destruct (leads_to ev (is_net r) (fun i => ds `sublist_of` pending (fst (st i)) (net_up r)) (fun i => exists got, ev i = NetTurn r got /\ ds `sublist_of` got) t Hnr)
    with (i := S d) as (j & Hj & _ & got & Eg & Pg); [| |lia|done|].
  { intros i Hi HP He. apply (kept MQ_KEY_MAC_TO_NET r (st i) (ev i) (st (S i))); [apply Hok|apply Hstep|cbn; tauto|done|exact He|exact HP]. }
  { intros i Hi HP He. pose proof (Hstep i) as Hst. destruct (ev i) as [m got| | |]; try discriminate. cbn in He. apply Z.eqb_eq in He as ->.
    exists got. split; [done|]. inversion Hst as [n' got' sent q q' c Hn Ht E1 E2 E3| | |]. subst. rewrite <- E1 in HP. cbn [fst] in HP.
    by rewrite (turn_got _ _ _ _ _ Ht) in HP. }
  exists j, got. split; [lia|done].
Qed.
End Medium.

(** ** The node process takes such turns *)
Lemma recvfrom_mac_turn {Q : Type} `{MsgServiceOk Q} {R : Type} (route : RouteFunctions R) `{RouteModuleOk R route} fuel (q : Q) n c r r' junk :
  In n node_ids -> net_send_mac c = net_down n -> net_recv_mac c = net_up n ->
  let ms := pending q (net_up n) in
  rfold (handle_msg route) ms r = Ok r' -> Forall fits ms -> Forall fits (all_sent route r ms) -> (length ms <= fuel)%nat ->
  exists q', recvfrom_mac route fuel q c r junk = Ok (q', r') /\ net_turn n q q' ms (all_sent route r ms).
Proof.
  intros Hn Es Er ms Hrun Hf Hs Hl. assert (Hne : net_send_mac c <> net_recv_mac c) by (rewrite Es, Er; apply node_queue_neq; [done..|by vm_compute]).
  pose proof (recvfrom_mac_spec route fuel q c r r' junk Hne) as Hspec. rewrite Es, Er in Hspec.
  destruct (Hspec Hrun Hf Hs Hl) as (q' & Hok & He & Hp & Ho). exists q'. split; [done|]. split; [done..|]. intros i Hi1 Hi2 _. by apply Ho.
Qed.

(** ** An example: node 0 sends a frame to node 1 again and again *)
Definition ex_frame : MqMsgbuf := mkMsg MESSAGE_TYPE_DATA [1; 2; 3].
Definition ex_medium (down0 phy0 up1 net1 : list MqMsgbuf) : ListQueues :=
  mkLq 10 (list_to_map [(MQ_KEY_NET_TO_MAC, down0); (MQ_KEY_MAC_TO_PHY, phy0); (MQ_KEY_PHY_TO_MAC + 1, up1); (MQ_KEY_MAC_TO_NET + 1, net1);
    (MQ_KEY_NET_TO_MAC + 1, []); (MQ_KEY_MAC_TO_NET, [])]).
Definition ex_states : list ListQueues :=
  [ex_medium [ex_frame] [] [] []; ex_medium [] [ex_frame] [] []; ex_medium [] [] [ex_frame] []; ex_medium [] [] [] [ex_frame]; ex_medium [] [] [] []].
Definition ex_events : list event := [MacTurn 0; PhyTurn; MacTurn 1; NetTurn 1 [ex_frame]; NetTurn 0 []].
Definition ex_st (i : nat) : ListQueues * SimPhyCtx := (nth (i mod 5) ex_states ex_queues, ex_phy).
Definition ex_ev (i : nat) : event := nth (i mod 5) ex_events PhyTurn.

(** A turn of a node process on bounded queues. *)
Lemma lq_net_turn n (q : ListQueues) sent : In n node_ids -> Forall fits sent ->
  net_turn n q (lq_set (lq_set q (net_up n) []) (net_down n) (lq_pending q (net_down n) ++ sent)) (lq_pending q (net_up n)) sent.
Proof.
  intros Hn Hf. assert (Hne : net_up n <> net_down n) by (apply node_queue_neq; [done..|by vm_compute]).
  split; [done| | |done|].
  - change (@pending ListQueues list_queues) with lq_pending. rewrite !lq_pending_set, Z.eqb_refl. by rewrite (proj2 (Z.eqb_neq _ _) Hne).
  - exists sent. change (@pending ListQueues list_queues) with lq_pending. rewrite lq_pending_set, Z.eqb_refl. split; [done|]. split; [done|].
    intros k Hk. split; [done|]. cbn [room list_queues lq_set lq_cap] in *. rewrite lq_pending_set, Z.eqb_refl, length_app. lia.
  - intros i H1 H2 _. apply pushed_nil_iff. change (@pending ListQueues list_queues) with lq_pending. cbn [room list_queues].
    rewrite !lq_pending_set, (proj2 (Z.eqb_neq _ _) H1), (proj2 (Z.eqb_neq _ _) H2). done.
Qed.
Lemma ex_step i : step (ex_st i) (ex_ev i) (ex_st (S i)).
Proof.
  assert (Hn0 : In 0 node_ids) by (apply in_node_ids; lia). assert (Hn1 : In 1 node_ids) by (apply in_node_ids; lia).
  unfold ex_st, ex_ev. pose proof (Nat.mod_upper_bound i 5 ltac:(lia)) as Hi.
  assert (Hs : (S i mod 5 = S (i mod 5) mod 5)%nat) by exact (Nat.Div0.add_mod 1 i 5). rewrite Hs.
  destruct (i mod 5)%nat as [|[|[|[|[|]]]]]; [..|lia]; cbn [nth ex_events].
  - apply (step_mac 0 ex_junk); [done|]. by vm_compute.
  - apply (step_phy ex_junk ex_junk). by vm_compute.
  - apply (step_mac 1 ex_junk); [done|]. by vm_compute.
  - pose proof (lq_net_turn 1 (ex_medium [] [] [] [ex_frame]) [] Hn1 ltac:(constructor)) as Ht.
    eapply step_net; [done|]. match type of Ht with net_turn _ _ ?q' _ _ => replace q' with (ex_medium [] [] [] []) in Ht by (by vm_compute) end. exact Ht.
  - pose proof (lq_net_turn 0 (ex_medium [] [] [] []) [ex_frame] Hn0 ltac:(by repeat constructor)) as Ht.
    eapply step_net; [done|]. match type of Ht with net_turn _ _ ?q' _ _ => replace q' with (ex_medium [ex_frame] [] [] []) in Ht by (by vm_compute) end. exact Ht.
Qed.

Lemma lq_fits cap l : Forall (fun e => Forall fits (snd e)) l -> forall i, Forall fits (lq_pending (mkLq cap (list_to_map l)) i).
Proof.
  intros Hl i. unfold lq_pending. cbn [lq_queues]. destruct (list_to_map l !! i) as [ms|] eqn:Ei; [|constructor].
  apply elem_of_list_to_map_2, list_elem_of_In in Ei. rewrite List.Forall_forall in Hl. exact (Hl _ Ei).
Qed.
Lemma ex_medium_ok : medium_ok (ex_st 0).
Proof.
  split; [exact ex_phy_wf| |by exists []]. intros k n _ _. apply lq_fits. by repeat constructor.
Qed.
Lemma ex_run : run ex_st ex_ev.
Proof.
  split; [exact ex_medium_ok|exact ex_step|]. intros i. unfold ex_st, ex_ev. pose proof (Nat.mod_upper_bound i 5 ltac:(lia)) as Hi.
  destruct (i mod 5)%nat as [|[|[|[|[|]]]]]; [..|lia]; cbn [nth ex_events ex_states roomy]; try done.
  - split; vm_compute; lia.
  - intros r Hr. set (need := length _). cbn [room list_queues]. assert (Hle : (length (lq_pending (ex_medium [] [ex_frame] [] []) (mac_out r)) + need <=? 10)%nat = true); [|by apply Nat.leb_le].
    revert need. apply (proj1 (forallb_forall (fun r => (length (lq_pending (ex_medium [] [ex_frame] [] []) (mac_out r)) +
      length (delivered (fun s => pending (ex_medium [] [ex_frame] [] []) (mac_in s)) ex_phy r) <=? 10)%nat) node_ids)); [by vm_compute|done].
  - split; vm_compute; lia.
Qed.
Lemma ex_often (f : event -> bool) k : (k < 5)%nat -> f (nth k ex_events PhyTurn) = true -> often ex_ev f.
Proof.
  intros Hk Hf i. exists (k + i * 5)%nat. split; [lia|]. unfold ex_ev. rewrite Nat.Div0.mod_add. by rewrite Nat.mod_small.
Qed.
Lemma frames_arrive_witness : exists j got, (5 <= j)%nat /\ ex_ev j = NetTurn 1 got /\ [ex_frame] `sublist_of` got.
Proof.
  apply (frames_arrive ex_st ex_ev 0 1 5 ex_run).
  - apply in_node_ids. lia.
  - apply in_node_ids. lia.
  - apply (ex_often _ 0); [lia|done].
  - apply (ex_often _ 1); [lia|done].
  - apply (ex_often _ 2); [lia|done].
  - apply (ex_often _ 3); [lia|done].
  - intros i _. unfold ex_st. cbn [snd]. by vm_compute.
Defined.
Lemma medium_safe_witness : exists q', poll_mq (mac_fuel (fst (ex_st 2)) 1) (fst (ex_st 2)) (mac_ctx 1) ex_junk = Ok q'.
Proof.
  apply (medium_safe (ex_st 0) (ex_st 2) ex_medium_ok); [|apply in_node_ids; lia].
  apply (reach_step _ (ex_st 1) (ex_ev 1)); [|exact (ex_step 1)]. apply (reach_step _ (ex_st 0) (ex_ev 0)); [apply reach_start|exact (ex_step 0)].
Defined.
